(* ===== verification/_CoqProject ===== *)
-Q . S2P
Prelude.v
GoStrings.v
GoStringFacts.v
Types.v
Errors.v
Budget.v
RecursiveGlob.v
PolicyRegistry.v
PolicyMatch.v
PolicyDecide.v
PolicyParse.v
Cursor.v
GrantsData.v
GrantsLifecycle.v
GrantsStore.v
GrantsDecisions.v
GrantsQuery.v
GrantsFacts.v
GrantsInvariant.v
GrantsSafety.v
GrantsReachable.v
GrantsHistory.v
GrantsVerdicts.v
GrantsRequests.v
GrantsReads.v
GrantsListing.v
StateTables.v
StateOperations.v
GrantsSQLite.v
StateFacts.v
GrantsDatabase.v
GrantsPlans.v
Admission.v
AdmissionLimits.v
Coordinator.v
CoordinatorSafety.v
DecisionService.v
GitPktLine.v
GitReceivePack.v
GitReceiveFacts.v
GitRefusal.v
GitPack.v
GitPackFacts.v
AgentStore.v
AgentLives.v
AgentHistory.v
AgentSubmissions.v
AgentExamples.v
Capability.v
OperationRuntime.v
RuntimeRuns.v
RuntimeFollows.v
RuntimeSafety.v
RuntimeInvariant.v
RuntimeExamples.v
RuntimeGrants.v
Transaction.v
TransactionSafety.v
TransactionInvariant.v
TransactionTheorems.v
TransactionExamples.v
HFGit.v
HFPolicy.v
HFCore.v
HFFacts.v
HFCompile.v
HFRules.v
HFDecide.v
HFGrant.v
HFPush.v
HFPushRuns.v
HFPushSafety.v
HFExamples.v
StrictJSON.v
SudoCatalog.v
SudoPlan.v
SudoExecutor.v
SudoSafety.v
SudoInvariant.v
SudoExamples.v
