(* ===== verification/Prelude.v ===== *)
(** * unyolo: authorization, operations, pushes and host transactions

    unyolo stands between agents and the systems they act on: an agent asks a
    broker for an operation, a static policy and the grants that operators have
    approved decide whether it may run, every use of a grant is accounted for,
    and the operation is executed at most once and recorded.  This library models
    the parts of the program that decide, account, execute and recover, and
    proves what makes them correct.  Names are those of the Go source; the
    comment in front of a definition names the function when it differs.  Paths
    are under src/.

    ** Files

    Shared:
    - Prelude: the result monad ([e1 ;;; e2], [refuse], [for_each], [collect]),
      the class [MapRange], machine integers, times, tactics and hints.
      [MapRange] is the order in which Go ranges over a map: any permutation of
      its entries, fixed per run.
    - GoStrings, GoStringFacts: the string functions of Go's library the code
      calls ([strings.TrimSpace], [Split], [path.Match], [strconv.ParseInt],
      UTF-8), and lemmas about them.
    - Types: the data of authorization/policy/types.go and registry.go, and of
      authorization/grants/grants.go.  Errors: the error tree of [fmt.Errorf]
      and [errors.Join], the sentinels, authorization/activation/failure.go.
      Budget: authorization/budget/limit.go.

    The policy, authorization/policy:
    - RecursiveGlob: the recursive path patterns of match.go and the fragment of
      [regexp] they compile to, matched by derivatives.
    - PolicyRegistry, PolicyMatch, PolicyDecide, PolicyParse: registry.go,
      match.go (with internal/copyx/map.go), decide.go with copy.go and
      values.go, parse.go with ambiguity.go and a sample policy.

    The grant store, authorization/grants:
    - Cursor: event cursors, base64 and big-endian integers.
    - GrantsData, GrantsLifecycle, GrantsStore, GrantsDecisions, GrantsQuery, in
      the order request data and load checks; expiry, events and deadlines; the
      operations of [Store]; operator decisions; listings.
    - GrantsFacts, GrantsInvariant, GrantsSafety, GrantsReachable: the invariant
      of stored data and its preservation by every operation.
    - GrantsHistory: a store in memory, an instance of every interface, and
      histories of the store.  GrantsVerdicts, GrantsRequests, GrantsReads,
      GrantsListing: the theorems about decisions, requests and uses, reads and the
      timer, and listings.

    The state database, internal/storage/state with grants/sqlite.go:
    - StateTables, StateOperations: the tables, their statements and the
      transactions on them (grants.go and plans.go; operations.go).
    - GrantsSQLite: the conversions between the store's data and the records of
      the tables, and the storage they make.  StateFacts, GrantsDatabase: it satisfies the laws of the storage interface.
      GrantsPlans: sessions of the store, immutable plans, stale snapshots, and
      what saving grants leaves alone.

    Around the store:
    - Admission, AdmissionLimits: authorization/admission.
    - Coordinator, CoordinatorSafety: authorization/coordinator.go.
    - DecisionService: authorization/decision/service.go.

    Pushes, git/protocol:
    - GitPktLine, GitReceivePack, GitRefusal, GitPack: pktline.go,
      receive_pack.go, refusal.go, pack.go.  GitReceiveFacts, GitPackFacts: their
      theorems.

    Operations:
    - AgentStore: agent/runtime/store.go and agent/v1/types.go, on the tables.
      AgentLives, AgentHistory, AgentSubmissions, AgentExamples: the life of an operation in every history of the store.
    - Capability: operation/capability/catalog.go.  OperationRuntime: the adapters
      and the runtime of operation/runtime.  RuntimeRuns, RuntimeFollows,
      RuntimeSafety, RuntimeInvariant, RuntimeExamples, RuntimeGrants: runs of the runtime and what holds in all of them.

    Host transactions, deployment/transaction with internal/securefile/write.go:
    - Transaction: the journal and its programs.  TransactionSafety: hosts, crashes
      and a weakest precondition.  TransactionInvariant: the invariant of hosts.  TransactionTheorems, TransactionExamples: what follows
      from it.

    The Hugging Face policy, brokers/huggingface/internal/policy:
    - HFPolicy, HFCore: policy.go and core.go with internal/opcatalog/catalog.go.
      HFFacts, HFCompile, HFRules, HFDecide: compiled rules match and decide what
      the rules of the file say, also in the discovery step.  HFExamples: a scope file and
      pushes under it.

    Hugging Face pushes, brokers/huggingface/internal:
    - HFGit: gitproxy/receive.go, report.go and packobjects.go.  HFGrant: hfgrant and
      the rules that active grants add to a decision.  HFPush: gitproxy/enforce.go
      and httpapi/receive_pack.go, with the parts of authorization.go, forwarding.go
      and audit_recording.go that pushes use.
    - HFPushRuns: runs of the handler of a push, and what each part of it shows when
      it does not refuse.  HFPushSafety: what holds in all runs.

    The sudo broker, brokers/sudo/internal with internal/strictjson:
    - StrictJSON: the check for duplicate keys over the tokens of a text.
    - SudoCatalog: catalog/catalog.go, over a file system (class [Host]) and the
      functions of path/filepath it uses.  SudoPlan: plan/plan.go, sudopolicy and
      the trusted chains of hostcheck.
    - SudoExecutor: executorprotocol/protocol.go, executorserver/state.go and
      server.go, executorclient/client.go, the verdict of operations.go, and
      privexec: the runner, the output budget and the child on Linux.
    - SudoSafety: what the child has done before it executes a program, the budget,
      the frames; runs of the helper and what each connection has done.
      SudoInvariant: the invariant of the state file over all runs, and the theorems.
      SudoExamples: a catalog and a helper at work.

    ** How the parts interact

    A policy is a registry and a list of rules; [Parse] normalizes a decoded
    document into it and [Decide] reads it together with the active grants that
    the store returns ([ActivePolicyGrants], through [toPolicyGrant]).  The Hugging
    Face broker compiles its own rules to three such policies and asks them.

    The store is a [World]: what storage holds and how often the clock, the source
    of identifiers and the event channel were used.  An operation is a function
    in the state monad [Eff]; the store's mutex makes each of them one atomic
    step, so the interleavings of callers are the sequences of steps of
    [store_step].  Storage is the class [GrantStorage]; its laws, up to the order of
    rows, say that a write that is acknowledged is read back and that one that
    fails left the old or the new state.  The store in memory (GrantsHistory) and
    the database (GrantsDatabase) satisfy them, so every theorem about the store
    holds of both.  The agent store runs in the same [World] on the same
    database; the last part of GrantsPlans is what each may assume of the other.

    The coordinator joins a decision function, the grant store and a builder of
    approval requests.  The runtime drives both stores, the coordinator and the
    provider: its functions are trees of atomic actions, whose goroutines
    interleave with each other, with the rest of the system and with crashes.  The
    programs of a host transaction are trees of host calls, each of which may
    fail or be the last before a crash.  The handling of a push is a tree of calls
    to the mirror, the store, the plan validator, upstream and the client, each
    of which may be answered with any value: the theorems about pushes assume
    nothing of them, and say which answers every later call rests on.

    The root helper of the sudo broker resolves what it runs from its own catalog and
    host, whatever the frontend says, and remembers executions in one file.  A
    connection is a tree of calls; the calls of the state file are atomic, those of
    all connections interleave with each other and with crashes of the process, and
    the clock answers anything.  The plan of an execution binds a grant of the
    store: [PrepareBind] and the validator of plan.go use the data of the grant
    store and the plans table of the database.

    ** What the theorems show

    - Policy: the decision is exactly the one of a precedence specification that says
      itself when a rule or a grant covers a request; allowed requests are characterised; deny rules only restrict; the
      decision does not depend on map order or on the defensive copies;
      normalized policies are well formed and their grant policies bounded.
    - Store: every history of operations, delays and storage failures keeps the
      invariant and only extends what was stored; no grant is overdrawn;
      decisions, committed uses and closed grants are final; what a request answers
      and adds, on every branch and with every failure of storage; the stored effect of
      a decision, field by field, and its replay for the same command only; cursors visit everything once; the timer
      is exact.  The histories assume a clock that does not run backwards and
      identifiers that are not reused, and GrantsPlans shows that the first
      assumption is needed.
    - Database: a save of data whose JSON texts are UTF-8 is read back; a stale snapshot changes nothing; plans are
      stored under their digest and never change.
    - Admission: reservations are the open permits and within the limits; the rate
      of a client is bounded.  Coordinator: an answer without an error
      rests on an allow rule, a stored usable grant, or an approval request within the
      bounds of the matching rule; every other answer is an error that allows nothing.
      Decision service: the store decides the command as it was given, and the one
      audit event of every path tells it and its outcome field by field.
    - Pushes: accepted commands are valid; a push is read back as written; a
      refusal is the report Git expects; every loop ends; extraction is within
      its limits.
    - Operations: each step of a history inserts a row, advances it by one transition of the
      state machine, or deletes it more than thirty days after its end, at readings of the
      clock of that step; what follows is bounded by such deletions: a key names one
      operation, a worker claims it once, and a run of the runtime executes it once,
      unless the clock read two instants more than thirty days apart.  An execution
      uses its grant where it rests on one, and a success is proven.
    - Host transactions: the journal is written ahead of every effect; a step is finalized
      only under a journal that is committed on disk; undo and finalization exclude each other; a nil result means commitment; recovery
      succeeds when its undos can.
    - Hugging Face policy: its decisions, through the compiled policies, are those
      of a reference definition on the rules; the discovery step of a push never
      refuses a push that the policy would allow.
    - Hugging Face pushes: what reaches upstream is classified under the lock of the
      mirror and authorized ref by ref; the uses it rests on are reserved before, and
      after it the store is asked to settle each of them by one verdict that upstream's
      answer justifies, read by a specification of Git's report; a use stays reserved
      when the store answers that with a failure; the
      lock is free while an operator is waited for, and at the end.
    - Sudo: a plan the helper accepts is an entry of its catalog for an account of its
      host; a child is started only for an authorized, unexpired, durably recorded
      request, at most once per execution id while its record is kept; the answers
      tell the truth about what was started; the child executes only after it has
      dropped its identity; output is kept exactly up to its limit.
    - GrantsPlans, AgentExamples, AdmissionLimits, GitReceiveFacts, HFExamples and
      SudoExamples also run sessions in which the code departs from its intent.

    ** What stands for code outside the repository

    Classes with their documented laws: [JSON], [RawJSON], [AnyJSON],
    [JournalJSON] and [CoreJSON] (encoding/json: what is written is read back; [JSONLaws]
    say so of values whose texts are UTF-8 only, and [JSONRefuses] has the codec of a
    database refuse the others, where encoding/json writes U+FFFD),
    [AttrJSON] (the attributes of a grant, without laws), [JSONTokens] (delimiters
    are nested), [ExecutorJSON] (what is written is read back, what is read is
    UTF-8), [CatalogJSON] and [PlanJSON] (without laws), [Host] (links of
    absolute paths resolve to absolute paths),
    [PktLine] and [GoGit] (go-git), SQLite as the arguments that say which
    statements it admits and how a transaction begins and ends.  SHA-256, SHA-1
    and random identifiers are functions.  Each is instantiated where a theorem
    that depends on it is applied to a concrete input.

    ** Integers, times and fuel

    Times are wall-clock nanoseconds in [Z]; counters and revisions are [Z]
    without wrap-around, as 2^63 operations are out of reach; event sequence
    numbers are bounded by 2^64 where they are encoded; admission counters, pack
    sizes and durations wrap at 64 bits where the code computes with them.
    Recursions are structural except those of [path.Match], UTF-8 decoding, the
    regular expression parser and the loops over pkt-lines, whose fuel is the
    length of their input (plus one), of which every round consumes some; the
    variable-length integers of a delta, whose nine rounds the code counts itself;
    and decimal digits, with the logarithm of the number.  The readers that
    follow cursors take as fuel one more than the number of records, proved to be
    enough.  The programs of the runtime, of host transactions and of pushes
    need none, nor do those of the sudo helper and its child.  The check of strict
    JSON has twice the number of tokens and two, the search for the existing parent of
    a missing path the length of the path; both are proved to be enough.

    ** Not modelled

    The JSON file storage of grants; opening, locking, exporting and maintaining
    the database; the waits that block (WaitForEvents, WaitForDecision, the agent
    store's Wait) and the timing of the runtime's worker loop, which appears as
    the rule that starts rounds at any time; reading configuration files; the
    internals of go-git; the loss of power after a rename.  Of the Hugging Face
    broker, the git commands of the mirror, the plans of hfplan, routing and the
    forwarding of other requests: pushes call the first two.  Of the sudo broker, the
    deadlines of connections (a frame that is sent may not arrive), the refusal of
    connections beyond the limit, two helpers on one state file, the child of macOS,
    routes, presentation, setup and diagnosis.  The rest of
    the brokers, transports, consoles, commands and the deployment engine move
    bytes and files between services and are not modelled. *)

From stdpp Require Export base tactics list gmap strings sets fin_maps sorting.
From Stdlib Require Export ZArith Lia Bool.

#[global] Set Default Goal Selector "!".

(** ** Results

    A Go function returning [(T, error)] is a [result E T]; one returning only
    an [error] is a [result E unit], where [Ok tt] is the nil error. *)

Inductive result (E A : Type) : Type :=
| Ok (value : A)
| Err (failure : E).

Arguments Ok {E A} value.
Arguments Err {E A} failure.

#[export] Instance result_ret {E} : MRet (result E) := λ A a, Ok a.
#[export] Instance result_bind {E} : MBind (result E) :=
  λ A B f r, match r with Ok a => f a | Err e => Err e end.
#[export] Instance result_map {E} : FMap (result E) :=
  λ A B f r, match r with Ok a => Ok (f a) | Err e => Err e end.
#[export] Instance result_eq_dec {E A} `{EqDecision E, EqDecision A} :
  EqDecision (result E A).
Proof. solve_decision. Defined.

Definition is_ok {E A} (r : result E A) : bool :=
  match r with Ok _ => true | Err _ => false end.

Declare Scope go_scope.
Delimit Scope go_scope with go.
Open Scope go_scope.

(** [e1 ;;; e2] is the Go idiom [if err := e1; err != nil { return err }; e2]. *)
Notation "e1 ;;; e2" := (mbind (λ _ : unit, e2) e1)
  (at level 100, e2 at level 200, right associativity) : go_scope.

(** [refuse c e] is [if c { return e }]. *)
Definition refuse {E} (condition : bool) (e : E) : result E unit :=
  if condition then Err e else Ok tt.

(** [option_ok o e] is the comma-ok idiom with an error return. *)
Definition option_ok {E A} (o : option A) (e : E) : result E A :=
  match o with Some a => Ok a | None => Err e end.

(** A [for _, v := range values] loop whose body returns the first error. *)
Fixpoint for_each {E A} (f : A → result E unit) (values : list A) : result E unit :=
  match values with
  | [] => Ok tt
  | v :: rest => f v ;;; for_each f rest
  end.

(** A loop that maps every element and stops at the first error. *)
Fixpoint collect {E A B} (f : A → result E B) (values : list A) : result E (list B) :=
  match values with
  | [] => Ok []
  | v :: rest => b ← f v; bs ← collect f rest; Ok (b :: bs)
  end.

(** ** Map iteration

    Go leaves the iteration order of a map unspecified.  Every definition that
    ranges over a map takes the order from an instance of [MapRange], so each
    theorem about such a definition holds for every order Go may choose. *)

Class MapRange : Type := {
  map_range : ∀ {A : Type}, gmap string A → list (string * A);
  map_range_perm : ∀ {A : Type} (m : gmap string A), map_range m ≡ₚ map_to_list m
}.

(** The order of stdpp's canonical enumeration, used to evaluate witnesses. *)
Definition canonical_range : MapRange :=
  {| map_range A m := map_to_list m; map_range_perm A m := Permutation_refl _ |}.

(** ** Machine integers, times and durations *)

Definition max_int64 : Z := 9223372036854775807.

(** Go's [int] and [int64] on the supported 64-bit platforms wrap around. *)
Definition wrap64 (z : Z) : Z := (z + 2 ^ 63) `mod` (2 ^ 64) - 2 ^ 63.

(** [time.Duration] counts nanoseconds in an [int64]. *)
Abbreviation Duration := Z (only parsing).
Definition nanosecond : Duration := 1.
Definition second : Duration := 1000000000.
Definition minute : Duration := 60000000000.
Definition hour : Duration := 3600000000000.

(** An instant after [UTC()] is its number of nanoseconds since Go's zero
    [time.Time]: [UTC()] drops the monotonic reading, so comparisons are on
    the wall clock only. *)
Abbreviation Time := Z (only parsing).
Definition time_is_zero (t : Time) : bool := (t =? 0)%Z.
Definition time_before (t u : Time) : bool := (t <? u)%Z.
Definition time_after (t u : Time) : bool := (u <? t)%Z.

(** ** Tactics *)

(** Take apart the monadic bind of a successful computation. *)
Ltac bind_ok :=
  repeat match goal with
  | H : Ok _ = Ok _ |- _ => simplify_eq H
  | H : Err _ = Err _ |- _ => simplify_eq H
  | H : Ok _ = Err _ |- _ => discriminate H
  | H : Err _ = Ok _ |- _ => discriminate H
  | H : mbind ?f ?r = Ok _ |- _ =>
      let E := fresh "Hstep" in destruct r eqn:E; simpl in H; [|discriminate H]
  end.

(** Turn boolean hypotheses into propositions. *)
Ltac bool_to_prop :=
  repeat match goal with
  | H : _ && _ = true |- _ => apply andb_true_iff in H as [? ?]
  | H : _ || _ = false |- _ => apply orb_false_iff in H as [? ?]
  | H : negb _ = true |- _ => apply negb_true_iff in H
  | H : negb _ = false |- _ => apply negb_false_iff in H
  | H : bool_decide _ = true |- _ => apply bool_decide_eq_true in H
  | H : bool_decide _ = false |- _ => apply bool_decide_eq_false in H
  | H : (_ =? _)%Z = true |- _ => apply Z.eqb_eq in H
  | H : (_ =? _)%Z = false |- _ => apply Z.eqb_neq in H
  | H : (_ <? _)%Z = true |- _ => apply Z.ltb_lt in H
  | H : (_ <? _)%Z = false |- _ => apply Z.ltb_ge in H
  | H : (_ <=? _)%Z = true |- _ => apply Z.leb_le in H
  | H : (_ <=? _)%Z = false |- _ => apply Z.leb_gt in H
  | H : Is_true _ |- _ => apply Is_true_true in H
  end.

(** ** Shared lemmas *)

Lemma bind_ok_iff {E A B} (f : A → result E B) (r : result E A) (b : B) :
  mbind f r = Ok b ↔ ∃ a, r = Ok a ∧ f a = Ok b.
Proof. destruct r; simpl; naive_solver. Qed.

Lemma refuse_ok {E} (c : bool) (e : E) : refuse c e = Ok tt ↔ c = false.
Proof. destruct c; simpl; naive_solver. Qed.

Lemma seq_ok {E A} (r : result E unit) (k : result E A) (a : A) :
  (r ;;; k) = Ok a ↔ r = Ok tt ∧ k = Ok a.
Proof. destruct r as [[]|]; simpl; naive_solver. Qed.

Lemma for_each_ok {E A} (f : A → result E unit) (l : list A) :
  for_each f l = Ok tt ↔ Forall (λ a, f a = Ok tt) l.
Proof.
  induction l as [|a l IH]; simpl; [done|].
  rewrite seq_ok, IH, Forall_cons. done.
Qed.

(** A loop of checks fails exactly when one of its checks does. *)
Lemma for_each_err {E A} (f : A → result E unit) (l : list A) (e : E) :
  for_each f l = Err e → ∃ a, a ∈ l ∧ f a = Err e.
Proof.
  induction l as [|a l IH]; simpl; [done|].
  destruct (f a) as [[]|e'] eqn:Hf; simpl.
  - intros (b & Hb & He)%IH. exists b. split; [by right|done].
  - intros [= ->]. exists a. split; [by left|done].
Qed.

(** The verdict of a loop of checks does not depend on the iteration order. *)
Lemma for_each_perm {E A} (f : A → result E unit) (l l' : list A) :
  l ≡ₚ l' → for_each f l = Ok tt ↔ for_each f l' = Ok tt.
Proof. intros Hp. by rewrite !for_each_ok, Hp. Qed.

Lemma collect_ok {E A B} (f : A → result E B) (l : list A) (bs : list B) :
  collect f l = Ok bs ↔ Forall2 (λ a b, f a = Ok b) l bs.
Proof.
  revert bs; induction l as [|a l IH]; intros bs; simpl.
  - split; [intros [= <-]; constructor|]. by inversion 1.
  - rewrite bind_ok_iff. setoid_rewrite bind_ok_iff. split.
    + intros (b & Hb & bs' & Hbs & [= <-]). constructor; [done|]. by apply IH.
    + inversion 1 as [|? b ? bs' Hb Hbs]; subst.
      exists b. split; [done|]. exists bs'. split; [by apply IH|done].
Qed.

Section map_range_lemmas.
Context {R : MapRange}.

Lemma elem_of_map_range {A} (m : gmap string A) (k : string) (v : A) :
  (k, v) ∈ map_range m ↔ m !! k = Some v.
Proof. by rewrite map_range_perm, elem_of_map_to_list. Qed.

Lemma NoDup_map_range {A} (m : gmap string A) : NoDup (map_range m).*1.
Proof. rewrite map_range_perm. apply NoDup_fst_map_to_list. Qed.

Lemma map_range_empty {A} : map_range (∅ : gmap string A) = [].
Proof.
  apply Permutation_nil. symmetry. rewrite map_range_perm. by rewrite map_to_list_empty.
Qed.

(** A boolean loop over a map looks at every entry, in any order. *)
Lemma forallb_map_range {A} (f : string * A → bool) (m : gmap string A) :
  forallb f (map_range m) = true ↔ ∀ k v, m !! k = Some v → f (k, v) = true.
Proof.
  rewrite forallb_forall. split.
  - intros H k v Hk. apply H. apply list_elem_of_In. by apply elem_of_map_range.
  - intros H [k v] Hin. apply H. apply list_elem_of_In in Hin.
    by apply elem_of_map_range.
Qed.

Lemma for_each_map_range {E A} (f : string * A → result E unit) (m : gmap string A) :
  for_each f (map_range m) = Ok tt ↔ ∀ k v, m !! k = Some v → f (k, v) = Ok tt.
Proof.
  rewrite for_each_ok, Forall_forall. split.
  - intros H k v Hk. apply H. by apply elem_of_map_range.
  - intros H [k v] Hin. apply H. by apply elem_of_map_range.
Qed.
End map_range_lemmas.

Lemma existsb_elem_of {A} (f : A → bool) (l : list A) :
  existsb f l = true ↔ ∃ a, a ∈ l ∧ f a = true.
Proof. rewrite existsb_exists. by setoid_rewrite list_elem_of_In. Qed.

Lemma forallb_elem_of {A} (f : A → bool) (l : list A) :
  forallb f l = true ↔ ∀ a, a ∈ l → f a = true.
Proof. rewrite forallb_forall. by setoid_rewrite list_elem_of_In. Qed.

(** Decides a property of all small integers by evaluating it on each. *)
Lemma check_below (n : nat) (f : Z → bool) :
  forallb f (Z.of_nat <$> seq 0 n) = true → ∀ z, (0 ≤ z < Z.of_nat n)%Z → f z = true.
Proof.
  rewrite forallb_elem_of. intros H z Hz. apply H.
  apply list_elem_of_fmap. exists (Z.to_nat z). split; [lia|]. apply elem_of_seq. lia.
Qed.

Section bits.
Local Open Scope Z_scope.

Lemma testbit_below (z n i : Z) : 0 <= z < 2 ^ n → n <= i → Z.testbit z i = false.
Proof.
  intros [H0 Hz] Hi. destruct (Z.eq_dec z 0) as [->|Hne]; [apply Z.bits_0|].
  apply Z.bits_above_log2; [done|].
  eapply Z.lt_le_trans; [|exact Hi]. apply Z.log2_lt_pow2; lia.
Qed.

(** An or of bit groups that do not overlap is a sum. *)
Lemma lor_shiftl_add (x y k : Z) :
  0 <= k → 0 <= y < 2 ^ k → Z.lor (Z.shiftl x k) y = x * 2 ^ k + y.
Proof.
  intros Hk Hy. rewrite <- Z.shiftl_mul_pow2 by done.
  rewrite <- Z.lxor_lor, Z.add_nocarry_lxor; [done| |].
  all: apply Z.bits_inj'; intros i Hi; rewrite Z.land_spec, Z.bits_0;
    destruct (Z.lt_ge_cases i k);
    [rewrite Z.shiftl_spec_low by done; done|rewrite (testbit_below y k i) by done;
     apply andb_false_r].
Qed.

Lemma shiftr_div (x k : Z) : 0 <= k → Z.shiftr x k = x / 2 ^ k.
Proof. apply Z.shiftr_div_pow2. Qed.

Lemma shiftl_mul (x k : Z) : 0 <= k → Z.shiftl x k = x * 2 ^ k.
Proof. apply Z.shiftl_mul_pow2. Qed.

Lemma land_mod (x k : Z) : 0 <= k → Z.land x (2 ^ k - 1) = x mod 2 ^ k.
Proof. intros Hk. rewrite <- Z.land_ones by done. f_equal. by rewrite Z.ones_equiv, <- Z.sub_1_r. Qed.

End bits.

Lemma wrap64_small (z : Z) : (- 2 ^ 63 ≤ z < 2 ^ 63)%Z → wrap64 z = z.
Proof.
  intros Hz. unfold wrap64. rewrite Z.mod_small; lia.
Qed.

Lemma wrap64_range (z : Z) : (- 2 ^ 63 ≤ wrap64 z < 2 ^ 63)%Z.
Proof.
  unfold wrap64. pose proof (Z.mod_pos_bound (z + 2 ^ 63) (2 ^ 64) ltac:(lia)). lia.
Qed.

Create HintDb go.
Create Rewrite HintDb rew_go.

#[export] Hint Resolve elem_of_map_range NoDup_map_range : go.
#[export] Hint Rewrite @bind_ok_iff @seq_ok @refuse_ok @for_each_ok @collect_ok : rew_go.
