(* ===== verification/GoStrings.v ===== *)
(** * The Go string library the authorization packages use

    Go strings are byte strings, so a Rocq [string] (a list of 8-bit [ascii])
    is an exact model.  This file gives the standard-library functions the
    sources call: UTF-8 decoding, [strings.TrimSpace], [Split], [Fields],
    [HasPrefix], [Contains], [Count], [strconv.ParseInt], [path.Match] and
    [unicode.IsControl]. *)

From S2P Require Export Prelude.
From Stdlib Require Import Ascii.

Local Open Scope Z_scope.

(** ** Bytes and lengths *)

Definition byte_of (c : ascii) : Z := Z.of_N (N_of_ascii c).

(** [len(s)] *)
Definition len (s : string) : Z := Z.of_nat (String.length s).

Definition is_empty (s : string) : bool :=
  match s with EmptyString => true | _ => false end.

Fixpoint list_of_string (s : string) : list ascii :=
  match s with EmptyString => [] | String c t => c :: list_of_string t end.

Fixpoint string_of_list (l : list ascii) : string :=
  match l with [] => EmptyString | c :: t => String c (string_of_list t) end.

(** ** UTF-8 *)

Definition rune_error : Z := 65533.

Definition is_cont (b lo hi : Z) : bool := (lo <=? b) && (b <=? hi).

(** [utf8.DecodeRuneInString]: the rune and its width; an invalid encoding is
    [(RuneError, 1)] and the empty string [(RuneError, 0)]. *)
Definition decode_rune (s : string) : Z * nat :=
  match s with
  | EmptyString => (rune_error, 0%nat)
  | String c0 t0 =>
    let b0 := byte_of c0 in
    if b0 <? 128 then (b0, 1%nat)
    else if (b0 <? 194) || (244 <? b0) then (rune_error, 1%nat)
    else
      match t0 with
      | EmptyString => (rune_error, 1%nat)
      | String c1 t1 =>
        let b1 := byte_of c1 in
        let lo := if b0 =? 224 then 160 else if b0 =? 240 then 144 else 128 in
        let hi := if b0 =? 237 then 159 else if b0 =? 244 then 143 else 191 in
        if negb (is_cont b1 lo hi) then (rune_error, 1%nat)
        else if b0 <? 224 then ((b0 - 192) * 64 + (b1 - 128), 2%nat)
        else
          match t1 with
          | EmptyString => (rune_error, 1%nat)
          | String c2 t2 =>
            let b2 := byte_of c2 in
            if negb (is_cont b2 128 191) then (rune_error, 1%nat)
            else if b0 <? 240
            then ((b0 - 224) * 4096 + (b1 - 128) * 64 + (b2 - 128), 3%nat)
            else
              match t2 with
              | EmptyString => (rune_error, 1%nat)
              | String c3 _ =>
                let b3 := byte_of c3 in
                if negb (is_cont b3 128 191) then (rune_error, 1%nat)
                else ((b0 - 240) * 262144 + (b1 - 128) * 4096 + (b2 - 128) * 64
                      + (b3 - 128), 4%nat)
              end
          end
      end
  end.

(** The segments a [for _, r := range s] loop visits: each rune, whether its
    encoding is valid, and its bytes. *)
Record segment : Type := Segment { seg_rune : Z; seg_valid : bool; seg_bytes : string }.

Fixpoint segments_from (skip : nat) (s : string) : list segment :=
  match s with
  | EmptyString => []
  | String _ t =>
    match skip with
    | S k => segments_from k t
    | O =>
      let '(r, n) := decode_rune s in
      Segment r (negb ((r =? rune_error) && (n =? 1)%nat)) (String.substring 0 n s)
        :: segments_from (n - 1) t
    end
  end.

Definition segments (s : string) : list segment := segments_from 0 s.

(** The runes of a string, [U+FFFD] standing for each invalid byte. *)
Definition runes (s : string) : list Z := seg_rune <$> segments s.

(** [utf8.ValidString] *)
Definition valid_utf8 (s : string) : bool := forallb seg_valid (segments s).

Definition concat_segments (l : list segment) : string :=
  foldr (λ g acc, seg_bytes g +:+ acc) EmptyString l.

(** [unicode.IsControl]: category Cc. *)
Definition is_control (r : Z) : bool :=
  ((0 <=? r) && (r <=? 31)) || ((127 <=? r) && (r <=? 159)).

(** [unicode.IsSpace] *)
Definition is_space (r : Z) : bool :=
  ((9 <=? r) && (r <=? 13)) || (r =? 32) || (r =? 133) || (r =? 160) || (r =? 5760)
  || ((8192 <=? r) && (r <=? 8202)) || (r =? 8232) || (r =? 8233) || (r =? 8239)
  || (r =? 8287) || (r =? 12288).

Fixpoint drop_spaces (l : list segment) : list segment :=
  match l with
  | [] => []
  | g :: t => if is_space (seg_rune g) then drop_spaces t else l
  end.

(** [strings.TrimSpace].  Decoding from the end of a string meets the same
    segments as decoding from its start, because no valid encoding contains
    another's first byte. *)
Definition trim_space (s : string) : string :=
  concat_segments (rev (drop_spaces (rev (drop_spaces (segments s))))).

(** [strings.TrimSpace(s) == ""] *)
Definition is_blank (s : string) : bool := is_empty (trim_space s).

(** [strings.Fields]: the maximal runs of non-space segments. *)
Fixpoint fields_from (word : list segment) (l : list segment) : list string :=
  let flush := match word with [] => [] | _ => [concat_segments (rev word)] end in
  match l with
  | [] => flush
  | g :: t =>
    if is_space (seg_rune g) then flush ++ fields_from [] t
    else fields_from (g :: word) t
  end.

Definition fields (s : string) : list string := fields_from [] (segments s).

(** ** Searching *)

(** [strings.HasPrefix(s, p)] *)
Fixpoint has_prefix (p s : string) : bool :=
  match p, s with
  | EmptyString, _ => true
  | String a p', String b s' => Ascii.eqb a b && has_prefix p' s'
  | _, EmptyString => false
  end.

Fixpoint string_rev_append (s acc : string) : string :=
  match s with EmptyString => acc | String c t => string_rev_append t (String c acc) end.

Definition string_rev (s : string) : string := string_rev_append s EmptyString.

(** [strings.HasSuffix(s, p)] *)
Definition has_suffix (p s : string) : bool := has_prefix (string_rev p) (string_rev s).

Fixpoint drop_bytes (n : nat) (s : string) : string :=
  match n, s with
  | O, _ => s
  | S n', String _ t => drop_bytes n' t
  | S _, EmptyString => EmptyString
  end.

(** [strings.TrimSuffix(s, p)] *)
Definition trim_suffix (p s : string) : string :=
  if has_suffix p s then String.substring 0 (String.length s - String.length p) s else s.

(** [strings.Contains(s, p)] *)
Fixpoint contains (p s : string) : bool :=
  has_prefix p s || match s with EmptyString => false | String _ t => contains p t end.

(** [strings.ContainsAny(s, chars)] for ASCII [chars]. *)
Fixpoint contains_any (chars s : string) : bool :=
  match s with
  | EmptyString => false
  | String c t => contains (String c EmptyString) chars || contains_any chars t
  end.

(** [strings.Count(s, c)] for a one-byte separator. *)
Fixpoint count_byte (c : ascii) (s : string) : Z :=
  match s with
  | EmptyString => 0
  | String d t => (if Ascii.eqb c d then 1 else 0) + count_byte c t
  end.

(** [strings.IndexByte]: the text before and after the first occurrence. *)
Fixpoint cut_byte (c : ascii) (s : string) : option (string * string) :=
  match s with
  | EmptyString => None
  | String d t =>
    if Ascii.eqb c d then Some (EmptyString, t)
    else '(a, b) ← cut_byte c t; Some (String d a, b)
  end.

(** [strings.Split(s, c)] for a one-byte separator. *)
Fixpoint split_from (c : ascii) (word : string) (s : string) : list string :=
  match s with
  | EmptyString => [string_rev word]
  | String d t =>
    if Ascii.eqb c d then string_rev word :: split_from c EmptyString t
    else split_from c (String d word) t
  end.

Definition split_byte (c : ascii) (s : string) : list string := split_from c EmptyString s.

(** [strings.Join] *)
Fixpoint join (sep : string) (l : list string) : string :=
  match l with
  | [] => EmptyString
  | [s] => s
  | s :: t => s +:+ sep +:+ join sep t
  end.

(** Byte-wise order, the order of Go's [<] on strings. *)
Fixpoint string_compare (s t : string) : comparison :=
  match s, t with
  | EmptyString, EmptyString => Eq
  | EmptyString, _ => Lt
  | _, EmptyString => Gt
  | String a s', String b t' =>
    match byte_of a ?= byte_of b with
    | Eq => string_compare s' t'
    | r => r
    end
  end.

Definition string_ltb (s t : string) : bool :=
  match string_compare s t with Lt => true | _ => false end.

(** ** [strconv.ParseInt(s, 10, 64)] *)

Definition digit_value (c : ascii) : option Z :=
  let b := byte_of c in
  if (48 <=? b) && (b <=? 57) then Some (b - 48) else None.

Fixpoint parse_digits (acc : Z) (s : string) : option Z :=
  match s with
  | EmptyString => Some acc
  | String c t => d ← digit_value c; parse_digits (acc * 10 + d) t
  end.

(** The parsed value, or [None] for a syntax or range error.  The digits are
    read in unbounded integers and the range is checked at the end: Go stops
    at the first overflow, and both report an error then. *)
Definition parse_int (s : string) : option Z :=
  let '(negative, digits) :=
    match s with
    | String c t =>
      if byte_of c =? 45 then (true, t)
      else if byte_of c =? 43 then (false, t)
      else (false, s)
    | EmptyString => (false, s)
    end in
  if is_empty digits then None
  else
    n ← parse_digits 0 digits;
    let v := if negative then - n else n in
    if (- 9223372036854775808 <=? v) && (v <=? max_int64) then Some v else None.

(** [strconv.FormatInt(z, 10)]: the digits of a non-negative number, with fuel for each. *)
Fixpoint format_digits (fuel : nat) (z : Z) (acc : string) : string :=
  match fuel with
  | O => acc
  | S fuel' =>
      let acc := String (ascii_of_nat (Z.to_nat (48 + z mod 10))) acc in
      if z <? 10 then acc else format_digits fuel' (z / 10) acc
  end.

Definition FormatInt (z : Z) : string :=
  if z <? 0 then String "-" (format_digits (S (Z.to_nat (Z.log2 (- z)))) (- z) EmptyString)
  else format_digits (S (Z.to_nat (Z.log2 z))) z EmptyString.

(** ** [path.Match]

    The algorithm of Go's [path] package: the pattern is cut into chunks that
    start at a run of stars, each chunk is matched at the first position where
    it fits, and a star never skips a slash. *)

Local Notation star_char := "*"%char.
Local Notation slash_char := "/"%char.
Local Notation backslash_char := "\"%char.

(** [getEsc]: one possibly escaped character of a class, [None] for
    [ErrBadPattern]. *)
Definition get_esc (chunk : string) : option (Z * string) :=
  let decode (rest : string) : option (Z * string) :=
    let '(r, n) := decode_rune rest in
    if (r =? rune_error) && (n =? 1)%nat then None
    else
      let after := drop_bytes n rest in
      if is_empty after then None else Some (r, after) in
  match chunk with
  | EmptyString => None
  | String c t =>
    if Ascii.eqb c "-" || Ascii.eqb c "]" then None
    else if Ascii.eqb c backslash_char
    then if is_empty t then None else decode t
    else decode chunk
  end.

(** The ranges of a character class; [None] for [ErrBadPattern], otherwise
    whether the rune is in the class and the pattern after [\]]. *)
Fixpoint match_class (fuel : nat) (r : Z) (chunk : string) (nrange matched : bool)
  : option (bool * string) :=
  match fuel with
  | O => None
  | S fuel' =>
    match chunk with
    | String "]" t => if nrange then Some (matched, t) else None
    | _ =>
      '(lo, rest) ← get_esc chunk;
      '(hi, rest) ← match rest with
                    | String "-" rest' => get_esc rest'
                    | _ => Some (lo, rest)
                    end;
      match_class fuel' r rest true (matched || ((lo <=? r) && (r <=? hi)))
    end
  end.

(** [matchChunk]: [None] is [ErrBadPattern], [Some None] no match and
    [Some (Some rest)] a match that leaves [rest] of the subject. *)
Fixpoint match_chunk (fuel : nat) (failed : bool) (chunk s : string)
  : option (option string) :=
  match fuel with
  | O => None
  | S fuel' =>
    let failed0 := failed || is_empty s in
    match chunk with
    | EmptyString => Some (if failed then None else Some s)
    | String "[" t =>
      let '(r, n) := if failed0 then (0, 0%nat) else decode_rune s in
      let s' := if failed0 then s else drop_bytes n s in
      let '(negated, t') := match t with
                            | String "^" u => (true, u)
                            | _ => (false, t)
                            end in
      '(matched, rest) ← match_class (S (String.length t')) r t' false false;
      match_chunk fuel' (failed0 || Bool.eqb matched negated) rest s'
    | String "?" t =>
      match s with
      | String c _ =>
        if failed0 then match_chunk fuel' true t s
        else match_chunk fuel' (Ascii.eqb c slash_char) t
               (drop_bytes (snd (decode_rune s)) s)
      | EmptyString => match_chunk fuel' true t s
      end
    | String c t =>
      let literal := if Ascii.eqb c backslash_char then t else chunk in
      match literal with
      | EmptyString => None
      | String d t' =>
        match s with
        | String e s' =>
          if failed0 then match_chunk fuel' true t' s
          else match_chunk fuel' (negb (Ascii.eqb d e)) t' s'
        | EmptyString => match_chunk fuel' true t' s
        end
      end
    end
  end.

Definition match_chunk_at (chunk s : string) : option (option string) :=
  match_chunk (S (String.length chunk)) false chunk s.

Fixpoint strip_stars (p : string) : bool * string :=
  match p with
  | String "*" t => (true, snd (strip_stars t))
  | _ => (false, p)
  end.

(** The chunk up to the next star outside a class, and what follows it. *)
Fixpoint scan_body (inrange escaped : bool) (p : string) : string * string :=
  match p with
  | EmptyString => (EmptyString, EmptyString)
  | String c t =>
    let continue inrange' escaped' :=
      let '(a, b) := scan_body inrange' escaped' t in (String c a, b) in
    if escaped then continue inrange false
    else if Ascii.eqb c backslash_char then continue inrange true
    else if Ascii.eqb c "[" then continue true false
    else if Ascii.eqb c "]" then continue false false
    else if Ascii.eqb c star_char && negb inrange then (EmptyString, p)
    else continue inrange false
  end.

(** [scanChunk] *)
Definition scan_chunk (p : string) : bool * string * string :=
  let '(star, body) := strip_stars p in
  let '(chunk, rest) := scan_body false false body in
  (star, chunk, rest).

(** The scan of a star: the chunk is tried after each non-slash byte. *)
Fixpoint skip_match (last : bool) (chunk s : string) : option (option string) :=
  match s with
  | EmptyString => Some None
  | String c t =>
    if Ascii.eqb c slash_char then Some None
    else
      found ← match_chunk_at chunk t;
      match found with
      | Some rest => if last && negb (is_empty rest) then skip_match last chunk t
                     else Some (Some rest)
      | None => skip_match last chunk t
      end
  end.

(** The syntax check of what remains of the pattern after a mismatch. *)
Fixpoint check_rest (fuel : nat) (pattern : string) : option bool :=
  match fuel with
  | O => None
  | S fuel' =>
    if is_empty pattern then Some false
    else
      let '(_, chunk, rest) := scan_chunk pattern in
      _ ← match_chunk_at chunk EmptyString;
      check_rest fuel' rest
  end.

Fixpoint match_loop (fuel : nat) (pattern name : string) : option bool :=
  match fuel with
  | O => None
  | S fuel' =>
    if is_empty pattern then Some (is_empty name)
    else
      let '(star, chunk, rest) := scan_chunk pattern in
      if star && is_empty chunk
      then Some (match cut_byte slash_char name with None => true | Some _ => false end)
      else
        let give_up_on_name :=
          if star then
            found ← skip_match (is_empty rest) chunk name;
            match found with
            | Some t => match_loop fuel' rest t
            | None => check_rest fuel' rest
            end
          else check_rest fuel' rest in
        found ← match_chunk_at chunk name;
        match found with
        | Some t =>
          if is_empty t || negb (is_empty rest) then match_loop fuel' rest t
          else give_up_on_name
        | None => give_up_on_name
        end
  end.

(** [path.Match(pattern, name)]: [None] is [ErrBadPattern]. *)
Definition path_match (pattern name : string) : option bool :=
  match_loop (S (String.length pattern)) pattern name.

(** [ok, err := path.Match(...); err == nil && ok] *)
Definition path_matches (pattern name : string) : bool :=
  match path_match pattern name with Some true => true | _ => false end.

Example path_match_star : path_matches "refs/heads/agent-a/*" "refs/heads/agent-a/fix" = true.
Proof. reflexivity. Qed.
Example path_match_slash : path_matches "refs/heads/*" "refs/heads/agent-a/fix" = false.
Proof. reflexivity. Qed.
Example path_match_class : path_match "[a-c]?\*x" "bz*x" = Some true.
Proof. reflexivity. Qed.
Example path_match_backtrack : path_match "a*ab*c" "axaabbc" = Some true.
Proof. reflexivity. Qed.
Example path_match_bad : path_match "a[" "zzz" = None.
Proof. reflexivity. Qed.
Example path_match_bad_rest : path_match "x*[" "zzz" = None.
Proof. reflexivity. Qed.
Example trim_space_ascii : trim_space "  a b	" = "a b".
Proof. reflexivity. Qed.
Example fields_ascii : fields " old  new ref " = ["old"; "new"; "ref"].
Proof. reflexivity. Qed.
Example split_slash : split_byte "/" "a//b/" = ["a"; EmptyString; "b"; EmptyString].
Proof. reflexivity. Qed.
Example parse_int_bound : parse_int "9223372036854775808" = None ∧ parse_int "-12" = Some (-12).
Proof. split; reflexivity. Qed.

(** ** The byte-wise order *)

Lemma byte_of_inj (a b : ascii) : byte_of a = byte_of b → a = b.
Proof.
  unfold byte_of. intros H. apply N2Z.inj in H.
  by rewrite <- (ascii_N_embedding a), <- (ascii_N_embedding b), H.
Qed.

Lemma string_compare_eq (s t : string) : string_compare s t = Eq ↔ s = t.
Proof.
  revert t; induction s as [|a s IH]; intros [|b t]; simpl; try done.
  destruct (Z.compare_spec (byte_of a) (byte_of b)) as [H|H|H].
  - apply byte_of_inj in H as ->. rewrite IH. naive_solver.
  - split; [done|]. intros [= -> ->]. lia.
  - split; [done|]. intros [= -> ->]. lia.
Qed.

Lemma string_compare_antisym (s t : string) :
  string_compare t s = CompOpp (string_compare s t).
Proof.
  revert t; induction s as [|a s IH]; intros [|b t]; simpl; try done.
  rewrite (Z.compare_antisym (byte_of a)). destruct (byte_of a ?= byte_of b); simpl; auto.
Qed.

Lemma string_compare_trans (s t u : string) :
  string_compare s t = Lt → string_compare t u = Lt → string_compare s u = Lt.
Proof.
  revert t u; induction s as [|a s IH]; intros [|b t] [|c u]; simpl; try done.
  destruct (Z.compare_spec (byte_of a) (byte_of b)) as [Hab|Hab|Hab];
    destruct (Z.compare_spec (byte_of b) (byte_of c)) as [Hbc|Hbc|Hbc]; try done.
  - intros. rewrite Hab, Hbc, Z.compare_refl. by apply (IH t).
  - intros. by rewrite Hab, (proj2 (Z.compare_lt_iff _ _)).
  - intros. by rewrite <- Hbc, (proj2 (Z.compare_lt_iff _ _)).
  - intros. rewrite (proj2 (Z.compare_lt_iff _ _)); [done|lia].
Qed.

Definition string_lt (s t : string) : Prop := string_compare s t = Lt.

#[export] Instance string_lt_strict : StrictOrder string_lt.
Proof.
  split.
  - intros s H. unfold string_lt in H. by rewrite (proj2 (string_compare_eq s s)) in H.
  - intros s t u. apply string_compare_trans.
Qed.
