(* ===== verification/GoStringFacts.v ===== *)
(** * Laws of the Go string functions

    UTF-8 decoding distributes over concatenation at a byte that cannot continue
    an encoding; [strings.Fields] gives words without space, and gives back the
    words that were joined; the searching functions on concatenations. *)

From S2P Require Export GoStrings.
From Stdlib Require Import Ascii.

Local Open Scope Z_scope.

(** ** Bytes of a string *)

(** [String.append] does not simplify by itself. *)
Lemma app_cons (c : ascii) (a b : string) : String c a +:+ b = String c (a +:+ b).
Proof. reflexivity. Qed.

Lemma app_nil_l_string (b : string) : EmptyString +:+ b = b.
Proof. reflexivity. Qed.

Lemma app_nil_r_string (s : string) : s +:+ EmptyString = s.
Proof. induction s as [|c s IH]; [done|]. by rewrite app_cons, IH. Qed.

Lemma app_assoc_string (a b c : string) : (a +:+ b) +:+ c = a +:+ (b +:+ c).
Proof. induction a as [|x a IH]; [done|]. by rewrite !app_cons, IH. Qed.

Lemma app_not_empty (a b : string) (c : ascii) : a +:+ String c b ≠ EmptyString.
Proof. by destruct a. Qed.

#[export] Hint Rewrite app_cons app_nil_l_string app_nil_r_string app_assoc_string : rew_string.

Lemma length_app_string (a b : string) :
  String.length (a +:+ b) = (String.length a + String.length b)%nat.
Proof. induction a as [|x a IH]; [done|]. rewrite app_cons. cbn. by rewrite IH. Qed.

Lemma len_app (a b : string) : len (a +:+ b) = len a + len b.
Proof. unfold len. rewrite length_app_string. lia. Qed.

Lemma len_nonneg (s : string) : 0 <= len s.
Proof. unfold len. lia. Qed.

Lemma drop_bytes_app (a b : string) (n : nat) :
  (n <= String.length a)%nat → drop_bytes n (a +:+ b) = drop_bytes n a +:+ b.
Proof.
  revert n. induction a as [|c a IH]; intros [|n]; rewrite ?app_cons, ?app_nil_l_string; cbn; intros; try done;
    [lia|]. apply IH. lia.
Qed.

Lemma substring_app (a b : string) (n : nat) :
  (n <= String.length a)%nat → String.substring 0 n (a +:+ b) = String.substring 0 n a.
Proof.
  revert n. induction a as [|c a IH]; intros [|n]; rewrite ?app_cons, ?app_nil_l_string; cbn; intros; try done;
    [by destruct b|lia|].
  f_equal. apply IH. lia.
Qed.

Lemma substring_drop (s : string) (n : nat) : String.substring 0 n s +:+ drop_bytes n s = s.
Proof. revert n. induction s as [|c s IH]; intros [|n]; cbn; rewrite ?app_cons; try done. by rewrite IH. Qed.

Lemma length_drop_bytes (s : string) (n : nat) :
  String.length (drop_bytes n s) = (String.length s - n)%nat.
Proof. revert n. induction s as [|c s IH]; intros [|n]; cbn; auto. Qed.

Lemma length_substring (s : string) (n : nat) :
  (n <= String.length s)%nat → String.length (String.substring 0 n s) = n.
Proof. revert n. induction s as [|c s IH]; intros [|n]; cbn; intros; try done; [lia|]. f_equal. apply IH. lia. Qed.

Lemma byte_of_range (c : ascii) : 0 <= byte_of c < 256.
Proof.
  unfold byte_of. split; [lia|].
  destruct c as [[] [] [] [] [] [] [] []]; vm_compute; reflexivity.
Qed.

(** ** Decoding *)

(** The string cannot continue an encoding begun before it. *)
Definition starts_clean (s : string) : Prop :=
  match s with EmptyString => True | String c _ => byte_of c < 128 ∨ 191 < byte_of c end.

Ltac decide_if :=
  match goal with
  | |- context [if ?b then _ else _] => let E := fresh in destruct b eqn:E
  end.

Lemma decode_width (c : ascii) (s : string) :
  (1 <= snd (decode_rune (String c s)) <= String.length (String c s))%nat.
Proof.
  unfold decode_rune. cbn zeta.
  destruct s as [|c1 [|c2 [|c3 s]]]; repeat (decide_if; cbn [snd String.length]; try lia).
Qed.

Lemma cont_dirty (b lo hi : Z) :
  128 <= lo → hi <= 191 → b < 128 ∨ 191 < b → is_cont b lo hi = false.
Proof.
  intros Hl Hh Hb. unfold is_cont. apply andb_false_iff.
  destruct (Z.leb_spec lo b); [right|left]; [apply Z.leb_gt; lia|done].
Qed.

Lemma second_bounds (b0 : Z) :
  128 <= (if b0 =? 224 then 160 else if b0 =? 240 then 144 else 128)
  ∧ (if b0 =? 237 then 159 else if b0 =? 244 then 143 else 191) <= 191.
Proof. repeat case_match; lia. Qed.

Lemma decode_app (c : ascii) (a b : string) :
  starts_clean b → decode_rune (String c a +:+ b) = decode_rune (String c a).
Proof.
  intros Hb. destruct b as [|d b]; [by rewrite app_nil_r_string|]. cbn in Hb.
  pose proof (second_bounds (byte_of c)) as [Hlo Hhi].
  unfold decode_rune. rewrite !app_cons.
  destruct a as [|c1 [|c2 [|c3 a]]]; rewrite ?app_cons, ?app_nil_l_string; [| | |reflexivity];
    repeat (decide_if; try reflexivity);
    rewrite (cont_dirty _ _ _) in * by first [done|lia]; done.
Qed.

Lemma decode_ascii (c : ascii) (s : string) :
  byte_of c < 128 → decode_rune (String c s) = (byte_of c, 1%nat).
Proof. intros H. unfold decode_rune. by rewrite (proj2 (Z.ltb_lt _ _) H). Qed.

Lemma decode_continuation (c : ascii) (s : string) :
  128 <= byte_of c <= 191 → fst (decode_rune (String c s)) = rune_error.
Proof.
  intros H. unfold decode_rune. rewrite (proj2 (Z.ltb_ge _ _)) by lia.
  by rewrite (proj2 (Z.ltb_lt (byte_of c) 194)) by lia.
Qed.

Lemma space_starts_clean (s : string) : is_space (fst (decode_rune s)) = true → starts_clean s.
Proof.
  destruct s as [|c s]; [done|]. intros H. cbn.
  destruct (decide (128 <= byte_of c <= 191)) as [Hc|Hc]; [|lia].
  by rewrite (decode_continuation c s Hc) in H.
Qed.

(** ** Segments *)

Lemma segments_from_drop (k : nat) (s : string) : segments_from k s = segments (drop_bytes k s).
Proof. revert k. induction s as [|c s IH]; intros [|k]; try done. cbn. apply IH. Qed.

Definition first_segment (s : string) : segment :=
  let '(r, n) := decode_rune s in
  Segment r (negb ((r =? rune_error) && (n =? 1)%nat)) (String.substring 0 n s).

Definition after_first (s : string) : string := drop_bytes (snd (decode_rune s)) s.

Lemma segments_cons (c : ascii) (s : string) :
  segments (String c s) = first_segment (String c s) :: segments (after_first (String c s)).
Proof.
  unfold segments at 1, first_segment, after_first. cbn [segments_from].
  pose proof (decode_width c s) as Hw. destruct (decode_rune (String c s)) as [r n]. cbn [snd] in *.
  rewrite segments_from_drop. destruct n as [|n]; [lia|]. cbn. by rewrite Nat.sub_0_r.
Qed.

Lemma first_after (c : ascii) (s : string) :
  seg_bytes (first_segment (String c s)) +:+ after_first (String c s) = String c s.
Proof.
  unfold first_segment, after_first. destruct (decode_rune _) as [r n]. apply substring_drop.
Qed.

Lemma length_after_first (c : ascii) (s : string) :
  (String.length (after_first (String c s)) < String.length (String c s))%nat.
Proof.
  unfold after_first. rewrite length_drop_bytes. pose proof (decode_width c s). cbn [String.length] in *. lia.
Qed.

Lemma first_segment_bytes (c : ascii) (s : string) : seg_bytes (first_segment (String c s)) ≠ EmptyString.
Proof.
  intros H. pose proof (first_after c s) as E. rewrite H, app_nil_l_string in E.
  pose proof (length_after_first c s) as L. rewrite E in L. lia.
Qed.

(** Induction on a string by its first segment. *)
Lemma segment_ind (P : string → Prop) :
  P EmptyString → (∀ c s, P (after_first (String c s)) → P (String c s)) → ∀ s, P s.
Proof.
  intros H0 HS s. induction s as [s IH] using (well_founded_induction
    (Wf_nat.well_founded_ltof _ String.length)).
  destruct s as [|c s]; [done|]. apply HS, IH. unfold Wf_nat.ltof. apply length_after_first.
Qed.

Lemma concat_segments_of (s : string) : concat_segments (segments s) = s.
Proof.
  induction s as [|c s IH] using segment_ind; [done|]. rewrite segments_cons. cbn.
  unfold concat_segments in IH. by rewrite IH, first_after.
Qed.

Lemma concat_segments_app (l1 l2 : list segment) :
  concat_segments (l1 ++ l2) = concat_segments l1 +:+ concat_segments l2.
Proof.
  induction l1 as [|g l IH]; [done|]. cbn. unfold concat_segments in IH.
  by rewrite IH, app_assoc_string.
Qed.

Lemma segments_app (a b : string) : starts_clean b → segments (a +:+ b) = segments a ++ segments b.
Proof.
  intros Hb. induction a as [|c a IH] using segment_ind; [done|].
  pose proof (decode_width c a) as Hw.
  change (String c a +:+ b) with (String c (a +:+ b)). rewrite !segments_cons.
  assert (first_segment (String c (a +:+ b)) = first_segment (String c a)) as ->.
  { unfold first_segment. change (String c (a +:+ b)) with (String c a +:+ b).
    rewrite (decode_app c a b Hb). destruct (decode_rune (String c a)) as [r n].
    rewrite substring_app by (cbn in Hw |- *; lia). done. }
  assert (after_first (String c (a +:+ b)) = after_first (String c a) +:+ b) as ->.
  { unfold after_first. change (String c (a +:+ b)) with (String c a +:+ b).
    rewrite (decode_app c a b Hb). apply drop_bytes_app. lia. }
  by rewrite IH.
Qed.

Lemma segments_ascii (c : ascii) (s : string) :
  byte_of c < 128 → segments (String c s) = Segment (byte_of c) true (String c EmptyString) :: segments s.
Proof.
  intros H. rewrite segments_cons. unfold first_segment, after_first.
  rewrite (decode_ascii c s H).
  assert (byte_of c =? rune_error = false) as -> by (apply Z.eqb_neq; unfold rune_error; lia).
  by destruct s.
Qed.

(** Segments are found again in the bytes after any of them. *)
Lemma segments_suffix (s : string) (l1 l2 : list segment) :
  segments s = l1 ++ l2 → segments (concat_segments l2) = l2.
Proof.
  revert l1. induction s as [|c s IH] using segment_ind; intros l1 H.
  - apply (f_equal length) in H. rewrite length_app in H.
    destruct l2; [done|]. cbn in H. lia.
  - destruct l1 as [|g l1].
    + rewrite app_nil_l in H. by rewrite <- H, concat_segments_of.
    + rewrite segments_cons in H. injection H as _ H. by apply (IH l1).
Qed.

Lemma segments_prefix (s : string) (l1 l2 : list segment) :
  segments s = l1 ++ l2 → starts_clean (concat_segments l2) → segments (concat_segments l1) = l1.
Proof.
  intros H Hc. pose proof (segments_suffix s l1 l2 H) as H2.
  pose proof (concat_segments_of s) as E. rewrite H, concat_segments_app in E.
  rewrite <- E, segments_app, H2 in H by done. by apply app_inv_tail in H.
Qed.

Lemma segment_bytes_nonempty (s : string) : Forall (λ g, seg_bytes g ≠ EmptyString) (segments s).
Proof.
  induction s as [|c s IH] using segment_ind; [constructor|]. rewrite segments_cons.
  constructor; [apply first_segment_bytes|done].
Qed.

Lemma first_rune (c : ascii) (s : string) :
  seg_rune (first_segment (String c s)) = fst (decode_rune (String c s)).
Proof. unfold first_segment. by destruct (decode_rune _). Qed.

Lemma space_segment_clean (g : segment) (l : list segment) :
  segments (concat_segments (g :: l)) = g :: l → is_space (seg_rune g) = true →
  starts_clean (concat_segments (g :: l)).
Proof.
  intros H Hg. apply space_starts_clean.
  destruct (concat_segments (g :: l)) as [|c s]; [done|]. rewrite segments_cons in H.
  injection H as Hf _. by rewrite <- first_rune, Hf.
Qed.

(** ** Trimming *)

Lemma drop_spaces_split (l : list segment) :
  ∃ spaces, l = spaces ++ drop_spaces l ∧ Forall (λ g, is_space (seg_rune g) = true) spaces.
Proof.
  induction l as [|g l (spaces & E & H)]; [by exists []|]. cbn.
  destruct (is_space (seg_rune g)) eqn:Eg; [|by exists []].
  exists (g :: spaces). split; [by rewrite E at 1|by constructor].
Qed.

Lemma drop_spaces_idem (l : list segment) : drop_spaces (drop_spaces l) = drop_spaces l.
Proof.
  induction l as [|g l IH]; [done|]. cbn. destruct (is_space (seg_rune g)) eqn:Eg; [done|].
  cbn. by rewrite Eg.
Qed.

(** Dropping from the end does not expose a space at the start. *)
Lemma drop_spaces_prefix (m spaces : list segment) :
  drop_spaces (m ++ spaces) = m ++ spaces → drop_spaces m = m.
Proof.
  destruct m as [|g m]; [done|]. cbn. destruct (is_space (seg_rune g)); [|done].
  intros H. apply (f_equal length) in H. cbn in H.
  destruct (drop_spaces_split (m ++ spaces)) as (k & Ek & _).
  apply (f_equal length) in Ek. rewrite (length_app k) in Ek. lia.
Qed.

(** What trimming keeps. *)
Definition trimmed_segments (s : string) : list segment := rev (drop_spaces (rev (drop_spaces (segments s)))).

Lemma segments_trim (s : string) :
  segments (trim_space s) = trimmed_segments s ∧ drop_spaces (trimmed_segments s) = trimmed_segments s.
Proof.
  unfold trim_space. fold (trimmed_segments s). unfold trimmed_segments. set (l := drop_spaces (segments s)).
  destruct (drop_spaces_split (segments s)) as (front & Hf & _). fold l in Hf.
  pose proof (segments_suffix s front l Hf) as Hl.
  destruct (drop_spaces_split (rev l)) as (back & Hb & Hsp).
  set (m := rev (drop_spaces (rev l))).
  assert (l = m ++ rev back) as El.
  { unfold m. rewrite <- rev_app_distr, <- Hb. by rewrite rev_involutive. }
  split.
  - destruct (rev back) as [|g rest] eqn:Er; [rewrite app_nil_r in El; by rewrite <- El|].
    rewrite El in Hl. pose proof (concat_segments_app m (g :: rest)) as Ec.
    apply (segments_prefix (concat_segments (m ++ g :: rest)) m (g :: rest) Hl).
    apply space_segment_clean.
    + by eapply segments_suffix.
    + rewrite Forall_forall in Hsp. apply Hsp. apply list_elem_of_In, in_rev. rewrite Er. by left.
  - apply (drop_spaces_prefix m (rev back)). rewrite <- El. apply drop_spaces_idem.
Qed.

Lemma trim_space_idem (s : string) : trim_space (trim_space s) = trim_space s.
Proof.
  destruct (segments_trim s) as [Hm Hd]. unfold trim_space at 1. rewrite Hm, Hd.
  unfold trimmed_segments at 1. by rewrite rev_involutive, drop_spaces_idem.
Qed.

(** ** Fields *)

(** A word: not empty, and without space. *)
Definition is_word (w : string) : Prop :=
  w ≠ EmptyString ∧ Forall (λ g, is_space (seg_rune g) = false) (segments w).

#[export] Instance is_word_dec (w : string) : Decision (is_word w).
Proof. unfold is_word. apply _. Defined.

Definition flush_word (word : list segment) : list string :=
  match word with [] => [] | _ => [concat_segments (rev word)] end.

Lemma fields_from_cons (word : list segment) (g : segment) (l : list segment) :
  fields_from word (g :: l)
  = if is_space (seg_rune g) then flush_word word ++ fields_from [] l
    else fields_from (g :: word) l.
Proof. reflexivity. Qed.

Lemma fields_from_nil (word : list segment) : fields_from word [] = flush_word word.
Proof. reflexivity. Qed.

Lemma fields_from_word (word l1 l2 : list segment) :
  Forall (λ g, is_space (seg_rune g) = false) l1 →
  fields_from word (l1 ++ l2) = fields_from (rev l1 ++ word) l2.
Proof.
  intros H. revert word. induction H as [|g l Hg _ IH]; intros word; [done|].
  rewrite <- app_comm_cons, fields_from_cons, Hg, IH. cbn. by rewrite <- app_assoc.
Qed.

Lemma flush_segments (w : string) : w ≠ EmptyString → flush_word (rev (segments w)) = [w].
Proof.
  intros Hw. unfold flush_word. destruct (rev (segments w)) as [|g l] eqn:E.
  - destruct w as [|c w]; [done|]. rewrite segments_cons in E. cbn in E.
    by destruct (rev (segments _)).
  - by rewrite <- E, rev_involutive, concat_segments_of.
Qed.

Lemma fields_word (w : string) : is_word w → fields w = [w].
Proof.
  intros [Hne Hw]. unfold fields. rewrite <- (app_nil_r (segments w)), fields_from_word by done.
  rewrite app_nil_r, fields_from_nil. by apply flush_segments.
Qed.

Lemma fields_space (w s : string) : is_word w → fields (w +:+ " " +:+ s) = w :: fields s.
Proof.
  intros [Hne Hw]. unfold fields. rewrite segments_app by (left; reflexivity).
  change (" " +:+ s) with (String " " s). rewrite segments_ascii by reflexivity.
  rewrite fields_from_word, app_nil_r, fields_from_cons by done. cbn [seg_rune].
  change (is_space (byte_of " ")) with true. cbn iota. by rewrite flush_segments.
Qed.

Lemma fields_leading_space (s : string) : fields (String " " s) = fields s.
Proof. unfold fields. by rewrite segments_ascii by reflexivity. Qed.

Lemma fields_join (ws : list string) : Forall is_word ws → fields (join " " ws) = ws.
Proof.
  induction 1 as [|w ws Hw Hws IH]; [done|]. destruct ws as [|w' ws]; [by apply fields_word|].
  change (join " " (w :: w' :: ws)) with (w +:+ " " +:+ join " " (w' :: ws)).
  by rewrite fields_space, IH.
Qed.

(** What [fields_from] yields, from segments that are met when decoding a string. *)
Lemma fields_from_words (word l : list segment) :
  segments (concat_segments (rev word ++ l)) = rev word ++ l →
  Forall (λ g, is_space (seg_rune g) = false) word →
  Forall is_word (fields_from word l).
Proof.
  assert (Hflush : ∀ word l, segments (concat_segments (rev word ++ l)) = rev word ++ l →
    starts_clean (concat_segments l) → Forall (λ g, is_space (seg_rune g) = false) word →
    Forall is_word (flush_word word)).
  { intros word' l' H Hc Hs. unfold flush_word. destruct word' as [|g t] eqn:Et; [constructor|].
    rewrite <- Et in *. apply Forall_singleton. pose proof (segments_prefix _ _ _ H Hc) as Hp.
    split.
    - intros Hn. rewrite Hn in Hp. apply (f_equal length) in Hp.
      by rewrite length_rev, Et in Hp.
    - rewrite Hp. by apply Forall_rev. }
  revert word. induction l as [|g l IH]; intros word H Hw.
  - rewrite fields_from_nil. by apply (Hflush word []).
  - rewrite fields_from_cons. destruct (is_space (seg_rune g)) eqn:Eg.
    + pose proof (segments_suffix _ _ _ H) as Hg. apply Forall_app; split.
      * apply (Hflush word (g :: l)); [done|by apply space_segment_clean|done].
      * apply IH; [|constructor]. cbn [rev]. rewrite app_nil_l.
        by apply (segments_suffix _ [g] l Hg).
    + apply IH; [|by constructor]. cbn [rev]. by rewrite <- app_assoc.
Qed.

Lemma fields_words (s : string) : Forall is_word (fields s).
Proof.
  unfold fields. apply fields_from_words; [|constructor]. cbn. by rewrite concat_segments_of.
Qed.

(** ** The length of fields *)

Definition joined_length (ws : list string) : nat :=
  sum_list_with (λ w, S (String.length w)) ws.

Lemma length_joined (ws : list string) :
  (String.length (join " " ws) <= Nat.pred (joined_length ws))%nat.
Proof.
  induction ws as [|w ws IH]; [done|]. unfold joined_length in *. cbn [sum_list_with].
  destruct ws as [|w' ws]; [cbn; lia|].
  change (join " " (w :: w' :: ws)) with (w +:+ " " +:+ join " " (w' :: ws)).
  rewrite !length_app_string. cbn [sum_list_with String.length] in *. lia.
Qed.

Lemma joined_length_filter (P : string → Prop) `{∀ w, Decision (P w)} (ws : list string) :
  (joined_length (filter P ws) <= joined_length ws)%nat.
Proof.
  unfold joined_length. induction ws as [|w ws IH]; [done|]. rewrite filter_cons.
  case_decide; cbn [sum_list_with]; lia.
Qed.

Lemma fields_from_length (word l : list segment) :
  Forall (λ g, seg_bytes g ≠ EmptyString) l →
  (joined_length (fields_from word l)
   <= S (String.length (concat_segments (rev word ++ l))))%nat.
Proof.
  assert (Hflush : ∀ word, (joined_length (flush_word word)
    <= S (String.length (concat_segments (rev word))))%nat).
  { intros [|g t]; unfold flush_word, joined_length; cbn [sum_list_with]; lia. }
  intros Hl. revert word. induction Hl as [|g l Hg _ IH]; intros word.
  - rewrite fields_from_nil, app_nil_r. apply Hflush.
  - rewrite fields_from_cons. destruct (is_space (seg_rune g)).
    + unfold joined_length. rewrite sum_list_with_app. specialize (IH []). specialize (Hflush word).
      unfold joined_length in *. rewrite concat_segments_app, length_app_string.
      change (concat_segments (g :: l)) with (seg_bytes g +:+ concat_segments l).
      rewrite length_app_string. cbn [rev] in IH. rewrite app_nil_l in IH.
      destruct (seg_bytes g); [done|]. cbn [String.length]. lia.
    + specialize (IH (g :: word)). cbn [rev] in IH. by rewrite <- app_assoc in IH.
Qed.

Lemma fields_length (s : string) : (joined_length (fields s) <= S (String.length s))%nat.
Proof.
  pose proof (fields_from_length [] (segments s) (segment_bytes_nonempty s)) as H.
  cbn [rev] in H. by rewrite app_nil_l, concat_segments_of in H.
Qed.

(** ** ASCII words *)

Definition ascii_word (w : string) : Prop :=
  w ≠ EmptyString ∧ Forall (λ c, 32 < byte_of c < 128) (list_of_string w).

Lemma segments_ascii_string (w : string) :
  Forall (λ c, byte_of c < 128) (list_of_string w) →
  segments w = (λ c, Segment (byte_of c) true (String c EmptyString)) <$> list_of_string w.
Proof.
  induction w as [|c w IH]; [done|]. cbn [list_of_string]. intros [Hc Hw]%Forall_cons.
  rewrite segments_ascii by done. by rewrite IH.
Qed.

Lemma ascii_word_word (w : string) : ascii_word w → is_word w.
Proof.
  intros [Hne Hw]. split; [done|]. rewrite segments_ascii_string.
  - apply Forall_fmap. eapply Forall_impl; [exact Hw|]. intros c Hc. cbn beta in Hc. cbn [seg_rune compose].
    apply not_true_is_false. unfold is_space.
    rewrite !orb_true_iff, !andb_true_iff, !Z.leb_le, !Z.eqb_eq. lia.
  - eapply Forall_impl; [exact Hw|]. cbn beta. lia.
Qed.

(** ** Searching *)

Lemma has_prefix_spec (p s : string) : has_prefix p s = true ↔ ∃ t, s = p +:+ t.
Proof.
  revert s. induction p as [|a p IH]; intros s; cbn; [naive_solver|].
  destruct s as [|b s]; [split; [done|]; intros [t H]; by rewrite app_cons in H|].
  rewrite andb_true_iff, Ascii.eqb_eq, IH. split.
  - intros [-> [t ->]]. by exists t.
  - intros [t H]. rewrite app_cons in H. injection H as -> ->. split; [done|by exists t].
Qed.

Lemma string_rev_append_app (s acc : string) : string_rev_append s acc = string_rev s +:+ acc.
Proof.
  unfold string_rev. revert acc. induction s as [|c s IH]; intros acc; [done|]. cbn.
  rewrite IH, (IH (String c EmptyString)), app_assoc_string. done.
Qed.

Lemma string_rev_cons (c : ascii) (s : string) :
  string_rev (String c s) = string_rev s +:+ String c EmptyString.
Proof. unfold string_rev at 1. cbn. by rewrite string_rev_append_app. Qed.

Lemma string_rev_app (a b : string) : string_rev (a +:+ b) = string_rev b +:+ string_rev a.
Proof.
  induction a as [|c a IH]; [by rewrite app_nil_l_string, app_nil_r_string|].
  by rewrite app_cons, !string_rev_cons, IH, app_assoc_string.
Qed.

Lemma string_rev_involutive (s : string) : string_rev (string_rev s) = s.
Proof. induction s as [|c s IH]; [done|]. by rewrite string_rev_cons, string_rev_app, IH. Qed.

Lemma has_suffix_spec (p s : string) : has_suffix p s = true ↔ ∃ t, s = t +:+ p.
Proof.
  unfold has_suffix. rewrite has_prefix_spec. split; intros [t H].
  - exists (string_rev t). rewrite <- (string_rev_involutive s), H, string_rev_app.
    by rewrite string_rev_involutive.
  - exists (string_rev t). by rewrite H, string_rev_app.
Qed.

Lemma trim_suffix_app (p s : string) : trim_suffix p (s +:+ p) = s.
Proof.
  unfold trim_suffix. rewrite (proj2 (has_suffix_spec p (s +:+ p))) by (by exists s).
  rewrite length_app_string, Nat.add_sub. rewrite substring_app by lia.
  pose proof (substring_drop s (String.length s)) as H.
  assert (drop_bytes (String.length s) s = EmptyString) as E.
  { pose proof (length_drop_bytes s (String.length s)) as L. rewrite Nat.sub_diag in L.
    by destruct (drop_bytes _ s). }
  by rewrite E, app_nil_r_string in H.
Qed.

Lemma trim_suffix_none (p s : string) : has_suffix p s = false → trim_suffix p s = s.
Proof. intros H. unfold trim_suffix. by rewrite H. Qed.

Lemma cut_byte_app (c : ascii) (a b : string) :
  c ∉ list_of_string a → cut_byte c (a +:+ String c b) = Some (a, b).
Proof.
  induction a as [|d a IH]; cbn [list_of_string]; rewrite ?app_nil_l_string, ?app_cons; cbn [cut_byte].
  - by rewrite Ascii.eqb_refl.
  - intros [Hd Ha]%not_elem_of_cons. destruct (Ascii.eqb_spec c d) as [->|_]; [done|].
    by rewrite IH.
Qed.

Lemma cut_byte_none (c : ascii) (s : string) : cut_byte c s = None ↔ c ∉ list_of_string s.
Proof.
  induction s as [|d s IH]; cbn [cut_byte list_of_string]; [split; [intros _; by apply not_elem_of_nil|done]|].
  rewrite not_elem_of_cons. destruct (Ascii.eqb_spec c d) as [->|Hd]; [naive_solver|].
  destruct (cut_byte c s) as [[a b]|]; cbn; [|naive_solver]. split; [done|].
  intros [_ Hs]. by apply IH in Hs.
Qed.

Lemma cut_byte_some (c : ascii) (s a b : string) :
  cut_byte c s = Some (a, b) → s = a +:+ String c b ∧ c ∉ list_of_string a.
Proof.
  revert a. induction s as [|d s IH]; intros a; cbn [cut_byte]; [done|].
  destruct (Ascii.eqb_spec c d) as [->|Hd].
  - intros [= <- <-]. split; [done|]. apply not_elem_of_nil.
  - destruct (cut_byte c s) as [[a' b']|]; cbn; [|done]. intros [= <- <-].
    destruct (IH a' eq_refl) as [-> Ha]. split; [done|]. cbn. by apply not_elem_of_cons.
Qed.

Lemma list_of_string_app (a b : string) :
  list_of_string (a +:+ b) = list_of_string a ++ list_of_string b.
Proof. induction a as [|c a IH]; [done|]. rewrite app_cons. cbn. by rewrite IH. Qed.

Lemma is_empty_spec (s : string) : is_empty s = true ↔ s = EmptyString.
Proof. by destruct s. Qed.

(** ** Trailing space and separators *)

Lemma fields_from_trailing (word l : list segment) (g : segment) :
  is_space (seg_rune g) = true → fields_from word (l ++ [g]) = fields_from word l.
Proof.
  intros Hg. revert word. induction l as [|h l IH]; intros word.
  - cbn [app]. rewrite fields_from_cons, Hg, !fields_from_nil. cbn. by rewrite app_nil_r.
  - rewrite <- app_comm_cons, !fields_from_cons, !IH. done.
Qed.

Lemma fields_trailing_space (s : string) (c : ascii) :
  byte_of c < 128 → is_space (byte_of c) = true → fields (s +:+ String c EmptyString) = fields s.
Proof.
  intros Hc Hs. unfold fields. rewrite segments_app by (by left).
  rewrite segments_ascii by done. by apply fields_from_trailing.
Qed.

Lemma has_suffix_after (p a b : string) (c : ascii) :
  c ∉ list_of_string p → has_suffix p (a +:+ String c b) = has_suffix p b.
Proof.
  intros Hc. apply eq_true_iff_eq. rewrite !has_suffix_spec. split.
  - intros [t Ht]. revert t Ht. induction a as [|d a IH]; intros t Ht.
    + rewrite app_nil_l_string in Ht. destruct t as [|d t]; [|injection Ht as _ ->; by exists t].
      rewrite app_nil_l_string in Ht. subst p. by destruct Hc; left.
    + destruct t as [|d' t]; [|rewrite !app_cons in Ht; injection Ht as _ Ht; by apply (IH t)].
      rewrite app_nil_l_string in Ht. destruct Hc. rewrite <- Ht, list_of_string_app.
      apply elem_of_app; right; left.
  - intros [t ->]. exists (a +:+ String c t). by rewrite app_assoc_string, app_cons.
Qed.

(** ** Runes and bytes *)

Lemma decode_small (c : ascii) (s : string) :
  fst (decode_rune (String c s)) < 128 → byte_of c < 128.
Proof.
  unfold decode_rune. destruct (Z.ltb_spec (byte_of c) 128); [done|]. cbn zeta.
  destruct ((byte_of c <? 194) || (244 <? byte_of c)) eqn:E; [done|].
  apply orb_false_iff in E as [E1%Z.ltb_ge E2%Z.ltb_ge].
  assert (∀ b lo hi, negb (is_cont b lo hi) = false → lo <= b) as Hc.
  { intros b lo hi [H1 _]%negb_false_iff%andb_true_iff. by apply Z.leb_le. }
  destruct s as [|c1 s]; [done|].
  destruct (negb (is_cont (byte_of c1) _ _)) eqn:E3; [done|]. apply Hc in E3.
  destruct (Z.ltb_spec (byte_of c) 224); cbn [fst].
  { revert E3. repeat case_match; lia. }
  destruct s as [|c2 s]; [done|].
  destruct (negb (is_cont (byte_of c2) _ _)) eqn:E4; [done|]. apply Hc in E4.
  destruct (Z.ltb_spec (byte_of c) 240); cbn [fst].
  { destruct (Z.eqb_spec (byte_of c) 224); [lia|].
    destruct (Z.eqb_spec (byte_of c) 240); lia. }
  destruct s as [|c3 s]; [done|].
  destruct (negb (is_cont (byte_of c3) _ _)) eqn:E5; [done|]. apply Hc in E5. cbn [fst].
  destruct (Z.eqb_spec (byte_of c) 224); [lia|]. destruct (Z.eqb_spec (byte_of c) 240); lia.
Qed.

Lemma cont_high (b lo hi : Z) : is_cont b lo hi = true → 128 <= lo → 128 <= b.
Proof. unfold is_cont. intros [H _]%andb_true_iff Hl. apply Z.leb_le in H. lia. Qed.

(** The bytes of an encoding that is not ASCII are not ASCII. *)
Lemma first_segment_high (c : ascii) (s : string) :
  128 <= byte_of c →
  Forall (λ b, 128 <= byte_of b) (list_of_string (seg_bytes (first_segment (String c s)))).
Proof.
  intros Hc. unfold first_segment.
  pose proof (second_bounds (byte_of c)) as [Hlo _].
  unfold decode_rune. rewrite (proj2 (Z.ltb_ge _ _) Hc). cbn zeta.
  assert (Hone : ∀ s', Forall (λ b, 128 <= byte_of b)
    (list_of_string (String.substring 0 1 (String c s')))).
  { intros s'. cbn. constructor; [done|]. by destruct s'. }
  destruct ((byte_of c <? 194) || (244 <? byte_of c)); [apply Hone|].
  destruct s as [|c1 s]; [apply Hone|].
  destruct (is_cont (byte_of c1) _ _) eqn:E1; cbn [negb]; [|apply Hone].
  apply cont_high in E1; [|done].
  destruct (byte_of c <? 224).
  { cbn. repeat (constructor; [done|]). by destruct s. }
  destruct s as [|c2 s]; [apply Hone|].
  destruct (is_cont (byte_of c2) _ _) eqn:E2; cbn [negb]; [|apply Hone].
  apply cont_high in E2; [|done].
  destruct (byte_of c <? 240).
  { cbn. repeat (constructor; [done|]). by destruct s. }
  destruct s as [|c3 s]; [apply Hone|].
  destruct (is_cont (byte_of c3) _ _) eqn:E3; cbn [negb]; [|apply Hone].
  apply cont_high in E3; [|done].
  cbn. repeat (constructor; [done|]). by destruct s.
Qed.

Lemma runes_cons (c : ascii) (s : string) :
  runes (String c s) = fst (decode_rune (String c s)) :: runes (after_first (String c s)).
Proof. unfold runes. rewrite segments_cons. cbn. by rewrite first_rune. Qed.

Lemma after_first_ascii (c : ascii) (s : string) : byte_of c < 128 → after_first (String c s) = s.
Proof. intros H. unfold after_first. rewrite decode_ascii by done. by destruct s. Qed.

(** An ASCII byte of a string is one of its runes. *)
Lemma ascii_byte_rune (c : ascii) (s : string) :
  c ∈ list_of_string s → byte_of c < 128 → byte_of c ∈ runes s.
Proof.
  intros Hin Hc. induction s as [|d s IH] using segment_ind; [by apply elem_of_nil in Hin|].
  rewrite runes_cons. destruct (decide (byte_of d < 128)) as [Hd|Hd].
  - rewrite (after_first_ascii d s Hd) in *. rewrite (decode_ascii d s Hd). cbn [fst].
    cbn [list_of_string] in Hin. apply elem_of_cons in Hin as [->|Hin]; [left|right; by apply IH].
  - right. apply IH. rewrite <- (first_after d s), list_of_string_app in Hin.
    apply elem_of_app in Hin as [Hin|Hin]; [|done].
    pose proof (first_segment_high d s ltac:(lia)) as Hh. rewrite Forall_forall in Hh.
    specialize (Hh c Hin). cbn beta in Hh. lia.
Qed.

Lemma runes_ascii (P : Z → bool) (s : string) :
  (∀ r, P r = true → r < 128) →
  forallb P (runes s) = true ↔ Forall (λ c, P (byte_of c) = true) (list_of_string s).
Proof.
  intros HP. split.
  - induction s as [|c s IH] using segment_ind; [constructor|].
    rewrite runes_cons. cbn [forallb list_of_string]. rewrite andb_true_iff. intros [Hc Hs].
    assert (byte_of c < 128) as Ha by (eapply decode_small; eauto).
    rewrite (after_first_ascii c s Ha) in *. rewrite (decode_ascii c s Ha) in Hc. auto.
  - induction s as [|c s IH]; [done|]. cbn [list_of_string]. intros [Hc Hs]%Forall_cons.
    assert (byte_of c < 128) as Ha by auto.
    rewrite runes_cons, (after_first_ascii c s Ha), (decode_ascii c s Ha). cbn.
    by rewrite Hc, IH.
Qed.

(** ** The text of an integer *)

Lemma digit_byte (d : Z) : 0 <= d < 10 → digit_value (ascii_of_nat (Z.to_nat (48 + d))) = Some d.
Proof.
  intros H. pose (f := λ z, bool_decide (digit_value (ascii_of_nat (Z.to_nat (48 + z))) = Some z)).
  assert (f d = true) as E by (apply (check_below 10 f); [by vm_compute|lia]).
  by apply bool_decide_eq_true in E.
Qed.

Lemma format_digits_parse (fuel : nat) (z : Z) (acc : string) :
  (0 < fuel)%nat → 0 <= z < 10 ^ Z.of_nat fuel →
  ∃ c t, format_digits fuel z acc = String c t ∧ is_Some (digit_value c)
         ∧ parse_digits 0 (String c t) = parse_digits z acc.
Proof.
  revert z acc. induction fuel as [|fuel IH]; intros z acc Hf Hz; [lia|]. cbn [format_digits].
  set (d := ascii_of_nat (Z.to_nat (48 + z mod 10))).
  pose proof (digit_byte (z mod 10) ltac:(apply Z.mod_pos_bound; lia)) as Hd. fold d in Hd.
  destruct (Z.ltb_spec z 10) as [Hlt|Hge].
  - exists d, acc. rewrite Hd. split; [done|]. split; [done|]. cbn [parse_digits]. rewrite Hd. cbn.
    by rewrite Z.mod_small by lia.
  - rewrite Nat2Z.inj_succ, Z.pow_succ_r in Hz by lia.
    assert (0 < fuel)%nat by (destruct fuel; [cbn in Hz; lia|lia]).
    destruct (IH (z / 10) (String d acc)) as (c & t & -> & Hc & Ep); [done| |].
    { split; [apply Z.div_pos; lia|apply Z.div_lt_upper_bound; lia]. }
    exists c, t. split; [done|]. split; [done|]. rewrite Ep. cbn [parse_digits]. rewrite Hd. cbn.
    f_equal. pose proof (Z.div_mod z 10 ltac:(lia)). lia.
Qed.

Lemma format_digits_enough (z : Z) : 0 <= z → z < 10 ^ Z.of_nat (S (Z.to_nat (Z.log2 z))).
Proof.
  intros Hz. rewrite Nat2Z.inj_succ, Z2Nat.id by apply Z.log2_nonneg.
  destruct (Z.eq_dec z 0) as [->|Hne]; [done|].
  pose proof (Z.log2_spec z ltac:(lia)) as [_ H]. eapply Z.lt_le_trans; [exact H|].
  apply Z.pow_le_mono_l. lia.
Qed.

(** [strconv.ParseInt] reads what [strconv.FormatInt] wrote. *)
Lemma parse_FormatInt (z : Z) : - 2 ^ 63 <= z < 2 ^ 63 → parse_int (FormatInt z) = Some z.
Proof.
  intros Hz. unfold FormatInt. destruct (Z.ltb_spec z 0) as [Hn|Hp].
  - destruct (format_digits_parse (S (Z.to_nat (Z.log2 (- z)))) (- z) EmptyString) as (c & t & -> & _ & Ep).
    { lia. }
    { split; [lia|]. apply format_digits_enough. lia. }
    unfold parse_int. cbn [is_empty]. change (byte_of "-" =? 45) with true. cbv iota beta. cbn [is_empty].
    rewrite Ep. cbn [parse_digits mbind option_bind]. rewrite Z.opp_involutive.
    unfold max_int64. by rewrite (proj2 (Z.leb_le _ _)), (proj2 (Z.leb_le _ _)) by lia.
  - destruct (format_digits_parse (S (Z.to_nat (Z.log2 z))) z EmptyString) as (c & t & -> & [d Hd] & Ep).
    { lia. }
    { split; [lia|]. by apply format_digits_enough. }
    assert (48 <= byte_of c <= 57) as Hc.
    { unfold digit_value in Hd. destruct (_ && _) eqn:E in Hd; [|done]. bool_to_prop. lia. }
    unfold parse_int. rewrite (proj2 (Z.eqb_neq _ 45)), (proj2 (Z.eqb_neq _ 43)) by lia. cbn [is_empty].
    rewrite Ep. cbn [parse_digits mbind option_bind].
    unfold max_int64. by rewrite (proj2 (Z.leb_le _ _)), (proj2 (Z.leb_le _ _)) by lia.
Qed.
