(* ===== verification/Types.v ===== *)
(** * The data the packages exchange

    The value types of [authorization/policy/types.go] and [registry.go],
    [authorization/budget/limit.go], [authorization/activation/failure.go] and
    [authorization/grants], with the source's fields.  A Go string type with
    named constants is an inductive type whose last constructor carries a text
    that no constant names; a Go map is a [gmap], the nil map being empty. *)

From S2P Require Export GoStrings.

Local Open Scope Z_scope.

(** ** authorization/budget *)

(** [type Limit int]: [0] is unlimited. *)
Definition Limit : Type := Z.

(** [usebudget.Optional] *)
Record OptionalLimit : Type := MkOptionalLimit {
  optional_Limit : Limit;
  optional_Specified : bool
}.

(** ** authorization/policy *)

Inductive Effect : Type :=
| EffectAllow | EffectRequest | EffectDeny | EffectNoMatch
| EffectOther (text : string).

Inductive CredentialUse : Type :=
| CredentialUseNone | CredentialUseManaged
| CredentialUseOther (text : string).

Inductive MatchMode : Type :=
| MatchGlob | MatchAnyGlob | MatchPathGlob | MatchRecursivePathGlob
| MatchPathOutsidePrefix | MatchIntegerMaximum
| MatchOther (text : string).

Inductive GrantMode : Type :=
| GrantModeWindow | GrantModeExecution
| GrantModeOther (text : string).

#[export] Instance Effect_eq_dec : EqDecision Effect.
Proof. solve_decision. Defined.
#[export] Instance CredentialUse_eq_dec : EqDecision CredentialUse.
Proof. solve_decision. Defined.
#[export] Instance MatchMode_eq_dec : EqDecision MatchMode.
Proof. solve_decision. Defined.
#[export] Instance GrantMode_eq_dec : EqDecision GrantMode.
Proof. solve_decision. Defined.

Abbreviation StringListMap := (gmap string (list string)).

Record Target : Type := MkTarget {
  target_Kind : string;
  target_Fields : StringListMap
}.

(** [policy.Request] *)
Record Request : Type := MkRequest {
  request_Client : string;
  request_Operation : string;
  request_Target : Target;
  request_Attrs : StringListMap
}.

Record TargetMatcher : Type := MkTargetMatcher {
  matcher_Kind : string;
  matcher_Fields : StringListMap
}.

Record GrantPolicy : Type := MkGrantPolicy {
  gp_Mode : GrantMode;
  gp_DefaultMinutes : Z;
  gp_MaxMinutes : Z;
  gp_RequestTTLMinutes : Z;
  gp_DefaultMaxUses : Limit;
  gp_MaxUses : Limit
}.

Record Rule : Type := MkRule {
  rule_ID : string;
  rule_Effect : Effect;
  rule_Clients : list string;
  rule_Operations : list string;
  rule_Targets : list TargetMatcher;
  rule_Attrs : StringListMap;
  rule_CredentialUses : list CredentialUse;
  rule_GrantPolicy : option GrantPolicy;
  rule_Description : string
}.

(** [policy.Grant], the overlay of a durable grant. *)
Record PolicyGrant : Type := MkPolicyGrant {
  pg_ID : string;
  pg_Client : string;
  pg_Operation : string;
  pg_Target : Target;
  pg_Attrs : StringListMap;
  pg_ExpiresAt : Time;
  pg_UsesLeft : Z;
  pg_Unlimited : bool
}.

Record OperationSpec : Type := MkOperationSpec {
  op_TargetKinds : list string;
  op_Attrs : list string;
  op_CredentialUses : list CredentialUse;
  op_Grantable : bool;
  op_GrantMode : GrantMode;
  op_GrantModes : list GrantMode;
  op_MaxGrantMinutes : Z;
  op_MaxGrantUses : Limit;
  op_DisallowUnlimitedGrantUses : bool
}.

Record FieldSpec : Type := MkFieldSpec {
  field_Required : bool;
  field_Match : MatchMode
}.

(** [policy.TargetSpec] *)
Record TargetSpec : Type := MkTargetSpec { spec_Fields : gmap string FieldSpec }.

Record AttrSpec : Type := MkAttrSpec {
  attr_Match : MatchMode;
  attr_GrantMatch : MatchMode;
  attr_GrantMayOmit : bool
}.

Record Registry : Type := MkRegistry {
  reg_Operations : gmap string OperationSpec;
  reg_Targets : gmap string TargetSpec;
  reg_Attrs : gmap string AttrSpec
}.

(** The zero value of a struct is what a Go map lookup gives for an absent key. *)
Definition zero_OperationSpec : OperationSpec :=
  MkOperationSpec [] [] [] false (GrantModeOther EmptyString) [] 0 0 false.
Definition zero_FieldSpec : FieldSpec := MkFieldSpec false (MatchOther EmptyString).
Definition zero_TargetSpec : TargetSpec := MkTargetSpec ∅.
Definition zero_AttrSpec : AttrSpec :=
  MkAttrSpec (MatchOther EmptyString) (MatchOther EmptyString) false.

Definition operation_spec (r : Registry) (name : string) : OperationSpec :=
  default zero_OperationSpec (reg_Operations r !! name).
Definition target_spec (r : Registry) (kind : string) : TargetSpec :=
  default zero_TargetSpec (reg_Targets r !! kind).
Definition attr_spec (r : Registry) (name : string) : AttrSpec :=
  default zero_AttrSpec (reg_Attrs r !! name).
Definition field_spec (s : TargetSpec) (name : string) : FieldSpec :=
  default zero_FieldSpec (spec_Fields s !! name).
Definition values_of (m : StringListMap) (name : string) : list string :=
  default [] (m !! name).

(** ** authorization/activation *)

(** [activation.Code] *)
Inductive Code : Type :=
| CodePlanUnavailable | CodePlanMismatch | CodeCredentialChanged
| CodeCredentialInsufficient | CodeConstraintExceeded | CodeStorageUnavailable
| CodeTemporarilyUnavailable | CodeInternalError
| CodeOther (text : string).

(** [activation.Stage] *)
Inductive Stage : Type :=
| StagePlan | StageCredential | StageConstraints | StageStorage
| StageDependency | StageInternal.

#[export] Instance Code_eq_dec : EqDecision Code.
Proof. solve_decision. Defined.
#[export] Instance Stage_eq_dec : EqDecision Stage.
Proof. solve_decision. Defined.

(** ** authorization/grants *)

Inductive Status : Type :=
| StatusPending | StatusActive | StatusDenied | StatusFailed | StatusExpired
| StatusConsumed | StatusRevoked | StatusCanceled
| StatusOther (text : string).

Inductive UseState : Type :=
| UseReserved | UseCommitted | UseReleased | UseRetained
| UseOther (text : string).

Inductive EventKind : Type :=
| EventRequestCreated | EventRequestApproved | EventRequestDenied
| EventRequestFailed | EventRequestCanceled | EventRequestExpired
| EventGrantRevoked | EventGrantReserved | EventGrantConsumed
| EventGrantReleased | EventExecutionSucceeded | EventExecutionFailed
| EventExecutionAmbiguous
| EventOther (text : string).

Inductive DecisionAction : Type :=
| ActionApprove | ActionDeny | ActionRevoke
| ActionOther (text : string).

#[export] Instance Status_eq_dec : EqDecision Status.
Proof. solve_decision. Defined.
#[export] Instance UseState_eq_dec : EqDecision UseState.
Proof. solve_decision. Defined.
#[export] Instance EventKind_eq_dec : EqDecision EventKind.
Proof. solve_decision. Defined.
#[export] Instance DecisionAction_eq_dec : EqDecision DecisionAction.
Proof. solve_decision. Defined.

(** [grants.Grant] *)
Record Grant : Type := MkGrant {
  grant_ID : string;
  grant_Client : string;
  grant_ClientRequestID : string;
  grant_Operation : string;
  grant_Target : Target;
  grant_Attrs : StringListMap;
  grant_Metadata : gmap string string;
  grant_Reason : string;
  grant_Status : Status;
  grant_Revision : Z;
  grant_CreatedAt : Time;
  grant_PendingExpiresAt : Time;
  grant_ExpiresAt : Time;
  grant_Duration : Duration;
  grant_RequestedDuration : Duration;
  grant_PendingTimeout : Duration;
  grant_DecidedAt : Time;
  grant_DecidedBy : string;
  grant_DecidedOnBehalfOf : string;
  grant_FailureCode : Code;
  grant_FailureReference : string;
  grant_FailedAt : Time;
  grant_UsedAt : Time;
  grant_UsedCount : Z;
  grant_UseRevision : Z;
  grant_ReservedCount : Z;
  grant_ReservedAt : Time;
  grant_ReservationRetained : bool;
  grant_ReservationRevision : Z;
  grant_MaxUses : Limit;
  grant_RequestedMaxUses : Limit;
  grant_RequestedMaxUsesDefaulted : bool;
  grant_ExpiredFrom : Status
}.

(** The empty text of the string types, Go's zero value. *)
Definition no_code : Code := CodeOther EmptyString.
Definition no_status : Status := StatusOther EmptyString.

(** ** Field updates *)

Definition grant_eta (g : Grant) : Grant :=
  MkGrant (grant_ID g) (grant_Client g) (grant_ClientRequestID g) (grant_Operation g)
    (grant_Target g) (grant_Attrs g) (grant_Metadata g) (grant_Reason g)
    (grant_Status g) (grant_Revision g) (grant_CreatedAt g) (grant_PendingExpiresAt g)
    (grant_ExpiresAt g) (grant_Duration g) (grant_RequestedDuration g)
    (grant_PendingTimeout g) (grant_DecidedAt g) (grant_DecidedBy g)
    (grant_DecidedOnBehalfOf g) (grant_FailureCode g) (grant_FailureReference g)
    (grant_FailedAt g) (grant_UsedAt g) (grant_UsedCount g) (grant_UseRevision g)
    (grant_ReservedCount g) (grant_ReservedAt g) (grant_ReservationRetained g)
    (grant_ReservationRevision g) (grant_MaxUses g) (grant_RequestedMaxUses g)
    (grant_RequestedMaxUsesDefaulted g) (grant_ExpiredFrom g).

(** [set_field eta getter v r] is [r] with the field of [getter] set to [v]. *)
Ltac set_field eta getter v r :=
  let b := eval cbv beta delta [eta] in (eta r) in
  lazymatch b with
  | context C [getter r] => let b' := context C [v] in exact b'
  end.

Definition set_Status (v : Status) (g : Grant) : Grant :=
  ltac:(set_field grant_eta grant_Status v g).
Definition set_Revision (v : Z) (g : Grant) : Grant :=
  ltac:(set_field grant_eta grant_Revision v g).
Definition set_ExpiresAt (v : Time) (g : Grant) : Grant :=
  ltac:(set_field grant_eta grant_ExpiresAt v g).
Definition set_Duration (v : Duration) (g : Grant) : Grant :=
  ltac:(set_field grant_eta grant_Duration v g).
Definition set_DecidedAt (v : Time) (g : Grant) : Grant :=
  ltac:(set_field grant_eta grant_DecidedAt v g).
Definition set_DecidedBy (v : string) (g : Grant) : Grant :=
  ltac:(set_field grant_eta grant_DecidedBy v g).
Definition set_DecidedOnBehalfOf (v : string) (g : Grant) : Grant :=
  ltac:(set_field grant_eta grant_DecidedOnBehalfOf v g).
Definition set_FailureCode (v : Code) (g : Grant) : Grant :=
  ltac:(set_field grant_eta grant_FailureCode v g).
Definition set_FailureReference (v : string) (g : Grant) : Grant :=
  ltac:(set_field grant_eta grant_FailureReference v g).
Definition set_FailedAt (v : Time) (g : Grant) : Grant :=
  ltac:(set_field grant_eta grant_FailedAt v g).
Definition set_UsedAt (v : Time) (g : Grant) : Grant :=
  ltac:(set_field grant_eta grant_UsedAt v g).
Definition set_UsedCount (v : Z) (g : Grant) : Grant :=
  ltac:(set_field grant_eta grant_UsedCount v g).
Definition set_UseRevision (v : Z) (g : Grant) : Grant :=
  ltac:(set_field grant_eta grant_UseRevision v g).
Definition set_ReservedCount (v : Z) (g : Grant) : Grant :=
  ltac:(set_field grant_eta grant_ReservedCount v g).
Definition set_ReservedAt (v : Time) (g : Grant) : Grant :=
  ltac:(set_field grant_eta grant_ReservedAt v g).
Definition set_ReservationRetained (v : bool) (g : Grant) : Grant :=
  ltac:(set_field grant_eta grant_ReservationRetained v g).
Definition set_ReservationRevision (v : Z) (g : Grant) : Grant :=
  ltac:(set_field grant_eta grant_ReservationRevision v g).
Definition set_MaxUses (v : Limit) (g : Grant) : Grant :=
  ltac:(set_field grant_eta grant_MaxUses v g).
Definition set_ExpiredFrom (v : Status) (g : Grant) : Grant :=
  ltac:(set_field grant_eta grant_ExpiredFrom v g).

#[export] Instance Target_eq_dec : EqDecision Target.
Proof. solve_decision. Defined.
#[export] Instance Request_eq_dec : EqDecision Request.
Proof. solve_decision. Defined.
#[export] Instance GrantPolicy_eq_dec : EqDecision GrantPolicy.
Proof. unfold Limit. solve_decision. Defined.
#[export] Instance PolicyGrant_eq_dec : EqDecision PolicyGrant.
Proof. solve_decision. Defined.
#[export] Instance Grant_eq_dec : EqDecision Grant.
Proof. unfold Limit. solve_decision. Defined.
