(* ===== verification/Errors.v ===== *)
(** * Errors and activation failures

    Go error values as a tree: sentinels, formatted errors with what they wrap,
    [errors.Join], and the typed errors of the packages modelled here, with
    [errors.Is] and [errors.As].  A formatted error keeps its format and its
    textual arguments, without modelling [%q]; numbers that are printed only (an
    index, a constant bound) are left out of its arguments.

    The second half is [authorization/activation/failure.go]: the closed set
    of approval failures. *)

From S2P Require Export Types.

Local Open Scope Z_scope.

Inductive error : Type :=
| ErrorNew (message : string)
    (** A package-level [errors.New]: a sentinel compared by identity. *)
| Errorf (format : string) (args : list string) (wrapped : list error)
    (** An error built where it is returned, with the errors its [%w] verbs wrap. *)
| ErrorJoin (joined : list error)
| ErrorFailure (code : Code) (stage : Stage) (retryable : bool) (cause : option error)
    (** [*activation.Failure] *)
| ErrorRevisionConflict (current : Grant)
    (** [*grants.RevisionConflictError] *)
| ErrorLimit (code : string) (retry_after : Duration)
    (** [*admission.LimitError] *)
| ErrorAPI (status : Z) (code message : string) (retry_after_seconds : Z)
    (** [*agentapi.Error] *)
| ErrorPartial (cause : error)
    (** [*operationruntime.PossiblePartialError] *)
| ErrorExternal (origin : string).
    (** An error of code outside the model: storage, randomness, a callback. *)

(** A plain inline [errors.New(...)] or [fmt.Errorf] that wraps nothing. *)
Abbreviation errorf format args := (Errorf format args []).

(** ** Sentinels *)

Definition ErrNotFound : error := ErrorNew "grant not found".
Definition ErrNotPending : error := ErrorNew "grant is not pending".
Definition ErrNotActive : error := ErrorNew "grant is not active".
Definition ErrIdempotencyConflict : error := ErrorNew "idempotency conflict".
Definition ErrUnsupportedState : error := ErrorNew "unsupported grant state".
Definition ErrCapacity : error := ErrorNew "grant pending capacity reached".
Definition ErrInvalidCursor : error := ErrorNew "invalid event cursor".
Definition ErrCursorExpired : error := ErrorNew "event cursor is no longer retained".
Definition ErrRevisionConflict : error := ErrorNew "grant revision conflict".
Definition ErrInvalidCommand : error := ErrorNew "invalid operator command".
Definition ErrInvalidTransition : error := ErrorNew "invalid grant transition".
Definition ErrConstraintExceeded : error := ErrorNew "approval constraint exceeded".
Definition ErrUseIdentityConflict : error := ErrorNew "grant use identity conflict".
Definition ErrUseSettled : error := ErrorNew "grant use is already settled".
Definition ErrInvalidGrantCursor : error := ErrorNew "invalid grant cursor".
Definition ErrInvalidQuery : error := ErrorNew "invalid grant query".
Definition ErrDenied : error := ErrorNew "authorization denied".
Definition ErrNoMatch : error := ErrorNew "authorization has no matching policy rule".
Definition ErrInvalidGrantIntent : error := ErrorNew "invalid grant intent".
Definition ErrApprovalUnsupported : error :=
  ErrorNew "operation does not support the requested approval mode".

(** ** [errors.Is] and [errors.As] *)

(** [errors.Is(err, target)] for a sentinel [target] with text [message]. *)
Fixpoint error_is (e : error) (message : string) : bool :=
  match e with
  | ErrorNew m => String.eqb m message
  | Errorf _ _ wrapped => existsb (λ w, error_is w message) wrapped
  | ErrorJoin joined => existsb (λ w, error_is w message) joined
  | ErrorFailure _ _ _ (Some cause) => error_is cause message
  | ErrorFailure _ _ _ None => false
  | ErrorRevisionConflict _ => String.eqb "grant revision conflict" message
  | ErrorPartial cause => error_is cause message
  | ErrorLimit _ _ | ErrorAPI _ _ _ _ | ErrorExternal _ => false
  end.

Definition errors_Is (e target : error) : bool :=
  match target with ErrorNew m => error_is e m | _ => false end.

(** A typed activation failure, without its private cause. *)
Record Failure : Type := MkFailure {
  failure_Code : Code;
  failure_Stage : Stage;
  failure_Retryable : bool
}.

(** [errors.As(err, &failure)]: the first failure of the tree, depth first. *)
Fixpoint errors_As_Failure (e : error) : option Failure :=
  let first :=
    fix first (l : list error) : option Failure :=
      match l with
      | [] => None
      | w :: t => match errors_As_Failure w with Some f => Some f | None => first t end
      end in
  match e with
  | ErrorFailure c s r _ => Some (MkFailure c s r)
  | Errorf _ _ wrapped => first wrapped
  | ErrorJoin joined => first joined
  | ErrorPartial cause => errors_As_Failure cause
  | _ => None
  end.

(** [errors.Join] of two errors that may be nil. *)
Definition errors_Join (a b : option error) : option error :=
  match a, b with
  | None, None => None
  | Some x, None | None, Some x => Some (ErrorJoin [x])
  | Some x, Some y => Some (ErrorJoin [x; y])
  end.

(** ** authorization/activation *)

Record specification : Type := MkSpecification {
  specification_stage : Stage;
  specification_retryable : bool
}.

(** The map [specifications]: the closed failure set. *)
Definition specifications (c : Code) : option specification :=
  match c with
  | CodePlanUnavailable => Some (MkSpecification StagePlan false)
  | CodePlanMismatch => Some (MkSpecification StagePlan false)
  | CodeCredentialChanged => Some (MkSpecification StageCredential false)
  | CodeCredentialInsufficient => Some (MkSpecification StageCredential false)
  | CodeConstraintExceeded => Some (MkSpecification StageConstraints false)
  | CodeStorageUnavailable => Some (MkSpecification StageStorage true)
  | CodeTemporarilyUnavailable => Some (MkSpecification StageDependency true)
  | CodeInternalError => Some (MkSpecification StageInternal true)
  | CodeOther _ => None
  end.

Definition code_text (c : Code) : string :=
  match c with
  | CodePlanUnavailable => "plan_unavailable"
  | CodePlanMismatch => "plan_mismatch"
  | CodeCredentialChanged => "credential_changed"
  | CodeCredentialInsufficient => "credential_insufficient"
  | CodeConstraintExceeded => "constraint_exceeded"
  | CodeStorageUnavailable => "storage_unavailable"
  | CodeTemporarilyUnavailable => "temporarily_unavailable"
  | CodeInternalError => "internal_error"
  | CodeOther text => text
  end.

Definition stage_text (s : Stage) : string :=
  match s with
  | StagePlan => "plan"
  | StageCredential => "credential"
  | StageConstraints => "constraints"
  | StageStorage => "storage"
  | StageDependency => "dependency"
  | StageInternal => "internal"
  end.

(** [activation.New]: an unknown code fails closed as an internal error. *)
Definition activation_New (c : Code) (cause : option error) : error :=
  match specifications c with
  | Some spec => ErrorFailure c (specification_stage spec) (specification_retryable spec) cause
  | None => ErrorFailure CodeInternalError StageInternal true cause
  end.

(** [activation.Known] *)
Definition activation_Known (c : Code) : bool :=
  match specifications c with Some _ => true | None => false end.

(** [activation.As] *)
Definition activation_As (e : option error) : option Failure :=
  match e with Some e => errors_As_Failure e | None => None end.

(** [activation.Classify] *)
Definition activation_Classify (e : option error) : Failure :=
  match activation_As e with
  | Some f => f
  | None => MkFailure CodeInternalError StageInternal true
  end.

(** [Failure.Error] *)
Definition failure_Error (f : Failure) : string :=
  match failure_Code f with
  | CodeOther EmptyString => code_text CodeInternalError
  | c => code_text c
  end.

(** ** Properties of the failure set *)

(** A failure [New] can build: its stage and retryability are those of its code. *)
Definition closed_failure (f : Failure) : Prop :=
  specifications (failure_Code f)
  = Some (MkSpecification (failure_Stage f) (failure_Retryable f)).

Lemma activation_New_closed (c : Code) (cause : option error) :
  ∃ f, errors_As_Failure (activation_New c cause) = Some f ∧ closed_failure f
       ∧ (activation_Known c = true → failure_Code f = c).
Proof. destruct c; eexists; (split; [reflexivity|]); split; done. Qed.

Lemma errors_Join_none (a b : option error) :
  errors_Join a b = None ↔ a = None ∧ b = None.
Proof. destruct a, b; simpl; naive_solver. Qed.
