(* ===== verification/Budget.v ===== *)
(** * Use budgets: [authorization/budget/limit.go]

    A limit is [0] (unlimited) or a positive finite count.  Counts of uses are
    numbers of stored records, far below [2^63], so they are integers here;
    the JSON decoder is where the width of [int] matters, and there the value
    has been read into an [int] already. *)

From S2P Require Export Errors.

Local Open Scope Z_scope.

Definition Unlimited : Limit := 0.
Definition SingleUse : Limit := 1.
Definition MaxFiniteUses : Limit := 1000000.

Definition IsUnlimited (l : Limit) : bool := l =? Unlimited.
Definition IsFinite (l : Limit) : bool := Unlimited <? l.

(** [Allows]: used and reserved uses remain within the limit. *)
Definition Allows (l : Limit) (used reserved : Z) : bool :=
  IsUnlimited l || (used + reserved <? l).

Definition Exhausted (l : Limit) (used : Z) : bool := IsFinite l && (l <=? used).

(** [Remaining]: the finite count left, and whether the limit is finite. *)
Definition Remaining (l : Limit) (used reserved : Z) : Z * bool :=
  if IsUnlimited l then (0, false) else (Z.max (l - used - reserved) 0, true).

(** A JSON number or null, as [json.Unmarshal] into an [int] sees it: [None]
    for a value that is neither. *)
Inductive limit_json : Type := JsonNull | JsonInt (n : Z) | JsonOther.

Definition Limit_MarshalJSON (l : Limit) : limit_json :=
  if IsUnlimited l then JsonNull else JsonInt l.

Definition Limit_UnmarshalJSON (j : limit_json) : result error Limit :=
  match j with
  | JsonNull => Ok Unlimited
  | JsonOther => Err (ErrorExternal "encoding/json")
  | JsonInt value =>
    if (value <? - 2 ^ 63) || (max_int64 <? value) then Err (ErrorExternal "encoding/json")
    else if (value <? SingleUse) || (MaxFiniteUses <? value)
    then Err (errorf "use limit must be between %d and %d or null" [])
    else Ok value
  end.

Definition Finite (value : Z) : OptionalLimit := MkOptionalLimit value true.
Definition NoLimit : OptionalLimit := MkOptionalLimit Unlimited true.

(** [Optional.UnmarshalJSON] marks the value as specified even when decoding fails. *)
Definition Optional_UnmarshalJSON (o : OptionalLimit) (j : limit_json)
  : OptionalLimit * option error :=
  match Limit_UnmarshalJSON j with
  | Ok l => (MkOptionalLimit l true, None)
  | Err e => (MkOptionalLimit (optional_Limit o) true, Some e)
  end.

Definition Optional_MarshalJSON (o : OptionalLimit) : limit_json :=
  Limit_MarshalJSON (optional_Limit o).

(** ** Properties *)

Lemma IsUnlimited_iff (l : Limit) : IsUnlimited l = true ↔ l = 0.
Proof. unfold IsUnlimited, Unlimited. apply Z.eqb_eq. Qed.

Lemma IsFinite_iff (l : Limit) : IsFinite l = true ↔ 0 < l.
Proof. unfold IsFinite, Unlimited. apply Z.ltb_lt. Qed.

Lemma Allows_iff (l : Limit) (used reserved : Z) :
  Allows l used reserved = true ↔ l = 0 ∨ used + reserved < l.
Proof. unfold Allows. rewrite orb_true_iff, IsUnlimited_iff, Z.ltb_lt. done. Qed.

Lemma Exhausted_iff (l : Limit) (used : Z) :
  Exhausted l used = true ↔ 0 < l ∧ l <= used.
Proof. unfold Exhausted. rewrite andb_true_iff, IsFinite_iff, Z.leb_le. done. Qed.

(** A use fits exactly when [Remaining] reports an unlimited budget or a
    positive remainder. *)
Lemma Allows_Remaining (l : Limit) (used reserved : Z) :
  Allows l used reserved = true ↔
  snd (Remaining l used reserved) = false ∨ 0 < fst (Remaining l used reserved).
Proof.
  rewrite Allows_iff. unfold Remaining, IsUnlimited, Unlimited.
  destruct (Z.eqb_spec l 0); simpl; split; intros; lia || (destruct H; [done|lia]) || idtac.
Qed.

#[export] Hint Rewrite IsUnlimited_iff IsFinite_iff Allows_iff Exhausted_iff : rew_go.
