(* ===== verification/RecursiveGlob.v ===== *)
(** * Recursive path globs

    The part of [authorization/policy/match.go] that turns a recursive path
    glob into the text of a regular expression and matches values against it,
    with the fragment of Go's [regexp] package those texts use: literals,
    escaped punctuation, [.], the class of all runes but a slash, the groups
    [(?s:e)] and [(?:e)], and the postfix [*] and [?].  Matching is on runes,
    as in [regexp]; an invalid byte of the subject reads as [U+FFFD], and a
    pattern that is not valid UTF-8 does not compile. *)

From S2P Require Export Errors.
From Stdlib Require Import Ascii.

Local Open Scope Z_scope.

(** ** The [regexp] fragment *)

Inductive regex : Type :=
| Void
| Eps
| Lit (r : Z)
| AnyRune
| NoNewline
| NotSlash
| Cat (e f : regex)
| Alt (e f : regex)
| Star (e : regex).

Definition slash_rune : Z := 47.

(** Smart constructors that keep derivatives small. *)
Definition mk_cat (e f : regex) : regex :=
  match e, f with
  | Void, _ | _, Void => Void
  | Eps, _ => f
  | _, Eps => e
  | _, _ => Cat e f
  end.
Definition mk_alt (e f : regex) : regex :=
  match e, f with
  | Void, _ => f
  | _, Void => e
  | _, _ => Alt e f
  end.

Fixpoint nullable (e : regex) : bool :=
  match e with
  | Eps | Star _ => true
  | Cat e f => nullable e && nullable f
  | Alt e f => nullable e || nullable f
  | _ => false
  end.

Fixpoint derive (r : Z) (e : regex) : regex :=
  match e with
  | Void | Eps => Void
  | Lit x => if x =? r then Eps else Void
  | AnyRune => Eps
  | NoNewline => if r =? 10 then Void else Eps
  | NotSlash => if r =? slash_rune then Void else Eps
  | Cat e f =>
    mk_alt (mk_cat (derive r e) f) (if nullable e then derive r f else Void)
  | Alt e f => mk_alt (derive r e) (derive r f)
  | Star e => mk_cat (derive r e) (Star e)
  end.

(** Whether the whole rune sequence is in the language of the expression. *)
Definition regex_accepts (e : regex) (subject : list Z) : bool :=
  nullable (fold_left (λ e r, derive r e) subject e).

(** ** Parsing expression text *)

Definition is_meta (c : ascii) : bool :=
  existsb (Ascii.eqb c) ["\"; "."; "+"; "*"; "?"; "("; ")"; "|"; "["; "]"; "{"; "}"; "^"; "$"]%char.

(** A sequence of repeated atoms, up to a closing parenthesis or the end. *)
Fixpoint parse_sequence (fuel : nat) (dot_all : bool) (text : string)
  : option (regex * string) :=
  match fuel with
  | O => None
  | S fuel' =>
    match text with
    | EmptyString => Some (Eps, EmptyString)
    | String ")" _ => Some (Eps, text)
    | _ =>
      '(atom, rest) ←
        match text with
        | String "(" (String "?" (String "s" (String ":" body))) =>
          '(e, close) ← parse_sequence fuel' true body;
          match close with String ")" rest => Some (e, rest) | _ => None end
        | String "(" (String "?" (String ":" body)) =>
          '(e, close) ← parse_sequence fuel' dot_all body;
          match close with String ")" rest => Some (e, rest) | _ => None end
        | String "[" (String "^" (String "/" (String "]" rest))) => Some (NotSlash, rest)
        | String "." rest => Some (if dot_all then AnyRune else NoNewline, rest)
        | String "\" (String c rest) =>
          if is_meta c then Some (Lit (byte_of c), rest) else None
        | String c _ =>
          if is_meta c then None
          else
            let '(r, n) := decode_rune text in
            if (r =? rune_error) && (n =? 1)%nat then None
            else Some (Lit r, drop_bytes n text)
        | EmptyString => None
        end;
      let '(repeated, rest) :=
        match rest with
        | String "*" rest' => (Star atom, rest')
        | String "?" rest' => (Alt Eps atom, rest')
        | _ => (atom, rest)
        end in
      '(tail, rest) ← parse_sequence fuel' dot_all rest;
      Some (Cat repeated tail, rest)
    end
  end.

(** [regexp.Compile] on a text anchored by [^] and [$]. *)
Definition regexp_Compile (text : string) : option regex :=
  match text with
  | String "^" body =>
    if has_suffix "$" body then
      let expression := trim_suffix "$" body in
      '(e, rest) ← parse_sequence (S (String.length expression)) false expression;
      if is_empty rest then Some e else None
    else None
  | _ => None
  end.

(** [Regexp.MatchString] for an anchored expression. *)
Definition regexp_MatchString (e : regex) (value : string) : bool :=
  regex_accepts e (runes value).

(** [regexp.QuoteMeta] *)
Fixpoint regexp_QuoteMeta (s : string) : string :=
  match s with
  | EmptyString => EmptyString
  | String c t =>
    if is_meta c then String "\" (String c (regexp_QuoteMeta t))
    else String c (regexp_QuoteMeta t)
  end.

(** [strings.ReplaceAll] for a non-empty [old]. *)
Fixpoint replace_from (skip : nat) (old new s : string) : string :=
  match s with
  | EmptyString => EmptyString
  | String c t =>
    match skip with
    | S k => replace_from k old new t
    | O =>
      if has_prefix old s
      then new +:+ replace_from (String.length old - 1) old new t
      else String c (replace_from 0 old new t)
    end
  end.

Definition strings_ReplaceAll (s old new : string) : string := replace_from 0 old new s.

(** ** The functions of match.go *)

Definition maxPathPatternBytes : Z := 1024.
Definition maxPathValueBytes : Z := 4096.
Definition maxPathSegments : Z := 256.

Fixpoint compact_from (last_is_double_star : bool) (segs : list string) : list string :=
  match segs with
  | [] => []
  | s :: t =>
    let double_star := String.eqb s "**" in
    if double_star && last_is_double_star then compact_from true t
    else s :: compact_from double_star t
  end.

Definition compactRecursiveSegments (segs : list string) : list string :=
  compact_from false segs.

Definition appendCompleteDoubleStar (expression : string) (index count : nat) : string :=
  expression +:+
  (if (count =? 1)%nat then "(?s:.*)"
   else if (index =? 0)%nat then "(?s:(?:.*/)?)"
   else if (index =? count - 1)%nat then "(?s:(?:/.*)?)"
   else "(?s:(?:/.*)?/)").

Definition recursiveSegmentExpression (seg : string) : string :=
  let expression := regexp_QuoteMeta seg in
  let expression := strings_ReplaceAll expression "\*\*" "(?s:.*)" in
  let expression := strings_ReplaceAll expression "\*" "[^/]*" in
  strings_ReplaceAll expression "\?" "[^/]".

(** The loop of [recursivePathExpression] from [index] on. *)
Fixpoint expression_from (count index : nat) (separatorBeforeNext : bool)
    (expression : string) (segs : list string) : string :=
  match segs with
  | [] => expression
  | seg :: t =>
    if String.eqb seg "**" then
      expression_from count (S index) false
        (appendCompleteDoubleStar expression index count) t
    else
      let expression := if separatorBeforeNext then expression +:+ "/" else expression in
      expression_from count (S index) true
        (expression +:+ recursiveSegmentExpression seg) t
  end.

Definition recursivePathExpression (pattern : string) : string :=
  let segs := compactRecursiveSegments (split_byte "/" pattern) in
  expression_from (length segs) 0 false EmptyString segs.

(** Patterns whose text does not compile are left out. *)
Definition compileRecursivePathPatterns (patterns : list string) : list regex :=
  omap (λ p, regexp_Compile ("^" +:+ recursivePathExpression p +:+ "$")) patterns.

Definition compiledRecursivePathPatternsMatch (patterns : list regex) (value : string) : bool :=
  existsb (λ p, regexp_MatchString p value) patterns.

Definition validPathValue (value : string) : bool :=
  negb (is_blank value) && (len value <=? maxPathValueBytes)
  && (count_byte "/" value <? maxPathSegments).

Definition recursivePathPatternsMatch (patterns : list string) (value : string) : bool :=
  validPathValue value
  && compiledRecursivePathPatternsMatch (compileRecursivePathPatterns patterns) value.

(** The loop of [recursivePathValuesMatch] with its early return. *)
Fixpoint recursive_values_loop (compiled : list regex) (requireAll : bool)
    (values : list string) : option bool :=
  match values with
  | [] => None
  | value :: t =>
    let matched := validPathValue value && compiledRecursivePathPatternsMatch compiled value in
    if negb (Bool.eqb requireAll matched) then Some (negb requireAll)
    else recursive_values_loop compiled requireAll t
  end.

Definition recursivePathValuesMatch (patterns values : list string) (requireAll : bool) : bool :=
  match recursive_values_loop (compileRecursivePathPatterns patterns) requireAll values with
  | Some verdict => verdict
  | None => requireAll && negb (Nat.eqb (length values) 0)
  end.

Example recursive_prefix :
  recursivePathPatternsMatch ["src/**"] "src/a/b.go" = true
  ∧ recursivePathPatternsMatch ["src/**"] "src" = true
  ∧ recursivePathPatternsMatch ["src/**"] "srcs/a" = false
  ∧ recursivePathPatternsMatch ["**/*.md"] "README.md" = true
  ∧ recursivePathPatternsMatch ["a/**/b?"] "a/bc" = true
  ∧ recursivePathPatternsMatch ["docs**"] "docs/x/y" = true
  ∧ recursivePathPatternsMatch ["a/*"] "a/b/c" = false.
Proof. vm_compute. done. Qed.
