(* ===== verification/PolicyRegistry.v ===== *)
(** * The provider vocabulary: [authorization/policy/registry.go]

    The registry of operations, target kinds and attributes a broker owns, its
    own consistency check, and the check of a classified request against it. *)

From S2P Require Export Budget RecursiveGlob.
From Stdlib Require Import Ascii.

Local Open Scope Z_scope.

Definition absoluteMaxGrantMinutes : Z := 7 * 24 * 60.

(** ** Texts of the string types *)

Definition match_mode_text (m : MatchMode) : string :=
  match m with
  | MatchGlob => "glob"
  | MatchAnyGlob => "any_glob"
  | MatchPathGlob => "path_glob"
  | MatchRecursivePathGlob => "recursive_path_glob"
  | MatchPathOutsidePrefix => "path_outside_prefix"
  | MatchIntegerMaximum => "integer_maximum"
  | MatchOther text => text
  end.

Definition grant_mode_text (m : GrantMode) : string :=
  match m with
  | GrantModeWindow => "window"
  | GrantModeExecution => "execution"
  | GrantModeOther text => text
  end.

Definition credential_use_text (u : CredentialUse) : string :=
  match u with
  | CredentialUseNone => "none"
  | CredentialUseManaged => "managed"
  | CredentialUseOther text => text
  end.

Definition effect_text (e : Effect) : string :=
  match e with
  | EffectAllow => "allow"
  | EffectRequest => "request"
  | EffectDeny => "deny"
  | EffectNoMatch => "no_match"
  | EffectOther text => text
  end.

(** ** Defaults and closed sets *)

Definition defaultedMatchMode (m : MatchMode) : MatchMode :=
  match m with MatchOther EmptyString => MatchGlob | _ => m end.

Definition validMatchMode (m : MatchMode) : bool :=
  match m with MatchOther _ => false | _ => true end.

Definition defaultedGrantMode (m : GrantMode) : GrantMode :=
  match m with GrantModeOther EmptyString => GrantModeWindow | _ => m end.

Definition validGrantMode (m : GrantMode) : bool :=
  match m with GrantModeOther _ => false | _ => true end.

Definition defaultedCredentialUse (u : CredentialUse) : CredentialUse :=
  match u with CredentialUseOther EmptyString => CredentialUseManaged | _ => u end.

Definition validCredentialUse (u : CredentialUse) : bool :=
  match u with CredentialUseOther _ => false | _ => true end.

(** [slices.Contains] *)
Definition slices_Contains {A} `{EqDecision A} (l : list A) (a : A) : bool :=
  existsb (λ b, bool_decide (b = a)) l.

(** ** Operation specifications *)

Definition allowsGrantMode (op : OperationSpec) (mode : GrantMode) : bool :=
  match op_GrantModes op with
  | [] => bool_decide (defaultedGrantMode (op_GrantMode op) = mode)
  | modes => slices_Contains modes mode
  end.

(** [OperationSpec.AllowsGrantMode] *)
Definition AllowsGrantMode (op : OperationSpec) (mode : GrantMode) : bool :=
  op_Grantable op && allowsGrantMode op mode.

(** [OperationSpec.SupportsCredentialUse] *)
Definition SupportsCredentialUse (op : OperationSpec) (use : CredentialUse) : bool :=
  let use := defaultedCredentialUse use in
  match op_CredentialUses op with
  | [] => bool_decide (use = CredentialUseManaged)
  | uses => slices_Contains uses use
  end.

(** [Registry.Operation]; the defensive copies are the identity on values. *)
Definition Registry_Operation (r : Registry) (name : string) : option OperationSpec :=
  reg_Operations r !! name.

Section registry.
Context {R : MapRange}.

(** ** Consistency of the registry *)

Fixpoint credential_uses_loop (name : string) (seen uses : list CredentialUse)
  : result error unit :=
  match uses with
  | [] => Ok tt
  | use :: t =>
    refuse (negb (validCredentialUse use))
      (errorf "registry operation %q has unsupported credential use %q"
         [name; credential_use_text use]) ;;;
    refuse (slices_Contains seen use)
      (errorf "registry operation %q repeats credential use %q"
         [name; credential_use_text use]) ;;;
    credential_uses_loop name (use :: seen) t
  end.

Definition validateOperationCredentialUses (name : string) (uses : list CredentialUse)
  : result error unit := credential_uses_loop name [] uses.

Definition validateNonGrantableOperationModes (name : string) (op : OperationSpec)
  : result error unit :=
  refuse (negb (bool_decide (op_GrantMode op = GrantModeOther EmptyString))
          || negb (Nat.eqb (length (op_GrantModes op)) 0)
          || negb (op_MaxGrantMinutes op =? 0) || negb (op_MaxGrantUses op =? 0)
          || op_DisallowUnlimitedGrantUses op)
    (errorf "registry operation %q is not grantable but declares grant settings" [name]).

Definition validateOperationGrantDuration (name : string) (minutes : Z) : result error unit :=
  refuse ((minutes <? 0) || (absoluteMaxGrantMinutes <? minutes))
    (errorf "registry operation %q has invalid maximum grant duration" [name]).

Definition validateOperationGrantUses (name : string) (uses : Limit) : result error unit :=
  refuse ((uses <? 0) || (MaxFiniteUses <? uses))
    (errorf "registry operation %q has invalid maximum grant uses" [name]).

Definition validateOperationGrantBounds (name : string) (op : OperationSpec)
  : result error unit :=
  validateOperationGrantDuration name (op_MaxGrantMinutes op) ;;;
  validateOperationGrantUses name (op_MaxGrantUses op) ;;;
  refuse (bool_decide (defaultedGrantMode (op_GrantMode op) = GrantModeExecution)
          && (1 <? op_MaxGrantUses op))
    (errorf "registry execution operation %q has invalid reusable grant settings" [name]).

Definition validateAllowedGrantModes (name : string) (op : OperationSpec)
  : result error unit :=
  for_each (λ mode,
    refuse (negb (validGrantMode mode))
      (errorf "registry operation %q has unsupported allowed grant mode %q"
         [name; grant_mode_text mode])) (op_GrantModes op) ;;;
  refuse (negb (Nat.eqb (length (op_GrantModes op)) 0)
          && negb (slices_Contains (op_GrantModes op)
                     (defaultedGrantMode (op_GrantMode op))))
    (errorf "registry operation %q default grant mode is not allowed" [name]).

Definition validateOperationGrantMode (name : string) (op : OperationSpec)
  : result error unit :=
  if negb (op_Grantable op) then validateNonGrantableOperationModes name op
  else
    refuse (negb (validGrantMode (defaultedGrantMode (op_GrantMode op))))
      (errorf "registry operation %q has unsupported grant mode %q"
         [name; grant_mode_text (op_GrantMode op)]) ;;;
    validateAllowedGrantModes name op ;;;
    validateOperationGrantBounds name op.

Definition validateOperation (r : Registry) (name : string) (op : OperationSpec)
  : result error unit :=
  refuse (Nat.eqb (length (op_TargetKinds op)) 0)
    (errorf "registry operation %q target kinds must not be empty" [name]) ;;;
  for_each (λ kind,
    refuse (bool_decide (reg_Targets r !! kind = None))
      (errorf "registry operation %q references unknown target kind %q" [name; kind]))
    (op_TargetKinds op) ;;;
  for_each (λ attr,
    refuse (bool_decide (reg_Attrs r !! attr = None))
      (errorf "registry operation %q references unknown attr %q" [name; attr]))
    (op_Attrs op) ;;;
  validateOperationCredentialUses name (op_CredentialUses op) ;;;
  validateOperationGrantMode name op.

Definition validateOperations (r : Registry) : result error unit :=
  for_each (λ '(name, op),
    refuse (is_blank name) (errorf "registry operation name is required" []) ;;;
    validateOperation r name op) (map_range (reg_Operations r)).

Definition validateTargetSpecs (r : Registry) : result error unit :=
  for_each (λ '(kind, target),
    refuse (is_blank kind) (errorf "registry target kind is required" []) ;;;
    for_each (λ '(field, spec),
      refuse (is_blank field)
        (errorf "registry target kind %q field name is required" [kind]) ;;;
      refuse (negb (validMatchMode (defaultedMatchMode (field_Match spec))))
        (errorf "registry target kind %q field %q has unsupported match mode %q"
           [kind; field; match_mode_text (field_Match spec)]))
      (map_range (spec_Fields target))) (map_range (reg_Targets r)).

Definition validateAttrSpecs (r : Registry) : result error unit :=
  for_each (λ '(attr, spec),
    refuse (is_blank attr) (errorf "registry attr name is required" []) ;;;
    refuse (negb (validMatchMode (defaultedMatchMode (attr_Match spec))))
      (errorf "registry attr %q has unsupported match mode %q"
         [attr; match_mode_text (attr_Match spec)]) ;;;
    refuse (negb (bool_decide (attr_GrantMatch spec = MatchOther EmptyString))
            && negb (validMatchMode (attr_GrantMatch spec)))
      (errorf "registry attr %q has unsupported grant match mode %q"
         [attr; match_mode_text (attr_GrantMatch spec)])) (map_range (reg_Attrs r)).

Definition validateTargets (r : Registry) : result error unit :=
  validateTargetSpecs r ;;; validateAttrSpecs r.

(** [Registry.Validate] *)
Definition Registry_validate (r : Registry) : result error unit :=
  refuse (bool_decide (reg_Operations r = ∅))
    (errorf "registry operations must not be empty" []) ;;;
  refuse (bool_decide (reg_Targets r = ∅))
    (errorf "registry targets must not be empty" []) ;;;
  validateOperations r ;;;
  validateTargets r.

(** ** Requests against the registry *)

Definition validatePathRequestValue (value : string) : result error unit :=
  refuse (maxPathValueBytes <? len value)
    (errorf "value must not exceed %d bytes" []) ;;;
  refuse (maxPathSegments <=? count_byte "/" value)
    (errorf "value must not exceed %d segments" []).

Definition validateIntegerRequestValue (value : string) : result error unit :=
  match parse_int value with
  | Some number => refuse (number <? 0) (errorf "value must be a non-negative integer" [])
  | None => Err (errorf "value must be a non-negative integer" [])
  end.

Definition validateRequestValue (value : string) (mode : MatchMode) : result error unit :=
  refuse (is_blank value) (errorf "value must not be empty" []) ;;;
  match defaultedMatchMode mode with
  | MatchGlob | MatchAnyGlob => Ok tt
  | MatchPathGlob | MatchRecursivePathGlob | MatchPathOutsidePrefix =>
    validatePathRequestValue value
  | MatchIntegerMaximum => validateIntegerRequestValue value
  | MatchOther _ => Ok tt
  end.

Definition validateRequestValues (values : list string) (mode : MatchMode)
  : result error unit :=
  refuse (Nat.eqb (length values) 0) (errorf "values must not be empty" []) ;;;
  for_each (λ value, validateRequestValue value mode) values.

(** [fmt.Errorf("...: %w", ..., err)] around the error of a check. *)
Definition wrap_error {A} (format : string) (args : list string) (r : result error A)
  : result error A :=
  match r with Ok a => Ok a | Err e => Err (Errorf format args [e]) end.

Definition validateRequestTarget (target : Target) (spec : TargetSpec) : result error unit :=
  for_each (λ '(name, fieldSpec),
    refuse (field_Required fieldSpec
            && Nat.eqb (length (values_of (target_Fields target) name)) 0)
      (errorf "target kind %q requires field %q" [target_Kind target; name]))
    (map_range (spec_Fields spec)) ;;;
  for_each (λ '(name, values),
    fieldSpec ← option_ok (spec_Fields spec !! name)
      (errorf "target kind %q does not support field %q" [target_Kind target; name]);
    wrap_error "target kind %q field %q: %w" [target_Kind target; name]
      (validateRequestValues values (field_Match fieldSpec)))
    (map_range (target_Fields target)).

Definition validateRequestAttrs (operation : string) (attrs : StringListMap)
    (op : OperationSpec) (registryAttrs : gmap string AttrSpec) : result error unit :=
  for_each (λ '(name, values),
    attrSpec ← option_ok (registryAttrs !! name) (errorf "unknown attr %q" [name]);
    refuse (negb (slices_Contains (op_Attrs op) name))
      (errorf "operation %q does not support attr %q" [operation; name]) ;;;
    wrap_error "attr %q: %w" [name]
      (validateRequestValues values (attr_Match attrSpec))) (map_range attrs).

(** [Registry.ValidateRequest] *)
Definition validateRequest (r : Registry) (request : Request) : result error unit :=
  op ← option_ok (reg_Operations r !! request_Operation request)
    (errorf "unknown operation %q" [request_Operation request]);
  let kind := target_Kind (request_Target request) in
  target ← option_ok (reg_Targets r !! kind) (errorf "unknown target kind %q" [kind]);
  refuse (negb (slices_Contains (op_TargetKinds op) kind))
    (errorf "operation %q does not support target kind %q"
       [request_Operation request; kind]) ;;;
  validateRequestTarget (request_Target request) target ;;;
  validateRequestAttrs (request_Operation request) (request_Attrs request) op (reg_Attrs r).

Definition validateRequestCredentialUse (r : Registry) (operation : string)
    (use : CredentialUse) : result error unit :=
  op ← option_ok (reg_Operations r !! operation)
    (errorf "unknown operation %q" [operation]);
  let use := defaultedCredentialUse use in
  refuse (negb (validCredentialUse use))
    (errorf "unsupported credential use %q" [credential_use_text use]) ;;;
  refuse (negb (SupportsCredentialUse op use))
    (errorf "operation %q does not support credential use %q"
       [operation; credential_use_text use]).
End registry.

(** ** Lemmas *)

Lemma slices_Contains_iff {A} `{EqDecision A} (l : list A) (a : A) :
  slices_Contains l a = true ↔ a ∈ l.
Proof.
  unfold slices_Contains. rewrite existsb_elem_of. split.
  - intros (b & Hb & E%bool_decide_eq_true). by subst.
  - intros Ha. exists a. split; [done|]. by apply bool_decide_eq_true.
Qed.
#[export] Hint Rewrite @slices_Contains_iff : rew_go.

Lemma defaultedCredentialUse_idem (u : CredentialUse) :
  defaultedCredentialUse (defaultedCredentialUse u) = defaultedCredentialUse u.
Proof. destruct u as [| |[]]; done. Qed.

Lemma wrap_error_ok {A} (format : string) (args : list string) (r : result error A) (a : A) :
  wrap_error format args r = Ok a ↔ r = Ok a.
Proof. destruct r; simpl; naive_solver. Qed.

Lemma option_ok_ok {E A} (o : option A) (e : E) (a : A) :
  option_ok o e = Ok a ↔ o = Some a.
Proof. destruct o; simpl; naive_solver. Qed.
#[export] Hint Rewrite @wrap_error_ok @option_ok_ok : rew_go.

#[local] Opaque validateRequestValues.

Section registry_lemmas.
Context {R : MapRange}.

(** What a request that passes the check is known to be. *)
Record classified (r : Registry) (request : Request) : Prop := {
  classified_operation : is_Some (reg_Operations r !! request_Operation request);
  classified_kind :
    target_Kind (request_Target request)
    ∈ op_TargetKinds (operation_spec r (request_Operation request));
  classified_target : is_Some (reg_Targets r !! target_Kind (request_Target request));
  classified_required : ∀ name f,
    spec_Fields (target_spec r (target_Kind (request_Target request))) !! name = Some f →
    field_Required f = true →
    values_of (target_Fields (request_Target request)) name ≠ [];
  classified_fields : ∀ name values,
    target_Fields (request_Target request) !! name = Some values →
    ∃ f, spec_Fields (target_spec r (target_Kind (request_Target request))) !! name = Some f
         ∧ validateRequestValues values (field_Match f) = Ok tt;
  classified_attrs : ∀ name values,
    request_Attrs request !! name = Some values →
    name ∈ op_Attrs (operation_spec r (request_Operation request))
    ∧ ∃ a, reg_Attrs r !! name = Some a
           ∧ validateRequestValues values (attr_Match a) = Ok tt
}.

Lemma validateRequestTarget_ok (target : Target) (spec : TargetSpec) :
  validateRequestTarget target spec = Ok tt ↔
  (∀ name f, spec_Fields spec !! name = Some f → field_Required f = true →
     values_of (target_Fields target) name ≠ []) ∧
  (∀ name values, target_Fields target !! name = Some values →
     ∃ f, spec_Fields spec !! name = Some f
          ∧ validateRequestValues values (field_Match f) = Ok tt).
Proof.
  unfold validateRequestTarget. rewrite seq_ok, !for_each_map_range.
  f_equiv; (apply forall_proper; intros name; apply forall_proper; intros f;
    apply forall_proper; intros _).
  - rewrite refuse_ok. destruct (field_Required f), (values_of _ _); simpl; naive_solver.
  - rewrite bind_ok_iff. setoid_rewrite option_ok_ok. by setoid_rewrite wrap_error_ok.
Qed.

Lemma validateRequestAttrs_ok (operation : string) (attrs : StringListMap)
    (op : OperationSpec) (registryAttrs : gmap string AttrSpec) :
  validateRequestAttrs operation attrs op registryAttrs = Ok tt ↔
  ∀ name values, attrs !! name = Some values →
    name ∈ op_Attrs op ∧
    ∃ a, registryAttrs !! name = Some a
         ∧ validateRequestValues values (attr_Match a) = Ok tt.
Proof.
  unfold validateRequestAttrs. rewrite for_each_map_range.
  apply forall_proper; intros name; apply forall_proper; intros values;
    apply forall_proper; intros _.
  rewrite bind_ok_iff. setoid_rewrite option_ok_ok. setoid_rewrite seq_ok.
  setoid_rewrite refuse_ok. setoid_rewrite wrap_error_ok.
  setoid_rewrite negb_false_iff. setoid_rewrite slices_Contains_iff.
  split; [intros (a & ? & ? & ?)|intros (? & a & ? & ?)]; eauto 10.
Qed.

Lemma validateRequest_classified (r : Registry) (request : Request) :
  validateRequest r request = Ok tt ↔ classified r request.
Proof.
  unfold validateRequest. rewrite bind_ok_iff. setoid_rewrite option_ok_ok.
  setoid_rewrite bind_ok_iff. setoid_rewrite option_ok_ok.
  setoid_rewrite seq_ok. setoid_rewrite refuse_ok. setoid_rewrite seq_ok.
  setoid_rewrite negb_false_iff. setoid_rewrite slices_Contains_iff.
  setoid_rewrite validateRequestTarget_ok. setoid_rewrite validateRequestAttrs_ok.
  split.
  - intros (op & Hop & t & Ht & Hk & (Hreq & Hf) & Ha).
    constructor; unfold operation_spec, target_spec in *; rewrite ?Hop, ?Ht; eauto.
  - intros [(op & Hop) Hk (t & Ht) Hreq Hf Ha].
    unfold operation_spec, target_spec in *. rewrite Hop, Ht in *. eauto 10.
Qed.
End registry_lemmas.
