(* ===== verification/PolicyMatch.v ===== *)
(** * Matching rules and grants: [authorization/policy/match.go]

    The match modes, the segment automaton of path globs, and the tests of a
    rule and of an active grant against a classified request.  A reference
    definition of path globs and the proof that the automaton computes it are
    at the end. *)

From S2P Require Export PolicyRegistry.
From Stdlib Require Import Ascii.

Local Open Scope Z_scope.

(** ** One value against patterns *)

(** [patternsMatch] *)
Definition patternsMatch (patterns : list string) (value : string) : bool :=
  if is_blank value then false else existsb (λ p, path_matches p value) patterns.

(** [closeDoubleStarStates]: the loop sets [states[i+1]] before it visits
    index [i+1], so a run of double stars is closed in one pass. *)
Fixpoint closeDoubleStarStates (states : list bool) (patterns : list string) : list bool :=
  match states, patterns with
  | s :: s' :: rest, p :: ps =>
    s :: closeDoubleStarStates ((s' || (s && String.eqb p "**")) :: rest) ps
  | _, _ => states
  end.

(** The loop of [advancePathStates]; [carry] is the value an earlier index
    wrote to the current one. *)
Fixpoint advance_from (carry : bool) (states : list bool) (patterns : list string)
    (value : string) : list bool :=
  match states, patterns with
  | s :: rest, p :: ps =>
    if String.eqb p "**" then (carry || s) :: advance_from false rest ps value
    else carry :: advance_from (s && path_matches p value) rest ps value
  | _ :: rest, [] => carry :: (const false <$> rest)
  | [], _ => []
  end.

Definition advancePathStates (states : list bool) (patterns : list string) (value : string)
  : list bool :=
  closeDoubleStarStates (advance_from false states patterns value) patterns.

(** [pathSegmentsMatch] *)
Definition pathSegmentsMatch (patterns values : list string) : bool :=
  let states := true :: replicate (length patterns) false in
  let states := closeDoubleStarStates states patterns in
  let states := foldl (λ states value, advancePathStates states patterns value) states values in
  default false (states !! length patterns).

Definition pathPatternsMatch (patterns : list string) (value : string) : bool :=
  if is_blank value || (maxPathValueBytes <? len value)
     || (maxPathSegments <=? count_byte "/" value)
  then false
  else
    let valueSegments := split_byte "/" value in
    existsb (λ p, pathSegmentsMatch (split_byte "/" p) valueSegments) patterns.

Definition pathOutsidePrefixes (prefixes : list string) (value : string) : bool :=
  forallb (λ prefix,
    let prefix := trim_suffix "/" prefix in
    negb (String.eqb value prefix || has_prefix (prefix +:+ "/") value)) prefixes.

Definition integerMaximumMatches (ceilings : list string) (value : string) : bool :=
  match parse_int value with
  | None => false
  | Some actual =>
    if actual <? 0 then false
    else existsb (λ raw, match parse_int raw with
                         | Some ceiling => actual <=? ceiling
                         | None => false
                         end) ceilings
  end.

(** [valuesMatch] *)
Definition valuesMatch (mode : MatchMode) (patterns : list string) (value : string) : bool :=
  match defaultedMatchMode mode with
  | MatchGlob | MatchAnyGlob => patternsMatch patterns value
  | MatchPathGlob => pathPatternsMatch patterns value
  | MatchRecursivePathGlob => recursivePathPatternsMatch patterns value
  | MatchPathOutsidePrefix => pathOutsidePrefixes patterns value
  | MatchIntegerMaximum => integerMaximumMatches patterns value
  | MatchOther _ => false
  end.

(** ** Value sets *)

Definition anyValueMatches (mode : MatchMode) (patterns values : list string) : bool :=
  match defaultedMatchMode mode with
  | MatchRecursivePathGlob => recursivePathValuesMatch patterns values false
  | _ => existsb (valuesMatch mode patterns) values
  end.

Definition allValuesMatch (mode : MatchMode) (patterns values : list string) : bool :=
  if Nat.eqb (length values) 0 then false
  else
    match defaultedMatchMode mode with
    | MatchRecursivePathGlob => recursivePathValuesMatch patterns values true
    | MatchAnyGlob => anyValueMatches mode patterns values
    | _ => forallb (valuesMatch mode patterns) values
    end.

(** A deny rule matches when any value does, another rule when all do. *)
Definition effectValuesMatch (effect : Effect) (mode : MatchMode)
    (patterns values : list string) : bool :=
  match effect with
  | EffectDeny => anyValueMatches mode patterns values
  | _ => allValuesMatch mode patterns values
  end.

(** ** Canonical string slices: [internal/copyx/map.go] *)

(** Insertion into a sorted list without duplicates. *)
Fixpoint insert_sorted (s : string) (l : list string) : list string :=
  match l with
  | [] => [s]
  | t :: rest =>
    match string_compare s t with
    | Lt => s :: l
    | Eq => l
    | Gt => t :: insert_sorted s rest
    end
  end.

(** [copyx.CanonicalStringSlice]: [sort.Strings] then [slices.Compact]. *)
Definition CanonicalStringSlice (values : list string) : list string :=
  foldr insert_sorted [] values.

(** [copyx.StringSlicesEqual]: equality as sets. *)
Definition StringSlicesEqual (left right : list string) : bool :=
  bool_decide (CanonicalStringSlice left = CanonicalStringSlice right).

Section matching.
Context {R : MapRange}.

(** [copyx.StringSliceMapsEqual] *)
Definition StringSliceMapsEqual (left right : StringListMap) : bool :=
  Nat.eqb (size left) (size right)
  && forallb (λ '(key, leftValues),
       match right !! key with
       | Some rightValues => StringSlicesEqual leftValues rightValues
       | None => false
       end) (map_range left).

(** [copyx.CanonicalStringSliceMap] *)
Definition CanonicalStringSliceMap (values : StringListMap) : StringListMap :=
  CanonicalStringSlice <$> values.

(** ** Rules *)

Definition ruleCredentialUseMatches (rule : Rule) (use : CredentialUse) : bool :=
  let use := defaultedCredentialUse use in
  match rule_CredentialUses rule with
  | [] => bool_decide (rule_Effect rule = EffectDeny)
          || bool_decide (use = CredentialUseManaged)
  | uses => slices_Contains uses use
  end.

Definition targetFieldsMatch (spec : TargetSpec) (effect : Effect)
    (patterns fields : StringListMap) : bool :=
  forallb (λ '(name, allowed),
    effectValuesMatch effect (field_Match (field_spec spec name)) allowed
      (values_of fields name)) (map_range patterns).

Definition targetsMatch (r : Registry) (effect : Effect) (matchers : list TargetMatcher)
    (target : Target) : bool :=
  existsb (λ m,
    String.eqb (matcher_Kind m) (target_Kind target)
    && targetFieldsMatch (target_spec r (target_Kind target)) effect
         (matcher_Fields m) (target_Fields target)) matchers.

Definition attrRelevantToOperation (r : Registry) (name operation : string) : bool :=
  slices_Contains (op_Attrs (operation_spec r operation)) name.

Definition attrsMatch (r : Registry) (effect : Effect) (patterns : StringListMap)
    (operation : string) (attrs : StringListMap) : bool :=
  forallb (λ '(name, allowed),
    if negb (attrRelevantToOperation r name operation) then true
    else
      match attrs !! name with
      | Some values => effectValuesMatch effect (attr_Match (attr_spec r name)) allowed values
      | None => false
      end) (map_range patterns).

(** [ruleMatches] *)
Definition ruleMatches (r : Registry) (rule : Rule) (request : Request)
    (use : CredentialUse) : bool :=
  ruleCredentialUseMatches rule use
  && patternsMatch (rule_Clients rule) (request_Client request)
  && patternsMatch (rule_Operations rule) (request_Operation request)
  && targetsMatch r (rule_Effect rule) (rule_Targets rule) (request_Target request)
  && attrsMatch r (rule_Effect rule) (rule_Attrs rule) (request_Operation request)
       (request_Attrs request).

(** ** Grants *)

Definition requiredGrantTargetFieldsPresent (spec : TargetSpec) (fields : StringListMap)
  : bool :=
  forallb (λ '(name, field),
    negb (field_Required field && Nat.eqb (length (values_of fields name)) 0))
    (map_range (spec_Fields spec)).

Definition grantTargetMatches (r : Registry) (constraint target : Target) : bool :=
  if negb (String.eqb (target_Kind constraint) (target_Kind target)) then false
  else
    match reg_Targets r !! target_Kind target with
    | None => false
    | Some spec =>
      requiredGrantTargetFieldsPresent spec (target_Fields constraint)
      && forallb (λ '(name, patterns),
           match spec_Fields spec !! name with
           | None => false
           | Some field =>
             allValuesMatch (field_Match field) patterns
               (values_of (target_Fields target) name)
           end) (map_range (target_Fields constraint))
    end.

Definition grantAttrConstraintMatches (spec : AttrSpec) (allowed values : list string)
  : bool :=
  match attr_GrantMatch spec with
  | MatchOther EmptyString => StringSlicesEqual allowed values
  | mode => allValuesMatch mode allowed values
  end.

Definition unconstrainedGrantAttrsAllowed (r : Registry)
    (constraints attrs : StringListMap) : bool :=
  forallb (λ '(name, _),
    match constraints !! name with
    | Some _ => true
    | None => attr_GrantMayOmit (attr_spec r name)
    end) (map_range attrs).

Definition grantAttrsMatch (r : Registry) (constraints attrs : StringListMap) : bool :=
  if (size attrs <? size constraints)%nat then false
  else
    forallb (λ '(name, allowed),
      match attrs !! name with
      | Some values => grantAttrConstraintMatches (attr_spec r name) allowed values
      | None => false
      end) (map_range constraints)
    && unconstrainedGrantAttrsAllowed r constraints attrs.

(** [grantMatches] *)
Definition grantMatches (r : Registry) (grant : PolicyGrant) (request : Request) : bool :=
  String.eqb (pg_Client grant) (request_Client request)
  && String.eqb (pg_Operation grant) (request_Operation request)
  && grantTargetMatches r (pg_Target grant) (request_Target request)
  && grantAttrsMatch r (pg_Attrs grant) (request_Attrs request)
  && (pg_Unlimited grant || (0 <? pg_UsesLeft grant)).
End matching.

(** ** The reference definition of path globs *)

(** A double star stands for any number of whole segments, another pattern for
    one segment that [path.Match] accepts. *)
Fixpoint segments_match (patterns : list string) : list string → bool :=
  match patterns with
  | [] => λ values, match values with [] => true | _ => false end
  | p :: ps =>
    if String.eqb p "**" then
      fix any values :=
        segments_match ps values || match values with [] => false | _ :: t => any t end
    else λ values,
      match values with [] => false | v :: t => path_matches p v && segments_match ps t end
  end.

(** What a state vector accepts: some live state's remaining patterns match. *)
Fixpoint states_accept (states : list bool) (patterns : list string) (values : list string)
  : bool :=
  match states with
  | [] => false
  | s :: rest => (s && segments_match patterns values)
                 || match patterns with [] => false | _ :: ps => states_accept rest ps values end
  end.

Lemma segments_match_star (ps : list string) (values : list string) :
  segments_match ("**" :: ps) values
  = segments_match ps values
    || match values with [] => false | _ :: t => segments_match ("**" :: ps) t end.
Proof. by destruct values. Qed.

Lemma length_close (states : list bool) (ps : list string) :
  length (closeDoubleStarStates states ps) = length states.
Proof.
  revert states; induction ps as [|p ps IH]; intros [|s [|s' rest]]; simpl; try done.
  by rewrite IH.
Qed.

Lemma length_advance (carry : bool) (states : list bool) (ps : list string) (v : string) :
  length (advance_from carry states ps v) = length states.
Proof.
  revert carry states; induction ps as [|p ps IH]; intros carry [|s rest]; simpl; try done.
  - by rewrite length_fmap.
  - destruct (String.eqb p "**"); simpl; by rewrite IH.
Qed.

(** Closing the double stars does not change what a vector accepts. *)
Lemma close_accept (states : list bool) (ps values : list string) :
  length states = S (length ps) →
  states_accept (closeDoubleStarStates states ps) ps values = states_accept states ps values.
Proof.
  revert states; induction ps as [|p ps IH]; intros [|s [|s' rest]] Hl; simpl in Hl; try lia; [done|].
  cbn [closeDoubleStarStates states_accept].
  rewrite IH by (simpl; lia). cbn [states_accept].
  destruct (String.eqb_spec p "**") as [->|Hne].
  - rewrite andb_true_r, segments_match_star.
    destruct s, s', (segments_match ps values); simpl; try done;
      rewrite ?orb_true_r, ?orb_false_r; done.
  - rewrite andb_false_r, orb_false_r. done.
Qed.

Lemma accept_dead (rest : list bool) (ps values : list string) :
  states_accept (const false <$> rest) ps values = false.
Proof.
  revert ps; induction rest as [|b rest IH]; intros [|p ps]; simpl; auto.
Qed.

Definition head_live (states : list bool) : bool := default false (head states).

(** A double star that is live has a live successor. *)
Fixpoint closed_states (states : list bool) (patterns : list string) : Prop :=
  match states, patterns with
  | s :: rest, p :: ps =>
    (s = true → p = "**" → head_live rest = true) ∧ closed_states rest ps
  | _, _ => True
  end.

Lemma close_head (states : list bool) (ps : list string) :
  head_live (closeDoubleStarStates states ps) = head_live states.
Proof. destruct ps as [|p ps], states as [|s [|s' rest]]; done. Qed.

Lemma close_closed (states : list bool) (ps : list string) :
  length states = S (length ps) → closed_states (closeDoubleStarStates states ps) ps.
Proof.
  revert states; induction ps as [|p ps IH]; intros [|s [|s' rest]] Hl;
    simpl in Hl; try done; try lia.
  cbn [closeDoubleStarStates closed_states]. split.
  - intros -> ->. rewrite close_head. simpl. by rewrite orb_true_r.
  - apply IH. simpl. lia.
Qed.

Lemma accept_head (rest : list bool) (ps values : list string) :
  head_live rest = true → segments_match ps values = true →
  states_accept rest ps values = true.
Proof. destruct rest as [|[] rest]; try done. intros _ Hm. simpl. by rewrite Hm. Qed.

(** Reading one value moves every live state to its successors. *)
Lemma advance_accept (carry : bool) (states : list bool) (ps : list string)
    (v : string) (values : list string) :
  length states = S (length ps) → closed_states states ps →
  states_accept (advance_from carry states ps v) ps values
  = (carry && segments_match ps values) || states_accept states ps (v :: values).
Proof.
  revert carry states; induction ps as [|p ps IH]; intros carry [|s rest] Hl Hc;
    simpl in Hl; try lia.
  - cbn. destruct carry, s, (match values with [] => true | _ => false end); done.
  - destruct Hc as [Hs Hc]. cbn [advance_from].
    destruct (String.eqb_spec p "**") as [->|Hne];
      cbn [states_accept]; rewrite IH by (done || lia).
    + rewrite (segments_match_star ps (v :: values)), andb_false_l, orb_false_l.
      pose proof (accept_head rest ps (v :: values)) as Hh.
      destruct s; [specialize (Hh (Hs eq_refl eq_refl))|];
        destruct carry, (segments_match ("**" :: ps) values), (segments_match ps (v :: values));
        simpl; rewrite ?orb_true_r, ?Hh by done; done.
    + assert (segments_match (p :: ps) (v :: values)
              = path_matches p v && segments_match ps values) as ->
        by (cbn; by destruct (String.eqb_spec p "**")).
      destruct carry, s, (path_matches p v), (segments_match ps values); simpl;
        rewrite ?orb_false_r, ?orb_true_r; done.
Qed.

Lemma advance_states_accept (states : list bool) (ps : list string)
    (v : string) (values : list string) :
  length states = S (length ps) → closed_states states ps →
  states_accept (advancePathStates states ps v) ps values
  = states_accept states ps (v :: values).
Proof.
  intros Hl Hc. unfold advancePathStates.
  rewrite close_accept by (by rewrite length_advance). by rewrite advance_accept.
Qed.

(** At the end of the input only the last state accepts. *)
Lemma final_accept (states : list bool) (ps : list string) :
  length states = S (length ps) → closed_states states ps →
  states_accept states ps [] = default false (states !! length ps).
Proof.
  revert states; induction ps as [|p ps IH]; intros [|s rest] Hl Hc; simpl in Hl; try lia.
  - destruct rest; [|simpl in Hl; lia]. simpl. destruct s; done.
  - destruct Hc as [Hs Hc]. cbn [states_accept].
    assert (default false ((s :: rest) !! length (p :: ps))
            = states_accept rest ps []) as -> by (rewrite IH by (done || lia); done).
    destruct (String.eqb_spec p "**") as [->|Hne].
    + rewrite segments_match_star, orb_false_r. pose proof (accept_head rest ps []) as Hh.
      destruct s; [specialize (Hh (Hs eq_refl eq_refl))|]; [|done].
      destruct (segments_match ps []); [by rewrite Hh|done].
    + assert (segments_match (p :: ps) [] = false) as ->
        by (cbn; by destruct (String.eqb_spec p "**")).
      by rewrite andb_false_r.
Qed.

Lemma run_accept (states : list bool) (ps values : list string) :
  length states = S (length ps) → closed_states states ps →
  default false (foldl (λ st v, advancePathStates st ps v) states values !! length ps)
  = states_accept states ps values.
Proof.
  revert states; induction values as [|v values IH]; intros states Hl Hc; simpl.
  - by rewrite final_accept.
  - assert (length (advancePathStates states ps v) = S (length ps)) as Hl'
      by (unfold advancePathStates; by rewrite length_close, length_advance).
    rewrite IH; [by apply advance_states_accept|done|].
    apply close_closed. by rewrite length_advance.
Qed.

(** The automaton computes the reference definition. *)
Lemma pathSegmentsMatch_segments_match (ps values : list string) :
  pathSegmentsMatch ps values = segments_match ps values.
Proof.
  unfold pathSegmentsMatch.
  assert (length (true :: replicate (length ps) false) = S (length ps)) as Hl
    by (simpl; by rewrite length_replicate).
  rewrite run_accept; [|by rewrite length_close|by apply close_closed].
  rewrite close_accept by done. cbn [states_accept].
  rewrite andb_true_l. destruct ps as [|p ps]; [by rewrite orb_false_r|].
  assert (∀ n l, states_accept (replicate n false) l values = false) as Hdead.
  { intros n; induction n as [|n IHn]; intros [|q l]; simpl; auto. }
  by rewrite Hdead, orb_false_r.
Qed.

(** ** Canonical slices are sets *)

Lemma elem_of_insert_sorted (s x : string) (l : list string) :
  x ∈ insert_sorted s l ↔ x = s ∨ x ∈ l.
Proof.
  induction l as [|t l IH]; simpl; [rewrite list_elem_of_singleton, elem_of_nil; tauto|].
  destruct (string_compare s t) eqn:E; rewrite ?elem_of_cons.
  - apply string_compare_eq in E as ->. tauto.
  - tauto.
  - rewrite IH. tauto.
Qed.

Lemma elem_of_canonical (x : string) (l : list string) : x ∈ CanonicalStringSlice l ↔ x ∈ l.
Proof.
  unfold CanonicalStringSlice. induction l as [|s l IH]; simpl; [done|].
  by rewrite elem_of_insert_sorted, IH, elem_of_cons.
Qed.

Lemma insert_sorted_sorted (s : string) (l : list string) :
  StronglySorted string_lt l → StronglySorted string_lt (insert_sorted s l).
Proof.
  induction 1 as [|t l Hl IH Ht]; simpl; [repeat constructor|].
  destruct (string_compare s t) eqn:E; [by constructor| |].
  - constructor; [by constructor|]. constructor; [done|].
    eapply Forall_impl; [exact Ht|]. intros u Hu. by apply (string_compare_trans s t).
  - constructor; [done|]. apply Forall_forall. intros u [->|Hu]%elem_of_insert_sorted.
    + unfold string_lt. by rewrite string_compare_antisym, E.
    + rewrite Forall_forall in Ht. by apply Ht.
Qed.

Lemma canonical_sorted (l : list string) : StronglySorted string_lt (CanonicalStringSlice l).
Proof.
  induction l as [|s l IH]; [constructor|]. by apply insert_sorted_sorted.
Qed.

Lemma sorted_unique (l l' : list string) :
  StronglySorted string_lt l → StronglySorted string_lt l' →
  (∀ x, x ∈ l ↔ x ∈ l') → l = l'.
Proof.
  intros Hl; revert l'; induction Hl as [|a l Hl IH Ha]; intros l' Hl' Heq.
  - destruct l' as [|b l']; [done|]. exfalso. apply (not_elem_of_nil b), Heq. left.
  - destruct Hl' as [|b l' Hl' Hb]; [exfalso; apply (not_elem_of_nil a), Heq; left|].
    rewrite Forall_forall in Ha. rewrite Forall_forall in Hb.
    assert (a = b) as <-.
    { assert (a ∈ b :: l') as [?|Hin]%elem_of_cons by (apply Heq; left); [done|].
      assert (b ∈ a :: l) as [?|Hin']%elem_of_cons by (apply Heq; left); [done|].
      destruct (irreflexivity string_lt a). etrans; [by apply Ha|by apply Hb]. }
    f_equal. apply IH; [done|]. intros x. specialize (Heq x). rewrite !elem_of_cons in Heq.
    split; intros Hx; (destruct (decide (x = a)) as [->|Hne]; [|naive_solver]).
    + destruct (irreflexivity string_lt a). by apply Ha.
    + destruct (irreflexivity string_lt a). by apply Hb.
Qed.

Lemma StringSlicesEqual_iff (l l' : list string) :
  StringSlicesEqual l l' = true ↔ ∀ x, x ∈ l ↔ x ∈ l'.
Proof.
  unfold StringSlicesEqual. rewrite bool_decide_eq_true. split.
  - intros H x. by rewrite <- (elem_of_canonical x l), H, elem_of_canonical.
  - intros H. apply sorted_unique; try apply canonical_sorted.
    intros x. rewrite !elem_of_canonical. apply H.
Qed.

Lemma StringSlicesEqual_refl (l : list string) : StringSlicesEqual l l = true.
Proof. by apply StringSlicesEqual_iff. Qed.
