(* ===== verification/PolicyDecide.v ===== *)
(** * Decisions: [authorization/policy/decide.go], [values.go] and [copy.go]

    [Policy.Decide] on one classified request, the defensive copies a policy
    makes of its registry and rules, and the theorems on the verdict. *)

From S2P Require Export PolicyMatch.
From Stdlib Require Import Ascii.

Local Open Scope Z_scope.

(** ** Defensive copies: copy.go *)

(** [cloneOperations] copies these six fields only. *)
Definition cloneOperation (spec : OperationSpec) : OperationSpec :=
  MkOperationSpec (op_TargetKinds spec) (op_Attrs spec) (op_CredentialUses spec)
    (op_Grantable spec) (op_GrantMode spec) (op_GrantModes spec)
    0 Unlimited false.

Definition cloneOperations (values : gmap string OperationSpec) : gmap string OperationSpec :=
  cloneOperation <$> values.

Definition cloneFieldSpecs (values : gmap string FieldSpec) : gmap string FieldSpec := values.

Definition cloneTargets (values : gmap string TargetSpec) : gmap string TargetSpec :=
  (λ spec, MkTargetSpec (cloneFieldSpecs (spec_Fields spec))) <$> values.

Definition cloneAttrs (values : gmap string AttrSpec) : gmap string AttrSpec := values.

(** [cloneRegistry] *)
Definition cloneRegistry (r : Registry) : Registry :=
  MkRegistry (cloneOperations (reg_Operations r)) (cloneTargets (reg_Targets r))
    (cloneAttrs (reg_Attrs r)).

(** [copyx.StringSliceMap], a deep copy. *)
Definition StringSliceMap (values : StringListMap) : StringListMap :=
  (λ value, value) <$> values.

Definition cloneTargetMatchers (values : list TargetMatcher) : list TargetMatcher :=
  (λ m, MkTargetMatcher (matcher_Kind m) (StringSliceMap (matcher_Fields m))) <$> values.

Definition cloneRule (rule : Rule) : Rule :=
  MkRule (rule_ID rule) (rule_Effect rule) (rule_Clients rule) (rule_Operations rule)
    (cloneTargetMatchers (rule_Targets rule)) (StringSliceMap (rule_Attrs rule))
    (rule_CredentialUses rule) (rule_GrantPolicy rule) (rule_Description rule).

Definition cloneRules (rules : list Rule) : list Rule := cloneRule <$> rules.

(** ** Policies and decisions *)

(** [policy.Policy] *)
Record Policy : Type := MkPolicy {
  policy_registry : Registry;
  policy_rules : list Rule
}.

(** The reason of a decision: one of the fixed texts, or [err.Error()]. *)
Inductive Reason : Type :=
| ReasonText (text : string)
| ReasonError (err : error).

(** [policy.Decision] *)
Record Decision : Type := MkDecision {
  decision_Effect : Effect;
  decision_Allowed : bool;
  decision_Reason : Reason;
  decision_CredentialUse : CredentialUse;
  decision_MatchedDenyRuleIDs : list string;
  decision_MatchedGrantRuleIDs : list string;
  decision_MatchedAllowRuleIDs : list string;
  decision_MatchedRequestRuleIDs : list string;
  decision_GrantID : string;
  decision_GrantPolicy : option GrantPolicy
}.

(** [policy.DecisionOptions] *)
Record DecisionOptions : Type := MkDecisionOptions {
  opts_ForGrantRequest : bool;
  opts_Now : Time;
  opts_ActiveGrants : list PolicyGrant;
  opts_CredentialUse : CredentialUse
}.

(** A decision that permits nothing and matched nothing. *)
Definition refusal (reason : Reason) (use : CredentialUse) : Decision :=
  MkDecision EffectNoMatch false reason use [] [] [] [] EmptyString None.

Definition normalizeRequest (request : Request) : Request :=
  MkRequest (request_Client request) (request_Operation request)
    (MkTarget (target_Kind (request_Target request))
       (StringSliceMap (target_Fields (request_Target request))))
    (StringSliceMap (request_Attrs request)).

(** ** Scalar values: values.go *)

Definition SingletonValues (values : gmap string string) : StringListMap :=
  (λ value, [value]) <$> values.

Definition FirstValue (values : list string) : string :=
  match values with [] => EmptyString | v :: _ => v end.

Definition MatchAll (mode : MatchMode) (patterns values : list string) : bool :=
  allValuesMatch mode patterns values.

Section decide.
Context {R : MapRange}.
(** What [time.Now().UTC()] returns when the options carry no instant. *)
Context (clock : Time).

Definition matchingRuleIDs (p : Policy) (request : Request) (effect : Effect)
    (use : CredentialUse) : list string :=
  rule_ID <$> filter (λ rule,
    bool_decide (rule_Effect rule = effect)
    && ruleMatches (policy_registry p) rule request use = true) (policy_rules p).

(** The loop of [firstMatchingGrant] at the instant [now]. *)
Fixpoint first_grant (r : Registry) (request : Request) (now : Time)
    (grants : list PolicyGrant) : option PolicyGrant :=
  match grants with
  | [] => None
  | grant :: rest =>
    if time_is_zero (pg_ExpiresAt grant) || negb (time_before now (pg_ExpiresAt grant))
    then first_grant r request now rest
    else if grantMatches r grant request then Some grant
    else first_grant r request now rest
  end.

Definition decision_instant (opts : DecisionOptions) : Time :=
  if time_is_zero (opts_Now opts) then clock else opts_Now opts.

Definition firstMatchingGrant (p : Policy) (request : Request) (opts : DecisionOptions)
  : option PolicyGrant :=
  first_grant (policy_registry p) request (decision_instant opts) (opts_ActiveGrants opts).

Fixpoint first_grant_policy (ruleID : string) (rules : list Rule) : option GrantPolicy :=
  match rules with
  | [] => None
  | rule :: rest =>
    if String.eqb (rule_ID rule) ruleID
    then match rule_GrantPolicy rule with
         | Some gp => Some gp
         | None => first_grant_policy ruleID rest
         end
    else first_grant_policy ruleID rest
  end.

Definition firstGrantPolicy (p : Policy) (ruleID : string) : option GrantPolicy :=
  first_grant_policy ruleID (policy_rules p).

Definition managedGrantDecision (p : Policy) (request : Request) (opts : DecisionOptions)
    (use : CredentialUse) : option Decision :=
  if negb (bool_decide (use = CredentialUseManaged)) then None
  else
    grant ← firstMatchingGrant p request opts;
    Some (MkDecision EffectAllow true (ReasonText "grant_allowed") use
            [] [pg_ID grant] [] [] (pg_ID grant) None).

Definition staticRuleDecision (p : Policy) (request : Request) (grantRequest : bool)
    (use : CredentialUse) : Decision :=
  match matchingRuleIDs p request EffectAllow use with
  | (_ :: _) as ids =>
    MkDecision EffectAllow true (ReasonText "policy_allowed") use
      [] [] ids [] EmptyString None
  | [] =>
    match matchingRuleIDs p request EffectRequest use with
    | [] => refusal (ReasonText "no_matching_rule") use
    | (first :: _) as ids =>
      if grantRequest
      then MkDecision EffectRequest false (ReasonText "requestable") use
             [] [] [] ids EmptyString (firstGrantPolicy p first)
      else MkDecision EffectDeny false (ReasonText "approval_required") use
             [] [] [] ids EmptyString None
    end
  end.

Definition decideValidRequest (p : Policy) (request : Request) (opts : DecisionOptions)
    (use : CredentialUse) : Decision :=
  match matchingRuleIDs p request EffectDeny use with
  | (_ :: _) as ids =>
    MkDecision EffectDeny false (ReasonText "policy_denied") use
      ids [] [] [] EmptyString None
  | [] =>
    match managedGrantDecision p request opts use with
    | Some decision => decision
    | None => staticRuleDecision p request (opts_ForGrantRequest opts) use
    end
  end.

(** [Policy.Decide] *)
Definition Decide (p : Policy) (request : Request) (opts : DecisionOptions) : Decision :=
  let request := normalizeRequest request in
  let use := defaultedCredentialUse (opts_CredentialUse opts) in
  match validateRequest (policy_registry p) request with
  | Err e => refusal (ReasonError e) use
  | Ok _ =>
    match validateRequestCredentialUse (policy_registry p) (request_Operation request) use with
    | Err e => refusal (ReasonError e) use
    | Ok _ => decideValidRequest p request opts use
    end
  end.
End decide.

(** ** Lemmas *)

Lemma StringSliceMap_id (m : StringListMap) : StringSliceMap m = m.
Proof. apply map_fmap_id. Qed.

Lemma normalizeRequest_id (request : Request) : normalizeRequest request = request.
Proof.
  destruct request as [c o [k f] a]. unfold normalizeRequest. simpl.
  by rewrite !StringSliceMap_id.
Qed.

#[local] Opaque ruleMatches grantMatches.

Section decide_lemmas.
Context {R : MapRange}.

(** A rule of the policy with this effect matches the request. *)
Definition rule_applies (p : Policy) (request : Request) (use : CredentialUse)
    (effect : Effect) (rule : Rule) : Prop :=
  rule ∈ policy_rules p ∧ rule_Effect rule = effect
  ∧ ruleMatches (policy_registry p) rule request use = true.

Lemma elem_of_matchingRuleIDs (p : Policy) (request : Request) (effect : Effect)
    (use : CredentialUse) (id : string) :
  id ∈ matchingRuleIDs p request effect use ↔
  ∃ rule, rule_applies p request use effect rule ∧ rule_ID rule = id.
Proof.
  unfold matchingRuleIDs, rule_applies. rewrite list_elem_of_fmap.
  setoid_rewrite list_elem_of_filter. setoid_rewrite andb_true_iff.
  setoid_rewrite bool_decide_eq_true.
  split; [intros (rule & -> & (? & ?) & ?)|intros (rule & (? & ? & ?) & <-)]; eauto 10.
Qed.

Lemma matchingRuleIDs_nil (p : Policy) (request : Request) (effect : Effect)
    (use : CredentialUse) :
  matchingRuleIDs p request effect use = [] ↔
  ∀ rule, ¬ rule_applies p request use effect rule.
Proof.
  split.
  - intros Hnil rule Ha.
    assert (rule_ID rule ∈ matchingRuleIDs p request effect use) as Hin
      by (apply elem_of_matchingRuleIDs; eauto).
    rewrite Hnil in Hin. by apply not_elem_of_nil in Hin.
  - intros Hno. destruct (matchingRuleIDs p request effect use) as [|id ids] eqn:E; [done|].
    assert (id ∈ matchingRuleIDs p request effect use) as Hin by (rewrite E; left).
    apply elem_of_matchingRuleIDs in Hin as (rule & Ha & _). by destruct (Hno rule).
Qed.

Lemma matchingRuleIDs_cons (p : Policy) (request : Request) (effect : Effect)
    (use : CredentialUse) :
  (∃ rule, rule_applies p request use effect rule) →
  ∃ id ids, matchingRuleIDs p request effect use = id :: ids.
Proof.
  intros (rule & Ha).
  destruct (matchingRuleIDs p request effect use) as [|id ids] eqn:E; [|eauto].
  by destruct (proj1 (matchingRuleIDs_nil p request effect use) E rule).
Qed.

(** A grant the decision may use at [now]. *)
Definition usable_grant (r : Registry) (request : Request) (now : Time) (g : PolicyGrant)
  : Prop :=
  pg_ExpiresAt g ≠ 0 ∧ now < pg_ExpiresAt g ∧ grantMatches r g request = true.

Lemma first_grant_some (r : Registry) (request : Request) (now : Time)
    (grants : list PolicyGrant) (g : PolicyGrant) :
  first_grant r request now grants = Some g → g ∈ grants ∧ usable_grant r request now g.
Proof.
  induction grants as [|h grants IH]; simpl; [done|].
  destruct (time_is_zero (pg_ExpiresAt h) || negb (time_before now (pg_ExpiresAt h))) eqn:E.
  - intros (? & ?)%IH. split; [by right|done].
  - destruct (grantMatches r h request) eqn:Hm.
    + intros [= ->]. unfold usable_grant, time_is_zero, time_before in *.
      bool_to_prop. split; [left|done].
    + intros (? & ?)%IH. split; [by right|done].
Qed.

Lemma first_grant_none (r : Registry) (request : Request) (now : Time)
    (grants : list PolicyGrant) :
  first_grant r request now grants = None ↔
  ∀ g, g ∈ grants → ¬ usable_grant r request now g.
Proof.
  induction grants as [|h grants IH]; simpl.
  - split; [|done]. intros _ g Hg. by apply not_elem_of_nil in Hg.
  - setoid_rewrite elem_of_cons.
    destruct (time_is_zero (pg_ExpiresAt h) || negb (time_before now (pg_ExpiresAt h))) eqn:E;
      [|destruct (grantMatches r h request) eqn:Hm].
    + rewrite IH. split; [|naive_solver]. intros H g [->|Hg]; [|by apply H].
      unfold usable_grant, time_is_zero, time_before in *. intros (? & ? & ?).
      apply orb_true_iff in E as [E|E]; bool_to_prop; lia.
    + split; [done|]. intros H. destruct (H h); [by left|].
      unfold usable_grant, time_is_zero, time_before in *. bool_to_prop. done.
    + rewrite IH. split; [|naive_solver]. intros H g [->|Hg]; [|by apply H].
      intros (? & ? & ?). congruence.
Qed.

(** The reason of every verdict on a valid request, in order of precedence. *)
Inductive verdict (clock : Time) (p : Policy) (request : Request) (opts : DecisionOptions)
    (use : CredentialUse) : Decision → Prop :=
| verdict_denied ids :
    (∃ rule, rule_applies p request use EffectDeny rule) →
    ids = matchingRuleIDs p request EffectDeny use →
    verdict clock p request opts use
      (MkDecision EffectDeny false (ReasonText "policy_denied") use
         ids [] [] [] EmptyString None)
| verdict_grant g :
    (∀ rule, ¬ rule_applies p request use EffectDeny rule) →
    use = CredentialUseManaged → g ∈ opts_ActiveGrants opts →
    usable_grant (policy_registry p) request (decision_instant clock opts) g →
    verdict clock p request opts use
      (MkDecision EffectAllow true (ReasonText "grant_allowed") use
         [] [pg_ID g] [] [] (pg_ID g) None)
| verdict_allowed ids :
    (∀ rule, ¬ rule_applies p request use EffectDeny rule) →
    (∃ rule, rule_applies p request use EffectAllow rule) →
    ids = matchingRuleIDs p request EffectAllow use →
    verdict clock p request opts use
      (MkDecision EffectAllow true (ReasonText "policy_allowed") use
         [] [] ids [] EmptyString None)
| verdict_requestable rule gp ids :
    (∀ effect rule, effect = EffectDeny ∨ effect = EffectAllow →
       ¬ rule_applies p request use effect rule) →
    opts_ForGrantRequest opts = true →
    rule_applies p request use EffectRequest rule →
    ids = matchingRuleIDs p request EffectRequest use →
    head ids = Some (rule_ID rule) → gp = firstGrantPolicy p (rule_ID rule) →
    verdict clock p request opts use
      (MkDecision EffectRequest false (ReasonText "requestable") use
         [] [] [] ids EmptyString gp)
| verdict_approval ids :
    (∀ effect rule, effect = EffectDeny ∨ effect = EffectAllow →
       ¬ rule_applies p request use effect rule) →
    opts_ForGrantRequest opts = false →
    (∃ rule, rule_applies p request use EffectRequest rule) →
    ids = matchingRuleIDs p request EffectRequest use →
    verdict clock p request opts use
      (MkDecision EffectDeny false (ReasonText "approval_required") use
         [] [] [] ids EmptyString None)
| verdict_no_rule :
    (∀ effect rule, effect = EffectDeny ∨ effect = EffectAllow ∨ effect = EffectRequest →
       ¬ rule_applies p request use effect rule) →
    verdict clock p request opts use (refusal (ReasonText "no_matching_rule") use).

Lemma managedGrantDecision_some (clock : Time) (p : Policy) (request : Request)
    (opts : DecisionOptions) (use : CredentialUse) (d : Decision) :
  managedGrantDecision clock p request opts use = Some d →
  ∃ g, use = CredentialUseManaged ∧ g ∈ opts_ActiveGrants opts ∧
       usable_grant (policy_registry p) request (decision_instant clock opts) g ∧
       d = MkDecision EffectAllow true (ReasonText "grant_allowed") use
             [] [pg_ID g] [] [] (pg_ID g) None.
Proof.
  unfold managedGrantDecision. case_bool_decide as Hu; [|done]. simpl.
  destruct (firstMatchingGrant clock p request opts) as [g|] eqn:Hg; [|done].
  intros [= <-]. apply first_grant_some in Hg as [Hin Hus]. eauto 10.
Qed.

Lemma managedGrantDecision_none (clock : Time) (p : Policy) (request : Request)
    (opts : DecisionOptions) (use : CredentialUse) :
  managedGrantDecision clock p request opts use = None →
  use = CredentialUseManaged → ∀ g, g ∈ opts_ActiveGrants opts →
  ¬ usable_grant (policy_registry p) request (decision_instant clock opts) g.
Proof.
  unfold managedGrantDecision. intros H ->. rewrite bool_decide_true in H by done.
  simpl in H. destruct (firstMatchingGrant clock p request opts) eqn:Hg; [done|].
  by apply first_grant_none.
Qed.

Lemma decideValidRequest_verdict (clock : Time) (p : Policy) (request : Request)
    (opts : DecisionOptions) (use : CredentialUse) :
  verdict clock p request opts use (decideValidRequest clock p request opts use).
Proof.
  unfold decideValidRequest.
  destruct (matchingRuleIDs p request EffectDeny use) as [|d ds] eqn:Hd.
  2:{ apply verdict_denied; [|done].
      destruct (proj1 (elem_of_matchingRuleIDs p request EffectDeny use d))
        as (rule & ? & ?); [rewrite Hd; left|eauto]. }
  pose proof (proj1 (matchingRuleIDs_nil _ _ _ _) Hd) as Hnd.
  destruct (managedGrantDecision clock p request opts use) as [dec|] eqn:Hg.
  { apply managedGrantDecision_some in Hg as (g & ? & ? & ? & ->).
    by apply verdict_grant. }
  unfold staticRuleDecision.
  destruct (matchingRuleIDs p request EffectAllow use) as [|a al] eqn:Ha.
  2:{ apply verdict_allowed; [done| |done].
      destruct (proj1 (elem_of_matchingRuleIDs p request EffectAllow use a))
        as (rule & ? & ?); [rewrite Ha; left|eauto]. }
  pose proof (proj1 (matchingRuleIDs_nil _ _ _ _) Ha) as Hna.
  destruct (matchingRuleIDs p request EffectRequest use) as [|q qs] eqn:Hq.
  { pose proof (proj1 (matchingRuleIDs_nil _ _ _ _) Hq) as Hnq.
    apply verdict_no_rule. intros effect rule [->|[->| ->]]; auto. }
  destruct (proj1 (elem_of_matchingRuleIDs p request EffectRequest use q))
    as (rule & Hr & <-); [rewrite Hq; left|].
  destruct (opts_ForGrantRequest opts) eqn:Hf.
  - apply (verdict_requestable clock p request opts use rule); try done.
    intros effect r' [->| ->]; auto.
  - apply verdict_approval; eauto. intros effect r' [->| ->]; auto.
Qed.
End decide_lemmas.

#[local] Transparent ruleMatches grantMatches.

(** ** The verdict does not depend on map iteration order *)

Section range_independence.
Context (R1 R2 : MapRange).

Lemma forallb_range_indep {A} (f g : string * A → bool) (m : gmap string A) :
  (∀ k v, m !! k = Some v → f (k, v) = g (k, v)) →
  forallb f (map_range (MapRange := R1) m) = forallb g (map_range (MapRange := R2) m).
Proof.
  intros Hfg. apply eq_true_iff_eq. rewrite !forallb_map_range.
  split; intros H k v Hk; specialize (H k v Hk); by rewrite ?Hfg, <- ?Hfg in *.
Qed.

Lemma targetsMatch_indep (r : Registry) (effect : Effect) (ms : list TargetMatcher)
    (target : Target) :
  targetsMatch (R := R1) r effect ms target = targetsMatch (R := R2) r effect ms target.
Proof.
  unfold targetsMatch. induction ms as [|m ms IH]; simpl; [done|]. rewrite IH.
  f_equal. f_equal. by apply forallb_range_indep.
Qed.

Lemma ruleMatches_indep (r : Registry) (rule : Rule) (request : Request)
    (use : CredentialUse) :
  ruleMatches (R := R1) r rule request use = ruleMatches (R := R2) r rule request use.
Proof.
  unfold ruleMatches. rewrite targetsMatch_indep. f_equal. by apply forallb_range_indep.
Qed.

Lemma grantMatches_indep (r : Registry) (g : PolicyGrant) (request : Request) :
  grantMatches (R := R1) r g request = grantMatches (R := R2) r g request.
Proof.
  unfold grantMatches, grantTargetMatches, grantAttrsMatch.
  f_equal. f_equal; [f_equal|].
  - destruct (negb _); [done|]. destruct (reg_Targets r !! _); [|done].
    f_equal; by apply forallb_range_indep.
  - destruct (_ <? _)%nat; [done|]. f_equal; by apply forallb_range_indep.
Qed.

Lemma first_grant_indep (r : Registry) (request : Request) (now : Time)
    (grants : list PolicyGrant) :
  first_grant (R := R1) r request now grants = first_grant (R := R2) r request now grants.
Proof.
  induction grants as [|g grants IH]; simpl; [done|].
  by rewrite IH, grantMatches_indep.
Qed.

Lemma matchingRuleIDs_indep (p : Policy) (request : Request) (effect : Effect)
    (use : CredentialUse) :
  matchingRuleIDs (R := R1) p request effect use
  = matchingRuleIDs (R := R2) p request effect use.
Proof.
  unfold matchingRuleIDs. f_equal. apply list_filter_iff. intros rule.
  by rewrite ruleMatches_indep.
Qed.

Lemma validateRequest_indep (r : Registry) (request : Request) :
  validateRequest (R := R1) r request = Ok tt ↔ validateRequest (R := R2) r request = Ok tt.
Proof. by rewrite !validateRequest_classified. Qed.

Lemma decideValidRequest_indep (clock : Time) (p : Policy) (request : Request)
    (opts : DecisionOptions) (use : CredentialUse) :
  decideValidRequest (R := R1) clock p request opts use
  = decideValidRequest (R := R2) clock p request opts use.
Proof.
  unfold decideValidRequest, managedGrantDecision, staticRuleDecision, firstMatchingGrant.
  by rewrite first_grant_indep, !matchingRuleIDs_indep.
Qed.
End range_independence.

(** ** The reference decision

    What a decision is, without the loops of the code: which values a pattern list
    accepts, when a rule or a grant covers a request, and the precedence of deny rules,
    grants, allow rules and request rules. *)

(** One value against the patterns of a field. *)
Definition value_accepted (mode : MatchMode) (patterns : list string) (v : string) : Prop :=
  match defaultedMatchMode mode with
  | MatchGlob | MatchAnyGlob => is_blank v = false ∧ ∃ p, p ∈ patterns ∧ path_matches p v = true
  | MatchPathGlob =>
    is_blank v = false ∧ len v <= maxPathValueBytes ∧ count_byte "/"%char v < maxPathSegments
    ∧ ∃ p, p ∈ patterns ∧ segments_match (split_byte "/"%char p) (split_byte "/"%char v) = true
  | MatchRecursivePathGlob => recursivePathPatternsMatch patterns v = true
  | MatchPathOutsidePrefix =>
    ∀ p, p ∈ patterns → v ≠ trim_suffix "/" p ∧ has_prefix (trim_suffix "/" p +:+ "/") v = false
  | MatchIntegerMaximum =>
    ∃ n, parse_int v = Some n ∧ 0 <= n ∧ ∃ p c, p ∈ patterns ∧ parse_int p = Some c ∧ n <= c
  | MatchOther _ => False
  end.

(** All values of a field, at least one, or any for [MatchAnyGlob]. *)
Definition values_accepted (mode : MatchMode) (patterns values : list string) : Prop :=
  if decide (defaultedMatchMode mode = MatchAnyGlob)
  then ∃ v, v ∈ values ∧ value_accepted mode patterns v
  else values ≠ [] ∧ ∀ v, v ∈ values → value_accepted mode patterns v.

(** A deny rule covers a field when it accepts any of its values. *)
Definition values_covered (effect : Effect) (mode : MatchMode) (patterns values : list string) : Prop :=
  if decide (effect = EffectDeny)
  then ∃ v, v ∈ values ∧ value_accepted mode patterns v
  else values_accepted mode patterns values.

Definition named_by (patterns : list string) (name : string) : Prop :=
  is_blank name = false ∧ ∃ p, p ∈ patterns ∧ path_matches p name = true.

(** A rule covers a request for a credential use. *)
Record rule_covers (r : Registry) (rule : Rule) (request : Request) (use : CredentialUse) : Prop := {
  covers_use : match rule_CredentialUses rule with
               | [] => rule_Effect rule = EffectDeny ∨ use = CredentialUseManaged
               | uses => use ∈ uses
               end;
  covers_client : named_by (rule_Clients rule) (request_Client request);
  covers_operation : named_by (rule_Operations rule) (request_Operation request);
  covers_target : ∃ m, m ∈ rule_Targets rule ∧ matcher_Kind m = target_Kind (request_Target request)
    ∧ ∀ name allowed, matcher_Fields m !! name = Some allowed →
        values_covered (rule_Effect rule)
          (field_Match (field_spec (target_spec r (target_Kind (request_Target request))) name))
          allowed (values_of (target_Fields (request_Target request)) name);
  covers_attrs : ∀ name allowed, rule_Attrs rule !! name = Some allowed →
    name ∈ op_Attrs (operation_spec r (request_Operation request)) →
    ∃ values, request_Attrs request !! name = Some values
      ∧ values_covered (rule_Effect rule) (attr_Match (attr_spec r name)) allowed values
}.

(** A grant covers a request. *)
Record grant_covers (r : Registry) (g : PolicyGrant) (request : Request) : Prop := {
  gcovers_client : pg_Client g = request_Client request;
  gcovers_operation : pg_Operation g = request_Operation request;
  gcovers_kind : target_Kind (pg_Target g) = target_Kind (request_Target request);
  gcovers_target : ∃ spec, reg_Targets r !! target_Kind (request_Target request) = Some spec
    ∧ (∀ name field, spec_Fields spec !! name = Some field → field_Required field = true →
         values_of (target_Fields (pg_Target g)) name ≠ [])
    ∧ ∀ name patterns, target_Fields (pg_Target g) !! name = Some patterns →
        ∃ field, spec_Fields spec !! name = Some field
          ∧ values_accepted (field_Match field) patterns
              (values_of (target_Fields (request_Target request)) name);
  gcovers_attrs : ∀ name allowed, pg_Attrs g !! name = Some allowed →
    ∃ values, request_Attrs request !! name = Some values
      ∧ if decide (attr_GrantMatch (attr_spec r name) = MatchOther EmptyString)
        then ∀ v, v ∈ allowed ↔ v ∈ values
        else values_accepted (attr_GrantMatch (attr_spec r name)) allowed values;
  gcovers_other : ∀ name, is_Some (request_Attrs request !! name) → pg_Attrs g !! name = None →
    attr_GrantMayOmit (attr_spec r name) = true;
  gcovers_uses : pg_Unlimited g = true ∨ 0 < pg_UsesLeft g
}.

(** The grant is not expired and covers the request. *)
Definition grant_usable (r : Registry) (request : Request) (instant : Time) (g : PolicyGrant) : Prop :=
  pg_ExpiresAt g ≠ 0 ∧ instant < pg_ExpiresAt g ∧ grant_covers r g request.

(** The elements of a list with a property, in the order of the list. *)
Inductive selects {A} (P : A → Prop) : list A → list A → Prop :=
| selects_nil : selects P [] []
| selects_take (x : A) (l l' : list A) : P x → selects P l l' → selects P (x :: l) (x :: l')
| selects_skip (x : A) (l l' : list A) : ¬ P x → selects P l l' → selects P (x :: l) l'.

(** The bounds a request rule gives: of the first rule with its identifier that has any. *)
Definition bounds_of (rules : list Rule) (id : string) (gp : option GrantPolicy) : Prop :=
  (gp = None ∧ ∀ rule, rule ∈ rules → rule_ID rule = id → rule_GrantPolicy rule = None)
  ∨ ∃ before rule after bounds, rules = before ++ rule :: after ∧ rule_ID rule = id
      ∧ rule_GrantPolicy rule = Some bounds ∧ gp = Some bounds
      ∧ ∀ x, x ∈ before → rule_ID x = id → rule_GrantPolicy x = None.

(** The instant of the decision. *)
Definition instant_of (clock : Time) (opts : DecisionOptions) : Time :=
  if decide (opts_Now opts = 0) then clock else opts_Now opts.

(** The decision on a classified request for a credential use that is supported. *)
Inductive judged (clock : Time) (p : Policy) (request : Request) (opts : DecisionOptions) (use : CredentialUse)
    (of_effect : Effect → list Rule) : Decision → Prop :=
| judged_denied :
    of_effect EffectDeny ≠ [] →
    judged clock p request opts use of_effect
      (MkDecision EffectDeny false (ReasonText "policy_denied") use
         (rule_ID <$> of_effect EffectDeny) [] [] [] EmptyString None)
| judged_granted (before after : list PolicyGrant) (g : PolicyGrant) :
    of_effect EffectDeny = [] → use = CredentialUseManaged →
    opts_ActiveGrants opts = before ++ g :: after →
    (∀ x, x ∈ before → ¬ grant_usable (policy_registry p) request (instant_of clock opts) x) →
    grant_usable (policy_registry p) request (instant_of clock opts) g →
    judged clock p request opts use of_effect
      (MkDecision EffectAllow true (ReasonText "grant_allowed") use [] [pg_ID g] [] [] (pg_ID g) None)
| judged_allowed :
    of_effect EffectDeny = [] →
    (use = CredentialUseManaged → ∀ g, g ∈ opts_ActiveGrants opts →
       ¬ grant_usable (policy_registry p) request (instant_of clock opts) g) →
    of_effect EffectAllow ≠ [] →
    judged clock p request opts use of_effect
      (MkDecision EffectAllow true (ReasonText "policy_allowed") use
         [] [] (rule_ID <$> of_effect EffectAllow) [] EmptyString None)
| judged_request (rule : Rule) (rest : list Rule) (gp : option GrantPolicy) :
    of_effect EffectDeny = [] →
    (use = CredentialUseManaged → ∀ g, g ∈ opts_ActiveGrants opts →
       ¬ grant_usable (policy_registry p) request (instant_of clock opts) g) →
    of_effect EffectAllow = [] → of_effect EffectRequest = rule :: rest →
    bounds_of (policy_rules p) (rule_ID rule) gp →
    judged clock p request opts use of_effect
      (if opts_ForGrantRequest opts
       then MkDecision EffectRequest false (ReasonText "requestable") use
              [] [] [] (rule_ID <$> rule :: rest) EmptyString gp
       else MkDecision EffectDeny false (ReasonText "approval_required") use
              [] [] [] (rule_ID <$> rule :: rest) EmptyString None)
| judged_nothing :
    of_effect EffectDeny = [] →
    (use = CredentialUseManaged → ∀ g, g ∈ opts_ActiveGrants opts →
       ¬ grant_usable (policy_registry p) request (instant_of clock opts) g) →
    of_effect EffectAllow = [] → of_effect EffectRequest = [] →
    judged clock p request opts use of_effect
      (MkDecision EffectNoMatch false (ReasonText "no_matching_rule") use [] [] [] [] EmptyString None).

Lemma patternsMatch_named (patterns : list string) (name : string) :
  patternsMatch patterns name = true ↔ named_by patterns name.
Proof.
  unfold patternsMatch, named_by. destruct (is_blank name); [naive_solver|]. rewrite existsb_elem_of. naive_solver.
Qed.

Lemma valuesMatch_accepted (mode : MatchMode) (patterns : list string) (v : string) :
  valuesMatch mode patterns v = true ↔ value_accepted mode patterns v.
Proof.
  assert (patternsMatch patterns v = true ↔ is_blank v = false ∧ ∃ p, p ∈ patterns ∧ path_matches p v = true) as Hglob.
  { apply patternsMatch_named. }
  unfold valuesMatch, value_accepted. destruct (defaultedMatchMode mode); [exact Hglob|exact Hglob|..].
  - unfold pathPatternsMatch. destruct (is_blank v); [naive_solver|]. cbn [orb].
    destruct (Z.ltb_spec maxPathValueBytes (len v)); cbn [orb]; [split; [done|lia]|].
    destruct (Z.leb_spec maxPathSegments (count_byte "/"%char v)); [split; [done|lia]|].
    rewrite existsb_elem_of. setoid_rewrite pathSegmentsMatch_segments_match. naive_solver.
  - done.
  - unfold pathOutsidePrefixes. rewrite forallb_elem_of.
    split; intros H p Hp; specialize (H p Hp);
      rewrite negb_true_iff, orb_false_iff, String.eqb_neq in *; exact H.
  - unfold integerMaximumMatches. destruct (parse_int v) as [n|]; [|split; [done|by intros (? & ? & _)]].
    destruct (Z.ltb_spec n 0); [split; [done|intros (? & [= <-] & ? & _); lia]|].
    rewrite existsb_elem_of. split.
    + intros (p & Hp & H1). exists n. split; [done|]. split; [lia|].
      destruct (parse_int p) as [c|] eqn:E; [|done]. exists p, c. apply Z.leb_le in H1. done.
    + intros (n' & [= <-] & _ & p & c & Hp & E & Hle). exists p. rewrite E. split; [done|by apply Z.leb_le].
  - split; [done|by intros []].
Qed.

Lemma recursive_values (patterns values : list string) (all : bool) :
  recursivePathValuesMatch patterns values all
  = if all then negb (Nat.eqb (length values) 0) && forallb (recursivePathPatternsMatch patterns) values
    else existsb (recursivePathPatternsMatch patterns) values.
Proof.
  unfold recursivePathValuesMatch.
  assert (recursive_values_loop (compileRecursivePathPatterns patterns) all values
          = if all then (if forallb (recursivePathPatternsMatch patterns) values then None else Some false)
            else (if existsb (recursivePathPatternsMatch patterns) values then Some true else None)) as ->.
  { induction values as [|v values IH]; [by destruct all|]. cbn [recursive_values_loop forallb existsb].
    rewrite IH. fold (recursivePathPatternsMatch patterns v).
    by destruct all, (recursivePathPatternsMatch patterns v). }
  destruct all; [by destruct (forallb _ _); rewrite ?andb_false_r, ?andb_true_r|by destruct (existsb _ _)].
Qed.

Lemma anyValueMatches_accepted (mode : MatchMode) (patterns values : list string) :
  anyValueMatches mode patterns values = true ↔ ∃ v, v ∈ values ∧ value_accepted mode patterns v.
Proof.
  setoid_rewrite <- valuesMatch_accepted. unfold anyValueMatches, valuesMatch.
  destruct (defaultedMatchMode mode) eqn:E; rewrite ?recursive_values, existsb_elem_of; try done.
Qed.

Lemma allValuesMatch_accepted (mode : MatchMode) (patterns values : list string) :
  allValuesMatch mode patterns values = true ↔ values_accepted mode patterns values.
Proof.
  unfold values_accepted, allValuesMatch.
  destruct (decide (defaultedMatchMode mode = MatchAnyGlob)) as [Em|Em].
  - rewrite <- anyValueMatches_accepted, Em. destruct values; [|done]. cbn.
    rewrite anyValueMatches_accepted. split; [done|]. intros (v & Hv & _). by apply not_elem_of_nil in Hv.
  - destruct values as [|v0 values0]; [cbn; split; [done|by intros [? _]]|].
    set (values := v0 :: values0). cbn [Nat.eqb length].
    assert ((∀ v, v ∈ values → value_accepted mode patterns v)
            ↔ forallb (valuesMatch mode patterns) values = true) as Hall.
    { rewrite forallb_elem_of. by setoid_rewrite valuesMatch_accepted. }
    rewrite Hall. unfold values at 1 2. destruct (defaultedMatchMode mode) eqn:E; try (split; [done|by intros [_ ?]]); try done.
    rewrite recursive_values. cbn [length Nat.eqb negb andb]. unfold valuesMatch. rewrite E. by split; [|intros [_ ?]].
Qed.

Lemma effectValuesMatch_covered (effect : Effect) (mode : MatchMode) (patterns values : list string) :
  effectValuesMatch effect mode patterns values = true ↔ values_covered effect mode patterns values.
Proof.
  unfold values_covered. destruct (decide (effect = EffectDeny)) as [->|Hne].
  - apply anyValueMatches_accepted.
  - rewrite <- allValuesMatch_accepted. by destruct effect.
Qed.


Section reference.
Context {R : MapRange}.

Lemma targetsMatch_covered (r : Registry) (effect : Effect) (matchers : list TargetMatcher) (target : Target) :
  targetsMatch r effect matchers target = true ↔
  ∃ m, m ∈ matchers ∧ matcher_Kind m = target_Kind target
    ∧ ∀ name allowed, matcher_Fields m !! name = Some allowed →
        values_covered effect (field_Match (field_spec (target_spec r (target_Kind target)) name))
          allowed (values_of (target_Fields target) name).
Proof.
  unfold targetsMatch. rewrite existsb_elem_of. setoid_rewrite andb_true_iff. setoid_rewrite String.eqb_eq.
  unfold targetFieldsMatch. setoid_rewrite forallb_map_range. by setoid_rewrite effectValuesMatch_covered.
Qed.

Lemma attrsMatch_covered (r : Registry) (effect : Effect) (patterns : StringListMap) (operation : string)
    (attrs : StringListMap) :
  attrsMatch r effect patterns operation attrs = true ↔
  ∀ name allowed, patterns !! name = Some allowed → name ∈ op_Attrs (operation_spec r operation) →
    ∃ values, attrs !! name = Some values ∧ values_covered effect (attr_Match (attr_spec r name)) allowed values.
Proof.
  unfold attrsMatch. rewrite forallb_map_range. apply forall_proper. intros name. apply forall_proper.
  intros allowed. unfold attrRelevantToOperation.
  destruct (slices_Contains _ name) eqn:E; cbn [negb].
  - apply slices_Contains_iff in E. destruct (attrs !! name) as [values|].
    + rewrite effectValuesMatch_covered. naive_solver.
    + naive_solver.
  - apply not_true_iff_false in E. rewrite slices_Contains_iff in E. naive_solver.
Qed.

Lemma ruleMatches_covers (r : Registry) (rule : Rule) (request : Request) (use : CredentialUse) :
  defaultedCredentialUse use = use →
  ruleMatches r rule request use = true ↔ rule_covers r rule request use.
Proof.
  intros Hu. unfold ruleMatches, ruleCredentialUseMatches. rewrite Hu.
  rewrite !andb_true_iff, !patternsMatch_named, targetsMatch_covered, attrsMatch_covered.
  assert ((match rule_CredentialUses rule with
           | [] => bool_decide (rule_Effect rule = EffectDeny) || bool_decide (use = CredentialUseManaged)
           | _ :: _ => slices_Contains (rule_CredentialUses rule) use
           end = true)
          ↔ match rule_CredentialUses rule with
            | [] => rule_Effect rule = EffectDeny ∨ use = CredentialUseManaged
            | uses => use ∈ uses
            end) as Huse.
  { destruct (rule_CredentialUses rule) as [|u us]; [by rewrite orb_true_iff, !bool_decide_eq_true|].
    apply slices_Contains_iff. }
  destruct (rule_CredentialUses rule) eqn:E; (split; [intros ((((H1 & H2) & H3) & H4) & H5)|intros [H1 H2 H3 H4 H5]];
    [constructor; [rewrite E; by apply Huse|done..]
    |rewrite E in H1; split_and!; [by apply Huse|done..]]).
Qed.

Lemma requiredGrant_present (spec : TargetSpec) (fields : StringListMap) :
  requiredGrantTargetFieldsPresent spec fields = true ↔
  ∀ name field, spec_Fields spec !! name = Some field → field_Required field = true →
    values_of fields name ≠ [].
Proof.
  unfold requiredGrantTargetFieldsPresent. rewrite forallb_map_range. apply forall_proper. intros name.
  apply forall_proper. intros field. destruct (field_Required field), (values_of fields name); cbn; naive_solver.
Qed.

Lemma grantTarget_covered (r : Registry) (constraint target : Target) :
  grantTargetMatches r constraint target = true ↔
  target_Kind constraint = target_Kind target
  ∧ ∃ spec, reg_Targets r !! target_Kind target = Some spec
    ∧ (∀ name field, spec_Fields spec !! name = Some field → field_Required field = true →
         values_of (target_Fields constraint) name ≠ [])
    ∧ ∀ name patterns, target_Fields constraint !! name = Some patterns →
        ∃ field, spec_Fields spec !! name = Some field
          ∧ values_accepted (field_Match field) patterns (values_of (target_Fields target) name).
Proof.
  unfold grantTargetMatches. destruct (String.eqb_spec (target_Kind constraint) (target_Kind target)); cbn [negb];
    [|naive_solver].
  destruct (reg_Targets r !! target_Kind target) as [spec|]; [|naive_solver].
  rewrite andb_true_iff, requiredGrant_present, forallb_map_range.
  assert ((∀ name patterns, target_Fields constraint !! name = Some patterns →
    match spec_Fields spec !! name with
    | Some field => allValuesMatch (field_Match field) patterns (values_of (target_Fields target) name)
    | None => false
    end = true) ↔ ∀ name patterns, target_Fields constraint !! name = Some patterns →
        ∃ field, spec_Fields spec !! name = Some field
          ∧ values_accepted (field_Match field) patterns (values_of (target_Fields target) name)) as ->.
  { apply forall_proper. intros name. apply forall_proper. intros patterns.
    destruct (spec_Fields spec !! name) as [field|]; [rewrite allValuesMatch_accepted|]; naive_solver. }
  naive_solver.
Qed.

Lemma grantAttr_covered (spec : AttrSpec) (allowed values : list string) :
  grantAttrConstraintMatches spec allowed values = true ↔
  if decide (attr_GrantMatch spec = MatchOther EmptyString)
  then ∀ v, v ∈ allowed ↔ v ∈ values
  else values_accepted (attr_GrantMatch spec) allowed values.
Proof.
  unfold grantAttrConstraintMatches. destruct (decide _) as [->|Hne]; [apply StringSlicesEqual_iff|].
  destruct (attr_GrantMatch spec) as [| | | | | |text]; try apply allValuesMatch_accepted.
  destruct text; [done|apply allValuesMatch_accepted].
Qed.

(** Constraints whose names all occur are at most as many as the names that occur. *)
Lemma grantAttrs_covered (r : Registry) (constraints attrs : StringListMap) :
  grantAttrsMatch r constraints attrs = true ↔
  (∀ name allowed, constraints !! name = Some allowed →
    ∃ values, attrs !! name = Some values
      ∧ if decide (attr_GrantMatch (attr_spec r name) = MatchOther EmptyString)
        then ∀ v, v ∈ allowed ↔ v ∈ values
        else values_accepted (attr_GrantMatch (attr_spec r name)) allowed values)
  ∧ ∀ name, is_Some (attrs !! name) → constraints !! name = None →
      attr_GrantMayOmit (attr_spec r name) = true.
Proof.
  unfold grantAttrsMatch.
  assert (forallb (λ '(name, allowed), match attrs !! name with
            | Some values => grantAttrConstraintMatches (attr_spec r name) allowed values
            | None => false end) (map_range constraints) = true
    ↔ ∀ name allowed, constraints !! name = Some allowed →
      ∃ values, attrs !! name = Some values
        ∧ if decide (attr_GrantMatch (attr_spec r name) = MatchOther EmptyString)
          then ∀ v, v ∈ allowed ↔ v ∈ values
          else values_accepted (attr_GrantMatch (attr_spec r name)) allowed values) as Hc.
  { rewrite forallb_map_range. apply forall_proper. intros name. apply forall_proper. intros allowed.
    destruct (attrs !! name) as [values|]; [rewrite grantAttr_covered|]; naive_solver. }
  assert (unconstrainedGrantAttrsAllowed r constraints attrs = true
    ↔ ∀ name, is_Some (attrs !! name) → constraints !! name = None →
        attr_GrantMayOmit (attr_spec r name) = true) as Ho.
  { unfold unconstrainedGrantAttrsAllowed. rewrite forallb_map_range. split.
    - intros H name [values Hv] Hn. specialize (H name values Hv). by rewrite Hn in H.
    - intros H name values Hv. destruct (constraints !! name) eqn:E; [done|]. by apply H. }
  rewrite <- Hc, <- Ho. destruct (Nat.ltb_spec (size attrs) (size constraints)) as [Hlt|]; [|apply andb_true_iff].
  split; [done|]. intros [H _]. exfalso.
  assert (dom constraints ⊆ dom attrs) as Hsub.
  { intros name [allowed Ha]%elem_of_dom. destruct (proj1 Hc H name allowed Ha) as (values & Hv & _).
    apply elem_of_dom. by exists values. }
  apply subseteq_size in Hsub. rewrite !size_dom in Hsub. lia.
Qed.

Lemma grantMatches_covers (r : Registry) (g : PolicyGrant) (request : Request) :
  grantMatches r g request = true ↔ grant_covers r g request.
Proof.
  unfold grantMatches. rewrite !andb_true_iff, orb_true_iff, !String.eqb_eq, Z.ltb_lt.
  rewrite grantTarget_covered, grantAttrs_covered. split.
  - intros ((((H1 & H2) & H3 & H4) & H5 & H6) & H7). by constructor.
  - intros []. by split_and!.
Qed.

Lemma usable_grant_usable (clock : Time) (r : Registry) (request : Request) (opts : DecisionOptions) (g : PolicyGrant) :
  usable_grant r request (decision_instant clock opts) g ↔ grant_usable r request (instant_of clock opts) g.
Proof.
  unfold usable_grant, grant_usable, decision_instant, instant_of, time_is_zero.
  rewrite grantMatches_covers. by destruct (decide _) as [->|H%Z.eqb_neq]; [|rewrite H].
Qed.

(** The rules of the policy with an effect that cover the request. *)
Definition rules_for (p : Policy) (request : Request) (use : CredentialUse) (effect : Effect) (rules : list Rule)
  : Prop :=
  selects (λ rule, rule_Effect rule = effect ∧ rule_covers (policy_registry p) rule request use)
    (policy_rules p) rules.

Lemma selects_filter {A} (P : A → Prop) (f : A → bool) (l : list A) :
  (∀ x, f x = true ↔ P x) → selects P l (filter (λ x, f x = true) l).
Proof.
  intros Hf. induction l as [|x l IH]; [constructor|]. destruct (f x) eqn:E.
  - rewrite filter_cons_True by done. constructor; [by apply Hf|done].
  - rewrite filter_cons_False by by rewrite E. constructor; [|done]. rewrite <- Hf, E. done.
Qed.

Lemma selects_unique {A} (P : A → Prop) (l l1 l2 : list A) : selects P l l1 → selects P l l2 → l1 = l2.
Proof.
  intros H. revert l2. induction H as [|x l l1 Hx _ IH|x l l1 Hx _ IH]; intros l2 H2; inversion H2; subst;
    naive_solver.
Qed.

(** The rules the code collects. *)
Definition covering_rules (p : Policy) (request : Request) (use : CredentialUse) (effect : Effect) : list Rule :=
  filter (λ rule, bool_decide (rule_Effect rule = effect)
    && ruleMatches (policy_registry p) rule request use = true) (policy_rules p).

Lemma covering_rules_for (p : Policy) (request : Request) (use : CredentialUse) (effect : Effect) :
  defaultedCredentialUse use = use → rules_for p request use effect (covering_rules p request use effect).
Proof.
  intros Hu. apply selects_filter. intros rule. by rewrite andb_true_iff, bool_decide_eq_true, ruleMatches_covers.
Qed.

Lemma firstGrantPolicy_bounds (p : Policy) (id : string) :
  bounds_of (policy_rules p) id (firstGrantPolicy p id).
Proof.
  unfold firstGrantPolicy, bounds_of. induction (policy_rules p) as [|rule rules IH]; cbn [first_grant_policy].
  - left. split; [done|]. intros rule Hin. by apply not_elem_of_nil in Hin.
  - destruct (String.eqb_spec (rule_ID rule) id) as [Hid|Hid].
    + destruct (rule_GrantPolicy rule) as [gp|] eqn:E.
      * right. exists [], rule, rules, gp. split_and!; try done. intros x Hx. by apply not_elem_of_nil in Hx.
      * destruct IH as [[-> H]|(before & r1 & after & b & -> & H)].
        -- left. split; [done|]. intros x [->|Hx]%elem_of_cons; [done|by apply H].
        -- right. exists (rule :: before), r1, after, b. split; [done|]. destruct H as (? & ? & ? & H).
           split_and!; try done. intros x [->|Hx]%elem_of_cons; [done|by apply H].
    + destruct IH as [[-> H]|(before & r1 & after & b & -> & H)].
      * left. split; [done|]. intros x [->|Hx]%elem_of_cons; [done|by apply H].
      * right. exists (rule :: before), r1, after, b. split; [done|]. destruct H as (? & ? & ? & H).
        split_and!; try done. intros x [->|Hx]%elem_of_cons; [done|by apply H].
Qed.

Lemma bounds_of_unique (rules : list Rule) (id : string) (gp1 gp2 : option GrantPolicy) :
  bounds_of rules id gp1 → bounds_of rules id gp2 → gp1 = gp2.
Proof.
  intros [[-> H1]|(b1 & r1 & a1 & x1 & E1 & I1 & G1 & -> & F1)] [[-> H2]|(b2 & r2 & a2 & x2 & E2 & I2 & G2 & -> & F2)].
  - done.
  - rewrite (H1 r2) in G2; [done|rewrite E2; set_solver|done].
  - rewrite (H2 r1) in G1; [done|rewrite E1; set_solver|done].
  - rewrite E1 in E2. clear E1. revert b2 E2 F2.
    induction b1 as [|y b1 IH]; intros [|z b2] E2 F2; cbn in E2; injection E2 as -> E2.
    + congruence.
    + rewrite (F2 z) in G1; [done|left|done].
    + rewrite (F1 r2) in G2; [done|left|done].
    + apply (IH ltac:(intros x Hx; apply F1; by right) b2 E2). intros x Hx. apply F2. by right.
Qed.

Lemma first_usable_unique (P : PolicyGrant → Prop) (b1 b2 a1 a2 : list PolicyGrant) (g1 g2 : PolicyGrant) :
  b1 ++ g1 :: a1 = b2 ++ g2 :: a2 → (∀ x, x ∈ b1 → ¬ P x) → (∀ x, x ∈ b2 → ¬ P x) → P g1 → P g2 → g1 = g2.
Proof.
  revert b2. induction b1 as [|y b1 IH]; intros [|z b2] E F1 F2 P1 P2; cbn in E; injection E as -> E.
  - done.
  - by destruct (F2 z); [left|].
  - by destruct (F1 g2); [left|].
  - apply (IH b2 E); set_solver.
Qed.

Lemma judged_unique (clock : Time) (p : Policy) (request : Request) (opts : DecisionOptions) (use : CredentialUse)
    (of_effect : Effect → list Rule) (d1 d2 : Decision) :
  judged clock p request opts use of_effect d1 → judged clock p request opts use of_effect d2 → d1 = d2.
Proof.
  assert (∀ before g after, opts_ActiveGrants opts = before ++ g :: after →
    grant_usable (policy_registry p) request (instant_of clock opts) g →
    ¬ ∀ g, g ∈ opts_ActiveGrants opts → ¬ grant_usable (policy_registry p) request (instant_of clock opts) g) as Hno.
  { intros before g after E Hg H. apply (H g); [|done]. rewrite E. set_solver. }
  intros [|b1 a1 g1 D1 U1 E1 F1 G1|D1 N1 A1|r1 l1 p1 D1 N1 A1 R1 B1|D1 N1 A1 R1]
         [|b2 a2 g2 D2 U2 E2 F2 G2|D2 N2 A2|r2 l2 p2 D2 N2 A2 R2 B2|D2 N2 A2 R2]; try congruence;
    try (by destruct (Hno _ _ _ E1 G1); eauto); try (by destruct (Hno _ _ _ E2 G2); eauto).
  - rewrite E1 in E2. by rewrite (first_usable_unique _ _ _ _ _ _ _ E2 F1 F2 G1 G2).
  - rewrite R1 in R2. injection R2 as <- <-. by rewrite (bounds_of_unique _ _ _ _ B1 B2).
Qed.

Lemma first_grant_split (r : Registry) (request : Request) (now : Time) (grants : list PolicyGrant) (g : PolicyGrant) :
  first_grant r request now grants = Some g →
  ∃ before after, grants = before ++ g :: after ∧ (∀ x, x ∈ before → ¬ usable_grant r request now x)
    ∧ usable_grant r request now g.
Proof.
  induction grants as [|h grants IH]; [done|]. intros H. pose proof H as Hsome.
  apply first_grant_some in Hsome as [_ Hg]. cbn [first_grant] in H.
  assert ((∀ x, x ∈ [h] → ¬ usable_grant r request now x) ∨ h = g) as [Hh| ->].
  { rewrite <- (first_grant_none r request now [h]). cbn [first_grant].
    destruct (time_is_zero (pg_ExpiresAt h) || negb (time_before now (pg_ExpiresAt h))); [by left|].
    destruct (grantMatches r h request); [right; congruence|by left]. }
  - assert (first_grant r request now grants = Some g) as H'.
    { assert (first_grant r request now [h] = None) as Eh by by apply first_grant_none. cbn [first_grant] in Eh.
      destruct (time_is_zero (pg_ExpiresAt h) || negb (time_before now (pg_ExpiresAt h))); [done|].
      by destruct (grantMatches r h request). }
    destruct (IH H') as (before & after & -> & Hb & _). exists (h :: before), after. split; [done|].
    split; [|done]. intros x [->|Hx]%elem_of_cons; [apply Hh; by left|by apply Hb].
  - exists [], grants. split_and!; [done|intros x Hx; by apply not_elem_of_nil in Hx|apply Hg..].
Qed.

Lemma decideValidRequest_judged (clock : Time) (p : Policy) (request : Request) (opts : DecisionOptions)
    (use : CredentialUse) :
  judged clock p request opts use (covering_rules p request use) (decideValidRequest clock p request opts use).
Proof.
  assert (∀ effect, matchingRuleIDs p request effect use = rule_ID <$> covering_rules p request use effect) as Hids
    by done.
  unfold decideValidRequest. rewrite Hids.
  destruct (covering_rules p request use EffectDeny) as [|d ds] eqn:Hd.
  2: { assert (covering_rules p request use EffectDeny ≠ []) as Hne by by rewrite Hd.
       pose proof (judged_denied clock p request opts use (covering_rules p request use) Hne) as H.
       by rewrite Hd in H. }
  cbn [fmap list_fmap].
  destruct (managedGrantDecision clock p request opts use) as [dec|] eqn:Hg.
  { unfold managedGrantDecision in Hg. case_bool_decide as Hu; [|done]. cbn [negb] in Hg.
    unfold firstMatchingGrant in Hg.
    destruct (first_grant _ _ _ _) as [g|] eqn:Ef; [|done]. injection Hg as <-.
    apply first_grant_split in Ef as (before & after & E & Hb & Hgu). setoid_rewrite usable_grant_usable in Hb.
    apply usable_grant_usable in Hgu. by apply (judged_granted _ _ _ _ _ _ before after). }
  assert (use = CredentialUseManaged → ∀ g, g ∈ opts_ActiveGrants opts →
    ¬ grant_usable (policy_registry p) request (instant_of clock opts) g) as Hno.
  { intros Hu g Hin. rewrite <- usable_grant_usable. by apply (managedGrantDecision_none _ _ _ _ _ Hg). }
  unfold staticRuleDecision. rewrite !Hids.
  destruct (covering_rules p request use EffectAllow) as [|a al] eqn:Ha.
  2: { assert (covering_rules p request use EffectAllow ≠ []) as Hne by by rewrite Ha.
       pose proof (judged_allowed clock p request opts use (covering_rules p request use) Hd Hno Hne) as H.
       by rewrite Ha in H. }
  cbn [fmap list_fmap].
  destruct (covering_rules p request use EffectRequest) as [|q qs] eqn:Hq; cbn [fmap list_fmap].
  - by apply judged_nothing.
  - pose proof (judged_request clock p request opts use (covering_rules p request use) q qs
      (firstGrantPolicy p (rule_ID q)) Hd Hno Ha Hq (firstGrantPolicy_bounds p (rule_ID q))) as H.
    by destruct (opts_ForGrantRequest opts).
Qed.
End reference.
(** ** Properties *)

(** The credential use of a decision is one the operation supports. *)
Definition credential_supported (r : Registry) (operation : string) (use : CredentialUse)
  : Prop :=
  validCredentialUse use = true
  ∧ SupportsCredentialUse (operation_spec r operation) use = true.

Lemma validateRequestCredentialUse_ok (r : Registry) (operation : string)
    (use : CredentialUse) :
  is_Some (reg_Operations r !! operation) →
  validateRequestCredentialUse r operation (defaultedCredentialUse use) = Ok tt ↔
  credential_supported r operation (defaultedCredentialUse use).
Proof.
  intros [op Hop]. unfold validateRequestCredentialUse, credential_supported, operation_spec.
  rewrite Hop, defaultedCredentialUse_idem. simpl.
  by rewrite seq_ok, !refuse_ok, !negb_false_iff.
Qed.

Section decide_properties.
Context {R : MapRange}.

Lemma Decide_cases (clock : Time) (p : Policy) (request : Request) (opts : DecisionOptions) :
  let use := defaultedCredentialUse (opts_CredentialUse opts) in
  (classified (policy_registry p) request
   ∧ credential_supported (policy_registry p) (request_Operation request) use
   ∧ Decide clock p request opts = decideValidRequest clock p request opts use)
  ∨ (¬ (classified (policy_registry p) request
        ∧ credential_supported (policy_registry p) (request_Operation request) use)
     ∧ ∃ e, Decide clock p request opts = refusal (ReasonError e) use).
Proof.
  intros use. unfold Decide. rewrite normalizeRequest_id. fold use.
  destruct (validateRequest (policy_registry p) request) as [[]|e] eqn:Hv.
  2:{ right. rewrite <- validateRequest_classified, Hv. naive_solver. }
  pose proof (proj1 (validateRequest_classified _ _) Hv) as Hc.
  pose proof (validateRequestCredentialUse_ok (policy_registry p) (request_Operation request)
                (opts_CredentialUse opts) (classified_operation _ _ Hc)) as Hu.
  fold use in Hu.
  destruct (validateRequestCredentialUse _ _ use) as [[]|e] eqn:He.
  - left. split; [done|]. split; [by apply Hu|done].
  - right. split; [|eauto]. intros [_ H%Hu]. done.
Qed.

(** C12: [Policy.Decide] is the reference decision [judged], and the reference decides
    one thing: on a request that the registry classifies and a credential use that the
    operation supports, the first of these that holds.  A deny rule covers the request:
    it is denied.  The use is managed and an active grant that has not expired covers the
    request: it is allowed under the first such grant, named in the decision.  An allow
    rule covers it: allowed.  A request rule covers it: requestable with the bounds of the
    first such rule when a request is being made, otherwise denied for want of approval.
    Nothing covers it: no match.  The decision names the rules of that effect that cover
    the request, all of them and in the order of the policy.  Any other request is
    refused, matches nothing and carries an error. *)
Theorem Decide_refines_verdict (clock : Time) (p : Policy) (request : Request)
    (opts : DecisionOptions) :
  let use := defaultedCredentialUse (opts_CredentialUse opts) in
  (classified (policy_registry p) request
   ∧ credential_supported (policy_registry p) (request_Operation request) use
   ∧ ∃ of_effect, (∀ effect, rules_for p request use effect (of_effect effect))
      ∧ judged clock p request opts use of_effect (Decide clock p request opts)
      ∧ ∀ d, judged clock p request opts use of_effect d → d = Decide clock p request opts)
  ∨ (¬ (classified (policy_registry p) request
        ∧ credential_supported (policy_registry p) (request_Operation request) use)
     ∧ ∃ e, Decide clock p request opts
            = MkDecision EffectNoMatch false (ReasonError e) use [] [] [] [] EmptyString None).
Proof.
  intros use. destruct (Decide_cases clock p request opts) as [(? & ? & ->)|?]; [left|by right].
  split; [done|]. split; [done|]. exists (covering_rules p request use).
  pose proof (decideValidRequest_judged clock p request opts use) as Hj.
  split; [intros effect; apply covering_rules_for, defaultedCredentialUse_idem|]. split; [exact Hj|].
  intros d Hd. by eapply judged_unique.
Qed.

Lemma verdict_allowed_inv (clock : Time) (p : Policy) (request : Request)
    (opts : DecisionOptions) (use : CredentialUse) (d : Decision) :
  verdict clock p request opts use d → decision_Allowed d = true →
  (∀ rule, ¬ rule_applies p request use EffectDeny rule)
  ∧ ((use = CredentialUseManaged
      ∧ ∃ g, g ∈ opts_ActiveGrants opts
             ∧ usable_grant (policy_registry p) request (decision_instant clock opts) g)
     ∨ ∃ rule, rule_applies p request use EffectAllow rule).
Proof. destruct 1; simpl; intros; try done; eauto 10. Qed.

Lemma decideValidRequest_allowed (clock : Time) (p : Policy) (request : Request)
    (opts : DecisionOptions) (use : CredentialUse) :
  decision_Allowed (decideValidRequest clock p request opts use) = true ↔
  (∀ rule, ¬ rule_applies p request use EffectDeny rule)
  ∧ ((use = CredentialUseManaged
      ∧ ∃ g, g ∈ opts_ActiveGrants opts
             ∧ usable_grant (policy_registry p) request (decision_instant clock opts) g)
     ∨ ∃ rule, rule_applies p request use EffectAllow rule).
Proof.
  split; [by apply verdict_allowed_inv, decideValidRequest_verdict|].
  intros [Hd Hgr]. unfold decideValidRequest.
  rewrite (proj2 (matchingRuleIDs_nil _ _ _ _) Hd).
  destruct (managedGrantDecision clock p request opts use) as [d|] eqn:Hg.
  { by apply managedGrantDecision_some in Hg as (g & _ & _ & _ & ->). }
  destruct Hgr as [(Hu & g & Hin & Hus)|Ha].
  { destruct (managedGrantDecision_none _ _ _ _ _ Hg Hu g Hin Hus). }
  unfold staticRuleDecision.
  destruct (matchingRuleIDs_cons _ _ _ _ Ha) as (id & ids & ->). done.
Qed.

(** A request is allowed exactly when the registry classifies it, the operation
    supports the credential use, no deny rule matches, and either a managed credential is
    used under an unexpired matching grant or an allow rule matches. *)
Theorem Decide_allowed_iff (clock : Time) (p : Policy) (request : Request)
    (opts : DecisionOptions) :
  let use := defaultedCredentialUse (opts_CredentialUse opts) in
  decision_Allowed (Decide clock p request opts) = true ↔
  classified (policy_registry p) request
  ∧ credential_supported (policy_registry p) (request_Operation request) use
  ∧ (∀ rule, ¬ rule_applies p request use EffectDeny rule)
  ∧ ((use = CredentialUseManaged
      ∧ ∃ g, g ∈ opts_ActiveGrants opts
             ∧ usable_grant (policy_registry p) request (decision_instant clock opts) g)
     ∨ ∃ rule, rule_applies p request use EffectAllow rule).
Proof.
  intros use. destruct (Decide_cases clock p request opts) as [(Hc & Hs & ->)|(Hn & e & ->)].
  - rewrite decideValidRequest_allowed. naive_solver.
  - simpl. split; [done|]. intros (Hc & Hs & _). by destruct Hn.
Qed.

Lemma rule_applies_incl (r : Registry) (l l' : list Rule) (request : Request)
    (use : CredentialUse) (effect : Effect) (rule : Rule) :
  l ⊆ l' → rule_applies (MkPolicy r l) request use effect rule →
  rule_applies (MkPolicy r l') request use effect rule.
Proof. unfold rule_applies. simpl. naive_solver. Qed.

(** Deny rules only restrict: when a policy that has more deny rules (and no other
    new rule) allows a request, the policy without them allows it too. *)
Theorem Decide_deny_monotone (clock : Time) (r : Registry) (rules rules' : list Rule)
    (request : Request) (opts : DecisionOptions) :
  (∀ rule, rule ∈ rules → rule ∈ rules') →
  (∀ rule, rule ∈ rules' → rule ∈ rules ∨ rule_Effect rule = EffectDeny) →
  decision_Allowed (Decide clock (MkPolicy r rules') request opts) = true →
  decision_Allowed (Decide clock (MkPolicy r rules) request opts) = true.
Proof.
  intros Hsub Hnew.
  destruct (Decide_cases clock (MkPolicy r rules') request opts)
    as [(Hc & Hs & ->)|(Hn & e & ->)]; [|done].
  destruct (Decide_cases clock (MkPolicy r rules) request opts)
    as [(_ & _ & ->)|(Hn & _)]; [|by destruct Hn].
  rewrite !decideValidRequest_allowed. intros [Hd Ha]. split.
  - intros rule Hr. apply (Hd rule). by apply (rule_applies_incl r rules).
  - destruct Ha as [Hg|(rule & Hin & He & Hm)]; [by left|]. right. exists rule.
    destruct (Hnew rule Hin) as [?|Hdeny]; [done|]. congruence.
Qed.
End decide_properties.

(** A decision without its reason, which only names one of the faults of an
    unclassified request. *)
Definition without_reason (d : Decision) : Decision :=
  MkDecision (decision_Effect d) (decision_Allowed d) (ReasonText EmptyString)
    (decision_CredentialUse d) (decision_MatchedDenyRuleIDs d)
    (decision_MatchedGrantRuleIDs d) (decision_MatchedAllowRuleIDs d)
    (decision_MatchedRequestRuleIDs d) (decision_GrantID d) (decision_GrantPolicy d).

(** The decision does not depend on the order in which Go iterates over the maps of
    the registry, the rules, the grants and the request: two orders give the same decision
    up to the text that explains why a request is not classified. *)
Theorem Decide_range_independent (R1 R2 : MapRange) (clock : Time) (p : Policy)
    (request : Request) (opts : DecisionOptions) :
  without_reason (Decide (R := R1) clock p request opts)
  = without_reason (Decide (R := R2) clock p request opts)
  ∧ (validateRequest (R := R1) (policy_registry p) request = Ok tt →
     Decide (R := R1) clock p request opts = Decide (R := R2) clock p request opts).
Proof.
  pose proof (validateRequest_indep R1 R2 (policy_registry p) request) as Hv.
  unfold Decide. rewrite !normalizeRequest_id.
  destruct (validateRequest (R := R1) (policy_registry p) request) as [[]|e1] eqn:E1,
    (validateRequest (R := R2) (policy_registry p) request) as [[]|e2] eqn:E2; try done.
  - destruct (validateRequestCredentialUse _ _ _); [|done].
    by rewrite (decideValidRequest_indep R1 R2).
  - by apply proj1 in Hv; specialize (Hv eq_refl).
  - by apply proj2 in Hv; specialize (Hv eq_refl).
Qed.

(** ** The copy of the registry decides like the registry *)

Lemma operation_spec_clone (r : Registry) (name : string) :
  operation_spec (cloneRegistry r) name = cloneOperation (operation_spec r name).
Proof.
  unfold operation_spec. simpl. unfold cloneOperations. rewrite lookup_fmap.
  by destruct (reg_Operations r !! name).
Qed.

Lemma cloneTargets_id (m : gmap string TargetSpec) : cloneTargets m = m.
Proof.
  unfold cloneTargets. rewrite <- (map_fmap_id m) at 2.
  apply map_fmap_ext. by intros k [] _.
Qed.

Lemma cloneRules_id (rules : list Rule) : cloneRules rules = rules.
Proof.
  unfold cloneRules. rewrite <- (list_fmap_id rules) at 2. apply list_fmap_ext.
  intros i rule _. destruct rule as [id e cs os ts a us gp d].
  unfold cloneRule, cloneTargetMatchers. simpl. rewrite StringSliceMap_id. f_equal.
  rewrite <- (list_fmap_id ts) at 2. apply list_fmap_ext.
  intros j [k f] _. simpl. by rewrite StringSliceMap_id.
Qed.

Section clone_properties.
Context {R : MapRange}.

Lemma ruleMatches_clone (r : Registry) (rule : Rule) (request : Request)
    (use : CredentialUse) :
  ruleMatches (cloneRegistry r) rule request use = ruleMatches r rule request use.
Proof.
  unfold ruleMatches. f_equal.
  - f_equal. unfold targetsMatch, target_spec. simpl. by rewrite cloneTargets_id.
  - unfold attrsMatch. apply forallb_range_indep. intros k v _.
    unfold attrRelevantToOperation, attr_spec. by rewrite operation_spec_clone.
Qed.

Lemma grantMatches_clone (r : Registry) (g : PolicyGrant) (request : Request) :
  grantMatches (cloneRegistry r) g request = grantMatches r g request.
Proof.
  unfold grantMatches, grantTargetMatches. simpl. by rewrite cloneTargets_id.
Qed.

Lemma first_grant_clone (r : Registry) (request : Request) (now : Time)
    (grants : list PolicyGrant) :
  first_grant (cloneRegistry r) request now grants = first_grant r request now grants.
Proof.
  induction grants as [|g grants IH]; simpl; [done|]. by rewrite IH, grantMatches_clone.
Qed.

Lemma validateRequest_clone (r : Registry) (request : Request) :
  validateRequest (cloneRegistry r) request = validateRequest r request.
Proof.
  unfold validateRequest. simpl. rewrite cloneTargets_id.
  unfold cloneOperations. rewrite lookup_fmap.
  by destruct (reg_Operations r !! request_Operation request).
Qed.

Lemma validateRequestCredentialUse_clone (r : Registry) (name : string)
    (use : CredentialUse) :
  validateRequestCredentialUse (cloneRegistry r) name use
  = validateRequestCredentialUse r name use.
Proof.
  unfold validateRequestCredentialUse. simpl. unfold cloneOperations. rewrite lookup_fmap.
  by destruct (reg_Operations r !! name).
Qed.

Lemma matchingRuleIDs_clone (r : Registry) (rules : list Rule) (request : Request)
    (effect : Effect) (use : CredentialUse) :
  matchingRuleIDs (MkPolicy (cloneRegistry r) (cloneRules rules)) request effect use
  = matchingRuleIDs (MkPolicy r rules) request effect use.
Proof.
  unfold matchingRuleIDs. simpl. rewrite cloneRules_id. f_equal.
  apply list_filter_iff. intros rule. by rewrite ruleMatches_clone.
Qed.

(** The registry copy a parsed policy keeps forgets the grant bounds of the
    operations ([cloneOperations] copies six of nine fields), yet every decision on the
    copies is the decision on the originals. *)
Theorem Decide_clone (clock : Time) (r : Registry) (rules : list Rule) (request : Request)
    (opts : DecisionOptions) :
  Decide clock (MkPolicy (cloneRegistry r) (cloneRules rules)) request opts
  = Decide clock (MkPolicy r rules) request opts.
Proof.
  unfold Decide. rewrite normalizeRequest_id. cbn [policy_registry].
  rewrite validateRequest_clone, validateRequestCredentialUse_clone.
  destruct (validateRequest r request); [|done].
  destruct (validateRequestCredentialUse r _ _); [|done].
  unfold decideValidRequest, managedGrantDecision, staticRuleDecision, firstMatchingGrant.
  cbn [policy_registry].
  rewrite !matchingRuleIDs_clone, first_grant_clone.
  unfold firstGrantPolicy. cbn [policy_rules]. by rewrite cloneRules_id.
Qed.
End clone_properties.
