(* ===== verification/PolicyParse.v ===== *)
(** * Policy documents: [authorization/policy/parse.go] and [ambiguity.go]

    The normalization of decoded rules against a registry, and the check that
    two request rules with different grant policies never overlap.  Decoding
    the document's bytes into raw rules is [encoding/json]'s and is an argument
    of [Parse]; the repository's own [UnmarshalJSON] methods are modelled on
    decoded JSON values.  A sample policy follows. *)

From S2P Require Export PolicyDecide.
From Stdlib Require Import Ascii.

Local Open Scope Z_scope.

Definition defaultGrantMinutes : Z := 5.
Definition defaultMaxGrantMinutes : Z := 60.
Definition defaultRequestTTL : Z := 5.

(** ** Raw documents *)

(** [rawGrantPolicy]; the mode text [""] is [GrantModeOther EmptyString]. *)
Record rawGrantPolicy : Type := MkRawGrantPolicy {
  rgp_Mode : GrantMode;
  rgp_DefaultMinutes : Z;
  rgp_MaxMinutes : Z;
  rgp_RequestTTLMinutes : Z;
  rgp_DefaultMaxUses : OptionalLimit;
  rgp_MaxUses : OptionalLimit
}.

(** [rawRule] *)
Record rawRule : Type := MkRawRule {
  raw_ID : string;
  raw_Effect : Effect;
  raw_Clients : list string;
  raw_Operations : list string;
  raw_Targets : list TargetMatcher;
  raw_Attrs : StringListMap;
  raw_CredentialUses : list CredentialUse;
  raw_GrantPolicy : option rawGrantPolicy;
  raw_Description : string
}.

(** A decoded JSON value; the members of an object in document order. *)
Inductive json : Type :=
| JNull
| JBool (b : bool)
| JNumber (text : string)
| JString (s : string)
| JArray (items : list json)
| JObject (members : list (string * json)).

Definition json_error : error := ErrorExternal "encoding/json".

(** [json.Unmarshal] into a [string]: null leaves the zero value. *)
Definition unmarshal_string (j : json) : result error string :=
  match j with
  | JString s => Ok s
  | JNull => Ok EmptyString
  | _ => Err json_error
  end.

Definition decodePatternList (j : json) : result error (list string) :=
  match unmarshal_string j with
  | Ok single => Ok [single]
  | Err _ =>
    many ← match j with
           | JArray items => collect unmarshal_string items
           | _ => Err json_error
           end;
    refuse (Nat.eqb (length many) 0) (errorf "must not be empty" []) ;;;
    Ok many
  end.

(** [json.Unmarshal] into a [map[string]json.RawMessage]: the last member wins. *)
Definition unmarshal_members (j : json) : result error (gmap string json) :=
  match j with
  | JNull => Ok ∅
  | JObject members => Ok (foldl (λ m '(k, v), <[k := v]> m) ∅ members)
  | _ => Err json_error
  end.

Section unmarshal.
Context {R : MapRange}.

(** [TargetMatcher.UnmarshalJSON] *)
Definition TargetMatcher_UnmarshalJSON (j : json) : result error TargetMatcher :=
  raw ← unmarshal_members j;
  kindValue ← option_ok (raw !! "kind") (errorf "target kind is required" []);
  kind ← wrap_error "target kind: %w" [] (unmarshal_string kindValue);
  decoded ← collect (λ '(name, value),
    patterns ← wrap_error "target field %q: %w" [name] (decodePatternList value);
    Ok (name, patterns)) (map_range (delete "kind" raw));
  Ok (MkTargetMatcher (trim_space kind) (list_to_map decoded)).
End unmarshal.

(** ** Match values *)

Definition validateGlob (pattern : string) : result error unit :=
  refuse (contains "**" pattern) (errorf "** globs are not supported" []) ;;;
  refuse (bool_decide (path_match pattern "value" = None)) (ErrorExternal "path").

Definition invalid_segment (segment : string) : bool :=
  is_empty segment || String.eqb segment "..".

Definition validateRecursivePathGlob (value : string) : result error unit :=
  refuse (has_prefix "/" value) (errorf "must be relative" []) ;;;
  refuse (contains_any "[]\" value)
    (errorf "character classes and escapes are not supported" []) ;;;
  refuse (maxPathPatternBytes <? len value) (errorf "must not exceed %d bytes" []) ;;;
  let segs := split_byte "/" value in
  refuse (maxPathSegments <? Z.of_nat (length segs)) (errorf "must not exceed %d segments" []) ;;;
  for_each (λ segment, refuse (invalid_segment segment)
    (errorf "must contain non-empty relative segments" [])) segs.

Definition validatePathPrefix (prefix : string) : result error unit :=
  refuse (has_prefix "/" prefix) (errorf "must be relative" []) ;;;
  refuse (contains_any "*?[\" prefix) (errorf "must be a literal prefix" []) ;;;
  refuse (maxPathPatternBytes <? len prefix) (errorf "must not exceed %d bytes" []) ;;;
  let segs := split_byte "/" (trim_suffix "/" prefix) in
  refuse (maxPathSegments <? Z.of_nat (length segs)) (errorf "must not exceed %d segments" []) ;;;
  for_each (λ segment, refuse (invalid_segment segment)
    (errorf "must contain non-empty relative segments" [])) segs.

Definition validatePathGlob (pattern : string) : result error unit :=
  refuse (maxPathPatternBytes <? len pattern) (errorf "must not exceed %d bytes" []) ;;;
  refuse (maxPathSegments <=? count_byte "/" pattern)
    (errorf "must not exceed %d segments" []) ;;;
  for_each (λ segment,
    refuse (contains "**" segment && negb (String.eqb segment "**"))
      (errorf "** must be a complete path segment" []) ;;;
    if String.eqb segment "**" then Ok tt
    else refuse (bool_decide (path_match segment "value" = None)) (ErrorExternal "path"))
    (split_byte "/" pattern).

Definition validateMatchValue (value : string) (mode : MatchMode) : result error unit :=
  match mode with
  | MatchGlob | MatchAnyGlob => validateGlob value
  | MatchPathGlob => validatePathGlob value
  | MatchRecursivePathGlob => validateRecursivePathGlob value
  | MatchPathOutsidePrefix => validatePathPrefix value
  | MatchIntegerMaximum =>
    match parse_int value with
    | None => Err (errorf "must be an integer" [])
    | Some number => refuse (number <? 0) (errorf "must not be negative" [])
    end
  | MatchOther text => Err (errorf "unsupported match mode %q" [text])
  end.

(** The loop of [normalizePatternsWithoutValidation]; [seen] holds the values kept. *)
Fixpoint patterns_loop (field : string) (seen values : list string) : result error (list string) :=
  match values with
  | [] => Ok []
  | value :: rest =>
    let value := trim_space value in
    refuse (is_empty value) (errorf "%s contains an empty value" [field]) ;;;
    if slices_Contains seen value then patterns_loop field seen rest
    else out ← patterns_loop field (value :: seen) rest; Ok (value :: out)
  end.

Definition normalizePatternsWithoutValidation (values : list string) (field : string)
  : result error (list string) :=
  refuse (Nat.eqb (length values) 0) (errorf "%s must not be empty" [field]) ;;;
  patterns_loop field [] values.

Definition normalizeMatchValues (values : list string) (field : string) (mode : MatchMode)
  : result error (list string) :=
  normalized ← normalizePatternsWithoutValidation values field;
  let mode := defaultedMatchMode mode in
  for_each (λ value,
    wrap_error "%s contains invalid %s value %q: %w" [field; match_mode_text mode; value]
      (validateMatchValue value mode)) normalized ;;;
  Ok normalized.

Definition normalizePatterns (values : list string) (field : string)
  : result error (list string) := normalizeMatchValues values field MatchGlob.

(** ** The parts of a rule *)

Definition normalizeRuleID (id : string) : result error string :=
  let id := trim_space id in
  refuse (is_empty id) (errorf "id is required" []) ;;; Ok id.

Definition validateEffect (effect : Effect) : result error unit :=
  match effect with
  | EffectAllow | EffectRequest | EffectDeny => Ok tt
  | _ => Err (errorf "effect %q is unsupported" [effect_text effect])
  end.

Definition normalizeOperations (values : list string) (r : Registry)
  : result error (list string) :=
  ops ← normalizePatterns values "operations";
  for_each (λ op, refuse (bool_decide (reg_Operations r !! op = None))
    (errorf "unknown operation %q" [op])) ops ;;;
  Ok ops.

Definition validateRuleCredentialUse (effect : Effect) (use : CredentialUse)
    (operations : list string) (r : Registry) : result error unit :=
  refuse (negb (validCredentialUse use))
    (errorf "unsupported credential use %q" [credential_use_text use]) ;;;
  refuse (bool_decide (effect = EffectRequest) && bool_decide (use = CredentialUseNone))
    (errorf "request rules cannot grant anonymous credential use" []) ;;;
  for_each (λ operation,
    refuse (negb (SupportsCredentialUse (operation_spec r operation) use))
      (errorf "operation %q does not support credential use %q"
         [operation; credential_use_text use])) operations.

Fixpoint rule_uses_loop (effect : Effect) (operations : list string) (r : Registry)
    (seen values : list CredentialUse) : result error unit :=
  match values with
  | [] => Ok tt
  | use :: rest =>
    validateRuleCredentialUse effect use operations r ;;;
    refuse (slices_Contains seen use)
      (errorf "duplicate credential use %q" [credential_use_text use]) ;;;
    rule_uses_loop effect operations r (use :: seen) rest
  end.

(** [slices.Sort] on credential uses, ordered as strings. *)
Fixpoint insert_use (u : CredentialUse) (l : list CredentialUse) : list CredentialUse :=
  match l with
  | [] => [u]
  | v :: rest =>
    if string_ltb (credential_use_text v) (credential_use_text u)
    then v :: insert_use u rest else u :: l
  end.

Definition sort_uses (l : list CredentialUse) : list CredentialUse := foldr insert_use [] l.

Definition normalizeCredentialUses (effect : Effect) (values : list CredentialUse)
    (operations : list string) (r : Registry) : result error (list CredentialUse) :=
  if bool_decide (effect = EffectDeny) then
    refuse (negb (Nat.eqb (length values) 0))
      (errorf "deny rules cannot restrict credential use" []) ;;;
    Ok []
  else if Nat.eqb (length values) 0 then Ok [CredentialUseManaged]
  else
    rule_uses_loop effect operations r [] values ;;;
    Ok (sort_uses values).

Definition attrUnsupportedOperation (name : string) (operations : list string) (r : Registry)
  : option string :=
  find (λ op, negb (slices_Contains (op_Attrs (operation_spec r op)) name)) operations.

Definition validateTargetOperations (kind : string) (operations : list string) (r : Registry)
  : result error unit :=
  for_each (λ op, refuse (negb (slices_Contains (op_TargetKinds (operation_spec r op)) kind))
    (errorf "operation %q does not support target kind %q" [op; kind])) operations.

Section normalize.
Context {R : MapRange}.

Definition validateRequiredTargetFields (target : TargetMatcher) (spec : TargetSpec)
  : result error unit :=
  for_each (λ '(field, fieldSpec),
    refuse (field_Required fieldSpec
            && Nat.eqb (length (values_of (matcher_Fields target) field)) 0)
      (errorf "target kind %q requires field %q" [matcher_Kind target; field]))
    (map_range (spec_Fields spec)).

(** [validateSupportedTargetFields] writes the normalized values back into the
    matcher's map, which the rule then keeps. *)
Definition validateSupportedTargetFields (target : TargetMatcher) (spec : TargetSpec)
  : result error TargetMatcher :=
  fields ← collect (λ '(field, patterns),
    fieldSpec ← option_ok (spec_Fields spec !! field)
      (errorf "target kind %q does not support field %q" [matcher_Kind target; field]);
    normalized ← normalizeMatchValues patterns ("target." +:+ field) (field_Match fieldSpec);
    Ok (field, normalized)) (map_range (matcher_Fields target));
  Ok (MkTargetMatcher (matcher_Kind target) (list_to_map fields)).

Definition validateTargetFields (target : TargetMatcher) (spec : TargetSpec)
  : result error TargetMatcher :=
  validateRequiredTargetFields target spec ;;;
  validateSupportedTargetFields target spec.

Definition validateTarget (target : TargetMatcher) (operations : list string) (r : Registry)
  : result error TargetMatcher :=
  spec ← option_ok (reg_Targets r !! matcher_Kind target)
    (errorf "unknown target kind %q" [matcher_Kind target]);
  target ← validateTargetFields target spec;
  validateTargetOperations (matcher_Kind target) operations r ;;;
  Ok target.

Definition normalizeTargets (values : list TargetMatcher) (operations : list string)
    (r : Registry) : result error (list TargetMatcher) :=
  refuse (Nat.eqb (length values) 0) (errorf "targets must not be empty" []) ;;;
  collect (λ target, validateTarget target operations r) values.

Definition normalizeAttrs (raw : StringListMap) (operations : list string) (r : Registry)
  : result error StringListMap :=
  attrs ← collect (λ '(name, values),
    spec ← option_ok (reg_Attrs r !! name) (errorf "unknown attr %q" [name]);
    match attrUnsupportedOperation name operations r with
    | Some op => Err (errorf "operation %q does not support attr %q" [op; name])
    | None =>
      normalized ← normalizeMatchValues values ("attrs." +:+ name) (attr_Match spec);
      Ok (name, normalized)
    end) (map_range raw);
  Ok (list_to_map attrs).
End normalize.

(** ** Grant policies *)

Definition effectiveMaxGrantMinutes (spec : OperationSpec) : Z :=
  if 0 <? op_MaxGrantMinutes spec then op_MaxGrantMinutes spec else defaultMaxGrantMinutes.

Definition effectiveMaxGrantUses (spec : OperationSpec) : Limit :=
  if bool_decide (defaultedGrantMode (op_GrantMode spec) = GrantModeExecution) then 1
  else if 0 <? op_MaxGrantUses spec then op_MaxGrantUses spec
  else MaxFiniteUses.

Definition maximumGrantMinutes (operations : list string) (r : Registry) : Z :=
  foldl (λ maximum op, Z.min maximum (effectiveMaxGrantMinutes (operation_spec r op)))
    absoluteMaxGrantMinutes operations.

Definition maximumFiniteGrantUses (operations : list string) (r : Registry) : Limit :=
  foldl (λ maximum op, Z.min maximum (effectiveMaxGrantUses (operation_spec r op)))
    MaxFiniteUses operations.

Definition validateDefaultWithinMax (defaultName : string) (defaultValue : Z)
    (maxName : string) (maxValue maxLimit : Z) : result error unit :=
  refuse ((defaultValue <? 1) || (maxValue <? defaultValue))
    (errorf "%s must be between 1 and %s" [defaultName; maxName]) ;;;
  refuse ((maxValue <? 1) || (maxLimit <? maxValue))
    (errorf "%s must be between 1 and %d" [maxName]).

Definition validateGrantPolicyMinutes (gp : GrantPolicy) : result error unit :=
  validateDefaultWithinMax "default_minutes" (gp_DefaultMinutes gp)
    "max_minutes" (gp_MaxMinutes gp) absoluteMaxGrantMinutes ;;;
  refuse ((gp_RequestTTLMinutes gp <? 1) || (defaultMaxGrantMinutes <? gp_RequestTTLMinutes gp))
    (errorf "request_ttl_minutes must be between 1 and %d" []).

Definition validateGrantPolicyUses (gp : GrantPolicy) : result error unit :=
  if IsUnlimited (gp_MaxUses gp) then
    refuse (negb (IsFinite (gp_DefaultMaxUses gp)) || (MaxFiniteUses <? gp_DefaultMaxUses gp))
      (errorf "default_max_uses must be between 1 and %d" [])
  else
    validateDefaultWithinMax "default_max_uses" (gp_DefaultMaxUses gp)
      "max_uses" (gp_MaxUses gp) MaxFiniteUses.

Definition validateGrantPolicyValues (gp : GrantPolicy) : result error unit :=
  refuse (negb (validGrantMode (gp_Mode gp)))
    (errorf "unsupported grant mode %q" [grant_mode_text (gp_Mode gp)]) ;;;
  validateGrantPolicyMinutes gp ;;;
  validateGrantPolicyUses gp ;;;
  refuse (bool_decide (gp_Mode gp = GrantModeExecution)
          && (negb (gp_DefaultMaxUses gp =? 1) || negb (gp_MaxUses gp =? 1)))
    (errorf "execution grants must be single-use" []).

Definition validateGrantPolicyOperationBounds (gp : GrantPolicy) (operations : list string)
    (r : Registry) : result error unit :=
  for_each (λ operation,
    let spec := operation_spec r operation in
    refuse (effectiveMaxGrantMinutes spec <? gp_MaxMinutes gp)
      (errorf "max_minutes exceeds operation %q grant bound" [operation]) ;;;
    if IsUnlimited (gp_MaxUses gp) then
      refuse (op_DisallowUnlimitedGrantUses spec
              || bool_decide (defaultedGrantMode (op_GrantMode spec) = GrantModeExecution))
        (errorf "max_uses exceeds operation %q grant bound" [operation])
    else
      refuse (effectiveMaxGrantUses spec <? gp_MaxUses gp)
        (errorf "max_uses exceeds operation %q grant bound" [operation])) operations.

Definition validateGrantPolicyPresence (effect : Effect) (raw : option rawGrantPolicy)
  : result error unit :=
  refuse (bool_decide (effect = EffectRequest) && negb (bool_decide (is_Some raw)))
    (errorf "request rules require grant_policy" []) ;;;
  refuse (negb (bool_decide (effect = EffectRequest)) && bool_decide (is_Some raw))
    (errorf "grant_policy is only valid on request rules" []).

Definition validateGrantableOperations (operations : list string) (r : Registry)
  : result error unit :=
  for_each (λ op, refuse (negb (op_Grantable (operation_spec r op)))
    (errorf "operation %q is not grantable" [op])) operations.

(** The loop of [operationGrantMode]. *)
Fixpoint operation_mode_loop (mode : GrantMode) (operations : list string) (r : Registry)
  : result error GrantMode :=
  match operations with
  | [] => Ok mode
  | op :: rest =>
    let candidate := defaultedGrantMode (op_GrantMode (operation_spec r op)) in
    refuse (negb (bool_decide (mode = GrantModeOther EmptyString))
            && negb (bool_decide (candidate = mode)))
      (errorf "request rule operations must use the same grant mode" []) ;;;
    operation_mode_loop candidate rest r
  end.

Definition operationGrantMode (operations : list string) (r : Registry)
  : result error GrantMode := operation_mode_loop (GrantModeOther EmptyString) operations r.

Definition set_gp_Mode (mode : GrantMode) (gp : GrantPolicy) : GrantPolicy :=
  MkGrantPolicy mode (gp_DefaultMinutes gp) (gp_MaxMinutes gp) (gp_RequestTTLMinutes gp)
    (gp_DefaultMaxUses gp) (gp_MaxUses gp).

Definition normalizeGrantPolicyMode (gp : GrantPolicy) (operations : list string)
    (r : Registry) : result error GrantPolicy :=
  gp ← (if bool_decide (gp_Mode gp = GrantModeOther EmptyString)
        then mode ← operationGrantMode operations r; Ok (set_gp_Mode mode gp)
        else Ok gp);
  for_each (λ operation,
    refuse (negb (allowsGrantMode (operation_spec r operation) (gp_Mode gp)))
      (errorf "grant mode %q is not allowed for operation %q"
         [grant_mode_text (gp_Mode gp); operation])) operations ;;;
  Ok gp.

Definition defaultGrantPolicy (gp : GrantPolicy) (defaultUsesSpecified maxUsesSpecified : bool)
    (operations : list string) (r : Registry) : GrantPolicy :=
  let defaultMinutes :=
    if gp_DefaultMinutes gp =? 0 then defaultGrantMinutes else gp_DefaultMinutes gp in
  let maxMinutes :=
    if gp_MaxMinutes gp =? 0
    then Z.min defaultMaxGrantMinutes (maximumGrantMinutes operations r)
    else gp_MaxMinutes gp in
  let ttl :=
    if gp_RequestTTLMinutes gp =? 0 then defaultRequestTTL else gp_RequestTTLMinutes gp in
  let maximumUses :=
    if bool_decide (gp_Mode gp = GrantModeExecution) then SingleUse
    else maximumFiniteGrantUses operations r in
  let maxUses := if maxUsesSpecified then gp_MaxUses gp else maximumUses in
  let defaultMaxUses :=
    if defaultUsesSpecified then gp_DefaultMaxUses gp
    else if IsUnlimited maxUses then maximumUses else maxUses in
  MkGrantPolicy (gp_Mode gp) defaultMinutes maxMinutes ttl defaultMaxUses maxUses.

Definition normalizeGrantPolicy (effect : Effect) (raw : option rawGrantPolicy)
    (operations : list string) (r : Registry) : result error (option GrantPolicy) :=
  validateGrantPolicyPresence effect raw ;;;
  match raw with
  | None => Ok None
  | Some raw =>
    validateGrantableOperations operations r ;;;
    let gp := MkGrantPolicy (rgp_Mode raw) (rgp_DefaultMinutes raw) (rgp_MaxMinutes raw)
                (rgp_RequestTTLMinutes raw) (optional_Limit (rgp_DefaultMaxUses raw))
                (optional_Limit (rgp_MaxUses raw)) in
    gp ← normalizeGrantPolicyMode gp operations r;
    let gp := defaultGrantPolicy gp (optional_Specified (rgp_DefaultMaxUses raw))
                (optional_Specified (rgp_MaxUses raw)) operations r in
    validateGrantPolicyValues gp ;;;
    validateGrantPolicyOperationBounds gp operations r ;;;
    Ok (Some gp)
  end.

(** ** Ambiguity: ambiguity.go *)

(** [strings.Builder.WriteRune]: an invalid byte was read as [U+FFFD]. *)
Definition written_rune (g : segment) : string :=
  if seg_valid g then seg_bytes g
  else String "239" (String "191" (String "189" EmptyString)).

Definition is_glob_meta (r : Z) : bool := (r =? 42) || (r =? 63) || (r =? 91).
Definition backslash_rune : Z := 92.

Fixpoint literal_from (escaped : bool) (value : string) (segs : list segment)
  : option string :=
  match segs with
  | [] => if escaped then None else Some value
  | char :: rest =>
    if escaped then literal_from false (value +:+ written_rune char) rest
    else if seg_rune char =? backslash_rune then literal_from true value rest
    else if is_glob_meta (seg_rune char) then None
    else literal_from false (value +:+ written_rune char) rest
  end.

(** [literalGlobValue] *)
Definition literalGlobValue (pattern : string) : option string :=
  literal_from false EmptyString (segments pattern).

Fixpoint prefix_from (escaped : bool) (value : string) (segs : list segment) : string :=
  match segs with
  | [] => value
  | char :: rest =>
    if escaped then prefix_from false (value +:+ written_rune char) rest
    else if seg_rune char =? backslash_rune then prefix_from true value rest
    else if is_glob_meta (seg_rune char) then value
    else prefix_from false (value +:+ written_rune char) rest
  end.

(** [globLiteralPrefix] *)
Definition globLiteralPrefix (pattern : string) : string :=
  prefix_from false EmptyString (segments pattern).

Definition globPrefixesMayOverlap (left right : string) : bool :=
  let leftPrefix := globLiteralPrefix left in
  let rightPrefix := globLiteralPrefix right in
  if is_empty leftPrefix || is_empty rightPrefix then true
  else has_prefix rightPrefix leftPrefix || has_prefix leftPrefix rightPrefix.

(** [patternMatches] *)
Definition patternMatches (pattern value : string) : bool := path_matches pattern value.

Definition pathMatcherValuesMayOverlap (left right : string)
    (matches : list string → string → bool) : bool :=
  if String.eqb left right then true
  else
    match literalGlobValue left, literalGlobValue right with
    | Some leftLiteral, Some rightLiteral => String.eqb leftLiteral rightLiteral
    | Some leftLiteral, None => matches [right] leftLiteral
    | None, Some rightLiteral => matches [left] rightLiteral
    | None, None => true
    end.

Definition recursivePathValuesMayOverlap (left right : string) : bool :=
  pathMatcherValuesMayOverlap left right recursivePathPatternsMatch.

Definition pathValuesMayOverlap (left right : string) : bool :=
  pathMatcherValuesMayOverlap left right pathPatternsMatch.

Definition patternsMayOverlap (left right : string) : bool :=
  if String.eqb left right then true
  else
    match literalGlobValue left, literalGlobValue right with
    | Some leftLiteral, Some rightLiteral => String.eqb leftLiteral rightLiteral
    | Some leftLiteral, None => patternMatches right leftLiteral
    | None, Some rightLiteral => patternMatches left rightLiteral
    | None, None => globPrefixesMayOverlap left right
    end.

Definition valueListsMayOverlap (left right : list string) (overlap : string → string → bool)
  : bool := existsb (λ l, existsb (overlap l) right) left.

Definition matchValuesMayOverlap (left right : list string) (mode : MatchMode) : bool :=
  match defaultedMatchMode mode with
  | MatchIntegerMaximum | MatchAnyGlob | MatchPathOutsidePrefix => true
  | MatchPathGlob => valueListsMayOverlap left right pathValuesMayOverlap
  | MatchRecursivePathGlob => valueListsMayOverlap left right recursivePathValuesMayOverlap
  | _ => valueListsMayOverlap left right patternsMayOverlap
  end.

Definition grantPoliciesEqual (left right : option GrantPolicy) : bool :=
  bool_decide (left = right).

Definition credentialUsesMayOverlap (left right : list CredentialUse) : bool :=
  existsb (slices_Contains right) left.

Section ambiguity.
Context {R : MapRange}.

Definition patternMapsMayOverlap (left right : StringListMap) (spec : TargetSpec) : bool :=
  forallb (λ '(field, leftValues),
    match right !! field with
    | Some rightValues =>
      matchValuesMayOverlap leftValues rightValues (field_Match (field_spec spec field))
    | None => true
    end) (map_range left).

Definition targetMatchersMayOverlap (left right : list TargetMatcher) (r : Registry) : bool :=
  existsb (λ l, existsb (λ t,
    String.eqb (matcher_Kind l) (matcher_Kind t)
    && patternMapsMayOverlap (matcher_Fields l) (matcher_Fields t)
         (target_spec r (matcher_Kind l))) right) left.

Definition attrsMayOverlap (left right : StringListMap) (relevantAttrs : list string)
    (r : Registry) : bool :=
  forallb (λ attr,
    match left !! attr, right !! attr with
    | Some leftValues, Some rightValues =>
      matchValuesMayOverlap leftValues rightValues (attr_Match (attr_spec r attr))
    | _, _ => true
    end) relevantAttrs.

Definition requestRulesMayOverlap (left right : Rule) (r : Registry) : bool :=
  if negb (credentialUsesMayOverlap (rule_CredentialUses left) (rule_CredentialUses right))
     || negb (valueListsMayOverlap (rule_Clients left) (rule_Clients right)
                patternsMayOverlap)
  then false
  else
    existsb (λ operation,
      slices_Contains (rule_Operations right) operation
      && targetMatchersMayOverlap (rule_Targets left) (rule_Targets right) r
      && attrsMayOverlap (rule_Attrs left) (rule_Attrs right)
           (op_Attrs (operation_spec r operation)) r) (rule_Operations left).

Definition validateRequestRuleAgainstLaterRules (left : Rule) (later : list Rule)
    (r : Registry) : result error unit :=
  for_each (λ right,
    refuse (bool_decide (rule_Effect right = EffectRequest)
            && negb (grantPoliciesEqual (rule_GrantPolicy left) (rule_GrantPolicy right))
            && requestRulesMayOverlap left right r)
      (errorf "request rules %q and %q overlap with different grant policies"
         [rule_ID left; rule_ID right])) later.

Fixpoint validateRequestRuleAmbiguity (rules : list Rule) (r : Registry)
  : result error unit :=
  match rules with
  | [] => Ok tt
  | first :: later =>
    (if bool_decide (rule_Effect first = EffectRequest)
     then validateRequestRuleAgainstLaterRules first later r else Ok tt) ;;;
    validateRequestRuleAmbiguity later r
  end.

(** ** Rules and policies *)

Definition normalizeRuleBody (id : string) (raw : rawRule) (r : Registry)
  : result error Rule :=
  clients ← normalizePatterns (raw_Clients raw) "clients";
  operations ← normalizeOperations (raw_Operations raw) r;
  targets ← normalizeTargets (raw_Targets raw) operations r;
  attrs ← normalizeAttrs (raw_Attrs raw) operations r;
  credentialUses ← normalizeCredentialUses (raw_Effect raw) (raw_CredentialUses raw)
                     operations r;
  grantPolicy ← normalizeGrantPolicy (raw_Effect raw) (raw_GrantPolicy raw) operations r;
  Ok (MkRule id (raw_Effect raw) clients operations targets attrs credentialUses
        grantPolicy (trim_space (raw_Description raw))).

Definition normalizeRule (raw : rawRule) (r : Registry) : result error Rule :=
  id ← normalizeRuleID (raw_ID raw);
  validateEffect (raw_Effect raw) ;;;
  normalizeRuleBody id raw r.

(** The loop of [normalizeRules]; [ids] are the identifiers seen. *)
Fixpoint rules_loop (ids : list string) (rawRules : list rawRule) (r : Registry)
  : result error (list Rule) :=
  match rawRules with
  | [] => Ok []
  | raw :: rest =>
    rule ← wrap_error "rules[%d]: %w" [] (normalizeRule raw r);
    refuse (slices_Contains ids (rule_ID rule))
      (errorf "rules[%d]: duplicate rule id %q" [rule_ID rule]) ;;;
    rules ← rules_loop (rule_ID rule :: ids) rest r;
    Ok (rule :: rules)
  end.

Definition normalizeRules (rawRules : list rawRule) (r : Registry)
  : result error (list Rule) :=
  rules ← rules_loop [] rawRules r;
  validateRequestRuleAmbiguity rules r ;;;
  Ok rules.

(** [Parse]; [decodeStrict] is the JSON decoding of the document. *)
Definition Parse (decodeStrict : string → result error (option (list rawRule)))
    (data : string) (r : Registry) : result error Policy :=
  Registry_validate r ;;;
  raw ← wrap_error "parse policy: %w" [] (decodeStrict data);
  rawRules ← option_ok raw (errorf "rules is required" []);
  rules ← normalizeRules rawRules r;
  Ok (MkPolicy (cloneRegistry r) (cloneRules rules)).
End ambiguity.

(** ** Lemmas *)

(** The bounds a normalized grant policy respects. *)
Record bounded_grant_policy (gp : GrantPolicy) (operations : list string) (r : Registry)
  : Prop := {
  bgp_mode : validGrantMode (gp_Mode gp) = true;
  bgp_default_minutes : 1 <= gp_DefaultMinutes gp <= gp_MaxMinutes gp;
  bgp_max_minutes : gp_MaxMinutes gp <= absoluteMaxGrantMinutes;
  bgp_ttl : 1 <= gp_RequestTTLMinutes gp <= defaultMaxGrantMinutes;
  bgp_default_uses : 1 <= gp_DefaultMaxUses gp <= MaxFiniteUses;
  bgp_max_uses : gp_MaxUses gp = Unlimited
                 ∨ gp_DefaultMaxUses gp <= gp_MaxUses gp <= MaxFiniteUses;
  bgp_execution : gp_Mode gp = GrantModeExecution →
                  gp_DefaultMaxUses gp = 1 ∧ gp_MaxUses gp = 1;
  bgp_operations : ∀ op, op ∈ operations →
    AllowsGrantMode (operation_spec r op) (gp_Mode gp) = true
    ∧ gp_MaxMinutes gp <= effectiveMaxGrantMinutes (operation_spec r op)
    ∧ (gp_MaxUses gp = Unlimited → op_DisallowUnlimitedGrantUses (operation_spec r op) = false)
    ∧ (gp_MaxUses gp ≠ Unlimited →
       gp_MaxUses gp <= effectiveMaxGrantUses (operation_spec r op))
}.

Lemma validateDefaultWithinMax_ok (dn mn : string) (d m l : Z) :
  validateDefaultWithinMax dn d mn m l = Ok tt ↔ 1 <= d <= m ∧ m <= l.
Proof.
  unfold validateDefaultWithinMax. rewrite seq_ok, !refuse_ok, !orb_false_iff, !Z.ltb_ge. lia.
Qed.

Lemma validateGrantPolicyMinutes_ok (gp : GrantPolicy) :
  validateGrantPolicyMinutes gp = Ok tt ↔
  (1 <= gp_DefaultMinutes gp <= gp_MaxMinutes gp ∧ gp_MaxMinutes gp <= absoluteMaxGrantMinutes)
  ∧ 1 <= gp_RequestTTLMinutes gp <= defaultMaxGrantMinutes.
Proof.
  unfold validateGrantPolicyMinutes.
  rewrite seq_ok, refuse_ok, validateDefaultWithinMax_ok, orb_false_iff, !Z.ltb_ge. lia.
Qed.

Lemma validateGrantPolicyUses_ok (gp : GrantPolicy) :
  validateGrantPolicyUses gp = Ok tt ↔
  1 <= gp_DefaultMaxUses gp <= MaxFiniteUses
  ∧ (gp_MaxUses gp = Unlimited ∨ gp_DefaultMaxUses gp <= gp_MaxUses gp <= MaxFiniteUses).
Proof.
  unfold validateGrantPolicyUses, IsFinite, IsUnlimited, Unlimited.
  destruct (Z.eqb_spec (gp_MaxUses gp) 0) as [Hu|Hu].
  - rewrite refuse_ok, orb_false_iff, negb_false_iff, Z.ltb_ge, Z.ltb_lt. lia.
  - rewrite validateDefaultWithinMax_ok. unfold MaxFiniteUses. lia.
Qed.

Lemma validateGrantPolicyValues_ok (gp : GrantPolicy) :
  validateGrantPolicyValues gp = Ok tt ↔
  validGrantMode (gp_Mode gp) = true
  ∧ validateGrantPolicyMinutes gp = Ok tt ∧ validateGrantPolicyUses gp = Ok tt
  ∧ (gp_Mode gp = GrantModeExecution → gp_DefaultMaxUses gp = 1 ∧ gp_MaxUses gp = 1).
Proof.
  unfold validateGrantPolicyValues.
  rewrite !seq_ok, !refuse_ok, negb_false_iff, andb_false_iff, orb_false_iff,
    !negb_false_iff, !Z.eqb_eq, bool_decide_eq_false. destruct (decide (gp_Mode gp = GrantModeExecution)); naive_solver.
Qed.

Lemma validateGrantPolicyOperationBounds_ok (gp : GrantPolicy) (operations : list string)
    (r : Registry) :
  validateGrantPolicyOperationBounds gp operations r = Ok tt →
  ∀ op, op ∈ operations →
    gp_MaxMinutes gp <= effectiveMaxGrantMinutes (operation_spec r op)
    ∧ (gp_MaxUses gp = Unlimited → op_DisallowUnlimitedGrantUses (operation_spec r op) = false)
    ∧ (gp_MaxUses gp ≠ Unlimited →
       gp_MaxUses gp <= effectiveMaxGrantUses (operation_spec r op)).
Proof.
  unfold validateGrantPolicyOperationBounds. rewrite for_each_ok, Forall_forall.
  intros H op Hop. specialize (H op Hop). cbn zeta in H. apply seq_ok in H as [Hm Hu].
  apply refuse_ok in Hm. apply Z.ltb_ge in Hm. split; [done|].
  unfold IsUnlimited, Unlimited in *. destruct (Z.eqb_spec (gp_MaxUses gp) 0);
    apply refuse_ok in Hu; bool_to_prop; split; intros; done || lia.
Qed.

Lemma normalizeGrantPolicyMode_ok (gp gp' : GrantPolicy) (operations : list string)
    (r : Registry) :
  normalizeGrantPolicyMode gp operations r = Ok gp' →
  ∀ op, op ∈ operations → allowsGrantMode (operation_spec r op) (gp_Mode gp') = true.
Proof.
  unfold normalizeGrantPolicyMode. rewrite bind_ok_iff. intros (gp1 & _ & H).
  apply seq_ok in H as [H [= <-]]. rewrite for_each_ok, Forall_forall in H.
  intros op Hop. specialize (H op Hop). by apply refuse_ok, negb_false_iff in H.
Qed.

Lemma normalizeGrantPolicy_bounded_aux (effect : Effect) (raw : option rawGrantPolicy)
    (operations : list string) (r : Registry) (gp : GrantPolicy) :
  normalizeGrantPolicy effect raw operations r = Ok (Some gp) →
  effect = EffectRequest ∧ bounded_grant_policy gp operations r.
Proof.
  unfold normalizeGrantPolicy. rewrite seq_ok. intros [Hp H].
  destruct raw as [raw|]; [|done]. apply seq_ok in H as [Hg H].
  apply bind_ok_iff in H as (gp1 & Hmode & H).
  apply seq_ok in H as [Hv H]. apply seq_ok in H as [Hb [= <-]].
  split.
  { unfold validateGrantPolicyPresence in Hp. rewrite seq_ok, !refuse_ok in Hp.
    destruct Hp as [_ Hp]. apply andb_false_iff in Hp as [Hp|Hp].
    - by apply negb_false_iff, bool_decide_eq_true in Hp.
    - by rewrite bool_decide_true in Hp by eauto. }
  pose proof (normalizeGrantPolicyMode_ok _ _ _ _ Hmode) as Hallow.
  pose proof (validateGrantPolicyOperationBounds_ok _ _ _ Hb) as Hbounds.
  apply validateGrantPolicyValues_ok in Hv as (? & Hm & Hu & ?).
  apply validateGrantPolicyMinutes_ok in Hm as ((? & ?) & ?).
  apply validateGrantPolicyUses_ok in Hu as (? & ?).
  constructor; try done. intros op Hop. split; [|by apply Hbounds].
  unfold AllowsGrantMode. apply andb_true_iff. split; [|exact (Hallow op Hop)].
  unfold validateGrantableOperations in Hg. rewrite for_each_ok, Forall_forall in Hg.
  specialize (Hg op Hop). by apply refuse_ok, negb_false_iff in Hg.
Qed.

(** A grant policy that normalization accepts belongs to a request rule, stays within
    the absolute bounds and within the bounds of every operation of its rule, whose mode it
    uses; an execution grant is single-use, and an unlimited maximum keeps a finite
    default. *)
Theorem normalizeGrantPolicy_bounded (effect : Effect) (raw : option rawGrantPolicy)
    (operations : list string) (r : Registry) (gp : GrantPolicy) :
  normalizeGrantPolicy effect raw operations r = Ok (Some gp) →
  effect = EffectRequest ∧ bounded_grant_policy gp operations r.
Proof. apply normalizeGrantPolicy_bounded_aux. Qed.

(** What normalization guarantees of a list of match values. *)
Record normalized_values (mode : MatchMode) (values : list string) : Prop := {
  nv_nonempty : values ≠ [];
  nv_nodup : NoDup values;
  nv_valid : ∀ v, v ∈ values →
    v ≠ EmptyString ∧ validateMatchValue v (defaultedMatchMode mode) = Ok tt
}.

Lemma is_empty_false (s : string) : is_empty s = false ↔ s ≠ EmptyString.
Proof. by destruct s. Qed.

Lemma patterns_loop_ok (field : string) (seen values out : list string) :
  patterns_loop field seen values = Ok out →
  NoDup out ∧ (∀ v, v ∈ out → v ≠ EmptyString ∧ v ∉ seen)
  ∧ (values ≠ [] → seen = [] → out ≠ []).
Proof.
  revert seen out; induction values as [|v values IH]; intros seen out; simpl.
  { intros [= <-]. split; [constructor|]. split; [|done].
    intros v Hv. by apply not_elem_of_nil in Hv. }
  rewrite seq_ok, refuse_ok, is_empty_false. intros [Hne H].
  destruct (slices_Contains seen (trim_space v)) eqn:Hs.
  - apply IH in H as (? & ? & ?). split; [done|]. split; [done|]. intros _ ->. done.
  - apply bind_ok_iff in H as (out' & Hout & [= <-]).
    apply IH in Hout as (Hnd & Hv & _). split.
    { constructor; [|done]. intros Hin. apply Hv in Hin as [_ Hin]. apply Hin. left. }
    split; [|done]. intros w [->|Hw]%elem_of_cons.
    + split; [done|]. rewrite <- slices_Contains_iff, Hs. done.
    + apply Hv in Hw as [? Hw]. split; [done|]. intros ?. apply Hw. by right.
Qed.

Lemma normalizeMatchValues_ok (values out : list string) (field : string) (mode : MatchMode) :
  normalizeMatchValues values field mode = Ok out → normalized_values mode out.
Proof.
  unfold normalizeMatchValues, normalizePatternsWithoutValidation.
  rewrite bind_ok_iff. intros (norm & Hn & H). apply seq_ok in Hn as [Hne Hn].
  apply refuse_ok, Nat.eqb_neq in Hne.
  cbn zeta in H. apply seq_ok in H as [Hv [= ->]].
  rewrite for_each_ok, Forall_forall in Hv.
  apply patterns_loop_ok in Hn as (Hnd & Hw & Hl). constructor; [|done|].
  - apply Hl; [|done]. by destruct values.
  - intros v Hin. split; [by apply Hw|]. specialize (Hv v Hin). by apply wrap_error_ok in Hv.
Qed.

(** What normalization guarantees of a rule. *)
Record normalized_rule (r : Registry) (rule : Rule) : Prop := {
  nr_id : rule_ID rule ≠ EmptyString;
  nr_effect : rule_Effect rule ∈ [EffectAllow; EffectRequest; EffectDeny];
  nr_clients : normalized_values MatchGlob (rule_Clients rule);
  nr_operations : normalized_values MatchGlob (rule_Operations rule);
  nr_known_operations : ∀ op, op ∈ rule_Operations rule → is_Some (reg_Operations r !! op);
  nr_targets : rule_Targets rule ≠ [];
  nr_matchers : ∀ m, m ∈ rule_Targets rule →
    (∀ op, op ∈ rule_Operations rule → matcher_Kind m ∈ op_TargetKinds (operation_spec r op))
    ∧ ∃ spec, reg_Targets r !! matcher_Kind m = Some spec
      ∧ (∀ name f, spec_Fields spec !! name = Some f → field_Required f = true →
         is_Some (matcher_Fields m !! name))
      ∧ (∀ name values, matcher_Fields m !! name = Some values →
         ∃ f, spec_Fields spec !! name = Some f ∧ normalized_values (field_Match f) values);
  nr_attrs : ∀ name values, rule_Attrs rule !! name = Some values →
    (∀ op, op ∈ rule_Operations rule → name ∈ op_Attrs (operation_spec r op))
    ∧ ∃ a, reg_Attrs r !! name = Some a ∧ normalized_values (attr_Match a) values;
  nr_deny_uses : rule_Effect rule = EffectDeny → rule_CredentialUses rule = [];
  nr_uses : rule_Effect rule ≠ EffectDeny → rule_CredentialUses rule ≠ []
    ∧ NoDup (rule_CredentialUses rule)
    ∧ ∀ use, use ∈ rule_CredentialUses rule → validCredentialUse use = true
        ∧ ¬ (rule_Effect rule = EffectRequest ∧ use = CredentialUseNone);
  nr_grant_policy : is_Some (rule_GrantPolicy rule) ↔ rule_Effect rule = EffectRequest;
  nr_bounded : ∀ gp, rule_GrantPolicy rule = Some gp →
    bounded_grant_policy gp (rule_Operations rule) r
}.

Lemma insert_use_perm (u : CredentialUse) (l : list CredentialUse) : insert_use u l ≡ₚ u :: l.
Proof.
  induction l as [|v l IH]; simpl; [done|].
  destruct (string_ltb _ _); [|done]. rewrite IH. apply Permutation_swap.
Qed.

Lemma sort_uses_perm (l : list CredentialUse) : sort_uses l ≡ₚ l.
Proof. induction l as [|u l IH]; simpl; [done|]. by rewrite insert_use_perm, IH. Qed.

Lemma rule_uses_loop_ok (effect : Effect) (operations : list string) (r : Registry)
    (seen values : list CredentialUse) :
  rule_uses_loop effect operations r seen values = Ok tt →
  NoDup values ∧ (∀ use, use ∈ values → use ∉ seen ∧ validCredentialUse use = true
    ∧ ¬ (effect = EffectRequest ∧ use = CredentialUseNone)).
Proof.
  revert seen; induction values as [|u values IH]; intros seen; simpl.
  { intros _. split; [constructor|]. intros use Hu. by apply not_elem_of_nil in Hu. }
  rewrite !seq_ok, refuse_ok. intros (Hv & Hs & (Hnd & Hu)%IH).
  unfold validateRuleCredentialUse in Hv. rewrite !seq_ok, !refuse_ok in Hv.
  destruct Hv as (Hval & Hr & _). apply negb_false_iff in Hval. split.
  - constructor; [|done]. intros [Hin _]%Hu. apply Hin. left.
  - intros use [->|Hin]%elem_of_cons.
    + split; [by rewrite <- slices_Contains_iff, Hs|]. split; [done|].
      intros [-> ->]. by rewrite !bool_decide_true in Hr by done.
    + apply Hu in Hin as (Hin & ? & ?). split; [|done]. intros ?. apply Hin. by right.
Qed.

Lemma normalizeCredentialUses_ok (effect : Effect) (values out : list CredentialUse)
    (operations : list string) (r : Registry) :
  normalizeCredentialUses effect values operations r = Ok out →
  (effect = EffectDeny → out = [])
  ∧ (effect ≠ EffectDeny → out ≠ [] ∧ NoDup out
     ∧ ∀ use, use ∈ out → validCredentialUse use = true
         ∧ ¬ (effect = EffectRequest ∧ use = CredentialUseNone)).
Proof.
  unfold normalizeCredentialUses. case_bool_decide as He.
  { rewrite seq_ok. intros [_ [= <-]]. done. }
  destruct (Nat.eqb_spec (length values) 0) as [Hl|Hl].
  { intros [= <-]. split; [done|]. intros _. split; [done|]. split; [apply NoDup_singleton|].
    intros use ->%list_elem_of_singleton. split; [done|]. intros []; done. }
  rewrite seq_ok. intros [H [= <-]]. apply rule_uses_loop_ok in H as [Hnd Hu].
  split; [done|]. intros _. split; [|split].
  - intros Hnil. pose proof (sort_uses_perm values) as Hp. rewrite Hnil in Hp.
    apply Permutation_nil in Hp. by subst.
  - by rewrite sort_uses_perm.
  - intros use. rewrite sort_uses_perm. intros Hin. by apply Hu.
Qed.

Section normalize_lemmas.
Context {R : MapRange}.

(** A loop over a map that rewrites each value and keeps the keys. *)
Lemma collect_entries {A B} (f : string * A → result error (string * B))
    (m : gmap string A) (out : list (string * B)) :
  (∀ k v k' b, f (k, v) = Ok (k', b) → k' = k) →
  collect f (map_range m) = Ok out →
  ∀ k b, (list_to_map out : gmap string B) !! k = Some b ↔
         ∃ v, m !! k = Some v ∧ f (k, v) = Ok (k, b).
Proof.
  intros Hkey. rewrite collect_ok. intros Hf.
  assert (out.*1 = (map_range m).*1) as Hkeys.
  { clear -Hf Hkey. induction Hf as [|[k v] [k' b] l out Hb Hl IH]; [done|].
    cbn. f_equal; [|done]. by apply Hkey in Hb. }
  intros k b. rewrite <- elem_of_list_to_map by (rewrite Hkeys; apply NoDup_map_range).
  setoid_rewrite <- elem_of_map_range. split.
  - intros [i Hi]%list_elem_of_lookup.
    destruct (Forall2_lookup_r _ _ _ _ _ Hf Hi) as ([k' v] & Hl & Hb).
    pose proof (Hkey _ _ _ _ Hb) as ->. eauto using list_elem_of_lookup_2.
  - intros (v & [i Hi]%list_elem_of_lookup & Hb).
    destruct (Forall2_lookup_l _ _ _ _ _ Hf Hi) as (kb & Hl & Hkb).
    rewrite Hb in Hkb. injection Hkb as <-. by apply list_elem_of_lookup_2 in Hl.
Qed.

Lemma collect_entries_key {A B} (f : string * A → result error (string * B))
    (m : gmap string A) (out : list (string * B)) (k : string) :
  (∀ k v k' b, f (k, v) = Ok (k', b) → k' = k) →
  collect f (map_range m) = Ok out →
  is_Some (m !! k) → is_Some ((list_to_map out : gmap string B) !! k).
Proof.
  intros Hkey Hc [v Hv]. pose proof Hc as Hf. rewrite collect_ok in Hf.
  apply elem_of_map_range, list_elem_of_lookup in Hv as [i Hi].
  destruct (Forall2_lookup_l _ _ _ _ _ Hf Hi) as ([k' b] & _ & Hb).
  pose proof (Hkey _ _ _ _ Hb) as ->. exists b.
  apply (collect_entries f m out Hkey Hc). exists v. split; [|done].
  apply elem_of_map_range. by apply list_elem_of_lookup_2 in Hi.
Qed.

Lemma validateTarget_ok (m m' : TargetMatcher) (operations : list string) (r : Registry) :
  validateTarget m operations r = Ok m' →
  (∀ op, op ∈ operations → matcher_Kind m' ∈ op_TargetKinds (operation_spec r op))
  ∧ ∃ spec, reg_Targets r !! matcher_Kind m' = Some spec
    ∧ (∀ name f, spec_Fields spec !! name = Some f → field_Required f = true →
       is_Some (matcher_Fields m' !! name))
    ∧ (∀ name values, matcher_Fields m' !! name = Some values →
       ∃ f, spec_Fields spec !! name = Some f ∧ normalized_values (field_Match f) values).
Proof.
  unfold validateTarget. rewrite bind_ok_iff. intros (spec & Hspec & H).
  apply option_ok_ok in Hspec. apply bind_ok_iff in H as (m1 & Hf & H).
  apply seq_ok in H as [Hops [= <-]].
  unfold validateTargetFields in Hf. apply seq_ok in Hf as [Hreq Hf].
  unfold validateSupportedTargetFields in Hf. apply bind_ok_iff in Hf as (fields & Hc & [= <-]).
  simpl in *.
  assert (∀ k (v : list string) k' b,
    (λ '(field, patterns),
      fieldSpec ← option_ok (spec_Fields spec !! field)
        (errorf "target kind %q does not support field %q" [matcher_Kind m; field]);
      normalized ← normalizeMatchValues patterns ("target." +:+ field) (field_Match fieldSpec);
      Ok (field, normalized)) (k, v) = Ok (k', b) → k' = k) as Hkey.
  { intros k v k' b Hb. apply bind_ok_iff in Hb as (? & _ & Hb).
    apply bind_ok_iff in Hb as (? & _ & [= ]). done. }
  split.
  { unfold validateTargetOperations in Hops. rewrite for_each_ok, Forall_forall in Hops.
    intros op Hop. specialize (Hops op Hop).
    apply refuse_ok, negb_false_iff, slices_Contains_iff in Hops. done. }
  exists spec. split; [done|]. split.
  - intros name f Hname Hr. unfold validateRequiredTargetFields in Hreq.
    rewrite for_each_map_range in Hreq. specialize (Hreq name f Hname).
    apply refuse_ok in Hreq. rewrite Hr in Hreq. apply Nat.eqb_neq in Hreq.
    eapply collect_entries_key; [exact Hkey|exact Hc|].
    unfold values_of in Hreq. by destruct (matcher_Fields m !! name).
  - intros name values Hv.
    apply (collect_entries _ _ _ Hkey Hc) in Hv as (v & _ & Hv).
    apply bind_ok_iff in Hv as (f & Hfs & Hn). apply option_ok_ok in Hfs.
    apply bind_ok_iff in Hn as (? & Hn & [= <-]).
    exists f. split; [done|]. by apply normalizeMatchValues_ok in Hn.
Qed.
End normalize_lemmas.

Section normalize_properties.
Context {R : MapRange}.

Lemma normalizeTargets_ok (values targets : list TargetMatcher) (operations : list string)
    (r : Registry) :
  normalizeTargets values operations r = Ok targets →
  targets ≠ [] ∧ ∀ m, m ∈ targets → ∃ m0, validateTarget m0 operations r = Ok m.
Proof.
  unfold normalizeTargets. rewrite seq_ok, refuse_ok, collect_ok, Nat.eqb_neq.
  intros [Hne Hf]. split.
  - apply Forall2_length in Hf. by destruct targets, values.
  - intros m [i Hi]%list_elem_of_lookup.
    destruct (Forall2_lookup_r _ _ _ _ _ Hf Hi) as (m0 & _ & Hm). eauto.
Qed.

Lemma attrUnsupportedOperation_none (name : string) (operations : list string) (r : Registry) :
  attrUnsupportedOperation name operations r = None →
  ∀ op, op ∈ operations → name ∈ op_Attrs (operation_spec r op).
Proof.
  intros H op Hop. apply list_elem_of_In in Hop.
  pose proof (find_none _ _ H op Hop) as Hn. cbn in Hn.
  by apply negb_false_iff, slices_Contains_iff in Hn.
Qed.

Lemma normalizeAttrs_ok (raw attrs : StringListMap) (operations : list string) (r : Registry) :
  normalizeAttrs raw operations r = Ok attrs →
  ∀ name values, attrs !! name = Some values →
    (∀ op, op ∈ operations → name ∈ op_Attrs (operation_spec r op))
    ∧ ∃ a, reg_Attrs r !! name = Some a ∧ normalized_values (attr_Match a) values.
Proof.
  unfold normalizeAttrs. rewrite bind_ok_iff. intros (kvs & Hc & [= <-]) name values Hv.
  apply (collect_entries _ _ _) with (2 := Hc) in Hv as (v & _ & Hv).
  2:{ intros k w k' b Hb. apply bind_ok_iff in Hb as (? & _ & Hb).
      destruct (attrUnsupportedOperation k operations r); [done|].
      apply bind_ok_iff in Hb as (? & _ & [= ]). done. }
  apply bind_ok_iff in Hv as (a & Ha & Hv). apply option_ok_ok in Ha.
  destruct (attrUnsupportedOperation name operations r) eqn:Hu; [done|].
  apply bind_ok_iff in Hv as (? & Hn & [= <-]).
  split; [by apply attrUnsupportedOperation_none|].
  exists a. split; [done|]. by apply normalizeMatchValues_ok in Hn.
Qed.

Lemma normalizeGrantPolicy_presence (effect : Effect) (raw : option rawGrantPolicy)
    (operations : list string) (r : Registry) (gp : option GrantPolicy) :
  normalizeGrantPolicy effect raw operations r = Ok gp →
  (is_Some gp ↔ effect = EffectRequest)
  ∧ ∀ p, gp = Some p → bounded_grant_policy p operations r.
Proof.
  intros H. pose proof (normalizeGrantPolicy_bounded_aux effect raw operations r) as Hb.
  destruct gp as [gp|].
  - destruct (Hb _ H) as [He Hbp]. split; [naive_solver|]. by intros p [= <-].
  - split; [|done]. split; [by intros []|]. intros ->.
    unfold normalizeGrantPolicy in H. apply seq_ok in H as [Hp H].
    destruct raw as [raw|].
    + apply seq_ok in H as [_ H]. apply bind_ok_iff in H as (? & _ & H).
      apply seq_ok in H as [_ H]. by apply seq_ok in H as [_ [= ]].
    + done.
Qed.

Lemma normalizeRule_ok (raw : rawRule) (r : Registry) (rule : Rule) :
  normalizeRule raw r = Ok rule → normalized_rule r rule.
Proof.
  unfold normalizeRule, normalizeRuleBody. rewrite bind_ok_iff. intros (id & Hid & H).
  apply seq_ok in H as [He H].
  apply bind_ok_iff in H as (cs & Hcs & H). apply bind_ok_iff in H as (ops & Hops & H).
  apply bind_ok_iff in H as (ts & Hts & H). apply bind_ok_iff in H as (ats & Hats & H).
  apply bind_ok_iff in H as (us & Hus & H). apply bind_ok_iff in H as (gp & Hgp & [= <-]).
  apply seq_ok in Hid as [Hid [= <-]]. apply refuse_ok, is_empty_false in Hid.
  apply bind_ok_iff in Hops as (ops' & Hops & Hknown).
  apply seq_ok in Hknown as [Hknown [= ->]].
  rewrite for_each_ok, Forall_forall in Hknown.
  apply normalizeTargets_ok in Hts as [Hts Hms].
  pose proof (normalizeAttrs_ok _ _ _ _ Hats) as Hattrs.
  apply normalizeCredentialUses_ok in Hus as [Hd Hu].
  apply normalizeGrantPolicy_presence in Hgp as [Hpres Hbound].
  constructor; simpl; try done.
  - destruct (raw_Effect raw); try done; set_solver.
  - by apply normalizeMatchValues_ok in Hcs.
  - by apply normalizeMatchValues_ok in Hops.
  - intros op Hop. specialize (Hknown op Hop). apply refuse_ok, bool_decide_eq_false in Hknown.
    by apply not_eq_None_Some.
  - intros m Hm. destruct (Hms m Hm) as (m0 & Hm0). by apply validateTarget_ok in Hm0.
Qed.

(** Two request rules that may match one request carry the same grant policy. *)
Definition unambiguous (r : Registry) (rules : list Rule) : Prop :=
  ∀ i j a b, (i < j)%nat → rules !! i = Some a → rules !! j = Some b →
    rule_Effect a = EffectRequest → rule_Effect b = EffectRequest →
    rule_GrantPolicy a = rule_GrantPolicy b ∨ requestRulesMayOverlap a b r = false.

Lemma validateRequestRuleAmbiguity_ok (rules : list Rule) (r : Registry) :
  validateRequestRuleAmbiguity rules r = Ok tt → unambiguous r rules.
Proof.
  induction rules as [|first later IH]; simpl; [done|].
  rewrite seq_ok. intros [Hf Hl] i j a b Hij Ha Hb Hea Heb.
  destruct j as [|j]; [lia|]. simpl in Hb.
  destruct i as [|i]; simpl in Ha; [|apply (IH Hl i j); done || lia].
  injection Ha as ->. rewrite bool_decide_true in Hf by done.
  unfold validateRequestRuleAgainstLaterRules in Hf.
  rewrite for_each_ok, Forall_forall in Hf.
  specialize (Hf b (list_elem_of_lookup_2 _ _ _ Hb)).
  apply refuse_ok in Hf. rewrite bool_decide_true in Hf by done. simpl in Hf.
  unfold grantPoliciesEqual in Hf. case_bool_decide; [by left|by right].
Qed.

Lemma rules_loop_ok (ids : list string) (rawRules : list rawRule) (r : Registry)
    (rules : list Rule) :
  rules_loop ids rawRules r = Ok rules →
  Forall (normalized_rule r) rules ∧ NoDup (rule_ID <$> rules)
  ∧ (∀ rule, rule ∈ rules → rule_ID rule ∉ ids)
  ∧ length rules = length rawRules.
Proof.
  revert ids rules; induction rawRules as [|raw rest IH]; intros ids rules; simpl.
  { intros [= <-]. split; [done|]. split; [constructor|]. split; [|done].
    intros rule Hr. by apply not_elem_of_nil in Hr. }
  rewrite bind_ok_iff. intros (rule & Hn & H). apply wrap_error_ok, normalizeRule_ok in Hn.
  apply seq_ok in H as [Hdup H]. apply refuse_ok in Hdup.
  apply bind_ok_iff in H as (rules' & Hrest & [= <-]).
  apply IH in Hrest as (Hw & Hnd & Hids & Hl).
  split; [by constructor|]. split; [|split; [|simpl; lia]].
  - simpl. constructor; [|done]. intros (rule' & Heq & Hin)%list_elem_of_fmap.
    apply Hids in Hin. apply Hin. rewrite <- Heq. left.
  - intros rule' [->|Hin]%elem_of_cons.
    + by rewrite <- slices_Contains_iff, Hdup.
    + apply Hids in Hin. intros ?. apply Hin. by right.
Qed.

(** C33: A policy document whose rules normalize has one rule per document entry, with
    pairwise distinct identifiers; every rule satisfies the invariant [normalized_rule]
    (known operations, supported targets and attributes, valid patterns, credential uses
    and a bounded grant policy exactly on request rules); and two request rules with
    different grant policies never pass the overlap test. *)
Theorem normalizeRules_invariant (rawRules : list rawRule) (r : Registry)
    (rules : list Rule) :
  normalizeRules rawRules r = Ok rules →
  length rules = length rawRules ∧ NoDup (rule_ID <$> rules)
  ∧ Forall (normalized_rule r) rules ∧ unambiguous r rules.
Proof.
  unfold normalizeRules. rewrite bind_ok_iff. intros (rules' & Hl & H).
  apply seq_ok in H as [Ha [= ->]].
  apply rules_loop_ok in Hl as (? & ? & _ & ?).
  auto using validateRequestRuleAmbiguity_ok.
Qed.
End normalize_properties.

(** * A sample registry and policy

    A broker with one grantable file operation: the concrete inputs at which the
    policy theorems that have hypotheses are applied. *)

#[local] Existing Instance canonical_range.

Definition sample_operation : OperationSpec :=
  MkOperationSpec ["file"] [] [CredentialUseManaged] true GrantModeWindow [] 60 3 false.

Definition sample_registry : Registry :=
  MkRegistry {[ "file.read" := sample_operation ]}
    {[ "file" := MkTargetSpec {[ "path" := MkFieldSpec true MatchPathGlob ]} ]} ∅.

Example sample_registry_valid : Registry_validate sample_registry = Ok tt.
Proof. vm_compute. reflexivity. Qed.

Definition file_matcher (pattern : string) : TargetMatcher :=
  MkTargetMatcher "file" {[ "path" := [pattern] ]}.

Definition sample_grant_policy : rawGrantPolicy :=
  MkRawGrantPolicy GrantModeWindow 15 30 10 (MkOptionalLimit 1 true) (MkOptionalLimit 2 true).

Definition sample_rule (id : string) (effect : Effect) (pattern : string)
    (gp : option rawGrantPolicy) : rawRule :=
  MkRawRule id effect ["agent-*"] ["file.read"] [file_matcher pattern] ∅ [] gp EmptyString.

Definition sample_rules : list rawRule :=
  [sample_rule "deny-secrets" EffectDeny "**/.env" None;
   sample_rule "allow-docs" EffectAllow "docs/**" None;
   sample_rule "ask-src" EffectRequest "src/**" (Some sample_grant_policy)].

Definition parsed_rules : list Rule :=
  match normalizeRules sample_rules sample_registry with Ok rules => rules | Err _ => [] end.

Definition read_request (path : string) : Request :=
  MkRequest "agent-7" "file.read" (MkTarget "file" {[ "path" := [path] ]}) ∅.

Definition managed : DecisionOptions := MkDecisionOptions false 0 [] CredentialUseManaged.

Definition decide_sample (rules : list Rule) (path : string) : Decision :=
  Decide hour (MkPolicy sample_registry rules) (read_request path) managed.

Example sample_decisions :
  (λ path, (decision_Effect (decide_sample parsed_rules path),
            decision_Allowed (decide_sample parsed_rules path)))
    <$> ["docs/a.md"; "docs/.env"; "src/main.go"; "etc/passwd"]
  = [(EffectAllow, true); (EffectDeny, false); (EffectDeny, false); (EffectNoMatch, false)].
Proof. vm_compute. reflexivity. Qed.

Lemma normalizeGrantPolicy_bounded_witness :
  EffectRequest = EffectRequest
  ∧ bounded_grant_policy (MkGrantPolicy GrantModeWindow 15 30 10 1 2) ["file.read"]
      sample_registry.
Proof.
  apply (normalizeGrantPolicy_bounded EffectRequest (Some sample_grant_policy)).
  vm_compute. reflexivity.
Defined.

Lemma normalizeRules_invariant_witness :
  length parsed_rules = length sample_rules ∧ NoDup (rule_ID <$> parsed_rules)
  ∧ Forall (normalized_rule sample_registry) parsed_rules
  ∧ unambiguous sample_registry parsed_rules.
Proof. apply (normalizeRules_invariant sample_rules). vm_compute. reflexivity. Defined.

(** The policy with its deny rule, and without it. *)
Lemma Decide_deny_monotone_witness :
  decision_Allowed (decide_sample parsed_rules "docs/a.md") = true
  ∧ decision_Allowed (decide_sample (drop 1 parsed_rules) "docs/a.md") = true.
Proof.
  split; [vm_compute; reflexivity|].
  apply (Decide_deny_monotone hour sample_registry (drop 1 parsed_rules) parsed_rules).
  - intros rule Hr. rewrite <- (take_drop 1 parsed_rules). apply elem_of_app. by right.
  - intros rule Hr. rewrite <- (take_drop 1 parsed_rules) in Hr.
    apply elem_of_app in Hr as [Hr|Hr]; [right|by left].
    assert (rule_Effect <$> take 1 parsed_rules = [EffectDeny]) as He
      by (vm_compute; reflexivity).
    apply list_elem_of_singleton. rewrite <- He. by apply list_elem_of_fmap_2.
  - vm_compute. reflexivity.
Defined.
