(* ===== verification/Cursor.v ===== *)
(** * Event cursors: [encodeEventCursor] and [decodeEventCursor] of lifecycle.go

    A cursor is the base64 text (URL alphabet, no padding) of a big-endian
    64-bit sequence number.  The codec is the one of Go's [encoding/base64]:
    decoding skips carriage returns and newlines and does not check the unused
    low bits of the last character. *)

From S2P Require Export Errors.
From Stdlib Require Import Ascii.

Local Open Scope Z_scope.

Module Base64.
(** The URL alphabet. *)
Definition encode_digit (d : Z) : Z :=
  if d <? 26 then 65 + d
  else if d <? 52 then 97 + (d - 26)
  else if d <? 62 then 48 + (d - 52)
  else if d =? 62 then 45 else 95.

Definition decode_digit (c : Z) : option Z :=
  if (65 <=? c) && (c <=? 90) then Some (c - 65)
  else if (97 <=? c) && (c <=? 122) then Some (c - 97 + 26)
  else if (48 <=? c) && (c <=? 57) then Some (c - 48 + 52)
  else if c =? 45 then Some 62
  else if c =? 95 then Some 63 else None.

(** [RawURLEncoding.EncodeToString] on bytes. *)
Fixpoint encode (data : list Z) : list Z :=
  match data with
  | a :: b :: c :: rest =>
    [encode_digit (Z.shiftr a 2);
     encode_digit (Z.lor (Z.shiftl (Z.land a 3) 4) (Z.shiftr b 4));
     encode_digit (Z.lor (Z.shiftl (Z.land b 15) 2) (Z.shiftr c 6));
     encode_digit (Z.land c 63)] ++ encode rest
  | [a; b] =>
    [encode_digit (Z.shiftr a 2);
     encode_digit (Z.lor (Z.shiftl (Z.land a 3) 4) (Z.shiftr b 4));
     encode_digit (Z.shiftl (Z.land b 15) 2)]
  | [a] => [encode_digit (Z.shiftr a 2); encode_digit (Z.shiftl (Z.land a 3) 4)]
  | [] => []
  end.

(** The bytes of decoded digits; one leftover digit is an error. *)
Fixpoint join_digits (digits : list Z) : option (list Z) :=
  match digits with
  | p :: q :: r :: s :: rest =>
    tail ← join_digits rest;
    Some (Z.lor (Z.shiftl p 2) (Z.shiftr q 4)
          :: Z.lor (Z.shiftl (Z.land q 15) 4) (Z.shiftr r 2)
          :: Z.lor (Z.shiftl (Z.land r 3) 6) s :: tail)
  | [p; q; r] =>
    Some [Z.lor (Z.shiftl p 2) (Z.shiftr q 4);
          Z.lor (Z.shiftl (Z.land q 15) 4) (Z.shiftr r 2)]
  | [p; q] => Some [Z.lor (Z.shiftl p 2) (Z.shiftr q 4)]
  | [_] => None
  | [] => Some []
  end.

Definition is_newline (c : Z) : bool := (c =? 10) || (c =? 13).

(** [RawURLEncoding.DecodeString] *)
Definition decode (text : list Z) : option (list Z) :=
  digits ← mapM decode_digit (List.filter (λ c, negb (is_newline c)) text);
  join_digits digits.
End Base64.

Definition byte_char (b : Z) : ascii := ascii_of_N (Z.to_N b).

Definition string_bytes (s : string) : list Z := byte_of <$> list_of_string s.
Definition bytes_string (l : list Z) : string := string_of_list (byte_char <$> l).

(** [binary.BigEndian.PutUint64] and [Uint64]. *)
Definition put_uint64 (n : Z) : list Z :=
  (λ shift, Z.land (Z.shiftr n shift) 255) <$> [56; 48; 40; 32; 24; 16; 8; 0].

Definition uint64_of (data : list Z) : Z :=
  foldl (λ acc b, Z.lor (Z.shiftl acc 8) b) 0 data.

Definition encodeEventCursor (sequence : Z) : string :=
  bytes_string (Base64.encode (put_uint64 sequence)).

Definition decodeEventCursor (cursor : string) : result error Z :=
  if is_empty cursor then Ok 0
  else
    match Base64.decode (string_bytes cursor) with
    | Some data => if Nat.eqb (length data) 8 then Ok (uint64_of data) else Err ErrInvalidCursor
    | None => Err ErrInvalidCursor
    end.

(** ** The round trip *)

Definition is_byte (b : Z) : Prop := 0 <= b < 256.
Definition is_digit64 (d : Z) : Prop := 0 <= d < 64.

Lemma decode_encode_digit (d : Z) :
  is_digit64 d → Base64.decode_digit (Base64.encode_digit d) = Some d
                 ∧ Base64.is_newline (Base64.encode_digit d) = false
                 ∧ is_byte (Base64.encode_digit d).
Proof.
  intros Hd.
  assert (bool_decide (Base64.decode_digit (Base64.encode_digit d) = Some d)
          && negb (Base64.is_newline (Base64.encode_digit d))
          && (0 <=? Base64.encode_digit d) && (Base64.encode_digit d <? 256) = true) as H.
  { revert d Hd. apply (check_below 64). by vm_compute. }
  unfold is_byte. bool_to_prop. done.
Qed.

Ltac byte_arith :=
  unfold is_byte, is_digit64 in *; change (2 ^ 2) with 4 in *; change (2 ^ 4) with 16 in *;
  change (2 ^ 6) with 64 in *; Z.to_euclidean_division_equations; lia.

Lemma digit_p (a : Z) : Z.shiftr a 2 = a / 4.
Proof. by rewrite shiftr_div. Qed.
Lemma digit_q (a b : Z) :
  is_byte b → Z.lor (Z.shiftl (Z.land a 3) 4) (Z.shiftr b 4) = a mod 4 * 16 + b / 16.
Proof.
  intros Hb. change 3 with (2 ^ 2 - 1). rewrite land_mod, shiftr_div by lia.
  rewrite lor_shiftl_add; [done|lia|]. byte_arith.
Qed.
Lemma digit_q_last (a : Z) : Z.shiftl (Z.land a 3) 4 = a mod 4 * 16.
Proof. change 3 with (2 ^ 2 - 1). by rewrite land_mod, shiftl_mul by lia. Qed.
Lemma digit_r (b c : Z) :
  is_byte c → Z.lor (Z.shiftl (Z.land b 15) 2) (Z.shiftr c 6) = b mod 16 * 4 + c / 64.
Proof.
  intros Hc. change 15 with (2 ^ 4 - 1). rewrite land_mod, shiftr_div by lia.
  rewrite lor_shiftl_add; [done|lia|]. byte_arith.
Qed.
Lemma digit_r_last (b : Z) : Z.shiftl (Z.land b 15) 2 = b mod 16 * 4.
Proof. change 15 with (2 ^ 4 - 1). by rewrite land_mod, shiftl_mul by lia. Qed.
Lemma digit_s (c : Z) : Z.land c 63 = c mod 64.
Proof. change 63 with (2 ^ 6 - 1). by rewrite land_mod by lia. Qed.

Lemma byte_a (a q : Z) :
  is_byte a → q / 16 = a mod 4 → is_digit64 q → Z.lor (Z.shiftl (a / 4) 2) (Z.shiftr q 4) = a.
Proof. intros Ha Hq Hd. rewrite shiftr_div, lor_shiftl_add by (lia || byte_arith). byte_arith. Qed.
Lemma byte_b (a b r : Z) :
  is_byte b → r / 4 = b mod 16 → is_digit64 r →
  Z.lor (Z.shiftl (Z.land (a mod 4 * 16 + b / 16) 15) 4) (Z.shiftr r 2) = b.
Proof.
  intros Hb Hr Hd. change 15 with (2 ^ 4 - 1).
  rewrite land_mod, shiftr_div, lor_shiftl_add by (lia || byte_arith). byte_arith.
Qed.
Lemma byte_c (b c : Z) :
  is_byte c →
  Z.lor (Z.shiftl (Z.land (b mod 16 * 4 + c / 64) 3) 6) (c mod 64) = c.
Proof.
  intros Hc. change 3 with (2 ^ 2 - 1).
  rewrite land_mod, lor_shiftl_add by (lia || byte_arith). byte_arith.
Qed.

(** Every byte sequence is read back from its text, which has only digits. *)
Lemma encode_digits (data : list Z) :
  Forall is_byte data →
  ∃ digits, Base64.encode data = Base64.encode_digit <$> digits
            ∧ Forall is_digit64 digits ∧ Base64.join_digits digits = Some data.
Proof.
  remember (length data) as n eqn:Hn. revert data Hn.
  induction n as [n IH] using lt_wf_ind. intros data -> Hall.
  destruct data as [|a [|b [|c rest]]]; rewrite ?Forall_cons in Hall.
  - by exists [].
  - destruct Hall as [Ha _]. exists [a / 4; a mod 4 * 16]. cbn.
    rewrite digit_p, digit_q_last. split; [done|]. split.
    + unfold is_byte, is_digit64 in *. repeat constructor; Z.to_euclidean_division_equations; lia.
    + f_equal. f_equal. apply byte_a; [done|..]; unfold is_byte, is_digit64 in *;
        Z.to_euclidean_division_equations; lia.
  - destruct Hall as (Ha & Hb & _). exists [a / 4; a mod 4 * 16 + b / 16; b mod 16 * 4]. cbn.
    rewrite digit_p, digit_q, digit_r_last by done. split; [done|]. split.
    + unfold is_byte, is_digit64 in *. repeat constructor; Z.to_euclidean_division_equations; lia.
    + f_equal. f_equal; [|f_equal]; [apply byte_a|apply byte_b]; try done; unfold is_byte, is_digit64 in *;
        Z.to_euclidean_division_equations; lia.
  - destruct Hall as (Ha & Hb & Hc & Hrest).
    destruct (IH (length rest) ltac:(cbn; lia) rest eq_refl Hrest) as (ds & He & Hd & Hj).
    exists (a / 4 :: a mod 4 * 16 + b / 16 :: b mod 16 * 4 + c / 64 :: c mod 64 :: ds).
    cbn [Base64.encode Base64.join_digits fmap list_fmap].
    rewrite digit_p, digit_q, digit_r, digit_s, He, Hj by done. split; [done|]. split.
    + unfold is_byte, is_digit64 in *.
      repeat (apply Forall_cons; split; [Z.to_euclidean_division_equations; lia|]). done.
    + cbn. f_equal. f_equal; [|f_equal; [|f_equal]]; [apply byte_a|apply byte_b|apply byte_c]; try done;
        unfold is_byte, is_digit64 in *; Z.to_euclidean_division_equations; lia.
Qed.

Lemma decode_encode (data : list Z) :
  Forall is_byte data → Base64.decode (Base64.encode data) = Some data.
Proof.
  intros (ds & -> & Hd & Hj)%encode_digits. unfold Base64.decode.
  assert (List.filter (λ c, negb (Base64.is_newline c)) (Base64.encode_digit <$> ds)
          = Base64.encode_digit <$> ds) as ->.
  { clear Hj. induction Hd as [|d ds Hd Hds IH]; [done|]. cbn.
    destruct (decode_encode_digit d Hd) as (_ & -> & _). cbn. by rewrite IH. }
  assert (mapM Base64.decode_digit (Base64.encode_digit <$> ds) = Some ds) as ->; [|done].
  clear Hj. apply mapM_Some. induction Hd as [|d ds Hd Hds IH]; [constructor|].
  constructor; [by apply decode_encode_digit|done].
Qed.

Lemma encode_bytes (data : list Z) : Forall is_byte data → Forall is_byte (Base64.encode data).
Proof.
  intros (ds & -> & Hd & _)%encode_digits. apply Forall_fmap.
  eapply Forall_impl; [exact Hd|]. intros d Hd'. by apply decode_encode_digit.
Qed.

Lemma string_bytes_of (l : list Z) : Forall is_byte l → string_bytes (bytes_string l) = l.
Proof.
  unfold string_bytes, bytes_string. induction 1 as [|b l Hb Hl IH]; [done|].
  cbn. f_equal; [|done]. unfold byte_of, byte_char.
  rewrite N_ascii_embedding by (unfold is_byte in Hb; lia).
  unfold is_byte in Hb. lia.
Qed.

Lemma put_uint64_bytes (n : Z) : Forall is_byte (put_uint64 n).
Proof.
  unfold put_uint64. apply Forall_fmap, Forall_true. intros k. cbn. unfold is_byte.
  change 255 with (Z.ones 8). rewrite Z.land_ones by lia. apply Z.mod_pos_bound. lia.
Qed.

Lemma uint64_of_put (n : Z) : 0 <= n < 2 ^ 64 → uint64_of (put_uint64 n) = n.
Proof.
  intros Hn. unfold uint64_of, put_uint64. cbn [fmap list_fmap foldl].
  change 255 with (2 ^ 8 - 1).
  repeat rewrite (land_mod _ 8) by lia.
  rewrite !shiftr_div by lia.
  rewrite !lor_shiftl_add by (try lia; apply Z.mod_pos_bound; lia).
  Z.to_euclidean_division_equations; lia.
Qed.

Lemma decode_event_cursor (sequence : Z) :
  0 <= sequence < 2 ^ 64 → decodeEventCursor (encodeEventCursor sequence) = Ok sequence.
Proof.
  intros Hs. unfold decodeEventCursor, encodeEventCursor.
  pose proof (put_uint64_bytes sequence) as Hb.
  rewrite string_bytes_of, decode_encode by auto using encode_bytes.
  by rewrite uint64_of_put.
Qed.

Lemma event_cursor_nonempty (sequence : Z) : is_empty (encodeEventCursor sequence) = false.
Proof. done. Qed.

(** An event cursor decodes to the 64-bit sequence number it was made from, and is
    never the empty text, which stands for the start. *)
Theorem event_cursor_roundtrip (sequence : Z) :
  0 <= sequence < 2 ^ 64 →
  decodeEventCursor (encodeEventCursor sequence) = Ok sequence
  ∧ encodeEventCursor sequence ≠ EmptyString.
Proof.
  intros Hs. split; [by apply decode_event_cursor|done].
Qed.

Lemma event_cursor_roundtrip_witness :
  decodeEventCursor (encodeEventCursor 513) = Ok 513
  ∧ encodeEventCursor 513 ≠ EmptyString.
Proof. apply (event_cursor_roundtrip 513). lia. Defined.
