(* ===== verification/GrantsData.v ===== *)
(** * Durable grants: data and validation

    The records of [authorization/grants] (grants.go, uses.go, lifecycle.go,
    v1_decisions.go), the normalization of a request (grants.go, metadata.go),
    the validation of loaded state (grants.go, uses.go, lifecycle.go) and the
    aggregation of a grant's uses. *)

From S2P Require Export PolicyMatch.
From Stdlib Require Import Ascii.

Local Open Scope Z_scope.

(** ** Constants *)

Definition defaultPendingTimeout : Duration := 5 * minute.
Definition defaultDuration : Duration := 5 * minute.
Definition defaultMaxDuration : Duration := hour.
Definition defaultMaxUses : Limit := SingleUse.
Definition maxMaxUses : Limit := MaxFiniteUses.
Definition defaultReservationTimeout : Duration := 5 * minute.
Definition defaultMaxPendingPerClient : Z := 10.
Definition defaultMaxPendingGlobal : Z := 512.
Definition defaultMaxEvents : Z := 10000.
Definition maxEventPageSize : Z := 100.

(** ** Records *)

(** [Options], without the clock and the identifier source. *)
Record Options : Type := MkOptions {
  opts_PendingTimeout : Duration;
  opts_DefaultDuration : Duration;
  opts_MaxDuration : Duration;
  opts_ReservationTimeout : Duration;
  opts_MaxEvents : Z;
  opts_MaxPendingPerClient : Z;
  opts_MaxPendingGlobal : Z
}.

Definition positive_or (value fallback : Z) : Z := if value <=? 0 then fallback else value.

Definition defaultStoreBounds (o : Options) : Options :=
  MkOptions (positive_or (opts_PendingTimeout o) defaultPendingTimeout)
    (positive_or (opts_DefaultDuration o) defaultDuration)
    (positive_or (opts_MaxDuration o) defaultMaxDuration)
    (positive_or (opts_ReservationTimeout o) defaultReservationTimeout)
    (positive_or (opts_MaxEvents o) defaultMaxEvents)
    (positive_or (opts_MaxPendingPerClient o) defaultMaxPendingPerClient)
    (positive_or (opts_MaxPendingGlobal o) defaultMaxPendingGlobal).

(** [grants.Request] *)
Record GrantRequest : Type := MkGrantRequest {
  req_Client : string;
  req_ClientRequestID : string;
  req_Operation : string;
  req_Target : Target;
  req_Attrs : StringListMap;
  req_Metadata : gmap string string;
  req_Reason : string;
  req_Duration : Duration;
  req_PendingTimeout : Duration;
  req_MaxUses : Limit;
  req_MaxUsesSpecified : bool;
  req_MaxUsesDefaulted : bool
}.

(** [GrantUse] *)
Record GrantUse : Type := MkGrantUse {
  use_GrantID : string;
  use_RequestID : string;
  use_Operation : string;
  use_State : UseState;
  use_Revision : Z;
  use_CreatedAt : Time;
  use_UpdatedAt : Time;
  use_SettledAt : Time
}.

(** [lifecycleEventRecord]; [Sequence] is a [uint64]. *)
Record EventRecord : Type := MkEventRecord {
  ev_Sequence : Z;
  ev_Kind : EventKind;
  ev_GrantID : string;
  ev_Status : Status;
  ev_UsedCount : Z;
  ev_ReservedCount : Z;
  ev_Revision : Z;
  ev_Time : Time;
  ev_Approver : string;
  ev_PreviousStatus : Status;
  ev_PreviousRevision : Z;
  ev_ExpectedRevision : Z
}.

(** [decisionRecord]; the preserved JSON texts are empty when nil. *)
Record DecisionRecord : Type := MkDecisionRecord {
  rec_Scope : string;
  rec_CommandHash : string;
  rec_Result : Grant;
  rec_Previous : Grant;
  rec_EventCursor : string;
  rec_FailureCode : Code;
  rec_FailureReference : string;
  rec_CommittedAt : Time;
  rec_resultJSON : string;
  rec_previousJSON : string
}.

(** [fileData]; the version is the constant [grantFileVersion]. *)
Record FileData : Type := MkFileData {
  fd_Grants : list Grant;
  fd_Uses : list GrantUse;
  fd_Events : list EventRecord;
  fd_NextEvent : Z;
  fd_DecisionRecords : list DecisionRecord
}.

#[export] Instance GrantUse_eq_dec : EqDecision GrantUse.
Proof. solve_decision. Defined.
#[export] Instance EventRecord_eq_dec : EqDecision EventRecord.
Proof. solve_decision. Defined.

Definition set_Grants (v : list Grant) (d : FileData) : FileData :=
  MkFileData v (fd_Uses d) (fd_Events d) (fd_NextEvent d) (fd_DecisionRecords d).
Definition set_Uses (v : list GrantUse) (d : FileData) : FileData :=
  MkFileData (fd_Grants d) v (fd_Events d) (fd_NextEvent d) (fd_DecisionRecords d).
Definition set_Events (v : list EventRecord) (next : Z) (d : FileData) : FileData :=
  MkFileData (fd_Grants d) (fd_Uses d) v next (fd_DecisionRecords d).
Definition set_DecisionRecords (v : list DecisionRecord) (d : FileData) : FileData :=
  MkFileData (fd_Grants d) (fd_Uses d) (fd_Events d) (fd_NextEvent d) v.

(** The state of a store that has no file yet. *)
Definition emptyState : FileData := MkFileData [] [] [] 1 [].

(** ** Texts *)

Definition status_text (s : Status) : string :=
  match s with
  | StatusPending => "pending" | StatusActive => "active" | StatusDenied => "denied"
  | StatusFailed => "failed" | StatusExpired => "expired" | StatusConsumed => "consumed"
  | StatusRevoked => "revoked" | StatusCanceled => "canceled" | StatusOther text => text
  end.

(** ** Requests: metadata.go and grants.go *)

Definition MetadataMode : string := "grant_mode".
Definition maxMetadataEntries : Z := 32.
Definition maxMetadataKeyBytes : Z := 128.
Definition maxMetadataValueBytes : Z := 4096.

Definition normalizeRequestMetadata (metadata : gmap string string) : gmap string string :=
  match metadata !! MetadataMode with
  | Some _ => metadata
  | None => <[MetadataMode := "window"]> metadata
  end.

Definition validMetadataMode (mode : string) : bool :=
  String.eqb mode "window" || String.eqb mode "execution".

Definition validateMetadataEntry (key value : string) : result error unit :=
  refuse (negb (String.eqb (trim_space key) key) || is_empty key
          || (maxMetadataKeyBytes <? len key))
    (errorf "grant metadata key %q is invalid" [key]) ;;;
  refuse (is_blank value || (maxMetadataValueBytes <? len value))
    (errorf "grant metadata value for %q is invalid" [key]).

(** [safeOperatorIdentity]: operator_decisions.go *)
Definition maxApproverBytes : Z := 200.

Definition safeOperatorIdentity (value : string) : bool :=
  if (maxApproverBytes <? len value) || negb (valid_utf8 value) then false
  else forallb (λ char, negb (is_control char)) (runes value).

Section requests.
Context {R : MapRange}.

Definition validateMetadata (metadata : gmap string string) : result error unit :=
  refuse (negb (validMetadataMode (default EmptyString (metadata !! MetadataMode))))
    (errorf "grant metadata mode is invalid" []) ;;;
  refuse (maxMetadataEntries <? Z.of_nat (size metadata))
    (errorf "grant metadata exceeds %d entries" []) ;;;
  for_each (λ '(key, value), validateMetadataEntry key value) (map_range metadata).

Definition validateValueMap (kind : string) (values : StringListMap) : result error unit :=
  for_each (λ '(name, list),
    refuse (is_blank name) (errorf "%s name is required" [kind]) ;;;
    refuse (Nat.eqb (length list) 0) (errorf "%s %q values must not be empty" [kind; name]) ;;;
    for_each (λ value, refuse (is_blank value)
      (errorf "%s %q contains an empty value" [kind; name])) list)
    (map_range values).

(** [stringMapsEqual]; an absent key reads as the empty string. *)
Definition stringMapsEqual (l r : gmap string string) : bool :=
  if negb (Nat.eqb (size l) (size r)) then false
  else forallb (λ '(key, value), String.eqb (default EmptyString (r !! key)) value)
         (map_range l).

Definition normalizeRequestValues (req : GrantRequest) : result error GrantRequest :=
  refuse (is_empty (req_Client req) || is_empty (req_Operation req)
          || is_empty (target_Kind (req_Target req)))
    (errorf "client, operation, and target are required" []) ;;;
  refuse (is_empty (req_Reason req)) (errorf "grant reason is required" []) ;;;
  validateValueMap "target field" (target_Fields (req_Target req)) ;;;
  validateValueMap "attr" (req_Attrs req) ;;;
  let metadata := normalizeRequestMetadata (req_Metadata req) in
  validateMetadata metadata ;;;
  Ok (MkGrantRequest (req_Client req) (req_ClientRequestID req) (req_Operation req)
        (MkTarget (target_Kind (req_Target req))
           (CanonicalStringSliceMap (target_Fields (req_Target req))))
        (CanonicalStringSliceMap (req_Attrs req)) metadata (req_Reason req)
        (req_Duration req) (req_PendingTimeout req) (req_MaxUses req)
        (req_MaxUsesSpecified req) (req_MaxUsesDefaulted req)).

Definition with_bounds (duration pending : Duration) (req : GrantRequest) : GrantRequest :=
  MkGrantRequest (req_Client req) (req_ClientRequestID req) (req_Operation req)
    (req_Target req) (req_Attrs req) (req_Metadata req) (req_Reason req)
    duration pending (req_MaxUses req) (req_MaxUsesSpecified req) (req_MaxUsesDefaulted req).

Definition with_uses (uses : Limit) (specified defaulted : bool) (req : GrantRequest)
  : GrantRequest :=
  MkGrantRequest (req_Client req) (req_ClientRequestID req) (req_Operation req)
    (req_Target req) (req_Attrs req) (req_Metadata req) (req_Reason req)
    (req_Duration req) (req_PendingTimeout req) uses specified defaulted.

Definition normalizeRequestUseLimit (req : GrantRequest) : result error GrantRequest :=
  let req :=
    if negb (req_MaxUsesSpecified req) && IsUnlimited (req_MaxUses req)
    then with_uses defaultMaxUses (req_MaxUsesSpecified req) true req else req in
  let req := with_uses (req_MaxUses req) true (req_MaxUsesDefaulted req) req in
  refuse (req_MaxUses req <? 0)
    (errorf "grant max uses must be positive or unlimited" []) ;;;
  refuse (maxMaxUses <? req_MaxUses req) (errorf "grant max uses exceeds maximum" []) ;;;
  Ok req.

Definition normalizeRequestBounds (o : Options) (req : GrantRequest)
  : result error GrantRequest :=
  let duration := if req_Duration req <=? 0 then opts_DefaultDuration o else req_Duration req in
  refuse (opts_MaxDuration o <? duration) (errorf "grant duration exceeds maximum" []) ;;;
  let pending :=
    if req_PendingTimeout req <=? 0 then opts_PendingTimeout o else req_PendingTimeout req in
  normalizeRequestUseLimit (with_bounds duration pending req).

(** [Store.normalizeRequest] *)
Definition normalizeGrantRequest (o : Options) (req : GrantRequest)
  : result error GrantRequest :=
  normalized ← normalizeRequestValues req;
  normalizeRequestBounds o normalized.

(** ** Comparison of a request with a stored grant: lifecycle_helpers.go *)

Definition mapsEqual (l r : StringListMap) : bool := StringSliceMapsEqual l r.

Definition targetEqual (l r : Target) : bool :=
  String.eqb (target_Kind l) (target_Kind r) && mapsEqual (target_Fields l) (target_Fields r).

Definition sameRequestBounds (g : Grant) (req : GrantRequest) : bool :=
  (grant_MaxUses g =? req_MaxUses req)
  && Bool.eqb (grant_RequestedMaxUsesDefaulted g) (req_MaxUsesDefaulted req)
  && (grant_Duration g =? req_Duration req)
  && (grant_PendingTimeout g =? req_PendingTimeout req).

Definition sameRequest (g : Grant) (req : GrantRequest) : bool :=
  String.eqb (grant_Operation g) (req_Operation req)
  && targetEqual (grant_Target g) (req_Target req)
  && mapsEqual (grant_Attrs g) (req_Attrs req)
  && stringMapsEqual (grant_Metadata g) (req_Metadata req)
  && String.eqb (grant_Reason g) (req_Reason req) && sameRequestBounds g req.
End requests.

Definition findIdempotent (grants : list Grant) (req : GrantRequest) : option Grant :=
  if is_empty (req_ClientRequestID req) then None
  else find (λ g, String.eqb (grant_Client g) (req_Client req)
                  && String.eqb (grant_ClientRequestID g) (req_ClientRequestID req)
                  && negb (bool_decide (grant_Status g = StatusCanceled))) grants.

Definition pendingCapacityAvailable (o : Options) (values : list Grant) (client : string) : bool :=
  let pending := filter (λ g, bool_decide (grant_Status g = StatusPending) = true) values in
  let clientPending := filter (λ g, String.eqb (grant_Client g) client = true) pending in
  (Z.of_nat (length clientPending) <? opts_MaxPendingPerClient o)
  && (Z.of_nat (length pending) <? opts_MaxPendingGlobal o).

(** [newGrant], after the identifier and the clock have been read. *)
Definition newGrant (req : GrantRequest) (id : string) (now : Time) : Grant :=
  MkGrant id (req_Client req) (req_ClientRequestID req) (req_Operation req) (req_Target req)
    (req_Attrs req) (req_Metadata req) (req_Reason req) StatusPending 0 now
    (now + req_PendingTimeout req) 0 (req_Duration req) (req_Duration req)
    (req_PendingTimeout req) 0 EmptyString EmptyString no_code EmptyString 0
    0 0 0 0 0 false 0 (req_MaxUses req) (req_MaxUses req) (req_MaxUsesDefaulted req) no_status.

(** [findGrant]: the index and the grant. *)
Fixpoint findGrant (grants : list Grant) (id : string) : option (nat * Grant) :=
  match grants with
  | [] => None
  | g :: rest =>
    if String.eqb (grant_ID g) id then Some (0%nat, g)
    else '(i, g) ← findGrant rest id; Some (S i, g)
  end.

(** [findUseIndex] *)
Fixpoint findUseIndex (uses : list GrantUse) (requestID : string) : option (nat * GrantUse) :=
  match uses with
  | [] => None
  | u :: rest =>
    if String.eqb (use_RequestID u) requestID then Some (0%nat, u)
    else '(i, u) ← findUseIndex rest requestID; Some (S i, u)
  end.

Definition findUse (uses : list GrantUse) (requestID : string) : option GrantUse :=
  snd <$> findUseIndex uses requestID.

(** ** Uses: uses.go *)

Definition validUseIdentity (grantID requestID operation : string) : bool :=
  negb (is_empty grantID) && (len grantID <=? 128) && negb (is_empty requestID)
  && (len requestID <=? 128) && negb (is_empty operation) && (len operation <=? 128)
  && negb (contains_any (String " " (String "009" (String "013" (String "010" EmptyString))))
             requestID).

Definition validUseState (s : UseState) : bool :=
  match s with UseOther _ => false | _ => true end.

Definition useStateSettled (s : UseState) : bool :=
  match s with UseCommitted | UseReleased => true | _ => false end.

Definition reservationCanSettle (s : Status) : bool :=
  match s with StatusActive | StatusExpired | StatusRevoked => true | _ => false end.

Definition validUseSettlementTime (u : GrantUse) : bool :=
  Bool.eqb (useStateSettled (use_State u)) (negb (time_is_zero (use_SettledAt u)))
  && (time_is_zero (use_SettledAt u) || negb (time_before (use_SettledAt u) (use_UpdatedAt u))).

Definition validLoadedUseLifecycle (u : GrantUse) : bool :=
  if negb (validUseState (use_State u)) || (use_Revision u <? 1) then false
  else negb (time_is_zero (use_CreatedAt u))
       && negb (time_before (use_UpdatedAt u) (use_CreatedAt u)) && validUseSettlementTime u.

Definition validLoadedUseIdentity (u : GrantUse) (g : Grant) : bool :=
  validUseIdentity (use_GrantID u) (use_RequestID u) (use_Operation u)
  && String.eqb (grant_Operation g) (use_Operation u).

Definition validLoadedUse (u : GrantUse) (g : Grant) : bool :=
  validLoadedUseIdentity u g && validLoadedUseLifecycle u.

(** [aggregateGrantUse] *)
Definition aggregateGrantUse (g : Grant) (u : GrantUse) : Grant :=
  match use_State u with
  | UseCommitted =>
    let g := set_UsedCount (grant_UsedCount g + 1) g in
    if time_before (grant_UsedAt g) (use_SettledAt u)
    then set_UsedAt (use_SettledAt u) g else g
  | UseReserved | UseRetained =>
    let g := set_ReservedCount (grant_ReservedCount g + 1) g in
    let g := if time_is_zero (grant_ReservedAt g) || time_before (use_UpdatedAt u) (grant_ReservedAt g)
             then set_ReservedAt (use_UpdatedAt u) g else g in
    if bool_decide (use_State u = UseRetained) then set_ReservationRetained true g else g
  | _ => g
  end.

Definition clear_aggregate (g : Grant) : Grant :=
  MkGrant (grant_ID g) (grant_Client g) (grant_ClientRequestID g) (grant_Operation g)
    (grant_Target g) (grant_Attrs g) (grant_Metadata g) (grant_Reason g) (grant_Status g)
    (grant_Revision g) (grant_CreatedAt g) (grant_PendingExpiresAt g) (grant_ExpiresAt g)
    (grant_Duration g) (grant_RequestedDuration g) (grant_PendingTimeout g) (grant_DecidedAt g)
    (grant_DecidedBy g) (grant_DecidedOnBehalfOf g) (grant_FailureCode g)
    (grant_FailureReference g) (grant_FailedAt g) 0 0 (grant_UseRevision g) 0 0 false
    (grant_ReservationRevision g) (grant_MaxUses g) (grant_RequestedMaxUses g)
    (grant_RequestedMaxUsesDefaulted g) (grant_ExpiredFrom g).

(** The loop of [aggregateGrantUses]: the identifier of the grant never changes. *)
Definition aggregateGrantUses (g : Grant) (uses : list GrantUse) : Grant :=
  foldl (λ g u, if String.eqb (use_GrantID u) (grant_ID g) then aggregateGrantUse g u else g)
    (clear_aggregate g) uses.

Definition useRevisionTotal (grantID : string) (uses : list GrantUse) : Z :=
  foldl (λ total u, if String.eqb (use_GrantID u) grantID then total + use_Revision u else total)
    0 uses.

(** [grantUseAggregate] *)
Record GrantUseAggregate : Type := MkGrantUseAggregate {
  agg_UsedCount : Z;
  agg_ReservedCount : Z;
  agg_UseRevision : Z;
  agg_ReservationRevision : Z;
  agg_ReservationRetained : bool;
  agg_UsedAt : Time;
  agg_ReservedAt : Time
}.

#[export] Instance GrantUseAggregate_eq_dec : EqDecision GrantUseAggregate.
Proof. solve_decision. Defined.

Definition grantUseAggregateFromGrant (g : Grant) : GrantUseAggregate :=
  MkGrantUseAggregate (grant_UsedCount g) (grant_ReservedCount g) (grant_UseRevision g)
    (grant_ReservationRevision g) (grant_ReservationRetained g) (grant_UsedAt g)
    (grant_ReservedAt g).

(** What the aggregate of a grant must be for its uses. *)
Definition wanted_aggregate (g : Grant) (uses : list GrantUse) : GrantUseAggregate :=
  let a := aggregateGrantUses g uses in
  MkGrantUseAggregate (grant_UsedCount a) (grant_ReservedCount a) (grant_UsedCount a)
    (useRevisionTotal (grant_ID g) uses) (grant_ReservationRetained a) (grant_UsedAt a)
    (grant_ReservedAt a).

Definition validateLoadedUseAggregates (grants : list Grant) (uses : list GrantUse)
  : result error unit :=
  for_each (λ g,
    refuse (negb (bool_decide (grantUseAggregateFromGrant g = wanted_aggregate g uses)))
      ErrUnsupportedState) grants.

(** The loop of [validateLoadedUseRecords]; [seen] holds the request identities read. *)
Fixpoint use_records_loop (grants : gmap string Grant) (seen : list string)
    (uses : list GrantUse) : result error unit :=
  match uses with
  | [] => Ok tt
  | u :: rest =>
    refuse (match grants !! use_GrantID u with
            | None => true
            | Some g => slices_Contains seen (use_RequestID u) || negb (validLoadedUse u g)
            end) ErrUnsupportedState ;;;
    use_records_loop grants (use_RequestID u :: seen) rest
  end.

(** [grantSnapshots], also the map [validateLoadedUses] builds. *)
Definition grantSnapshots (grants : list Grant) : gmap string Grant :=
  foldl (λ m g, <[grant_ID g := g]> m) ∅ grants.

Definition validateLoadedUses (grants : list Grant) (uses : list GrantUse) : result error unit :=
  use_records_loop (grantSnapshots grants) [] uses ;;;
  validateLoadedUseAggregates grants uses.

(** ** Loaded grants: grants.go *)

Definition validStoredStatus (s : Status) : bool :=
  match s with StatusOther _ => false | _ => true end.

Definition validGrantFailure (g : Grant) : bool :=
  if bool_decide (grant_Status g = StatusFailed) then
    activation_Known (grant_FailureCode g) && negb (time_is_zero (grant_FailedAt g))
    && (len (grant_FailureReference g) <=? 128)
    && (is_empty (grant_FailureReference g) || safeOperatorIdentity (grant_FailureReference g))
  else
    bool_decide (grant_FailureCode g = no_code) && is_empty (grant_FailureReference g)
    && time_is_zero (grant_FailedAt g).

Definition validGrantUsage (g : Grant) : bool :=
  (0 <=? grant_MaxUses g) && (0 <=? grant_RequestedMaxUses g) && (0 <=? grant_UsedCount g)
  && (0 <=? grant_ReservedCount g) && (grant_UsedCount g <=? grant_UseRevision g).

Definition validGrantReservation (g : Grant) : bool :=
  (grant_ReservedCount g =? 0)
  || (negb (time_is_zero (grant_ReservedAt g)) && (1 <=? grant_ReservationRevision g)).

Definition validGrantLifecycle (g : Grant) : bool :=
  validStoredStatus (grant_Status g) && validGrantFailure g && (1 <=? grant_Revision g)
  && negb (time_is_zero (grant_CreatedAt g)) && negb (time_is_zero (grant_PendingExpiresAt g))
  && (0 <? grant_Duration g) && (0 <? grant_RequestedDuration g) && (0 <? grant_PendingTimeout g).

Definition validGrantIdentity (g : Grant) (seen : list string) : bool :=
  negb (is_empty (grant_ID g)) && negb (slices_Contains seen (grant_ID g))
  && negb (is_empty (grant_Client g)) && negb (is_empty (grant_Operation g))
  && negb (is_empty (target_Kind (grant_Target g))) && negb (is_empty (grant_Reason g)).

Section loaded.
Context {R : MapRange}.

Definition unsupported {A} (r : result error A) : result error A :=
  match r with
  | Ok a => Ok a
  | Err e => Err (Errorf "%w: %w" [] [ErrUnsupportedState; e])
  end.

Definition validateLoadedGrantMaps (g : Grant) : result error unit :=
  unsupported (validateValueMap "target field" (target_Fields (grant_Target g))) ;;;
  unsupported (validateValueMap "attr" (grant_Attrs g)) ;;;
  unsupported (validateMetadata (grant_Metadata g)).

Definition validateLoadedGrant (g : Grant) (seen : list string) : result error unit :=
  refuse (negb (validGrantIdentity g seen) || negb (validGrantLifecycle g)
          || negb (validGrantUsage g) || negb (validGrantReservation g))
    ErrUnsupportedState ;;;
  validateLoadedGrantMaps g.

Fixpoint loaded_grants_loop (seen : list string) (items : list Grant) : result error unit :=
  match items with
  | [] => Ok tt
  | g :: rest =>
    validateLoadedGrant g seen ;;; loaded_grants_loop (grant_ID g :: seen) rest
  end.

Definition validateLoadedGrants (items : list Grant) : result error unit :=
  loaded_grants_loop [] items.

(** The loop of [normalizeLoadedEvents] and its final check. *)
Fixpoint events_loop (previous next : Z) (events : list EventRecord) : result error unit :=
  match events with
  | [] =>
    refuse ((next =? 0) || (next <=? previous))
      (errorf "grant lifecycle next event is invalid" [])
  | e :: rest =>
    refuse ((ev_Sequence e =? 0) || (ev_Sequence e <=? previous))
      (errorf "grant lifecycle events are not strictly ordered" []) ;;;
    events_loop (ev_Sequence e) next rest
  end.

Definition normalizeLoadedEvents (d : FileData) : result error unit :=
  events_loop 0 (fd_NextEvent d) (fd_Events d).

(** The checks of [Store.load] on what storage returned. *)
Definition validate_loaded (d : FileData) : result error FileData :=
  validateLoadedGrants (fd_Grants d) ;;;
  validateLoadedUses (fd_Grants d) (fd_Uses d) ;;;
  normalizeLoadedEvents d ;;;
  Ok d.
End loaded.
