(* ===== verification/GrantsLifecycle.v ===== *)
(** * Grant lifecycle: [authorization/grants/lifecycle.go] and [lifecycle_helpers.go]

    Expiry, stale reservations, the reconciliation that gives each changed
    grant its next revision and its events, the bounded event log and the pages
    read from it, and the next deadline of a store.  A definition that reads
    [Options.Now] is a computation in [Clocked], which counts the readings:
    the clock may advance between any two of them. *)

From S2P Require Export Cursor GrantsData.

Local Open Scope Z_scope.

(** ** The clock *)

Definition Clocked (A : Type) : Type := nat → A * nat.

#[export] Instance clocked_ret : MRet Clocked := λ A a t, (a, t).
#[export] Instance clocked_bind : MBind Clocked :=
  λ A B f m t, let '(a, t) := m t in f a t.

(** ** Pure steps *)

Definition useReservationIsStale (u : GrantUse) (g : Grant) (now : Time) (timeout : Duration)
  : bool :=
  bool_decide (use_State u = UseReserved) && reservationCanSettle (grant_Status g)
  && (time_is_zero (use_UpdatedAt u) || negb (time_before now (use_UpdatedAt u + timeout))).

Definition grantCanUse (g : Grant) (now : Time) : bool :=
  bool_decide (grant_Status g = StatusActive) && time_before now (grant_ExpiresAt g)
  && Allows (grant_MaxUses g) (grant_UsedCount g) (grant_ReservedCount g).

(** [Grant.toPolicyGrant]; the copies are the identity on values. *)
Definition toPolicyGrant (g : Grant) : PolicyGrant :=
  let '(usesLeft, finite) :=
    Remaining (grant_MaxUses g) (grant_UsedCount g) (grant_ReservedCount g) in
  MkPolicyGrant (grant_ID g) (grant_Client g) (grant_Operation g)
    (MkTarget (target_Kind (grant_Target g)) (target_Fields (grant_Target g)))
    (grant_Attrs g) (grant_ExpiresAt g) usesLeft (negb finite).

(** The body of the loop of [expireDue]: [None] is the [continue]. *)
Definition expire_grant (now : Time) (g : Grant) : option Grant :=
  match grant_Status g with
  | StatusPending =>
    if negb (time_before now (grant_PendingExpiresAt g))
    then Some (set_DecidedAt now (set_Status StatusExpired (set_ExpiredFrom (grant_Status g) g)))
    else None
  | StatusActive =>
    if negb (time_before now (grant_ExpiresAt g))
    then Some (set_Status StatusExpired (set_ExpiredFrom (grant_Status g) g))
    else None
  | _ => None
  end.

(** [expireDue] at the instant [now]. *)
Definition expire_at (now : Time) (d : FileData) : FileData * bool :=
  (set_Grants ((λ g, default g (expire_grant now g)) <$> fd_Grants d) d,
   existsb (λ g, bool_decide (is_Some (expire_grant now g))) (fd_Grants d)).

Definition use_is_stale (grants : list Grant) (now : Time) (timeout : Duration) (u : GrantUse)
  : bool :=
  match findGrant grants (use_GrantID u) with
  | Some (_, g) => useReservationIsStale u g now timeout
  | None => false
  end.

Definition retain_use (now : Time) (u : GrantUse) : GrantUse :=
  MkGrantUse (use_GrantID u) (use_RequestID u) (use_Operation u) UseRetained
    (use_Revision u + 1) (use_CreatedAt u) now (use_SettledAt u).

(** The map [changedGrants]: how many uses of each grant were retained. *)
Definition count_use (m : gmap string Z) (u : GrantUse) : gmap string Z :=
  <[use_GrantID u := default 0 (m !! use_GrantID u) + 1]> m.

Definition changed_grants (stale : list GrantUse) : gmap string Z := foldl count_use ∅ stale.

(** The body of the second loop of [retainStaleReservations]. *)
Definition refresh_grant (uses : list GrantUse) (grants : list Grant) (entry : string * Z)
  : list Grant :=
  match findGrant grants (fst entry) with
  | Some (index, g) =>
    <[index := aggregateGrantUses
                 (set_ReservationRevision (grant_ReservationRevision g + snd entry) g) uses]> grants
  | None => grants
  end.

(** ** Events *)

(** [statusEventKinds] *)
Definition statusEventKinds (before after : Grant) : list EventKind :=
  if bool_decide (grant_Status before = grant_Status after) then []
  else
    match grant_Status after with
    | StatusActive => [EventRequestApproved]
    | StatusDenied => [EventRequestDenied]
    | StatusFailed => [EventRequestFailed]
    | StatusCanceled => [EventRequestCanceled]
    | StatusExpired => [EventRequestExpired]
    | StatusRevoked => [EventGrantRevoked]
    | _ => []
    end.

(** [lifecycleKinds]; the first argument is the entry of the snapshot map. *)
Definition lifecycleKinds (before : option Grant) (after : Grant) : list EventKind :=
  match before with
  | None => [EventRequestCreated]
  | Some before =>
    statusEventKinds before after
    ++ (if grant_UsedCount before <? grant_UsedCount after then [EventGrantConsumed]
        else if grant_ReservedCount after <? grant_ReservedCount before
        then [EventGrantReleased] else [])
    ++ (if grant_ReservedCount before <? grant_ReservedCount after
        then [EventGrantReserved] else [])
    ++ (if negb (grant_ReservationRetained before) && grant_ReservationRetained after
        then [EventExecutionAmbiguous] else [])
  end.

(** The zero value of a [Grant], the [previous] of a grant that is new. *)
Definition zero_Grant : Grant :=
  MkGrant EmptyString EmptyString EmptyString EmptyString (MkTarget EmptyString ∅) ∅ ∅
    EmptyString no_status 0 0 0 0 0 0 0 0 EmptyString EmptyString no_code EmptyString 0
    0 0 0 0 0 false 0 0 0 false no_status.

(** [appendLifecycleEvent] at the instant [now]. *)
Definition append_event_at (maxEvents : Z) (now : Time) (kind : EventKind)
    (g previous : Grant) (d : FileData) : FileData :=
  let next := if fd_NextEvent d =? 0 then 1 else fd_NextEvent d in
  let record :=
    MkEventRecord next kind (grant_ID g) (grant_Status g) (grant_UsedCount g)
      (grant_ReservedCount g) (grant_Revision g) now (grant_DecidedBy g)
      (grant_Status previous) (grant_Revision previous)
      (if is_empty (grant_DecidedBy g) then 0 else grant_Revision previous) in
  let events := fd_Events d ++ [record] in
  let excess := Z.of_nat (length events) - maxEvents in
  set_Events (if 0 <? excess then drop (Z.to_nat excess) events else events) (next + 1) d.

(** The public form of an event. *)
Record Event : Type := MkEvent {
  event_Cursor : string;
  event_Kind : EventKind;
  event_GrantID : string;
  event_Status : Status;
  event_UsedCount : Z;
  event_ReservedCount : Z;
  event_Revision : Z;
  event_Time : Time
}.

Definition publicEvent (r : EventRecord) : Event :=
  MkEvent (encodeEventCursor (ev_Sequence r)) (ev_Kind r) (ev_GrantID r) (ev_Status r)
    (ev_UsedCount r) (ev_ReservedCount r) (ev_Revision r) (ev_Time r).

Record EventPage : Type := MkEventPage {
  page_Events : list Event;
  page_NextCursor : string;
  page_HasMore : bool
}.

Definition normalizeEventLimit (limit : Z) : result error Z :=
  if limit =? 0 then Ok 50
  else
    refuse ((limit <? 1) || (maxEventPageSize <? limit))
      (errorf "event limit must be between 1 and %d" []) ;;;
    Ok limit.

Definition normalizeEventRequest (cursor : string) (limit : Z) : result error (Z * Z) :=
  sequence ← decodeEventCursor cursor;
  limit ← normalizeEventLimit limit;
  Ok (sequence, limit).

Definition eventStartingSequence (events : list EventRecord) (cursor : string) (sequence : Z)
  : result error Z :=
  match events with
  | [] => Ok sequence
  | first :: _ =>
    if is_empty cursor then Ok (ev_Sequence first - 1)
    else
      refuse (sequence <? ev_Sequence first - 1) ErrCursorExpired ;;;
      Ok sequence
  end.

(** [eventPageAfter]: the loop stops once it holds [limit + 1] records. *)
Definition eventPageAfter (events : list EventRecord) (sequence limit : Z) : EventPage :=
  let records := take (S (Z.to_nat limit))
                   (filter (λ e, (sequence <? ev_Sequence e) = true) events) in
  let hasMore := limit <? Z.of_nat (length records) in
  let records := if hasMore then take (Z.to_nat limit) records else records in
  MkEventPage (publicEvent <$> records)
    (match last records with
     | Some r => encodeEventCursor (ev_Sequence r)
     | None => EmptyString
     end) hasMore.

(** [EventsAfter] on loaded data. *)
Definition events_after (d : FileData) (cursor : string) (limit : Z) : result error EventPage :=
  '(sequence, limit) ← normalizeEventRequest cursor limit;
  sequence ← eventStartingSequence (fd_Events d) cursor sequence;
  Ok (eventPageAfter (fd_Events d) sequence limit).

(** [LatestEvent] on loaded data. *)
Definition latest_event (d : FileData) (id : string) : result error Event :=
  match last (filter (λ e, String.eqb (ev_GrantID e) id = true) (fd_Events d)) with
  | Some e => Ok (publicEvent e)
  | None => Err ErrNotFound
  end.

Definition decisionEventForGrant (events : list Event) (id : string) : bool :=
  existsb (λ e, String.eqb (event_GrantID e) id
                && negb (bool_decide (event_Status e = StatusPending))) events.

(** ** Deadlines *)

Definition earlierDeadline (current candidate : Time) : Time :=
  if time_is_zero candidate || (negb (time_is_zero current) && negb (time_before candidate current))
  then current else candidate.

Definition grantLifecycleDeadline (g : Grant) : Time :=
  match grant_Status g with
  | StatusPending => grant_PendingExpiresAt g
  | StatusActive => grant_ExpiresAt g
  | _ => 0
  end.

Definition earliestGrantDeadline (grants : list Grant) : Time :=
  foldl (λ earliest g, earlierDeadline earliest (grantLifecycleDeadline g)) 0 grants.

Definition useLifecycleDeadline (o : Options) (u : GrantUse) (g : Grant) (now : Time) : Time :=
  if negb (bool_decide (use_State u = UseReserved)) || negb (reservationCanSettle (grant_Status g))
  then 0
  else if useReservationIsStale u g now (opts_ReservationTimeout o)
          || time_is_zero (use_UpdatedAt u)
  then now
  else use_UpdatedAt u + opts_ReservationTimeout o.

Fixpoint use_deadline_loop (o : Options) (grants : list Grant) (now earliest : Time)
    (uses : list GrantUse) : result error Time :=
  match uses with
  | [] => Ok earliest
  | u :: rest =>
    '(_, g) ← option_ok (findGrant grants (use_GrantID u)) ErrNotFound;
    use_deadline_loop o grants now
      (earlierDeadline earliest (useLifecycleDeadline o u g now)) rest
  end.

Definition earliestUseDeadline (o : Options) (d : FileData) (now earliest : Time)
  : result error Time := use_deadline_loop o (fd_Grants d) now earliest (fd_Uses d).

(** [nextLifecycleDelay] on loaded data: [None] means that nothing is due, ever. *)
Definition next_delay (o : Options) (d : FileData) (now : Time) : result error (option Duration) :=
  earliest ← earliestUseDeadline o d now (earliestGrantDeadline (fd_Grants d));
  Ok (if time_is_zero earliest then None else Some (Z.max (earliest - now) 0)).

Section lifecycle.
Context {R : MapRange} (clock : nat → Time) (o : Options).

(** [s.opts.Now().UTC()] *)
Definition now : Clocked Time := λ t, (clock t, S t).

Definition expireDue (d : FileData) : Clocked (FileData * bool) :=
  instant ← now; mret (expire_at instant d).

Definition retain_at (instant : Time) (d : FileData) : FileData * bool :=
  let stale := use_is_stale (fd_Grants d) instant (opts_ReservationTimeout o) in
  let uses := (λ u, if stale u then retain_use instant u else u) <$> fd_Uses d in
  let changed := changed_grants (filter (λ u, stale u = true) (fd_Uses d)) in
  (set_Grants (foldl (refresh_grant uses) (fd_Grants d) (map_range changed))
     (set_Uses uses d),
   negb (Nat.eqb (size changed) 0)).

Definition retainStaleReservations (d : FileData) : Clocked (FileData * bool) :=
  instant ← now; mret (retain_at instant d).

Definition prepareLifecycle (d : FileData) : Clocked (FileData * bool) :=
  '(d, expired) ← expireDue d;
  '(d, retained) ← retainStaleReservations d;
  mret (d, expired || retained).

Definition appendLifecycleEvent (d : FileData) (kind : EventKind) (g previous : Grant)
  : Clocked FileData :=
  instant ← now; mret (append_event_at (opts_MaxEvents o) instant kind g previous d).

Fixpoint append_events (d : FileData) (kinds : list EventKind) (g previous : Grant)
  : Clocked FileData :=
  match kinds with
  | [] => mret d
  | kind :: rest =>
    d ← appendLifecycleEvent d kind g previous;
    append_events d rest g previous
  end.

(** The revision a changed grant gets. *)
Definition next_revision (before : option Grant) : Z :=
  match before with Some previous => grant_Revision previous + 1 | None => 1 end.

(** The loop of [reconcileLifecycle] over the grants from an index on; the
    event log of [d] is the one that grows. *)
Fixpoint reconcile_from (before : gmap string Grant) (grants : list Grant) (d : FileData)
  : Clocked (list Grant * FileData * bool) :=
  match grants with
  | [] => mret ([], d, false)
  | g :: rest =>
    let previous := before !! grant_ID g in
    let kinds := lifecycleKinds previous g in
    if Nat.eqb (length kinds) 0 then
      '(rest, d, changed) ← reconcile_from before rest d;
      mret (g :: rest, d, changed)
    else
      let g := set_Revision (next_revision previous) g in
      d ← append_events d kinds g (default zero_Grant previous);
      '(rest, d, _) ← reconcile_from before rest d;
      mret (g :: rest, d, true)
  end.

(** [reconcileLifecycle] *)
Definition reconcileLifecycle (d : FileData) (before : gmap string Grant)
  : Clocked (FileData * bool) :=
  '(grants, d, changed) ← reconcile_from before (fd_Grants d) d;
  mret (set_Grants grants d, changed).
End lifecycle.

(** ** The shape of an event log *)

(** The sequence number after those of the log. *)
Definition next_sequence (events : list EventRecord) : Z :=
  match last events with Some e => ev_Sequence e + 1 | None => 1 end.

(** The log has dropped its oldest events, though not all, and gained new ones. *)
Definition log_extends (d d' : FileData) : Prop :=
  ∃ n added, fd_Events d' = drop n (fd_Events d) ++ added
    ∧ Forall (λ e, fd_NextEvent d <= ev_Sequence e) added
    ∧ fd_NextEvent d <= fd_NextEvent d'
    ∧ (fd_Events d ≠ [] → fd_Events d' ≠ []).

(** A record as it is made, without preserved texts. *)
Definition fresh_record (r : DecisionRecord) : Prop :=
  rec_resultJSON r = EmptyString ∧ rec_previousJSON r = EmptyString.

Definition records_extend (records records' : list DecisionRecord) : Prop :=
  ∃ added, records' = records ++ added ∧ Forall fresh_record added.
