(* ===== verification/GrantsStore.v ===== *)
(** * The grant store: [grants.go], [uses.go] and [client_actions.go]

    The operations of [Store] as state-passing computations over a [World]:
    what storage holds, the readings of the clock and of the identifier source
    so far, and the number of times the event channel was closed.  Each
    operation runs under the store's mutex, so it is one atomic step of the
    world; two operations interleave only as whole steps.

    Storage is an interface, [GrantStorage]: a file of JSON or the SQLite
    database, read by [loadRaw] and replaced by [saveRaw].  [GrantStorageLaws]
    states what the store relies on; GrantsHistory has one in memory, GrantsSQLite the database. *)

From S2P Require Export GrantsLifecycle.

Local Open Scope Z_scope.

(** ** Storage *)

Class GrantStorage : Type := {
  Storage : Type;
  (** [state.PlanRecord], opaque here. *)
  PlanRecord : Type;
  loadRaw : Storage → result error FileData;
  saveRaw : Storage → FileData → option PlanRecord → result error unit * Storage;
  (** A decision record once it has been written and read again: storage may
      take its failure from its result and add the preserved texts. *)
  reread : DecisionRecord → DecisionRecord
}.

(** What is read back after [d] was written: rows come back in any order. *)
Record stored_as `{GS : GrantStorage} (d d' : FileData) : Prop := {
  stored_Grants : fd_Grants d' ≡ₚ fd_Grants d;
  stored_Uses : fd_Uses d' ≡ₚ fd_Uses d;
  stored_Events : fd_Events d' = fd_Events d;
  stored_NextEvent : fd_NextEvent d' = fd_NextEvent d;
  stored_DecisionRecords : fd_DecisionRecords d' ≡ₚ reread <$> fd_DecisionRecords d
}.

(** Data that may be written over [d0]: identities are unique, the log runs
    up to the next sequence number, and log and records continue those of [d0]. *)
Record writable (d0 d : FileData) : Prop := {
  wr_Grants : NoDup (grant_ID <$> fd_Grants d);
  wr_Uses : NoDup (use_RequestID <$> fd_Uses d);
  wr_Scopes : NoDup (rec_Scope <$> fd_DecisionRecords d);
  wr_sorted : StronglySorted Z.lt (ev_Sequence <$> fd_Events d);
  wr_NextEvent : fd_NextEvent d = next_sequence (fd_Events d);
  wr_log : log_extends d0 d;
  wr_records : records_extend (fd_DecisionRecords d0) (fd_DecisionRecords d)
}.

(** A write that succeeds is what the next read sees; one that fails left the
    old state or, when only its acknowledgement was lost, the new one. *)
Class GrantStorageLaws `{GS : GrantStorage} : Prop := {
  save_ok_load s d0 d plan s' :
    loadRaw s = Ok d0 → writable d0 d → saveRaw s d plan = (Ok tt, s') →
    ∃ d', loadRaw s' = Ok d' ∧ stored_as d d';
  save_err_load s d0 d plan e s' :
    loadRaw s = Ok d0 → writable d0 d → saveRaw s d plan = (Err e, s') →
    loadRaw s' = loadRaw s ∨ ∃ d', loadRaw s' = Ok d' ∧ stored_as d d';
  load_reread s d : loadRaw s = Ok d → ∀ r, r ∈ fd_DecisionRecords d → reread r = r;
  reread_Scope r : rec_Scope (reread r) = rec_Scope r;
  reread_CommandHash r : rec_CommandHash (reread r) = rec_CommandHash r;
  reread_Result r : rec_Result (reread r) = rec_Result r;
  reread_Previous r : rec_Previous (reread r) = rec_Previous r;
  reread_EventCursor r : rec_EventCursor (reread r) = rec_EventCursor r;
  reread_FailureCode r :
    rec_FailureCode (reread r) = rec_FailureCode r
    ∨ rec_FailureCode (reread r) = grant_FailureCode (rec_Result r)
}.

(** ** Pure mutations of the loaded data *)

(** [revoke] and the body of [closeForClient] once the grant has been found. *)
Definition close_grant (status : Status) (now : Time) (by_whom : string) (g : Grant) : Grant :=
  set_DecidedBy by_whom (set_DecidedAt now (set_Status status g)).

Definition reserved_use (grantID requestID operation : string) (now : Time) : GrantUse :=
  MkGrantUse grantID requestID operation UseReserved 1 now now 0.

(** A released use that is reserved again. *)
Definition reserve_again (now : Time) (u : GrantUse) : GrantUse :=
  MkGrantUse (use_GrantID u) (use_RequestID u) (use_Operation u) UseReserved
    (use_Revision u + 1) (use_CreatedAt u) now 0.

Definition settle_use (target : UseState) (now : Time) (u : GrantUse) : GrantUse :=
  MkGrantUse (use_GrantID u) (use_RequestID u) (use_Operation u) target
    (use_Revision u + 1) (use_CreatedAt u) now
    (if useStateSettled target then now else use_SettledAt u).

Definition bump_reservation (g : Grant) : Grant :=
  set_ReservationRevision (grant_ReservationRevision g + 1) g.

Definition bump_use (g : Grant) : Grant := set_UseRevision (grant_UseRevision g + 1) g.

(** [settleGrantUse] *)
Definition settleGrantUse (g : Grant) : Grant :=
  if Exhausted (grant_MaxUses g) (grant_UsedCount g)
     && negb (bool_decide (grant_Status g = StatusRevoked))
  then set_ExpiredFrom no_status (set_Status StatusConsumed g) else g.

(** [useCanSettle] *)
Definition useCanSettle (u : GrantUse) (g : Grant) (target : UseState) : result error bool :=
  if bool_decide (use_State u = target) then Ok false
  else
    refuse (useStateSettled (use_State u)) ErrUseSettled ;;;
    refuse (negb (reservationCanSettle (grant_Status g))) ErrNotActive ;;;
    Ok true.

(** [applyUseSettlement] at the instant [now]. *)
Definition apply_settlement (d : FileData) (useIndex grantIndex : nat) (u : GrantUse) (g : Grant)
    (target : UseState) (now : Time) : FileData :=
  let uses := <[useIndex := settle_use target now u]> (fd_Uses d) in
  let g := bump_reservation g in
  let g := if bool_decide (target = UseCommitted) then bump_use g else g in
  set_Grants (<[grantIndex := settleGrantUse (aggregateGrantUses g uses)]> (fd_Grants d))
    (set_Uses uses d).

(** [useReservationFromData] *)
Definition useReservationFromData (d : FileData) (grantID requestID : string)
  : result error (Grant * GrantUse) :=
  '(_, g) ← option_ok (findGrant (fd_Grants d) grantID) ErrNotFound;
  match findUse (fd_Uses d) requestID with
  | Some u => if String.eqb (use_GrantID u) grantID then Ok (g, u) else Err ErrUseIdentityConflict
  | None => Err ErrUseIdentityConflict
  end.

Section store.
Context {R : MapRange} {GS : GrantStorage} (clock : nat → Time)
  (new_id : nat → result error string) (o : Options).

(** ** The world of a store *)

Record World : Type := MkWorld {
  w_storage : Storage;
  w_tick : nat;
  w_ids : nat;
  w_signals : nat
}.

(** A computation that may read the clock, draw an identifier, read and write
    storage and signal waiters. *)
Definition Eff (A : Type) : Type := World → A * World.

#[export] Instance eff_ret : MRet Eff := λ A a w, (a, w).
#[export] Instance eff_bind : MBind Eff := λ A B f m w, let '(a, w) := m w in f a w.

Definition clocked {A} (m : Clocked A) : Eff A := λ w,
  let '(a, tick) := m (w_tick w) in
  (a, MkWorld (w_storage w) tick (w_ids w) (w_signals w)).

(** [s.opts.NewID(16)] *)
Definition newID : Eff (result error string) := λ w,
  (new_id (w_ids w), MkWorld (w_storage w) (w_tick w) (S (w_ids w)) (w_signals w)).

(** [Store.load] *)
Definition load : Eff (result error FileData) := λ w,
  (d ← loadRaw (w_storage w); validate_loaded d, w).

(** [saveWithPlan] *)
Definition saveWithPlan (d : FileData) (plan : option PlanRecord) : Eff (result error unit) :=
  λ w, let '(r, s) := saveRaw (w_storage w) d plan in
       (r, MkWorld s (w_tick w) (w_ids w) (w_signals w)).

Definition save (d : FileData) : Eff (result error unit) := saveWithPlan d None.

(** [signalNewEvents] *)
Definition signalNewEvents (before after : Z) : Eff unit := λ w,
  (tt, if before =? after then w
       else MkWorld (w_storage w) (w_tick w) (w_ids w) (S (w_signals w))).

(** Continue with the value of a fallible step, or stop with its error. *)
Definition and_then {A B} (m : Eff (result error A)) (f : A → Eff (result error B))
  : Eff (result error B) :=
  r ← m; match r with Ok a => f a | Err e => mret (Err e) end.

(** ** The update transaction *)

(** A mutator sees the prepared data and returns the data it leaves, also
    when it fails. *)
Definition Mutator (A : Type) : Type := FileData → Eff (FileData * result error A).

(** [updateWithPlan] *)
Definition updateWithPlan {A} (plan : option PlanRecord) (mutator : Mutator A)
  : Eff (result error A) :=
  and_then load (λ d,
    let before := grantSnapshots (fd_Grants d) in
    let eventSequence := fd_NextEvent d in
    '(d, changed) ← clocked (prepareLifecycle clock o d);
    '(d, r) ← mutator d;
    match r with
    | Err err =>
      '(d, reconciled) ← clocked (reconcileLifecycle clock o d before);
      if reconciled || changed then
        saved ← save d;
        match saved with
        | Ok _ => signalNewEvents eventSequence (fd_NextEvent d);; mret (Err (ErrorJoin [err]))
        | Err saveErr => mret (Err (ErrorJoin [err; saveErr]))
        end
      else mret (Err err)
    | Ok a =>
      '(d, _) ← clocked (reconcileLifecycle clock o d before);
      and_then (saveWithPlan d plan) (λ _,
        signalNewEvents eventSequence (fd_NextEvent d);; mret (Ok a))
    end).

Definition update {A} (mutator : Mutator A) : Eff (result error A) :=
  updateWithPlan None mutator.

(** A read that first expires what is due and saves when that changed
    anything; [prepare] is [expireDue] or [prepareLifecycle], and [select]
    picks the result before the save. *)
Definition read_prepared {A} (prepare : FileData → Clocked (FileData * bool))
    (select : FileData → Eff (result error A)) : Eff (result error A) :=
  and_then load (λ d,
    let before := grantSnapshots (fd_Grants d) in
    let eventSequence := fd_NextEvent d in
    '(d, changed) ← clocked (prepare d);
    '(d, reconciled) ← clocked (reconcileLifecycle clock o d before);
    and_then (select d) (λ a,
      if reconciled || changed then
        and_then (save d) (λ _,
          signalNewEvents eventSequence (fd_NextEvent d);; mret (Ok a))
      else mret (Ok a))).

(** ** Reads *)

(** [Store.Get] *)
Definition Get (id : string) : Eff (result error Grant) :=
  read_prepared (expireDue clock)
    (λ d, mret ('(_, g) ← option_ok (findGrant (fd_Grants d) id) ErrNotFound; Ok g)).

(** [Store.List] *)
Definition List_ : Eff (result error (list Grant)) :=
  read_prepared (expireDue clock) (λ d, mret (Ok (fd_Grants d))).

(** [Store.ListForClient] *)
Definition ListForClient (client : string) : Eff (result error (list Grant)) :=
  and_then List_ (λ grants,
    mret (Ok (filter (λ g, String.eqb (grant_Client g) client = true) grants))).

(** [Store.ActivePolicyGrants] *)
Definition ActivePolicyGrants : Eff (result error (list PolicyGrant)) :=
  read_prepared (expireDue clock) (λ d,
    instant ← clocked (now clock);
    mret (Ok (toPolicyGrant <$> filter (λ g, grantCanUse g instant = true) (fd_Grants d)))).

(** [Store.GetUse] *)
Definition GetUse (grantID requestID : string) : Eff (result error (Grant * GrantUse)) :=
  read_prepared (prepareLifecycle clock o)
    (λ d, mret (useReservationFromData d grantID requestID)).

(** [Store.ListUses] *)
Definition ListUses (grantID : string) : Eff (result error (list GrantUse)) :=
  and_then load (λ d, mret (
    _ ← option_ok (findGrant (fd_Grants d) grantID) ErrNotFound;
    Ok (filter (λ u, String.eqb (use_GrantID u) grantID = true) (fd_Uses d)))).

(** [Store.EventsAfter] and [Store.LatestEvent] *)
Definition EventsAfter (cursor : string) (limit : Z) : Eff (result error EventPage) :=
  match normalizeEventRequest cursor limit with
  | Err e => mret (Err e)
  | Ok _ => and_then load (λ d, mret (events_after d cursor limit))
  end.

Definition LatestEvent (id : string) : Eff (result error Event) :=
  and_then load (λ d, mret (latest_event d id)).

(** [nextLifecycleDelay] *)
Definition nextLifecycleDelay : Eff (result error (option Duration)) :=
  and_then load (λ d, instant ← clocked (now clock); mret (next_delay o d instant)).

(** [reconcileDueLifecycle] *)
Definition reconcileDueLifecycle : Eff (result error unit) :=
  and_then load (λ d,
    let before := grantSnapshots (fd_Grants d) in
    let eventSequence := fd_NextEvent d in
    '(d, prepared) ← clocked (prepareLifecycle clock o d);
    if negb prepared then mret (Ok tt)
    else
      '(d, reconciled) ← clocked (reconcileLifecycle clock o d before);
      if negb reconciled then mret (Ok tt)
      else and_then (save d) (λ _,
             signalNewEvents eventSequence (fd_NextEvent d);; mret (Ok tt))).

(** ** Requests *)

(** What [Store.request] returns: the grant, whether it was created, the error. *)
Record RequestOutcome : Type := MkRequestOutcome {
  out_Grant : Grant;
  out_created : bool;
  out_err : option error
}.

Definition request_mutator (req : GrantRequest) : Mutator (Grant * bool) := λ d,
  '(d, _) ← clocked (expireDue clock d);
  match findIdempotent (fd_Grants d) req with
  | Some existing =>
    mret (d, if sameRequest existing req then Ok (existing, false)
             else Err ErrIdempotencyConflict)
  | None =>
    if negb (pendingCapacityAvailable o (fd_Grants d) (req_Client req))
    then mret (d, Err ErrCapacity)
    else
      id ← newID;
      match id with
      | Err e => mret (d, Err e)
      | Ok id =>
        instant ← clocked (now clock);
        let g := newGrant req id instant in
        mret (set_Grants (fd_Grants d ++ [g]) d, Ok (g, true))
      end
  end.

(** [Store.request] *)
Definition request (req : GrantRequest) (plan : option PlanRecord) : Eff RequestOutcome :=
  match normalizeGrantRequest o req with
  | Err e => mret (MkRequestOutcome zero_Grant false (Some e))
  | Ok req =>
    r ← updateWithPlan plan (request_mutator req);
    match r with
    | Err e => mret (MkRequestOutcome zero_Grant false (Some e))
    | Ok (g, created) =>
      if is_empty (grant_ID g) then mret (MkRequestOutcome g created None)
      else
        r ← Get (grant_ID g);
        mret (match r with
              | Ok g => MkRequestOutcome g created None
              | Err e => MkRequestOutcome zero_Grant created (Some e)
              end)
    end
  end.

(** [Store.Request] *)
Definition Store_Request (req : GrantRequest) : Eff RequestOutcome := request req None.

(** ** Closing a grant *)

Definition revoke_mutator (id approver : string) : Mutator Grant := λ d,
  match findGrant (fd_Grants d) id with
  | None => mret (d, Err ErrNotFound)
  | Some (index, g) =>
    if negb (bool_decide (grant_Status g = StatusActive)) then mret (d, Err ErrNotActive)
    else
      instant ← clocked (now clock);
      let g := close_grant StatusRevoked instant approver g in
      mret (set_Grants (<[index := g]> (fd_Grants d)) d, Ok g)
  end.

(** [Store.Revoke] *)
Definition Revoke (id approver : string) : Eff (result error Grant) :=
  and_then (update (revoke_mutator id approver)) (λ g,
    if is_empty (grant_ID g) then mret (Ok g) else Get (grant_ID g)).

Definition close_mutator (id client : string) (required next : Status) : Mutator Grant := λ d,
  match findGrant (fd_Grants d) id with
  | None => mret (d, Err ErrNotFound)
  | Some (index, g) =>
    if negb (String.eqb (grant_Client g) client) then mret (d, Err ErrNotFound)
    else if negb (bool_decide (grant_Status g = required)) then
      mret (d, Err (if bool_decide (required = StatusPending) then ErrNotPending
                    else ErrNotActive))
    else
      instant ← clocked (now clock);
      let g := close_grant next instant client g in
      mret (set_Grants (<[index := g]> (fd_Grants d)) d, Ok g)
  end.

Definition closeForClient (id client : string) (required next : Status)
  : Eff (result error Grant) := update (close_mutator id client required next).

Definition CancelForClient (id client : string) : Eff (result error Grant) :=
  closeForClient id client StatusPending StatusCanceled.

Definition RevokeForClient (id client : string) : Eff (result error Grant) :=
  closeForClient id client StatusActive StatusRevoked.

(** ** Uses *)

Definition reserveExistingUse (d : FileData) (useIndex : nat) (u : GrantUse)
    (grantID operation : string) : Eff (FileData * result error bool) :=
  if negb (String.eqb (use_GrantID u) grantID) || negb (String.eqb (use_Operation u) operation)
  then mret (d, Err ErrUseIdentityConflict)
  else if negb (bool_decide (use_State u = UseReleased)) then mret (d, Ok false)
  else
    match findGrant (fd_Grants d) grantID with
    | None => mret (d, Err ErrNotFound)
    | Some (grantIndex, g) =>
      instant ← clocked (now clock);
      if negb (grantCanUse g instant) then mret (d, Err ErrNotActive)
      else
        let uses := <[useIndex := reserve_again instant u]> (fd_Uses d) in
        let g := aggregateGrantUses (bump_reservation g) uses in
        mret (set_Grants (<[grantIndex := g]> (fd_Grants d)) (set_Uses uses d), Ok true)
    end.

Definition reserveNewUse (d : FileData) (grantID requestID operation : string)
  : Eff (FileData * result error bool) :=
  match findGrant (fd_Grants d) grantID with
  | None => mret (d, Err ErrNotFound)
  | Some (grantIndex, g) =>
    if negb (String.eqb (grant_Operation g) operation)
    then mret (d, Err ErrUseIdentityConflict)
    else
      instant ← clocked (now clock);
      if negb (grantCanUse g instant) then mret (d, Err ErrNotActive)
      else
        let uses := fd_Uses d ++ [reserved_use grantID requestID operation instant] in
        let g := aggregateGrantUses (bump_reservation g) uses in
        mret (set_Grants (<[grantIndex := g]> (fd_Grants d)) (set_Uses uses d), Ok true)
  end.

Definition reserveUse (grantID requestID operation : string) : Mutator bool := λ d,
  match findUseIndex (fd_Uses d) requestID with
  | Some (useIndex, existing) => reserveExistingUse d useIndex existing grantID operation
  | None => reserveNewUse d grantID requestID operation
  end.

(** [Store.ReserveUse]: the grant, the use and whether this call acquired it. *)
Definition ReserveUse (grantID requestID operation : string)
  : Eff (result error (Grant * GrantUse * bool)) :=
  if negb (validUseIdentity grantID requestID operation)
  then mret (Err ErrUseIdentityConflict)
  else
    and_then (update (reserveUse grantID requestID operation)) (λ created,
      and_then (GetUse grantID requestID) (λ result, mret (Ok (result, created)))).

Definition settleStoredUse (grantID requestID : string) (target : UseState) : Mutator unit :=
  λ d,
  match findUseIndex (fd_Uses d) requestID with
  | None => mret (d, Err ErrUseIdentityConflict)
  | Some (useIndex, u) =>
    if negb (String.eqb (use_GrantID u) grantID) then mret (d, Err ErrUseIdentityConflict)
    else
      match findGrant (fd_Grants d) grantID with
      | None => mret (d, Err ErrNotFound)
      | Some (grantIndex, g) =>
        match useCanSettle u g target with
        | Err e => mret (d, Err e)
        | Ok false => mret (d, Ok tt)
        | Ok true =>
          instant ← clocked (now clock);
          mret (apply_settlement d useIndex grantIndex u g target instant, Ok tt)
        end
      end
  end.

(** [Store.settleUse] and its three callers *)
Definition settleUse (grantID requestID : string) (target : UseState)
  : Eff (result error (Grant * GrantUse)) :=
  if is_empty grantID || is_empty requestID || negb (validUseState target)
  then mret (Err ErrUseIdentityConflict)
  else and_then (update (settleStoredUse grantID requestID target))
         (λ _, GetUse grantID requestID).

Definition CommitUse (grantID requestID : string) := settleUse grantID requestID UseCommitted.
Definition ReleaseUse (grantID requestID : string) := settleUse grantID requestID UseReleased.
Definition RetainUse (grantID requestID : string) := settleUse grantID requestID UseRetained.

(** ** Execution outcomes *)

Definition record_mutator (id : string) (kind : EventKind) : Mutator Event := λ d,
  match findGrant (fd_Grants d) id with
  | None => mret (d, Err ErrNotFound)
  | Some (_, g) =>
    d ← clocked (appendLifecycleEvent clock o d kind g g);
    mret (d, match last (fd_Events d) with
             | Some e => Ok (publicEvent e)
             | None => Err (ErrorExternal "index out of range")
             end)
  end.

(** [Store.RecordExecution] *)
Definition RecordExecution (id : string) (kind : EventKind) : Eff (result error Event) :=
  match kind with
  | EventExecutionSucceeded | EventExecutionFailed | EventExecutionAmbiguous =>
    update (record_mutator id kind)
  | _ => mret (Err (errorf "invalid execution event kind" []))
  end.
End store.
