(* ===== verification/GrantsDecisions.v ===== *)
(** * Operator decisions: [v1_decisions.go] and [operator_decisions.go]

    Revision-bound approve, deny and revoke commands, their idempotent replay,
    and the approval check that runs under the store lock.  The digest of a
    command (SHA-256 of its JSON) is an argument. *)

From S2P Require Export GrantsStore.
From Stdlib Require Import Ascii.

Local Open Scope Z_scope.

(** [ApprovalConstraints] *)
Record ApprovalConstraints : Type := MkApprovalConstraints {
  ac_Duration : Duration;
  ac_MaxUses : Limit;
  ac_MaxUsesSpecified : bool
}.

(** [OperatorDecision] *)
Record OperatorDecision : Type := MkOperatorDecision {
  cmd_ID : string;
  cmd_Action : DecisionAction;
  cmd_Approver : string;
  cmd_OnBehalfOf : string;
  cmd_ExpectedRevision : Z;
  cmd_IdempotencyKey : string;
  cmd_Constraints : ApprovalConstraints;
  cmd_CorrelationID : string
}.

(** [OperatorDecisionResult] *)
Record OperatorDecisionResult : Type := MkOperatorDecisionResult {
  res_Grant : Grant;
  res_Previous : Grant;
  res_EventCursor : string;
  res_Replay : bool
}.

Definition zero_result : OperatorDecisionResult :=
  MkOperatorDecisionResult zero_Grant zero_Grant EmptyString false.

(** ** Normalization *)

Definition constraintUseLimitSpecified (c : ApprovalConstraints) : bool :=
  ac_MaxUsesSpecified c || IsFinite (ac_MaxUses c).

Definition validOperatorConstraints (c : OperatorDecision) : bool :=
  bool_decide (cmd_Action c = ActionApprove)
  || ((ac_Duration (cmd_Constraints c) =? 0)
      && negb (constraintUseLimitSpecified (cmd_Constraints c))).

Definition operatorDecisionRequired (c : OperatorDecision) : bool :=
  negb (is_empty (cmd_ID c)) && negb (is_empty (cmd_Approver c))
  && (1 <=? cmd_ExpectedRevision c) && negb (is_empty (cmd_IdempotencyKey c)).

Definition validOperatorDecisionIdentities (c : OperatorDecision) : bool :=
  (len (cmd_IdempotencyKey c) <=? 200) && safeOperatorIdentity (cmd_IdempotencyKey c)
  && safeOperatorIdentity (cmd_Approver c)
  && (is_empty (cmd_OnBehalfOf c) || safeOperatorIdentity (cmd_OnBehalfOf c)).

Definition validOperatorDecisionReferences (c : OperatorDecision) : bool :=
  (len (cmd_CorrelationID c) <=? 128)
  && (is_empty (cmd_CorrelationID c) || safeOperatorIdentity (cmd_CorrelationID c)).

Definition validOperatorDecisionText (c : OperatorDecision) : bool :=
  validOperatorDecisionIdentities c && validOperatorDecisionReferences c.

Definition validOperatorAction (a : DecisionAction) : bool :=
  slices_Contains [ActionApprove; ActionDeny; ActionRevoke] a.

(** [normalizeOperatorDecision] *)
Definition normalizeOperatorDecision (c : OperatorDecision) : result error OperatorDecision :=
  let c := MkOperatorDecision (trim_space (cmd_ID c)) (cmd_Action c)
             (trim_space (cmd_Approver c)) (trim_space (cmd_OnBehalfOf c))
             (cmd_ExpectedRevision c) (trim_space (cmd_IdempotencyKey c))
             (cmd_Constraints c) (trim_space (cmd_CorrelationID c)) in
  refuse (negb (operatorDecisionRequired c))
    (Errorf "%w: id, approver, revision, and idempotency key are required" []
       [ErrInvalidCommand]) ;;;
  refuse (negb (validOperatorDecisionText c) || negb (validOperatorAction (cmd_Action c)))
    ErrInvalidCommand ;;;
  refuse (negb (validOperatorConstraints c)) ErrInvalidCommand ;;;
  Ok c.

Definition action_text (a : DecisionAction) : string :=
  match a with
  | ActionApprove => "approve" | ActionDeny => "deny" | ActionRevoke => "revoke"
  | ActionOther text => text
  end.

Definition nul : string := String "000" EmptyString.

(** [decisionScope] *)
Definition decisionScope (c : OperatorDecision) : string :=
  cmd_ID c +:+ nul +:+ action_text (cmd_Action c) +:+ nul +:+ cmd_IdempotencyKey c.

(** ** Mutations *)

(** [requestedApprovalBounds] *)
Definition requestedApprovalBounds (g : Grant) : Duration * Limit :=
  (if grant_RequestedDuration g <=? 0 then grant_Duration g else grant_RequestedDuration g,
   if grant_RequestedMaxUses g <? 0 then grant_MaxUses g else grant_RequestedMaxUses g).

Definition validApprovalConstraints (c : ApprovalConstraints) (duration : Duration)
    (maxUses : Limit) : bool :=
  if (ac_Duration c <? 0) || (duration <? ac_Duration c) || (ac_MaxUses c <? 0) then false
  else if negb (constraintUseLimitSpecified c) then true
  else if IsUnlimited (ac_MaxUses c) then IsUnlimited maxUses
  else IsUnlimited maxUses || (ac_MaxUses c <=? maxUses).

Definition applyApprovalConstraints (g : Grant) (c : ApprovalConstraints) : Grant :=
  let g := if 0 <? ac_Duration c then set_Duration (ac_Duration c) g else g in
  if constraintUseLimitSpecified c then set_MaxUses (ac_MaxUses c) g else g.

(** An [ActivationCheck]: a callback of the broker; [None] is the nil error. *)
Definition ActivationCheck : Type := Grant → ApprovalConstraints → option error.

(** [applyApprovalMutation] *)
Definition applyApprovalMutation (g : Grant) (c : ApprovalConstraints)
    (validate : option ActivationCheck) (now : Time) : result error Grant :=
  refuse (negb (bool_decide (grant_Status g = StatusPending))) ErrInvalidTransition ;;;
  let '(duration, maxUses) := requestedApprovalBounds g in
  refuse (negb (validApprovalConstraints c duration maxUses)) ErrConstraintExceeded ;;;
  match validate with
  | Some check => match check g c with Some e => Err e | None => Ok tt end
  | None => Ok tt
  end ;;;
  let g := applyApprovalConstraints g c in
  Ok (set_ExpiresAt (now + grant_Duration g) (set_Status StatusActive g)).

(** [terminalDecisionTransition]: the next and the required status. *)
Definition terminalDecisionTransition (a : DecisionAction) : option (Status * Status) :=
  match a with
  | ActionDeny => Some (StatusDenied, StatusPending)
  | ActionRevoke => Some (StatusRevoked, StatusActive)
  | _ => None
  end.

Definition applyTerminalDecisionAction (g : Grant) (a : DecisionAction) : result error Grant :=
  '(status, required) ← option_ok (terminalDecisionTransition a) ErrInvalidCommand;
  refuse (negb (bool_decide (grant_Status g = required))) ErrInvalidTransition ;;;
  Ok (set_Status status g).

Definition applyDecisionAction (g : Grant) (c : OperatorDecision)
    (validate : option ActivationCheck) (now : Time) : result error Grant :=
  if bool_decide (cmd_Action c = ActionApprove)
  then applyApprovalMutation g (cmd_Constraints c) validate now
  else applyTerminalDecisionAction g (cmd_Action c).

(** [terminalActivationFailure] *)
Definition terminalActivationFailure (e : error) : option Failure :=
  failure ← activation_As (Some e);
  if failure_Retryable failure then None
  else
    match failure_Code failure with
    | CodePlanUnavailable | CodePlanMismatch | CodeCredentialChanged
    | CodeCredentialInsufficient => Some failure
    | _ => None
    end.

Definition decided (c : OperatorDecision) (now : Time) (g : Grant) : Grant :=
  set_DecidedOnBehalfOf (cmd_OnBehalfOf c) (set_DecidedBy (cmd_Approver c)
    (set_DecidedAt now g)).

(** [failedActivationGrant] *)
Definition failedActivationGrant (g : Grant) (c : OperatorDecision) (now : Time) (f : Failure)
  : Grant :=
  set_FailedAt now (set_FailureReference (cmd_CorrelationID c)
    (set_FailureCode (failure_Code f) (decided c now (set_Status StatusFailed g)))).

(** [applyDecisionMutation] at the instant [now]: the updated grant and the
    error that goes with it. *)
Definition applyDecisionMutation (g : Grant) (c : OperatorDecision)
    (validate : option ActivationCheck) (now : Time) : Grant * option error :=
  match applyDecisionAction g c validate now with
  | Err e =>
    match terminalActivationFailure e with
    | Some f =>
      (failedActivationGrant g c now f,
       Some (ErrorFailure (failure_Code f) (failure_Stage f) (failure_Retryable f) None))
    | None => (g, Some e)
    end
  | Ok updated => (decided c now updated, None)
  end.

Definition findDecisionRecord (records : list DecisionRecord) (scope : string)
  : option DecisionRecord := find (λ r, String.eqb (rec_Scope r) scope) records.

(** [replayOperatorDecision]: [None] when no record has the scope. *)
Definition replayOperatorDecision (records : list DecisionRecord) (scope hash : string)
  : option (OperatorDecisionResult * option error) :=
  record ← findDecisionRecord records scope;
  if negb (String.eqb (rec_CommandHash record) hash)
  then Some (zero_result, Some ErrIdempotencyConflict)
  else
    let result := MkOperatorDecisionResult (rec_Result record) (rec_Previous record)
                    (rec_EventCursor record) true in
    if bool_decide (rec_FailureCode record = no_code) then Some (result, None)
    else Some (result, Some (activation_New (rec_FailureCode record) None)).

(** [resolveOperatorDecisionGrant] *)
Definition resolveOperatorDecisionGrant (values : list Grant) (c : OperatorDecision)
  : result (Grant * error) (nat * Grant) :=
  match findGrant values (cmd_ID c) with
  | None => Err (zero_Grant, ErrNotFound)
  | Some (index, current) =>
    if negb (cmd_ExpectedRevision c =? grant_Revision current)
    then Err (current, ErrorRevisionConflict current)
    else Ok (index, current)
  end.

Definition currentEventCursor (d : FileData) : string :=
  if fd_NextEvent d <=? 1 then EmptyString else encodeEventCursor (fd_NextEvent d - 1).

Definition grantSnapshotsWith (before : gmap string Grant) (current : Grant) : gmap string Grant :=
  <[grant_ID current := current]> before.

Section decisions.
Context {R : MapRange} {GS : GrantStorage} (clock : nat → Time) (o : Options).
(** [json.Marshal] then SHA-256 then base64 of a command; the correlation
    identifier is not part of the JSON. *)
Context (command_digest : OperatorDecision → string).

Definition hashOperatorDecision (c : OperatorDecision) : string :=
  command_digest (MkOperatorDecision (cmd_ID c) (cmd_Action c) (cmd_Approver c)
    (cmd_OnBehalfOf c) (cmd_ExpectedRevision c) (cmd_IdempotencyKey c) (cmd_Constraints c)
    EmptyString).

(** [prepareOperatorDecision] after the load: the data, the snapshots taken
    before the lifecycle step, and whether that step changed anything. *)
Definition prepare_decision (d : FileData)
  : Eff (FileData * gmap string Grant * Z * bool) :=
  let before := grantSnapshots (fd_Grants d) in
  let eventSequence := fd_NextEvent d in
  '(d, lifecycleChanged) ← clocked (prepareLifecycle clock o d);
  if (lifecycleChanged : bool) then
    '(d, _) ← clocked (reconcileLifecycle clock o d before);
    mret (d, before, eventSequence, true)
  else mret (d, before, eventSequence, false).

(** [persistOperatorDecision] *)
Definition persistOperatorDecision (d : FileData) (eventSequence : Z) : Eff (option error) :=
  saved ← save d;
  match saved with
  | Err e => mret (Some (activation_New CodeStorageUnavailable (Some e)))
  | Ok _ => signalNewEvents eventSequence (fd_NextEvent d);; mret None
  end.

(** [saveDecisionError] *)
Definition saveDecisionError (d : FileData) (eventSequence : Z) (lifecycleChanged : bool)
    (commandErr : option error) : Eff (option error) :=
  if lifecycleChanged then
    persisted ← persistOperatorDecision d eventSequence;
    mret (match persisted with
          | Some e => errors_Join commandErr (Some e)
          | None => commandErr
          end)
  else mret commandErr.

(** [reconcileOperatorMutation] *)
Definition reconcileOperatorMutation (d : FileData) (before : gmap string Grant)
    (current : Grant) (lifecycleChanged : bool) : Eff FileData :=
  '(d, _) ← clocked (reconcileLifecycle clock o d
              (if lifecycleChanged then grantSnapshotsWith before current else before));
  mret d.

(** [commitOperatorDecision] *)
Definition commitOperatorDecision (d : FileData) (before : gmap string Grant)
    (eventSequence : Z) (lifecycleChanged : bool) (index : nat) (current : Grant)
    (c : OperatorDecision) (scope hash : string) (validate : option ActivationCheck)
  : Eff (OperatorDecisionResult * option error) :=
  instant ← clocked (now clock);
  let '(updated, decisionErr) := applyDecisionMutation current c validate instant in
  if bool_decide (is_Some decisionErr) && negb (bool_decide (grant_Status updated = StatusFailed))
  then
    e ← saveDecisionError d eventSequence lifecycleChanged decisionErr;
    mret (MkOperatorDecisionResult current current EmptyString false, e)
  else
    d ← reconcileOperatorMutation (set_Grants (<[index := updated]> (fd_Grants d)) d)
          before current lifecycleChanged;
    let result := default zero_Grant (fd_Grants d !! index) in
    let eventCursor := currentEventCursor d in
    committed ← clocked (now clock);
    let failure := activation_As decisionErr in
    let record :=
      MkDecisionRecord scope hash result current eventCursor
        (match failure with Some f => failure_Code f | None => no_code end)
        (match failure with Some _ => grant_FailureReference result | None => EmptyString end)
        committed EmptyString EmptyString in
    let d := set_DecisionRecords (fd_DecisionRecords d ++ [record]) d in
    persisted ← persistOperatorDecision d eventSequence;
    match persisted with
    | Some e => mret (zero_result, Some e)
    | None => mret (MkOperatorDecisionResult result current eventCursor false, decisionErr)
    end.

(** [applyPreparedOperatorDecision] *)
Definition applyPreparedOperatorDecision (d : FileData) (before : gmap string Grant)
    (eventSequence : Z) (lifecycleChanged : bool) (c : OperatorDecision)
    (validate : option ActivationCheck) : Eff (OperatorDecisionResult * option error) :=
  let hash := hashOperatorDecision c in
  let scope := decisionScope c in
  match replayOperatorDecision (fd_DecisionRecords d) scope hash with
  | Some (replay, replayErr) =>
    e ← saveDecisionError d eventSequence lifecycleChanged replayErr;
    mret (replay, e)
  | None =>
    match resolveOperatorDecisionGrant (fd_Grants d) c with
    | Err (current, err) =>
      e ← saveDecisionError d eventSequence lifecycleChanged (Some err);
      mret (MkOperatorDecisionResult current current EmptyString false, e)
    | Ok (index, current) =>
      commitOperatorDecision d before eventSequence lifecycleChanged index current c
        scope hash validate
    end
  end.

(** [Store.ApplyOperatorDecision] *)
Definition ApplyOperatorDecision (c : OperatorDecision) (validate : option ActivationCheck)
  : Eff (OperatorDecisionResult * option error) :=
  match normalizeOperatorDecision c with
  | Err e => mret (zero_result, Some e)
  | Ok c =>
    loaded ← load;
    match loaded with
    | Err e => mret (zero_result, Some (activation_New CodeStorageUnavailable (Some e)))
    | Ok d =>
      '(d, before, eventSequence, lifecycleChanged) ← prepare_decision d;
      applyPreparedOperatorDecision d before eventSequence lifecycleChanged c validate
    end
  end.
End decisions.
