(* ===== verification/GrantsQuery.v ===== *)
(** * Grant listings: [query.go]

    The operator inbox: filters, newest-first order, and keyset pagination by
    an opaque cursor.  The JSON text of a cursor and the fingerprint of a query
    (SHA-256 of its JSON) are arguments. *)

From S2P Require Export GrantsStore.
From Stdlib Require Import Ascii.

Local Open Scope Z_scope.

Definition maxGrantPageSize : Z := 100.

(** [StatusGroup] *)
Inductive StatusGroup : Type :=
| StatusGroupPending | StatusGroupActive | StatusGroupHistory | StatusGroupAll
| StatusGroupOther (text : string).

#[export] Instance StatusGroup_eq_dec : EqDecision StatusGroup.
Proof. solve_decision. Defined.

(** [Query] *)
Record Query : Type := MkQuery {
  query_StatusGroup : StatusGroup;
  query_Client : string;
  query_Operation : string;
  query_Target : option Target;
  query_Cursor : string;
  query_Limit : Z
}.

(** [grantCursor] *)
Record GrantCursor : Type := MkGrantCursor {
  cursor_CreatedAt : Time;
  cursor_ID : string;
  cursor_QueryHash : string
}.

Definition zero_cursor : GrantCursor := MkGrantCursor 0 EmptyString EmptyString.

(** [Page] *)
Record Page : Type := MkPage {
  result_Grants : list Grant;
  result_NextCursor : string;
  result_HasMore : bool;
  result_EventCursor : string
}.

Definition normalizedStatusGroup (g : StatusGroup) : StatusGroup :=
  match g with StatusGroupOther EmptyString => StatusGroupAll | _ => g end.

Definition validStatusGroup (g : StatusGroup) : bool :=
  match g with StatusGroupOther _ => false | _ => true end.

Definition normalizedGrantLimit (limit : Z) : Z := if limit =? 0 then 50 else limit.

(** ** Filters *)

Definition grantMatchesStatus (status : Status) (group : StatusGroup) : bool :=
  match group with
  | StatusGroupPending => bool_decide (status = StatusPending)
  | StatusGroupActive => bool_decide (status = StatusActive)
  | StatusGroupHistory =>
    negb (bool_decide (status = StatusPending)) && negb (bool_decide (status = StatusActive))
  | StatusGroupAll => true
  | StatusGroupOther _ => false
  end.

(** Newest first, the greater identifier first among equals: [compareGrantsNewestFirst]. *)
Definition compareGrantsNewestFirst (l r : Grant) : comparison :=
  if time_after (grant_CreatedAt l) (grant_CreatedAt r) then Lt
  else if time_before (grant_CreatedAt l) (grant_CreatedAt r) then Gt
  else if string_ltb (grant_ID r) (grant_ID l) then Lt
  else if string_ltb (grant_ID l) (grant_ID r) then Gt
  else Eq.

Fixpoint insert_newest (g : Grant) (l : list Grant) : list Grant :=
  match l with
  | [] => [g]
  | h :: rest =>
    match compareGrantsNewestFirst h g with
    | Lt => h :: insert_newest g rest
    | _ => g :: l
    end
  end.

(** [slices.SortFunc] with [compareGrantsNewestFirst]; identifiers are distinct,
    so every sorting algorithm gives this list. *)
Definition sort_newest (l : list Grant) : list Grant := foldr insert_newest [] l.

Definition grantBeforeCursor (g : Grant) (c : GrantCursor) : bool :=
  if is_empty (cursor_ID c) then true
  else time_before (grant_CreatedAt g) (cursor_CreatedAt c)
       || ((grant_CreatedAt g =? cursor_CreatedAt c) && string_ltb (grant_ID g) (cursor_ID c)).

Section query.
Context {R : MapRange} {GS : GrantStorage} (clock : nat → Time) (o : Options).
(** The JSON text of a cursor, its strict decoding, and the digest of a
    query's JSON. *)
Context (marshal_cursor : GrantCursor → list Z)
  (unmarshal_cursor : list Z → option GrantCursor) (query_digest : Query → string).

Definition targetMatchesFilter (target filter : Target) : bool :=
  String.eqb (target_Kind target) (target_Kind filter)
  && forallb (λ '(key, values),
       bool_decide (values_of (target_Fields target) key = values))
       (map_range (target_Fields filter)).

Definition grantMatchesIdentity (g : Grant) (q : Query) : bool :=
  (is_empty (query_Client q) || String.eqb (grant_Client g) (query_Client q))
  && (is_empty (query_Operation q) || String.eqb (grant_Operation g) (query_Operation q))
  && match query_Target q with
     | None => true
     | Some filter => targetMatchesFilter (grant_Target g) filter
     end.

Definition grantMatchesQuery (g : Grant) (q : Query) : bool :=
  grantMatchesIdentity g q && grantMatchesStatus (grant_Status g) (query_StatusGroup q).

(** [normalizeQueryTarget] *)
Definition normalizeQueryTarget (target : Target) : result error Target :=
  refuse (is_blank (target_Kind target))
    (Errorf "%w: target kind is required" [] [ErrInvalidQuery]) ;;;
  for_each (λ '(key, values),
    refuse (is_blank key || Nat.eqb (length values) 0)
      (Errorf "%w: target field is invalid" [] [ErrInvalidQuery]) ;;;
    for_each (λ value, refuse (is_blank value)
      (Errorf "%w: target field is invalid" [] [ErrInvalidQuery])) values)
    (map_range (target_Fields target)) ;;;
  Ok (MkTarget (target_Kind target) (CanonicalStringSlice <$> target_Fields target)).

Definition normalizeOptionalQueryTarget (target : option Target)
  : result error (option Target) :=
  match target with
  | None => Ok None
  | Some t => t ← normalizeQueryTarget t; Ok (Some t)
  end.

(** [queryFingerprint]: the cursor is not part of the fingerprint. *)
Definition queryFingerprint (q : Query) : string :=
  query_digest (MkQuery (query_StatusGroup q) (query_Client q) (query_Operation q)
    (query_Target q) EmptyString (query_Limit q)).

Definition encodeGrantCursor (c : GrantCursor) : string :=
  bytes_string (Base64.encode (marshal_cursor c)).

(** [decodeGrantCursorData] *)
Definition decodeGrantCursorData (data : list Z) : result error GrantCursor :=
  match unmarshal_cursor data with
  | Some c =>
    refuse (is_empty (cursor_ID c) || time_is_zero (cursor_CreatedAt c)
            || is_empty (cursor_QueryHash c)) ErrInvalidGrantCursor ;;;
    Ok c
  | None => Err ErrInvalidGrantCursor
  end.

Definition decodeGrantCursor (cursor : string) : result error GrantCursor :=
  if is_empty cursor then Ok zero_cursor
  else
    refuse (512 <? len cursor) ErrInvalidGrantCursor ;;;
    data ← option_ok (Base64.decode (string_bytes cursor)) ErrInvalidGrantCursor;
    decodeGrantCursorData data.

(** [normalizeGrantQuery] *)
Definition normalizeGrantQuery (q : Query) : result error (Query * GrantCursor) :=
  let group := normalizedStatusGroup (query_StatusGroup q) in
  refuse (negb (validStatusGroup group))
    (Errorf "%w: invalid status group %q" [] [ErrInvalidQuery]) ;;;
  let limit := normalizedGrantLimit (query_Limit q) in
  refuse ((limit <? 1) || (maxGrantPageSize <? limit))
    (Errorf "%w: grant limit must be between 1 and %d" [] [ErrInvalidQuery]) ;;;
  target ← normalizeOptionalQueryTarget (query_Target q);
  let q := MkQuery group (query_Client q) (query_Operation q) target (query_Cursor q) limit in
  cursor ← decodeGrantCursor (query_Cursor q);
  refuse (negb (is_empty (cursor_ID cursor))
          && negb (String.eqb (cursor_QueryHash cursor) (queryFingerprint q)))
    ErrInvalidGrantCursor ;;;
  Ok (q, cursor).

(** [buildGrantPage] *)
Definition buildGrantPage (grants : list Grant) (q : Query) (c : GrantCursor) : Page :=
  let filtered := filter (λ g, grantMatchesQuery g q && grantBeforeCursor g c = true) grants in
  let filtered := sort_newest filtered in
  let hasMore := query_Limit q <? Z.of_nat (length filtered) in
  let filtered := if hasMore then take (Z.to_nat (query_Limit q)) filtered else filtered in
  MkPage filtered
    (match last filtered with
     | Some g =>
       encodeGrantCursor (MkGrantCursor (grant_CreatedAt g) (grant_ID g) (queryFingerprint q))
     | None => EmptyString
     end) hasMore EmptyString.

(** [Store.QueryGrants] *)
Definition QueryGrants (q : Query) : Eff (result error Page) :=
  match normalizeGrantQuery q with
  | Err e => mret (Err e)
  | Ok (q, cursor) =>
    read_prepared clock o (prepareLifecycle clock o) (λ d,
      let page := buildGrantPage (fd_Grants d) q cursor in
      mret (Ok (if is_empty (query_Cursor q)
                then MkPage (result_Grants page) (result_NextCursor page)
                       (result_HasMore page) (encodeEventCursor (fd_NextEvent d - 1))
                else page)))
  end.
End query.
