(* ===== verification/GrantsFacts.v ===== *)
(** * Facts about grant data

    Sums and updates of lists, the records [findGrant] and [findUseIndex] find,
    the summary of a grant's uses that [aggregateGrantUses] computes, and what
    the validation of loaded state accepts. *)

From S2P Require Export GrantsLifecycle.

Local Open Scope Z_scope.

(** ** Sums over lists *)

Fixpoint zsum {A} (f : A → Z) (l : list A) : Z :=
  match l with [] => 0 | a :: rest => f a + zsum f rest end.

Lemma zsum_app {A} (f : A → Z) (l l' : list A) : zsum f (l ++ l') = zsum f l + zsum f l'.
Proof. induction l as [|a l IH]; simpl; [done|]. rewrite IH. lia. Qed.

Lemma zsum_insert {A} (f : A → Z) (l : list A) (i : nat) (a b : A) :
  l !! i = Some a → zsum f (<[i := b]> l) = zsum f l - f a + f b.
Proof.
  revert i; induction l as [|c l IH]; intros [|i]; simpl; try done.
  - intros [= ->]. lia.
  - intros Hi. rewrite (IH i Hi). lia.
Qed.

Lemma zsum_fmap {A B} (f : B → Z) (g : A → B) (l : list A) :
  zsum f (g <$> l) = zsum (λ a, f (g a)) l.
Proof. induction l as [|a l IH]; [done|]. cbn. f_equal. exact IH. Qed.

Lemma zsum_ext {A} (f g : A → Z) (l : list A) :
  (∀ a, a ∈ l → f a = g a) → zsum f l = zsum g l.
Proof.
  induction l as [|a l IH]; simpl; [done|]. intros H. f_equal; [apply H; left|].
  apply IH. intros b Hb. apply H. by right.
Qed.

Lemma zsum_nonneg {A} (f : A → Z) (l : list A) :
  (∀ a, a ∈ l → 0 <= f a) → 0 <= zsum f l.
Proof.
  induction l as [|a l IH]; simpl; [done|]. intros H.
  pose proof (H a ltac:(left)). enough (0 <= zsum f l) by lia.
  apply IH. intros b Hb. apply H. by right.
Qed.

Lemma zsum_elem {A} (f : A → Z) (l : list A) (a : A) :
  (∀ b, b ∈ l → 0 <= f b) → a ∈ l → f a <= zsum f l.
Proof.
  intros H Ha. apply list_elem_of_split in Ha as (l1 & l2 & ->).
  rewrite zsum_app. simpl.
  pose proof (zsum_nonneg f l1 ltac:(intros; apply H; set_solver)).
  pose proof (zsum_nonneg f l2 ltac:(intros; apply H; set_solver)). lia.
Qed.

Lemma zsum_plus {A} (f g : A → Z) (l : list A) :
  zsum (λ a, f a + g a) l = zsum f l + zsum g l.
Proof. induction l as [|a l IH]; simpl; [done|]. rewrite IH. lia. Qed.

(** ** Lookups by identifier *)

Notation ids_of d := (grant_ID <$> fd_Grants d).

Lemma findGrant_some (grants : list Grant) (id : string) (i : nat) (g : Grant) :
  findGrant grants id = Some (i, g) → grants !! i = Some g ∧ grant_ID g = id.
Proof.
  revert i; induction grants as [|h grants IH]; intros i; simpl; [done|].
  destruct (String.eqb_spec (grant_ID h) id) as [<-|Hne].
  - by intros [= <- ->].
  - destruct (findGrant grants id) as [[j g']|]; [|done]. simpl.
    intros [= <- ->]. by apply IH.
Qed.

Lemma findGrant_none (grants : list Grant) (id : string) :
  findGrant grants id = None ↔ id ∉ grant_ID <$> grants.
Proof.
  induction grants as [|h grants IH]; cbn.
  - split; [intros _; apply not_elem_of_nil|done].
  - rewrite not_elem_of_cons. destruct (String.eqb_spec (grant_ID h) id) as [<-|Hne].
    + split; [done|]. intros []. done.
    + destruct (findGrant grants id) as [[j g]|]; simpl in *; split; try done.
      * intros [_ H]. by apply IH in H.
      * intros _. split; [done|]. by apply IH.
Qed.

Lemma findGrant_elem (grants : list Grant) (g : Grant) :
  NoDup (grant_ID <$> grants) → g ∈ grants →
  ∃ i, findGrant grants (grant_ID g) = Some (i, g).
Proof.
  induction grants as [|h grants IH]; cbn; [intros _ H; by apply not_elem_of_nil in H|].
  rewrite NoDup_cons. intros [Hh Hnd] [->|Hg]%elem_of_cons.
  - rewrite String.eqb_refl. eauto.
  - destruct (String.eqb_spec (grant_ID h) (grant_ID g)) as [Heq|Hne].
    + destruct Hh. rewrite Heq. by apply list_elem_of_fmap_2.
    + destruct (IH Hnd Hg) as (i & ->). eauto.
Qed.

(** Writing back a found grant is a map over the list. *)
Lemma findGrant_insert (grants : list Grant) (id : string) (i : nat) (g : Grant)
    (f : Grant → Grant) :
  NoDup (grant_ID <$> grants) → findGrant grants id = Some (i, g) →
  <[i := f g]> grants = (λ h, if String.eqb (grant_ID h) id then f h else h) <$> grants.
Proof.
  revert i; induction grants as [|h grants IH]; intros i; cbn; [done|].
  rewrite NoDup_cons. intros [Hh Hnd]. destruct (String.eqb_spec (grant_ID h) id) as [<-|Hne].
  - intros [= <- ->]. cbn. f_equal. rewrite <- (list_fmap_id grants) at 1.
    apply list_fmap_ext. intros j k Hk. destruct (String.eqb_spec (grant_ID k) (grant_ID g)) as [Heq|];
      [|done]. destruct Hh. rewrite <- Heq. apply list_elem_of_fmap_2.
    by apply list_elem_of_lookup_2 in Hk.
  - destruct (findGrant grants id) as [[j g']|] eqn:E; [|done]. simpl.
    intros [= <- ->]. cbn. f_equal. by apply IH.
Qed.

Lemma findUseIndex_some (uses : list GrantUse) (id : string) (i : nat) (u : GrantUse) :
  findUseIndex uses id = Some (i, u) → uses !! i = Some u ∧ use_RequestID u = id.
Proof.
  revert i; induction uses as [|v uses IH]; intros i; simpl; [done|].
  destruct (String.eqb_spec (use_RequestID v) id) as [<-|Hne].
  - by intros [= <- ->].
  - destruct (findUseIndex uses id) as [[j u']|]; [|done]. simpl.
    intros [= <- ->]. by apply IH.
Qed.

Lemma findUseIndex_none (uses : list GrantUse) (id : string) :
  findUseIndex uses id = None ↔ id ∉ use_RequestID <$> uses.
Proof.
  induction uses as [|v uses IH]; cbn.
  - split; [intros _; apply not_elem_of_nil|done].
  - rewrite not_elem_of_cons. destruct (String.eqb_spec (use_RequestID v) id) as [<-|Hne].
    + split; [done|]. intros []. done.
    + destruct (findUseIndex uses id) as [[j u]|]; simpl in *; split; try done.
      * intros [_ H]. by apply IH in H.
      * intros _. split; [done|]. by apply IH.
Qed.

Lemma lookup_grantSnapshots (grants : list Grant) (id : string) :
  NoDup (grant_ID <$> grants) →
  grantSnapshots grants !! id = snd <$> findGrant grants id.
Proof.
  unfold grantSnapshots. intros Hnd.
  assert (∀ m, foldl (λ m g, <[grant_ID g := g]> m) m grants !! id
               = match findGrant grants id with Some (_, g) => Some g | None => m !! id end)
    as ->.
  { induction grants as [|h grants IH]; intros m; cbn; [done|].
    apply NoDup_cons in Hnd as [Hh Hnd]. rewrite IH by done.
    destruct (String.eqb_spec (grant_ID h) id) as [<-|Hne].
    - apply findGrant_none in Hh. rewrite Hh. by rewrite lookup_insert_eq.
    - destruct (findGrant grants id) as [[j g]|]; [done|]. by rewrite lookup_insert_ne. }
  rewrite lookup_empty. by destruct (findGrant grants id) as [[]|].
Qed.

(** ** The summary of a grant's uses *)

Definition uses_of (id : string) (uses : list GrantUse) : list GrantUse :=
  filter (λ u, use_GrantID u = id) uses.

(** What [aggregateGrantUses] computes, apart from the grant it writes it to. *)
Record Summary : Type := MkSummary {
  sum_Used : Z;
  sum_Reserved : Z;
  sum_ReservedAt : Time;
  sum_Retained : bool;
  sum_UsedAt : Time
}.

Definition is_open (s : UseState) : bool :=
  match s with UseReserved | UseRetained => true | _ => false end.

Definition is_committed (s : UseState) : bool :=
  match s with UseCommitted => true | _ => false end.

Definition summarize_use (s : Summary) (u : GrantUse) : Summary :=
  match use_State u with
  | UseCommitted =>
    MkSummary (sum_Used s + 1) (sum_Reserved s) (sum_ReservedAt s) (sum_Retained s)
      (if time_before (sum_UsedAt s) (use_SettledAt u) then use_SettledAt u else sum_UsedAt s)
  | UseReserved | UseRetained =>
    MkSummary (sum_Used s) (sum_Reserved s + 1)
      (if time_is_zero (sum_ReservedAt s) || time_before (use_UpdatedAt u) (sum_ReservedAt s)
       then use_UpdatedAt u else sum_ReservedAt s)
      (if bool_decide (use_State u = UseRetained) then true else sum_Retained s) (sum_UsedAt s)
  | _ => s
  end.

Definition summarize (uses : list GrantUse) : Summary :=
  foldl summarize_use (MkSummary 0 0 0 false 0) uses.

Definition write_summary (s : Summary) (g : Grant) : Grant :=
  MkGrant (grant_ID g) (grant_Client g) (grant_ClientRequestID g) (grant_Operation g)
    (grant_Target g) (grant_Attrs g) (grant_Metadata g) (grant_Reason g) (grant_Status g)
    (grant_Revision g) (grant_CreatedAt g) (grant_PendingExpiresAt g) (grant_ExpiresAt g)
    (grant_Duration g) (grant_RequestedDuration g) (grant_PendingTimeout g) (grant_DecidedAt g)
    (grant_DecidedBy g) (grant_DecidedOnBehalfOf g) (grant_FailureCode g)
    (grant_FailureReference g) (grant_FailedAt g) (sum_UsedAt s) (sum_Used s)
    (grant_UseRevision g) (sum_Reserved s) (sum_ReservedAt s) (sum_Retained s)
    (grant_ReservationRevision g) (grant_MaxUses g) (grant_RequestedMaxUses g)
    (grant_RequestedMaxUsesDefaulted g) (grant_ExpiredFrom g).

Lemma aggregate_step (s : Summary) (g : Grant) (u : GrantUse) :
  aggregateGrantUse (write_summary s g) u = write_summary (summarize_use s u) g.
Proof.
  unfold aggregateGrantUse, summarize_use. destruct (use_State u) eqn:E; try done.
  - cbn. rewrite bool_decide_false by done. by destruct (_ || _).
  - cbn. by destruct (time_before _ _).
  - cbn. rewrite bool_decide_true by done. by destruct (_ || _).
Qed.

Lemma aggregateGrantUses_summary (g : Grant) (uses : list GrantUse) :
  aggregateGrantUses g uses = write_summary (summarize (uses_of (grant_ID g) uses)) g.
Proof.
  unfold aggregateGrantUses, summarize.
  change (clear_aggregate g) with (write_summary (MkSummary 0 0 0 false 0) g).
  generalize (MkSummary 0 0 0 false 0) as s.
  induction uses as [|u uses IH]; intros s; [done|].
  cbn [foldl]. unfold uses_of. rewrite filter_cons. cbn [grant_ID write_summary].
  change (grant_ID (write_summary s g)) with (grant_ID g).
  destruct (String.eqb_spec (use_GrantID u) (grant_ID g)) as [He|He].
  - rewrite decide_True by done. cbn [foldl]. rewrite aggregate_step. apply IH.
  - rewrite decide_False by done. apply IH.
Qed.

Definition committed_count (id : string) (u : GrantUse) : Z :=
  if bool_decide (use_GrantID u = id) && is_committed (use_State u) then 1 else 0.
Definition open_count (id : string) (u : GrantUse) : Z :=
  if bool_decide (use_GrantID u = id) && is_open (use_State u) then 1 else 0.
Definition revision_of (id : string) (u : GrantUse) : Z :=
  if bool_decide (use_GrantID u = id) then use_Revision u else 0.

Lemma summarize_counts (id : string) (uses : list GrantUse) :
  sum_Used (summarize (uses_of id uses)) = zsum (committed_count id) uses
  ∧ sum_Reserved (summarize (uses_of id uses)) = zsum (open_count id) uses.
Proof.
  unfold summarize.
  assert (∀ s, sum_Used (foldl summarize_use s (uses_of id uses))
               = sum_Used s + zsum (committed_count id) uses
             ∧ sum_Reserved (foldl summarize_use s (uses_of id uses))
               = sum_Reserved s + zsum (open_count id) uses) as H.
  { induction uses as [|u uses IH]; intros s; unfold uses_of in *; [split; cbn; lia|].
    rewrite filter_cons. cbn [zsum].
    unfold committed_count at 1, open_count at 1.
    destruct (decide (use_GrantID u = id)) as [He|He].
    - rewrite !bool_decide_true by done. cbn [foldl]. destruct (IH (summarize_use s u)) as [-> ->].
      unfold summarize_use. destruct (use_State u); cbn; lia.
    - rewrite !bool_decide_false by done. destruct (IH s) as [-> ->]. cbn. lia. }
  destruct (H (MkSummary 0 0 0 false 0)) as [-> ->]. done.
Qed.

Lemma useRevisionTotal_sum (id : string) (uses : list GrantUse) :
  useRevisionTotal id uses = zsum (revision_of id) uses.
Proof.
  unfold useRevisionTotal.
  assert (∀ z, foldl (λ total u, if String.eqb (use_GrantID u) id then total + use_Revision u
                                 else total) z uses = z + zsum (revision_of id) uses) as ->; [|done].
  induction uses as [|u uses IH]; intros z; cbn; [lia|]. rewrite IH. unfold revision_of at 2.
  destruct (String.eqb_spec (use_GrantID u) id).
  - rewrite bool_decide_true by done. lia.
  - rewrite bool_decide_false by done. lia.
Qed.

(** The stored aggregate of a grant agrees with its uses. *)
Definition consistent (uses : list GrantUse) (g : Grant) : Prop :=
  grantUseAggregateFromGrant g = wanted_aggregate g uses.

Lemma consistent_iff (uses : list GrantUse) (g : Grant) :
  consistent uses g ↔
  write_summary (summarize (uses_of (grant_ID g) uses)) g = g
  ∧ grant_UseRevision g = zsum (committed_count (grant_ID g)) uses
  ∧ grant_ReservationRevision g = zsum (revision_of (grant_ID g)) uses.
Proof.
  unfold consistent, wanted_aggregate, grantUseAggregateFromGrant.
  rewrite aggregateGrantUses_summary, useRevisionTotal_sum.
  destruct (summarize_counts (grant_ID g) uses) as [Hu Hr]. rewrite <- Hu.
  generalize (summarize (uses_of (grant_ID g) uses)) as s.
  destruct g. intros s. destruct s. cbn. split.
  - intros [= -> -> -> -> -> -> ->]. done.
  - intros ([= -> -> -> -> ->] & -> & ->). done.
Qed.

Lemma consistent_counts (uses : list GrantUse) (g : Grant) :
  consistent uses g →
  grant_UsedCount g = zsum (committed_count (grant_ID g)) uses
  ∧ grant_ReservedCount g = zsum (open_count (grant_ID g)) uses.
Proof.
  intros (Hs & _ & _)%consistent_iff. rewrite <- Hs. cbn.
  apply summarize_counts.
Qed.

(** Only the uses of the grant matter. *)
Lemma consistent_other (uses uses' : list GrantUse) (g : Grant) :
  uses_of (grant_ID g) uses' = uses_of (grant_ID g) uses →
  zsum (revision_of (grant_ID g)) uses' = zsum (revision_of (grant_ID g)) uses →
  consistent uses g → consistent uses' g.
Proof.
  intros Hf Hr. rewrite !consistent_iff, Hf, Hr.
  intros (Hs & Hu & Hrev). split; [done|]. split; [|done].
  rewrite Hu. destruct (summarize_counts (grant_ID g) uses) as [<- _].
  destruct (summarize_counts (grant_ID g) uses') as [<- _]. by rewrite Hf.
Qed.

(** The earliest reservation and the latest settlement do not depend on the order. *)
Lemma earliest_comm (t u v : Time) :
  0 < u → 0 < v →
  let earliest t u := if time_is_zero t || time_before u t then u else t in
  earliest (earliest t u) v = earliest (earliest t v) u.
Proof.
  intros Hu Hv. cbn zeta. unfold time_is_zero, time_before.
  repeat (match goal with
          | |- context [?a =? 0] => is_var a; destruct (Z.eqb_spec a 0)
          | |- context [?a <? ?b] => is_var a; is_var b; destruct (Z.ltb_spec a b)
          end; cbn [orb]); lia.
Qed.

Lemma latest_comm (t u v : Time) :
  let latest t u := if time_before t u then u else t in
  latest (latest t u) v = latest (latest t v) u.
Proof.
  cbn zeta. unfold time_before.
  repeat match goal with
         | |- context [?a <? ?b] => is_var a; is_var b; destruct (Z.ltb_spec a b)
         end; lia.
Qed.

Lemma summarize_use_comm (s : Summary) (u v : GrantUse) :
  0 < use_UpdatedAt u → 0 < use_UpdatedAt v →
  summarize_use (summarize_use s u) v = summarize_use (summarize_use s v) u.
Proof.
  intros Hu Hv. pose proof (earliest_comm (sum_ReservedAt s) _ _ Hu Hv) as He.
  pose proof (latest_comm (sum_UsedAt s) (use_SettledAt u) (use_SettledAt v)) as Hl.
  cbn zeta in He, Hl. unfold summarize_use.
  by destruct (use_State u), (use_State v); cbn; rewrite ?He, ?Hl.
Qed.

Lemma summarize_perm (uses uses' : list GrantUse) :
  uses ≡ₚ uses' → (∀ u, u ∈ uses → 0 < use_UpdatedAt u) → summarize uses = summarize uses'.
Proof.
  intros Hp. unfold summarize. generalize (MkSummary 0 0 0 false 0).
  induction Hp as [|u l l' Hp IH|u v l|l1 l2 l3 Hp1 IH1 Hp2 IH2]; intros s Hu; cbn; [done|..].
  - apply IH. intros v Hv. apply Hu. by right.
  - f_equal. apply summarize_use_comm; apply Hu; [by left|by right; left].
  - rewrite IH1 by done. apply IH2. intros u Hin. apply Hu. by rewrite Hp1.
Qed.

Lemma zsum_perm {A} (f : A → Z) (l l' : list A) : l ≡ₚ l' → zsum f l = zsum f l'.
Proof. induction 1; cbn; lia. Qed.

Lemma consistent_perm (uses uses' : list GrantUse) (g : Grant) :
  uses ≡ₚ uses' → (∀ u, u ∈ uses → 0 < use_UpdatedAt u) →
  consistent uses g → consistent uses' g.
Proof.
  intros Hp Hu. rewrite !consistent_iff.
  assert (uses_of (grant_ID g) uses ≡ₚ uses_of (grant_ID g) uses') as Hpo
    by (unfold uses_of; by rewrite Hp).
  rewrite (summarize_perm _ _ Hpo).
  - by rewrite !(zsum_perm _ _ _ Hp).
  - intros u [_ Hin]%list_elem_of_filter. by apply Hu.
Qed.

Lemma consistent_aggregate (uses : list GrantUse) (g : Grant) :
  grant_UseRevision g = zsum (committed_count (grant_ID g)) uses →
  grant_ReservationRevision g = zsum (revision_of (grant_ID g)) uses →
  consistent uses (aggregateGrantUses g uses).
Proof.
  intros Hu Hr. rewrite consistent_iff, aggregateGrantUses_summary.
  remember (summarize (uses_of (grant_ID g) uses)) as s eqn:Hs.
  assert (grant_ID (write_summary s g) = grant_ID g) as -> by reflexivity.
  split; [|split].
  - rewrite <- Hs. reflexivity.
  - exact Hu.
  - exact Hr.
Qed.

(** Changes that do not touch the aggregate keep a grant consistent. *)
Lemma consistent_fields (uses : list GrantUse) (g g' : Grant) :
  grant_ID g' = grant_ID g → grantUseAggregateFromGrant g' = grantUseAggregateFromGrant g →
  consistent uses g → consistent uses g'.
Proof.
  rewrite !consistent_iff. intros Hid Hagg (Hs & Hu & Hr). rewrite Hid.
  destruct g, g'. unfold grantUseAggregateFromGrant in Hagg. cbn in *.
  injection Hagg as -> -> -> -> -> -> ->. split; [|done].
  injection Hs as H1 H2 H3 H4 H5. unfold write_summary. cbn. by rewrite H1, H2, H3, H4, H5.
Qed.

Lemma uses_of_app (id : string) (uses : list GrantUse) (u : GrantUse) :
  use_GrantID u ≠ id → uses_of id (uses ++ [u]) = uses_of id uses.
Proof.
  intros Hne. unfold uses_of. rewrite filter_app, filter_cons, decide_False by done.
  by rewrite app_nil_r.
Qed.

Lemma uses_of_insert (id : string) (uses : list GrantUse) (i : nat) (u v : GrantUse) :
  uses !! i = Some u → use_GrantID u ≠ id → use_GrantID v ≠ id →
  uses_of id (<[i := v]> uses) = uses_of id uses.
Proof.
  intros Hi Hu Hv. unfold uses_of. revert i Hi.
  induction uses as [|w uses IH]; intros [|i] Hi; cbn in Hi; try done.
  - injection Hi as ->. change (<[0%nat := v]> (u :: uses)) with (v :: uses).
    by rewrite !filter_cons, !decide_False by done.
  - change (<[S i := v]> (w :: uses)) with (w :: <[i := v]> uses).
    rewrite !filter_cons. by rewrite (IH i Hi).
Qed.

(** ** What the load accepts *)

(** The part of a grant's validity that does not depend on the other grants. *)
Definition valid_grant (g : Grant) : bool :=
  validGrantIdentity g [] && validGrantLifecycle g && validGrantUsage g
  && validGrantReservation g.

(** Sequence numbers grow from [previous] up to below [next]. *)
Fixpoint events_ordered (previous : Z) (events : list EventRecord) (next : Z) : Prop :=
  match events with
  | [] => previous < next
  | e :: rest => previous < ev_Sequence e ∧ events_ordered (ev_Sequence e) rest next
  end.

Lemma events_loop_ok (previous next : Z) (events : list EventRecord) :
  0 <= previous →
  events_loop previous next events = Ok tt ↔ events_ordered previous events next.
Proof.
  revert previous; induction events as [|e events IH]; intros previous Hp; simpl.
  - rewrite refuse_ok, orb_false_iff, Z.eqb_neq, Z.leb_gt. lia.
  - rewrite seq_ok, refuse_ok, orb_false_iff, Z.eqb_neq, Z.leb_gt. split.
    + intros [[Ha Hb] H]. split; [lia|]. by apply IH; [lia|].
    + intros [Ha H]. split; [lia|]. by apply IH; [lia|].
Qed.

Lemma events_ordered_app (previous next : Z) (events : list EventRecord) (e : EventRecord) :
  events_ordered previous events next → ev_Sequence e = next →
  events_ordered previous (events ++ [e]) (next + 1).
Proof.
  revert previous; induction events as [|f events IH]; intros previous; simpl.
  - intros ? ->. lia.
  - intros [Ha H] He. split; [done|]. by apply IH.
Qed.

Lemma events_ordered_weaken (previous previous' next : Z) (events : list EventRecord) :
  previous' <= previous → events_ordered previous events next →
  events_ordered previous' events next.
Proof. destruct events as [|e events]; simpl; intros; [lia|]. intuition lia. Qed.

Lemma events_ordered_drop (previous next : Z) (events : list EventRecord) (n : nat) :
  events_ordered previous events next → events_ordered previous (drop n events) next.
Proof.
  revert previous n; induction events as [|e events IH]; intros previous n; simpl.
  - by rewrite drop_nil.
  - intros [Ha H]. destruct n as [|n]; [done|]. cbn.
    apply events_ordered_weaken with (ev_Sequence e); [lia|]. by apply IH.
Qed.

Lemma events_ordered_next (previous next : Z) (events : list EventRecord) :
  events_ordered previous events next → previous < next.
Proof.
  revert previous; induction events as [|e events IH]; intros previous; simpl; [done|].
  intros [Ha H]. apply IH in H. lia.
Qed.

(** The log of a store: in order, and up to the next sequence number. *)
Definition log_ok (events : list EventRecord) (next : Z) : Prop :=
  events_ordered 0 events next ∧ next = next_sequence events.

Lemma events_ordered_sorted (previous next : Z) (events : list EventRecord) :
  events_ordered previous events next →
  StronglySorted Z.lt (ev_Sequence <$> events)
  ∧ Forall (λ e, previous < ev_Sequence e < next) events.
Proof.
  revert previous. induction events as [|e events IH]; intros previous; cbn.
  - intros _. split; constructor.
  - intros [Hp Ho]. pose proof (events_ordered_next _ _ _ Ho) as Hn.
    destruct (IH _ Ho) as [Hs Hf]. split.
    + constructor; [done|]. apply Forall_fmap. by eapply Forall_impl; [exact Hf|cbn; lia].
    + constructor; [lia|]. eapply Forall_impl; [exact Hf|cbn; lia].
Qed.

#[export] Instance log_extends_preorder : PreOrder log_extends.
Proof.
  split.
  - intros d. exists 0%nat, []. rewrite drop_0, app_nil_r. split_and!; [done|done|lia|done].
  - intros d1 d2 d3 (n & a & E2 & Fa & N2 & K2) (m & b & E3 & Fb & N3 & K3).
    exists (n + m)%nat, (drop (m - length (drop n (fd_Events d1))) a ++ b).
    split_and!; [|apply Forall_app; split|lia|tauto].
    + by rewrite E3, E2, drop_app, drop_drop, <- (assoc_L (++)).
    + by apply Forall_drop.
    + eapply Forall_impl; [exact Fb|cbn; lia].
Qed.

Lemma log_extends_same (d d' : FileData) :
  fd_Events d' = fd_Events d → fd_NextEvent d' = fd_NextEvent d → log_extends d d'.
Proof.
  intros He Hn. exists 0%nat, []. rewrite drop_0, app_nil_r, He, Hn.
  split_and!; [done|done|lia|done].
Qed.

#[export] Instance records_extend_preorder : PreOrder records_extend.
Proof.
  split.
  - intros rs. exists []. by rewrite app_nil_r.
  - intros r1 r2 r3 (a & -> & Fa) (b & -> & Fb). exists (a ++ b).
    rewrite <- (assoc_L (++)). split; [done|by apply Forall_app].
Qed.

Lemma records_extend_prefix (rs rs' : list DecisionRecord) :
  records_extend rs rs' → rs `prefix_of` rs'.
Proof. intros (a & -> & _). by apply prefix_app_r. Qed.

(** Keeping the newest events of a log that has just gained one. *)
Lemma log_ok_append (events : list EventRecord) (next : Z) (e : EventRecord) (n : nat) :
  log_ok events next → ev_Sequence e = next → (n <= length events)%nat →
  log_ok (drop n (events ++ [e])) (next + 1).
Proof.
  intros [Ho _] He Hn. split.
  - by apply events_ordered_drop, events_ordered_app.
  - rewrite drop_app_le by done. unfold next_sequence. by rewrite last_snoc, He.
Qed.

Section loaded_facts.
Context {R : MapRange}.

Definition loaded_grant (g : Grant) : Prop :=
  valid_grant g = true ∧ validateLoadedGrantMaps g = Ok tt.

Lemma validGrantIdentity_seen (g : Grant) (seen : list string) :
  validGrantIdentity g seen = true ↔ validGrantIdentity g [] = true ∧ grant_ID g ∉ seen.
Proof.
  unfold validGrantIdentity. rewrite !andb_true_iff, !negb_true_iff.
  rewrite <- slices_Contains_iff. destruct (slices_Contains seen (grant_ID g)); simpl.
  - intuition (discriminate || congruence).
  - intuition discriminate.
Qed.

Lemma validateLoadedGrant_ok (g : Grant) (seen : list string) :
  validateLoadedGrant g seen = Ok tt ↔ grant_ID g ∉ seen ∧ loaded_grant g.
Proof.
  unfold validateLoadedGrant, loaded_grant, valid_grant.
  rewrite seq_ok, refuse_ok, !orb_false_iff, !negb_false_iff, validGrantIdentity_seen,
    !andb_true_iff. tauto.
Qed.

Lemma loaded_grants_loop_ok (seen : list string) (items : list Grant) :
  loaded_grants_loop seen items = Ok tt ↔
  NoDup (grant_ID <$> items) ∧ ∀ g, g ∈ items → grant_ID g ∉ seen ∧ loaded_grant g.
Proof.
  revert seen; induction items as [|g items IH]; intros seen; cbn [loaded_grants_loop].
  - split; [|done]. intros _. split; [constructor|]. intros g Hg.
    by apply not_elem_of_nil in Hg.
  - rewrite seq_ok, IH, validateLoadedGrant_ok. setoid_rewrite not_elem_of_cons.
    rewrite fmap_cons, NoDup_cons. setoid_rewrite elem_of_cons. split.
    + intros (Hg & Hnd & Hall). split.
      * split; [|done]. intros (h & Heq & Hin)%list_elem_of_fmap.
        destruct (Hall h Hin) as ((? & ?) & _). congruence.
      * intros h [->|Hin]; [tauto|]. destruct (Hall h Hin). tauto.
    + intros ((Hn & Hnd) & Hall). pose proof (Hall g ltac:(by left)) as Hg.
      split; [tauto|]. split; [done|]. intros h Hin.
      destruct (Hall h ltac:(by right)) as [? ?]. split; [|done]. split; [|done].
      intros Heq. destruct Hn. rewrite <- Heq. by apply list_elem_of_fmap_2.
Qed.

Lemma use_records_loop_ok (grants : gmap string Grant) (seen : list string)
    (uses : list GrantUse) :
  use_records_loop grants seen uses = Ok tt ↔
  NoDup (use_RequestID <$> uses) ∧ ∀ u, u ∈ uses → use_RequestID u ∉ seen
    ∧ ∃ g, grants !! use_GrantID u = Some g ∧ validLoadedUse u g = true.
Proof.
  revert seen; induction uses as [|u uses IH]; intros seen; cbn [use_records_loop].
  - split; [|done]. intros _. split; [constructor|]. intros u Hu.
    by apply not_elem_of_nil in Hu.
  - rewrite seq_ok, IH, refuse_ok. setoid_rewrite not_elem_of_cons.
    rewrite fmap_cons, NoDup_cons. setoid_rewrite elem_of_cons.
    assert (match grants !! use_GrantID u with
            | Some g => slices_Contains seen (use_RequestID u) || negb (validLoadedUse u g)
            | None => true
            end = false
            ↔ use_RequestID u ∉ seen
              ∧ ∃ g, grants !! use_GrantID u = Some g ∧ validLoadedUse u g = true) as ->.
    { rewrite <- slices_Contains_iff. destruct (grants !! use_GrantID u) as [g|].
      - rewrite orb_false_iff, negb_false_iff.
        destruct (slices_Contains seen (use_RequestID u)); naive_solver.
      - naive_solver. }
    split.
    + intros (Hu & Hnd & Hall). split.
      * split; [|done]. intros (v & Heq & Hin)%list_elem_of_fmap.
        destruct (Hall v Hin) as ((? & ?) & _). congruence.
      * intros v [->|Hin]; [done|]. destruct (Hall v Hin). tauto.
    + intros ((Hn & Hnd) & Hall). split; [apply Hall; by left|]. split; [done|].
      intros v Hin. destruct (Hall v ltac:(by right)) as [? ?]. split; [|done].
      split; [|done]. intros Heq. destruct Hn. rewrite <- Heq.
      by apply list_elem_of_fmap_2.
Qed.

Lemma validateLoadedUseAggregates_ok (grants : list Grant) (uses : list GrantUse) :
  validateLoadedUseAggregates grants uses = Ok tt ↔
  ∀ g, g ∈ grants → consistent uses g.
Proof.
  unfold validateLoadedUseAggregates, consistent. rewrite for_each_ok, Forall_forall.
  apply forall_proper; intros g. apply forall_proper; intros _.
  by rewrite refuse_ok, negb_false_iff, bool_decide_eq_true.
Qed.

(** The load accepts exactly the states with distinct identifiers, valid
    grants and uses, consistent aggregates and ordered events. *)
Lemma validate_loaded_ok (d d' : FileData) :
  validate_loaded d = Ok d' ↔
  d' = d
  ∧ (NoDup (ids_of d) ∧ ∀ g, g ∈ fd_Grants d → loaded_grant g)
  ∧ (NoDup (use_RequestID <$> fd_Uses d)
     ∧ ∀ u, u ∈ fd_Uses d → ∃ g, g ∈ fd_Grants d ∧ grant_ID g = use_GrantID u
                                  ∧ validLoadedUse u g = true)
  ∧ (∀ g, g ∈ fd_Grants d → consistent (fd_Uses d) g)
  ∧ events_ordered 0 (fd_Events d) (fd_NextEvent d).
Proof.
  unfold validate_loaded, validateLoadedGrants, validateLoadedUses, normalizeLoadedEvents.
  rewrite !seq_ok, loaded_grants_loop_ok, use_records_loop_ok,
    validateLoadedUseAggregates_ok, events_loop_ok by done.
  assert ((NoDup (ids_of d) ∧ ∀ g, g ∈ fd_Grants d → grant_ID g ∉ [] ∧ loaded_grant g)
          ↔ NoDup (ids_of d) ∧ ∀ g, g ∈ fd_Grants d → loaded_grant g) as ->.
  { split; intros [Ha H]; (split; [done|]); intros g Hg; [by apply H|].
    split; [apply not_elem_of_nil|by apply H]. }
  assert (NoDup (ids_of d) →
    (NoDup (use_RequestID <$> fd_Uses d) ∧
     (∀ u, u ∈ fd_Uses d → use_RequestID u ∉ [] ∧
        ∃ g, grantSnapshots (fd_Grants d) !! use_GrantID u = Some g
             ∧ validLoadedUse u g = true))
    ↔ (NoDup (use_RequestID <$> fd_Uses d) ∧
       ∀ u, u ∈ fd_Uses d → ∃ g, g ∈ fd_Grants d ∧ grant_ID g = use_GrantID u
                                 ∧ validLoadedUse u g = true)) as Hu.
  { intros Hnd. split; intros [Ha H]; (split; [done|]); intros u Hin.
    - destruct (H u Hin) as (_ & g & Hg & ?). rewrite lookup_grantSnapshots in Hg by done.
      destruct (findGrant (fd_Grants d) (use_GrantID u)) as [[i g']|] eqn:E; [|done].
      cbn in Hg. injection Hg as ->. apply findGrant_some in E as [? ?].
      exists g. eauto using list_elem_of_lookup_2.
    - destruct (H u Hin) as (g & Hg & Heq & ?). split; [apply not_elem_of_nil|].
      exists g. rewrite lookup_grantSnapshots by done. rewrite <- Heq.
      destruct (findGrant_elem _ _ Hnd Hg) as (i & ->). done. }
  split.
  - intros ((Hnd & Hg) & (Huse & Hc) & He & [= ->]). pose proof (proj1 (Hu Hnd) Huse). tauto.
  - intros (-> & (Hnd & Hg) & Huse & Hc & He). pose proof (proj2 (Hu Hnd) Huse). tauto.
Qed.

(** ** Normalized requests *)

Lemma validateValueMap_ok (kind : string) (m : StringListMap) :
  validateValueMap kind m = Ok tt ↔
  ∀ name l, m !! name = Some l →
    is_blank name = false ∧ l ≠ [] ∧ ∀ v, v ∈ l → is_blank v = false.
Proof.
  unfold validateValueMap. rewrite for_each_map_range.
  apply forall_proper; intros name; apply forall_proper; intros l.
  apply forall_proper; intros _.
  rewrite !seq_ok, !refuse_ok, for_each_ok, Forall_forall, Nat.eqb_neq.
  setoid_rewrite refuse_ok. destruct l; naive_solver.
Qed.

Lemma canonical_map_valid (kind : string) (m : StringListMap) :
  validateValueMap kind m = Ok tt →
  validateValueMap kind (CanonicalStringSliceMap m) = Ok tt.
Proof.
  rewrite !validateValueMap_ok. intros H name l. unfold CanonicalStringSliceMap.
  rewrite lookup_fmap. destruct (m !! name) as [l0|] eqn:E; [|done]. cbn.
  intros [= <-]. destruct (H name l0 E) as (Hn & Hl & Hv). split; [done|]. split.
  - destruct l0 as [|x l0]; [done|]. intros Hnil. apply (not_elem_of_nil x).
    rewrite <- Hnil. apply elem_of_canonical. left.
  - intros v Hin. by apply Hv, elem_of_canonical.
Qed.

(** What a normalized request is. *)
Record request_ok (o : Options) (req : GrantRequest) : Prop := {
  ro_identity : req_Client req ≠ EmptyString ∧ req_Operation req ≠ EmptyString
                ∧ target_Kind (req_Target req) ≠ EmptyString ∧ req_Reason req ≠ EmptyString;
  ro_fields : validateValueMap "target field" (target_Fields (req_Target req)) = Ok tt;
  ro_attrs : validateValueMap "attr" (req_Attrs req) = Ok tt;
  ro_metadata : validateMetadata (req_Metadata req) = Ok tt;
  ro_duration : 0 < req_Duration req <= opts_MaxDuration o;
  ro_pending : 0 < req_PendingTimeout req;
  ro_uses : 0 <= req_MaxUses req <= MaxFiniteUses;
  ro_specified : req_MaxUsesSpecified req = true
}.

Definition options_ok (o : Options) : Prop :=
  0 < opts_PendingTimeout o ∧ 0 < opts_DefaultDuration o ∧ 0 < opts_MaxDuration o
  ∧ 0 < opts_ReservationTimeout o ∧ 0 < opts_MaxEvents o
  ∧ 0 < opts_MaxPendingPerClient o ∧ 0 < opts_MaxPendingGlobal o.

Lemma positive_or_pos (v f : Z) : 0 < f → 0 < positive_or v f.
Proof. unfold positive_or. destruct (Z.leb_spec v 0); lia. Qed.

Lemma defaultStoreBounds_ok (o : Options) : options_ok (defaultStoreBounds o).
Proof. repeat split; by apply positive_or_pos. Qed.

Lemma normalizeGrantRequest_ok (o : Options) (req req' : GrantRequest) :
  options_ok o → normalizeGrantRequest o req = Ok req' → request_ok o req'.
Proof.
  intros Ho. unfold normalizeGrantRequest. rewrite bind_ok_iff. intros (req1 & H1 & H2).
  unfold normalizeRequestValues in H1. cbn zeta in H1. rewrite !seq_ok, !refuse_ok in H1.
  destruct H1 as (Hid & Hre & Hf & Ha & Hm & [= <-]).
  apply orb_false_iff in Hid as [Hid Hk]. apply orb_false_iff in Hid as [Hc Hop].
  unfold normalizeRequestBounds in H2. cbn zeta in H2. apply seq_ok in H2 as [Hdur H2].
  unfold normalizeRequestUseLimit in H2. cbn zeta in H2. rewrite !seq_ok, !refuse_ok in H2.
  destruct H2 as (Hpos & Hmax & [= <-]). apply refuse_ok in Hdur. destruct Ho as (Hp & Hd & _).
  assert (∀ s, is_empty s = false → s ≠ EmptyString) as Hne by (by intros []).
  set (b := negb (req_MaxUsesSpecified _) && _) in *.
  split; destruct b; cbn in *; rewrite ?Z.ltb_ge in *;
    try (by apply canonical_map_valid); try done; auto;
    repeat match goal with |- context [if ?x <=? 0 then _ else _] =>
      destruct (Z.leb_spec x 0) end; lia.
Qed.
End loaded_facts.
