(* ===== verification/GrantsInvariant.v ===== *)
(** * The invariant of grant data

    What every stored state satisfies beyond what the load checks (budgets,
    narrowing, idle and consumed grants), the state machines of grants and
    uses, and the preservation of both by the lifecycle steps. *)

From S2P Require Export GrantsFacts GrantsDecisions.

Local Open Scope Z_scope.

(** ** State machines *)

(** The transitions of a grant's status. *)
Inductive status_step : Status → Status → Prop :=
| step_approve : status_step StatusPending StatusActive
| step_deny : status_step StatusPending StatusDenied
| step_fail : status_step StatusPending StatusFailed
| step_cancel : status_step StatusPending StatusCanceled
| step_expire_request : status_step StatusPending StatusExpired
| step_expire : status_step StatusActive StatusExpired
| step_revoke : status_step StatusActive StatusRevoked
| step_consume : status_step StatusActive StatusConsumed
| step_consume_expired : status_step StatusExpired StatusConsumed.

(** The transitions of a use: a committed use is final. *)
Inductive use_step : UseState → UseState → Prop :=
| step_commit : use_step UseReserved UseCommitted
| step_release : use_step UseReserved UseReleased
| step_retain : use_step UseReserved UseRetained
| step_commit_retained : use_step UseRetained UseCommitted
| step_release_retained : use_step UseRetained UseReleased
| step_reserve_again : use_step UseReleased UseReserved.

(** What never changes after a grant is created. *)
Definition fixed_part (g : Grant) :=
  (grant_ID g, grant_Client g, grant_ClientRequestID g, grant_Operation g, grant_Target g,
   grant_Attrs g, grant_Metadata g, grant_Reason g, grant_CreatedAt g,
   grant_PendingExpiresAt g, grant_RequestedDuration g, grant_PendingTimeout g,
   grant_RequestedMaxUses g, grant_RequestedMaxUsesDefaulted g).

Record evolves (g g' : Grant) : Prop := {
  evolves_fixed : fixed_part g' = fixed_part g;
  evolves_status : rtc status_step (grant_Status g) (grant_Status g')
}.

Record use_evolves (u u' : GrantUse) : Prop := {
  use_evolves_fixed : (use_GrantID u', use_RequestID u', use_Operation u', use_CreatedAt u')
                      = (use_GrantID u, use_RequestID u, use_Operation u, use_CreatedAt u);
  use_evolves_state : rtc use_step (use_State u) (use_State u');
  use_evolves_revision : use_Revision u <= use_Revision u'
}.

(** A later state: every record is still there, at its place, as a successor
    of what it was, with a revision in the relation [rel]. *)
Record extends (rel : Z → Z → Prop) (d d' : FileData) : Prop := {
  ext_grants : ∀ i g, fd_Grants d !! i = Some g →
    ∃ g', fd_Grants d' !! i = Some g' ∧ evolves g g' ∧ rel (grant_Revision g) (grant_Revision g');
  ext_uses : ∀ i u, fd_Uses d !! i = Some u →
    ∃ u', fd_Uses d' !! i = Some u' ∧ use_evolves u u';
  ext_decisions : records_extend (fd_DecisionRecords d) (fd_DecisionRecords d');
  ext_log : log_extends d d'
}.

(** A later stored state: every record is still there, wherever it was read
    back, as a successor of what it was. *)
Record continues (d d' : FileData) : Prop := {
  cnt_grants : ∀ g, g ∈ fd_Grants d →
    ∃ g', g' ∈ fd_Grants d' ∧ evolves g g' ∧ grant_Revision g <= grant_Revision g';
  cnt_uses : ∀ u, u ∈ fd_Uses d → ∃ u', u' ∈ fd_Uses d' ∧ use_evolves u u';
  cnt_decisions : ∀ r, r ∈ fd_DecisionRecords d → r ∈ fd_DecisionRecords d';
  cnt_log : log_extends d d'
}.

#[export] Instance evolves_preorder : PreOrder evolves.
Proof.
  split.
  - by split.
  - intros g1 g2 g3 [H1 S1] [H2 S2]. split; [congruence|by etrans].
Qed.

#[export] Instance use_evolves_preorder : PreOrder use_evolves.
Proof.
  split.
  - by split.
  - intros u1 u2 u3 [H1 S1 R1] [H2 S2 R2]. split; [congruence|by etrans|lia].
Qed.

#[export] Instance extends_refl (rel : Z → Z → Prop) : Reflexive rel → Reflexive (extends rel).
Proof.
  intros Hr d. split; [|intros i u Hu; by exists u|done|done].
  intros i g Hg. exists g. split; [done|]. split; [reflexivity|apply Hr].
Qed.

#[export] Instance extends_trans (rel : Z → Z → Prop) : Transitive rel → Transitive (extends rel).
Proof.
  intros Htr d1 d2 d3 [G1 U1 D1] [G2 U2 D2]. split.
  - intros i g Hg. destruct (G1 i g Hg) as (g2 & Hg2 & E1 & R1).
    destruct (G2 i g2 Hg2) as (g3 & Hg3 & E2 & R2). exists g3.
    split; [done|]. split; [by etrans|by etrans].
  - intros i u Hu. destruct (U1 i u Hu) as (u2 & Hu2 & E1).
    destruct (U2 i u2 Hu2) as (u3 & Hu3 & E2). exists u3. split; [done|by etrans].
  - by etrans.
  - by etrans.
Qed.

#[export] Instance continues_preorder : PreOrder continues.
Proof.
  split.
  - intros d. split; [|intros u Hu; by exists u|done|done].
    intros g Hg. exists g. split; [done|]. split; [reflexivity|lia].
  - intros d1 d2 d3 [G1 U1 D1 L1] [G2 U2 D2 L2]. split; [| |by auto|by etrans].
    + intros g Hg. destruct (G1 g Hg) as (g2 & Hg2 & E1 & R1).
      destruct (G2 g2 Hg2) as (g3 & Hg3 & E2 & R2). exists g3.
      split; [done|]. split; [by etrans|lia].
    + intros u Hu. destruct (U1 u Hu) as (u2 & Hu2 & E1).
      destruct (U2 u2 Hu2) as (u3 & Hu3 & E2). exists u3. split; [done|by etrans].
Qed.

(** Data that extends what was read, once written and read back. *)
Lemma extends_stored `{GrantStorage} (d0 d d' : FileData) :
  (∀ r, r ∈ fd_DecisionRecords d0 → reread r = r) →
  extends Z.le d0 d → stored_as d d' → continues d0 d'.
Proof.
  intros Hst [G U D L] [SG SU SE SN SD]. split.
  - intros g Hg. apply list_elem_of_lookup in Hg as [i Hi].
    destruct (G i g Hi) as (g' & Hg' & He). exists g'. split; [|done].
    rewrite SG. by apply list_elem_of_lookup_2 in Hg'.
  - intros u Hu. apply list_elem_of_lookup in Hu as [i Hi].
    destruct (U i u Hi) as (u' & Hu' & He). exists u'. split; [|done].
    rewrite SU. by apply list_elem_of_lookup_2 in Hu'.
  - intros r Hr. rewrite SD. rewrite <- (Hst r Hr). apply list_elem_of_fmap_2.
    destruct D as (more & -> & _). apply elem_of_app. by left.
  - etrans; [exact L|]. by apply log_extends_same.
Qed.

Lemma extends_weaken (rel rel' : Z → Z → Prop) (d d' : FileData) :
  (∀ x y, rel x y → rel' x y) → extends rel d d' → extends rel' d d'.
Proof.
  intros Hr [G U D L]. split; [|done|done|done].
  intros i g Hg. destruct (G i g Hg) as (g' & ? & ? & ?). eauto.
Qed.

Lemma evolves_ID (g g' : Grant) : evolves g g' → grant_ID g' = grant_ID g.
Proof. intros [H _]. unfold fixed_part in H. congruence. Qed.

(** ** The invariant *)

Definition idle (s : Status) : bool :=
  match s with
  | StatusPending | StatusDenied | StatusFailed | StatusCanceled => true
  | _ => false
  end.

(** A finite budget is never overdrawn. *)
Definition within_budget (g : Grant) : Prop :=
  grant_MaxUses g = Unlimited ∨ grant_UsedCount g + grant_ReservedCount g <= grant_MaxUses g.

(** Approval only narrows what was requested. *)
Definition narrowed (g : Grant) : Prop :=
  grant_Duration g <= grant_RequestedDuration g
  ∧ (grant_RequestedMaxUses g = Unlimited
     ∨ 0 < grant_MaxUses g <= grant_RequestedMaxUses g).

Section invariant.
Context {R : MapRange}.

Record grant_core (g : Grant) : Prop := {
  gc_identity : validGrantIdentity g [] = true;
  gc_maps : validateLoadedGrantMaps g = Ok tt;
  gc_status : validStoredStatus (grant_Status g) = true;
  gc_failure : validGrantFailure g = true;
  gc_times : grant_CreatedAt g ≠ 0 ∧ grant_PendingExpiresAt g ≠ 0;
  gc_durations : 0 < grant_Duration g ∧ 0 < grant_RequestedDuration g
                 ∧ 0 < grant_PendingTimeout g;
  gc_limits : 0 <= grant_MaxUses g ∧ 0 <= grant_RequestedMaxUses g;
  gc_narrowed : narrowed g;
  gc_budget : within_budget g;
  gc_idle : idle (grant_Status g) = true →
            grant_UsedCount g = 0 ∧ grant_ReservedCount g = 0;
  gc_consumed : grant_Status g = StatusConsumed →
                0 < grant_MaxUses g <= grant_UsedCount g
}.

(** A stored use whose instants are at most [t]. *)
Record use_core (t : Time) (u : GrantUse) : Prop := {
  uc_lifecycle : validLoadedUseLifecycle u = true;
  uc_created : 0 < use_CreatedAt u;
  uc_updated : use_UpdatedAt u <= t
}.

Definition owned (grants : list Grant) (u : GrantUse) : Prop :=
  ∃ g, g ∈ grants ∧ grant_ID g = use_GrantID u ∧ validLoadedUseIdentity u g = true.

Record core_ok (t : Time) (d : FileData) : Prop := {
  co_ids : NoDup (ids_of d);
  co_grants : ∀ g, g ∈ fd_Grants d → grant_core g;
  co_use_ids : NoDup (use_RequestID <$> fd_Uses d);
  co_uses : ∀ u, u ∈ fd_Uses d → use_core t u ∧ owned (fd_Grants d) u;
  co_consistent : ∀ g, g ∈ fd_Grants d → consistent (fd_Uses d) g;
  co_log : log_ok (fd_Events d) (fd_NextEvent d);
  co_scopes : NoDup (rec_Scope <$> fd_DecisionRecords d)
}.

(** The invariant of stored data: the working invariant, and every grant has
    been reconciled. *)
Record data_ok (t : Time) (d : FileData) : Prop := {
  do_core : core_ok t d;
  do_revisions : ∀ g, g ∈ fd_Grants d → 1 <= grant_Revision g
}.

Lemma use_core_later (t t' : Time) (u : GrantUse) : t <= t' → use_core t u → use_core t' u.
Proof. intros Ht [? ? ?]. split; try done. lia. Qed.

Lemma co_events (t : Time) (d : FileData) :
  core_ok t d → events_ordered 0 (fd_Events d) (fd_NextEvent d).
Proof. intros Hd. apply (co_log _ _ Hd). Qed.

Lemma core_ok_later (t t' : Time) (d : FileData) : t <= t' → core_ok t d → core_ok t' d.
Proof.
  intros Ht [? ? ? Hu ? ? ?]. split; try done. intros u Hin.
  destruct (Hu u Hin). split; [by eapply use_core_later|done].
Qed.

Lemma data_ok_later (t t' : Time) (d : FileData) : t <= t' → data_ok t d → data_ok t' d.
Proof. intros Ht [? ?]. split; [by eapply core_ok_later|done]. Qed.

Lemma use_core_lifecycle (t : Time) (u : GrantUse) :
  use_core t u →
  1 <= use_Revision u ∧ 0 < use_UpdatedAt u
  ∧ (useStateSettled (use_State u) = false → use_SettledAt u = 0)
  ∧ (is_committed (use_State u) = true → 0 < use_SettledAt u).
Proof.
  intros [Hl Hc Hu]. unfold validLoadedUseLifecycle, validUseSettlementTime in Hl.
  destruct (negb (validUseState (use_State u)) || (use_Revision u <? 1)) eqn:E; [done|].
  unfold time_is_zero, time_before in *. bool_to_prop.
  split; [lia|]. split; [lia|].
  assert (useStateSettled (use_State u) = negb (use_SettledAt u =? 0)) as Hs
    by (by apply eqb_prop).
  split.
  - intros Hns. rewrite Hns in Hs. destruct (Z.eqb_spec (use_SettledAt u) 0); done.
  - intros Hcm. destruct (use_State u); try done. cbn in Hs.
    destruct (Z.eqb_spec (use_SettledAt u) 0) as [?|Hne]; [done|]. cbn in *.
    bool_to_prop. lia.
Qed.

(** Open uses have a first reservation time. *)
Lemma summarize_reserved_at (uses : list GrantUse) :
  (∀ u, u ∈ uses → 0 < use_UpdatedAt u) →
  0 < sum_Reserved (summarize uses) → sum_ReservedAt (summarize uses) ≠ 0.
Proof.
  unfold summarize. intros Hu.
  assert (∀ s, 0 <= sum_Reserved s → 0 <= sum_ReservedAt s →
    (0 < sum_Reserved s → 0 < sum_ReservedAt s) →
    0 < sum_Reserved (foldl summarize_use s uses) →
    0 < sum_ReservedAt (foldl summarize_use s uses)) as H.
  { induction uses as [|u uses IH]; intros s Hs0 Ha Hs; cbn [foldl]; [done|].
    assert (0 < use_UpdatedAt u) as Hup by (apply Hu; left).
    apply IH.
    - intros v Hv. apply Hu. by right.
    - unfold summarize_use. destruct (use_State u); cbn; lia.
    - unfold summarize_use. destruct (use_State u); cbn; try done; destruct (_ || _); lia.
    - unfold summarize_use, time_is_zero, time_before.
      destruct (use_State u); cbn; try done; intros _;
        destruct (Z.eqb_spec (sum_ReservedAt s) 0); cbn; try done;
        destruct (Z.ltb_spec (use_UpdatedAt u) (sum_ReservedAt s)); lia. }
  intros Hp. specialize (H (MkSummary 0 0 0 false 0)). cbn in H. lia.
Qed.

(** A grant of the invariant with its revision passes the load. *)
Lemma grant_core_loaded (t : Time) (d : FileData) (g : Grant) :
  core_ok t d → g ∈ fd_Grants d → 1 <= grant_Revision g → loaded_grant g.
Proof.
  intros Hd Hg Hrev. destruct (co_grants t d Hd g Hg). split; [|done].
  pose proof (co_consistent t d Hd g Hg) as Hc.
  pose proof (consistent_counts _ _ Hc) as [Hused Hres].
  apply consistent_iff in Hc as (Hs & Hur & Hrr).
  assert (∀ u, u ∈ fd_Uses d → 0 <= committed_count (grant_ID g) u ∧ 0 <= open_count (grant_ID g) u)
    as Hnn.
  { intros u _. unfold committed_count, open_count. split; by destruct (_ && _). }
  pose proof (zsum_nonneg (committed_count (grant_ID g)) (fd_Uses d) ltac:(by intros; apply Hnn)).
  pose proof (zsum_nonneg (open_count (grant_ID g)) (fd_Uses d) ltac:(by intros; apply Hnn)).
  unfold valid_grant. rewrite gc_identity0. cbn.
  apply andb_true_iff; split; [apply andb_true_iff; split|].
  - unfold validGrantLifecycle, time_is_zero. rewrite gc_status0, gc_failure0. cbn.
    repeat (apply andb_true_iff; split); rewrite ?negb_true_iff, ?Z.eqb_neq, ?Z.leb_le, ?Z.ltb_lt;
      tauto.
  - unfold validGrantUsage. rewrite Hur, Hused, Hres.
    repeat (apply andb_true_iff; split); rewrite ?Z.leb_le; lia.
  - unfold validGrantReservation, time_is_zero.
    destruct (Z.eqb_spec (grant_ReservedCount g) 0) as [?|Hne]; [done|]. cbn.
    apply andb_true_iff. rewrite negb_true_iff, Z.eqb_neq, Z.leb_le. split.
    + intros Hz. apply (summarize_reserved_at (uses_of (grant_ID g) (fd_Uses d))).
      * intros u Hu. unfold uses_of in Hu. apply list_elem_of_filter in Hu as [_ Hu].
        destruct (co_uses t d Hd u Hu) as [Huc _].
        by destruct (use_core_lifecycle t u Huc) as (_ & ? & _).
      * destruct (summarize_counts (grant_ID g) (fd_Uses d)) as [_ ->]. lia.
      * rewrite <- Hs in Hz. exact Hz.
    + rewrite Hrr. assert (∀ u, u ∈ fd_Uses d →
        open_count (grant_ID g) u <= revision_of (grant_ID g) u) as Hle.
      { intros u Hu. destruct (co_uses t d Hd u Hu) as [Huc _].
        apply use_core_lifecycle in Huc as [? _]. unfold open_count, revision_of.
        destruct (bool_decide _); [|done]. cbn. destruct (is_open _); lia. }
      assert (zsum (open_count (grant_ID g)) (fd_Uses d)
              <= zsum (revision_of (grant_ID g)) (fd_Uses d)); [|lia].
      clear -Hle. induction (fd_Uses d) as [|u uses IH]; cbn; [done|].
      pose proof (Hle u ltac:(left)). assert (∀ v, v ∈ uses →
        open_count (grant_ID g) v <= revision_of (grant_ID g) v) by (intros; apply Hle; by right).
      specialize (IH ltac:(done)). lia.
Qed.

(** The invariant implies that the next load succeeds. *)
Lemma data_ok_loads (t : Time) (d : FileData) : data_ok t d → validate_loaded d = Ok d.
Proof.
  intros [Hd Hrev]. apply validate_loaded_ok. split; [done|].
  pose proof (co_ids t d Hd). pose proof (co_use_ids t d Hd).
  split; [split; [done|]|split; [split; [done|]|split]].
  - intros g Hg. apply (grant_core_loaded t d); auto.
  - intros u Hu. destruct (co_uses t d Hd u Hu) as [[Hl _ _] (g & Hg & Heq & Hid)].
    exists g. unfold validLoadedUse. by rewrite Hid, Hl.
  - apply (co_consistent t d Hd).
  - apply (co_events t d Hd).
Qed.

Lemma use_core_updated (t : Time) (u : GrantUse) : use_core t u → 0 < use_UpdatedAt u.
Proof.
  intros [Hl Hc _]. unfold validLoadedUseLifecycle in Hl. destruct (_ || _); [done|].
  unfold time_before in Hl. bool_to_prop. lia.
Qed.

(** The invariant survives being written and read back. *)
Lemma data_ok_stored `{GL : GrantStorageLaws} (t : Time) (d d' : FileData) :
  data_ok t d → stored_as d d' → data_ok t d'.
Proof.
  intros [[H1 H2 H3 H4 H5 H6 H7] Hr] [SG SU SE SN SD]. split; [split|].
  - unfold ids_of. by rewrite SG.
  - intros g Hg. rewrite SG in Hg. by apply H2.
  - by rewrite SU.
  - intros u Hu. rewrite SU in Hu. destruct (H4 u Hu) as [Hc (g & Hg & Ho)].
    split; [done|]. exists g. by rewrite SG.
  - intros g Hg. rewrite SG in Hg. apply (consistent_perm (fd_Uses d)); [by rewrite SU| |by apply H5].
    intros u Hu. destruct (H4 u Hu) as [Hc _]. by eapply use_core_updated.
  - by rewrite SE, SN.
  - rewrite SD, <- list_fmap_compose.
    rewrite (list_fmap_ext _ rec_Scope); [done|].
    intros i r _. apply reread_Scope.
  - intros g Hg. rewrite SG in Hg. by apply Hr.
Qed.

(** Working data may be written over the data it extends. *)
Lemma core_ok_writable (t : Time) (rel : Z → Z → Prop) (d0 d : FileData) :
  core_ok t d → extends rel d0 d → writable d0 d.
Proof.
  intros Hd [_ _ D L]. split; [apply (co_ids t d Hd)|apply (co_use_ids t d Hd)
                              |apply (co_scopes t d Hd)| |apply (co_log t d Hd)|done|done].
  by eapply events_ordered_sorted, (co_events t d Hd).
Qed.

(** ** Updates that keep the invariant *)

Lemma core_ok_update (t t' : Time) (d d' : FileData) (f : Grant → Grant) :
  core_ok t d → t <= t' →
  fd_Grants d' = f <$> fd_Grants d →
  (∀ g, g ∈ fd_Grants d → grant_ID (f g) = grant_ID g ∧ grant_Operation (f g) = grant_Operation g
    ∧ grant_core (f g) ∧ consistent (fd_Uses d') (f g)) →
  NoDup (use_RequestID <$> fd_Uses d') →
  (∀ u, u ∈ fd_Uses d' → use_core t' u ∧ owned (fd_Grants d) u) →
  log_ok (fd_Events d') (fd_NextEvent d') →
  fd_DecisionRecords d' = fd_DecisionRecords d →
  core_ok t' d'.
Proof.
  intros Hd Ht Hgs Hf Hnd Hu He Hdec. split; try done.
  - rewrite Hgs. rewrite <- list_fmap_compose.
    assert (grant_ID ∘ f <$> fd_Grants d = ids_of d) as ->; [|by apply (co_ids t d)].
    apply list_fmap_ext. intros i g Hg. apply Hf. by apply list_elem_of_lookup_2 in Hg.
  - rewrite Hgs. intros g' (g & -> & Hg)%list_elem_of_fmap. by apply Hf.
  - intros u Hin. destruct (Hu u Hin) as [? (g & Hg & Heq & Hid)]. split; [done|].
    exists (f g). rewrite Hgs. destruct (Hf g Hg) as (Hfi & Hfo & _ & _).
    split; [by apply list_elem_of_fmap_2|]. split; [congruence|].
    unfold validLoadedUseIdentity in *. by rewrite Hfo.
  - rewrite Hgs. intros g' (g & -> & Hg)%list_elem_of_fmap. by apply Hf.
  - rewrite Hdec. apply (co_scopes t d Hd).
Qed.

(** A map over the grants extends the state when each grant evolves. *)
Lemma extends_map (rel : Z → Z → Prop) (d d' : FileData) (f : Grant → Grant) :
  fd_Grants d' = f <$> fd_Grants d →
  (∀ g, g ∈ fd_Grants d → evolves g (f g) ∧ rel (grant_Revision g) (grant_Revision (f g))) →
  (∀ i u, fd_Uses d !! i = Some u → ∃ u', fd_Uses d' !! i = Some u' ∧ use_evolves u u') →
  fd_DecisionRecords d' = fd_DecisionRecords d →
  fd_Events d' = fd_Events d → fd_NextEvent d' = fd_NextEvent d →
  extends rel d d'.
Proof.
  intros Hgs Hf Hu Hdec He Hn. split; [|done|by rewrite Hdec|by apply log_extends_same].
  intros i g Hg. exists (f g). rewrite Hgs, list_lookup_fmap, Hg.
  split; [done|]. apply Hf. by apply list_elem_of_lookup_2 in Hg.
Qed.
End invariant.

(** ** Steps on one grant *)

(** The fields of a grant the invariant reads, but for its status and failure. *)
Definition core_part (g : Grant) :=
  (grant_ID g, grant_Client g, grant_Operation g, grant_Target g, grant_Attrs g,
   grant_Metadata g, grant_Reason g, grant_CreatedAt g, grant_PendingExpiresAt g,
   grant_Duration g, grant_RequestedDuration g, grant_PendingTimeout g,
   (grant_MaxUses g, grant_RequestedMaxUses g, grant_UsedCount g, grant_ReservedCount g)).

Definition failure_part (g : Grant) :=
  (grant_FailureCode g, grant_FailureReference g, grant_FailedAt g).

Lemma validGrantFailure_other (g g' : Grant) :
  failure_part g' = failure_part g →
  grant_Status g ≠ StatusFailed → grant_Status g' ≠ StatusFailed →
  validGrantFailure g = true → validGrantFailure g' = true.
Proof.
  unfold validGrantFailure, failure_part. intros [= -> -> ->] H H'.
  by rewrite (bool_decide_false (grant_Status g = _)), (bool_decide_false (grant_Status g' = _)).
Qed.

Lemma validGrantFailure_same (g g' : Grant) :
  failure_part g' = failure_part g → grant_Status g' = grant_Status g →
  validGrantFailure g = true → validGrantFailure g' = true.
Proof. unfold validGrantFailure, failure_part. by intros [= -> -> ->] ->. Qed.

Section steps.
Context {R : MapRange}.

Lemma grant_core_step (g g' : Grant) :
  core_part g' = core_part g →
  validStoredStatus (grant_Status g') = true → validGrantFailure g' = true →
  (idle (grant_Status g') = true → idle (grant_Status g) = true) →
  (grant_Status g' = StatusConsumed → grant_Status g = StatusConsumed
                                      ∨ 0 < grant_MaxUses g <= grant_UsedCount g) →
  grant_core g → grant_core g'.
Proof.
  intros Hc Hs Hf Hi Hcons [Hid Hm _ _ Ht Hd Hl Hn Hb Hidle Hcd].
  destruct g, g'. unfold core_part in Hc. cbn in *. injection Hc; intros; subst; clear Hc.
  split; try done.
  - intros H. destruct (Hidle (Hi H)). done.
  - intros H. destruct (Hcons H) as [?|?]; [by apply Hcd|done].
Qed.

(** The same without a change of status. *)
Lemma grant_core_same (g g' : Grant) :
  core_part g' = core_part g → failure_part g' = failure_part g →
  grant_Status g' = grant_Status g → grant_core g → grant_core g'.
Proof.
  intros Hc Hf Hs Hg. apply (grant_core_step g g'); rewrite ?Hs; auto.
  - apply (gc_status g Hg).
  - by apply (validGrantFailure_same g), (gc_failure g Hg).
Qed.

(** ** Expiry *)

Lemma expire_grant_cases (now : Time) (g : Grant) :
  expire_grant now g = None
  ∨ (grant_Status g = StatusPending
     ∧ expire_grant now g
       = Some (set_DecidedAt now (set_Status StatusExpired (set_ExpiredFrom (grant_Status g) g))))
  ∨ (grant_Status g = StatusActive
     ∧ expire_grant now g
       = Some (set_Status StatusExpired (set_ExpiredFrom (grant_Status g) g))).
Proof.
  unfold expire_grant. destruct (grant_Status g); auto; destruct (negb _); auto.
Qed.

Definition expired (now : Time) (g : Grant) : Grant := default g (expire_grant now g).

Lemma expired_core (now : Time) (g : Grant) : grant_core g → grant_core (expired now g).
Proof.
  intros Hg. unfold expired.
  destruct (expire_grant_cases now g) as [->|[[Hs ->]|[Hs ->]]]; cbn; [done| |];
    (apply (grant_core_step g); try done;
     apply (validGrantFailure_other g); [done|by rewrite Hs|done|apply (gc_failure g Hg)]).
Qed.

Lemma expired_evolves (now : Time) (g : Grant) :
  evolves g (expired now g) ∧ grant_Revision g = grant_Revision (expired now g).
Proof.
  unfold expired.
  destruct (expire_grant_cases now g) as [->|[[Hs ->]|[Hs ->]]]; cbn;
    (split; [|done]; split; [done|]).
  - done.
  - cbn. rewrite Hs. apply rtc_once. constructor.
  - cbn. rewrite Hs. apply rtc_once. constructor.
Qed.

Lemma expired_aggregate (now : Time) (g : Grant) :
  grant_ID (expired now g) = grant_ID g ∧ grant_Operation (expired now g) = grant_Operation g
  ∧ grantUseAggregateFromGrant (expired now g) = grantUseAggregateFromGrant g.
Proof.
  unfold expired.
  by destruct (expire_grant_cases now g) as [->|[[_ ->]|[_ ->]]].
Qed.

Lemma use_keep (d : FileData) (i : nat) (u : GrantUse) :
  fd_Uses d !! i = Some u → ∃ u', fd_Uses d !! i = Some u' ∧ use_evolves u u'.
Proof. intros Hu. exists u. split; [done|reflexivity]. Qed.

Lemma expire_at_ok (t : Time) (instant : Time) (d : FileData) :
  core_ok t d →
  core_ok t (fst (expire_at instant d)) ∧ extends (=) d (fst (expire_at instant d)).
Proof.
  intros Hd. split.
  - apply (core_ok_update t t d _ (expired instant)); try done.
    + intros g Hg. destruct (expired_aggregate instant g) as (Hi & Ho & Ha).
      split; [done|]. split; [done|]. split; [by apply expired_core, (co_grants t d)|].
      apply (consistent_fields _ g); [done|done|]. by apply (co_consistent t d).
    + apply (co_use_ids t d Hd).
    + apply (co_uses t d Hd).
    + apply (co_log t d Hd).
  - apply (extends_map _ d _ (expired instant)); try done.
    + intros g _. apply expired_evolves.
    + exact (use_keep d).
Qed.

(** ** Stale reservations *)

Lemma changed_grants_lookup (l : list GrantUse) (id : string) :
  changed_grants l !! id
  = if bool_decide (id ∈ use_GrantID <$> l)
    then Some (zsum (λ u, if bool_decide (use_GrantID u = id) then 1 else 0) l) else None.
Proof.
  unfold changed_grants.
  assert (∀ m, foldl count_use m l !! id
    = if bool_decide (id ∈ use_GrantID <$> l)
      then Some (default 0 (m !! id)
                 + zsum (λ u, if bool_decide (use_GrantID u = id) then 1 else 0) l)
      else m !! id) as ->.
  { induction l as [|u l IH]; intros m; cbn [foldl fmap list_fmap zsum].
    { by rewrite bool_decide_false by apply not_elem_of_nil. }
    rewrite IH. unfold count_use. destruct (decide (use_GrantID u = id)) as [<-|Hne].
    - rewrite lookup_insert_eq, (bool_decide_true (_ ∈ _ :: _)) by left.
      rewrite (bool_decide_true (use_GrantID u = _)) by done. cbn.
      case_bool_decide as Hin; [f_equal; lia|].
      rewrite (zsum_ext _ (λ _, 0)).
      + f_equal. assert (zsum (λ _ : GrantUse, 0) l = 0) as -> by (clear; by induction l). lia.
      + intros v Hv. rewrite bool_decide_false; [done|]. intros Heq. destruct Hin.
        rewrite <- Heq. by apply list_elem_of_fmap_2.
    - rewrite lookup_insert_ne by done.
      rewrite (bool_decide_false (use_GrantID u = id)) by done. rewrite Z.add_0_l.
      destruct (decide (id ∈ use_GrantID <$> l)) as [Hin|Hin].
      + by rewrite !bool_decide_true by (done || by right).
      + rewrite !bool_decide_false; [done| |done]. by intros [?|?]%elem_of_cons. }
  rewrite lookup_empty. cbn. by rewrite Z.add_0_l.
Qed.

Definition refreshed (uses : list GrantUse) (changed : gmap string Z) (g : Grant) : Grant :=
  match changed !! grant_ID g with
  | Some delta =>
    aggregateGrantUses (set_ReservationRevision (grant_ReservationRevision g + delta) g) uses
  | None => g
  end.

Lemma aggregate_ID (g : Grant) (uses : list GrantUse) :
  grant_ID (aggregateGrantUses g uses) = grant_ID g.
Proof. by rewrite aggregateGrantUses_summary. Qed.

(** The second loop visits each changed grant once, whatever the map order. *)
Lemma refresh_loop (uses : list GrantUse) (grants : list Grant) (entries : list (string * Z)) :
  NoDup (grant_ID <$> grants) → NoDup entries.*1 →
  foldl (refresh_grant uses) grants entries
  = refreshed uses (list_to_map entries) <$> grants.
Proof.
  revert grants; induction entries as [|[id delta] entries IH]; intros grants Hnd Hne.
  { cbn. rewrite <- (list_fmap_id grants) at 1. apply list_fmap_ext. intros i g _.
    unfold refreshed. by rewrite lookup_empty. }
  cbn [fmap list_fmap fst] in Hne. apply NoDup_cons in Hne as [Hid Hne].
  cbn [foldl].
  set (upd := λ g, aggregateGrantUses
                     (set_ReservationRevision (grant_ReservationRevision g + delta) g) uses).
  assert (refresh_grant uses grants (id, delta)
          = (λ h, if String.eqb (grant_ID h) id then upd h else h) <$> grants) as ->.
  { unfold refresh_grant. cbn [fst snd].
    destruct (findGrant grants id) as [[i g]|] eqn:E; [by apply (findGrant_insert _ _ _ _ upd)|].
    apply findGrant_none in E. rewrite <- (list_fmap_id grants) at 1.
    apply list_fmap_ext. intros i g Hg. destruct (String.eqb_spec (grant_ID g) id); [|done].
    destruct E. subst id. apply list_elem_of_fmap_2. by apply list_elem_of_lookup_2 in Hg. }
  rewrite IH; [|rewrite <- list_fmap_compose|done].
  2:{ assert (grant_ID ∘ (λ h, if String.eqb (grant_ID h) id then upd h else h) <$> grants
              = grant_ID <$> grants) as ->; [|done].
      apply list_fmap_ext. intros i g _. unfold compose, upd.
      destruct (String.eqb (grant_ID g) id); [exact (aggregate_ID _ _)|done]. }
  rewrite <- list_fmap_compose. apply list_fmap_ext. intros i g _.
  unfold compose, refreshed. cbn [list_to_map foldr uncurry fst snd].
  destruct (String.eqb_spec (grant_ID g) id) as [Heq|Heq].
  - unfold upd. rewrite aggregate_ID.
    change (grant_ID (set_ReservationRevision (grant_ReservationRevision g + delta) g))
      with (grant_ID g). rewrite Heq.
    rewrite (not_elem_of_list_to_map_1 entries id) by done. by rewrite lookup_insert_eq.
  - by rewrite lookup_insert_ne.
Qed.

Lemma retain_use_evolves (instant : Time) (u : GrantUse) :
  use_State u = UseReserved → use_evolves u (retain_use instant u).
Proof.
  intros Hs. split; [done| |cbn; lia]. cbn. rewrite Hs. apply rtc_once. constructor.
Qed.

Lemma use_is_stale_reserved (grants : list Grant) (instant timeout : Z) (u : GrantUse) :
  use_is_stale grants instant timeout u = true → use_State u = UseReserved.
Proof.
  unfold use_is_stale, useReservationIsStale. destruct (findGrant _ _) as [[_ g]|]; [|done].
  intros H. by bool_to_prop.
Qed.

Lemma use_core_settle (t instant : Time) (target : UseState) (u : GrantUse) :
  use_core t u → t <= instant → useStateSettled (use_State u) = false →
  validUseState target = true → use_core instant (settle_use target instant u).
Proof.
  intros Hu Ht Hs Hv. pose proof (use_core_lifecycle t u Hu) as (Hr & Hup & Hz & _).
  specialize (Hz Hs). destruct Hu as [Hl Hc Hut]. split; [|done|cbn; lia].
  unfold validLoadedUseLifecycle, validUseSettlementTime, settle_use, time_is_zero,
    time_before. cbn.
  rewrite Hv. cbn.
  unfold validLoadedUseLifecycle, time_is_zero, time_before in Hl.
  destruct (negb (validUseState (use_State u)) || (use_Revision u <? 1)); [done|].
  bool_to_prop. rewrite Hz.
  destruct (Z.ltb_spec (use_Revision u + 1) 1); [lia|].
  destruct (Z.eqb_spec (use_CreatedAt u) 0); [done|].
  destruct (Z.ltb_spec instant (use_CreatedAt u)); [lia|]. cbn.
  destruct (useStateSettled target); cbn; [|done].
  destruct (Z.eqb_spec instant 0); [lia|]. cbn.
  destruct (Z.ltb_spec instant instant); [lia|done].
Qed.

(** ** Aggregates *)

Lemma aggregate_counts (g : Grant) (uses : list GrantUse) :
  grant_UsedCount (aggregateGrantUses g uses) = zsum (committed_count (grant_ID g)) uses
  ∧ grant_ReservedCount (aggregateGrantUses g uses) = zsum (open_count (grant_ID g)) uses.
Proof. rewrite aggregateGrantUses_summary. apply summarize_counts. Qed.

Lemma aggregate_core (g : Grant) (uses : list GrantUse) :
  grant_core g →
  (grant_MaxUses g = Unlimited
   ∨ zsum (committed_count (grant_ID g)) uses + zsum (open_count (grant_ID g)) uses
     <= grant_MaxUses g) →
  (idle (grant_Status g) = true →
   zsum (committed_count (grant_ID g)) uses = 0 ∧ zsum (open_count (grant_ID g)) uses = 0) →
  (grant_Status g = StatusConsumed →
   grant_MaxUses g <= zsum (committed_count (grant_ID g)) uses) →
  grant_core (aggregateGrantUses g uses).
Proof.
  destruct (aggregate_counts g uses) as [<- <-].
  intros [Hid Hm Hs Hf Ht Hd Hl Hn _ _ Hc] Hb Hi Hco.
  rewrite aggregateGrantUses_summary in *. split; try done.
  intros H. specialize (Hc H). specialize (Hco H). cbn in *. lia.
Qed.

Lemma aggregate_evolves (g : Grant) (uses : list GrantUse) :
  evolves g (aggregateGrantUses g uses)
  ∧ grant_Revision (aggregateGrantUses g uses) = grant_Revision g.
Proof. rewrite aggregateGrantUses_summary. by split. Qed.

Lemma zsum_filter {A} (f : A → Z) (p : A → bool) (l : list A) :
  zsum f (filter (λ a, p a = true) l) = zsum (λ a, if p a then f a else 0) l.
Proof.
  induction l as [|a l IH]; [done|]. rewrite filter_cons. cbn [zsum].
  destruct (p a); [rewrite decide_True by done; cbn [zsum]; by rewrite IH|].
  by rewrite decide_False by done.
Qed.

(** ** Stale reservations, continued *)

Section retain.
Context (t instant : Time) (o : Options) (d : FileData).
Context (Hd : core_ok t d) (Ht : t <= instant).

Let stale := use_is_stale (fd_Grants d) instant (opts_ReservationTimeout o).
Let uses' := (λ u, if stale u then retain_use instant u else u) <$> fd_Uses d.
Let changed := changed_grants (filter (λ u, stale u = true) (fd_Uses d)).

Lemma retained_sums (id : string) :
  zsum (committed_count id) uses' = zsum (committed_count id) (fd_Uses d)
  ∧ zsum (open_count id) uses' = zsum (open_count id) (fd_Uses d)
  ∧ zsum (revision_of id) uses'
    = zsum (revision_of id) (fd_Uses d)
      + zsum (λ u, if bool_decide (use_GrantID u = id) then 1 else 0)
          (filter (λ u, stale u = true) (fd_Uses d)).
Proof.
  unfold uses'. rewrite !zsum_fmap, zsum_filter, <- zsum_plus.
  split; [|split]; apply zsum_ext; intros u _;
    destruct (stale u) eqn:Hs; try done; try lia;
    apply use_is_stale_reserved in Hs;
    unfold committed_count, open_count, revision_of, retain_use; cbn; rewrite ?Hs;
    destruct (bool_decide _); done || lia.
Qed.

Lemma retained_other (id : string) :
  changed !! id = None → uses_of id uses' = uses_of id (fd_Uses d)
  ∧ zsum (revision_of id) uses' = zsum (revision_of id) (fd_Uses d).
Proof.
  unfold changed. rewrite changed_grants_lookup. case_bool_decide as Hin; [done|]. intros _.
  assert (∀ u, u ∈ fd_Uses d → use_GrantID u = id → stale u = false) as Hns.
  { intros u Hu Hid. destruct (stale u) eqn:E; [|done]. destruct Hin. rewrite <- Hid.
    apply list_elem_of_fmap_2, list_elem_of_filter. done. }
  unfold uses', uses_of. clear -Hns. induction (fd_Uses d) as [|u uses IH]; [done|].
  cbn [fmap list_fmap]. rewrite !filter_cons. cbn [zsum].
  destruct IH as [IHf IHr]; [intros; apply Hns; [by right|done]|].
  assert (use_GrantID (if stale u then retain_use instant u else u) = use_GrantID u) as Hid
    by (by destruct (stale u)).
  rewrite Hid. unfold revision_of at 1 3. rewrite Hid.
  destruct (decide (use_GrantID u = id)) as [He|He].
  - rewrite (Hns u) by (done || left). rewrite bool_decide_true by done.
    split; [f_equal; exact IHf|]. f_equal. exact IHr.
  - rewrite bool_decide_false by done. split; [exact IHf|]. f_equal. exact IHr.
Qed.

Lemma refreshed_ok (g : Grant) :
  g ∈ fd_Grants d →
  grant_core (refreshed uses' changed g) ∧ consistent uses' (refreshed uses' changed g).
Proof.
  intros Hg. pose proof (co_grants t d Hd g Hg) as Hgc.
  pose proof (co_consistent t d Hd g Hg) as Hc. unfold refreshed.
  destruct (changed !! grant_ID g) as [delta|] eqn:E.
  - pose proof (consistent_counts _ _ Hc) as [Hu Hr].
    apply consistent_iff in Hc as (_ & Hur & Hrr).
    destruct (retained_sums (grant_ID g)) as (Hsc & Hso & Hsr).
    assert (delta = zsum (λ u, if bool_decide (use_GrantID u = grant_ID g) then 1 else 0)
                      (filter (λ u, stale u = true) (fd_Uses d))) as ->.
    { unfold changed in E. rewrite changed_grants_lookup in E.
      case_bool_decide; [|done]. by injection E. }
    set (delta := zsum _ (filter _ _)) in *.
    set (g1 := set_ReservationRevision (grant_ReservationRevision g + delta) g).
    split.
    + apply aggregate_core.
      * by apply (grant_core_same g).
      * change (grant_ID g1) with (grant_ID g). rewrite Hsc, Hso, <- Hu, <- Hr.
        apply (gc_budget g Hgc).
      * change (grant_ID g1) with (grant_ID g). rewrite Hsc, Hso, <- Hu, <- Hr.
        apply (gc_idle g Hgc).
      * change (grant_ID g1) with (grant_ID g). rewrite Hsc, <- Hu.
        intros Hs. apply (gc_consumed g Hgc Hs).
    + apply consistent_aggregate.
      * change (grant_ID g1) with (grant_ID g). by rewrite Hsc.
      * change (grant_ID g1) with (grant_ID g). rewrite Hsr. cbn. by rewrite Hrr.
  - split; [done|]. destruct (retained_other (grant_ID g) E). by apply (consistent_other (fd_Uses d)).
Qed.

Lemma retain_at_grants :
  fd_Grants (fst (retain_at o instant d)) = refreshed uses' changed <$> fd_Grants d.
Proof.
  unfold retain_at. cbn [fst]. change (fd_Grants (set_Grants ?x ?y)) with x.
  rewrite refresh_loop; [|apply (co_ids t d Hd)|apply NoDup_map_range].
  f_equal. f_equal. rewrite <- (list_to_map_to_list changed).
  apply list_to_map_proper; [apply NoDup_map_range|apply map_range_perm].
Qed.

Lemma refreshed_evolves (g : Grant) :
  evolves g (refreshed uses' changed g)
  ∧ grant_Revision g = grant_Revision (refreshed uses' changed g).
Proof.
  unfold refreshed. destruct (changed !! grant_ID g) as [delta|]; [|by split].
  destruct (aggregate_evolves
    (set_ReservationRevision (grant_ReservationRevision g + delta) g) uses') as [He Hr].
  split; [|by rewrite Hr]. etrans; [|exact He]. by split.
Qed.

Lemma retain_at_ok :
  core_ok instant (fst (retain_at o instant d)) ∧ extends (=) d (fst (retain_at o instant d)).
Proof.
  split.
  - apply (core_ok_update t instant d _ (refreshed uses' changed)); try done.
    + apply retain_at_grants.
    + intros g Hg. destruct (refreshed_evolves g) as [He _].
      destruct (refreshed_ok g Hg) as [Hc Hcons].
      split; [by apply evolves_ID|]. split; [|done].
      destruct He as [He _]. unfold fixed_part in He. congruence.
    + change (fd_Uses (fst (retain_at o instant d))) with uses'. unfold uses'.
      rewrite <- list_fmap_compose.
      assert (use_RequestID ∘ (λ u, if stale u then retain_use instant u else u) <$> fd_Uses d
              = use_RequestID <$> fd_Uses d) as ->; [|apply (co_use_ids t d Hd)].
      apply list_fmap_ext. intros i u _. unfold compose. by destruct (stale u).
    + change (fd_Uses (fst (retain_at o instant d))) with uses'.
      intros u' (u & -> & Hu)%list_elem_of_fmap.
      destruct (co_uses t d Hd u Hu) as [Huc Ho].
      destruct (stale u) eqn:Hs; [|split; [by eapply use_core_later|done]].
      apply use_is_stale_reserved in Hs. split; [|done].
      apply (use_core_settle t instant UseRetained u); try done. by rewrite Hs.
    + apply (co_log t d Hd).
  - apply (extends_map _ d _ (refreshed uses' changed)); try done.
    + apply retain_at_grants.
    + intros g _. apply refreshed_evolves.
    + intros i u Hu. exists (if stale u then retain_use instant u else u).
      change (fd_Uses (fst (retain_at o instant d))) with uses'. unfold uses'.
      rewrite list_lookup_fmap, Hu. split; [done|].
      destruct (stale u) eqn:Hs; [|reflexivity].
      apply retain_use_evolves. by eapply use_is_stale_reserved.
Qed.
End retain.
End steps.
