(* ===== verification/GrantsSafety.v ===== *)
(** * Safety of the grant store

    Every operation of the store keeps the invariant of stored data and only
    extends what was stored, for every clock that does not run backwards, every
    source of fresh identifiers and every storage that keeps what it
    acknowledged.  The store's states are those reachable by any sequence of
    operations from any state that satisfies the invariant. *)

From S2P Require Export GrantsInvariant GrantsQuery.

Local Open Scope Z_scope.

(** What the lifecycle code relies on: wall-clock readings after Go's zero time
    that never go backwards, and identifiers that are never empty or reused. *)
Record clock_runs (clock : nat → Time) : Prop := {
  clock_positive : ∀ n, 0 < clock n;
  clock_monotone : ∀ n m, (n <= m)%nat → clock n <= clock m
}.

Record ids_fresh (new_id : nat → result error string) : Prop := {
  fresh_nonempty : ∀ n id, new_id n = Ok id → id ≠ EmptyString;
  fresh_distinct : ∀ n m id, new_id n = Ok id → new_id m = Ok id → n = m
}.

(** ** Reconciliation *)

Section reconcile.
Context {R : MapRange} (clock : nat → Time) (o : Options) (Hmax : 0 < opts_MaxEvents o).

(** The postcondition of a clocked computation; the clock only advances. *)
Definition clocked_post {A} (m : Clocked A) (t : nat) (Q : A → nat → Prop) : Prop :=
  let '(a, t') := m t in (t <= t')%nat ∧ Q a t'.

Lemma clocked_post_bind {A B} (m : Clocked A) (f : A → Clocked B) (t : nat)
    (P : A → nat → Prop) (Q : B → nat → Prop) :
  clocked_post m t P →
  (∀ a t', (t <= t')%nat → P a t' → clocked_post (f a) t' Q) →
  clocked_post (m ≫= f) t Q.
Proof.
  unfold clocked_post, mbind, clocked_bind. destruct (m t) as [a t'].
  intros [Ht HP] Hf. specialize (Hf a t' Ht HP). destruct (f a t') as [b t''].
  destruct Hf. split; [lia|done].
Qed.

Definition same_but_events (d d' : FileData) : Prop :=
  fd_Grants d' = fd_Grants d ∧ fd_Uses d' = fd_Uses d
  ∧ fd_DecisionRecords d' = fd_DecisionRecords d
  ∧ (log_ok (fd_Events d) (fd_NextEvent d) →
     log_ok (fd_Events d') (fd_NextEvent d') ∧ log_extends d d').

Lemma same_but_events_refl (d : FileData) : same_but_events d d.
Proof. do 3 (split; [done|]). intros Hl. split; [done|reflexivity]. Qed.

Lemma same_but_events_trans (d1 d2 d3 : FileData) :
  same_but_events d1 d2 → same_but_events d2 d3 → same_but_events d1 d3.
Proof.
  intros (? & ? & ? & K1) (? & ? & ? & K2).
  split; [congruence|]. split; [congruence|]. split; [congruence|]. intros Hl.
  destruct (K1 Hl) as [Hl2 L1]. destruct (K2 Hl2) as [Hl3 L2]. split; [done|by etrans].
Qed.

(** Publishing an event drops the oldest ones and adds one. *)
Lemma append_event_events (maxEvents : Z) (instant : Time) (kind : EventKind)
    (g previous : Grant) (d : FileData) :
  events_ordered 0 (fd_Events d) (fd_NextEvent d) →
  let d' := append_event_at maxEvents instant kind g previous d in
  fd_NextEvent d' = fd_NextEvent d + 1
  ∧ ∃ n e, ev_Sequence e = fd_NextEvent d ∧ fd_Events d' = drop n (fd_Events d ++ [e])
      ∧ (0 < maxEvents → (n <= length (fd_Events d))%nat).
Proof.
  intros He. pose proof (events_ordered_next _ _ _ He) as Hn. cbn zeta.
  unfold append_event_at. cbn. destruct (Z.eqb_spec (fd_NextEvent d) 0); [lia|]. split; [done|].
  set (e := MkEventRecord _ _ _ _ _ _ _ _ _ _ _ _).
  pose proof (length_app (fd_Events d) [e]) as Hl. cbn in Hl.
  destruct (Z.ltb_spec 0 (Z.of_nat (length (fd_Events d ++ [e])) - maxEvents)) as [Hlt|Hge].
  - eexists _, e. split; [done|]. split; [done|]. lia.
  - exists 0%nat, e. split; [done|]. split; [by rewrite drop_0|lia].
Qed.

Lemma append_event_ordered (maxEvents : Z) (instant : Time) (kind : EventKind)
    (g previous : Grant) (d : FileData) :
  events_ordered 0 (fd_Events d) (fd_NextEvent d) →
  let d' := append_event_at maxEvents instant kind g previous d in
  events_ordered 0 (fd_Events d') (fd_NextEvent d').
Proof.
  intros He. destruct (append_event_events maxEvents instant kind g previous d He)
    as (Hn & n & e & Hs & Hd & _). cbn zeta. rewrite Hn, Hd.
  by apply events_ordered_drop, events_ordered_app.
Qed.

Lemma append_event_same (instant : Time) (kind : EventKind) (g previous : Grant) (d : FileData) :
  same_but_events d (append_event_at (opts_MaxEvents o) instant kind g previous d).
Proof.
  split; [done|]. split; [done|]. split; [done|]. intros Hl.
  destruct (append_event_events (opts_MaxEvents o) instant kind g previous d (proj1 Hl))
    as (Hn & n & e & Hs & Hd & Hle). specialize (Hle Hmax). split.
  - rewrite Hn, Hd. by apply log_ok_append.
  - exists n, [e]. rewrite Hn, Hd, drop_app_le by done.
    split_and!; [done|by repeat constructor; rewrite Hs|lia|].
    intros _ [_ ?]%app_eq_nil. done.
Qed.

Lemma append_events_post (kinds : list EventKind) (g previous : Grant) (d : FileData) (t : nat) :
  clocked_post (append_events clock o d kinds g previous) t (λ d' _, same_but_events d d').
Proof.
  revert d t; induction kinds as [|kind kinds IH]; intros d t; cbn [append_events].
  { split; [done|]. apply same_but_events_refl. }
  eapply clocked_post_bind with (P := λ d' _, same_but_events d d').
  { unfold clocked_post, appendLifecycleEvent, now, mbind, clocked_bind, mret, clocked_ret.
    split; [lia|]. apply append_event_same. }
  intros d1 t' _ Hd. pose proof (IH d1 t') as H. unfold clocked_post in *.
  destruct (append_events _ _ d1 _ _ _ _) as [d2 t2].
  destruct H. split; [done|by eapply same_but_events_trans].
Qed.

Definition kinds_of (before : gmap string Grant) (g : Grant) : list EventKind :=
  lifecycleKinds (before !! grant_ID g) g.

(** What reconciliation does to a grant. *)
Definition reconciled (before : gmap string Grant) (g : Grant) : Grant :=
  if Nat.eqb (length (kinds_of before g)) 0 then g
  else set_Revision (next_revision (before !! grant_ID g)) g.

Definition any_kind (before : gmap string Grant) (grants : list Grant) : bool :=
  existsb (λ g, negb (Nat.eqb (length (kinds_of before g)) 0)) grants.

Lemma reconcile_from_post (before : gmap string Grant) (grants : list Grant) (d : FileData)
    (t : nat) :
  clocked_post (reconcile_from clock o before grants d) t
    (λ '(gs, d', changed) _, gs = reconciled before <$> grants ∧ same_but_events d d'
                             ∧ changed = any_kind before grants).
Proof.
  revert d t; induction grants as [|g grants IH]; intros d t; cbn [reconcile_from].
  { split; [done|]. split; [done|]. split; [apply same_but_events_refl|done]. }
  fold (kinds_of before g).
  unfold any_kind. cbn [existsb fmap list_fmap]. fold (any_kind before grants).
  unfold reconciled at 1. destruct (Nat.eqb (length (kinds_of before g)) 0) eqn:E; cbn.
  - eapply clocked_post_bind; [apply IH|].
    intros [[gs d'] c] t' _ (-> & Hd & ->). split; [done|]. done.
  - eapply clocked_post_bind; [apply append_events_post|]. intros d1 t1 _ Hd1. cbn beta in *.
    eapply clocked_post_bind; [apply IH|]. intros [[gs d'] c] t' _ (-> & Hd & ->).
    split; [done|]. split; [done|]. split; [by eapply same_but_events_trans|done].
Qed.

Lemma reconciled_core_part (before : gmap string Grant) (g : Grant) :
  fixed_part (reconciled before g) = fixed_part g
  ∧ core_part (reconciled before g) = core_part g
  ∧ failure_part (reconciled before g) = failure_part g
  ∧ grant_Status (reconciled before g) = grant_Status g
  ∧ grantUseAggregateFromGrant (reconciled before g) = grantUseAggregateFromGrant g.
Proof. unfold reconciled. by destruct (Nat.eqb _ _). Qed.

(** Every grant of the snapshot has been reconciled before, and every other
    one is new. *)
Definition revisions_known (before : gmap string Grant) (d : FileData) : Prop :=
  (∀ id p, before !! id = Some p → 1 <= grant_Revision p)
  ∧ ∀ g, g ∈ fd_Grants d → before !! grant_ID g = None ∨ 1 <= grant_Revision g.

Lemma reconcileLifecycle_post (before : gmap string Grant) (d : FileData) (bound : Time)
    (t : nat) :
  core_ok bound d → revisions_known before d →
  clocked_post (reconcileLifecycle clock o d before) t
    (λ '(d', changed) _, data_ok bound d'
       ∧ fd_Grants d' = reconciled before <$> fd_Grants d
       ∧ fd_Uses d' = fd_Uses d ∧ fd_DecisionRecords d' = fd_DecisionRecords d
       ∧ log_extends d d'
       ∧ changed = any_kind before (fd_Grants d)).
Proof.
  intros Hd [Hbefore Hrev].
  eapply clocked_post_bind; [apply reconcile_from_post|].
  intros [[gs d1] changed] t' _ (-> & (Hg & Hu & Hdec & He) & ->).
  destruct (He (co_log bound d Hd)) as [Hlok Hlog]. split; [done|]. cbn [fst snd set_Grants fd_Grants fd_Uses fd_DecisionRecords fd_Events].
  split; [|by split_and!]. split.
  - apply (core_ok_update bound bound d _ (reconciled before)); try done; cbn.
    + intros g Hin. destruct (reconciled_core_part before g) as (Hfix & Hcp & Hfp & Hs & Ha).
      assert (grant_ID (reconciled before g) = grant_ID g
              ∧ grant_Operation (reconciled before g) = grant_Operation g) as [Hi Ho]
        by (unfold core_part in Hcp; split; congruence).
      split; [done|]. split; [done|]. split.
      * by apply (grant_core_same g), (co_grants bound d).
      * apply (consistent_fields _ g); [done|done|]. rewrite Hu. by apply (co_consistent bound d).
    + rewrite Hu. apply (co_use_ids bound d Hd).
    + rewrite Hu. apply (co_uses bound d Hd).
  - intros g' (g & -> & Hin)%list_elem_of_fmap. unfold reconciled, kinds_of.
    destruct (before !! grant_ID g) as [p|] eqn:E.
    + destruct (Nat.eqb _ _); [destruct (Hrev g Hin); [congruence|done]|].
      cbn. specialize (Hbefore _ _ E). lia.
    + cbn. done.
Qed.
End reconcile.

(** ** Worlds *)

Section worlds.
Context {R : MapRange} {GS : GrantStorage} {GL : GrantStorageLaws}
  (clock : nat → Time) (new_id : nat → result error string) (o : Options).
Context (Hclock : clock_runs clock) (Hids : ids_fresh new_id) (Hmax : 0 < opts_MaxEvents o).

(** Every identifier was drawn before. *)
Definition ids_drawn (n : nat) (d : FileData) : Prop :=
  ∀ g, g ∈ fd_Grants d → ∃ m, (m < n)%nat ∧ new_id m = Ok (grant_ID g).

(** Storage holds data that satisfies the invariant. *)
Definition holds (w : World) (d : FileData) : Prop :=
  loadRaw (w_storage w) = Ok d ∧ data_ok (clock (w_tick w)) d ∧ ids_drawn (w_ids w) d.

Definition world_ok (w : World) : Prop := ∃ d, holds w d.

(** The worlds an operation may lead to: the invariant holds again and every
    stored record is still there, as a successor of what it was. *)
Definition leads_to (w w' : World) : Prop :=
  ∀ d, holds w d →
    (w_tick w <= w_tick w')%nat ∧ (w_ids w <= w_ids w')%nat
    ∧ ∃ d', holds w' d' ∧ continues d d'.

#[local] Instance leads_to_preorder : PreOrder leads_to.
Proof.
  split.
  - intros w d Hd. split; [lia|]. split; [lia|]. exists d. split; [done|reflexivity].
  - intros w1 w2 w3 H1 H2 d Hd. destruct (H1 d Hd) as (? & ? & d2 & Hd2 & E1).
    destruct (H2 d2 Hd2) as (? & ? & d3 & Hd3 & E2). split; [lia|]. split; [lia|].
    exists d3. split; [done|]. by etrans.
Qed.

Lemma holds_later (w w' : World) (d : FileData) :
  loadRaw (w_storage w') = loadRaw (w_storage w) →
  (w_tick w <= w_tick w')%nat → (w_ids w <= w_ids w')%nat → holds w d → holds w' d.
Proof.
  intros Hs Ht Hi (Hl & Hd & Hn). split; [congruence|]. split.
  - eapply data_ok_later; [by apply (clock_monotone clock Hclock)|done].
  - intros g Hg. destruct (Hn g Hg) as (m & ? & ?). exists m. split; [lia|done].
Qed.

(** A step that leaves storage alone. *)
Lemma leads_to_same (w w' : World) :
  loadRaw (w_storage w') = loadRaw (w_storage w) →
  (w_tick w <= w_tick w')%nat → (w_ids w <= w_ids w')%nat → leads_to w w'.
Proof.
  intros Hs Ht Hi d Hd. split; [done|]. split; [done|]. exists d.
  split; [by eapply holds_later|reflexivity].
Qed.

Definition safe {A} (m : Eff A) : Prop := ∀ w, leads_to w (snd (m w)).

Lemma safe_bind {A B} (m : Eff A) (f : A → Eff B) :
  safe m → (∀ a, safe (f a)) → safe (m ≫= f).
Proof.
  intros Hm Hf w. unfold mbind, eff_bind. specialize (Hm w).
  destruct (m w) as [a w']. etrans; [exact Hm|apply Hf].
Qed.

Lemma safe_ret {A} (a : A) : safe (mret a : Eff A).
Proof. intros w. cbn. reflexivity. Qed.

Lemma safe_and_then {A B} (m : Eff (result error A)) (f : A → Eff (result error B)) :
  safe m → (∀ a, safe (f a)) → safe (and_then m f).
Proof. intros Hm Hf. apply safe_bind; [done|]. intros [a|e]; [apply Hf|apply safe_ret]. Qed.

Lemma safe_load : safe load.
Proof. intros w. cbn. reflexivity. Qed.

Lemma safe_now : safe (clocked (now clock)).
Proof. intros w. apply leads_to_same; cbn; lia || done. Qed.

Lemma holds_load (w : World) (d : FileData) :
  holds w d → fst (load w) = Ok d ∧ snd (load w) = w.
Proof.
  intros (Hl & Hd & _). unfold load. cbn. rewrite Hl. cbn.
  by rewrite (data_ok_loads _ d Hd).
Qed.

(** A saved state that satisfies the invariant and extends the stored one. *)
Definition saveable (w : World) (d : FileData) : Prop :=
  data_ok (clock (w_tick w)) d ∧ ids_drawn (w_ids w) d
  ∧ ∀ d0, loadRaw (w_storage w) = Ok d0 → extends Z.le d0 d.

Lemma save_leads (w : World) (d : FileData) (plan : option PlanRecord) :
  saveable w d → leads_to w (snd (saveWithPlan d plan w)).
Proof.
  intros (Hd & Hn & Hext). unfold saveWithPlan.
  destruct (saveRaw (w_storage w) d plan) as [r s] eqn:E. cbn.
  intros d0 Hd0. split; [done|]. split; [done|].
  pose proof (proj1 Hd0) as Hl0. specialize (Hext d0 Hl0).
  assert (loadRaw s = loadRaw (w_storage w) ∨ ∃ d', loadRaw s = Ok d' ∧ stored_as d d')
    as [Hs|(d' & Hs & Hst)].
  { pose proof (core_ok_writable _ _ d0 d (do_core _ _ Hd) Hext) as Hwr.
    destruct r as [[]|e]; [right; by eapply save_ok_load|by eapply save_err_load]. }
  - exists d0. split; [|reflexivity]. by apply (holds_later w).
  - exists d'. split; [|eapply extends_stored; [by apply (load_reread _ _ Hl0)|done|done]].
    split; [done|]. split; [by eapply data_ok_stored|].
    intros g Hg. rewrite (stored_Grants _ _ Hst) in Hg. by apply Hn.
Qed.

Lemma signal_leads (w : World) (a b : Z) : leads_to w (snd (signalNewEvents a b w)).
Proof.
  unfold signalNewEvents. cbn. destruct (a =? b); [reflexivity|].
  apply leads_to_same; done.
Qed.

Lemma safe_signal (a b : Z) : safe (signalNewEvents a b).
Proof. intros w. apply signal_leads. Qed.

(** Save, then continue with safe steps. *)
Lemma save_then {A} (w : World) (d : FileData) (plan : option PlanRecord)
    (f : result error unit → Eff A) :
  saveable w d → (∀ r, safe (f r)) → leads_to w (snd ((saveWithPlan d plan ≫= f) w)).
Proof.
  intros Hs Hf. unfold mbind, eff_bind. pose proof (save_leads w d plan Hs) as H.
  destruct (saveWithPlan d plan w) as [r w']. etrans; [exact H|apply Hf].
Qed.

(** ** Prepared data *)

(** Working data of a transaction that started from [d0]. *)
Record working (d0 : FileData) (w : World) (d : FileData) : Prop := {
  wk_core : core_ok (clock (w_tick w)) d;
  wk_ids : ids_drawn (w_ids w) d;
  wk_extends : extends (=) d0 d
}.

Lemma clocked_world {A} (m : Clocked A) (w : World) :
  clocked m w = (fst (m (w_tick w)),
                 MkWorld (w_storage w) (snd (m (w_tick w))) (w_ids w) (w_signals w)).
Proof. unfold clocked. by destruct (m (w_tick w)). Qed.

Lemma ids_drawn_extends (rel : Z → Z → Prop) (n : nat) (d d' : FileData) :
  extends rel d d' → length (fd_Grants d') = length (fd_Grants d) →
  ids_drawn n d → ids_drawn n d'.
Proof.
  intros [G _ _ _] Hl Hn g' [i Hi]%list_elem_of_lookup.
  destruct (lookup_lt_is_Some_2 (fd_Grants d) i) as [g Hg].
  { rewrite <- Hl. by eapply lookup_lt_Some. }
  destruct (G i g Hg) as (g2 & Hg2 & He & _). assert (g2 = g') as -> by congruence.
  rewrite (evolves_ID g g') by done. apply Hn. by apply list_elem_of_lookup_2 in Hg.
Qed.

(** A lifecycle step of a transaction: it keeps the working invariant and
    neither adds nor removes grants. *)
Definition prepares (prepare : FileData → Clocked (FileData * bool)) : Prop :=
  ∀ d t, core_ok (clock t) d →
    clocked_post (prepare d) t (λ '(d', _) t', core_ok (clock t') d' ∧ extends (=) d d'
      ∧ length (fd_Grants d') = length (fd_Grants d)).

Lemma core_ok_tick (t t' : nat) (d : FileData) :
  (t <= t')%nat → core_ok (clock t) d → core_ok (clock t') d.
Proof. intros Ht. apply core_ok_later. by apply (clock_monotone clock Hclock). Qed.

Lemma expireDue_prepares : prepares (expireDue clock).
Proof.
  intros d t Hd. unfold clocked_post, expireDue, now, mbind, clocked_bind, mret, clocked_ret.
  destruct (expire_at_ok (clock t) (clock t) d Hd) as [Hc He].
  assert (length (fd_Grants (fst (expire_at (clock t) d))) = length (fd_Grants d)) as Hl
    by apply length_fmap.
  destruct (expire_at (clock t) d) as [d' c]. cbn in Hc, He, Hl. split; [lia|].
  split; [|done]. by apply (core_ok_tick t); [lia|].
Qed.

Lemma retain_prepares : prepares (retainStaleReservations clock o).
Proof.
  intros d t Hd.
  unfold clocked_post, retainStaleReservations, now, mbind, clocked_bind, mret, clocked_ret.
  destruct (retain_at_ok (clock t) (clock t) o d Hd ltac:(lia)) as [Hc He].
  pose proof (retain_at_grants (clock t) (clock t) o d Hd) as Hg.
  destruct (retain_at o (clock t) d) as [d' c]. cbn in Hc, He, Hg. split; [lia|].
  split; [by apply (core_ok_tick t); [lia|]|]. split; [done|]. by rewrite Hg, length_fmap.
Qed.

Lemma prepareLifecycle_prepares : prepares (prepareLifecycle clock o).
Proof.
  intros d t Hd. eapply clocked_post_bind; [by apply expireDue_prepares|].
  intros [d1 c1] t1 _ (Hd1 & He1 & Hl1).
  eapply clocked_post_bind; [by apply retain_prepares|].
  intros [d2 c2] t2 _ (Hd2 & He2 & Hl2). split; [done|].
  split; [done|]. split; [by etrans|congruence].
Qed.

(** Preparing the data of a transaction. *)
Lemma prepare_working (prepare : FileData → Clocked (FileData * bool)) (w : World)
    (d0 d : FileData) :
  prepares prepare → working d0 w d →
  let '((d', _), w') := clocked (prepare d) w in
  working d0 w' d' ∧ w_storage w' = w_storage w
  ∧ (w_tick w <= w_tick w')%nat ∧ w_ids w' = w_ids w.
Proof.
  intros Hp [Hc Hi He]. rewrite clocked_world.
  pose proof (Hp d (w_tick w) Hc) as H. unfold clocked_post in H.
  destruct (prepare d (w_tick w)) as [[d' c] t']. cbn. destruct H as (Ht & Hc' & He' & Hl).
  split; [|done]. split; cbn; [done| |by etrans].
  by apply (ids_drawn_extends (=) _ d).
Qed.

Lemma working_revisions (w : World) (d0 d : FileData) :
  NoDup (ids_of d0) → (∀ g, g ∈ fd_Grants d0 → 1 <= grant_Revision g) →
  working d0 w d → revisions_known (grantSnapshots (fd_Grants d0)) d.
Proof.
  intros Hnd Hrev [Hc _ [G _ _ _]]. split.
  - intros id p. rewrite lookup_grantSnapshots by done.
    destruct (findGrant (fd_Grants d0) id) as [[i g]|] eqn:E; [|done].
    cbn. intros [= <-]. apply findGrant_some in E as [Hi _].
    apply Hrev. by apply list_elem_of_lookup_2 in Hi.
  - intros g' Hg'. rewrite lookup_grantSnapshots by done.
    destruct (findGrant (fd_Grants d0) (grant_ID g')) as [[i g]|] eqn:E; [right|by left].
    apply findGrant_some in E as [Hi Heq]. destruct (G i g Hi) as (g2 & Hg2 & He & Hr).
    assert (g2 = g') as <-.
    { apply list_elem_of_lookup in Hg' as [j Hj].
      assert (j = i) as ->; [|congruence].
      eapply NoDup_lookup; [apply (co_ids _ _ Hc)| |].
      - by rewrite list_lookup_fmap, Hj.
      - rewrite list_lookup_fmap, Hg2. cbn. f_equal. rewrite (evolves_ID g g2) by done. done. }
    rewrite <- Hr. apply Hrev. by apply list_elem_of_lookup_2 in Hi.
Qed.

(** The snapshot has every stored grant, with at least its stored revision. *)
Definition snapshot_of (d0 : FileData) (before : gmap string Grant) : Prop :=
  ∀ g, g ∈ fd_Grants d0 →
    ∃ p, before !! grant_ID g = Some p ∧ grant_Revision g <= grant_Revision p.

Lemma grantSnapshots_of (d0 : FileData) :
  NoDup (ids_of d0) → snapshot_of d0 (grantSnapshots (fd_Grants d0)).
Proof.
  intros Hnd g Hg. exists g. rewrite lookup_grantSnapshots by done.
  destruct (findGrant_elem _ g Hnd Hg) as (i & ->). done.
Qed.

Lemma reconciled_extends (d0 d d' : FileData) (before : gmap string Grant) :
  snapshot_of d0 before → extends Z.le d0 d →
  fd_Grants d' = reconciled before <$> fd_Grants d →
  fd_Uses d' = fd_Uses d → fd_DecisionRecords d' = fd_DecisionRecords d →
  log_extends d d' →
  extends Z.le d0 d'.
Proof.
  intros Hsnap [G U D L] Hg Hu Hdec Hlog.
  split; [|by rewrite Hu|by rewrite Hdec|by etrans].
  intros i g Hi. destruct (G i g Hi) as (g' & Hg' & He & Hr).
  exists (reconciled before g'). rewrite Hg, list_lookup_fmap, Hg'.
  destruct (reconciled_core_part before g') as (Hf & _ & _ & Hs & _).
  split; [done|]. split.
  - etrans; [exact He|]. split; [done|by rewrite Hs].
  - unfold reconciled. rewrite (evolves_ID g g') by done.
    destruct (Hsnap g) as (p & -> & Hp); [by apply list_elem_of_lookup_2 in Hi|].
    destruct (Nat.eqb _ _); cbn; lia.
Qed.

(** Reconciling data that satisfies the working invariant makes it saveable. *)
Lemma reconcile_saveable_with (w : World) (d0 d : FileData) (before : gmap string Grant) :
  loadRaw (w_storage w) = Ok d0 → core_ok (clock (w_tick w)) d → ids_drawn (w_ids w) d →
  extends Z.le d0 d → snapshot_of d0 before → revisions_known before d →
  let '((d', _), w') := clocked (reconcileLifecycle clock o d before) w in
  saveable w' d' ∧ fd_Grants d' = reconciled before <$> fd_Grants d
  ∧ fd_DecisionRecords d' = fd_DecisionRecords d
  ∧ w_storage w' = w_storage w
  ∧ (w_tick w <= w_tick w')%nat ∧ w_ids w' = w_ids w.
Proof.
  intros Hl Hc Hi He Hsnap Hrev. rewrite clocked_world.
  pose proof (reconcileLifecycle_post clock o Hmax _ d _ (w_tick w) Hc Hrev) as H.
  unfold clocked_post in H.
  destruct (reconcileLifecycle _ _ _ _ _) as [[d' c] t']. cbn.
  destruct H as (Ht & Hd' & Hg & Hu & Hdec & Hlog & _).
  split; [|done]. split; [|split]; cbn.
  - eapply data_ok_later; [by apply (clock_monotone clock Hclock)|done].
  - intros g'. rewrite Hg. intros (g & -> & Hin)%list_elem_of_fmap.
    destruct (reconciled_core_part before g) as (_ & Hcp & _).
    unfold core_part in Hcp. assert (grant_ID (reconciled before g) = grant_ID g) as ->
      by congruence. by apply Hi.
  - intros d1 Hl1. assert (d1 = d0) as -> by congruence.
    by apply (reconciled_extends d0 d d' before).
Qed.

(** Reconciling the working data of a transaction makes it saveable. *)
Lemma reconcile_saveable (w : World) (d0 d : FileData) :
  holds w d0 → working d0 w d →
  let '((d', _), w') := clocked (reconcileLifecycle clock o d (grantSnapshots (fd_Grants d0))) w in
  saveable w' d' ∧ leads_to w w' ∧ holds w' d0.
Proof.
  intros Hw Hwk. pose proof Hw as (Hl & [Hc0 Hr0] & Hn0). pose proof (co_ids _ _ Hc0) as Hnd.
  pose proof (working_revisions w d0 d Hnd Hr0 Hwk) as Hrev.
  destruct Hwk as [Hc Hi He].
  pose proof (reconcile_saveable_with w d0 d _ Hl Hc Hi
    (extends_weaken _ _ _ _ Z.eq_le_incl He)
    (grantSnapshots_of d0 Hnd) Hrev) as H.
  destruct (clocked _ w) as [[d' c] w']. destruct H as (Hs & _ & _ & Hst & Ht & Hid).
  split; [done|]. split.
  - apply leads_to_same; [congruence|done|lia].
  - apply (holds_later w); [congruence|done|lia|done].
Qed.

(** ** Transactions *)

(** A mutator keeps the working invariant and leaves storage alone. *)
Definition mutates {A} (m : Mutator A) : Prop :=
  ∀ d0 d w, working d0 w d → (∀ g, g ∈ fd_Grants d0 → 1 <= grant_Revision g) →
    let '((d', _), w') := m d w in
    working d0 w' d' ∧ w_storage w' = w_storage w
    ∧ (w_tick w <= w_tick w')%nat ∧ (w_ids w <= w_ids w')%nat.

Lemma holds_working (w : World) (d : FileData) : holds w d → working d w d.
Proof. intros (_ & [Hc _] & Hi). split; [done|done|reflexivity]. Qed.

(** The end of a transaction: reconcile, then perhaps save, then safe steps. *)
Lemma reconcile_then {A} (w : World) (d0 d : FileData) (k : FileData * bool → Eff A) :
  holds w d0 → working d0 w d →
  (∀ w' d' c, saveable w' d' → leads_to w' (snd (k (d', c) w'))) →
  leads_to w
    (snd ((clocked (reconcileLifecycle clock o d (grantSnapshots (fd_Grants d0))) ≫= k) w)).
Proof.
  intros Hw Hwk Hk. pose proof (reconcile_saveable w d0 d Hw Hwk) as H.
  unfold mbind, eff_bind. destruct (clocked _ w) as [[d' c] w'].
  destruct H as (Hs & Hl & _). etrans; [exact Hl|]. by apply Hk.
Qed.

(** A step that keeps storage, in front of the rest of a transaction. *)
Lemma working_step (w w' : World) (d0 d : FileData) :
  holds w d0 → w_storage w' = w_storage w → (w_tick w <= w_tick w')%nat →
  (w_ids w <= w_ids w')%nat → holds w' d0 ∧ leads_to w w'.
Proof.
  intros Hw Hs Ht Hi. split.
  - by apply (holds_later w); [congruence|..].
  - apply leads_to_same; [congruence|done|done].
Qed.

Lemma safe_then_ret {A B} (m : Eff A) (b : B) : safe m → safe (m;; mret b).
Proof. intros Hm. apply safe_bind; [done|]. intros _. apply safe_ret. Qed.

Lemma from_load {A} (k : FileData → Eff (result error A)) :
  (∀ w d, holds w d → leads_to w (snd (k d w))) → safe (and_then load k).
Proof.
  intros Hk w d Hd. destruct (holds_load w d Hd) as [H1 H2].
  unfold and_then, mbind, eff_bind. destruct (load w) as [r w'] eqn:E. cbn in H1, H2.
  subst r w'. by apply (Hk w d Hd d).
Qed.

Lemma updateWithPlan_safe {A} (plan : option PlanRecord) (m : Mutator A) :
  mutates m → safe (updateWithPlan clock o plan m).
Proof.
  intros Hm. apply from_load. intros w d0 Hw.
  pose proof (prepare_working _ w d0 d0 prepareLifecycle_prepares (holds_working w d0 Hw)) as H1.
  unfold mbind at 1, eff_bind at 1.
  destruct (clocked (prepareLifecycle clock o d0) w) as [[d1 changed] w1].
  destruct H1 as (Hwk1 & Hs1 & Ht1 & Hi1).
  destruct (working_step w w1 d0 d1 Hw Hs1 Ht1 ltac:(lia)) as [Hw1 Hl1].
  etrans; [exact Hl1|]. clear Hl1 Hw.
  pose proof (Hm d0 d1 w1 Hwk1 ltac:(apply Hw1)) as H2.
  unfold mbind at 1, eff_bind at 1. destruct (m d1 w1) as [[d2 r] w2].
  destruct H2 as (Hwk2 & Hs2 & Ht2 & Hi2).
  destruct (working_step w1 w2 d0 d2 Hw1 Hs2 Ht2 Hi2) as [Hw2 Hl2].
  etrans; [exact Hl2|]. destruct r as [a|err].
  - apply (reconcile_then w2 d0 d2); [done|done|]. intros w' d' c Hsv.
    apply save_then; [done|]. intros [[]|e]; [|apply safe_ret].
    apply safe_then_ret, safe_signal.
  - apply (reconcile_then w2 d0 d2); [done|done|]. intros w' d' c Hsv.
    destruct (c || changed); [|reflexivity].
    apply save_then; [done|]. intros [[]|e]; [|apply safe_ret].
    apply safe_then_ret, safe_signal.
Qed.

Lemma read_prepared_safe {A} (prepare : FileData → Clocked (FileData * bool))
    (select : FileData → Eff (result error A)) :
  prepares prepare →
  (∀ d w, w_storage (snd (select d w)) = w_storage w
          ∧ (w_tick w <= w_tick (snd (select d w)))%nat
          ∧ w_ids (snd (select d w)) = w_ids w) →
  safe (read_prepared clock o prepare select).
Proof.
  intros Hp Hsel. apply from_load. intros w d0 Hw.
  pose proof (prepare_working _ w d0 d0 Hp (holds_working w d0 Hw)) as H1.
  unfold mbind at 1, eff_bind at 1. destruct (clocked (prepare d0) w) as [[d1 changed] w1].
  destruct H1 as (Hwk1 & Hs1 & Ht1 & Hi1).
  destruct (working_step w w1 d0 d1 Hw Hs1 Ht1 ltac:(lia)) as [Hw1 Hl1].
  etrans; [exact Hl1|]. apply (reconcile_then w1 d0 d1); [done|done|].
  intros w' d' c Hsv. unfold and_then at 1, mbind at 1, eff_bind at 1.
  destruct (Hsel d' w') as (Hs & Ht & Hi). destruct (select d' w') as [r w2]. cbn in Hs, Ht, Hi.
  assert (leads_to w' w2) as Hl2 by (apply leads_to_same; [congruence|done|lia]).
  etrans; [exact Hl2|]. destruct r as [a|e]; [|reflexivity].
  destruct (c || changed); [|reflexivity].
  apply save_then.
  - destruct Hsv as (Hd & Hn & Hext). split; [|split].
    + eapply data_ok_later; [by apply (clock_monotone clock Hclock)|done].
    + by rewrite Hi.
    + by rewrite Hs.
  - intros [[]|e]; [|apply safe_ret]. apply safe_then_ret, safe_signal.
Qed.

(** ** Mutators *)

(** Writing one grant back, perhaps with changed uses. *)
Lemma put_grant (d0 d d' : FileData) (w w' : World) (id : string) (i : nat) (g g' : Grant) :
  working d0 w d → (w_tick w <= w_tick w')%nat → (w_ids w <= w_ids w')%nat →
  findGrant (fd_Grants d) id = Some (i, g) →
  fd_Grants d' = <[i := g']> (fd_Grants d) →
  fd_DecisionRecords d' = fd_DecisionRecords d →
  fd_Events d' = fd_Events d → fd_NextEvent d' = fd_NextEvent d →
  evolves g g' → grant_Revision g' = grant_Revision g →
  grant_core g' → consistent (fd_Uses d') g' →
  (∀ h, h ∈ fd_Grants d → grant_ID h ≠ id → consistent (fd_Uses d') h) →
  NoDup (use_RequestID <$> fd_Uses d') →
  (∀ u, u ∈ fd_Uses d' → use_core (clock (w_tick w')) u ∧ owned (fd_Grants d) u) →
  (∀ j u, fd_Uses d !! j = Some u → ∃ u', fd_Uses d' !! j = Some u' ∧ use_evolves u u') →
  working d0 w' d'.
Proof.
  intros [Hc Hi He] Ht Hn Hf Hg Hdec Hev Hnx Hevo Hrev Hcore Hcons Hoth Hnd Huse Hext.
  pose proof (co_ids _ _ Hc) as Hids'.
  pose proof (findGrant_some _ _ _ _ Hf) as [Hlk Hid].
  rewrite (findGrant_insert _ _ _ _ (λ _, g') Hids' Hf) in Hg.
  set (f := λ h, if String.eqb (grant_ID h) id then g' else h) in Hg.
  assert (∀ h, h ∈ fd_Grants d → h = g ∧ f h = g' ∨ grant_ID h ≠ id ∧ f h = h) as Hcases.
  { intros h Hh. unfold f. destruct (String.eqb_spec (grant_ID h) id) as [Heq|]; [left|by right].
    split; [|done]. destruct (findGrant_elem _ h Hids' Hh) as (j & Hj).
    rewrite Heq, Hf in Hj. congruence. }
  assert (∀ h, h ∈ fd_Grants d → evolves h (f h) ∧ grant_Revision h = grant_Revision (f h)) as Hfe.
  { intros h Hh. destruct (Hcases h Hh) as [[-> ->]|[_ ->]]; [done|]. by split. }
  assert (extends (=) d d') as Hdd'.
  { by apply (extends_map _ d d' f). }
  split; [|apply (ids_drawn_extends (=) _ d); [done|by rewrite Hg, length_fmap|]|by etrans].
  - apply (core_ok_update (clock (w_tick w)) _ d d' f); try done.
    + by apply (clock_monotone clock Hclock).
    + intros h Hh. destruct (Hfe h Hh) as [He' _]. split; [by apply evolves_ID|].
      split; [destruct He' as [He' _]; unfold fixed_part in He'; congruence|].
      destruct (Hcases h Hh) as [[-> ->]|[Hne ->]]; [done|].
      split; [by apply (co_grants _ _ Hc)|by apply Hoth].
    + rewrite Hev, Hnx. apply (co_log _ _ Hc).
  - intros h Hh. destruct (Hi h Hh) as (m & ? & ?). exists m. split; [lia|done].
Qed.

(** The same when only the status and the decision of the grant change. *)
Lemma put_status (d0 d : FileData) (w w' : World) (id : string) (i : nat) (g g' : Grant) :
  working d0 w d → (w_tick w <= w_tick w')%nat → w_ids w' = w_ids w →
  findGrant (fd_Grants d) id = Some (i, g) →
  evolves g g' → grant_Revision g' = grant_Revision g →
  grantUseAggregateFromGrant g' = grantUseAggregateFromGrant g → grant_core g' →
  working d0 w' (set_Grants (<[i := g']> (fd_Grants d)) d).
Proof.
  intros Hwk Ht Hn Hf Hevo Hrev Hagg Hcore. destruct (wk_core _ _ _ Hwk) as [_ _ Hnd Huse Hcons _ _].
  apply (put_grant d0 d _ w w' id i g g'); try done.
  - lia.
  - apply (consistent_fields _ g); [by apply evolves_ID|done|]. apply Hcons.
    apply findGrant_some in Hf as [Hf _]. by apply list_elem_of_lookup_2 in Hf.
  - intros h Hh _. by apply Hcons.
  - intros u Hu. destruct (Huse u Hu). split; [|done].
    eapply use_core_later; [by apply (clock_monotone clock Hclock)|done].
  - intros j u Hu. exists u. split; [done|reflexivity].
Qed.

(** Closing an open grant of a given status. *)
Lemma close_grant_ok (g : Grant) (status : Status) (instant : Time) (by_whom : string) :
  grant_core g → status_step (grant_Status g) status →
  status ≠ StatusConsumed → status ≠ StatusFailed →
  (idle status = true → idle (grant_Status g) = true) →
  grant_core (close_grant status instant by_whom g)
  ∧ evolves g (close_grant status instant by_whom g).
Proof.
  intros Hg Hstep Hnc Hnf Hidle. split.
  - apply (grant_core_step g); [done| | |done|done|done].
    + cbn. by destruct Hstep.
    + apply (validGrantFailure_other g); [done| |done|apply (gc_failure g Hg)].
      intros Hs. rewrite Hs in Hstep. inversion Hstep.
  - split; [done|]. cbn. by apply rtc_once.
Qed.

Lemma clocked_now (w : World) :
  clocked (now clock) w
  = (clock (w_tick w), MkWorld (w_storage w) (S (w_tick w)) (w_ids w) (w_signals w)).
Proof. done. Qed.

(** A mutator that refuses. *)
Lemma mutates_refuse {A} (d0 d : FileData) (w : World) (e : result error A) :
  working d0 w d →
  let '((d', _), w') := (mret (d, e) : Eff (FileData * result error A)) w in
  working d0 w' d' ∧ w_storage w' = w_storage w
  ∧ (w_tick w <= w_tick w')%nat ∧ (w_ids w <= w_ids w')%nat.
Proof. intros Hwk. cbn. done. Qed.

Lemma mutates_refuse_later {A} (d0 d : FileData) (w : World) (e : result error A) :
  working d0 w d →
  let '((d', _), w') := (mret (d, e) : Eff (FileData * result error A))
                          (MkWorld (w_storage w) (S (w_tick w)) (w_ids w) (w_signals w)) in
  working d0 w' d' ∧ w_storage w' = w_storage w
  ∧ (w_tick w <= w_tick w')%nat ∧ (w_ids w <= w_ids w')%nat.
Proof.
  intros [Hc Hi He]. cbn. split; [|split; [done|lia]].
  split; [by apply (core_ok_tick (w_tick w)); [cbn; lia|]|done|done].
Qed.

Lemma working_core (d0 d : FileData) (w : World) (i : nat) (id : string) (g : Grant) :
  working d0 w d → findGrant (fd_Grants d) id = Some (i, g) → grant_core g.
Proof.
  intros [Hc _ _] [Hf _]%findGrant_some. apply (co_grants _ _ Hc).
  by apply list_elem_of_lookup_2 in Hf.
Qed.

Lemma revoke_mutates (id approver : string) : mutates (revoke_mutator clock id approver).
Proof.
  intros d0 d w Hwk _. unfold revoke_mutator.
  destruct (findGrant (fd_Grants d) id) as [[i g]|] eqn:Hf; [|by apply mutates_refuse].
  case_bool_decide as Hs; [|by apply mutates_refuse]. cbn.
  destruct (close_grant_ok g StatusRevoked (clock (w_tick w)) approver) as [Hc He]; try done.
  { by eapply working_core. }
  { rewrite Hs. constructor. }
  split; [|split; [done|cbn; lia]].
  eapply put_status; try done. cbn. lia.
Qed.

Lemma close_mutates (id client : string) (required next : Status) :
  status_step required next → next ≠ StatusConsumed → next ≠ StatusFailed →
  (idle next = true → idle required = true) →
  mutates (close_mutator clock id client required next).
Proof.
  intros Hstep Hnc Hnf Hidle d0 d w Hwk _. unfold close_mutator.
  destruct (findGrant (fd_Grants d) id) as [[i g]|] eqn:Hf; [|by apply mutates_refuse].
  destruct (negb (String.eqb (grant_Client g) client)); [by apply mutates_refuse|].
  case_bool_decide as Hs; [|by apply mutates_refuse]. cbn.
  destruct (close_grant_ok g next (clock (w_tick w)) client) as [Hc He]; rewrite ?Hs; try done.
  { by eapply working_core. }
  split; [|split; [done|cbn; lia]].
  eapply put_status; try done. cbn. lia.
Qed.

Lemma record_mutates (id : string) (kind : EventKind) : mutates (record_mutator clock o id kind).
Proof.
  intros d0 d w [[H1 H2 H3 H4 H5 H6 H7] Hi [G U D L]] _. unfold record_mutator.
  destruct (findGrant (fd_Grants d) id) as [[i g]|]; [|by apply mutates_refuse]. cbn.
  destruct (append_event_same o Hmax (clock (w_tick w)) kind g g d)
    as (Hg & Hu & Hd & He). destruct (He H6) as [Hl Hlog].
  split; [|split; [done|cbn; lia]]. split; cbn [w_tick w_ids].
  - apply (core_ok_tick (w_tick w)); [lia|]. split; rewrite ?Hg, ?Hu, ?Hd; auto.
  - unfold ids_drawn. by rewrite Hg.
  - split; rewrite ?Hg, ?Hu, ?Hd; try done. by etrans.
Qed.

(** ** Uses *)

Lemma use_core_renewed (t instant : Time) (u u' : GrantUse) :
  use_core t u → t <= instant → validUseState (use_State u') = true →
  use_Revision u' = use_Revision u + 1 → use_CreatedAt u' = use_CreatedAt u →
  use_UpdatedAt u' = instant →
  use_SettledAt u' = (if useStateSettled (use_State u') then instant else 0) →
  use_core instant u'.
Proof.
  intros Hu Ht Hv Hr Hcr Hup Hse. pose proof (use_core_lifecycle t u Hu) as (Hrv & Hpos & _ & _).
  destruct Hu as [Hl Hc Hut].
  assert (use_CreatedAt u <= use_UpdatedAt u) as Hle.
  { unfold validLoadedUseLifecycle in Hl. destruct (_ || _); [done|].
    unfold time_before in Hl. bool_to_prop. done. }
  split; [|by rewrite Hcr|by rewrite Hup].
  unfold validLoadedUseLifecycle, validUseSettlementTime, time_is_zero, time_before.
  rewrite Hv, Hr, Hcr, Hup, Hse.
  destruct (Z.ltb_spec (use_Revision u + 1) 1); [lia|].
  destruct (Z.eqb_spec (use_CreatedAt u) 0); [lia|].
  destruct (Z.ltb_spec instant (use_CreatedAt u)); [lia|].
  destruct (useStateSettled (use_State u')); [|done].
  destruct (Z.eqb_spec instant 0); [lia|].
  by rewrite Z.ltb_irrefl.
Qed.

Lemma owned_evolves (grants : list Grant) (u u' : GrantUse) :
  use_evolves u u' → owned grants u → owned grants u'.
Proof.
  intros [Hf _ _] (g & Hg & Heq & Hid). exists g. injection Hf as H1 H2 H3 _.
  unfold validLoadedUseIdentity in *. rewrite H1, H2, H3. done.
Qed.

(** A use changes state and the aggregate of its grant is refreshed. *)
Lemma put_use (d0 d : FileData) (w w' : World) (id : string) (i j : nat) (g g' : Grant)
    (u u' : GrantUse) :
  working d0 w d → (w_tick w <= w_tick w')%nat → w_ids w' = w_ids w →
  findGrant (fd_Grants d) id = Some (i, g) →
  fd_Uses d !! j = Some u → use_GrantID u = id →
  use_evolves u u' → use_core (clock (w_tick w')) u' →
  evolves g g' → grant_Revision g' = grant_Revision g → grant_core g' →
  consistent (<[j := u']> (fd_Uses d)) g' →
  working d0 w' (set_Grants (<[i := g']> (fd_Grants d))
                   (set_Uses (<[j := u']> (fd_Uses d)) d)).
Proof.
  intros Hwk Ht Hn Hf Hj Hid Hue Huc Hevo Hrev Hcore Hcons.
  destruct (wk_core _ _ _ Hwk) as [_ _ Hnd Huse Hcs _ _].
  pose proof (use_evolves_fixed _ _ Hue) as Hfix. injection Hfix as Hg1 Hg2 _ _.
  apply (put_grant d0 d _ w w' id i g g'); try done; cbn [fd_Uses set_Grants set_Uses].
  - lia.
  - intros h Hh Hne. apply (consistent_other (fd_Uses d)); [| |by apply Hcs].
    + apply (uses_of_insert _ _ _ u); [done|congruence|congruence].
    + rewrite (zsum_insert _ _ _ u) by done. unfold revision_of at 2 3.
      rewrite !bool_decide_false by congruence. lia.
  - rewrite list_fmap_insert, Hg2. rewrite list_insert_id; [done|].
    by rewrite list_lookup_fmap, Hj.
  - intros v [k Hk]%list_elem_of_lookup. apply list_lookup_insert_Some in Hk as
      [(_ & <- & _)|(_ & Hk)].
    + split; [done|]. apply (owned_evolves _ u); [done|].
      apply Huse. by apply list_elem_of_lookup_2 in Hj.
    + apply list_elem_of_lookup_2 in Hk. destruct (Huse v Hk). split; [|done].
      eapply use_core_later; [by apply (clock_monotone clock Hclock)|done].
  - intros k v Hk. destruct (decide (k = j)) as [->|Hne].
    + exists u'. assert (v = u) as -> by congruence. split; [|done].
      apply list_lookup_insert_eq. by eapply lookup_lt_Some.
    + exists v. split; [|reflexivity]. by rewrite list_lookup_insert_ne.
Qed.

(** What the bumped and aggregated grant is, for uses with given sums. *)
Lemma aggregated_ok (uses : list GrantUse) (g g1 : Grant) :
  core_part g1 = core_part g → failure_part g1 = failure_part g →
  grant_Status g1 = grant_Status g → fixed_part g1 = fixed_part g →
  grant_core g →
  grant_UseRevision g1 = zsum (committed_count (grant_ID g)) uses →
  grant_ReservationRevision g1 = zsum (revision_of (grant_ID g)) uses →
  (grant_MaxUses g = Unlimited
   ∨ zsum (committed_count (grant_ID g)) uses + zsum (open_count (grant_ID g)) uses
     <= grant_MaxUses g) →
  idle (grant_Status g) = false → grant_Status g ≠ StatusConsumed →
  grant_core (aggregateGrantUses g1 uses) ∧ consistent uses (aggregateGrantUses g1 uses)
  ∧ evolves g (aggregateGrantUses g1 uses).
Proof.
  intros Hcp Hfp Hs Hfix Hg Hu Hr Hb Hidle Hcons.
  assert (grant_ID g1 = grant_ID g ∧ grant_MaxUses g1 = grant_MaxUses g) as [Hid Hbudget]
    by (unfold core_part in Hcp; split; congruence).
  split; [|split].
  - apply aggregate_core.
    + by apply (grant_core_same g).
    + by rewrite Hid, Hbudget.
    + rewrite Hs, Hidle. done.
    + by rewrite Hs.
  - apply consistent_aggregate; by rewrite Hid.
  - etrans; [|apply aggregate_evolves]. split; [done|by rewrite Hs].
Qed.

Lemma grantCanUse_iff (g : Grant) (instant : Time) :
  grantCanUse g instant = true ↔
  grant_Status g = StatusActive ∧ instant < grant_ExpiresAt g
  ∧ (grant_MaxUses g = Unlimited
     ∨ grant_UsedCount g + grant_ReservedCount g < grant_MaxUses g).
Proof.
  unfold grantCanUse, time_before.
  rewrite !andb_true_iff, bool_decide_eq_true, Z.ltb_lt, Allows_iff. tauto.
Qed.

Lemma working_sums (d0 d : FileData) (w : World) (i : nat) (id : string) (g : Grant) :
  working d0 w d → findGrant (fd_Grants d) id = Some (i, g) →
  grant_ID g = id
  ∧ grant_UsedCount g = zsum (committed_count id) (fd_Uses d)
  ∧ grant_ReservedCount g = zsum (open_count id) (fd_Uses d)
  ∧ grant_UseRevision g = zsum (committed_count id) (fd_Uses d)
  ∧ grant_ReservationRevision g = zsum (revision_of id) (fd_Uses d).
Proof.
  intros [Hc _ _] [Hf Hid]%findGrant_some. apply list_elem_of_lookup_2 in Hf.
  pose proof (co_consistent _ _ Hc g Hf) as Hcs.
  pose proof (consistent_counts _ _ Hcs) as [? ?].
  apply consistent_iff in Hcs as (_ & ? & ?). by rewrite Hid in *.
Qed.

Lemma reserveExisting_mutates (d0 d : FileData) (w : World) (j : nat) (u : GrantUse)
    (grantID operation : string) :
  working d0 w d → fd_Uses d !! j = Some u →
  let '((d', _), w') := reserveExistingUse clock d j u grantID operation w in
  working d0 w' d' ∧ w_storage w' = w_storage w
  ∧ (w_tick w <= w_tick w')%nat ∧ (w_ids w <= w_ids w')%nat.
Proof.
  intros Hwk Hj. unfold reserveExistingUse.
  destruct (String.eqb_spec (use_GrantID u) grantID) as [Hid|]; [|by apply mutates_refuse].
  destruct (negb (String.eqb (use_Operation u) operation)); [by apply mutates_refuse|].
  cbn [negb orb]. case_bool_decide as Hs; [|by apply mutates_refuse]. cbn [negb].
  destruct (findGrant (fd_Grants d) grantID) as [[i g]|] eqn:Hf; [|by apply mutates_refuse].
  unfold mbind, eff_bind. rewrite clocked_now.
  destruct (grantCanUse g (clock (w_tick w))) eqn:Hcan; cbn [negb].
  2:{ apply mutates_refuse_later. done. }
  apply grantCanUse_iff in Hcan as (Hact & _ & Hb).
  pose proof (working_core d0 d w i grantID g Hwk Hf) as Hg.
  pose proof (working_sums d0 d w i grantID g Hwk Hf) as (Hgid & Hu & Hr & Hur & Hrr).
  set (instant := clock (w_tick w)) in *. set (u' := reserve_again instant u).
  assert (zsum (committed_count grantID) (<[j:=u']> (fd_Uses d))
          = zsum (committed_count grantID) (fd_Uses d)
        ∧ zsum (open_count grantID) (<[j:=u']> (fd_Uses d))
          = zsum (open_count grantID) (fd_Uses d) + 1
        ∧ zsum (revision_of grantID) (<[j:=u']> (fd_Uses d))
          = zsum (revision_of grantID) (fd_Uses d) + 1) as (Hc1 & Hc2 & Hc3).
  { rewrite !(zsum_insert _ _ _ u) by done. unfold committed_count, open_count, revision_of. cbn.
    rewrite Hs, (bool_decide_true (use_GrantID u = grantID)) by done. cbn. lia. }
  destruct (aggregated_ok (<[j:=u']> (fd_Uses d)) g (bump_reservation g)) as (Ha1 & Ha2 & Ha3);
    try done; rewrite ?Hgid; cbn; rewrite ?Hc1, ?Hc2, ?Hc3; try lia.
  { by rewrite Hact. } { by rewrite Hact. }
  split; [|split; [done|cbn; lia]].
  eapply (put_use d0 d w); try done; cbn.
  - lia.
  - split; [done| |cbn; lia]. cbn. rewrite Hs. apply rtc_once. constructor.
  - apply (use_core_later instant); [apply (clock_monotone clock Hclock); lia|].
    destruct (co_uses _ _ (wk_core _ _ _ Hwk) u) as [Huc _];
      [by apply list_elem_of_lookup_2 in Hj|].
    by apply (use_core_renewed instant instant u).
  - by destruct (aggregate_evolves (bump_reservation g) (<[j:=u']> (fd_Uses d))) as [_ ->].
Qed.

Lemma contains_ids (d0 d : FileData) (w : World) (id : string) (u : GrantUse) :
  working d0 w d → u ∈ fd_Uses d → ∃ g, g ∈ fd_Grants d ∧ grant_ID g = use_GrantID u.
Proof.
  intros [Hc _ _] Hu. destruct (co_uses _ _ Hc u Hu) as [_ (g & Hg & Heq & _)]. eauto.
Qed.

Lemma reserveNew_mutates (d0 d : FileData) (w : World) (grantID requestID operation : string) :
  working d0 w d → findUseIndex (fd_Uses d) requestID = None →
  validUseIdentity grantID requestID operation = true →
  let '((d', _), w') := reserveNewUse clock d grantID requestID operation w in
  working d0 w' d' ∧ w_storage w' = w_storage w
  ∧ (w_tick w <= w_tick w')%nat ∧ (w_ids w <= w_ids w')%nat.
Proof.
  intros Hwk Hnew Hvalid. unfold reserveNewUse.
  destruct (findGrant (fd_Grants d) grantID) as [[i g]|] eqn:Hf; [|by apply mutates_refuse].
  destruct (String.eqb_spec (grant_Operation g) operation) as [Hop|]; [|by apply mutates_refuse].
  cbn [negb]. unfold mbind, eff_bind. rewrite clocked_now.
  destruct (grantCanUse g (clock (w_tick w))) eqn:Hcan; cbn [negb];
    [|by apply mutates_refuse_later].
  apply grantCanUse_iff in Hcan as (Hact & _ & Hb).
  pose proof (working_core d0 d w i grantID g Hwk Hf) as Hg.
  pose proof (working_sums d0 d w i grantID g Hwk Hf) as (Hgid & Hu & Hr & Hur & Hrr).
  set (instant := clock (w_tick w)) in *.
  set (u := reserved_use grantID requestID operation instant).
  assert (zsum (committed_count grantID) (fd_Uses d ++ [u])
          = zsum (committed_count grantID) (fd_Uses d)
        ∧ zsum (open_count grantID) (fd_Uses d ++ [u])
          = zsum (open_count grantID) (fd_Uses d) + 1
        ∧ zsum (revision_of grantID) (fd_Uses d ++ [u])
          = zsum (revision_of grantID) (fd_Uses d) + 1) as (Hc1 & Hc2 & Hc3).
  { rewrite !zsum_app. unfold committed_count, open_count, revision_of. cbn.
    rewrite !bool_decide_true by done. cbn. lia. }
  destruct (aggregated_ok (fd_Uses d ++ [u]) g (bump_reservation g)) as (Ha1 & Ha2 & Ha3);
    try done; rewrite ?Hgid; cbn; rewrite ?Hc1, ?Hc2, ?Hc3; try lia.
  { by rewrite Hact. } { by rewrite Hact. }
  split; [|split; [done|cbn; lia]].
  destruct (wk_core _ _ _ Hwk) as [_ _ Hnd Huse Hcs _ _].
  eapply (put_grant d0 d); try done; cbn.
  - lia.
  - by destruct (aggregate_evolves (bump_reservation g) (fd_Uses d ++ [u])) as [_ ->].
  - intros h Hh Hne. apply (consistent_other (fd_Uses d)); [| |by apply Hcs].
    + by apply uses_of_app.
    + rewrite zsum_app. cbn. unfold revision_of at 2. rewrite bool_decide_false by done. lia.
  - rewrite fmap_app. apply NoDup_app. split; [done|]. split; [|apply NoDup_singleton].
    intros id Hin ->%list_elem_of_singleton. by apply findUseIndex_none in Hnew.
  - intros v [Hv| ->%list_elem_of_singleton]%elem_of_app.
    + destruct (Huse v Hv) as [Hv1 Hv2]. split; [|done].
      eapply use_core_later; [apply (clock_monotone clock Hclock)|exact Hv1]. lia.
    + assert (0 < instant) as Hpos by apply (clock_positive clock Hclock).
      split.
      * split; cbn; [|done|apply (clock_monotone clock Hclock); lia].
        unfold validLoadedUseLifecycle, validUseSettlementTime, time_is_zero, time_before.
        cbn. destruct (Z.eqb_spec instant 0); [lia|]. by rewrite Z.ltb_irrefl.
      * exists g. apply findGrant_some in Hf as [Hf _].
        split; [by apply list_elem_of_lookup_2 in Hf|]. split; [done|].
        unfold validLoadedUseIdentity. cbn. by rewrite Hvalid, Hop, String.eqb_refl.
  - intros k v Hk. exists v. split; [|reflexivity]. by apply lookup_app_l_Some.
Qed.

Lemma reserveUse_mutates (grantID requestID operation : string) :
  validUseIdentity grantID requestID operation = true →
  mutates (reserveUse clock grantID requestID operation).
Proof.
  intros Hv d0 d w Hwk _. unfold reserveUse.
  destruct (findUseIndex (fd_Uses d) requestID) as [[j u]|] eqn:E.
  - apply findUseIndex_some in E as [Hj _]. by apply reserveExisting_mutates.
  - by apply reserveNew_mutates.
Qed.

(** Settling marks an exhausted grant as consumed. *)
Lemma settleGrantUse_ok (uses : list GrantUse) (g : Grant) :
  grant_core g → consistent uses g → reservationCanSettle (grant_Status g) = true →
  grant_core (settleGrantUse g) ∧ consistent uses (settleGrantUse g)
  ∧ evolves g (settleGrantUse g) ∧ grant_Revision (settleGrantUse g) = grant_Revision g.
Proof.
  intros Hg Hc Hs. unfold settleGrantUse.
  destruct (Exhausted (grant_MaxUses g) (grant_UsedCount g)
            && negb (bool_decide (grant_Status g = StatusRevoked))) eqn:E;
    [|split; [done|split; [done|split; [reflexivity|done]]]].
  apply andb_true_iff in E as [Hex Hnr]. apply Exhausted_iff in Hex. bool_to_prop.
  split; [|split; [|split; [|done]]].
  - apply (grant_core_step g); try done.
    + apply (validGrantFailure_other g); [done| |done|apply (gc_failure g Hg)].
      intros Hf. by rewrite Hf in Hs.
    + intros _. by right.
  - by apply (consistent_fields _ g).
  - split; [done|]. cbn. apply rtc_once.
    destruct (grant_Status g); try done; constructor.
Qed.

Lemma useCanSettle_true (u : GrantUse) (g : Grant) (target : UseState) :
  useCanSettle u g target = Ok true →
  use_State u ≠ target ∧ useStateSettled (use_State u) = false
  ∧ reservationCanSettle (grant_Status g) = true.
Proof.
  unfold useCanSettle. case_bool_decide as Hne; [done|].
  rewrite !seq_ok, !refuse_ok, negb_false_iff. tauto.
Qed.

Definition settle_target (target : UseState) : Prop :=
  target = UseCommitted ∨ target = UseReleased ∨ target = UseRetained.

Lemma settle_step (s target : UseState) :
  validUseState s = true → useStateSettled s = false → s ≠ target → settle_target target →
  use_step s target ∧ is_open s = true ∧ is_committed s = false.
Proof.
  intros Hv Hs Hne [->|[->| ->]]; destruct s; try done; repeat split; try constructor; done.
Qed.

Lemma settle_sums (uses : list GrantUse) (j : nat) (u : GrantUse) (target : UseState)
    (instant : Time) (id : string) :
  uses !! j = Some u → use_GrantID u = id → is_open (use_State u) = true →
  is_committed (use_State u) = false →
  zsum (committed_count id) (<[j := settle_use target instant u]> uses)
  = zsum (committed_count id) uses + (if is_committed target then 1 else 0)
  ∧ zsum (open_count id) (<[j := settle_use target instant u]> uses)
    = zsum (open_count id) uses - (if is_open target then 0 else 1)
  ∧ zsum (revision_of id) (<[j := settle_use target instant u]> uses)
    = zsum (revision_of id) uses + 1.
Proof.
  intros Hj Hid Ho Hc. rewrite !(zsum_insert _ _ _ u) by done.
  unfold committed_count, open_count, revision_of. cbn.
  rewrite !(bool_decide_true (use_GrantID u = id)) by done. cbn. rewrite Ho, Hc.
  destruct (is_committed target), (is_open target); lia.
Qed.

Lemma settle_mutates (grantID requestID : string) (target : UseState) :
  settle_target target → mutates (settleStoredUse clock grantID requestID target).
Proof.
  intros Htarget d0 d w Hwk _. unfold settleStoredUse.
  destruct (findUseIndex (fd_Uses d) requestID) as [[j u]|] eqn:E; [|by apply mutates_refuse].
  apply findUseIndex_some in E as [Hj _].
  destruct (String.eqb_spec (use_GrantID u) grantID) as [Hid|]; [|by apply mutates_refuse].
  cbn [negb]. destruct (findGrant (fd_Grants d) grantID) as [[i g]|] eqn:Hf;
    [|by apply mutates_refuse].
  destruct (useCanSettle u g target) as [[]|e] eqn:Hcan; [|by apply mutates_refuse..].
  apply useCanSettle_true in Hcan as (Hne & Hns & Hst).
  unfold mbind, eff_bind. rewrite clocked_now. set (instant := clock (w_tick w)).
  assert (u ∈ fd_Uses d) as Hin by (by apply list_elem_of_lookup_2 in Hj).
  destruct (co_uses _ _ (wk_core _ _ _ Hwk) u Hin) as [Huc _].
  assert (validUseState (use_State u) = true) as Hvs.
  { destruct Huc as [Hl _ _]. unfold validLoadedUseLifecycle in Hl.
    destruct (validUseState (use_State u)); [done|]. done. }
  destruct (settle_step _ _ Hvs Hns Hne Htarget) as (Hstep & Hopen & Hnc).
  pose proof (working_core d0 d w i grantID g Hwk Hf) as Hg.
  pose proof (working_sums d0 d w i grantID g Hwk Hf) as (Hgid & Hu & Hr & Hur & Hrr).
  destruct (settle_sums (fd_Uses d) j u target instant grantID Hj Hid Hopen Hnc)
    as (Hc1 & Hc2 & Hc3).
  set (u' := settle_use target instant u) in *. set (uses' := <[j:=u']> (fd_Uses d)) in *.
  set (g1 := if bool_decide (target = UseCommitted) then bump_use (bump_reservation g)
             else bump_reservation g).
  destruct (aggregated_ok uses' g g1) as (Ha1 & Ha2 & Ha3); try done; rewrite ?Hgid;
    try (unfold g1; by case_bool_decide).
  { rewrite Hc1. unfold g1. destruct Htarget as [->|[->| ->]];
      [rewrite bool_decide_true by done|rewrite bool_decide_false by done..]; cbn; lia. }
  { rewrite Hc3. unfold g1. case_bool_decide; cbn; lia. }
  { rewrite Hc1, Hc2. destruct (gc_budget g Hg) as [|Hb]; [by left|right].
    rewrite Hu, Hr in Hb. destruct Htarget as [->|[->| ->]]; cbn; lia. }
  { by destruct (grant_Status g). } { intros Hs. by rewrite Hs in Hst. }
  destruct (settleGrantUse_ok uses' (aggregateGrantUses g1 uses')) as (Hs1 & Hs2 & Hs3 & Hs4);
    try done.
  { rewrite aggregateGrantUses_summary. unfold g1. by case_bool_decide. }
  split; [|split; [done|cbn; lia]].
  eapply (put_use d0 d w); try done; cbn.
  - lia.
  - split; [done| |cbn; lia]. cbn. by apply rtc_once.
  - apply (use_core_later instant); [apply (clock_monotone clock Hclock); lia|].
    apply (use_core_settle instant instant target u); try done.
    by destruct Htarget as [->|[->| ->]].
  - etrans; [exact Ha3|exact Hs3].
  - etrans; [exact Hs4|]. destruct (aggregate_evolves g1 uses') as [_ ->].
    unfold g1. by case_bool_decide.
Qed.

(** ** Requests *)

Lemma newGrant_core (req : GrantRequest) (id : string) (instant : Time) :
  request_ok o req → id ≠ EmptyString → 0 < instant → grant_core (newGrant req id instant).
Proof.
  intros [Hid Hf Ha Hm Hd Hp Hu _] Hne Hpos.
  assert (∀ s, s ≠ EmptyString → is_empty s = false) as He by (by intros []).
  split; try done; cbn.
  - unfold validGrantIdentity. cbn. rewrite !He by (done || tauto). done.
  - unfold validateLoadedGrantMaps. cbn. by rewrite Hf, Ha, Hm.
  - split; lia.
  - lia.
  - lia.
  - split; cbn; [lia|]. destruct (Z.eq_dec (req_MaxUses req) 0); [by left|right; lia].
  - right. cbn. lia.
Qed.

Lemma append_grant (d0 d : FileData) (w w' : World) (g : Grant) :
  working d0 w d → (w_tick w <= w_tick w')%nat → (w_ids w < w_ids w')%nat →
  new_id (w_ids w) = Ok (grant_ID g) → grant_core g →
  grantUseAggregateFromGrant g = MkGrantUseAggregate 0 0 0 0 false 0 0 →
  working d0 w' (set_Grants (fd_Grants d ++ [g]) d).
Proof.
  intros [Hc Hi He] Ht Hn Hid Hg Hagg.
  assert (grant_ID g ∉ ids_of d) as Hfresh.
  { intros (h & Heq & Hh)%list_elem_of_fmap. destruct (Hi h Hh) as (m & Hm & Hmid).
    rewrite <- Heq in Hmid. pose proof (fresh_distinct new_id Hids _ _ _ Hid Hmid). lia. }
  destruct Hc as [Hnd Hgs Hund Huse Hcs Hev Hsc]. split.
  - split; cbn [fd_Grants fd_Uses fd_Events fd_NextEvent set_Grants].
    + rewrite fmap_app. apply NoDup_app. split; [done|]. split; [|apply NoDup_singleton].
      intros id Hin ->%list_elem_of_singleton. done.
    + intros h [Hh| ->%list_elem_of_singleton]%elem_of_app; [by apply Hgs|done].
    + done.
    + intros u Hu. destruct (Huse u Hu) as [Huc (h & Hh & ?)]. split.
      * eapply use_core_later; [by apply (clock_monotone clock Hclock)|done].
      * exists h. split; [|done]. apply elem_of_app. by left.
    + intros h [Hh| ->%list_elem_of_singleton]%elem_of_app; [by apply Hcs|].
      assert (∀ u, u ∈ fd_Uses d → use_GrantID u ≠ grant_ID g) as Hno.
      { intros u Hu Heq. destruct (Huse u Hu) as [_ (h & Hh & Hhid & _)].
        apply Hfresh. rewrite <- Heq, <- Hhid. by apply list_elem_of_fmap_2. }
      assert (uses_of (grant_ID g) (fd_Uses d) = []) as Hnil.
      { unfold uses_of. clear -Hno. induction (fd_Uses d) as [|u uses IH]; [done|].
        rewrite filter_cons, decide_False by (apply Hno; left).
        apply IH. intros v Hv. apply Hno. by right. }
      unfold consistent, wanted_aggregate. rewrite Hagg, aggregateGrantUses_summary, Hnil.
      rewrite useRevisionTotal_sum, (zsum_ext _ (λ _, 0)).
      * assert (zsum (λ _ : GrantUse, 0) (fd_Uses d) = 0) as ->; [|done].
        clear. by induction (fd_Uses d).
      * intros u Hu. unfold revision_of. by rewrite bool_decide_false by (by apply Hno).
    + done.
    + done.
  - intros h [Hh| ->%list_elem_of_singleton]%elem_of_app.
    + destruct (Hi h Hh) as (m & ? & ?). exists m. split; [lia|done].
    + exists (w_ids w). done.
  - etrans; [exact He|]. split; [|intros i u Hu; exists u; split; [done|reflexivity]|done|by apply log_extends_same].
    intros i h Hh. exists h. split; [by apply lookup_app_l_Some|]. split; [reflexivity|done].
Qed.

Lemma request_mutates (req : GrantRequest) :
  request_ok o req → mutates (request_mutator clock new_id o req).
Proof.
  intros Hreq d0 d w Hwk _. unfold request_mutator.
  pose proof (prepare_working _ w d0 d expireDue_prepares Hwk) as H1.
  unfold mbind at 1, eff_bind at 1. destruct (clocked (expireDue clock d) w) as [[d1 c] w1].
  destruct H1 as (Hwk1 & Hs1 & Ht1 & Hi1).
  destruct (findIdempotent (fd_Grants d1) req) as [g|]; [cbn; split; [done|split; [done|lia]]|].
  destruct (negb (pendingCapacityAvailable o (fd_Grants d1) (req_Client req)));
    [cbn; split; [done|split; [done|lia]]|].
  unfold mbind, eff_bind. unfold newID. cbn [fst snd].
  destruct (new_id (w_ids w1)) as [id|e] eqn:Hid.
  - rewrite clocked_now. cbn. split; [|split; [done|lia]].
    apply (append_grant d0 d1 w1); cbn; try done; try lia.
    apply newGrant_core; [done|by eapply fresh_nonempty|apply (clock_positive clock Hclock)].
  - cbn. split; [|split; [done|lia]]. destruct Hwk1 as [Hc Hi He]. split; [done| |done].
    intros h Hh. destruct (Hi h Hh) as (m & ? & ?). exists m. split; [cbn; lia|done].
Qed.
End worlds.
