(* ===== verification/GrantsReachable.v ===== *)
(** * Every operation of the grant store is safe

    The remaining operations, the step relation of a store with one rule per
    public operation, and what holds in every reachable state: the invariant of
    stored data, and that no record is ever lost or moved backwards. *)

From S2P Require Export GrantsSafety.

Local Open Scope Z_scope.

(** ** One decision on one grant *)

Section decision.
Context {R : MapRange}.

(** A decision changes a grant to a successor with the same revision and the
    same use counters. *)
Definition decides (g g' : Grant) : Prop :=
  grant_core g' ∧ evolves g g' ∧ grant_Revision g' = grant_Revision g
  ∧ grantUseAggregateFromGrant g' = grantUseAggregateFromGrant g.

Lemma decides_refl (g : Grant) : grant_core g → decides g g.
Proof. intros Hg. split; [done|]. split; [reflexivity|done]. Qed.

(** The closed failures are the ones the load accepts. *)
Lemma terminal_failure_known (e : error) (f : Failure) :
  terminalActivationFailure e = Some f → activation_Known (failure_Code f) = true.
Proof.
  unfold terminalActivationFailure. destruct (activation_As (Some e)) as [f'|]; [|done].
  cbn. destruct (failure_Retryable f'); [done|].
  destruct (failure_Code f') eqn:E; try done; intros [= <-]; by rewrite E.
Qed.

Lemma approval_narrows (g : Grant) (c : ApprovalConstraints) :
  grant_core g →
  (let '(duration, maxUses) := requestedApprovalBounds g in
   validApprovalConstraints c duration maxUses) = true →
  let g' := applyApprovalConstraints g c in
  0 < grant_Duration g' ∧ 0 <= grant_MaxUses g' ∧ narrowed g'
  ∧ grant_RequestedDuration g' = grant_RequestedDuration g
  ∧ grant_RequestedMaxUses g' = grant_RequestedMaxUses g.
Proof.
  intros [_ _ _ _ _ Hd [Hl1 Hl2] [Hn1 Hn2] _ _ _].
  unfold requestedApprovalBounds, validApprovalConstraints, applyApprovalConstraints,
    constraintUseLimitSpecified, IsUnlimited, IsFinite, narrowed, Unlimited in *.
  destruct (Z.leb_spec (grant_RequestedDuration g) 0); [lia|].
  destruct (Z.ltb_spec (grant_RequestedMaxUses g) 0); [lia|].
  destruct (_ || _ || _) eqn:E; [done|]. bool_to_prop.
  intros Hv.
  assert (ac_MaxUsesSpecified c || (0 <? ac_MaxUses c) = true →
    grant_RequestedMaxUses g = 0 ∨ 0 < ac_MaxUses c <= grant_RequestedMaxUses g) as Hm.
  { intros Hs. rewrite Hs in Hv. cbn in Hv.
    destruct (Z.eqb_spec (ac_MaxUses c) 0), (Z.eqb_spec (grant_RequestedMaxUses g) 0);
      bool_to_prop; done || lia. }
  clear Hv. destruct (Z.ltb_spec 0 (ac_Duration c));
    destruct (ac_MaxUsesSpecified c || _); cbn; repeat split; try lia; auto.
Qed.

(** An approved grant. *)
Lemma approved_decides (g : Grant) (c : OperatorDecision) (instant : Time) :
  grant_core g → grant_Status g = StatusPending →
  (let '(duration, maxUses) := requestedApprovalBounds g in
   validApprovalConstraints (cmd_Constraints c) duration maxUses) = true →
  let g' := applyApprovalConstraints g (cmd_Constraints c) in
  decides g (decided c instant
    (set_ExpiresAt (instant + grant_Duration g') (set_Status StatusActive g'))).
Proof.
  intros Hg Hs Hv. pose proof (approval_narrows g _ Hg Hv) as (Hd & Hm & Hn & Hrd & Hrm).
  cbn zeta. set (g' := applyApprovalConstraints g _) in *.
  assert (grant_UsedCount g = 0 ∧ grant_ReservedCount g = 0) as [Hu Hr]
    by (apply (gc_idle g Hg); by rewrite Hs).
  assert (∃ duration maxUses, g' = set_MaxUses maxUses (set_Duration duration g))
    as (duration & maxUses & Heq).
  { unfold g', applyApprovalConstraints.
    destruct (0 <? _), (constraintUseLimitSpecified _); [eauto| | |].
    - exists (ac_Duration (cmd_Constraints c)), (grant_MaxUses g). by destruct g.
    - exists (grant_Duration g), (ac_MaxUses (cmd_Constraints c)). by destruct g.
    - exists (grant_Duration g), (grant_MaxUses g). by destruct g. }
  rewrite Heq in *. clear g' Heq. unfold decides.
  pose proof (gc_failure g Hg) as Hf. destruct Hg as [Hid Hmaps _ _ Ht Hds Hl _ _ _ _].
  split; [|split; [split; [done|]|done]].
  - split; try done.
    + by apply (validGrantFailure_other g); [done|by rewrite Hs|done|].
    + cbn in *. lia.
    + cbn in *. lia.
    + unfold within_budget, Unlimited. cbn in *. lia.
  - cbn. rewrite Hs. apply rtc_once. constructor.
Qed.

(** A denied or revoked grant. *)
Lemma transition_decides (g g' : Grant) (status : Status) (c : OperatorDecision)
    (instant : Time) :
  g' = set_Status status g → grant_core g → status_step (grant_Status g) status →
  status ≠ StatusConsumed → status ≠ StatusFailed →
  (idle status = true → idle (grant_Status g) = true) →
  decides g (decided c instant g').
Proof.
  intros -> Hg Hstep Hnc Hnf Hidle. split; [|split; [split; [done|]|done]].
  - apply (grant_core_step g); [done| | |done|done|done].
    + cbn. by destruct Hstep.
    + apply (validGrantFailure_other g); [done| |done|apply (gc_failure g Hg)].
      intros Hs. rewrite Hs in Hstep. inversion Hstep.
  - cbn. by apply rtc_once.
Qed.

(** A grant whose activation failed for good. *)
Lemma failed_decides (g : Grant) (c : OperatorDecision) (instant : Time) (f : Failure) :
  grant_core g → grant_Status g = StatusPending → 0 < instant →
  validOperatorDecisionText c = true → activation_Known (failure_Code f) = true →
  decides g (failedActivationGrant g c instant f).
Proof.
  intros Hg Hs Hi Ht Hk. unfold validOperatorDecisionText, validOperatorDecisionReferences in Ht.
  apply andb_true_iff in Ht as [_ Ht]. apply andb_true_iff in Ht as [Hlen Hsafe].
  split; [|split; [split; [done|]|done]].
  - apply (grant_core_step g); try done.
    + unfold validGrantFailure, time_is_zero. cbn. rewrite Hk, Hlen, Hsafe.
      destruct (Z.eqb_spec instant 0); [lia|done].
    + by rewrite Hs.
  - cbn. rewrite Hs. apply rtc_once. constructor.
Qed.

(** What an accepted decision does. *)
Lemma applyDecisionAction_ok (g updated : Grant) (c : OperatorDecision)
    (validate : option ActivationCheck) (instant : Time) :
  applyDecisionAction g c validate instant = Ok updated ↔
  (cmd_Action c = ActionApprove ∧ grant_Status g = StatusPending
   ∧ (let '(duration, maxUses) := requestedApprovalBounds g in
      validApprovalConstraints (cmd_Constraints c) duration maxUses) = true
   ∧ (∀ check, validate = Some check → check g (cmd_Constraints c) = None)
   ∧ let g' := applyApprovalConstraints g (cmd_Constraints c) in
     updated = set_ExpiresAt (instant + grant_Duration g') (set_Status StatusActive g'))
  ∨ (cmd_Action c = ActionDeny ∧ grant_Status g = StatusPending
     ∧ updated = set_Status StatusDenied g)
  ∨ (cmd_Action c = ActionRevoke ∧ grant_Status g = StatusActive
     ∧ updated = set_Status StatusRevoked g).
Proof.
  unfold applyDecisionAction, applyTerminalDecisionAction, applyApprovalMutation.
  case_bool_decide as Ha.
  - rewrite Ha. destruct (requestedApprovalBounds g) as [duration maxUses].
    rewrite !seq_ok, !refuse_ok, !negb_false_iff, bool_decide_eq_true.
    assert (match validate with
            | Some check => match check g (cmd_Constraints c) with
                            | Some e => Err e | None => Ok tt end
            | None => Ok tt end = Ok tt
            ↔ ∀ check, validate = Some check → check g (cmd_Constraints c) = None) as ->.
    { destruct validate as [check|]; [|naive_solver].
      destruct (check g (cmd_Constraints c)) eqn:E; naive_solver. }
    naive_solver.
  - destruct (cmd_Action c) eqn:E; cbn; try done;
      rewrite ?seq_ok, ?refuse_ok, ?negb_false_iff, ?bool_decide_eq_true; naive_solver.
Qed.

(** Only the activation check of a pending grant fails an activation for good. *)
Lemma terminal_failure_pending (g : Grant) (c : OperatorDecision)
    (validate : option ActivationCheck) (instant : Time) (e : error) (f : Failure) :
  applyDecisionAction g c validate instant = Err e → terminalActivationFailure e = Some f →
  grant_Status g = StatusPending.
Proof.
  unfold applyDecisionAction, applyTerminalDecisionAction, applyApprovalMutation.
  case_bool_decide.
  - case_bool_decide; [done|]. cbn. by intros [= <-].
  - destruct (cmd_Action c); cbn; try (by intros [= <-]);
      (case_bool_decide; [done|]; cbn; by intros [= <-]).
Qed.

Lemma applyDecisionMutation_ok (g : Grant) (c : OperatorDecision)
    (validate : option ActivationCheck) (instant : Time) :
  grant_core g → 0 < instant → validOperatorDecisionText c = true →
  decides g (fst (applyDecisionMutation g c validate instant)).
Proof.
  intros Hg Hi Ht. unfold applyDecisionMutation.
  destruct (applyDecisionAction g c validate instant) as [updated|e] eqn:E; cbn [fst].
  - apply applyDecisionAction_ok in E
      as [(Ha & Hs & Hv & _ & ->)|[(Ha & Hs & ->)|(Ha & Hs & ->)]].
    + by apply approved_decides.
    + apply (transition_decides g _ StatusDenied); try done; rewrite Hs; constructor || done.
    + apply (transition_decides g _ StatusRevoked); try done; rewrite Hs; constructor || done.
  - destruct (terminalActivationFailure e) as [f|] eqn:Ef; [|by apply decides_refl].
    pose proof (terminal_failure_pending _ _ _ _ _ _ E Ef) as Hs.
    apply terminal_failure_known in Ef. by apply failed_decides.
Qed.
End decision.

(** ** The decision transaction *)

Section reachable.
Context {R : MapRange} {GS : GrantStorage} {GL : GrantStorageLaws}
  (clock : nat → Time) (new_id : nat → result error string) (o : Options)
  (command_digest : OperatorDecision → string).
Context (Hclock : clock_runs clock) (Hids : ids_fresh new_id) (Ho : options_ok o).

Notation leads_to := (leads_to clock new_id).
Notation holds := (holds clock new_id).
Notation saveable := (saveable clock new_id).
Notation working := (working clock new_id).
Notation safe := (safe clock new_id).

#[local] Existing Instance leads_to_preorder.

Lemma max_events : 0 < opts_MaxEvents o.
Proof. apply Ho. Qed.

Lemma saveable_later (w w' : World) (d : FileData) :
  w_storage w' = w_storage w → (w_tick w <= w_tick w')%nat → (w_ids w <= w_ids w')%nat →
  saveable w d → saveable w' d.
Proof.
  intros Hs Ht Hi (Hd & Hn & He). split; [|split].
  - eapply data_ok_later; [by apply (clock_monotone clock Hclock)|done].
  - intros g Hg. destruct (Hn g Hg) as (m & ? & ?). exists m. split; [lia|done].
  - by rewrite Hs.
Qed.

Lemma persist_leads (w : World) (d : FileData) (eventSequence : Z) :
  saveable w d → leads_to w (snd (persistOperatorDecision d eventSequence w)).
Proof.
  intros Hs. apply save_then; [done|done|]. intros [[]|e]; [|by apply safe_ret].
  by apply safe_then_ret, safe_signal.
Qed.

Lemma saveDecisionError_leads (w : World) (d : FileData) (eventSequence : Z) (changed : bool)
    (e : option error) :
  (changed = true → saveable w d) →
  leads_to w (snd (saveDecisionError d eventSequence changed e w)).
Proof.
  intros Hs. unfold saveDecisionError. destruct changed; [|reflexivity].
  pose proof (persist_leads w d eventSequence (Hs eq_refl)) as Hl.
  unfold mbind, eff_bind. destruct (persistOperatorDecision _ _ w) as [[e'|] w']; exact Hl.
Qed.

(** The state a decision starts from: prepared data, and reconciled data if
    the lifecycle step changed anything. *)
Definition decision_ready (d0 d : FileData) (changed : bool) (w : World) : Prop :=
  holds w d0 ∧ if changed then saveable w d else working d0 w d.

Lemma prepare_decision_ready (w : World) (d0 : FileData) :
  holds w d0 →
  let '((d, before, _, changed), w') := prepare_decision clock o d0 w in
  before = grantSnapshots (fd_Grants d0) ∧ leads_to w w' ∧ decision_ready d0 d changed w'.
Proof.
  intros Hw.
  pose proof (prepare_working clock new_id _ w d0 d0 (prepareLifecycle_prepares clock o Hclock)
    (holds_working clock new_id w d0 Hw)) as H1.
  unfold prepare_decision. unfold mbind at 1, eff_bind at 1.
  destruct (clocked (prepareLifecycle clock o d0) w) as [[d1 changed] w1].
  destruct H1 as (Hwk1 & Hs1 & Ht1 & Hi1).
  destruct (working_step clock new_id Hclock w w1 d0 d1 Hw Hs1 Ht1 ltac:(lia)) as [Hw1 Hl1].
  destruct changed; [|split; [done|split; [done|by split]]].
  pose proof (reconcile_saveable clock new_id o Hclock max_events w1 d0 d1 Hw1 Hwk1) as H2.
  unfold mbind, eff_bind. destruct (clocked _ w1) as [[d2 c] w2].
  destruct H2 as (Hs2 & Hl2 & Hw2). split; [done|]. split; [by etrans|]. by split.
Qed.

Lemma ready_core (d0 d : FileData) (changed : bool) (w : World) :
  decision_ready d0 d changed w →
  core_ok (clock (w_tick w)) d ∧ ids_drawn new_id (w_ids w) d ∧ extends Z.le d0 d
  ∧ (changed = true → saveable w d).
Proof.
  intros [Hw Hr]. destruct changed.
  - destruct Hr as ([Hc Hrev] & Hi & He). split; [done|]. split; [done|].
    split; [apply He, Hw|]. intros _. by split.
  - destruct Hr as [Hc Hi He]. split; [done|]. split; [done|]. split; [|done].
    by apply (extends_weaken _ _ _ _ Z.eq_le_incl).
Qed.

Lemma ready_later (d0 d : FileData) (changed : bool) (w : World) :
  decision_ready d0 d changed w →
  decision_ready d0 d changed
    (MkWorld (w_storage w) (S (w_tick w)) (w_ids w) (w_signals w)).
Proof.
  intros [Hw Hr]. split.
  - apply (holds_later clock new_id Hclock w); cbn; done || lia.
  - destruct changed; [apply (saveable_later w); cbn; done || lia|].
    destruct Hr as [Hc' Hi' He']. split; cbn; [|done|done].
    by apply (core_ok_tick clock Hclock (w_tick w)); [lia|].
Qed.

(** The snapshots the second reconciliation compares with. *)
Lemma ready_snapshots (d0 d d' : FileData) (changed : bool) (w w' : World) (i : nat)
    (current updated : Grant) (id : string) :
  decision_ready d0 d changed w → findGrant (fd_Grants d) id = Some (i, current) →
  working d w' d' → fd_Grants d' = <[i := updated]> (fd_Grants d) →
  grant_Revision updated = grant_Revision current →
  let before := grantSnapshots (fd_Grants d0) in
  let before' := if changed then grantSnapshotsWith before current else before in
  snapshot_of d0 before' ∧ revisions_known before' d'.
Proof.
  intros [Hw Hr] Hf Hwk Hgs Hur. pose proof Hw as (_ & [Hc0 Hr0] & _).
  pose proof (co_ids _ _ Hc0) as Hnd0. destruct changed; cbn zeta.
  2:{ split; [by apply grantSnapshots_of|]. apply (working_revisions clock new_id w'); try done.
      destruct Hr as [_ _ He0], Hwk as [Hc Hi He]. split; [done|done|by etrans]. }
  assert (revisions_known (grantSnapshots (fd_Grants d0)) d0) as [Hkb _].
  { by apply (working_revisions clock new_id w), (holds_working clock new_id). }
  destruct Hr as ([Hc Hrev] & Hi & He). specialize (He d0 ltac:(apply Hw)).
  apply findGrant_some in Hf as [Hlk Hid].
  assert (current ∈ fd_Grants d) as Hin by (by apply list_elem_of_lookup_2 in Hlk).
  split; [|split].
  - intros g Hg. unfold grantSnapshotsWith.
    destruct (decide (grant_ID current = grant_ID g)) as [Heq|Hne].
    + exists current. rewrite Heq, lookup_insert_eq. split; [done|].
      apply list_elem_of_lookup in Hg as [j Hj].
      destruct (ext_grants _ _ _ He j g Hj) as (g' & Hg' & Hev & Hle).
      assert (j = i) as ->; [|congruence].
      eapply NoDup_lookup; [apply (co_ids _ _ Hc)| |].
      * rewrite list_lookup_fmap, Hg'. cbn. by rewrite (evolves_ID g g').
      * rewrite list_lookup_fmap, Hlk. cbn. by rewrite Heq.
    + rewrite lookup_insert_ne by done. by apply grantSnapshots_of.
  - intros k p. unfold grantSnapshotsWith. rewrite lookup_insert_Some.
    intros [[_ <-]|[_ Hp]]; [by apply Hrev|by eapply Hkb].
  - intros g Hg. right. rewrite Hgs in Hg. apply list_elem_of_lookup in Hg as [j Hj].
    apply list_lookup_insert_Some in Hj as [(_ & <- & _)|(_ & Hj)].
    + rewrite Hur. by apply Hrev.
    + apply Hrev. by apply list_elem_of_lookup_2 in Hj.
Qed.

Lemma findDecisionRecord_none (records : list DecisionRecord) (scope : string) :
  findDecisionRecord records scope = None → scope ∉ (rec_Scope <$> records).
Proof.
  unfold findDecisionRecord. intros Hn (r & -> & Hr)%list_elem_of_fmap.
  apply list_elem_of_In in Hr. pose proof (find_none _ _ Hn r Hr) as Hf. cbn in Hf.
  by rewrite String.eqb_refl in Hf.
Qed.

Lemma set_DecisionRecords_saveable (w : World) (d : FileData) (record : DecisionRecord) :
  fresh_record record →
  rec_Scope record ∉ (rec_Scope <$> fd_DecisionRecords d) →
  saveable w d →
  saveable w (set_DecisionRecords (fd_DecisionRecords d ++ [record]) d).
Proof.
  intros Hfr Hnew ([[H1 H2 H3 H4 H5 H6 H7] Hr] & Hi & He). split; [|split].
  - split; [|done]. split; try done. cbn. rewrite fmap_app. apply NoDup_app.
    split; [done|]. split; [|apply NoDup_singleton].
    intros s Hs ->%list_elem_of_singleton. done.
  - done.
  - intros d0 Hd0. destruct (He d0 Hd0) as [G U D L]. split; [done|done| |etrans; [exact L|by apply log_extends_same]].
    etrans; [exact D|]. exists [record]. split; [done|]. by apply Forall_singleton.
Qed.

(** The decided grant is written back and reconciled. *)
Lemma decided_ready (w : World) (d0 d : FileData) (changed : bool) (i : nat) (id : string)
    (current updated : Grant) :
  decision_ready d0 d changed w → findGrant (fd_Grants d) id = Some (i, current) →
  decides current updated →
  let d1 := set_Grants (<[i := updated]> (fd_Grants d)) d in
  let before := grantSnapshots (fd_Grants d0) in
  let before' := if changed then grantSnapshotsWith before current else before in
  core_ok (clock (w_tick w)) d1 ∧ ids_drawn new_id (w_ids w) d1 ∧ extends Z.le d0 d1
  ∧ snapshot_of d0 before' ∧ revisions_known before' d1.
Proof.
  intros Hrdy Hf (Hcore & Hev & Hrev & Hagg). cbn zeta.
  destruct (ready_core d0 d changed w Hrdy) as (Hc & Hi & He & _).
  assert (working d w d) as Hwk by (split; [done|done|reflexivity]).
  set (d1 := set_Grants (<[i := updated]> (fd_Grants d)) d).
  assert (working d w d1) as Hwk1 by (by apply (put_status clock new_id Hclock d d w w id i current)).
  destruct (ready_snapshots d0 d d1 changed w w i current updated id) as [Hsnap Hknown]; try done.
  destruct Hwk1 as [Hc1 Hi1 He1]. split; [done|]. split; [done|]. split; [|done].
  etrans; [exact He|]. by apply (extends_weaken _ _ _ _ Z.eq_le_incl).
Qed.

Lemma decide_leads {A} (w : World) (d0 d : FileData) (changed : bool) (i : nat) (id : string)
    (current updated : Grant) (k : FileData → Eff A) :
  decision_ready d0 d changed w → findGrant (fd_Grants d) id = Some (i, current) →
  decides current updated →
  (∀ w' d', saveable w' d' → fd_DecisionRecords d' = fd_DecisionRecords d →
     leads_to w' (snd (k d' w'))) →
  leads_to w (snd ((reconcileOperatorMutation clock o
      (set_Grants (<[i := updated]> (fd_Grants d)) d)
      (grantSnapshots (fd_Grants d0)) current changed ≫= k) w)).
Proof.
  intros Hrdy Hf Hdec Hk.
  destruct (decided_ready w d0 d changed i id current updated Hrdy Hf Hdec)
    as (Hc1 & Hi1 & He1 & Hsnap & Hknown).
  pose proof Hrdy as [(Hl & _) _].
  pose proof (reconcile_saveable_with clock new_id o Hclock max_events w d0 _ _ Hl Hc1 Hi1 He1 Hsnap Hknown)
    as H.
  unfold reconcileOperatorMutation. unfold mbind, eff_bind.
  destruct (clocked _ w) as [[d2 c] w2]. destruct H as (Hs & _ & Hrec & Hst & Ht & Hid). cbn.
  etrans; [|by apply Hk]. apply leads_to_same; [done|congruence|done|lia].
Qed.

Lemma commit_leads (w : World) (d0 d : FileData) (eventSequence : Z) (changed : bool)
    (i : nat) (current : Grant) (c : OperatorDecision) (scope hash : string)
    (validate : option ActivationCheck) :
  decision_ready d0 d changed w → findGrant (fd_Grants d) (cmd_ID c) = Some (i, current) →
  validOperatorDecisionText c = true → findDecisionRecord (fd_DecisionRecords d) scope = None →
  leads_to w (snd (commitOperatorDecision clock o d (grantSnapshots (fd_Grants d0))
    eventSequence changed i current c scope hash validate w)).
Proof.
  intros Hrdy Hf Ht Hnew. unfold commitOperatorDecision.
  destruct (ready_core d0 d changed w Hrdy) as (Hc & Hi & He & Hsv).
  assert (current ∈ fd_Grants d) as Hin.
  { apply findGrant_some in Hf as [Hf' _]. by apply list_elem_of_lookup_2 in Hf'. }
  pose proof (applyDecisionMutation_ok current c validate (clock (w_tick w))
    (co_grants _ _ Hc current Hin) (clock_positive clock Hclock _) Ht) as Hdec.
  unfold mbind at 1, eff_bind at 1. rewrite clocked_now.
  destruct (applyDecisionMutation current c validate (clock (w_tick w))) as [updated err].
  cbn [fst] in Hdec. set (w1 := MkWorld _ _ _ _).
  assert (decision_ready d0 d changed w1) as Hrdy1 by (by apply ready_later).
  assert (leads_to w w1) as Hl1 by (apply leads_to_same; cbn; done || lia).
  etrans; [exact Hl1|]. destruct (_ && _).
  - unfold mbind, eff_bind.
    pose proof (saveDecisionError_leads w1 d eventSequence changed err) as Hl2.
    destruct (saveDecisionError _ _ _ _ w1) as [e w2]. apply Hl2. intros Hch.
    by apply (ready_core d0 d changed w1).
  - apply (decide_leads w1 d0 d changed i (cmd_ID c)); try done.
    intros w2 d2 Hs2 Hrec. unfold mbind at 1, eff_bind at 1. rewrite clocked_now.
    set (w3 := MkWorld _ _ _ _).
    assert (leads_to w2 w3) as Hl3 by (apply leads_to_same; cbn; done || lia).
    etrans; [exact Hl3|]. set (d3 := set_DecisionRecords _ _).
    assert (saveable w3 d3) as Hs3.
    { apply set_DecisionRecords_saveable; [done| |].
      - cbn. rewrite Hrec. by apply findDecisionRecord_none.
      - apply (saveable_later w2); cbn; done || lia. }
    pose proof (persist_leads w3 d3 eventSequence Hs3) as Hl4.
    unfold mbind, eff_bind. by destruct (persistOperatorDecision _ _ w3) as [[e|] w4].
Qed.

Lemma normalizeOperatorDecision_text (c c' : OperatorDecision) :
  normalizeOperatorDecision c = Ok c' → validOperatorDecisionText c' = true.
Proof.
  unfold normalizeOperatorDecision. cbn zeta. rewrite !seq_ok, !refuse_ok.
  intros (_ & H & _ & [= <-]). apply orb_false_iff in H as [H _]. by bool_to_prop.
Qed.

Lemma replay_none (records : list DecisionRecord) (scope hash : string) :
  replayOperatorDecision records scope hash = None → findDecisionRecord records scope = None.
Proof.
  unfold replayOperatorDecision. destruct (findDecisionRecord records scope); [|done]. cbn.
  by repeat case_match.
Qed.

Lemma ApplyOperatorDecision_safe (c : OperatorDecision) (validate : option ActivationCheck) :
  safe (ApplyOperatorDecision clock o command_digest c validate).
Proof.
  intros w d0 Hw. enough (leads_to w (snd (ApplyOperatorDecision clock o command_digest c
    validate w))) as H by exact (H d0 Hw). unfold ApplyOperatorDecision.
  destruct (normalizeOperatorDecision c) as [c'|e] eqn:E; [|apply (safe_ret clock new_id)].
  apply normalizeOperatorDecision_text in E.
  destruct (holds_load clock new_id w d0 Hw) as [H1 H2].
  unfold mbind at 1, eff_bind at 1. destruct (load w) as [r w'] eqn:El. cbn in H1, H2.
  subst r w'. pose proof (prepare_decision_ready w d0 Hw) as H.
  unfold mbind at 1, eff_bind at 1.
  destruct (prepare_decision clock o d0 w) as [[[[d before] ev] changed] w1].
  destruct H as (-> & Hl & Hrdy). etrans; [exact Hl|].
  destruct (ready_core d0 d changed w1 Hrdy) as (_ & _ & _ & Hsv).
  assert (∀ err B (b : B), leads_to w1 (snd ((e ← saveDecisionError d ev changed err;
    mret (b, e)) w1))) as Herr.
  { intros err B b. pose proof (saveDecisionError_leads w1 d ev changed err Hsv) as Hl2.
    unfold mbind, eff_bind. by destruct (saveDecisionError _ _ _ _ w1) as [e w2]. }
  unfold applyPreparedOperatorDecision.
  destruct (replayOperatorDecision _ _ _) as [[replay err]|] eqn:Er; [apply Herr|].
  apply replay_none in Er. unfold resolveOperatorDecisionGrant.
  destruct (findGrant (fd_Grants d) (cmd_ID c')) as [[i current]|] eqn:Ef; [|apply Herr].
  destruct (negb _); [apply Herr|]. by apply commit_leads.
Qed.

(** ** The public operations *)

Context (marshal_cursor : GrantCursor → list Z)
  (unmarshal_cursor : list Z → option GrantCursor) (query_digest : Query → string).

(** The public operations of [Store] that may write. *)
Inductive Operation : Type :=
| OpGet (id : string)
| OpList
| OpListForClient (client : string)
| OpActivePolicyGrants
| OpGetUse (grantID requestID : string)
| OpQueryGrants (q : Query)
| OpReconcileDue
| OpRequest (req : GrantRequest) (plan : option PlanRecord)
| OpRevoke (id approver : string)
| OpCancelForClient (id client : string)
| OpRevokeForClient (id client : string)
| OpReserveUse (grantID requestID operation : string)
| OpCommitUse (grantID requestID : string)
| OpReleaseUse (grantID requestID : string)
| OpRetainUse (grantID requestID : string)
| OpRecordExecution (id : string) (kind : EventKind)
| OpApplyOperatorDecision (c : OperatorDecision) (validate : option ActivationCheck).

Definition perform (op : Operation) (w : World) : World :=
  match op with
  | OpGet id => snd (Get clock o id w)
  | OpList => snd (List_ clock o w)
  | OpListForClient client => snd (ListForClient clock o client w)
  | OpActivePolicyGrants => snd (ActivePolicyGrants clock o w)
  | OpGetUse grantID requestID => snd (GetUse clock o grantID requestID w)
  | OpQueryGrants q =>
    snd (QueryGrants clock o marshal_cursor unmarshal_cursor query_digest q w)
  | OpReconcileDue => snd (reconcileDueLifecycle clock o w)
  | OpRequest req plan => snd (request clock new_id o req plan w)
  | OpRevoke id approver => snd (Revoke clock o id approver w)
  | OpCancelForClient id client => snd (CancelForClient clock o id client w)
  | OpRevokeForClient id client => snd (RevokeForClient clock o id client w)
  | OpReserveUse grantID requestID operation =>
    snd (ReserveUse clock o grantID requestID operation w)
  | OpCommitUse grantID requestID => snd (CommitUse clock o grantID requestID w)
  | OpReleaseUse grantID requestID => snd (ReleaseUse clock o grantID requestID w)
  | OpRetainUse grantID requestID => snd (RetainUse clock o grantID requestID w)
  | OpRecordExecution id kind => snd (RecordExecution clock o id kind w)
  | OpApplyOperatorDecision c validate =>
    snd (ApplyOperatorDecision clock o command_digest c validate w)
  end.

(** One step: any operation, or the process waits and the clock moves on. *)
Inductive store_step (w : World) : World → Prop :=
| step_operation (op : Operation) : store_step w (perform op w)
| step_wait (n : nat) :
  store_step w (MkWorld (w_storage w) (w_tick w + n) (w_ids w) (w_signals w)).

Lemma Get_safe (id : string) : safe (Get clock o id).
Proof.
  apply read_prepared_safe; [done|exact max_events|by apply expireDue_prepares|]. intros d w. cbn. lia || done.
Qed.

Lemma GetUse_safe (grantID requestID : string) : safe (GetUse clock o grantID requestID).
Proof.
  apply read_prepared_safe; [done|exact max_events|by apply prepareLifecycle_prepares|].
  intros d w. cbn. lia || done.
Qed.

Lemma reconcileDue_safe : safe (reconcileDueLifecycle clock o).
Proof.
  apply from_load. intros w d0 Hw.
  pose proof (prepare_working clock new_id _ w d0 d0 (prepareLifecycle_prepares clock o Hclock)
    (holds_working clock new_id w d0 Hw)) as H1.
  unfold mbind at 1, eff_bind at 1.
  destruct (clocked (prepareLifecycle clock o d0) w) as [[d1 changed] w1].
  destruct H1 as (Hwk1 & Hs1 & Ht1 & Hi1).
  destruct (working_step clock new_id Hclock w w1 d0 d1 Hw Hs1 Ht1 ltac:(lia)) as [Hw1 Hl1].
  etrans; [exact Hl1|]. destruct changed; cbn [negb]; [|reflexivity].
  apply (reconcile_then clock new_id o Hclock max_events w1 d0 d1); [done|done|]. intros w' d' c Hsv.
  destruct c; cbn [negb]; [|reflexivity].
  apply save_then; [done|done|]. intros [[]|e]; [|apply safe_ret].
  by apply safe_then_ret, safe_signal.
Qed.

Lemma request_safe (req : GrantRequest) (plan : option PlanRecord) :
  safe (request clock new_id o req plan).
Proof.
  unfold request.
  destruct (normalizeGrantRequest o req) as [req'|e] eqn:E; [|apply safe_ret].
  apply safe_bind.
  - apply updateWithPlan_safe; [done|exact max_events|]. apply request_mutates; [done|done|].
    by eapply normalizeGrantRequest_ok.
  - intros [[g created]|e]; [|apply safe_ret]. destruct (is_empty (grant_ID g)); [apply safe_ret|].
    apply safe_bind; [apply Get_safe|]. intros. apply safe_ret.
Qed.

Lemma settleUse_safe (grantID requestID : string) (target : UseState) :
  settle_target target → safe (settleUse clock o grantID requestID target).
Proof.
  intros Ht. unfold settleUse. destruct (_ || _); [apply safe_ret|].
  apply safe_and_then; [|intros _; apply GetUse_safe].
  apply updateWithPlan_safe; [done|exact max_events|]. by apply settle_mutates.
Qed.

Lemma close_safe (id client : string) (required next : Status) :
  status_step required next → next ≠ StatusConsumed → next ≠ StatusFailed →
  (idle next = true → idle required = true) →
  safe (closeForClient clock o id client required next).
Proof. intros. apply updateWithPlan_safe; [done|exact max_events|]. by apply close_mutates. Qed.

Lemma perform_leads (op : Operation) (w : World) :
  leads_to w (perform op w).
Proof.
  assert (safe (List_ clock o)) as HList.
  { apply read_prepared_safe; [done|exact max_events|by apply expireDue_prepares|]. intros d w'. cbn. lia || done. }
  destruct op; cbn [perform].
  - apply Get_safe.
  - apply HList.
  - apply safe_and_then; [apply HList|intros; apply safe_ret].
  - apply read_prepared_safe; [done|exact max_events|by apply expireDue_prepares|].
    intros d w'. unfold mbind, eff_bind. rewrite clocked_now. cbn. split; [done|]. split; [lia|done].
  - apply GetUse_safe.
  - unfold QueryGrants. destruct (normalizeGrantQuery _ _ _) as [[q' cursor]|e]; [|apply safe_ret].
    apply read_prepared_safe; [done|exact max_events|by apply prepareLifecycle_prepares|].
    intros d w'. cbn. lia || done.
  - apply reconcileDue_safe.
  - by apply request_safe.
  - apply safe_and_then; [apply updateWithPlan_safe; [done|exact max_events|by apply revoke_mutates]|].
    intros g. destruct (is_empty _); [apply safe_ret|apply Get_safe].
  - apply close_safe; try done. constructor.
  - apply close_safe; try done. constructor.
  - unfold ReserveUse. destruct (validUseIdentity grantID requestID operation) eqn:E;
      [|apply safe_ret]. cbn [negb].
    apply safe_and_then; [apply updateWithPlan_safe; [done|exact max_events|by apply reserveUse_mutates]|].
    intros created. apply safe_and_then; [apply GetUse_safe|]. intros. apply safe_ret.
  - apply settleUse_safe. by left.
  - apply settleUse_safe. right. by left.
  - apply settleUse_safe. right. by right.
  - unfold RecordExecution. destruct kind; try apply safe_ret;
      (apply updateWithPlan_safe; [done|exact max_events|by apply (record_mutates clock new_id o Hclock max_events)]).
  - apply ApplyOperatorDecision_safe.
Qed.

Lemma step_leads (w w' : World) : store_step w w' → leads_to w w'.
Proof.
  intros [op|n]; [by apply perform_leads|]. apply leads_to_same; cbn; done || lia.
Qed.

Lemma reachable_leads (w w' : World) : rtc store_step w w' → leads_to w w'.
Proof.
  induction 1 as [|w1 w2 w3 Hs _ IH]; [reflexivity|].
  etrans; [by apply step_leads|exact IH].
Qed.
End reachable.
