(* ===== verification/GrantsHistory.v ===== *)
(** * A store in memory, and histories of a store

    The store in memory is an instance of every interface the store assumes, and
    the one its examples run on; a history is a sequence of operations, delays
    and storage failures. *)

From S2P Require Export GrantsReachable.
From Stdlib Require Import Ascii.

Local Open Scope Z_scope.

#[export] Existing Instance canonical_range.

#[export] Instance memory : GrantStorage := {|
  Storage := FileData;
  PlanRecord := unit;
  loadRaw := λ s, Ok s;
  saveRaw := λ _ d _, (Ok tt, d);
  reread := λ r, r
|}.

#[export] Instance memory_laws : GrantStorageLaws.
Proof.
  split; try done.
  - intros s d0 d plan s' _ _ [= <-]. exists d. split; [done|]. split; try done.
    cbn. by rewrite list_fmap_id.
  - by left.
Qed.

(** One second per reading, from one hour after the zero time. *)
Definition ticking (n : nat) : Time := hour + Z.of_nat n * second.

Lemma ticking_runs : clock_runs ticking.
Proof. split; unfold ticking, hour, second; intros; lia. Qed.

Definition fresh_id (n : nat) : string := String.string_of_list_ascii (replicate (S n) "g"%char).

Definition counting_ids (n : nat) : result error string := Ok (fresh_id n).

Lemma counting_ids_fresh : ids_fresh counting_ids.
Proof.
  split.
  - by intros n id [= <-].
  - intros n m id Hn Hm. unfold counting_ids in *.
    assert (fresh_id n = fresh_id m) as H by congruence.
    apply (f_equal String.list_ascii_of_string) in H. unfold fresh_id in H.
    rewrite !String.list_ascii_of_string_of_list_ascii in H.
    apply (f_equal length) in H. rewrite !length_replicate in H. lia.
Qed.

Definition default_options : Options := defaultStoreBounds (MkOptions 0 0 0 0 0 0 0).

Lemma default_options_ok : options_ok default_options.
Proof. apply defaultStoreBounds_ok. Qed.

Definition empty_data : FileData := MkFileData [] [] [] 1 [].

Definition fresh_world : World := MkWorld empty_data 0 0 0.

Lemma empty_data_ok (t : Time) : data_ok t empty_data.
Proof.
  split; [split|]; cbn; try (intros x Hx; by apply not_elem_of_nil in Hx); try by constructor.
Qed.

Lemma fresh_world_holds : holds ticking counting_ids fresh_world empty_data.
Proof.
  split; [done|]. split; [apply empty_data_ok|]. intros g Hg. by apply not_elem_of_nil in Hg.
Qed.

Lemma memory_holds (w : World) (d : FileData) :
  holds ticking counting_ids w d → d = w_storage w.
Proof. intros (H & _). by injection H. Qed.

(** ** Sessions *)

Definition no_digest (c : OperatorDecision) : string :=
  cmd_Approver c +:+ cmd_IdempotencyKey c.

Definition step_in_memory : World → World → Prop :=
  store_step ticking counting_ids default_options no_digest
    (λ c, string_bytes (cursor_ID c)) (λ _, None) (λ q, query_Client q).

(** Two uses requested for an hour. *)
Definition sample_request : GrantRequest :=
  MkGrantRequest "alice" "req-1" "read" (MkTarget "file" ∅) ∅ ∅ "backup" hour 0 2 true false.

(** The identifier of the first grant. *)
Definition first_id : string := fresh_id 0.

Definition approve_command (key : string) (revision : Z) (c : ApprovalConstraints)
  : OperatorDecision :=
  MkOperatorDecision first_id ActionApprove "bob" EmptyString revision key c EmptyString.

Definition as_requested : ApprovalConstraints := MkApprovalConstraints 0 0 false.

Definition do_request : Eff RequestOutcome :=
  Store_Request ticking counting_ids default_options sample_request.
Definition do_approve (c : ApprovalConstraints) : Eff (OperatorDecisionResult * option error) :=
  ApplyOperatorDecision ticking default_options no_digest (approve_command "k1" 1 c) None.
Definition do_reserve (use : string) : Eff (result error (Grant * GrantUse * bool)) :=
  ReserveUse ticking default_options first_id use "read".
Definition do_commit (use : string) : Eff (result error (Grant * GrantUse)) :=
  CommitUse ticking default_options first_id use.

Definition requested_world : World := snd (do_request fresh_world).
Definition approved_world : World := snd (do_approve as_requested requested_world).
Definition reserved_world : World := snd (do_reserve "u1" approved_world).
Definition committed_world : World := snd (do_commit "u1" reserved_world).

Example session_counts :
  (λ d, (λ g, (grant_Status g, grant_UsedCount g, grant_ReservedCount g, grant_Revision g))
          <$> fd_Grants d)
    <$> [w_storage requested_world; w_storage approved_world; w_storage reserved_world;
         w_storage committed_world]
  = [[(StatusPending, 0, 0, 1)]; [(StatusActive, 0, 0, 2)]; [(StatusActive, 0, 1, 3)];
     [(StatusActive, 1, 0, 4)]].
Proof. vm_compute. reflexivity. Qed.

Lemma requested_reachable : rtc step_in_memory fresh_world requested_world.
Proof.
  apply rtc_once. exact (step_operation _ _ _ _ _ _ _ _ (OpRequest sample_request None)).
Qed.

Lemma approved_to_reserved : rtc step_in_memory approved_world reserved_world.
Proof.
  apply rtc_once. exact (step_operation _ _ _ _ _ _ _ _ (OpReserveUse first_id "u1" "read")).
Qed.

Lemma approved_to_committed : rtc step_in_memory approved_world committed_world.
Proof.
  eapply rtc_r; [exact approved_to_reserved|].
  exact (step_operation _ _ _ _ _ _ _ _ (OpCommitUse first_id "u1")).
Qed.

Lemma approved_reachable : rtc step_in_memory fresh_world approved_world.
Proof.
  eapply rtc_r; [exact requested_reachable|].
  exact (step_operation _ _ _ _ _ _ _ _
    (OpApplyOperatorDecision (approve_command "k1" 1 as_requested) None)).
Qed.

Lemma reserved_reachable : rtc step_in_memory fresh_world reserved_world.
Proof. etrans; [exact approved_reachable|exact approved_to_reserved]. Qed.

Lemma committed_reachable : rtc step_in_memory fresh_world committed_world.
Proof. etrans; [exact approved_reachable|exact approved_to_committed]. Qed.

(** The same session two hours later: the grant has expired. *)
Definition expired_world : World :=
  snd (Get ticking default_options first_id
         (MkWorld (w_storage committed_world) (w_tick committed_world + 7200)
            (w_ids committed_world) (w_signals committed_world))).

Example expired_status :
  grant_Status <$> fd_Grants (w_storage expired_world) = [StatusExpired].
Proof. vm_compute. reflexivity. Qed.

Lemma expired_reachable : rtc step_in_memory committed_world expired_world.
Proof.
  eapply rtc_l; [exact (step_wait _ _ _ _ _ _ _ _ 7200)|].
  eapply rtc_l; [exact (step_operation _ _ _ _ _ _ _ _ (OpGet first_id))|]. reflexivity.
Qed.

Lemma reachable_holds (w : World) :
  rtc step_in_memory fresh_world w → holds ticking counting_ids w (w_storage w).
Proof.
  intros Hr.
  destruct (reachable_leads ticking counting_ids default_options no_digest ticking_runs
    counting_ids_fresh default_options_ok _ _ _ _ _ Hr _ fresh_world_holds)
    as (_ & _ & d & Hd & _). by rewrite <- (memory_holds _ _ Hd).
Qed.

Lemma reserved_holds : holds ticking counting_ids reserved_world (w_storage reserved_world).
Proof. exact (reachable_holds _ reserved_reachable). Qed.

Lemma committed_holds : holds ticking counting_ids committed_world (w_storage committed_world).
Proof. exact (reachable_holds _ committed_reachable). Qed.

Lemma committed_events :
  events_ordered 0 (fd_Events (w_storage committed_world))
    (fd_NextEvent (w_storage committed_world)).
Proof. destruct committed_holds as (_ & [Hc _] & _). exact (co_events _ _ Hc). Qed.

(** * What holds in every history of the grant store

    The safety theorems of the store, stated over all sequences of operations
    and delays from any stored state that satisfies the invariant. *)

(** A grant nobody can use or decide any more. *)
Definition settled_status (s : Status) : bool :=
  match s with
  | StatusDenied | StatusFailed | StatusRevoked | StatusConsumed | StatusCanceled => true
  | _ => false
  end.

(** The uses of a grant in one of the given states. *)
Definition uses_counted (p : UseState → bool) (id : string) (uses : list GrantUse) : Z :=
  Z.of_nat (length (filter (λ u, bool_decide (use_GrantID u = id) && p (use_State u) = true) uses)).

Lemma zsum_counted (p : UseState → bool) (id : string) (uses : list GrantUse) :
  zsum (λ u, if bool_decide (use_GrantID u = id) && p (use_State u) then 1 else 0) uses
  = uses_counted p id uses.
Proof.
  unfold uses_counted. induction uses as [|u uses IH]; [done|]. cbn [zsum]. rewrite filter_cons.
  destruct (_ && _) eqn:E; [rewrite decide_True by done|rewrite decide_False by done];
    cbn [length]; rewrite IH; lia.
Qed.

Lemma settled_final (s s' : Status) : rtc status_step s s' → settled_status s = true → s' = s.
Proof. intros H Hs. destruct H as [|s1 s2 s3 Hst _]; [done|]. by destruct Hst. Qed.

Lemma pending_once (s s' : Status) :
  rtc status_step s s' → s' = StatusPending → s = StatusPending.
Proof.
  intros H. induction H as [|s1 s2 s3 Hst _ IH]; [done|].
  intros Hp. specialize (IH Hp). subst. inversion Hst.
Qed.

Lemma committed_final (s s' : UseState) : rtc use_step s s' → s = UseCommitted → s' = UseCommitted.
Proof. intros H. induction H as [|s1 s2 s3 Hst _ IH]; [done|]. intros ->. inversion Hst. Qed.

(** The counters of a grant are the uses it has, and its budget bounds them. *)
Lemma data_ok_budget {R : MapRange} (t : Time) (d : FileData) (g : Grant) :
  data_ok t d → g ∈ fd_Grants d →
  let committed := uses_counted is_committed (grant_ID g) (fd_Uses d) in
  let open := uses_counted is_open (grant_ID g) (fd_Uses d) in
  grant_UsedCount g = committed ∧ grant_ReservedCount g = open
  ∧ (grant_MaxUses g ≠ Unlimited → committed + open <= grant_MaxUses g)
  ∧ (grant_RequestedMaxUses g ≠ Unlimited → 0 < grant_MaxUses g <= grant_RequestedMaxUses g).
Proof.
  intros [Hc _] Hg. cbn zeta. pose proof (co_grants _ _ Hc g Hg) as Hgc.
  pose proof (co_consistent _ _ Hc g Hg) as Hcs. apply consistent_counts in Hcs as [Hu Hre].
  unfold committed_count in Hu. unfold open_count in Hre. rewrite zsum_counted in Hu, Hre.
  rewrite <- Hu, <- Hre. split; [done|]. split; [done|].
  split.
  - intros Hm. destruct (gc_budget g Hgc); [done|done].
  - intros Hm. destruct (gc_narrowed g Hgc) as [_ [?|?]]; done.
Qed.

(** A stored use is in one of the states of the code. *)
Lemma data_ok_use {R : MapRange} (t : Time) (d : FileData) (u : GrantUse) :
  data_ok t d → u ∈ fd_Uses d → use_State u ≠ UseReleased →
  is_committed (use_State u) || is_open (use_State u) = true.
Proof.
  intros [Hc _] Hu Hr. destruct (co_uses _ _ Hc u Hu) as [[Hl _ _] _].
  unfold validLoadedUseLifecycle in Hl. destruct (use_State u); done.
Qed.

Section history.
Context {R : MapRange} {GS : GrantStorage} {GL : GrantStorageLaws}
  (clock : nat → Time) (new_id : nat → result error string) (o : Options)
  (command_digest : OperatorDecision → string)
  (marshal_cursor : GrantCursor → list Z) (unmarshal_cursor : list Z → option GrantCursor)
  (query_digest : Query → string).

Notation step := (store_step clock new_id o command_digest marshal_cursor unmarshal_cursor
                    query_digest).

(** C2: Whatever operations run, in whatever order and with whatever delays and storage
    failures, the store's data still loads, satisfies the invariant (distinct identifiers,
    valid grants and uses, counters that match the uses, ordered events), and contains
    every earlier grant, use and decision record as a successor of what it was. *)
Theorem store_history_safe (w w' : World) (d : FileData) :
  clock_runs clock → ids_fresh new_id → options_ok o →
  holds clock new_id w d → rtc step w w' →
  ∃ d', fst (load w') = Ok d' ∧ data_ok (clock (w_tick w')) d' ∧ continues d d'.
Proof.
  intros Hclock Hids Ho Hw Hr.
  destruct (reachable_leads clock new_id o command_digest Hclock Hids Ho marshal_cursor
    unmarshal_cursor query_digest w w' Hr d Hw) as (_ & _ & d' & Hd' & He).
  exists d'. split; [by eapply holds_load|]. split; [apply Hd'|done].
Qed.

(** C1: A grant is never overdrawn: in every reachable state the committed uses and the
    uses still reserved or retained, counted from the use records themselves, are together
    at most the grant's use budget unless that is unlimited, and the budget is at most the
    one that was requested; the stored counters agree with the use records. *)
Theorem grants_never_overdrawn (w w' : World) (d : FileData) :
  clock_runs clock → ids_fresh new_id → options_ok o →
  holds clock new_id w d → rtc step w w' →
  ∃ d', fst (load w') = Ok d' ∧ ∀ g, g ∈ fd_Grants d' →
    let committed := uses_counted is_committed (grant_ID g) (fd_Uses d') in
    let open := uses_counted is_open (grant_ID g) (fd_Uses d') in
    grant_UsedCount g = committed ∧ grant_ReservedCount g = open
    ∧ (grant_MaxUses g ≠ Unlimited → committed + open <= grant_MaxUses g)
    ∧ (grant_RequestedMaxUses g ≠ Unlimited →
       0 < grant_MaxUses g <= grant_RequestedMaxUses g).
Proof.
  intros Hclock Hids Ho Hw Hr.
  destruct (reachable_leads clock new_id o command_digest Hclock Hids Ho marshal_cursor
    unmarshal_cursor query_digest w w' Hr d Hw) as (_ & _ & d' & Hd' & He).
  exists d'. split; [by eapply holds_load|]. intros g Hg. by eapply data_ok_budget; [apply (proj1 (proj2 Hd'))|].
Qed.

(** C15: Decisions and consumption are final: a grant that was denied, failed, canceled,
    revoked or consumed keeps that status, and a grant pending now was pending before;
    a committed use stays committed; no decision record changes or disappears. *)
Theorem decisions_are_final (w w' : World) (d : FileData) :
  clock_runs clock → ids_fresh new_id → options_ok o →
  holds clock new_id w d → rtc step w w' →
  ∃ d', fst (load w') = Ok d'
    ∧ (∀ g, g ∈ fd_Grants d → ∃ g', g' ∈ fd_Grants d'
         ∧ fixed_part g' = fixed_part g
         ∧ (settled_status (grant_Status g) = true → grant_Status g' = grant_Status g)
         ∧ (grant_Status g' = StatusPending → grant_Status g = StatusPending))
    ∧ (∀ u, u ∈ fd_Uses d → use_State u = UseCommitted →
         ∃ u', u' ∈ fd_Uses d' ∧ use_State u' = UseCommitted
           ∧ use_GrantID u' = use_GrantID u ∧ use_RequestID u' = use_RequestID u)
    ∧ ∀ r, r ∈ fd_DecisionRecords d → r ∈ fd_DecisionRecords d'.
Proof.
  intros Hclock Hids Ho Hw Hr.
  destruct (reachable_leads clock new_id o command_digest Hclock Hids Ho marshal_cursor
    unmarshal_cursor query_digest w w' Hr d Hw) as (_ & _ & d' & Hd' & [G U D _]).
  exists d'. split; [by eapply holds_load|]. split; [|split; [|done]].
  - intros g Hg. destruct (G g Hg) as (g' & Hg' & [Hf Hs] & _). exists g'.
    split; [done|]. split; [done|]. split; [by apply settled_final|by apply pending_once].
  - intros u Hu Hc. destruct (U u Hu) as (u' & Hu' & [Hf Hs _]). exists u'.
    injection Hf as H1 H2 _ _. split; [done|]. split; [by eapply committed_final|done].
Qed.
End history.

Lemma store_history_safe_witness :
  ∃ d', fst (load committed_world) = Ok d'
    ∧ data_ok (ticking (w_tick committed_world)) d' ∧ continues empty_data d'.
Proof.
  exact (store_history_safe ticking counting_ids default_options no_digest _ _ _ _ _ _
    ticking_runs counting_ids_fresh default_options_ok fresh_world_holds committed_reachable).
Defined.

Lemma grants_never_overdrawn_witness :
  ∃ d', fst (load committed_world) = Ok d' ∧ ∀ g, g ∈ fd_Grants d' →
    let committed := uses_counted is_committed (grant_ID g) (fd_Uses d') in
    let open := uses_counted is_open (grant_ID g) (fd_Uses d') in
    grant_UsedCount g = committed ∧ grant_ReservedCount g = open
    ∧ (grant_MaxUses g ≠ Unlimited → committed + open <= grant_MaxUses g)
    ∧ (grant_RequestedMaxUses g ≠ Unlimited →
       0 < grant_MaxUses g <= grant_RequestedMaxUses g).
Proof.
  exact (grants_never_overdrawn ticking counting_ids default_options no_digest _ _ _ _ _ _
    ticking_runs counting_ids_fresh default_options_ok fresh_world_holds committed_reachable).
Defined.

Lemma decisions_are_final_witness :
  let d := w_storage committed_world in
  (use_State <$> fd_Uses d) = [UseCommitted] ∧ length (fd_DecisionRecords d) = 1%nat
  ∧ ∃ d', fst (load expired_world) = Ok d'
    ∧ (∀ g, g ∈ fd_Grants d → ∃ g', g' ∈ fd_Grants d'
         ∧ fixed_part g' = fixed_part g
         ∧ (settled_status (grant_Status g) = true → grant_Status g' = grant_Status g)
         ∧ (grant_Status g' = StatusPending → grant_Status g = StatusPending))
    ∧ (∀ u, u ∈ fd_Uses d → use_State u = UseCommitted →
         ∃ u', u' ∈ fd_Uses d' ∧ use_State u' = UseCommitted
           ∧ use_GrantID u' = use_GrantID u ∧ use_RequestID u' = use_RequestID u)
    ∧ ∀ r, r ∈ fd_DecisionRecords d → r ∈ fd_DecisionRecords d'.
Proof.
  split; [by vm_compute|]. split; [by vm_compute|].
  exact (decisions_are_final ticking counting_ids default_options no_digest _ _ _ _ _ _
    ticking_runs counting_ids_fresh default_options_ok committed_holds expired_reachable).
Defined.
