(* ===== verification/GrantsVerdicts.v ===== *)
(** * What an operator decision does

    The effect of a committed decision, its idempotent replay, and the conflicts
    that are refused. *)

From S2P Require Export GrantsHistory.

Local Open Scope Z_scope.

(** ** A lifecycle step that reports no change makes none *)

Section unchanged.
Context {R : MapRange} (clock : nat → Time) (o : Options).

Lemma set_Grants_same (d : FileData) (gs : list Grant) :
  gs = fd_Grants d → set_Grants gs d = d.
Proof. intros ->. by destruct d. Qed.

Lemma expire_at_unchanged (instant : Time) (d : FileData) :
  snd (expire_at instant d) = false ↔ ∀ g, g ∈ fd_Grants d → expire_grant instant g = None.
Proof.
  cbn. rewrite <- not_true_iff_false, existsb_exists. split.
  - intros Hn g Hg. destruct (expire_grant instant g) eqn:E; [|done]. destruct Hn.
    exists g. split; [by apply list_elem_of_In|]. by rewrite E.
  - intros Hn (g & Hg & E). apply list_elem_of_In in Hg. rewrite (Hn g Hg) in E. done.
Qed.

Lemma expire_at_same (instant : Time) (d : FileData) :
  snd (expire_at instant d) = false → fst (expire_at instant d) = d.
Proof.
  rewrite expire_at_unchanged. intros Hn. apply set_Grants_same.
  rewrite <- (list_fmap_id (fd_Grants d)) at 2. apply list_fmap_ext. intros i g Hg.
  by rewrite (Hn g) by (by apply list_elem_of_lookup_2 in Hg).
Qed.

Lemma changed_grants_empty (l : list GrantUse) : changed_grants l = ∅ ↔ l = [].
Proof.
  split; [|by intros ->]. intros H. destruct l as [|u l]; [done|].
  pose proof (changed_grants_lookup (u :: l) (use_GrantID u)) as Hl.
  rewrite H, lookup_empty, bool_decide_true in Hl; [done|left].
Qed.

Lemma retain_at_unchanged (instant : Time) (d : FileData) :
  snd (retain_at o instant d) = false ↔
  ∀ u, u ∈ fd_Uses d → use_is_stale (fd_Grants d) instant (opts_ReservationTimeout o) u = false.
Proof.
  cbn. rewrite negb_false_iff, Nat.eqb_eq, map_size_empty_iff, changed_grants_empty.
  split.
  - intros Hnil u Hu. apply not_true_iff_false. intros Hs. apply (not_elem_of_nil u).
    rewrite <- Hnil. by apply list_elem_of_filter.
  - intros Hn. apply elem_of_nil_inv. intros u [Hs Hu]%list_elem_of_filter.
    by rewrite Hn in Hs.
Qed.

Lemma retain_at_same (instant : Time) (d : FileData) :
  snd (retain_at o instant d) = false → fst (retain_at o instant d) = d.
Proof.
  intros H. pose proof (proj1 (retain_at_unchanged instant d) H) as Hn.
  cbn in H. rewrite negb_false_iff, Nat.eqb_eq, map_size_empty_iff in H.
  unfold retain_at. cbn [fst]. rewrite H.
  assert (map_range (∅ : gmap string Z) = []) as ->.
  { apply Permutation_nil_r. by rewrite map_range_perm, map_to_list_empty. }
  cbn [foldl].
  assert ((λ u, if use_is_stale (fd_Grants d) instant (opts_ReservationTimeout o) u
                then retain_use instant u else u) <$> fd_Uses d = fd_Uses d) as ->.
  { rewrite <- (list_fmap_id (fd_Uses d)) at 2. apply list_fmap_ext. intros i u Hu.
    by rewrite Hn by (by apply list_elem_of_lookup_2 in Hu). }
  by destruct d.
Qed.

Lemma prepareLifecycle_same (d d' : FileData) (t t' : nat) :
  prepareLifecycle clock o d t = (d', false, t') → d' = d.
Proof.
  unfold prepareLifecycle, expireDue, retainStaleReservations, now, mbind, clocked_bind, mret,
    clocked_ret.
  destruct (expire_at (clock t) d) as [d1 c1] eqn:E1.
  destruct (retain_at o (clock (S t)) d1) as [d2 c2] eqn:E2.
  intros [= <- [-> ->]%orb_false_iff _].
  pose proof (retain_at_same (clock (S t)) d1) as H2. rewrite E2 in H2. cbn in H2.
  pose proof (expire_at_same (clock t) d) as H1. rewrite E1 in H1. cbn in H1.
  rewrite H2 by done. by apply H1.
Qed.
End unchanged.

(** ** Committed decisions *)

Lemma applyDecisionAction_status (g updated : Grant) (c : OperatorDecision)
    (validate : option ActivationCheck) (instant : Time) :
  applyDecisionAction g c validate instant = Ok updated →
  statusEventKinds g updated ≠ [].
Proof.
  intros [(_ & Hs & _ & _ & ->)|[(_ & Hs & ->)|(_ & Hs & ->)]]%applyDecisionAction_ok;
    unfold statusEventKinds; cbn; by rewrite Hs.
Qed.

Lemma bind_run `{GrantStorage} {A B} (m : Eff A) (f : A → Eff B) (w : World) :
  (m ≫= f) w = let '(a, w') := m w in f a w'.
Proof. done. Qed.

Lemma ret_run `{GrantStorage} {A} (a : A) (w : World) : (mret a : Eff A) w = (a, w).
Proof. done. Qed.

Section verdicts.
Context {R : MapRange} {GS : GrantStorage} {GL : GrantStorageLaws}
  (clock : nat → Time) (new_id : nat → result error string) (o : Options)
  (command_digest : OperatorDecision → string).

Notation holds := (holds clock new_id).
Notation decide_on := (ApplyOperatorDecision clock o command_digest).
Notation hash := (hashOperatorDecision command_digest).

(** What a decision that succeeds, and is not a replay, has done: it acted on
    the grant's expected revision, made the next one, and left a record; [d] is
    the data it wrote, and its instant was read from the clock after the reading [m]. *)
Definition committed (m : nat) (c : OperatorDecision) (validate : option ActivationCheck)
    (res : OperatorDecisionResult) (d : FileData) : Prop :=
  ∃ i instant updated earlier at_time,
    (∃ n, (m <= n)%nat ∧ instant = clock n)
    ∧ grant_core (res_Previous res)
    ∧ applyDecisionAction (res_Previous res) c validate instant = Ok updated
    ∧ grant_ID (res_Previous res) = cmd_ID c
    ∧ grant_Revision (res_Previous res) = cmd_ExpectedRevision c
    ∧ res_Grant res = set_Revision (cmd_ExpectedRevision c + 1) (decided c instant updated)
    ∧ res_Replay res = false
    ∧ fd_Grants d !! i = Some (res_Grant res)
    ∧ findDecisionRecord earlier (decisionScope c) = None
    ∧ fd_DecisionRecords d
      = earlier ++ [MkDecisionRecord (decisionScope c) (hash c) (res_Grant res)
                      (res_Previous res) (res_EventCursor res) no_code EmptyString at_time
                      EmptyString EmptyString].

(** The world after such a decision holds what it wrote, as it is read back. *)
Definition has_committed (m : nat) (c : OperatorDecision) (validate : option ActivationCheck)
    (res : OperatorDecisionResult) (w : World) : Prop :=
  ∃ d d', committed m c validate res d ∧ stored_as d d' ∧ loadRaw (w_storage w) = Ok d'.

Context (Hclock : clock_runs clock) (Hids : ids_fresh new_id) (Ho : options_ok o).

Lemma persist_ok (d0 d : FileData) (eventSequence : Z) (w w' : World) :
  loadRaw (w_storage w) = Ok d0 → saveable clock new_id w d →
  persistOperatorDecision d eventSequence w = (None, w') →
  ∃ d', loadRaw (w_storage w') = Ok d' ∧ stored_as d d'.
Proof.
  intros Hl (Hd & _ & Hext).
  pose proof (core_ok_writable _ _ d0 d (do_core _ _ Hd) (Hext d0 Hl)) as Hwr.
  unfold persistOperatorDecision, save, saveWithPlan, mbind, eff_bind.
  destruct (saveRaw (w_storage w) d None) as [[[]|e] s] eqn:E; [|done].
  unfold signalNewEvents. destruct (_ =? _); cbn; intros [= <-]; cbn; by eapply save_ok_load.
Qed.

Lemma saveDecisionError_some (d : FileData) (eventSequence : Z) (changed : bool) (e : error)
    (w w' : World) :
  saveDecisionError d eventSequence changed (Some e) w ≠ (None, w').
Proof.
  unfold saveDecisionError. destruct changed; [|done]. unfold mbind, eff_bind.
  by destruct (persistOperatorDecision d eventSequence w) as [[e'|] w1].
Qed.

Lemma reconciled_updated (before : gmap string Grant) (current updated : Grant) :
  before !! grant_ID updated = Some current → statusEventKinds current updated ≠ [] →
  reconciled before updated = set_Revision (grant_Revision current + 1) updated.
Proof.
  intros Hb Hk. unfold reconciled, kinds_of. rewrite Hb. cbn [lifecycleKinds next_revision].
  by destruct (statusEventKinds current updated).
Qed.

Lemma commit_fails (w w' : World) (d : FileData) (before : gmap string Grant)
    (eventSequence : Z) (changed : bool) (i : nat) (current updated : Grant)
    (c : OperatorDecision) (scope digest : string) (validate : option ActivationCheck)
    (res : OperatorDecisionResult) (e : error) :
  applyDecisionMutation current c validate (clock (w_tick w)) = (updated, Some e) →
  commitOperatorDecision clock o d before eventSequence changed i current c scope digest
    validate w ≠ ((res, None), w').
Proof.
  intros H. unfold commitOperatorDecision. rewrite bind_run, clocked_now, H, bool_decide_true by done. cbn [andb].
  destruct (negb _); unfold mbind, eff_bind.
  - destruct (saveDecisionError _ _ _ _ _) as [e' w2] eqn:Es. intros [= _ -> _].
    by eapply saveDecisionError_some.
  - destruct (reconcileOperatorMutation _ _ _ _ _ _ _) as [d2 w2]. rewrite clocked_now.
    by destruct (persistOperatorDecision _ _ _) as [[e'|] w3].
Qed.

Lemma commit_inv (w w' : World) (d0 d : FileData) (eventSequence : Z) (changed : bool)
    (i : nat) (current : Grant) (c : OperatorDecision) (validate : option ActivationCheck)
    (res : OperatorDecisionResult) :
  decision_ready clock new_id d0 d changed w → (changed = false → d = d0) →
  findGrant (fd_Grants d) (cmd_ID c) = Some (i, current) →
  validOperatorDecisionText c = true → cmd_ExpectedRevision c = grant_Revision current →
  findDecisionRecord (fd_DecisionRecords d) (decisionScope c) = None →
  commitOperatorDecision clock o d (grantSnapshots (fd_Grants d0)) eventSequence changed i
    current c (decisionScope c) (hash c) validate w = ((res, None), w') →
  has_committed (w_tick w) c validate res w'.
Proof.
  intros Hrdy Hsame Hf Ht Hexp Hrec Hrun.
  destruct (ready_core clock new_id d0 d changed w Hrdy) as (Hc & Hi & He & _).
  pose proof (findGrant_some _ _ _ _ Hf) as [Hgi Hgid].
  assert (current ∈ fd_Grants d) as Hin by (by apply list_elem_of_lookup_2 in Hgi).
  pose proof (applyDecisionMutation_ok current c validate (clock (w_tick w))
    (co_grants _ _ Hc current Hin) (clock_positive clock Hclock _) Ht) as Hdec.
  destruct (applyDecisionMutation current c validate (clock (w_tick w))) as [upd [e|]] eqn:Em.
  { exfalso. by eapply commit_fails. }
  assert (∃ updated, applyDecisionAction current c validate (clock (w_tick w)) = Ok updated
                     ∧ upd = decided c (clock (w_tick w)) updated) as (updated & Ha & ->).
  { unfold applyDecisionMutation in Em. destruct (applyDecisionAction _ _ _ _) as [u|e]; [|
      by destruct (terminalActivationFailure e)]. injection Em as <-. eauto. }
  unfold commitOperatorDecision in Hrun.
  rewrite bind_run, clocked_now, Em in Hrun. rewrite bool_decide_false in Hrun by (by intros []).
  cbn [andb fst] in *. set (instant := clock (w_tick w)) in *. set (w1 := MkWorld _ _ _ _) in *.
  assert (decision_ready clock new_id d0 d changed w1) as Hrdy1
    by (by apply (ready_later clock new_id Hclock d0 d changed w)).
  destruct (decided_ready clock new_id Hclock w1 d0 d changed i _ current _ Hrdy1 Hf Hdec)
    as (Hc1 & Hi1 & He1 & Hsnap & Hknown). cbn zeta in *.
  set (d1 := set_Grants _ d) in *.
  set (before' := if changed then _ else _) in *.
  unfold reconcileOperatorMutation in Hrun. fold before' in Hrun.
  assert (loadRaw (w_storage w1) = Ok d0) as Hl1 by apply Hrdy1.
  pose proof (reconcile_saveable_with clock new_id o Hclock (max_events o Ho) w1 d0 d1 before' Hl1
    Hc1 Hi1 He1 Hsnap Hknown) as Hpost.
  rewrite bind_run, (bind_run (clocked _)) in Hrun.
  destruct (clocked (reconcileLifecycle clock o d1 before') w1) as [[d2 chg] w2].
  destruct Hpost as (Hs2 & Hg2 & Hd2 & Hst2 & _).
  assert (fd_Grants d2 !! i = Some (set_Revision (cmd_ExpectedRevision c + 1)
            (decided c instant updated))) as Hres.
  { rewrite Hg2. unfold d1. cbn [fd_Grants set_Grants].
    rewrite list_lookup_fmap, list_lookup_insert_eq by (by eapply lookup_lt_Some). cbn. f_equal.
    rewrite Hexp. apply reconciled_updated.
    - assert (grant_ID (decided c instant updated) = grant_ID current) as ->
        by (by apply evolves_ID, Hdec).
      unfold before'. destruct changed; [apply lookup_insert_eq|].
      rewrite <- (Hsame eq_refl), lookup_grantSnapshots by apply (co_ids _ _ Hc).
      by rewrite Hgid, Hf.
    - by apply (applyDecisionAction_status _ _ _ _ _ Ha). }
  rewrite ret_run, Hres in Hrun. cbn [default from_option] in Hrun.
  rewrite bind_run, clocked_now, bind_run in Hrun.
  destruct (persistOperatorDecision _ _ _) as [[e|] w3] eqn:Ep; [done|].
  apply (persist_ok d0) in Ep as (d' & Hld & Hsd); [|cbn; by rewrite Hst2|].
  2: { apply set_DecisionRecords_saveable; [done| |].
       - cbn. rewrite Hd2. by apply findDecisionRecord_none.
       - apply (saveable_later clock new_id Hclock w2); cbn; done || lia. }
  injection Hrun as <- <-. eexists _, d'. split; [|split; [exact Hsd|exact Hld]].
  exists i, instant, updated, (fd_DecisionRecords d). eexists.
  split; [by exists (w_tick w)|]. split; [by apply (co_grants _ _ Hc)|]. repeat (split; [done|]). cbn. rewrite Hd2. done.
Qed.

(** The operation, once its command is normalized and its data loaded. *)
Lemma decide_run (w : World) (d0 : FileData) (c c' : OperatorDecision)
    (validate : option ActivationCheck) :
  holds w d0 → normalizeOperatorDecision c = Ok c' →
  decide_on c validate w
  = let '((d, before, eventSequence, changed), w1) := prepare_decision clock o d0 w in
    applyPreparedOperatorDecision clock o command_digest d before eventSequence changed c'
      validate w1.
Proof.
  intros Hw E. unfold ApplyOperatorDecision. rewrite E, bind_run.
  destruct (holds_load clock new_id w d0 Hw) as [H1 H2].
  destruct (load w) as [r w'] eqn:El. cbn in H1, H2. subst r w'. rewrite bind_run.
  by destruct (prepare_decision clock o d0 w) as [[[[d before] ev] changed] w1].
Qed.

Lemma prepare_decision_same (w w1 : World) (d0 d : FileData) (before : gmap string Grant)
    (eventSequence : Z) :
  prepare_decision clock o d0 w = ((d, before, eventSequence, false), w1) → d = d0.
Proof.
  unfold prepare_decision. rewrite bind_run, clocked_world.
  destruct (prepareLifecycle clock o d0 (w_tick w)) as [[d1 []] t] eqn:E; cbn [fst snd].
  - rewrite bind_run. by destruct (clocked _ _) as [[d2 chg] w2].
  - intros [= <- _ _ _]. by eapply prepareLifecycle_same.
Qed.

Lemma decision_inv (w w' : World) (d0 : FileData) (c c' : OperatorDecision)
    (validate : option ActivationCheck) (res : OperatorDecisionResult) :
  holds w d0 → normalizeOperatorDecision c = Ok c' →
  decide_on c validate w = ((res, None), w') → res_Replay res = false →
  has_committed (w_tick w) c' validate res w'.
Proof.
  intros Hw E. rewrite (decide_run w d0 c c' validate Hw E).
  pose proof (prepare_decision_ready clock new_id o Hclock Ho w d0 Hw) as Hrdy.
  destruct (prepare_decision clock o d0 w) as [[[[d before] ev] changed] w1] eqn:Ep.
  destruct Hrdy as (-> & Hlead & Hrdy). destruct (Hlead d0 Hw) as (Htick & _ & _).
  assert (changed = false → d = d0) as Hsame
    by (intros ->; by eapply prepare_decision_same).
  unfold applyPreparedOperatorDecision, replayOperatorDecision.
  destruct (findDecisionRecord (fd_DecisionRecords d) (decisionScope c')) as [record|] eqn:Er;
    cbn [mbind option_bind].
  - destruct (negb _); [|case_bool_decide]; rewrite bind_run;
      destruct (saveDecisionError _ _ _ _ _) as [e w2] eqn:Es;
      [intros [= _ -> _]; by apply saveDecisionError_some in Es| |]; by intros [= <- _ _].
  - unfold resolveOperatorDecisionGrant.
    destruct (findGrant (fd_Grants d) (cmd_ID c')) as [[i current]|] eqn:Ef.
    2:{ rewrite bind_run. destruct (saveDecisionError _ _ _ _ _) as [e w2] eqn:Es.
        intros [= _ -> _]. by apply saveDecisionError_some in Es. }
    destruct (Z.eqb_spec (cmd_ExpectedRevision c') (grant_Revision current)); cbn [negb].
    2:{ rewrite bind_run. destruct (saveDecisionError _ _ _ _ _) as [e w2] eqn:Es.
        intros [= _ -> _]. by apply saveDecisionError_some in Es. }
    intros Hrun _. eapply commit_inv in Hrun; try done; [|by eapply normalizeOperatorDecision_text].
    destruct Hrun as (dw & d' & (j & instant & updated & earlier & at_time & (n & Hn & Hi) & Hrest) & Hst).
    exists dw, d'. split; [|exact Hst]. exists j, instant, updated, earlier, at_time.
    split; [exists n; split; [lia|done]|exact Hrest].
Qed.

(** The error of a command that was not committed: its own, joined with the
    storage failure when the lifecycle changes could not be saved. *)
Definition reported (own reported : option error) : Prop :=
  reported = own
  ∨ ∃ cause, reported = errors_Join own (Some (activation_New CodeStorageUnavailable (Some cause))).

Lemma saveDecisionError_reported (d : FileData) (eventSequence : Z) (changed : bool)
    (e : option error) (w : World) :
  reported e (fst (saveDecisionError d eventSequence changed e w)).
Proof.
  unfold saveDecisionError, persistOperatorDecision. destruct changed; [|by left].
  rewrite !bind_run. destruct (save d w) as [[[]|cause] w1]; [|right; by exists cause].
  rewrite bind_run. destruct (signalNewEvents _ _ _). by left.
Qed.

Lemma findDecisionRecord_elem (records : list DecisionRecord) (record : DecisionRecord) :
  NoDup (rec_Scope <$> records) → record ∈ records →
  findDecisionRecord records (rec_Scope record) = Some record.
Proof.
  unfold findDecisionRecord. induction records as [|r records IH]; cbn.
  - intros _ Hin. by apply not_elem_of_nil in Hin.
  - intros [Hr Hnd]%NoDup_cons [->|Hin]%elem_of_cons; [by rewrite String.eqb_refl|].
    destruct (String.eqb_spec (rec_Scope r) (rec_Scope record)) as [He|]; [|by apply IH].
    destruct Hr. rewrite He. by apply list_elem_of_fmap_2.
Qed.

(** A stored record decides every later command with its scope. *)
Lemma recorded_replay (w : World) (d0 : FileData)
    (record : DecisionRecord) (c c' : OperatorDecision) (validate : option ActivationCheck) :
  holds w d0 → normalizeOperatorDecision c = Ok c' →
  record ∈ fd_DecisionRecords d0 → rec_Scope record = decisionScope c' →
  ∃ e, fst (decide_on c validate w)
       = (if String.eqb (rec_CommandHash record) (hash c')
          then MkOperatorDecisionResult (rec_Result record) (rec_Previous record)
                 (rec_EventCursor record) true
          else zero_result, e)
    ∧ reported (if String.eqb (rec_CommandHash record) (hash c')
                then if bool_decide (rec_FailureCode record = no_code) then None
                     else Some (activation_New (rec_FailureCode record) None)
                else Some ErrIdempotencyConflict) e.
Proof.
  intros Hw E Hin Hscope. rewrite (decide_run w d0 c c' validate Hw E).
  pose proof (prepare_decision_ready clock new_id o Hclock Ho w d0 Hw) as Hrdy.
  destruct (prepare_decision clock o d0 w) as [[[[d before] ev] changed] w1].
  destruct Hrdy as (_ & _ & Hrdy).
  destruct (ready_core clock new_id d0 d changed w1 Hrdy) as (Hc & _ & [_ _ (more & Hmore & _) _] & _).
  assert (findDecisionRecord (fd_DecisionRecords d) (decisionScope c') = Some record) as Hfind.
  { rewrite <- Hscope. apply findDecisionRecord_elem; [apply (co_scopes _ _ Hc)|].
    rewrite Hmore. apply elem_of_app. by left. }
  unfold applyPreparedOperatorDecision, replayOperatorDecision. rewrite Hfind.
  cbn [mbind option_bind].
  destruct (String.eqb (rec_CommandHash record) (hash c')); cbn [negb];
    [case_bool_decide|]; rewrite bind_run;
    match goal with |- context [saveDecisionError ?d ?ev ?ch ?e ?w] =>
      pose proof (saveDecisionError_reported d ev ch e w) as Hrep;
      destruct (saveDecisionError d ev ch e w) as [e' w2] end;
    by exists e'.
Qed.

Context (marshal_cursor : GrantCursor → list Z)
  (unmarshal_cursor : list Z → option GrantCursor) (query_digest : Query → string).

Notation step := (store_step clock new_id o command_digest marshal_cursor unmarshal_cursor
                    query_digest).

(** A committed decision stays recorded in every later state. *)
Lemma committed_recorded (w w' w2 : World) (d0 d' : FileData) (c : OperatorDecision)
    (validate : option ActivationCheck) :
  holds w d0 → w' = snd (decide_on c validate w) →
  loadRaw (w_storage w') = Ok d' → rtc step w' w2 →
  ∃ d2, holds w2 d2 ∧ ∀ r, r ∈ fd_DecisionRecords d' → r ∈ fd_DecisionRecords d2.
Proof.
  intros Hw -> Hl Hr.
  destruct (ApplyOperatorDecision_safe clock new_id o command_digest Hclock Ho c validate w d0 Hw)
    as (_ & _ & d1 & Hd1 & _).
  assert (d1 = d') as -> by (destruct Hd1; congruence).
  destruct (reachable_leads clock new_id o command_digest Hclock Hids Ho marshal_cursor
    unmarshal_cursor query_digest _ w2 Hr d' Hd1) as (_ & _ & d2 & Hd2 & [_ _ D _]).
  by exists d2.
Qed.
End verdicts.

(** A grant that is pending or active has no failure code, so neither has the
    result of a committed decision. *)
Lemma committed_failure_free (clock : nat → Time) (command_digest : OperatorDecision → string) `{R : MapRange}
    (m : nat) (c : OperatorDecision) (validate : option ActivationCheck) (res : OperatorDecisionResult)
    (d : FileData) :
  committed clock command_digest m c validate res d → grant_FailureCode (res_Grant res) = no_code.
Proof.
  intros (i & instant & updated & earlier & at_time & _ & Hcore & Ha & _ & _ & -> & _).
  assert (∀ g, grant_core g → grant_Status g ≠ StatusFailed → grant_FailureCode g = no_code)
    as Hfree.
  { intros g Hg Hs. pose proof (gc_failure g Hg) as Hf. unfold validGrantFailure in Hf.
    rewrite bool_decide_false in Hf by done. by bool_to_prop. }
  apply applyDecisionAction_ok in Ha
    as [(_ & Hs & _ & _ & ->)|[(_ & Hs & ->)|(_ & Hs & ->)]];
    rewrite <- (Hfree _ Hcore) by (by rewrite Hs); [|done|done].
  unfold applyApprovalConstraints. by destruct (0 <? _), (constraintUseLimitSpecified _).
Qed.

(** ** Theorems *)

Section theorems.
Context {R : MapRange} {GS : GrantStorage} {GL : GrantStorageLaws}
  (clock : nat → Time) (new_id : nat → result error string) (o : Options)
  (command_digest : OperatorDecision → string)
  (marshal_cursor : GrantCursor → list Z) (unmarshal_cursor : list Z → option GrantCursor)
  (query_digest : Query → string).

Notation decide_on := (ApplyOperatorDecision clock o command_digest).
Notation step := (store_step clock new_id o command_digest marshal_cursor unmarshal_cursor
                    query_digest).

(** C13: A decision that succeeds acted on the grant it names, at the revision the operator
    expected, and the grant it returns is the one now stored.  It is the grant as it was,
    with the next revision, the approver, the delegate and the instant of the decision, read
    from the clock during the call, and nothing else changed but this: an approval, only of
    a pending grant and only when its activation check passed, sets it active with the
    duration and the number of uses the operator gave (those of the grant where none are
    given), never more than was requested, expiring that duration after the decision; a
    denial only closes a pending grant and a revocation only an active one. *)
Theorem accepted_decision_effect (w w' : World) (d : FileData) (c c' : OperatorDecision)
    (validate : option ActivationCheck) (res : OperatorDecisionResult) :
  clock_runs clock → options_ok o → holds clock new_id w d →
  normalizeOperatorDecision c = Ok c' →
  decide_on c validate w = ((res, None), w') → res_Replay res = false →
  let before := res_Previous res in
  let after := res_Grant res in
  let constraints := cmd_Constraints c' in
  let duration := if 0 <? ac_Duration constraints then ac_Duration constraints else grant_Duration before in
  let uses := if ac_MaxUsesSpecified constraints || (0 <? ac_MaxUses constraints)
              then ac_MaxUses constraints else grant_MaxUses before in
  let signed n g := set_Revision (cmd_ExpectedRevision c' + 1) (set_DecidedOnBehalfOf (cmd_OnBehalfOf c')
                      (set_DecidedBy (cmd_Approver c') (set_DecidedAt (clock n) g))) in
  (∃ d', loadRaw (w_storage w') = Ok d' ∧ after ∈ fd_Grants d')
  ∧ grant_ID before = cmd_ID c' ∧ grant_Revision before = cmd_ExpectedRevision c'
  ∧ ∃ n, (w_tick w <= n)%nat
    ∧ match cmd_Action c' with
      | ActionApprove =>
        grant_Status before = StatusPending
        ∧ (∀ check, validate = Some check → check before constraints = None)
        ∧ after = signed n (set_ExpiresAt (clock n + duration) (set_Status StatusActive
                     (set_MaxUses uses (set_Duration duration before))))
        ∧ 0 < duration <= grant_RequestedDuration before
        ∧ (grant_RequestedMaxUses before = 0 ∧ 0 <= uses ∨ 0 < uses <= grant_RequestedMaxUses before)
      | ActionDeny => grant_Status before = StatusPending ∧ after = signed n (set_Status StatusDenied before)
      | ActionRevoke => grant_Status before = StatusActive ∧ after = signed n (set_Status StatusRevoked before)
      | ActionOther _ => False
      end.
Proof.
  intros Hclock Ho Hw E Hrun Hrep.
  destruct (decision_inv clock new_id o command_digest Hclock Ho w w' d c c' validate res Hw E
    Hrun Hrep) as (dw & d' & (i & instant & updated & earlier & at_time & (n & Hn & ->) & Hcore & Ha & Hid & Hrev
        & Hres & _ & Hi & _) & Hst & Hl).
  cbn zeta. split.
  { exists d'. split; [done|]. rewrite (stored_Grants _ _ Hst). by apply list_elem_of_lookup_2 in Hi. }
  split; [done|]. split; [done|]. exists n. split; [done|]. rewrite Hres. unfold decided.
  apply applyDecisionAction_ok in Ha
    as [(Hact & Hs & Hv & Hchk & ->)|[(Hact & Hs & ->)|(Hact & Hs & ->)]]; rewrite Hact; [|done|done].
  pose proof (approval_narrows _ _ Hcore Hv) as (Hd & Hm & [Hn1 Hn2] & Hrd & Hrm).
  split; [done|]. split; [done|].
  assert (applyApprovalConstraints (res_Previous res) (cmd_Constraints c')
    = set_MaxUses (if ac_MaxUsesSpecified (cmd_Constraints c') || (0 <? ac_MaxUses (cmd_Constraints c'))
                   then ac_MaxUses (cmd_Constraints c') else grant_MaxUses (res_Previous res))
        (set_Duration (if 0 <? ac_Duration (cmd_Constraints c') then ac_Duration (cmd_Constraints c')
                       else grant_Duration (res_Previous res)) (res_Previous res))) as E'.
  { unfold applyApprovalConstraints, constraintUseLimitSpecified, IsFinite.
    destruct (res_Previous res). by destruct (0 <? ac_Duration _), (ac_MaxUsesSpecified _ || _). }
  rewrite E' in *. unfold Unlimited in *. split; [done|]. rewrite Hrm, Hrd in *. cbn in *.
  split; [lia|]. destruct Hn2 as [->|Hn2]; [left|right]; done.
Qed.

(** The fields of a command that make its content, besides the identifier, the action and
    the key it is filed under. *)
Definition same_content (a b : OperatorDecision) : Prop :=
  cmd_Approver a = cmd_Approver b ∧ cmd_OnBehalfOf a = cmd_OnBehalfOf b
  ∧ cmd_ExpectedRevision a = cmd_ExpectedRevision b ∧ cmd_Constraints a = cmd_Constraints b.

(** A command without its correlation identifier. *)
Definition without_correlation (a : OperatorDecision) : OperatorDecision :=
  MkOperatorDecision (cmd_ID a) (cmd_Action a) (cmd_Approver a) (cmd_OnBehalfOf a) (cmd_ExpectedRevision a)
    (cmd_IdempotencyKey a) (cmd_Constraints a) EmptyString.

(** C14: A committed decision is replayed, never repeated.  Whatever happens afterwards, a
    command for the same grant and action under the same key, with the same approver,
    delegate, revision and constraints (the correlation identifier may differ), returns the
    original result, marked as a replay, and no error of its own; one in which any of
    these differs gets an idempotency conflict and an empty result, as long as the digests of
    the two commands do not collide. *)
Theorem committed_decision_replays (w w1 w2 : World) (d : FileData)
    (c c1 c2 c2' : OperatorDecision) (validate validate2 : option ActivationCheck)
    (res : OperatorDecisionResult) :
  clock_runs clock → ids_fresh new_id → options_ok o → holds clock new_id w d →
  normalizeOperatorDecision c = Ok c1 → decide_on c validate w = ((res, None), w1) →
  res_Replay res = false → rtc step w1 w2 →
  normalizeOperatorDecision c2 = Ok c2' →
  cmd_ID c2' = cmd_ID c1 → cmd_Action c2' = cmd_Action c1 → cmd_IdempotencyKey c2' = cmd_IdempotencyKey c1 →
  (command_digest (without_correlation c1) = command_digest (without_correlation c2') →
   without_correlation c1 = without_correlation c2') →
  ∃ e,
    (same_content c2' c1 →
     fst (decide_on c2 validate2 w2)
     = (MkOperatorDecisionResult (res_Grant res) (res_Previous res) (res_EventCursor res) true, e)
     ∧ reported None e)
    ∧ (¬ same_content c2' c1 →
       fst (decide_on c2 validate2 w2) = (MkOperatorDecisionResult zero_Grant zero_Grant EmptyString false, e)
       ∧ reported (Some ErrIdempotencyConflict) e).
Proof.
  intros Hclock Hids Ho Hw E Hrun Hrep Hr E2 Hid Hact Hkey Hcollide.
  assert (decisionScope c2' = decisionScope c1) as Hscope by (unfold decisionScope; congruence).
  destruct (decision_inv clock new_id o command_digest Hclock Ho w w1 d c c1 validate res Hw E
    Hrun Hrep) as (dw & d1 & Hcom & Hst & Hl).
  pose proof (committed_failure_free clock command_digest _ c1 validate res dw Hcom) as Hfree.
  destruct Hcom as (i & instant & updated & earlier & at_time & _ & _ & _ & _ & _ & _ & _ & _ & _ & Hrec).
  destruct (committed_recorded clock new_id o command_digest Hclock Hids Ho marshal_cursor
    unmarshal_cursor query_digest w w1 w2 d d1 c validate) as (d2 & Hd2 & Hpre);
    try done; [by rewrite Hrun|].
  set (record := MkDecisionRecord _ _ _ _ _ _ _ _ _ _) in Hrec.
  assert (reread record ∈ fd_DecisionRecords d2) as Hin.
  { apply Hpre. rewrite (stored_DecisionRecords _ _ Hst), Hrec. apply list_elem_of_fmap_2.
    apply elem_of_app. right. by left. }
  destruct (recorded_replay clock new_id o command_digest Hclock Ho w2 d2 _ c2 c2' validate2
    Hd2 E2 Hin) as (e & He & Hrp); [by rewrite reread_Scope, Hscope|].
  rewrite reread_CommandHash, reread_Result, reread_Previous, reread_EventCursor in He.
  rewrite reread_CommandHash in Hrp. cbn [record rec_CommandHash] in Hrp, He.
  exists e. split; intros Hsame.
  - assert (hashOperatorDecision command_digest c1 = hashOperatorDecision command_digest c2') as Eh.
    { destruct Hsame as (? & ? & ? & ?). unfold hashOperatorDecision. f_equal. f_equal; done. }
    rewrite Eh, String.eqb_refl in He, Hrp. split; [exact He|].
    rewrite bool_decide_true in Hrp; [exact Hrp|].
    destruct (reread_FailureCode record) as [->| ->]; [done|exact Hfree].
  - assert (String.eqb (hashOperatorDecision command_digest c1) (hashOperatorDecision command_digest c2') = false) as Eh.
    { apply String.eqb_neq. intros Eh. apply Hsame. apply Hcollide in Eh. injection Eh as _ _ ? ? ? _ ?.
      by split_and!. }
    rewrite Eh in He, Hrp. done.
Qed.
End theorems.

(** ** Witnesses *)

Definition sample_approval : OperatorDecision := approve_command "k1" 1 as_requested.

Lemma requested_holds : holds ticking counting_ids requested_world (w_storage requested_world).
Proof. exact (reachable_holds _ requested_reachable). Qed.

Lemma approval_runs :
  ∃ res, ApplyOperatorDecision ticking default_options no_digest sample_approval None
           requested_world = ((res, None), approved_world)
         ∧ res_Replay res = false.
Proof.
  exists (fst (fst (do_approve as_requested requested_world))). split; [|by vm_compute].
  unfold approved_world, do_approve, sample_approval.
  destruct (ApplyOperatorDecision _ _ _ _ _ _) as [[res e] w] eqn:E. cbn.
  assert (e = None) as ->; [|done].
  transitivity (snd (fst (do_approve as_requested requested_world))); [|by vm_compute].
  unfold do_approve. by rewrite E.
Qed.

Lemma accepted_decision_effect_witness :
  ∃ res, res_Replay res = false
    ∧ let before := res_Previous res in
      let after := res_Grant res in
      (∃ d', loadRaw (w_storage approved_world) = Ok d' ∧ after ∈ fd_Grants d')
      ∧ grant_ID before = first_id ∧ grant_Revision before = 1
      ∧ ∃ n, (w_tick requested_world <= n)%nat
        ∧ grant_Status before = StatusPending
        ∧ (∀ check : ActivationCheck, None = Some check → check before as_requested = None)
        ∧ after = set_Revision (1 + 1) (set_DecidedOnBehalfOf EmptyString (set_DecidedBy "bob"
                    (set_DecidedAt (ticking n) (set_ExpiresAt (ticking n + grant_Duration before)
                      (set_Status StatusActive (set_MaxUses (grant_MaxUses before)
                        (set_Duration (grant_Duration before) before)))))))
        ∧ 0 < grant_Duration before <= grant_RequestedDuration before
        ∧ (grant_RequestedMaxUses before = 0 ∧ 0 <= grant_MaxUses before
           ∨ 0 < grant_MaxUses before <= grant_RequestedMaxUses before).
Proof.
  destruct approval_runs as (res & Hrun & Hrep). exists res. split; [exact Hrep|].
  exact (accepted_decision_effect ticking counting_ids default_options no_digest requested_world
    approved_world _ sample_approval sample_approval None res ticking_runs default_options_ok
    requested_holds eq_refl Hrun Hrep).
Defined.

(** The same command of another approver. *)
Definition carol_approval : OperatorDecision :=
  MkOperatorDecision (cmd_ID sample_approval) (cmd_Action sample_approval) "carol" (cmd_OnBehalfOf sample_approval)
    (cmd_ExpectedRevision sample_approval) (cmd_IdempotencyKey sample_approval) (cmd_Constraints sample_approval)
    "trace-2".

Lemma committed_decision_replays_witness :
  ∃ res, res_Replay res = false
    ∧ (∃ e, fst (ApplyOperatorDecision ticking default_options no_digest sample_approval None
                  committed_world)
           = (MkOperatorDecisionResult (res_Grant res) (res_Previous res) (res_EventCursor res)
                true, e)
        ∧ reported None e)
    ∧ ∃ e, fst (ApplyOperatorDecision ticking default_options no_digest carol_approval None
                  committed_world)
           = (MkOperatorDecisionResult zero_Grant zero_Grant EmptyString false, e)
        ∧ reported (Some ErrIdempotencyConflict) e.
Proof.
  destruct approval_runs as (res & Hrun & Hrep). exists res. split; [exact Hrep|].
  pose proof (λ c2 c2', committed_decision_replays ticking counting_ids default_options no_digest _ _ _
    requested_world approved_world committed_world _ sample_approval sample_approval
    c2 c2' None None res ticking_runs counting_ids_fresh
    default_options_ok requested_holds eq_refl Hrun Hrep approved_to_committed) as H.
  split.
  - destruct (H sample_approval sample_approval eq_refl eq_refl eq_refl eq_refl (λ _, eq_refl)) as (e & Hsame & _).
    exists e. exact (Hsame (conj eq_refl (conj eq_refl (conj eq_refl eq_refl)))).
  - destruct (H carol_approval carol_approval eq_refl eq_refl eq_refl eq_refl) as (e & _ & Hother).
    + intros E. vm_compute in E. discriminate E.
    + assert (¬ same_content carol_approval sample_approval) as Hne by (intros (E & _); discriminate E).
      exists e. exact (Hother Hne).
Defined.
