(* ===== verification/GrantsRequests.v ===== *)
(** * Requests and uses

    What [Store.request] answers and stores, on every branch from normalization
    to the final read; then who may reserve a use, and what a settlement does. *)

From S2P Require Export GrantsVerdicts.

Local Open Scope Z_scope.

Definition pending_of (grants : list Grant) (client : string) : list Grant :=
  filter (λ g, bool_decide (grant_Status g = StatusPending)
               && String.eqb (grant_Client g) client = true) grants.

Definition all_pending (grants : list Grant) : list Grant :=
  filter (λ g, bool_decide (grant_Status g = StatusPending) = true) grants.

Lemma pendingCapacityAvailable_iff (o : Options) (grants : list Grant) (client : string) :
  pendingCapacityAvailable o grants client = true ↔
  Z.of_nat (length (pending_of grants client)) < opts_MaxPendingPerClient o
  ∧ Z.of_nat (length (all_pending grants)) < opts_MaxPendingGlobal o.
Proof.
  unfold pendingCapacityAvailable, pending_of, all_pending.
  rewrite andb_true_iff, !Z.ltb_lt, list_filter_filter.
  assert (filter (λ g, String.eqb (grant_Client g) client = true
                       ∧ bool_decide (grant_Status g = StatusPending) = true) grants
          = filter (λ g, bool_decide (grant_Status g = StatusPending)
                         && String.eqb (grant_Client g) client = true) grants) as ->; [|done].
  apply list_filter_iff. intros g. rewrite andb_true_iff. tauto.
Qed.

(** ** What a request asks for *)

(** Two maps of values with the same keys and, under each, the same values. *)
Definition same_values (m m' : StringListMap) : Prop :=
  ∀ k, match m !! k, m' !! k with
       | Some l, Some l' => ∀ x, x ∈ l ↔ x ∈ l'
       | None, None => True
       | _, _ => False
       end.

(** The grant was requested by this client under this client request identifier, and not
    canceled since. *)
Definition filed (req : GrantRequest) (g : Grant) : Prop :=
  req_ClientRequestID req ≠ EmptyString ∧ grant_Client g = req_Client req
  ∧ grant_ClientRequestID g = req_ClientRequestID req ∧ grant_Status g ≠ StatusCanceled.

(** The grant gives what the request asks for. *)
Definition asks (req : GrantRequest) (g : Grant) : Prop :=
  grant_Operation g = req_Operation req
  ∧ target_Kind (grant_Target g) = target_Kind (req_Target req)
  ∧ same_values (target_Fields (grant_Target g)) (target_Fields (req_Target req))
  ∧ same_values (grant_Attrs g) (req_Attrs req)
  ∧ grant_Metadata g = req_Metadata req ∧ grant_Reason g = req_Reason req
  ∧ grant_MaxUses g = req_MaxUses req
  ∧ grant_RequestedMaxUsesDefaulted g = req_MaxUsesDefaulted req
  ∧ grant_Duration g = req_Duration req ∧ grant_PendingTimeout g = req_PendingTimeout req.

Lemma map_keys_same {A} (m m' : gmap string A) :
  size m = size m' → (∀ k v, m !! k = Some v → is_Some (m' !! k)) →
  ∀ k, is_Some (m !! k) ↔ is_Some (m' !! k).
Proof.
  intros Hs Hk k. rewrite <- !elem_of_dom.
  assert (dom m = dom m') as ->; [|done]. apply set_subseteq_size_eq.
  - intros x [v Hv]%elem_of_dom. apply elem_of_dom. by eapply Hk.
  - by rewrite !size_dom, Hs.
Qed.

Section same_request.
Context {R : MapRange}.

Lemma StringSliceMapsEqual_iff (m m' : StringListMap) :
  StringSliceMapsEqual m m' = true ↔ same_values m m'.
Proof.
  unfold StringSliceMapsEqual, same_values. rewrite andb_true_iff, Nat.eqb_eq, forallb_map_range.
  split.
  - intros [Hs Hm] k.
    assert (is_Some (m !! k) ↔ is_Some (m' !! k)) as Hk.
    { apply map_keys_same; [done|]. intros j v Hj. specialize (Hm j v Hj). by destruct (m' !! j). }
    specialize (Hm k). destruct (m !! k) as [l|], (m' !! k) as [l'|]; try done.
    + by apply StringSlicesEqual_iff, Hm.
    + by destruct (proj1 Hk (mk_is_Some _ _ eq_refl)).
    + by destruct (proj2 Hk (mk_is_Some _ _ eq_refl)).
  - intros Hm. split.
    + rewrite <- !(size_dom (D := gset string)). f_equal. apply set_eq. intros k. rewrite !elem_of_dom.
      specialize (Hm k). destruct (m !! k), (m' !! k); try done; by split; eauto.
    + intros k v Hk. specialize (Hm k). rewrite Hk in Hm. destruct (m' !! k); [|done].
      by apply StringSlicesEqual_iff.
Qed.

(** No value of stored metadata is empty, so a missing key never passes for one. *)
Lemma stringMapsEqual_iff (m m' : gmap string string) :
  validateMetadata m = Ok tt → stringMapsEqual m m' = true ↔ m = m'.
Proof.
  intros Hv. unfold validateMetadata in Hv. rewrite !seq_ok, for_each_map_range in Hv.
  destruct Hv as (_ & _ & Hv). unfold stringMapsEqual.
  destruct (Nat.eqb_spec (size m) (size m')) as [Hs|Hs]; cbn [negb].
  2:{ split; [done|]. by intros ->. }
  rewrite forallb_map_range. split; [|intros <- k v ->; apply String.eqb_refl].
  intros Hm. apply map_subseteq_size_eq; [|by rewrite Hs].
  apply map_subseteq_spec. intros k v Hk. specialize (Hm k v Hk). specialize (Hv k v Hk).
  cbn in Hm. apply String.eqb_eq in Hm. destruct (m' !! k) as [v'|] eqn:E; cbn in Hm; [by subst|].
  subst v. cbn in Hv. unfold validateMetadataEntry in Hv. rewrite seq_ok, !refuse_ok in Hv. by destruct Hv as [_ Hv].
Qed.

Lemma sameRequest_iff (g : Grant) (req : GrantRequest) :
  validateMetadata (grant_Metadata g) = Ok tt → sameRequest g req = true ↔ asks req g.
Proof.
  intros Hv. unfold sameRequest, targetEqual, mapsEqual, sameRequestBounds, asks.
  rewrite !andb_true_iff, !String.eqb_eq, !StringSliceMapsEqual_iff, stringMapsEqual_iff, !Z.eqb_eq,
    eqb_true_iff by done.
  tauto.
Qed.

Lemma asks_new (req : GrantRequest) (id : string) (instant : Time) :
  asks req (newGrant req id instant).
Proof.
  assert (∀ m, same_values m m) as Hsame by (intros m k; by destruct (m !! k)).
  by split_and!.
Qed.
End same_request.

Lemma findIdempotent_some (grants : list Grant) (req : GrantRequest) (g : Grant) :
  findIdempotent grants req = Some g → g ∈ grants ∧ filed req g.
Proof.
  unfold findIdempotent, filed. destruct (req_ClientRequestID req) as [|a s] eqn:E; [done|]. cbn [is_empty].
  intros [Hin Hg]%find_some. rewrite !andb_true_iff, !String.eqb_eq, negb_true_iff, bool_decide_eq_false in Hg.
  split; [by apply list_elem_of_In|]. naive_solver.
Qed.

Lemma findIdempotent_none (grants : list Grant) (req : GrantRequest) :
  findIdempotent grants req = None → ∀ g, g ∈ grants → ¬ filed req g.
Proof.
  unfold findIdempotent, filed. destruct (req_ClientRequestID req) as [|a s] eqn:E; [by intros _ g _ []|].
  cbn [is_empty]. intros Hn g Hg (_ & Hc & Hi & Hs). apply list_elem_of_In in Hg.
  pose proof (find_none _ _ Hn g Hg) as Hf. cbn in Hf.
  by rewrite Hc, Hi, !String.eqb_refl, bool_decide_false in Hf.
Qed.

(** ** What an operation carries over *)

(** What lifecycle steps never change in a grant: its identity and what was requested, the
    duration and the uses it has, and whether it was canceled. *)
Definition terms (g : Grant) :=
  (grant_ID g, fixed_part g, grant_Duration g, grant_MaxUses g, bool_decide (grant_Status g = StatusCanceled)).

(** The grants of [l'] are those of [l], in any order, on the same terms; none of them is
    pending anew. *)
Record carried (l l' : list Grant) : Prop := {
  carried_terms : terms <$> l' ≡ₚ terms <$> l;
  carried_client : ∀ client, (length (pending_of l' client) <= length (pending_of l client))%nat;
  carried_all : (length (all_pending l') <= length (all_pending l))%nat
}.

#[export] Instance carried_preorder : PreOrder carried.
Proof.
  split; [done|]. intros l1 l2 l3 [T1 C1 A1] [T2 C2 A2]. split; [by etrans| |lia].
  intros client. specialize (C1 client). specialize (C2 client). lia.
Qed.

Lemma carried_perm (l l' : list Grant) : l' ≡ₚ l → carried l l'.
Proof. intros Hp. split; intros; unfold pending_of, all_pending; by rewrite Hp. Qed.

Lemma carried_map (f : Grant → Grant) (l : list Grant) :
  (∀ g, terms (f g) = terms g ∧ (grant_Status (f g) = StatusPending → grant_Status g = StatusPending)) →
  carried l (f <$> l).
Proof.
  intros Hf.
  assert (∀ P Q : Grant → Prop, ∀ `{∀ g, Decision (P g)} `{∀ g, Decision (Q g)},
            (∀ g, P (f g) → Q g) → (length (filter P (f <$> l)) <= length (filter Q l))%nat) as Hlen.
  { intros P Q HP HQ Hpq. induction l as [|g gs IH]; [done|]. cbn [fmap list_fmap].
    rewrite !filter_cons. destruct (decide (P (f g))) as [Hp|_]; [rewrite decide_True by auto; cbn; lia|].
    destruct (decide (Q g)); cbn; lia. }
  split.
  - assert (terms <$> (f <$> l) = terms <$> l) as ->; [|done]. rewrite <- list_fmap_compose. apply list_fmap_ext. intros i g _. apply Hf.
  - intros client. apply Hlen. intros g. destruct (Hf g) as [Ht Hp]. unfold terms, fixed_part in Ht.
    assert (grant_Client (f g) = grant_Client g) as -> by congruence.
    rewrite !andb_true_iff, !bool_decide_eq_true. naive_solver.
  - apply Hlen. intros g. rewrite !bool_decide_eq_true. apply Hf.
Qed.

Lemma carried_elem (l l' : list Grant) (g : Grant) :
  carried l l' → g ∈ l' → ∃ h, h ∈ l ∧ terms h = terms g.
Proof.
  intros [Ht _ _] Hg. apply (list_elem_of_fmap_2 terms) in Hg. rewrite Ht in Hg.
  apply list_elem_of_fmap in Hg as (h & Hh & Hin). by exists h.
Qed.

Lemma carried_later (l l' : list Grant) (g : Grant) :
  carried l l' → g ∈ l → ∃ h, h ∈ l' ∧ terms h = terms g.
Proof.
  intros [Ht _ _] Hg. apply (list_elem_of_fmap_2 terms) in Hg. rewrite <- Ht in Hg.
  apply list_elem_of_fmap in Hg as (h & Hh & Hin). by exists h.
Qed.

Lemma terms_filed (req : GrantRequest) (g h : Grant) : terms g = terms h → filed req g → filed req h.
Proof.
  unfold filed. intros [= _ _ Hc Hi _ _ _ _ _ _ _ _ _ _ _ _ _ Hs].
  rewrite <- Hc, <- Hi. intros (? & ? & ? & Hn). split_and!; try done. intros E. apply Hn.
  by rewrite E, (bool_decide_true _ eq_refl), bool_decide_eq_true in Hs.
Qed.

Lemma terms_asks (req : GrantRequest) (g h : Grant) : terms g = terms h → asks req g → asks req h.
Proof.
  unfold asks. intros [= _ _ Hc Hi Ho Ht Ha Hm Hr _ _ _ Hp _ Hd Hdu Hmu _].
  by rewrite <- Ho, <- Ht, <- Ha, <- Hm, <- Hr, <- Hp, <- Hd, <- Hdu, <- Hmu.
Qed.

Lemma find_app {A} (f : A → bool) (l l' : list A) :
  find f (l ++ l') = match find f l with Some a => Some a | None => find f l' end.
Proof. induction l as [|a l IH]; cbn; [done|]. by destruct (f a). Qed.

(** ** The run of a transaction *)

Section requests.
Context {R : MapRange} {GS : GrantStorage} {GL : GrantStorageLaws}
  (clock : nat → Time) (new_id : nat → result error string) (o : Options).

Notation holds := (holds clock new_id).
Notation working := (working clock new_id).
Notation saveable := (saveable clock new_id).

(** An own error of an operation, alone or joined with that of the save that followed. *)
Definition caused (own e : error) : Prop :=
  e = own ∨ e = ErrorJoin [own] ∨ ∃ saving, e = ErrorJoin [own; saving].

(** The error with which storage refused a write. *)
Definition save_failed (e : error) : Prop := ∃ s d plan, fst (saveRaw s d plan) = Err e.

Lemma expired_terms (instant : Time) (g : Grant) :
  terms (expired instant g) = terms g
  ∧ (grant_Status (expired instant g) = StatusPending → grant_Status g = StatusPending).
Proof.
  unfold expired. destruct (expire_grant_cases instant g) as [->|[[Hs ->]|[Hs ->]]]; cbn; [done| |];
    (split; [|done]); unfold terms; cbn; by rewrite Hs.
Qed.

Lemma expireDue_carried (d : FileData) (w : World) :
  let '((d', _), _) := clocked (expireDue clock d) w in carried (fd_Grants d) (fd_Grants d').
Proof. apply carried_map. intros g. apply expired_terms. Qed.

Lemma refreshed_terms (uses : list GrantUse) (changed : gmap string Z) (g : Grant) :
  terms (refreshed uses changed g) = terms g
  ∧ (grant_Status (refreshed uses changed g) = StatusPending → grant_Status g = StatusPending).
Proof.
  unfold refreshed. destruct (changed !! grant_ID g); [|done]. by rewrite aggregateGrantUses_summary.
Qed.

Lemma reconciled_terms (before : gmap string Grant) (g : Grant) :
  terms (reconciled before g) = terms g
  ∧ (grant_Status (reconciled before g) = StatusPending → grant_Status g = StatusPending).
Proof. unfold reconciled. by destruct (Nat.eqb _ _). Qed.

Context (Hclock : clock_runs clock) (Hids : ids_fresh new_id) (Ho : options_ok o).

Lemma prepareLifecycle_carried (d : FileData) (w : World) :
  core_ok (clock (w_tick w)) d →
  let '((d', _), _) := clocked (prepareLifecycle clock o d) w in carried (fd_Grants d) (fd_Grants d').
Proof.
  intros Hd. rewrite clocked_world.
  unfold prepareLifecycle, expireDue, retainStaleReservations, now, mbind, clocked_bind, mret, clocked_ret.
  pose proof (expire_at_ok (clock (w_tick w)) (clock (w_tick w)) d Hd) as [Hc _].
  assert (carried (fd_Grants d) (fd_Grants (fst (expire_at (clock (w_tick w)) d)))) as H1.
  { apply carried_map. intros g. apply expired_terms. }
  destruct (expire_at (clock (w_tick w)) d) as [d1 c1]. cbn in H1, Hc.
  assert (core_ok (clock (S (w_tick w))) d1) as Hc1 by (by apply (core_ok_tick clock Hclock (w_tick w)); [lia|]).
  pose proof (retain_at_grants _ (clock (S (w_tick w))) o d1 Hc1) as H2.
  destruct (retain_at o (clock (S (w_tick w))) d1) as [d2 c2]. cbn in H2. cbn. rewrite H2.
  etrans; [exact H1|]. apply carried_map. intros g. apply refreshed_terms.
Qed.

(** Reconciling the working data of a transaction. *)
Lemma reconcile_run (w : World) (d0 d : FileData) :
  holds w d0 → working d0 w d →
  let '((d', changed), w') := clocked (reconcileLifecycle clock o d (grantSnapshots (fd_Grants d0))) w in
  saveable w' d' ∧ holds w' d0 ∧ carried (fd_Grants d) (fd_Grants d')
  ∧ (changed = false → fd_Grants d' = fd_Grants d).
Proof.
  intros Hw Hwk. pose proof Hw as (Hl & [Hc0 Hr0] & Hn0). pose proof (co_ids _ _ Hc0) as Hnd.
  pose proof (working_revisions clock new_id w d0 d Hnd Hr0 Hwk) as Hrev.
  pose proof (reconcile_saveable clock new_id o Hclock (max_events o Ho) w d0 d Hw Hwk) as H.
  pose proof (reconcileLifecycle_post clock o (max_events o Ho) _ d _ (w_tick w) (wk_core _ _ _ _ _ Hwk) Hrev) as Hp.
  rewrite clocked_world in *. unfold clocked_post in Hp.
  destruct (reconcileLifecycle _ _ _ _ _) as [[d' c] t']. cbn in H |- *.
  destruct H as (Hs & _ & Hh), Hp as (_ & _ & Hg & _ & _ & _ & ->). split; [done|]. split; [done|].
  rewrite Hg. split; [apply carried_map; intros g; apply reconciled_terms|].
  unfold any_kind. intros Hn. rewrite <- (list_fmap_id (fd_Grants d)) at 2. apply list_fmap_ext.
  intros i g Hi. unfold reconciled. destruct (Nat.eqb _ _) eqn:E; [done|].
  rewrite <- not_true_iff_false, existsb_elem_of in Hn. destruct Hn. exists g.
  split; [by apply list_elem_of_lookup_2 in Hi|]. by rewrite E.
Qed.

Lemma save_run (w : World) (d0 d : FileData) (plan : option PlanRecord) :
  holds w d0 → saveable w d →
  let '(r, w') := saveWithPlan d plan w in
  ∃ d', holds w' d' ∧ match r with
                      | Ok _ => fd_Grants d' ≡ₚ fd_Grants d
                      | Err e => save_failed e ∧ (d' = d0 ∨ fd_Grants d' ≡ₚ fd_Grants d)
                      end.
Proof.
  intros Hw (Hd & Hn & Hext). pose proof (proj1 Hw) as Hl0. specialize (Hext d0 Hl0).
  pose proof (core_ok_writable _ _ d0 d (do_core _ _ Hd) Hext) as Hwr.
  unfold saveWithPlan. destruct (saveRaw (w_storage w) d plan) as [r s] eqn:E.
  set (w' := MkWorld s _ _ _).
  assert (∀ d', loadRaw s = Ok d' → stored_as d d' → holds w' d') as Hst.
  { intros d' Hl' Hst. split; [done|]. split; [by eapply data_ok_stored|].
    intros g Hg. rewrite (stored_Grants _ _ Hst) in Hg. by apply Hn. }
  destruct r as [[]|e].
  - destruct (save_ok_load _ _ _ _ _ Hl0 Hwr E) as (d' & Hl' & Hs). exists d'.
    split; [by apply Hst|apply Hs].
  - assert (save_failed e) as Hf by (exists (w_storage w), d, plan; by rewrite E).
    destruct (save_err_load _ _ _ _ _ _ Hl0 Hwr E) as [Hs|(d' & Hl' & Hs)].
    + exists d0. split; [|by split; [|left]]. by apply (holds_later clock new_id Hclock w).
    + exists d'. split; [by apply Hst|]. split; [done|]. right. apply Hs.
Qed.

Lemma signal_holds (w : World) (a b : Z) (d : FileData) :
  holds w d → holds (snd (signalNewEvents a b w)) d.
Proof.
  intros Hw. unfold signalNewEvents. cbn. destruct (a =? b); [done|].
  by apply (holds_later clock new_id Hclock w).
Qed.

Lemma and_then_run {A B} (m : Eff (result error A)) (f : A → Eff (result error B)) (w : World) :
  and_then m f w = let '(r, w') := m w in match r with Ok a => f a w' | Err e => (Err e, w') end.
Proof. unfold and_then. rewrite bind_run. by destruct (m w) as [[a|e] w']. Qed.

Lemma load_run {A} (w : World) (d : FileData) (k : FileData → Eff (result error A)) :
  holds w d → and_then load k w = k d w.
Proof.
  intros Hw. destruct (holds_load clock new_id w d Hw) as [H1 H2]. rewrite and_then_run.
  destruct (load w) as [r w']. cbn in H1, H2. by subst.
Qed.

(** What [updateWithPlan] answers and leaves, in terms of what its mutator returned on the
    prepared data. *)
Definition updates {A} (d0 : FileData) (made : FileData * result error A) (r : result error A)
    (d' : FileData) : Prop :=
  match snd made with
  | Ok a =>
    match r with
    | Ok b => b = a ∧ carried (fd_Grants (fst made)) (fd_Grants d')
    | Err e => save_failed e ∧ (d' = d0 ∨ carried (fd_Grants (fst made)) (fd_Grants d'))
    end
  | Err own =>
    ∃ e, r = Err e ∧ caused own e ∧ (d' = d0 ∨ carried (fd_Grants (fst made)) (fd_Grants d'))
  end.

Lemma updateWithPlan_run {A} (plan : option PlanRecord) (m : Mutator A) (w : World) (d0 : FileData) :
  mutates clock new_id m → holds w d0 →
  ∃ d1 w1, working d0 w1 d1 ∧ holds w1 d0 ∧ carried (fd_Grants d0) (fd_Grants d1)
    ∧ let '(r, w') := updateWithPlan clock o plan m w in
      ∃ d', holds w' d' ∧ updates d0 (fst (m d1 w1)) r d'.
Proof.
  intros Hm Hw. unfold updateWithPlan. rewrite (load_run w d0) by done.
  pose proof (prepare_working clock new_id _ w d0 d0 (prepareLifecycle_prepares clock o Hclock)
    (holds_working clock new_id w d0 Hw)) as H1.
  pose proof (prepareLifecycle_carried d0 w (do_core _ _ (proj1 (proj2 Hw)))) as Hk.
  rewrite bind_run. destruct (clocked (prepareLifecycle clock o d0) w) as [[d1 changed] w1].
  destruct H1 as (Hwk1 & Hs1 & Ht1 & Hi1).
  destruct (working_step clock new_id Hclock w w1 d0 d1 Hw Hs1 Ht1 ltac:(lia)) as [Hw1 _].
  exists d1, w1. split; [done|]. split; [done|]. split; [done|].
  pose proof (Hm d0 d1 w1 Hwk1 ltac:(apply Hw1)) as H2.
  rewrite bind_run. destruct (m d1 w1) as [[d2 r] w2]. cbn [fst].
  destruct H2 as (Hwk2 & Hs2 & Ht2 & Hi2).
  destruct (working_step clock new_id Hclock w1 w2 d0 d2 Hw1 Hs2 Ht2 Hi2) as [Hw2 _].
  pose proof (reconcile_run w2 d0 d2 Hw2 Hwk2) as H3. unfold updates. cbn [fst snd].
  destruct r as [a|own]; rewrite bind_run;
    destruct (clocked (reconcileLifecycle _ _ _ _) w2) as [[d3 c] w3]; destruct H3 as (Hsv & Hw3 & Hc3 & _).
  - rewrite and_then_run. pose proof (save_run w3 d0 d3 plan Hw3 Hsv) as H4.
    destruct (saveWithPlan d3 plan w3) as [[u|e] w4]; destruct H4 as (d' & Hw4 & H4).
    + exists d'. split; [by apply signal_holds|]. split; [done|]. etrans; [exact Hc3|by apply carried_perm].
    + exists d'. split; [done|]. destruct H4 as [Hf [->|Hp]]; (split; [done|]); [by left|right].
      etrans; [exact Hc3|by apply carried_perm].
  - destruct (c || changed).
    2:{ exists d0. split; [done|]. exists own. split; [done|]. split; [by left|by left]. }
    rewrite bind_run. pose proof (save_run w3 d0 d3 None Hw3 Hsv) as H4. unfold save.
    destruct (saveWithPlan d3 None w3) as [[u|e] w4]; destruct H4 as (d' & Hw4 & H4).
    + exists d'. split; [by apply signal_holds|]. eexists. split; [done|]. split; [by right; left|].
      right. etrans; [exact Hc3|by apply carried_perm].
    + exists d'. split; [done|]. eexists. split; [done|]. split; [by right; right; eexists|].
      destruct H4 as [Hf [->|Hp]]; [by left|right]. etrans; [exact Hc3|by apply carried_perm].
Qed.

(** What [Get] answers and leaves. *)
Lemma Get_run (id : string) (w : World) (d0 : FileData) :
  holds w d0 →
  let '(r, w') := Get clock o id w in
  ∃ d', holds w' d' ∧ carried (fd_Grants d0) (fd_Grants d')
    ∧ match r with
      | Ok g => g ∈ fd_Grants d' ∧ grant_ID g = id
      | Err e => save_failed e ∨ e = ErrNotFound ∧ ∀ g, g ∈ fd_Grants d0 → grant_ID g ≠ id
      end.
Proof.
  intros Hw. unfold Get, read_prepared. rewrite (load_run w d0) by done.
  pose proof (prepare_working clock new_id _ w d0 d0 (expireDue_prepares clock Hclock)
    (holds_working clock new_id w d0 Hw)) as H1.
  pose proof (expireDue_carried d0 w) as Hk.
  assert (snd (fst (clocked (expireDue clock d0) w)) = false →
          fst (fst (clocked (expireDue clock d0) w)) = d0) as Hsame
    by apply (expire_at_same (clock (w_tick w)) d0).
  rewrite bind_run. destruct (clocked (expireDue clock d0) w) as [[d1 changed] w1]. cbn [fst snd] in Hsame.
  destruct H1 as (Hwk1 & Hs1 & Ht1 & Hi1).
  destruct (working_step clock new_id Hclock w w1 d0 d1 Hw Hs1 Ht1 ltac:(lia)) as [Hw1 _].
  pose proof (reconcile_run w1 d0 d1 Hw1 Hwk1) as H3. rewrite bind_run.
  destruct (clocked (reconcileLifecycle _ _ _ _) w1) as [[d2 c] w2]. destruct H3 as (Hsv & Hw2 & Hc2 & Hsame2).
  assert (carried (fd_Grants d0) (fd_Grants d2)) as Hc by (by etrans).
  rewrite and_then_run, ret_run.
  destruct (findGrant (fd_Grants d2) id) as [[i g]|] eqn:Ef; cbn [option_ok mbind result_bind].
  2:{ exists d0. split; [done|]. split; [done|]. right. split; [done|]. intros g Hg Hid.
      pose proof (carried_terms _ _ Hc) as Ht. apply (list_elem_of_fmap_2 terms) in Hg. rewrite <- Ht in Hg.
      apply list_elem_of_fmap in Hg as (h & Hh & Hin). unfold terms, fixed_part in Hh.
      apply (proj1 (findGrant_none _ _) Ef). apply list_elem_of_fmap. exists h. split; [congruence|done]. }
  apply findGrant_some in Ef as [Hi Hid]. apply list_elem_of_lookup_2 in Hi.
  destruct (c || changed) eqn:Ech.
  - rewrite and_then_run. pose proof (save_run w2 d0 d2 None Hw2 Hsv) as H4. unfold save.
    destruct (saveWithPlan d2 None w2) as [[u|e] w4]; destruct H4 as (d' & Hw4 & H4); exists d'.
    + split; [by apply signal_holds|]. split; [etrans; [exact Hc|by apply carried_perm]|].
      split; [by rewrite H4|done].
    + destruct H4 as [Hf [->|Hp]]; (split; [done|]); (split; [|by left]); [done|].
      etrans; [exact Hc|by apply carried_perm].
  - apply orb_false_iff in Ech as [-> ->]. exists d0. split; [done|]. split; [done|].
    rewrite Hsame2, Hsame in Hi by done. done.
Qed.

(** ** Requests *)

(** The terms of all grants are those of before, or those and the ones of a new grant. *)
Definition kept (d d' : FileData) : Prop := terms <$> fd_Grants d' ≡ₚ terms <$> fd_Grants d.

Definition added (g : Grant) (d d' : FileData) : Prop :=
  terms <$> fd_Grants d' ≡ₚ (terms <$> fd_Grants d) ++ [terms g].

(** Why a request is refused: another request under the same identifier, no room for a
    pending grant, or no identifier for the new one. *)
Definition refused_for (req : GrantRequest) (d : FileData) (own : error) : Prop :=
  own = ErrIdempotencyConflict ∧ (∃ g, g ∈ fd_Grants d ∧ filed req g ∧ ¬ asks req g)
  ∨ (∀ g, g ∈ fd_Grants d → ¬ filed req g)
    ∧ (own = ErrCapacity
       ∧ (opts_MaxPendingPerClient o <= Z.of_nat (length (pending_of (fd_Grants d) (req_Client req)))
          ∨ opts_MaxPendingGlobal o <= Z.of_nat (length (all_pending (fd_Grants d))))
       ∨ ∃ n, new_id n = Err own).

(** What the mutator of a request makes of prepared data. *)
Definition requested (req : GrantRequest) (d0 d : FileData) (r : result error (Grant * bool)) : Prop :=
  match r with
  | Ok (g, false) =>
    carried (fd_Grants d0) (fd_Grants d) ∧ g ∈ fd_Grants d ∧ filed req g ∧ asks req g
  | Ok (g, true) =>
    (∃ l, carried (fd_Grants d0) l ∧ fd_Grants d = l ++ [g])
    ∧ (∀ h, h ∈ fd_Grants d0 → ¬ filed req h)
    ∧ grant_Client g = req_Client req ∧ grant_ClientRequestID g = req_ClientRequestID req ∧ asks req g
    ∧ Z.of_nat (length (pending_of (fd_Grants d) (req_Client req))) <= opts_MaxPendingPerClient o
    ∧ Z.of_nat (length (all_pending (fd_Grants d))) <= opts_MaxPendingGlobal o
  | Err own => carried (fd_Grants d0) (fd_Grants d) ∧ refused_for req d0 own
  end.

Lemma pending_snoc (l : list Grant) (g : Grant) (client : string) :
  (length (pending_of (l ++ [g]) client) <= S (length (pending_of l client)))%nat
  ∧ (length (all_pending (l ++ [g])) <= S (length (all_pending l)))%nat.
Proof.
  unfold pending_of, all_pending. rewrite !filter_app, !length_app.
  assert (∀ (P : Grant → Prop) `{∀ g, Decision (P g)}, (length (filter P [g]) <= 1)%nat) as Hone.
  { intros P HP. etrans; [apply length_filter|]. done. }
  split; rewrite Nat.add_comm; apply le_n_S || apply (Nat.add_le_mono_r _ 1); apply Hone.
Qed.

Lemma request_mutator_run (req : GrantRequest) (w : World) (d0 d1 : FileData) :
  working d0 w d1 → carried (fd_Grants d0) (fd_Grants d1) →
  let '((d2, r), _) := request_mutator clock new_id o req d1 w in requested req d0 d2 r.
Proof.
  intros Hwk Hc1. unfold request_mutator. rewrite bind_run.
  pose proof (prepare_working clock new_id _ w d0 d1 (expireDue_prepares clock Hclock) Hwk) as H1.
  pose proof (expireDue_carried d1 w) as Hk.
  destruct (clocked (expireDue clock d1) w) as [[d2 c] w2]. destruct H1 as (Hwk2 & _).
  assert (carried (fd_Grants d0) (fd_Grants d2)) as Hc by (by etrans). clear Hk Hc1 Hwk d1.
  destruct (findIdempotent (fd_Grants d2) req) as [g|] eqn:Ef.
  - apply findIdempotent_some in Ef as [Hin Hf].
    pose proof (co_grants _ _ (wk_core _ _ _ _ _ Hwk2) g Hin) as Hg.
    assert (validateMetadata (grant_Metadata g) = Ok tt) as Hm.
    { pose proof (gc_maps g Hg) as Hm. unfold validateLoadedGrantMaps in Hm. rewrite !seq_ok in Hm.
      destruct Hm as (_ & _ & Hm). by destruct (validateMetadata _) as [[]|]. }
    rewrite ret_run. pose proof (sameRequest_iff g req Hm) as Hs. unfold requested.
    destruct (sameRequest g req); [by rewrite <- Hs|]. split; [done|]. left. split; [done|].
    destruct (carried_elem _ _ _ Hc Hin) as (h & Hh & Ht). exists h. split; [done|].
    split; [by apply (terms_filed req g)|]. intros Ha. apply (terms_asks req h g) in Ha; [|done].
    by apply Hs in Ha.
  - assert (∀ h, h ∈ fd_Grants d0 → ¬ filed req h) as Hnone.
    { intros h Hh Hf. apply (list_elem_of_fmap_2 terms) in Hh. rewrite <- (carried_terms _ _ Hc) in Hh.
      apply list_elem_of_fmap in Hh as (g & Ht & Hg). apply (findIdempotent_none _ _ Ef g Hg).
      by apply (terms_filed req h). }
    destruct (pendingCapacityAvailable o (fd_Grants d2) (req_Client req)) eqn:Ep; cbn [negb].
    2:{ rewrite ret_run. split; [done|]. right. split; [done|]. left. split; [done|].
        apply not_true_iff_false in Ep. rewrite pendingCapacityAvailable_iff in Ep.
        pose proof (carried_client _ _ Hc (req_Client req)). pose proof (carried_all _ _ Hc). lia. }
    apply pendingCapacityAvailable_iff in Ep as [Ep1 Ep2]. rewrite bind_run. unfold newID.
    destruct (new_id (w_ids w2)) as [id|e] eqn:Eid.
    2:{ rewrite ret_run. split; [done|]. right. split; [done|]. right. by eexists. }
    rewrite bind_run, clocked_now, ret_run. set (g := newGrant _ _ _). unfold requested. cbn [fd_Grants set_Grants].
    destruct (pending_snoc (fd_Grants d2) g (req_Client req)).
    split; [by exists (fd_Grants d2)|]. split; [done|]. split; [done|]. split; [done|].
    split; [apply asks_new|]. lia.
Qed.

Lemma terms_ID (g h : Grant) : terms g = terms h → grant_ID g = grant_ID h.
Proof. unfold terms, fixed_part. congruence. Qed.

(** Grants with distinct identifiers are determined by theirs. *)
Lemma same_ID (w : World) (d : FileData) (l : list Grant) (g h : Grant) :
  holds w d → carried l (fd_Grants d) → g ∈ l → h ∈ fd_Grants d → grant_ID h = grant_ID g →
  terms h = terms g.
Proof.
  intros (_ & [Hcore _] & _) Hc Hg Hh Hid. apply (list_elem_of_fmap_2 terms) in Hg.
  rewrite <- (carried_terms _ _ Hc) in Hg. apply list_elem_of_fmap in Hg as (x & Ht & Hx).
  assert (h = x) as ->; [|done].
  apply list_elem_of_lookup in Hh as [i Hi]. apply list_elem_of_lookup in Hx as [j Hj].
  assert (i = j) as ->; [|congruence]. eapply NoDup_lookup; [apply (co_ids _ _ Hcore)| |].
  - rewrite list_lookup_fmap, Hi. cbn. by rewrite Hid, (terms_ID g x).
  - by rewrite list_lookup_fmap, Hj.
Qed.

Lemma added_fresh (w : World) (d d' : FileData) (g : Grant) :
  holds w d' → added g d d' → ∀ h, h ∈ fd_Grants d → grant_ID h ≠ grant_ID g.
Proof.
  intros (_ & [Hcore _] & _) Hadd h Hh Hid. pose proof (co_ids _ _ Hcore) as Hnd.
  assert (∀ l, grant_ID <$> l = (λ t, t.1.1.1.1) <$> (terms <$> l)) as Hmap by (intros l; by rewrite <- list_fmap_compose).
  unfold ids_of in Hnd. unfold added in Hadd. rewrite Hmap, Hadd, fmap_app, <- Hmap in Hnd. apply NoDup_app in Hnd as (_ & Hn & _).
  apply (Hn (grant_ID h)); [by apply list_elem_of_fmap_2|]. rewrite Hid. by apply list_elem_of_singleton.
Qed.

Lemma carried_kept (d d' : FileData) : carried (fd_Grants d) (fd_Grants d') → kept d d'.
Proof. apply carried_terms. Qed.

Lemma carried_added (g : Grant) (d d2 d' : FileData) (l : list Grant) :
  carried (fd_Grants d) l → fd_Grants d2 = l ++ [g] → carried (fd_Grants d2) (fd_Grants d') →
  added g d d'.
Proof.
  intros H1 Heq H2. unfold added. rewrite (carried_terms _ _ H2), Heq, fmap_app, (carried_terms _ _ H1). done.
Qed.

(** The stored grant a request that succeeded returns. *)
Definition answered (req : GrantRequest) (d d' : FileData) (g : Grant) (created : bool) : Prop :=
  g ∈ fd_Grants d'
  ∧ grant_Client g = req_Client req ∧ grant_ClientRequestID g = req_ClientRequestID req ∧ asks req g
  ∧ if created then
      added g d d' ∧ (∀ h, h ∈ fd_Grants d → grant_ID h ≠ grant_ID g ∧ ¬ filed req h)
      ∧ Z.of_nat (length (pending_of (fd_Grants d') (req_Client req))) <= opts_MaxPendingPerClient o
      ∧ Z.of_nat (length (all_pending (fd_Grants d'))) <= opts_MaxPendingGlobal o
    else kept d d' ∧ ∃ h, h ∈ fd_Grants d ∧ filed req h ∧ grant_ID h = grant_ID g.

(** What a request that failed may have added. *)
Definition at_most_added (req : GrantRequest) (d d' : FileData) : Prop :=
  kept d d'
  ∨ ∃ g, grant_Client g = req_Client req ∧ grant_ClientRequestID g = req_ClientRequestID req
         ∧ asks req g ∧ added g d d'.

Lemma requested_answered (req : GrantRequest) (w : World) (d dm d' : FileData) (g g' : Grant) (created : bool) :
  requested req d dm (Ok (g, created)) → carried (fd_Grants dm) (fd_Grants d') → holds w d' →
  g ∈ fd_Grants dm → g' ∈ fd_Grants d' → grant_ID g' = grant_ID g →
  answered req d d' g' created.
Proof.
  intros Hreqd Hc Hw Hgin Hin Hid. split; [done|].
  pose proof (same_ID w d' (fd_Grants dm) g g' Hw Hc Hgin Hin Hid) as Ht.
  assert (grant_Client g' = grant_Client g ∧ grant_ClientRequestID g' = grant_ClientRequestID g) as [-> ->]
    by (unfold terms, fixed_part in Ht; split; congruence).
  destruct created; cbn [requested] in Hreqd.
  - destruct Hreqd as ((l & Hl & Heq) & Hnone & Hcl & Hcid & Ha & Hp1 & Hp2).
    split; [done|]. split; [done|]. split; [by apply (terms_asks req g)|].
    assert (added g' d d') as Hadd by (unfold added; rewrite Ht; by apply (carried_added g d dm d' l)).
    split; [done|]. split; [intros h Hh; split; [by eapply added_fresh|by apply Hnone]|].
    pose proof (carried_client _ _ Hc (req_Client req)). pose proof (carried_all _ _ Hc). lia.
  - destruct Hreqd as (Hcm & _ & Hf & Ha). destruct (id Hf) as (_ & ? & ? & _).
    split; [done|]. split; [done|].
    split; [by apply (terms_asks req g)|]. split; [apply carried_kept; by etrans|].
    destruct (carried_elem _ _ _ Hcm Hgin) as (h & Hh & Hht). exists h. split; [done|].
    split; [by apply (terms_filed req g)|]. rewrite Hid. by apply terms_ID.
Qed.

Lemma requested_at_most (req : GrantRequest) (d dm d' : FileData) (g : Grant) (created : bool) :
  requested req d dm (Ok (g, created)) → d' = d ∨ carried (fd_Grants dm) (fd_Grants d') →
  at_most_added req d d'.
Proof.
  intros Hreqd [->|Hc]; [left; by apply carried_kept|]. destruct created; cbn [requested] in Hreqd.
  - destruct Hreqd as ((l & Hl & Heq) & _ & Hcl & Hid & Ha & _). right. exists g.
    do 3 (split; [done|]). by apply (carried_added g d dm d' l).
  - left. apply carried_kept. destruct Hreqd as [Hcm _]. by etrans.
Qed.

End requests.

(** A valid request, normalized; and the one of the sample session for another reason. *)
Definition normalized (req : GrantRequest) : GrantRequest :=
  match normalizeGrantRequest default_options req with Ok r => r | Err _ => req end.

Definition other_reason : GrantRequest :=
  MkGrantRequest "alice" "req-1" "read" (MkTarget "file" ∅) ∅ ∅ "restore" hour 0 2 true false.

Definition ask (req : GrantRequest) (w : World) : RequestOutcome * World :=
  request ticking counting_ids default_options req None w.


(** * Uses: what a reservation and a settlement do

    The functional behaviour of [reserveUse] and [settleUse] on prepared data,
    on every branch: who may reserve, that a reservation is charged once, and
    how each settlement moves the counters of its grant. *)

(** A reservation with this identity may be acquired now. *)
Definition acquirable (now : Time) (grantID operation : string) (g : Grant)
    (existing : option GrantUse) : Prop :=
  grant_Status g = StatusActive ∧ now < grant_ExpiresAt g
  ∧ (grant_MaxUses g = Unlimited
     ∨ grant_UsedCount g + grant_ReservedCount g < grant_MaxUses g)
  ∧ match existing with
    | None => grant_Operation g = operation
    | Some u => use_GrantID u = grantID ∧ use_Operation u = operation
                ∧ use_State u = UseReleased
    end.

Lemma findUse_insert (uses : list GrantUse) (id : string) (i : nat) (u v : GrantUse) :
  findUseIndex uses id = Some (i, u) → use_RequestID v = id →
  findUseIndex (<[i := v]> uses) id = Some (i, v).
Proof.
  revert i; induction uses as [|w uses IH]; intros i; cbn; [done|].
  destruct (String.eqb_spec (use_RequestID w) id) as [Hw|Hw].
  - intros [= <- <-] <-. cbn. by rewrite String.eqb_refl.
  - destruct (findUseIndex uses id) as [[k x]|] eqn:E; [|done]. cbn.
    intros [= <- <-] Hv. cbn. destruct (String.eqb_spec (use_RequestID w) id); [done|].
    by rewrite IH.
Qed.

Lemma findUse_snoc (uses : list GrantUse) (id : string) (v : GrantUse) :
  findUseIndex uses id = None → use_RequestID v = id →
  findUseIndex (uses ++ [v]) id = Some (length uses, v).
Proof.
  induction uses as [|w uses IH]; cbn; intros Hn Hv.
  - by rewrite Hv, String.eqb_refl.
  - destruct (String.eqb (use_RequestID w) id); [done|].
    destruct (findUseIndex uses id) as [[k x]|]; [done|]. by rewrite IH.
Qed.

Section uses.
Context (clock : nat → Time).

(** [reserveUse] acquires a use exactly for an active, unexpired grant of that
    operation with budget left, for a new request identifier or a released use of the same
    identity; the use is then reserved under that identifier. A request that already holds
    its use gets it again without a change, and every refusal changes nothing. *)
Theorem reserve_use_outcomes (grantID requestID operation : string) (d : FileData) (w : World) :
  let now := clock (w_tick w) in
  let existing := findUse (fd_Uses d) requestID in
  match fst (reserveUse clock grantID requestID operation d w) with
  | (d', Ok true) =>
    ∃ i g, findGrant (fd_Grants d) grantID = Some (i, g)
      ∧ acquirable now grantID operation g existing
      ∧ findUse (fd_Uses d') requestID
        = Some (match existing with
                | None => reserved_use grantID requestID operation now
                | Some u => reserve_again now u
                end)
  | (d', Ok false) =>
    d' = d ∧ ∃ u, existing = Some u ∧ use_GrantID u = grantID ∧ use_Operation u = operation
                  ∧ use_State u ≠ UseReleased
  | (d', Err _) => d' = d ∧ ∀ i g, findGrant (fd_Grants d) grantID = Some (i, g) →
                                   ¬ acquirable now grantID operation g existing
  end.
Proof.
  cbn zeta. unfold reserveUse, findUse, acquirable.
  destruct (findUseIndex (fd_Uses d) requestID) as [[j u]|] eqn:Eu;
    cbn [fmap option_fmap option_map snd].
  - unfold reserveExistingUse.
    destruct (String.eqb_spec (use_GrantID u) grantID), (String.eqb_spec (use_Operation u) operation);
      cbn [negb orb]; try (split; [done|]; tauto).
    case_bool_decide as Hs; cbn [negb]; [|split; [done|]; by exists u].
    destruct (findGrant (fd_Grants d) grantID) as [[i g]|]; [|done].
    unfold mbind, eff_bind. rewrite clocked_now.
    destruct (grantCanUse g (clock (w_tick w))) eqn:Hcan; cbn [negb].
    + apply grantCanUse_iff in Hcan as (? & ? & ?). exists i, g.
      split; [done|]. split; [done|]. cbn. erewrite findUse_insert; [done|exact Eu|].
      by apply findUseIndex_some in Eu as [_ ?].
    + split; [done|]. intros i' g' [= <- <-] (Ha & Hx & Hb & _).
      assert (grantCanUse g (clock (w_tick w)) = true); [|congruence].
      by apply grantCanUse_iff.
  - unfold reserveNewUse.
    destruct (findGrant (fd_Grants d) grantID) as [[i g]|]; [|done].
    destruct (String.eqb_spec (grant_Operation g) operation); cbn [negb].
    2:{ split; [done|]. intros i' g' [= <- <-]. tauto. }
    unfold mbind, eff_bind. rewrite clocked_now.
    destruct (grantCanUse g (clock (w_tick w))) eqn:Hcan; cbn [negb].
    + apply grantCanUse_iff in Hcan as (? & ? & ?). exists i, g.
      split; [done|]. split; [done|]. cbn. by rewrite findUse_snoc.
    + split; [done|]. intros i' g' [= <- <-] (Ha & Hx & Hb & _).
      assert (grantCanUse g (clock (w_tick w)) = true); [|congruence].
      by apply grantCanUse_iff.
Qed.

Context {R : MapRange}.

(** Settling moves the counters by exactly one use. Committing adds one used and
    removes one reserved use, releasing removes one reserved use, retaining keeps both; the
    use is stamped with its settlement, and the grant becomes consumed exactly when its
    budget is then used up, unless it was revoked. *)
Theorem settlement_counts (grantID requestID : string) (target : UseState) (t : Time)
    (d : FileData) (w : World) (i j : nat) (g : Grant) (u : GrantUse) :
  core_ok t d → settle_target target →
  findGrant (fd_Grants d) grantID = Some (i, g) →
  findUseIndex (fd_Uses d) requestID = Some (j, u) → use_GrantID u = grantID →
  use_State u ≠ target → useStateSettled (use_State u) = false →
  reservationCanSettle (grant_Status g) = true →
  let '((d', r), _) := settleStoredUse clock grantID requestID target d w in
  r = Ok tt
  ∧ fd_Uses d' = <[j := settle_use target (clock (w_tick w)) u]> (fd_Uses d)
  ∧ ∃ g', fd_Grants d' = <[i := g']> (fd_Grants d) ∧ grant_ID g' = grantID
    ∧ grant_UsedCount g' = grant_UsedCount g + (if is_committed target then 1 else 0)
    ∧ grant_ReservedCount g' = grant_ReservedCount g - (if is_open target then 0 else 1)
    ∧ grant_Status g' = (if Exhausted (grant_MaxUses g) (grant_UsedCount g')
                            && negb (bool_decide (grant_Status g = StatusRevoked))
                         then StatusConsumed else grant_Status g).
Proof.
  intros Hc Htarget Hf Hj Hid Hne Hns Hst. unfold settleStoredUse. rewrite Hj, Hf.
  rewrite (proj2 (String.eqb_eq _ _) Hid). cbn [negb].
  assert (useCanSettle u g target = Ok true) as ->.
  { unfold useCanSettle. rewrite bool_decide_false, Hns, Hst by done. done. }
  unfold mbind, eff_bind. rewrite clocked_now. set (now := clock (w_tick w)).
  apply findGrant_some in Hf as [Hgi Hgid]. apply findUseIndex_some in Hj as [Huj _].
  assert (g ∈ fd_Grants d) as Hgin by (by apply list_elem_of_lookup_2 in Hgi).
  assert (u ∈ fd_Uses d) as Huin by (by apply list_elem_of_lookup_2 in Huj).
  pose proof (consistent_counts _ _ (co_consistent _ _ Hc g Hgin)) as [Hu Hr].
  destruct (co_uses _ _ Hc u Huin) as [[Hl _ _] _].
  assert (validUseState (use_State u) = true) as Hvs.
  { unfold validLoadedUseLifecycle in Hl. by destruct (validUseState (use_State u)). }
  destruct (settle_step _ _ Hvs Hns Hne Htarget) as (_ & Hopen & Hnc).
  destruct (settle_sums (fd_Uses d) j u target now grantID Huj Hid Hopen Hnc) as (Hc1 & Hc2 & _).
  unfold mret, eff_ret, apply_settlement. split; [done|]. split; [done|].
  set (uses' := <[j:=settle_use target now u]> (fd_Uses d)) in *.
  set (g1 := if bool_decide (target = UseCommitted) then bump_use (bump_reservation g)
             else bump_reservation g).
  exists (settleGrantUse (aggregateGrantUses g1 uses')). split; [done|].
  destruct (aggregate_counts g1 uses') as [Hu' Hr'].
  assert (grant_ID g1 = grantID ∧ grant_MaxUses g1 = grant_MaxUses g
          ∧ grant_Status g1 = grant_Status g) as (Hi1 & Hm1 & Hs1)
    by (unfold g1; by case_bool_decide).
  assert (grant_ID (aggregateGrantUses g1 uses') = grantID
          ∧ grant_MaxUses (aggregateGrantUses g1 uses') = grant_MaxUses g
          ∧ grant_Status (aggregateGrantUses g1 uses') = grant_Status g) as (Hi2 & Hm2 & Hs2)
    by (rewrite aggregateGrantUses_summary; by cbn).
  set (g2 := aggregateGrantUses g1 uses') in *.
  assert (grant_ID (settleGrantUse g2) = grant_ID g2
          ∧ grant_UsedCount (settleGrantUse g2) = grant_UsedCount g2
          ∧ grant_ReservedCount (settleGrantUse g2) = grant_ReservedCount g2) as (E1 & E2 & E3)
    by (unfold settleGrantUse; by destruct (_ && _)).
  rewrite E1, E2, E3, Hu', Hr', Hi1, Hc1, Hc2, Hu, Hr, Hgid. split; [done|].
  split; [done|]. split; [lia|].
  unfold settleGrantUse. rewrite Hm2, Hs2, Hu', Hi1, Hc1.
  by destruct (_ && _).
Qed.
End uses.

Lemma settlement_counts_witness :
  let d := w_storage reserved_world in
  ∃ g u, fd_Grants d = [g] ∧ fd_Uses d = [u]
    ∧ let '((d', r), _) := settleStoredUse ticking first_id "u1" UseCommitted d reserved_world in
      r = Ok tt ∧ fd_Uses d' = <[0%nat := settle_use UseCommitted
                                   (ticking (w_tick reserved_world)) u]> (fd_Uses d)
      ∧ ∃ g', fd_Grants d' = <[0%nat := g']> (fd_Grants d) ∧ grant_ID g' = first_id
        ∧ grant_UsedCount g' = grant_UsedCount g + 1
        ∧ grant_ReservedCount g' = grant_ReservedCount g - 1
        ∧ grant_Status g' = (if Exhausted (grant_MaxUses g) (grant_UsedCount g')
                                && negb (bool_decide (grant_Status g = StatusRevoked))
                             then StatusConsumed else grant_Status g).
Proof.
  cbn zeta. eexists _, _. split; [by vm_compute|]. split; [by vm_compute|].
  apply (settlement_counts ticking first_id "u1" UseCommitted (ticking (w_tick reserved_world))).
  - apply reserved_holds.
  - by left.
  - by vm_compute.
  - by vm_compute.
  - by vm_compute.
  - by vm_compute.
  - by vm_compute.
  - by vm_compute.
Defined.
