(* ===== verification/GrantsReads.v ===== *)
(** * Reading the grant store: events and deadlines

    Cursors visit every retained event exactly once, the event log keeps the
    newest events, and the store's timer never sleeps through a
    deadline. *)

From S2P Require Export GrantsVerdicts.

Local Open Scope Z_scope.

(** ** Events *)

(** A client that follows [NextCursor] while [HasMore] is set. *)
Fixpoint read_events (fuel : nat) (d : FileData) (cursor : string) (limit : Z)
  : result error (list Event) :=
  match fuel with
  | O => Err (ErrorExternal "fuel")
  | S fuel =>
    page ← events_after d cursor limit;
    if page_HasMore page
    then rest ← read_events fuel d (page_NextCursor page) limit; Ok (page_Events page ++ rest)
    else Ok (page_Events page)
  end.

Lemma events_ordered_after (events : list EventRecord) (previous next : Z) :
  events_ordered previous events next → ∀ e, e ∈ events → previous < ev_Sequence e < next.
Proof.
  revert previous; induction events as [|f events IH]; intros previous; cbn.
  { intros _ e He. by apply not_elem_of_nil in He. }
  intros [Hp He] e [->|Hin]%elem_of_cons.
  - split; [done|]. by eapply events_ordered_next.
  - specialize (IH _ He e Hin). lia.
Qed.

(** The events after a sequence number are a suffix of the log. *)
Lemma events_ordered_split (pre suf : list EventRecord) (previous next sequence : Z) :
  events_ordered previous (pre ++ suf) next → previous <= sequence →
  (∀ e, e ∈ pre → ev_Sequence e <= sequence) → (∀ e, e ∈ suf → sequence < ev_Sequence e) →
  filter (λ e, (sequence <? ev_Sequence e) = true) (pre ++ suf) = suf.
Proof.
  intros _ _ Hpre Hsuf. rewrite filter_app.
  assert (filter (λ e, (sequence <? ev_Sequence e) = true) pre = []) as ->.
  { apply elem_of_nil_inv. intros e [Hs He]%list_elem_of_filter. apply Z.ltb_lt in Hs.
    specialize (Hpre e He). lia. }
  cbn [app]. clear -Hsuf. induction suf as [|e suf IH]; [done|].
  rewrite filter_cons, decide_True by (apply Z.ltb_lt, Hsuf; left). f_equal.
  apply IH. intros f Hf. apply Hsuf. by right.
Qed.

Lemma ordered_app_bounds (pre suf : list EventRecord) (e : EventRecord) (previous next : Z) :
  events_ordered previous (pre ++ [e] ++ suf) next →
  (∀ f, f ∈ pre → ev_Sequence f < ev_Sequence e) ∧ (∀ f, f ∈ suf → ev_Sequence e < ev_Sequence f)
  ∧ previous < ev_Sequence e < next.
Proof.
  revert previous; induction pre as [|f pre IH]; intros previous; cbn.
  - intros [Hp He]. split; [intros f Hf; by apply not_elem_of_nil in Hf|]. split.
    + intros f Hf. by apply (events_ordered_after _ _ _ He).
    + split; [done|]. by eapply events_ordered_next.
  - intros [Hp He]. destruct (IH _ He) as (H1 & H2 & H3). split; [|split; [done|lia]].
    intros h [->|Hh]%elem_of_cons; [lia|by apply H1].
Qed.

(** One page from the boundary between [pre] and [suf]. *)
Lemma page_from (pre suf : list EventRecord) (sequence limit : Z) :
  filter (λ e, (sequence <? ev_Sequence e) = true) (pre ++ suf) = suf → 1 <= limit →
  let page := eventPageAfter (pre ++ suf) sequence limit in
  page_Events page = publicEvent <$> take (Z.to_nat limit) suf
  ∧ page_HasMore page = (limit <? Z.of_nat (length suf))
  ∧ (limit < Z.of_nat (length suf) → ∃ e, take (Z.to_nat limit) suf !! pred (Z.to_nat limit) = Some e
       ∧ page_NextCursor page = encodeEventCursor (ev_Sequence e)).
Proof.
  intros Hf Hl. unfold eventPageAfter. rewrite Hf. cbn [page_Events page_HasMore page_NextCursor].
  rewrite length_take. set (n := Z.to_nat limit).
  destruct (Z.ltb_spec limit (Z.of_nat (length suf))) as [Hlt|Hge].
  - assert ((limit <? Z.of_nat (S n `min` length suf)) = true) as -> by (apply Z.ltb_lt; lia).
    rewrite take_take, Nat.min_l by lia. split; [done|]. split; [done|]. intros _.
    rewrite last_lookup, length_take, Nat.min_l by lia.
    destruct (lookup_lt_is_Some_2 (take n suf) (pred n)) as [e He].
    { rewrite length_take. lia. }
    exists e. by rewrite He.
  - assert ((limit <? Z.of_nat (S n `min` length suf)) = false) as -> by (apply Z.ltb_ge; lia).
    rewrite !take_ge by lia. split; [done|]. split; [done|]. lia.
Qed.

(** The client has read the events of [pre]. *)
Definition read_up_to (pre : list EventRecord) (cursor : string) : Prop :=
  (pre = [] ∧ cursor = EmptyString)
  ∨ ∃ earlier e, pre = earlier ++ [e] ∧ cursor = encodeEventCursor (ev_Sequence e).

Lemma normalizeEventLimit_pos (limit n : Z) : normalizeEventLimit limit = Ok n → 1 <= n.
Proof.
  unfold normalizeEventLimit. destruct (limit =? 0); [by intros [= <-]|].
  rewrite seq_ok, refuse_ok, orb_false_iff, Z.ltb_ge. intros [[? _] [= <-]]. done.
Qed.

Lemma events_after_position (d : FileData) (pre suf : list EventRecord) (cursor : string)
    (limit n : Z) :
  fd_Events d = pre ++ suf → events_ordered 0 (fd_Events d) (fd_NextEvent d) →
  fd_NextEvent d <= 2 ^ 64 → read_up_to pre cursor → normalizeEventLimit limit = Ok n →
  ∃ sequence, events_after d cursor limit = Ok (eventPageAfter (pre ++ suf) sequence n)
    ∧ filter (λ e, (sequence <? ev_Sequence e) = true) (pre ++ suf) = suf.
Proof.
  intros Hd Ho Hmax Hpos Hn. rewrite Hd in Ho. unfold events_after, normalizeEventRequest.
  rewrite Hd. destruct Hpos as [[-> ->]|(earlier & e & -> & ->)].
  - cbn [decodeEventCursor is_empty]. cbn [mbind result_bind]. rewrite Hn. cbn [mbind result_bind].
    cbn [app]. destruct suf as [|f suf]; cbn [eventStartingSequence is_empty mbind result_bind].
    + by exists 0.
    + exists (ev_Sequence f - 1). split; [done|].
      apply (events_ordered_split [] (f :: suf) (ev_Sequence f - 1) (fd_NextEvent d)).
      * cbn in *. split; [lia|]. by destruct Ho.
      * lia.
      * intros g Hg. by apply not_elem_of_nil in Hg.
      * intros g [->|Hg]%elem_of_cons; [lia|]. destruct Ho as [_ Ho].
        pose proof (events_ordered_after _ _ _ Ho g Hg). lia.
  - rewrite <- (assoc_L (++)) in Ho. destruct (ordered_app_bounds earlier suf e _ _ Ho) as (H1 & H2 & H3).
    rewrite decode_event_cursor by lia. cbn [mbind result_bind]. rewrite Hn. cbn [mbind result_bind].
    assert (eventStartingSequence ((earlier ++ [e]) ++ suf) (encodeEventCursor (ev_Sequence e))
              (ev_Sequence e) = Ok (ev_Sequence e)) as ->.
    { destruct earlier as [|f earlier]; cbn [app eventStartingSequence].
      - rewrite event_cursor_nonempty.
        destruct (Z.ltb_spec (ev_Sequence e) (ev_Sequence e - 1)); [lia|done].
      - rewrite event_cursor_nonempty. specialize (H1 f ltac:(left)).
        destruct (Z.ltb_spec (ev_Sequence e) (ev_Sequence f - 1)); [lia|done]. }
    exists (ev_Sequence e). split; [done|].
    apply (events_ordered_split _ _ 0 (fd_NextEvent d)); try done; [by rewrite <- (assoc_L (++))|lia|].
    intros g [Hg| ->%list_elem_of_singleton]%elem_of_app; [|done]. specialize (H1 g Hg). lia.
Qed.

Lemma read_events_from (fuel : nat) (d : FileData) (pre suf : list EventRecord) (cursor : string)
    (limit n : Z) :
  fd_Events d = pre ++ suf → events_ordered 0 (fd_Events d) (fd_NextEvent d) →
  fd_NextEvent d <= 2 ^ 64 → read_up_to pre cursor → normalizeEventLimit limit = Ok n →
  (length suf < fuel)%nat →
  read_events fuel d cursor limit = Ok (publicEvent <$> suf).
Proof.
  revert pre suf cursor; induction fuel as [|fuel IH]; intros pre suf cursor Hd Ho Hmax Hpos Hn Hf;
    [lia|]. cbn [read_events].
  pose proof (normalizeEventLimit_pos _ _ Hn) as Hn1.
  destruct (events_after_position d pre suf cursor limit n) as (sequence & -> & Hfil); try done.
  cbn [mbind result_bind].
  destruct (page_from pre suf sequence n Hfil Hn1) as (-> & -> & Hnext).
  destruct (Z.ltb_spec n (Z.of_nat (length suf))) as [Hlt|Hge].
  - destruct (Hnext Hlt) as (e & He & ->).
    assert (take (Z.to_nat n) suf = take (pred (Z.to_nat n)) suf ++ [e]) as Hsplit.
    { rewrite lookup_take_lt in He by lia.
      rewrite <- (Nat.succ_pred (Z.to_nat n)) at 1 by lia. by apply take_S_r. }
    rewrite (IH (pre ++ take (Z.to_nat n) suf) (drop (Z.to_nat n) suf)); try done.
    + cbn [mbind result_bind]. by rewrite <- fmap_app, take_drop.
    + by rewrite Hd, <- (assoc_L (++)), take_drop.
    + right. exists (pre ++ take (pred (Z.to_nat n)) suf), e. split; [|done].
      by rewrite Hsplit, (assoc_L (++)).
    + rewrite length_drop. lia.
  - by rewrite take_ge by lia.
Qed.

(** A client that starts without a cursor and follows [NextCursor] while [HasMore] is
    set, with any accepted limit, reads every retained event exactly once and in order, and
    stops. *)
Theorem event_pages_complete (d : FileData) (limit n : Z) :
  events_ordered 0 (fd_Events d) (fd_NextEvent d) → fd_NextEvent d <= 2 ^ 64 →
  normalizeEventLimit limit = Ok n →
  read_events (S (length (fd_Events d))) d EmptyString limit
  = Ok (publicEvent <$> fd_Events d).
Proof.
  intros Ho Hmax Hn. apply (read_events_from _ d [] _ _ limit n); try done; [by left|lia].
Qed.

Lemma event_pages_complete_witness :
  let d := w_storage committed_world in
  length (fd_Events d) = 4%nat
  ∧ read_events (S (length (fd_Events d))) d EmptyString 1 = Ok (publicEvent <$> fd_Events d).
Proof.
  split; [by vm_compute|]. apply (event_pages_complete _ 1 1); [|by vm_compute|done].
  exact committed_events.
Defined.

(** Publishing an event keeps the log in sequence order with unique numbers below the
    next one, within the configured size, and drops only the oldest events. *)
Theorem append_event_bounded (maxEvents : Z) (instant : Time) (kind : EventKind)
    (g previous : Grant) (d : FileData) :
  1 <= maxEvents → events_ordered 0 (fd_Events d) (fd_NextEvent d) →
  let d' := append_event_at maxEvents instant kind g previous d in
  events_ordered 0 (fd_Events d') (fd_NextEvent d')
  ∧ Z.of_nat (length (fd_Events d')) <= maxEvents
  ∧ ∃ e dropped, fd_Events d ++ [e] = dropped ++ fd_Events d'
      ∧ last (fd_Events d') = Some e ∧ ev_Sequence e = fd_NextEvent d
      ∧ ev_GrantID e = grant_ID g ∧ ev_Kind e = kind
      ∧ (dropped ≠ [] → Z.of_nat (length (fd_Events d')) = maxEvents).
Proof.
  intros Hmax Ho. cbn zeta.
  split; [by apply append_event_ordered|]. unfold append_event_at.
  pose proof (events_ordered_next _ _ _ Ho) as Hn.
  destruct (Z.eqb_spec (fd_NextEvent d) 0); [lia|].
  set (e := MkEventRecord _ _ _ _ _ _ _ _ _ _ _ _). cbn [fd_Events set_Events].
  set (all := fd_Events d ++ [e]).
  assert (length all = S (length (fd_Events d))) as Hlen
    by (unfold all; rewrite length_app; cbn; lia).
  destruct (Z.ltb_spec 0 (Z.of_nat (length all) - maxEvents)) as [Hlt|Hge].
  - rewrite length_drop. split; [lia|].
    exists e, (take (Z.to_nat (Z.of_nat (length all) - maxEvents)) all).
    split; [by rewrite take_drop|]. split; [|split; [done|split; [done|split; [done|lia]]]].
    rewrite last_lookup, length_drop, lookup_drop, Hlen. unfold all.
    rewrite lookup_app_r by lia.
    match goal with |- [e] !! ?k = _ => replace k with 0%nat by lia end. done.
  - split; [lia|]. exists e, []. split; [done|]. split; [unfold all; by rewrite last_snoc|done].
Qed.

Lemma append_event_bounded_witness :
  let d := w_storage committed_world in
  ∃ g, fd_Grants d = [g]
    ∧ let d' := append_event_at 2 hour EventExecutionSucceeded g g d in
      events_ordered 0 (fd_Events d') (fd_NextEvent d')
      ∧ Z.of_nat (length (fd_Events d')) <= 2
      ∧ ∃ e dropped, fd_Events d ++ [e] = dropped ++ fd_Events d'
          ∧ last (fd_Events d') = Some e ∧ ev_Sequence e = fd_NextEvent d
          ∧ ev_GrantID e = grant_ID g ∧ ev_Kind e = EventExecutionSucceeded
          ∧ (dropped ≠ [] → Z.of_nat (length (fd_Events d')) = 2).
Proof.
  cbn zeta. eexists. split; [by vm_compute|].
  apply (append_event_bounded 2); [lia|]. exact committed_events.
Defined.

(** ** Deadlines *)

Lemma earlierDeadline_fold (l : list Time) (start : Time) :
  let e := foldl earlierDeadline start l in
  (e ≠ 0 → e ∈ start :: l) ∧ (∀ x, x ∈ start :: l → x ≠ 0 → e ≠ 0 ∧ e <= x).
Proof.
  revert start; induction l as [|y l IH]; intros start; cbn [foldl].
  - split; [by left|]. intros x ->%list_elem_of_singleton Hx. lia.
  - destruct (IH (earlierDeadline start y)) as [H1 H2].
    assert (earlierDeadline start y = start ∧ (y = 0 ∨ start ≠ 0 ∧ start <= y)
            ∨ earlierDeadline start y = y ∧ y ≠ 0 ∧ (start = 0 ∨ y < start)) as Hcases.
    { unfold earlierDeadline, time_is_zero, time_before.
      destruct (Z.eqb_spec y 0), (Z.eqb_spec start 0), (Z.ltb_spec y start); cbn; lia. }
    split.
    + intros He. specialize (H1 He). apply elem_of_cons in H1 as [H1|H1]; [|by do 2 right].
      destruct Hcases as [[Hc _]|[Hc _]]; rewrite Hc in *; rewrite H1; [left|right; left].
    + intros x Hx Hne. rewrite !elem_of_cons in Hx.
      destruct Hcases as [[Hc Hle]|[Hc Hle]]; rewrite Hc in *.
      * destruct Hx as [->|[->|Hx]].
        -- apply H2; [left|done].
        -- destruct Hle as [?|[Hs Hle]]; [done|]. destruct (H2 start ltac:(left) Hs). lia.
        -- apply H2; [by right|done].
      * destruct Hx as [->|[->|Hx]].
        -- destruct Hle as [Hy [?|Hle]]; [done|]. destruct (H2 y ltac:(left) Hy). lia.
        -- apply H2; [left|done].
        -- apply H2; [by right|done].
Qed.

Lemma use_deadline_loop_fold (o : Options) (grants : list Grant) (now earliest e : Time)
    (uses : list GrantUse) :
  use_deadline_loop o grants now earliest uses = Ok e →
  ∃ l, e = foldl earlierDeadline earliest l ∧
    (∀ u, u ∈ uses → ∃ i g, findGrant grants (use_GrantID u) = Some (i, g)
                            ∧ useLifecycleDeadline o u g now ∈ l)
    ∧ ∀ x, x ∈ l → ∃ u i g, u ∈ uses ∧ findGrant grants (use_GrantID u) = Some (i, g)
                            ∧ x = useLifecycleDeadline o u g now.
Proof.
  revert earliest; induction uses as [|u uses IH]; intros earliest; cbn [use_deadline_loop].
  - intros [= <-]. exists []. split; [done|]. split; intros x Hx; by apply not_elem_of_nil in Hx.
  - destruct (findGrant grants (use_GrantID u)) as [[i g]|] eqn:Ef; [|done].
    cbn [option_ok mbind result_bind]. intros (l & -> & H1 & H2)%IH.
    exists (useLifecycleDeadline o u g now :: l). split; [done|]. split.
    + intros v [->|Hv]%elem_of_cons; [exists i, g; split; [done|left]|].
      destruct (H1 v Hv) as (j & h & Hf & Hin). exists j, h. split; [done|by right].
    + intros x [->|Hx]%elem_of_cons; [exists u, i, g; split; [left|done]|].
      destruct (H2 x Hx) as (v & j & h & Hv & Hf & Heq). exists v, j, h. split; [by right|done].
Qed.

Lemma expire_due (t : Time) (g : Grant) :
  (grant_Status g = StatusPending → grant_PendingExpiresAt g ≠ 0) →
  (grant_Status g = StatusActive → grant_ExpiresAt g ≠ 0) →
  expire_grant t g = None ↔ (grantLifecycleDeadline g ≠ 0 → t < grantLifecycleDeadline g).
Proof.
  unfold grantLifecycleDeadline, expire_grant, time_before. intros Hp Ha.
  destruct (grant_Status g); try (by split; intros; [lia|done]).
  - specialize (Hp eq_refl). destruct (Z.ltb_spec t (grant_PendingExpiresAt g)); cbn;
      (split; intros; [lia || done|done || lia]).
  - specialize (Ha eq_refl). destruct (Z.ltb_spec t (grant_ExpiresAt g)); cbn;
      (split; intros; [lia || done|done || lia]).
Qed.

Lemma stale_due (o : Options) (u : GrantUse) (g : Grant) (now t : Time) :
  0 < now → now <= t →
  useReservationIsStale u g t (opts_ReservationTimeout o) = false ↔
  (useLifecycleDeadline o u g now ≠ 0 → t < useLifecycleDeadline o u g now).
Proof.
  intros Hn Ht. unfold useLifecycleDeadline, useReservationIsStale, time_is_zero, time_before.
  destruct (bool_decide (use_State u = UseReserved)), (reservationCanSettle (grant_Status g)); cbn;
    try done.
  destruct (Z.eqb_spec (use_UpdatedAt u) 0); cbn; [split; [done|]; intros H; lia|].
  set (x := use_UpdatedAt u + opts_ReservationTimeout o).
  destruct (Z.ltb_spec now x), (Z.ltb_spec t x); cbn; split; try done; intros; lia.
Qed.

Lemma earliestGrantDeadline_fold (grants : list Grant) :
  earliestGrantDeadline grants = foldl earlierDeadline 0 (grantLifecycleDeadline <$> grants).
Proof.
  unfold earliestGrantDeadline. generalize 0.
  induction grants as [|g gs IH]; intros z; [done|]. apply IH.
Qed.

(** C40: The delay the store sleeps for is exact. While it lasts no grant expires and no
    reservation goes stale; when it ends something is due; and without a delay nothing is
    ever due. *)
Theorem lifecycle_delay_exact `{MapRange} (o : Options) (d : FileData) (now t : Time)
    (r : option Duration) :
  (∀ g, g ∈ fd_Grants d → grant_Status g = StatusPending → grant_PendingExpiresAt g ≠ 0) →
  (∀ g, g ∈ fd_Grants d → grant_Status g = StatusActive → grant_ExpiresAt g ≠ 0) →
  0 < now → now <= t → next_delay o d now = Ok r →
  (snd (expire_at t d) || snd (retain_at o t d) = true
   ↔ match r with Some delay => now + delay <= t | None => False end).
Proof.
  intros Hp Ha Hn Ht. unfold next_delay, earliestUseDeadline. rewrite bind_ok_iff.
  intros (e & (l & -> & Hl1 & Hl2)%use_deadline_loop_fold & [= <-]).
  rewrite earliestGrantDeadline_fold.
  set (deadlines := grantLifecycleDeadline <$> fd_Grants d) in *.
  assert (foldl earlierDeadline (foldl earlierDeadline 0 deadlines) l
          = foldl earlierDeadline 0 (deadlines ++ l)) as -> by (by rewrite foldl_app).
  destruct (earlierDeadline_fold (deadlines ++ l) 0) as [Hin Hmin].
  set (e := foldl earlierDeadline 0 (deadlines ++ l)) in *.
  assert (snd (expire_at t d) || snd (retain_at o t d) = true
          ↔ ∃ x, x ∈ deadlines ++ l ∧ x ≠ 0 ∧ x <= t) as ->.
  { rewrite <- not_false_iff_true, orb_false_iff, expire_at_unchanged, retain_at_unchanged.
    split.
    - intros Hnot. destruct (decide (Exists (λ x, x ≠ 0 ∧ x <= t) (deadlines ++ l))) as [Hex|Hno].
      { by apply Exists_exists in Hex. }
      rewrite Exists_exists in Hno. exfalso. apply Hnot. split.
      + intros g Hg. apply expire_due; [by apply Hp|by apply Ha|]. intros Hx.
        apply Z.nle_gt. intros Hle. apply Hno. exists (grantLifecycleDeadline g).
        split; [|done]. apply elem_of_app. left. by apply list_elem_of_fmap_2.
      + intros u Hu. destruct (Hl1 u Hu) as (i & g & Hf & Hul). unfold use_is_stale.
        rewrite Hf. apply (stale_due o u g now t Hn Ht). intros Hx.
        apply Z.nle_gt. intros Hle. apply Hno. eexists. split; [|done].
        apply elem_of_app. by right.
    - intros (x & [Hx|Hx]%elem_of_app & Hne & Hle) [He Hr].
      + apply list_elem_of_fmap in Hx as (g & -> & Hg).
        pose proof (proj1 (expire_due t g (Hp g Hg) (Ha g Hg)) (He g Hg) Hne). cbn in *. lia.
      + destruct (Hl2 x Hx) as (u & i & g & Hu & Hf & ->). specialize (Hr u Hu).
        unfold use_is_stale in Hr. rewrite Hf in Hr.
        pose proof (proj1 (stale_due o u g now t Hn Ht) Hr Hne). lia. }
  unfold time_is_zero. destruct (Z.eqb_spec e 0) as [Hz|Hz].
  - split; [|done]. intros (x & Hx & Hne & _). by destruct (Hmin x ltac:(by right) Hne).
  - split.
    + intros (x & Hx & Hne & Hle). destruct (Hmin x ltac:(by right) Hne). lia.
    + intros Hle. specialize (Hin Hz). apply elem_of_cons in Hin as [?|Hin]; [done|].
      exists e. split; [done|]. split; [done|]. lia.
Qed.

Lemma lifecycle_delay_exact_witness :
  let d := w_storage reserved_world in
  let now := ticking (w_tick reserved_world) in
  let t := now + 296 * second in
  snd (expire_at t d) || snd (retain_at default_options t d) = true ↔ now + 296 * second <= t.
Proof.
  cbn zeta.
  assert (forallb (λ g, negb (grant_PendingExpiresAt g =? 0) && negb (grant_ExpiresAt g =? 0))
            (fd_Grants (w_storage reserved_world)) = true) as Hall by (vm_compute; reflexivity).
  rewrite forallb_forall in Hall.
  apply (lifecycle_delay_exact default_options (w_storage reserved_world)
    (ticking (w_tick reserved_world)) _ (Some (296 * second))).
  - intros g Hg _. apply list_elem_of_In, Hall in Hg. bool_to_prop. done.
  - intros g Hg _. apply list_elem_of_In, Hall in Hg. bool_to_prop. done.
  - by vm_compute.
  - apply Z.leb_le. by vm_compute.
  - by vm_compute.
Defined.
