(* ===== verification/GrantsListing.v ===== *)
(** * Listings: keyset pagination visits every matching grant once

    [buildGrantPage] sorts newest first and cuts one page; its cursor names the
    last grant of the page.  Following the cursors reads the sorted listing. *)

From S2P Require Export GrantsReads.
From stdpp Require Import sorting.

Local Open Scope Z_scope.

(** ** The order *)

(** [l] comes before [r] in a listing. *)
Definition newer (l r : Grant) : Prop :=
  grant_CreatedAt r < grant_CreatedAt l
  ∨ grant_CreatedAt l = grant_CreatedAt r ∧ string_lt (grant_ID r) (grant_ID l).

Lemma string_ltb_lt (s t : string) : string_ltb s t = true ↔ string_lt s t.
Proof. unfold string_ltb, string_lt. by destruct (string_compare s t). Qed.

Lemma string_ltb_ge (s t : string) : string_ltb s t = false ↔ ¬ string_lt s t.
Proof. by rewrite <- string_ltb_lt, not_true_iff_false. Qed.

Lemma string_lt_total (s t : string) : string_lt s t ∨ s = t ∨ string_lt t s.
Proof.
  unfold string_lt. rewrite (string_compare_antisym s t).
  destruct (string_compare s t) eqn:E; [|by left|by right; right].
  right; left. by apply string_compare_eq.
Qed.

#[export] Instance newer_strict : StrictOrder newer.
Proof.
  split.
  - intros g [?|[_ H]]; [lia|]. by apply (irreflexivity string_lt) in H.
  - intros g1 g2 g3 [?|[? H1]] [?|[? H2]]; try (left; lia).
    right. split; [lia|]. by etrans.
Qed.

#[export] Instance newer_antisymm : AntiSymm (=) newer.
Proof.
  intros g h H1 H2. exfalso. apply (irreflexivity newer g). by etrans.
Qed.

Lemma newer_total (l r : Grant) : grant_ID l ≠ grant_ID r → newer l r ∨ newer r l.
Proof.
  intros Hne. unfold newer.
  destruct (string_lt_total (grant_ID l) (grant_ID r)) as [?|[?|?]]; [|done|];
    destruct (Z.lt_total (grant_CreatedAt l) (grant_CreatedAt r)) as [?|[?|?]]; auto.
Qed.

Lemma compare_newer (l r : Grant) : compareGrantsNewestFirst l r = Lt ↔ newer l r.
Proof.
  unfold compareGrantsNewestFirst, newer, time_after, time_before.
  destruct (Z.ltb_spec (grant_CreatedAt r) (grant_CreatedAt l)); [intuition|].
  destruct (Z.ltb_spec (grant_CreatedAt l) (grant_CreatedAt r)); [intuition (lia || done)|].
  destruct (string_ltb (grant_ID r) (grant_ID l)) eqn:E1.
  { apply string_ltb_lt in E1. intuition lia. }
  apply string_ltb_ge in E1.
  destruct (string_ltb (grant_ID l) (grant_ID r)); intuition (lia || done).
Qed.

(** ** Sorting *)

Lemma insert_newest_perm (g : Grant) (l : list Grant) : insert_newest g l ≡ₚ g :: l.
Proof.
  induction l as [|h l IH]; cbn; [done|].
  destruct (compareGrantsNewestFirst h g); [done| |done]. by rewrite IH, Permutation_swap.
Qed.

Lemma sort_newest_perm (l : list Grant) : sort_newest l ≡ₚ l.
Proof. induction l as [|g l IH]; cbn; [done|]. by rewrite insert_newest_perm, IH. Qed.

Lemma insert_newest_sorted (g : Grant) (l : list Grant) :
  StronglySorted newer l → (∀ h, h ∈ l → grant_ID h ≠ grant_ID g) →
  StronglySorted newer (insert_newest g l).
Proof.
  induction 1 as [|h l Hl IH Hh]; intros Hne; cbn; [by repeat constructor|].
  destruct (compareGrantsNewestFirst h g) eqn:E.
  2:{ apply compare_newer in E. constructor.
      - apply IH. intros x Hx. apply Hne. by right.
      - rewrite insert_newest_perm. constructor; [done|done]. }
  all: assert (newer g h) as Hgh
    by (destruct (newer_total h g) as [Hn|?]; [apply Hne; left| |done];
        apply compare_newer in Hn; congruence).
  all: constructor; [by constructor|]; constructor; [done|];
    eapply Forall_impl; [exact Hh|]; intros x Hx; by etrans.
Qed.

Lemma sort_newest_sorted (l : list Grant) :
  NoDup (grant_ID <$> l) → StronglySorted newer (sort_newest l).
Proof.
  induction l as [|g l IH]; cbn; [by constructor|]. rewrite NoDup_cons. intros [Hn Hnd].
  apply insert_newest_sorted; [by apply IH|]. intros h. rewrite sort_newest_perm.
  intros Hh Heq. apply Hn. rewrite <- Heq. by apply list_elem_of_fmap_2.
Qed.

Lemma sorted_unique_newer (l l' : list Grant) :
  StronglySorted newer l → StronglySorted newer l' → l ≡ₚ l' → l = l'.
Proof. intros. by apply (StronglySorted_unique newer). Qed.

Lemma filter_sorted (P : Grant → Prop) `{∀ g, Decision (P g)} (l : list Grant) :
  StronglySorted newer l → StronglySorted newer (filter P l).
Proof.
  induction 1 as [|g l Hl IH Hg]; [constructor|]. rewrite filter_cons.
  destruct (decide (P g)); [|done]. constructor; [done|].
  apply Forall_forall. intros h [_ Hh]%list_elem_of_filter.
  by eapply Forall_forall in Hg.
Qed.

(** Sorting commutes with filtering. *)
Lemma sort_newest_filter (P : Grant → Prop) `{∀ g, Decision (P g)} (l : list Grant) :
  NoDup (grant_ID <$> l) → sort_newest (filter P l) = filter P (sort_newest l).
Proof.
  intros Hnd. apply sorted_unique_newer.
  - apply sort_newest_sorted. eapply sublist_NoDup; [exact Hnd|].
    apply fmap_sublist, sublist_filter.
  - by apply filter_sorted, sort_newest_sorted.
  - rewrite sort_newest_perm. symmetry. apply filter_Permutation, sort_newest_perm.
Qed.

(** ** Following the cursors *)

Section listing.
Context {R : MapRange} (marshal_cursor : GrantCursor → list Z)
  (unmarshal_cursor : list Z → option GrantCursor) (query_digest : Query → string).

Notation build := (buildGrantPage marshal_cursor query_digest).
Notation normalize := (normalizeGrantQuery unmarshal_cursor query_digest).

(** A client that repeats its query with [NextCursor] while [HasMore] is set. *)
Fixpoint read_grants (fuel : nat) (grants : list Grant) (q : Query)
  : result error (list Grant) :=
  match fuel with
  | O => Err (ErrorExternal "fuel")
  | S fuel =>
    '(normalized, cursor) ← normalize q;
    let page := build grants normalized cursor in
    if result_HasMore page then
      rest ← read_grants fuel grants
               (MkQuery (query_StatusGroup q) (query_Client q) (query_Operation q)
                  (query_Target q) (result_NextCursor page) (query_Limit q));
      Ok (result_Grants page ++ rest)
    else Ok (result_Grants page)
  end.

(** The cursor that points at a grant. *)
Definition cursor_at (q : Query) (g : Grant) : GrantCursor :=
  MkGrantCursor (grant_CreatedAt g) (grant_ID g) (queryFingerprint query_digest q).

(** What the cursor's JSON has to provide: it decodes to what was encoded, and
    the text of a cursor fits the length limit. *)
Definition cursors_survive (grants : list Grant) (q : Query) : Prop :=
  ∀ g, g ∈ grants →
    decodeGrantCursor unmarshal_cursor (encodeGrantCursor marshal_cursor (cursor_at q g))
    = Ok (cursor_at q g).

Lemma grantBeforeCursor_newer (q : Query) (g h : Grant) :
  grant_ID g ≠ EmptyString → grantBeforeCursor h (cursor_at q g) = true ↔ newer g h.
Proof.
  intros Hne. unfold grantBeforeCursor, cursor_at, newer, time_before.
  cbn [cursor_ID cursor_CreatedAt]. destruct (is_empty (grant_ID g)) eqn:E.
  { by destruct (grant_ID g). }
  rewrite orb_true_iff, andb_true_iff, Z.ltb_lt, Z.eqb_eq, string_ltb_lt. intuition.
Qed.

Lemma sorted_after (pre suf : list Grant) (g : Grant) (P : Grant → Prop)
    `{∀ h, Decision (P h)} :
  StronglySorted newer (pre ++ [g] ++ suf) → (∀ h, P h ↔ newer g h) →
  filter P (pre ++ [g] ++ suf) = suf.
Proof.
  intros Hs HP. rewrite !filter_app.
  assert (filter P [g] = []) as ->.
  { rewrite filter_cons, decide_False; [done|]. rewrite HP. apply (irreflexivity newer). }
  assert (filter P pre = []) as ->.
  { apply elem_of_nil_inv. intros h [Hh Hin]%list_elem_of_filter. apply HP in Hh.
    apply StronglySorted_app in Hs as (Hpre & _ & _).
    apply (irreflexivity newer g). etrans; [exact Hh|].
    apply Hpre; [done|]. apply elem_of_app. left. by left. }
  cbn [app]. apply StronglySorted_app in Hs as (_ & _ & Hs). cbn in Hs.
  apply StronglySorted_inv in Hs as [_ Hall]. clear -HP Hall.
  induction suf as [|h suf IH]; [done|]. apply Forall_cons in Hall as [Hh Hall].
  rewrite filter_cons, decide_True by (by apply HP). f_equal. by apply IH.
Qed.

Definition with_cursor (x : string) (q : Query) : Query :=
  MkQuery (query_StatusGroup q) (query_Client q) (query_Operation q) (query_Target q) x
    (query_Limit q).

(** The grants a normalized query selects. *)
Definition listing (grants : list Grant) (q : Query) : list Grant :=
  sort_newest (filter (λ g, grantMatchesQuery g q = true) grants).

(** A query with another cursor normalizes the same way. *)
Lemma normalize_with_cursor (q q0 : Query) (c c0 : GrantCursor) (x : string) :
  normalize q = Ok (q0, c0) → decodeGrantCursor unmarshal_cursor x = Ok c →
  (is_empty (cursor_ID c) = false → cursor_QueryHash c = queryFingerprint query_digest q0) →
  normalize (with_cursor x q) = Ok (with_cursor x q0, c).
Proof.
  intros Hq Hc Hh. unfold normalizeGrantQuery in *. cbn zeta in *. cbn [query_StatusGroup
    query_Limit query_Target query_Client query_Operation query_Cursor with_cursor] in *.
  rewrite !seq_ok, !refuse_ok, bind_ok_iff in Hq. destruct Hq as (H1 & H2 & t & Ht & Hq).
  rewrite bind_ok_iff in Hq. destruct Hq as (c1 & _ & Hq).
  apply seq_ok in Hq as [_ [= <- <-]].
  rewrite H1, H2, Ht. cbn [refuse mbind result_bind]. rewrite Hc. cbn [mbind result_bind].
  destruct (is_empty (cursor_ID c)) eqn:E; cbn [negb andb]; [done|].
  unfold queryFingerprint in *. cbn [query_StatusGroup query_Limit query_Target query_Client
    query_Operation] in Hh. rewrite (Hh eq_refl), String.eqb_refl. done.
Qed.

(** A page that starts at the boundary between [pre] and [suf]. *)
Lemma page_at (grants pre suf : list Grant) (q : Query) (c : GrantCursor) (x : string) :
  filter (λ g, grantBeforeCursor g c = true) (listing grants q) = suf →
  NoDup (grant_ID <$> grants) → 1 <= query_Limit q →
  let page := build grants (with_cursor x q) c in
  result_Grants page = take (Z.to_nat (query_Limit q)) suf
  ∧ result_HasMore page = (query_Limit q <? Z.of_nat (length suf))
  ∧ (query_Limit q < Z.of_nat (length suf) →
     ∃ g, take (Z.to_nat (query_Limit q)) suf = take (pred (Z.to_nat (query_Limit q))) suf ++ [g]
       ∧ g ∈ suf ∧ result_NextCursor page = encodeGrantCursor marshal_cursor (cursor_at q g)).
Proof.
  intros Hsuf Hnd Hl. unfold buildGrantPage. cbn [query_Limit with_cursor].
  assert (sort_newest (filter (λ g, grantMatchesQuery g (with_cursor x q)
            && grantBeforeCursor g c = true) grants) = suf) as ->.
  { rewrite <- Hsuf. unfold listing.
    rewrite <- (sort_newest_filter (λ g, grantBeforeCursor g c = true)).
    - f_equal. rewrite list_filter_filter. apply list_filter_iff. intros g.
      change (grantMatchesQuery g (with_cursor x q)) with (grantMatchesQuery g q).
      rewrite andb_true_iff. tauto.
    - eapply sublist_NoDup; [exact Hnd|]. apply fmap_sublist, sublist_filter. }
  cbn [result_Grants result_HasMore result_NextCursor].
  destruct (Z.ltb_spec (query_Limit q) (Z.of_nat (length suf))) as [Hlt|Hge].
  - split; [done|]. split; [done|]. intros _. set (n := Z.to_nat (query_Limit q)).
    destruct (lookup_lt_is_Some_2 suf (pred n)) as [g Hg]; [lia|].
    assert (take n suf = take (pred n) suf ++ [g]) as Hsplit.
    { rewrite <- (Nat.succ_pred n) at 1 by lia. by apply take_S_r. }
    exists g. split; [done|]. split; [by apply list_elem_of_lookup_2 in Hg|].
    by rewrite Hsplit, last_snoc.
  - rewrite take_ge by lia. split; [done|]. split; [done|]. lia.
Qed.

Lemma read_grants_from (fuel : nat) (grants pre suf : list Grant) (q q0 : Query)
    (c0 : GrantCursor) (x : string) :
  normalize q = Ok (q0, c0) → cursors_survive grants q0 →
  NoDup (grant_ID <$> grants) → (∀ g, g ∈ grants → grant_ID g ≠ EmptyString) →
  listing grants q0 = pre ++ suf →
  (pre = [] ∧ x = EmptyString
   ∨ ∃ earlier g, pre = earlier ++ [g] ∧ g ∈ grants
                  ∧ x = encodeGrantCursor marshal_cursor (cursor_at q0 g)) →
  (length suf < fuel)%nat →
  read_grants fuel grants (with_cursor x q) = Ok suf.
Proof.
  intros Hq Hsurv Hnd Hids. revert pre suf x.
  assert (1 <= query_Limit q0) as Hlim.
  { unfold normalizeGrantQuery in Hq. cbn zeta in Hq.
    rewrite !seq_ok, !refuse_ok, bind_ok_iff in Hq. destruct Hq as (_ & H2 & t & _ & Hq).
    rewrite bind_ok_iff in Hq. destruct Hq as (c1 & _ & Hq). apply seq_ok in Hq as [_ [= <- _]].
    apply orb_false_iff in H2 as [H2 _]. by apply Z.ltb_ge in H2. }
  assert (StronglySorted newer (listing grants q0)) as Hsorted.
  { apply sort_newest_sorted. eapply sublist_NoDup; [exact Hnd|].
    apply fmap_sublist, sublist_filter. }
  induction fuel as [|fuel IH]; intros pre suf x Hall Hpos Hf; [lia|].
  assert (∃ c, normalize (with_cursor x q) = Ok (with_cursor x q0, c)
    ∧ filter (λ g, grantBeforeCursor g c = true) (listing grants q0) = suf) as (c & Hn & Hsuf).
  { destruct Hpos as [[-> ->]|(earlier & g & -> & Hg & ->)].
    - exists zero_cursor. split; [by apply (normalize_with_cursor q q0 _ c0)|].
      rewrite Hall. cbn [app]. clear. induction suf as [|h suf IH]; [done|].
      by rewrite filter_cons, decide_True, IH.
    - exists (cursor_at q0 g). split; [apply (normalize_with_cursor q q0 _ c0); auto|].
      rewrite Hall, <- (assoc_L (++)). rewrite Hall, <- (assoc_L (++)) in Hsorted.
      apply sorted_after; [done|]. intros h. apply grantBeforeCursor_newer. by apply Hids. }
  cbn [read_grants]. rewrite Hn. cbn [mbind result_bind].
  destruct (page_at grants pre suf q0 c x Hsuf Hnd Hlim) as (-> & -> & Hmore).
  destruct (Z.ltb_spec (query_Limit q0) (Z.of_nat (length suf))) as [Hlt|Hge].
  2:{ by rewrite take_ge by lia. }
  destruct (Hmore Hlt) as (g & Hsplit & Hg & ->). set (n := Z.to_nat (query_Limit q0)) in *.
  change (MkQuery _ _ _ _ ?y _) with (with_cursor y q).
  rewrite (IH (pre ++ take n suf) (drop n suf)).
  - cbn [mbind result_bind]. by rewrite take_drop.
  - by rewrite Hall, <- (assoc_L (++)), take_drop.
  - right. exists (pre ++ take (pred n) suf), g. split; [by rewrite Hsplit, (assoc_L (++))|].
    split; [|done]. assert (g ∈ listing grants q0) as Hin
      by (rewrite Hall; apply elem_of_app; by right).
    unfold listing in Hin. rewrite sort_newest_perm in Hin. by apply list_elem_of_filter in Hin as [_ Hin].
  - rewrite length_drop. lia.
Qed.

(** Following [NextCursor] while [HasMore] is set lists every grant the query matches
    exactly once, newest first, whatever the page size, provided the cursor texts decode to
    what was encoded. *)
Theorem grant_pages_complete (grants : list Grant) (q q0 : Query) (c0 : GrantCursor) :
  normalize q = Ok (q0, c0) → query_Cursor q = EmptyString → cursors_survive grants q0 →
  NoDup (grant_ID <$> grants) → (∀ g, g ∈ grants → grant_ID g ≠ EmptyString) →
  ∃ all, read_grants (S (length grants)) grants q = Ok all
    ∧ all ≡ₚ filter (λ g, grantMatchesQuery g q0 = true) grants
    ∧ StronglySorted newer all.
Proof.
  intros Hq Hc Hsurv Hnd Hids. exists (listing grants q0). split; [|split].
  - assert (q = with_cursor EmptyString q) as -> by (destruct q; cbn in *; by subst).
    apply (read_grants_from _ _ [] _ _ q0 c0); try done; [by left|].
    unfold listing. rewrite (Permutation_length (sort_newest_perm _)).
    pose proof (length_filter (λ g, grantMatchesQuery g q0 = true) grants). lia.
  - apply sort_newest_perm.
  - apply sort_newest_sorted. eapply sublist_NoDup; [exact Hnd|].
    apply fmap_sublist, sublist_filter.
Qed.
End listing.

(** A cursor text that carries the identifier, for stores whose grants were all
    created at one instant. *)
Definition sample_marshal (c : GrantCursor) : list Z := string_bytes (cursor_ID c).
Definition sample_unmarshal (created : Time) (bytes : list Z) : option GrantCursor :=
  Some (MkGrantCursor created (bytes_string bytes) "fingerprint").
Definition sample_query : Query := MkQuery StatusGroupAll EmptyString EmptyString None EmptyString 1.

Definition dated_grant (id : string) (created : Time) : Grant :=
  newGrant sample_request id created.

Definition sample_grants : list Grant := [dated_grant "a" 5; dated_grant "c" 5; dated_grant "b" 5].

Lemma grant_pages_complete_witness :
  ∃ all, read_grants sample_marshal (sample_unmarshal 5) (λ _, "fingerprint") 4 sample_grants
           sample_query = Ok all
    ∧ all ≡ₚ filter (λ g, grantMatchesQuery g sample_query = true) sample_grants
    ∧ StronglySorted newer all.
Proof.
  apply (grant_pages_complete sample_marshal (sample_unmarshal 5) (λ _, "fingerprint")
    sample_grants sample_query sample_query zero_cursor); try reflexivity.
  - intros g Hg. unfold sample_grants in Hg. rewrite !elem_of_cons in Hg.
    destruct Hg as [->|[->|[->|Hg]]]; [vm_compute; reflexivity..|by apply not_elem_of_nil in Hg].
  - vm_compute. repeat constructor; set_solver.
  - intros g Hg. unfold sample_grants in Hg. rewrite !elem_of_cons in Hg.
    destruct Hg as [->|[->|[->|Hg]]]; [done..|by apply not_elem_of_nil in Hg].
Defined.

Example sample_listing :
  grant_ID <$> sort_newest sample_grants = ["c"; "b"; "a"].
Proof. vm_compute. reflexivity. Qed.
