(* ===== verification/StateTables.v ===== *)
(** * The grant tables: [internal/storage/state/grants.go] and [plans.go]

    The records the grant store exchanges with the database, the rows of the
    tables (internal/dbsql/models.go), the statements of queries.sql that read
    and change them, and the transaction [saveGrantSnapshot].

    A table is a finite map from its primary key to rows that carry that key.
    A time column holds the instant its fixed-width text denotes, so
    [formatTime] and [parseTime] are the identity here and a row's times always
    parse; the columns of the named string types (status, state, kind, failure
    code) keep the type.  What SQLite itself may refuse, a [CHECK], a unique
    index, a foreign key or an I/O error, is the argument [admits], and how a
    transaction begins and ends are the arguments [begin_tx] and [commit_tx]. *)

From S2P Require Export GrantsStore Cursor.

Local Open Scope Z_scope.

(** ** operation/digest *)

Definition is_hex_digit (c : Ascii.ascii) : bool :=
  let b := byte_of c in
  ((48 <=? b) && (b <=? 57)) || ((97 <=? b) && (b <=? 102)) || ((65 <=? b) && (b <=? 70)).

(** [plandigest.Valid]: the hexadecimal text of a SHA-256 sum. *)
Definition plandigest_Valid (value : string) : bool :=
  (len value =? 64) && forallb is_hex_digit (list_of_string value).

(** ** Records *)

(** [state.GrantRecord]; a nil [*int] is [None]. *)
Record GrantRecord : Type := MkGrantRecord {
  gr_ID : string;
  gr_Client : string;
  gr_ClientRequestID : string;
  gr_Operation : string;
  gr_TargetJSON : string;
  gr_AttrsJSON : string;
  gr_MetadataJSON : string;
  gr_PlanDigest : string;
  gr_Reason : string;
  gr_Status : Status;
  gr_Revision : Z;
  gr_CreatedAt : Time;
  gr_PendingExpiresAt : Time;
  gr_ExpiresAt : Time;
  gr_Duration : Duration;
  gr_RequestedDuration : Duration;
  gr_PendingTimeout : Duration;
  gr_DecidedAt : Time;
  gr_DecidedBy : string;
  gr_DecidedOnBehalfOf : string;
  gr_FailureCode : Code;
  gr_FailureReference : string;
  gr_FailedAt : Time;
  gr_UsedAt : Time;
  gr_UsedCount : Z;
  gr_UseRevision : Z;
  gr_ReservedCount : Z;
  gr_ReservedAt : Time;
  gr_ReservationRetained : bool;
  gr_ReservationRevision : Z;
  gr_MaxUses : option Z;
  gr_RequestedMaxUses : option Z;
  gr_RequestedMaxUsesDefaulted : bool;
  gr_ExpiredFrom : Status
}.

(** [state.GrantUseRecord] *)
Record GrantUseRecord : Type := MkGrantUseRecord {
  ur_RequestID : string;
  ur_GrantID : string;
  ur_Operation : string;
  ur_State : UseState;
  ur_Revision : Z;
  ur_CreatedAt : Time;
  ur_UpdatedAt : Time;
  ur_SettledAt : Time
}.

(** [state.GrantLifecycleRecord] *)
Record GrantLifecycleRecord : Type := MkGrantLifecycleRecord {
  lr_Sequence : Z;
  lr_Cursor : string;
  lr_GrantID : string;
  lr_Kind : EventKind;
  lr_Revision : Z;
  lr_OccurredAt : Time;
  lr_PayloadJSON : string
}.

(** [state.GrantDecisionRecord] *)
Record GrantDecisionRecord : Type := MkGrantDecisionRecord {
  dr_Scope : string;
  dr_RequestID : string;
  dr_Action : string;
  dr_IdempotencyKey : string;
  dr_CommandHash : string;
  dr_ResultJSON : string;
  dr_PreviousJSON : string;
  dr_EventCursor : string;
  dr_CommittedAt : Time
}.

(** [state.GrantSnapshot] *)
Record GrantSnapshot : Type := MkGrantSnapshot {
  snap_Grants : list GrantRecord;
  snap_Uses : list GrantUseRecord;
  snap_Events : list GrantLifecycleRecord;
  snap_Decisions : list GrantDecisionRecord
}.

(** [state.PlanRecord], also [grants.ImmutablePlan]. *)
Record Plan : Type := MkPlan {
  plan_Digest : string;
  plan_SchemaName : string;
  plan_Canonical : string;
  plan_CreatedAt : Time
}.

(** [reflect.DeepEqual] *)
#[export] Instance GrantRecord_eq_dec : EqDecision GrantRecord.
Proof. solve_decision. Defined.
#[export] Instance GrantUseRecord_eq_dec : EqDecision GrantUseRecord.
Proof. solve_decision. Defined.
#[export] Instance GrantLifecycleRecord_eq_dec : EqDecision GrantLifecycleRecord.
Proof. solve_decision. Defined.
#[export] Instance GrantDecisionRecord_eq_dec : EqDecision GrantDecisionRecord.
Proof. solve_decision. Defined.
#[export] Instance GrantSnapshot_eq_dec : EqDecision GrantSnapshot.
Proof. solve_decision. Defined.

(** ** Rows *)

(** [dbsql.Grant]: optional columns are [NULL] where the record has a zero value. *)
Record GrantRow : Type := MkGrantRow {
  row_ID : string;
  row_Client : string;
  row_ClientRequestID : string;
  row_Operation : string;
  row_TargetJson : string;
  row_AttrsJson : string;
  row_MetadataJson : string;
  row_PlanDigest : option string;
  row_Reason : string;
  row_Status : Status;
  row_Revision : Z;
  row_CreatedAt : Time;
  row_PendingExpiresAt : Time;
  row_ExpiresAt : option Time;
  row_DurationNs : Z;
  row_RequestedDurationNs : Z;
  row_PendingTimeoutNs : Z;
  row_DecidedAt : option Time;
  row_DecidedBy : string;
  row_DecidedOnBehalfOf : string;
  row_FailureCode : Code;
  row_FailureReference : string;
  row_FailedAt : option Time;
  row_UsedAt : option Time;
  row_UsedCount : Z;
  row_UseRevision : Z;
  row_ReservedCount : Z;
  row_ReservedAt : option Time;
  row_ReservationRetained : Z;
  row_ReservationRevision : Z;
  row_MaxUses : option Z;
  row_RequestedMaxUses : option Z;
  row_RequestedMaxUsesDefaulted : Z;
  row_ExpiredFrom : option Status
}.

(** [dbsql.GrantUse] *)
Record UseRow : Type := MkUseRow {
  urow_RequestID : string;
  urow_GrantID : string;
  urow_Operation : string;
  urow_State : UseState;
  urow_Revision : Z;
  urow_CreatedAt : Time;
  urow_UpdatedAt : Time;
  urow_SettledAt : option Time
}.

(** [dbsql.LifecycleEvent] with subject kind [grant]; no other kind is written. *)
Record EventRow : Type := MkEventRow {
  erow_Sequence : Z;
  erow_Cursor : string;
  erow_SubjectID : string;
  erow_Kind : EventKind;
  erow_Revision : Z;
  erow_OccurredAt : Time;
  erow_PayloadJson : string
}.

(** [dbsql.DecisionRecord] *)
Record DecisionRow : Type := MkDecisionRow {
  drow_Scope : string;
  drow_RequestID : string;
  drow_Action : string;
  drow_IdempotencyKey : string;
  drow_CommandHash : string;
  drow_ResultJson : string;
  drow_PreviousJson : string;
  drow_EventCursor : string;
  drow_CommittedAt : Time
}.

(** [agentv1.State] of an operation. *)
Inductive State : Type :=
| StatePending
| StateApproved
| StateExecuting
| StateSucceeded
| StateFailed
| StateDenied
| StateExpired
| StateCanceled
| StateOther (text : string).

#[export] Instance State_eq_dec : EqDecision State.
Proof. solve_decision. Defined.

(** [dbsql.Operation] *)
Record OperationRow : Type := MkOperationRow {
  orow_ID : string;
  orow_ApiVersion : string;
  orow_Broker : string;
  orow_ClientID : string;
  orow_IdempotencyKey : string;
  orow_Operation : string;
  orow_TargetJson : string;
  orow_ArgumentsJson : string;
  orow_Reason : string;
  orow_State : State;
  orow_Revision : Z;
  orow_CreatedAt : Time;
  orow_UpdatedAt : Time;
  orow_TerminalAt : option Time;
  orow_ApprovalID : string;
  orow_PresentationJson : string;
  orow_ResultJson : option string;
  orow_ErrorJson : option string;
  orow_PlanDigest : option string
}.

(** ** Columns *)

Definition nullTime (value : Time) : option Time :=
  if time_is_zero value then None else Some value.
Definition parseNullTime (value : option Time) : Time := default 0 value.

Definition nullableString (value : string) : option string :=
  if is_empty value then None else Some value.
Definition text_of (value : option string) : string := default EmptyString value.

(** [nullableString(record.ExpiredFrom)]: the zero status is the empty text. *)
Definition nullableStatus (value : Status) : option Status :=
  if bool_decide (value = no_status) then None else Some value.
Definition status_of (value : option Status) : Status := default no_status value.

Definition intPointer (value : option Z) : option Z := value.
Definition nullableInt (value : option Z) : option Z := value.
Definition boolInt (value : bool) : Z := if value then 1 else 0.

Definition insertGrantParams (r : GrantRecord) : GrantRow :=
  MkGrantRow (gr_ID r) (gr_Client r) (gr_ClientRequestID r) (gr_Operation r) (gr_TargetJSON r)
    (gr_AttrsJSON r) (gr_MetadataJSON r) (nullableString (gr_PlanDigest r)) (gr_Reason r)
    (gr_Status r) (gr_Revision r) (gr_CreatedAt r) (gr_PendingExpiresAt r)
    (nullTime (gr_ExpiresAt r)) (gr_Duration r) (gr_RequestedDuration r) (gr_PendingTimeout r)
    (nullTime (gr_DecidedAt r)) (gr_DecidedBy r) (gr_DecidedOnBehalfOf r) (gr_FailureCode r)
    (gr_FailureReference r) (nullTime (gr_FailedAt r)) (nullTime (gr_UsedAt r))
    (gr_UsedCount r) (gr_UseRevision r) (gr_ReservedCount r) (nullTime (gr_ReservedAt r))
    (boolInt (gr_ReservationRetained r)) (gr_ReservationRevision r) (nullableInt (gr_MaxUses r))
    (nullableInt (gr_RequestedMaxUses r)) (boolInt (gr_RequestedMaxUsesDefaulted r))
    (nullableStatus (gr_ExpiredFrom r)).

Definition decodeGrantRecord (r : GrantRow) : GrantRecord :=
  MkGrantRecord (row_ID r) (row_Client r) (row_ClientRequestID r) (row_Operation r)
    (row_TargetJson r) (row_AttrsJson r) (row_MetadataJson r) (text_of (row_PlanDigest r))
    (row_Reason r) (row_Status r) (row_Revision r) (row_CreatedAt r) (row_PendingExpiresAt r)
    (parseNullTime (row_ExpiresAt r)) (row_DurationNs r) (row_RequestedDurationNs r)
    (row_PendingTimeoutNs r) (parseNullTime (row_DecidedAt r)) (row_DecidedBy r)
    (row_DecidedOnBehalfOf r) (row_FailureCode r) (row_FailureReference r)
    (parseNullTime (row_FailedAt r)) (parseNullTime (row_UsedAt r)) (row_UsedCount r)
    (row_UseRevision r) (row_ReservedCount r) (parseNullTime (row_ReservedAt r))
    (row_ReservationRetained r =? 1) (row_ReservationRevision r) (intPointer (row_MaxUses r))
    (intPointer (row_RequestedMaxUses r)) (row_RequestedMaxUsesDefaulted r =? 1)
    (status_of (row_ExpiredFrom r)).

Definition insertGrantUseParams (r : GrantUseRecord) : UseRow :=
  MkUseRow (ur_RequestID r) (ur_GrantID r) (ur_Operation r) (ur_State r) (ur_Revision r)
    (ur_CreatedAt r) (ur_UpdatedAt r) (nullTime (ur_SettledAt r)).

(** The body of the loop of [loadGrantUses]. *)
Definition decodeGrantUse (r : UseRow) : GrantUseRecord :=
  MkGrantUseRecord (urow_RequestID r) (urow_GrantID r) (urow_Operation r) (urow_State r)
    (urow_Revision r) (urow_CreatedAt r) (urow_UpdatedAt r) (parseNullTime (urow_SettledAt r)).

Definition lifecycleSequenceInt64 (sequence : Z) : result error Z :=
  refuse (max_int64 <? sequence) (errorf "grant lifecycle sequence overflow" []) ;;;
  Ok sequence.

Definition insertEventParams (sequence : Z) (r : GrantLifecycleRecord) : EventRow :=
  MkEventRow sequence (lr_Cursor r) (lr_GrantID r) (lr_Kind r) (lr_Revision r)
    (lr_OccurredAt r) (lr_PayloadJSON r).

(** The body of the loop of [loadGrantEvents]. *)
Definition decodeLifecycleEvent (r : EventRow) : result error GrantLifecycleRecord :=
  refuse (erow_Sequence r <? 1) (errorf "invalid grant lifecycle event" []) ;;;
  Ok (MkGrantLifecycleRecord (erow_Sequence r) (erow_Cursor r) (erow_SubjectID r) (erow_Kind r)
        (erow_Revision r) (erow_OccurredAt r) (erow_PayloadJson r)).

Definition insertDecisionParams (r : GrantDecisionRecord) : DecisionRow :=
  MkDecisionRow (dr_Scope r) (dr_RequestID r) (dr_Action r) (dr_IdempotencyKey r)
    (dr_CommandHash r) (dr_ResultJSON r) (dr_PreviousJSON r) (dr_EventCursor r)
    (dr_CommittedAt r).

(** The body of the loop of [loadGrantDecisions]. *)
Definition decodeDecision (r : DecisionRow) : GrantDecisionRecord :=
  MkGrantDecisionRecord (drow_Scope r) (drow_RequestID r) (drow_Action r)
    (drow_IdempotencyKey r) (drow_CommandHash r) (drow_ResultJson r) (drow_PreviousJson r)
    (drow_EventCursor r) (drow_CommittedAt r).

(** ** Tables *)

Section table.
Context {K V : Type} `{Countable K} (key : V → K).

Record Table : Type := MkTable {
  rows : gmap K V;
  rows_keyed : map_Forall (λ k v, key v = k) rows
}.

Program Definition empty_table : Table := MkTable ∅ _.
Next Obligation. apply map_Forall_empty. Qed.

(** Write a row at its own key. *)
Program Definition put_row (v : V) (t : Table) : Table := MkTable (<[key v := v]> (rows t)) _.
Next Obligation. intros v t. by apply map_Forall_insert_2, rows_keyed. Qed.

(** [DELETE] of the rows that fail a test. *)
Program Definition keep_rows (test : V → bool) (t : Table) : Table :=
  MkTable (filter (λ kv, test kv.2 = true) (rows t)) _.
Next Obligation.
  intros test t k v [Hv _]%map_lookup_filter_Some. by apply (rows_keyed t).
Qed.

(** [SELECT * ... ORDER BY] *)
Definition select_all (before : V → V → bool) (t : Table) : list V :=
  @merge_sort V (λ a b, before a b = true) (λ a b, bool_eq_dec (before a b) true)
    (map_to_list (rows t)).*2.
End table.

Arguments rows {K V _ _ key} t.
Arguments rows_keyed {K V _ _ key} t.
Arguments empty_table {K V _ _ key}.
Arguments put_row {K V _ _ key} v t.
Arguments keep_rows {K V _ _ key} test t.
Arguments select_all {K V _ _ key} before t.

(** The tables of the state database, and the number of transactions begun. *)
Record Database : Type := MkDatabase {
  db_grants : Table row_ID;
  db_uses : Table urow_RequestID;
  db_events : Table erow_Sequence;
  db_decisions : Table drow_Scope;
  db_plans : Table plan_Digest;
  db_operations : Table orow_ID;
  db_transactions : nat
}.

Definition begun (d : Database) : Database :=
  MkDatabase (db_grants d) (db_uses d) (db_events d) (db_decisions d) (db_plans d)
    (db_operations d) (S (db_transactions d)).

(** A table of the database: how it is read and replaced. *)
Record TableLens {K V : Type} `{Countable K} (key : V → K) : Type := MkLens {
  lens_get : Database → Table key;
  lens_set : Table key → Database → Database;
  lens_get_set t d : lens_get (lens_set t d) = t;
  lens_set_get d : lens_set (lens_get d) d = d;
  lens_set_set t u d : lens_set t (lens_set u d) = lens_set t d
}.

Arguments lens_get {K V _ _ key} t d : rename.
Arguments lens_set {K V _ _ key} t rows d : rename.

Program Definition grants_table : TableLens row_ID := MkLens _ _ _ _ row_ID db_grants
  (λ t d, MkDatabase t (db_uses d) (db_events d) (db_decisions d) (db_plans d)
            (db_operations d) (db_transactions d)) _ _ _.
Solve All Obligations with by intros; try by destruct d.
Program Definition uses_table : TableLens urow_RequestID := MkLens _ _ _ _ urow_RequestID db_uses
  (λ t d, MkDatabase (db_grants d) t (db_events d) (db_decisions d) (db_plans d)
            (db_operations d) (db_transactions d)) _ _ _.
Solve All Obligations with by intros; try by destruct d.
Program Definition events_table : TableLens erow_Sequence := MkLens _ _ _ _ erow_Sequence db_events
  (λ t d, MkDatabase (db_grants d) (db_uses d) t (db_decisions d) (db_plans d)
            (db_operations d) (db_transactions d)) _ _ _.
Solve All Obligations with by intros; try by destruct d.
Program Definition decisions_table : TableLens drow_Scope := MkLens _ _ _ _ drow_Scope db_decisions
  (λ t d, MkDatabase (db_grants d) (db_uses d) (db_events d) t (db_plans d)
            (db_operations d) (db_transactions d)) _ _ _.
Solve All Obligations with by intros; try by destruct d.
Program Definition plans_table : TableLens plan_Digest := MkLens _ _ _ _ plan_Digest db_plans
  (λ t d, MkDatabase (db_grants d) (db_uses d) (db_events d) (db_decisions d) t
            (db_operations d) (db_transactions d)) _ _ _.
Solve All Obligations with by intros; try by destruct d.
Program Definition operations_table : TableLens orow_ID := MkLens _ _ _ _ orow_ID db_operations
  (λ t d, MkDatabase (db_grants d) (db_uses d) (db_events d) (db_decisions d) (db_plans d)
            t (db_transactions d)) _ _ _.
Solve All Obligations with by intros; try by destruct d.

(** ** Snapshots *)

(** [ORDER BY created_at, id] and the like: a time, then a text. *)
Definition time_text_before (t u : Time) (a b : string) : bool :=
  (t <? u) || ((t =? u) && negb (string_ltb b a)).

Definition ListGrants (d : Database) : list GrantRow :=
  select_all (λ a b, time_text_before (row_CreatedAt a) (row_CreatedAt b) (row_ID a) (row_ID b))
    (db_grants d).
Definition ListGrantUses (d : Database) : list UseRow :=
  select_all (λ a b, time_text_before (urow_CreatedAt a) (urow_CreatedAt b)
                       (urow_RequestID a) (urow_RequestID b)) (db_uses d).
Definition ListGrantLifecycleEvents (d : Database) : list EventRow :=
  select_all (λ a b, erow_Sequence a <=? erow_Sequence b) (db_events d).
Definition ListDecisionRecords (d : Database) : list DecisionRow :=
  select_all (λ a b, time_text_before (drow_CommittedAt a) (drow_CommittedAt b)
                       (drow_Scope a) (drow_Scope b)) (db_decisions d).

(** [loadGrantSnapshot] *)
Definition loadGrantSnapshot (d : Database) : result error GrantSnapshot :=
  events ← collect decodeLifecycleEvent (ListGrantLifecycleEvents d);
  Ok (MkGrantSnapshot (decodeGrantRecord <$> ListGrants d) (decodeGrantUse <$> ListGrantUses d)
        events (decodeDecision <$> ListDecisionRecords d)).

(** ** Validation of a transition *)

Definition indexRecords {K Record_ : Type} `{Countable K} (key : Record_ → K)
    (records : list Record_) : gmap K Record_ :=
  foldl (λ m r, <[key r := r]> m) ∅ records.

Definition validateRecordRetention {T : Type} (key : T → string) (message : string)
    (before after : list T) : result error unit :=
  for_each (λ r, refuse (negb (bool_decide (key r ∈ key <$> after))) (errorf message [])) before.

(** A record whose key is already in use must be the record of that key. *)
Definition unchanged_records {K T : Type} `{Countable K, EqDecision T} (key : T → K)
    (message : string) (before after : list T) : result error unit :=
  for_each (λ r, refuse (match indexRecords key before !! key r with
                         | Some previous => negb (bool_decide (previous = r))
                         | None => false
                         end) (errorf message [])) after.

Definition validateEventImmutability (before after : list GrantLifecycleRecord)
  : result error unit :=
  unchanged_records lr_Sequence "grant lifecycle event is immutable" before after.

Definition validateDecisionRetention (before after : list GrantDecisionRecord)
  : result error unit :=
  unchanged_records dr_Scope "grant decision record is immutable" before after ;;;
  validateRecordRetention dr_Scope "grant decision record deletion is unsupported" before after.

Definition validateGrantSnapshotTransition (before after : GrantSnapshot) : result error unit :=
  validateRecordRetention gr_ID "grant deletion is unsupported"
    (snap_Grants before) (snap_Grants after) ;;;
  validateRecordRetention ur_RequestID "grant use deletion is unsupported"
    (snap_Uses before) (snap_Uses after) ;;;
  validateEventImmutability (snap_Events before) (snap_Events after) ;;;
  validateDecisionRetention (snap_Decisions before) (snap_Decisions after).

Definition ErrGrantStateConflict : error := ErrorNew "grant state revision conflict".

(** ** Plans *)

Definition validatePlanContent (schemaName canonical : string) : result error unit :=
  refuse (is_blank schemaName || (128 <? len schemaName)) (errorf "plan schema is invalid" []) ;;;
  refuse (is_empty canonical || (Z.shiftl 1 20 <? len canonical))
    (errorf "canonical plan is invalid" []) ;;;
  refuse (negb (String.eqb (trim_space canonical) canonical))
    (errorf "canonical plan has surrounding whitespace" []).

Definition verifyStoredPlan (stored plan : Plan) : result error unit :=
  refuse (negb (String.eqb (plan_SchemaName stored) (plan_SchemaName plan))
          || negb (String.eqb (plan_Canonical stored) (plan_Canonical plan)))
    (errorf "plan digest collision" []) ;;;
  refuse (negb (plan_CreatedAt stored =? plan_CreatedAt plan))
    (errorf "plan creation time collision" []).

(** ** Statements *)

Inductive Statement : Type :=
| PutGrantRow (row : GrantRow)
| PutUseRow (row : UseRow)
| PutEventRow (row : EventRow)
| PutDecisionRow (row : DecisionRow)
| PutPlanRow (row : Plan)
| PutOperationRow (row : OperationRow)
| DeleteOperationsBefore (cutoff : Time)
| DeleteEventsBefore (sequence : Z).

(** How a commit ends: the changes are durable, they are not, or they are but
    the caller is told of an error. *)
Inductive CommitOutcome : Type :=
| Committed
| Aborted (cause : error)
| Unacknowledged (cause : error).

Definition sql_constraint : error := ErrorExternal "constraint failed".
(** [sql.ErrNoRows], which is also [state.ErrNotFound]. *)
Definition sql_no_rows : error := ErrorNew "sql: no rows in result set".

Section database.
Context (admits : Database → Statement → result error unit)
  (begin_tx : nat → result error unit) (commit_tx : nat → CommitOutcome)
  (plandigest_Digest : string → string).

(** [INSERT]: the primary key must be free. *)
Definition insert_row {K V} `{Countable K} {key : V → K} (lens : TableLens key)
    (statement : V → Statement) (row : V) (d : Database) : result error Database :=
  match rows (lens_get lens d) !! key row with
  | Some _ => Err sql_constraint
  | None => admits d (statement row) ;;; Ok (lens_set lens (put_row row (lens_get lens d)) d)
  end.

(** [UPDATE ... WHERE key = ? AND revision = ?]: the number of rows changed. *)
Definition update_row {K V} `{Countable K} {key : V → K} (lens : TableLens key)
    (statement : V → Statement) (revision : V → Z) (row : V) (previous : Z) (d : Database)
  : result error (Z * Database) :=
  match rows (lens_get lens d) !! key row with
  | Some old =>
    if revision old =? previous then
      admits d (statement row) ;;; Ok (1, lens_set lens (put_row row (lens_get lens d)) d)
    else Ok (0, d)
  | None => Ok (0, d)
  end.

Definition InsertGrant (row : GrantRow) : Database → result error Database :=
  insert_row grants_table PutGrantRow row.
Definition UpdateGrant (row : GrantRow) (previous : Z) : Database → result error (Z * Database) :=
  update_row grants_table PutGrantRow row_Revision row previous.
Definition InsertGrantUse (row : UseRow) : Database → result error Database :=
  insert_row uses_table PutUseRow row.
Definition UpdateGrantUse (row : UseRow) (previous : Z) : Database → result error (Z * Database) :=
  update_row uses_table PutUseRow urow_Revision row previous.
Definition InsertGrantLifecycleEvent (row : EventRow) : Database → result error Database :=
  insert_row events_table PutEventRow row.
Definition InsertDecisionRecord (row : DecisionRow) : Database → result error Database :=
  insert_row decisions_table PutDecisionRow row.

Definition DeleteGrantLifecycleEventsBefore (sequence : Z) (d : Database)
  : result error Database :=
  admits d (DeleteEventsBefore sequence) ;;;
  Ok (lens_set events_table
        (keep_rows (λ r, sequence <=? erow_Sequence r) (lens_get events_table d)) d).

(** [INSERT ... ON CONFLICT(digest) DO NOTHING] *)
Definition PutPlan (row : Plan) (d : Database) : result error Database :=
  match rows (db_plans d) !! plan_Digest row with
  | Some _ => Ok d
  | None => admits d (PutPlanRow row) ;;;
            Ok (lens_set plans_table (put_row row (db_plans d)) d)
  end.

Definition GetPlan (digest : string) (d : Database) : result error Plan :=
  option_ok (rows (db_plans d) !! digest) sql_no_rows.

(** ** Persisting a mutation *)

Definition persistRecords {T : Type} (persist : T → Database → result error Database)
  : list T → Database → result error Database :=
  fix go (records : list T) (d : Database) :=
    match records with
    | [] => Ok d
    | r :: rest => d ← persist r d; go rest d
    end.

Definition persistIndexedRecords {K T} `{Countable K} (key : T → K)
    (persist : gmap K T → T → Database → result error Database) (before after : list T)
  : Database → result error Database :=
  let old := indexRecords key before in persistRecords (persist old) after.

Definition persistGrant (old : gmap string GrantRecord) (r : GrantRecord) (d : Database)
  : result error Database :=
  match old !! gr_ID r with
  | None => InsertGrant (insertGrantParams r) d
  | Some previous =>
    if bool_decide (previous = r) then Ok d
    else
      '(updated, d) ← UpdateGrant (insertGrantParams r) (gr_Revision previous) d;
      refuse (negb (updated =? 1)) ErrGrantStateConflict ;;; Ok d
  end.

Definition persistGrants (before after : list GrantRecord) : Database → result error Database :=
  persistIndexedRecords gr_ID persistGrant before after.

Definition persistGrantUse (old : gmap string GrantUseRecord) (r : GrantUseRecord) (d : Database)
  : result error Database :=
  match old !! ur_RequestID r with
  | None => InsertGrantUse (insertGrantUseParams r) d
  | Some previous =>
    if bool_decide (previous = r) then Ok d
    else
      '(updated, d) ← UpdateGrantUse (insertGrantUseParams r) (ur_Revision previous) d;
      refuse (negb (updated =? 1)) ErrGrantStateConflict ;;; Ok d
  end.

Definition persistGrantUses (before after : list GrantUseRecord)
  : Database → result error Database :=
  persistIndexedRecords ur_RequestID persistGrantUse before after.

Definition pruneGrantEvents (before after : list GrantLifecycleRecord) (d : Database)
  : result error Database :=
  match after with
  | [] => Ok d
  | first :: _ =>
    if match before with b :: _ => lr_Sequence first <=? lr_Sequence b | [] => false end
    then Ok d
    else
      sequence ← lifecycleSequenceInt64 (lr_Sequence first);
      DeleteGrantLifecycleEventsBefore sequence d
  end.

Definition insertGrantEvent (r : GrantLifecycleRecord) (d : Database) : result error Database :=
  sequence ← lifecycleSequenceInt64 (lr_Sequence r);
  InsertGrantLifecycleEvent (insertEventParams sequence r) d.

Definition persistGrantEvents (before after : list GrantLifecycleRecord) (d : Database)
  : result error Database :=
  d ← pruneGrantEvents before after d;
  persistRecords (λ r d, if bool_decide (lr_Sequence r ∈ lr_Sequence <$> before) then Ok d
                         else insertGrantEvent r d) after d.

Definition persistGrantDecisions (before after : list GrantDecisionRecord)
  : Database → result error Database :=
  persistRecords (λ r d, if bool_decide (dr_Scope r ∈ dr_Scope <$> before) then Ok d
                         else InsertDecisionRecord (insertDecisionParams r) d) after.

Definition persistGrantChanges (before after : GrantSnapshot) (d : Database)
  : result error Database :=
  validateGrantSnapshotTransition before after ;;;
  d ← persistGrants (snap_Grants before) (snap_Grants after) d;
  d ← persistGrantUses (snap_Uses before) (snap_Uses after) d;
  d ← persistGrantEvents (snap_Events before) (snap_Events after) d;
  persistGrantDecisions (snap_Decisions before) (snap_Decisions after) d.

Definition validatePlanRecord (plan : Plan) : result error unit :=
  validatePlanContent (plan_SchemaName plan) (plan_Canonical plan) ;;;
  refuse (negb (plandigest_Valid (plan_Digest plan))
          || negb (String.eqb (plan_Digest plan) (plandigest_Digest (plan_Canonical plan))))
    (errorf "immutable plan digest is invalid" []) ;;;
  refuse (time_is_zero (plan_CreatedAt plan))
    (errorf "immutable plan creation time is required" []).

Definition putPlanWithQueries (plan : Plan) (d : Database) : result error Database :=
  validatePlanRecord plan ;;;
  d ← PutPlan plan d;
  stored ← GetPlan (plan_Digest plan) d;
  verifyStoredPlan stored plan ;;;
  Ok d.

(** ** The transaction *)

(** What [saveGrantSnapshot] does between [BeginTx] and [Commit]. *)
Definition grant_transaction (before after : GrantSnapshot) (plan : option Plan) (d : Database)
  : result error Database :=
  current ← loadGrantSnapshot d;
  refuse (negb (bool_decide (current = before))) ErrGrantStateConflict ;;;
  d ← match plan with Some plan => putPlanWithQueries plan d | None => Ok d end;
  persistGrantChanges before after d.

(** [saveGrantSnapshot]; a transaction that fails is rolled back. *)
Definition saveGrantSnapshot (before after : GrantSnapshot) (plan : option Plan) (d : Database)
  : result error unit * Database :=
  match begin_tx (db_transactions d) with
  | Err e => (Err e, begun d)
  | Ok _ =>
    match grant_transaction before after plan d with
    | Err e => (Err e, begun d)
    | Ok d' =>
      match commit_tx (db_transactions d) with
      | Committed => (Ok tt, begun d')
      | Aborted e => (Err e, begun d)
      | Unacknowledged e => (Err e, begun d')
      end
    end
  end.

(** ** [Database.Plan] and [Database.PutPlan] *)

Definition Database_Plan (digest : string) (d : Database) : result error Plan :=
  refuse (negb (plandigest_Valid digest)) (errorf "plan digest is invalid" []) ;;;
  stored ← GetPlan digest d;
  refuse (negb (String.eqb (plandigest_Digest (plan_Canonical stored)) digest))
    (errorf "plan content digest mismatch" []) ;;;
  Ok stored.

(** The digest and the database, which keeps the row whatever follows. *)
Definition Database_PutPlan (schemaName canonical : string) (createdAt : Time) (d : Database)
  : result error string * Database :=
  match validatePlanContent schemaName canonical with
  | Err e => (Err e, d)
  | Ok _ =>
    let digest := plandigest_Digest canonical in
    match PutPlan (MkPlan digest schemaName canonical createdAt) d with
    | Err e => (Err e, d)
    | Ok d' =>
      (stored ← Database_Plan digest d';
       refuse (negb (String.eqb (plan_SchemaName stored) schemaName)
               || negb (String.eqb (plan_Canonical stored) canonical))
         (errorf "plan digest collision" []) ;;;
       Ok digest, d')
    end
  end.
End database.
