(* ===== verification/StateOperations.v ===== *)
(** * The operations table: [internal/storage/state/operations.go]

    The record of an operation, the statements of queries.sql over the table
    [operations], and the functions that run them.

    A statement outside a transaction is a transaction of its own, so it may
    fail with its changes kept, when only the acknowledgement is lost.  The
    unique index on the client and its idempotency key is part of the insert;
    the [CHECK] constraints are in the argument [admits]. *)

From S2P Require Export StateTables.

Local Open Scope Z_scope.

(** [OperationRecord]; a nil byte slice is the empty text. *)
Record OperationRecord : Type := MkOperationRecord {
  or_ID : string;
  or_APIVersion : string;
  or_Broker : string;
  or_ClientID : string;
  or_IdempotencyKey : string;
  or_Operation : string;
  or_TargetJSON : string;
  or_ArgumentsJSON : string;
  or_Reason : string;
  or_State : State;
  or_Revision : Z;
  or_CreatedAt : Time;
  or_UpdatedAt : Time;
  or_TerminalAt : option Time;
  or_ApprovalID : string;
  or_PresentationJSON : string;
  or_ResultJSON : string;
  or_ErrorJSON : string;
  or_PlanDigest : string
}.

(** [OperationListOptions]; an empty state selects every state. *)
Record OperationListOptions : Type := MkOperationListOptions {
  ol_ClientID : string;
  ol_IdempotencyKey : string;
  ol_State : option State;
  ol_Cursor : string;
  ol_Limit : Z
}.

Record OperationUsage : Type := MkOperationUsage {
  ou_ClientActive : Z;
  ou_ClientPending : Z;
  ou_GlobalActive : Z;
  ou_GlobalExecuting : Z
}.

Definition nullableBytes (value : string) : option string := nullableString value.
Definition bytesValue (value : option string) : string := default EmptyString value.
Definition stringValue (value : option string) : string := default EmptyString value.

(** [operationRecord] of a row; the times of a row parse. *)
Definition record_of_row (r : OperationRow) : OperationRecord :=
  MkOperationRecord (orow_ID r) (orow_ApiVersion r) (orow_Broker r) (orow_ClientID r)
    (orow_IdempotencyKey r) (orow_Operation r) (orow_TargetJson r) (orow_ArgumentsJson r)
    (orow_Reason r) (orow_State r) (orow_Revision r) (orow_CreatedAt r) (orow_UpdatedAt r)
    (orow_TerminalAt r) (orow_ApprovalID r) (orow_PresentationJson r)
    (bytesValue (orow_ResultJson r)) (bytesValue (orow_ErrorJson r))
    (stringValue (orow_PlanDigest r)).

(** The parameters of [insertOperation]. *)
Definition insertOperationParams (r : OperationRecord) : OperationRow :=
  MkOperationRow (or_ID r) (or_APIVersion r) (or_Broker r) (or_ClientID r) (or_IdempotencyKey r)
    (or_Operation r) (or_TargetJSON r) (or_ArgumentsJSON r) (or_Reason r) (or_State r)
    (or_Revision r) (or_CreatedAt r) (or_UpdatedAt r) (or_TerminalAt r) (or_ApprovalID r)
    (or_PresentationJSON r) (nullableBytes (or_ResultJSON r)) (nullableBytes (or_ErrorJSON r))
    (nullableString (or_PlanDigest r)).

(** The columns [UPDATE operations] sets; the others stay those of the row. *)
Definition updated_row (old : OperationRow) (r : OperationRecord) : OperationRow :=
  MkOperationRow (orow_ID old) (orow_ApiVersion old) (orow_Broker old) (orow_ClientID old)
    (orow_IdempotencyKey old) (orow_Operation old) (orow_TargetJson old) (orow_ArgumentsJson old)
    (orow_Reason old) (or_State r) (or_Revision r) (orow_CreatedAt old) (or_UpdatedAt r)
    (or_TerminalAt r) (or_ApprovalID r) (orow_PresentationJson old)
    (nullableBytes (or_ResultJSON r)) (nullableBytes (or_ErrorJSON r))
    (nullableString (or_PlanDigest r)).

(** The states of [NOT IN ('succeeded','failed','denied','expired','canceled')]. *)
Definition unfinished_state (s : State) : bool :=
  match s with
  | StateSucceeded | StateFailed | StateDenied | StateExpired | StateCanceled => false
  | _ => true
  end.

(** ** Queries *)

Definition operation_rows (d : Database) : list OperationRow := (map_to_list (rows (db_operations d))).*2.

Definition GetOperationByID (id : string) (d : Database) : result error OperationRow :=
  option_ok (rows (db_operations d) !! id) sql_no_rows.

Definition GetOperationForClient (id clientID : string) (d : Database) : result error OperationRow :=
  match rows (db_operations d) !! id with
  | Some r => if String.eqb (orow_ClientID r) clientID then Ok r else Err sql_no_rows
  | None => Err sql_no_rows
  end.

(** The unique index [(client_id, idempotency_key)]. *)
Definition same_key (clientID key : string) (r : OperationRow) : bool :=
  String.eqb (orow_ClientID r) clientID && String.eqb (orow_IdempotencyKey r) key.

Definition FindOperationByIdempotency (clientID key : string) (d : Database)
  : result error OperationRow :=
  option_ok (List.find (same_key clientID key) (operation_rows d)) sql_no_rows.

(** [ORDER BY created_at DESC, id DESC] *)
Definition newest_first (a b : OperationRow) : bool :=
  time_text_before (orow_CreatedAt b) (orow_CreatedAt a) (orow_ID b) (orow_ID a).

Definition ListOperationsForClient (o : OperationListOptions) (cursor : option Time) (d : Database)
  : list OperationRow :=
  take (Z.to_nat (ol_Limit o))
    (List.filter (λ r,
        String.eqb (orow_ClientID r) (ol_ClientID o)
        && (is_empty (ol_IdempotencyKey o) || String.eqb (orow_IdempotencyKey r) (ol_IdempotencyKey o))
        && match ol_State o with Some s => bool_decide (orow_State r = s) | None => true end
        && match cursor with
           | None => true
           | Some createdAt =>
             (orow_CreatedAt r <? createdAt)
             || ((orow_CreatedAt r =? createdAt) && string_ltb (orow_ID r) (ol_Cursor o))
           end)
      (select_all newest_first (db_operations d))).

Definition ListUnfinishedOperations (d : Database) : list OperationRow :=
  List.filter (λ r, unfinished_state (orow_State r))
    (select_all (λ a b, time_text_before (orow_CreatedAt a) (orow_CreatedAt b) (orow_ID a) (orow_ID b))
       (db_operations d)).

Definition count_rows (test : OperationRow → bool) (d : Database) : Z :=
  Z.of_nat (length (List.filter test (operation_rows d))).

Definition GetOperationUsage (clientID : string) (d : Database) : OperationUsage :=
  MkOperationUsage
    (count_rows (λ r, String.eqb (orow_ClientID r) clientID && unfinished_state (orow_State r)) d)
    (Z.of_nat (length (List.filter
       (λ g, String.eqb (row_Client g) clientID && bool_decide (row_Status g = StatusPending))
       (ListGrants d))))
    (count_rows (λ r, unfinished_state (orow_State r)) d)
    (count_rows (λ r, bool_decide (orow_State r = StateExecuting)) d).

(** ** Reading *)

(** [Database.operation]: an empty client selects by the identifier alone. *)
Definition Database_operation (id clientID : string) (d : Database) : result error OperationRecord :=
  record_of_row <$> (if is_empty clientID then GetOperationByID id d
                     else GetOperationForClient id clientID d).

Definition OperationByID (id : string) (d : Database) : result error OperationRecord :=
  Database_operation id EmptyString d.

Definition OperationForClient (id clientID : string) (d : Database) : result error OperationRecord :=
  Database_operation id clientID d.

Definition OperationByIdempotency (clientID key : string) (d : Database)
  : result error OperationRecord :=
  record_of_row <$> FindOperationByIdempotency clientID key d.

Definition OperationsForClient (o : OperationListOptions) (d : Database)
  : result error (list OperationRecord) :=
  cursor ← (if is_empty (ol_Cursor o) then Ok None
            else r ← OperationForClient (ol_Cursor o) (ol_ClientID o) d; Ok (Some (or_CreatedAt r)));
  Ok (record_of_row <$> ListOperationsForClient o cursor d).

Definition UnfinishedOperations (d : Database) : list OperationRecord :=
  record_of_row <$> ListUnfinishedOperations d.

Definition CountOperations (d : Database) : Z := Z.of_nat (size (rows (db_operations d))).

Section operations.
Context (admits : Database → Statement → result error unit)
  (begin_tx : nat → result error unit) (commit_tx : nat → CommitOutcome)
  (plandigest_Digest : string → string).

(** ** Writing *)

(** A transaction: its body yields a value and the changed database, or the value
    with which it is rolled back. *)
Definition in_transaction {A} (body : Database → result error (A * option Database)) (d : Database)
  : result error A * Database :=
  match begin_tx (db_transactions d) with
  | Err e => (Err e, begun d)
  | Ok _ =>
    match body d with
    | Err e => (Err e, begun d)
    | Ok (a, None) => (Ok a, begun d)
    | Ok (a, Some d') =>
      match commit_tx (db_transactions d) with
      | Committed => (Ok a, begun d')
      | Aborted e => (Err e, begun d)
      | Unacknowledged e => (Err e, begun d')
      end
    end
  end.

(** [INSERT INTO operations] *)
Definition insert_operation_row (row : OperationRow) (d : Database) : result error Database :=
  refuse (existsb (same_key (orow_ClientID row) (orow_IdempotencyKey row)) (operation_rows d))
    sql_constraint ;;;
  insert_row admits operations_table PutOperationRow row d.

(** [insertOperation] *)
Definition insertOperation (record : OperationRecord) (d : Database) : result error Database :=
  insert_operation_row (insertOperationParams record) d.

Definition InsertOperation (record : OperationRecord) (d : Database)
  : result error unit * Database :=
  in_transaction (λ d, d ← insertOperation record d; Ok (tt, Some d)) d.

Definition InsertOperationWithPlan (record : OperationRecord) (plan : Plan) (d : Database)
  : result error unit * Database :=
  in_transaction (λ d,
    d ← putPlanWithQueries admits plandigest_Digest plan d;
    refuse (negb (String.eqb (or_PlanDigest record) (plan_Digest plan)))
      (errorf "operation plan digest does not match immutable plan" []) ;;;
    d ← insertOperation record d;
    Ok (tt, Some d)) d.

(** [updateOperation]: whether one row was changed, and the database. *)
Definition updateOperation (record : OperationRecord) (expectedRevision : Z) (d : Database)
  : result error (bool * Database) :=
  match rows (db_operations d) !! or_ID record with
  | Some old =>
    if orow_Revision old =? expectedRevision then
      let row := updated_row old record in
      admits d (PutOperationRow row) ;;;
      Ok (true, lens_set operations_table (put_row row (db_operations d)) d)
    else Ok (false, d)
  | None => Ok (false, d)
  end.

Definition UpdateOperation (record : OperationRecord) (expectedRevision : Z) (d : Database)
  : result error bool * Database :=
  in_transaction (λ d,
    '(updated, d) ← updateOperation record expectedRevision d; Ok (updated, Some d)) d.

Definition UpdateOperationWithPlan (record : OperationRecord) (expectedRevision : Z) (plan : Plan)
    (d : Database) : result error bool * Database :=
  if negb (String.eqb (or_PlanDigest record) (plan_Digest plan))
  then (Err (errorf "operation plan digest does not match immutable plan" []), d)
  else
    in_transaction (λ d,
      d ← putPlanWithQueries admits plandigest_Digest plan d;
      '(updated, d) ← updateOperation record expectedRevision d;
      Ok (updated, if updated : bool then Some d else None)) d.

(** [DELETE ... WHERE terminal_at IS NOT NULL AND terminal_at < ?] *)
Definition terminal_before (cutoff : Time) (r : OperationRow) : bool :=
  match orow_TerminalAt r with Some t => t <? cutoff | None => false end.

Definition DeleteTerminalOperationsBefore (cutoff : Time) (d : Database)
  : result error Z * Database :=
  in_transaction (λ d,
    admits d (DeleteOperationsBefore cutoff) ;;;
    Ok (count_rows (terminal_before cutoff) d,
        Some (lens_set operations_table
                (keep_rows (λ r, negb (terminal_before cutoff r)) (db_operations d)) d))) d.
End operations.
