(* ===== verification/GrantsSQLite.v ===== *)
(** * Grants in the state database: [authorization/grants/sqlite.go]

    The conversion of the store's data to the records of StateTables and back,
    [RequestWithPlan], and the storage they make of the database.

    [json.Marshal] and [strictjson.Decode] are the class [JSON]; [JSONLaws]
    says that a value all of whose texts are UTF-8 is read back as it was
    written.  Go's encoder replaces other bytes by U+FFFD, so a value with such
    text comes back changed; [JSONRefuses] is the class of an encoder that
    refuses it, for which the database is a faithful storage without a
    condition on the data. *)

From S2P Require Export StateTables.
From Stdlib Require Import Ascii.

Local Open Scope Z_scope.

(** ** JSON *)

Class JSON (A : Type) : Type := {
  json_marshal : A → result error string;
  json_decode : string → result error A
}.

(** The texts of a value that are written as JSON strings. *)
Class Texts (A : Type) : Type := texts : A → list string.

Definition all_utf8 `{Texts A} (a : A) : bool := forallb valid_utf8 (texts a).

#[export] Instance list_map_texts : Texts StringListMap :=
  λ m, '(key, values) ← map_to_list m; key :: values.
#[export] Instance map_texts : Texts (gmap string string) :=
  λ m, '(key, value) ← map_to_list m; [key; value].
#[export] Instance Target_texts : Texts Target :=
  λ t, target_Kind t :: texts (target_Fields t).
Definition status_texts (s : Status) : list string :=
  match s with StatusOther text => [text] | _ => [] end.
#[export] Instance EventRecord_texts : Texts EventRecord := λ e,
  match ev_Kind e with EventOther text => [text] | _ => [] end
  ++ [ev_GrantID e; ev_Approver e] ++ status_texts (ev_Status e)
  ++ status_texts (ev_PreviousStatus e).
#[export] Instance Grant_texts : Texts Grant := λ g,
  [grant_ID g; grant_Client g; grant_ClientRequestID g; grant_Operation g]
  ++ texts (grant_Target g) ++ texts (grant_Attrs g) ++ texts (grant_Metadata g)
  ++ [grant_Reason g] ++ status_texts (grant_Status g)
  ++ [grant_DecidedBy g; grant_DecidedOnBehalfOf g]
  ++ match grant_FailureCode g with CodeOther text => [text] | _ => [] end
  ++ [grant_FailureReference g] ++ status_texts (grant_ExpiredFrom g).

Class JSONLaws (A : Type) `{JSON A, Texts A} : Prop := {
  json_roundtrip (a : A) text :
    all_utf8 a = true → json_marshal a = Ok text → json_decode text = Ok a;
  json_nonempty text (a : A) : json_decode text = Ok a → is_empty text = false
}.

Class JSONRefuses (A : Type) `{JSON A, Texts A} : Prop :=
  json_refuses (a : A) text : json_marshal a = Ok text → all_utf8 a = true.

(** [strictjson.Decode] with the error wrapped. *)
Definition wrap_decode {A} (format : string) (r : result error A) : result error A :=
  match r with Ok a => Ok a | Err e => Err (Errorf format [] [e]) end.

(** ** Scalars *)

Definition useLimitPointer (limit : Limit) : option Z :=
  if IsUnlimited limit then None else Some limit.
Definition useLimitValue (value : option Z) : Limit :=
  match value with None => Unlimited | Some v => v end.

(** [parseDecisionScope] *)
Definition parseDecisionScope (scope : string) : option (string * string * string) :=
  match split_byte zero scope with
  | [a; b; c] => if is_empty a || is_empty b || is_empty c then None else Some (a, b, c)
  | _ => None
  end.

(** ** Plan digests *)

(** The loop of [metadataPlanDigest] over the entries in the order of the map. *)
Fixpoint plan_digest_loop (found : string) (entries : list (string * string))
  : result error string :=
  match entries with
  | [] => Ok found
  | (key, value) :: rest =>
    if negb (has_suffix "_plan_digest" key) then plan_digest_loop found rest
    else
      refuse (negb (plandigest_Valid value)) (errorf "grant plan digest is invalid" []) ;;;
      refuse (negb (is_empty found) && negb (String.eqb found value))
        (errorf "grant has conflicting plan digests" []) ;;;
      plan_digest_loop value rest
  end.

Definition metadataPlanDigest `{R : MapRange} (metadata : gmap string string)
  : result error string :=
  plan_digest_loop EmptyString (map_range metadata).

Definition validateImmutableRequestPlan `{R : MapRange} (metadata : gmap string string)
    (plan : Plan) : result error unit :=
  refuse (match metadataPlanDigest metadata with
          | Err _ => true
          | Ok digest => is_empty digest || negb (String.eqb digest (plan_Digest plan))
                         || time_is_zero (plan_CreatedAt plan)
          end) (errorf "grant immutable plan is invalid" []).

(** ** Uses *)

Definition useToSQLite (u : GrantUse) : GrantUseRecord :=
  MkGrantUseRecord (use_RequestID u) (use_GrantID u) (use_Operation u) (use_State u)
    (use_Revision u) (use_CreatedAt u) (use_UpdatedAt u) (use_SettledAt u).

Definition useFromSQLite (r : GrantUseRecord) : GrantUse :=
  MkGrantUse (ur_GrantID r) (ur_RequestID r) (ur_Operation r) (ur_State r)
    (ur_Revision r) (ur_CreatedAt r) (ur_UpdatedAt r) (ur_SettledAt r).

Section sqlite.
Context {R : MapRange}.
Context `{JT : JSON Target} `{JA : JSON StringListMap} `{JM : JSON (gmap string string)}
  `{JE : JSON EventRecord} `{JG : JSON Grant}.

(** ** Grants *)

Definition grantToSQLite (g : Grant) : result error GrantRecord :=
  target ← json_marshal (grant_Target g);
  attrs ← json_marshal (grant_Attrs g);
  metadata ← json_marshal (grant_Metadata g);
  planDigest ← metadataPlanDigest (grant_Metadata g);
  Ok (MkGrantRecord (grant_ID g) (grant_Client g) (grant_ClientRequestID g) (grant_Operation g)
        target attrs metadata planDigest (grant_Reason g) (grant_Status g) (grant_Revision g)
        (grant_CreatedAt g) (grant_PendingExpiresAt g) (grant_ExpiresAt g) (grant_Duration g)
        (grant_RequestedDuration g) (grant_PendingTimeout g) (grant_DecidedAt g)
        (grant_DecidedBy g) (grant_DecidedOnBehalfOf g) (grant_FailureCode g)
        (grant_FailureReference g) (grant_FailedAt g) (grant_UsedAt g) (grant_UsedCount g)
        (grant_UseRevision g) (grant_ReservedCount g) (grant_ReservedAt g)
        (grant_ReservationRetained g) (grant_ReservationRevision g)
        (useLimitPointer (grant_MaxUses g)) (useLimitPointer (grant_RequestedMaxUses g))
        (grant_RequestedMaxUsesDefaulted g) (grant_ExpiredFrom g)).

Definition decodeGrantJSON (r : GrantRecord)
  : result error (Target * StringListMap * gmap string string) :=
  target ← wrap_decode "decode grant target: %w" (json_decode (gr_TargetJSON r));
  attrs ← wrap_decode "decode grant attributes: %w" (json_decode (gr_AttrsJSON r));
  metadata ← wrap_decode "decode grant metadata: %w" (json_decode (gr_MetadataJSON r));
  Ok (target, attrs, metadata).

Definition grantFromSQLite (r : GrantRecord) : result error Grant :=
  '(target, attrs, metadata) ← decodeGrantJSON r;
  refuse (match metadataPlanDigest metadata with
          | Err _ => true
          | Ok digest => negb (String.eqb digest (gr_PlanDigest r))
          end) (errorf "grant plan digest mismatch" []) ;;;
  Ok (MkGrant (gr_ID r) (gr_Client r) (gr_ClientRequestID r) (gr_Operation r) target attrs
        metadata (gr_Reason r) (gr_Status r) (gr_Revision r) (gr_CreatedAt r)
        (gr_PendingExpiresAt r) (gr_ExpiresAt r) (gr_Duration r) (gr_RequestedDuration r)
        (gr_PendingTimeout r) (gr_DecidedAt r) (gr_DecidedBy r) (gr_DecidedOnBehalfOf r)
        (gr_FailureCode r) (gr_FailureReference r) (gr_FailedAt r) (gr_UsedAt r)
        (gr_UsedCount r) (gr_UseRevision r) (gr_ReservedCount r) (gr_ReservedAt r)
        (gr_ReservationRetained r) (gr_ReservationRevision r) (useLimitValue (gr_MaxUses r))
        (useLimitValue (gr_RequestedMaxUses r)) (gr_RequestedMaxUsesDefaulted r)
        (gr_ExpiredFrom r)).

(** ** Events *)

(** The body of the loop of [eventsToSQLite]. *)
Definition eventToSQLite (e : EventRecord) : result error GrantLifecycleRecord :=
  payload ← json_marshal e;
  Ok (MkGrantLifecycleRecord (ev_Sequence e) (encodeEventCursor (ev_Sequence e)) (ev_GrantID e)
        (ev_Kind e) (ev_Revision e) (ev_Time e) payload).

Definition eventsToSQLite (events : list EventRecord)
  : result error (list GrantLifecycleRecord) := collect eventToSQLite events.

Definition eventMatchesRecord (e : EventRecord) (r : GrantLifecycleRecord) : bool :=
  (ev_Sequence e =? lr_Sequence r) && String.eqb (ev_GrantID e) (lr_GrantID r)
  && bool_decide (ev_Kind e = lr_Kind r) && (ev_Revision e =? lr_Revision r)
  && (ev_Time e =? lr_OccurredAt r) && String.eqb (encodeEventCursor (ev_Sequence e)) (lr_Cursor r).

(** The body of the loop of [eventsFromSQLite]. *)
Definition eventFromSQLite (r : GrantLifecycleRecord) : result error EventRecord :=
  e ← wrap_decode "decode grant lifecycle event: %w" (json_decode (lr_PayloadJSON r));
  refuse (negb (eventMatchesRecord e r)) ErrUnsupportedState ;;;
  Ok e.

(** The events and the next sequence number: a [uint64] one more than the [int64]
    of a row, which cannot wrap around. *)
Definition eventsFromSQLite (records : list GrantLifecycleRecord)
  : result error (list EventRecord * Z) :=
  events ← collect eventFromSQLite records;
  Ok (events, match last events with
              | Some e => ev_Sequence e + 1
              | None => 1
              end).

(** ** Decision records *)

Definition preservedDecisionJSON (raw : string) (value : Grant) : result error string :=
  if negb (is_empty raw) then Ok raw else json_marshal value.

Definition decisionToSQLite (r : DecisionRecord) : result error GrantDecisionRecord :=
  '(requestID, action, key) ← option_ok (parseDecisionScope (rec_Scope r)) ErrUnsupportedState;
  result ← preservedDecisionJSON (rec_resultJSON r) (rec_Result r);
  previous ← preservedDecisionJSON (rec_previousJSON r) (rec_Previous r);
  Ok (MkGrantDecisionRecord (rec_Scope r) requestID action key (rec_CommandHash r) result
        previous (rec_EventCursor r) (rec_CommittedAt r)).

Definition decodeDecisionGrants (r : GrantDecisionRecord) : result error (Grant * Grant) :=
  result ← wrap_decode "decode decision result: %w" (json_decode (dr_ResultJSON r));
  previous ← wrap_decode "decode previous decision state: %w" (json_decode (dr_PreviousJSON r));
  Ok (result, previous).

Definition decisionFromSQLite (r : GrantDecisionRecord) : result error DecisionRecord :=
  '(result, previous) ← decodeDecisionGrants r;
  refuse (match parseDecisionScope (dr_Scope r) with
          | Some (requestID, action, key) =>
            negb (String.eqb requestID (dr_RequestID r)) || negb (String.eqb action (dr_Action r))
            || negb (String.eqb key (dr_IdempotencyKey r))
          | None => true
          end) ErrUnsupportedState ;;;
  Ok (MkDecisionRecord (dr_Scope r) (dr_CommandHash r) result previous (dr_EventCursor r)
        (grant_FailureCode result) (grant_FailureReference result) (dr_CommittedAt r)
        (dr_ResultJSON r) (dr_PreviousJSON r)).

(** ** The whole data *)

Definition fileDataToSQLite (d : FileData) : result error GrantSnapshot :=
  grants ← collect grantToSQLite (fd_Grants d);
  events ← eventsToSQLite (fd_Events d);
  decisions ← collect decisionToSQLite (fd_DecisionRecords d);
  Ok (MkGrantSnapshot grants (useToSQLite <$> fd_Uses d) events decisions).

Definition fileDataFromSQLite (s : GrantSnapshot) : result error FileData :=
  grants ← collect grantFromSQLite (snap_Grants s);
  '(events, next) ← eventsFromSQLite (snap_Events s);
  decisions ← collect decisionFromSQLite (snap_Decisions s);
  Ok (MkFileData grants (useFromSQLite <$> snap_Uses s) events next decisions).

(** ** The storage *)

Context (admits : Database → Statement → result error unit)
  (begin_tx : nat → result error unit) (commit_tx : nat → CommitOutcome)
  (plandigest_Digest : string → string).

(** [loadRaw] with a database. *)
Definition sqlite_loadRaw (d : Database) : result error FileData :=
  snapshot ← loadGrantSnapshot d; fileDataFromSQLite snapshot.

(** [saveWithPlan] with a database.  [loadedSnapshot] is what [loadRaw] read in
    the same critical section, hence from the same tables. *)
Definition sqlite_saveRaw (d : Database) (data : FileData) (plan : option Plan)
  : result error unit * Database :=
  match loadGrantSnapshot d with
  | Err _ => (Err (errorf "grant SQLite snapshot is unavailable" []), d)
  | Ok before =>
    match fileDataToSQLite data with
    | Err e => (Err e, d)
    | Ok after =>
      saveGrantSnapshot admits begin_tx commit_tx plandigest_Digest before after plan d
    end
  end.

(** A decision record after [decisionToSQLite] and [decisionFromSQLite]. *)
Definition sqlite_reread (r : DecisionRecord) : DecisionRecord :=
  let text raw value :=
    match preservedDecisionJSON raw value with Ok t => t | Err _ => EmptyString end in
  MkDecisionRecord (rec_Scope r) (rec_CommandHash r) (rec_Result r) (rec_Previous r)
    (rec_EventCursor r) (grant_FailureCode (rec_Result r)) (grant_FailureReference (rec_Result r))
    (rec_CommittedAt r) (text (rec_resultJSON r) (rec_Result r))
    (text (rec_previousJSON r) (rec_Previous r)).

Definition sqlite : GrantStorage := {|
  Storage := Database;
  PlanRecord := Plan;
  loadRaw := sqlite_loadRaw;
  saveRaw := sqlite_saveRaw;
  reread := sqlite_reread
|}.

(** [Store.RequestWithPlan] *)
Definition RequestWithPlan (clock : nat → Time) (new_id : nat → result error string)
    (o : Options) (req : GrantRequest) (plan : Plan)
  : Eff (GS := sqlite) (RequestOutcome) :=
  match validateImmutableRequestPlan (req_Metadata req) plan with
  | Err e => mret (MkRequestOutcome zero_Grant false (Some e))
  | Ok _ => request (GS := sqlite) clock new_id o req (Some plan)
  end.
End sqlite.

Lemma wrap_decode_ok {A} (format : string) (r : result error A) (a : A) :
  wrap_decode format r = Ok a ↔ r = Ok a.
Proof. destruct r; naive_solver. Qed.
