(* ===== verification/StateFacts.v ===== *)
(** * Facts about the grant tables

    A table seen through the decoding of its rows is a map of records; what
    [grant_transaction] leaves in the tables is what the next load reads. *)

From S2P Require Export StateTables.

Local Open Scope Z_scope.

(** ** Records written onto a map *)

Section index.
Context {K T : Type} `{Countable K} (key : T → K).

Definition index_onto (m : gmap K T) (records : list T) : gmap K T :=
  foldl (λ m r, <[key r := r]> m) m records.

Lemma elem_of_keyed (records : list T) (k : K) (r : T) :
  (k, r) ∈ (λ r, (key r, r)) <$> records ↔ r ∈ records ∧ key r = k.
Proof. rewrite list_elem_of_fmap. naive_solver. Qed.

Lemma keyed_fst (records : list T) : ((λ r, (key r, r)) <$> records).*1 = key <$> records.
Proof. by rewrite <- list_fmap_compose. Qed.

Lemma index_onto_union (m : gmap K T) (records : list T) :
  NoDup (key <$> records) →
  index_onto m records = list_to_map ((λ r, (key r, r)) <$> records) ∪ m.
Proof.
  revert m; induction records as [|r records IH]; intros m; csimpl.
  - intros _. by rewrite map_empty_union.
  - rewrite NoDup_cons. intros [Hr Hnd]. rewrite (IH _ Hnd).
    rewrite <- insert_union_r, insert_union_l; [done|].
    apply not_elem_of_list_to_map_1. by rewrite keyed_fst.
Qed.

(** When the records cover the keys of the map, they replace it. *)
Lemma index_onto_covering (m : gmap K T) (records : list T) :
  NoDup (key <$> records) → (∀ k, is_Some (m !! k) → k ∈ key <$> records) →
  (map_to_list (index_onto m records)).*2 ≡ₚ records.
Proof.
  intros Hnd Hcover. rewrite index_onto_union by done.
  assert (list_to_map ((λ r, (key r, r)) <$> records) ∪ m
          = list_to_map ((λ r, (key r, r)) <$> records)) as ->.
  { apply map_eq. intros k.
    destruct (list_to_map _ !! k) as [r|] eqn:E; [by apply lookup_union_Some_l|].
    apply lookup_union_None. split; [done|].
    apply not_elem_of_list_to_map_2 in E. rewrite keyed_fst in E.
    apply eq_None_not_Some. intros Hk. by apply E, Hcover. }
  rewrite map_to_list_to_map by (by rewrite keyed_fst).
  rewrite <- list_fmap_compose. by rewrite list_fmap_id.
Qed.

Lemma lookup_indexRecords (records : list T) (k : K) (r : T) :
  NoDup (key <$> records) →
  indexRecords key records !! k = Some r ↔ r ∈ records ∧ key r = k.
Proof.
  intros Hnd. change (indexRecords key records) with (index_onto ∅ records).
  rewrite index_onto_union, map_union_empty by done.
  rewrite <- elem_of_list_to_map by (by rewrite keyed_fst). apply elem_of_keyed.
Qed.
End index.

(** ** A table seen through its decoding *)

Section view.
Context {K V T : Type} `{Countable K} {key : V → K} (lens : TableLens key)
  (decode : V → T) (record_key : T → K).
Context (Hkey : ∀ v, record_key (decode v) = key v).

Definition view (d : Database) : gmap K T := decode <$> rows (lens_get lens d).

(** [d'] is [d] with another content of this table. *)
Definition rewritten (d d' : Database) (m : gmap K T) : Prop :=
  ∃ t, d' = lens_set lens t d ∧ decode <$> rows t = m.

Lemma rewritten_view (d d' : Database) (m : gmap K T) : rewritten d d' m → view d' = m.
Proof. intros (t & -> & <-). unfold view. by rewrite lens_get_set. Qed.

Lemma rewritten_refl (d : Database) : rewritten d d (view d).
Proof. exists (lens_get lens d). by rewrite lens_set_get. Qed.

Lemma rewritten_trans (d d' d'' : Database) (m m' : gmap K T) :
  rewritten d d' m → rewritten d' d'' m' → rewritten d d'' m'.
Proof. intros (t & -> & _) (t' & -> & <-). exists t'. by rewrite lens_set_set. Qed.

Lemma lookup_view (d : Database) (k : K) :
  view d !! k = decode <$> rows (lens_get lens d) !! k.
Proof. apply lookup_fmap. Qed.

Lemma put_row_view (row : V) (d : Database) :
  rewritten d (lens_set lens (put_row row (lens_get lens d)) d)
    (<[key row := decode row]> (view d)).
Proof.
  exists (put_row row (lens_get lens d)). split; [done|]. by cbn; rewrite fmap_insert.
Qed.

Lemma keep_rows_view (test : V → bool) (d : Database) (k : K) (r : T) :
  (decode <$> rows (keep_rows test (lens_get lens d))) !! k = Some r →
  ∃ row, rows (lens_get lens d) !! k = Some row ∧ decode row = r ∧ test row = true.
Proof.
  rewrite lookup_fmap, fmap_Some. cbn. intros (row & Hrow & ->).
  apply map_lookup_filter_Some in Hrow as [??]. eauto.
Qed.

(** A listing shows the records of the table. *)
Lemma listed_view (order : V → V → bool) (d : Database) :
  decode <$> select_all order (lens_get lens d) ≡ₚ (map_to_list (view d)).*2.
Proof.
  unfold select_all, view. rewrite merge_sort_Permutation, map_to_list_fmap.
  by rewrite <- !list_fmap_compose.
Qed.

Lemma view_keyed (d : Database) (k : K) (r : T) : view d !! k = Some r → record_key r = k.
Proof.
  rewrite lookup_view, fmap_Some. intros (row & Hrow & ->). rewrite Hkey.
  by apply (rows_keyed (lens_get lens d)).
Qed.

Lemma listed_keys (order : V → V → bool) (d : Database) :
  NoDup (record_key <$> (decode <$> select_all order (lens_get lens d))).
Proof.
  rewrite listed_view, <- list_fmap_compose.
  replace ((record_key ∘ snd) <$> map_to_list (view d)) with (map_to_list (view d)).*1;
    [apply NoDup_fst_map_to_list|].
  apply Forall_fmap_ext_1, Forall_forall. intros [k r] Hkr. cbn.
  apply elem_of_map_to_list in Hkr. by apply view_keyed in Hkr.
Qed.

Lemma elem_of_listed (order : V → V → bool) (d : Database) (r : T) :
  r ∈ decode <$> select_all order (lens_get lens d) ↔ view d !! record_key r = Some r.
Proof.
  rewrite listed_view, list_elem_of_fmap. split.
  - intros ([k r'] & -> & Hk). apply elem_of_map_to_list in Hk. cbn.
    by rewrite (view_keyed _ _ _ Hk).
  - intros Hr. exists (record_key r, r). by rewrite elem_of_map_to_list.
Qed.

Lemma lookup_listed (order : V → V → bool) (d : Database) (k : K) :
  indexRecords record_key (decode <$> select_all order (lens_get lens d)) !! k = view d !! k.
Proof.
  apply option_eq. intros r. rewrite lookup_indexRecords by apply listed_keys.
  rewrite elem_of_listed. split.
  - by intros [? <-].
  - intros Hk. by rewrite (view_keyed _ _ _ Hk).
Qed.

Section statements.
Context (admits : Database → Statement → result error unit) (statement : V → Statement).

Lemma insert_row_ok (row : V) (d d' : Database) :
  insert_row admits lens statement row d = Ok d' →
  rewritten d d' (<[key row := decode row]> (view d)).
Proof.
  unfold insert_row. destruct (rows _ !! _); [done|]. rewrite seq_ok.
  intros [_ [= <-]]. apply put_row_view.
Qed.

Lemma update_row_ok (revision : V → Z) (row : V) (previous : Z) (d d' : Database) :
  update_row admits lens statement revision row previous d = Ok (1, d') →
  rewritten d d' (<[key row := decode row]> (view d)).
Proof.
  unfold update_row. destruct (rows _ !! _) as [old|]; [|done].
  destruct (revision old =? previous); [|done]. rewrite seq_ok.
  intros [_ [= <-]]. apply put_row_view.
Qed.
End statements.

(** A loop that writes each record writes all of them, when no step reads
    what an earlier one wrote: [m] is the table before the loop. *)
Lemma persistRecords_written (persist : T → Database → result error Database)
    (m : gmap K T) (records : list T) (d d' : Database) :
  NoDup (record_key <$> records) →
  (∀ r d d', r ∈ records → view d !! record_key r = m !! record_key r →
     persist r d = Ok d' → rewritten d d' (<[record_key r := r]> (view d))) →
  (∀ r, r ∈ records → view d !! record_key r = m !! record_key r) →
  persistRecords persist records d = Ok d' →
  rewritten d d' (index_onto record_key (view d) records).
Proof.
  intros Hnd Hstep. revert d Hnd. induction records as [|r records IH]; intros d Hnd Hm; cbn.
  - intros [= <-]. apply rewritten_refl.
  - csimpl in Hnd. apply NoDup_cons in Hnd as [Hr Hnd].
    rewrite bind_ok_iff. intros (d1 & Hd1 & Hd').
    apply Hstep in Hd1; [|left|apply Hm; left].
    pose proof (rewritten_view _ _ _ Hd1) as Hv.
    eapply rewritten_trans; [exact Hd1|]. rewrite <- Hv.
    apply IH; [|done| |done].
    + intros s e e' Hs. apply Hstep. by right.
    + intros s Hs. rewrite Hv, lookup_insert_ne; [apply Hm; by right|].
      intros Heq. apply Hr. rewrite Heq. by apply list_elem_of_fmap_2.
Qed.
End view.

(** * Snapshots written and read back

    What [grant_transaction] leaves in the tables is what the next
    [loadGrantSnapshot] reads, up to the order of rows; the plan, when there is
    one, is stored under its digest and no stored plan changes. *)

(** ** Columns *)

Lemma parse_nullTime (t : Time) : parseNullTime (nullTime t) = t.
Proof.
  unfold nullTime, time_is_zero. by destruct (Z.eqb_spec t 0) as [->|].
Qed.

Lemma text_of_nullableString (s : string) : text_of (nullableString s) = s.
Proof. by destruct s. Qed.

Lemma status_of_nullableStatus (s : Status) : status_of (nullableStatus s) = s.
Proof. unfold nullableStatus. by case_bool_decide; subst. Qed.

Lemma boolInt_one (b : bool) : (boolInt b =? 1) = b.
Proof. by destruct b. Qed.

Lemma decode_insertGrantParams (r : GrantRecord) : decodeGrantRecord (insertGrantParams r) = r.
Proof.
  destruct r. unfold decodeGrantRecord, insertGrantParams.
  cbn -[nullTime parseNullTime nullableString text_of nullableStatus status_of boolInt Z.eqb].
  by rewrite !parse_nullTime, text_of_nullableString, status_of_nullableStatus, !boolInt_one.
Qed.

Lemma decode_insertGrantUseParams (r : GrantUseRecord) :
  decodeGrantUse (insertGrantUseParams r) = r.
Proof.
  destruct r. unfold decodeGrantUse, insertGrantUseParams. cbn. by rewrite parse_nullTime.
Qed.

Lemma decode_insertDecisionParams (r : GrantDecisionRecord) :
  decodeDecision (insertDecisionParams r) = r.
Proof. by destruct r. Qed.

(** [decodeLifecycleEvent] where it succeeds. *)
Definition event_record (r : EventRow) : GrantLifecycleRecord :=
  MkGrantLifecycleRecord (erow_Sequence r) (erow_Cursor r) (erow_SubjectID r) (erow_Kind r)
    (erow_Revision r) (erow_OccurredAt r) (erow_PayloadJson r).

Lemma decode_insertEventParams (r : GrantLifecycleRecord) (sequence : Z) :
  lifecycleSequenceInt64 (lr_Sequence r) = Ok sequence →
  event_record (insertEventParams sequence r) = r.
Proof.
  unfold lifecycleSequenceInt64. rewrite seq_ok. intros [_ [= <-]]. by destruct r.
Qed.

Lemma decode_events (events : list EventRow) (records : list GrantLifecycleRecord) :
  collect decodeLifecycleEvent events = Ok records ↔
  records = event_record <$> events ∧ Forall (λ r, 1 <= lr_Sequence r) records.
Proof.
  rewrite collect_ok. unfold decodeLifecycleEvent. split.
  - induction 1 as [|row r events records H _ [-> IH]]; [by split|].
    apply seq_ok in H as [H [= <-]]. apply refuse_ok, Z.ltb_ge in H.
    split; [done|]. by constructor.
  - intros [-> H]. induction events as [|row events IH]; [constructor|].
    csimpl in H. apply Forall_cons in H as [Hr H]. constructor; [|by apply IH].
    apply seq_ok. split; [|done]. by apply refuse_ok, Z.ltb_ge.
Qed.

(** ** Snapshots *)

Definition table_snapshot (d : Database) : GrantSnapshot :=
  MkGrantSnapshot (decodeGrantRecord <$> ListGrants d) (decodeGrantUse <$> ListGrantUses d)
    (event_record <$> ListGrantLifecycleEvents d) (decodeDecision <$> ListDecisionRecords d).

Lemma loadGrantSnapshot_ok (d : Database) (s : GrantSnapshot) :
  loadGrantSnapshot d = Ok s ↔
  s = table_snapshot d ∧ Forall (λ r, 1 <= lr_Sequence r) (snap_Events s).
Proof.
  unfold loadGrantSnapshot. rewrite bind_ok_iff. setoid_rewrite decode_events. split.
  - intros (events & [-> Hs] & [= <-]). done.
  - intros [-> Hs]. eexists. split; [by split|done].
Qed.

Lemma loadGrantSnapshot_begun (d : Database) :
  loadGrantSnapshot (begun d) = loadGrantSnapshot d.
Proof. done. Qed.

Notation grants_view := (view grants_table decodeGrantRecord).
Notation uses_view := (view uses_table decodeGrantUse).
Notation events_view := (view events_table event_record).
Notation decisions_view := (view decisions_table decodeDecision).

(** ** One table at a time *)

Section persist.
Context (admits : Database → Statement → result error unit).

(** The step [persistGrant] and [persistGrantUse] share. *)
Lemma persist_row_ok {K V T} `{Countable K, EqDecision T} {key : V → K} (lens : TableLens key)
    (decode : V → T) (record_key : T → K) (encode : T → V) (statement : V → Statement)
    (revision : V → Z) (record_revision : T → Z) (r : T) (d d' : Database) :
  (∀ v, record_key (decode v) = key v) → decode (encode r) = r →
  match view lens decode d !! record_key r with
  | None => insert_row admits lens statement (encode r) d
  | Some previous =>
    if bool_decide (previous = r) then Ok d
    else '(updated, d) ← update_row admits lens statement revision (encode r)
                           (record_revision previous) d;
         refuse (negb (updated =? 1)) ErrGrantStateConflict ;;; Ok d
  end = Ok d' →
  rewritten lens decode d d' (<[record_key r := r]> (view lens decode d)).
Proof.
  intros Hkey Hr.
  assert (<[key (encode r) := decode (encode r)]> (view lens decode d)
          = <[record_key r := r]> (view lens decode d)) as Hins
    by (by rewrite <- Hkey, Hr).
  destruct (view lens decode d !! record_key r) as [previous|] eqn:E.
  - case_bool_decide as Hp.
    + intros [= <-]. subst previous. rewrite insert_id by done. apply rewritten_refl.
    + rewrite bind_ok_iff. intros ([updated e] & He & Hd'). apply seq_ok in Hd' as [Hu [= <-]].
      apply refuse_ok, negb_false_iff, Z.eqb_eq in Hu as ->.
      rewrite <- Hins. by eapply update_row_ok.
  - rewrite <- Hins. by apply insert_row_ok.
Qed.

Lemma persistGrants_written (before after : list GrantRecord) (d d' : Database) :
  (∀ k, indexRecords gr_ID before !! k = grants_view d !! k) → NoDup (gr_ID <$> after) →
  persistGrants admits before after d = Ok d' →
  rewritten grants_table decodeGrantRecord d d' (index_onto gr_ID (grants_view d) after).
Proof.
  intros Hold Hnd. apply (persistRecords_written _ _ gr_ID _ (grants_view d)); [done| |done].
  intros r e e' _ He. unfold persistGrant. rewrite Hold, <- He.
  apply (persist_row_ok grants_table decodeGrantRecord gr_ID insertGrantParams PutGrantRow
           row_Revision gr_Revision); [done|apply decode_insertGrantParams].
Qed.

Lemma persistGrantUses_written (before after : list GrantUseRecord) (d d' : Database) :
  (∀ k, indexRecords ur_RequestID before !! k = uses_view d !! k) →
  NoDup (ur_RequestID <$> after) →
  persistGrantUses admits before after d = Ok d' →
  rewritten uses_table decodeGrantUse d d' (index_onto ur_RequestID (uses_view d) after).
Proof.
  intros Hold Hnd. apply (persistRecords_written _ _ ur_RequestID _ (uses_view d)); [done| |done].
  intros r e e' _ He. unfold persistGrantUse. rewrite Hold, <- He.
  apply (persist_row_ok uses_table decodeGrantUse ur_RequestID insertGrantUseParams PutUseRow
           urow_Revision ur_Revision); [done|apply decode_insertGrantUseParams].
Qed.

(** Records that are never updated: an old one is skipped, a new one inserted. *)
Lemma persist_new_ok {K V T} `{Countable K} {key : V → K} (lens : TableLens key)
    (decode : V → T) (record_key : T → K) (persist : T → Database → result error Database)
    (before after : list T) (d d' : Database) :
  NoDup (record_key <$> after) →
  (∀ r, r ∈ after → record_key r ∈ record_key <$> before →
     view lens decode d !! record_key r = Some r) →
  (∀ r d d', persist r d = Ok d' →
     rewritten lens decode d d' (<[record_key r := r]> (view lens decode d))) →
  persistRecords (λ r d, if bool_decide (record_key r ∈ record_key <$> before) then Ok d
                         else persist r d) after d = Ok d' →
  rewritten lens decode d d' (index_onto record_key (view lens decode d) after).
Proof.
  intros Hnd Hold Hpersist.
  apply (persistRecords_written _ _ record_key _ (view lens decode d)); [done| |done].
  intros r e e' Hr He. case_bool_decide as Hb; [|apply Hpersist].
  intros [= <-]. rewrite insert_id by (rewrite He; by apply Hold). apply rewritten_refl.
Qed.

Lemma insertGrantEvent_ok (r : GrantLifecycleRecord) (d d' : Database) :
  insertGrantEvent admits r d = Ok d' →
  rewritten events_table event_record d d' (<[lr_Sequence r := r]> (events_view d)).
Proof.
  unfold insertGrantEvent. rewrite bind_ok_iff. intros (sequence & Hs & Hi).
  apply (insert_row_ok events_table event_record) in Hi.
  rewrite decode_insertEventParams in Hi by done.
  unfold lifecycleSequenceInt64 in Hs. apply seq_ok in Hs as [_ [= ->]]. exact Hi.
Qed.

Lemma InsertDecisionRecord_ok (r : GrantDecisionRecord) (d d' : Database) :
  InsertDecisionRecord admits (insertDecisionParams r) d = Ok d' →
  rewritten decisions_table decodeDecision d d' (<[dr_Scope r := r]> (decisions_view d)).
Proof.
  intros Hi. apply (insert_row_ok decisions_table decodeDecision) in Hi.
  by rewrite decode_insertDecisionParams in Hi.
Qed.
End persist.

(** ** The event log *)

(** The new log drops a prefix of the old one, not all of it unless something
    is added, and what it adds is later. *)
Definition log_continues (before after : list GrantLifecycleRecord) : Prop :=
  ∃ n added, after = drop n before ++ added
    ∧ (∀ b r, b ∈ before → r ∈ added → lr_Sequence b < lr_Sequence r)
    ∧ Forall (λ r, 1 <= lr_Sequence r) added
    ∧ (before ≠ [] → after ≠ []).

(** The same of the sequence numbers only. *)
Definition sequences_continue (before after : list Z) : Prop :=
  ∃ n added, after = drop n before ++ added
    ∧ (∀ b s, b ∈ before → s ∈ added → b < s)
    ∧ Forall (λ s, 1 <= s) added
    ∧ (before ≠ [] → after ≠ []).

Lemma sorted_weaken {A} (R R' : A → A → Prop) (l : list A) :
  (∀ a b, R a b → R' a b) → StronglySorted R l → StronglySorted R' l.
Proof.
  intros H. induction 1 as [|a l _ IH Ha]; [constructor|]. constructor; [done|].
  eapply Forall_impl; [exact Ha|]. auto.
Qed.

Lemma sorted_sequences (l : list GrantLifecycleRecord) :
  StronglySorted Z.lt (lr_Sequence <$> l) →
  StronglySorted (λ a b, lr_Sequence a < lr_Sequence b) l.
Proof.
  induction l as [|r l IH]; csimpl; [constructor|].
  intros [Hl Hr]%StronglySorted_inv. constructor; [by apply IH|].
  rewrite Forall_fmap in Hr. exact Hr.
Qed.

Lemma sorted_NoDup (l : list Z) : StronglySorted Z.lt l → NoDup l.
Proof.
  induction 1 as [|z l _ IH Hz]; [constructor|]. constructor; [|done].
  intros Hin. rewrite Forall_forall in Hz. specialize (Hz _ Hin). lia.
Qed.

Lemma NoDup_fmap_elem {A B} (f : A → B) (l : list A) (a b : A) :
  NoDup (f <$> l) → a ∈ l → b ∈ l → f a = f b → a = b.
Proof.
  induction l as [|c l IH]; csimpl; [set_solver|].
  rewrite NoDup_cons. intros [Hc Hnd] Ha Hb Heq.
  apply elem_of_cons in Ha as [->|Ha], Hb as [->|Hb]; [done| | |by apply IH].
  - destruct Hc. rewrite Heq. by apply list_elem_of_fmap_2.
  - destruct Hc. rewrite <- Heq. by apply list_elem_of_fmap_2.
Qed.

(** The listing of the events is in order. *)
Lemma listed_events_sorted (d : Database) :
  StronglySorted (λ a b, lr_Sequence a <= lr_Sequence b)
    (event_record <$> ListGrantLifecycleEvents d).
Proof.
  assert (StronglySorted (λ a b, (erow_Sequence a <=? erow_Sequence b) = true)
            (ListGrantLifecycleEvents d)) as Hs.
  { assert (Transitive (λ a b : EventRow, (erow_Sequence a <=? erow_Sequence b) = true))
      by (intros a b c; rewrite !Z.leb_le; lia).
    assert (Total (λ a b : EventRow, (erow_Sequence a <=? erow_Sequence b) = true))
      by (intros a b; rewrite !Z.leb_le; lia).
    by apply StronglySorted_merge_sort. }
  induction Hs as [|a l _ IH Ha]; csimpl; [constructor|]. constructor; [done|].
  apply Forall_fmap. eapply Forall_impl; [exact Ha|]. intros b. apply Z.leb_le.
Qed.

Lemma events_keys_NoDup (d : Database) :
  NoDup (lr_Sequence <$> (event_record <$> ListGrantLifecycleEvents d)).
Proof. by apply (listed_keys events_table event_record lr_Sequence). Qed.

(** What is dropped from the log precedes what is left. *)
Lemma dropped_before_first (before added after : list GrantLifecycleRecord) (n : nat)
    (first b : GrantLifecycleRecord) :
  StronglySorted (λ a b, lr_Sequence a <= lr_Sequence b) before →
  NoDup (lr_Sequence <$> before) →
  drop n before ++ added = first :: after →
  (∀ b r, b ∈ before → r ∈ added → lr_Sequence b < lr_Sequence r) →
  b ∈ take n before → lr_Sequence b < lr_Sequence first.
Proof.
  intros Hs Hnd Hf Hadded Hb.
  destruct (drop n before) as [|f rest] eqn:E.
  - cbn in Hf. apply Hadded; [|rewrite Hf; left].
    rewrite <- (take_drop n before). by apply elem_of_app; left.
  - cbn in Hf. injection Hf as -> _. rewrite <- (take_drop n before), E in Hs, Hnd.
    rewrite fmap_app in Hnd. apply NoDup_app in Hnd as (_ & Hnd & _).
    assert (lr_Sequence b <= lr_Sequence first).
    { apply (StronglySorted_app_1_elem_of (λ a b, lr_Sequence a <= lr_Sequence b)
               (take n before) (first :: rest)); [done|done|left]. }
    specialize (Hnd (lr_Sequence b) (list_elem_of_fmap_2 _ _ _ Hb)).
    enough (lr_Sequence b ≠ lr_Sequence first) by lia.
    intros Heq. apply Hnd. rewrite Heq. csimpl. left.
Qed.

Section events.
Context (admits : Database → Statement → result error unit).
Context (d d' : Database) (before after : list GrantLifecycleRecord).
Context (Hbefore : before = event_record <$> ListGrantLifecycleEvents d)
  (Hafter : StronglySorted Z.lt (lr_Sequence <$> after))
  (Hlog : log_continues before after).

Lemma elem_of_before (b : GrantLifecycleRecord) :
  b ∈ before ↔ events_view d !! lr_Sequence b = Some b.
Proof. rewrite Hbefore. by apply (elem_of_listed events_table event_record lr_Sequence). Qed.

(** Pruning keeps exactly what the new log still has of the old one. *)
Lemma pruneGrantEvents_ok :
  pruneGrantEvents admits before after d = Ok d' →
  ∃ m, rewritten events_table event_record d d' m
    ∧ (∀ k, is_Some (m !! k) → k ∈ lr_Sequence <$> after)
    ∧ (∀ r, r ∈ after → r ∈ before → m !! lr_Sequence r = Some r).
Proof.
  destruct Hlog as (n & added & Ha & Hadded & _ & Hne).
  assert (∀ first rest b, after = first :: rest → b ∈ take n before →
            lr_Sequence b < lr_Sequence first) as Hdropped.
  { intros first rest b Hf. eapply (dropped_before_first before added rest n).
    - rewrite Hbefore. apply listed_events_sorted.
    - rewrite Hbefore. apply events_keys_NoDup.
    - by rewrite <- Ha, Hf.
    - done. }
  assert (∀ k b, events_view d !! k = Some b → k = lr_Sequence b ∧ b ∈ before) as Hview.
  { intros k b Hk. pose proof (view_keyed events_table event_record lr_Sequence
      ltac:(done) _ _ _ Hk) as <-. split; [done|]. by apply elem_of_before. }
  assert (∀ b, b ∈ before → b ∈ take n before ∨ b ∈ after) as Hsplit.
  { intros b. rewrite Ha, <- (take_drop n before) at 1. set_solver. }
  unfold pruneGrantEvents. destruct after as [|first rest] eqn:Hfirst.
  { intros [= <-]. exists (events_view d). split; [apply rewritten_refl|].
    split; [|intros r Hr; by apply not_elem_of_nil in Hr].
    intros k [b Hb]. apply Hview in Hb as [_ Hb].
    destruct Hne; [|done]. intros ->. by apply not_elem_of_nil in Hb. }
  destruct (match before with b :: _ => _ | [] => false end) eqn:Hkeep.
  - intros [= <-]. exists (events_view d). split; [apply rewritten_refl|].
    split; [|intros r _; apply elem_of_before].
    intros k [b Hb]. apply Hview in Hb as [-> Hb].
    destruct (Hsplit b Hb) as [Htake|Hin]; [|by apply list_elem_of_fmap_2].
    destruct before as [|b0 before']; [done|]. destruct n as [|n]; [by apply not_elem_of_nil in Htake|].
    apply Z.leb_le in Hkeep. specialize (Hdropped first rest b0 eq_refl ltac:(left)). lia.
  - rewrite bind_ok_iff. intros (sequence & Hs & Hd').
    unfold lifecycleSequenceInt64 in Hs. apply seq_ok in Hs as [_ [= <-]].
    unfold DeleteGrantLifecycleEventsBefore in Hd'. apply seq_ok in Hd' as [_ [= <-]].
    eexists. split; [by eexists|]. split.
    + intros k [b Hb]. apply (keep_rows_view events_table event_record) in Hb as (row & Hrow & <- & Hge).
      destruct (Hview k (event_record row)) as [-> Hb].
      { rewrite lookup_view. cbn in Hrow |- *. by rewrite Hrow. }
      destruct (Hsplit _ Hb) as [Htake|Hin]; [|by apply list_elem_of_fmap_2].
      specialize (Hdropped first rest _ eq_refl Htake). apply Z.leb_le in Hge. cbn in *. lia.
    + intros r Hr Hb. apply elem_of_before in Hb. rewrite lookup_view, fmap_Some in Hb.
      destruct Hb as (row & Hrow & ->). rewrite lookup_fmap. apply fmap_Some.
      exists row. split; [|done]. apply map_lookup_filter_Some. split; [exact Hrow|].
      cbn. apply Z.leb_le. apply elem_of_cons in Hr as [Hr|Hr].
      * by rewrite <- Hr.
      * csimpl in Hafter. apply StronglySorted_inv in Hafter as [_ Hlt].
        rewrite Forall_fmap, Forall_forall in Hlt. specialize (Hlt _ Hr). cbn in Hlt. lia.
Qed.
End events.

(** ** The transaction *)

(** A snapshot that may follow [before]. *)
Record follows (before after : GrantSnapshot) : Prop := {
  follows_Grants : NoDup (gr_ID <$> snap_Grants after);
  follows_Uses : NoDup (ur_RequestID <$> snap_Uses after);
  follows_Decisions : NoDup (dr_Scope <$> snap_Decisions after);
  follows_sorted : StronglySorted Z.lt (lr_Sequence <$> snap_Events after);
  follows_log : sequences_continue (lr_Sequence <$> snap_Events before)
                  (lr_Sequence <$> snap_Events after)
}.

(** The same rows, listed in another order; the log is always in order. *)
Record same_rows (s s' : GrantSnapshot) : Prop := {
  same_Grants : snap_Grants s' ≡ₚ snap_Grants s;
  same_Uses : snap_Uses s' ≡ₚ snap_Uses s;
  same_Events : snap_Events s' = snap_Events s;
  same_Decisions : snap_Decisions s' ≡ₚ snap_Decisions s
}.

(** The plans a transaction leaves: every stored plan, and its own. *)
Definition plan_kept (plan : option Plan) (d d' : Database) : Prop :=
  (∀ digest p, rows (db_plans d) !! digest = Some p → rows (db_plans d') !! digest = Some p)
  ∧ match plan with
    | Some p => rows (db_plans d') !! plan_Digest p = Some p
    | None => db_plans d' = db_plans d
    end.

Section transaction.
Context (admits : Database → Statement → result error unit) (plandigest_Digest : string → string).

Lemma retained_keys {K V T} `{Countable K, EqDecision T} {key : V → K} (lens : TableLens key)
    (decode : V → T) (record_key : T → K) (order : V → V → bool) (after : list T) (d : Database) :
  (∀ v, record_key (decode v) = key v) →
  (∀ r, r ∈ decode <$> select_all order (lens_get lens d) → record_key r ∈ record_key <$> after) →
  ∀ k, is_Some (view lens decode d !! k) → k ∈ record_key <$> after.
Proof.
  intros Hkey Hin k [r Hr].
  pose proof (view_keyed lens decode record_key Hkey _ _ _ Hr) as <-.
  apply Hin. by apply (elem_of_listed lens decode record_key Hkey).
Qed.

Lemma validateRecordRetention_ok {T} (key : T → string) (message : string)
    (before after : list T) :
  validateRecordRetention key message before after = Ok tt →
  ∀ r, r ∈ before → key r ∈ key <$> after.
Proof.
  unfold validateRecordRetention. rewrite for_each_ok, Forall_forall.
  intros H r Hr. specialize (H r Hr). by apply refuse_ok, negb_false_iff, bool_decide_eq_true in H.
Qed.

Lemma unchanged_records_ok {K T} `{Countable K, EqDecision T} (key : T → K) (message : string)
    (before after : list T) :
  unchanged_records key message before after = Ok tt →
  ∀ r previous, r ∈ after → indexRecords key before !! key r = Some previous → previous = r.
Proof.
  unfold unchanged_records. rewrite for_each_ok, Forall_forall.
  intros H' r previous Hr Hp. specialize (H' r Hr). rewrite Hp in H'.
  by apply refuse_ok, negb_false_iff, bool_decide_eq_true in H'.
Qed.

(** Old events cannot change, so the records continue as their numbers do. *)
Lemma continued_records (before after : list GrantLifecycleRecord) :
  NoDup (lr_Sequence <$> before) → validateEventImmutability before after = Ok tt →
  sequences_continue (lr_Sequence <$> before) (lr_Sequence <$> after) →
  log_continues before after.
Proof.
  intros Hnd He (n & added & Ha & Hadded & Hpos & Hne).
  set (k := length (drop n before)).
  assert (take k after = drop n before ∧ lr_Sequence <$> drop k after = added) as [Hold Hnew].
  { rewrite <- fmap_drop in Ha. split.
    - apply list_eq_same_length with k; [done| |].
      { rewrite length_take. apply (f_equal length) in Ha.
        rewrite length_app, !length_fmap in Ha. unfold k in *. lia. }
      intros i r b Hi Hr Hb. rewrite lookup_take_lt in Hr by done.
      assert (lr_Sequence b = lr_Sequence r) as Heq.
      { apply (f_equal (.!! i)) in Ha. rewrite lookup_app_l in Ha by (by rewrite length_fmap).
        rewrite !list_lookup_fmap, Hr, Hb in Ha. by injection Ha. }
      symmetry. apply (unchanged_records_ok _ _ _ _ He); [by eapply list_elem_of_lookup_2|].
      apply lookup_indexRecords; [done|]. split; [|done].
      rewrite <- (take_drop n before). apply elem_of_app. right. by eapply list_elem_of_lookup_2.
    - apply (f_equal (drop k)) in Ha. rewrite drop_app_length' in Ha by (by rewrite length_fmap).
      by rewrite fmap_drop. }
  exists n, (drop k after). split_and!.
  - by rewrite <- Hold, take_drop.
  - intros b r Hb Hr. apply Hadded; [by apply list_elem_of_fmap_2|].
    rewrite <- Hnew. by apply list_elem_of_fmap_2.
  - by rewrite <- Hnew, Forall_fmap in Hpos.
  - intros H ->. apply Hne; [|done]. by intros ?%fmap_nil_inv.
Qed.

Lemma elem_of_key {A B} (f : A → B) (l : list A) (k : B) :
  k ∈ f <$> l → ∃ a, a ∈ l ∧ f a = k.
Proof. rewrite list_elem_of_fmap. naive_solver. Qed.

(** The events read back are those written, in the same order. *)
Lemma listed_events_eq (d : Database) (after : list GrantLifecycleRecord) :
  StronglySorted Z.lt (lr_Sequence <$> after) →
  (map_to_list (events_view d)).*2 ≡ₚ after →
  event_record <$> ListGrantLifecycleEvents d = after.
Proof.
  intros Hs Hp.
  assert (event_record <$> ListGrantLifecycleEvents d ≡ₚ after) as Hl.
  { rewrite <- Hp. apply (listed_view events_table event_record). }
  apply (StronglySorted_unique_strong (λ a b, lr_Sequence a <= lr_Sequence b)).
  - intros a b Ha Hb Hab Hba. apply (NoDup_fmap_elem lr_Sequence after);
      [by apply sorted_NoDup|by rewrite <- Hl|done|lia].
  - apply listed_events_sorted.
  - eapply sorted_weaken; [|by apply sorted_sequences]. intros a b Hab. cbn in *. lia.
  - exact Hl.
Qed.

Lemma putPlan_ok (plan : Plan) (d d' : Database) :
  putPlanWithQueries admits plandigest_Digest plan d = Ok d' →
  rewritten plans_table id d d' (rows (db_plans d'))
  ∧ plan_kept (Some plan) d d'
  ∧ plan_Digest plan = plandigest_Digest (plan_Canonical plan).
Proof.
  unfold putPlanWithQueries. rewrite seq_ok, bind_ok_iff. intros (Hvalid & d1 & Hput & Hget).
  rewrite bind_ok_iff in Hget. destruct Hget as (stored & Hget & Hv).
  apply seq_ok in Hv as [Hv [= <-]].
  assert (plan_Digest plan = plandigest_Digest (plan_Canonical plan)) as Hdigest.
  { unfold validatePlanRecord in Hvalid. rewrite !seq_ok, !refuse_ok in Hvalid.
    destruct Hvalid as (_ & Hd & _). apply orb_false_iff in Hd as [_ Hd].
    by apply negb_false_iff, String.eqb_eq in Hd. }
  unfold GetPlan in Hget. destruct (rows (db_plans d1) !! plan_Digest plan) as [p|] eqn:Ep;
    [|done]. injection Hget as ->.
  assert (stored = plan) as ->.
  { unfold verifyStoredPlan in Hv. rewrite seq_ok, !refuse_ok in Hv. destruct Hv as [Hv Ht].
    apply orb_false_iff in Hv as [Hs Hc].
    apply negb_false_iff, String.eqb_eq in Hs, Hc. apply negb_false_iff, Z.eqb_eq in Ht.
    pose proof (rows_keyed (db_plans d1) _ _ Ep) as Hk. cbn in Hk.
    destruct stored, plan; cbn in *; congruence. }
  unfold PutPlan in Hput. destruct (rows (db_plans d) !! plan_Digest plan) as [p|] eqn:E.
  - injection Hput as <-. split; [|done]. exists (db_plans d). split; [by destruct d|].
    apply map_fmap_id.
  - apply seq_ok in Hput as [_ [= <-]]. split; [|split; [split|done]].
    + eexists. split; [done|]. apply map_fmap_id.
    + intros digest p Hp. cbn. rewrite lookup_insert_ne; [done|]. intros <-.
      cbn in E. by rewrite E in Hp.
    + exact Ep.
Qed.

(** *** Each step changes only its table, whose listing is then the new one. *)

Lemma grants_persisted (before after : list GrantRecord) (d d' : Database) :
  before = decodeGrantRecord <$> ListGrants d → NoDup (gr_ID <$> after) →
  (∀ r, r ∈ before → gr_ID r ∈ gr_ID <$> after) →
  persistGrants admits before after d = Ok d' →
  (∃ t, d' = lens_set grants_table t d) ∧ decodeGrantRecord <$> ListGrants d' ≡ₚ after.
Proof.
  intros -> Hnd Hkept H. apply persistGrants_written in H;
    [|by apply (lookup_listed grants_table decodeGrantRecord gr_ID)|done].
  pose proof (rewritten_view _ _ _ _ _ H) as Hv. split; [destruct H as (t & -> & _); eauto|].
  etrans; [apply (listed_view grants_table decodeGrantRecord)|]. rewrite Hv.
  apply index_onto_covering; [done|]. by eapply (retained_keys grants_table decodeGrantRecord gr_ID).
Qed.

Lemma uses_persisted (before after : list GrantUseRecord) (d d' : Database) :
  before = decodeGrantUse <$> ListGrantUses d → NoDup (ur_RequestID <$> after) →
  (∀ r, r ∈ before → ur_RequestID r ∈ ur_RequestID <$> after) →
  persistGrantUses admits before after d = Ok d' →
  (∃ t, d' = lens_set uses_table t d) ∧ decodeGrantUse <$> ListGrantUses d' ≡ₚ after.
Proof.
  intros -> Hnd Hkept H. apply persistGrantUses_written in H;
    [|by apply (lookup_listed uses_table decodeGrantUse ur_RequestID)|done].
  pose proof (rewritten_view _ _ _ _ _ H) as Hv. split; [destruct H as (t & -> & _); eauto|].
  etrans; [apply (listed_view uses_table decodeGrantUse)|]. rewrite Hv.
  apply index_onto_covering; [done|]. by eapply (retained_keys uses_table decodeGrantUse ur_RequestID).
Qed.

Lemma events_persisted (before after : list GrantLifecycleRecord) (d d' : Database) :
  before = event_record <$> ListGrantLifecycleEvents d →
  StronglySorted Z.lt (lr_Sequence <$> after) →
  sequences_continue (lr_Sequence <$> before) (lr_Sequence <$> after) →
  validateEventImmutability before after = Ok tt →
  persistGrantEvents admits before after d = Ok d' →
  (∃ t, d' = lens_set events_table t d) ∧ event_record <$> ListGrantLifecycleEvents d' = after.
Proof.
  intros Hb Hs Hlog He H.
  apply continued_records in Hlog; [|rewrite Hb; apply events_keys_NoDup|done].
  unfold persistGrantEvents in H. rewrite bind_ok_iff in H.
  destruct H as (d1 & H1 & H). apply pruneGrantEvents_ok in H1 as (m & H1 & Hcover & Hold); [|done..].
  pose proof (rewritten_view _ _ _ _ _ H1) as Hv1.
  eapply (persist_new_ok events_table event_record lr_Sequence (insertGrantEvent admits)) in H;
    [|by apply sorted_NoDup| |intros r e e'; apply insertGrantEvent_ok].
  - pose proof (rewritten_view _ _ _ _ _ H) as Hv. split.
    + destruct H1 as (t1 & -> & _), H as (t & -> & _). exists t. by rewrite lens_set_set.
    + apply listed_events_eq; [done|]. rewrite Hv, Hv1.
      apply index_onto_covering; [by apply sorted_NoDup|done].
  - intros r Hr Hin. rewrite Hv1. apply Hold; [done|].
    apply elem_of_key in Hin as (b & Hbin & Heq).
    rewrite <- (unchanged_records_ok _ _ _ _ He r b Hr); [done|].
    apply lookup_indexRecords; [rewrite Hb; apply events_keys_NoDup|done].
Qed.

Lemma decisions_persisted (before after : list GrantDecisionRecord) (d d' : Database) :
  before = decodeDecision <$> ListDecisionRecords d → NoDup (dr_Scope <$> after) →
  validateDecisionRetention before after = Ok tt →
  persistGrantDecisions admits before after d = Ok d' →
  (∃ t, d' = lens_set decisions_table t d) ∧ decodeDecision <$> ListDecisionRecords d' ≡ₚ after.
Proof.
  intros -> Hnd Hv H. apply seq_ok in Hv as [Hsame Hkept].
  eapply (persist_new_ok decisions_table decodeDecision dr_Scope
            (λ r, InsertDecisionRecord admits (insertDecisionParams r))) in H;
    [|done| |intros r e e'; apply InsertDecisionRecord_ok].
  - pose proof (rewritten_view _ _ _ _ _ H) as Hv. split; [destruct H as (t & -> & _); eauto|].
    etrans; [apply (listed_view decisions_table decodeDecision)|]. rewrite Hv.
    apply index_onto_covering; [done|].
    eapply (retained_keys decisions_table decodeDecision dr_Scope); [done|].
    exact (validateRecordRetention_ok _ _ _ _ Hkept).
  - intros r Hr Hin. apply elem_of_key in Hin as (b & Hb & Heq). rewrite <- Heq.
    assert (b = r) as ->.
    { apply (unchanged_records_ok _ _ _ _ Hsame r b Hr), lookup_indexRecords; [|done].
      by apply (listed_keys decisions_table decodeDecision dr_Scope). }
    by apply (elem_of_listed decisions_table decodeDecision dr_Scope) in Hb.
Qed.

Lemma persistGrantChanges_ok (before after : GrantSnapshot) (d d' : Database) :
  before = table_snapshot d → follows before after →
  persistGrantChanges admits before after d = Ok d' →
  same_rows after (table_snapshot d') ∧ db_plans d' = db_plans d.
Proof.
  intros -> [Hfg Hfu Hfd Hfs Hfl]. unfold persistGrantChanges, validateGrantSnapshotTransition.
  rewrite !seq_ok. intros [(Hg & Hu & He & Hd) H].
  rewrite bind_ok_iff in H. destruct H as (d1 & H1 & H).
  rewrite bind_ok_iff in H. destruct H as (d2 & H2 & H).
  rewrite bind_ok_iff in H. destruct H as (d3 & H3 & H4).
  apply grants_persisted in H1 as [(t1 & ->) Hl1];
    [|done|done|exact (validateRecordRetention_ok _ _ _ _ Hg)].
  apply uses_persisted in H2 as [(t2 & ->) Hl2];
    [|done|done|exact (validateRecordRetention_ok _ _ _ _ Hu)].
  apply events_persisted in H3 as [(t3 & ->) Hl3]; [|done..].
  apply decisions_persisted in H4 as [(t4 & ->) Hl4]; [|done..].
  by split.
Qed.

(** What a transaction that does not fail leaves in the tables. *)
Lemma grant_transaction_ok (before after : GrantSnapshot) (plan : option Plan) (d d' : Database) :
  follows before after →
  grant_transaction admits plandigest_Digest before after plan d = Ok d' →
  before = table_snapshot d ∧ same_rows after (table_snapshot d')
  ∧ loadGrantSnapshot d' = Ok (table_snapshot d') ∧ plan_kept plan d d'.
Proof.
  intros Hf. unfold grant_transaction. rewrite bind_ok_iff. intros (current & Hload & H).
  apply loadGrantSnapshot_ok in Hload as [-> Hpos].
  apply seq_ok in H as [Hsame H]. apply refuse_ok, negb_false_iff, bool_decide_eq_true in Hsame as <-.
  rewrite bind_ok_iff in H. destruct H as (d1 & Hplan & H).
  assert (table_snapshot d1 = table_snapshot d ∧ plan_kept plan d d1) as [Hsnap Hkept].
  { destruct plan as [p|]; [|by injection Hplan as <-].
    apply putPlan_ok in Hplan as ((t & -> & _) & Hk & _). done. }
  apply persistGrantChanges_ok in H as [Hrows Hplans]; [|done|done].
  split; [done|]. split; [done|]. split.
  - apply loadGrantSnapshot_ok. split; [done|]. rewrite (same_Events _ _ Hrows).
    apply (proj1 (Forall_fmap lr_Sequence (λ s, 1 <= s) _)).
    destruct (follows_log _ _ Hf) as (n & added & -> & _ & Hadded & _).
    apply Forall_app. split; [|done]. by apply Forall_drop, Forall_fmap.
  - destruct Hkept as [Hk Hp]. split; [intros; rewrite Hplans; auto|].
    destruct plan; by rewrite Hplans.
Qed.
End transaction.
