(* ===== verification/GrantsDatabase.v ===== *)
(** * The database keeps what the store writes

    The conversions of GrantsSQLite are inverse to each other on data whose
    texts are UTF-8.  So the laws of [GrantStorage] hold of a database whose
    encoder refuses other text ([JSONRefuses]), and every theorem about the
    store holds of such a store opened with [NewDatabase].  Go's encoder rewrites
    text that is not UTF-8 instead: for data with such text the laws, and what
    rests on them, are not claimed. *)

From S2P Require Export GrantsSQLite StateFacts.

Local Open Scope Z_scope.

(** ** Conversion of lists *)

Lemma collect_perm {E A B} (f : A → result E B) (l l' : list A) (bs : list B) :
  l ≡ₚ l' → collect f l = Ok bs → ∃ bs', collect f l' = Ok bs' ∧ bs' ≡ₚ bs.
Proof.
  setoid_rewrite collect_ok. intros Hp. revert bs.
  induction Hp as [|a l l' _ IH|a b l|l l1 l2 _ IH1 _ IH2]; intros bs Hbs.
  - exists bs. by inversion Hbs.
  - inversion Hbs as [|? b ? bs0 Hab Hbs0]; subst. destruct (IH _ Hbs0) as (bs' & Hf & Hp).
    exists (b :: bs'). by split; [constructor|rewrite Hp].
  - inversion Hbs as [|? b' ? bs0 Hab Hbs0]; subst. inversion Hbs0 as [|? c ? bs1 Hac Hbs1]; subst.
    exists (c :: b' :: bs1). split; [by repeat constructor|apply Permutation_swap].
  - destruct (IH1 _ Hbs) as (bs1 & Hf1 & Hp1). destruct (IH2 _ Hf1) as (bs2 & Hf2 & Hp2).
    exists bs2. split; [done|]. by rewrite Hp2.
Qed.

(** Converting there and back. *)
Lemma collect_back {E A B C} (f : A → result E B) (g : B → result E C) (h : A → C)
    (l : list A) (bs : list B) :
  (∀ a b, a ∈ l → f a = Ok b → g b = Ok (h a)) →
  collect f l = Ok bs → collect g bs = Ok (h <$> l).
Proof.
  rewrite !collect_ok. intros Hfg H. induction H as [|a b l bs Hab _ IH]; csimpl; [constructor|].
  constructor; [apply Hfg; [left|done]|]. apply IH. intros a' b' Ha'. apply Hfg. by right.
Qed.

Lemma collect_key {E A B K} (f : A → result E B) (ka : A → K) (kb : B → K)
    (l : list A) (bs : list B) :
  (∀ a b, f a = Ok b → kb b = ka a) → collect f l = Ok bs → kb <$> bs = ka <$> l.
Proof.
  rewrite collect_ok. intros Hk H. induction H as [|a b l bs Hab _ IH]; csimpl; [done|].
  by rewrite IH, (Hk _ _ Hab).
Qed.

Lemma collected_ok {E A B} (f : A → result E B) (l : list A) (bs : list B) (a : A) :
  collect f l = Ok bs → a ∈ l → ∃ b, f a = Ok b.
Proof.
  rewrite collect_ok. intros H Ha. apply list_elem_of_lookup in Ha as [i Hi].
  destruct (Forall2_lookup_l _ _ _ _ _ H Hi) as (b & _ & Hab). by exists b.
Qed.

Lemma collect_elem {E A B} (f : A → result E B) (l : list A) (bs : list B) (b : B) :
  collect f l = Ok bs → b ∈ bs → ∃ a, a ∈ l ∧ f a = Ok b.
Proof.
  rewrite collect_ok. intros H Hb. apply list_elem_of_lookup in Hb as [i Hi].
  destruct (Forall2_lookup_r _ _ _ _ _ H Hi) as (a & Ha & Hab).
  exists a. split; [by eapply list_elem_of_lookup_2|done].
Qed.

(** The last of a sorted log has the greatest number. *)
Lemma last_is_greatest (events : list EventRecord) (records : list GrantLifecycleRecord)
    (e : EventRecord) :
  ev_Sequence <$> events = lr_Sequence <$> records →
  StronglySorted (λ a b, lr_Sequence a <= lr_Sequence b) records → e ∈ events →
  ev_Sequence e < match last events with Some e => ev_Sequence e + 1 | None => 1 end.
Proof.
  revert records e; induction events as [|f events IH]; intros [|r records] e Hk Hs He; try done.
  - by apply not_elem_of_nil in He.
  - csimpl in Hk. injection Hk as Hf Hk. apply StronglySorted_inv in Hs as [Hs Hr].
    destruct events as [|f' events].
    + apply list_elem_of_singleton in He as ->. cbn. lia.
    + rewrite last_cons_cons. apply elem_of_cons in He as [->|He]; [|by apply (IH records)].
      destruct records as [|r' records]; [done|]. csimpl in Hk. injection Hk as Hf' Hk.
      assert (ev_Sequence f' < match last (f' :: events) with
                               | Some e => ev_Sequence e + 1 | None => 1 end)
        by (apply (IH (r' :: records)); [csimpl; by rewrite Hf', Hk|done|left]).
      apply Forall_cons in Hr as [Hr _]. lia.
Qed.

Section conversions.
Context {R : MapRange}.
Context `{JT : JSON Target} `{JA : JSON StringListMap} `{JM : JSON (gmap string string)}
  `{JE : JSON EventRecord} `{JG : JSON Grant}.
Context {LT : JSONLaws Target} {LA : JSONLaws StringListMap} {LM : JSONLaws (gmap string string)}
  {LE : JSONLaws EventRecord} {LG : JSONLaws Grant}.

(** ** Grants and uses *)

Lemma useLimit_back (l : Limit) : useLimitValue (useLimitPointer l) = l.
Proof.
  unfold useLimitPointer, IsUnlimited. by destruct (Z.eqb_spec l Unlimited) as [->|].
Qed.

(** The maps of a grant that are columns of JSON. *)
Definition columns_utf8 (g : Grant) : bool :=
  all_utf8 (grant_Target g) && all_utf8 (grant_Attrs g) && all_utf8 (grant_Metadata g).

Lemma grant_back (g : Grant) (r : GrantRecord) :
  columns_utf8 g = true → grantToSQLite g = Ok r → grantFromSQLite r = Ok g.
Proof.
  unfold columns_utf8. rewrite !andb_true_iff. intros [[Ut Ua] Um]. unfold grantToSQLite. rewrite bind_ok_iff. intros (target & Ht & H).
  rewrite bind_ok_iff in H. destruct H as (attrs & Ha & H).
  rewrite bind_ok_iff in H. destruct H as (metadata & Hm & H).
  rewrite bind_ok_iff in H. destruct H as (digest & Hd & [= <-]).
  apply json_roundtrip in Ht, Ha, Hm; [|done..].
  unfold grantFromSQLite, decodeGrantJSON. cbn -[useLimitValue useLimitPointer].
  rewrite Ht, Ha, Hm. cbn -[useLimitValue useLimitPointer]. rewrite Hd, String.eqb_refl.
  cbn -[useLimitValue useLimitPointer]. rewrite !useLimit_back. by destruct g.
Qed.

Lemma grant_to_id (g : Grant) (r : GrantRecord) : grantToSQLite g = Ok r → gr_ID r = grant_ID g.
Proof.
  unfold grantToSQLite. rewrite !bind_ok_iff. intros (? & _ & H).
  rewrite !bind_ok_iff in H. destruct H as (? & _ & H).
  rewrite !bind_ok_iff in H. destruct H as (? & _ & H).
  rewrite !bind_ok_iff in H. by destruct H as (? & _ & [= <-]).
Qed.

Lemma use_back (u : GrantUse) : useFromSQLite (useToSQLite u) = u.
Proof. by destruct u. Qed.

(** ** Events *)

Lemma event_back (e : EventRecord) (r : GrantLifecycleRecord) :
  all_utf8 e = true → eventToSQLite e = Ok r → eventFromSQLite r = Ok e.
Proof.
  unfold eventToSQLite. rewrite bind_ok_iff. intros Ue (payload & Hp & [= <-]).
  apply json_roundtrip in Hp; [|done]. apply bind_ok_iff. exists e. split; [by apply wrap_decode_ok|].
  apply seq_ok. split; [|done]. apply refuse_ok, negb_false_iff.
  unfold eventMatchesRecord. cbn [lr_Sequence lr_GrantID lr_Kind lr_Revision lr_OccurredAt lr_Cursor].
  rewrite !Z.eqb_refl, !String.eqb_refl. by rewrite bool_decide_eq_true_2.
Qed.

Lemma event_to_sequence (e : EventRecord) (r : GrantLifecycleRecord) :
  eventToSQLite e = Ok r → lr_Sequence r = ev_Sequence e.
Proof. unfold eventToSQLite. rewrite bind_ok_iff. by intros (? & _ & [= <-]). Qed.

Lemma event_from_sequence (e : EventRecord) (r : GrantLifecycleRecord) :
  eventFromSQLite r = Ok e → ev_Sequence e = lr_Sequence r.
Proof.
  unfold eventFromSQLite. rewrite bind_ok_iff. intros (e' & _ & H).
  apply seq_ok in H as [H [= ->]]. apply refuse_ok, negb_false_iff in H.
  unfold eventMatchesRecord in H. bool_to_prop. done.
Qed.

(** ** Decision records *)

Notation reread_record := (sqlite_reread (JG := JG)).

Lemma preserved_back (raw text : string) (value g : Grant) :
  preservedDecisionJSON raw value = Ok text →
  (is_empty raw = false → json_decode raw = Ok value) →
  (is_empty raw = true → all_utf8 value = true) →
  json_decode text = Ok value.
Proof.
  unfold preservedDecisionJSON. destruct (is_empty raw) eqn:E; cbn [negb].
  - intros Hm _ Hu. by apply json_roundtrip; [apply Hu|].
  - intros [= <-] H _. by apply H.
Qed.

(** A record whose preserved texts, if any, denote its grants. *)
Definition texts_denote (r : DecisionRecord) : Prop :=
  (is_empty (rec_resultJSON r) = false → json_decode (rec_resultJSON r) = Ok (rec_Result r))
  ∧ (is_empty (rec_previousJSON r) = false →
     json_decode (rec_previousJSON r) = Ok (rec_Previous r)).

Lemma fresh_texts (r : DecisionRecord) : fresh_record r → texts_denote r.
Proof. intros [H1 H2]. unfold texts_denote. by rewrite H1, H2. Qed.

(** The grants of a record that are written, not preserved, are UTF-8. *)
Definition record_utf8 (r : DecisionRecord) : bool :=
  (negb (is_empty (rec_resultJSON r)) || all_utf8 (rec_Result r))
  && (negb (is_empty (rec_previousJSON r)) || all_utf8 (rec_Previous r)).

Lemma decision_back (r : DecisionRecord) (a : GrantDecisionRecord) :
  texts_denote r → record_utf8 r = true → decisionToSQLite r = Ok a → decisionFromSQLite a = Ok (reread_record r).
Proof.
  intros [Hr Hp]. unfold record_utf8. rewrite andb_true_iff, !orb_true_iff, !negb_true_iff.
  intros [Ur Up]. unfold decisionToSQLite. rewrite bind_ok_iff.
  intros ([[requestID action] key] & Hs & H).
  rewrite bind_ok_iff in H. destruct H as (result & Hresult & H).
  rewrite bind_ok_iff in H. destruct H as (previous & Hprevious & [= <-]).
  pose proof (preserved_back _ _ _ (rec_Result r) Hresult Hr ltac:(intros E; destruct Ur; congruence)) as Hdr.
  pose proof (preserved_back _ _ _ (rec_Previous r) Hprevious Hp ltac:(intros E; destruct Up; congruence)) as Hdp.
  unfold decisionFromSQLite, decodeDecisionGrants. cbn. rewrite Hdr, Hdp. cbn.
  unfold option_ok in Hs. destruct (parseDecisionScope (rec_Scope r)) as [[[a b] c]|]; [|done].
  injection Hs as -> -> ->. rewrite !String.eqb_refl. cbn.
  unfold sqlite_reread. by rewrite Hresult, Hprevious.
Qed.

Lemma decision_to_scope (r : DecisionRecord) (a : GrantDecisionRecord) :
  decisionToSQLite r = Ok a → dr_Scope a = rec_Scope r.
Proof.
  unfold decisionToSQLite. rewrite bind_ok_iff. intros ([[? ?] ?] & _ & H).
  rewrite bind_ok_iff in H. destruct H as (? & _ & H).
  rewrite bind_ok_iff in H. by destruct H as (? & _ & [= <-]).
Qed.

(** A record that was read denotes its texts and is read the same again. *)
Lemma decision_loaded (r : DecisionRecord) (a : GrantDecisionRecord) :
  decisionFromSQLite a = Ok r → texts_denote r ∧ reread_record r = r.
Proof.
  unfold decisionFromSQLite, decodeDecisionGrants. rewrite bind_ok_iff.
  intros ([result previous] & Hd & H). apply seq_ok in H as [_ [= <-]].
  rewrite bind_ok_iff in Hd. destruct Hd as (result' & Hr & Hd).
  rewrite bind_ok_iff in Hd. destruct Hd as (previous' & Hp & [= -> ->]).
  apply wrap_decode_ok in Hr, Hp. split; [done|].
  unfold sqlite_reread, preservedDecisionJSON. cbn.
  by rewrite (json_nonempty _ _ Hr), (json_nonempty _ _ Hp).
Qed.

(** ** The whole data *)

(** Everything the database keeps as JSON of this data is UTF-8. *)
Definition data_utf8 (d : FileData) : bool :=
  forallb columns_utf8 (fd_Grants d) && forallb all_utf8 (fd_Events d)
  && forallb record_utf8 (fd_DecisionRecords d).

Lemma fileData_back (d : FileData) (after s' : GrantSnapshot) :
  data_utf8 d = true → fileDataToSQLite d = Ok after → same_rows after s' →
  (∀ r, r ∈ fd_DecisionRecords d → texts_denote r) →
  fd_NextEvent d = next_sequence (fd_Events d) →
  ∃ d', fileDataFromSQLite s' = Ok d'
    ∧ fd_Grants d' ≡ₚ fd_Grants d ∧ fd_Uses d' ≡ₚ fd_Uses d ∧ fd_Events d' = fd_Events d
    ∧ fd_NextEvent d' = fd_NextEvent d
    ∧ fd_DecisionRecords d' ≡ₚ reread_record <$> fd_DecisionRecords d.
Proof.
  unfold data_utf8. rewrite !andb_true_iff, !forallb_elem_of. intros [[Ug Ue] Ur].
  intros H [Hg Hu He Hd] Htexts Hnext. unfold fileDataToSQLite in H.
  rewrite bind_ok_iff in H. destruct H as (grants & Hgrants & H).
  rewrite bind_ok_iff in H. destruct H as (events & Hevents & H).
  rewrite bind_ok_iff in H. destruct H as (decisions & Hdecisions & [= <-]).
  cbn [snap_Grants snap_Uses snap_Events snap_Decisions] in Hg, Hu, He, Hd.
  apply (collect_back _ grantFromSQLite id) in Hgrants; [|intros g r Hin; by apply grant_back, Ug].
  apply (collect_back _ eventFromSQLite id) in Hevents; [|intros e r Hin; by apply event_back, Ue].
  apply (collect_back _ decisionFromSQLite reread_record) in Hdecisions;
    [|intros r a Hr; apply decision_back; auto].
  rewrite list_fmap_id in Hgrants. rewrite list_fmap_id in Hevents.
  destruct (collect_perm _ _ _ _ (symmetry Hg) Hgrants) as (grants' & Hgrants' & Hpg).
  destruct (collect_perm _ _ _ _ (symmetry Hd) Hdecisions) as (decisions' & Hdecisions' & Hpd).
  unfold fileDataFromSQLite, eventsFromSQLite. rewrite Hgrants', He, Hevents, Hdecisions'.
  eexists. split; [reflexivity|]. cbn [fd_Grants fd_Uses fd_Events fd_NextEvent fd_DecisionRecords].
  split_and!; [done| |done|by rewrite Hnext|done].
  rewrite Hu, <- list_fmap_compose. rewrite (list_fmap_ext _ id); [by rewrite list_fmap_id|].
  intros i u _. apply use_back.
Qed.

(** The sequence numbers of a log that extends the one of a snapshot. *)
Lemma sequences_of_log (records : list GrantLifecycleRecord) (d0 d : FileData) :
  ev_Sequence <$> fd_Events d0 = lr_Sequence <$> records →
  fd_NextEvent d0 = next_sequence (fd_Events d0) →
  Forall (λ r, 1 <= lr_Sequence r) records →
  StronglySorted (λ a b, lr_Sequence a <= lr_Sequence b) records →
  log_extends d0 d →
  sequences_continue (lr_Sequence <$> records) (ev_Sequence <$> fd_Events d).
Proof.
  intros Hs Hnext Hpos Hsorted (n & added & Hev & Hadded & _ & Hempty).
  assert (∀ e, e ∈ fd_Events d0 → 1 <= ev_Sequence e < fd_NextEvent d0) as Hlt.
  { intros e He. split.
    - pose proof (list_elem_of_fmap_2 ev_Sequence _ _ He) as Hin. rewrite Hs in Hin.
      apply elem_of_key in Hin as (r & Hr & <-). rewrite Forall_forall in Hpos. by apply Hpos.
    - rewrite Hnext. by apply (last_is_greatest _ records). }
  rewrite <- Hs. exists n, (ev_Sequence <$> added). split_and!.
  - by rewrite Hev, fmap_app, fmap_drop.
  - intros b s Hb Hin. apply elem_of_key in Hb as (e & He & <-), Hin as (e' & He' & <-).
    rewrite Forall_forall in Hadded. specialize (Hadded _ He'). specialize (Hlt _ He). lia.
  - apply Forall_fmap. eapply Forall_impl; [exact Hadded|]. intros e He. cbn in *.
    unfold next_sequence in Hnext. destruct (last (fd_Events d0)) as [l|] eqn:E; [|lia].
    apply last_Some_elem_of in E. specialize (Hlt _ E). lia.
  - intros Hb Hnil. apply fmap_nil_inv in Hnil. apply Hempty; [|done].
    intros H0. apply Hb. by rewrite H0.
Qed.

(** What may be written over the data read from a snapshot gives a snapshot
    that may follow it. *)
Lemma writable_follows (before after : GrantSnapshot) (d0 d : FileData) :
  fileDataFromSQLite before = Ok d0 → writable d0 d → fileDataToSQLite d = Ok after →
  Forall (λ r, 1 <= lr_Sequence r) (snap_Events before) → 
  StronglySorted (λ a b, lr_Sequence a <= lr_Sequence b) (snap_Events before) →
  follows before after.
Proof.
  intros H0 Hw H Hpos Hsorted. unfold fileDataToSQLite in H.
  rewrite bind_ok_iff in H. destruct H as (grants & Hgrants & H).
  rewrite bind_ok_iff in H. destruct H as (events & Hevents & H).
  rewrite bind_ok_iff in H. destruct H as (decisions & Hdecisions & [= <-]).
  unfold fileDataFromSQLite, eventsFromSQLite in H0.
  rewrite bind_ok_iff in H0. destruct H0 as (grants0 & _ & H0).
  rewrite bind_ok_iff in H0. destruct H0 as ([events0 next0] & He0 & H0).
  rewrite bind_ok_iff in H0. destruct H0 as (decisions0 & _ & [= <-]).
  rewrite bind_ok_iff in He0. destruct He0 as (events0' & Hevents0 & [= <- <-]).
  apply (collect_key _ ev_Sequence lr_Sequence) in Hevents; [|apply event_to_sequence].
  apply (collect_key _ lr_Sequence ev_Sequence) in Hevents0;
    [|intros r e; apply event_from_sequence].
  destruct Hw as [Hgr Hus Hsc Hso Hne Hlog _].
  split; cbn [snap_Grants snap_Uses snap_Events snap_Decisions].
  - by rewrite (collect_key _ grant_ID gr_ID _ _ grant_to_id Hgrants).
  - by rewrite <- list_fmap_compose.
  - by rewrite (collect_key _ rec_Scope dr_Scope _ _ decision_to_scope Hdecisions).
  - by rewrite Hevents.
  - rewrite Hevents. eapply sequences_of_log; [| |exact Hpos|exact Hsorted|exact Hlog];
      [exact Hevents0|done].
Qed.
End conversions.

(** ** The laws of storage *)

Section storage.
Context {R : MapRange}.
Context `{JT : JSON Target} `{JA : JSON StringListMap} `{JM : JSON (gmap string string)}
  `{JE : JSON EventRecord} `{JG : JSON Grant}.
Context {LT : JSONLaws Target} {LA : JSONLaws StringListMap} {LM : JSONLaws (gmap string string)}
  {LE : JSONLaws EventRecord} {LG : JSONLaws Grant}.
Context (admits : Database → Statement → result error unit)
  (begin_tx : nat → result error unit) (commit_tx : nat → CommitOutcome)
  (plandigest_Digest : string → string).

Notation storage := (sqlite admits begin_tx commit_tx plandigest_Digest).
Notation transaction := (grant_transaction admits plandigest_Digest).

Lemma sqlite_loadRaw_ok (s : Database) (d : FileData) :
  sqlite_loadRaw s = Ok d →
  loadGrantSnapshot s = Ok (table_snapshot s) ∧ fileDataFromSQLite (table_snapshot s) = Ok d
  ∧ Forall (λ r, 1 <= lr_Sequence r) (snap_Events (table_snapshot s)).
Proof.
  unfold sqlite_loadRaw. rewrite bind_ok_iff. intros (snapshot & Hs & Hd).
  pose proof Hs as Hs'. apply loadGrantSnapshot_ok in Hs' as [-> Hpos]. done.
Qed.

(** How a save ends: nothing happened, or the transaction is in the tables. *)
Lemma sqlite_saveRaw_cases (s s' : Database) (d : FileData) (plan : option Plan)
    (r : result error unit) :
  sqlite_saveRaw admits begin_tx commit_tx plandigest_Digest s d plan = (r, s') →
  (is_ok r = false ∧ (s' = s ∨ s' = begun s))
  ∨ ∃ before after d', loadGrantSnapshot s = Ok before ∧ fileDataToSQLite d = Ok after
      ∧ transaction before after plan s = Ok d' ∧ s' = begun d'
      ∧ (r = Ok tt ∨ ∃ e, r = Err e ∧ commit_tx (db_transactions s) = Unacknowledged e).
Proof.
  unfold sqlite_saveRaw, saveGrantSnapshot.
  destruct (loadGrantSnapshot s) as [before|e]; [|intros [= <- <-]; auto].
  destruct (fileDataToSQLite d) as [after|e]; [|intros [= <- <-]; auto].
  destruct (begin_tx _) as [[]|e]; [|intros [= <- <-]; auto].
  destruct (transaction before after plan s) as [d'|e] eqn:E; [|intros [= <- <-]; auto].
  destruct (commit_tx _) as [|e|e] eqn:Ec; intros [= <- <-]; [| by auto|].
  - right. exists before, after, d'. split_and!; auto.
  - right. exists before, after, d'. split_and!; eauto.
Qed.

Lemma transaction_stored (s d' : Database) (d0 d : FileData) (before after : GrantSnapshot)
    (plan : option Plan) :
  data_utf8 d = true → sqlite_loadRaw s = Ok d0 → writable d0 d →
  loadGrantSnapshot s = Ok before →
  fileDataToSQLite d = Ok after → transaction before after plan s = Ok d' →
  (∃ data', sqlite_loadRaw d' = Ok data' ∧ stored_as (GS := storage) d data')
  ∧ plan_kept plan s d'.
Proof.
  intros Hutf Hl Hw Hb Ha Ht. apply sqlite_loadRaw_ok in Hl as (Hl & H0 & Hpos).
  assert (before = table_snapshot s) as -> by congruence.
  apply grant_transaction_ok in Ht as (_ & Hrows & Hload & Hplan);
    [|eapply writable_follows; [exact H0|exact Hw|exact Ha|exact Hpos|]; apply listed_events_sorted].
  split; [|done].
  destruct (fileData_back d after (table_snapshot d') Hutf Ha Hrows) as (data' & Hd' & Hsame).
  - intros r Hr. destruct (wr_records _ _ Hw) as (added & Hadded & Hfresh).
    rewrite Hadded in Hr. apply elem_of_app in Hr as [Hr|Hr].
    + unfold fileDataFromSQLite in H0. rewrite bind_ok_iff in H0. destruct H0 as (grants & _ & H0).
      rewrite bind_ok_iff in H0. destruct H0 as ([events next] & _ & H0).
      rewrite bind_ok_iff in H0. destruct H0 as (decisions & Hdec & [= <-]).
      destruct (collect_elem _ _ _ _ Hdec Hr) as (a & _ & Har). by apply (decision_loaded _ a).
    + apply fresh_texts. rewrite Forall_forall in Hfresh. by apply Hfresh.
  - exact (wr_NextEvent _ _ Hw).
  - exists data'. split; [unfold sqlite_loadRaw; by rewrite Hload|].
    destruct Hsame as (Hg & Hu & He & Hn & Hd). by split.
Qed.

(** An encoder that refuses other text converts UTF-8 only. *)
Lemma refused_utf8 {RT : JSONRefuses Target} {RA : JSONRefuses StringListMap}
    {RM : JSONRefuses (gmap string string)} {RE : JSONRefuses EventRecord} {RG : JSONRefuses Grant}
    (d : FileData) (after : GrantSnapshot) :
  fileDataToSQLite d = Ok after → data_utf8 d = true.
Proof.
  unfold fileDataToSQLite, eventsToSQLite, data_utf8. rewrite !andb_true_iff, !forallb_elem_of.
  rewrite bind_ok_iff. intros (grants & Hgrants & H).
  rewrite bind_ok_iff in H. destruct H as (events & Hevents & H).
  rewrite bind_ok_iff in H. destruct H as (decisions & Hdecisions & _). split_and!.
  - intros g (r & Hr)%(collected_ok _ _ _ _ Hgrants). unfold grantToSQLite in Hr.
    rewrite bind_ok_iff in Hr. destruct Hr as (target & Ht & Hr).
    rewrite bind_ok_iff in Hr. destruct Hr as (attrs & Ha & Hr).
    rewrite bind_ok_iff in Hr. destruct Hr as (metadata & Hm & _).
    unfold columns_utf8. by rewrite (json_refuses _ _ Ht), (json_refuses _ _ Ha), (json_refuses _ _ Hm).
  - intros e (r & Hr)%(collected_ok _ _ _ _ Hevents). unfold eventToSQLite in Hr.
    rewrite bind_ok_iff in Hr. destruct Hr as (payload & Hp & _). by apply json_refuses in Hp.
  - intros c (r & Hr)%(collected_ok _ _ _ _ Hdecisions). unfold decisionToSQLite in Hr.
    rewrite bind_ok_iff in Hr. destruct Hr as ([[? ?] ?] & _ & Hr).
    rewrite bind_ok_iff in Hr. destruct Hr as (result & H1 & Hr).
    rewrite bind_ok_iff in Hr. destruct Hr as (previous & H2 & _).
    unfold preservedDecisionJSON in H1, H2. unfold record_utf8.
    destruct (is_empty (rec_resultJSON c)), (is_empty (rec_previousJSON c)); cbn [negb orb] in *;
      rewrite ?(json_refuses _ _ H1), ?(json_refuses _ _ H2); done.
Qed.

#[export] Instance sqlite_laws {RT : JSONRefuses Target} {RA : JSONRefuses StringListMap}
    {RM : JSONRefuses (gmap string string)} {RE : JSONRefuses EventRecord} {RG : JSONRefuses Grant} :
  GrantStorageLaws (GS := storage).
Proof.
  split; try done.
  - intros s d0 d plan s' Hl Hw Hs.
    apply sqlite_saveRaw_cases in Hs as [[? _]|(before & after & d' & Hb & Ha & Ht & -> & _)]; [done|].
    by destruct (transaction_stored _ _ _ _ _ _ _ (refused_utf8 _ _ Ha) Hl Hw Hb Ha Ht).
  - intros s d0 d plan e s' Hl Hw Hs.
    apply sqlite_saveRaw_cases in Hs as [(_ & [->| ->])|(before & after & d' & Hb & Ha & Ht & -> & _)];
      [by left|by left|].
    right. by destruct (transaction_stored _ _ _ _ _ _ _ (refused_utf8 _ _ Ha) Hl Hw Hb Ha Ht).
  - intros s d Hl r Hr. apply sqlite_loadRaw_ok in Hl as (_ & H0 & _).
    unfold fileDataFromSQLite in H0. rewrite bind_ok_iff in H0. destruct H0 as (grants & _ & H0).
    rewrite bind_ok_iff in H0. destruct H0 as ([events next] & _ & H0).
    rewrite bind_ok_iff in H0. destruct H0 as (decisions & Hdec & [= <-]).
    destruct (collect_elem _ _ _ _ Hdec Hr) as (a & _ & Har). by apply (decision_loaded _ a).
  - intros r. by right.
Qed.
End storage.
