(* ===== verification/GrantsPlans.v ===== *)
(** * Where the grant store departs from its intent, and what the database adds

    First sessions: each theorem runs the store's own operations on the store in
    memory, with the default options, and states what they return.  Then plans,
    stale snapshots and sessions on the database, and what the operations leave
    alone. *)

From S2P Require Export GrantsDatabase GrantsDecisions.
From S2P Require Export GrantsVerdicts.
From Stdlib Require Import Ascii.

Local Open Scope Z_scope.

(** ** A decision on a failed grant *)

(** An activation check that fails for good. *)
Definition plan_is_gone : ActivationCheck :=
  λ _ _, Some (activation_New CodePlanUnavailable None).

Definition failed_world : World :=
  snd (ApplyOperatorDecision ticking default_options no_digest
         (approve_command "k1" 1 as_requested) (Some plan_is_gone) requested_world).

Definition decide_again : Eff (OperatorDecisionResult * option error) :=
  ApplyOperatorDecision ticking default_options no_digest
    (approve_command "k2" 2 as_requested) None.

(** Approving a grant whose activation failed is refused as an invalid transition, but
    the refusal is recorded as if it had been committed: the same command sent again is a
    replay without any error, for a grant that is still failed. *)
Theorem failed_grant_replay_hides_error :
  grant_Status <$> fd_Grants (w_storage failed_world) = [StatusFailed]
  ∧ let '((first, err1), w1) := decide_again failed_world in
    let '((second, err2), _) := decide_again w1 in
    err1 = Some ErrInvalidTransition ∧ res_Replay first = false
    ∧ err2 = None ∧ res_Replay second = true
    ∧ grant_Status (res_Grant second) = StatusFailed.
Proof. vm_compute. repeat split. Qed.

(** ** Expiry during a decision *)

Definition named_request (client id : string) (timeout : Duration) : GrantRequest :=
  MkGrantRequest client id "read" (MkTarget "file" ∅) ∅ ∅ "backup" hour timeout 2 true false.

Definition request_as (client id : string) (timeout : Duration) : Eff RequestOutcome :=
  Store_Request ticking counting_ids default_options (named_request client id timeout).

(** The first grant may stay pending for an hour, the second for five minutes. *)
Definition two_requests : World :=
  snd (request_as "carol" "req-2" (5 * minute) (snd (request_as "alice" "req-1" hour fresh_world))).

Definition ten_minutes_later (w : World) : World :=
  MkWorld (w_storage w) (w_tick w + 600) (w_ids w) (w_signals w).

Definition expired_events (d : FileData) : list (string * Z) :=
  (λ e, (ev_GrantID e, ev_Revision e))
    <$> filter (λ e, ev_Kind e = EventRequestExpired) (fd_Events d).

(** When another grant expires in the transaction of an operator decision, its expiry
    is published twice with the same revision; the same expiry is published once when any
    other operation observes it. *)
Theorem decision_repeats_expiry_events :
  expired_events (w_storage (snd (do_approve as_requested (ten_minutes_later two_requests))))
    = [(fresh_id 1, 2); (fresh_id 1, 2)]
  ∧ expired_events (w_storage (snd (Get ticking default_options first_id
                                     (ten_minutes_later two_requests))))
    = [(fresh_id 1, 2)].
Proof. vm_compute. split; reflexivity. Qed.

(** ** Replayed requests *)

(** The operator grants half an hour instead of an hour. *)
Definition narrowed_world : World :=
  snd (do_approve (MkApprovalConstraints (30 * minute) 0 false) requested_world).

(** A client that repeats a request under its own identifier gets its grant back while
    the grant is pending or was approved as requested, but an idempotency conflict once an
    operator has approved it for less than requested. *)
Theorem narrowed_approval_breaks_replay :
  out_err (fst (do_request requested_world)) = None
  ∧ out_created (fst (do_request requested_world)) = false
  ∧ out_err (fst (do_request approved_world)) = None
  ∧ grant_Status <$> fd_Grants (w_storage narrowed_world) = [StatusActive]
  ∧ out_err (fst (do_request narrowed_world)) = Some ErrIdempotencyConflict.
Proof. vm_compute. repeat split. Qed.

(** ** A wall clock that steps back *)

(** The clock of a machine whose time is corrected by half an hour. *)
Definition corrected (n : nat) : Time :=
  if Nat.ltb n 40 then hour + Z.of_nat n * second else 30 * minute + Z.of_nat n * second.

Definition corrected_session : World :=
  let w := snd (Store_Request corrected counting_ids default_options sample_request fresh_world) in
  let w := snd (ApplyOperatorDecision corrected default_options no_digest
                  (approve_command "k1" 1 as_requested) None w) in
  snd (ReserveUse corrected default_options first_id "u1" "read" w).

Definition after_correction : World :=
  snd (CommitUse corrected default_options first_id "u1"
         (MkWorld (w_storage corrected_session) 40 (w_ids corrected_session) 0)).

(** The store relies on a wall clock that never runs backwards: when it is set back
    between the reservation and the settlement of a use, the settlement is saved but the
    saved state is one the store refuses to load, so every later operation fails. *)
Example clock_correction_locks_store :
  (Nat.ltb (w_tick corrected_session) 40) = true
  ∧ (∃ d, fst (load corrected_session) = Ok d)
  ∧ fst (load after_correction) = Err ErrUnsupportedState
  ∧ fst (List_ corrected default_options after_correction) = Err ErrUnsupportedState.
Proof. split; [by vm_compute|]. split; [eexists; by vm_compute|]. split; by vm_compute. Qed.

(** * Plans, stale snapshots and sessions on the database

    What the database adds to the interface of storage: immutable plans
    committed with the request that names them, the refusal of a snapshot that
    is no longer current, and a run of the store on tables; then what the
    operations of the store leave alone. *)

(** ** Plans in the tables *)

Definition stored_plan (d : Database) (digest : string) : option Plan :=
  rows (db_plans d) !! digest.

(** No stored plan is lost or changed. *)
Definition plans_grow (d d' : Database) : Prop :=
  ∀ digest p, stored_plan d digest = Some p → stored_plan d' digest = Some p.

#[export] Instance plans_grow_preorder : PreOrder plans_grow.
Proof.
  split; [by intros d digest p|]. intros d1 d2 d3 H12 H23 digest p Hp. apply H23, H12, Hp.
Qed.

(** What saving grants leaves alone: a part of the database that no change of the
    four tables of the grant store touches. *)
Section kept.
Context (admits : Database → Statement → result error unit).
Context {T : Type} (part : Database → T).

(** The part is not in this table. *)
Definition apart {K V} `{Countable K} {key : V → K} (lens : TableLens key) : Prop :=
  ∀ t d, part (lens_set lens t d) = part d.

Hypotheses (apart_grants : apart grants_table) (apart_uses : apart uses_table)
  (apart_events : apart events_table) (apart_decisions : apart decisions_table).

Lemma rewritten_kept {K V U} `{Countable K} {key : V → K} (lens : TableLens key)
    (decode : V → U) (d d' : Database) (m : gmap K U) :
  apart lens →
  rewritten lens decode d d' m → part d' = part d.
Proof. intros Hlens (t & -> & _). apply Hlens. Qed.

Lemma persistRecords_kept {U} (persist : U → Database → result error Database)
    (records : list U) (d d' : Database) :
  (∀ r d d', persist r d = Ok d' → part d' = part d) →
  persistRecords persist records d = Ok d' → part d' = part d.
Proof.
  intros Hp. revert d. induction records as [|r records IH]; intros d; cbn.
  - by intros [= <-].
  - rewrite bind_ok_iff. intros (d1 & H1 & H). rewrite (IH _ H). by eapply Hp.
Qed.

Lemma insert_row_kept {K V} `{Countable K} {key : V → K} (lens : TableLens key)
    (statement : V → Statement) (row : V) (d d' : Database) :
  apart lens →
  insert_row admits lens statement row d = Ok d' → part d' = part d.
Proof. intros Hl Hi. apply (insert_row_ok lens id) in Hi. by eapply rewritten_kept. Qed.

Lemma update_row_kept {K V} `{Countable K} {key : V → K} (lens : TableLens key)
    (statement : V → Statement) (revision : V → Z) (row : V) (previous n : Z) (d d' : Database) :
  apart lens →
  update_row admits lens statement revision row previous d = Ok (n, d') →
  part d' = part d.
Proof.
  intros Hl. unfold update_row. destruct (rows _ !! _) as [old|]; [|by intros [= _ <-]].
  destruct (revision old =? previous); [|by intros [= _ <-]]. rewrite seq_ok.
  intros [_ [= _ <-]]. apply Hl.
Qed.

Lemma persistGrant_kept (old : gmap string GrantRecord) (r : GrantRecord) (d d' : Database) :
  persistGrant admits old r d = Ok d' → part d' = part d.
Proof.
  unfold persistGrant. destruct (old !! _) as [previous|].
  - case_bool_decide; [by intros [= <-]|]. rewrite bind_ok_iff. intros ([n e] & He & Hn).
    apply seq_ok in Hn as [_ [= <-]]. by eapply (update_row_kept grants_table).
  - by apply (insert_row_kept grants_table).
Qed.

Lemma persistGrantUse_kept (old : gmap string GrantUseRecord) (r : GrantUseRecord)
    (d d' : Database) :
  persistGrantUse admits old r d = Ok d' → part d' = part d.
Proof.
  unfold persistGrantUse. destruct (old !! _) as [previous|].
  - case_bool_decide; [by intros [= <-]|]. rewrite bind_ok_iff. intros ([n e] & He & Hn).
    apply seq_ok in Hn as [_ [= <-]]. by eapply (update_row_kept uses_table).
  - by apply (insert_row_kept uses_table).
Qed.

Lemma persistGrantEvents_kept (before after : list GrantLifecycleRecord) (d d' : Database) :
  persistGrantEvents admits before after d = Ok d' → part d' = part d.
Proof.
  unfold persistGrantEvents. rewrite bind_ok_iff. intros (d1 & H1 & H).
  assert (part d1 = part d) as <-.
  { unfold pruneGrantEvents in H1. destruct after as [|first rest]; [by injection H1 as <-|].
    destruct (match before with b :: _ => lr_Sequence first <=? lr_Sequence b | [] => false end);
      [by injection H1 as <-|].
    rewrite bind_ok_iff in H1. destruct H1 as (s & _ & H1). apply seq_ok in H1 as [_ H1].
    apply (f_equal (λ r, match r with Ok x => part x | Err _ => part d end)) in H1.
    rewrite apart_events in H1. done. }
  eapply persistRecords_kept, H. intros r e e'. cbn beta. case_bool_decide; [by intros [= <-]|].
  unfold insertGrantEvent. rewrite bind_ok_iff. intros (s & _ & Hi).
  by apply (insert_row_kept events_table) in Hi.
Qed.

Lemma persistGrantChanges_kept (before after : GrantSnapshot) (d d' : Database) :
  persistGrantChanges admits before after d = Ok d' → part d' = part d.
Proof.
  unfold persistGrantChanges. rewrite seq_ok. intros [_ H].
  rewrite bind_ok_iff in H. destruct H as (d1 & H1 & H).
  rewrite bind_ok_iff in H. destruct H as (d2 & H2 & H).
  rewrite bind_ok_iff in H. destruct H as (d3 & H3 & H4).
  transitivity (part d3); [|transitivity (part d2); [|transitivity (part d1)]].
  - eapply persistRecords_kept, H4. intros r e e'. cbn beta. case_bool_decide; [by intros [= <-]|].
    by apply (insert_row_kept decisions_table).
  - by eapply persistGrantEvents_kept.
  - eapply persistRecords_kept, H2. intros r e e'. apply persistGrantUse_kept.
  - eapply persistRecords_kept, H1. intros r e e'. apply persistGrant_kept.
Qed.

Lemma putPlan_kept (plandigest_Digest : string → string) (plan : Plan) (d d' : Database) :
  apart plans_table →
  putPlanWithQueries admits plandigest_Digest plan d = Ok d' → part d' = part d.
Proof.
  intros Hl. unfold putPlanWithQueries. rewrite seq_ok. intros [_ H].
  apply bind_ok_iff in H as (d1 & H1 & H). apply bind_ok_iff in H as (p & _ & H).
  rewrite seq_ok in H. destruct H as [_ H]. injection H as <-. unfold PutPlan in H1.
  destruct (rows (db_plans d) !! _); [by injection H1 as <-|].
  apply seq_ok in H1 as [_ H1].
  apply (f_equal (λ r, match r with Ok x => part x | Err _ => part d end)) in H1. by rewrite Hl in H1.
Qed.
End kept.

Section plans.
Context (admits : Database → Statement → result error unit)
  (begin_tx : nat → result error unit) (commit_tx : nat → CommitOutcome)
  (plandigest_Digest : string → string).

Lemma transaction_validated (before after : GrantSnapshot) (plan : option Plan)
    (d d' : Database) :
  grant_transaction admits plandigest_Digest before after plan d = Ok d' →
  validateRecordRetention gr_ID "grant deletion is unsupported"
    (snap_Grants before) (snap_Grants after) = Ok tt
  ∧ validateRecordRetention ur_RequestID "grant use deletion is unsupported"
      (snap_Uses before) (snap_Uses after) = Ok tt
  ∧ validateEventImmutability (snap_Events before) (snap_Events after) = Ok tt
  ∧ validateDecisionRetention (snap_Decisions before) (snap_Decisions after) = Ok tt.
Proof.
  unfold grant_transaction. rewrite bind_ok_iff. intros (current & _ & H).
  apply seq_ok in H as [_ H]. rewrite bind_ok_iff in H. destruct H as (d1 & _ & H).
  unfold persistGrantChanges, validateGrantSnapshotTransition in H. rewrite !seq_ok in H.
  by destruct H as [? _].
Qed.

(** The plan of a transaction that does not fail. *)
Definition plan_committed (plan : option Plan) (d d' : Database) : Prop :=
  plans_grow d d'
  ∧ ∀ p, plan = Some p → stored_plan d' (plan_Digest p) = Some p
         ∧ plan_Digest p = plandigest_Digest (plan_Canonical p).

Lemma grant_transaction_plan (before after : GrantSnapshot) (plan : option Plan)
    (d d' : Database) :
  grant_transaction admits plandigest_Digest before after plan d = Ok d' →
  plan_committed plan d d'.
Proof.
  unfold grant_transaction. rewrite bind_ok_iff. intros (current & _ & H).
  apply seq_ok in H as [_ H]. rewrite bind_ok_iff in H. destruct H as (d1 & Hplan & H).
  apply (persistGrantChanges_kept admits db_plans) in H; [|done..].
  destruct plan as [p|].
  - apply putPlan_ok in Hplan as (_ & [Hgrow Hp] & Hd). unfold plan_committed, plans_grow, stored_plan.
    rewrite H. split; [exact Hgrow|]. by intros q [= <-].
  - injection Hplan as <-. unfold plan_committed, plans_grow, stored_plan. by rewrite H.
Qed.
End plans.

(** ** Requests with a plan *)

Section requests.
Context {R : MapRange}.
Context `{JT : JSON Target} `{JA : JSON StringListMap} `{JM : JSON (gmap string string)}
  `{JE : JSON EventRecord} `{JG : JSON Grant}.
Context (admits : Database → Statement → result error unit)
  (begin_tx : nat → result error unit) (commit_tx : nat → CommitOutcome)
  (plandigest_Digest : string → string).
Context (clock : nat → Time) (new_id : nat → result error string) (o : Options).

#[local] Instance database_storage : GrantStorage :=
  sqlite admits begin_tx commit_tx plandigest_Digest.

Lemma saveRaw_plan (s s' : Storage) (d : FileData) (plan : option PlanRecord)
    (r : result error unit) :
  saveRaw s d plan = (r, s') →
  plans_grow s s' ∧ (r = Ok tt → plan_committed plandigest_Digest plan s s').
Proof.
  intros H. apply sqlite_saveRaw_cases in H
    as [(Hr & [->| ->])|(before & after & d' & _ & _ & Ht & -> & _)].
  - split; [reflexivity|]. by intros ->.
  - split; [by intros digest p|]. by intros ->.
  - apply grant_transaction_plan in Ht. split; [exact (proj1 Ht)|]. intros _. exact Ht.
Qed.

(** Computations that keep every stored plan, and those that do not write. *)
Definition keeps {A} (m : Eff A) : Prop := ∀ w, plans_grow (w_storage w) (w_storage (snd (m w))).
Definition still {A} (m : Eff A) : Prop := ∀ w, w_storage (snd (m w)) = w_storage w.

Lemma keeps_still {A} (m : Eff A) : still m → keeps m.
Proof. intros H w. by rewrite H. Qed.

Lemma keeps_bind {A B} (m : Eff A) (f : A → Eff B) :
  keeps m → (∀ a, keeps (f a)) → keeps (m ≫= f).
Proof.
  intros Hm Hf w. rewrite bind_run. specialize (Hm w). destruct (m w) as [a w1].
  etrans; [exact Hm|]. apply Hf.
Qed.

Lemma still_bind {A B} (m : Eff A) (f : A → Eff B) :
  still m → (∀ a, still (f a)) → still (m ≫= f).
Proof.
  intros Hm Hf w. rewrite bind_run. specialize (Hm w). destruct (m w) as [a w1].
  by rewrite Hf.
Qed.

Lemma still_ret {A} (a : A) : still (mret a : Eff A).
Proof. by intros w. Qed.

Lemma still_clocked {A} (m : Clocked A) : still (clocked m).
Proof. intros w. by rewrite clocked_world. Qed.

Lemma still_signal (a b : Z) : still (signalNewEvents a b).
Proof. intros w. unfold signalNewEvents. cbn. by destruct (a =? b). Qed.

Lemma keeps_save (d : FileData) (plan : option PlanRecord) : keeps (saveWithPlan d plan).
Proof.
  intros w. unfold saveWithPlan. destruct (saveRaw (w_storage w) d plan) as [r s] eqn:E.
  by apply saveRaw_plan in E as [E _].
Qed.

Lemma keeps_and_then {A B} (m : Eff (result error A)) (f : A → Eff (result error B)) :
  keeps m → (∀ a, keeps (f a)) → keeps (and_then m f).
Proof. intros Hm Hf. apply keeps_bind; [done|]. intros [a|e]; [apply Hf|by apply keeps_still]. Qed.

Lemma keeps_signal_ret {A} (a b : Z) (r : A) : keeps (signalNewEvents a b;; mret r).
Proof.
  apply keeps_still, still_bind; [apply still_signal|]. intros _. apply still_ret.
Qed.

Lemma keeps_Get (id : string) : keeps (Get clock o id).
Proof.
  unfold Get, read_prepared. apply keeps_and_then; [by intros w|]. intros d.
  apply keeps_bind; [apply keeps_still, still_clocked|]. intros [d1 changed].
  apply keeps_bind; [apply keeps_still, still_clocked|]. intros [d2 reconciled].
  apply keeps_and_then; [by apply keeps_still|]. intros g.
  destruct (reconciled || changed); [|by apply keeps_still].
  apply keeps_and_then; [apply keeps_save|]. intros _. apply keeps_signal_ret.
Qed.

Lemma still_request_mutator (req : GrantRequest) (d : FileData) :
  still (request_mutator clock new_id o req d).
Proof.
  unfold request_mutator. apply still_bind; [apply still_clocked|]. intros [d1 c].
  destruct (findIdempotent _ req) as [g|]; [apply still_ret|].
  destruct (negb _); [apply still_ret|].
  apply still_bind; [by intros w|]. intros [id|e]; [|apply still_ret].
  apply still_bind; [apply still_clocked|]. intros instant. apply still_ret.
Qed.

(** A computation that ends with an error. *)
Definition fails {A} (m : Eff (result error A)) : Prop :=
  ∀ w, plans_grow (w_storage w) (w_storage (snd (m w))) ∧ is_ok (fst (m w)) = false.

Lemma fails_ret {A} (e : error) : fails (mret (Err e) : Eff (result error A)).
Proof. by intros w. Qed.

Lemma fails_bind {A B} (m : Eff A) (f : A → Eff (result error B)) :
  keeps m → (∀ a, fails (f a)) → fails (m ≫= f).
Proof.
  intros Hm Hf w. rewrite bind_run. specialize (Hm w). destruct (m w) as [a w1].
  destruct (Hf a w1) as [Hg He]. split; [by etrans|done].
Qed.

(** A transaction that succeeds ended with a save of its plan. *)
Lemma updateWithPlan_plan {A} (plan : option PlanRecord) (m : Mutator A) (w : World) :
  (∀ d, still (m d)) →
  let '(r, w') := updateWithPlan clock o plan m w in
  plans_grow (w_storage w) (w_storage w')
  ∧ (is_ok r = true → plan_committed plandigest_Digest plan (w_storage w) (w_storage w')).
Proof.
  intros Hm. unfold updateWithPlan, and_then. rewrite bind_run.
  destruct (load w) as [[d|e] w0] eqn:El; injection El as _ <-; [|by split].
  rewrite bind_run, clocked_world. destruct (fst _) as [d1 changed].
  rewrite bind_run. set (w1 := MkWorld _ _ _ _).
  pose proof (Hm d1 w1) as Hw2. destruct (m d1 w1) as [[d2 [a|e]] w2]; cbn [snd] in Hw2.
  - rewrite bind_run, clocked_world. destruct (fst _) as [d3 reconciled].
    rewrite bind_run. unfold saveWithPlan at 1. cbn [w_storage].
    replace (w_storage w2) with (w_storage w) by done.
    destruct (saveRaw (w_storage w) d3 plan) as [[[]|e] s] eqn:E;
      apply saveRaw_plan in E as [Eg Ep].
    + rewrite bind_run. pose proof (still_signal (fd_NextEvent d) (fd_NextEvent d3)) as Hs.
      match goal with |- context [signalNewEvents _ _ ?w3] => specialize (Hs w3) end.
      destruct (signalNewEvents _ _ _) as [[] w4]. cbn [snd w_storage] in Hs.
      rewrite ret_run, Hs. split; [done|]. auto.
    + rewrite ret_run. by split.
  - rewrite bind_run, clocked_world. destruct (fst _) as [d3 reconciled].
    match goal with |- context [(if ?c then ?x else ?y) ?w3] =>
      assert (fails (if c then x else y)) as Hk; [|specialize (Hk w3)] end.
    { destruct (reconciled || changed); [|by apply fails_ret].
      apply fails_bind; [apply keeps_save|]. intros [[]|e']; [|by apply fails_ret].
      apply fails_bind; [apply keeps_still, still_signal|]. intros _. by apply fails_ret. }
    match type of Hk with context [w_storage (snd ?run)] => destruct run as [r w'] end.
    destruct Hk as [Hg Hr].
    cbn [fst snd w_storage] in *. rewrite Hr. split; [|done]. rewrite Hw2 in Hg. exact Hg.
Qed.

Lemma request_plan (req : GrantRequest) (plan : option PlanRecord) (w : World) :
  let '(out, w') := request clock new_id o req plan w in
  plans_grow (w_storage w) (w_storage w')
  ∧ (out_err out = None →
     ∀ p, plan = Some p → stored_plan (w_storage w') (plan_Digest p) = Some p
                          ∧ plan_Digest p = plandigest_Digest (plan_Canonical p)).
Proof.
  unfold request. destruct (normalizeGrantRequest o req) as [req'|e].
  2:{ rewrite ret_run. by split. }
  rewrite bind_run.
  pose proof (updateWithPlan_plan plan (request_mutator clock new_id o req') w
    (still_request_mutator req')) as Hu.
  destruct (updateWithPlan _ _ _ _ w) as [[[g created]|e] w1]; destruct Hu as [Hg Hp].
  2:{ rewrite ret_run. by split. }
  specialize (Hp eq_refl). destruct (is_empty (grant_ID g)).
  { rewrite ret_run. split; [done|]. intros _. exact (proj2 Hp). }
  rewrite bind_run. pose proof (keeps_Get (grant_ID g) w1) as Hget.
  destruct (Get clock o (grant_ID g) w1) as [r w2]. cbn [snd] in Hget.
  rewrite ret_run. split; [by etrans|]. intros _ p Hpl.
  destruct (proj2 Hp p Hpl) as [Hstored Hd]. split; [by apply Hget|done].
Qed.

(** C18: A request with an immutable plan that returns without error has the plan in the
    database under its SHA-256 digest, which is the plan digest the request's metadata
    names; a request whose metadata does not name the digest is refused before anything
    happens; and whatever the outcome, no stored plan is changed or lost. *)
Theorem request_with_plan_commits (req : GrantRequest) (plan : Plan) (w : World) :
  let '(out, w') :=
    RequestWithPlan admits begin_tx commit_tx plandigest_Digest clock new_id o req plan w in
  (∀ digest p, rows (db_plans (w_storage w)) !! digest = Some p →
               rows (db_plans (w_storage w')) !! digest = Some p)
  ∧ (out_err out = None →
     rows (db_plans (w_storage w')) !! plan_Digest plan = Some plan
     ∧ plan_Digest plan = plandigest_Digest (plan_Canonical plan)
     ∧ metadataPlanDigest (req_Metadata req) = Ok (plan_Digest plan))
  ∧ (metadataPlanDigest (req_Metadata req) ≠ Ok (plan_Digest plan) →
     w' = w ∧ out_err out = Some (errorf "grant immutable plan is invalid" [])).
Proof.
  unfold RequestWithPlan, validateImmutableRequestPlan.
  destruct (metadataPlanDigest (req_Metadata req)) as [digest|e]; cbn [refuse].
  2:{ by split_and!. }
  destruct (is_empty digest || negb (String.eqb digest (plan_Digest plan))
            || time_is_zero (plan_CreatedAt plan)) eqn:E; cbn [refuse].
  { by split_and!. }
  apply orb_false_iff in E as [E _]. apply orb_false_iff in E as [_ E].
  apply negb_false_iff, String.eqb_eq in E as ->.
  pose proof (request_plan req (Some plan) w) as H.
  change (sqlite admits begin_tx commit_tx plandigest_Digest) with database_storage.
  destruct (request (GS := database_storage) clock new_id o req (Some plan) w) as [out w'].
  destruct H as [Hg Hp]. split; [exact Hg|]. split; [|done].
  intros He. destruct (Hp He plan eq_refl). done.
Qed.
End requests.

(** ** Stale snapshots and history *)

Section saves.
Context (admits : Database → Statement → result error unit)
  (begin_tx : nat → result error unit) (commit_tx : nat → CommitOutcome)
  (plandigest_Digest : string → string).

(** A save over a snapshot that is no longer the state of the tables, or that the
    engine or the checks refuse, leaves every table as it was. One that reaches the tables
    makes the new snapshot their state, still has every grant and every use that was there,
    and every decision record unchanged, together with the retained events. *)
Theorem saveGrantSnapshot_protects (before after : GrantSnapshot) (plan : option Plan)
    (d d' : Database) (r : result error unit) :
  follows before after →
  saveGrantSnapshot admits begin_tx commit_tx plandigest_Digest before after plan d = (r, d') →
  (is_ok r = false ∧ d' = begun d)
  ∨ (before = table_snapshot d ∧ same_rows after (table_snapshot d')
     ∧ (∀ g, g ∈ snap_Grants before → gr_ID g ∈ gr_ID <$> snap_Grants (table_snapshot d'))
     ∧ (∀ u, u ∈ snap_Uses before →
          ur_RequestID u ∈ ur_RequestID <$> snap_Uses (table_snapshot d'))
     ∧ (∀ e e', e ∈ snap_Events before → e' ∈ snap_Events (table_snapshot d') →
          lr_Sequence e = lr_Sequence e' → e = e')
     ∧ (∀ c, c ∈ snap_Decisions before → c ∈ snap_Decisions (table_snapshot d'))).
Proof.
  intros Hf. unfold saveGrantSnapshot.
  destruct (begin_tx _) as [[]|e]; [|intros [= <- <-]; auto].
  destruct (grant_transaction _ _ before after plan d) as [e|e] eqn:E; [|intros [= <- <-]; auto].
  intros Hd'. assert (d' = begun d ∧ is_ok r = false ∨ d' = begun e) as [[-> Hr]| ->];
    [destruct (commit_tx _); injection Hd' as <- <-; auto|by left|]. clear Hd'.
  right. pose proof E as Ht. apply grant_transaction_ok in Ht as (Hb & Hrows & _ & _); [|done].
  change (table_snapshot (begun e)) with (table_snapshot e).
  destruct (transaction_validated _ _ _ _ _ _ _ E) as (Hg & Hu & He & Hd).
  apply seq_ok in Hd as [Hsame Hkept].
  split; [done|]. split; [done|]. split_and!.
  - intros g Hin. rewrite (same_Grants _ _ Hrows). by apply (validateRecordRetention_ok _ _ _ _ Hg).
  - intros u Hin. rewrite (same_Uses _ _ Hrows). by apply (validateRecordRetention_ok _ _ _ _ Hu).
  - intros a a' Ha Ha' Heq. rewrite (same_Events _ _ Hrows) in Ha'.
    apply (unchanged_records_ok _ _ _ _ He a' a Ha'), lookup_indexRecords; [|done].
    rewrite Hb. apply events_keys_NoDup.
  - intros c Hc. rewrite (same_Decisions _ _ Hrows).
    pose proof (validateRecordRetention_ok _ _ _ _ Hkept c Hc) as Hin.
    apply elem_of_key in Hin as (c' & Hc' & Heq).
    rewrite (unchanged_records_ok _ _ _ _ Hsame c' c Hc'); [done|].
    apply lookup_indexRecords; [|done]. rewrite Hb.
    by apply (listed_keys decisions_table decodeDecision dr_Scope).
Qed.
End saves.

(** ** Saving and reading back *)

Section read_back.
Context {R : MapRange}.
Context `{JT : JSON Target} `{JA : JSON StringListMap} `{JM : JSON (gmap string string)}
  `{JE : JSON EventRecord} `{JG : JSON Grant}.
Context {LT : JSONLaws Target} {LA : JSONLaws StringListMap} {LM : JSONLaws (gmap string string)}
  {LE : JSONLaws EventRecord} {LG : JSONLaws Grant}.
Context (admits : Database → Statement → result error unit)
  (begin_tx : nat → result error unit) (commit_tx : nat → CommitOutcome)
  (plandigest_Digest : string → string).

(** C17: Data with unique identities that continues what the database held, and whose texts
    are UTF-8 wherever they are kept as JSON, when it is saved without error, is read back by the next load with the same events in the same order, the
    same grants and uses in any order, and the decision records with their texts and their
    failures taken from their results. A save that fails leaves the tables as they were,
    unless the commit itself was durable and only its acknowledgement was lost. *)
Theorem database_save_read_back (s s' : Database) (d0 d : FileData) (plan : option Plan)
    (r : result error unit) :
  sqlite_loadRaw s = Ok d0 → writable d0 d → data_utf8 d = true →
  sqlite_saveRaw admits begin_tx commit_tx plandigest_Digest s d plan = (r, s') →
  let read_back := ∃ d', sqlite_loadRaw s' = Ok d'
    ∧ fd_Grants d' ≡ₚ fd_Grants d ∧ fd_Uses d' ≡ₚ fd_Uses d
    ∧ fd_Events d' = fd_Events d ∧ fd_NextEvent d' = fd_NextEvent d
    ∧ fd_DecisionRecords d' ≡ₚ sqlite_reread <$> fd_DecisionRecords d in
  match r with
  | Ok _ => read_back
  | Err _ => (s' = s ∨ s' = begun s)
             ∨ (∃ e, commit_tx (db_transactions s) = Unacknowledged e) ∧ read_back
  end.
Proof.
  intros Hl Hw Hutf Hs.
  apply sqlite_saveRaw_cases in Hs as [[Hr Hs]|(before & after & d' & Hb & Ha & Ht & -> & Hr)].
  - destruct r; [done|by left].
  - destruct (transaction_stored admits begin_tx commit_tx plandigest_Digest
                _ _ _ _ _ _ _ Hutf Hl Hw Hb Ha Ht) as [(data' & Hd' & [Hg Hu He Hn Hd]) _].
    assert (∃ d'0, sqlite_loadRaw (begun d') = Ok d'0
      ∧ fd_Grants d'0 ≡ₚ fd_Grants d ∧ fd_Uses d'0 ≡ₚ fd_Uses d
      ∧ fd_Events d'0 = fd_Events d ∧ fd_NextEvent d'0 = fd_NextEvent d
      ∧ fd_DecisionRecords d'0 ≡ₚ sqlite_reread <$> fd_DecisionRecords d) as Hback
      by (by exists data').
    destruct Hr as [->|(e & -> & Hc)]; [exact Hback|]. right. split; [by exists e|exact Hback].
Qed.
End read_back.

(** ** A session on the database *)

(** A codec for a known list of values: the text of a value tells its position. *)
Definition position_text (i : nat) : string := String.string_of_list_ascii (replicate (S i) "x"%char).

Definition listed_codec {A} `{EqDecision A} (values : list A) : JSON A := {|
  json_marshal a := match list_find (a =.) values with
                    | Some (i, _) => Ok (position_text i)
                    | None => Err (ErrorExternal "not a sample value")
                    end;
  json_decode text :=
    if is_empty text then Err (ErrorExternal "unexpected end of JSON input")
    else option_ok (values !! pred (String.length text)) (ErrorExternal "not a sample value")
|}.

Lemma length_string_of_list (l : list ascii) :
  String.length (String.string_of_list_ascii l) = length l.
Proof. induction l as [|c l IH]; cbn; [done|]. by rewrite IH. Qed.

Lemma position_text_length (i : nat) : String.length (position_text i) = S i.
Proof. unfold position_text. by rewrite length_string_of_list, length_replicate. Qed.

Lemma position_text_nonempty (i : nat) : is_empty (position_text i) = false.
Proof. done. Qed.

Lemma listed_codec_laws {A} `{EqDecision A} {T : Texts A} (values : list A) :
  @JSONLaws A (listed_codec values) T.
Proof.
  split.
  - intros a text _. cbn -[position_text is_empty String.length].
    destruct (list_find _ values) as [[i b]|] eqn:E; [|done].
    apply list_find_Some in E as (Hi & <- & _). intros [= <-].
    rewrite position_text_length, position_text_nonempty. cbn. by rewrite Hi.
  - intros text a. cbn. by destruct text.
Qed.

(** A codec for values that are UTF-8 refuses every other value. *)
Lemma listed_codec_refuses {A} `{EqDecision A} {T : Texts A} (values : list A) :
  forallb all_utf8 values = true → @JSONRefuses A (listed_codec values) T.
Proof.
  rewrite forallb_elem_of. intros Hv a text. cbn -[position_text].
  destruct (list_find _ values) as [[i b]|] eqn:E; [|done].
  apply list_find_Some in E as (Hi & <- & _). intros _. apply Hv. by eapply list_elem_of_lookup_2.
Qed.

Definition sample_digest : string :=
  String.string_of_list_ascii (replicate 64 "a"%char).

Definition sample_plan : Plan := MkPlan sample_digest "sample.v1" "{}" hour.

Definition planned_request : GrantRequest :=
  MkGrantRequest "alice" "req-1" "read" (MkTarget "file" ∅) ∅
    {["sample_plan_digest" := sample_digest]} "backup" hour 0 2 true false.

(** The session in memory lists the values the codecs have to know. *)
Definition planned_memory : World :=
  snd (do_commit "u1" (snd (do_reserve "u1" (snd (do_approve as_requested
    (snd (Store_Request ticking counting_ids default_options planned_request fresh_world))))))).

Definition planned_data : FileData := w_storage planned_memory.

#[export] Instance target_codec : JSON Target :=
  listed_codec (grant_Target <$> fd_Grants planned_data).
#[export] Instance attrs_codec : JSON StringListMap :=
  listed_codec (grant_Attrs <$> fd_Grants planned_data).
#[export] Instance metadata_codec : JSON (gmap string string) :=
  listed_codec (grant_Metadata <$> fd_Grants planned_data).
#[export] Instance event_codec : JSON EventRecord := listed_codec (fd_Events planned_data).
#[export] Instance grant_codec : JSON Grant :=
  listed_codec ((rec_Result <$> fd_DecisionRecords planned_data)
                ++ (rec_Previous <$> fd_DecisionRecords planned_data)).

#[export] Instance target_codec_laws : JSONLaws Target.
Proof. apply listed_codec_laws. Qed.
#[export] Instance attrs_codec_laws : JSONLaws StringListMap.
Proof. apply listed_codec_laws. Qed.
#[export] Instance metadata_codec_laws : JSONLaws (gmap string string).
Proof. apply listed_codec_laws. Qed.
#[export] Instance event_codec_laws : JSONLaws EventRecord.
Proof. apply listed_codec_laws. Qed.
#[export] Instance grant_codec_laws : JSONLaws Grant.
Proof. apply listed_codec_laws. Qed.

(** An engine that refuses nothing, and a digest for the one plan there is. *)
Definition admit_all (_ : Database) (_ : Statement) : result error unit := Ok tt.
Definition begin_all (_ : nat) : result error unit := Ok tt.
Definition commit_all (_ : nat) : CommitOutcome := Committed.
Definition sample_sha (_ : string) : string := sample_digest.

Definition sample_sqlite : GrantStorage := sqlite admit_all begin_all commit_all sample_sha.

Definition empty_database : Database :=
  MkDatabase empty_table empty_table empty_table empty_table empty_table empty_table 0.

Definition database_world : World (GS := sample_sqlite) :=
  @MkWorld sample_sqlite empty_database 0 0 0.

Definition db_requested : RequestOutcome * World (GS := sample_sqlite) :=
  RequestWithPlan admit_all begin_all commit_all sample_sha ticking counting_ids
    default_options planned_request sample_plan database_world.
Definition db_approved :=
  ApplyOperatorDecision (GS := sample_sqlite) ticking default_options no_digest
    (approve_command "k1" 1 as_requested) None (snd db_requested).
Definition db_reserved :=
  ReserveUse (GS := sample_sqlite) ticking default_options first_id "u1" "read" (snd db_approved).
Definition db_committed :=
  CommitUse (GS := sample_sqlite) ticking default_options first_id "u1" (snd db_reserved).

(** The session on the database ends with the data of the session in memory. *)
Example database_session :
  match sqlite_loadRaw (w_storage (GS := sample_sqlite) (snd db_committed)) with
  | Ok d => fd_Grants d = fd_Grants planned_data ∧ fd_Uses d = fd_Uses planned_data
            ∧ fd_Events d = fd_Events planned_data
            ∧ length (fd_DecisionRecords d) = 1%nat
  | Err _ => False
  end.
Proof. vm_compute. repeat split. Qed.

(** What the first request makes of an empty store, and the database it leaves. *)
Definition first_data : FileData :=
  w_storage (snd (Store_Request ticking counting_ids default_options planned_request fresh_world)).

Definition first_database : Database :=
  snd (sqlite_saveRaw admit_all begin_all commit_all sample_sha
         empty_database first_data (Some sample_plan)).

Lemma first_data_writable : writable empty_data first_data.
Proof.
  split.
  - vm_compute. apply NoDup_singleton.
  - vm_compute. constructor.
  - vm_compute. constructor.
  - vm_compute. repeat constructor.
  - by vm_compute.
  - exists 0%nat, (fd_Events first_data). split; [vm_compute; reflexivity|].
    split; [vm_compute; repeat constructor; discriminate|].
    split; [vm_compute; discriminate|]. intros H. by destruct H.
  - exists []. split; [by vm_compute|constructor].
Qed.

Lemma first_save :
  sqlite_saveRaw admit_all begin_all commit_all sample_sha
    empty_database first_data (Some sample_plan) = (Ok tt, first_database).
Proof.
  unfold first_database.
  assert (fst (sqlite_saveRaw admit_all begin_all commit_all sample_sha
                 empty_database first_data (Some sample_plan)) = Ok tt) as H
    by (vm_compute; reflexivity).
  destruct (sqlite_saveRaw _ _ _ _ _ _ _) as [r s]. cbn [fst snd] in *. by rewrite H.
Qed.

Lemma database_save_read_back_witness :
  sqlite_loadRaw empty_database = Ok empty_data
  ∧ ∃ d', sqlite_loadRaw first_database = Ok d' ∧ fd_Grants d' ≡ₚ fd_Grants first_data
    ∧ fd_Uses d' ≡ₚ fd_Uses first_data ∧ fd_Events d' = fd_Events first_data
    ∧ fd_NextEvent d' = fd_NextEvent first_data
    ∧ fd_DecisionRecords d' ≡ₚ sqlite_reread <$> fd_DecisionRecords first_data.
Proof.
  split; [by vm_compute|].
  apply (database_save_read_back admit_all begin_all commit_all sample_sha empty_database
           first_database empty_data first_data (Some sample_plan) (Ok tt));
    [by vm_compute|exact first_data_writable|by vm_compute|exact first_save].
Defined.

(** The snapshots before and after the first request. *)
Definition first_snapshot : GrantSnapshot :=
  match fileDataToSQLite first_data with Ok s => s | Err _ => MkGrantSnapshot [] [] [] [] end.

Lemma first_follows : follows (table_snapshot empty_database) first_snapshot.
Proof.
  assert (fileDataToSQLite first_data = Ok first_snapshot) as H by (vm_compute; reflexivity).
  eapply writable_follows; [|exact first_data_writable|exact H|by vm_compute|by vm_compute; constructor].
  vm_compute. reflexivity.
Qed.

Definition first_saved : result error unit * Database :=
  saveGrantSnapshot admit_all begin_all commit_all sample_sha
    (table_snapshot empty_database) first_snapshot (Some sample_plan) empty_database.

Lemma saveGrantSnapshot_protects_witness :
  is_ok (fst first_saved) = true
  ∧ ((is_ok (fst first_saved) = false ∧ snd first_saved = begun empty_database)
     ∨ (table_snapshot empty_database = table_snapshot empty_database
        ∧ same_rows first_snapshot (table_snapshot (snd first_saved))
        ∧ (∀ g, g ∈ snap_Grants (table_snapshot empty_database) →
             gr_ID g ∈ gr_ID <$> snap_Grants (table_snapshot (snd first_saved)))
        ∧ (∀ u, u ∈ snap_Uses (table_snapshot empty_database) →
             ur_RequestID u ∈ ur_RequestID <$> snap_Uses (table_snapshot (snd first_saved)))
        ∧ (∀ e e', e ∈ snap_Events (table_snapshot empty_database) →
             e' ∈ snap_Events (table_snapshot (snd first_saved)) →
             lr_Sequence e = lr_Sequence e' → e = e')
        ∧ (∀ c, c ∈ snap_Decisions (table_snapshot empty_database) →
             c ∈ snap_Decisions (table_snapshot (snd first_saved))))).
Proof.
  split; [by vm_compute|].
  apply (saveGrantSnapshot_protects admit_all begin_all commit_all sample_sha
           (table_snapshot empty_database) first_snapshot (Some sample_plan) empty_database
           (snd first_saved) (fst first_saved)); [exact first_follows|].
  apply surjective_pairing.
Defined.

(** The refused decision of [failed_grant_replay_hides_error], read back from the
    database, is replayed with the failure of the earlier activation: neither
    storage repeats the refusal itself. *)
Example database_replays_old_failure :
  let '(_, w) := decide_again failed_world in
  match fd_DecisionRecords (w_storage w) with
  | [_; r] =>
    match replayOperatorDecision [sqlite_reread r] (rec_Scope r) (rec_CommandHash r) with
    | Some (res, Some e) =>
      res_Replay res = true ∧ errors_Is e ErrInvalidTransition = false
      ∧ (failure_Code <$> errors_As_Failure e) = Some CodePlanUnavailable
    | _ => False
    end
  | _ => False
  end.
Proof. vm_compute. repeat split. Qed.

(** * What the operations of the grant store leave alone

    Every operation of the store reaches its storage through [loadRaw] and
    [saveRaw] only.  A preorder on storages that every save respects is
    therefore respected by every operation; in the database, saving grants
    leaves the operations table as it is. *)

(** ** The clock is read forwards *)

Definition ticks {A} (m : Clocked A) : Prop := ∀ t, (t <= snd (m t))%nat.

Lemma ticks_ret {A} (a : A) : ticks (mret a : Clocked A).
Proof. intros t. done. Qed.

Lemma ticks_bind {A B} (m : Clocked A) (f : A → Clocked B) :
  ticks m → (∀ a, ticks (f a)) → ticks (m ≫= f).
Proof.
  intros Hm Hf t. unfold mbind, clocked_bind. specialize (Hm t). destruct (m t) as [a t'].
  specialize (Hf a t'). cbn in *. lia.
Qed.

Lemma ticks_now (clock : nat → Time) : ticks (now clock).
Proof. intros t. cbn. lia. Qed.

(** Walk through a clocked computation. *)
Ltac ticking :=
  repeat first
    [ apply ticks_ret | apply ticks_now | apply ticks_bind; [|intros ?]
    | match goal with |- ticks (match ?x with _ => _ end) => destruct x end
    | done ].

Lemma ticks_expireDue (clock : nat → Time) (d : FileData) : ticks (expireDue clock d).
Proof. unfold expireDue. ticking. Qed.

Lemma ticks_prepareLifecycle `{MapRange} (clock : nat → Time) (o : Options) (d : FileData) :
  ticks (prepareLifecycle clock o d).
Proof.
  unfold prepareLifecycle, retainStaleReservations.
  apply ticks_bind; [apply ticks_expireDue|]. intros [d1 c]. ticking.
Qed.

Lemma ticks_appendLifecycleEvent (clock : nat → Time) (o : Options) (d : FileData) (kind : EventKind)
    (g previous : Grant) : ticks (appendLifecycleEvent clock o d kind g previous).
Proof. unfold appendLifecycleEvent. ticking. Qed.

Lemma ticks_append_events `{MapRange} (clock : nat → Time) (o : Options) (kinds : list EventKind) (g previous : Grant) (d : FileData) :
  ticks (append_events clock o d kinds g previous).
Proof.
  revert d. induction kinds as [|kind kinds IH]; intros d; cbn [append_events]; [apply ticks_ret|].
  apply ticks_bind; [apply ticks_appendLifecycleEvent|]. intros d1. apply IH.
Qed.

Lemma ticks_reconcileLifecycle `{MapRange} (clock : nat → Time) (o : Options) (d : FileData) (before : gmap string Grant) :
  ticks (reconcileLifecycle clock o d before).
Proof.
  unfold reconcileLifecycle. apply ticks_bind; [|intros [[gs d1] c]; ticking].
  generalize (fd_Grants d) as grants. intros grants. revert d. induction grants as [|g gs IH]; intros d1; cbn [reconcile_from]; [apply ticks_ret|].
  ticking; first [apply IH|apply ticks_append_events|idtac].
Qed.

Section frame.
Context {R : MapRange} {GS : GrantStorage}.
Context (clock : nat → Time) (new_id : nat → result error string) (o : Options).
Context (rel : Storage → Storage → Prop) `{!PreOrder rel}.
Hypothesis saves : ∀ s d plan, rel s (snd (saveRaw s d plan)).

(** The storages are related, and the clock and the identifiers are read forwards. *)
Definition moves_on (w w' : World) : Prop :=
  rel (w_storage w) (w_storage w') ∧ (w_tick w <= w_tick w')%nat ∧ (w_ids w <= w_ids w')%nat.

Definition framed {A} (m : Eff A) : Prop := ∀ w, moves_on w (snd (m w)).

Lemma framed_same {A} (m : Eff A) :
  (∀ w, w_storage (snd (m w)) = w_storage w ∧ (w_tick w <= w_tick (snd (m w)))%nat
        ∧ (w_ids w <= w_ids (snd (m w)))%nat) → framed m.
Proof. intros H w. destruct (H w) as (Hs & ? & ?). split; [by rewrite Hs|done]. Qed.

Lemma framed_ret {A} (a : A) : framed (mret a : Eff A).
Proof. apply framed_same. intros w. rewrite ret_run. cbn. by split_and!. Qed.

Lemma framed_bind {A B} (m : Eff A) (f : A → Eff B) :
  framed m → (∀ a, framed (f a)) → framed (m ≫= f).
Proof.
  intros Hm Hf w. rewrite bind_run. specialize (Hm w). destruct (m w) as [a w'].
  destruct Hm as (? & ? & ?), (Hf a w') as (? & ? & ?). cbn in *. split; [by etrans|]. cbn. lia.
Qed.

Lemma framed_and_then {A B} (m : Eff (result error A)) (f : A → Eff (result error B)) :
  framed m → (∀ a, framed (f a)) → framed (and_then m f).
Proof. intros Hm Hf. apply framed_bind; [done|]. intros [a|e]; [apply Hf|apply framed_ret]. Qed.

Lemma framed_clocked {A} (m : Clocked A) : ticks m → framed (clocked m).
Proof. intros Hm. apply framed_same. intros w. rewrite clocked_world. cbn. split; [done|]. split; [apply Hm|done]. Qed.

Lemma framed_load : framed load.
Proof. apply framed_same. intros w. cbn. split_and!; [done|lia..]. Qed.

Lemma framed_newID : framed (newID new_id).
Proof. apply framed_same. intros w. cbn. split_and!; [done|lia..]. Qed.

Lemma framed_signal (a b : Z) : framed (signalNewEvents a b).
Proof. apply framed_same. intros w. unfold signalNewEvents. cbn. by destruct (a =? b); split_and!. Qed.

Lemma framed_save (d : FileData) (plan : option PlanRecord) : framed (saveWithPlan d plan).
Proof.
  intros w. unfold saveWithPlan. pose proof (saves (w_storage w) d plan) as H.
  destruct (saveRaw (w_storage w) d plan). by split_and!.
Qed.

(** Walk through a computation built from these. *)
Ltac frame :=
  repeat first
    [ apply framed_ret
    | apply framed_clocked; first [apply ticks_now|apply ticks_prepareLifecycle|apply ticks_reconcileLifecycle
                                  |apply ticks_expireDue|apply ticks_appendLifecycleEvent|done]
    | apply framed_load | apply framed_newID
    | apply framed_signal | apply framed_save
    | apply framed_and_then; [|intros ?]
    | apply framed_bind; [|intros ?]
    | match goal with |- framed (match ?x with _ => _ end) => destruct x end
    | done ].

Lemma updateWithPlan_framed {A} (plan : option PlanRecord) (m : Mutator A) :
  (∀ d, framed (m d)) → framed (updateWithPlan clock o plan m).
Proof. intros Hm. unfold updateWithPlan, save. frame; apply Hm. Qed.

Lemma read_prepared_framed {A} (prepare : FileData → Clocked (FileData * bool))
    (select : FileData → Eff (result error A)) :
  (∀ d, ticks (prepare d)) → (∀ d, framed (select d)) → framed (read_prepared clock o prepare select).
Proof. intros Hp Hs. unfold read_prepared, save. frame; first [apply Hp|apply Hs]. Qed.

Ltac frame_read :=
  apply read_prepared_framed; intros d;
  [first [apply ticks_prepareLifecycle|apply ticks_expireDue]|frame].

Lemma Get_framed (id : string) : framed (Get clock o id).
Proof. frame_read. Qed.

Lemma ListForClient_framed (client : string) : framed (ListForClient clock o client).
Proof. apply framed_and_then; [frame_read|intros; apply framed_ret]. Qed.

Lemma ActivePolicyGrants_framed : framed (ActivePolicyGrants clock o).
Proof. frame_read. Qed.

Lemma GetUse_framed (grantID requestID : string) : framed (GetUse clock o grantID requestID).
Proof. frame_read. Qed.

Lemma closeForClient_framed (id client : string) (required next : Status) :
  framed (closeForClient clock o id client required next).
Proof. apply updateWithPlan_framed. intros d. unfold close_mutator. frame. Qed.

Lemma ReserveUse_framed (grantID requestID operation : string) :
  framed (ReserveUse clock o grantID requestID operation).
Proof.
  unfold ReserveUse. destruct (negb _); [apply framed_ret|]. apply framed_and_then.
  - apply updateWithPlan_framed. intros d. unfold reserveUse, reserveExistingUse, reserveNewUse. frame.
  - intros created. apply framed_and_then; [apply GetUse_framed|]. intros. apply framed_ret.
Qed.

Lemma settleUse_framed (grantID requestID : string) (target : UseState) :
  framed (settleUse clock o grantID requestID target).
Proof.
  unfold settleUse. destruct (_ || _); [apply framed_ret|].
  apply framed_and_then; [|intros; apply GetUse_framed].
  apply updateWithPlan_framed. intros d. unfold settleStoredUse. frame.
Qed.

Lemma request_framed (req : GrantRequest) (plan : option PlanRecord) :
  framed (request clock new_id o req plan).
Proof.
  unfold request. destruct (normalizeGrantRequest o req) as [req'|e]; [|apply framed_ret].
  apply framed_bind.
  - apply updateWithPlan_framed. intros d. unfold request_mutator. frame.
  - intros [[g created]|e]; [|apply framed_ret]. destruct (is_empty (grant_ID g)); [apply framed_ret|].
    apply framed_bind; [apply Get_framed|]. intros. apply framed_ret.
Qed.
End frame.

(** ** The operations table *)

Section operations.
Context {R : MapRange}.
Context `{JT : JSON Target} `{JA : JSON StringListMap} `{JM : JSON (gmap string string)}
  `{JE : JSON EventRecord} `{JG : JSON Grant}.
Context (admits : Database → Statement → result error unit)
  (begin_tx : nat → result error unit) (commit_tx : nat → CommitOutcome)
  (plandigest_Digest : string → string).

(** The operations table is the same. *)
Definition same_operations (d d' : Database) : Prop := db_operations d' = db_operations d.

#[export] Instance same_operations_preorder : PreOrder same_operations.
Proof. split; [done|]. intros d1 d2 d3 H1 H2. unfold same_operations. congruence. Qed.

Lemma sqlite_saveRaw_operations (s : Database) (d : FileData) (plan : option Plan) :
  same_operations s (snd (sqlite_saveRaw admits begin_tx commit_tx plandigest_Digest s d plan)).
Proof.
  destruct (sqlite_saveRaw _ _ _ _ _ _ _) as [r s'] eqn:H. cbn. unfold same_operations.
  apply sqlite_saveRaw_cases in H as [(_ & [->| ->])|(before & after & d' & _ & _ & Ht & -> & _)]; [done|done|].
  unfold grant_transaction in Ht. apply bind_ok_iff in Ht as (current & _ & Ht).
  apply seq_ok in Ht as [_ Ht]. apply bind_ok_iff in Ht as (d1 & Hplan & Ht).
  apply (persistGrantChanges_kept admits db_operations) in Ht; [|done..].
  change (db_operations d' = db_operations s). rewrite Ht.
  destruct plan as [p|]; [|by injection Hplan as <-].
  by apply (putPlan_kept admits db_operations) in Hplan.
Qed.
End operations.
