(* ===== verification/Admission.v ===== *)
(** * Admission control: [authorization/admission]

    Rate buckets and provisional capacity for the operations that authenticated
    clients submit: [admission.go] and the decoded part of [config.go].

    The controller's mutex makes [Admit] and [Permit.release] atomic, so both
    are functions on the controller's state.  The clock reading and the answer of
    the usage callback are arguments of each call.  Integers are [int] or [int64]
    and wrap around where the code adds. *)

From S2P Require Export Errors GoStrings.

Local Open Scope Z_scope.

Definition maxClientIDBytes : Z := 128.

Record Limits : Type := MkLimits {
  limits_RequestsPerWindow : Z;
  limits_Window : Duration;
  limits_ClientActive : Z;
  limits_ClientPending : Z;
  limits_GlobalActive : Z;
  limits_GlobalExecuting : Z
}.

#[export] Instance Limits_eq_dec : EqDecision Limits.
Proof. solve_decision. Defined.

Record ClientLimits : Type := MkClientLimits {
  cl_RequestsPerWindow : Z;
  cl_Window : Duration;
  cl_Active : Z;
  cl_Pending : Z
}.

(** [Config] *)
Record AdmissionConfig : Type := MkAdmissionConfig {
  config_Default : Limits;
  config_Clients : gmap string ClientLimits
}.

Definition DefaultLimits : Limits := MkLimits 60 minute 25 10 512 64.
Definition DefaultConfig : AdmissionConfig := MkAdmissionConfig DefaultLimits ∅.

Record Usage : Type := MkUsage {
  usage_ClientActive : Z;
  usage_ClientPending : Z;
  usage_GlobalActive : Z;
  usage_GlobalExecuting : Z
}.

(** What an attached [Observer] is told. *)
Inductive Observer : Type :=
| AdmissionAccepted
| AdmissionRejected (code : string).

Record clientState : Type := MkClientState {
  cs_windowStart : Time;
  cs_requests : Z;
  cs_reserved : Z
}.

(** [ctl_observer] is [None] for a nil observer and else what it has been told. *)
Record Controller : Type := MkController {
  ctl_limits : Limits;
  ctl_clientLimits : gmap string ClientLimits;
  ctl_clients : gmap string clientState;
  ctl_globalReserved : Z;
  ctl_observer : option (list Observer)
}.

(** ** Construction *)

(** A nil map has no entries. *)
Definition normalizedConfig (config : AdmissionConfig) : AdmissionConfig :=
  if bool_decide (config_Default config = MkLimits 0 0 0 0 0 0)
     && (Z.of_nat (size (config_Clients config)) =? 0)
  then DefaultConfig else config.

Definition positiveLimits (value : Limits) : bool :=
  (0 <? limits_RequestsPerWindow value) && (0 <? limits_Window value)
  && (0 <? limits_ClientActive value) && (0 <? limits_ClientPending value)
  && (0 <? limits_GlobalActive value) && (0 <? limits_GlobalExecuting value).

Definition hierarchicalLimits (value : Limits) : bool :=
  (limits_ClientPending value <=? limits_ClientActive value)
  && (limits_ClientActive value <=? limits_GlobalActive value)
  && (limits_GlobalExecuting value <=? limits_GlobalActive value).

Definition validLimits (value : Limits) : bool :=
  positiveLimits value && hierarchicalLimits value.

(** [usage] and [now] say whether the callbacks are non-nil. *)
Definition validControllerDependencies (config : AdmissionConfig) (usage now : bool) : bool :=
  usage && now && validLimits (config_Default config).

Definition clientLimitsFrom (value : Limits) : ClientLimits :=
  MkClientLimits (limits_RequestsPerWindow value) (limits_Window value)
    (limits_ClientActive value) (limits_ClientPending value).

Definition validClientLimits (value : ClientLimits) (globalActive : Z) : bool :=
  (0 <? cl_RequestsPerWindow value) && (0 <? cl_Window value)
  && (0 <? cl_Active value) && (0 <? cl_Pending value)
  && (cl_Pending value <=? cl_Active value) && (cl_Active value <=? globalActive).

Definition validClientID (value : string) : bool :=
  negb (is_empty value) && (len value <=? maxClientIDBytes).

(** [&clientState{}] *)
Definition zero_clientState : clientState := MkClientState 0 0 0.

Fixpoint client_states_loop (states : gmap string clientState) (clients : list string)
  : result error (gmap string clientState) :=
  match clients with
  | [] => Ok states
  | client :: rest =>
    let client := trim_space client in
    refuse (negb (validClientID client)) (errorf "admission client identity is invalid" []) ;;;
    refuse (bool_decide (is_Some (states !! client)))
      (errorf "admission client identity is duplicated" []) ;;;
    client_states_loop (<[client := zero_clientState]> states) rest
  end.

Definition clientStates (clients : list string) : result error (gmap string clientState) :=
  client_states_loop ∅ clients.

Section construction.
Context {R : MapRange}.

(** The second loop of [configuredClientLimits]. *)
Fixpoint client_limits_loop (states : gmap string clientState) (globalActive : Z)
    (limits : gmap string ClientLimits) (entries : list (string * ClientLimits))
  : result error (gmap string ClientLimits) :=
  match entries with
  | [] => Ok limits
  | (client, value) :: rest =>
    refuse (bool_decide (states !! client = None) || negb (validClientLimits value globalActive))
      (errorf "admission limits for client %q are invalid" [client]) ;;;
    client_limits_loop states globalActive (<[client := value]> limits) rest
  end.

Definition configuredClientLimits (states : gmap string clientState) (config : AdmissionConfig)
  : result error (gmap string ClientLimits) :=
  let defaults := clientLimitsFrom (config_Default config) in
  client_limits_loop states (limits_GlobalActive (config_Default config))
    ((λ _, defaults) <$> states) (map_range (config_Clients config)).

Definition newConfiguredController (clients : list string) (config : AdmissionConfig)
    (usage now : bool) : result error Controller :=
  let config := normalizedConfig config in
  refuse (negb (validControllerDependencies config usage now))
    (errorf "admission limits, usage reader, and clock are required" []) ;;;
  states ← clientStates clients;
  clientLimits ← configuredClientLimits states config;
  Ok (MkController (config_Default config) clientLimits states 0 None).

(** [time.Now] is never nil. *)
Definition NewConfigured (clients : list string) (config : AdmissionConfig) (usage : bool)
  : result error Controller :=
  newConfiguredController clients config usage true.

(** [admission.New] *)
Definition New (clients : list string) (limits : Limits) (usage : bool)
  : result error Controller :=
  NewConfigured clients (MkAdmissionConfig limits ∅) usage.

(** ** The configuration file *)

Record fileClientLimit : Type := MkFileClientLimit {
  fcl_RequestsPerWindow : Z;
  fcl_WindowSeconds : Z;
  fcl_Active : Z;
  fcl_Pending : Z
}.

Record fileConfig : Type := MkFileConfig {
  fc_RequestsPerWindow : Z;
  fc_WindowSeconds : Z;
  fc_ClientActive : Z;
  fc_ClientPending : Z;
  fc_GlobalActive : Z;
  fc_GlobalExecuting : Z;
  fc_Clients : gmap string fileClientLimit
}.

(** [time.Duration(seconds) * time.Second], a product of [int64]s. *)
Definition duration_of_seconds (seconds : Z) : Duration := wrap64 (seconds * second).

Definition client_limits_of (limits : fileClientLimit) : ClientLimits :=
  MkClientLimits (fcl_RequestsPerWindow limits) (duration_of_seconds (fcl_WindowSeconds limits))
    (fcl_Active limits) (fcl_Pending limits).

Definition config_of (wire : fileConfig) : AdmissionConfig :=
  MkAdmissionConfig
    (MkLimits (fc_RequestsPerWindow wire) (duration_of_seconds (fc_WindowSeconds wire))
       (fc_ClientActive wire) (fc_ClientPending wire)
       (fc_GlobalActive wire) (fc_GlobalExecuting wire))
    (client_limits_of <$> fc_Clients wire).

(** [ParseConfig], whose argument [decoded] is what the strict JSON decoder returns. *)
Definition ParseConfig (decoded : result error fileConfig) (clients : list string)
  : result error AdmissionConfig :=
  match decoded with
  | Err err => Err (Errorf "parse admission config: %w" [] [err])
  | Ok wire =>
    let config := config_of wire in
    _ ← NewConfigured clients config true;
    Ok config
  end.
End construction.

(** ** Admission *)

Definition set_client (client : string) (s : clientState) (c : Controller) : Controller :=
  MkController (ctl_limits c) (ctl_clientLimits c) (<[client := s]> (ctl_clients c))
    (ctl_globalReserved c) (ctl_observer c).

Definition set_globalReserved (n : Z) (c : Controller) : Controller :=
  MkController (ctl_limits c) (ctl_clientLimits c) (ctl_clients c) n (ctl_observer c).

Definition set_observer (observer : option (list Observer)) (c : Controller) : Controller :=
  MkController (ctl_limits c) (ctl_clientLimits c) (ctl_clients c) (ctl_globalReserved c)
    observer.

(** [SetObserver]: a new observer, or nil. *)
Definition SetObserver (attach : bool) (c : Controller) : Controller :=
  set_observer (if attach then Some [] else None) c.

Definition observe (outcome : Observer) (c : Controller) : Controller :=
  set_observer ((λ log, log ++ [outcome]) <$> ctl_observer c) c.

Definition reject (code : string) (c : Controller) : Controller :=
  observe (AdmissionRejected code) c.

(** [errors.As(err, &limit)] for a [*LimitError]: the first code of the tree, and its delay. *)
Fixpoint errors_As_LimitError (e : error) : option (string * Duration) :=
  let first :=
    fix first (l : list error) : option (string * Duration) :=
      match l with
      | [] => None
      | w :: t => match errors_As_LimitError w with Some c => Some c | None => first t end
      end in
  match e with
  | ErrorLimit code retry_after => Some (code, retry_after)
  | Errorf _ _ wrapped => first wrapped
  | ErrorJoin joined => first joined
  | ErrorFailure _ _ _ (Some cause) => errors_As_LimitError cause
  | ErrorPartial cause => errors_As_LimitError cause
  | _ => None
  end.

Definition admissionErrorCode (err : error) : string :=
  match errors_As_LimitError err with Some (code, _) => code | None => "other" end.

(** [Time.Sub] saturates. *)
Definition time_sub (t u : Time) : Duration :=
  Z.max (- max_int64 - 1) (Z.min max_int64 (t - u)).

Definition positiveDuration (value : Duration) : Duration :=
  if value <? second then second else value.

Definition chargeRequest (state : clientState) (limits : ClientLimits) (now : Time)
  : result error unit * clientState :=
  let state :=
    if time_is_zero (cs_windowStart state)
       || negb (time_before now (cs_windowStart state + cl_Window limits))
    then MkClientState now 0 (cs_reserved state) else state in
  if cl_RequestsPerWindow limits <=? cs_requests state
  then (Err (ErrorLimit "submission_rate_limited"
               (positiveDuration (time_sub (cs_windowStart state + cl_Window limits) now))),
        state)
  else (Ok tt, MkClientState (cs_windowStart state) (wrap64 (cs_requests state + 1))
                 (cs_reserved state)).

Definition capacityCode (c : Controller) (state : clientState) (limits : ClientLimits)
    (usage : Usage) : string :=
  if cl_Active limits <=? wrap64 (usage_ClientActive usage + cs_reserved state)
  then "client_operation_limit"
  else if cl_Pending limits <=? wrap64 (usage_ClientPending usage + cs_reserved state)
  then "client_pending_limit"
  else if limits_GlobalActive (ctl_limits c)
            <=? wrap64 (usage_GlobalActive usage + ctl_globalReserved c)
  then "global_operation_limit"
  else if limits_GlobalExecuting (ctl_limits c) <=? usage_GlobalExecuting usage
  then "global_execution_limit"
  else EmptyString.

Definition capacityError (code : string) : error := ErrorLimit code (2 * second).

(** A permit of the controller; [permit_once] says that [once] has run. *)
Record Permit : Type := MkPermit {
  permit_client : string;
  permit_once : bool
}.

(** The provisional reservation at the end of [Admit]. *)
Definition reserve (client : string) (state : clientState) (c : Controller) : Controller :=
  set_globalReserved (wrap64 (ctl_globalReserved c + 1))
    (set_client client
       (MkClientState (cs_windowStart state) (cs_requests state)
          (wrap64 (cs_reserved state + 1))) c).

(** [Admit] at the instant [now]; a client without limits has Go's zero limits. *)
Definition Admit (client : string) (now : Time) (usage : string → result error Usage)
    (c : Controller) : result error Permit * Controller :=
  let client := trim_space client in
  match ctl_clients c !! client with
  | None =>
    (Err (errorf "admission client is not configured" []), reject "client_unconfigured" c)
  | Some state =>
    let limits := default (MkClientLimits 0 0 0 0) (ctl_clientLimits c !! client) in
    let '(charged, state) := chargeRequest state limits now in
    let c := set_client client state c in
    match charged with
    | Err err => (Err err, reject (admissionErrorCode err) c)
    | Ok _ =>
      match usage client with
      | Err err =>
        (Err (Errorf "read operation admission usage: %w" [] [err]),
         reject "store_unavailable" c)
      | Ok usage =>
        let code := capacityCode c state limits usage in
        if negb (is_empty code) then (Err (capacityError code), reject code c)
        else (Ok (MkPermit client false), observe AdmissionAccepted (reserve client state c))
      end
    end
  end.

(** [Permit.release], the whole of [Commit] and of [Release]; [None] is a nil permit. *)
Definition release (p : option Permit) (c : Controller) : option Permit * Controller :=
  match p with
  | None => (None, c)
  | Some p =>
    if permit_once p then (Some p, c)
    else
      let c :=
        match ctl_clients c !! permit_client p with
        | Some state =>
          if 0 <? cs_reserved state
          then set_client (permit_client p)
                 (MkClientState (cs_windowStart state) (cs_requests state)
                    (cs_reserved state - 1)) c
          else c
        | None => c
        end in
      let c := if 0 <? ctl_globalReserved c
               then set_globalReserved (ctl_globalReserved c - 1) c else c in
      (Some (MkPermit (permit_client p) true), c)
  end.

(** ** Interleavings

    The callers of one controller: the permits handed out so far and the calls
    they make, in the order in which they take the mutex. *)

Inductive Call : Type :=
| CallAdmit (client : string) (now : Time) (usage : string → result error Usage)
| CallRelease (permit : nat).

Record Callers : Type := MkCallers {
  callers_controller : Controller;
  callers_permits : list Permit
}.

Definition call (k : Call) (s : Callers) : Callers :=
  match k with
  | CallAdmit client now usage =>
    match Admit client now usage (callers_controller s) with
    | (Ok p, c) => MkCallers c (callers_permits s ++ [p])
    | (Err _, c) => MkCallers c (callers_permits s)
    end
  | CallRelease i =>
    match release (callers_permits s !! i) (callers_controller s) with
    | (Some p, c) => MkCallers c (<[i := p]> (callers_permits s))
    | (None, c) => MkCallers c (callers_permits s)
    end
  end.

Definition calls (ks : list Call) (s : Callers) : Callers := foldl (λ s k, call k s) s ks.
