(* ===== verification/AdmissionLimits.v ===== *)
(** * What admission control guarantees

    Theorems about [Admission]: the provisional reservations are the open
    permits and stay within the limits, under every interleaving of calls; who is
    admitted; how many submissions of a client pass in any interval; and a
    configuration whose window is not the one it names. *)

From S2P Require Export Admission.

Local Open Scope Z_scope.

(** ** Configured controllers *)

Section limits.
Context {R : MapRange}.

Lemma client_states_loop_zero (clients : list string) (states states' : gmap string clientState) :
  client_states_loop states clients = Ok states' →
  (∀ k s, states !! k = Some s → s = zero_clientState) →
  ∀ k s, states' !! k = Some s → s = zero_clientState.
Proof.
  revert states. induction clients as [|x rest IH]; intros states; cbn [client_states_loop].
  - by intros [= ->].
  - rewrite !seq_ok. intros (_ & _ & H) Hz. apply (IH _ H).
    intros k s. rewrite lookup_insert_Some. naive_solver.
Qed.

(** Limits for exactly the clients of [states], all of them valid. *)
Definition limits_cover (states : gmap string clientState) (globalActive : Z)
    (limits : gmap string ClientLimits) : Prop :=
  dom limits = dom states
  ∧ ∀ k l, limits !! k = Some l → validClientLimits l globalActive = true.

Lemma client_limits_loop_cover (states : gmap string clientState) (globalActive : Z)
    (entries : list (string * ClientLimits)) (limits limits' : gmap string ClientLimits) :
  client_limits_loop states globalActive limits entries = Ok limits' →
  limits_cover states globalActive limits → limits_cover states globalActive limits'.
Proof.
  revert limits. induction entries as [|[k v] rest IH]; intros limits; cbn [client_limits_loop].
  - by intros [= ->].
  - rewrite seq_ok, refuse_ok, orb_false_iff, negb_false_iff, bool_decide_eq_false.
    intros ((Hk & Hv) & H) [Hd Hl]. apply (IH _ H). split.
    + rewrite dom_insert_L, Hd.
      assert (k ∈ dom states) by (apply elem_of_dom; by destruct (states !! k)). set_solver.
    + intros k' l. rewrite lookup_insert_Some. naive_solver.
Qed.

Lemma clientLimitsFrom_valid (l : Limits) :
  validLimits l = true → validClientLimits (clientLimitsFrom l) (limits_GlobalActive l) = true.
Proof.
  unfold validLimits, positiveLimits, hierarchicalLimits, validClientLimits.
  destruct l; cbn. rewrite !andb_true_iff. tauto.
Qed.

Lemma newConfiguredController_ok (clients : list string) (config : AdmissionConfig)
    (usage now : bool) (c : Controller) :
  newConfiguredController clients config usage now = Ok c →
  validLimits (ctl_limits c) = true
  ∧ limits_cover (ctl_clients c) (limits_GlobalActive (ctl_limits c)) (ctl_clientLimits c)
  ∧ (∀ k s, ctl_clients c !! k = Some s → s = zero_clientState)
  ∧ ctl_globalReserved c = 0.
Proof.
  unfold newConfiguredController. rewrite seq_ok, refuse_ok, bind_ok_iff.
  intros (Hd & states & Hs & H). apply bind_ok_iff in H as (limits & Hl & [= <-]). cbn.
  apply negb_false_iff in Hd. unfold validControllerDependencies in Hd.
  rewrite !andb_true_iff in Hd. destruct Hd as (_ & Hd).
  split; [done|]. split; [|split; [|done]].
  - apply (client_limits_loop_cover _ _ _ _ _ Hl). split.
    + by rewrite dom_fmap_L.
    + intros k l. rewrite lookup_fmap, fmap_Some. intros (s & _ & ->).
      by apply clientLimitsFrom_valid.
  - apply (client_states_loop_zero _ _ _ Hs). intros k s. by rewrite lookup_empty.
Qed.
End limits.

(** ** Reservations are the open permits *)

Definition is_open_of (client : string) (p : Permit) : bool :=
  String.eqb (permit_client p) client && negb (permit_once p).

(** How many permits satisfy [f]. *)
Definition permits_counted (f : Permit → bool) (ps : list Permit) : Z :=
  Z.of_nat (length (filter (λ p, f p = true) ps)).

Definition open_permits (client : string) : list Permit → Z := permits_counted (is_open_of client).
Definition all_open : list Permit → Z := permits_counted (λ p, negb (permit_once p)).

(** Occupancy read from storage counts records: it is not negative, and far from
    the limits of [int64]. *)
Definition usage_counts (globalActive : Z) (u : Usage) : Prop :=
  0 <= usage_ClientActive u <= max_int64 - globalActive
  ∧ 0 <= usage_ClientPending u <= max_int64 - globalActive
  ∧ 0 <= usage_GlobalActive u <= max_int64 - globalActive.

Definition call_counts (globalActive : Z) (k : Call) : Prop :=
  match k with
  | CallAdmit client _ usage =>
    ∀ u, usage (trim_space client) = Ok u → usage_counts globalActive u
  | CallRelease _ => True
  end.

Record controller_ok (c : Controller) (ps : list Permit) : Prop := {
  ctl_valid : validLimits (ctl_limits c) = true;
  ctl_cover : limits_cover (ctl_clients c) (limits_GlobalActive (ctl_limits c))
                (ctl_clientLimits c);
  ctl_reserved : ∀ k s l, ctl_clients c !! k = Some s → ctl_clientLimits c !! k = Some l →
    cs_reserved s = open_permits k ps ∧ cs_reserved s <= cl_Pending l;
  ctl_global : ctl_globalReserved c = all_open ps
    ∧ ctl_globalReserved c <= limits_GlobalActive (ctl_limits c);
  ctl_configured : ∀ p, p ∈ ps → is_Some (ctl_clients c !! permit_client p)
}.

Lemma permits_counted_app (f : Permit → bool) (ps qs : list Permit) :
  permits_counted f (ps ++ qs) = permits_counted f ps + permits_counted f qs.
Proof. unfold permits_counted. rewrite filter_app, length_app. lia. Qed.

Lemma permits_counted_one (f : Permit → bool) (p : Permit) :
  permits_counted f [p] = if f p then 1 else 0.
Proof. unfold permits_counted. cbn. destruct (f p); cbn; by case_decide. Qed.

Lemma permits_counted_nonneg (f : Permit → bool) (ps : list Permit) : 0 <= permits_counted f ps.
Proof. unfold permits_counted. lia. Qed.

Lemma open_permits_new (k k' : string) (ps : list Permit) :
  open_permits k' (ps ++ [MkPermit k false])
  = open_permits k' ps + (if String.eqb k k' then 1 else 0).
Proof.
  unfold open_permits. rewrite permits_counted_app, permits_counted_one.
  unfold is_open_of at 2. cbn. by rewrite andb_true_r.
Qed.

Lemma all_open_new (k : string) (ps : list Permit) :
  all_open (ps ++ [MkPermit k false]) = all_open ps + 1.
Proof. unfold all_open. by rewrite permits_counted_app, permits_counted_one. Qed.

(** Replacing a permit moves the count by the difference of the two. *)
Lemma permits_counted_insert (f : Permit → bool) (ps : list Permit) (i : nat) (p q : Permit) :
  ps !! i = Some p →
  permits_counted f (<[i := q]> ps)
  = permits_counted f ps - (if f p then 1 else 0) + (if f q then 1 else 0).
Proof.
  intros Hi. rewrite <- (take_drop_middle _ _ _ Hi) at 2.
  rewrite (insert_take_drop _ _ _ (lookup_lt_Some _ _ _ Hi)).
  rewrite !permits_counted_app. change (?x :: ?l) with ([x] ++ l).
  rewrite !permits_counted_app, !permits_counted_one. lia.
Qed.

(** What [chargeRequest] leaves alone. *)
Lemma chargeRequest_reserved (s : clientState) (l : ClientLimits) (now : Time) :
  cs_reserved (snd (chargeRequest s l now)) = cs_reserved s.
Proof. unfold chargeRequest. by repeat case_match. Qed.

(** There is room for one more operation of the client. *)
Definition has_room (c : Controller) (s : clientState) (l : ClientLimits) (u : Usage) : Prop :=
  usage_ClientActive u + cs_reserved s < cl_Active l
  ∧ usage_ClientPending u + cs_reserved s < cl_Pending l
  ∧ usage_GlobalActive u + ctl_globalReserved c < limits_GlobalActive (ctl_limits c)
  ∧ usage_GlobalExecuting u < limits_GlobalExecuting (ctl_limits c).

Lemma capacityCode_empty (c : Controller) (s : clientState) (l : ClientLimits) (u : Usage)
    (globalActive : Z) :
  usage_counts globalActive u → 0 <= cs_reserved s <= globalActive →
  0 <= ctl_globalReserved c <= globalActive →
  is_empty (capacityCode c s l u) = true ↔ has_room c s l u.
Proof.
  unfold usage_counts, max_int64. intros (H1 & H2 & H3) Hs Hg.
  unfold capacityCode, has_room. rewrite !wrap64_small by lia.
  repeat case_match; bool_to_prop; cbn; split; intros; try done; lia.
Qed.

Lemma Admit_cases (client : string) (now : Time) (usage : string → result error Usage)
    (c : Controller) :
  let k := trim_space client in
  let l := default (MkClientLimits 0 0 0 0) (ctl_clientLimits c !! k) in
  match ctl_clients c !! k with
  | None => ∃ e code, Admit client now usage c = (Err e, reject code c)
  | Some s =>
    let s' := snd (chargeRequest s l now) in
    (∃ e code, Admit client now usage c = (Err e, reject code (set_client k s' c))
       ∧ (is_ok (fst (chargeRequest s l now)) = true → ∀ u, usage k = Ok u →
          is_empty (capacityCode (set_client k s' c) s' l u) = false))
    ∨ ∃ u, is_ok (fst (chargeRequest s l now)) = true ∧ usage k = Ok u
        ∧ is_empty (capacityCode (set_client k s' c) s' l u) = true
        ∧ Admit client now usage c
          = (Ok (MkPermit k false), observe AdmissionAccepted (reserve k s' (set_client k s' c)))
  end.
Proof.
  cbn zeta. unfold Admit. destruct (ctl_clients c !! trim_space client) as [s|]; [|eauto].
  destruct (chargeRequest s _ now) as [[[]|e] s'] eqn:Hc; cbn [fst snd is_ok].
  2: { left. eexists _, _. by split. }
  destruct (usage (trim_space client)) as [u|e] eqn:Hu.
  2: { left. eexists _, _. by split. }
  destruct (is_empty (capacityCode _ s' _ u)) eqn:He; cbn [negb]; [right; by exists u|].
  left. eexists _, _. split; [done|]. intros _ u' Hu'. by simplify_eq.
Qed.

(** Rejections and observations do not touch the reservations. *)
Lemma controller_ok_charged (c : Controller) (ps : list Permit) (k : string) (s s' : clientState)
    (observer : option (list Observer)) :
  controller_ok c ps → ctl_clients c !! k = Some s → cs_reserved s' = cs_reserved s →
  controller_ok (set_observer observer (set_client k s' c)) ps.
Proof.
  intros [V [Hd Hl] Rs G P] Hk Hr. split; cbn; [done| | |done|].
  - split; [|done]. rewrite dom_insert_L, Hd.
    assert (k ∈ dom (ctl_clients c)) by (by apply elem_of_dom). set_solver.
  - intros k' s1 l1. rewrite lookup_insert_Some. intros [[<- <-]|[_ ?]] ?; [|by eapply Rs].
    rewrite Hr. by eapply Rs.
  - intros p Hp. destruct (decide (permit_client p = k)) as [->|].
    + rewrite lookup_insert_eq. eauto.
    + rewrite lookup_insert_ne by done. by apply P.
Qed.

Lemma controller_ok_observer (c : Controller) (ps : list Permit) (o : option (list Observer)) :
  controller_ok c ps → controller_ok (set_observer o c) ps.
Proof. by intros [V L Rs G P]; split. Qed.

Lemma cover_limits (c : Controller) (ps : list Permit) (k : string) (s : clientState) :
  controller_ok c ps → ctl_clients c !! k = Some s →
  ∃ l, ctl_clientLimits c !! k = Some l
    ∧ validClientLimits l (limits_GlobalActive (ctl_limits c)) = true.
Proof.
  intros [_ [Hd Hl] _ _ _] Hk.
  assert (k ∈ dom (ctl_clientLimits c)) as [l Hkl]%elem_of_dom
    by (rewrite Hd; by apply elem_of_dom).
  exists l. split; [done|by eapply Hl].
Qed.

Lemma validClientLimits_bounds (l : ClientLimits) (g : Z) :
  validClientLimits l g = true →
  0 < cl_RequestsPerWindow l ∧ 0 < cl_Window l ∧ 0 < cl_Pending l <= cl_Active l
  ∧ cl_Active l <= g.
Proof. unfold validClientLimits. intros H. bool_to_prop. lia. Qed.

(** The ranges in which the sums of the code do not wrap around. *)
Lemma controller_ok_ranges (c : Controller) (ps : list Permit) (k : string) (s : clientState) :
  controller_ok c ps → ctl_clients c !! k = Some s →
  0 <= cs_reserved s <= limits_GlobalActive (ctl_limits c)
  ∧ 0 <= ctl_globalReserved c <= limits_GlobalActive (ctl_limits c).
Proof.
  intros Hok Hk. destruct (cover_limits _ _ _ _ Hok Hk) as (l & Hl & Hv).
  apply validClientLimits_bounds in Hv. destruct (ctl_reserved _ _ Hok _ _ _ Hk Hl) as [He ?].
  destruct (ctl_global _ _ Hok) as [Hg ?].
  pose proof (permits_counted_nonneg (is_open_of k) ps).
  pose proof (permits_counted_nonneg (λ p, negb (permit_once p)) ps).
  unfold open_permits in He. unfold all_open in Hg. lia.
Qed.

Lemma controller_ok_reserve (c : Controller) (ps : list Permit) (k : string) (s : clientState)
    (l : ClientLimits) (u : Usage) :
  controller_ok c ps → ctl_clients c !! k = Some s → ctl_clientLimits c !! k = Some l →
  usage_counts (limits_GlobalActive (ctl_limits c)) u → has_room c s l u →
  controller_ok (reserve k s c) (ps ++ [MkPermit k false]).
Proof.
  intros Hok Hk Hl Hu (R1 & R2 & R3 & _).
  destruct (controller_ok_ranges _ _ _ _ Hok Hk) as [Hr Hg].
  destruct (cover_limits _ _ _ _ Hok Hk) as (l' & Hl' & Hv). simplify_eq.
  apply validClientLimits_bounds in Hv. unfold usage_counts, max_int64 in Hu.
  assert (controller_ok (set_client k s c) ps) as [V C Rs G P]
    by (by apply (controller_ok_charged _ _ _ s _ (ctl_observer c))).
  cbn in V, C, Rs, G, P. destruct G as [G G'].
  unfold reserve. rewrite !wrap64_small by lia.
  split; cbn; [done| | | |].
  - destruct C as [C ?]. split; [|done]. by rewrite C, !dom_insert_L.
  - intros k' s1 l1. rewrite lookup_insert_Some, open_permits_new.
    intros [[<- <-]|[Hne Hk1]] Hl1; cbn.
    + rewrite String.eqb_refl. simplify_eq.
      destruct (ctl_reserved _ _ Hok _ _ _ Hk Hl) as [He ?]. lia.
    + rewrite (proj2 (String.eqb_neq _ _) Hne).
      destruct (ctl_reserved _ _ Hok _ _ _ Hk1 Hl1) as [He ?]. lia.
  - rewrite all_open_new. lia.
  - intros p. rewrite elem_of_app, list_elem_of_singleton.
    intros [Hp| ->]; cbn; [|by rewrite lookup_insert_eq; eauto].
    destruct (decide (permit_client p = k)) as [->|].
    + rewrite lookup_insert_eq. eauto.
    + rewrite lookup_insert_ne by done. by apply (ctl_configured _ _ Hok).
Qed.

Lemma controller_ok_release (c : Controller) (ps : list Permit) (i : nat) (p : Permit) :
  controller_ok c ps → ps !! i = Some p → permit_once p = false →
  controller_ok (snd (release (Some p) c)) (<[i := MkPermit (permit_client p) true]> ps).
Proof.
  intros Hok Hi Ho. set (k := permit_client p).
  destruct (ctl_configured _ _ Hok p (list_elem_of_lookup_2 _ _ _ Hi)) as [s Hk]. fold k in Hk.
  destruct (cover_limits _ _ _ _ Hok Hk) as (l & Hl & _).
  assert (∀ k', open_permits k' (<[i := MkPermit k true]> ps)
            = open_permits k' ps - (if String.eqb k k' then 1 else 0)) as Hc.
  { intros k'. unfold open_permits. rewrite (permits_counted_insert _ _ _ _ _ Hi).
    unfold is_open_of at 2 3. fold k. rewrite Ho. cbn. rewrite andb_true_r, andb_false_r. lia. }
  assert (all_open (<[i := MkPermit k true]> ps) = all_open ps - 1) as Ha.
  { unfold all_open. rewrite (permits_counted_insert _ _ _ _ _ Hi), Ho. cbn. lia. }
  assert (0 < open_permits k ps ∧ 0 < all_open ps) as [Hp1 Hp2].
  { pose proof (permits_counted_nonneg (is_open_of k) (<[i := MkPermit k true]> ps)) as H1.
    pose proof (permits_counted_nonneg (λ q, negb (permit_once q)) (<[i := MkPermit k true]> ps))
      as H2.
    specialize (Hc k). rewrite String.eqb_refl in Hc. unfold open_permits, all_open in *. lia. }
  destruct Hok as [V [Hd Hv] Rs [G G'] P].
  destruct (Rs _ _ _ Hk Hl) as [Hr Hr'].
  unfold release. rewrite Ho. fold k. rewrite Hk.
  rewrite (proj2 (Z.ltb_lt 0 (cs_reserved s))) by lia. cbn [set_client ctl_globalReserved].
  rewrite (proj2 (Z.ltb_lt 0 (ctl_globalReserved c))) by lia. cbn [snd].
  split; cbn; [done| | | |].
  - split; [|done]. rewrite dom_insert_L, Hd.
    assert (k ∈ dom (ctl_clients c)) by (apply elem_of_dom; eauto). set_solver.
  - intros k' s1 l1. rewrite lookup_insert_Some, Hc. intros [[<- <-]|[Hne Hk1]] Hl1; cbn.
    + rewrite String.eqb_refl. simplify_eq. lia.
    + rewrite (proj2 (String.eqb_neq _ _) Hne). destruct (Rs _ _ _ Hk1 Hl1). lia.
  - rewrite Ha. lia.
  - intros q Hq. rewrite lookup_insert_is_Some'. right.
    apply list_elem_of_lookup in Hq as [j Hj].
    apply list_lookup_insert_Some in Hj as [(<- & <- & _)|[_ Hj]]; [by exists s|].
    apply P. by eapply list_elem_of_lookup_2.
Qed.

Lemma controller_ok_call (k : Call) (s : Callers) :
  controller_ok (callers_controller s) (callers_permits s) →
  call_counts (limits_GlobalActive (ctl_limits (callers_controller s))) k →
  controller_ok (callers_controller (call k s)) (callers_permits (call k s))
  ∧ ctl_limits (callers_controller (call k s)) = ctl_limits (callers_controller s)
  ∧ ctl_clientLimits (callers_controller (call k s)) = ctl_clientLimits (callers_controller s).
Proof.
  destruct s as [c ps]. cbn [callers_controller callers_permits]. intros Hok Hu.
  destruct k as [client now usage|i]; cbn [call callers_controller callers_permits].
  - pose proof (Admit_cases client now usage c) as H. cbn zeta in H.
    destruct (ctl_clients c !! trim_space client) as [s|] eqn:Hk.
    2: { destruct H as (e & code & ->). split; [by apply controller_ok_observer|done]. }
    set (k := trim_space client) in *. destruct (cover_limits _ _ _ _ Hok Hk) as (l & Hl & _).
    rewrite Hl in H. cbn [default from_option id] in H.
    set (s' := snd (chargeRequest s l now)) in *.
    assert (Hs' : cs_reserved s' = cs_reserved s) by apply chargeRequest_reserved.
    destruct H as [(e & code & -> & _)|(u & _ & Hku & He & ->)]; cbn.
    + split; [|done]. by eapply controller_ok_charged.
    + split; [|done]. apply controller_ok_observer.
      pose proof (controller_ok_charged _ _ _ _ s' (ctl_observer c) Hok Hk Hs') as Hok'.
      change (set_observer _ (set_client k s' c)) with (set_client k s' c) in Hok'.
      assert (Hk' : ctl_clients (set_client k s' c) !! k = Some s') by apply lookup_insert_eq.
      destruct (controller_ok_ranges _ _ _ _ Hok' Hk') as [Hr Hg].
      apply (controller_ok_reserve _ _ _ _ l u); [done|done|done|by apply Hu|].
      by eapply capacityCode_empty; [apply Hu|..].
  - destruct (ps !! i) as [p|] eqn:Hi; [|done].
    destruct (permit_once p) eqn:Ho.
    + unfold release. rewrite Ho. cbn. by rewrite (list_insert_id _ _ _ Hi).
    + pose proof (controller_ok_release c ps i p Hok Hi Ho) as Hr. revert Hr.
      unfold release. rewrite Ho. cbn [snd]. intros Hr. cbn. split; [done|].
      by destruct (ctl_clients c !! permit_client p); cbn; repeat case_match.
Qed.

Lemma controller_ok_calls (ks : list Call) (s : Callers) :
  controller_ok (callers_controller s) (callers_permits s) →
  Forall (call_counts (limits_GlobalActive (ctl_limits (callers_controller s)))) ks →
  controller_ok (callers_controller (calls ks s)) (callers_permits (calls ks s))
  ∧ ctl_limits (callers_controller (calls ks s)) = ctl_limits (callers_controller s)
  ∧ ctl_clientLimits (callers_controller (calls ks s)) = ctl_clientLimits (callers_controller s).
Proof.
  revert s. induction ks as [|k ks IH]; intros s Hok Hks; [done|].
  apply Forall_cons in Hks as [Hk Hks].
  destruct (controller_ok_call k s Hok Hk) as (Hok' & He & He').
  cbn [calls foldl]. change (foldl _ _ _) with (calls ks (call k s)).
  rewrite <- He, <- He'. apply IH; [done|]. by rewrite He.
Qed.

Lemma controller_ok_fresh `{R : MapRange} (clients : list string) (config : AdmissionConfig)
    (c : Controller) :
  newConfiguredController clients config true true = Ok c → controller_ok c [].
Proof.
  intros (V & C & Z & G)%newConfiguredController_ok. split; [done|done| |..].
  - intros k s l Hk Hl. rewrite (Z _ _ Hk). cbn. split; [done|].
    destruct C as [_ C]. specialize (C _ _ Hl). apply validClientLimits_bounds in C. lia.
  - rewrite G. unfold all_open, permits_counted. cbn.
    unfold validLimits, positiveLimits in V. bool_to_prop. lia.
  - intros p Hp. by apply not_elem_of_nil in Hp.
Qed.

(** C39: However the callers of a new controller interleave, each configured client's
    provisional reservations are its open permits and at most its pending limit, which is
    at most its active limit, and the global count is that of all open permits, at most
    the global limit; releasing a permit again frees nothing. *)
Theorem admission_reservations `{R : MapRange} (clients : list string)
    (config : AdmissionConfig) (c : Controller) (ks : list Call) :
  newConfiguredController clients config true true = Ok c →
  Forall (call_counts (limits_GlobalActive (ctl_limits c))) ks →
  let s := calls ks (MkCallers c []) in
  let c' := callers_controller s in
  (∀ client state, ctl_clients c' !! client = Some state →
     ∃ limits, ctl_clientLimits c !! client = Some limits
       ∧ cs_reserved state = open_permits client (callers_permits s)
       ∧ cs_reserved state <= cl_Pending limits <= cl_Active limits)
  ∧ ctl_globalReserved c' = all_open (callers_permits s)
  ∧ ctl_globalReserved c' <= limits_GlobalActive (ctl_limits c).
Proof.
  intros Hc%controller_ok_fresh Hks. cbn zeta.
  destruct (controller_ok_calls ks (MkCallers c []) Hc Hks) as (Hok & He & He').
  cbn in He, He'. rewrite <- He. split; [|exact (ctl_global _ _ Hok)].
  intros client s Hs. destruct (cover_limits _ _ _ _ Hok Hs) as (l & Hl & Hv).
  destruct (ctl_reserved _ _ Hok _ _ _ Hs Hl) as [??].
  apply validClientLimits_bounds in Hv. exists l. rewrite <- He'.
  repeat split; try done; lia.
Qed.

(** The window of [state] has ended, or has not begun, at [now]. *)
Definition window_over (state : clientState) (limits : ClientLimits) (now : Time) : Prop :=
  cs_windowStart state = 0 ∨ cs_windowStart state + cl_Window limits <= now.

Lemma chargeRequest_ok (s : clientState) (l : ClientLimits) (now : Time) :
  0 < cl_RequestsPerWindow l →
  is_ok (fst (chargeRequest s l now)) = true
  ↔ window_over s l now ∨ cs_requests s < cl_RequestsPerWindow l.
Proof.
  unfold chargeRequest, window_over, time_is_zero, time_before. intros Hl.
  destruct (Z.eqb_spec (cs_windowStart s) 0), (Z.ltb_spec now (cs_windowStart s + cl_Window l));
    cbn [orb negb cs_requests]; case_match; bool_to_prop; cbn [fst is_ok]; split; intros; try done;
    lia.
Qed.

(** A submission is admitted exactly when its client is configured, its window is
    over or has a request left, the occupancy can be read, and the client and the broker
    have room next to the provisional reservations; the permit then names the client. *)
Theorem Admit_ok_iff (client : string) (now : Time) (usage : string → result error Usage)
    (c : Controller) (ps : list Permit) (p : Permit) :
  controller_ok c ps →
  call_counts (limits_GlobalActive (ctl_limits c)) (CallAdmit client now usage) →
  fst (Admit client now usage c) = Ok p
  ↔ p = MkPermit (trim_space client) false
    ∧ ∃ state limits u,
        ctl_clients c !! trim_space client = Some state
        ∧ ctl_clientLimits c !! trim_space client = Some limits
        ∧ (window_over state limits now ∨ cs_requests state < cl_RequestsPerWindow limits)
        ∧ usage (trim_space client) = Ok u ∧ has_room c state limits u.
Proof.
  intros Hok Hu. pose proof (Admit_cases client now usage c) as H. cbn zeta in H.
  set (k := trim_space client) in *. destruct (ctl_clients c !! k) as [s|] eqn:Hk.
  2: { destruct H as (e & code & ->). split; [done|]. intros (_ & ? & _ & _ & ? & _). done. }
  destruct (cover_limits _ _ _ _ Hok Hk) as (l & Hl & Hv). rewrite Hl in H.
  cbn [default from_option id] in H. apply validClientLimits_bounds in Hv as (Hn & _).
  set (s' := snd (chargeRequest s l now)) in *.
  assert (Hs' : cs_reserved s' = cs_reserved s) by apply chargeRequest_reserved.
  assert (∀ u, usage k = Ok u →
    is_empty (capacityCode (set_client k s' c) s' l u) = true ↔ has_room c s l u) as Hroom.
  { intros u Hku. destruct (controller_ok_ranges _ _ _ _ Hok Hk) as [Hr Hg].
    rewrite (capacityCode_empty _ _ _ _ (limits_GlobalActive (ctl_limits c)));
      [|by apply Hu|by rewrite Hs'|done].
    unfold has_room. by rewrite Hs'. }
  destruct H as [(e & code & -> & Hno)|(u & Hc & Hku & He & ->)]; cbn [fst].
  - split; [done|]. intros (-> & s1 & l1 & u & Hs1 & Hl1 & Hc & Hku & Hr).
    exfalso. assert (s1 = s) as -> by congruence. assert (l1 = l) as -> by congruence.
    apply (chargeRequest_ok s l now Hn) in Hc. apply (Hroom u Hku) in Hr.
    by rewrite (Hno Hc u Hku) in Hr.
  - split.
    + intros [= <-]. split; [done|]. exists s, l, u. repeat split; try done.
      * by apply chargeRequest_ok.
      * by apply Hroom.
      * by apply Hroom.
      * by apply Hroom.
      * by apply Hroom.
    + by intros [-> _].
Qed.

(** ** The rate of a client *)

(** How many instants of [h] lie in the half-open interval from [a] to [b]. *)
Definition within (a b : Time) (h : list Time) : Z :=
  Z.of_nat (length (filter (λ t, a <= t < b) h)).

Lemma within_app (a b : Time) (h h' : list Time) :
  within a b (h ++ h') = within a b h + within a b h'.
Proof. unfold within. rewrite filter_app, length_app. lia. Qed.

Lemma within_one (a b t : Time) : within a b [t] = if bool_decide (a <= t < b) then 1 else 0.
Proof. unfold within. cbn. case_decide; case_bool_decide; cbn; done. Qed.

Lemma within_mono (a b a' b' : Time) (h : list Time) :
  (∀ t, t ∈ h → a <= t < b → a' <= t < b') → within a b h <= within a' b' h.
Proof.
  induction h as [|t h IH]; intros H; [done|].
  change (t :: h) with ([t] ++ h). rewrite !within_app, !within_one.
  assert (within a b h <= within a' b' h) by (apply IH; intros; apply H; [by right|done]).
  assert (a <= t < b → a' <= t < b') by (apply H; by left).
  repeat case_bool_decide; lia.
Qed.

Lemma within_split (a b m : Time) (h : list Time) :
  within a b h <= within a m h + within m b h.
Proof.
  induction h as [|t h IH]; [done|].
  change (t :: h) with ([t] ++ h). rewrite !within_app, !within_one.
  repeat case_bool_decide; lia.
Qed.

(** What the rate bucket of a client knows of the instants of its admissions. *)
Record rate_ok (l : ClientLimits) (s : clientState) (h : list Time) : Prop := {
  rate_start : cs_windowStart s = 0 → h = [];
  rate_now : within (cs_windowStart s) (cs_windowStart s + cl_Window l) h <= cs_requests s;
  rate_requests : 0 <= cs_requests s <= cl_RequestsPerWindow l;
  rate_previous : within (cs_windowStart s - cl_Window l) (cs_windowStart s) h
                  <= cl_RequestsPerWindow l;
  rate_any : ∀ t, within t (t + cl_Window l) h <= 2 * cl_RequestsPerWindow l;
  rate_old : ∀ t, t ∈ h → t < cs_windowStart s + cl_Window l
}.

(** Instants before the interval do not count. *)
Lemma within_late (a b : Time) (h : list Time) : (∀ t, t ∈ h → t < a) → within a b h = 0.
Proof.
  intros H. assert (within a b h <= within 0 0 h) as Hm.
  { apply within_mono. intros t Ht. specialize (H t Ht). lia. }
  assert (within 0 0 h = 0) as H0.
  { clear. induction h as [|t h IH]; [done|]. change (t :: h) with ([t] ++ h).
    rewrite within_app, within_one, IH. by case_bool_decide; [lia|]. }
  unfold within in *. lia.
Qed.

Lemma within_one_bounds (a b t : Time) : 0 <= within a b [t] <= 1.
Proof. rewrite within_one. case_bool_decide; lia. Qed.

(** An admission that begins a window. *)
Lemma rate_ok_begin (l : ClientLimits) (s : clientState) (h : list Time) (now reserved : Z) :
  0 < cl_RequestsPerWindow l → 0 < cl_Window l → 0 < now → window_over s l now →
  rate_ok l s h → rate_ok l (MkClientState now 1 reserved) (h ++ [now]).
Proof.
  intros HN HW Hnow Hover [S N Q P A O].
  assert (Hlate : ∀ t, t ∈ h → t < now).
  { intros t Ht. destruct Hover as [E|E]; [|specialize (O t Ht); lia].
    rewrite (S E) in Ht. by apply not_elem_of_nil in Ht. }
  assert (Hnew : ∀ b, within now b h = 0) by (intros b; by apply within_late).
  assert (Hbefore : within (now - cl_Window l) now h <= cl_RequestsPerWindow l).
  { destruct Hover as [E|E]; [rewrite (S E); unfold within; cbn; lia|].
    etrans; [|etrans; [exact N|lia]]. apply within_mono. intros t Ht ?.
    specialize (O t Ht). lia. }
  split; cbn; [lia| |lia| | |].
  - rewrite within_app, Hnew. pose proof (within_one_bounds now (now + cl_Window l) now). lia.
  - rewrite within_app, within_one. case_bool_decide; lia.
  - intros t. rewrite within_app, within_one. specialize (A t). case_bool_decide; [|lia].
    pose proof (within_split t (t + cl_Window l) now h). rewrite Hnew in *.
    pose proof (within_mono t now (now - cl_Window l) now h ltac:(lia)). lia.
  - intros t. rewrite elem_of_app, list_elem_of_singleton. intros [Ht| ->]; [|lia].
    specialize (Hlate t Ht). lia.
Qed.

(** An admission in the current window. *)
Lemma rate_ok_continue (l : ClientLimits) (s : clientState) (h : list Time) (now reserved : Z) :
  0 < cl_RequestsPerWindow l → 0 < cl_Window l → cs_windowStart s ≠ 0 →
  cs_windowStart s <= now < cs_windowStart s + cl_Window l →
  cs_requests s < cl_RequestsPerWindow l → rate_ok l s h →
  rate_ok l (MkClientState (cs_windowStart s) (cs_requests s + 1) reserved) (h ++ [now]).
Proof.
  intros HN HW Hs Hnow Hr [S N Q P A O]. set (ws := cs_windowStart s) in *.
  split; cbn; [done| |lia| | |].
  - rewrite within_app. pose proof (within_one_bounds ws (ws + cl_Window l) now). lia.
  - rewrite within_app, within_one. case_bool_decide; lia.
  - intros t. rewrite within_app, within_one. specialize (A t). case_bool_decide; [|lia].
    pose proof (within_split t (t + cl_Window l) ws h).
    pose proof (within_mono t ws (ws - cl_Window l) ws h ltac:(lia)).
    assert (within ws (t + cl_Window l) h <= within ws (ws + cl_Window l) h).
    { apply within_mono. intros x Hx ?. specialize (O x Hx). lia. }
    lia.
  - intros t. rewrite elem_of_app, list_elem_of_singleton. intros [Ht| ->]; [|lia].
    by apply O.
Qed.

(** A charge without an admission leaves no trace but the bucket's. *)
Lemma rate_ok_more (l : ClientLimits) (ws requests reserved now : Z) (h : list Time) :
  0 < cl_RequestsPerWindow l →
  rate_ok l (MkClientState ws requests reserved) (h ++ [now]) →
  rate_ok l (MkClientState ws requests reserved) h.
Proof.
  intros HN [S N Q P A O]. cbn in *.
  assert (Hle : ∀ a b, within a b h <= within a b (h ++ [now])).
  { intros a b. rewrite within_app. pose proof (within_one_bounds a b now). lia. }
  split; cbn; [|by etrans; [apply Hle|]|done|by etrans; [apply Hle|]
              |intros t; by etrans; [apply Hle|]|].
  - intros E. specialize (S E). by destruct h.
  - intros t Ht. apply O. rewrite elem_of_app. by left.
Qed.

Lemma rate_ok_charge (l : ClientLimits) (s : clientState) (h h' : list Time) (now : Time) :
  let charged := chargeRequest s l now in
  0 < cl_RequestsPerWindow l <= max_int64 → 0 < cl_Window l → 0 < now →
  cs_windowStart s <= now → rate_ok l s h →
  h' = h ∨ is_ok (fst charged) = true ∧ h' = h ++ [now] →
  rate_ok l (snd charged) h' ∧ cs_windowStart (snd charged) <= now.
Proof.
  cbn zeta. intros HN HW Hnow Hs Hok Hh. destruct (rate_requests _ _ _ Hok) as [? Hr].
  assert (Hhist : ∀ s', rate_ok l s' (h ++ [now]) → rate_ok l s' h').
  { intros [ws r v] Hs'. destruct Hh as [->|[_ ->]]; [|done].
    by eapply rate_ok_more; [apply HN|]. }
  assert (Hbegin : window_over s l now → ∀ reserved,
    rate_ok l (MkClientState now (wrap64 (0 + 1)) reserved) h').
  { intros Ho v. apply Hhist. rewrite wrap64_small by lia. by eapply rate_ok_begin; [lia|..]. }
  revert Hh. unfold chargeRequest, time_is_zero, time_before.
  destruct (Z.eqb_spec (cs_windowStart s) 0) as [E|E]; cbn [orb cs_requests cs_reserved].
  { rewrite (proj2 (Z.leb_gt (cl_RequestsPerWindow l) 0)) by lia. intros _. cbn.
    split; [|lia]. apply Hbegin. by left. }
  destruct (Z.ltb_spec now (cs_windowStart s + cl_Window l)) as [L|L];
    cbn [negb cs_requests cs_reserved].
  2: { rewrite (proj2 (Z.leb_gt (cl_RequestsPerWindow l) 0)) by lia. intros _. cbn.
       split; [|lia]. apply Hbegin. by right. }
  destruct (Z.leb_spec (cl_RequestsPerWindow l) (cs_requests s)) as [M|M]; cbn.
  - intros [->|[? _]]; done.
  - intros _. split; [|lia]. apply Hhist. unfold max_int64 in HN.
    rewrite wrap64_small by lia. by apply rate_ok_continue; [lia|..].
Qed.

(** The instants at which the calls [ks] are admitted for [client]. *)
Definition admission_of (client : string) (k : Call) (s : Callers) : list Time :=
  match k with
  | CallAdmit name now usage =>
    if String.eqb (trim_space name) client && is_ok (fst (Admit name now usage (callers_controller s)))
    then [now] else []
  | CallRelease _ => []
  end.

Fixpoint admissions (client : string) (ks : list Call) (s : Callers) : list Time :=
  match ks with
  | [] => []
  | k :: rest => admission_of client k s ++ admissions client rest (call k s)
  end.

(** The clock readings of the calls do not decrease, from [start] on. *)
Fixpoint clock_from (start : Time) (ks : list Call) : Prop :=
  match ks with
  | [] => True
  | CallAdmit _ now _ :: rest => start <= now ∧ clock_from now rest
  | CallRelease _ :: rest => clock_from start rest
  end.

Lemma rate_ok_reserved (l : ClientLimits) (s : clientState) (h : list Time) (reserved : Z) :
  rate_ok l s h → rate_ok l (MkClientState (cs_windowStart s) (cs_requests s) reserved) h.
Proof. by intros [S N Q P A O]. Qed.

(** The bucket of [client] after a call, with the admissions so far. *)
Definition bucket_ok (client : string) (l : ClientLimits) (start : Time) (h : list Time)
    (c : Controller) : Prop :=
  ctl_clientLimits c !! client = Some l
  ∧ ∃ s, ctl_clients c !! client = Some s ∧ rate_ok l s h ∧ cs_windowStart s <= start.

Lemma bucket_ok_later (client : string) (l : ClientLimits) (start now : Time) (h : list Time)
    (c : Controller) :
  start <= now → bucket_ok client l start h c → bucket_ok client l now h c.
Proof. intros Hn (Hl & s & Hs & Hr & ?). split; [done|]. exists s. split_and!; [done..|lia]. Qed.

Lemma bucket_ok_admit (client : string) (l : ClientLimits) (start now : Time) (h : list Time)
    (name : string) (usage : string → result error Usage) (s : Callers) :
  0 < cl_RequestsPerWindow l <= max_int64 → 0 < cl_Window l → 0 < start <= now →
  bucket_ok client l start h (callers_controller s) →
  bucket_ok client l now (h ++ admission_of client (CallAdmit name now usage) s)
    (callers_controller (call (CallAdmit name now usage) s)).
Proof.
  destruct s as [c ps]. cbn [callers_controller]. intros HN HW Hnow Hb.
  apply (bucket_ok_later _ _ _ now) in Hb; [|lia]. destruct Hb as (Hl & s & Hs & Hr & Hw).
  cbn [call admission_of callers_controller callers_permits].
  pose proof (Admit_cases name now usage c) as H. cbn zeta in H.
  set (k := trim_space name) in *.
  destruct (decide (k = client)) as [->|Hne].
  2: { rewrite (proj2 (String.eqb_neq _ _) Hne). cbn [andb]. rewrite app_nil_r.
       destruct (ctl_clients c !! k) as [sk|];
         [destruct H as [(e & code & -> & _)|(u & _ & _ & _ & ->)]|destruct H as (e & code & ->)];
         (split; [done|]; exists s; cbn; rewrite ?lookup_insert_ne by done; done). }
  rewrite String.eqb_refl. cbn [andb]. rewrite Hs, Hl in H. cbn [default from_option id] in H.
  destruct H as [(e & code & -> & _)|(u & Hc & _ & _ & ->)]; cbn [fst is_ok].
  - rewrite app_nil_r. destruct (rate_ok_charge l s h h now) as [Hr' Hw']; try done; [lia|by left|].
    split; [done|]. eexists. split; [apply lookup_insert_eq|done].
  - destruct (rate_ok_charge l s h (h ++ [now]) now) as [Hr' Hw']; try done; [lia|by right|].
    split; [done|]. eexists. split; [apply lookup_insert_eq|].
    split; [by apply rate_ok_reserved|done].
Qed.

Lemma bucket_ok_release (client : string) (l : ClientLimits) (start : Time) (h : list Time)
    (i : nat) (s : Callers) :
  bucket_ok client l start h (callers_controller s) →
  bucket_ok client l start h (callers_controller (call (CallRelease i) s)).
Proof.
  destruct s as [c ps]. cbn [callers_controller call callers_permits].
  intros (Hl & s & Hs & Hr & Hw). destruct (ps !! i) as [p|]; [|split; eauto].
  unfold release. destruct (permit_once p); [split; eauto|].
  assert (∀ n c', bucket_ok client l start h c' → bucket_ok client l start h
            (set_globalReserved n c')) as Hset by done.
  destruct (ctl_clients c !! permit_client p) as [sp|] eqn:Hp; cbn [callers_controller].
  2: { cbv zeta. destruct (0 <? ctl_globalReserved _); split; eauto. }
  assert (bucket_ok client l start h
            (if 0 <? cs_reserved sp
             then set_client (permit_client p)
                    (MkClientState (cs_windowStart sp) (cs_requests sp) (cs_reserved sp - 1)) c
             else c)) as Hb.
  { destruct (0 <? cs_reserved sp); [|split; eauto]. split; [done|]. cbn.
    destruct (decide (permit_client p = client)) as [He|Hne].
    - rewrite He in *. simplify_eq. eexists. rewrite lookup_insert_eq. split; [done|].
      split; [by apply rate_ok_reserved|done].
    - exists s. by rewrite lookup_insert_ne. }
  cbv zeta. by destruct (0 <? ctl_globalReserved _).
Qed.

Lemma bucket_ok_calls (client : string) (l : ClientLimits) (ks : list Call) (start : Time)
    (h : list Time) (s : Callers) :
  0 < cl_RequestsPerWindow l <= max_int64 → 0 < cl_Window l → 0 < start → clock_from start ks →
  bucket_ok client l start h (callers_controller s) →
  ∃ now, bucket_ok client l now (h ++ admissions client ks s) (callers_controller (calls ks s)).
Proof.
  intros HN HW. revert start h s. induction ks as [|k ks IH]; intros start h s Hst Hks Hb.
  - exists start. cbn. by rewrite app_nil_r.
  - cbn [calls foldl admissions]. change (foldl _ _ _) with (calls ks (call k s)).
    rewrite (assoc_L (++)). destruct k as [name now usage|i]; cbn [clock_from] in Hks.
    + destruct Hks as [Hn Hks]. apply (IH now); [lia|done|]. by eapply bucket_ok_admit.
    + apply (IH start); [done|done|]. cbn [admission_of]. rewrite app_nil_r.
      by apply bucket_ok_release.
Qed.

(** However the callers interleave, a client is admitted at most twice its request
    limit in any interval as long as its window: the rate buckets are reset, not slid,
    and twice the limit is what that costs at worst. *)
Theorem admission_rate_bounded `{R : MapRange} (clients : list string)
    (config : AdmissionConfig) (c : Controller) (ks : list Call) (start : Time)
    (client : string) (limits : ClientLimits) (t : Time) :
  newConfiguredController clients config true true = Ok c →
  ctl_clientLimits c !! client = Some limits → cl_RequestsPerWindow limits <= max_int64 →
  0 < start → clock_from start ks →
  within t (t + cl_Window limits) (admissions client ks (MkCallers c []))
  <= 2 * cl_RequestsPerWindow limits.
Proof.
  intros (_ & C & Z & _)%newConfiguredController_ok Hl Hmax Hst Hks. destruct C as [Hd C].
  specialize (C _ _ Hl). apply validClientLimits_bounds in C as (HN & HW & _).
  assert (client ∈ dom (ctl_clients c)) as [s Hs]%elem_of_dom
    by (rewrite <- Hd; by apply elem_of_dom).
  destruct (bucket_ok_calls client limits ks start [] (MkCallers c [])) as (now & _ & s' & _ & Hr & _);
    try done.
  - split; [done|]. exists s. rewrite (Z _ _ Hs). split; [by rewrite <- (Z _ _ Hs)|]. cbn.
    split; [|lia]. split; cbn; try done; try (unfold within; cbn; lia).
    intros x Hx. by apply not_elem_of_nil in Hx.
  - exact (rate_any _ _ _ Hr t).
Qed.

(** The window of a configuration file is multiplied out in 64 bits: a window of some
    585 years is accepted and becomes 290 milliseconds, so that the client may submit its
    whole quota several times a second. *)
Theorem window_seconds_wraps `{R : MapRange} :
  ∃ wire config, ParseConfig (Ok wire) ["alice"] = Ok config
    ∧ fc_WindowSeconds wire = 18446744074
    ∧ limits_Window (config_Default config) = 290448384.
Proof.
  exists (MkFileConfig 60 18446744074 25 10 512 64 ∅).
  exists (MkAdmissionConfig (MkLimits 60 290448384 25 10 512 64) ∅). split; [|done].
  unfold ParseConfig, NewConfigured, newConfiguredController.
  assert (normalizedConfig (config_of (MkFileConfig 60 18446744074 25 10 512 64 ∅))
          = MkAdmissionConfig (MkLimits 60 290448384 25 10 512 64) ∅) as -> by reflexivity.
  cbn zeta. assert (config_of (MkFileConfig 60 18446744074 25 10 512 64 ∅)
          = MkAdmissionConfig (MkLimits 60 290448384 25 10 512 64) ∅) as -> by reflexivity.
  unfold configuredClientLimits. cbn [config_Clients]. rewrite map_range_empty. reflexivity.
Qed.

(** ** A sample controller *)

Definition sample_config : AdmissionConfig :=
  MkAdmissionConfig DefaultLimits {["bob" := MkClientLimits 2 minute 3 1]}.

Definition nothing_stored (client : string) : result error Usage := Ok (MkUsage 0 0 0 0).

Definition sample_controller : Controller :=
  match newConfiguredController (R := canonical_range) ["alice"; " bob "] sample_config true true
  with
  | Ok c => c
  | Err _ => MkController DefaultLimits ∅ ∅ 0 None
  end.

Lemma sample_controller_ok :
  newConfiguredController (R := canonical_range) ["alice"; " bob "] sample_config true true
  = Ok sample_controller.
Proof. vm_compute. reflexivity. Qed.

(** Bob is refused a second permit until he returns the first, and then waits for
    his next window. *)
Definition sample_calls : list Call :=
  [CallAdmit "bob" hour nothing_stored; CallAdmit "alice" hour nothing_stored;
   CallAdmit "bob" hour nothing_stored; CallRelease 0; CallRelease 0;
   CallAdmit "bob" hour nothing_stored;
   CallAdmit "bob" (hour + minute) nothing_stored].

Example sample_calls_run :
  (callers_permits (calls sample_calls (MkCallers sample_controller [])),
   admissions "bob" sample_calls (MkCallers sample_controller []))
  = ([MkPermit "bob" true; MkPermit "alice" false; MkPermit "bob" false], [hour; hour + minute]).
Proof. vm_compute. reflexivity. Qed.

Lemma sample_calls_count :
  Forall (call_counts (limits_GlobalActive (ctl_limits sample_controller))) sample_calls.
Proof.
  assert (usage_counts (limits_GlobalActive (ctl_limits sample_controller)) (MkUsage 0 0 0 0))
    as Hu by (vm_compute; repeat split; intros H; discriminate H).
  assert (∀ name now, call_counts (limits_GlobalActive (ctl_limits sample_controller))
            (CallAdmit name now nothing_stored)) as Hc by (intros name now u [= <-]; exact Hu).
  unfold sample_calls. rewrite !Forall_cons. done.
Qed.

Lemma admission_reservations_witness :
  let s := calls sample_calls (MkCallers sample_controller []) in
  let c' := callers_controller s in
  (∀ client state, ctl_clients c' !! client = Some state →
     ∃ limits, ctl_clientLimits sample_controller !! client = Some limits
       ∧ cs_reserved state = open_permits client (callers_permits s)
       ∧ cs_reserved state <= cl_Pending limits <= cl_Active limits)
  ∧ ctl_globalReserved c' = all_open (callers_permits s)
  ∧ ctl_globalReserved c' <= limits_GlobalActive (ctl_limits sample_controller).
Proof.
  exact (admission_reservations (R := canonical_range) _ _ _ sample_calls sample_controller_ok
           sample_calls_count).
Defined.

Lemma Admit_ok_iff_witness :
  fst (Admit "bob" hour nothing_stored sample_controller) = Ok (MkPermit "bob" false)
  ↔ MkPermit "bob" false = MkPermit (trim_space "bob") false
    ∧ ∃ state limits u,
        ctl_clients sample_controller !! trim_space "bob" = Some state
        ∧ ctl_clientLimits sample_controller !! trim_space "bob" = Some limits
        ∧ (window_over state limits hour ∨ cs_requests state < cl_RequestsPerWindow limits)
        ∧ nothing_stored (trim_space "bob") = Ok u ∧ has_room sample_controller state limits u.
Proof.
  apply (Admit_ok_iff "bob" hour nothing_stored sample_controller []).
  - exact (controller_ok_fresh (R := canonical_range) _ _ _ sample_controller_ok).
  - exact (Forall_inv sample_calls_count).
Defined.

Lemma admission_rate_bounded_witness :
  within hour (hour + minute) (admissions "bob" sample_calls (MkCallers sample_controller []))
  <= 2 * 2.
Proof.
  apply (admission_rate_bounded (R := canonical_range) _ _ _ sample_calls hour "bob"
           (MkClientLimits 2 minute 3 1) hour sample_controller_ok).
  - vm_compute. reflexivity.
  - vm_compute. intros H; discriminate H.
  - vm_compute. reflexivity.
  - unfold sample_calls. cbn [clock_from]. unfold hour, minute. repeat split; lia.
Defined.
