(* ===== verification/Coordinator.v ===== *)
(** * Coordination: [authorization/coordinator.go]

    The authorize-or-request transition of a broker: the policy decision over
    the active grants of the store, and the bounded approval request that is
    made where the policy asks for one.  The store is one on the database, the
    only kind that commits the immutable plan of a request.

    [DecideFunc], [ActiveGrantsFunc] and [IntentBuilder] are functions the
    provider passes in; a nil function is [None]. *)

From S2P Require Export GrantsSQLite PolicyDecide.

Local Open Scope Z_scope.

(** [GrantIntent] *)
Record GrantIntent : Type := MkGrantIntent {
  intent_Mode : GrantMode;
  intent_Authorization : Request;
  intent_Request : GrantRequest;
  intent_Plan : Plan
}.

(** [IntentBuilder] *)
Definition IntentBuilder : Type := Decision → result error GrantIntent.

(** [DecideFunc] *)
Definition DecideFunc : Type := Request → DecisionOptions → Decision.

(** [authorization.Result] *)
Record AuthorizationResult : Type := MkAuthorizationResult {
  auth_Decision : Decision;
  auth_Request : Grant;
  auth_Created : bool
}.

(** The zero values of [policy.Decision] and of the fields of [Result]. *)
Definition zero_Decision : Decision :=
  MkDecision (EffectOther EmptyString) false (ReasonText EmptyString)
    (CredentialUseOther EmptyString) [] [] [] [] EmptyString None.

Definition decided_only (decision : Decision) : AuthorizationResult :=
  MkAuthorizationResult decision zero_Grant false.

(** [policy.DecisionOptions] as the coordinator fills it. *)
Definition decision_options (instant : Time) (active : list PolicyGrant) (for_request : bool)
  : DecisionOptions :=
  MkDecisionOptions for_request instant active (CredentialUseOther EmptyString).

Definition wrap (format : string) (e : error) : error := Errorf format [] [e].

Definition no_match (e : error) : error := Errorf "%w: %w" [] [ErrNoMatch; e].

(** [&&] and the condition of an active grant. *)
Definition has_grant (decision : Decision) : bool :=
  decision_Allowed decision && negb (is_empty (decision_GrantID decision)).

(** [policy.GrantMode(text)] *)
Definition grant_mode_of (text : string) : GrantMode :=
  if String.eqb text "window" then GrantModeWindow
  else if String.eqb text "execution" then GrantModeExecution
  else GrantModeOther text.

(** ** Bounds of an intent *)

Definition validateTimedBound (name : string) (value : Duration) (maxMinutes : Z)
  : result error unit :=
  refuse ((value <=? 0) || (wrap64 (maxMinutes * minute) <? value))
    (errorf "%s exceeds policy bounds" [name]).

Definition validateUseCount (mode : GrantMode) (uses maximum : Limit) : result error unit :=
  refuse ((uses <? 0) || (IsFinite maximum && (IsUnlimited uses || (maximum <? uses))))
    (errorf "requested use count exceeds policy bounds" []) ;;;
  refuse (bool_decide (mode = GrantModeExecution) && negb (uses =? 1))
    (errorf "execution approvals must have exactly one use" []).

Definition validateGrantBounds (intent : GrantIntent) (bounds : option GrantPolicy)
  : result error unit :=
  match bounds with
  | None => Err (errorf "request rule has no grant bounds" [])
  | Some bounds =>
    refuse (negb (bool_decide (gp_Mode bounds = intent_Mode intent)))
      (errorf "approval mode does not match policy bounds" []) ;;;
    validateTimedBound "requested duration" (req_Duration (intent_Request intent))
      (gp_MaxMinutes bounds) ;;;
    validateTimedBound "pending timeout" (req_PendingTimeout (intent_Request intent))
      (gp_RequestTTLMinutes bounds) ;;;
    validateUseCount (intent_Mode intent) (req_MaxUses (intent_Request intent))
      (gp_MaxUses bounds)
  end.

(** [validateIntent]; [reflect.DeepEqual] is equality, nil maps being empty. *)
Definition validateIntent (registry : Registry) (request : Request) (decision : Decision)
    (intent : GrantIntent) : result error unit :=
  refuse (negb (bool_decide (request = intent_Authorization intent))) ErrInvalidGrantIntent ;;;
  refuse (match Registry_Operation registry (request_Operation request) with
          | None => true
          | Some spec => negb (AllowsGrantMode spec (intent_Mode intent))
          end) ErrApprovalUnsupported ;;;
  match validateGrantBounds intent (decision_GrantPolicy decision) with
  | Ok _ => Ok tt
  | Err e => Err (Errorf "%w: %w" [] [ErrInvalidGrantIntent; e])
  end.

Definition buildIntent (build : option IntentBuilder) (decision : Decision)
  : result error GrantIntent :=
  match build with
  | None => Err ErrInvalidGrantIntent
  | Some build =>
    match build decision with
    | Ok intent => Ok intent
    | Err e => Err (Errorf "%w: %w" [] [ErrInvalidGrantIntent; e])
    end
  end.

Definition refusedResult (decision : Decision) : AuthorizationResult * option error :=
  if bool_decide (decision_Effect decision = EffectNoMatch)
  then (decided_only decision, Some ErrNoMatch)
  else (decided_only decision, Some ErrDenied).

Section coordinator.
Context {R : MapRange}.
Context `{JT : JSON Target} `{JA : JSON StringListMap} `{JM : JSON (gmap string string)}
  `{JE : JSON EventRecord} `{JG : JSON Grant}.
Context (admits : Database → Statement → result error unit)
  (begin_tx : nat → result error unit) (commit_tx : nat → CommitOutcome)
  (plandigest_Digest : string → string).
Context (clock : nat → Time) (new_id : nat → result error string) (o : Options).

#[local] Instance coordinated_storage : GrantStorage :=
  sqlite admits begin_tx commit_tx plandigest_Digest.

(** [ActiveGrantsFunc] *)
Definition ActiveGrantsFunc : Type := Request → Eff (result error (list PolicyGrant)).

(** [authorization.Options]; [copts_Grants] tells whether a store is given. *)
Record CoordinatorOptions : Type := MkCoordinatorOptions {
  copts_Registry : Registry;
  copts_Decide : option DecideFunc;
  copts_Grants : bool;
  copts_ActiveGrants : option ActiveGrantsFunc;
  copts_Now : option (Eff Time)
}.

Record Coordinator : Type := MkCoordinator {
  co_registry : Registry;
  co_decide : DecideFunc;
  co_activeGrants : ActiveGrantsFunc;
  co_now : Eff Time
}.

(** [authorization.New] *)
Definition New (options : CoordinatorOptions) : result error Coordinator :=
  match Registry_validate (copts_Registry options) with
  | Err e => Err (wrap "validate authorization registry: %w" e)
  | Ok _ =>
    match copts_Decide options with
    | Some decide =>
      refuse (negb (copts_Grants options))
        (errorf "authorization decision function and grant store are required" []) ;;;
      Ok (MkCoordinator (copts_Registry options) decide
            (default (λ _, ActivePolicyGrants clock o) (copts_ActiveGrants options))
            (default (clocked (now clock)) (copts_Now options)))
    | None => Err (errorf "authorization decision function and grant store are required" [])
    end
  end.

Context (c : Coordinator).

Definition createApprovalRequest (request : Request) (decision : Decision)
    (build : option IntentBuilder) : Eff (AuthorizationResult * option error) :=
  match buildIntent build decision with
  | Err e => mret (decided_only decision, Some e)
  | Ok intent =>
    match validateIntent (co_registry c) request decision intent with
    | Err e => mret (decided_only decision, Some e)
    | Ok _ =>
      out ← RequestWithPlan admits begin_tx commit_tx plandigest_Digest clock new_id o
              (intent_Request intent) (intent_Plan intent);
      mret (match out_err out with
            | Some e => (decided_only decision, Some (wrap "create approval request: %w" e))
            | None => (MkAuthorizationResult decision (out_Grant out) (out_created out), None)
            end)
    end
  end.

(** [Coordinator.Authorize] *)
Definition Authorize (request : Request) (build : option IntentBuilder)
  : Eff (AuthorizationResult * option error) :=
  match validateRequest (co_registry c) request with
  | Err e =>
    mret (decided_only (MkDecision EffectNoMatch false (ReasonError e)
            (CredentialUseOther EmptyString) [] [] [] [] EmptyString None), Some (no_match e))
  | Ok _ =>
    active ← co_activeGrants c request;
    match active with
    | Err e => mret (decided_only zero_Decision, Some (wrap "load active grants: %w" e))
    | Ok active =>
      instant ← co_now c;
      let decision := co_decide c request (decision_options instant active false) in
      if decision_Allowed decision && bool_decide (decision_Effect decision = EffectAllow)
      then mret (decided_only decision, None)
      else
        let requestDecision := co_decide c request (decision_options instant [] true) in
        if negb (bool_decide (decision_Effect requestDecision = EffectRequest))
        then mret (refusedResult decision)
        else createApprovalRequest request requestDecision build
    end
  end.

(** [Coordinator.RequestApproval] *)
Definition RequestApproval (request : Request) (build : option IntentBuilder)
  : Eff (AuthorizationResult * option error) :=
  match validateRequest (co_registry c) request with
  | Err e =>
    mret (decided_only (MkDecision EffectNoMatch false (ReasonError e)
            (CredentialUseOther EmptyString) [] [] [] [] EmptyString None), Some (no_match e))
  | Ok _ =>
    instant ← co_now c;
    let decision := co_decide c request (decision_options instant [] true) in
    if negb (bool_decide (decision_Effect decision = EffectRequest))
    then mret (refusedResult decision)
    else createApprovalRequest request decision build
  end.

(** [Coordinator.ActiveGrant]: the decision and whether it rests on a grant. *)
Definition ActiveGrant (request : Request) : Eff (result error (Decision * bool)) :=
  match validateRequest (co_registry c) request with
  | Err e => mret (Err (no_match e))
  | Ok _ =>
    active ← co_activeGrants c request;
    match active with
    | Err e => mret (Err (wrap "load active grants: %w" e))
    | Ok active =>
      instant ← co_now c;
      let decision := co_decide c request (decision_options instant active false) in
      mret (Ok (decision, has_grant decision))
    end
  end.

(** The loop of [ActiveGrantMode]: the candidates whose durable mode is [mode]. *)
Fixpoint grants_of_mode (mode : GrantMode) (active : list PolicyGrant)
  : Eff (result error (list PolicyGrant)) :=
  match active with
  | [] => mret (Ok [])
  | candidate :: rest =>
    grant ← Get clock o (pg_ID candidate);
    match grant with
    | Err e => mret (Err (wrap "load active grant mode: %w" e))
    | Ok grant =>
      filtered ← grants_of_mode mode rest;
      mret (match filtered with
            | Err e => Err e
            | Ok filtered =>
              if bool_decide (grant_mode_of (text_of (grant_Metadata grant !! MetadataMode)) = mode)
              then Ok (candidate :: filtered) else Ok filtered
            end)
    end
  end.

(** [Coordinator.ActiveGrantMode] *)
Definition ActiveGrantMode (request : Request) (mode : GrantMode)
  : Eff (result error (Decision * bool)) :=
  match validateRequest (co_registry c) request with
  | Err e => mret (Err (no_match e))
  | Ok _ =>
    active ← co_activeGrants c request;
    match active with
    | Err e => mret (Err (wrap "load active grants: %w" e))
    | Ok active =>
      filtered ← grants_of_mode mode active;
      match filtered with
      | Err e => mret (Err e)
      | Ok filtered =>
        instant ← co_now c;
        let decision := co_decide c request (decision_options instant filtered false) in
        mret (Ok (decision, has_grant decision))
      end
    end
  end.
End coordinator.
