(* ===== verification/CoordinatorSafety.v ===== *)
(** * What the coordinator allows and requests

    An allowed request rests on an allow rule or on an active durable grant with
    uses left, and never on anything a deny rule matches; a request for approval
    stays within the bounds of the request rule that made it requestable. *)

From S2P Require Export PolicyParse Coordinator GrantsPlans.

Local Open Scope Z_scope.

(** ** Active grants of the store *)

Lemma expire_grant_active (instant : Time) (g g' : Grant) :
  expire_grant instant g = Some g' → grant_Status g' = StatusExpired.
Proof.
  unfold expire_grant. destruct (grant_Status g); try done; destruct (negb _); try done;
    by intros [= <-].
Qed.

Section active.
Context {R : MapRange} {GS : GrantStorage} (clock : nat → Time) (o : Options).
Context (Hmax : 0 < opts_MaxEvents o).

Lemma expired_grants (instant : Time) (d : FileData) (g : Grant) :
  g ∈ fd_Grants (fst (expire_at instant d)) → grant_Status g = StatusActive → g ∈ fd_Grants d.
Proof.
  unfold expire_at. cbn. intros Hg Hs. apply list_elem_of_fmap in Hg as (g0 & -> & Hg0).
  destruct (expire_grant instant g0) as [g1|] eqn:E; [|done]. cbn in *.
  apply expire_grant_active in E. congruence.
Qed.

Lemma reconciled_usable (before : gmap string Grant) (g : Grant) (instant : Time) :
  grantCanUse (reconciled before g) instant = grantCanUse g instant
  ∧ toPolicyGrant (reconciled before g) = toPolicyGrant g.
Proof. unfold reconciled. by destruct (Nat.eqb _ _). Qed.

Lemma load_stored (w w' : World) (d : FileData) :
  load w = (Ok d, w') → loadRaw (w_storage w) = Ok d ∧ w' = w.
Proof.
  unfold load, validate_loaded. intros [= H ->]. split; [|done].
  rewrite bind_ok_iff in H. destruct H as (d0 & Hl & H). rewrite !seq_ok in H.
  by destruct H as (_ & _ & _ & [= ->]).
Qed.

(** What a read returns is selected from the prepared and reconciled data. *)
Lemma read_prepared_ok {A} (prepare : FileData → Clocked (FileData * bool))
    (select : FileData → Eff (result error A)) (w : World) (a : A) :
  fst (read_prepared clock o prepare select w) = Ok a →
  ∃ d d1 d2 t1 t2 c1 c2, loadRaw (w_storage w) = Ok d
    ∧ prepare d (w_tick w) = ((d1, c1), t1)
    ∧ reconcileLifecycle clock o d1 (grantSnapshots (fd_Grants d)) t1 = ((d2, c2), t2)
    ∧ fst (select d2 (MkWorld (w_storage w) t2 (w_ids w) (w_signals w))) = Ok a.
Proof.
  unfold read_prepared, and_then. rewrite bind_run.
  destruct (load w) as [[d|e] w0] eqn:El; [|done]. apply load_stored in El as [Hl ->].
  rewrite bind_run. unfold clocked at 1. destruct (prepare d (w_tick w)) as [[d1 c1] t1] eqn:Ep.
  rewrite bind_run. unfold clocked at 1. cbn [w_tick w_storage w_ids w_signals].
  destruct (reconcileLifecycle clock o d1 _ t1) as [[d2 c2] t2] eqn:Er.
  rewrite bind_run. intros H. exists d, d1, d2, t1, t2, c1, c2. split_and!; try done. revert H.
  destruct (select d2 _) as [[b|e] w3]; [|done]. destruct (c2 || c1); [|done].
  rewrite bind_run. destruct (save d2 w3) as [[[]|e] w4]; [|done].
  rewrite bind_run. destruct (signalNewEvents _ _ w4) as [[] w5]. done.
Qed.

(** The overlays are those of stored grants that are active, unexpired and not
    used up at the instant read. *)
Lemma ActivePolicyGrants_stored (w : World) (active : list PolicyGrant) :
  fst (ActivePolicyGrants clock o w) = Ok active →
  ∃ d, loadRaw (w_storage w) = Ok d
    ∧ ∀ pg, pg ∈ active → ∃ g n, g ∈ fd_Grants d ∧ pg = toPolicyGrant g
        ∧ grantCanUse g (clock n) = true ∧ (w_tick w <= n)%nat.
Proof.
  intros H. apply read_prepared_ok in H as (d & d1 & d2 & t1 & t2 & c1 & c2 & Hl & Hp & Hr & Hs).
  exists d. split; [done|]. unfold expireDue, now, mbind, clocked_bind, mret, clocked_ret in Hp.
  injection Hp as Hd1 <- <-.
  pose proof (reconcile_from_post clock o Hmax (grantSnapshots (fd_Grants d)) (fd_Grants d1) d1
    (S (w_tick w))) as Hrec.
  unfold reconcileLifecycle, mbind, clocked_bind, clocked_post in Hr, Hrec.
  destruct (reconcile_from _ _ _ _ _ _) as [[[gs d3] c3] t3].
  destruct Hrec as [Ht (-> & _ & _)]. injection Hr as <- _ <-.
  injection Hs as <-. cbn [set_Grants fd_Grants w_tick].
  intros pg (g & -> & Hg)%list_elem_of_fmap. apply list_elem_of_filter in Hg as [Hcan Hg].
  apply list_elem_of_fmap in Hg as (g0 & -> & Hg0).
  destruct (reconciled_usable (grantSnapshots (fd_Grants d)) g0 (clock t3)) as [Hc Hpg].
  rewrite Hc in Hcan. exists g0, t3. split_and!; [|done|exact Hcan|lia].
  apply (expired_grants (clock (w_tick w))); [|by apply grantCanUse_iff in Hcan as [? _]].
  rewrite <- Hd1 in Hg0. exact Hg0.
Qed.
End active.

(** ** Decisions of the policy *)

(** A rule of the policy with this effect covers the managed use of the request. *)
Definition covered_by (p : Policy) (request : Request) (effect : Effect) : Prop :=
  ∃ rule, rule ∈ policy_rules p ∧ rule_Effect rule = effect
    ∧ rule_covers (policy_registry p) rule request CredentialUseManaged.

(** The request is classified and its operation supports managed credentials. *)
Definition decidable_request (p : Policy) (request : Request) : Prop :=
  classified (policy_registry p) request
  ∧ credential_supported (policy_registry p) (request_Operation request) CredentialUseManaged.

Section verdicts.
Context {R : MapRange}.

Lemma rule_applies_covers (p : Policy) (request : Request) (effect : Effect) (rule : Rule) :
  rule_applies p request CredentialUseManaged effect rule ↔
  rule ∈ policy_rules p ∧ rule_Effect rule = effect
  ∧ rule_covers (policy_registry p) rule request CredentialUseManaged.
Proof. unfold rule_applies. by rewrite ruleMatches_covers. Qed.

Lemma covering_rules_nil (p : Policy) (request : Request) (effect : Effect) :
  covering_rules p request CredentialUseManaged effect = [] ↔ ¬ covered_by p request effect.
Proof.
  unfold covered_by. setoid_rewrite <- rule_applies_covers.
  transitivity (matchingRuleIDs p request effect CredentialUseManaged = []).
  { unfold matchingRuleIDs, covering_rules. destruct (filter _ _); [done|].
    split; intros H; discriminate H. }
  rewrite matchingRuleIDs_nil. naive_solver.
Qed.

(** The decision on a decidable request, by what covers it. *)
Lemma Decide_judged (t : Time) (p : Policy) (request : Request) (instant : Time)
    (active : list PolicyGrant) (b : bool) :
  let opts := decision_options instant active b in
  decidable_request p request →
  judged t p request opts CredentialUseManaged (covering_rules p request CredentialUseManaged)
    (Decide t p request opts).
Proof.
  intros opts [Hc Hs]. destruct (Decide_cases t p request opts) as [(_ & _ & ->)|(Hn & _)].
  - apply decideValidRequest_judged.
  - by destruct Hn.
Qed.

Lemma decision_options_use (instant : Time) (active : list PolicyGrant) (b : bool) :
  defaultedCredentialUse (opts_CredentialUse (decision_options instant active b))
  = CredentialUseManaged.
Proof. done. Qed.

(** A decision that asks for an approval. *)
Lemma Decide_requestable (t : Time) (p : Policy) (request : Request) (instant : Time)
    (active : list PolicyGrant) (b : bool) :
  let decision := Decide t p request (decision_options instant active b) in
  decision_Effect decision = EffectRequest →
  b = true
  ∧ (∀ effect rule, effect = EffectDeny ∨ effect = EffectAllow →
       ¬ rule_applies p request CredentialUseManaged effect rule)
  ∧ ∃ rule, rule_applies p request CredentialUseManaged EffectRequest rule
      ∧ decision_GrantPolicy decision = firstGrantPolicy p (rule_ID rule).
Proof.
  intros decision. unfold decision.
  destruct (Decide_cases t p request (decision_options instant active b))
    as [(_ & _ & ->)|(_ & e & ->)]; [|done].
  pose proof (decideValidRequest_verdict t p request (decision_options instant active b)
    CredentialUseManaged) as Hv.
  rewrite decision_options_use. inversion Hv as [| | |rule gp ids Hno Hfor Hrule Hids Hhead Hgp Heq| |];
    try done. intros _. split; [done|]. split; [done|]. exists rule. by rewrite <- Hgp.
Qed.

Lemma Decide_allowed (t : Time) (p : Policy) (request : Request) (instant : Time)
    (active : list PolicyGrant) (b : bool) :
  instant ≠ 0 →
  decision_Allowed (Decide t p request (decision_options instant active b)) = true →
  classified (policy_registry p) request
  ∧ (∀ rule, ¬ rule_applies p request CredentialUseManaged EffectDeny rule)
  ∧ ((∃ rule, rule_applies p request CredentialUseManaged EffectAllow rule)
     ∨ ∃ g, g ∈ active ∧ usable_grant (policy_registry p) request instant g).
Proof.
  intros Hne.
  destruct (Decide_cases t p request (decision_options instant active b))
    as [(Hc & _ & ->)|(_ & e & ->)]; [|done].
  rewrite decideValidRequest_allowed, decision_options_use. intros (Hd & Hg).
  split; [done|]. split; [done|]. destruct Hg as [(_ & g & Hin & Hu)|Hr]; [right|by left].
  exists g. split; [exact Hin|]. revert Hu. unfold decision_instant, time_is_zero. cbn.
  by destruct (Z.eqb_spec instant 0).
Qed.

(** Only a decidable request is allowed, denied or requestable. *)
Lemma Decide_decided (t : Time) (p : Policy) (request : Request) (instant : Time)
    (active : list PolicyGrant) (b : bool) :
  decision_Effect (Decide t p request (decision_options instant active b)) ≠ EffectNoMatch →
  decidable_request p request.
Proof.
  intros Hne. destruct (Decide_cases t p request (decision_options instant active b))
    as [(Hc & Hs & _)|(_ & e & He)]; [done|by rewrite He in Hne].
Qed.

Lemma Decide_allow_effect (t : Time) (p : Policy) (request : Request) (opts : DecisionOptions) :
  decision_Allowed (Decide t p request opts) = true ↔
  decision_Effect (Decide t p request opts) = EffectAllow.
Proof.
  destruct (Decide_cases t p request opts) as [(_ & _ & ->)|(_ & e & ->)]; [|done].
  set (use := defaultedCredentialUse _).
  pose proof (decideValidRequest_verdict t p request opts use) as Hv.
  by inversion Hv.
Qed.

Lemma covering_rules_covered (p : Policy) (request : Request) (effect : Effect) :
  covering_rules p request CredentialUseManaged effect ≠ [] → covered_by p request effect.
Proof.
  intros Hne. destruct (covering_rules p request CredentialUseManaged effect) as [|rule rules] eqn:E; [done|].
  assert (rule ∈ covering_rules p request CredentialUseManaged effect) as Hin by (rewrite E; left).
  unfold covering_rules in Hin. apply list_elem_of_filter in Hin as [(He & Hm)%andb_true_iff Hin].
  apply bool_decide_eq_true in He. apply ruleMatches_covers in Hm; [|done]. by exists rule.
Qed.

Lemma instant_of_given (t instant : Time) (active : list PolicyGrant) (b : bool) :
  instant ≠ 0 → instant_of t (decision_options instant active b) = instant.
Proof. intros Hne. unfold instant_of. by rewrite decide_False. Qed.

(** An allowed request is covered by an allow rule or by an active grant. *)
Lemma allowed_covered (t : Time) (p : Policy) (request : Request) (instant : Time)
    (active : list PolicyGrant) (b : bool) :
  instant ≠ 0 →
  decision_Allowed (Decide t p request (decision_options instant active b)) = true →
  decidable_request p request ∧ ¬ covered_by p request EffectDeny
  ∧ (covered_by p request EffectAllow
     ∨ ∃ g, g ∈ active ∧ grant_usable (policy_registry p) request instant g).
Proof.
  intros Hne Ha.
  assert (decidable_request p request) as Hdec.
  { apply (Decide_decided t p request instant active b). apply Decide_allow_effect in Ha. by rewrite Ha. }
  split; [done|]. revert Ha. pose proof (Decide_judged t p request instant active b Hdec) as Hj.
  inversion Hj as [|before after g Hd _ Hact _ Hg Heq|Hd _ Hal Heq|rule rest gp Hd _ Hal Hreq _ Heq|]; try done.
  - intros _. split; [by apply covering_rules_nil|]. right. exists g.
    rewrite instant_of_given in Hg by done. cbn in Hact. rewrite Hact. split; [set_solver|done].
  - intros _. split; [by apply covering_rules_nil|]. left. by apply covering_rules_covered.
  - by destruct b.
Qed.

(** What covers a decidable request gives the decision. *)
Lemma Decide_answers (t : Time) (p : Policy) (request : Request) (instant : Time)
    (active : list PolicyGrant) (b : bool) :
  let decided := Decide t p request (decision_options instant active b) in
  decidable_request p request → instant ≠ 0 →
  (covered_by p request EffectDeny →
   decision_Effect decided = EffectDeny ∧ decision_Allowed decided = false)
  ∧ (¬ covered_by p request EffectDeny →
     covered_by p request EffectAllow
     ∨ (∃ g, g ∈ active ∧ grant_usable (policy_registry p) request instant g) →
     decision_Allowed decided = true)
  ∧ ((∀ effect, ¬ covered_by p request effect) →
     (∀ g, g ∈ active → ¬ grant_usable (policy_registry p) request instant g) →
     decision_Effect decided = EffectNoMatch ∧ decision_Allowed decided = false).
Proof.
  intros decided Hdec Hne. unfold decided.
  assert (∀ effect, covering_rules p request CredentialUseManaged effect ≠ [] ↔ covered_by p request effect) as Hcov.
  { intros effect. split; [apply covering_rules_covered|]. intros Hc Hnil. by apply covering_rules_nil in Hnil. }
  pose proof (Decide_judged t p request instant active b Hdec) as Hj. rewrite <- !Hcov. setoid_rewrite <- Hcov.
  inversion Hj as [Hd Heq|before after g Hd _ Hact _ Hg Heq|Hd _ Hal Heq|rule rest gp Hd Hno Hal Hreq _ Heq
                  |Hd Hno Hal Hreq Heq]; cbn [decision_Effect decision_Allowed].
  - split; [done|]. split; [done|]. intros Hnone. by destruct (Hnone EffectDeny).
  - split; [done|]. split; [done|]. intros _ Hnone. destruct (Hnone g).
    + cbn in Hact. rewrite Hact. set_solver.
    + by rewrite instant_of_given in Hg.
  - split; [done|]. split; [done|]. intros Hnone. by destruct (Hnone EffectAllow).
  - rewrite instant_of_given in Hno by done. split; [done|]. split.
    + intros _ [Ha|(g & Hg & Hu)]; [done|by destruct (Hno eq_refl g Hg)].
    + intros Hnone. destruct (Hnone EffectRequest). by rewrite Hreq.
  - rewrite instant_of_given in Hno by done. split; [done|]. split; [|done].
    intros _ [Ha|(g & Hg & Hu)]; [done|by destruct (Hno eq_refl g Hg)].
Qed.
End verdicts.

(** ** Bounds of an intent *)

Lemma validateTimedBound_ok (name : string) (value : Duration) (maxMinutes : Z) :
  validateTimedBound name value maxMinutes = Ok tt ↔
  0 < value <= wrap64 (maxMinutes * minute).
Proof.
  unfold validateTimedBound. rewrite refuse_ok, orb_false_iff, Z.leb_gt, Z.ltb_ge. lia.
Qed.

(** The use counts a rule with the maximum [maximum] permits. *)
Definition uses_within (mode : GrantMode) (maximum uses : Limit) : Prop :=
  0 <= uses ∧ (maximum = Unlimited ∨ maximum < 0 ∨ 0 < uses <= maximum)
  ∧ (mode = GrantModeExecution → uses = 1).

Lemma validateUseCount_ok (mode : GrantMode) (uses maximum : Limit) :
  validateUseCount mode uses maximum = Ok tt → uses_within mode maximum uses.
Proof.
  unfold validateUseCount, uses_within, IsFinite, IsUnlimited, Unlimited.
  rewrite seq_ok, !refuse_ok, orb_false_iff, !andb_false_iff, orb_false_iff.
  rewrite negb_false_iff, bool_decide_eq_false, Z.eqb_eq, !Z.ltb_ge, Z.eqb_neq.
  intros [[Hu Hm] He]. split; [done|]. split; [lia|]. intros ->. by destruct He.
Qed.

(** What the validation of an intent ensures. *)
Definition intent_within (registry : Registry) (request : Request) (bounds : GrantPolicy)
    (intent : GrantIntent) : Prop :=
  intent_Authorization intent = request
  ∧ (∃ spec, Registry_Operation registry (request_Operation request) = Some spec
       ∧ AllowsGrantMode spec (intent_Mode intent) = true)
  ∧ gp_Mode bounds = intent_Mode intent
  ∧ 0 < req_Duration (intent_Request intent) <= wrap64 (gp_MaxMinutes bounds * minute)
  ∧ 0 < req_PendingTimeout (intent_Request intent)
    <= wrap64 (gp_RequestTTLMinutes bounds * minute)
  ∧ uses_within (gp_Mode bounds) (gp_MaxUses bounds) (req_MaxUses (intent_Request intent)).

Lemma validateIntent_ok (registry : Registry) (request : Request) (decision : PolicyDecide.Decision)
    (intent : GrantIntent) :
  validateIntent registry request decision intent = Ok tt →
  ∃ bounds, decision_GrantPolicy decision = Some bounds
    ∧ intent_within registry request bounds intent.
Proof.
  unfold validateIntent. rewrite !seq_ok, !refuse_ok. intros (Ha & Hs & Hb).
  apply negb_false_iff, bool_decide_eq_true in Ha.
  destruct (Registry_Operation _ _) as [spec|] eqn:Es; [|done].
  apply negb_false_iff in Hs.
  destruct (validateGrantBounds _ _) as [[]|e] eqn:Eb; [|done].
  unfold validateGrantBounds in Eb. destruct (decision_GrantPolicy decision) as [bounds|]; [|done].
  rewrite !seq_ok, refuse_ok, !validateTimedBound_ok in Eb.
  destruct Eb as (Hm & Hd & Ht & Hu). apply negb_false_iff, bool_decide_eq_true in Hm.
  exists bounds. split; [done|]. split; [done|]. split; [by exists spec|]. split; [done|].
  split; [done|]. split; [done|]. rewrite Hm. by apply validateUseCount_ok.
Qed.

(** Normalization does not touch bounds that are given. *)
Lemma normalizeGrantRequest_bounds `{R : MapRange} (o : Options) (req req' : GrantRequest) :
  normalizeGrantRequest o req = Ok req' →
  0 < req_Duration req → 0 < req_PendingTimeout req →
  req_Duration req' = req_Duration req ∧ req_PendingTimeout req' = req_PendingTimeout req
  ∧ (req_MaxUses req' = req_MaxUses req
     ∨ req_MaxUses req = Unlimited ∧ req_MaxUses req' = SingleUse).
Proof.
  unfold normalizeGrantRequest. rewrite bind_ok_iff. intros (n & Hn & H) Hd Hp.
  unfold normalizeRequestValues in Hn. rewrite !seq_ok in Hn.
  destruct Hn as (_ & _ & _ & _ & _ & [= <-]).
  unfold normalizeRequestBounds in H. rewrite seq_ok in H. destruct H as [_ H].
  cbn [req_Duration req_PendingTimeout] in H.
  rewrite (proj2 (Z.leb_gt _ _) Hd), (proj2 (Z.leb_gt _ _) Hp) in H.
  unfold normalizeRequestUseLimit in H. rewrite !seq_ok in H. destruct H as (_ & _ & [= <-]).
  cbn. destruct (req_MaxUsesSpecified req); cbn; [by auto|].
  unfold IsUnlimited. destruct (Z.eqb_spec (req_MaxUses req) Unlimited); cbn; auto.
Qed.

(** ** The coordinator of a policy *)

Section coordinated.
Context {R : MapRange}.
Context `{JT : JSON Target} `{JA : JSON StringListMap} `{JM : JSON (gmap string string)}
  `{JE : JSON EventRecord} `{JG : JSON Grant}.
Context (admits : Database → Statement → result error unit)
  (begin_tx : nat → result error unit) (commit_tx : nat → CommitOutcome)
  (plandigest_Digest : string → string).
Context (clock : nat → Time) (new_id : nat → result error string) (o : Options).

#[local] Instance policy_storage : GrantStorage :=
  sqlite admits begin_tx commit_tx plandigest_Digest.

Notation Authorize := (Authorize admits begin_tx commit_tx plandigest_Digest clock new_id o).
Notation RequestApproval :=
  (RequestApproval admits begin_tx commit_tx plandigest_Digest clock new_id o).
Notation createApprovalRequest :=
  (createApprovalRequest admits begin_tx commit_tx plandigest_Digest clock new_id o).

(** The coordinator a broker opens over its policy, with the store's own active
    grants and clock; [t] is what [time.Now] would return inside the decision. *)
Definition policy_options (t : Time) (p : Policy) : CoordinatorOptions
    admits begin_tx commit_tx plandigest_Digest :=
  MkCoordinatorOptions admits begin_tx commit_tx plandigest_Digest
    (policy_registry p) (Some (Decide t p)) true None None.

Definition policy_coordinator (t : Time) (p : Policy)
  : Coordinator admits begin_tx commit_tx plandigest_Digest :=
  MkCoordinator admits begin_tx commit_tx plandigest_Digest (policy_registry p) (Decide t p)
    (λ _, ActivePolicyGrants clock o) (clocked (now clock)).

Lemma New_policy (t : Time) (p : Policy)
    (c : Coordinator admits begin_tx commit_tx plandigest_Digest) :
  Coordinator.New admits begin_tx commit_tx plandigest_Digest clock o (policy_options t p) = Ok c →
  c = policy_coordinator t p.
Proof.
  unfold Coordinator.New, policy_options. cbn.
  destruct (Registry_validate _) as [[]|e]; [|done]. by intros [= <-].
Qed.

(** A created or replayed request is one the validation of its intent let pass. *)
Lemma createApprovalRequest_ok (c : Coordinator admits begin_tx commit_tx plandigest_Digest)
    (request : Request) (decision : PolicyDecide.Decision) (build : option IntentBuilder)
    (w w' : World) (res : AuthorizationResult) :
  createApprovalRequest c request decision build w = ((res, None), w') →
  auth_Decision res = decision
  ∧ ∃ bounds intent req', decision_GrantPolicy decision = Some bounds
    ∧ buildIntent build decision = Ok intent
    ∧ intent_within (co_registry _ _ _ _ c) request bounds intent
    ∧ normalizeGrantRequest o (intent_Request intent) = Ok req'
    ∧ rows (db_plans (w_storage w')) !! plan_Digest (intent_Plan intent)
      = Some (intent_Plan intent).
Proof.
  unfold Coordinator.createApprovalRequest.
  destruct (buildIntent build decision) as [intent|e] eqn:Eb; [|by rewrite ret_run].
  destruct (validateIntent _ _ _ _) as [[]|e] eqn:Ev; [|by rewrite ret_run].
  apply validateIntent_ok in Ev as (bounds & Hb & Hw).
  rewrite bind_run. unfold RequestWithPlan.
  destruct (validateImmutableRequestPlan _ _) as [[]|e]; [|by rewrite !ret_run].
  pose proof (request_plan admits begin_tx commit_tx plandigest_Digest clock new_id o
    (intent_Request intent) (Some (intent_Plan intent)) w) as Hp.
  change (database_storage admits begin_tx commit_tx plandigest_Digest) with policy_storage in Hp.
  change (sqlite admits begin_tx commit_tx plandigest_Digest) with policy_storage.
  assert (∀ out w1, GrantsStore.request (GS := policy_storage) clock new_id o (intent_Request intent)
      (Some (intent_Plan intent)) w = (out, w1) → out_err out = None →
      ∃ req', normalizeGrantRequest o (intent_Request intent) = Ok req') as Hn.
  { intros out w1. unfold GrantsStore.request.
    destruct (normalizeGrantRequest o (intent_Request intent)) as [req'|e]; [eauto|].
    rewrite ret_run. by intros [= <- _]. }
  destruct (GrantsStore.request (GS := policy_storage) clock new_id o (intent_Request intent)
      (Some (intent_Plan intent)) w) as [out w1].
  destruct Hp as [_ Hp]. rewrite ret_run. destruct (out_err out) as [e|] eqn:Ee; [done|].
  intros [= <- <-]. split; [done|]. destruct (Hn out w1 eq_refl Ee) as (req' & Hreq).
  exists bounds, intent, req'. split_and!; try done. by apply (Hp eq_refl (intent_Plan intent)).
Qed.

Lemma createApprovalRequest_refused (c : Coordinator admits begin_tx commit_tx plandigest_Digest)
    (request : Request) (decision : PolicyDecide.Decision) (build : option IntentBuilder)
    (w : World) :
  let '((res, err), _) := createApprovalRequest c request decision build w in
  auth_Decision res = decision ∧ (err ≠ None → res = decided_only decision).
Proof.
  unfold Coordinator.createApprovalRequest.
  destruct (buildIntent build decision) as [intent|e]; [|done].
  destruct (validateIntent _ _ _ _) as [[]|e]; [|done].
  rewrite bind_run. destruct (RequestWithPlan _ _ _ _ _ _ _ _ _ _) as [out w1].
  rewrite ret_run. by destruct (out_err out).
Qed.

(** What a requested approval satisfies. *)
Definition approval_within (p : Policy) (request : Request) (build : option IntentBuilder)
    (decision : PolicyDecide.Decision) (w' : World) : Prop :=
  ¬ covered_by p request EffectDeny ∧ ¬ covered_by p request EffectAllow
  ∧ ∃ rule bounds builder intent req', rule ∈ policy_rules p ∧ rule_Effect rule = EffectRequest
    ∧ rule_covers (policy_registry p) rule request CredentialUseManaged
    ∧ bounds_of (policy_rules p) (rule_ID rule) (Some bounds)
    ∧ build = Some builder ∧ builder decision = Ok intent
    ∧ intent_Authorization intent = request
    ∧ normalizeGrantRequest o (intent_Request intent) = Ok req'
    ∧ (∀ id instant, let g := newGrant req' id instant in
         0 < grant_Duration g <= wrap64 (gp_MaxMinutes bounds * minute)
         ∧ 0 < grant_PendingTimeout g <= wrap64 (gp_RequestTTLMinutes bounds * minute)
         ∧ uses_within (gp_Mode bounds) (gp_MaxUses bounds) (grant_MaxUses g))
    ∧ rows (db_plans (w_storage w')) !! plan_Digest (intent_Plan intent)
      = Some (intent_Plan intent).

Lemma approval_within_ok (t : Time) (p : Policy) (request : Request) (instant : Time)
    (build : option IntentBuilder) (w w' : World) (res : AuthorizationResult) :
  let decision := Decide t p request (decision_options instant [] true) in
  decision_Effect decision = EffectRequest →
  createApprovalRequest (policy_coordinator t p) request decision build w = ((res, None), w') →
  approval_within p request build (auth_Decision res) w'.
Proof.
  intros decision He Hc. apply Decide_requestable in He as (_ & Hno & rule & Hrule & Hgp).
  setoid_rewrite rule_applies_covers in Hno. apply rule_applies_covers in Hrule as (Hin & Heff & Hcov).
  apply createApprovalRequest_ok in Hc
    as (-> & bounds & intent & req' & Hb & Hbuild & Hw & Hn & Hplan).
  split; [intros (r & Hr); by apply (Hno EffectDeny r); [left|]|].
  split; [intros (r & Hr); by apply (Hno EffectAllow r); [right|]|].
  fold decision in Hgp, Hbuild. unfold buildIntent in Hbuild.
  destruct build as [builder|]; [|done]. destruct (builder decision) as [i|e] eqn:Ebuild; [|done].
  injection Hbuild as ->. exists rule, bounds, builder, intent, req'.
  destruct Hw as (Ha & _ & Hm & Hd & Ht & Hu). cbn [co_registry policy_coordinator] in *.
  destruct (normalizeGrantRequest_bounds _ _ _ Hn (proj1 Hd) (proj1 Ht)) as (Hd' & Ht' & Hu').
  split_and!; try done; [rewrite <- Hb, Hgp; apply firstGrantPolicy_bounds|]. intros id instant'. cbn. rewrite Hd', Ht'.
  split; [done|]. split; [done|].
  destruct Hu' as [->|[Hz ->]]; [done|]. unfold uses_within, SingleUse, Unlimited in *. lia.
Qed.

(** Every result of [Authorize] on a classified request is one of these: allowed by the
    decision on the active grants, refused with that decision's error, or an approval
    request. *)
Lemma Authorize_runs (t : Time) (p : Policy) (request : Request) (build : option IntentBuilder)
    (w w' : World) (res : AuthorizationResult) (err : option error) :
  validateRequest (policy_registry p) request = Ok tt →
  Authorize (policy_coordinator t p) request build w = ((res, err), w') →
  match fst (ActivePolicyGrants clock o w) with
  | Err _ => res = decided_only zero_Decision ∧ err ≠ None
  | Ok active => ∃ n, (w_tick w <= n)%nat ∧
    let decided := Decide t p request (decision_options (clock n) active false) in
    let asked := Decide t p request (decision_options (clock n) [] true) in
    (decision_Allowed decided = true ∧ res = decided_only decided ∧ err = None)
    ∨ (decision_Allowed decided = false ∧ decision_Effect asked ≠ EffectRequest
       ∧ res = decided_only decided
       ∧ err = Some (if decide (decision_Effect decided = EffectNoMatch) then ErrNoMatch else ErrDenied))
    ∨ (decision_Allowed decided = false ∧ decision_Effect asked = EffectRequest
       ∧ auth_Decision res = asked
       ∧ (err = None → approval_within p request build asked w')
       ∧ (err ≠ None → res = decided_only asked))
  end.
Proof.
  intros Hv. unfold Coordinator.Authorize.
  cbn [co_registry co_activeGrants co_now co_decide policy_coordinator].
  rewrite Hv, bind_run.
  change (coordinated_storage admits begin_tx commit_tx plandigest_Digest) with policy_storage.
  assert (PreOrder (λ _ _ : Storage, True)) as Hpre by by split.
  pose proof (ActivePolicyGrants_framed clock o (λ _ _ : Storage, True) (λ _ _ _, I) w) as (_ & Ht & _).
  destruct (ActivePolicyGrants clock o w) as [[active|e] w1]; cbn [fst snd] in *;
    [|rewrite ret_run; by intros [= <- <- _]].
  rewrite bind_run, clocked_world. cbn [now fst snd]. intros Hrun. exists (w_tick w1).
  split; [exact Ht|]. set (decided := Decide t p request (decision_options (clock (w_tick w1)) active false)) in *.
  set (asked := Decide t p request (decision_options (clock (w_tick w1)) [] true)) in *.
  destruct (decision_Allowed decided) eqn:Ea; cbn [andb] in Hrun.
  - left. rewrite bool_decide_eq_true_2 in Hrun by by apply Decide_allow_effect.
    rewrite ret_run in Hrun. by injection Hrun as <- <- _.
  - right. case_bool_decide as Er; cbn [negb] in Hrun.
    + right. split; [done|]. split; [done|].
      match type of Hrun with context [Coordinator.createApprovalRequest _ _ _ _ _ _ _ ?c _ _ _ ?w2] =>
        pose proof (createApprovalRequest_refused c request asked build w2) as Hdec end.
      change (coordinated_storage admits begin_tx commit_tx plandigest_Digest) with policy_storage in Hrun.
      rewrite Hrun in Hdec. cbn [fst snd] in Hdec. destruct Hdec as [Hdec Herr].
      split; [done|]. split; [|done]. intros ->. rewrite <- Hdec.
      exact (approval_within_ok t p request (clock (w_tick w1)) build _ _ res Er Hrun).
    + left. split; [done|]. split; [done|]. rewrite ret_run in Hrun. revert Hrun. unfold refusedResult.
      case_bool_decide; [rewrite decide_True by done|rewrite decide_False by done]; by intros [= <- <- _].
Qed.


(** When [Authorize] or [RequestApproval] of a policy's coordinator succeeds without
    allowing the request, no deny or allow rule matches it, a request rule does, the grant it
    asks the store for has a duration, a pending timeout and a use count within the grant
    policy of that rule (one use for an execution approval), and the immutable plan of the
    intent is in the database. *)
Theorem approvals_within_policy (t : Time) (p : Policy)
    (c : Coordinator admits begin_tx commit_tx plandigest_Digest) (request : Request)
    (build : option IntentBuilder) (w w' : World) (res : AuthorizationResult) :
  Coordinator.New admits begin_tx commit_tx plandigest_Digest clock o (policy_options t p) = Ok c →
  Authorize c request build w = ((res, None), w')
  ∨ RequestApproval c request build w = ((res, None), w') →
  decision_Allowed (auth_Decision res) = false →
  approval_within p request build (auth_Decision res) w'.
Proof.
  intros ->%New_policy Hrun Hna.
  unfold Coordinator.Authorize, Coordinator.RequestApproval in Hrun.
  cbn [co_registry co_activeGrants co_now co_decide policy_coordinator] in Hrun.
  destruct (validateRequest (policy_registry p) request) as [[]|e];
    [|rewrite !ret_run in Hrun; naive_solver].
  change (coordinated_storage admits begin_tx commit_tx plandigest_Digest) with policy_storage in Hrun.
  destruct Hrun as [Hrun|Hrun]; rewrite bind_run in Hrun.
  - destruct (ActivePolicyGrants clock o w) as [[active|e] w1]; [|by rewrite ret_run in Hrun].
    rewrite bind_run, clocked_world in Hrun.
    destruct (_ && _) eqn:Ea in Hrun.
    { rewrite ret_run in Hrun. injection Hrun as <- _. apply andb_true_iff in Ea as [Ea _].
      exact (False_ind _ (eq_true_false_abs _ Ea Hna)). }
    destruct (negb (bool_decide (decision_Effect _ = EffectRequest))) eqn:Er in Hrun.
    { rewrite ret_run in Hrun. unfold refusedResult in Hrun.
      by destruct (bool_decide _) in Hrun. }
    apply negb_false_iff, bool_decide_eq_true in Er.
    by apply approval_within_ok in Hrun.
  - rewrite clocked_world in Hrun.
    destruct (negb (bool_decide (decision_Effect _ = EffectRequest))) eqn:Er in Hrun.
    { rewrite ret_run in Hrun. unfold refusedResult in Hrun.
      by destruct (bool_decide _) in Hrun. }
    apply negb_false_iff, bool_decide_eq_true in Er.
    by apply approval_within_ok in Hrun.
Qed.
End coordinated.

(** ** The sample policy's coordinator *)

Definition edit_request : GrantRequest :=
  MkGrantRequest "agent-7" "call-1" "file.read"
    (MkTarget "file" {[ "path" := ["src/main.go"] ]}) ∅
    {["sample_plan_digest" := sample_digest]} "edit" (15 * minute) (10 * minute) 1 true false.

Definition build_edit : IntentBuilder := λ _,
  Ok (MkGrantIntent GrantModeWindow (read_request "src/main.go") edit_request sample_plan).

(** The values of the session, for the codecs: the request is made after the three
    readings of the clock that [Authorize] makes first. *)
Definition edit_data : FileData :=
  w_storage (snd (Store_Request ticking counting_ids default_options edit_request
                    (MkWorld empty_data 3 0 0))).

#[local] Instance edit_target_codec : JSON Target :=
  listed_codec (grant_Target <$> fd_Grants edit_data).
#[local] Instance edit_attrs_codec : JSON StringListMap :=
  listed_codec (grant_Attrs <$> fd_Grants edit_data).
#[local] Instance edit_metadata_codec : JSON (gmap string string) :=
  listed_codec (grant_Metadata <$> fd_Grants edit_data).
#[local] Instance edit_event_codec : JSON EventRecord := listed_codec (fd_Events edit_data).

Definition sample_policy : Policy := MkPolicy sample_registry parsed_rules.

Definition sample_coordinator : Coordinator admit_all begin_all commit_all sample_sha :=
  policy_coordinator admit_all begin_all commit_all sample_sha ticking default_options
    hour sample_policy.

Definition sample_storage : GrantStorage := sqlite admit_all begin_all commit_all sample_sha.

Definition sample_world : World (GS := sample_storage) :=
  @MkWorld sample_storage empty_database 0 0 0.

Definition authorize_sample (path : string)
  : AuthorizationResult * option error * World (GS := sample_storage) :=
  Authorize admit_all begin_all commit_all sample_sha ticking counting_ids default_options
    sample_coordinator (read_request path) (Some build_edit) sample_world.

Example sample_authorizations :
  (λ path, let '((res, err), _) := authorize_sample path in
           (decision_Allowed (auth_Decision res), auth_Created res, err))
    <$> ["docs/a.md"; "docs/.env"; "src/main.go"; "etc/passwd"]
  = [(true, false, None); (false, false, Some ErrDenied); (false, true, None);
     (false, false, Some ErrNoMatch)].
Proof. vm_compute. reflexivity. Qed.

Lemma sample_New :
  Coordinator.New admit_all begin_all commit_all sample_sha ticking default_options
    (policy_options admit_all begin_all commit_all sample_sha hour sample_policy)
  = Ok sample_coordinator.
Proof.
  unfold Coordinator.New, policy_options. cbn [copts_Registry copts_Decide copts_Grants].
  change (policy_registry sample_policy) with sample_registry.
  by rewrite sample_registry_valid.
Qed.


Lemma approvals_within_policy_witness :
  auth_Created (fst (fst (authorize_sample "src/main.go"))) = true
  ∧ approval_within admit_all begin_all commit_all sample_sha default_options sample_policy
      (read_request "src/main.go") (Some build_edit)
      (auth_Decision (fst (fst (authorize_sample "src/main.go"))))
      (snd (authorize_sample "src/main.go")).
Proof.
  split; [vm_compute; reflexivity|].
  apply (approvals_within_policy admit_all begin_all commit_all sample_sha ticking counting_ids
           default_options hour sample_policy sample_coordinator (read_request "src/main.go")
           (Some build_edit) sample_world).
  - exact sample_New.
  - left.
    assert (snd (fst (authorize_sample "src/main.go")) = None) as H by (vm_compute; reflexivity).
    unfold authorize_sample in *. destruct (Authorize _ _ _ _ _ _ _ _ _ _ _) as [[res err] w'].
    cbn [fst snd] in *. by rewrite H.
  - vm_compute. reflexivity.
Defined.
