(* ===== verification/DecisionService.v ===== *)
(** * The decision service: [authorization/decision/service.go]

    The one path by which operators decide: the constraints of a command are
    normalized, the store applies the decision under the provider's activation
    check, and the outcome is recorded for audit and counted.

    The audit recorder and the observer are outside the model: a call of
    [Decide] returns the events it hands to them, and the recorder's verdict on
    an event is an argument. *)

From stdpp Require Import pretty.
From S2P Require Export GrantsVerdicts.

Local Open Scope Z_scope.

(** [operatorv1.Constraints] *)
Record Constraints : Type := MkConstraints {
  con_DurationSeconds : Z;
  con_MaxUses : OptionalLimit
}.

(** [operatorv1.Decision]; a nil [Constraints] is [None]. *)
Record DecisionCommand : Type := MkDecisionCommand {
  dc_ExpectedRevision : Z;
  dc_IdempotencyKey : string;
  dc_OnBehalfOf : string;
  dc_Constraints : option Constraints;
  dc_CorrelationID : string;
  dc_Binding : string
}.

(** The fields of [audit.Event] that the service sets. *)
Record AuditEvent : Type := MkAuditEvent {
  audit_Broker : string;
  audit_Client : string;
  audit_Operation : string;
  audit_Decision : string;
  audit_GrantID : string;
  audit_Approver : string;
  audit_ErrorCode : string;
  audit_Extensions : gmap string string
}.

(** [Service]; a nil validator, recorder or observer is absent. *)
Record Service : Type := MkService {
  svc_validator : option ActivationCheck;
  svc_broker : string;
  svc_audit : option (AuditEvent → option error);
  svc_observer : bool
}.

(** [decision.Result], the error, and what went to the recorder and the observer. *)
Record ServiceOutcome : Type := MkServiceOutcome {
  so_Result : OperatorDecisionResult;
  so_AuditExportFailed : bool;
  so_err : option error;
  so_audited : list AuditEvent;
  so_observed : list (string * string)
}.

Definition no_constraints : ApprovalConstraints := MkApprovalConstraints 0 Unlimited false.

(** ** Constraints *)

Definition normalizeConstraints (value : option Constraints)
  : result error ApprovalConstraints :=
  match value with
  | None => Ok no_constraints
  | Some c =>
    refuse ((con_DurationSeconds c <? 0) || (Z.quot max_int64 second <? con_DurationSeconds c)
            || (optional_Limit (con_MaxUses c) <? 0)) ErrInvalidCommand ;;;
    Ok (MkApprovalConstraints (wrap64 (con_DurationSeconds c * second))
          (optional_Limit (con_MaxUses c)) (optional_Specified (con_MaxUses c)))
  end.

Definition formatUseLimit (c : ApprovalConstraints) : string :=
  if negb (ac_MaxUsesSpecified c) && negb (IsFinite (ac_MaxUses c)) then EmptyString
  else if IsUnlimited (ac_MaxUses c) then "unlimited"
  else pretty (ac_MaxUses c).

(** ** Outcomes *)

(** The table [classifications] of [decisionErrorCode], in order. *)
Definition classifications : list (string * list error) :=
  [("not_found", [ErrNotFound]);
   ("idempotency_conflict", [ErrIdempotencyConflict]);
   ("constraint_exceeded", [ErrConstraintExceeded]);
   ("invalid_transition", [ErrInvalidTransition; ErrNotPending; ErrNotActive])].

Definition decisionErrorCode (e : error) : string :=
  match errors_As_Failure e with
  | Some f => code_text (failure_Code f)
  | None =>
    match find (λ c : string * list error, existsb (errors_Is e) (snd c)) classifications with
    | Some c => fst c
    | None => "decision_failed"
    end
  end.

(** [Service.validate] *)
Definition validate (s : Service) : ActivationCheck := λ g c,
  match svc_validator s with None => None | Some check => check g c end.

(** [Service.observe] *)
Definition observe (s : Service) (action : string) (err : option error) (replay : bool)
  : list (string * string) :=
  if negb (svc_observer s) then []
  else [(action, match err with
                 | Some _ => "rejected"
                 | None => if replay then "replayed" else "committed"
                 end)].

Definition format_bool (b : bool) : string := if b then "true" else "false".

Definition with_text (key value : string) (m : gmap string string) : gmap string string :=
  if is_empty value then m else <[key := value]> m.

(** The event [Service.record] builds. *)
Definition audit_event (s : Service) (previous current : Grant)
    (action actor onBehalfOf correlationID binding eventCursor : string) (replay : bool)
    (expectedRevision : Z) (constraints : ApprovalConstraints) (err : option error)
  : AuditEvent :=
  let grant := if is_empty (grant_ID current) then previous else current in
  let extensions : gmap string string :=
    list_to_map
      [("binding", binding);
       ("previous_revision", pretty (grant_Revision previous));
       ("previous_status", status_text (grant_Status previous));
       ("current_revision", pretty (grant_Revision current));
       ("current_status", status_text (grant_Status current));
       ("event_cursor", eventCursor);
       ("idempotency_replay", format_bool replay);
       ("expected_revision", pretty expectedRevision);
       ("duration_seconds", pretty (Z.quot (ac_Duration constraints) second));
       ("max_uses", formatUseLimit constraints)] in
  let extensions := with_text "on_behalf_of" onBehalfOf extensions in
  let extensions := with_text "correlation_id" correlationID extensions in
  let extensions :=
    match activation_As err with
    | Some f => <["failure_stage" := stage_text (failure_Stage f)]> extensions
    | None => extensions
    end in
  MkAuditEvent (svc_broker s) (grant_Client grant) (grant_Operation grant) action
    (grant_ID grant) actor
    (match err with Some e => decisionErrorCode e | None => EmptyString end) extensions.

(** [Service.record]: the events recorded and the recorder's error. *)
Definition record (s : Service) (previous current : Grant)
    (action actor onBehalfOf correlationID binding eventCursor : string) (replay : bool)
    (expectedRevision : Z) (constraints : ApprovalConstraints) (err : option error)
  : list AuditEvent * option error :=
  match svc_audit s with
  | None => ([], None)
  | Some recorder =>
    let event := audit_event s previous current action actor onBehalfOf correlationID binding
                   eventCursor replay expectedRevision constraints err in
    ([event], recorder event)
  end.

Section service.
Context {R : MapRange} {GS : GrantStorage} (clock : nat → Time) (o : Options)
  (command_digest : OperatorDecision → string).

(** [current, _ := s.store.Get(id)] *)
Definition get_or_zero (id : string) : Eff Grant :=
  r ← Get clock o id; mret (match r with Ok g => g | Err _ => zero_Grant end).

(** The command [Decide] hands to the store. *)
Definition store_command (id : string) (action : DecisionAction) (actor : string)
    (command : DecisionCommand) (constraints : ApprovalConstraints) : OperatorDecision :=
  MkOperatorDecision id action actor (dc_OnBehalfOf command) (dc_ExpectedRevision command)
    (dc_IdempotencyKey command) constraints (dc_CorrelationID command).

(** [Service.Decide] *)
Definition Service_Decide (s : Service) (id : string) (action : DecisionAction) (actor : string)
    (command : DecisionCommand) : Eff ServiceOutcome :=
  let binding := if is_empty (dc_Binding command) then "revision" else dc_Binding command in
  match normalizeConstraints (dc_Constraints command) with
  | Err e =>
    current ← get_or_zero id;
    mret (MkServiceOutcome zero_result false (Some e)
            (fst (record s current current (action_text action) actor (dc_OnBehalfOf command)
                    (dc_CorrelationID command) binding EmptyString false
                    (dc_ExpectedRevision command) no_constraints (Some e))) [])
  | Ok constraints =>
    '(result, err) ← ApplyOperatorDecision clock o command_digest
                       (store_command id action actor command constraints) (Some (validate s));
    '(previous, current) ←
      (if is_empty (grant_ID (res_Previous result))
       then g ← get_or_zero id; mret (g, g)
       else mret (res_Previous result, res_Grant result));
    let '(audited, auditErr) :=
      record s previous current (action_text action) actor (dc_OnBehalfOf command)
        (dc_CorrelationID command) binding (res_EventCursor result) (res_Replay result)
        (dc_ExpectedRevision command) constraints err in
    mret (MkServiceOutcome result (match auditErr with Some _ => true | None => false end) err
            audited (observe s (action_text action) err (res_Replay result)))
  end.
End service.

(** ** Theorems *)

(** The constraints of a command, as those of the decision. *)
Definition accepted_constraints (value : option Constraints) (a : ApprovalConstraints) : Prop :=
  match value with
  | None => a = MkApprovalConstraints 0 0 false
  | Some c =>
    0 <= con_DurationSeconds c ∧ con_DurationSeconds c * second < 2 ^ 63
    ∧ 0 <= optional_Limit (con_MaxUses c)
    ∧ a = MkApprovalConstraints (con_DurationSeconds c * second)
            (optional_Limit (con_MaxUses c)) (optional_Specified (con_MaxUses c))
  end.

(** The constraints of a command are accepted exactly when the duration is a number of
    seconds that a 64-bit duration can hold in nanoseconds and the use limit is not
    negative; the multiplication then never wraps around, and absent constraints ask for
    what was requested. *)
Theorem normalizeConstraints_exact (value : option Constraints) (a : ApprovalConstraints) :
  normalizeConstraints value = Ok a ↔ accepted_constraints value a.
Proof.
  unfold accepted_constraints.
  destruct value as [c|]; [|unfold normalizeConstraints; naive_solver].
  unfold normalizeConstraints. rewrite seq_ok, refuse_ok, !orb_false_iff, !Z.ltb_ge.
  assert (Z.quot max_int64 second = 9223372036) as -> by reflexivity. unfold second in *.
  split.
  - intros ([[Hd Hm] Hu] & [= <-]). rewrite wrap64_small by lia. split_and!; try done; lia.
  - intros (Hd & Hm & Hu & ->). rewrite wrap64_small by lia. split_and!; try done; lia.
Qed.

Section service_facts.
Context {R : MapRange} {GS : GrantStorage} (clock : nat → Time) (o : Options)
  (command_digest : OperatorDecision → string).

(** The class of an error, as the audit log names it: the code of an activation failure, or
    the first class the error is of. *)
Definition error_class (err : option error) : string :=
  match err with
  | None => EmptyString
  | Some e =>
    match errors_As_Failure e with
    | Some f => code_text (failure_Code f)
    | None =>
      if errors_Is e ErrNotFound then "not_found"
      else if errors_Is e ErrIdempotencyConflict then "idempotency_conflict"
      else if errors_Is e ErrConstraintExceeded then "constraint_exceeded"
      else if errors_Is e ErrInvalidTransition || errors_Is e ErrNotPending || errors_Is e ErrNotActive
      then "invalid_transition" else "decision_failed"
    end
  end.

(** A use limit as the operator gave it. *)
Definition limit_shown (limit : OptionalLimit) : string :=
  if 0 <? optional_Limit limit then pretty (optional_Limit limit)
  else if optional_Specified limit then "unlimited" else EmptyString.

(** A text that is left out where it is empty. *)
Definition unless_empty (value : string) : option string :=
  if String.eqb value EmptyString then None else Some value.

(** What the audit event of a decision says: the parties, the grant as it was and as it is,
    the command, with the constraints [shown] where they were accepted, and the outcome. *)
Record event_tells (s : Service) (action : DecisionAction) (actor : string) (command : DecisionCommand)
    (shown : option Constraints) (previous current : Grant) (cursor : string) (replay : bool)
    (err : option error) (e : AuditEvent) : Prop := {
  tells_broker : audit_Broker e = svc_broker s;
  tells_decision : audit_Decision e = action_text action;
  tells_approver : audit_Approver e = actor;
  tells_grant :
    let grant := if String.eqb (grant_ID current) EmptyString then previous else current in
    audit_GrantID e = grant_ID grant ∧ audit_Client e = grant_Client grant
    ∧ audit_Operation e = grant_Operation grant;
  tells_error : audit_ErrorCode e = error_class err;
  tells_extensions :
    ∀ key, audit_Extensions e !! key =
      if String.eqb key "binding" then
        Some (if String.eqb (dc_Binding command) EmptyString then "revision"%string else dc_Binding command)
      else if String.eqb key "previous_revision" then Some (pretty (grant_Revision previous))
      else if String.eqb key "previous_status" then Some (status_text (grant_Status previous))
      else if String.eqb key "current_revision" then Some (pretty (grant_Revision current))
      else if String.eqb key "current_status" then Some (status_text (grant_Status current))
      else if String.eqb key "event_cursor" then Some cursor
      else if String.eqb key "idempotency_replay" then Some (if replay then "true" else "false")%string
      else if String.eqb key "expected_revision" then Some (pretty (dc_ExpectedRevision command))
      else if String.eqb key "duration_seconds" then Some (pretty (default 0 (con_DurationSeconds <$> shown)))
      else if String.eqb key "max_uses" then
        Some (default EmptyString ((λ c, limit_shown (con_MaxUses c)) <$> shown))
      else if String.eqb key "on_behalf_of" then unless_empty (dc_OnBehalfOf command)
      else if String.eqb key "correlation_id" then unless_empty (dc_CorrelationID command)
      else if String.eqb key "failure_stage" then
        match err with
        | Some cause => (λ f, stage_text (failure_Stage f)) <$> errors_As_Failure cause
        | None => None
        end
      else None
}.

Lemma decisionErrorCode_class (e : error) : decisionErrorCode e = error_class (Some e).
Proof.
  unfold decisionErrorCode, error_class, classifications. destruct (errors_As_Failure e); [done|].
  cbn -[errors_Is]. destruct (errors_Is e ErrNotFound), (errors_Is e ErrIdempotencyConflict),
    (errors_Is e ErrConstraintExceeded), (errors_Is e ErrInvalidTransition), (errors_Is e ErrNotPending),
    (errors_Is e ErrNotActive); done.
Qed.

Lemma lookup_with_text (key value k : string) (m : gmap string string) :
  m !! key = None →
  with_text key value m !! k = if String.eqb k key then unless_empty value else m !! k.
Proof.
  intros Hm. unfold with_text, unless_empty. destruct (String.eqb_spec k key) as [->|Hk].
  - destruct value; cbn; [done|]. by rewrite lookup_insert_eq.
  - destruct (is_empty value); [done|]. by rewrite lookup_insert_ne.
Qed.

Lemma formatUseLimit_shown (c : Constraints) (a : ApprovalConstraints) :
  accepted_constraints (Some c) a → formatUseLimit a = limit_shown (con_MaxUses c).
Proof.
  intros (_ & _ & Hl & ->). unfold formatUseLimit, limit_shown, IsFinite, IsUnlimited, Unlimited. cbn.
  destruct (con_MaxUses c) as [l b]. cbn in *. destruct (Z.ltb_spec 0 l); cbn.
  - rewrite andb_false_r. by destruct (Z.eqb_spec l 0); [lia|].
  - assert (l = 0) as -> by lia. by destruct b.
Qed.

Lemma audit_event_tells (s : Service) (previous current : Grant) (action : DecisionAction)
    (actor cursor : string) (command : DecisionCommand) (replay : bool) (shown : option Constraints)
    (a : ApprovalConstraints) (err : option error) :
  accepted_constraints shown a →
  event_tells s action actor command shown previous current cursor replay err
    (audit_event s previous current (action_text action) actor (dc_OnBehalfOf command)
       (dc_CorrelationID command) (if is_empty (dc_Binding command) then "revision" else dc_Binding command)
       cursor replay (dc_ExpectedRevision command) a err).
Proof.
  intros Ha. assert (∀ text, is_empty text = String.eqb text EmptyString) as Hempty by (by intros []).
  split; unfold audit_event; cbn [audit_Broker audit_Decision audit_Approver audit_GrantID audit_Client
    audit_Operation audit_ErrorCode audit_Extensions]; rewrite ?Hempty; [done..| |].
  { destruct err as [e|]; [apply decisionErrorCode_class|done]. }
  assert (Z.quot (ac_Duration a) second = default 0 (con_DurationSeconds <$> shown)) as ->.
  { destruct shown as [c|]; [|by rewrite Ha]. destruct Ha as (_ & _ & _ & ->). cbn. by rewrite Z.quot_mul. }
  assert (formatUseLimit a = default EmptyString ((λ c, limit_shown (con_MaxUses c)) <$> shown)) as ->.
  { destruct shown as [c|]; [by apply formatUseLimit_shown|by rewrite Ha]. }
  intros key. unfold activation_As.
  set (base := list_to_map _).
  assert (∀ k, k ∉ ["binding"; "previous_revision"; "previous_status"; "current_revision"; "current_status";
    "event_cursor"; "idempotency_replay"; "expected_revision"; "duration_seconds"; "max_uses"]%string →
    base !! k = None) as Hbase.
  { intros k Hk. by apply not_elem_of_list_to_map_1. }
  assert (with_text "on_behalf_of" (dc_OnBehalfOf command) base !! "correlation_id"%string = None) as Hcor.
  { rewrite lookup_with_text by (apply Hbase; set_solver). apply Hbase. set_solver. }
  assert (∀ m : gmap string string, m !! "failure_stage"%string = None →
    match match err with Some cause => errors_As_Failure cause | None => None end with
    | Some f => <["failure_stage"%string := stage_text (failure_Stage f)]> m
    | None => m
    end !! key
    = if String.eqb key "failure_stage"
      then match err with
           | Some cause => (λ f, stage_text (failure_Stage f)) <$> errors_As_Failure cause
           | None => None
           end
      else m !! key) as Hstage.
  { intros m Hm. destruct (String.eqb_spec key "failure_stage") as [->|Hk].
    - destruct err as [cause|]; [|done]. by destruct (errors_As_Failure cause); [rewrite lookup_insert_eq|].
    - destruct err as [cause|]; [|done]. destruct (errors_As_Failure cause); [|done]. by rewrite lookup_insert_ne. }
  rewrite Hstage.
  2: { rewrite (lookup_with_text "correlation_id") by exact Hcor. cbn [String.eqb Ascii.eqb Bool.eqb].
       rewrite (lookup_with_text "on_behalf_of") by (apply Hbase; set_solver). apply Hbase. set_solver. }
  rewrite (lookup_with_text "correlation_id") by exact Hcor.
  rewrite (lookup_with_text "on_behalf_of") by (apply Hbase; set_solver).
  repeat match goal with
         | |- context [String.eqb key ?k] =>
           destruct (String.eqb_spec key k) as [->|]; [reflexivity|]
         end.
  apply Hbase. set_unfold. naive_solver.
Qed.

(** What a read gives, or the zero grant where it fails. *)
Definition read_or_zero (r : result error Grant) : Grant := match r with Ok g => g | Err _ => zero_Grant end.

(** C36: A decision through the service.  Where the constraints of the command are accepted,
    it is the decision of the store for exactly this grant, action, actor, delegate,
    expected revision, key, constraints and correlation identifier, under the activation
    check of the provider, with its result and error; otherwise it is refused as an invalid
    command and the store decides nothing.  With a recorder every call hands over exactly
    one event, which tells the broker, action and actor, the grant before and after as the
    decision returned them (or as it is now, when it returned none), the command, whether it
    was a replay, the class of the error and the stage of an activation failure; a failure
    of the recorder is reported for an accepted command only.  The observer counts the
    decisions of accepted commands as committed, replayed or rejected. *)
Theorem service_decisions_audited (s : Service) (id : string) (action : DecisionAction)
    (actor : string) (command : DecisionCommand) (w : World) :
  let '(out, w') := Service_Decide clock o command_digest s id action actor command w in
  ∃ previous current shown,
    ((∃ a w1, accepted_constraints (dc_Constraints command) a ∧ shown = dc_Constraints command
        ∧ ApplyOperatorDecision clock o command_digest
            (MkOperatorDecision id action actor (dc_OnBehalfOf command) (dc_ExpectedRevision command)
               (dc_IdempotencyKey command) a (dc_CorrelationID command))
            (Some (λ g c, match svc_validator s with Some check => check g c | None => None end)) w
          = ((so_Result out, so_err out), w1)
        ∧ (grant_ID (res_Previous (so_Result out)) ≠ EmptyString ∧ w' = w1
           ∧ previous = res_Previous (so_Result out) ∧ current = res_Grant (so_Result out)
           ∨ grant_ID (res_Previous (so_Result out)) = EmptyString ∧ w' = snd (Get clock o id w1)
             ∧ previous = current ∧ current = read_or_zero (fst (Get clock o id w1)))
        ∧ (so_AuditExportFailed out = true ↔
           ∃ recorder e, svc_audit s = Some recorder ∧ so_audited out = [e] ∧ recorder e ≠ None)
        ∧ so_observed out
          = if svc_observer s
            then [(action_text action, match so_err out with
                                       | Some _ => "rejected"
                                       | None => if res_Replay (so_Result out) then "replayed" else "committed"
                                       end)]%string
            else [])
     ∨ (∀ a, ¬ accepted_constraints (dc_Constraints command) a) ∧ shown = None
       ∧ so_err out = Some ErrInvalidCommand
       ∧ so_Result out = MkOperatorDecisionResult zero_Grant zero_Grant EmptyString false
       ∧ so_AuditExportFailed out = false ∧ so_observed out = []
       ∧ w' = snd (Get clock o id w) ∧ previous = current ∧ current = read_or_zero (fst (Get clock o id w)))
    ∧ match svc_audit s with
      | None => so_audited out = []
      | Some _ => ∃ e, so_audited out = [e]
          ∧ event_tells s action actor command shown previous current (res_EventCursor (so_Result out))
              (res_Replay (so_Result out)) (so_err out) e
      end.
Proof.
  unfold Service_Decide.
  destruct (normalizeConstraints (dc_Constraints command)) as [constraints|e] eqn:En.
  - apply normalizeConstraints_exact in En. rewrite bind_run.
    destruct (ApplyOperatorDecision _ _ _ _ _ w) as [[result err] w1] eqn:Eapply.
    rewrite bind_run. set (choice := if is_empty _ then _ else _).
    assert (∃ previous current w2, choice w1 = ((previous, current), w2)
      ∧ (grant_ID (res_Previous result) ≠ EmptyString ∧ w2 = w1 ∧ previous = res_Previous result
         ∧ current = res_Grant result
         ∨ grant_ID (res_Previous result) = EmptyString ∧ w2 = snd (Get clock o id w1)
           ∧ previous = current ∧ current = read_or_zero (fst (Get clock o id w1))))
      as (previous & current & w2 & -> & Hw2).
    { unfold choice. destruct (grant_ID (res_Previous result)) as [|c t]; cbn [is_empty].
      - rewrite bind_run. unfold get_or_zero. rewrite bind_run.
        destruct (Get clock o id w1) as [r w2]. rewrite !ret_run. eauto 10.
      - rewrite ret_run. eexists _, _, _. split; [done|]. by left. }
    unfold record. destruct (svc_audit s) as [recorder|] eqn:Er; rewrite ret_run; cbn [so_Result so_err
      so_audited so_AuditExportFailed so_observed].
    + exists previous, current, (dc_Constraints command). split.
      * left. exists constraints, w1. split; [done|]. split; [done|]. split; [exact Eapply|].
        split; [exact Hw2|]. split; [|by unfold observe; destruct (svc_observer s)].
        destruct (recorder _) eqn:Ee; (split; [|done || by intros (r & e & [= <-] & [= <-] & Hne)]); [|done].
        intros _. eexists _, _. split; [done|]. split; [done|]. by rewrite Ee.
      * eexists. split; [done|]. by apply audit_event_tells.
    + exists previous, current, (dc_Constraints command). split; [|done]. left.
      exists constraints, w1. split; [done|]. split; [done|]. split; [exact Eapply|].
      split; [exact Hw2|]. split; [|by unfold observe; destruct (svc_observer s)].
      split; [done|]. by intros (r & e & [=] & _).
  - rewrite bind_run. unfold get_or_zero. rewrite bind_run.
    destruct (Get clock o id w) as [r w1] eqn:Eget. rewrite !ret_run.
    cbn [so_Result so_err so_audited so_AuditExportFailed so_observed fst snd].
    assert (e = ErrInvalidCommand) as ->.
    { unfold normalizeConstraints in En. destruct (dc_Constraints command) as [c|]; [|done].
      destruct (_ || _) in En; cbn in En; congruence. }
    exists (read_or_zero r), (read_or_zero r), None. split.
    + right. split; [|done]. intros a Ha%normalizeConstraints_exact. congruence.
    + unfold record. destruct (svc_audit s) as [recorder|]; [|done].
      eexists. split; [done|]. by apply audit_event_tells.
Qed.
End service_facts.

(** An operator approves the pending grant of the sample session. *)
Definition sample_service : Service := MkService None "sample-broker" (Some (λ _, None)) true.

Definition sample_command : DecisionCommand := MkDecisionCommand 1 "k1" "team-9" None "trace-1" EmptyString.

Definition sample_decided : ServiceOutcome * World :=
  Service_Decide ticking default_options no_digest sample_service first_id ActionApprove "bob"
    sample_command requested_world.

Lemma service_decisions_audited_witness :
  so_err (fst sample_decided) = None
  ∧ ∃ e previous current shown, so_audited (fst sample_decided) = [e]
      ∧ event_tells sample_service ActionApprove "bob" sample_command shown previous current
          (res_EventCursor (so_Result (fst sample_decided))) false None e.
Proof.
  assert (so_err (fst sample_decided) = None) as Ee by (vm_compute; reflexivity).
  assert (res_Replay (so_Result (fst sample_decided)) = false) as Er by (vm_compute; reflexivity).
  split; [exact Ee|].
  pose proof (service_decisions_audited ticking default_options no_digest sample_service first_id
    ActionApprove "bob" sample_command requested_world) as H.
  unfold sample_decided in *. destruct (Service_Decide _ _ _ _ _ _ _ _ _) as [out w']. cbn [fst] in *.
  destruct H as (previous & current & shown & _ & e & Haudit & Htells). rewrite Ee, Er in Htells.
  exists e, previous, current, shown. exact (conj Haudit Htells).
Defined.

