(* ===== verification/GitPktLine.v ===== *)
(** * Git pkt-lines: [git/protocol/pktline.go]

    Reading and writing pkt-lines, and the rewriting of a ref advertisement.
    The framing itself is go-git's [pktline] package, a dependency that is not
    part of the repository: the class [PktLine] has its functions as they are
    used here and [PktLineLaws] what its documentation says of them.

    A byte slice is a [string] and a reader is the bytes it has left. *)

From S2P Require Export GoStringFacts Errors.
From Stdlib Require Import Ascii.

Local Open Scope Z_scope.

(** ** go-git's [pktline] *)

(** What [Scanner.Scan] does to its reader: a payload, empty for a flush packet,
    or the end of the input ([Err()] is nil) or an error. *)
Inductive ScanStep : Type :=
| Scanned (payload rest : string)
| ScanStopped (err : option error) (rest : string).

Class PktLine : Type := {
  MaxPayloadSize : Z;
  FlushPkt : string;
  pktline_Encode : string → result error string;
    (** The bytes [Encoder.Encode] writes for one payload. *)
  pktline_Scan : string → ScanStep
}.

Class PktLineLaws (PL : PktLine) : Prop := {
  MaxPayloadSize_value : MaxPayloadSize = 65516;
  encode_fits (p : string) :
    p ≠ EmptyString → len p <= MaxPayloadSize → ∃ line, pktline_Encode p = Ok line;
  encode_long (p : string) : MaxPayloadSize < len p → ∃ e, pktline_Encode p = Err e;
  scan_line (p line rest : string) :
    p ≠ EmptyString → pktline_Encode p = Ok line → pktline_Scan (line +:+ rest) = Scanned p rest;
  scan_flush (rest : string) : pktline_Scan (FlushPkt +:+ rest) = Scanned EmptyString rest;
  scan_end : pktline_Scan EmptyString = ScanStopped None EmptyString;
  scan_consumes (s p rest : string) :
    pktline_Scan s = Scanned p rest → (String.length rest < String.length s)%nat
}.

(** ** Bytes *)

Definition nul : ascii := "000".
Definition newline : string := String "010" EmptyString.

Definition ErrFlush : error := ErrorNew "pkt-line flush".
Definition ErrDone : error := ErrorNew "pkt-line input exhausted".
(** [io.EOF] *)
Definition io_EOF : error := ErrorNew "EOF".

Section pktline.
Context {PL : PktLine}.

Definition MaxPktLinePayload : Z := MaxPayloadSize.

(** [ReadPktLine]: the payload or the error, and the reader. *)
Definition ReadPktLine (r : string) : result error string * string :=
  match pktline_Scan r with
  | ScanStopped (Some err) rest => (Err err, rest)
  | ScanStopped None rest => (Err io_EOF, rest)
  | Scanned payload rest =>
    if len payload =? 0 then (Err ErrFlush, rest) else (Ok payload, rest)
  end.

(** [Scanner]: the size of its reader and what the reader has left. *)
Record Scanner : Type := MkScanner { scanner_size : Z; scanner_rest : string }.

Definition NewScanner (data : string) : Scanner := MkScanner (len data) data.

Definition Offset (s : Scanner) : Z := scanner_size s - len (scanner_rest s).

(** [Scanner.Next]: one payload and whether it is a flush packet. *)
Definition Next (s : Scanner) : result error (string * bool) * Scanner :=
  match pktline_Scan (scanner_rest s) with
  | ScanStopped (Some err) rest => (Err err, MkScanner (scanner_size s) rest)
  | ScanStopped None rest => (Err ErrDone, MkScanner (scanner_size s) rest)
  | Scanned payload rest =>
    (Ok (if len payload =? 0 then (EmptyString, true) else (payload, false)),
     MkScanner (scanner_size s) rest)
  end.

Definition AppendPktLine (dst payload : string) : result error string :=
  match pktline_Encode payload with Err e => Err e | Ok line => Ok (dst +:+ line) end.

Definition AppendPktLineString (dst payload : string) : result error string :=
  AppendPktLine dst payload.

Definition AppendFlushPkt (dst : string) : string := dst +:+ FlushPkt.

(** The condition under which [removeCapability] keeps a field. *)
Definition keeps_field (capability field : string) : bool :=
  negb (String.eqb field capability) && negb (has_prefix (capability +:+ "=") field).

Definition removeCapability (payload capability : string) : string * bool :=
  match cut_byte nul payload with
  | None => (payload, false)
  | Some (before, after) =>
    let hasNewline := has_suffix newline payload in
    let kept := filter (λ field, keeps_field capability field = true) (fields after) in
    (before +:+ String nul (join " " kept) +:+ (if hasNewline then newline else EmptyString),
     true)
  end.

(** The loop of [RemoveAdvertisementCapability]; [None] when the fuel runs out. *)
Fixpoint rewrite_advertisement (fuel : nat) (capability : string) (scanner : Scanner)
    (out : string) (rewritten : bool) : option (result error string) :=
  match fuel with
  | O => None
  | S fuel =>
    match Next scanner with
    | (Err err, _) => if errors_Is err ErrDone then Some (Ok out) else Some (Err err)
    | (Ok (_, true), scanner) =>
      rewrite_advertisement fuel capability scanner (AppendFlushPkt out) rewritten
    | (Ok (payload, false), scanner) =>
      let '(payload, rewritten) :=
        if rewritten then (payload, rewritten) else removeCapability payload capability in
      match AppendPktLine out payload with
      | Err err => Some (Err err)
      | Ok out => rewrite_advertisement fuel capability scanner out rewritten
      end
    end
  end.

Definition RemoveAdvertisementCapability (data capability : string)
  : option (result error string) :=
  rewrite_advertisement (S (String.length data)) capability (NewScanner data) EmptyString false.

End pktline.

(** ** Frames

    What a stream of pkt-lines means: its flush packets and payloads. *)

Inductive frame : Type := Flush | Line (payload : string).

Section frames.
Context {PL : PktLine}.

Definition fits (p : string) : Prop := p ≠ EmptyString ∧ len p <= MaxPayloadSize.

Definition frame_fits (f : frame) : Prop :=
  match f with Flush => True | Line p => fits p end.

(** The bytes of a sequence of frames. *)
Fixpoint wire (fs : list frame) : result error string :=
  match fs with
  | [] => Ok EmptyString
  | Flush :: fs => rest ← wire fs; Ok (FlushPkt +:+ rest)
  | Line p :: fs => line ← pktline_Encode p; rest ← wire fs; Ok (line +:+ rest)
  end.

(** A payload whose fields after the NUL byte lack a capability. *)
Definition without_field (capability before after : string) : string :=
  before +:+ String nul
    (join " " (filter (λ field, keeps_field capability field = true) (fields after))
     +:+ (if has_suffix newline after then newline else EmptyString)).

(** The frames of an advertisement without a capability: only the first payload
    with a NUL byte changes, and of it only the text after the NUL. *)
Inductive without_capability (capability : string) : list frame → list frame → Prop :=
| without_none (fs : list frame) :
    (∀ p, Line p ∈ fs → nul ∉ list_of_string p) → without_capability capability fs fs
| without_some (fs gs : list frame) (before after : string) :
    (∀ p, Line p ∈ fs → nul ∉ list_of_string p) →
    nul ∉ list_of_string before →
    without_capability capability
      (fs ++ Line (before +:+ String nul after) :: gs)
      (fs ++ Line (without_field capability before after) :: gs).

Context {L : PktLineLaws PL}.

Lemma len_cons (c : ascii) (s : string) : len (String c s) = 1 + len s.
Proof. unfold len. cbn. lia. Qed.

Lemma len_zero (s : string) : (len s =? 0) = is_empty s.
Proof. destruct s; [done|]. rewrite len_cons. unfold len. apply Z.eqb_neq. lia. Qed.

Lemma Next_flush (size : Z) (rest : string) :
  Next (MkScanner size (FlushPkt +:+ rest)) = (Ok (EmptyString, true), MkScanner size rest).
Proof. unfold Next. cbn [scanner_rest scanner_size]. by rewrite scan_flush. Qed.

Lemma Next_line (size : Z) (p line rest : string) :
  p ≠ EmptyString → pktline_Encode p = Ok line →
  Next (MkScanner size (line +:+ rest)) = (Ok (p, false), MkScanner size rest).
Proof.
  intros Hp Hl. unfold Next. cbn [scanner_rest scanner_size].
  rewrite (scan_line p line rest Hp Hl), len_zero. by destruct p.
Qed.

Lemma Next_end (size : Z) :
  Next (MkScanner size EmptyString) = (Err ErrDone, MkScanner size EmptyString).
Proof. unfold Next. cbn [scanner_rest scanner_size]. by rewrite scan_end. Qed.

Lemma ReadPktLine_flush (rest : string) : ReadPktLine (FlushPkt +:+ rest) = (Err ErrFlush, rest).
Proof. unfold ReadPktLine. by rewrite scan_flush. Qed.

Lemma ReadPktLine_line (p line rest : string) :
  p ≠ EmptyString → pktline_Encode p = Ok line → ReadPktLine (line +:+ rest) = (Ok p, rest).
Proof.
  intros Hp Hl. unfold ReadPktLine. rewrite (scan_line p line rest Hp Hl), len_zero. by destruct p.
Qed.

Lemma Next_consumes (s s' : Scanner) (x : string * bool) :
  Next s = (Ok x, s') →
  (String.length (scanner_rest s') < String.length (scanner_rest s))%nat.
Proof.
  unfold Next. destruct (pktline_Scan _) as [p rest|[e|] rest] eqn:E; [|done|done].
  intros [= _ <-]. by apply scan_consumes in E.
Qed.

Lemma ReadPktLine_consumes (r r' p : string) :
  ReadPktLine r = (Ok p, r') → (String.length r' < String.length r)%nat ∧ p ≠ EmptyString.
Proof.
  unfold ReadPktLine. destruct (pktline_Scan _) as [q rest|[e|] rest] eqn:E; [|done|done].
  rewrite len_zero. destruct (is_empty q) eqn:Eq; [done|]. intros [= -> <-].
  split; [by apply scan_consumes in E|]. by intros ->.
Qed.

Lemma wire_app (fs gs : list frame) :
  wire (fs ++ gs) = (a ← wire fs; b ← wire gs; Ok (a +:+ b)).
Proof.
  induction fs as [|[|p] fs IH]; cbn [wire app].
  - cbn. by destruct (wire gs).
  - rewrite IH. cbn. destruct (wire fs); cbn; [|done]. destruct (wire gs); cbn; [|done].
    by rewrite app_assoc_string.
  - rewrite IH. cbn. destruct (pktline_Encode p); cbn; [|done].
    destruct (wire fs); cbn; [|done]. destruct (wire gs); cbn; [|done].
    by rewrite app_assoc_string.
Qed.

Lemma wire_fits (fs : list frame) : Forall frame_fits fs → ∃ data, wire fs = Ok data.
Proof.
  induction 1 as [|[|p] fs Hf _ [data IH]]; cbn [wire]; [by eexists| |].
  - rewrite IH. by eexists.
  - destruct Hf as [Hne Hlen]. destruct (encode_fits p Hne Hlen) as [line ->]. rewrite IH. by eexists.
Qed.

Lemma nul_newline : nul ∉ list_of_string newline.
Proof. by intros [?|?%elem_of_nil]%elem_of_cons. Qed.

(** Removing a capability never makes a payload too long. *)
Lemma removeCapability_shrinks (before after capability : string) :
  nul ∉ list_of_string before →
  removeCapability (before +:+ String nul after) capability
    = (without_field capability before after, true)
  ∧ len (without_field capability before after) <= len (before +:+ String nul after).
Proof.
  intros Hb. unfold removeCapability, without_field. rewrite cut_byte_app by done. split.
  - rewrite has_suffix_after by apply nul_newline. reflexivity.
  - rewrite !len_app, !len_cons, !len_app.
    set (kept := filter _ _). pose proof (length_joined kept) as Hj.
    destruct (has_suffix newline after) eqn:En.
    + apply has_suffix_spec in En as [t ->]. unfold kept in *.
      unfold newline in *. rewrite fields_trailing_space in * by done.
      pose proof (joined_length_filter (λ f, keeps_field capability f = true) (fields t)).
      pose proof (fields_length t). rewrite len_app. unfold len in *. cbn [String.length]. lia.
    + unfold kept in *.
      pose proof (joined_length_filter (λ f, keeps_field capability f = true) (fields after)).
      pose proof (fields_length after). unfold len in *. cbn [String.length]. lia.
Qed.

Lemma line_consumes (p line rest : string) :
  p ≠ EmptyString → pktline_Encode p = Ok line →
  (String.length rest < String.length (line +:+ rest))%nat.
Proof. intros Hp Hl. eapply scan_consumes. by apply scan_line. Qed.

Lemma flush_consumes (rest : string) :
  (String.length rest < String.length (FlushPkt +:+ rest))%nat.
Proof. eapply scan_consumes. apply scan_flush. Qed.

(** The steps of the loop over a flush packet, a line and the end of the input. *)
Lemma rewrite_flush (fuel : nat) (capability rest out : string) (size : Z) (rewritten : bool) :
  rewrite_advertisement (S fuel) capability (MkScanner size (FlushPkt +:+ rest)) out rewritten
  = rewrite_advertisement fuel capability (MkScanner size rest) (out +:+ FlushPkt) rewritten.
Proof. cbn [rewrite_advertisement]. by rewrite Next_flush. Qed.

Lemma rewrite_line (fuel : nat) (capability p line rest out : string) (size : Z)
    (rewritten : bool) :
  p ≠ EmptyString → pktline_Encode p = Ok line →
  rewrite_advertisement (S fuel) capability (MkScanner size (line +:+ rest)) out rewritten
  = let '(p', rewritten') := if rewritten then (p, rewritten) else removeCapability p capability in
    match pktline_Encode p' with
    | Err e => Some (Err e)
    | Ok line' => rewrite_advertisement fuel capability (MkScanner size rest) (out +:+ line') rewritten'
    end.
Proof.
  intros Hp Hl. cbn [rewrite_advertisement]. rewrite (Next_line size p line rest Hp Hl).
  destruct (if rewritten then _ else _) as [p' rewritten']. unfold AppendPktLine.
  by destruct (pktline_Encode p').
Qed.

Lemma rewrite_end (fuel : nat) (capability out : string) (size : Z) (rewritten : bool) :
  rewrite_advertisement (S fuel) capability (MkScanner size EmptyString) out rewritten
  = Some (Ok out).
Proof. cbn [rewrite_advertisement]. by rewrite Next_end. Qed.

(** Frames that the loop copies. *)
Lemma rewrite_copies (capability : string) (fs : list frame) (rewritten : bool) :
  Forall frame_fits fs →
  (rewritten = false → ∀ p, Line p ∈ fs → nul ∉ list_of_string p) →
  ∀ (data rest out : string) (size : Z) (fuel : nat),
  wire fs = Ok data → (String.length (data +:+ rest) < fuel)%nat →
  ∃ fuel', (String.length rest < fuel')%nat
    ∧ rewrite_advertisement fuel capability (MkScanner size (data +:+ rest)) out rewritten
      = rewrite_advertisement fuel' capability (MkScanner size rest) (out +:+ data) rewritten.
Proof.
  intros Hfit Hnul. induction Hfit as [|[|p] fs Hf _ IH]; intros data rest out size fuel; cbn [wire].
  - intros [= <-] Hfuel. exists fuel. by rewrite app_nil_r_string.
  - destruct (wire fs) as [data'|e] eqn:Ew; cbn; [|done]. intros [= <-] Hfuel.
    destruct fuel as [|fuel]; [lia|]. rewrite app_assoc_string in *. rewrite rewrite_flush.
    pose proof (flush_consumes (data' +:+ rest)).
    destruct (IH ltac:(intros; apply Hnul; [done|by right]) data' rest (out +:+ FlushPkt) size fuel
      eq_refl) as (fuel' & Hf' & E); [lia|].
    exists fuel'. by rewrite E, app_assoc_string.
  - destruct Hf as [Hne Hlen]. destruct (pktline_Encode p) as [line|e] eqn:El; cbn; [|done].
    destruct (wire fs) as [data'|e] eqn:Ew; cbn; [|done]. intros [= <-] Hfuel.
    destruct fuel as [|fuel]; [lia|]. rewrite app_assoc_string in *.
    pose proof (line_consumes p line (data' +:+ rest) Hne El).
    rewrite (rewrite_line fuel capability p line) by done.
    assert ((if rewritten then (p, rewritten) else removeCapability p capability) = (p, rewritten)) as ->.
    { destruct rewritten; [done|]. unfold removeCapability.
      by rewrite (proj2 (cut_byte_none nul p)) by (apply Hnul; [done|left]). }
    rewrite El.
    destruct (IH ltac:(intros; apply Hnul; [done|by right]) data' rest (out +:+ line) size fuel
      eq_refl) as (fuel' & Hf' & E); [lia|].
    exists fuel'. by rewrite E, app_assoc_string.
Qed.
End frames.

(** ** A framing that satisfies the laws

    Four hexadecimal digits give the length of the packet, themselves included. *)

Definition hex_digit (d : Z) : ascii :=
  ascii_of_N (Z.to_N (if d <? 10 then 48 + d else 87 + d)).

Definition hex_value (c : ascii) : option Z :=
  let b := byte_of c in
  if (48 <=? b) && (b <=? 57) then Some (b - 48)
  else if (97 <=? b) && (b <=? 102) then Some (b - 87)
  else None.

Definition hex4 (n : Z) : string :=
  String (hex_digit (n / 4096)) (String (hex_digit (n / 256 mod 16))
    (String (hex_digit (n / 16 mod 16)) (String (hex_digit (n mod 16)) EmptyString))).

Definition hex_length (s : string) : option (Z * string) :=
  match s with
  | String a (String b (String c (String d rest))) =>
    a ← hex_value a; b ← hex_value b; c ← hex_value c; d ← hex_value d;
    Some (a * 4096 + b * 256 + c * 16 + d, rest)
  | _ => None
  end.

Definition framing_Encode (p : string) : result error string :=
  if is_empty p then Ok "0000"
  else if 65516 <? len p then Err (ErrorNew "payload is too long")
  else Ok (hex4 (len p + 4) +:+ p).

Definition framing_Scan (s : string) : ScanStep :=
  if is_empty s then ScanStopped None EmptyString
  else
    match hex_length s with
    | None => ScanStopped (Some (ErrorNew "invalid pkt-len found")) s
    | Some (n, rest) =>
      if n =? 0 then Scanned EmptyString rest
      else if (n <=? 4) || (len rest <? n - 4)
      then ScanStopped (Some (ErrorNew "invalid pkt-len found")) rest
      else Scanned (String.substring 0 (Z.to_nat (n - 4)) rest) (drop_bytes (Z.to_nat (n - 4)) rest)
    end.

Definition framing : PktLine := {|
  MaxPayloadSize := 65516;
  FlushPkt := "0000";
  pktline_Encode := framing_Encode;
  pktline_Scan := framing_Scan
|}.

Lemma hex_value_digit (d : Z) : 0 <= d < 16 → hex_value (hex_digit d) = Some d.
Proof.
  intros Hd. apply (bool_decide_eq_true_1 _). revert d Hd.
  apply (check_below 16 (λ d, bool_decide (hex_value (hex_digit d) = Some d))). by vm_compute.
Qed.

Lemma hex_length_4 (n : Z) (rest : string) :
  0 <= n < 65536 → hex_length (hex4 n +:+ rest) = Some (n, rest).
Proof.
  intros Hn. unfold hex4. rewrite !app_cons, app_nil_l_string. cbn [hex_length].
  rewrite !hex_value_digit by (Z.to_euclidean_division_equations; lia). cbn.
  f_equal. f_equal. Z.to_euclidean_division_equations; lia.
Qed.

Lemma hex_length_shorter (s rest : string) (n : Z) :
  hex_length s = Some (n, rest) → (String.length rest < String.length s)%nat.
Proof.
  destruct s as [|a [|b [|c [|d s]]]]; cbn [hex_length]; try done.
  destruct (hex_value a), (hex_value b), (hex_value c), (hex_value d); cbn; try done.
  intros [= _ <-]. lia.
Qed.

Lemma framing_encode (p line : string) :
  p ≠ EmptyString → framing_Encode p = Ok line → line = hex4 (len p + 4) +:+ p ∧ len p <= 65516.
Proof.
  unfold framing_Encode. destruct p as [|c p]; [done|]. cbn [is_empty]. intros _.
  destruct (Z.ltb_spec 65516 (len (String c p))); [done|]. by intros [= <-].
Qed.

Lemma framing_scan (s rest : string) (n : Z) :
  hex_length s = Some (n, rest) →
  framing_Scan s
  = if n =? 0 then Scanned EmptyString rest
    else if (n <=? 4) || (len rest <? n - 4)
    then ScanStopped (Some (ErrorNew "invalid pkt-len found")) rest
    else Scanned (String.substring 0 (Z.to_nat (n - 4)) rest) (drop_bytes (Z.to_nat (n - 4)) rest).
Proof. intros H. unfold framing_Scan. rewrite H. by destruct s. Qed.

Lemma length_drop_le (s : string) (n : nat) : (String.length (drop_bytes n s) <= String.length s)%nat.
Proof. rewrite length_drop_bytes. lia. Qed.

Lemma framing_laws : PktLineLaws framing.
Proof.
  split; cbn [MaxPayloadSize FlushPkt pktline_Encode pktline_Scan framing].
  - reflexivity.
  - intros p Hp Hl. unfold framing_Encode. destruct p as [|c p]; [done|]. cbn [is_empty].
    rewrite (proj2 (Z.ltb_ge _ _) Hl). by eexists.
  - intros p Hl. unfold framing_Encode. destruct p as [|c p]; [by vm_compute in Hl|]. cbn [is_empty].
    rewrite (proj2 (Z.ltb_lt _ _) Hl). by eexists.
  - intros p line rest Hp Hl. apply framing_encode in Hl as [-> Hl]; [|done].
    assert (0 < len p) by (destruct p; [done|rewrite len_cons; unfold len; lia]).
    rewrite app_assoc_string, (framing_scan _ (p +:+ rest) (len p + 4)) by (apply hex_length_4; lia).
    rewrite (proj2 (Z.eqb_neq _ _)) by lia.
    rewrite (proj2 (Z.leb_gt _ _)), (proj2 (Z.ltb_ge _ _)) by (rewrite ?len_app; unfold len in *; lia).
    cbn [orb]. replace (Z.to_nat (len p + 4 - 4)) with (String.length p) by (unfold len; lia).
    rewrite substring_app, drop_bytes_app by lia.
    assert (drop_bytes (String.length p) p = EmptyString) as E.
    { pose proof (length_drop_bytes p (String.length p)) as D. rewrite Nat.sub_diag in D.
      by destruct (drop_bytes _ p). }
    pose proof (substring_drop p (String.length p)) as S. rewrite E, app_nil_r_string in S.
    by rewrite S, E, app_nil_l_string.
  - intros rest. rewrite (framing_scan _ rest 0) by reflexivity. done.
  - reflexivity.
  - intros s p rest H. destruct (hex_length s) as [[n r]|] eqn:E.
    + rewrite (framing_scan s r n E) in H. apply hex_length_shorter in E.
      destruct (n =? 0); [by injection H as _ <-|].
      destruct ((n <=? 4) || (len r <? n - 4)); [done|]. injection H as _ <-.
      pose proof (length_drop_le r (Z.to_nat (n - 4))). lia.
    + unfold framing_Scan in H. rewrite E in H. by destruct s.
Qed.

(** ** Removing an advertised capability *)

Section advertisement.
Context {PL : PktLine} {L : PktLineLaws PL}.

(** On an advertisement, a sequence of flush packets and payloads, removing a
    capability succeeds and gives the same sequence but for the first payload with a
    NUL byte: the ref before the NUL and the final newline stay, and the capabilities
    after it are those advertised but the removed one, with or without a value, in
    their order.  The result is framed again, and never too long for a pkt-line. *)
Theorem RemoveAdvertisementCapability_exact (capability data : string) (fs gs : list frame) :
  Forall frame_fits fs → wire fs = Ok data → without_capability capability fs gs →
  Forall frame_fits gs
  ∧ ∃ out, wire gs = Ok out ∧ RemoveAdvertisementCapability data capability = Some (Ok out).
Proof.
  intros Hfit Hw Hr. unfold RemoveAdvertisementCapability, NewScanner.
  destruct Hr as [fs Hn|fs gs before after Hn Hb].
  - split; [done|]. exists data. split; [done|].
    destruct (rewrite_copies capability fs false Hfit (λ _, Hn) data EmptyString EmptyString (len data)
      (S (String.length data)) Hw) as (fuel' & Hf & E); rewrite app_nil_r_string in *; [lia|].
    rewrite E. destruct fuel' as [|fuel']; [lia|]. by rewrite rewrite_end, app_nil_l_string.
  - apply Forall_app in Hfit as [Hfs [Hp Hgs]%Forall_cons].
    destruct (removeCapability_shrinks before after capability Hb) as [Hk Hl].
    set (p' := without_field capability before after) in *.
    assert (fits p') as Hp'. { split; [apply app_not_empty|]. unfold frame_fits, fits in Hp. lia. }
    split; [apply Forall_app_2; [|apply Forall_cons_2]; done|].
    destruct (wire_fits (fs ++ Line p' :: gs)) as [out Hout];
      [apply Forall_app_2; [|apply Forall_cons_2]; done|].
    exists out. split; [done|]. rewrite wire_app in Hw, Hout. cbn [wire] in Hw, Hout.
    destruct (wire fs) as [d1|e] eqn:Ef; cbn in Hw, Hout; [|done].
    destruct (pktline_Encode (before +:+ String nul after)) as [line|e] eqn:El; cbn in Hw; [|done].
    destruct (pktline_Encode p') as [line'|e] eqn:El'; cbn in Hout; [|done].
    destruct (wire gs) as [d2|e] eqn:Eg; cbn in Hw, Hout; [|done].
    injection Hw as <-. injection Hout as <-.
    destruct (rewrite_copies capability fs false Hfs (λ _, Hn) d1 (line +:+ d2) EmptyString
      (len (d1 +:+ line +:+ d2)) (S (String.length (d1 +:+ line +:+ d2)))) as (fuel & Hf & ->);
      [done|lia|]. rewrite app_nil_l_string.
    destruct fuel as [|fuel]; [lia|].
    assert (before +:+ String nul after ≠ EmptyString) as Hne by apply app_not_empty.
    pose proof (line_consumes _ line d2 Hne El).
    rewrite (rewrite_line fuel capability _ line d2 d1 _ _ Hne El). rewrite Hk, El'.
    destruct (rewrite_copies capability gs true Hgs ltac:(done) d2 EmptyString (d1 +:+ line')
      (len (d1 +:+ line +:+ d2)) fuel Eg) as (fuel' & Hf' & E); rewrite app_nil_r_string in *; [lia|].
    rewrite E. destruct fuel' as [|fuel']; [lia|]. by rewrite rewrite_end, app_assoc_string.
Qed.
End advertisement.

(** An advertisement of one ref whose [thin-pack] capabilities are removed. *)
Definition sample_advertisement : list frame :=
  [Line ("# service=git-receive-pack" +:+ newline); Flush;
   Line ("1111111111111111111111111111111111111111 refs/heads/main"
         +:+ String nul (" report-status thin-pack ofs-delta thin-pack=x" +:+ newline));
   Line ("2222222222222222222222222222222222222222 refs/heads/next" +:+ newline); Flush].

Definition sample_ref : string := "1111111111111111111111111111111111111111 refs/heads/main".

Definition sample_trimmed : list frame :=
  [Line ("# service=git-receive-pack" +:+ newline); Flush;
   Line (sample_ref +:+ String nul ("report-status ofs-delta" +:+ newline));
   Line ("2222222222222222222222222222222222222222 refs/heads/next" +:+ newline); Flush].

Lemma RemoveAdvertisementCapability_exact_witness :
  match wire (PL := framing) sample_advertisement, wire (PL := framing) sample_trimmed with
  | Ok data, Ok out => RemoveAdvertisementCapability (PL := framing) data "thin-pack" = Some (Ok out)
  | _, _ => False
  end.
Proof.
  destruct (wire (PL := framing) sample_advertisement) as [data|e] eqn:Ed; [|by vm_compute in Ed].
  assert (H : Forall (frame_fits (PL := framing)) sample_trimmed ∧ ∃ out,
    wire (PL := framing) sample_trimmed = Ok out
    ∧ RemoveAdvertisementCapability (PL := framing) data "thin-pack" = Some (Ok out)).
  { apply (RemoveAdvertisementCapability_exact (L := framing_laws) "thin-pack" data
      sample_advertisement sample_trimmed); [|exact Ed|].
    - repeat constructor; by vm_compute.
    - apply (without_some "thin-pack" [Line ("# service=git-receive-pack" +:+ newline); Flush]
        [Line ("2222222222222222222222222222222222222222 refs/heads/next" +:+ newline); Flush]
        sample_ref (" report-status thin-pack ofs-delta thin-pack=x" +:+ newline)).
      + intros p [[= ->]|[[=]|[]%elem_of_nil]%elem_of_cons]%elem_of_cons.
        by apply (bool_decide_unpack _); vm_compute.
      + by apply (bool_decide_unpack _); vm_compute. }
  destruct H as (_ & out & -> & H). exact H.
Defined.
