(* ===== verification/GitReceivePack.v ===== *)
(** * Receive-pack requests: [git/protocol/receive_pack.go]

    The command prelude of a push: parsing, validation and classification of
    the ref updates.  The reader is left at the pack that follows. *)

From S2P Require Export GitPktLine.
From Stdlib Require Import Ascii.

Local Open Scope Z_scope.

Definition sha1ObjectIDLength : Z := 40.
Definition sha256ObjectIDLength : Z := 64.

Inductive RefUpdateKind : Type :=
| RefUpdateBranchCreate
| RefUpdateBranchUpdate
| RefUpdateRefDelete
| RefUpdateTagCreate
| RefUpdateTagUpdate
| RefUpdateOther.

#[export] Instance RefUpdateKind_eq_dec : EqDecision RefUpdateKind.
Proof. solve_decision. Defined.

Record ReceivePackCommand : Type := MkReceivePackCommand {
  cmd_Old : string;
  cmd_New : string;
  cmd_Ref : string;
  cmd_Kind : RefUpdateKind
}.

Record ReceivePackRequest : Type := MkReceivePackRequest {
  rp_Commands : list ReceivePackCommand;
  rp_Capabilities : gmap string bool
}.

#[export] Instance ReceivePackCommand_eq_dec : EqDecision ReceivePackCommand.
Proof. solve_decision. Defined.

(** ** Object ids *)

Definition isHex (char : Z) : bool :=
  ((48 <=? char) && (char <=? 57)) || ((97 <=? char) && (char <=? 102))
  || ((65 <=? char) && (char <=? 70)).

Definition isObjectID (value : string) : bool :=
  if negb (len value =? sha1ObjectIDLength) && negb (len value =? sha256ObjectIDLength)
  then false
  else forallb isHex (runes value).

Definition isZeroObjectID (value : string) : bool :=
  if negb (isObjectID value) then false else forallb (λ char, char =? 48) (runes value).

(** ** Ref names *)

Definition hasValidRefShape (ref : string) : bool :=
  has_prefix "refs/" ref && negb (String.eqb ref "refs/") && negb (String.eqb ref "@")
  && negb (contains ".." ref) && negb (contains "@{" ref)
  && negb (has_suffix "/" ref) && negb (has_suffix "." ref).

Definition hasValidRefComponents (ref : string) : bool :=
  forallb (λ component,
      negb (is_empty component || has_prefix "." component || has_suffix ".lock" component))
    (split_byte "/" ref).

(** [strings.ContainsRune(s, r)] *)
Definition contains_rune (s : string) (r : Z) : bool := existsb (Z.eqb r) (runes s).

Definition hasValidRefChars (ref : string) : bool :=
  forallb (λ char, negb ((char <=? 32) || (char =? 127) || contains_rune "~^:?*[\" char))
    (runes ref).

Definition isValidRefName (ref : string) : bool :=
  hasValidRefShape ref && hasValidRefComponents ref && hasValidRefChars ref.

(** ** Classification *)

Definition classifyCreateOrUpdate (command : ReceivePackCommand) (create update : RefUpdateKind)
  : RefUpdateKind :=
  if isZeroObjectID (cmd_Old command) then create else update.

Definition classifyTag (command : ReceivePackCommand) : RefUpdateKind :=
  classifyCreateOrUpdate command RefUpdateTagCreate RefUpdateTagUpdate.

Definition classifyBranch (command : ReceivePackCommand) : RefUpdateKind :=
  classifyCreateOrUpdate command RefUpdateBranchCreate RefUpdateBranchUpdate.

Definition classify (command : ReceivePackCommand) : RefUpdateKind :=
  if isZeroObjectID (cmd_New command) then RefUpdateRefDelete
  else if has_prefix "refs/tags/" (cmd_Ref command) then classifyTag command
  else if has_prefix "refs/heads/" (cmd_Ref command) then classifyBranch command
  else RefUpdateOther.

(** ** Parsing *)

Definition parseShallow (parts : list string) (line : string) : result error bool :=
  match parts with
  | [word; id] =>
    if String.eqb word "shallow"
    then
      refuse (negb (isObjectID id))
        (errorf "invalid receive-pack shallow object id in command %q" [line]) ;;;
      Ok true
    else Ok false
  | _ => Ok false
  end.

(** [parseCommandFields]; no command is [None]. *)
Definition parseCommandFields (parts : list string) (line : string)
  : result error (option ReceivePackCommand) :=
  match parseShallow parts line with
  | Err e => Err e
  | Ok true => Ok None
  | Ok false =>
    match parts with
    | [old; new; ref] =>
      refuse (negb (isObjectID old) || negb (isObjectID new))
        (errorf "invalid receive-pack object id in command %q" [line]) ;;;
      refuse (negb (len old =? len new))
        (errorf "mixed receive-pack object id lengths in command %q" [line]) ;;;
      refuse (negb (isValidRefName ref))
        (errorf "invalid receive-pack ref name in command %q" [line]) ;;;
      Ok (Some (MkReceivePackCommand old new ref
                  (classify (MkReceivePackCommand old new ref RefUpdateOther))))
    | _ => Err (errorf "invalid receive-pack command %q" [line])
    end
  end.

(** The capabilities of the fields, set to true. *)
Definition set_capabilities (names : list string) (capabilities : gmap string bool)
  : gmap string bool :=
  foldl (λ m name, <[name := true]> m) capabilities names.

Definition parseCommandPayloadWithCapabilities (payload : string) (first : bool)
    (capabilities : gmap string bool)
  : result error (option ReceivePackCommand) * gmap string bool :=
  let payload := trim_suffix newline payload in
  let '(line, capabilities) :=
    match cut_byte nul payload with
    | Some (before, after) =>
      (before, if first then set_capabilities (fields after) capabilities else capabilities)
    | None => (payload, capabilities)
    end in
  let parts := fields line in
  (match parts with [] => Ok None | _ => parseCommandFields parts line end, capabilities).

Section parse.
Context {PL : PktLine}.

(** The loop of [ParseReceivePackRequest]: the request and the reader it leaves;
    [None] when the fuel runs out. *)
Fixpoint parse_loop (fuel : nat) (r : string) (request : ReceivePackRequest) (firstCommand : bool)
  : option (result error ReceivePackRequest * string) :=
  match fuel with
  | O => None
  | S fuel =>
    let '(payload, r) := ReadPktLine r in
    match payload with
    | Err err =>
      if errors_Is err ErrFlush || errors_Is err io_EOF then Some (Ok request, r)
      else Some (Err err, r)
    | Ok payload =>
      match parseCommandPayloadWithCapabilities payload firstCommand (rp_Capabilities request) with
      | (Err err, _) => Some (Err err, r)
      | (Ok None, capabilities) =>
        parse_loop fuel r (MkReceivePackRequest (rp_Commands request) capabilities) firstCommand
      | (Ok (Some command), capabilities) =>
        parse_loop fuel r
          (MkReceivePackRequest (rp_Commands request ++ [command]) capabilities) false
      end
    end
  end.

Definition ParseReceivePackRequest (r : string)
  : option (result error ReceivePackRequest * string) :=
  parse_loop (S (String.length r)) r (MkReceivePackRequest [] ∅) true.

Definition ParseReceivePackCommands (r : string) : option (result error (list ReceivePackCommand)) :=
  match ParseReceivePackRequest r with
  | None => None
  | Some (Ok request, _) => Some (Ok (rp_Commands request))
  | Some (Err e, _) => Some (Err e)
  end.
End parse.

(** ** Examples, from the tests of the package *)

Definition zero_id : string := "0000000000000000000000000000000000000000".
Definition ones_id : string := "1111111111111111111111111111111111111111".
Definition twos_id : string := "2222222222222222222222222222222222222222".

Definition sample_push : list frame :=
  [Line ("shallow " +:+ ones_id +:+ newline);
   Line (zero_id +:+ " " +:+ twos_id +:+ " refs/tags/v1"
         +:+ String nul (" report-status side-band-64k" +:+ newline));
   Line (ones_id +:+ " " +:+ zero_id +:+ " refs/heads/old" +:+ newline); Flush].

Example parse_sample_push :
  match wire (PL := framing) sample_push with
  | Ok data =>
    ParseReceivePackRequest (PL := framing) (data +:+ "PACKDATA")
    = Some (Ok (MkReceivePackRequest
                  [MkReceivePackCommand zero_id twos_id "refs/tags/v1" RefUpdateTagCreate;
                   MkReceivePackCommand ones_id zero_id "refs/heads/old" RefUpdateRefDelete]
                  {[ "report-status" := true; "side-band-64k" := true ]}), "PACKDATA")
  | Err _ => False
  end.
Proof. vm_compute. reflexivity. Qed.

Example refuse_bad_refs :
  isValidRefName <$> ["refs/heads/a..b"; "refs/heads/.a"; "refs/heads/a.lock"; "refs//a";
                      "refs/heads/a b"; "heads/a"; "refs/heads/a@{1}"; "refs/heads/a"]
  = [false; false; false; false; false; false; false; true].
Proof. vm_compute. reflexivity. Qed.
