(* ===== verification/GitReceiveFacts.v ===== *)
(** * What the receive-pack parser accepts

    Validity and classification of the accepted commands, the round trip of a
    rendered push, and the ref names for which the parsed command is not the one
    on the wire. *)

From S2P Require Export GitReceivePack.
From Stdlib Require Import Ascii.

Local Open Scope Z_scope.

(** ** Object ids and ref names *)

Definition hex_byte (c : ascii) : Prop :=
  48 <= byte_of c <= 57 ∨ 97 <= byte_of c <= 102 ∨ 65 <= byte_of c <= 70.

(** A SHA-1 or SHA-256 object id in hexadecimal. *)
Definition object_id (v : string) : Prop :=
  (len v = 40 ∨ len v = 64) ∧ Forall hex_byte (list_of_string v).

Definition zero_object_id (v : string) : Prop :=
  (len v = 40 ∨ len v = 64) ∧ Forall (λ c, c = "0"%char) (list_of_string v).

Lemma isHex_spec (char : Z) :
  isHex char = true ↔ 48 <= char <= 57 ∨ 97 <= char <= 102 ∨ 65 <= char <= 70.
Proof. unfold isHex. rewrite !orb_true_iff, !andb_true_iff, !Z.leb_le. lia. Qed.

Lemma isObjectID_spec (v : string) : isObjectID v = true ↔ object_id v.
Proof.
  unfold isObjectID, object_id, sha1ObjectIDLength, sha256ObjectIDLength.
  assert (forallb isHex (runes v) = true ↔ Forall hex_byte (list_of_string v)) as Hh.
  { rewrite runes_ascii by (intros r Hr%isHex_spec; lia).
    split; intros H; (eapply Forall_impl; [exact H|]); intros c; apply isHex_spec. }
  destruct (Z.eqb_spec (len v) 40), (Z.eqb_spec (len v) 64); cbn [negb andb]; naive_solver.
Qed.

Lemma byte_zero (c : ascii) : byte_of c =? 48 = true ↔ c = "0"%char.
Proof.
  rewrite Z.eqb_eq. split; [|by intros ->]. intros H. apply byte_of_inj. exact H.
Qed.

Lemma isZeroObjectID_spec (v : string) : isZeroObjectID v = true ↔ zero_object_id v.
Proof.
  unfold isZeroObjectID. destruct (isObjectID v) eqn:E; cbn [negb].
  - apply isObjectID_spec in E as [Hl Hh].
    rewrite runes_ascii by (intros r ->%Z.eqb_eq; lia). unfold zero_object_id.
    split; [intros H; split; [done|]|intros [_ H]]; (eapply Forall_impl; [exact H|]);
      intros c; apply byte_zero.
  - split; [done|]. intros [Hl Hz]. exfalso.
    assert (isObjectID v = true); [|congruence]. apply isObjectID_spec. split; [done|].
    eapply Forall_impl; [exact Hz|]. intros c ->. unfold hex_byte. left. vm_compute. done.
Qed.

Lemma object_id_word (v : string) : object_id v → is_word v ∧ nul ∉ list_of_string v.
Proof.
  intros [Hl Hh]. split.
  - apply ascii_word_word. split; [by intros ->; destruct Hl|].
    eapply Forall_impl; [exact Hh|]. unfold hex_byte. intros c. lia.
  - intros Hin. rewrite Forall_forall in Hh. specialize (Hh nul Hin).
    unfold hex_byte in Hh. change (byte_of nul) with 0 in Hh. lia.
Qed.

(** No byte of a ref name is a space, a control character or special to Git. *)
Definition plain_ref_byte (c : ascii) : Prop :=
  32 < byte_of c ∧ byte_of c ≠ 127 ∧ c ∉ list_of_string "~^:?*[\".

Lemma hasValidRefChars_bytes (ref : string) :
  hasValidRefChars ref = true → Forall plain_ref_byte (list_of_string ref).
Proof.
  unfold hasValidRefChars. rewrite forallb_elem_of. intros H.
  apply Forall_forall. intros c Hc. destruct (decide (byte_of c < 128)) as [Ha|Ha].
  - specialize (H (byte_of c) (ascii_byte_rune c ref Hc Ha)).
    apply negb_true_iff in H. rewrite !orb_false_iff in H. destruct H as [[H1 H2] H3].
    apply Z.leb_gt in H1. apply Z.eqb_neq in H2. split_and!; [done|done|].
    intros Hin. apply not_true_iff_false in H3. apply H3. unfold contains_rune.
    apply existsb_elem_of. exists (byte_of c). split; [by apply ascii_byte_rune|by apply Z.eqb_refl].
  - split_and!; [lia|lia|]. intros Hin.
    assert (Forall (λ c, byte_of c < 128) (list_of_string "~^:?*[\")) as Hs
      by (repeat constructor).
    rewrite Forall_forall in Hs. by apply Hs in Hin.
Qed.

(** A ref name the parser accepts: under [refs/], without empty, hidden or locked
    components, and without the characters Git refuses. *)
Definition valid_ref (ref : string) : Prop :=
  (∃ t, t ≠ EmptyString ∧ ref = "refs/" +:+ t)
  ∧ contains ".." ref = false ∧ contains "@{" ref = false
  ∧ Forall (λ component, component ≠ EmptyString ∧ ¬ (∃ t, component = "." +:+ t)
                         ∧ ¬ (∃ t, component = t +:+ ".lock")) (split_byte "/" ref)
  ∧ Forall plain_ref_byte (list_of_string ref).

Lemma isValidRefName_valid (ref : string) : isValidRefName ref = true → valid_ref ref.
Proof.
  unfold isValidRefName, hasValidRefShape. rewrite !andb_true_iff, !negb_true_iff.
  intros ((((((((Hp & Hne) & _) & Hd) & Ha) & _) & _) & Hcomp) & Hchars).
  split_and!; [|done|done| |by apply hasValidRefChars_bytes].
  - apply has_prefix_spec in Hp as [t ->]. exists t. split; [|done]. by intros ->.
  - unfold hasValidRefComponents in Hcomp. rewrite forallb_elem_of in Hcomp.
    apply Forall_forall. intros component Hin. specialize (Hcomp component Hin).
    apply negb_true_iff in Hcomp. rewrite !orb_false_iff in Hcomp.
    destruct Hcomp as [[H1 H2] H3]. split_and!; [by intros ->| |].
    + intros Ht%has_prefix_spec. congruence.
    + intros Ht%has_suffix_spec. congruence.
Qed.

(** ** Accepted commands *)

(** What the kind of a command says of its ids and its ref. *)
Definition kind_describes (c : ReceivePackCommand) : Prop :=
  let created := zero_object_id (cmd_Old c) in
  let tag := ∃ t, cmd_Ref c = "refs/tags/" +:+ t in
  let branch := ∃ t, cmd_Ref c = "refs/heads/" +:+ t in
  match cmd_Kind c with
  | RefUpdateRefDelete => zero_object_id (cmd_New c)
  | RefUpdateTagCreate => ¬ zero_object_id (cmd_New c) ∧ tag ∧ created
  | RefUpdateTagUpdate => ¬ zero_object_id (cmd_New c) ∧ tag ∧ ¬ created
  | RefUpdateBranchCreate => ¬ zero_object_id (cmd_New c) ∧ branch ∧ created
  | RefUpdateBranchUpdate => ¬ zero_object_id (cmd_New c) ∧ branch ∧ ¬ created
  | RefUpdateOther => ¬ zero_object_id (cmd_New c) ∧ ¬ tag ∧ ¬ branch
  end.

Definition valid_command (c : ReceivePackCommand) : Prop :=
  object_id (cmd_Old c) ∧ object_id (cmd_New c) ∧ len (cmd_Old c) = len (cmd_New c)
  ∧ valid_ref (cmd_Ref c) ∧ kind_describes c.

Lemma not_zero_spec (v : string) : isZeroObjectID v = false ↔ ¬ zero_object_id v.
Proof. rewrite <- isZeroObjectID_spec. by destruct (isZeroObjectID v). Qed.

Lemma not_prefix_spec (p s : string) : has_prefix p s = false ↔ ¬ ∃ t, s = p +:+ t.
Proof. rewrite <- has_prefix_spec. by destruct (has_prefix p s). Qed.

Lemma classify_describes (old new ref : string) (k : RefUpdateKind) :
  kind_describes (MkReceivePackCommand old new ref (classify (MkReceivePackCommand old new ref k))).
Proof.
  unfold kind_describes, classify, classifyTag, classifyBranch, classifyCreateOrUpdate.
  cbn [cmd_Old cmd_New cmd_Ref cmd_Kind].
  destruct (isZeroObjectID new) eqn:En; [by apply isZeroObjectID_spec|]. apply not_zero_spec in En.
  destruct (has_prefix "refs/tags/" ref) eqn:Et;
    [apply has_prefix_spec in Et|apply not_prefix_spec in Et].
  - destruct (isZeroObjectID old) eqn:Eo; [apply isZeroObjectID_spec in Eo|apply not_zero_spec in Eo];
      auto.
  - destruct (has_prefix "refs/heads/" ref) eqn:Eb;
      [apply has_prefix_spec in Eb|apply not_prefix_spec in Eb]; [|auto].
    destruct (isZeroObjectID old) eqn:Eo; [apply isZeroObjectID_spec in Eo|apply not_zero_spec in Eo];
      auto.
Qed.

Lemma parseCommandFields_valid (parts : list string) (line : string) (c : ReceivePackCommand) :
  parseCommandFields parts line = Ok (Some c) → valid_command c.
Proof.
  unfold parseCommandFields. destruct (parseShallow parts line) as [[]|e]; [done| |done].
  destruct parts as [|old [|new [|ref [|? ?]]]]; try done.
  rewrite !seq_ok, !refuse_ok, orb_false_iff, !negb_false_iff, Z.eqb_eq.
  intros ([Ho Hn] & Hl & Hr & [= <-]). unfold valid_command. cbn [cmd_Old cmd_New cmd_Ref].
  split_and!; [by apply isObjectID_spec|by apply isObjectID_spec|done|by apply isValidRefName_valid|].
  apply classify_describes.
Qed.

Lemma parse_payload_valid (payload : string) (first : bool) (capabilities capabilities' : gmap string bool)
    (c : ReceivePackCommand) :
  parseCommandPayloadWithCapabilities payload first capabilities = (Ok (Some c), capabilities') →
  valid_command c.
Proof.
  unfold parseCommandPayloadWithCapabilities.
  destruct (match cut_byte _ _ with Some _ => _ | None => _ end) as [line caps].
  destruct (fields line) as [|p ps] eqn:E; [done|]. intros [= H _].
  by apply parseCommandFields_valid in H.
Qed.

Section accepted.
Context {PL : PktLine}.

Lemma parse_loop_valid (fuel : nat) (r r' : string) (request req : ReceivePackRequest) (first : bool) :
  Forall valid_command (rp_Commands request) →
  parse_loop fuel r request first = Some (Ok req, r') → Forall valid_command (rp_Commands req).
Proof.
  revert r request first. induction fuel as [|fuel IH]; intros r request first Hv; [done|].
  cbn [parse_loop]. destruct (ReadPktLine r) as [[payload|e] r1].
  - destruct (parseCommandPayloadWithCapabilities payload first (rp_Capabilities request))
      as [[[c|]|e] caps] eqn:E; [| |done]; apply IH; cbn [rp_Commands]; [|done].
    apply Forall_app_2; [done|]. apply Forall_singleton. by eapply parse_payload_valid.
  - destruct (errors_Is e ErrFlush || errors_Is e io_EOF); [|done]. by intros [= <- _].
Qed.

(** Whatever bytes a push consists of, every command of an accepted receive-pack
    request has two hexadecimal object ids of one length, SHA-1 or SHA-256, and a ref
    under [refs/] without empty, hidden or locked components, without [..] or [@{], and
    without space, control or glob bytes; and its kind is exact: a deletion writes the
    zero id, and tags and branches are created or updated as the old id is zero or not. *)
Theorem accepted_commands_valid (r r' : string) (req : ReceivePackRequest) :
  ParseReceivePackRequest r = Some (Ok req, r') → Forall valid_command (rp_Commands req).
Proof. apply parse_loop_valid. constructor. Qed.
End accepted.

Lemma accepted_commands_valid_witness :
  match wire (PL := framing) sample_push with
  | Ok data =>
    match ParseReceivePackRequest (PL := framing) data with
    | Some (Ok req, _) => length (rp_Commands req) = 2%nat ∧ Forall valid_command (rp_Commands req)
    | _ => False
    end
  | Err _ => False
  end.
Proof.
  destruct (wire (PL := framing) sample_push) as [data|e] eqn:Ed; [|by vm_compute in Ed].
  destruct (ParseReceivePackRequest (PL := framing) data) as [[[req|e] r']|] eqn:E;
    [|vm_compute in Ed; injection Ed as <-; by vm_compute in E..].
  split.
  - vm_compute in Ed. injection Ed as <-. vm_compute in E. by injection E as <- _.
  - exact (accepted_commands_valid (PL := framing) data r' req E).
Defined.

(** * Pushes are read back as they are written

    The frames of a push, as Git clients write them, and their reading by
    [ParseReceivePackRequest]; then the pushes whose parsed ref is not the ref
    on the wire. *)

(** ** Rendering *)

Definition command_line (c : ReceivePackCommand) : string :=
  cmd_Old c +:+ " " +:+ cmd_New c +:+ " " +:+ cmd_Ref c.

Definition command_payload (c : ReceivePackCommand) : string := command_line c +:+ newline.

Definition first_payload (c : ReceivePackCommand) (capabilities : list string) : string :=
  (command_line c +:+ String nul (String " " (join " " capabilities))) +:+ newline.

Definition shallow_payload (id : string) : string := ("shallow " +:+ id) +:+ newline.

(** The commands of a push after its shallow lines. *)
Definition command_frames (commands : list ReceivePackCommand) (capabilities : list string)
  : list frame :=
  match commands with
  | [] => []
  | c :: cs => Line (first_payload c capabilities) :: (Line ∘ command_payload <$> cs)
  end.

Definition push_frames (shallows : list string) (commands : list ReceivePackCommand)
    (capabilities : list string) : list frame :=
  (Line ∘ shallow_payload <$> shallows) ++ command_frames commands capabilities ++ [Flush].

(** A command a client may send: its kind follows from the rest, and its ref has
    no Unicode space. *)
Definition pushed_command (c : ReceivePackCommand) : Prop :=
  object_id (cmd_Old c) ∧ object_id (cmd_New c) ∧ len (cmd_Old c) = len (cmd_New c)
  ∧ isValidRefName (cmd_Ref c) = true ∧ is_word (cmd_Ref c) ∧ cmd_Kind c = classify c.

(** ** Parsing one payload *)

Lemma valid_ref_no_nul (ref : string) : isValidRefName ref = true → nul ∉ list_of_string ref.
Proof.
  intros (_ & _ & _ & _ & H)%isValidRefName_valid Hin. rewrite Forall_forall in H.
  destruct (H nul Hin) as [Hb _]. by vm_compute in Hb.
Qed.

Lemma not_elem_of_string_app (c : ascii) (a b : string) :
  c ∉ list_of_string a → c ∉ list_of_string b → c ∉ list_of_string (a +:+ b).
Proof. rewrite list_of_string_app, not_elem_of_app. done. Qed.

Lemma nul_not_space : nul ∉ list_of_string " ".
Proof. by apply (bool_decide_unpack _); vm_compute. Qed.

Lemma command_line_no_nul (c : ReceivePackCommand) :
  object_id (cmd_Old c) → object_id (cmd_New c) → isValidRefName (cmd_Ref c) = true →
  nul ∉ list_of_string (command_line c).
Proof.
  intros [_ Ho]%object_id_word [_ Hn]%object_id_word Hr%valid_ref_no_nul. unfold command_line.
  repeat apply not_elem_of_string_app; auto using nul_not_space.
Qed.

Lemma command_line_fields (c : ReceivePackCommand) (ref : string) :
  object_id (cmd_Old c) → object_id (cmd_New c) → fields (cmd_Ref c) = [ref] →
  fields (command_line c) = [cmd_Old c; cmd_New c; ref].
Proof.
  intros [Ho _]%object_id_word [Hn _]%object_id_word Hr. unfold command_line.
  by rewrite (fields_space (cmd_Old c)), (fields_space (cmd_New c)), Hr.
Qed.

Lemma parse_pushed_fields (c : ReceivePackCommand) (line : string) :
  pushed_command c →
  parseCommandFields [cmd_Old c; cmd_New c; cmd_Ref c] line = Ok (Some c).
Proof.
  intros (Ho & Hn & Hl & Hr & _ & Hk). unfold parseCommandFields. cbn [parseShallow].
  rewrite <- isObjectID_spec in Ho, Hn. rewrite Ho, Hn, Hl, Z.eqb_refl, Hr. cbn.
  destruct c as [old new ref k]; cbn in *. rewrite Hk. reflexivity.
Qed.

Lemma parse_command_payload (c : ReceivePackCommand) (capabilities : gmap string bool) :
  pushed_command c →
  parseCommandPayloadWithCapabilities (command_payload c) false capabilities
  = (Ok (Some c), capabilities).
Proof.
  intros Hc. pose proof Hc as (Ho & Hn & Hl & Hr & Hw & Hk).
  unfold parseCommandPayloadWithCapabilities, command_payload. rewrite trim_suffix_app.
  rewrite (proj2 (cut_byte_none nul _)) by (by apply command_line_no_nul).
  rewrite (command_line_fields c (cmd_Ref c)) by (by try apply fields_word).
  by rewrite parse_pushed_fields.
Qed.

Lemma parse_first_payload (c : ReceivePackCommand) (names : list string)
    (capabilities : gmap string bool) :
  pushed_command c → Forall is_word names →
  parseCommandPayloadWithCapabilities (first_payload c names) true capabilities
  = (Ok (Some c), set_capabilities names capabilities).
Proof.
  intros Hc Hnames. pose proof Hc as (Ho & Hn & Hl & Hr & Hw & Hk).
  unfold parseCommandPayloadWithCapabilities, first_payload. rewrite trim_suffix_app.
  rewrite cut_byte_app by (by apply command_line_no_nul).
  rewrite fields_leading_space, fields_join by done.
  rewrite (command_line_fields c (cmd_Ref c)) by (by try apply fields_word).
  by rewrite parse_pushed_fields.
Qed.

Lemma parse_shallow_payload (id : string) (first : bool) (capabilities : gmap string bool) :
  object_id id →
  parseCommandPayloadWithCapabilities (shallow_payload id) first capabilities
  = (Ok None, capabilities).
Proof.
  intros Hid. destruct (object_id_word id Hid) as [Hw Hn].
  unfold parseCommandPayloadWithCapabilities, shallow_payload. rewrite trim_suffix_app.
  rewrite (proj2 (cut_byte_none nul _)).
  - change ("shallow " +:+ id) with ("shallow" +:+ " " +:+ id).
    rewrite fields_space, (fields_word id Hw) by (by apply (bool_decide_unpack _); vm_compute).
    unfold parseCommandFields, parseShallow. rewrite String.eqb_refl.
    apply isObjectID_spec in Hid. by rewrite Hid.
  - apply not_elem_of_string_app; [|done]. by apply (bool_decide_unpack _); vm_compute.
Qed.

Lemma lookup_set_capabilities (names : list string) (m : gmap string bool) (name : string) :
  set_capabilities names m !! name = if decide (name ∈ names) then Some true else m !! name.
Proof.
  unfold set_capabilities. revert m. induction names as [|n names IH]; intros m; cbn [foldl].
  - case_decide as H; [by apply elem_of_nil in H|done].
  - rewrite IH. destruct (decide (name = n)) as [->|Hne].
    + rewrite lookup_insert_eq. rewrite (decide_True (P := n ∈ n :: names)) by left.
      by case_decide.
    + rewrite lookup_insert_ne by done. repeat case_decide; try done;
        rewrite elem_of_cons in *; naive_solver.
Qed.

(** ** Parsing a stream *)

Section stream.
Context {PL : PktLine} {L : PktLineLaws PL}.

(** One payload is consumed. *)
Lemma parse_loop_line (p line rest : string) (request : ReceivePackRequest) (first : bool) (fuel : nat) :
  p ≠ EmptyString → pktline_Encode p = Ok line → (String.length (line +:+ rest) < fuel)%nat →
  ∃ fuel', (String.length rest < fuel')%nat
  ∧ parse_loop fuel (line +:+ rest) request first
    = match parseCommandPayloadWithCapabilities p first (rp_Capabilities request) with
      | (Err err, _) => Some (Err err, rest)
      | (Ok None, capabilities) =>
        parse_loop fuel' rest (MkReceivePackRequest (rp_Commands request) capabilities) first
      | (Ok (Some command), capabilities) =>
        parse_loop fuel' rest
          (MkReceivePackRequest (rp_Commands request ++ [command]) capabilities) false
      end.
Proof.
  intros Hp Hl Hf. pose proof (line_consumes p line rest Hp Hl).
  destruct fuel as [|fuel]; [lia|]. exists fuel. split; [lia|].
  cbn [parse_loop]. by rewrite (ReadPktLine_line p line rest Hp Hl).
Qed.

Lemma parse_loop_flush (rest : string) (request : ReceivePackRequest) (first : bool) (fuel : nat) :
  (String.length (FlushPkt +:+ rest) < fuel)%nat →
  parse_loop fuel (FlushPkt +:+ rest) request first = Some (Ok request, rest).
Proof. intros Hf. destruct fuel as [|fuel]; [lia|]. cbn [parse_loop]. by rewrite ReadPktLine_flush. Qed.

Lemma parse_loop_shallows (shallows : list string) (data rest : string) (request : ReceivePackRequest)
    (first : bool) (fuel : nat) :
  Forall object_id shallows → wire (Line ∘ shallow_payload <$> shallows) = Ok data →
  (String.length (data +:+ rest) < fuel)%nat →
  ∃ fuel', (String.length rest < fuel')%nat
    ∧ parse_loop fuel (data +:+ rest) request first = parse_loop fuel' rest request first.
Proof.
  intros Hs. revert data fuel. induction Hs as [|id shallows Hid _ IH]; intros data fuel; cbn.
  - intros [= <-] Hf. by exists fuel.
  - destruct (pktline_Encode (shallow_payload id)) as [line|e] eqn:El; cbn; [|done].
    destruct (wire _) as [data'|e] eqn:Ew; cbn; [|done]. intros [= <-] Hf.
    rewrite app_assoc_string in *.
    destruct (parse_loop_line (shallow_payload id) line (data' +:+ rest) request first fuel)
      as (f1 & Hf1 & ->); [apply app_not_empty|done|done|].
    rewrite parse_shallow_payload by done.
    destruct (IH data' f1 eq_refl Hf1) as (f2 & Hf2 & E). exists f2. split; [done|].
    by destruct request.
Qed.

Lemma parse_loop_commands (commands : list ReceivePackCommand) (data rest : string)
    (request : ReceivePackRequest) (fuel : nat) :
  Forall pushed_command commands → wire (Line ∘ command_payload <$> commands) = Ok data →
  (String.length (data +:+ rest) < fuel)%nat →
  ∃ fuel', (String.length rest < fuel')%nat
    ∧ parse_loop fuel (data +:+ rest) request false
      = parse_loop fuel' rest
          (MkReceivePackRequest (rp_Commands request ++ commands) (rp_Capabilities request)) false.
Proof.
  intros Hs. revert data request fuel.
  induction Hs as [|c commands Hc _ IH]; intros data request fuel; cbn [fmap list_fmap wire].
  - intros [= <-] Hf. exists fuel. rewrite app_nil_r. by destruct request.
  - unfold compose at 1. destruct (pktline_Encode (command_payload c)) as [line|e] eqn:El; cbn; [|done].
    destruct (wire _) as [data'|e] eqn:Ew; cbn; [|done]. intros [= <-] Hf.
    rewrite app_assoc_string in *.
    destruct (parse_loop_line (command_payload c) line (data' +:+ rest) request false fuel)
      as (f1 & Hf1 & ->); [apply app_not_empty|done|done|].
    rewrite parse_command_payload by done.
    destruct (IH data' (MkReceivePackRequest (rp_Commands request ++ [c]) (rp_Capabilities request))
      f1 eq_refl Hf1) as (f2 & Hf2 & ->). exists f2. split; [done|]. cbn [rp_Commands rp_Capabilities].
    by rewrite <- app_assoc.
Qed.

(** C22: A push written as Git writes it, with its shallow lines, its commands, the
    capabilities after the first of them and a flush packet, is read back exactly: the
    same commands in order with their kinds, the capabilities that were written and no
    others, and the reader left at the first byte of the pack. *)
Theorem push_roundtrip (shallows : list string) (commands : list ReceivePackCommand)
    (capabilities : list string) (data pack : string) :
  Forall object_id shallows → Forall pushed_command commands → commands ≠ [] →
  Forall is_word capabilities →
  wire (push_frames shallows commands capabilities) = Ok data →
  ∃ m, ParseReceivePackRequest (data +:+ pack) = Some (Ok (MkReceivePackRequest commands m), pack)
    ∧ ∀ name, m !! name = if decide (name ∈ capabilities) then Some true else None.
Proof.
  intros Hs Hc Hne Hcap Hw. exists (set_capabilities capabilities ∅).
  split; [|intros name; by rewrite lookup_set_capabilities, lookup_empty].
  unfold push_frames in Hw. rewrite !wire_app in Hw. cbn [wire] in Hw.
  destruct (wire (_ <$> shallows)) as [d1|e] eqn:E1; cbn in Hw; [|done].
  destruct (wire (command_frames commands capabilities)) as [d2|e] eqn:E2; cbn in Hw; [|done].
  injection Hw as <-. rewrite !app_assoc_string, app_nil_l_string. unfold ParseReceivePackRequest.
  destruct (parse_loop_shallows shallows d1 (d2 +:+ FlushPkt +:+ pack) (MkReceivePackRequest [] ∅)
    true _ Hs E1 (Nat.lt_succ_diag_r _)) as (f1 & Hf1 & ->).
  destruct Hc as [|c commands Hc Hcs]; [done|]. cbn [command_frames wire] in E2.
  destruct (pktline_Encode (first_payload c capabilities)) as [line|e] eqn:El; cbn in E2; [|done].
  destruct (wire (_ <$> commands)) as [d3|e] eqn:E3; cbn in E2; [|done]. injection E2 as <-.
  rewrite app_assoc_string in *.
  destruct (parse_loop_line (first_payload c capabilities) line (d3 +:+ FlushPkt +:+ pack)
    (MkReceivePackRequest [] ∅) true f1) as (f2 & Hf2 & ->); [apply app_not_empty|done|done|].
  rewrite parse_first_payload by done. cbn [rp_Commands rp_Capabilities].
  destruct (parse_loop_commands commands d3 (FlushPkt +:+ pack)
    (MkReceivePackRequest ([] ++ [c]) (set_capabilities capabilities ∅)) f2 Hcs E3 Hf2)
    as (f3 & Hf3 & ->).
  by rewrite parse_loop_flush.
Qed.
End stream.

Definition sample_commands : list ReceivePackCommand :=
  [MkReceivePackCommand zero_id twos_id "refs/tags/v1" RefUpdateTagCreate;
   MkReceivePackCommand ones_id zero_id "refs/heads/old" RefUpdateRefDelete].

Lemma pushed_command_sample (c : ReceivePackCommand) : c ∈ sample_commands → pushed_command c.
Proof.
  intros [->|[->|[]%elem_of_nil]%elem_of_cons]%elem_of_cons; unfold pushed_command;
    rewrite <- !isObjectID_spec; by apply (bool_decide_unpack _); vm_compute.
Qed.

Lemma push_roundtrip_witness :
  match wire (PL := framing) (push_frames [ones_id] sample_commands ["report-status"; "ofs-delta"]) with
  | Ok data => ∃ m,
      ParseReceivePackRequest (PL := framing) (data +:+ "PACKDATA")
      = Some (Ok (MkReceivePackRequest sample_commands m), "PACKDATA")
  | Err _ => False
  end.
Proof.
  destruct (wire (PL := framing) _) as [data|e] eqn:Ed; [|by vm_compute in Ed].
  assert (Forall object_id [ones_id]) as H1.
  { apply Forall_singleton, isObjectID_spec. by vm_compute. }
  assert (Forall pushed_command sample_commands) as H2.
  { apply Forall_forall, pushed_command_sample. }
  assert (Forall is_word ["report-status"; "ofs-delta"]) as H3.
  { repeat constructor; by apply (bool_decide_unpack _); vm_compute. }
  destruct (push_roundtrip (L := framing_laws) [ones_id] sample_commands
    ["report-status"; "ofs-delta"] data "PACKDATA" H1 H2 ltac:(done) H3 Ed) as (m & H & _).
  by exists m.
Defined.

(** ** Refs that are not what they seem *)

(** U+00A0 in UTF-8. *)
Definition no_break_space : string := String "194" (String "160" EmptyString).

Lemma fields_no_break_space (w : string) : is_word w → fields (w +:+ no_break_space) = [w].
Proof.
  intros Hw. unfold fields. rewrite segments_app by (right; by vm_compute).
  assert (segments no_break_space = [Segment 160 true no_break_space]) as -> by reflexivity.
  rewrite fields_from_trailing by reflexivity. by apply fields_word.
Qed.

(** A name that ends in a no-break space is a valid ref name, other than the name
    without it, for the parser as for Git. *)
Example no_break_space_valid :
  isValidRefName ("refs/heads/agent/fix" +:+ no_break_space) = true
  ∧ "refs/heads/agent/fix" +:+ no_break_space ≠ "refs/heads/agent/fix".
Proof. split; [by vm_compute|done]. Qed.

(** A command whose ref ends in a no-break space on the wire is accepted as the
    command on the ref without it, another ref: the parser splits the line at Unicode
    spaces, where Git splits it at its two spaces only.  The request that is authorized
    is then not the one in the bytes that are forwarded. *)
Theorem parsed_ref_differs {PL : PktLine} {L : PktLineLaws PL} (c : ReceivePackCommand)
    (data pack : string) :
  pushed_command c →
  wire [Line ((cmd_Old c +:+ " " +:+ cmd_New c +:+ " " +:+ (cmd_Ref c +:+ no_break_space)) +:+ newline);
        Flush] = Ok data →
  cmd_Ref c +:+ no_break_space ≠ cmd_Ref c
  ∧ ParseReceivePackRequest (data +:+ pack) = Some (Ok (MkReceivePackRequest [c] ∅), pack).
Proof.
  intros Hc Hw. split.
  { intros H. apply (f_equal String.length) in H. rewrite length_app_string in H. cbn in H. lia. }
  pose proof Hc as (Ho & Hn & Hl & Hr & Hword & Hk).
  set (c' := MkReceivePackCommand (cmd_Old c) (cmd_New c) (cmd_Ref c +:+ no_break_space) (cmd_Kind c)).
  change (cmd_Old c +:+ " " +:+ cmd_New c +:+ " " +:+ (cmd_Ref c +:+ no_break_space))
    with (command_line c') in Hw.
  cbn [wire] in Hw. destruct (pktline_Encode _) as [line|e] eqn:El; cbn in Hw; [|done].
  injection Hw as <-. rewrite app_nil_r_string, app_assoc_string. unfold ParseReceivePackRequest.
  destruct (parse_loop_line (command_line c' +:+ newline) line (FlushPkt +:+ pack)
    (MkReceivePackRequest [] ∅) true _ ltac:(apply app_not_empty) El (Nat.lt_succ_diag_r _))
    as (fuel & Hf & ->).
  unfold parseCommandPayloadWithCapabilities. rewrite trim_suffix_app.
  rewrite (proj2 (cut_byte_none nul _)).
  - rewrite (command_line_fields c' (cmd_Ref c)) by (by try apply fields_no_break_space).
    unfold c'. cbn [cmd_Old cmd_New]. rewrite parse_pushed_fields by done.
    by rewrite parse_loop_flush.
  - destruct (object_id_word _ Ho) as [_ H1], (object_id_word _ Hn) as [_ H2].
    apply valid_ref_no_nul in Hr. unfold command_line, c'. cbn [cmd_Old cmd_New cmd_Ref].
    repeat apply not_elem_of_string_app; auto using nul_not_space.
    by apply (bool_decide_unpack _); vm_compute.
Qed.

Lemma parsed_ref_differs_witness :
  match wire (PL := framing)
    [Line ((zero_id +:+ " " +:+ twos_id +:+ " " +:+ ("refs/tags/v1" +:+ no_break_space)) +:+ newline);
     Flush] with
  | Ok data =>
    ParseReceivePackRequest (PL := framing) (data +:+ "PACK")
    = Some (Ok (MkReceivePackRequest
                  [MkReceivePackCommand zero_id twos_id "refs/tags/v1" RefUpdateTagCreate] ∅), "PACK")
  | Err _ => False
  end.
Proof.
  destruct (wire (PL := framing) _) as [data|e] eqn:Ed; [|by vm_compute in Ed].
  exact (proj2 (parsed_ref_differs (L := framing_laws)
    (MkReceivePackCommand zero_id twos_id "refs/tags/v1" RefUpdateTagCreate) data "PACK"
    (pushed_command_sample _ ltac:(left)) Ed)).
Defined.
