(* ===== verification/GitRefusal.v ===== *)
(** * Refusals of a push: [git/protocol/refusal.go]

    The receive-pack result that stock Git prints as a remote rejection, plain
    or multiplexed over the side band; then the termination of every loop over
    pkt-lines. *)

From S2P Require Export GitReceivePack.
From Stdlib Require Import Ascii.

Local Open Scope Z_scope.

Record ReceivePackFailure : Type := MkReceivePackFailure {
  fail_Ref : string;
  fail_Reason : string
}.

(** [strings.NewReplacer("\n", " ", "\r", " ").Replace] *)
Fixpoint replace_line_breaks (s : string) : string :=
  match s with
  | EmptyString => EmptyString
  | String c t =>
    String (if Ascii.eqb c "010" || Ascii.eqb c "013" then " "%char else c) (replace_line_breaks t)
  end.

Definition cleanReceivePackReason (reason : string) : string :=
  let reason := replace_line_breaks (trim_space reason) in
  if is_empty reason then "refused" else reason.

(** [receivePackFailureReasons]: the reason of each ref and the first reason. *)
Definition receivePackFailureReasons (failures : list ReceivePackFailure)
  : gmap string string * string :=
  foldl (λ '(reasons, firstReason) '(index, failure),
      let reason := cleanReceivePackReason (fail_Reason failure) in
      (<[fail_Ref failure := reason]> reasons,
       if (index =? 0)%nat then reason else firstReason))
    (∅, "push refused") (zip (seq 0 (length failures)) failures).

Definition receivePackUsesSideBand (capabilities : gmap string bool) : bool :=
  default false (capabilities !! "side-band-64k") || default false (capabilities !! "side-band").

Section refusal.
Context {PL : PktLine}.

Definition maxSideBandDataPayload : Z := MaxPktLinePayload - 1.

(** The loop of [appendReceivePackBandBytes]; [None] when the fuel runs out. *)
Fixpoint append_band (fuel : nat) (dst : string) (band : ascii) (payload : string)
  : option (result error string) :=
  match fuel with
  | O => None
  | S fuel =>
    if is_empty payload then Some (Ok dst)
    else
      let length := Z.to_nat (Z.min (len payload) maxSideBandDataPayload) in
      match AppendPktLine dst (String band (String.substring 0 length payload)) with
      | Err e => Some (Err e)
      | Ok dst => append_band fuel dst band (drop_bytes length payload)
      end
  end.

Definition appendReceivePackBandBytes (dst : string) (band : ascii) (payload : string)
  : option (result error string) :=
  append_band (S (String.length payload)) dst band payload.

Definition appendReceivePackBand (dst : string) (band : ascii) (payload : string)
  : option (result error string) :=
  appendReceivePackBandBytes dst band payload.

(** The status line of a refused command. *)
Definition refusal_line (service : string) (reasons : gmap string string)
    (command : ReceivePackCommand) : string :=
  let reason := default EmptyString (reasons !! cmd_Ref command) in
  let reason :=
    if is_empty reason
    then "push refused by " +:+ service +:+ " because another ref failed" else reason in
  "ng " +:+ cmd_Ref command +:+ " " +:+ service +:+ ": " +:+ reason +:+ newline.

Fixpoint append_refusals (dst service : string) (commands : list ReceivePackCommand)
    (reasons : gmap string string) : result error string :=
  match commands with
  | [] => Ok dst
  | command :: commands =>
    dst ← AppendPktLineString dst (refusal_line service reasons command);
    append_refusals dst service commands reasons
  end.

Definition appendReceivePackFailures (dst service : string) (commands : list ReceivePackCommand)
    (reasons : gmap string string) : result error string :=
  dst ← AppendPktLineString dst ("unpack ok" +:+ newline);
  append_refusals dst service commands reasons.

Definition wrapReceivePackSideBand (service reason status : string) : option (result error string) :=
  match appendReceivePackBand EmptyString "002" (service +:+ ": " +:+ reason +:+ newline) with
  | Some (Ok out) =>
    match appendReceivePackBandBytes out "001" status with
    | Some (Ok out) => Some (Ok (AppendFlushPkt out))
    | r => r
    end
  | r => r
  end.

Definition BuildReceivePackRefusal (service : string) (request : ReceivePackRequest)
    (failures : list ReceivePackFailure) : option (result error string) :=
  let '(reasons, firstReason) := receivePackFailureReasons failures in
  match appendReceivePackFailures EmptyString service (rp_Commands request) reasons with
  | Err e => Some (Err e)
  | Ok status =>
    let status := AppendFlushPkt status in
    if negb (receivePackUsesSideBand (rp_Capabilities request)) then Some (Ok status)
    else wrapReceivePackSideBand service firstReason status
  end.
End refusal.

(** ** Reading a report *)

(** The bytes of one band of a multiplexed stream. *)
Fixpoint demultiplex (band : ascii) (fs : list frame) : string :=
  match fs with
  | Line (String b data) :: fs =>
    if Ascii.eqb b band then data +:+ demultiplex band fs else demultiplex band fs
  | _ :: fs => demultiplex band fs
  | [] => EmptyString
  end.

Section report.
Context {PL : PktLine} {L : PktLineLaws PL}.

(** The status report of a refusal: [unpack ok], then one [ng] line per command. *)
Definition status_frames (service : string) (reasons : gmap string string)
    (commands : list ReceivePackCommand) : list frame :=
  Line ("unpack ok" +:+ newline) :: (Line ∘ refusal_line service reasons <$> commands).

Lemma refusal_line_nonempty (service : string) (reasons : gmap string string)
    (command : ReceivePackCommand) : refusal_line service reasons command ≠ EmptyString.
Proof. done. Qed.

Lemma append_refusals_wire (service : string) (reasons : gmap string string)
    (commands : list ReceivePackCommand) (dst : string) :
  append_refusals dst service commands reasons
  = (data ← wire (Line ∘ refusal_line service reasons <$> commands); Ok (dst +:+ data)).
Proof.
  revert dst. induction commands as [|c commands IH]; intros dst; cbn [append_refusals fmap list_fmap wire].
  - cbn. by rewrite app_nil_r_string.
  - unfold AppendPktLineString, AppendPktLine, compose at 1.
    destruct (pktline_Encode _) as [line|e]; cbn; [|done]. rewrite IH.
    destruct (wire _) as [data|e]; cbn; [|done]. by rewrite app_assoc_string.
Qed.

Lemma appendReceivePackFailures_wire (service : string) (reasons : gmap string string)
    (commands : list ReceivePackCommand) :
  appendReceivePackFailures EmptyString service commands reasons
  = wire (status_frames service reasons commands).
Proof.
  unfold appendReceivePackFailures, AppendPktLineString, AppendPktLine, status_frames. cbn [wire].
  destruct (pktline_Encode _) as [line|e]; cbn; [|done]. rewrite append_refusals_wire.
  destruct (wire _) as [data|e]; cbn; [|done]. by rewrite app_nil_l_string.
Qed.

Lemma drop_shorter (s : string) (n : nat) :
  s ≠ EmptyString → (0 < n)%nat → (String.length (drop_bytes n s) < String.length s)%nat.
Proof. intros Hs Hn. rewrite length_drop_bytes. destruct s; [done|]. cbn [String.length]. lia. Qed.

Lemma demultiplex_app (band : ascii) (fs gs : list frame) :
  demultiplex band (fs ++ gs) = demultiplex band fs +:+ demultiplex band gs.
Proof.
  induction fs as [|[|[|b p]] fs IH]; [by rewrite app_nil_l_string|done|done|].
  cbn [app demultiplex]. rewrite IH. destruct (Ascii.eqb b band); [by rewrite app_assoc_string|done].
Qed.

(** Cutting a payload into side-band packets. *)
Lemma append_band_frames (band : ascii) (payload dst : string) (fuel : nat) :
  (String.length payload < fuel)%nat →
  ∃ fs data, append_band fuel dst band payload = Some (Ok (dst +:+ data))
    ∧ wire fs = Ok data ∧ Forall frame_fits fs
    ∧ demultiplex band fs = payload
    ∧ (∀ band', band' ≠ band → demultiplex band' fs = EmptyString).
Proof.
  revert payload dst. induction fuel as [|fuel IH]; intros payload dst Hf; [lia|].
  cbn [append_band]. destruct (is_empty payload) eqn:Ee.
  { apply is_empty_spec in Ee as ->. exists [], EmptyString. cbn [wire demultiplex].
    rewrite app_nil_r_string. auto. }
  assert (payload ≠ EmptyString) as Hne by (by intros ->).
  pose proof MaxPayloadSize_value as Hmax.
  assert (0 < len payload) as Hpos by (destruct payload; [done|rewrite len_cons; unfold len; lia]).
  set (n := Z.to_nat (Z.min (len payload) maxSideBandDataPayload)).
  assert ((0 < n <= String.length payload)%nat ∧ Z.of_nat n <= MaxPayloadSize - 1) as [Hn Hnmax].
  { unfold n, maxSideBandDataPayload, MaxPktLinePayload, len in *. lia. }
  assert (fits (String band (String.substring 0 n payload))) as Hfit.
  { split; [done|]. rewrite len_cons. unfold len. rewrite length_substring; lia. }
  destruct (encode_fits _ (proj1 Hfit) (proj2 Hfit)) as [line El].
  unfold AppendPktLine. rewrite El.
  destruct (IH (drop_bytes n payload) (dst +:+ line)) as (fs & data & E & Hw & Hfs & Hd & Ho).
  { pose proof (drop_shorter payload n Hne). lia. }
  exists (Line (String band (String.substring 0 n payload)) :: fs), (line +:+ data). split_and!.
  - by rewrite E, app_assoc_string.
  - cbn [wire]. by rewrite El, Hw.
  - by constructor.
  - cbn [demultiplex]. by rewrite Ascii.eqb_refl, Hd, substring_drop.
  - intros band' Hb. cbn [demultiplex]. destruct (Ascii.eqb_spec band band') as [->|_]; [done|auto].
Qed.

(** ** The reasons *)

Definition line_break (c : ascii) : Prop := c = "010"%char ∨ c = "013"%char.

Lemma replace_no_breaks (s : string) :
  Forall (λ c, ¬ line_break c) (list_of_string (replace_line_breaks s)).
Proof.
  induction s as [|c s IH]; [constructor|]. cbn [replace_line_breaks list_of_string].
  constructor; [|done]. unfold line_break.
  destruct (Ascii.eqb_spec c "010") as [_|H1], (Ascii.eqb_spec c "013") as [_|H2]; cbn [orb];
    naive_solver.
Qed.

Lemma cleanReceivePackReason_line (reason : string) :
  cleanReceivePackReason reason ≠ EmptyString
  ∧ Forall (λ c, ¬ line_break c) (list_of_string (cleanReceivePackReason reason)).
Proof.
  unfold cleanReceivePackReason. destruct (is_empty _) eqn:E.
  - split; [done|]. repeat constructor; unfold line_break; naive_solver.
  - split; [by intros Hr; rewrite Hr in E|apply replace_no_breaks].
Qed.

(** The reason of the last failure on a ref. *)
Definition last_reason (failures : list ReceivePackFailure) (ref : string) : option string :=
  cleanReceivePackReason ∘ fail_Reason
    <$> last (filter (λ f, fail_Ref f = ref) failures).

Lemma receivePackFailureReasons_lookup (failures : list ReceivePackFailure) (ref : string) :
  fst (receivePackFailureReasons failures) !! ref = last_reason failures ref.
Proof.
  unfold receivePackFailureReasons, last_reason.
  assert (H : ∀ (start : nat) (m : gmap string string) (reason : string),
    fst (foldl (λ '(reasons, firstReason) '(index, failure),
      let reason := cleanReceivePackReason (fail_Reason failure) in
      (<[fail_Ref failure := reason]> reasons,
       if (index =? 0)%nat then reason else firstReason))
      (m, reason) (zip (seq start (length failures)) failures)) !! ref
    = match last (filter (λ f, fail_Ref f = ref) failures) with
      | Some f => Some (cleanReceivePackReason (fail_Reason f))
      | None => m !! ref
      end).
  { induction failures as [|f failures IH]; intros start m reason; [done|]. cbn [length seq zip zip_with foldl].
    rewrite IH, filter_cons. case_decide as Hf.
    - rewrite last_cons. destruct (last _); [done|]. by rewrite <- Hf, lookup_insert_eq.
    - destruct (last _); [done|]. by rewrite lookup_insert_ne. }
  rewrite H. by destruct (last _).
Qed.
(** ** The report *)

(** The reason and the status line of a refused command, from the failures. *)
Definition refusal_reason (service : string) (failures : list ReceivePackFailure) (ref : string)
  : string :=
  default ("push refused by " +:+ service +:+ " because another ref failed")
    (last_reason failures ref).

Definition ng_line (service : string) (failures : list ReceivePackFailure)
    (command : ReceivePackCommand) : string :=
  "ng " +:+ cmd_Ref command +:+ " " +:+ service +:+ ": "
    +:+ refusal_reason service failures (cmd_Ref command) +:+ newline.

Definition report_frames (service : string) (failures : list ReceivePackFailure)
    (commands : list ReceivePackCommand) : list frame :=
  Line ("unpack ok" +:+ newline) :: (Line ∘ ng_line service failures <$> commands) ++ [Flush].

Lemma refusal_line_ng (service : string) (failures : list ReceivePackFailure)
    (command : ReceivePackCommand) :
  refusal_line service (fst (receivePackFailureReasons failures)) command
  = ng_line service failures command.
Proof.
  unfold refusal_line, ng_line, refusal_reason. rewrite receivePackFailureReasons_lookup.
  destruct (last_reason failures (cmd_Ref command)) as [reason|] eqn:E; [|done]. cbn [from_option id].
  assert (is_empty reason = false) as ->; [|done].
  unfold last_reason in E. destruct (last _) as [f|]; [|done]. injection E as <-.
  destruct (cleanReceivePackReason_line (fail_Reason f)) as [Hne _].
  by destruct (cleanReceivePackReason _).
Qed.

Lemma status_report (service : string) (failures : list ReceivePackFailure)
    (commands : list ReceivePackCommand) :
  status_frames service (fst (receivePackFailureReasons failures)) commands ++ [Flush]
  = report_frames service failures commands.
Proof.
  unfold status_frames, report_frames. cbn [app]. f_equal. f_equal.
  apply list_fmap_ext. intros _ command _. cbn. by rewrite refusal_line_ng.
Qed.

Lemma wire_too_long (fs : list frame) (e : error) :
  wire fs = Err e → ∃ p, Line p ∈ fs ∧ ¬ fits p.
Proof.
  induction fs as [|[|p] fs IH]; cbn [wire]; [done| |].
  - destruct (wire fs) as [d|e'] eqn:E; cbn; [done|]. intros [= ->].
    destruct (IH eq_refl) as (p & Hp & Hf). exists p. split; [by right|done].
  - destruct (decide (p = EmptyString)) as [->|Hne].
    { intros _. exists EmptyString. split; [left|]. by intros []. }
    destruct (decide (len p <= MaxPayloadSize)) as [Hl|Hl].
    + destruct (encode_fits p Hne Hl) as [line ->]. cbn. destruct (wire fs) as [d|e'] eqn:E; cbn; [done|].
      intros [= ->]. destruct (IH eq_refl) as (q & Hq & Hf). exists q. split; [by right|done].
    + intros _. exists p. split; [left|]. by intros [].
Qed.

Lemma refusal_reason_line (service : string) (failures : list ReceivePackFailure) (ref : string) :
  Forall (λ c, ¬ line_break c) (list_of_string service) →
  Forall (λ c, ¬ line_break c) (list_of_string (refusal_reason service failures ref)).
Proof.
  intros Hs. unfold refusal_reason, last_reason. destruct (last _) as [f|]; cbn.
  - apply cleanReceivePackReason_line.
  - rewrite !list_of_string_app. repeat apply Forall_app_2; [|done|];
      repeat constructor; by intros [|].
Qed.

(** C37: A refusal is the report Git expects: [unpack ok], one [ng] line for every command
    of the push in order, with the cleaned reason of the last failure on its ref or the
    stock text, on a single line, and a flush packet; with a side band the band-1 bytes
    are exactly that report, the band-2 bytes the message with the first reason, and no
    packet exceeds the limit.  Building it always returns, and fails only on a status
    line that is too long for a pkt-line. *)
Theorem refusal_report_exact (service : string) (request : ReceivePackRequest)
    (failures : list ReceivePackFailure) :
  (∀ ref, Forall (λ c, ¬ line_break c) (list_of_string service) →
     Forall (λ c, ¬ line_break c) (list_of_string (refusal_reason service failures ref)))
  ∧ match wire (report_frames service failures (rp_Commands request)) with
    | Err e => BuildReceivePackRefusal service request failures = Some (Err e)
        ∧ ∃ command, command ∈ rp_Commands request
            ∧ MaxPayloadSize < len (ng_line service failures command)
    | Ok status =>
      if receivePackUsesSideBand (rp_Capabilities request)
      then ∃ fs out, BuildReceivePackRefusal service request failures = Some (Ok out)
        ∧ wire (fs ++ [Flush]) = Ok out ∧ Forall frame_fits fs
        ∧ demultiplex "001" fs = status
        ∧ demultiplex "002" fs
          = service +:+ ": " +:+ snd (receivePackFailureReasons failures) +:+ newline
      else BuildReceivePackRefusal service request failures = Some (Ok status)
    end.
Proof.
  split; [intros ref; apply refusal_reason_line|].
  pose proof (status_report service failures (rp_Commands request)) as Hreport.
  unfold BuildReceivePackRefusal.
  destruct (receivePackFailureReasons failures) as [reasons firstReason] eqn:Er.
  cbn [fst snd] in *. rewrite <- Hreport, wire_app, appendReceivePackFailures_wire.
  destruct (wire (status_frames service reasons (rp_Commands request))) as [status|e] eqn:Ew; cbn.
  - rewrite app_nil_r_string. unfold AppendFlushPkt.
    destruct (receivePackUsesSideBand (rp_Capabilities request)); cbn [negb]; [|done].
    unfold wrapReceivePackSideBand, appendReceivePackBand, appendReceivePackBandBytes.
    edestruct (append_band_frames "002") as (f2 & d2 & -> & Hw2 & Hf2 & Hd2 & Ho2); [apply Nat.lt_succ_diag_r|].
    edestruct (append_band_frames "001") as (f1 & d1 & -> & Hw1 & Hf1 & Hd1 & Ho1); [apply Nat.lt_succ_diag_r|].
    exists (f2 ++ f1). eexists. split; [reflexivity|]. split_and!.
    + rewrite !wire_app, Hw1, Hw2. cbn. unfold AppendFlushPkt.
      by rewrite app_nil_r_string, app_nil_l_string.
    + by apply Forall_app_2.
    + by rewrite demultiplex_app, Hd1, (Ho2 "001"%char), app_nil_l_string by done.
    + by rewrite demultiplex_app, Hd2, (Ho1 "002"%char), app_nil_r_string by done.
  - split; [done|]. apply wire_too_long in Ew as (p & Hp & Hf).
    unfold status_frames in Hp. apply elem_of_cons in Hp as [[= ->]|Hp].
    { destruct Hf. split; [done|]. rewrite MaxPayloadSize_value. by vm_compute. }
    apply list_elem_of_fmap in Hp as (command & [= ->] & Hc). exists command. split; [done|].
    change reasons with (fst (reasons, firstReason)) in Hf. rewrite <- Er, refusal_line_ng in Hf.
    apply Z.nle_gt. intros Hle. apply Hf. by split.
Qed.
End report.

Definition sample_refusal : ReceivePackRequest :=
  MkReceivePackRequest
    [MkReceivePackCommand zero_id ones_id "refs/tags/v1" RefUpdateTagCreate;
     MkReceivePackCommand ones_id twos_id "refs/heads/main" RefUpdateBranchUpdate]
    {[ "side-band-64k" := true ]}.

Definition sample_failures : list ReceivePackFailure :=
  [MkReceivePackFailure "refs/tags/v1" ("approval required" +:+ newline +:+ "approve and retry")].

Lemma refusal_report_exact_witness :
  match wire (PL := framing) (report_frames "gh-broker" sample_failures (rp_Commands sample_refusal)) with
  | Ok status => ∃ fs out,
      BuildReceivePackRefusal (PL := framing) "gh-broker" sample_refusal sample_failures = Some (Ok out)
      ∧ wire (PL := framing) (fs ++ [Flush]) = Ok out ∧ demultiplex "001" fs = status
  | Err _ => False
  end.
Proof.
  pose proof (refusal_report_exact (L := framing_laws) "gh-broker" sample_refusal sample_failures)
    as [_ H].
  destruct (wire (PL := framing) _) as [status|e] eqn:E; [|by vm_compute in E].
  destruct H as (fs & out & H1 & H2 & _ & H3 & _). by exists fs, out.
Defined.

Example sample_ng_lines :
  ng_line "gh-broker" sample_failures <$> rp_Commands sample_refusal
  = ["ng refs/tags/v1 gh-broker: approval required approve and retry" +:+ newline;
     "ng refs/heads/main gh-broker: push refused by gh-broker because another ref failed" +:+ newline].
Proof. vm_compute. reflexivity. Qed.

(** * The loops over pkt-lines end

    Every round of a loop over pkt-lines consumes bytes, so the fuel of the
    definitions, one more than the length of the input, never runs out, and more
    fuel changes nothing. *)

Section termination.
Context {PL : PktLine} {L : PktLineLaws PL}.

Lemma parse_loop_fuel (fuel fuel' : nat) (r : string) (request : ReceivePackRequest) (first : bool) :
  (String.length r < fuel)%nat → (String.length r < fuel')%nat →
  parse_loop fuel r request first ≠ None
  ∧ parse_loop fuel' r request first = parse_loop fuel r request first.
Proof.
  revert fuel' r request first.
  induction fuel as [|fuel IH]; intros [|fuel'] r request first Hf Hf'; try lia.
  cbn [parse_loop]. destruct (ReadPktLine r) as [[payload|e] r'] eqn:E.
  - apply ReadPktLine_consumes in E as [Hl _].
    destruct (parseCommandPayloadWithCapabilities _ _ _) as [[[c|]|e] caps]; [apply IH; lia..|done].
  - by destruct (errors_Is e ErrFlush || errors_Is e io_EOF).
Qed.

Lemma rewrite_advertisement_fuel (fuel fuel' : nat) (capability : string) (scanner : Scanner)
    (out : string) (rewritten : bool) :
  (String.length (scanner_rest scanner) < fuel)%nat →
  (String.length (scanner_rest scanner) < fuel')%nat →
  rewrite_advertisement fuel capability scanner out rewritten ≠ None
  ∧ rewrite_advertisement fuel' capability scanner out rewritten
    = rewrite_advertisement fuel capability scanner out rewritten.
Proof.
  revert fuel' scanner out rewritten.
  induction fuel as [|fuel IH]; intros [|fuel'] scanner out rewritten Hf Hf'; try lia.
  cbn [rewrite_advertisement]. destruct (Next scanner) as [[[payload flush]|e] scanner'] eqn:E.
  - apply Next_consumes in E. destruct flush; [apply IH; lia|].
    destruct (if rewritten then _ else _) as [payload' rewritten'].
    destruct (AppendPktLine out payload'); [apply IH; lia|done].
  - by destruct (errors_Is e ErrDone).
Qed.

Lemma append_band_fuel (fuel fuel' : nat) (dst : string) (band : Ascii.ascii) (payload : string) :
  (String.length payload < fuel)%nat → (String.length payload < fuel')%nat →
  append_band fuel dst band payload ≠ None
  ∧ append_band fuel' dst band payload = append_band fuel dst band payload.
Proof.
  revert fuel' dst payload.
  induction fuel as [|fuel IH]; intros [|fuel'] dst payload Hf Hf'; try lia.
  cbn [append_band]. destruct (is_empty payload) eqn:E; [done|].
  assert (payload ≠ EmptyString) as Hne by (by intros ->).
  pose proof MaxPayloadSize_value as Hmax.
  destruct (AppendPktLine dst _); [|done].
  pose proof (drop_shorter payload (Z.to_nat (Z.min (len payload) maxSideBandDataPayload)) Hne) as Hd.
  assert (0 < len payload) by (destruct payload; [done|rewrite len_cons; unfold len; lia]).
  unfold maxSideBandDataPayload, MaxPktLinePayload in *. apply IH; lia.
Qed.

(** C38: Parsing a receive-pack request, rewriting an advertisement and cutting a payload
    into side-band packets return for every input, and any fuel beyond the length of
    the input gives the same result. *)
Theorem pktline_loops_terminate (r data capability dst payload : string) (band : Ascii.ascii)
    (fuel : nat) :
  (ParseReceivePackRequest r ≠ None
   ∧ ((String.length r < fuel)%nat →
      parse_loop fuel r (MkReceivePackRequest [] ∅) true = ParseReceivePackRequest r))
  ∧ (RemoveAdvertisementCapability data capability ≠ None
     ∧ ((String.length data < fuel)%nat →
        rewrite_advertisement fuel capability (NewScanner data) EmptyString false
        = RemoveAdvertisementCapability data capability))
  ∧ (appendReceivePackBandBytes dst band payload ≠ None
     ∧ ((String.length payload < fuel)%nat →
        append_band fuel dst band payload = appendReceivePackBandBytes dst band payload)).
Proof.
  pose proof (Nat.lt_succ_diag_r (String.length r)) as Hr.
  pose proof (Nat.lt_succ_diag_r (String.length data)) as Hd.
  pose proof (Nat.lt_succ_diag_r (String.length payload)) as Hp.
  split_and!.
  - by apply (parse_loop_fuel _ _ _ _ _ Hr Hr).
  - intros Hf. by apply (parse_loop_fuel _ _ _ _ _ Hr Hf).
  - by apply (rewrite_advertisement_fuel _ (S (String.length data)) capability (NewScanner data)).
  - intros Hf. by apply (rewrite_advertisement_fuel (S (String.length data)) fuel capability (NewScanner data)).
  - by apply (append_band_fuel _ _ dst band payload Hp Hp).
  - intros Hf. by apply (append_band_fuel _ _ dst band payload Hp Hf).
Qed.
End termination.

Lemma pktline_loops_terminate_witness :
  ParseReceivePackRequest (PL := framing) "0009hell" ≠ None.
Proof.
  exact (proj1 (proj1 (pktline_loops_terminate (L := framing_laws) "0009hell" EmptyString EmptyString
    EmptyString EmptyString "001"%char 0))).
Defined.
