(* ===== verification/GitPack.v ===== *)
(** * Bounded inspection of packs: [git/protocol/pack.go]

    The limits under which a pack is inspected before go-git parses it, and the
    extraction of its commit and tag objects.

    go-git's packfile scanner and parser, its object storage and its hashes are
    a dependency that is not part of the repository: the class [GoGit] has the
    functions that are called.  SHA-1 is [sha1_Sum].  A [context.Context] is the
    answers its [Err] gives, in the order in which it is asked; the reader that
    asks it between reads is inside [NewPackScanner]. *)

From S2P Require Export GoStringFacts Errors.
From Stdlib Require Import Ascii.

Local Open Scope Z_scope.

Definition max_uint64 : Z := 2 ^ 64 - 1.

(** ** Data *)

Record PackLimits : Type := MkPackLimits {
  MaxPackBytes : Z;
  MaxObjects : Z;
  MaxObjectBytes : Z;
  MaxInflatedBytes : Z
}.

(** [plumbing.ObjectType] *)
Inductive ObjectType : Type :=
| InvalidObject
| CommitObject
| TreeObject
| BlobObject
| TagObject
| OFSDeltaObject
| REFDeltaObject.

#[export] Instance ObjectType_eq_dec : EqDecision ObjectType.
Proof. solve_decision. Defined.

Definition IsDelta (t : ObjectType) : bool :=
  bool_decide (t = REFDeltaObject) || bool_decide (t = OFSDeltaObject).

Record PackObject : Type := MkPackObject {
  obj_Type : string;
  obj_Data : string;
  obj_Hash : string
}.

(** The calls of [packfile.Observer]. *)
Inductive ParserEvent (H : Type) : Type :=
| OnHeader (count : Z)
| OnInflatedObjectHeader (typ : ObjectType) (size : Z)
| OnInflatedObjectContent (hash : H)
| OnFooter.
Arguments OnHeader {H} count.
Arguments OnInflatedObjectHeader {H} typ size.
Arguments OnInflatedObjectContent {H} hash.
Arguments OnFooter {H}.

(** go-git, as it is called. *)
Class GoGit : Type := {
  Hash : Type;
  Hash_eq_dec : EqDecision Hash;
  ZeroHash : Hash;
  Hash_String : Hash → string;
  ObjectType_String : ObjectType → string;
  ComputeHash : ObjectType → string → Hash;
  PackScanner : Type;
  NewPackScanner : string → PackScanner;
  (** [Header]: the object count. *)
  Header : PackScanner → result error Z * PackScanner;
  (** [NextObjectHeader]: the type, the declared length and the reference. *)
  NextObjectHeader : PackScanner → result error (ObjectType * Z * Hash) * PackScanner;
  (** [NextObject]: what is written to the writer, and the error. *)
  NextObject : PackScanner → string * option error * PackScanner;
  Checksum : PackScanner → option error;
  (** [memory.Storage]; an encoded object is its size and what its reader yields. *)
  Storage : Type;
  NewStorage : Storage;
  SetEncodedObject : Storage → ObjectType → string → result error Storage;
  EncodedObject : Storage → ObjectType → Hash → result error (Z * result error string);
  (** [NewParserWithStorage] and [Parse]: the calls of the observer that an observer
      without errors sees, the parser's own error, and the storage it fills. *)
  NewParser : Storage → string → option error;
  Parse : Storage → string → list (ParserEvent Hash) * option error * Storage
}.
#[export] Existing Instance Hash_eq_dec.

Section pack.
Context {GG : GoGit}.

Record ObjectHeader : Type := MkObjectHeader {
  header_Type : ObjectType;
  header_Length : Z;
  header_Reference : Hash
}.

Definition object_header (h : ObjectType * Z * Hash) : ObjectHeader :=
  let '(t, length, reference) := h in MkObjectHeader t length reference.

Record packInspection : Type := MkPackInspection {
  inspection_refs : list Hash;
  inspection_inflated : Z
}.

(** ** Sizes *)

Definition addInflatedBytes (total size maximum : Z) : result error Z :=
  refuse ((size <? 0) || (wrap64 (maximum - size) <? total))
    (errorf "packfile: total inflated data exceeds %d bytes" []) ;;;
  Ok (wrap64 (total + size)).

(** The byte at an offset that is in range. *)
Definition byte_at (data : string) (offset : nat) : Z :=
  match String.get offset data with Some c => byte_of c | None => 0 end.

(** The loop of [deltaSize], by the rounds left before [shift >= 63]: the first of
    nine rounds has a shift of 0 and the last of 56. *)
Fixpoint deltaSize_from (rounds : nat) (data : string) (offset : nat) (value maximum : Z)
  : result error (Z * nat) :=
  match rounds with
  | O => Err (errorf "packfile: invalid delta size" [])
  | S rounds' =>
    if (String.length data <=? offset)%nat then Err (errorf "packfile: invalid delta size" [])
    else
      let shift := 63 - 7 * Z.of_nat rounds in
      let current := byte_at data offset in
      let offset := S offset in
      let value := Z.lor value (Z.land (Z.shiftl (Z.land current 127) shift) max_uint64) in
      if max_int64 <? value then Err (errorf "packfile: delta size overflows int64" [])
      else if maximum <? value then Err (errorf "packfile: delta object exceeds %d bytes" [])
      else if Z.land current 128 =? 0 then Ok (value, offset)
      else deltaSize_from rounds' data offset value maximum
  end.

Definition deltaSize (data : string) (offset : nat) (maximum : Z) : result error (Z * nat) :=
  deltaSize_from 9 data offset 0 maximum.

Definition deltaTargetSize (delta : string) (maximum : Z) : result error Z :=
  match deltaSize delta 0 maximum with
  | Err e => Err e
  | Ok (_, next) =>
    match deltaSize delta next maximum with
    | Err e => Err e
    | Ok (target, _) => Ok target
    end
  end.

Definition sizeMismatch (actual expected : Z) : option error :=
  if actual =? expected then None
  else Some (errorf "inflated size %d does not match declared size %d" []).

(** ** Preflight *)

Definition packObjectInflatedBytes (header : ObjectHeader) (delta : string) (limits : PackLimits)
  : result error Z :=
  if negb (IsDelta (header_Type header)) then Ok (header_Length header)
  else
    match deltaTargetSize delta (MaxObjectBytes limits) with
    | Err e => Err e
    | Ok targetSize =>
      addInflatedBytes (header_Length header) targetSize (MaxInflatedBytes limits)
    end.

Definition inflatePackObject (scanner : PackScanner) (header : ObjectHeader)
  : result error string * PackScanner :=
  let '(data, err, scanner) := NextObject scanner in
  let written := len data in
  match err, written =? header_Length header with
  | None, true => (Ok (if IsDelta (header_Type header) then data else EmptyString), scanner)
  | _, _ =>
    (Err (Errorf "packfile: inflate object: %w" []
            (option_list (errors_Join err (sizeMismatch written (header_Length header))))), scanner)
  end.

Definition inspectPackObject (scanner : PackScanner) (limits : PackLimits)
  : result error (Hash * Z) * PackScanner :=
  let '(header, scanner) := NextObjectHeader scanner in
  match header with
  | Err err => (Err (Errorf "packfile: object header: %w" [] [err]), scanner)
  | Ok header =>
    let header := object_header header in
    if (header_Length header <? 0) || (MaxObjectBytes limits <? header_Length header)
    then (Err (errorf "packfile: object exceeds %d bytes" []), scanner)
    else
      let '(delta, scanner) := inflatePackObject scanner header in
      (match delta with
       | Err err => Err err
       | Ok delta =>
         inflated ← packObjectInflatedBytes header delta limits;
         Ok (if bool_decide (header_Type header = REFDeltaObject)
             then header_Reference header else ZeroHash, inflated)
       end, scanner)
  end.

(** [for range count] *)
Fixpoint inspect_loop (count : nat) (scanner : PackScanner) (limits : PackLimits)
    (inspection : packInspection) : result error packInspection * PackScanner :=
  match count with
  | O => (Ok inspection, scanner)
  | S count =>
    let '(r, scanner) := inspectPackObject scanner limits in
    match r with
    | Err err => (Err err, scanner)
    | Ok (ref, inflated) =>
      match addInflatedBytes (inspection_inflated inspection) inflated (MaxInflatedBytes limits) with
      | Err err => (Err err, scanner)
      | Ok total =>
        inspect_loop count scanner limits
          (MkPackInspection
             (if bool_decide (ref = ZeroHash) then inspection_refs inspection
              else inspection_refs inspection ++ [ref]) total)
      end
    end
  end.

Definition inspectPackObjects (scanner : PackScanner) (count : Z) (limits : PackLimits)
  : result error packInspection * PackScanner :=
  inspect_loop (Z.to_nat count) scanner limits (MkPackInspection [] 0).

Definition validatePackLimits (pack : string) (limits : PackLimits) : result error unit :=
  refuse ((MaxPackBytes limits <=? 0) || (MaxObjects limits =? 0) || (MaxObjectBytes limits <=? 0)
          || (MaxInflatedBytes limits <=? 0)) (errorf "packfile: all limits must be positive" []) ;;;
  refuse (MaxPackBytes limits <? len pack) (errorf "packfile: input exceeds %d bytes" []).

Context (sha1_Sum : string → string).

Definition sha1_Size : nat := 20.

Definition validatePackBoundary (pack : string) : result error unit :=
  refuse (String.length pack <? sha1_Size)%nat (errorf "packfile: truncated checksum" []) ;;;
  let checksumAt := (String.length pack - sha1_Size)%nat in
  refuse (negb (String.eqb (sha1_Sum (String.substring 0 checksumAt pack)) (drop_bytes checksumAt pack)))
    (errorf "packfile: checksum mismatch or trailing data" []).

Definition preflightPack (pack : string) (limits : PackLimits) : result error packInspection :=
  validatePackLimits pack limits ;;;
  validatePackBoundary pack ;;;
  let '(count, scanner) := Header (NewPackScanner pack) in
  match count with
  | Err err => Err (Errorf "packfile: header: %w" [] [err])
  | Ok count =>
    refuse (MaxObjects limits <? count) (errorf "packfile: object count exceeds %d" []) ;;;
    match inspectPackObjects scanner count limits with
    | (Err err, _) => Err err
    | (Ok inspection, scanner) =>
      match Checksum scanner with
      | Some err => Err (Errorf "packfile: checksum: %w" [] [err])
      | None => Ok inspection
      end
    end
  end.

(** ** External bases *)

Definition packObjectType (name : string) : result error ObjectType :=
  if String.eqb name (ObjectType_String CommitObject) then Ok CommitObject
  else if String.eqb name (ObjectType_String TreeObject) then Ok TreeObject
  else if String.eqb name (ObjectType_String BlobObject) then Ok BlobObject
  else if String.eqb name (ObjectType_String TagObject) then Ok TagObject
  else Err (errorf "packfile: unsupported external object type %q" [name]).

(** [PackBaseReader] *)
Definition PackBaseReader : Type := string → PackObject * bool * option error.

Definition ComputeObjectHash (objectType data : string) : result error string :=
  match packObjectType objectType with
  | Err err => Err err
  | Ok typ => Ok (Hash_String (ComputeHash typ data))
  end.

(** [uniquePackHashes]: each hash once, in order. *)
Definition uniquePackHashes (refs : list Hash) : list Hash :=
  foldl (λ unique hash, if bool_decide (hash ∈ unique) then unique else unique ++ [hash]) [] refs.

(** [strings.EqualFold] where one side is a hexadecimal hash, for whose letters
    folding is that of ASCII. *)
Definition fold_byte (c : ascii) : Z :=
  let b := byte_of c in if (65 <=? b) && (b <=? 90) then b + 32 else b.

Definition EqualFold (s t : string) : bool :=
  bool_decide (fold_byte <$> list_of_string s = fold_byte <$> list_of_string t).

Definition storeBaseObject (storage : Storage) (expected : Hash) (object : PackObject)
  : result error Storage :=
  typ ← packObjectType (obj_Type object);
  refuse (negb (bool_decide (ComputeHash typ (obj_Data object) = expected))
          || (negb (is_empty (obj_Hash object))
              && negb (EqualFold (obj_Hash object) (Hash_String expected))))
    (errorf "packfile: external base hash mismatch" []) ;;;
  SetEncodedObject storage typ (obj_Data object).

(** [loadPackBase]: whether an object was loaded, its size and the storage. *)
Definition loadPackBase (storage : Storage) (hash : Hash) (limits : PackLimits)
    (readBase : PackBaseReader) : result error (bool * Z * Storage) :=
  let '(object, found, err) := readBase (Hash_String hash) in
  match err, found with
  | Some err, _ => Err err
  | None, false => Ok (false, 0, storage)
  | None, true =>
    refuse (MaxObjectBytes limits <? len (obj_Data object))
      (errorf "packfile: external base exceeds %d bytes" []) ;;;
    storage ← storeBaseObject storage hash object;
    Ok (true, len (obj_Data object), storage)
  end.

Fixpoint load_bases (hashes : list Hash) (storage : Storage) (limits : PackLimits) (inflated : Z)
    (readBase : PackBaseReader) : result error Storage :=
  match hashes with
  | [] => Ok storage
  | hash :: hashes =>
    '(loaded, size, storage) ← loadPackBase storage hash limits readBase;
    inflated ← (if loaded : bool then addInflatedBytes inflated size (MaxInflatedBytes limits)
                else Ok inflated);
    load_bases hashes storage limits inflated readBase
  end.

Definition loadPackBases (storage : Storage) (refs : list Hash) (limits : PackLimits)
    (inflated : Z) (readBase : option PackBaseReader) : result error Storage :=
  match readBase with
  | None => Ok storage
  | Some readBase => load_bases (uniquePackHashes refs) storage limits inflated readBase
  end.

(** ** The observer *)

Record observedObject : Type := MkObservedObject {
  observed_typ : ObjectType;
  observed_hash : Hash
}.

Record objectObserver : Type := MkObjectObserver {
  observer_limits : PackLimits;
  observer_current : ObjectType;
  observer_objects : list observedObject
}.

(** [ctx.Err()] as the result of a call. *)
Definition ctx_result {A} (err : option error) (a : A) : result error A :=
  match err with Some e => Err e | None => Ok a end.

(** One call of the observer, with the answer of its context. *)
Definition observe_event (ctx_Err : option error) (event : ParserEvent Hash) (o : objectObserver)
  : result error objectObserver :=
  match event with
  | OnHeader count =>
    refuse (MaxObjects (observer_limits o) <? count) (errorf "packfile: object count exceeds %d" []) ;;;
    ctx_result ctx_Err o
  | OnInflatedObjectHeader typ size =>
    refuse ((size <? 0) || (MaxObjectBytes (observer_limits o) <? size))
      (errorf "packfile: object exceeds %d bytes" []) ;;;
    ctx_result ctx_Err (MkObjectObserver (observer_limits o) typ (observer_objects o))
  | OnInflatedObjectContent hash =>
    ctx_result ctx_Err
      (if bool_decide (observer_current o = CommitObject) || bool_decide (observer_current o = TagObject)
       then MkObjectObserver (observer_limits o) (observer_current o)
              (observer_objects o ++ [MkObservedObject (observer_current o) hash])
       else o)
  | OnFooter => ctx_result ctx_Err o
  end.

(** The calls in order; the first error ends the parse. *)
Fixpoint observe_events (ctx_Err : nat → option error) (asked : nat)
    (events : list (ParserEvent Hash)) (o : objectObserver) : result error objectObserver :=
  match events with
  | [] => Ok o
  | event :: events =>
    o ← observe_event (ctx_Err asked) event o;
    observe_events ctx_Err (S asked) events o
  end.

(** ** Extraction *)

(** The loop of [collectPackObjects]. *)
Fixpoint collect_from (storage : Storage) (seen : list Hash) (observed : list observedObject)
  : result error (list PackObject) :=
  match observed with
  | [] => Ok []
  | item :: observed =>
    if bool_decide (observed_hash item ∈ seen) then collect_from storage seen observed
    else
      '(size, content) ← EncodedObject storage (observed_typ item) (observed_hash item);
      data ← content;
      let data := String.substring 0 (Z.to_nat (size + 1)) data in
      refuse (negb (len data =? size)) (errorf "packfile: extracted object size mismatch" []) ;;;
      objects ← collect_from storage (observed_hash item :: seen) observed;
      Ok (MkPackObject (ObjectType_String (observed_typ item)) data
            (Hash_String (observed_hash item)) :: objects)
  end.

Definition collectPackObjects (storage : Storage) (observed : list observedObject)
  : result error (list PackObject) :=
  collect_from storage [] observed.

(** [ExtractCommitAndTagObjects] *)
Definition ExtractCommitAndTagObjects (ctx_Err : nat → option error) (pack : string)
    (limits : PackLimits) (readBase : option PackBaseReader) : result error (list PackObject) :=
  if is_empty pack then Ok []
  else
    inspection ← preflightPack pack limits;
    storage ← loadPackBases NewStorage (inspection_refs inspection) limits
                (inspection_inflated inspection) readBase;
    match NewParser storage pack with
    | Some err => Err err
    | None =>
      let '(events, parse_err, storage) := Parse storage pack in
      match observe_events ctx_Err 0 events (MkObjectObserver limits InvalidObject []) with
      | Err err => Err (Errorf "packfile: parse: %w" [] [err])
      | Ok observer =>
        match parse_err with
        | Some err => Err (Errorf "packfile: parse: %w" [] [err])
        | None => collectPackObjects storage (observer_objects observer)
        end
      end
    end.
End pack.
