(* ===== verification/GitPackFacts.v ===== *)
(** * The bounds of a pack inspection

    Delta sizes are read exactly, and the data a pack and its external bases
    inflate to is counted without wrapping around and within the limits. *)

From S2P Require Export GitPack.
From Stdlib Require Import Ascii.

Local Open Scope Z_scope.

(** ** Delta sizes *)

(** The number that a little-endian sequence of 7-bit digits denotes. *)
Fixpoint delta_value (digits : list Z) : Z :=
  match digits with [] => 0 | b :: digits => b mod 128 + 128 * delta_value digits end.

(** All digits but the last have their high bit set. *)
Fixpoint delta_digits (digits : list Z) : Prop :=
  match digits with
  | [] => False
  | [b] => b < 128
  | b :: digits => 128 <= b ∧ delta_digits digits
  end.

(** The bytes of a string from an offset. *)
Definition bytes_at (data : string) (offset n : nat) : list Z :=
  byte_at data <$> seq offset n.

Lemma byte_at_range (data : string) (offset : nat) : 0 <= byte_at data offset < 256.
Proof. unfold byte_at. destruct (String.get offset data); [apply byte_of_range|lia]. Qed.

Lemma delta_value_nonneg (digits : list Z) : 0 <= delta_value digits.
Proof. induction digits as [|b digits IH]; cbn; [lia|]. pose proof (Z.mod_pos_bound b 128). lia. Qed.

Lemma high_bit (b : Z) : 0 <= b < 256 → (Z.land b 128 =? 0) = (b <? 128).
Proof.
  intros Hb. apply eqb_prop. revert b Hb.
  apply (check_below 256 (λ b, Bool.eqb (Z.land b 128 =? 0) (b <? 128))). by vm_compute.
Qed.

(** One round adds a digit above the bits that are already there. *)
Lemma delta_round (value b shift : Z) :
  0 <= shift <= 56 → 0 <= value < 2 ^ shift → 0 <= b < 256 →
  Z.lor value (Z.land (Z.shiftl (Z.land b 127) shift) max_uint64) = value + b mod 128 * 2 ^ shift
  ∧ 0 <= value + b mod 128 * 2 ^ shift < 2 ^ (shift + 7).
Proof.
  intros Hs Hv Hb. change 127 with (2 ^ 7 - 1). rewrite land_mod by lia.
  change (2 ^ 7) with 128. pose proof (Z.mod_pos_bound b 128 ltac:(lia)) as Hm.
  rewrite shiftl_mul by lia. unfold max_uint64. rewrite land_mod by lia.
  assert (0 < 2 ^ shift <= 2 ^ 56) as Hp.
  { split; [apply Z.pow_pos_nonneg; lia|apply Z.pow_le_mono_r; lia]. }
  rewrite Z.mod_small by nia. rewrite Z.pow_add_r by lia. change (2 ^ 7) with 128.
  rewrite <- (shiftl_mul (b mod 128)), Z.lor_comm, lor_shiftl_add by lia.
  rewrite shiftl_mul by lia. nia.
Qed.

Lemma bytes_at_cons (data : string) (offset n : nat) :
  bytes_at data offset (S n) = byte_at data offset :: bytes_at data (S offset) n.
Proof. reflexivity. Qed.

Lemma delta_digits_cons (b : Z) (digits : list Z) :
  delta_digits (b :: digits) ↔ (digits = [] ∧ b < 128) ∨ (128 <= b ∧ delta_digits digits).
Proof. destruct digits; cbn; naive_solver. Qed.

(** The numbers [deltaSize_from] accepts. *)
Definition reads_number (rounds : nat) (data : string) (offset : nat) (value maximum v : Z)
    (next : nat) : Prop :=
  ∃ k, (1 <= k <= rounds)%nat ∧ next = (offset + k)%nat ∧ (next <= String.length data)%nat
    ∧ delta_digits (bytes_at data offset k)
    ∧ v = value + 2 ^ (63 - 7 * Z.of_nat rounds) * delta_value (bytes_at data offset k)
    ∧ v <= maximum.

Lemma deltaSize_from_exact (rounds : nat) (data : string) (offset : nat) (value maximum v : Z)
    (next : nat) :
  (rounds <= 9)%nat → 0 <= value < 2 ^ (63 - 7 * Z.of_nat rounds) → maximum <= max_int64 →
  deltaSize_from rounds data offset value maximum = Ok (v, next)
  ↔ reads_number rounds data offset value maximum v next.
Proof.
  revert offset value. induction rounds as [|rounds IH]; intros offset value Hr Hv Hm.
  { cbn. split; [done|]. intros (k & Hk & _). lia. }
  cbn [deltaSize_from]. destruct (Nat.leb_spec (String.length data) offset) as [Hl|Hl].
  { split; [done|]. intros (k & Hk & -> & Hle & _). lia. }
  set (shift := 63 - 7 * Z.of_nat (S rounds)) in *.
  pose proof (byte_at_range data offset) as Hb. set (b := byte_at data offset) in *.
  destruct (delta_round value b shift ltac:(lia) Hv Hb) as [-> Hv'].
  set (value' := value + b mod 128 * 2 ^ shift) in *.
  assert (2 ^ (shift + 7) <= 2 ^ 63) as Hpow by (apply Z.pow_le_mono_r; lia).
  assert (max_int64 <? value' = false) as -> by (unfold max_int64; apply Z.ltb_ge; lia).
  assert (63 - 7 * Z.of_nat rounds = shift + 7) as Hshift by lia.
  assert (0 < 2 ^ shift) as Hp by (apply Z.pow_pos_nonneg; lia).
  assert (Hstep : ∀ k w, w = value + 2 ^ shift * delta_value (bytes_at data offset (S k))
    ↔ w = value' + 2 ^ (shift + 7) * delta_value (bytes_at data (S offset) k)).
  { intros k w. rewrite bytes_at_cons. cbn [delta_value]. fold b. unfold value'.
    rewrite Z.pow_add_r by lia. change (2 ^ 7) with 128.
    split; intros ->; ring. }
  rewrite high_bit by done.
  destruct (Z.ltb_spec maximum value') as [Hmax|Hmax].
  { split; [done|]. intros (k & Hk & -> & Hle & Hd & Hval & Hvm). exfalso.
    destruct k as [|k]; [lia|]. fold shift in Hval. apply Hstep in Hval.
    pose proof (delta_value_nonneg (bytes_at data (S offset) k)).
    assert (0 < 2 ^ (shift + 7)) by (apply Z.pow_pos_nonneg; lia). nia. }
  destruct (Z.ltb_spec b 128) as [Hlow|Hhigh].
  - split.
    + intros [= <- <-]. exists 1%nat. fold shift. split_and!; try lia; [exact Hlow|].
      apply Hstep. cbn. lia.
    + intros (k & Hk & -> & Hle & Hd & Hval & Hvm). destruct k as [|k]; [lia|].
      rewrite bytes_at_cons in Hd. apply delta_digits_cons in Hd as [[Hk0 _]|[? _]]; [|lia].
      destruct k; [|done]. fold shift in Hval. apply Hstep in Hval. cbn in Hval.
      f_equal. f_equal; lia.
  - rewrite IH by (rewrite ?Hshift; lia). unfold reads_number. rewrite Hshift. fold shift. split.
    + intros (k & Hk & -> & Hle & Hd & Hval & Hvm). exists (S k).
      split_and!; try lia; [|by apply Hstep].
      rewrite bytes_at_cons. apply delta_digits_cons. right. done.
    + intros (k & Hk & -> & Hle & Hd & Hval & Hvm). destruct k as [|k]; [lia|].
      rewrite bytes_at_cons in Hd. apply delta_digits_cons in Hd as [[_ ?]|[_ Hd]]; [lia|].
      exists k. split_and!; try lia; [|done|by apply Hstep].
      destruct k; [done|lia].
Qed.

(** Reading a delta size succeeds exactly on a complete number of one to nine 7-bit
    digits that lie inside the delta and denote a value within the maximum, and yields
    that value and the offset after it; no digit is lost to the width of the integers. *)
Theorem deltaSize_exact (data : string) (offset : nat) (maximum v : Z) (next : nat) :
  maximum <= max_int64 →
  deltaSize data offset maximum = Ok (v, next) ↔
  ∃ k, (1 <= k <= 9)%nat ∧ next = (offset + k)%nat ∧ (next <= String.length data)%nat
    ∧ delta_digits (bytes_at data offset k) ∧ v = delta_value (bytes_at data offset k)
    ∧ v <= maximum.
Proof.
  intros Hm. unfold deltaSize. rewrite deltaSize_from_exact by (cbn; lia).
  unfold reads_number. change (63 - 7 * Z.of_nat 9) with 0. change (2 ^ 0) with 1.
  split; intros (k & Hk & Hn & Hl & Hd & Hv & Hmax); exists k; split_and!; lia || done.
Qed.

Lemma deltaSize_exact_witness :
  deltaSize (String "229" (String "142" (String "038" EmptyString))) 0 1000000 = Ok (624485, 3%nat).
Proof.
  apply (deltaSize_exact _ 0 1000000 624485 3); [by vm_compute|].
  exists 3%nat. split_and!; [lia|lia|done|cbn; lia|vm_compute; intuition congruence|reflexivity|lia].
Defined.

(** ** Counting *)

Lemma addInflatedBytes_ok (total size maximum n : Z) :
  0 <= total → 0 <= maximum <= max_int64 → - 2 ^ 63 <= size <= max_int64 →
  addInflatedBytes total size maximum = Ok n ↔ 0 <= size ∧ total + size <= maximum ∧ n = total + size.
Proof.
  intros Ht Hm Hs. unfold max_int64 in *. unfold addInflatedBytes.
  rewrite seq_ok, refuse_ok, orb_false_iff, !Z.ltb_ge. split.
  - intros [[H1 H2] [= <-]]. rewrite wrap64_small in H2 by lia. rewrite wrap64_small by lia. lia.
  - intros (H1 & H2 & ->). rewrite !wrap64_small by lia. split; [lia|done].
Qed.

Lemma deltaSize_range (data : string) (offset : nat) (maximum v : Z) (next : nat) :
  maximum <= max_int64 → deltaSize data offset maximum = Ok (v, next) → 0 <= v <= maximum.
Proof.
  intros Hm. unfold deltaSize. rewrite deltaSize_from_exact by (cbn; lia).
  intros (k & _ & _ & _ & _ & -> & Hv). split; [|done].
  pose proof (delta_value_nonneg (bytes_at data offset k)).
  change (63 - 7 * Z.of_nat 9) with 0. change (2 ^ 0) with 1. lia.
Qed.

Lemma deltaTargetSize_range (delta : string) (maximum t : Z) :
  maximum <= max_int64 → deltaTargetSize delta maximum = Ok t → 0 <= t <= maximum.
Proof.
  intros Hm. unfold deltaTargetSize. destruct (deltaSize delta 0 maximum) as [[v next]|e]; [|done].
  destruct (deltaSize delta next maximum) as [[t' n]|e] eqn:E; [|done]. intros [= <-].
  by apply deltaSize_range in E.
Qed.

(** Limits of their machine types. *)
Definition typed_limits (limits : PackLimits) : Prop :=
  MaxObjectBytes limits <= max_int64 ∧ MaxInflatedBytes limits <= max_int64.

Section inspection.
Context {GG : GoGit}.

(** The objects a scanner yields: their headers and their inflated bytes. *)
Inductive inspected : PackScanner → list (ObjectHeader * string) → PackScanner → Prop :=
| inspected_none (s : PackScanner) : inspected s [] s
| inspected_object (s s1 s2 s3 : PackScanner) (h : ObjectType * Z * Hash) (data : string)
    (objects : list (ObjectHeader * string)) :
    NextObjectHeader s = (Ok h, s1) → NextObject s1 = (data, None, s2) →
    inspected s2 objects s3 → inspected s ((object_header h, data) :: objects) s3.

(** What an object inflates to: its bytes and, for a delta, the object it makes. *)
Definition inflated_size (limits : PackLimits) (o : ObjectHeader * string) : Z :=
  len (snd o)
  + (if IsDelta (header_Type (fst o))
     then match deltaTargetSize (snd o) (MaxObjectBytes limits) with Ok t => t | Err _ => 0 end
     else 0).

Definition bounded_object (limits : PackLimits) (o : ObjectHeader * string) : Prop :=
  header_Length (fst o) = len (snd o) ∧ len (snd o) <= MaxObjectBytes limits
  ∧ (IsDelta (header_Type (fst o)) = true →
     ∃ t, deltaTargetSize (snd o) (MaxObjectBytes limits) = Ok t ∧ 0 <= t <= MaxObjectBytes limits).

Definition total_size (limits : PackLimits) (objects : list (ObjectHeader * string)) : Z :=
  foldr (λ o total, inflated_size limits o + total) 0 objects.

(** The bases that the objects refer to by hash. *)
Definition base_of (o : ObjectHeader * string) : list Hash :=
  if bool_decide (header_Type (fst o) = REFDeltaObject)
     && negb (bool_decide (header_Reference (fst o) = ZeroHash))
  then [header_Reference (fst o)] else [].

Lemma inspectPackObject_ok (s s' : PackScanner) (limits : PackLimits) (ref : Hash) (inflated : Z) :
  typed_limits limits → 0 < MaxInflatedBytes limits →
  inspectPackObject s limits = (Ok (ref, inflated), s') →
  ∃ h data s1, NextObjectHeader s = (Ok h, s1) ∧ NextObject s1 = (data, None, s')
    ∧ bounded_object limits (object_header h, data)
    ∧ inflated = inflated_size limits (object_header h, data) ∧ 0 <= inflated <= max_int64
    ∧ (if bool_decide (ref = ZeroHash) then [] else [ref]) = base_of (object_header h, data).
Proof.
  intros [Hobj Hinf] Hpos. unfold inspectPackObject.
  destruct (NextObjectHeader s) as [[h|e] s1] eqn:Eh; [|done].
  destruct ((header_Length (object_header h) <? 0) || _) eqn:El; [done|].
  apply orb_false_iff in El as [H0%Z.ltb_ge Hmax%Z.ltb_ge].
  unfold inflatePackObject. destruct (NextObject s1) as [[data err] s2] eqn:Eo.
  destruct err as [err|]; [done|].
  destruct (Z.eqb_spec (len data) (header_Length (object_header h))) as [Hl|Hl]; [|done].
  cbn [fst snd]. set (header := object_header h) in *.
  destruct (packObjectInflatedBytes header _ limits) as [n|e] eqn:En; cbn; [|done].
  intros [= <- <- <-]. exists h, data, s1. fold header.
  assert (bounded_object limits (header, data) ∧ n = inflated_size limits (header, data)
    ∧ 0 <= n <= max_int64) as (Hb & Hn & Hr).
  { unfold packObjectInflatedBytes in En. unfold bounded_object, inflated_size. cbn [fst snd].
    destruct (IsDelta (header_Type header)) eqn:Ed; cbn [negb] in En.
    - destruct (deltaTargetSize data (MaxObjectBytes limits)) as [t|e] eqn:Et; [|done].
      pose proof (deltaTargetSize_range data _ t Hobj Et) as Ht.
      apply addInflatedBytes_ok in En as (H1 & H2 & ->); [|lia..|unfold max_int64 in *; lia].
      split_and!; try lia. intros _. by exists t.
    - injection En as <-. split_and!; try lia. }
  split_and!; try done; try lia.
  unfold base_of. cbn [fst]. destruct (bool_decide (header_Type header = REFDeltaObject)) eqn:Er; cbn [andb].
  - by destruct (bool_decide (header_Reference header = ZeroHash)).
  - by rewrite bool_decide_true.
Qed.

Lemma inspect_loop_ok (count : nat) (s s' : PackScanner) (limits : PackLimits)
    (inspection inspection' : packInspection) :
  typed_limits limits → 0 < MaxInflatedBytes limits →
  0 <= inspection_inflated inspection <= MaxInflatedBytes limits →
  inspect_loop count s limits inspection = (Ok inspection', s') →
  ∃ objects, inspected s objects s' ∧ length objects = count
    ∧ Forall (bounded_object limits) objects
    ∧ inspection_inflated inspection' = inspection_inflated inspection + total_size limits objects
    ∧ 0 <= inspection_inflated inspection' <= MaxInflatedBytes limits
    ∧ inspection_refs inspection' = inspection_refs inspection ++ concat (base_of <$> objects).
Proof.
  intros Hty Hpos. revert s inspection. induction count as [|count IH]; intros s inspection Hi; cbn [inspect_loop].
  { intros [= <- <-]. exists []. cbn. rewrite app_nil_r. split_and!; try done; try lia. constructor. }
  destruct (inspectPackObject s limits) as [[[ref inflated]|e] s1] eqn:E; [|done].
  apply inspectPackObject_ok in E as (h & data & s0 & Hh & Hd & Hb & Hn & Hr & Hbase); [|done..].
  destruct (addInflatedBytes _ _ _) as [total|e] eqn:Et; [|done].
  apply addInflatedBytes_ok in Et as (H1 & H2 & ->);
    [|lia|unfold typed_limits in *; lia|unfold max_int64 in *; lia].
  intros Hloop. apply IH in Hloop as (objects & Ho & Hlen & Hf & Htot & Hle & Hrefs);
    [|cbn [inspection_inflated]; lia].
  cbn [inspection_inflated inspection_refs] in *.
  exists ((object_header h, data) :: objects). split_and!; try lia.
  - by eapply inspected_object.
  - cbn. by rewrite Hlen.
  - by constructor.
  - cbn [total_size foldr]. fold (total_size limits objects). lia.
  - rewrite Hrefs. cbn [fmap list_fmap concat]. rewrite <- Hbase, app_assoc. f_equal.
    destruct (bool_decide (ref = ZeroHash)); [by rewrite app_nil_r|done].
Qed.

(** ** External bases *)

(** What the reader yields for a base. *)
Definition base_size (readBase : PackBaseReader) (hash : Hash) : Z :=
  match readBase (Hash_String hash) with
  | (object, true, None) => len (obj_Data object)
  | _ => 0
  end.

Definition bases_size (readBase : PackBaseReader) (hashes : list Hash) : Z :=
  foldr (λ hash total, base_size readBase hash + total) 0 hashes.

(** A base that was loaded is the object of its hash, and within the limits. *)
Definition verified_base (limits : PackLimits) (readBase : PackBaseReader) (hash : Hash) : Prop :=
  match readBase (Hash_String hash) with
  | (object, true, None) =>
    len (obj_Data object) <= MaxObjectBytes limits
    ∧ ∃ t, packObjectType (obj_Type object) = Ok t ∧ ComputeHash t (obj_Data object) = hash
  | (_, _, None) => True
  | _ => False
  end.

Lemma loadPackBase_ok (storage storage' : Storage) (hash : Hash) (limits : PackLimits)
    (readBase : PackBaseReader) (loaded : bool) (size : Z) :
  loadPackBase storage hash limits readBase = Ok (loaded, size, storage') →
  verified_base limits readBase hash ∧ size = base_size readBase hash
  ∧ (loaded = false → size = 0).
Proof.
  unfold loadPackBase, verified_base, base_size.
  destruct (readBase (Hash_String hash)) as [[object found] err].
  destruct err as [err|]; [done|]. destruct found; [|by intros [= <- <- _]].
  rewrite seq_ok, refuse_ok, Z.ltb_ge. intros [Hl H].
  apply bind_ok_iff in H as (st & Hst & [= <- <- _]).
  unfold storeBaseObject in Hst. apply bind_ok_iff in Hst as (t & Ht & Hst).
  rewrite seq_ok, refuse_ok, orb_false_iff, negb_false_iff in Hst. destruct Hst as [[Hc _] _].
  apply bool_decide_eq_true in Hc. split_and!; try done. by exists t.
Qed.

Lemma load_bases_ok (hashes : list Hash) (storage storage' : Storage) (limits : PackLimits)
    (inflated : Z) (readBase : PackBaseReader) :
  typed_limits limits → 0 <= inflated <= MaxInflatedBytes limits →
  load_bases hashes storage limits inflated readBase = Ok storage' →
  Forall (verified_base limits readBase) hashes
  ∧ inflated + bases_size readBase hashes <= MaxInflatedBytes limits.
Proof.
  intros [Hobj Hinf]. revert storage inflated.
  induction hashes as [|hash hashes IH]; intros storage inflated Hi; cbn [load_bases].
  { intros _. cbn. split; [constructor|lia]. }
  rewrite bind_ok_iff. intros ([[loaded size] st] & Hl & H).
  apply loadPackBase_ok in Hl as (Hv & Hs & H0). apply bind_ok_iff in H as (inflated' & Ha & H).
  assert (0 <= size <= max_int64) as Hsize.
  { rewrite Hs. unfold verified_base, base_size in *. destruct (readBase _) as [[object []] [e|]];
      try (unfold max_int64; lia). pose proof (len_nonneg (obj_Data object)). lia. }
  assert (inflated' = inflated + size ∧ inflated' <= MaxInflatedBytes limits) as [-> Hle].
  { destruct loaded.
    - apply addInflatedBytes_ok in Ha as (_ & H2 & ->); [lia|lia|lia|unfold max_int64 in *; lia].
    - injection Ha as <-. rewrite H0 by done. lia. }
  apply IH in H as [Hf Hb]; [|lia]. split; [by constructor|].
  cbn [bases_size foldr]. fold (bases_size readBase hashes). lia.
Qed.

(** ** Extraction *)

Context (sha1_Sum : string → string).

(** The limits and the trailer that a pack must satisfy. *)
Definition framed_pack (pack : string) (limits : PackLimits) : Prop :=
  0 < MaxPackBytes limits ∧ 0 < MaxObjectBytes limits ∧ 0 < MaxInflatedBytes limits
  ∧ len pack <= MaxPackBytes limits
  ∧ ∃ body, pack = body +:+ sha1_Sum body.

Lemma preflightPack_ok (pack : string) (limits : PackLimits) (inspection : packInspection) :
  typed_limits limits → preflightPack sha1_Sum pack limits = Ok inspection →
  framed_pack pack limits
  ∧ ∃ count scanner objects scanner',
      Header (NewPackScanner pack) = (Ok count, scanner) ∧ count <= MaxObjects limits
      ∧ inspected scanner objects scanner' ∧ Checksum scanner' = None
      ∧ length objects = Z.to_nat count ∧ Forall (bounded_object limits) objects
      ∧ inspection_inflated inspection = total_size limits objects
      ∧ 0 <= inspection_inflated inspection <= MaxInflatedBytes limits
      ∧ inspection_refs inspection = concat (base_of <$> objects).
Proof.
  intros Hty. unfold preflightPack. rewrite !seq_ok. intros (Hlim & Hbound & H).
  unfold validatePackLimits in Hlim. rewrite seq_ok, !refuse_ok, !orb_false_iff, !Z.leb_gt, Z.ltb_ge in Hlim.
  destruct Hlim as [[[[H1 _] H2] H3] H4].
  unfold validatePackBoundary in Hbound. rewrite seq_ok, !refuse_ok, negb_false_iff, String.eqb_eq in Hbound.
  destruct Hbound as [_ Hsum]. split.
  { split_and!; try done. eexists. rewrite Hsum. by rewrite substring_drop. }
  destruct (Header (NewPackScanner pack)) as [[count|e] scanner]; [|done].
  rewrite seq_ok, refuse_ok, Z.ltb_ge in H. destruct H as [Hc H].
  destruct (inspectPackObjects scanner count limits) as [[insp|e] scanner'] eqn:Ei; [|done].
  destruct (Checksum scanner') eqn:Ek; [done|]. injection H as <-.
  apply inspect_loop_ok in Ei as (objects & Ho & Hlen & Hf & Htot & Hle & Hrefs);
    [|done|done|cbn [inspection_inflated]; lia].
  exists count, scanner, objects, scanner'. split_and!; try done; try lia.
Qed.

Lemma observe_events_types (ctx_Err : nat → option error) (asked : nat)
    (events : list (ParserEvent Hash)) (o o' : objectObserver) :
  Forall (λ x, observed_typ x = CommitObject ∨ observed_typ x = TagObject) (observer_objects o) →
  observe_events ctx_Err asked events o = Ok o' →
  Forall (λ x, observed_typ x = CommitObject ∨ observed_typ x = TagObject) (observer_objects o').
Proof.
  revert asked o. induction events as [|event events IH]; intros asked o Ho; cbn [observe_events].
  { by intros [= <-]. }
  rewrite bind_ok_iff. intros (o1 & H1 & H). revert H. apply IH. clear IH.
  assert (Hctx : ∀ x : objectObserver, ctx_result (ctx_Err asked) x = Ok o1 → x = o1).
  { intros x. unfold ctx_result. destruct (ctx_Err asked); [done|]. by intros [= <-]. }
  destruct event as [count|typ size|hash|]; cbn [observe_event] in H1;
    rewrite ?seq_ok in H1; [apply proj2 in H1|apply proj2 in H1| |]; apply Hctx in H1; subst o1;
    try done.
  destruct (bool_decide _ || bool_decide _) eqn:E; [|done]. cbn [observer_objects].
  apply Forall_app_2; [done|]. apply Forall_singleton. cbn [observed_typ].
  apply orb_true_iff in E as [E|E]; apply bool_decide_eq_true in E; auto.
Qed.

Lemma collect_from_types (storage : Storage) (seen : list Hash) (observed : list observedObject)
    (objects : list PackObject) (P : ObjectType → Prop) :
  Forall (λ x, P (observed_typ x)) observed → collect_from storage seen observed = Ok objects →
  Forall (λ o, ∃ t, P t ∧ obj_Type o = ObjectType_String t) objects.
Proof.
  intros Ho. revert seen objects.
  induction Ho as [|x observed Hx _ IH]; intros seen objects; cbn [collect_from].
  { intros [= <-]. constructor. }
  destruct (bool_decide _); [apply IH|].
  rewrite bind_ok_iff. intros ([size content] & _ & H). apply bind_ok_iff in H as (data & _ & H).
  rewrite seq_ok in H. destruct H as [_ H]. apply bind_ok_iff in H as (rest & Hr & [= <-]).
  constructor; [by exists (observed_typ x)|]. by apply (IH _ _ Hr).
Qed.

(** C23: A pack whose objects are extracted is at most as large as allowed and ends in the
    SHA-1 of its bytes; its scanner has delivered all of its objects, no more than
    allowed, each of exactly its declared size and, deltas included, within the object
    limit; and the objects, what the deltas expand to and the external bases, each the
    object of its hash, together inflate to no more than the limit, without the count
    ever wrapping around.  Only commits and tags are extracted. *)
Theorem extraction_bounded (ctx_Err : nat → option error) (pack : string) (limits : PackLimits)
    (readBase : PackBaseReader) (extracted : list PackObject) :
  typed_limits limits → pack ≠ EmptyString →
  ExtractCommitAndTagObjects sha1_Sum ctx_Err pack limits (Some readBase) = Ok extracted →
  framed_pack pack limits
  ∧ (∃ count scanner objects scanner',
      Header (NewPackScanner pack) = (Ok count, scanner) ∧ count <= MaxObjects limits
      ∧ inspected scanner objects scanner' ∧ length objects = Z.to_nat count
      ∧ Forall (bounded_object limits) objects
      ∧ let bases := uniquePackHashes (concat (base_of <$> objects)) in
        Forall (verified_base limits readBase) bases
        ∧ total_size limits objects + bases_size readBase bases <= MaxInflatedBytes limits)
  ∧ Forall (λ o, ∃ t, (t = CommitObject ∨ t = TagObject) ∧ obj_Type o = ObjectType_String t) extracted.
Proof.
  intros Hty Hne. unfold ExtractCommitAndTagObjects.
  destruct (is_empty pack) eqn:E; [by apply is_empty_spec in E|]. rewrite bind_ok_iff.
  intros (inspection & Hpre & H). apply bind_ok_iff in H as (storage & Hbases & H).
  apply preflightPack_ok in Hpre as
    (Hfr & count & scanner & objects & scanner' & Hh & Hc & Hins & _ & Hlen & Hf & Htot & Hle & Hrefs);
    [|done].
  apply load_bases_ok in Hbases as [Hv Hsum]; [|done|lia].
  split; [done|]. split.
  { exists count, scanner, objects, scanner'. rewrite <- Hrefs, <- Htot. done. }
  destruct (NewParser storage pack); [done|].
  destruct (Parse storage pack) as [[events perr] storage'].
  destruct (observe_events _ _ _ _) as [o|e] eqn:Eo; [|done]. destruct perr; [done|].
  revert H. apply (collect_from_types storage' [] (observer_objects o) extracted
    (λ t, t = CommitObject ∨ t = TagObject)).
  eapply observe_events_types; [|exact Eo]. constructor.
Qed.
End inspection.

(** A pack of one commit, as go-git would report it. *)
Definition sample_git : GoGit := {|
  Hash := string;
  ZeroHash := EmptyString;
  Hash_String h := h;
  ObjectType_String t := match t with CommitObject => "commit" | TagObject => "tag" | _ => "other" end;
  ComputeHash _ data := data;
  PackScanner := nat;
  NewPackScanner _ := 0%nat;
  Header s := (Ok 1, s);
  NextObjectHeader s := (Ok (CommitObject, 6, EmptyString), S s);
  NextObject s := ("author", None, S s);
  Checksum _ := None;
  Storage := list string;
  NewStorage := [];
  SetEncodedObject s _ data := Ok (data :: s);
  EncodedObject _ _ h := Ok (6, Ok h);
  NewParser _ _ := None;
  Parse s _ := ([OnHeader 1; OnInflatedObjectHeader CommitObject 6;
                 OnInflatedObjectContent "author"; OnFooter], None, s)
|}.

Definition sample_limits : PackLimits := MkPackLimits 1000 10 100 200.

Definition sample_pack : string := "PACK" +:+ "01234567890123456789".

Lemma extraction_bounded_witness :
  framed_pack (λ _, "01234567890123456789") sample_pack sample_limits.
Proof.
  refine (proj1 (extraction_bounded (GG := sample_git) (λ _, "01234567890123456789") (λ _, None)
    sample_pack sample_limits (λ _, (MkPackObject "commit" EmptyString EmptyString, false, None))
    [MkPackObject "commit" "author" "author"] _ _ _)).
  - split; by vm_compute.
  - done.
  - vm_compute. reflexivity.
Defined.
