(* ===== verification/AgentStore.v ===== *)
(** * Agent operations: [agent/runtime/store.go] and [agent/v1/types.go]

    The durable store of agent operations: idempotent submission with an
    immutable plan, the state machine of an operation, and the changes that move
    it, each guarded by the revision it was read at.

    The store shares the state database with the grant store, so its operations
    run in the same [World]; [w_signals] counts the notifications of both.  Each
    runs under the store's mutex.  [strictjson] and [encoding/json] on raw
    objects are the class [RawJSON].  [clone], a copy through JSON, is the
    identity. *)

From S2P Require Export StateOperations GrantsSQLite.
From Stdlib Require Import Ascii.

Local Open Scope Z_scope.

(** ** Data *)

Record Presentation : Type := MkPresentation { pres_Title : string; pres_Summary : string }.

Record OperationError : Type := MkOperationError { oe_Code : string; oe_Message : string }.

(** [agentv1.Operation] *)
Record AgentOperation : Type := MkAgentOperation {
  op_APIVersion : string;
  op_ID : string;
  op_Broker : string;
  op_ClientID : string;
  op_IdempotencyKey : string;
  op_Operation : string;
  op_Target : string;
  op_Arguments : string;
  op_Reason : string;
  op_State : State;
  op_Revision : Z;
  op_ApprovalID : string;
  op_CreatedAt : Time;
  op_UpdatedAt : Time;
  op_TerminalAt : option Time;
  op_Presentation : Presentation;
  op_PlanDigest : string;
  op_Result : string;
  op_Error : option OperationError
}.

#[export] Instance Presentation_eq_dec : EqDecision Presentation.
Proof. solve_decision. Defined.
#[export] Instance OperationError_eq_dec : EqDecision OperationError.
Proof. solve_decision. Defined.
#[export] Instance AgentOperation_eq_dec : EqDecision AgentOperation.
Proof. solve_decision. Defined.

(** [Submit] *)
Record Submission : Type := MkSubmission {
  sub_ID : string;
  sub_Broker : string;
  sub_ClientID : string;
  sub_IdempotencyKey : string;
  sub_Operation : string;
  sub_Target : string;
  sub_Arguments : string;
  sub_Reason : string;
  sub_Presentation : Presentation;
  sub_PlanDigest : string;
  sub_ApprovalID : string
}.

Definition APIVersion : string := "unyolo.io/agent/v1".
Definition maxTargetBytes : Z := 16 * 1024.
Definition maxArgumentsBytes : Z := 1024 * 1024.
Definition maxResultBytes : Z := 2 * 1024 * 1024.
Definition maxOperations : Z := 1000000.
Definition TerminalRetention : Duration := 30 * 24 * hour.
Definition defaultListLimit : Z := 20.
Definition maxListLimit : Z := 50.

Definition ErrOperationNotFound : error := ErrorNew "operation not found".
Definition ErrOperationConflict : error := ErrorNew "operation idempotency conflict".
Definition ErrOperationTransition : error := ErrorNew "invalid operation state transition".
Definition ErrNotCancelable : error := ErrorNew "operation is not cancelable".
Definition ErrOperationCapacity : error := ErrorNew "operation store capacity reached".
Definition errNoOperationChange : error := ErrorNew "operation does not need an update".

(** ** [agentv1] *)

Definition Terminal (s : State) : bool :=
  match s with
  | StateSucceeded | StateFailed | StateDenied | StateExpired | StateCanceled => true
  | _ => false
  end.

Definition State_Valid (s : State) : bool :=
  match s with StateOther _ => false | _ => true end.

Definition alphanumeric (c : ascii) : bool :=
  let b := byte_of c in
  ((65 <=? b) && (b <=? 90)) || ((97 <=? b) && (b <=? 122)) || ((48 <=? b) && (b <=? 57)).

(** The pattern [^[A-Za-z0-9][A-Za-z0-9._:-]{0,127}$]. *)
Definition ValidIdempotencyKey (value : string) : bool :=
  match list_of_string value with
  | [] => false
  | c :: rest =>
    alphanumeric c && (length rest <=? 127)%nat
    && forallb (λ c, alphanumeric c || bool_decide (c ∈ list_of_string "._:-")) rest
  end.

(** ** The state machine *)

Definition operationTransitions (from to : State) : bool :=
  match from, to with
  | StatePending, (StateApproved | StateDenied | StateExpired | StateCanceled | StateFailed) => true
  | StateApproved, (StateExecuting | StateExpired | StateCanceled | StateFailed) => true
  | StateExecuting, (StateSucceeded | StateFailed) => true
  | _, _ => false
  end.

Definition allowedTransition (from to : State) : bool := operationTransitions from to.

Definition validFailureState (s : State) : bool :=
  match s with StateFailed | StateDenied | StateExpired | StateCanceled => true | _ => false end.

(** ** Raw JSON *)

(** [json_object] is [strictjson.RejectDuplicateKeys], the decoding of one object
    without trailing data, and its [json.Marshal]; [json_Compact] is [json.Compact]. *)
Class RawJSON : Type := {
  json_object : string → result error string;
  json_Compact : string → option string
}.

Definition normalizeObjectLimit `{RawJSON} (value : string) (maximum : Z) : result error string :=
  refuse (is_empty value || (maximum <? len value)) (errorf "JSON object size is invalid" []) ;;;
  json_object value.

Definition equalJSON `{RawJSON} (left right : string) : bool :=
  match json_Compact left, json_Compact right with
  | Some l, Some r => String.eqb l r
  | _, _ => false
  end.

(** ** Validation *)

Definition validRequiredValue (value : string) (maximum : Z) : bool :=
  negb (is_empty value) && (len value <=? maximum).

Definition validOperationID (value : string) : bool :=
  has_prefix "op_" value && (8 <=? len value) && (len value <=? 128)
  && negb (contains_any (String " " (String "009" (String "013" (String "010" EmptyString)))) value).

Definition validSubmitIdentity (i : Submission) : bool :=
  (is_empty (sub_ID i) || validOperationID (sub_ID i))
  && validRequiredValue (sub_Broker i) 64 && validRequiredValue (sub_ClientID i) 128
  && ValidIdempotencyKey (sub_IdempotencyKey i) && validRequiredValue (sub_Operation i) 128
  && (len (sub_ApprovalID i) <=? 128).

Definition validSubmitPresentation (i : Submission) : bool :=
  (len (sub_Reason i) <=? 2000) && negb (is_empty (pres_Title (sub_Presentation i)))
  && (len (pres_Title (sub_Presentation i)) <=? 160)
  && (len (pres_Summary (sub_Presentation i)) <=? 500)
  && (is_empty (sub_PlanDigest i) || plandigest_Valid (sub_PlanDigest i)).

Definition validOperationError (e : OperationError) : bool :=
  negb (is_blank (oe_Code e)) && (len (oe_Code e) <=? 64)
  && negb (is_blank (oe_Message e)) && (len (oe_Message e) <=? 500).

Definition normalizeSubmit `{RawJSON} (input : Submission) : result error Submission :=
  let p := sub_Presentation input in
  let i := MkSubmission (trim_space (sub_ID input)) (trim_space (sub_Broker input))
    (trim_space (sub_ClientID input)) (trim_space (sub_IdempotencyKey input))
    (trim_space (sub_Operation input)) (sub_Target input) (sub_Arguments input)
    (trim_space (sub_Reason input))
    (MkPresentation (trim_space (pres_Title p)) (trim_space (pres_Summary p)))
    (trim_space (sub_PlanDigest input)) (trim_space (sub_ApprovalID input)) in
  refuse (negb (validSubmitIdentity i)) (errorf "operation identity is invalid" []) ;;;
  refuse (negb (validSubmitPresentation i)) (errorf "operation presentation is invalid" []) ;;;
  target ← wrap_decode "target: %w" (normalizeObjectLimit (sub_Target i) maxTargetBytes);
  arguments ← wrap_decode "arguments: %w" (normalizeObjectLimit (sub_Arguments i) maxArgumentsBytes);
  Ok (MkSubmission (sub_ID i) (sub_Broker i) (sub_ClientID i) (sub_IdempotencyKey i)
        (sub_Operation i) target arguments (sub_Reason i) (sub_Presentation i) (sub_PlanDigest i)
        (sub_ApprovalID i)).

Definition validStoredIdentity (o : AgentOperation) : bool :=
  String.eqb (op_APIVersion o) APIVersion && negb (is_blank (op_ID o)) && (len (op_ID o) <=? 128)
  && (1 <=? op_Revision o) && negb (time_is_zero (op_CreatedAt o))
  && negb (time_is_zero (op_UpdatedAt o)) && negb (time_before (op_UpdatedAt o) (op_CreatedAt o)).

Definition validStoredTerminal (o : AgentOperation) : bool :=
  Bool.eqb (Terminal (op_State o)) (match op_TerminalAt o with Some _ => true | None => false end).

Definition validStoredState (o : AgentOperation) : bool :=
  State_Valid (op_State o) && (len (op_ApprovalID o) <=? 128).

Definition validateStoredLifecycle (o : AgentOperation) : result error unit :=
  refuse (negb (validStoredTerminal o)) (errorf "operation terminal timestamp is invalid" []) ;;;
  refuse (negb (validStoredState o)) (errorf "operation state or approval is invalid" []) ;;;
  refuse (match op_Error o with Some e => negb (validOperationError e) | None => false end)
    (errorf "operation error is invalid" []).

Definition validateStored `{RawJSON} (o : AgentOperation) : result error unit :=
  refuse (negb (validStoredIdentity o)) (errorf "operation identity or revision is invalid" []) ;;;
  _ ← normalizeSubmit (MkSubmission EmptyString (op_Broker o) (op_ClientID o) (op_IdempotencyKey o)
        (op_Operation o) (op_Target o) (op_Arguments o) (op_Reason o) (op_Presentation o)
        EmptyString EmptyString);
  validateStoredLifecycle o ;;;
  if is_empty (op_Result o) then Ok tt
  else _ ← wrap_decode "operation result: %w" (normalizeObjectLimit (op_Result o) maxResultBytes); Ok tt.

(** ** Records *)

(** [data, _ := json.Marshal(value)] *)
Definition marshal_text {A} `{JSON A} (a : A) : string :=
  match json_marshal a with Ok text => text | Err _ => EmptyString end.

Definition operationRecord `{JSON Presentation, JSON OperationError} (o : AgentOperation)
  : OperationRecord :=
  MkOperationRecord (op_ID o) (op_APIVersion o) (op_Broker o) (op_ClientID o)
    (op_IdempotencyKey o) (op_Operation o) (op_Target o) (op_Arguments o) (op_Reason o)
    (op_State o) (op_Revision o) (op_CreatedAt o) (op_UpdatedAt o) (op_TerminalAt o)
    (op_ApprovalID o) (marshal_text (op_Presentation o)) (op_Result o)
    (match op_Error o with Some e => marshal_text e | None => EmptyString end) (op_PlanDigest o).

Definition operationFromRecord `{RawJSON, JSON Presentation, JSON OperationError}
    (r : OperationRecord) : result error AgentOperation :=
  presentation ← wrap_decode "decode operation presentation: %w" (json_decode (or_PresentationJSON r));
  operationError ← (if is_empty (or_ErrorJSON r) then Ok None
                    else e ← wrap_decode "decode operation error: %w" (json_decode (or_ErrorJSON r));
                         Ok (Some e));
  let o := MkAgentOperation (or_APIVersion r) (or_ID r) (or_Broker r) (or_ClientID r)
    (or_IdempotencyKey r) (or_Operation r) (or_TargetJSON r) (or_ArgumentsJSON r) (or_Reason r)
    (or_State r) (or_Revision r) (or_ApprovalID r) (or_CreatedAt r) (or_UpdatedAt r)
    (or_TerminalAt r) presentation (or_PlanDigest r) (or_ResultJSON r) operationError in
  match validateStored o with
  | Err e => Err (Errorf "operation database contains an invalid record: %w" [] [e])
  | Ok _ => Ok o
  end.

Definition mapStateError (e : error) : error :=
  if errors_Is e sql_no_rows then ErrOperationNotFound else e.

Definition storedOperation `{RawJSON, JSON Presentation, JSON OperationError}
    (record : result error OperationRecord) : result error AgentOperation :=
  match record with Err e => Err (mapStateError e) | Ok r => operationFromRecord r end.

Definition sameSubmission `{RawJSON} (existing : AgentOperation) (i : Submission) : bool :=
  String.eqb (op_Broker existing) (sub_Broker i) && String.eqb (op_Operation existing) (sub_Operation i)
  && String.eqb (op_Reason existing) (sub_Reason i)
  && bool_decide (op_Presentation existing = sub_Presentation i)
  && String.eqb (op_PlanDigest existing) (sub_PlanDigest i)
  && String.eqb (op_ApprovalID existing) (sub_ApprovalID i)
  && equalJSON (op_Target existing) (sub_Target i)
  && equalJSON (op_Arguments existing) (sub_Arguments i).

(** [prepareOperationUpdate] *)
Definition prepareOperationUpdate (o : AgentOperation) (now : Time) : AgentOperation :=
  MkAgentOperation (op_APIVersion o) (op_ID o) (op_Broker o) (op_ClientID o) (op_IdempotencyKey o)
    (op_Operation o) (op_Target o) (op_Arguments o) (op_Reason o) (op_State o)
    (wrap64 (op_Revision o + 1)) (op_ApprovalID o) (op_CreatedAt o) now
    (if Terminal (op_State o) then Some now else op_TerminalAt o)
    (op_Presentation o) (op_PlanDigest o) (op_Result o) (op_Error o).

(** Field updates of the changes. *)
Definition with_state (s : State) (o : AgentOperation) : AgentOperation :=
  MkAgentOperation (op_APIVersion o) (op_ID o) (op_Broker o) (op_ClientID o) (op_IdempotencyKey o)
    (op_Operation o) (op_Target o) (op_Arguments o) (op_Reason o) s (op_Revision o)
    (op_ApprovalID o) (op_CreatedAt o) (op_UpdatedAt o) (op_TerminalAt o) (op_Presentation o)
    (op_PlanDigest o) (op_Result o) (op_Error o).

Definition with_approval (approvalID : string) (o : AgentOperation) : AgentOperation :=
  MkAgentOperation (op_APIVersion o) (op_ID o) (op_Broker o) (op_ClientID o) (op_IdempotencyKey o)
    (op_Operation o) (op_Target o) (op_Arguments o) (op_Reason o) (op_State o) (op_Revision o)
    approvalID (op_CreatedAt o) (op_UpdatedAt o) (op_TerminalAt o) (op_Presentation o)
    (op_PlanDigest o) (op_Result o) (op_Error o).

Definition with_plan (digest : string) (o : AgentOperation) : AgentOperation :=
  MkAgentOperation (op_APIVersion o) (op_ID o) (op_Broker o) (op_ClientID o) (op_IdempotencyKey o)
    (op_Operation o) (op_Target o) (op_Arguments o) (op_Reason o) (op_State o) (op_Revision o)
    (op_ApprovalID o) (op_CreatedAt o) (op_UpdatedAt o) (op_TerminalAt o) (op_Presentation o)
    digest (op_Result o) (op_Error o).

Definition with_result (result : string) (o : AgentOperation) : AgentOperation :=
  MkAgentOperation (op_APIVersion o) (op_ID o) (op_Broker o) (op_ClientID o) (op_IdempotencyKey o)
    (op_Operation o) (op_Target o) (op_Arguments o) (op_Reason o) (op_State o) (op_Revision o)
    (op_ApprovalID o) (op_CreatedAt o) (op_UpdatedAt o) (op_TerminalAt o) (op_Presentation o)
    (op_PlanDigest o) result (op_Error o).

Definition with_error (e : OperationError) (o : AgentOperation) : AgentOperation :=
  MkAgentOperation (op_APIVersion o) (op_ID o) (op_Broker o) (op_ClientID o) (op_IdempotencyKey o)
    (op_Operation o) (op_Target o) (op_Arguments o) (op_Reason o) (op_State o) (op_Revision o)
    (op_ApprovalID o) (op_CreatedAt o) (op_UpdatedAt o) (op_TerminalAt o) (op_Presentation o)
    (op_PlanDigest o) (op_Result o) (Some e).

(** ** Changes *)

(** The function [Cancel] passes to [update]. *)
Definition cancel_change (clientID : string) (o : AgentOperation) : result error AgentOperation :=
  refuse (negb (String.eqb (op_ClientID o) clientID)) ErrOperationNotFound ;;;
  refuse (Terminal (op_State o)) errNoOperationChange ;;;
  refuse (negb (bool_decide (op_State o = StatePending)) && negb (bool_decide (op_State o = StateApproved)))
    ErrNotCancelable ;;;
  Ok (with_error (MkOperationError "operation_canceled" "Request was canceled")
        (with_state StateCanceled o)).

Definition approval_change (approvalID : string) (o : AgentOperation) : result error AgentOperation :=
  refuse (negb (bool_decide (op_State o = StatePending)) || is_blank approvalID
          || (negb (is_empty (op_ApprovalID o)) && negb (String.eqb (op_ApprovalID o) approvalID)))
    ErrOperationTransition ;;;
  Ok (with_approval approvalID o).

Definition transition_change (to : State) (o : AgentOperation) : result error AgentOperation :=
  refuse (negb (allowedTransition (op_State o) to)) ErrOperationTransition ;;;
  Ok (with_state to o).

Definition succeed_change (result : string) (o : AgentOperation) : Prelude.result error AgentOperation :=
  refuse (negb (bool_decide (op_State o = StateExecuting))) ErrOperationTransition ;;;
  Ok (with_result result (with_state StateSucceeded o)).

Definition fail_change (to : State) (code message : string) (o : AgentOperation)
  : result error AgentOperation :=
  refuse (negb (allowedTransition (op_State o) to)) ErrOperationTransition ;;;
  Ok (with_error (MkOperationError code message) (with_state to o)).

Definition validPlanBinding (o : AgentOperation) (plan : Plan) (approvalID : string) (direct : bool)
  : bool :=
  bool_decide (op_State o = StatePending) && is_empty (op_PlanDigest o)
  && negb (Bool.eqb direct (negb (is_empty approvalID))) && plandigest_Valid (plan_Digest plan).

(** ** Listing *)

Record ListOptions : Type := MkListOptions {
  lo_IdempotencyKey : string;
  lo_State : option State;
  lo_Limit : Z;
  lo_Cursor : string
}.

(** [agentv1.OperationSummary]: an operation without its input and result. *)
Record OperationSummary : Type := MkOperationSummary {
  os_APIVersion : string;
  os_ID : string;
  os_Broker : string;
  os_ClientID : string;
  os_IdempotencyKey : string;
  os_Operation : string;
  os_State : State;
  os_Revision : Z;
  os_CreatedAt : Time;
  os_UpdatedAt : Time;
  os_TerminalAt : option Time;
  os_Presentation : Presentation
}.

Record OperationPage : Type := MkOperationPage {
  page_APIVersion : string;
  page_Operations : list OperationSummary;
  page_NextCursor : option string
}.

Definition validListIdentity (clientID : string) (o : ListOptions) : bool :=
  let validKey := is_empty (lo_IdempotencyKey o) || ValidIdempotencyKey (lo_IdempotencyKey o) in
  negb (is_empty clientID) && validKey && (len (lo_Cursor o) <=? 128).

Definition validListSelection (o : ListOptions) : bool :=
  let validLimit := (1 <=? lo_Limit o) && (lo_Limit o <=? maxListLimit) in
  let validState := match lo_State o with None => true | Some s => State_Valid s end in
  validLimit && validState.

Definition normalizeListOptions (clientID : string) (options : ListOptions)
  : result error (string * ListOptions) :=
  let clientID := trim_space clientID in
  let o := MkListOptions (trim_space (lo_IdempotencyKey options)) (lo_State options)
    (if lo_Limit options =? 0 then defaultListLimit else lo_Limit options)
    (trim_space (lo_Cursor options)) in
  refuse (negb (validListIdentity clientID o)) (errorf "operation list options are invalid" []) ;;;
  refuse (negb (validListSelection o)) (errorf "operation list options are invalid" []) ;;;
  Ok (clientID, o).

Definition operationSummary (o : AgentOperation) : OperationSummary :=
  MkOperationSummary (op_APIVersion o) (op_ID o) (op_Broker o) (op_ClientID o)
    (op_IdempotencyKey o) (op_Operation o) (op_State o) (op_Revision o) (op_CreatedAt o)
    (op_UpdatedAt o) (op_TerminalAt o) (op_Presentation o).

Definition operationPage `{RawJSON, JSON Presentation, JSON OperationError}
    (records : list OperationRecord) (limit : Z) : result error OperationPage :=
  operations ← collect operationFromRecord (take (Z.to_nat limit) records);
  let summaries := operationSummary <$> operations in
  Ok (MkOperationPage APIVersion summaries
        (if limit <? Z.of_nat (length records) then os_ID <$> last summaries else None)).

(** ** The store *)

Section store.
Context {R : MapRange} {RJ : RawJSON}.
Context `{JT : JSON Target} `{JA : JSON StringListMap} `{JM : JSON (gmap string string)}
  `{JE : JSON EventRecord} `{JG : JSON Grant} `{JP : JSON Presentation} `{JO : JSON OperationError}.
Context (admits : Database → Statement → result error unit)
  (begin_tx : nat → result error unit) (commit_tx : nat → CommitOutcome)
  (plandigest_Digest : string → string).
Context (clock : nat → Time) (new_id : nat → result error string).

#[local] Hint Extern 0 GrantStorage =>
  exact (sqlite admits begin_tx commit_tx plandigest_Digest) : typeclass_instances.

(** A call of the database. *)
Definition query {A} (f : Database → A) : Eff A := λ w, (f (w_storage w), w).

Definition execute {A} (f : Database → result error A * Database) : Eff (result error A) :=
  λ w, let '(r, d) := f (w_storage w) in (r, MkWorld d (w_tick w) (w_ids w) (w_signals w)).

(** [notify] *)
Definition notify : Eff unit := λ w,
  (tt, MkWorld (w_storage w) (w_tick w) (w_ids w) (S (w_signals w))).

(** [Store.NewID] *)
Definition NewID : Eff (result error string) := newID new_id.

(** [Store.AdmissionUsage] *)
Definition AdmissionUsage (clientID : string) : Eff OperationUsage := query (GetOperationUsage clientID).

(** What [submit] returns: the operation and whether it was created. *)
Definition Submitted : Type := result error (AgentOperation * bool).

Definition findSubmission (input : Submission) : Eff (result error (option AgentOperation)) :=
  record ← query (OperationByIdempotency (sub_ClientID input) (sub_IdempotencyKey input));
  mret (match record with
        | Ok r =>
          existing ← operationFromRecord r;
          refuse (negb (sameSubmission existing input)) ErrOperationConflict ;;;
          Ok (Some existing)
        | Err e => if errors_Is e sql_no_rows then Ok None else Err e
        end).

(** The operation [createOperation] inserts. *)
Definition new_operation (id : string) (input : Submission) (now : Time) (initialState : State)
  : AgentOperation :=
  MkAgentOperation APIVersion id (sub_Broker input) (sub_ClientID input) (sub_IdempotencyKey input)
    (sub_Operation input) (sub_Target input) (sub_Arguments input) (sub_Reason input) initialState 1
    (sub_ApprovalID input) now now None (sub_Presentation input) (sub_PlanDigest input) EmptyString None.

Definition insert_operation (o : AgentOperation) (plan : option Plan) : Eff (result error unit) :=
  match plan with
  | None => execute (InsertOperation admits begin_tx commit_tx (operationRecord o))
  | Some plan =>
    execute (InsertOperationWithPlan admits begin_tx commit_tx plandigest_Digest (operationRecord o) plan)
  end.

Definition createOperation (input : Submission) (now : Time) (plan : option Plan) (initialState : State)
  : Eff Submitted :=
  count ← query CountOperations;
  if maxOperations <=? count then mret (Err ErrOperationCapacity)
  else
    id ← (if is_empty (sub_ID input) then NewID else mret (Ok (sub_ID input)));
    match id with
    | Err e => mret (Err e)
    | Ok id =>
      let o := new_operation id input now initialState in
      inserted ← insert_operation o plan;
      match inserted with
      | Err e => mret (Err e)
      | Ok _ => _ ← notify; mret (Ok (o, true))
      end
    end.

Definition submitLocked (input : Submission) (plan : option Plan) (initialState : State)
  : Eff Submitted :=
  instant ← clocked (now clock);
  deleted ← execute (DeleteTerminalOperationsBefore admits begin_tx commit_tx (instant - TerminalRetention));
  match deleted with
  | Err e => mret (Err e)
  | Ok _ =>
    existing ← findSubmission input;
    match existing with
    | Err e => mret (Err e)
    | Ok (Some existing) => mret (Ok (existing, false))
    | Ok None => createOperation input instant plan initialState
    end
  end.

Definition submit (input : Submission) (plan : option Plan) (initialState : State) : Eff Submitted :=
  match normalizeSubmit input with
  | Err e => mret (Err e)
  | Ok normalized => submitLocked normalized plan initialState
  end.

Definition with_plan_digest (digest : string) (i : Submission) : Submission :=
  MkSubmission (sub_ID i) (sub_Broker i) (sub_ClientID i) (sub_IdempotencyKey i) (sub_Operation i)
    (sub_Target i) (sub_Arguments i) (sub_Reason i) (sub_Presentation i) digest (sub_ApprovalID i).

Definition with_submission_approval (approvalID : string) (i : Submission) : Submission :=
  MkSubmission (sub_ID i) (sub_Broker i) (sub_ClientID i) (sub_IdempotencyKey i) (sub_Operation i)
    (sub_Target i) (sub_Arguments i) (sub_Reason i) (sub_Presentation i) (sub_PlanDigest i) approvalID.

Definition submitWithPlan (input : Submission) (plan : Plan) (initialState : State) : Eff Submitted :=
  submit (with_plan_digest (plan_Digest plan) input) (Some plan) initialState.

(** [Store.Submit] *)
Definition Submit (input : Submission) : Eff Submitted := submit input None StatePending.

Definition SubmitWithPlan (input : Submission) (plan : Plan) : Eff Submitted :=
  submitWithPlan input plan StatePending.

Definition SubmitApprovedWithPlan (input : Submission) (plan : Plan) : Eff Submitted :=
  submitWithPlan input plan StateApproved.

Definition SubmitApprovedWithGrantPlan (input : Submission) (plan : Plan) (approvalID : string)
  : Eff Submitted :=
  let input := with_submission_approval (trim_space approvalID) input in
  if is_empty (sub_ApprovalID input) then mret (Err (errorf "approved grant is required" []))
  else submitWithPlan input plan StateApproved.

(** [Store.Get] *)
Definition GetOperation (clientID id : string) : Eff (result error AgentOperation) :=
  query (λ d, storedOperation (OperationForClient id clientID d)).

Definition GetByID (id : string) : Eff (result error AgentOperation) :=
  query (λ d, storedOperation (OperationByID id d)).

Definition GetByIdempotency (clientID key : string) : Eff (result error AgentOperation) :=
  let clientID := trim_space clientID in
  let key := trim_space key in
  if is_empty clientID || is_empty key then mret (Err ErrOperationNotFound)
  else query (λ d, storedOperation (OperationByIdempotency clientID key d)).

(** [Store.List] *)
Definition ListOperations (clientID : string) (options : ListOptions) : Eff (result error OperationPage) :=
  match normalizeListOptions clientID options with
  | Err e => mret (Err e)
  | Ok (clientID, o) =>
    query (λ d,
      match OperationsForClient (MkOperationListOptions clientID (lo_IdempotencyKey o) (lo_State o)
              (lo_Cursor o) (lo_Limit o + 1)) d with
      | Err e => Err (mapStateError e)
      | Ok records => operationPage records (lo_Limit o)
      end)
  end.

Definition ListUnfinished : Eff (result error (list AgentOperation)) :=
  query (λ d, collect operationFromRecord (UnfinishedOperations d)).

(** The end of [update] and [BindPlan]: write the prepared operation, signal, return it. *)
Definition written (o : AgentOperation) (updated : result error bool) : Eff (result error AgentOperation) :=
  match updated with
  | Err e => mret (Err e)
  | Ok false => mret (Err ErrOperationTransition)
  | Ok true => _ ← notify; mret (Ok o)
  end.

(** [Store.update] with [applyOperationChange] *)
Definition update (id : string) (change : AgentOperation → result error AgentOperation)
  : Eff (result error AgentOperation) :=
  operation ← query (λ d, storedOperation (OperationByID id d));
  match operation with
  | Err e => mret (Err e)
  | Ok operation =>
    match change operation with
    | Err e => mret (if errors_Is e errNoOperationChange then Ok operation else Err e)
    | Ok changed =>
      instant ← clocked (now clock);
      let prepared := prepareOperationUpdate changed instant in
      updated ← execute (UpdateOperation admits begin_tx commit_tx (operationRecord prepared)
                           (op_Revision operation));
      written prepared updated
    end
  end.

(** [Store.Cancel] *)
Definition Cancel (clientID id : string) : Eff (result error AgentOperation) :=
  update id (cancel_change clientID).

Definition SetApproval (id approvalID : string) : Eff (result error AgentOperation) :=
  update id (approval_change approvalID).

(** [Store.Transition] *)
Definition Transition (id : string) (to : State) : Eff (result error AgentOperation) :=
  update id (transition_change to).

(** [Store.Succeed] *)
Definition Succeed (id text : string) : Eff (result error AgentOperation) :=
  match wrap_decode "result: %w" (normalizeObjectLimit text maxResultBytes) with
  | Err e => mret (Err e)
  | Ok text => update id (succeed_change text)
  end.

(** [Store.Fail] *)
Definition Fail_ (id : string) (to : State) (code message : string) : Eff (result error AgentOperation) :=
  if negb (validFailureState to) then mret (Err ErrOperationTransition)
  else if negb (validOperationError (MkOperationError code message))
  then mret (Err (errorf "operation error is invalid" []))
  else update id (fail_change to code message).

(** [Store.BindPlan] *)
Definition BindPlan (id : string) (plan : Plan) (approvalID : string) (direct : bool)
  : Eff (result error AgentOperation) :=
  operation ← query (λ d, storedOperation (OperationByID id d));
  match operation with
  | Err e => mret (Err e)
  | Ok operation =>
    let approvalID := trim_space approvalID in
    if negb (validPlanBinding operation plan approvalID direct) then mret (Err ErrOperationTransition)
    else
      let o := with_approval approvalID (with_plan (plan_Digest plan) operation) in
      let o := if direct then with_state StateApproved o else o in
      instant ← clocked (now clock);
      let prepared := prepareOperationUpdate o instant in
      updated ← execute (UpdateOperationWithPlan admits begin_tx commit_tx plandigest_Digest
                           (operationRecord prepared) (op_Revision operation) plan);
      written prepared updated
  end.
End store.
