(* ===== verification/AgentLives.v ===== *)
(** * The lives of operations

    Every row of the operations table follows one automaton: it is inserted in
    an initial state, advances along the transitions with its identity kept and
    its revision counted, and is deleted only when more than thirty days have
    passed since it ended.  One call changes a row at most once, at the instant
    it read from the clock (a submission may also delete a row and insert
    another under its identifier).  Whatever the engine does, no call of the
    store does anything else to any row. *)

From S2P Require Export GoStringFacts GrantsVerdicts GrantsPlans AgentStore.

Local Open Scope Z_scope.

(** ** Steps of one operation *)

(** What never changes in the life of an operation. *)
Definition identity (r : OperationRecord) :=
  (or_ID r, or_APIVersion r, or_Broker r, or_ClientID r, or_IdempotencyKey r, or_Operation r,
   or_TargetJSON r, or_ArgumentsJSON r, or_Reason r, or_CreatedAt r, or_PresentationJSON r).

(** The ways an operation may go. *)
Inductive advances : State → State → Prop :=
| adv_approve : advances StatePending StateApproved
| adv_deny : advances StatePending StateDenied
| adv_claim : advances StateApproved StateExecuting
| adv_succeed : advances StateExecuting StateSucceeded
| adv_expire (s : State) : s ∈ [StatePending; StateApproved] → advances s StateExpired
| adv_cancel (s : State) : s ∈ [StatePending; StateApproved] → advances s StateCanceled
| adv_fail (s : State) : s ∈ [StatePending; StateApproved; StateExecuting] → advances s StateFailed.

(** The states nothing leaves. *)
Definition ended (s : State) : Prop :=
  s ∈ [StateSucceeded; StateFailed; StateDenied; StateExpired; StateCanceled].

#[export] Instance ended_dec (s : State) : Decision (ended s) := _.

Lemma allowedTransition_advances (from to : State) :
  allowedTransition from to = true → advances from to.
Proof. destruct from, to; try done; intros _; constructor; set_solver. Qed.

Lemma Terminal_ended (s : State) : Terminal s = true ↔ ended s.
Proof. unfold ended. rewrite !elem_of_cons, elem_of_nil. destruct s; cbn; naive_solver. Qed.

Lemma advances_ended (from to : State) : advances from to → ¬ ended from.
Proof. unfold ended. rewrite !elem_of_cons, elem_of_nil. intros []; set_solver. Qed.

(** One update of a row at an instant. *)
Record record_step (now : Time) (r r' : OperationRecord) : Prop := {
  step_identity : identity r' = identity r;
  step_revision : or_Revision r' = wrap64 (or_Revision r + 1);
  step_updated : or_UpdatedAt r' = now;
  step_state : advances (or_State r) (or_State r')
               ∨ or_State r = StatePending ∧ or_State r' = StatePending;
  step_open : or_TerminalAt r = None;
  step_terminal : or_TerminalAt r' = if decide (ended (or_State r')) then Some now else None;
  step_plan : or_PlanDigest r' = or_PlanDigest r
              ∨ or_State r = StatePending ∧ or_PlanDigest r = EmptyString
                ∧ plandigest_Valid (or_PlanDigest r') = true;
  step_approval : or_ApprovalID r' = or_ApprovalID r ∨ or_State r = StatePending;
  step_result : or_ResultJSON r' = or_ResultJSON r ∨ or_State r' = StateSucceeded
}.

(** A row as [createOperation] writes it at an instant. *)
Record initial_record (now : Time) (r : OperationRecord) : Prop := {
  initial_state : or_State r = StatePending ∨ or_State r = StateApproved;
  initial_revision : or_Revision r = 1;
  initial_terminal : or_TerminalAt r = None;
  initial_created : or_CreatedAt r = now;
  initial_updated : or_UpdatedAt r = now;
  initial_result : or_ResultJSON r = EmptyString
}.

(** The row ended more than thirty days before an instant. *)
Definition retired (now : Time) (r : OperationRecord) : Prop :=
  ∃ t, or_TerminalAt r = Some t ∧ t + 30 * 24 * hour < now.

(** What one call that reads the clock once may do to the row of an identifier. *)
Inductive record_change (now : Time) : option OperationRecord → option OperationRecord → Prop :=
| change_insert (r : OperationRecord) : initial_record now r → record_change now None (Some r)
| change_step (r r' : OperationRecord) : record_step now r r' → record_change now (Some r) (Some r')
| change_purge (r : OperationRecord) : retired now r → record_change now (Some r) None
| change_replace (r r' : OperationRecord) :
    retired now r → initial_record now r' → record_change now (Some r) (Some r').

(** The record of an identifier. *)
Definition stored (d : Database) (id : string) : option OperationRecord :=
  record_of_row <$> rows (db_operations d) !! id.

(** The client and the idempotency key of an operation; no two rows share both. *)
Definition record_key (r : OperationRecord) : string * string := (or_ClientID r, or_IdempotencyKey r).

Definition keys_unique (d : Database) : Prop :=
  ∀ id1 id2 r1 r2, stored d id1 = Some r1 → stored d id2 = Some r2 →
    record_key r1 = record_key r2 → id1 = id2.

Lemma step_key (now : Time) (r r' : OperationRecord) : record_step now r r' → record_key r' = record_key r.
Proof. intros H. pose proof (step_identity _ _ _ H) as E. injection E as _ _ _ E4 E5 _ _ _ _ _ _. unfold record_key. congruence. Qed.

(** ** Changes of an operation in memory *)

Record op_changes (o o' : AgentOperation) : Prop := {
  chg_identity : (op_ID o', op_APIVersion o', op_Broker o', op_ClientID o', op_IdempotencyKey o',
                  op_Operation o', op_Target o', op_Arguments o', op_Reason o', op_CreatedAt o',
                  op_Presentation o', op_Revision o', op_TerminalAt o')
                 = (op_ID o, op_APIVersion o, op_Broker o, op_ClientID o, op_IdempotencyKey o,
                    op_Operation o, op_Target o, op_Arguments o, op_Reason o, op_CreatedAt o,
                    op_Presentation o, op_Revision o, op_TerminalAt o);
  chg_state : allowedTransition (op_State o) (op_State o') = true
              ∨ op_State o = StatePending ∧ op_State o' = StatePending;
  chg_plan : op_PlanDigest o' = op_PlanDigest o
             ∨ op_State o = StatePending ∧ op_PlanDigest o = EmptyString
               ∧ plandigest_Valid (op_PlanDigest o') = true;
  chg_approval : op_ApprovalID o' = op_ApprovalID o ∨ op_State o = StatePending;
  chg_result : op_Result o' = op_Result o ∨ op_State o' = StateSucceeded
}.

Ltac changed :=
  match goal with
  | |- op_changes ?o _ =>
    constructor; cbn; [reflexivity|auto|auto|auto|auto]
  end.

Lemma cancel_changes (clientID : string) (o o' : AgentOperation) :
  cancel_change clientID o = Ok o' → op_changes o o' ∧ op_State o' = StateCanceled.
Proof.
  unfold cancel_change. rewrite !seq_ok, !refuse_ok, andb_false_iff, !negb_false_iff.
  intros (_ & _ & Hs & [= <-]). split; [|done].
  assert (allowedTransition (op_State o) StateCanceled = true) as Ht.
  { by destruct Hs as [->%bool_decide_eq_true | ->%bool_decide_eq_true]. }
  changed.
Qed.

Lemma approval_changes (approvalID : string) (o o' : AgentOperation) :
  approval_change approvalID o = Ok o' → op_changes o o' ∧ op_State o' = StatePending.
Proof.
  unfold approval_change. rewrite seq_ok, refuse_ok, !orb_false_iff, negb_false_iff.
  intros ([[Hs%bool_decide_eq_true _] _] & [= <-]). split; [changed|done].
Qed.

Lemma transition_changes (to : State) (o o' : AgentOperation) :
  transition_change to o = Ok o' → op_changes o o' ∧ op_State o' = to.
Proof.
  unfold transition_change. rewrite seq_ok, refuse_ok, negb_false_iff.
  intros (Ht & [= <-]). split; [changed|done].
Qed.

Lemma succeed_changes (text : string) (o o' : AgentOperation) :
  succeed_change text o = Ok o' → op_changes o o' ∧ op_State o' = StateSucceeded.
Proof.
  unfold succeed_change. rewrite seq_ok, refuse_ok, negb_false_iff.
  intros (Hs%bool_decide_eq_true & [= <-]). split; [|done].
  constructor; cbn; try reflexivity; auto. left. by rewrite Hs.
Qed.

Lemma fail_changes (to : State) (code message : string) (o o' : AgentOperation) :
  fail_change to code message o = Ok o' → op_changes o o' ∧ op_State o' = to.
Proof.
  unfold fail_change. rewrite seq_ok, refuse_ok, negb_false_iff.
  intros (Ht & [= <-]). split; [changed|done].
Qed.

(** ** Decoding *)

Section decoding.
Context `{RJ : RawJSON} `{JP : JSON Presentation} `{JO : JSON OperationError}.

(** The fields of a record that its operation has unchanged. *)
Lemma operationFromRecord_fields (r : OperationRecord) (o : AgentOperation) :
  operationFromRecord r = Ok o →
  (op_ID o, op_APIVersion o, op_Broker o, op_ClientID o, op_IdempotencyKey o, op_Operation o,
   op_Target o, op_Arguments o, op_Reason o, op_CreatedAt o)
  = (or_ID r, or_APIVersion r, or_Broker r, or_ClientID r, or_IdempotencyKey r, or_Operation r,
     or_TargetJSON r, or_ArgumentsJSON r, or_Reason r, or_CreatedAt r)
  ∧ (op_State o, op_Revision o, op_UpdatedAt o, op_TerminalAt o, op_ApprovalID o, op_PlanDigest o, op_Result o)
    = (or_State r, or_Revision r, or_UpdatedAt r, or_TerminalAt r, or_ApprovalID r, or_PlanDigest r,
       or_ResultJSON r)
  ∧ json_decode (or_PresentationJSON r) = Ok (op_Presentation o)
  ∧ validateStored o = Ok tt.
Proof.
  unfold operationFromRecord. rewrite bind_ok_iff. intros (p & Hp & H).
  apply bind_ok_iff in H as (e & _ & H). rewrite wrap_decode_ok in Hp.
  destruct (validateStored _) as [[]|err] eqn:Ev in H; [|done]. injection H as <-. cbn. done.
Qed.

(** A stored operation has a terminal time exactly when it ended. *)
Lemma decoded_terminal (r : OperationRecord) (o : AgentOperation) :
  operationFromRecord r = Ok o →
  Terminal (op_State o) = match op_TerminalAt o with Some _ => true | None => false end.
Proof.
  intros (_ & _ & _ & H)%operationFromRecord_fields. unfold validateStored in H.
  apply seq_ok in H as [_ H]. apply bind_ok_iff in H as (i & _ & H). apply seq_ok in H as [H _].
  unfold validateStoredLifecycle in H. rewrite seq_ok, refuse_ok, negb_false_iff in H.
  destruct H as [H _]. by apply eqb_prop in H.
Qed.

(** Writing the prepared operation over the row it was read from is one step; what
    the update does not set stays as it is. *)
Lemma updated_row_step (old : OperationRow) (o o' : AgentOperation) (now : Time) :
  operationFromRecord (record_of_row old) = Ok o → op_changes o o' →
  record_step now (record_of_row old)
    (record_of_row (updated_row old (operationRecord (prepareOperationUpdate o' now)))).
Proof.
  intros Hf [Hi Hs Hp Ha Hr]. pose proof (decoded_terminal _ _ Hf) as Hterm.
  apply operationFromRecord_fields in Hf as (H1 & H2 & _ & _).
  injection H1 as E1 E2 E3 E4 E5 E6 E7 E8 E9 E10. injection H2 as F1 F2 F3 F4 F5 F6 F7.
  injection Hi as I1 I2 I3 I4 I5 I6 I7 I8 I9 I10 I11 I12 I13.
  assert (Hn : ∀ x, stringValue (nullableString x) = x) by (intros []; reflexivity).
  assert (advances (op_State o) (op_State o') ∨ op_State o = StatePending ∧ op_State o' = StatePending) as Hstate.
  { destruct Hs; [left; by apply allowedTransition_advances|by right]. }
  assert (Terminal (op_State o) = false) as Hopen.
  { apply not_true_iff_false. rewrite Terminal_ended. destruct Hstate as [H|[-> _]]; [by eapply advances_ended|].
    by intros H%Terminal_ended. }
  rewrite Hopen in Hterm. symmetry in Hterm. destruct (op_TerminalAt o) eqn:Eterm; [done|].
  constructor; cbn -[Terminal ended]; unfold bytesValue, nullableBytes; fold stringValue.
  - reflexivity.
  - rewrite I12, F2. reflexivity.
  - reflexivity.
  - rewrite F1 in Hstate. exact Hstate.
  - cbn in F4. congruence.
  - rewrite I13. destruct (decide _) as [He|He]; rewrite <- Terminal_ended in He; [by rewrite He|].
    apply not_true_iff_false in He. by rewrite He.
  - rewrite Hn. cbn in F6, F1. rewrite F6, F1 in Hp. exact Hp.
  - cbn in F5, F1. rewrite F5, F1 in Ha. exact Ha.
  - change (default EmptyString (nullableString (op_Result o'))) with (stringValue (nullableString (op_Result o'))).
    rewrite Hn. cbn in F7. rewrite F7 in Hr. exact Hr.
Qed.

Lemma initial_record_new (id : string) (input : Submission) (now : Time) (s : State) :
  s = StatePending ∨ s = StateApproved →
  initial_record now (record_of_row (insertOperationParams (operationRecord (new_operation id input now s)))).
Proof. intros Hs. constructor; try reflexivity. exact Hs. Qed.
End decoding.

(** ** Calls of the store *)

Section lives.
Context {R : MapRange} {RJ : RawJSON}.
Context `{JT : JSON Target} `{JA : JSON StringListMap} `{JM : JSON (gmap string string)}
  `{JE : JSON EventRecord} `{JG : JSON Grant} `{JP : JSON Presentation} `{JO : JSON OperationError}.
Context (admits : Database → Statement → result error unit)
  (begin_tx : nat → result error unit) (commit_tx : nat → CommitOutcome)
  (plandigest_Digest : string → string).

#[local] Hint Extern 0 GrantStorage =>
  exact (sqlite admits begin_tx commit_tx plandigest_Digest) : typeclass_instances.

(** ** Tables

    The rows of a table change each in the way [moves] tells, or stay, and the
    keys stay unique. *)

Record rows_change (moves : option OperationRecord → option OperationRecord → Prop) (d d' : Database) : Prop := {
  change_rows : ∀ id, stored d' id = stored d id ∨ moves (stored d id) (stored d' id);
  change_keys : keys_unique d → keys_unique d'
}.

(** The tables of the grant store. *)
Definition grants_part (d : Database) :=
  (db_grants d, db_uses d, db_events d, db_decisions d).

Record table_change (moves : option OperationRecord → option OperationRecord → Prop) (d d' : Database) : Prop := {
  change_table : rows_change moves d d';
  change_grants : grants_part d' = grants_part d
}.

(** No change, a purge, an insertion, any change: into the states of a predicate. *)
Definition no_move (x y : option OperationRecord) : Prop := False.

Definition purge_move (now : Time) (x y : option OperationRecord) : Prop :=
  y = None ∧ ∃ r, x = Some r ∧ retired now r.

Definition insert_move (ok : State → Prop) (now : Time) (x y : option OperationRecord) : Prop :=
  x = None ∧ ∃ r, y = Some r ∧ initial_record now r ∧ ok (or_State r).

Definition any_move (ok : State → Prop) (now : Time) (x y : option OperationRecord) : Prop :=
  record_change now x y ∧ ∀ r, y = Some r → ok (or_State r).

Lemma purge_then_insert (ok : State → Prop) (now : Time) (x y z : option OperationRecord) :
  purge_move now x y → insert_move ok now y z → any_move ok now x z.
Proof.
  intros (-> & r & -> & Hr) (_ & r' & -> & Hr' & Hok). split; [by apply change_replace|]. by intros ? [= <-].
Qed.

Lemma purge_any (ok : State → Prop) (now : Time) (x y : option OperationRecord) :
  purge_move now x y → any_move ok now x y.
Proof. intros (-> & r & -> & Hr). split; [by apply change_purge|done]. Qed.

Lemma insert_any (ok : State → Prop) (now : Time) (x y : option OperationRecord) :
  insert_move ok now x y → any_move ok now x y.
Proof. intros (-> & r & -> & Hr & Hok). split; [by apply change_insert|]. by intros ? [= <-]. Qed.

Lemma same_operations_rows moves (d d' : Database) :
  db_operations d' = db_operations d → rows_change moves d d'.
Proof.
  intros H. assert (∀ id, stored d' id = stored d id) as E by (intros id; unfold stored; by rewrite H).
  split; [by left|]. intros Hu id1 id2 r1 r2. rewrite !E. apply Hu.
Qed.

Lemma same_operations_change moves (d d' : Database) :
  db_operations d' = db_operations d → grants_part d' = grants_part d → table_change moves d d'.
Proof. intros H Hg. split; [by apply same_operations_rows|done]. Qed.

(** Changes one after the other. *)
Lemma rows_change_compose (moves1 moves2 moves3 : option OperationRecord → option OperationRecord → Prop)
    (d1 d2 d3 : Database) :
  (∀ x y, moves1 x y → moves3 x y) → (∀ x y, moves2 x y → moves3 x y) →
  (∀ x y z, moves1 x y → moves2 y z → moves3 x z) →
  rows_change moves1 d1 d2 → rows_change moves2 d2 d3 → rows_change moves3 d1 d3.
Proof.
  intros H1 H2 H12 [R1 K1] [R2 K2]. split; [|by auto].
  intros id. destruct (R1 id) as [E1|M1], (R2 id) as [E2|M2].
  - left. congruence.
  - right. rewrite <- E1. by apply H2.
  - right. rewrite E2. by apply H1.
  - right. by eapply H12.
Qed.

Lemma table_change_compose (moves1 moves2 moves3 : option OperationRecord → option OperationRecord → Prop)
    (d1 d2 d3 : Database) :
  (∀ x y, moves1 x y → moves3 x y) → (∀ x y, moves2 x y → moves3 x y) →
  (∀ x y z, moves1 x y → moves2 y z → moves3 x z) →
  table_change moves1 d1 d2 → table_change moves2 d2 d3 → table_change moves3 d1 d3.
Proof.
  intros H1 H2 H12 [R1 G1] [R2 G2]. split; [|congruence].
  by apply (rows_change_compose moves1 moves2 moves3 d1 d2 d3).
Qed.

Lemma table_change_after moves (d1 d2 d3 : Database) :
  db_operations d2 = db_operations d1 → grants_part d2 = grants_part d1 →
  table_change moves d2 d3 → table_change moves d1 d3.
Proof.
  intros Ho Hg. apply (table_change_compose no_move moves moves); [by intros ? ? []|done|by intros ? ? ? []|].
  by apply same_operations_change.
Qed.

Lemma table_change_before moves (d1 d2 d3 : Database) :
  table_change moves d1 d2 → db_operations d3 = db_operations d2 → grants_part d3 = grants_part d2 →
  table_change moves d1 d3.
Proof.
  intros H Ho Hg. eapply (table_change_compose moves no_move moves); [done|by intros ? ? []|by intros ? ? ? _ []|exact H|].
  by apply same_operations_change.
Qed.

(** One row changes, to one whose key no other row has. *)
Lemma table_change_at (moves : option OperationRecord → option OperationRecord → Prop) (d d' : Database) (id : string) :
  moves (stored d id) (stored d' id) → grants_part d' = grants_part d →
  (∀ id', id' ≠ id → stored d' id' = stored d id') →
  (∀ r r' id', keys_unique d → id' ≠ id → stored d' id = Some r → stored d id' = Some r' →
     record_key r ≠ record_key r') →
  table_change moves d d'.
Proof.
  intros Hc Hg Ho Hk. split; [|done]. split.
  - intros id'. destruct (decide (id' = id)) as [->|Hne]; [by right|]. left. by apply Ho.
  - intros Hu id1 id2 r1 r2 H1 H2 E.
    destruct (decide (id1 = id)) as [->|N1], (decide (id2 = id)) as [->|N2]; [done| | |].
    + rewrite Ho in H2 by done. by destruct (Hk r1 r2 id2).
    + rewrite Ho in H1 by done. by destruct (Hk r2 r1 id1).
    + rewrite Ho in H1, H2 by done. by eapply Hu.
Qed.

Lemma stored_put (row : OperationRow) (d d' : Database) (id : string) :
  db_operations d' = put_row row (db_operations d) →
  stored d' id = if decide (orow_ID row = id) then Some (record_of_row row) else stored d id.
Proof.
  intros Hd. unfold stored. rewrite Hd. cbn. destruct (decide (orow_ID row = id)) as [->|Hne].
  - by rewrite lookup_insert_eq.
  - by rewrite lookup_insert_ne.
Qed.

(** A transaction changes the rows as its body does. *)
Lemma in_transaction_change {A} moves (body : Database → result error (A * option Database)) (d : Database) :
  (∀ a d', body d = Ok (a, Some d') → table_change moves d d') →
  table_change moves d (snd (in_transaction begin_tx commit_tx body d)).
Proof.
  intros H. unfold in_transaction.
  assert (table_change moves d d) as Hd by by apply same_operations_change.
  assert (table_change moves d (begun d)) as Hb by by apply same_operations_change.
  destruct (begin_tx _); [|done]. destruct (body d) as [[a [d'|]]|e] eqn:E; [|done|done].
  assert (table_change moves d (begun d')) as Hb' by by eapply table_change_before; [by apply (H a)|..].
  by destruct (commit_tx _).
Qed.

Lemma putPlan_operations (plan : Plan) (d d' : Database) :
  putPlanWithQueries admits plandigest_Digest plan d = Ok d' →
  db_operations d' = db_operations d ∧ grants_part d' = grants_part d.
Proof.
  intros H. apply pair_equal_spec.
  by apply (putPlan_kept admits (λ d, (db_operations d, grants_part d))) in H.
Qed.

(** What an insert that succeeds does. *)
Lemma insertOperation_stored (o : AgentOperation) (d d' : Database) :
  insertOperation admits (operationRecord o) d = Ok d' →
  let r := record_of_row (insertOperationParams (operationRecord o)) in
  (∀ id r', stored d id = Some r' → record_key r' ≠ record_key r)
  ∧ stored d (op_ID o) = None ∧ stored d' (op_ID o) = Some r
  ∧ (∀ id, id ≠ op_ID o → stored d' id = stored d id)
  ∧ grants_part d' = grants_part d.
Proof.
  unfold insertOperation, insert_operation_row. rewrite seq_ok, refuse_ok. intros [Hk H].
  unfold insert_row in H. set (row := insertOperationParams _) in *.
  destruct (rows (lens_get operations_table d) !! orow_ID row) eqn:E; [done|].
  rewrite seq_ok in H. destruct H as [_ [= <-]].
  change (lens_get operations_table d) with (db_operations d) in *.
  set (d' := MkDatabase _ _ _ _ _ _ _). pose proof (λ id', stored_put row d d' id' eq_refl) as Hput.
  cbn zeta. split_and!.
  - intros id r' Hr' Hkey. unfold stored in Hr'. apply fmap_Some in Hr' as (row' & Hrow' & ->).
    apply not_true_iff_false in Hk. apply Hk. apply existsb_exists. exists row'. split.
    + apply list_elem_of_In, list_elem_of_fmap. exists (id, row'). split; [done|].
      by apply elem_of_map_to_list.
    + injection Hkey as H1 H2. unfold same_key. cbn in H1, H2 |- *. by rewrite H1, H2, !String.eqb_refl.
  - unfold stored. cbn in E |- *. by rewrite E.
  - by rewrite Hput, decide_True.
  - intros id Hne. rewrite Hput, decide_False; [done|]. cbn. congruence.
  - done.
Qed.

Lemma insertOperation_change (ok : State → Prop) (id : string) (input : Submission) (now : Time) (s : State)
    (d d' : Database) :
  s = StatePending ∨ s = StateApproved → ok s →
  insertOperation admits (operationRecord (new_operation id input now s)) d = Ok d' →
  table_change (insert_move ok now) d d'.
Proof.
  intros Hs Hok (Hk & Hn & Hr & Ho & Hg)%insertOperation_stored. change (op_ID _) with id in *.
  apply (table_change_at _ d d' id); [|exact Hg|exact Ho|].
  - rewrite Hn, Hr. split; [done|]. eexists. split; [done|]. split; [by apply initial_record_new|exact Hok].
  - intros r r' id' _ _ Hr1 Hr' E. rewrite Hr in Hr1. injection Hr1 as <-. by eapply Hk.
Qed.

(** The rows a purge leaves. *)
Lemma purged_stored (cutoff : Time) (d : Database) (id : string) :
  stored (lens_set operations_table
            (keep_rows (λ r, negb (terminal_before cutoff r)) (db_operations d)) d) id
  = r ← stored d id; match or_TerminalAt r with Some t => if t <? cutoff then None else Some r | None => Some r end.
Proof.
  unfold stored. cbn.
  destruct (rows (db_operations d) !! id) as [r|] eqn:E; cbn.
  - destruct (terminal_before cutoff r) eqn:Et; unfold terminal_before in Et.
    + rewrite (proj2 (map_lookup_filter_None _ _ id)); [by destruct (orow_TerminalAt r); rewrite ?Et|].
      right. intros r' Hr'. rewrite E in Hr'. injection Hr' as <-. cbn. unfold terminal_before. by rewrite Et.
    + rewrite (proj2 (map_lookup_filter_Some _ _ id r)); [by destruct (orow_TerminalAt r); rewrite ?Et|].
      cbn. unfold terminal_before. by rewrite Et.
  - rewrite (proj2 (map_lookup_filter_None _ _ id)); [done|]. by left.
Qed.

Lemma TerminalRetention_days (t now : Time) : t <? now - TerminalRetention = true → t + 30 * 24 * hour < now.
Proof. intros H%Z.ltb_lt. unfold TerminalRetention in H. lia. Qed.

Lemma delete_change (now : Time) (d : Database) :
  table_change (purge_move now) d
    (snd (DeleteTerminalOperationsBefore admits begin_tx commit_tx (now - TerminalRetention) d)).
Proof.
  unfold DeleteTerminalOperationsBefore. apply in_transaction_change. intros a d'.
  rewrite seq_ok. intros [_ H].
  assert (d' = lens_set operations_table (keep_rows (λ r, negb (terminal_before (now - TerminalRetention) r))
    (db_operations d)) d) as -> by by injection H as _ <-.
  split; [split|done].
  - intros id. rewrite purged_stored. destruct (stored d id) as [r|]; cbn; [|by left].
    destruct (or_TerminalAt r) as [t|] eqn:Eo; [|by left].
    destruct (t <? now - TerminalRetention) eqn:Et; [|by left]. right. split; [done|].
    exists r. split; [done|]. exists t. split; [done|]. by apply TerminalRetention_days.
  - intros Hu id1 id2 r1 r2. rewrite !purged_stored.
    intros (r1' & H1 & E1)%bind_Some (r2' & H2 & E2)%bind_Some. apply (Hu id1 id2).
    + rewrite H1. by repeat case_match; simplify_eq.
    + rewrite H2. by repeat case_match; simplify_eq.
Qed.

(** What [updateOperation] does with an operation that was read from the same tables. *)
Lemma updateOperation_step (id : string) (o o' : AgentOperation) (now : Time) (d d' : Database) (b : bool) :
  storedOperation (OperationByID id d) = Ok o → op_changes o o' →
  updateOperation admits (operationRecord (prepareOperationUpdate o' now)) (op_Revision o) d = Ok (b, d') →
  b = true ∧ ∃ r r', stored d id = Some r ∧ stored d' id = Some r' ∧ record_step now r r'
    ∧ or_State r = op_State o ∧ or_State r' = op_State o' ∧ operationFromRecord r = Ok o
    ∧ or_CreatedAt r' = op_CreatedAt o ∧ or_UpdatedAt r' = now
    ∧ (∀ id', id' ≠ id → stored d' id' = stored d id') ∧ grants_part d' = grants_part d.
Proof.
  intros Ho Hc. unfold OperationByID, Database_operation, GetOperationByID in Ho. cbn in Ho.
  destruct (rows (db_operations d) !! id) as [old|] eqn:E; [|done]. cbn in Ho.
  pose proof (rows_keyed (db_operations d) id old E) as Hid. cbn in Hid.
  pose proof (operationFromRecord_fields _ _ Ho) as (H1 & H2 & _ & _).
  injection H1 as E1 _ _ _ _ _ _ _ _ E10. injection H2 as F1 F2 _ _ _ _ _.
  pose proof (chg_identity _ _ Hc) as Hi. injection Hi as I1 _ _ _ _ _ _ _ _ _ _ _ _.
  unfold updateOperation. cbn [or_ID operationRecord prepareOperationUpdate op_ID].
  cbn in E1. rewrite I1, E1, Hid, E. cbn in F2. rewrite F2, Z.eqb_refl. rewrite seq_ok.
  intros [_ [= <- <-]]. split; [done|].
  set (d' := MkDatabase _ _ _ _ _ _ _).
  pose proof (λ id', stored_put (updated_row old (operationRecord (prepareOperationUpdate o' now))) d d'
    id' eq_refl) as Hput.
  exists (record_of_row old), (record_of_row (updated_row old (operationRecord (prepareOperationUpdate o' now)))).
  split_and!.
  - unfold stored. by rewrite E.
  - by rewrite Hput, decide_True.
  - by apply updated_row_step with (o := o).
  - by rewrite F1.
  - done.
  - done.
  - cbn. cbn in E10. by rewrite E10.
  - done.
  - intros id' Hne. rewrite Hput, decide_False; [done|]. cbn. congruence.
  - done.
Qed.

Lemma updateOperation_change (ok : State → Prop) (id : string) (o o' : AgentOperation) (now : Time)
    (d d' : Database) (b : bool) :
  storedOperation (OperationByID id d) = Ok o → op_changes o o' → ok (op_State o') →
  updateOperation admits (operationRecord (prepareOperationUpdate o' now)) (op_Revision o) d = Ok (b, d') →
  table_change (any_move ok now) d d'.
Proof.
  intros Ho Hc Hok Hu. destruct (updateOperation_step id o o' now d d' b Ho Hc Hu)
    as (_ & r & r' & Hr & Hr' & H & _ & Hs & _ & _ & _ & Hother & Hg).
  apply (table_change_at _ d d' id); [|done|done|]; rewrite Hr'.
  - rewrite Hr. split; [by apply change_step|]. intros r1 [= <-]. by rewrite Hs.
  - intros r1 r2 id' Hk Hne [= <-] H2 E. rewrite (step_key _ _ _ H) in E. by apply Hne, (Hk id' id r2 r).
Qed.
End lives.
