(* ===== verification/AgentHistory.v ===== *)
(** * Histories of the agent store

    Sequences of calls of the store, interleaved with anything that leaves the
    operations table alone (the grant store, delays, crashes).  Every step of a
    history changes each row as the automaton of AgentLives allows, at the
    readings of the clock of that very step; a row that is gone was deleted by
    one of the steps, more than thirty days after it ended; and an operation is
    claimed for execution at most once before that. *)

From S2P Require Export AgentLives.

Local Open Scope Z_scope.

(** ** Steps of the world *)

Section worlds.
Context {R : MapRange}.
Context `{JT : JSON Target} `{JA : JSON StringListMap} `{JM : JSON (gmap string string)}
  `{JE : JSON EventRecord} `{JG : JSON Grant}.
Context (admits : Database → Statement → result error unit)
  (begin_tx : nat → result error unit) (commit_tx : nat → CommitOutcome)
  (plandigest_Digest : string → string).
Context (clock : nat → Time).

#[local] Hint Extern 0 GrantStorage =>
  exact (sqlite admits begin_tx commit_tx plandigest_Digest) : typeclass_instances.

Notation stored_in w id := (stored (w_storage w) id).

(** The operations stay, or each row changes at most once, at one reading of the clock
    that lies between the two worlds. *)
Definition operations_change (ok : State → Prop) (w w' : World) : Prop :=
  (w_tick w <= w_tick w')%nat
  ∧ (rows_change no_move (w_storage w) (w_storage w')
     ∨ ∃ k, (w_tick w <= k < w_tick w')%nat
         ∧ rows_change (any_move ok (clock k)) (w_storage w) (w_storage w')).

(** The same for one row. *)
Definition row_changes (id : string) (w w' : World) : Prop :=
  stored_in w' id = stored_in w id
  ∨ ∃ k, (w_tick w <= k < w_tick w')%nat ∧ record_change (clock k) (stored_in w id) (stored_in w' id).

(** The step deletes the row of the operation, which ended at [t], at a reading of the
    clock that is more than thirty days later; a new operation may take its place. *)
Definition deletes (id : string) (t : Time) (w w' : World) : Prop :=
  ∃ r k, stored_in w id = Some r ∧ or_TerminalAt r = Some t
    ∧ (w_tick w <= k < w_tick w')%nat ∧ t + 30 * 24 * hour < clock k
    ∧ (stored_in w' id = None ∨ ∃ r', stored_in w' id = Some r' ∧ initial_record (clock k) r').

(** Steps of one operation at readings of the clock from [m] up to [n]. *)
Definition advanced (m n : nat) : OperationRecord → OperationRecord → Prop :=
  rtc (λ r r', ∃ k, (m <= k < n)%nat ∧ record_step (clock k) r r').

Lemma advanced_window (m n m' n' : nat) (r r' : OperationRecord) :
  (m' <= m)%nat → (n <= n')%nat → advanced m n r r' → advanced m' n' r r'.
Proof.
  intros Hm Hn. apply (rtc_congruence (λ x, x)). intros x y (k & Hk & H). exists k. split; [lia|done].
Qed.

Lemma operations_change_row (ok : State → Prop) (id : string) (w w' : World) :
  operations_change ok w w' → row_changes id w w'.
Proof.
  intros [_ [[H _]|(k & Hk & [H _])]]; [left; by destruct (H id)|].
  destruct (H id) as [E|[Hc _]]; [by left|right; eauto].
Qed.

(** A row in a state that the step cannot reach is as it was. *)
Lemma operations_change_stay (ok : State → Prop) (id : string) (w w' : World) (r : OperationRecord) :
  operations_change ok w w' → stored_in w' id = Some r → ¬ ok (or_State r) → stored_in w id = Some r.
Proof.
  intros [_ [[H _]|(k & _ & [H _])]] Hr Hok; [destruct (H id) as [E|[]]; congruence|].
  destruct (H id) as [E|[_ Hm]]; [congruence|]. by destruct Hok; apply Hm.
Qed.

Lemma operations_change_keys (ok : State → Prop) (w w' : World) :
  operations_change ok w w' → keys_unique (w_storage w) → keys_unique (w_storage w').
Proof. by intros [_ [[_ H]|(k & _ & [_ H])]]. Qed.

(** What one step makes of a row that is there. *)
Lemma row_changes_cases (id : string) (w w' : World) (r : OperationRecord) :
  row_changes id w w' → stored_in w id = Some r →
  (∃ r', stored_in w' id = Some r' ∧ advanced (w_tick w) (w_tick w') r r')
  ∨ ∃ t, or_TerminalAt r = Some t ∧ deletes id t w w'.
Proof.
  intros [E|(k & Hk & H)] Hr; [left; exists r; split; [congruence|apply rtc_refl]|].
  rewrite Hr in H. inversion H as [|? r1 Hs E1 E2|? Ht E1 E2|? r1 Ht Hi E1 E2]; subst.
  - left. exists r1. split; [done|]. apply rtc_once. eauto.
  - right. destruct Ht as (t & Ht & Hd). exists t. split; [done|]. exists r, k. eauto 10.
  - right. destruct Ht as (t & Ht & Hd). exists t. split; [done|]. exists r, k. split_and!; eauto 10; lia.
Qed.

(** The terminal time of a row is that of its start, or was read on the way. *)
Lemma advanced_terminal (m n : nat) (r r' : OperationRecord) (t : Time) :
  advanced m n r r' → or_TerminalAt r' = Some t →
  or_TerminalAt r = Some t ∨ or_TerminalAt r = None ∧ ∃ j, (m <= j < n)%nat ∧ t = clock j.
Proof.
  induction 1 as [r|r1 r2 r3 (k & Hk & Hs) _ IH]; [by left|]. intros H3.
  destruct (IH H3) as [H2|[_ Hj]]; right; (split; [by apply Hs|]); [|done].
  rewrite (step_terminal _ _ _ Hs) in H2. destruct (decide _) in H2; [|done]. injection H2 as <-. eauto.
Qed.

Lemma advanced_identity (m n : nat) (r r' : OperationRecord) :
  advanced m n r r' → identity r' = identity r.
Proof. induction 1 as [r|r1 r2 r3 (k & Hk & Hs) _ IH]; [done|]. rewrite IH. by apply Hs. Qed.

(** What holds in the states an operation goes to from where it holds. *)
Lemma advanced_state (p : State → Prop) (m n : nat) (r r' : OperationRecord) :
  (∀ s s', advances s s' → p s → p s') → advanced m n r r' → p (or_State r) → p (or_State r').
Proof.
  intros Hp. induction 1 as [r|r1 r2 r3 (k & Hk & Hs) _ IH]; [done|]. intros H1. apply IH.
  destruct (step_state _ _ _ Hs) as [Ha|[E ->]]; [by eapply Hp|by rewrite <- E].
Qed.

(** *** Histories of steps *)

Section steps.
Context {C : Type} (world : C → World) (step : C → C → Prop).
Hypothesis step_ticks : ∀ c c', step c c' → (w_tick (world c) <= w_tick (world c'))%nat.
Hypothesis step_rows : ∀ c c' id, step c c' → row_changes id (world c) (world c').

(** On the way from one configuration to another, a step deleted the row of the operation;
    the operation was [r] at the start and had ended at [t]. *)
Definition deleted_between (id : string) (r : OperationRecord) (t : Time) (c c' : C) : Prop :=
  ∃ a b r', rtc step c a ∧ step a b ∧ rtc step b c'
    ∧ stored_in (world a) id = Some r' ∧ advanced (w_tick (world c)) (w_tick (world a)) r r'
    ∧ or_TerminalAt r' = Some t ∧ deletes id t (world a) (world b).

Lemma steps_tick (c c' : C) : rtc step c c' → (w_tick (world c) <= w_tick (world c'))%nat.
Proof. induction 1 as [|c1 c2 c3 Hs _ IH]; [done|]. apply step_ticks in Hs. lia. Qed.

(** A row that was there is still there, some steps further, or was deleted on the way. *)
Lemma history_row (id : string) (r : OperationRecord) (c c' : C) :
  rtc step c c' → stored_in (world c) id = Some r →
  (∃ r', stored_in (world c') id = Some r' ∧ advanced (w_tick (world c)) (w_tick (world c')) r r')
  ∨ ∃ t, deleted_between id r t c c'.
Proof.
  intros H Hr. revert H. revert c'. refine (rtc_ind_r _ _ _ _).
  - left. exists r. split; [done|apply rtc_refl].
  - intros c1 c2 H1 H2 [(r1 & Hr1 & Ha)|(t & a & b & r1 & Hca & Hab & Hbc & Hrest)].
    + pose proof (step_ticks _ _ H2) as Ht. pose proof (steps_tick _ _ H1) as Ht'.
      destruct (row_changes_cases id (world c1) (world c2) r1 (step_rows _ _ id H2) Hr1)
        as [(r2 & Hr2 & Ha2)|(t & Ht2 & Hd)].
      * left. exists r2. split; [done|]. etrans.
        -- eapply advanced_window; [| |exact Ha]; lia.
        -- eapply advanced_window; [| |exact Ha2]; lia.
      * right. exists t, c1, c2, r1. split_and!; try done.
    + right. exists t, a, b, r1. split_and!; try apply Hrest; try done. by eapply rtc_r.
Qed.

(** When an operation was open, its end and its deletion were read from the clock on the way. *)
Lemma deleted_between_readings (id : string) (r : OperationRecord) (t : Time) (c c' : C) :
  deleted_between id r t c c' → or_TerminalAt r = None →
  ∃ j k, (w_tick (world c) <= j < k)%nat ∧ (k < w_tick (world c'))%nat ∧ t = clock j
    ∧ clock j + 30 * 24 * hour < clock k.
Proof.
  intros (a & b & r' & Hca & Hab & Hbc & Hr' & Ha & Ht & (r2 & k & Hr2 & Ht2 & Hk & Hd & _)) Hopen.
  destruct (advanced_terminal _ _ _ _ _ Ha Ht) as [|[_ (j & Hj & ->)]]; [congruence|].
  exists j, k. apply steps_tick in Hca, Hbc. split_and!; try done; lia.
Qed.
End steps.
End worlds.

Section keeps.
Context {R : MapRange} {RJ : RawJSON}.
Context `{JT : JSON Target} `{JA : JSON StringListMap} `{JM : JSON (gmap string string)}
  `{JE : JSON EventRecord} `{JG : JSON Grant} `{JP : JSON Presentation} `{JO : JSON OperationError}.
Context (admits : Database → Statement → result error unit)
  (begin_tx : nat → result error unit) (commit_tx : nat → CommitOutcome)
  (plandigest_Digest : string → string).
Context (clock : nat → Time) (new_id : nat → result error string) (ok : State → Prop).

#[local] Hint Extern 0 GrantStorage =>
  exact (sqlite admits begin_tx commit_tx plandigest_Digest) : typeclass_instances.

Notation operations_change := (operations_change admits begin_tx commit_tx plandigest_Digest clock).

(** ** Computations that change the operations once *)

(** What a computation does to the tables, when it changes rows by [moves]. *)
Definition changes {A} (moves : option OperationRecord → option OperationRecord → Prop) (m : Eff A) (w : World)
  : Prop :=
  table_change moves (w_storage w) (w_storage (snd (m w)))
  ∧ (w_tick w <= w_tick (snd (m w)))%nat ∧ (w_ids w <= w_ids (snd (m w)))%nat.

Notation still := (changes no_move).

(** A call of the agent store. *)
Definition keeps {A} (m : Eff A) (w : World) : Prop :=
  operations_change ok w (snd (m w)) ∧ (w_ids w <= w_ids (snd (m w)))%nat
  ∧ grants_part (w_storage (snd (m w))) = grants_part (w_storage w).

Lemma changes_compose {A B} moves1 moves2 moves3 (m : Eff A) (f : A → Eff B) (w : World) :
  (∀ x y, moves1 x y → moves3 x y) → (∀ x y, moves2 x y → moves3 x y) →
  (∀ x y z, moves1 x y → moves2 y z → moves3 x z) →
  changes moves1 m w → (∀ a w', m w = (a, w') → changes moves2 (f a) w') → changes moves3 (m ≫= f) w.
Proof.
  unfold changes. intros H1 H2 H12 (Hm & T1 & I1) Hf. rewrite bind_run. destruct (m w) as [a w'] eqn:E.
  destruct (Hf a w' eq_refl) as (Hf' & T2 & I2). cbn in *.
  split; [|lia]. by apply (table_change_compose moves1 moves2 moves3 _ (w_storage w')).
Qed.

Lemma changes_after {A B} moves (m : Eff A) (f : A → Eff B) (w : World) :
  still m w → (∀ a w', m w = (a, w') → changes moves (f a) w') → changes moves (m ≫= f) w.
Proof. apply changes_compose; [by intros ? ? []|done|by intros ? ? ? []]. Qed.

Lemma changes_before {A B} moves (m : Eff A) (f : A → Eff B) (w : World) :
  changes moves m w → (∀ a w', m w = (a, w') → still (f a) w') → changes moves (m ≫= f) w.
Proof. apply changes_compose; [done|by intros ? ? []|by intros ? ? ? _ []]. Qed.

(** A read of the database, a notification, a drawn identifier. *)
Lemma changes_same {A} moves (m : Eff A) (w : World) :
  w_storage (snd (m w)) = w_storage w → (w_tick w <= w_tick (snd (m w)))%nat →
  (w_ids w <= w_ids (snd (m w)))%nat → changes moves m w.
Proof. unfold changes. intros -> Ht Hi. split; [by apply same_operations_change|done]. Qed.

Lemma changes_ret {A} moves (a : A) (w : World) : changes moves (mret a) w.
Proof. by apply changes_same; rewrite ret_run. Qed.

Lemma changes_query {A} moves (f : Database → A) (w : World) :
  changes moves (query admits begin_tx commit_tx plandigest_Digest f) w.
Proof. by apply changes_same. Qed.

Lemma changes_notify moves (w : World) : changes moves (notify admits begin_tx commit_tx plandigest_Digest) w.
Proof. by apply changes_same. Qed.

Lemma changes_NewID moves (w : World) :
  changes moves (NewID admits begin_tx commit_tx plandigest_Digest new_id) w.
Proof. apply changes_same; cbn; [done|lia|lia]. Qed.

Lemma changes_now moves (w : World) : changes moves (clocked (now clock)) w.
Proof. apply changes_same; cbn; [done|lia|lia]. Qed.

Lemma changes_execute {A} moves (f : Database → result error A * Database) (w : World) :
  table_change moves (w_storage w) (snd (f (w_storage w))) →
  changes moves (execute admits begin_tx commit_tx plandigest_Digest f) w.
Proof. unfold changes, execute. by destruct (f (w_storage w)). Qed.

Lemma changes_written moves (o : AgentOperation) (updated : result error bool) (w : World) :
  changes moves (written admits begin_tx commit_tx plandigest_Digest o updated) w.
Proof.
  unfold written. destruct updated as [[]|e]; try apply changes_ret.
  apply changes_after; [apply changes_notify|]. intros. apply changes_ret.
Qed.

Lemma still_keeps {A} (m : Eff A) (w : World) : still m w → keeps m w.
Proof. intros ([H Hg] & Ht & Hi). split_and!; [|done|done]. split; [done|by left]. Qed.

Lemma keeps_ret {A} (a : A) (w : World) : keeps (mret a) w.
Proof. apply still_keeps, changes_ret. Qed.

Lemma operations_change_after (w w1 w2 : World) :
  w_storage w1 = w_storage w → (w_tick w <= w_tick w1)%nat → operations_change ok w1 w2 → operations_change ok w w2.
Proof.
  unfold operations_change. intros -> Ht [H1 [H|(k & Hk & H)]]; (split; [lia|]); [by left|right].
  exists k. split; [lia|done].
Qed.

Lemma keeps_query {A B} (q : Database → A) (f : A → Eff B) (w : World) :
  (∀ a, a = q (w_storage w) → keeps (f a) w) →
  keeps (query admits begin_tx commit_tx plandigest_Digest q ≫= f) w.
Proof. intros H. unfold keeps. rewrite bind_run. unfold query. by apply H. Qed.

(** What follows a reading of the clock changes the rows at that reading. *)
Lemma keeps_now {B} (f : Time → Eff B) (w : World) :
  (∀ w1, w_storage w1 = w_storage w →
     changes (any_move ok (clock (w_tick w))) (f (clock (w_tick w))) w1) →
  keeps (clocked (now clock) ≫= f) w.
Proof.
  intros H. unfold keeps. rewrite bind_run. destruct (clocked (now clock) w) as [t w1] eqn:E.
  unfold clocked, now in E. injection E as <- Ew.
  assert (w_storage w1 = w_storage w ∧ w_tick w1 = S (w_tick w) ∧ w_ids w1 = w_ids w) as (H1 & H2 & H3)
    by by subst w1.
  clear Ew. destruct (H w1 H1) as ([Hr Hg] & Ht & Hi). rewrite H1 in Hr, Hg.
  split_and!; [|lia|exact Hg]. split; [lia|]. right. exists (w_tick w). split; [lia|exact Hr].
Qed.

Lemma clocked_storage {A} (m : Clocked A) (w w' : World) (a : A) :
  clocked m w = (a, w') → w_storage w' = w_storage w.
Proof. unfold clocked. destruct (m (w_tick w)). by intros [= _ <-]. Qed.

Lemma now_reads (w w' : World) (t : Time) :
  clocked (now clock) w = (t, w') → ∃ n, t = clock n ∧ w_tick w = n ∧ w_tick w' = S n.
Proof. intros [= <- <-]. by eexists. Qed.

Lemma keeps_update (id : string) (change : AgentOperation → result error AgentOperation) (w : World) :
  (∀ o o', change o = Ok o' → op_changes o o' ∧ ok (op_State o')) →
  keeps (AgentStore.update admits begin_tx commit_tx plandigest_Digest clock id change) w.
Proof.
  intros Hc. unfold AgentStore.update. apply keeps_query. intros operation ->.
  destruct (storedOperation _) as [o|e] eqn:Eo; [|apply keeps_ret].
  destruct (change o) as [o'|e] eqn:Ec; [|apply keeps_ret].
  apply keeps_now. intros w1 Hw1. apply changes_before; [|intros; apply changes_written].
  apply changes_execute. rewrite Hw1. apply in_transaction_change.
  intros b d' H. apply bind_ok_iff in H as ([b' d1] & Hu & [= _ <-]).
  destruct (Hc _ _ Ec). by eapply updateOperation_change.
Qed.

Lemma keeps_bindplan (id : string) (plan : Plan) (approvalID : string) (direct : bool) (w : World) :
  ok StatePending → (direct = true → ok StateApproved) →
  keeps (BindPlan admits begin_tx commit_tx plandigest_Digest clock id plan approvalID direct) w.
Proof.
  intros Hpend Happ. unfold BindPlan. apply keeps_query. intros operation ->.
  destruct (storedOperation _) as [o|e] eqn:Eo; [|apply keeps_ret].
  destruct (validPlanBinding _ _ _ _) eqn:Ev; cbn [negb]; [|apply keeps_ret].
  set (o' := if direct then _ else _).
  assert (op_changes o o' ∧ ok (op_State o')) as [Hc Hok].
  { unfold validPlanBinding in Ev. rewrite !andb_true_iff in Ev.
    destruct Ev as [[[Hs%bool_decide_eq_true Hp%is_empty_spec] _] Hv].
    unfold o'. split; [destruct direct; constructor; cbn; rewrite ?Hs; auto|].
    destruct direct; cbn; [by apply Happ|by rewrite Hs]. }
  apply keeps_now. intros w1 Hw1. apply changes_before; [|intros; apply changes_written].
  apply changes_execute. rewrite Hw1.
  unfold UpdateOperationWithPlan. destruct (negb _); [by apply same_operations_change|].
  apply in_transaction_change. intros b d' H. apply bind_ok_iff in H as (d1 & Hp & H).
  apply bind_ok_iff in H as ([b' d2] & Hu & H). destruct b'; [|done]. injection H as <- <-.
  apply putPlan_operations in Hp as [Hp Hg].
  eapply table_change_after; [exact Hp|exact Hg|].
  eapply (updateOperation_change admits ok id o o'); eauto.
  unfold OperationByID, Database_operation, GetOperationByID in *. by rewrite Hp.
Qed.

(** The insertion of a new operation, with its plan or without. *)
Lemma changes_insert (id : string) (i : Submission) (t : Time) (plan : option Plan) (s : State) (w : World) :
  s = StatePending ∨ s = StateApproved → ok s →
  changes (insert_move ok t) (insert_operation admits begin_tx commit_tx plandigest_Digest
                                (new_operation id i t s) plan) w.
Proof.
  intros Hs Hok. unfold insert_operation.
  destruct plan as [plan|]; apply changes_execute, in_transaction_change.
  - intros [] d' H. apply bind_ok_iff in H as (d1 & Hp & H). rewrite seq_ok in H.
    destruct H as [_ H]. apply bind_ok_iff in H as (d2 & Hi & [= <-]).
    apply putPlan_operations in Hp as [Hp Hg]. eapply table_change_after; [exact Hp|exact Hg|].
    by eapply insertOperation_change.
  - intros [] d' H. apply bind_ok_iff in H as (d2 & Hi & [= <-]). by eapply insertOperation_change.
Qed.

Lemma changes_create (i : Submission) (t : Time) (plan : option Plan) (s : State) (w : World) :
  s = StatePending ∨ s = StateApproved → ok s →
  changes (insert_move ok t)
    (createOperation admits begin_tx commit_tx plandigest_Digest new_id i t plan s) w.
Proof.
  intros Hs Hok. unfold createOperation. apply changes_after; [apply changes_query|]. intros count w1 _.
  destruct (maxOperations <=? count); [apply changes_ret|].
  apply changes_after; [destruct (is_empty (sub_ID i)); [apply changes_NewID|apply changes_ret]|]. intros id w2 _.
  destruct id as [id|e]; [|apply changes_ret].
  apply changes_before; [by apply changes_insert|]. intros inserted w3 _.
  destruct inserted; [|apply changes_ret].
  apply changes_after; [apply changes_notify|]. intros. apply changes_ret.
Qed.

Lemma keeps_submit (input : Submission) (plan : option Plan) (s : State) (w : World) :
  s = StatePending ∨ s = StateApproved → ok s →
  keeps (submit admits begin_tx commit_tx plandigest_Digest clock new_id input plan s) w.
Proof.
  intros Hs Hok. unfold submit. destruct (normalizeSubmit input) as [i|e]; [|apply keeps_ret].
  unfold submitLocked. apply keeps_now. intros w1 _. set (t := clock (w_tick w)).
  eapply (changes_compose (purge_move t) (insert_move ok t));
    [apply purge_any|apply insert_any|apply purge_then_insert|apply changes_execute, delete_change|].
  intros deleted w2 _. destruct deleted as [k|e]; [|apply changes_ret].
  apply changes_after; [apply changes_after; [apply changes_query|intros; apply changes_ret]|].
  intros existing w3 _. destruct existing as [[o|]|e]; try apply changes_ret. by apply changes_create.
Qed.
End keeps.

Section history.
Context {R : MapRange} {RJ : RawJSON}.
Context `{JT : JSON Target} `{JA : JSON StringListMap} `{JM : JSON (gmap string string)}
  `{JE : JSON EventRecord} `{JG : JSON Grant} `{JP : JSON Presentation} `{JO : JSON OperationError}.
Context (admits : Database → Statement → result error unit)
  (begin_tx : nat → result error unit) (commit_tx : nat → CommitOutcome)
  (plandigest_Digest : string → string).
Context (clock : nat → Time) (new_id : nat → result error string).

#[local] Hint Extern 0 GrantStorage =>
  exact (sqlite admits begin_tx commit_tx plandigest_Digest) : typeclass_instances.

Notation row_changes := (row_changes admits begin_tx commit_tx plandigest_Digest clock).
Notation advanced := (advanced clock).

(** ** Histories *)

(** The calls that change operations. *)
Inductive AgentCall : Type :=
| CallSubmit (input : Submission)
| CallSubmitWithPlan (input : Submission) (plan : Plan)
| CallSubmitApprovedWithPlan (input : Submission) (plan : Plan)
| CallSubmitApprovedWithGrantPlan (input : Submission) (plan : Plan) (approvalID : string)
| CallCancel (clientID id : string)
| CallSetApproval (id approvalID : string)
| CallBindPlan (id : string) (plan : Plan) (approvalID : string) (direct : bool)
| CallTransition (id : string) (to : State)
| CallSucceed (id text : string)
| CallFail (id : string) (to : State) (code message : string).

Notation store f := (f admits begin_tx commit_tx plandigest_Digest clock) (only parsing).

(** The world a call leaves. *)
Definition after_call (c : AgentCall) (w : World) : World :=
  match c with
  | CallSubmit input => snd (store AgentStore.Submit new_id input w)
  | CallSubmitWithPlan input plan => snd (store AgentStore.SubmitWithPlan new_id input plan w)
  | CallSubmitApprovedWithPlan input plan => snd (store AgentStore.SubmitApprovedWithPlan new_id input plan w)
  | CallSubmitApprovedWithGrantPlan input plan approvalID =>
    snd (store AgentStore.SubmitApprovedWithGrantPlan new_id input plan approvalID w)
  | CallCancel clientID id => snd (store AgentStore.Cancel clientID id w)
  | CallSetApproval id approvalID => snd (store AgentStore.SetApproval id approvalID w)
  | CallBindPlan id plan approvalID direct => snd (store AgentStore.BindPlan id plan approvalID direct w)
  | CallTransition id to => snd (store AgentStore.Transition id to w)
  | CallSucceed id text => snd (store AgentStore.Succeed id text w)
  | CallFail id to code message => snd (store AgentStore.Fail_ id to code message w)
  end.

(** A call of the store, or anything else that leaves the operations as they are. *)
Inductive agent_step : World → World → Prop :=
| step_call (c : AgentCall) (w : World) : agent_step w (after_call c w)
| step_other (w w' : World) :
    db_operations (w_storage w') = db_operations (w_storage w) → (w_tick w <= w_tick w')%nat →
    agent_step w w'.

Lemma agent_step_change (w w' : World) :
  agent_step w w' → operations_change admits begin_tx commit_tx plandigest_Digest clock (λ _, True) w w'.
Proof.
  intros [c w0|w0 w1 H Ht]; [|split; [done|left; by apply same_operations_rows]].
  assert (∀ A (m : Eff A), keeps admits begin_tx commit_tx plandigest_Digest clock (λ _, True) m w0 →
    operations_change admits begin_tx commit_tx plandigest_Digest clock (λ _, True) w0 (snd (m w0))) as Hk
    by by intros A m [? _].
  destruct c; cbn [after_call]; apply Hk.
  - by apply keeps_submit; [left|].
  - by apply keeps_submit; [left|].
  - by apply keeps_submit; [right|].
  - unfold SubmitApprovedWithGrantPlan. destruct (is_empty _); [apply keeps_ret|].
    by apply keeps_submit; [right|].
  - apply keeps_update. intros o o' H. by apply cancel_changes in H as [? _].
  - apply keeps_update. intros o o' H. by apply approval_changes in H as [? _].
  - by apply keeps_bindplan.
  - apply keeps_update. intros o o' H. by apply transition_changes in H as [? _].
  - unfold Succeed. destruct (wrap_decode _ _); [|apply keeps_ret].
    apply keeps_update. intros o o' H. by apply succeed_changes in H as [? _].
  - unfold Fail_. destruct (negb _); [apply keeps_ret|]. destruct (negb _); [apply keeps_ret|].
    apply keeps_update. intros o o' H. by apply fail_changes in H as [? _].
Qed.

Lemma agent_step_row (w w' : World) (id : string) : agent_step w w' → row_changes id w w'.
Proof. intros H%agent_step_change. by eapply operations_change_row. Qed.

Lemma agent_step_ticks (w w' : World) : agent_step w w' → (w_tick w <= w_tick w')%nat.
Proof. by intros [H _]%agent_step_change. Qed.

Lemma history_keys (w w' : World) :
  rtc agent_step w w' → keys_unique (w_storage w) → keys_unique (w_storage w').
Proof.
  induction 1 as [w|w1 w2 w3 Hs _ IH]; [done|]. intros H. apply IH.
  by eapply operations_change_keys; [apply agent_step_change|].
Qed.

(** An operation was deleted by a step of a history. *)
Notation deleted_between := (deleted_between admits begin_tx commit_tx plandigest_Digest clock (λ w, w) agent_step).

Lemma agent_history_row (w w' : World) (id : string) (r : OperationRecord) :
  rtc agent_step w w' → stored (w_storage w) id = Some r →
  (∃ r', stored (w_storage w') id = Some r' ∧ advanced (w_tick w) (w_tick w') r r')
  ∨ ∃ t, deleted_between id r t w w'.
Proof.
  apply (history_row _ _ _ _ _ (λ w, w)); [apply agent_step_ticks|]. intros w1 w2 id'. apply agent_step_row.
Qed.

(** C19: In every history of the store, whatever the engine refuses or loses, each step
    changes each row at most once, at a reading of the clock of that very step: it
    inserts the row pending or approved at revision one, or advances it along the
    transitions of the state machine, its identity and input fixed, its revision
    counted and its terminal time set exactly by the change that ends it, or deletes it
    when it ended more than thirty days before.  So an operation that was stored is
    stored still, advanced by such steps only, or a step of the history deleted it, and
    if it was open at the start, both its end and its deletion were read from the clock
    within the history, more than thirty days apart; and no client has two operations
    with one idempotency key. *)
Theorem operations_live (w w1 w2 : World) :
  rtc agent_step w w1 → agent_step w1 w2 →
  (∀ id, row_changes id w1 w2)
  ∧ (∀ id r, stored (w_storage w) id = Some r →
       (∃ r', stored (w_storage w2) id = Some r' ∧ advanced (w_tick w) (w_tick w2) r r')
       ∨ ∃ t, deleted_between id r t w w2
           ∧ (or_TerminalAt r = None →
              ∃ j k, (w_tick w <= j < k)%nat ∧ (k < w_tick w2)%nat ∧ t = clock j
                ∧ clock j + 30 * 24 * hour < clock k))
  ∧ (keys_unique (w_storage w) → keys_unique (w_storage w2)).
Proof.
  intros H1 H2. assert (rtc agent_step w w2) as H by by eapply rtc_r. split_and!.
  - intros id. by apply agent_step_row.
  - intros id r Hr. destruct (agent_history_row w w2 id r H Hr) as [?|[t Ht]]; [by left|right].
    exists t. split; [done|]. intros Hopen.
    eapply (deleted_between_readings _ _ _ _ _ (λ w, w)); [apply agent_step_ticks|exact Ht|done].
  - by apply history_keys.
Qed.
End history.

(** * Claims of agent operations

    Moving an operation to [executing] is how a worker claims it.  The revision
    guard of the update and the transitions of the code make that claim unique
    in the life of an operation, over every history of the store and whatever
    the engine refuses or loses. *)

(** ** States that follow a claim *)

(** An operation that was claimed, or ended without a claim. *)
Definition past_approval (s : State) : bool :=
  match s with StatePending | StateApproved | StateOther _ => false | _ => true end.

Lemma past_approval_spec (s : State) :
  past_approval s = true ↔ s = StateExecuting ∨ Terminal s = true.
Proof. destruct s; cbn; naive_solver. Qed.

Lemma advances_past (s s' : State) : advances s s' → past_approval s = true → past_approval s' = true.
Proof. by intros []. Qed.

Section claims.
Context {R : MapRange} {RJ : RawJSON}.
Context `{JT : JSON Target} `{JA : JSON StringListMap} `{JM : JSON (gmap string string)}
  `{JE : JSON EventRecord} `{JG : JSON Grant} `{JP : JSON Presentation} `{JO : JSON OperationError}.
Context (admits : Database → Statement → result error unit)
  (begin_tx : nat → result error unit) (commit_tx : nat → CommitOutcome)
  (plandigest_Digest : string → string).
Context (clock : nat → Time) (new_id : nat → result error string).

#[local] Hint Extern 0 GrantStorage =>
  exact (sqlite admits begin_tx commit_tx plandigest_Digest) : typeclass_instances.

Notation store f := (f admits begin_tx commit_tx plandigest_Digest clock) (only parsing).
Notation steps := (agent_step admits begin_tx commit_tx plandigest_Digest clock new_id).

(** ** Successful updates *)

(** A transaction that succeeds kept what its body yields. *)
Lemma in_transaction_ok {A} (body : Database → result error (A * option Database)) (d d' : Database) (a : A) :
  in_transaction begin_tx commit_tx body d = (Ok a, d') →
  ∃ kept, body d = Ok (a, kept) ∧ ∀ id, stored d' id = stored (default d kept) id.
Proof.
  unfold in_transaction. destruct (begin_tx _); [|done].
  destruct (body d) as [[a' [d1|]]|e]; [|by intros [= -> <-]; eauto|done].
  destruct (commit_tx _); [|done|done]. intros [= -> <-]. by eauto.
Qed.

Lemma execute_ok {A} (f : Database → result error A * Database) (w w' : World) (a : result error A) :
  execute admits begin_tx commit_tx plandigest_Digest f w = (a, w') →
  f (w_storage w) = (a, w_storage w').
Proof.
  unfold execute.
  destruct (f (w_storage w)). by intros [= -> <-].
Qed.

Lemma written_ok (o o' : AgentOperation) (updated : result error bool) (w w' : World) :
  written admits begin_tx commit_tx plandigest_Digest o updated w = (Ok o', w') →
  updated = Ok true ∧ o' = o ∧ w_storage w' = w_storage w.
Proof.
  unfold written, notify. destruct updated as [[]|e]; [|by rewrite ret_run|by rewrite ret_run].
  rewrite bind_run. cbn. rewrite ret_run. by intros [= <- <-].
Qed.

(** What a call of [update] that returns an operation did, when its change is not
    one that may do nothing. *)
Lemma update_ok (id : string) (change : AgentOperation → result error AgentOperation) (w w' : World)
    (o' : AgentOperation) :
  (∀ o changed, change o = Ok changed → op_changes o changed) →
  (∀ o e, change o = Err e → errors_Is e errNoOperationChange = false) →
  store AgentStore.update id change w = (Ok o', w') →
  ∃ o changed r r' n, change o = Ok changed ∧ o' = prepareOperationUpdate changed (clock n)
    ∧ stored (w_storage w) id = Some r ∧ stored (w_storage w') id = Some r' ∧ record_step (clock n) r r'
    ∧ or_State r = op_State o ∧ or_State r' = op_State changed ∧ operationFromRecord r = Ok o
    ∧ or_CreatedAt r' = op_CreatedAt o ∧ or_UpdatedAt r' = clock n
    ∧ ∀ id', id' ≠ id → stored (w_storage w') id' = stored (w_storage w) id'.
Proof.
  intros Hc Hn. unfold AgentStore.update. rewrite bind_run. unfold query at 1.
  destruct (storedOperation _) as [o|e] eqn:Eo; [|by rewrite ret_run].
  destruct (change o) as [changed|e] eqn:Ec.
  2: { rewrite ret_run, (Hn _ _ Ec). done. }
  rewrite bind_run. destruct (clocked (now clock) w) as [t w1] eqn:Et.
  pose proof (now_reads _ _ _ _ _ _ _ _ Et) as (n & -> & Hn1 & _).
  apply clocked_storage in Et. rewrite bind_run.
  destruct (execute _ _ _ _ _ w1) as [updated w2] eqn:Ex. apply execute_ok in Ex.
  intros (-> & -> & Hw)%written_ok. rewrite Et in Ex. unfold UpdateOperation in Ex.
  apply in_transaction_ok in Ex as (kept & Hb & Hkept).
  apply bind_ok_iff in Hb as ([b d'] & Hu & [= -> <-]). cbn in Hkept.
  destruct (updateOperation_step _ _ _ _ _ _ _ _ Eo (Hc _ _ Ec) Hu)
    as (_ & r & r' & Hr & Hr' & Hs & H1 & H2 & H3 & H4 & H5 & H6 & _).
  exists o, changed, r, r', n. rewrite Hw. split_and!; try done.
  - by rewrite Hkept.
  - intros id' Hne. rewrite Hkept. by apply H6.
Qed.

Lemma stored_id (d : Database) (id : string) (r : OperationRecord) : stored d id = Some r → or_ID r = id.
Proof.
  unfold stored. intros (row & Hrow & ->)%fmap_Some. exact (rows_keyed (db_operations d) id row Hrow).
Qed.

Lemma transition_ok (id : string) (to : State) (w w' : World) (o' : AgentOperation) :
  store AgentStore.Transition id to w = (Ok o', w') →
  ∃ r r' k, stored (w_storage w) id = Some r ∧ stored (w_storage w') id = Some r' ∧ record_step (clock k) r r'
    ∧ advances (or_State r) to ∧ or_State r' = to ∧ op_ID o' = id.
Proof.
  intros H. apply update_ok in H.
  - destruct H as (o & changed & r & r' & n & Hc & -> & Hr & Hr' & Hs & H1 & H2 & Ho & _).
    pose proof (transition_changes _ _ _ Hc) as [Hch Ht].
    unfold transition_change in Hc. rewrite seq_ok, refuse_ok, negb_false_iff in Hc.
    destruct Hc as [Ha%allowedTransition_advances _].
    exists r, r', n. rewrite H1, H2. split_and!; try naive_solver.
    pose proof (chg_identity _ _ Hch) as Hi. injection Hi as Hid _ _ _ _ _ _ _ _ _ _ _ _.
    apply operationFromRecord_fields in Ho as (Hf & _). injection Hf as Hf _ _ _ _ _ _ _ _ _.
    change (op_ID changed = id). rewrite Hid, Hf. by eapply stored_id.
  - intros o changed Hc. by apply transition_changes in Hc as [? _].
  - intros o e. unfold transition_change. by destruct (allowedTransition _ _); intros [= <-].
Qed.

(** An update touches no other row. *)
Lemma update_only (id id' : string) (change : AgentOperation → result error AgentOperation) (w : World) :
  (∀ o changed, change o = Ok changed → op_changes o changed) → id' ≠ id →
  stored (w_storage (snd (store AgentStore.update id change w))) id' = stored (w_storage w) id'.
Proof.
  intros Hc Hne. unfold AgentStore.update. rewrite bind_run. unfold query at 1.
  destruct (storedOperation _) as [o|e] eqn:Eo; [|by rewrite ret_run].
  destruct (change o) as [changed|e] eqn:Ec; [|by rewrite ret_run].
  rewrite bind_run. destruct (clocked (now clock) w) as [t w1] eqn:Et. apply clocked_storage in Et.
  rewrite bind_run. destruct (execute _ _ _ _ _ w1) as [updated w2] eqn:Ex. apply execute_ok in Ex.
  assert (∀ p, w_storage (snd (written admits begin_tx commit_tx plandigest_Digest p updated w2)) = w_storage w2) as ->.
  { intros p. unfold written, notify. destruct updated as [[]|]; [|by rewrite ret_run|by rewrite ret_run].
    by rewrite bind_run. }
  rewrite <- Et. unfold UpdateOperation, in_transaction in Ex. revert Ex.
  destruct (begin_tx _); [|by intros [= _ <-]].
  destruct (updateOperation _ _ _ _) as [[b d']|] eqn:Eu; cbn; [|by intros [= _ <-]].
  assert (stored d' id' = stored (w_storage w1) id') as Hd'.
  { rewrite <- Et in Eo.
    destruct (updateOperation_step _ _ _ _ _ _ _ _ Eo (Hc _ _ Ec) Eu)
      as (_ & r & r' & _ & _ & _ & _ & _ & _ & _ & _ & Hother & _). by apply Hother. }
  destruct (commit_tx _); intros [= _ <-]; exact Hd' || reflexivity.
Qed.

(** C20: A worker claims an operation at most once in its life: if the move to
    [executing] succeeds twice on one identifier, with any calls, failures and delays in
    between, then a step in between deleted the operation of the first claim, after the
    clock read its end and later an instant more than thirty days past that; the second
    claim is of another operation, inserted since.  In a history that does not last so
    long the second claim is refused. *)
Theorem claims_exclusive (id : string) (w1 w2 w3 w4 : World) (o1 o2 : AgentOperation) :
  store AgentStore.Transition id StateExecuting w1 = (Ok o1, w2) →
  rtc steps w2 w3 →
  store AgentStore.Transition id StateExecuting w3 = (Ok o2, w4) →
  ∃ r t j k, stored (w_storage w2) id = Some r
    ∧ deleted_between admits begin_tx commit_tx plandigest_Digest clock (λ w, w) steps id r t w2 w3
    ∧ t = clock j ∧ (w_tick w2 <= j < k)%nat ∧ (k < w_tick w3)%nat
    ∧ clock j + 30 * 24 * hour < clock k.
Proof.
  intros (r & r' & k1 & _ & Hr' & Hstep & _ & Hs & _)%transition_ok Hh
    (r3 & r4 & k3 & Hr3 & _ & _ & Ha & _)%transition_ok.
  destruct (agent_history_row _ _ _ _ _ _ _ _ id r' Hh Hr') as [(r5 & Hr5 & Hadv)|[t Ht]].
  - rewrite Hr3 in Hr5. injection Hr5 as <-.
    assert (past_approval (or_State r3) = true) as Hp.
    { refine (advanced_state _ (λ s, past_approval s = true) _ _ _ _ advances_past Hadv _). by rewrite Hs. }
    inversion Ha as [| | HA| | | |]. by rewrite <- HA in Hp.
  - assert (or_TerminalAt r' = None) as Hopen.
    { rewrite (step_terminal _ _ _ Hstep), Hs. reflexivity. }
    destruct (deleted_between_readings _ _ _ _ _ (λ w, w) steps (agent_step_ticks _ _ _ _ _ _) id r' t w2 w3 Ht Hopen)
      as (j & k & H1 & H2 & H3 & H4).
    exists r', t, j, k. split_and!; try done; lia.
Qed.
End claims.
