(* ===== verification/AgentSubmissions.v ===== *)
(** * Submissions of agent operations

    A submission is normalised, purges the operations that ended long ago, and
    then replays the operation of its client and idempotency key, refuses one
    that differs, or inserts a new one with its plan in one transaction. *)

From S2P Require Export AgentHistory GrantsPlans.

Local Open Scope Z_scope.

(** The client and idempotency key a submission is stored under. *)
Definition submission_key (input : Submission) : string * string :=
  (trim_space (sub_ClientID input), trim_space (sub_IdempotencyKey input)).

(** The row of an operation as [insertOperation] writes it. *)
Definition inserted_record `{JSON Presentation, JSON OperationError} (o : AgentOperation) : OperationRecord :=
  record_of_row (insertOperationParams (operationRecord o)).

(** ** Purged rows *)

(** The rows are those of [d], except for some that were purged at [now]. *)
Definition purged_rows (now : Time) (d d' : Database) : Prop :=
  ∀ id, stored d' id = stored d id ∨ purge_move now (stored d id) (stored d' id).

(** ** Lookup by key *)

Lemma find_stored (clientID key : string) (d : Database) (r : OperationRecord) :
  OperationByIdempotency clientID key d = Ok r →
  stored d (or_ID r) = Some r ∧ record_key r = (clientID, key).
Proof.
  unfold OperationByIdempotency, FindOperationByIdempotency.
  destruct (List.find _ _) as [row|] eqn:E; [|done]. cbn. intros [= <-].
  apply find_some in E as [Hin Hk]. unfold operation_rows in Hin.
  apply list_elem_of_In, list_elem_of_fmap in Hin as ([id row'] & -> & Hin).
  apply elem_of_map_to_list in Hin. pose proof (rows_keyed _ _ _ Hin) as <-. cbn in Hk |- *.
  unfold stored. rewrite Hin. split; [done|]. unfold same_key in Hk.
  rewrite andb_true_iff, !String.eqb_eq in Hk. destruct Hk as [<- <-]. done.
Qed.

Lemma find_present (clientID key id : string) (d : Database) (r : OperationRecord) :
  stored d id = Some r → record_key r = (clientID, key) →
  ∃ r', OperationByIdempotency clientID key d = Ok r'.
Proof.
  unfold stored. intros (row & Hrow & ->)%fmap_Some [= <- <-].
  unfold OperationByIdempotency, FindOperationByIdempotency.
  destruct (List.find _ _) as [row'|] eqn:E; [by eexists|exfalso].
  assert (row ∈ operation_rows d) as Hin.
  { apply list_elem_of_fmap. exists (id, row). split; [done|]. by apply elem_of_map_to_list. }
  apply list_elem_of_In, (find_none _ _ E) in Hin. unfold same_key in Hin.
  by rewrite !String.eqb_refl in Hin.
Qed.

Section submissions.
Context {R : MapRange} {RJ : RawJSON}.
Context `{JT : JSON Target} `{JA : JSON StringListMap} `{JM : JSON (gmap string string)}
  `{JE : JSON EventRecord} `{JG : JSON Grant} `{JP : JSON Presentation} `{JO : JSON OperationError}.
Context (admits : Database → Statement → result error unit)
  (begin_tx : nat → result error unit) (commit_tx : nat → CommitOutcome)
  (plandigest_Digest : string → string).
Context (clock : nat → Time) (new_id : nat → result error string).

#[local] Hint Extern 0 GrantStorage =>
  exact (sqlite admits begin_tx commit_tx plandigest_Digest) : typeclass_instances.

Notation store f := (f admits begin_tx commit_tx plandigest_Digest clock) (only parsing).
Notation steps := (agent_step admits begin_tx commit_tx plandigest_Digest clock new_id).

(** ** The steps of a submission *)

Lemma normalizeSubmit_key (input i : Submission) :
  normalizeSubmit input = Ok i →
  (sub_ClientID i, sub_IdempotencyKey i) = submission_key input
  ∧ sub_PlanDigest i = trim_space (sub_PlanDigest input).
Proof.
  unfold normalizeSubmit. rewrite !seq_ok. intros (_ & _ & H).
  apply bind_ok_iff in H as (t & _ & H). apply bind_ok_iff in H as (a & _ & [= <-]). done.
Qed.

Lemma execute_tick {A} (f : Database → result error A * Database) (w w' : World) (a : result error A) :
  execute admits begin_tx commit_tx plandigest_Digest f w = (a, w') → w_tick w' = w_tick w.
Proof. unfold execute. destruct (f (w_storage w)). by intros [= _ <-]. Qed.

Lemma delete_ok (now : Time) (d d' : Database) (r : result error Z) :
  DeleteTerminalOperationsBefore admits begin_tx commit_tx (now - TerminalRetention) d = (r, d') →
  purged_rows now d d'.
Proof.
  pose proof (delete_change admits begin_tx commit_tx now d) as [[H _] _]. intros E. by rewrite E in H.
Qed.

Lemma findSubmission_ok (input : Submission) (w w' : World) (out : result error (option AgentOperation)) :
  findSubmission admits begin_tx commit_tx plandigest_Digest input w = (out, w') →
  w_storage w' = w_storage w
  ∧ match out with
    | Ok (Some o) => ∃ r, stored (w_storage w) (op_ID o) = Some r
        ∧ record_key r = (sub_ClientID input, sub_IdempotencyKey input)
        ∧ operationFromRecord r = Ok o ∧ sameSubmission o input = true
    | Ok None => ∀ id r, stored (w_storage w) id = Some r →
        record_key r ≠ (sub_ClientID input, sub_IdempotencyKey input)
    | Err _ => True
    end.
Proof.
  unfold findSubmission. rewrite bind_run. unfold query.
  rewrite ret_run. intros [= <- <-]. split; [done|].
  destruct (OperationByIdempotency _ _ _) as [r|e] eqn:E.
  - destruct (operationFromRecord r) as [o|e] eqn:Eo; [|done]. cbn.
    destruct (sameSubmission o input) eqn:Es; [|done]. cbn.
    pose proof (operationFromRecord_fields _ _ Eo) as (Hf & _). injection Hf as -> _ _ _ _ _ _ _ _ _.
    apply find_stored in E as [Hr Hk]. by exists r.
  - destruct (error_is e _); [|done]. intros id r Hr Hk.
    destruct (find_present _ _ _ _ _ Hr Hk) as [r' Hr']. by rewrite Hr' in E.
Qed.

(** The plan of an operation, once committed with it. *)
Definition plan_bound (plan : option Plan) (o : AgentOperation) (d : Database) : Prop :=
  ∀ p, plan = Some p → stored_plan d (plan_Digest p) = Some p ∧ op_PlanDigest o = plan_Digest p
    ∧ plan_Digest p = plandigest_Digest (plan_Canonical p).

(** The insert of an operation: done with its plan, or nothing changed when commits
    are acknowledged. *)
Lemma insert_operation_ok (o : AgentOperation) (plan : option Plan) (w w' : World) (out : result error unit) :
  insert_operation admits begin_tx commit_tx plandigest_Digest o plan w = (out, w') →
  match out with
  | Ok _ => (∀ id r, stored (w_storage w) id = Some r → record_key r ≠ record_key (inserted_record o))
      ∧ stored (w_storage w) (op_ID o) = None ∧ stored (w_storage w') (op_ID o) = Some (inserted_record o)
      ∧ (∀ id, id ≠ op_ID o → stored (w_storage w') id = stored (w_storage w) id)
      ∧ plan_bound plan o (w_storage w')
  | Err _ => (∀ m e, commit_tx m ≠ Unacknowledged e) →
      db_operations (w_storage w') = db_operations (w_storage w)
  end.
Proof.
  set (insert_body := λ d : Database, match plan with
    | None => d ← insertOperation admits (operationRecord o) d; Ok (tt, Some d)
    | Some plan =>
      d ← putPlanWithQueries admits plandigest_Digest plan d;
      refuse (negb (String.eqb (op_PlanDigest o) (plan_Digest plan)))
        (errorf "operation plan digest does not match immutable plan" []) ;;;
      d ← insertOperation admits (operationRecord o) d;
      Ok (tt, Some d)
    end).
  intros H. assert (in_transaction begin_tx commit_tx insert_body (w_storage w) = (out, w_storage w')) as Hx.
  { unfold insert_operation in H. by destruct plan; apply execute_ok in H. }
  clear H. unfold in_transaction in Hx. revert Hx.
  destruct (begin_tx _); [|intros [= <- <-]; done].
  destruct (insert_body _) as [[[] kept]|e] eqn:Eb; [|intros [= <- <-]; done].
  assert (∃ d1 d2, kept = Some d2 ∧ db_operations d1 = db_operations (w_storage w)
    ∧ insertOperation admits (operationRecord o) d1 = Ok d2 ∧ plan_bound plan o d2) as (d1 & d2 & -> & Hd1 & Hi & Hp).
  { unfold insert_body in Eb. destruct plan as [p|].
    - apply bind_ok_iff in Eb as (d1 & Hput & H). rewrite seq_ok, refuse_ok, negb_false_iff in H.
      destruct H as [Heq%String.eqb_eq H]. apply bind_ok_iff in H as (d2 & Hi & [= <-]).
      exists d1, d2. split_and!; [done|by eapply (proj1 (putPlan_operations _ _ _ _ _ Hput))|done|].
      pose proof (putPlan_ok _ _ _ _ _ Hput) as (_ & [_ Hp] & Hd).
      intros q [= <-]. split_and!; try done. unfold stored_plan.
      unfold insertOperation, insert_operation_row in Hi. apply seq_ok in Hi as [_ Hi].
      apply (insert_row_kept admits db_plans operations_table) in Hi; [|done]. by rewrite Hi.
    - apply bind_ok_iff in Eb as (d2 & Hi & [= <-]). by exists (w_storage w), d2. }
  assert (∀ id, stored d1 id = stored (w_storage w) id) as Hsame by (intros id; unfold stored; by rewrite Hd1).
  apply insertOperation_stored in Hi as (Hk & Hn & Hr & Ho & _).
  destruct (commit_tx _) eqn:Ec; intros [= <- <-]; [|done|by intros Hu; destruct (Hu _ _ Ec)].
  split_and!.
  - intros id r Hr'. apply (Hk id). by rewrite Hsame.
  - by rewrite <- Hsame.
  - exact Hr.
  - intros id Hne. rewrite <- Hsame. by apply Ho.
  - exact Hp.
Qed.

(** ** Whole submissions *)

(** What a submission with these results did to the database. *)
Definition submission_outcome (input : Submission) (plan : option Plan) (s : State) (now : Time)
    (d d' : Database) (out : Submitted) : Prop :=
  match out with
  | Ok (o, true) => ∃ i d1, normalizeSubmit input = Ok i ∧ purged_rows now d d1
      ∧ (∀ id r, stored d1 id = Some r → record_key r ≠ submission_key input)
      ∧ CountOperations d1 < maxOperations
      ∧ o = new_operation (op_ID o) i now s
      ∧ stored d1 (op_ID o) = None ∧ stored d' (op_ID o) = Some (inserted_record o)
      ∧ (∀ id, id ≠ op_ID o → stored d' id = stored d1 id)
      ∧ plan_bound plan o d'
  | Ok (o, false) => ∃ i r, normalizeSubmit input = Ok i ∧ purged_rows now d d'
      ∧ stored d' (op_ID o) = Some r ∧ record_key r = submission_key input
      ∧ operationFromRecord r = Ok o ∧ sameSubmission o i = true
  | Err _ => (∀ m e, commit_tx m ≠ Unacknowledged e) → purged_rows now d d'
  end.

Lemma same_rows_purged (now : Time) (d d1 d2 : Database) :
  purged_rows now d d1 → db_operations d2 = db_operations d1 → purged_rows now d d2.
Proof. intros Hp H id. unfold stored. rewrite H. apply Hp. Qed.

Lemma purged_rows_refl (now : Time) (d : Database) : purged_rows now d d.
Proof. by left. Qed.

Lemma createOperation_ok (input i : Submission) (now : Time) (plan : option Plan) (s : State)
    (w w' : World) (d : Database) (out : Submitted) :
  normalizeSubmit input = Ok i → purged_rows now d (w_storage w) →
  (∀ id r, stored (w_storage w) id = Some r → record_key r ≠ submission_key input) →
  createOperation admits begin_tx commit_tx plandigest_Digest new_id i now plan s w = (out, w') →
  submission_outcome input plan s now d (w_storage w') out ∧ w_tick w' = w_tick w.
Proof.
  intros Hi Hp Hk. unfold createOperation. rewrite bind_run. unfold query.
  destruct (Z.leb_spec maxOperations (CountOperations (w_storage w))) as [|Hcount];
    [rewrite ret_run; intros [<- <-]%pair_equal_spec; by split; [intros _|]|].
  rewrite bind_run.
  assert (∃ r w1, (if is_empty (sub_ID i) then NewID admits begin_tx commit_tx plandigest_Digest new_id
                   else mret (Ok (sub_ID i))) w = (r, w1) ∧ w_storage w1 = w_storage w ∧ w_tick w1 = w_tick w)
    as (id & w1 & E & Hw1 & Ht1).
  { destruct (is_empty _); by do 2 eexists. }
  rewrite E. destruct id as [id|e].
  2: { rewrite ret_run. intros [<- <-]%pair_equal_spec. split; [intros _; by rewrite Hw1|done]. }
  rewrite bind_run. destruct (insert_operation _ _ _ _ _ _ w1) as [inserted w2] eqn:Ein.
  assert (w_tick w2 = w_tick w1) as Ht2.
  { unfold insert_operation in Ein. by destruct plan; apply execute_tick in Ein. }
  apply insert_operation_ok in Ein. rewrite Hw1 in Ein.
  destruct inserted as [[]|e].
  2: { rewrite ret_run. intros [<- <-]%pair_equal_spec. split; [|congruence].
       intros Hu. by eapply same_rows_purged, Ein. }
  destruct Ein as (_ & Hn & Hr & Ho & Hplan). unfold notify. rewrite bind_run, ret_run.
  intros [<- <-]%pair_equal_spec. cbn [w_storage w_tick]. split; [|congruence].
  exists i, (w_storage w). by split_and!.
Qed.

(** A submission that returns a new operation normalised its input, purged only
    operations that ended thirty days ago, found no operation of the same client and
    idempotency key and room in the store, and inserted exactly the operation it
    returns, pending or approved at revision one, together with its immutable plan.
    One that replays returns the stored operation of that key, which was submitted
    with the same input, and adds nothing.  One that fails leaves every other row. *)
Lemma submit_outcome (input : Submission) (plan : option Plan) (s : State) (w w' : World)
    (out : Submitted) :
  store AgentStore.submit new_id input plan s w = (out, w') →
  (∃ e, out = Err e ∧ w' = w)
  ∨ submission_outcome input plan s (clock (w_tick w)) (w_storage w) (w_storage w') out
    ∧ w_tick w' = S (w_tick w).
Proof.
  unfold AgentStore.submit. destruct (normalizeSubmit input) as [i|e] eqn:Ei.
  2: { rewrite ret_run. intros [<- <-]%pair_equal_spec. left. by eexists. }
  intros H. right. revert H.
  pose proof (normalizeSubmit_key _ _ Ei) as [Hkey _].
  unfold submitLocked. rewrite bind_run.
  destruct (clocked (now clock) w) as [t w1] eqn:Et.
  pose proof (now_reads _ _ _ _ _ _ _ _ Et) as (n & -> & <- & Ht1). apply clocked_storage in Et.
  rewrite bind_run. destruct (execute _ _ _ _ _ w1) as [deleted w2] eqn:Ed.
  assert (w_tick w2 = S (w_tick w)) as Ht2.
  { rewrite <- Ht1. by apply execute_tick in Ed. }
  apply execute_ok in Ed. rewrite Et in Ed. apply delete_ok in Ed as Hp.
  destruct deleted as [k|e].
  2: { rewrite ret_run. intros [<- <-]%pair_equal_spec. by split; [intros _|]. }
  rewrite bind_run. destruct (findSubmission _ _ _ _ _ w2) as [existing w3] eqn:Ef.
  assert (w_tick w3 = w_tick w2) as Ht3.
  { unfold findSubmission in Ef. rewrite bind_run in Ef. unfold query in Ef. rewrite ret_run in Ef.
    by injection Ef as _ <-. }
  apply findSubmission_ok in Ef as [Hw3 Hf]. rewrite <- Hw3 in *. rewrite Hkey in Hf.
  destruct existing as [[o|]|e].
  - rewrite ret_run. intros [<- <-]%pair_equal_spec. split; [|congruence].
    destruct Hf as (r & H1 & H2 & H3 & H4). by exists i, r.
  - intros H. destruct (createOperation_ok input i (clock (w_tick w)) plan s w3 w' (w_storage w) out
      Ei Hp Hf H) as [Hout Ht]. split; [exact Hout|congruence].
  - rewrite ret_run. intros [<- <-]%pair_equal_spec. split; [by intros _|congruence].
Qed.

(** The operation a submission returns is stored under its key. *)
Lemma submit_stored (input : Submission) (plan : option Plan) (s : State) (w w' : World)
    (o : AgentOperation) (created : bool) :
  store AgentStore.submit new_id input plan s w = (Ok (o, created), w') →
  ∃ r, stored (w_storage w') (op_ID o) = Some r ∧ record_key r = submission_key input.
Proof.
  intros [(e & [=] & _)|[H _]]%submit_outcome. destruct created; cbn in H.
  - destruct H as (i & d1 & Hi & _ & _ & _ & Ho & _ & Hr & _).
    exists (inserted_record o). split; [exact Hr|]. rewrite Ho.
    by apply normalizeSubmit_key in Hi as [<- _].
  - destruct H as (i & r & _ & _ & Hr & Hk & _). by exists r.
Qed.

(** While a key is stored, submissions of it return its operation. *)
Lemma submit_again (input : Submission) (plan : option Plan) (s : State) (w w' : World)
    (id : string) (r : OperationRecord) (o : AgentOperation) (created : bool) :
  keys_unique (w_storage w) → stored (w_storage w) id = Some r → record_key r = submission_key input →
  store AgentStore.submit new_id input plan s w = (Ok (o, created), w') →
  (op_ID o = id ∧ created = false)
  ∨ retired (clock (w_tick w)) r ∧ w_tick w' = S (w_tick w).
Proof.
  intros Hu Hr Hk [(e & [=] & _)|[H Ht]]%submit_outcome. destruct created; cbn in H.
  - right. split; [|done]. destruct H as (i & d1 & _ & Hp & Hnone & _).
    destruct (Hp id) as [E|(_ & r' & Hr' & Hret)]; [destruct (Hnone id r); [by rewrite E|done]|].
    by assert (r' = r) as -> by congruence.
  - destruct H as (i & r' & _ & Hp & Hr' & Hk' & _).
    destruct (Hp (op_ID o)) as [E|(E & _)]; [|congruence].
    left. split; [|done]. rewrite E in Hr'. apply (Hu _ _ r' r); [done..|]. congruence.
Qed.

(** C21: One idempotency key of a client names one operation: after a submission
    returned an operation, a later submission under the same key that returns one,
    whatever happened in between and whatever it asks for, returns the same operation
    and creates none; unless the operation advanced to its end at some time [t] and the
    clock read, up to the second submission, an instant more than thirty days past that
    (when it was open at first, its end too was read from the clock since). *)
Theorem submission_idempotent (input1 input2 : Submission) (plan1 plan2 : option Plan) (s1 s2 : State)
    (w1 w2 w3 w4 : World) (o1 o2 : AgentOperation) (created1 created2 : bool) :
  keys_unique (w_storage w2) →
  store AgentStore.submit new_id input1 plan1 s1 w1 = (Ok (o1, created1), w2) →
  rtc steps w2 w3 →
  store AgentStore.submit new_id input2 plan2 s2 w3 = (Ok (o2, created2), w4) →
  submission_key input1 = submission_key input2 →
  (op_ID o2 = op_ID o1 ∧ created2 = false)
  ∨ ∃ r r' t k, stored (w_storage w2) (op_ID o1) = Some r ∧ advanced clock (w_tick w2) k r r'
      ∧ or_TerminalAt r' = Some t ∧ (w_tick w2 <= k < w_tick w4)%nat ∧ t + 30 * 24 * hour < clock k
      ∧ (or_TerminalAt r = None → ∃ j, (w_tick w2 <= j < k)%nat ∧ t = clock j).
Proof.
  intros Hu (r & Hr & Hk)%submit_stored Hh H2 Ekey.
  pose proof (history_keys _ _ _ _ _ _ _ _ Hh Hu) as Hu3.
  pose proof (steps_tick _ _ _ _ (λ w, w) steps (agent_step_ticks _ _ _ _ _ _) w2 w3 Hh) as Ht23.
  assert (w_tick w4 = S (w_tick w3)) as Ht4.
  { destruct (submit_outcome _ _ _ _ _ _ H2) as [(e & [=] & _)|[_ Ht]]. exact Ht. }
  destruct (agent_history_row _ _ _ _ _ _ _ _ _ r Hh Hr) as [(r' & Hr' & Hadv)|[t Hd]].
  - assert (record_key r' = submission_key input2) as Hk'.
    { pose proof (advanced_identity _ _ _ _ _ Hadv) as E. injection E as _ _ _ E4 E5 _ _ _ _ _ _.
      rewrite <- Ekey, <- Hk. unfold record_key. congruence. }
    destruct (submit_again _ _ _ _ _ _ _ _ _ Hu3 Hr' Hk' H2) as [?|[(t & Ht & Hlt) _]]; [by left|right].
    exists r, r', t, (w_tick w3). split_and!; try done; try lia.
    intros Hopen. destruct (advanced_terminal _ _ _ _ _ _ Hadv Ht) as [|[_ Hj]]; [congruence|exact Hj].
  - right. destruct Hd as (a & b & r' & Ha & _ & Hb & _ & Hadv & Ht & (r2 & k & _ & _ & Hk2 & Hlt & _)).
    apply (steps_tick _ _ _ _ (λ w, w) steps (agent_step_ticks _ _ _ _ _ _)) in Ha, Hb. cbn in Ha, Hb.
    assert (advanced clock (w_tick w2) k r r') as Hadv' by (eapply advanced_window; [| |exact Hadv]; lia).
    exists r, r', t, k. split_and!; try done; try lia.
    intros Hopen. destruct (advanced_terminal _ _ _ _ _ _ Hadv' Ht) as [|[_ Hj]]; [congruence|exact Hj].
Qed.

(** An operation created approved under a grant is never detached from its
    authority: it names the grant it was submitted with, its plan is in the database
    under the digest it names, the digest is that of the plan's text, and the stored
    row is the operation the caller was given. *)
Theorem approved_submission_bound (input : Submission) (plan : Plan) (approvalID : string)
    (w w' : World) (o : AgentOperation) :
  store AgentStore.SubmitApprovedWithGrantPlan new_id input plan approvalID w = (Ok (o, true), w') →
  op_State o = StateApproved ∧ op_ApprovalID o = trim_space approvalID ∧ op_ApprovalID o ≠ EmptyString
  ∧ stored_plan (w_storage w') (op_PlanDigest o) = Some plan
  ∧ op_PlanDigest o = plandigest_Digest (plan_Canonical plan)
  ∧ stored (w_storage w') (op_ID o) = Some (inserted_record o).
Proof.
  unfold SubmitApprovedWithGrantPlan. destruct (is_empty _) eqn:Ea; [by rewrite ret_run|].
  intros [(e & [=] & _)|[(i & d1 & Hi & _ & _ & _ & Ho & _ & Hr & _ & Hp) _]]%submit_outcome.
  destruct (Hp plan eq_refl) as (Hplan & Hd & Hdigest).
  assert (sub_ApprovalID i = trim_space approvalID) as Happ.
  { unfold normalizeSubmit in Hi. rewrite !seq_ok in Hi. destruct Hi as (_ & _ & H).
    apply bind_ok_iff in H as (t & _ & H). apply bind_ok_iff in H as (a & _ & [= <-]). cbn.
    apply trim_space_idem. }
  rewrite Hd in *. split_and!; try done; try (rewrite Ho; cbn; done).
  rewrite Ho. cbn. rewrite Happ. intros E. by rewrite <- is_empty_spec in E; cbn in Ea; rewrite E in Ea.
Qed.
End submissions.
