(* ===== verification/AgentExamples.v ===== *)
(** * Sessions of the agent store

    What happens when the clock is set back, and a session on a concrete engine,
    codec and clock to which the properties of the store are applied. *)

From S2P Require Export AgentSubmissions.

Local Open Scope Z_scope.

Section clock.
Context {R : MapRange} {RJ : RawJSON}.
Context `{JT : JSON Target} `{JA : JSON StringListMap} `{JM : JSON (gmap string string)}
  `{JE : JSON EventRecord} `{JG : JSON Grant} `{JP : JSON Presentation} `{JO : JSON OperationError}.
Context (admits : Database → Statement → result error unit)
  (begin_tx : nat → result error unit) (commit_tx : nat → CommitOutcome)
  (plandigest_Digest : string → string).
Context (clock : nat → Time).

#[local] Hint Extern 0 GrantStorage =>
  exact (sqlite admits begin_tx commit_tx plandigest_Digest) : typeclass_instances.

Notation store f := (f admits begin_tx commit_tx plandigest_Digest) (only parsing).

(** A record whose last change precedes its creation does not decode. *)
Lemma backwards_undecodable (r : OperationRecord) :
  or_UpdatedAt r < or_CreatedAt r → ∃ e, operationFromRecord r = Err e.
Proof.
  intros H. destruct (operationFromRecord r) as [o|e] eqn:E; [exfalso|by eexists].
  pose proof (operationFromRecord_fields _ _ E) as (H1 & H2 & _ & Hv).
  injection H1 as _ _ _ _ _ _ _ _ _ Hc. injection H2 as _ _ Hu _ _ _ _.
  unfold validateStored in Hv. apply seq_ok in Hv as [Hid _].
  rewrite refuse_ok, negb_false_iff in Hid. unfold validStoredIdentity in Hid.
  rewrite !andb_true_iff in Hid. destruct Hid as [_ Hb%negb_true_iff].
  unfold time_before in Hb. apply Z.ltb_ge in Hb. lia.
Qed.

Lemma collect_err {A B} (f : A → result error B) (l : list A) (a : A) (e : error) :
  a ∈ l → f a = Err e → ∃ e', collect f l = Err e'.
Proof.
  intros Ha Hf. destruct (collect f l) as [bs|e'] eqn:E; [exfalso|by eexists].
  apply collect_ok in E. apply list_elem_of_lookup in Ha as [i Hi].
  destruct (Forall2_lookup_l _ _ _ _ _ E Hi) as (b & _ & H). congruence.
Qed.

(** Every row of an unfinished state is listed. *)
Lemma unfinished_listed (d : Database) (id : string) (r : OperationRecord) :
  stored d id = Some r → unfinished_state (or_State r) = true → r ∈ UnfinishedOperations d.
Proof.
  unfold stored. intros (row & Hrow & ->)%fmap_Some Hs. unfold UnfinishedOperations.
  apply list_elem_of_fmap. exists row. split; [done|]. unfold ListUnfinishedOperations.
  apply list_elem_of_In, filter_In. split; [|exact Hs]. apply list_elem_of_In.
  unfold select_all. rewrite merge_sort_Permutation. apply list_elem_of_fmap. exists (id, row).
  split; [done|]. by apply elem_of_map_to_list.
Qed.

(** After a transition that returns an operation whose last change precedes its
    creation, because the clock was set back in between, the operation cannot be read
    by its identifier, and while it is unfinished no unfinished operation can be
    listed: the start and every round of the workers stop at it. *)
Theorem clock_set_back_unreadable (id : string) (to : State) (w w' : World) (o : AgentOperation) :
  store AgentStore.Transition clock id to w = (Ok o, w') → op_UpdatedAt o < op_CreatedAt o →
  (∃ e, fst (store AgentStore.GetByID id w') = Err e)
  ∧ (Terminal to = false → ∃ e, fst (store AgentStore.ListUnfinished w') = Err e).
Proof.
  intros H Hback. unfold AgentStore.Transition in H. apply update_ok in H.
  2: { intros o1 changed Hc. by apply transition_changes in Hc as [? _]. }
  2: { intros o1 e. unfold transition_change. by destruct (allowedTransition _ _); intros [= <-]. }
  destruct H as (o1 & changed & r & r' & n & Hc & -> & _ & Hr' & _ & _ & Hs & _ & Hcr & Hup & _).
  pose proof (transition_changes _ _ _ Hc) as [Hch Ht].
  pose proof (chg_identity _ _ Hch) as Hi. injection Hi as _ _ _ _ _ _ _ _ _ Hcreated _ _ _.
  cbn in Hback. destruct (backwards_undecodable r') as [e He]; [rewrite Hcr, Hup; lia|].
  split.
  - unfold AgentStore.GetByID, query. cbn [fst]. unfold OperationByID, Database_operation, GetOperationByID.
    cbn. unfold stored in Hr'. destruct (rows _ !! id) as [row|] eqn:E; [|done]. injection Hr' as <-.
    cbn. by eexists.
  - intros Hterm. unfold AgentStore.ListUnfinished, query. cbn [fst].
    eapply collect_err; [|exact He]. eapply unfinished_listed; [exact Hr'|].
    rewrite Hs, Ht. by destruct to.
Qed.
End clock.

(** * A session of the agent store

    A concrete engine, codec and clock, a session on them, and the properties of
    the agent store applied to it: an operation created under a grant, claimed,
    failed, replayed, and purged a month later. *)

(** ** The session *)

Definition sample_presentation : Presentation := MkPresentation "Merge" "Merge the branch".

#[local] Instance sample_raw_json : RawJSON :=
  {| json_object value := Ok value; json_Compact value := Some value |}.
#[local] Instance presentation_codec : JSON Presentation := listed_codec [sample_presentation].
#[local] Instance operation_error_codec : JSON OperationError :=
  listed_codec [MkOperationError "upstream_failed" "Upstream failed"].

Definition sample_input : Submission :=
  MkSubmission "op_123456" "github" "alice" " key-1" "pr.merge" "{}" "{}" "ship it" sample_presentation
    EmptyString EmptyString.

(** A clock that ticks by the hour, and by a month after its third reading. *)
Definition monthly (n : nat) : Time :=
  if (n <? 3)%nat then (Z.of_nat n + 1) * hour else Z.of_nat n * (31 * 24 * hour).

(** A clock that is set back after its first reading. *)
Definition set_back (n : nat) : Time := match n with O => 2 * hour | S _ => hour end.

Notation engine f := (f admit_all begin_all commit_all sample_sha) (only parsing).

#[local] Hint Extern 0 GrantStorage =>
  exact (sqlite admit_all begin_all commit_all sample_sha) : typeclass_instances.

Definition world_0 : World := MkWorld empty_database 0 0 0.

Definition submitted_1 :=
  engine AgentStore.SubmitApprovedWithGrantPlan monthly counting_ids sample_input sample_plan " grant-1" world_0.
Definition world_1 := snd submitted_1.
Definition claimed_1 := engine AgentStore.Transition monthly "op_123456" StateExecuting world_1.
Definition world_2 := snd claimed_1.
Definition failed_1 :=
  engine AgentStore.Fail_ monthly "op_123456" StateFailed "upstream_failed" "Upstream failed" world_2.
Definition world_3 := snd failed_1.
(** The same key a month later: the first operation is purged, a second one created. *)
Definition submitted_2 :=
  engine AgentStore.SubmitApprovedWithGrantPlan monthly counting_ids sample_input sample_plan " grant-1" world_3.
Definition world_4 := snd submitted_2.
Definition claimed_2 := engine AgentStore.Transition monthly "op_123456" StateExecuting world_4.

(** The key again while the first operation is executing. *)
Definition bound_input : Submission := with_plan_digest sample_digest (with_submission_approval "grant-1" sample_input).
Definition created_1 := engine AgentStore.submit monthly counting_ids bound_input (Some sample_plan) StateApproved world_0.
Definition executing_1 := engine AgentStore.Transition monthly "op_123456" StateExecuting (snd created_1).
Definition replayed_1 :=
  engine AgentStore.submit monthly counting_ids bound_input (Some sample_plan) StateApproved (snd executing_1).

(** A transition after the clock was set back. *)
Definition submitted_b :=
  engine AgentStore.SubmitApprovedWithGrantPlan set_back counting_ids sample_input sample_plan " grant-1" world_0.
Definition claimed_b := engine AgentStore.Transition set_back "op_123456" StateExecuting (snd submitted_b).

Definition operation_of (r : result error AgentOperation) : AgentOperation :=
  match r with Ok o => o | Err _ => new_operation EmptyString sample_input 0 StatePending end.

Definition submitted_of (r : Submitted) : AgentOperation := operation_of (fst <$> r).

Lemma ran (p : result error AgentOperation * World) :
  is_ok (fst p) = true → p = (Ok (operation_of (fst p)), snd p).
Proof. by destruct p as [[o|e] w]. Qed.

Lemma ran_submission (p : Submitted * World) (created : bool) :
  snd <$> fst p = Ok created → p = (Ok (submitted_of (fst p), created), snd p).
Proof. destruct p as [[[o c]|e] w]; [|done]. by intros [= <-]. Qed.

Example session_results :
  (op_State ∘ fst <$> fst submitted_1) = Ok StateApproved
  ∧ (op_State <$> fst claimed_1) = Ok StateExecuting
  ∧ (op_Revision <$> fst failed_1) = Ok 3
  ∧ (snd <$> fst submitted_2) = Ok true
  ∧ (op_Revision <$> fst claimed_2) = Ok 2
  ∧ (snd <$> fst replayed_1) = Ok false
  ∧ is_ok (fst claimed_b) = true.
Proof. vm_compute. repeat split. Qed.

(** ** The properties on the session *)

Notation history := (rtc (agent_step admit_all begin_all commit_all sample_sha monthly counting_ids)) (only parsing).

Lemma world_2_step : agent_step admit_all begin_all commit_all sample_sha monthly counting_ids world_1 world_2.
Proof. exact (step_call _ _ _ _ _ _ (CallTransition "op_123456" StateExecuting) world_1). Qed.

Lemma world_3_step : agent_step admit_all begin_all commit_all sample_sha monthly counting_ids world_2 world_3.
Proof.
  exact (step_call _ _ _ _ _ _ (CallFail "op_123456" StateFailed "upstream_failed" "Upstream failed") world_2).
Qed.

Lemma world_4_step : agent_step admit_all begin_all commit_all sample_sha monthly counting_ids world_3 world_4.
Proof.
  exact (step_call _ _ _ _ _ _ (CallSubmitApprovedWithGrantPlan sample_input sample_plan " grant-1") world_3).
Qed.

Lemma world_1_step : agent_step admit_all begin_all commit_all sample_sha monthly counting_ids world_0 world_1.
Proof.
  exact (step_call _ _ _ _ _ _ (CallSubmitApprovedWithGrantPlan sample_input sample_plan " grant-1") world_0).
Qed.

Lemma one_row_unique (d : Database) (id : string) :
  dom (rows (db_operations d)) = {[id]} → keys_unique d.
Proof.
  intros Hd id1 id2 r1 r2 H1 H2 _. unfold stored in H1, H2.
  apply fmap_Some in H1 as (x1 & H1%elem_of_dom_2 & _). apply fmap_Some in H2 as (x2 & H2%elem_of_dom_2 & _).
  rewrite Hd in H1, H2. set_solver.
Qed.

Notation sample_steps := (agent_step admit_all begin_all commit_all sample_sha monthly counting_ids) (only parsing).
Notation sample_deleted := (deleted_between admit_all begin_all commit_all sample_sha monthly (λ w, w) sample_steps)
  (only parsing).

Lemma operations_live_witness :
  history world_1 world_3 ∧ sample_steps world_3 world_4
  ∧ is_Some (stored (w_storage world_1) "op_123456")
  ∧ (∀ id, row_changes admit_all begin_all commit_all sample_sha monthly id world_3 world_4)
  ∧ (∀ id r, stored (w_storage world_1) id = Some r →
       (∃ r', stored (w_storage world_4) id = Some r' ∧ advanced monthly (w_tick world_1) (w_tick world_4) r r')
       ∨ ∃ t, sample_deleted id r t world_1 world_4
           ∧ (or_TerminalAt r = None →
              ∃ j k, (w_tick world_1 <= j < k)%nat ∧ (k < w_tick world_4)%nat ∧ t = monthly j
                ∧ monthly j + 30 * 24 * hour < monthly k))
  ∧ (keys_unique (w_storage world_1) → keys_unique (w_storage world_4)).
Proof.
  assert (history world_1 world_3) as H.
  { eapply rtc_l; [exact world_2_step|]. apply rtc_once. exact world_3_step. }
  split; [exact H|]. split; [exact world_4_step|]. split; [vm_compute; by eexists|].
  exact (operations_live admit_all begin_all commit_all sample_sha monthly counting_ids world_1 world_3 world_4
    H world_4_step).
Defined.

Lemma claims_exclusive_witness :
  is_ok (fst claimed_1) = true ∧ is_ok (fst claimed_2) = true
  ∧ ∃ r t j k, stored (w_storage world_2) "op_123456" = Some r
    ∧ sample_deleted "op_123456" r t world_2 world_4
    ∧ t = monthly j ∧ (w_tick world_2 <= j < k)%nat ∧ (k < w_tick world_4)%nat
    ∧ monthly j + 30 * 24 * hour < monthly k.
Proof.
  split; [by vm_compute|]. split; [by vm_compute|].
  assert (claimed_1 = (Ok (operation_of (fst claimed_1)), world_2)) as H1 by (apply ran; vm_compute; reflexivity).
  assert (claimed_2 = (Ok (operation_of (fst claimed_2)), snd claimed_2)) as H2 by (apply ran; vm_compute; reflexivity).
  apply (claims_exclusive admit_all begin_all commit_all sample_sha monthly counting_ids "op_123456"
    world_1 world_2 world_4 (snd claimed_2) (operation_of (fst claimed_1)) (operation_of (fst claimed_2)) H1);
    [|exact H2].
  eapply rtc_l; [exact world_3_step|]. apply rtc_once. exact world_4_step.
Defined.

Lemma submission_idempotent_witness :
  is_ok (fst replayed_1) = true
  ∧ ((op_ID (submitted_of (fst replayed_1)) = op_ID (submitted_of (fst created_1)) ∧ false = false)
     ∨ ∃ r r' t k, stored (w_storage (snd created_1)) (op_ID (submitted_of (fst created_1))) = Some r
         ∧ advanced monthly (w_tick (snd created_1)) k r r' ∧ or_TerminalAt r' = Some t
         ∧ (w_tick (snd created_1) <= k < w_tick (snd replayed_1))%nat ∧ t + 30 * 24 * hour < monthly k
         ∧ (or_TerminalAt r = None → ∃ j, (w_tick (snd created_1) <= j < k)%nat ∧ t = monthly j)).
Proof.
  split; [by vm_compute|].
  assert (created_1 = (Ok (submitted_of (fst created_1), true), snd created_1)) as H1
    by (apply ran_submission; vm_compute; reflexivity).
  assert (replayed_1 = (Ok (submitted_of (fst replayed_1), false), snd replayed_1)) as H2
    by (apply ran_submission; vm_compute; reflexivity).
  apply (submission_idempotent admit_all begin_all commit_all sample_sha monthly counting_ids bound_input bound_input
    (Some sample_plan) (Some sample_plan) StateApproved StateApproved world_0 (snd created_1) (snd executing_1) (snd replayed_1)
    (submitted_of (fst created_1)) (submitted_of (fst replayed_1)) true false).
  - apply (one_row_unique _ "op_123456"). vm_compute. reflexivity.
  - exact H1.
  - apply rtc_once.
    exact (step_call _ _ _ _ _ _ (CallTransition "op_123456" StateExecuting) (snd created_1)).
  - exact H2.
  - reflexivity.
Defined.

Lemma approved_submission_bound_witness :
  is_ok (fst submitted_1) = true
  ∧ op_State (submitted_of (fst submitted_1)) = StateApproved
  ∧ op_ApprovalID (submitted_of (fst submitted_1)) = trim_space " grant-1"
  ∧ op_ApprovalID (submitted_of (fst submitted_1)) ≠ EmptyString
  ∧ stored_plan (w_storage world_1) (op_PlanDigest (submitted_of (fst submitted_1))) = Some sample_plan
  ∧ op_PlanDigest (submitted_of (fst submitted_1)) = sample_sha (plan_Canonical sample_plan)
  ∧ stored (w_storage world_1) (op_ID (submitted_of (fst submitted_1)))
    = Some (inserted_record (submitted_of (fst submitted_1))).
Proof.
  split; [by vm_compute|].
  apply (approved_submission_bound admit_all begin_all commit_all sample_sha monthly counting_ids sample_input
    sample_plan " grant-1" world_0 world_1 (submitted_of (fst submitted_1))).
  apply (ran_submission submitted_1). vm_compute. reflexivity.
Defined.

Lemma clock_set_back_unreadable_witness :
  is_ok (fst claimed_b) = true
  ∧ (∃ e, fst (engine AgentStore.GetByID "op_123456" (snd claimed_b)) = Err e)
  ∧ (Terminal StateExecuting = false →
     ∃ e, fst (engine AgentStore.ListUnfinished (snd claimed_b)) = Err e).
Proof.
  split; [by vm_compute|].
  apply (clock_set_back_unreadable admit_all begin_all commit_all sample_sha set_back "op_123456"
    StateExecuting (snd submitted_b) (snd claimed_b) (operation_of (fst claimed_b))).
  - apply (ran claimed_b). vm_compute. reflexivity.
  - vm_compute. reflexivity.
Defined.
