(* ===== verification/Capability.v ===== *)
(** * The capability catalog: [operation/capability/catalog.go]

    The descriptors of the operations a broker advertises, and the checks a
    catalog passes before it is used: identities, order, surfaces, and the
    policy effects that may hold by default.

    The patterns of the source are anchored and use only character classes,
    repetition and one group; they are written out as functions on bytes.  A
    slice that may be nil is an option, because [reflect.DeepEqual] tells a nil
    slice from an empty one. *)

From S2P Require Export Budget Errors.
From Stdlib Require Import Ascii.

Local Open Scope Z_scope.

(** ** Data *)

Inductive AuthorizationMode : Type :=
| ModeWindow
| ModeExecution
| ModeOther (text : string).

Inductive ImplementationStatus : Type :=
| StatusImplemented
| StatusProtocol
| StatusGraphQL
| StatusInternal
| StatusOperatorOnly
| StatusLocal
| StatusDuplicate
| StatusBlockedCredential
| StatusBlockedUpstream
| StatusCataloged
| StatusUnknown (text : string).

Inductive Risk : Type := RiskLow | RiskMedium | RiskHigh | RiskCritical | RiskOther (text : string).

Inductive DefaultPolicyEffect : Type :=
| DefaultEffectAllow
| DefaultEffectRequest
| DefaultEffectDeny
| DefaultEffectOther (text : string).

Record Descriptor : Type := MkDescriptor {
  desc_Name : string;
  desc_OperationRevision : Z;
  desc_Summary : string;
  desc_Disposition : string;
  desc_DefaultAuthorizationMode : AuthorizationMode;
  desc_AuthorizationModes : option (list AuthorizationMode);
  desc_ExplicitOnly : bool;
  desc_Sealed : bool;
  desc_CredentialOutputKind : option string;
  desc_Internal : bool;
  desc_Implementation : ImplementationStatus;
  desc_Risk : Risk;
  desc_DefaultPolicyEffect : DefaultPolicyEffect;
  desc_TargetKind : string;
  desc_MaxUses : Z;
  desc_RequestTTLSeconds : Z;
  desc_ApprovalTTLSeconds : Z;
  desc_FamilyGlobAllowed : bool;
  desc_AgentFacing : bool;
  desc_MCPTool : option string;
  desc_CLICommand : option string;
  desc_TargetSchema : string;
  desc_ArgumentSchema : string;
  desc_ResultSchema : string;
  desc_CredentialKind : string;
  desc_SealedInputPaths : option (list string);
  desc_UpstreamBindingIDs : option (list string);
  desc_ExecutorKind : string;
  desc_ReconcilerKind : string
}.

#[export] Instance AuthorizationMode_eq_dec : EqDecision AuthorizationMode.
Proof. solve_decision. Defined.
#[export] Instance ImplementationStatus_eq_dec : EqDecision ImplementationStatus.
Proof. solve_decision. Defined.
#[export] Instance Risk_eq_dec : EqDecision Risk.
Proof. solve_decision. Defined.
#[export] Instance DefaultPolicyEffect_eq_dec : EqDecision DefaultPolicyEffect.
Proof. solve_decision. Defined.
#[export] Instance Descriptor_eq_dec : EqDecision Descriptor.
Proof. solve_decision. Defined.

Record ValidationOptions : Type := MkValidationOptions {
  vopts_Provider : string;
  vopts_ExpectedCount : Z;
  vopts_MCPToolPrefix : string;
  vopts_RequireDefaultPolicyEffect : bool
}.

(** ** Patterns *)

Definition lower (c : ascii) : bool := let b := byte_of c in (97 <=? b) && (b <=? 122).
Definition digit (c : ascii) : bool := let b := byte_of c in (48 <=? b) && (b <=? 57).

(** [^[a-z]tail*$] *)
Definition matches_word (tail : ascii → bool) (s : string) : bool :=
  match list_of_string s with [] => false | c :: rest => lower c && forallb tail rest end.

Definition identifier_tail (c : ascii) : bool := lower c || digit c || bool_decide (c = "_"%char).
Definition kind_tail (c : ascii) : bool := lower c || digit c || bool_decide (c = "-"%char).

(** [^[a-z][a-z0-9_]*$] *)
Definition targetPattern : string → bool := matches_word identifier_tail.
Definition toolPattern : string → bool := matches_word identifier_tail.
(** [^[a-z][a-z0-9-]*$] *)
Definition credentialKindPattern : string → bool := matches_word kind_tail.
(** Two or more such identifiers, separated by dots. *)
Definition operationPattern (s : string) : bool :=
  let parts := split_byte "."%char s in
  (2 <=? length parts)%nat && forallb targetPattern parts.

(** ** Descriptors *)

Definition AllowsAuthorizationMode (d : Descriptor) (mode : AuthorizationMode) : bool :=
  bool_decide (mode ∈ default [] (desc_AuthorizationModes d)).

Definition HasExecutionDisposition (d : Descriptor) : bool := contains "E" (desc_Disposition d).

Definition validStatus (s : ImplementationStatus) : bool :=
  match s with StatusUnknown _ => false | _ => true end.

Definition validRisk (r : Risk) : bool := match r with RiskOther _ => false | _ => true end.

Definition validIdentity (d : Descriptor) : bool :=
  operationPattern (desc_Name d) && (desc_OperationRevision d =? 1) && targetPattern (desc_TargetKind d).

Definition validLifecycle (d : Descriptor) : bool :=
  validStatus (desc_Implementation d) && validRisk (desc_Risk d)
  && (0 <? desc_RequestTTLSeconds d) && (0 <? desc_ApprovalTTLSeconds d).

Definition validateAuthorization (d : Descriptor) : result error unit :=
  refuse (negb (bool_decide (desc_DefaultAuthorizationMode d = ModeWindow)))
    (errorf "operation %q must default to window authorization" [desc_Name d]) ;;;
  refuse (negb (bool_decide (default [] (desc_AuthorizationModes d) = [ModeWindow; ModeExecution])))
    (errorf "operation %q must support window and execution authorization" [desc_Name d]) ;;;
  refuse ((desc_MaxUses d <? 2) || (MaxFiniteUses <? desc_MaxUses d))
    (errorf "operation %q has invalid reusable window use semantics" [desc_Name d]).

Definition invalidCredentialOutput (d : Descriptor) : bool :=
  match desc_CredentialOutputKind d with
  | None => false
  | Some kind => negb (desc_Sealed d) || negb (desc_ExplicitOnly d) || negb (credentialKindPattern kind)
  end.

Definition validateSecretDisposition (d : Descriptor) : result error unit :=
  refuse (desc_ExplicitOnly d && desc_FamilyGlobAllowed d)
    (errorf "explicit operation %q allows family globs" [desc_Name d]) ;;;
  refuse (invalidCredentialOutput d) (errorf "credential output operation %q is invalid" [desc_Name d]).

Definition validateDisposition (d : Descriptor) : result error unit :=
  refuse (negb (Bool.eqb (desc_ExplicitOnly d) (contains "X" (desc_Disposition d)))
          || negb (Bool.eqb (desc_Sealed d) (contains "S" (desc_Disposition d)))
          || negb (Bool.eqb (desc_Internal d) (contains "I" (desc_Disposition d))))
    (errorf "operation %q disposition flags drifted" [desc_Name d]) ;;;
  validateSecretDisposition d.

Definition validInternalSurface (d : Descriptor) : bool :=
  if desc_AgentFacing d || bool_decide (is_Some (desc_MCPTool d)) || bool_decide (is_Some (desc_CLICommand d))
  then false
  else bool_decide (desc_Implementation d = StatusInternal)
       || bool_decide (desc_Implementation d = StatusCataloged).

Definition validAgentSurface (d : Descriptor) (toolPrefix : string) : bool :=
  match desc_MCPTool d, desc_CLICommand d with
  | Some tool, Some command => has_prefix toolPrefix tool && toolPattern tool && negb (is_blank command)
  | _, _ => false
  end.

Definition validateSurface (d : Descriptor) (toolPrefix : string) : result error unit :=
  refuse (desc_Internal d && negb (validInternalSurface d))
    (errorf "internal operation %q is agent-facing" [desc_Name d]) ;;;
  refuse (desc_AgentFacing d && negb (validAgentSurface d toolPrefix))
    (errorf "agent-facing operation %q has invalid UX metadata" [desc_Name d]).

Definition operationRequiresDefaultDeny (d : Descriptor) : bool :=
  desc_Internal d || negb (desc_AgentFacing d) || bool_decide (is_Some (desc_CredentialOutputKind d)).

Definition operationIsUnsafeDefaultAllow (d : Descriptor) : bool :=
  bool_decide (desc_Risk d = RiskHigh) || bool_decide (desc_Risk d = RiskCritical)
  || contains "E" (desc_Disposition d) || desc_ExplicitOnly d || desc_Sealed d.

Definition validateDefaultPolicyEffect (d : Descriptor) : result error unit :=
  refuse (negb (bool_decide (desc_DefaultPolicyEffect d
            ∈ [DefaultEffectAllow; DefaultEffectRequest; DefaultEffectDeny])))
    (errorf "operation %q has invalid default policy effect" [desc_Name d]) ;;;
  refuse (operationRequiresDefaultDeny d
          && negb (bool_decide (desc_DefaultPolicyEffect d = DefaultEffectDeny)))
    (errorf "operation %q must be denied by default" [desc_Name d]) ;;;
  refuse (bool_decide (desc_DefaultPolicyEffect d = DefaultEffectAllow) && operationIsUnsafeDefaultAllow d)
    (errorf "dangerous operation %q cannot be allowed by default" [desc_Name d]).

Definition validateDescriptor (d : Descriptor) (options : ValidationOptions) : result error unit :=
  refuse (negb (validIdentity d)) (errorf "operation identity is invalid" []) ;;;
  refuse (negb (validLifecycle d)) (errorf "operation %q has invalid lifecycle metadata" [desc_Name d]) ;;;
  (if vopts_RequireDefaultPolicyEffect options then validateDefaultPolicyEffect d else Ok tt) ;;;
  validateAuthorization d ;;;
  validateDisposition d ;;;
  validateSurface d (vopts_MCPToolPrefix options).

(** ** Catalogs *)

Record catalogIndex : Type := MkCatalogIndex {
  cat_names : gset string;
  cat_tools : gset string;
  cat_commands : gset string;
  cat_previous : string
}.

Definition newCatalogIndex : catalogIndex := MkCatalogIndex ∅ ∅ ∅ EmptyString.

Definition registerOptional (kind : string) (value : option string) (seen : gset string)
  : result error (gset string) :=
  match value with
  | None => Ok seen
  | Some value =>
    refuse (bool_decide (value ∈ seen)) (errorf "%s %q is duplicated" [kind; value]) ;;;
    Ok ({[value]} ∪ seen)
  end.

(** [catalogIndex.add] *)
Definition catalog_add (c : catalogIndex) (d : Descriptor) (options : ValidationOptions)
  : result error catalogIndex :=
  match validateDescriptor d options with
  | Err e => Err (Errorf "catalog entry %d: %w" [] [e])
  | Ok _ =>
    refuse (bool_decide (desc_Name d ∈ cat_names c) || negb (string_ltb (cat_previous c) (desc_Name d)))
      (errorf "operation %q is duplicated or out of order" [desc_Name d]) ;;;
    tools ← registerOptional "MCP tool" (desc_MCPTool d) (cat_tools c);
    commands ← registerOptional "CLI command" (desc_CLICommand d) (cat_commands c);
    Ok (MkCatalogIndex ({[desc_Name d]} ∪ cat_names c) tools commands (desc_Name d))
  end.

Definition validateOptions (options : ValidationOptions) : result error unit :=
  refuse (is_blank (vopts_Provider options) || (vopts_ExpectedCount options <=? 0))
    (errorf "capability validation options are incomplete" []) ;;;
  refuse (is_empty (vopts_MCPToolPrefix options)
          || negb (toolPattern (vopts_MCPToolPrefix options +:+ "operation")))
    (errorf "MCP tool prefix is invalid" []).

(** The loop of [Validate]. *)
Fixpoint catalog_loop (c : catalogIndex) (values : list Descriptor) (options : ValidationOptions)
  : result error catalogIndex :=
  match values with
  | [] => Ok c
  | d :: rest => c ← catalog_add c d options; catalog_loop c rest options
  end.

(** [Validate] *)
Definition Capability_Validate (values : list Descriptor) (options : ValidationOptions) : result error unit :=
  validateOptions options ;;;
  refuse (negb (Z.of_nat (length values) =? vopts_ExpectedCount options))
    (errorf "%s operation catalog has %d entries, want %d" [vopts_Provider options]) ;;;
  _ ← catalog_loop newCatalogIndex values options;
  Ok tt.
