(* ===== verification/OperationRuntime.v ===== *)
(** * The operation runtime: [operation/runtime]

    The contract of a provider's adapter and the registry of adapters
    ([adapter.go]), and the lifecycle of one provider's operations ([runtime.go],
    [recovery.go], [active_grant.go]).

    An adapter is an interface value.  Its methods that only compute are
    functions of the record; [Resolve], [Execute], [Reconcile] and [Cleanup] act
    on the provider's service and are calls of the programs below, answered by the
    environment.  A method of an optional interface is [None] when the adapter
    does not implement it. *)

From S2P Require Export Capability AgentStore Coordinator Admission.
From Stdlib Require Import Ascii.

Local Open Scope Z_scope.

(** [Outcome]; a nil result is the empty text. *)
Record Outcome : Type := MkOutcome {
  oc_Proven : bool;
  oc_Result : string;
  oc_UpstreamStatus : Z
}.

(** [IsPossiblePartial]: [errors.As] for a [*PossiblePartialError]. *)
Fixpoint partial_error (e : error) : bool :=
  match e with
  | ErrorPartial _ => true
  | Errorf _ _ wrapped => existsb partial_error wrapped
  | ErrorJoin joined => existsb partial_error joined
  | ErrorFailure _ _ _ (Some cause) => partial_error cause
  | _ => false
  end.

Definition IsPossiblePartial (e : option error) : bool :=
  match e with Some e => partial_error e | None => false end.

(** [grants.UseReservation] *)
Definition UseReservation : Type := Grant * GrantUse.

Record Adapter {I P A : Type} : Type := MkAdapter {
  ad_Descriptor : Descriptor;
  ad_Decode : string → string → result error I;
  ad_Authorize : P → A;
  ad_Present : P → Presentation;
  (** [ClientBoundAdapter], [ApprovalRequiredAdapter], [ReservationBinder], [PlanCleaner] *)
  ad_ValidateClient : option (I → string → string → option error);
  ad_RequiresApproval : option bool;
  ad_BindReservation : option (P → UseReservation → result error P);
  ad_Cleans : bool
}.
#[global] Arguments Adapter : clear implicits.
#[global] Arguments MkAdapter {I P A}.

Record RegistryOptions : Type := MkRegistryOptions {
  ropts_Provider : string;
  ropts_Descriptor : option (string → option Descriptor);
  ropts_RequiresAdapter : option (Descriptor → bool)
}.

Definition defaultRequiresAdapter (d : Descriptor) : bool :=
  HasExecutionDisposition d && bool_decide (desc_Implementation d = StatusImplemented).

(** [Registry] *)
Record AdapterRegistry {I P A : Type} : Type := MkAdapterRegistry {
  areg_byName : gmap string (Adapter I P A);
  areg_names : list string;
  areg_requiresAdapter : Descriptor → bool
}.
#[global] Arguments AdapterRegistry : clear implicits.
#[global] Arguments MkAdapterRegistry {I P A}.

Section registry.
Context {I P A : Type}.

Definition register (provider : string) (descriptor : string → option Descriptor)
    (r : AdapterRegistry I P A) (adapter : option (Adapter I P A)) : result error (AdapterRegistry I P A) :=
  match adapter with
  | None => Err (errorf "nil %s operation adapter" [provider])
  | Some adapter =>
    let d := ad_Descriptor adapter in
    refuse (negb (bool_decide (descriptor (desc_Name d) = Some d)))
      (errorf "adapter %q does not match the capability catalog" [desc_Name d]) ;;;
    refuse (bool_decide (is_Some (areg_byName r !! desc_Name d)))
      (errorf "duplicate adapter %q" [desc_Name d]) ;;;
    Ok (MkAdapterRegistry (<[desc_Name d := adapter]> (areg_byName r)) (areg_names r ++ [desc_Name d])
          (areg_requiresAdapter r))
  end.

(** The loop of [NewRegistry]. *)
Fixpoint register_all (provider : string) (descriptor : string → option Descriptor)
    (r : AdapterRegistry I P A) (adapters : list (option (Adapter I P A)))
  : result error (AdapterRegistry I P A) :=
  match adapters with
  | [] => Ok r
  | adapter :: rest => r ← register provider descriptor r adapter; register_all provider descriptor r rest
  end.

(** [slices.Sort] on strings *)
Definition string_le (a b : string) : Prop := string_ltb b a = false.
#[global] Instance string_le_dec (a b : string) : Decision (string_le a b).
Proof. unfold string_le. apply _. Defined.

Definition NewRegistry (options : RegistryOptions) (adapters : list (option (Adapter I P A)))
  : result error (AdapterRegistry I P A) :=
  match ropts_Descriptor options with
  | Some descriptor =>
    refuse (is_blank (ropts_Provider options)) (errorf "operation registry options are incomplete" []) ;;;
    r ← register_all (ropts_Provider options) descriptor
          (MkAdapterRegistry ∅ [] (default defaultRequiresAdapter (ropts_RequiresAdapter options))) adapters;
    Ok (MkAdapterRegistry (areg_byName r) (merge_sort string_le (areg_names r)) (areg_requiresAdapter r))
  | None => Err (errorf "operation registry options are incomplete" [])
  end.

(** [Registry.Lookup] *)
Definition Registry_Lookup (r : AdapterRegistry I P A) (name : string) : option (Adapter I P A) :=
  areg_byName r !! name.

(** [Registry.Names] *)
Definition Names (r : AdapterRegistry I P A) : list string := areg_names r.

(** [Registry.ValidateCoverage] *)
Definition ValidateCoverage (r : AdapterRegistry I P A) (provider : string) (descriptors : list Descriptor)
  : result error unit :=
  let missing := desc_Name <$> List.filter (λ d,
      areg_requiresAdapter r d && negb (bool_decide (is_Some (Registry_Lookup r (desc_Name d))))) descriptors in
  refuse (negb (bool_decide (missing = [])))
    (errorf "missing %s operation adapters: %s" [provider; join ", " missing]).

Definition requiresApproval (adapter : Adapter I P A) : bool :=
  default false (ad_RequiresApproval adapter).
End registry.

(** * The lifecycle of operations

    The lifecycle of one provider's operations ([runtime.go], [recovery.go],
    [active_grant.go]): submission with authorization, approval, claim,
    execution against the provider, reconciliation and recovery.

    Every function is a program: a tree of actions, each taken at once, between
    which other goroutines of the process, other processes and crashes may
    intervene (RuntimeRuns).  The actions are the calls of the agent store, of
    the grant store and of the coordinator, the calls answered by the provider's
    service and callbacks, locks, and reports to the observers.  Three store
    calls have actions of their own because the properties speak of them: the claim
    of an operation, the reservation of a use, and the recorded success.

    Callbacks that only compute are functions of the options. *)

(** ** Data *)

(** [Failure] of a provider. *)
Record ExecutionFailure : Type := MkExecutionFailure {
  ef_Code : string;
  ef_Message : string;
  ef_ReleaseApproval : bool
}.

(** [agentv1.SubmitRequest] *)
Record SubmitRequest : Type := MkSubmitRequest {
  sr_IdempotencyKey : string;
  sr_Operation : string;
  sr_Target : string;
  sr_Arguments : string;
  sr_Reason : string
}.

(** [Preparation] *)
Record Preparation {P A : Type} : Type := MkPreparation {
  prep_Plan : P;
  prep_Auth : A;
  prep_Core : Request;
  prep_DescriptorName : string;
  prep_Client : string;
  prep_OperationID : string;
  prep_Reason : string;
  prep_Decision : PolicyDecide.Decision;
  prep_Direct : bool;
  prep_ReusedGrant : option Grant;
  prep_CreatedAt : Time
}.
#[global] Arguments Preparation : clear implicits.
#[global] Arguments MkPreparation {P A}.

(** [approvalSettlement] *)
Inductive approvalSettlement : Type := approvalCommit | approvalRetain | approvalRelease.

(** [approvalFailure] *)
Record approvalFailure : Type := MkApprovalFailure {
  af_state : State;
  af_code : string;
  af_message : string
}.

(** What [Observer], [Diagnostics], [RecordPolicyRefusal] and [RecordOutcome] are told;
    elapsed times are left out. *)
Inductive Report : Type :=
| OperationSubmitted (outcome : string)
| OperationExecuted (outcome : string)
| OperationStarted (id : string) (risk : Risk)
| OperationFinished (id : string) (risk : Risk) (outcome errorCode : string)
| PolicyRefused (id : string) (decision : PolicyDecide.Decision) (code : string)
| OutcomeRecorded (id outcome detail : string) (upstreamStatus : Z).

(** A stripe of one of the two arrays of mutexes. *)
Inductive RuntimeLock : Type :=
| SubmissionLock (stripe : Z)
| AuthorizationLock (stripe : Z).

#[export] Instance RuntimeLock_eq_dec : EqDecision RuntimeLock.
Proof. solve_decision. Defined.

(** A zero [agentv1.Operation]. *)
Definition zero_operation : AgentOperation :=
  MkAgentOperation EmptyString EmptyString EmptyString EmptyString EmptyString EmptyString EmptyString
    EmptyString EmptyString (StateOther EmptyString) 0 EmptyString 0 0 None
    (MkPresentation EmptyString EmptyString) EmptyString EmptyString None.

(** Decoding of any JSON value with [UseNumber], compared by [reflect.DeepEqual], and the
    [json.Marshal] of a string. *)
Class AnyJSON : Type := {
  json_any : Type;
  json_any_eq_dec :: EqDecision json_any;
  json_decode_any : string → option json_any;
  json_quote : string → string
}.

Definition EqualJSONObject `{AnyJSON} (left right : string) : bool :=
  match json_decode_any left, json_decode_any right with
  | Some l, Some r => bool_decide (l = r)
  | _, _ => false
  end.

(** The text [json.Marshal] gives for [{"operation": operation, "reconciled": true}]. *)
Definition NormalizedResult `{AnyJSON} (operation result : string) : string :=
  if negb (is_empty result) then result
  else "{" +:+ json_quote "operation" +:+ ":" +:+ json_quote operation +:+ ","
       +:+ json_quote "reconciled" +:+ ":true}".

Definition normalizedUpstreamStatus (status : Z) : Z :=
  if (100 <=? status) && (status <=? 599) then status else 200.

(** [operationAPIError] *)
Definition operationAPIError (status : Z) (code message : string) : error :=
  ErrorAPI status code message 0.

(** One round of the FNV-1a loop of [stripedLock], and the loop. *)
Definition fnv_byte (hash : Z) (c : ascii) : Z :=
  (Z.lxor hash (byte_of c) * 1099511628211) mod 2 ^ 64.

Definition fnv1a (id : string) : Z := fold_left fnv_byte (list_of_string id) 14695981039346656037.

(** [stripedLock]: the index of the mutex. *)
Definition stripedLock (id : string) (locks : Z) : Z := fnv1a id mod locks.

Definition settlementForFailure (failure : ExecutionFailure) : approvalSettlement :=
  if ef_ReleaseApproval failure then approvalRelease else approvalCommit.

(** [RecoveredApprovalCommit]: whether to commit, and whether the use is valid. *)
Definition RecoveredApprovalCommit (u : GrantUse) : bool * bool :=
  match use_State u with
  | UseCommitted => (false, true)
  | UseReserved | UseRetained => (true, true)
  | _ => (false, false)
  end.

(** [approvalFailures] *)
Definition approvalFailures (s : Status) : option approvalFailure :=
  match s with
  | StatusDenied =>
    Some (MkApprovalFailure StateDenied "operation_approval_denied" "Approval was denied")
  | StatusExpired =>
    Some (MkApprovalFailure StateExpired "operation_approval_expired" "Approval request expired")
  | StatusCanceled | StatusRevoked =>
    Some (MkApprovalFailure StateCanceled "operation_canceled" "Request was canceled")
  | _ => None
  end.

Definition operationApprovalFailure (g : Grant) : option approvalFailure :=
  if negb (bool_decide (grant_Status g = StatusFailed)) then approvalFailures (grant_Status g)
  else
    let code := if activation_Known (grant_FailureCode g) then code_text (grant_FailureCode g)
                else "approval_activation_failed" in
    Some (MkApprovalFailure StateFailed code "Approval activation failed").

(** [grant.Metadata[grants.MetadataMode] == string(policy.GrantModeWindow)] *)
Definition window_grant (g : Grant) : bool :=
  String.eqb (text_of (grant_Metadata g !! MetadataMode)) (grant_mode_text GrantModeWindow).

(** ** Programs *)

Section programs.
Context {GS : GrantStorage} {I P : Type}.

Inductive Action : Type → Type :=
| StoreCall {B} (m : Eff B) : Action B
| Claim (id : string) : Action (result error AgentOperation)
    (** [Operations.Transition(id, StateExecuting)] *)
| ReserveCall (grantID requestID operation : string) : Action (result error (Grant * GrantUse * bool))
    (** [Grants.ReserveUse] *)
| SucceedCall (id text : string) : Action (result error AgentOperation)
    (** [Operations.Succeed] *)
| ResolveCall (adapter : string) (input : I) : Action (result error P)
| ExecuteCall (operation : AgentOperation) (plan : P) : Action (Outcome * option error)
    (** [adapter.Execute]; the operation is named for the properties only *)
| ReconcileCall (operation : AgentOperation) (plan : P) : Action (Outcome * option error)
| CleanupCall (adapter : string) (plan : P) : Action unit
| LoadCall (operation : AgentOperation) : Action (result error P)
    (** [options.Load] *)
| StoredPlanCall (digest : string) : Action (result error Plan)
| AdmitCall (client : string) : Action (result error unit)
| PermitCall (commit : bool) : Action unit
    (** [permit.Commit] or [permit.Release] *)
| ReportCall (report : Report) : Action unit
| LockCall (lock : RuntimeLock) : Action unit
| UnlockCall (lock : RuntimeLock) : Action unit.

Inductive Prog (X : Type) : Type :=
| Done (x : X)
| Do {B : Type} (a : Action B) (k : B → Prog X).
#[global] Arguments Done {X} x.
#[global] Arguments Do {X B} a k.

Fixpoint prog_bind {X Y} (p : Prog X) (f : X → Prog Y) : Prog Y :=
  match p with
  | Done x => f x
  | Do a k => Do a (λ b, prog_bind (k b) f)
  end.
End programs.
#[global] Arguments Action {GS} I P _.
#[global] Arguments Prog {GS} I P X.

#[export] Instance prog_ret {GS : GrantStorage} {I P} : MRet (Prog I P) := λ X, Done.
#[export] Instance prog_mbind {GS : GrantStorage} {I P} : MBind (Prog I P) := λ X Y f p, prog_bind p f.

Definition act {GS : GrantStorage} {I P B} (a : Action I P B) : Prog I P B := Do a Done.
Definition call {GS : GrantStorage} {I P B} (m : Eff B) : Prog I P B := act (StoreCall m).
Definition when {GS : GrantStorage} {I P} (b : bool) (p : Prog I P unit) : Prog I P unit :=
  if b then p else mret tt.

(** [lock.Lock(); defer lock.Unlock()] *)
Definition with_lock {GS : GrantStorage} {I P X} (lock : RuntimeLock) (p : Prog I P X) : Prog I P X :=
  _ ← act (LockCall lock);
  x ← p;
  _ ← act (UnlockCall lock);
  mret x.

(** ** The runtime *)

Section runtime.
Context {R : MapRange} {RJ : RawJSON} {AJ : AnyJSON}.
Context `{JT : JSON Target} `{JA : JSON StringListMap} `{JM : JSON (gmap string string)}
  `{JE : JSON EventRecord} `{JG : JSON Grant} `{JP : JSON Presentation} `{JO : JSON OperationError}.
Context (admits : Database → Statement → result error unit)
  (begin_tx : nat → result error unit) (commit_tx : nat → CommitOutcome)
  (plandigest_Digest : string → string).
Context (clock : nat → Time) (new_grant_id new_operation_id : nat → result error string) (o : Options).

#[local] Hint Extern 0 GrantStorage =>
  exact (sqlite admits begin_tx commit_tx plandigest_Digest) : typeclass_instances.

Context {I P A : Type} (error_text : error → string).

(** [Options] *)
Record RuntimeOptions : Type := MkRuntimeOptions {
  rt_Broker : string;
  rt_Admission : bool;
  rt_Registry : AdapterRegistry I P A;
  rt_Authorization : Coordinator admits begin_tx commit_tx plandigest_Digest;
  rt_Decide : DecideFunc;
  rt_Project : A → Request;
  rt_SetClient : P → string → P;
  rt_InputData : I → string * string;
  rt_PlanData : P → string * string;
  rt_Prepare : Preparation P A → result error GrantIntent;
  rt_PlanDigest : Grant → string;
  rt_ValidateExecution : Grant → option error;
  rt_MapSubmissionError : option (error → error);
  rt_DefinitiveFailure : option (option error → bool);
  rt_ExecutionFailure : option (option error → option error → ExecutionFailure);
  rt_RecordPolicyRefusal : bool;
  rt_RecordOutcome : bool;
  rt_OperatorConfigured : bool;
  rt_AuthorizationGrace : Duration;
  rt_Observer : bool;
  rt_Diagnostics : bool
}.

Context (r : RuntimeOptions).

Notation Prog := (Prog I P).
Notation agent f := (f admits begin_tx commit_tx plandigest_Digest) (only parsing).
Notation grants f := (f clock o) (only parsing).

(** The defaults of [defaultRuntimeTiming] and [defaultRuntimeCallbacks]. *)
Definition AuthorizationGrace : Duration :=
  if rt_AuthorizationGrace r <=? 0 then 30 * second else rt_AuthorizationGrace r.

Definition MapSubmissionError : error → error :=
  default (λ e, operationAPIError 400 "operation_input_invalid" (error_text e)) (rt_MapSubmissionError r).

Definition DefinitiveFailure : option error → bool :=
  default (λ e, bool_decide (is_Some e) && negb (IsPossiblePartial e)) (rt_DefinitiveFailure r).

Definition ExecutionFailureOf : option error → option error → ExecutionFailure :=
  default (λ _ _, MkExecutionFailure "upstream_result_unknown"
                    "Operation result is unknown and was not retried" false) (rt_ExecutionFailure r).

(** [r.now()] *)
Definition r_now : Prog Time := call (clocked (now clock)).

Definition report (present : bool) (what : Report) : Prog unit := when present (act (ReportCall what)).

Definition authorizationLock (id : string) : RuntimeLock := AuthorizationLock (stripedLock id 64).

(** *** Plans and failures *)

(** [Load] *)
Definition Load (operation : AgentOperation) : Prog (result error (Adapter I P A * P)) :=
  match Registry_Lookup (rt_Registry r) (op_Operation operation) with
  | Some adapter =>
    if is_empty (op_PlanDigest operation) then mret (Err (errorf "operation adapter is unavailable" []))
    else
      plan ← act (LoadCall operation);
      mret (plan ← plan; Ok (adapter, plan))
  | None => mret (Err (errorf "operation adapter is unavailable" []))
  end.

Definition cleanup (adapter : Adapter I P A) (plan : P) : Prog unit :=
  when (ad_Cleans adapter) (act (CleanupCall (desc_Name (ad_Descriptor adapter)) plan)).

Definition cleanupStored (operation : AgentOperation) : Prog unit :=
  if is_empty (op_PlanDigest operation) then mret tt
  else
    loaded ← Load operation;
    match loaded with
    | Ok (adapter, plan) => cleanup adapter plan
    | Err _ => mret tt
    end.

(** [fail] *)
Definition fail (id : string) (state : State) (code message : string) : Prog AgentOperation :=
  failed ← call (agent AgentStore.Fail_ clock id state code message);
  operation ← match failed with
              | Ok operation => mret operation
              | Err _ =>
                current ← call (agent AgentStore.GetByID id);
                mret (match current with Ok operation => operation | Err _ => zero_operation end)
              end;
  _ ← cleanupStored operation;
  mret operation.

(** *** Settling authority *)

Definition settleApproval (operation : AgentOperation) (reserved : bool) (settlement : approvalSettlement)
  : Prog bool :=
  if negb reserved then mret true
  else
    settled ← call (match settlement with
                    | approvalRetain => grants RetainUse (op_ApprovalID operation) (op_ID operation)
                    | approvalRelease => grants ReleaseUse (op_ApprovalID operation) (op_ID operation)
                    | approvalCommit => grants CommitUse (op_ApprovalID operation) (op_ID operation)
                    end);
    match settled with
    | Ok _ => mret true
    | Err _ =>
      _ ← fail (op_ID operation) StateFailed "approval_commit_failed" "Approval accounting failed";
      mret false
    end.

(** The reservation, whether there is one, and whether to go on. *)
Definition reserveApproval (operation : AgentOperation) : Prog (option UseReservation * bool) :=
  if is_empty (op_ApprovalID operation) then mret (None, true)
  else
    grant ← call (grants Get (op_ApprovalID operation));
    match grant with
    | Ok grant =>
      match rt_ValidateExecution r grant with
      | None =>
        reservation ← act (ReserveCall (grant_ID grant) (op_ID operation) (op_Operation operation));
        match reservation with
        | Ok (reservation, _) =>
          if bool_decide (use_State (snd reservation) = UseReserved) then mret (Some reservation, true)
          else
            _ ← fail (op_ID operation) StateFailed "approval_unavailable" "Approval could not be reserved";
            mret (None, false)
        | Err _ =>
          _ ← fail (op_ID operation) StateFailed "approval_unavailable" "Approval could not be reserved";
          mret (None, false)
        end
      | Some _ =>
        _ ← fail (op_ID operation) StateFailed "approval_invalid" "Approval no longer matches the operation";
        mret (None, false)
      end
    | Err _ =>
      _ ← fail (op_ID operation) StateFailed "approval_invalid" "Approval no longer matches the operation";
      mret (None, false)
    end.

Definition bindReservedPlan (operation : AgentOperation) (adapter : Adapter I P A) (plan : P)
    (reservation : option UseReservation) : Prog (P * bool) :=
  match reservation, ad_BindReservation adapter with
  | Some reservation, Some bind =>
    match bind plan reservation with
    | Ok boundPlan => mret (boundPlan, true)
    | Err _ =>
      _ ← call (grants ReleaseUse (grant_ID (fst reservation)) (use_RequestID (snd reservation)));
      _ ← fail (op_ID operation) StateFailed "approval_invalid" "Approved operation binding is invalid";
      mret (plan, false)
    end
  | _, _ => mret (plan, true)
  end.

(** *** Outcomes *)

(** [succeed] *)
Definition succeed (operation : AgentOperation) (result : string) (reserved : bool) (detail : string)
    (upstreamStatus : Z) : Prog unit :=
  let result := NormalizedResult (op_Operation operation) result in
  settled ← settleApproval operation reserved approvalCommit;
  if negb settled then mret tt
  else
    stored ← act (SucceedCall (op_ID operation) result);
    match stored with
    | Err _ =>
      _ ← fail (op_ID operation) StateFailed "operation_store_unavailable"
            "Operation ran but its result could not be stored";
      mret tt
    | Ok _ =>
      _ ← cleanupStored operation;
      report (rt_RecordOutcome r)
        (OutcomeRecorded (op_ID operation) "allowed" detail (normalizedUpstreamStatus upstreamStatus))
    end.

Definition recordExecutionFailure (operation : AgentOperation) (failure : ExecutionFailure)
  : Prog ExecutionFailure :=
  _ ← fail (op_ID operation) StateFailed (ef_Code failure) (ef_Message failure);
  _ ← report (rt_RecordOutcome r) (OutcomeRecorded (op_ID operation) "refused" (ef_Code failure) 0);
  mret failure.

Definition failExecution (operation : AgentOperation) (executionErr reconcileErr : option error)
  : Prog ExecutionFailure :=
  recordExecutionFailure operation (ExecutionFailureOf executionErr reconcileErr).

Definition proven (answer : Outcome * option error) : bool :=
  match snd answer with None => oc_Proven (fst answer) | Some _ => false end.

Definition reconcileExecution (operation : AgentOperation) (plan : P) (reserved : bool)
    (execution : Outcome) (executionErr : option error) : Prog (string * string) :=
  answer ← act (ReconcileCall operation plan);
  let '(outcome, reconcileErr) := answer in
  if proven answer then
    let text := if is_empty (oc_Result outcome) then oc_Result execution else oc_Result outcome in
    let status := if oc_UpstreamStatus outcome =? 0 then oc_UpstreamStatus execution
                  else oc_UpstreamStatus outcome in
    _ ← succeed operation text reserved EmptyString status;
    mret ("reconciled", EmptyString)
  else
    let failure := ExecutionFailureOf executionErr reconcileErr in
    settled ← settleApproval operation reserved approvalRetain;
    failure ← (if settled : bool then failExecution operation executionErr reconcileErr else mret failure);
    mret ("ambiguous", ef_Code failure).

Definition executeReserved (operation : AgentOperation) (adapter : Adapter I P A) (plan : P)
    (reserved : bool) : Prog unit :=
  let risk := desc_Risk (ad_Descriptor adapter) in
  _ ← report (rt_Diagnostics r) (OperationStarted (op_ID operation) risk);
  answer ← act (ExecuteCall operation plan);
  let '(execution, executionErr) := answer in
  outcome ←
    (if proven answer then
       _ ← succeed operation (oc_Result execution) reserved EmptyString (oc_UpstreamStatus execution);
       mret ("succeeded", EmptyString)
     else if DefinitiveFailure executionErr then
       let failure := ExecutionFailureOf executionErr None in
       settled ← settleApproval operation reserved (settlementForFailure failure);
       if settled : bool then
         failure ← recordExecutionFailure operation failure;
         mret ("failed", ef_Code failure)
       else mret ("failed", "upstream_result_unknown")
     else reconcileExecution operation plan reserved execution executionErr);
  _ ← report (rt_Observer r) (OperationExecuted (fst outcome));
  report (rt_Diagnostics r) (OperationFinished (op_ID operation) risk (fst outcome) (snd outcome)).

(** [Execute] *)
Definition Execute (operation : AgentOperation) : Prog unit :=
  loaded ← Load operation;
  match loaded with
  | Err _ =>
    _ ← fail (op_ID operation) StateFailed "invalid_stored_operation" "Stored operation is invalid";
    mret tt
  | Ok (adapter, plan) =>
    reservation ← reserveApproval operation;
    let '(reservation, ok) := reservation in
    if negb ok then mret tt
    else
      bound ← bindReservedPlan operation adapter plan reservation;
      let '(plan, ok) := bound in
      if negb ok then mret tt
      else executeReserved operation adapter plan (bool_decide (is_Some reservation))
  end.

(** *** Approval *)

Definition operationApproval (values : list Grant) (operation : AgentOperation) : option Grant :=
  List.find (λ g,
    let digest := rt_PlanDigest r g in
    String.eqb (grant_ClientRequestID g) (op_ID operation)
    && String.eqb (grant_Operation g) (op_Operation operation) && negb (is_empty digest)
    && (is_empty (op_PlanDigest operation) || String.eqb digest (op_PlanDigest operation))) values.

Definition cancelGrant (g : Grant) (client : string) : Prog (option error) :=
  match grant_Status g with
  | StatusPending =>
    closed ← call (grants CancelForClient (grant_ID g) client);
    mret (match closed with Ok _ => None | Err e => Some e end)
  | StatusActive =>
    closed ← call (grants RevokeForClient (grant_ID g) client);
    mret (match closed with Ok _ => None | Err e => Some e end)
  | _ => mret None
  end.

Definition abandonApproval (id client : string) : Prog (option error) :=
  if is_empty id then mret None
  else
    grant ← call (grants Get id);
    match grant with
    | Err e => mret (Some e)
    | Ok g => cancelGrant g client
    end.

Definition approvalID (operation : AgentOperation) (client : string) : Prog (result error (string * bool)) :=
  if negb (is_empty (op_ApprovalID operation)) then mret (Ok (op_ApprovalID operation, true))
  else
    values ← call (grants ListForClient client);
    mret (values ← values;
          Ok (match operationApproval values operation with
              | Some g => (grant_ID g, true)
              | None => (EmptyString, false)
              end)).

Definition cancelApproval (operation : AgentOperation) (client : string) : Prog (option error) :=
  found ← approvalID operation client;
  match found with
  | Err e => mret (Some e)
  | Ok (_, false) => mret None
  | Ok (id, true) =>
    grant ← call (grants Get id);
    match grant with
    | Err e => mret (Some e)
    | Ok g =>
      if bool_decide (grant_Status g = StatusActive)
         && (negb (String.eqb (grant_ClientRequestID g) (op_ID operation)) || window_grant g)
      then mret None
      else cancelGrant g client
    end
  end.

(** [Cancel] *)
Definition Runtime_Cancel (client id : string) : Prog (result error AgentOperation) :=
  with_lock (authorizationLock id)
    (operation ← call (agent AgentStore.GetOperation client id);
     match operation with
     | Err e => mret (Err e)
     | Ok operation =>
       if Terminal (op_State operation) then mret (Ok operation)
       else if bool_decide (op_State operation = StateExecuting) then mret (Err ErrNotCancelable)
       else
         refused ← cancelApproval operation client;
         match refused with
         | Some e => mret (Err e)
         | None =>
           canceled ← call (agent AgentStore.Cancel clock client (op_ID operation));
           match canceled with
           | Err e => mret (Err e)
           | Ok operation => _ ← cleanupStored operation; mret (Ok operation)
           end
         end
     end).

(** [failUnnotified] *)
Definition failUnnotified (operation : AgentOperation) (g : Grant) (code message : string)
  : Prog AgentOperation :=
  abandoned ← abandonApproval (grant_ID g) (op_ClientID operation);
  match abandoned with
  | Some _ => mret operation
  | None => fail (op_ID operation) StateFailed code message
  end.

Definition bindApproval (operation : AgentOperation) (g : Grant) : Prog AgentOperation :=
  if negb (rt_OperatorConfigured r)
  then failUnnotified operation g "approval_channel_not_configured" "Approval channel is not configured"
  else mret operation.

Definition RecoverApproval (operation : AgentOperation) : Prog AgentOperation :=
  values ← call (grants ListForClient (op_ClientID operation));
  match values with
  | Err _ => mret operation
  | Ok values =>
    match operationApproval values operation with
    | None =>
      now ← r_now;
      if time_sub now (op_UpdatedAt operation) <? AuthorizationGrace then mret operation
      else fail (op_ID operation) StateFailed "approval_missing" "Approval request is missing"
    | Some g =>
      plan ← act (StoredPlanCall (rt_PlanDigest r g));
      match plan with
      | Err _ => mret operation
      | Ok plan =>
        updated ← call (agent AgentStore.BindPlan clock (op_ID operation) plan (grant_ID g) false);
        mret (match updated with Ok updated => updated | Err _ => operation end)
      end
    end
  end.

Definition syncApproval (operation : AgentOperation) : Prog AgentOperation :=
  grant ← call (grants Get (op_ApprovalID operation));
  match grant with
  | Err _ => mret operation
  | Ok g =>
    if bool_decide (grant_Status g = StatusActive) then
      updated ← call (agent AgentStore.Transition clock (op_ID operation) StateApproved);
      mret (match updated with Ok updated => updated | Err _ => zero_operation end)
    else
      match operationApprovalFailure g with
      | None => mret operation
      | Some failure => fail (op_ID operation) (af_state failure) (af_code failure) (af_message failure)
      end
  end.

Definition advancePendingApproval (operation : AgentOperation) : Prog AgentOperation :=
  if negb (bool_decide (op_State operation = StatePending)) then mret operation
  else
    operation ← (if is_empty (op_ApprovalID operation) then RecoverApproval operation else mret operation);
    if negb (bool_decide (op_State operation = StatePending)) || is_empty (op_ApprovalID operation)
    then mret operation
    else syncApproval operation.

(** [Advance] *)
Definition Advance (operation : AgentOperation) : Prog unit :=
  with_lock (authorizationLock (op_ID operation))
    (current ← call (agent AgentStore.GetByID (op_ID operation));
     match current with
     | Err _ => mret tt
     | Ok current =>
       current ← advancePendingApproval current;
       if negb (bool_decide (op_State current = StateApproved)) then mret tt
       else
         claimed ← act (Claim (op_ID current));
         match claimed with
         | Ok claimed => Execute claimed
         | Err _ => mret tt
         end
     end).

(** *** Recovery *)

Definition retainRecoveredApproval (operation : AgentOperation) : Prog unit :=
  if is_empty (op_ApprovalID operation) then mret tt
  else
    reservation ← call (grants GetUse (op_ApprovalID operation) (op_ID operation));
    match reservation with
    | Ok (_, u) =>
      if bool_decide (use_State u = UseReserved)
      then _ ← call (grants RetainUse (op_ApprovalID operation) (op_ID operation)); mret tt
      else mret tt
    | Err _ => mret tt
    end.

Definition refuse_recovered (operation : AgentOperation) (code message : string) : Prog bool :=
  _ ← fail (op_ID operation) StateFailed code message;
  mret false.

Definition settleBoundRecoveredApproval (operation : AgentOperation) : Prog bool :=
  grant ← call (grants Get (op_ApprovalID operation));
  match grant with
  | Err _ => refuse_recovered operation "approval_invalid" "Approval no longer matches the operation"
  | Ok g =>
    match rt_ValidateExecution r g with
    | Some _ => refuse_recovered operation "approval_invalid" "Approval no longer matches the operation"
    | None =>
      reservation ← call (grants GetUse (grant_ID g) (op_ID operation));
      match reservation with
      | Err _ =>
        refuse_recovered operation "approval_reservation_missing" "Approval was not reserved before execution"
      | Ok (_, u) =>
        match RecoveredApprovalCommit u with
        | (_, false) =>
          refuse_recovered operation "approval_reservation_missing" "Approval was not reserved before execution"
        | (false, true) => mret true
        | (true, true) =>
          committed ← call (grants CommitUse (grant_ID g) (op_ID operation));
          match committed with
          | Err _ =>
            refuse_recovered operation "approval_commit_failed" "Operation ran but approval accounting failed"
          | Ok _ => mret true
          end
        end
      end
    end
  end.

Definition settleRecoveredApproval (operation : AgentOperation) : Prog bool :=
  if is_empty (op_ApprovalID operation) then mret true else settleBoundRecoveredApproval operation.

Definition ReconcileInterrupted (operation : AgentOperation) : Prog unit :=
  loaded ← Load operation;
  match loaded with
  | Err _ =>
    _ ← fail (op_ID operation) StateFailed "invalid_stored_operation" "Stored operation is invalid";
    mret tt
  | Ok (adapter, plan) =>
    answer ← act (ReconcileCall operation plan);
    if proven answer then
      settled ← settleRecoveredApproval operation;
      if negb settled then mret tt
      else
        stored ← act (SucceedCall (op_ID operation)
                        (NormalizedResult (op_Operation operation) (oc_Result (fst answer))));
        match stored with
        | Err _ =>
          _ ← fail (op_ID operation) StateFailed "operation_store_unavailable"
                "Operation ran but its result could not be stored";
          mret tt
        | Ok _ =>
          _ ← cleanup adapter plan;
          report (rt_RecordOutcome r)
            (OutcomeRecorded (op_ID operation) "allowed" "reconciled after restart"
               (normalizedUpstreamStatus (oc_UpstreamStatus (fst answer))))
        end
    else
      _ ← retainRecoveredApproval operation;
      _ ← fail (op_ID operation) StateFailed "upstream_result_unknown"
            "Operation result could not be proven after restart";
      mret tt
  end.

(** What [Recover] and [AdvanceAll] do with one unfinished operation. *)
Definition recover_one (operation : AgentOperation) : Prog unit :=
  if bool_decide (op_State operation = StateExecuting) then ReconcileInterrupted operation
  else Advance operation.

(** [Recover] and [AdvanceAll] up to [runBatch]: the jobs handed to the workers. *)
Definition Recover : Prog (list (Prog unit)) :=
  values ← call (agent AgentStore.ListUnfinished);
  mret (match values with Ok values => recover_one <$> values | Err _ => [] end).

Definition AdvanceAll : Prog (list (Prog unit)) :=
  values ← call (agent AgentStore.ListUnfinished);
  mret (match values with Ok values => Advance <$> values | Err _ => [] end).

(** *** Submission *)

Definition Runtime_decode (request : SubmitRequest) : result error (Adapter I P A * I) :=
  match Registry_Lookup (rt_Registry r) (sr_Operation request) with
  | None => Err (operationAPIError 400 "operation_not_registered" "Operation is not registered")
  | Some adapter =>
    match ad_Decode adapter (sr_Target request) (sr_Arguments request) with
    | Err e => Err (operationAPIError 400 "operation_input_invalid" (error_text e))
    | Ok input => Ok (adapter, input)
    end
  end.

(** [replayed]: the stored operation of the key, if there is one. *)
Definition replayed (client : string) (request : SubmitRequest) (input : I)
  : Prog (result error (option AgentOperation)) :=
  existing ← call (agent AgentStore.GetByIdempotency client (sr_IdempotencyKey request));
  mret (match existing with
        | Err e => if errors_Is e ErrOperationNotFound then Ok None else Err e
        | Ok existing =>
          let '(target, arguments) := rt_InputData r input in
          refuse (negb (String.eqb (op_Operation existing) (sr_Operation request))
                  || negb (String.eqb (op_Reason existing) (sr_Reason request))
                  || negb (EqualJSONObject (op_Target existing) target)
                  || negb (EqualJSONObject (op_Arguments existing) arguments)) ErrOperationConflict ;;;
          Ok (Some existing)
        end).

(** [admit]: whether there is a permit to give back. *)
Definition Runtime_admit (client : string) : Prog (result error bool) :=
  if negb (rt_Admission r) then mret (Ok false)
  else
    admitted ← act (AdmitCall client);
    mret (match admitted with
          | Ok _ => Ok true
          | Err e =>
            match errors_As_LimitError e with
            | Some (code, retryAfter) =>
              Err (ErrorAPI 429 code "Operation admission limit reached"
                     (Z.quot (wrap64 (retryAfter + second - 1)) second))
            | None => Err (operationAPIError 503 "operation_store_unavailable"
                             "Could not check operation capacity")
            end
          end).

Definition directlyAllowed (decision : PolicyDecide.Decision) (adapter : Adapter I P A) : bool :=
  decision_Allowed decision && negb (bool_decide (decision_MatchedAllowRuleIDs decision = []))
  && negb (requiresApproval adapter).

Definition preparation (submission : Submission) (adapter : Adapter I P A) (plan : P) (auth : A)
    (core : Request) (decision : PolicyDecide.Decision) (direct : bool) (reused : option Grant) (now : Time)
  : Preparation P A :=
  MkPreparation plan auth core (desc_Name (ad_Descriptor adapter)) (sub_ClientID submission)
    (sub_ID submission) (sub_Reason submission) decision direct reused now.

(** [submitDirectGrant] *)
Definition submitDirectGrant (submission : Submission) (adapter : Adapter I P A) (plan : P) (auth : A)
    (core : Request) (decision : PolicyDecide.Decision) : Prog Submitted :=
  now ← r_now;
  match rt_Prepare r (preparation submission adapter plan auth core decision true None now) with
  | Err e => _ ← cleanup adapter plan; mret (Err e)
  | Ok intent =>
    submitted ← call (agent AgentStore.SubmitApprovedWithPlan clock new_operation_id submission (intent_Plan intent));
    match submitted with
    | Err e => _ ← cleanup adapter plan; mret (Err e)
    | Ok _ => mret submitted
    end
  end.

Definition usableActiveGrant (g : Grant) (submission : Submission) (now : Time) : bool :=
  window_grant g && bool_decide (grant_Status g = StatusActive)
  && String.eqb (grant_Client g) (sub_ClientID submission)
  && String.eqb (grant_Operation g) (sub_Operation submission)
  && time_before now (grant_ExpiresAt g)
  && Allows (grant_MaxUses g) (grant_UsedCount g) (grant_ReservedCount g)
  && bool_decide (rt_ValidateExecution r g = None).

(** [prepareActiveGrant] *)
Definition prepareActiveGrant (submission : Submission) (adapter : Adapter I P A) (plan : P) (auth : A)
    (core : Request) (decision : PolicyDecide.Decision) : Prog (result error (Grant * GrantIntent)) :=
  grant ← call (grants Get (decision_GrantID decision));
  match grant with
  | Err _ => mret (Err (errorf "approved authority is no longer available" []))
  | Ok g =>
    now ← r_now;
    if negb (usableActiveGrant g submission now)
    then mret (Err (errorf "approved authority is no longer available" []))
    else
      now ← r_now;
      mret (match rt_Prepare r (preparation submission adapter plan auth core decision false (Some g) now) with
            | Err _ => Err (errorf "could not prepare immutable operation plan" [])
            | Ok intent =>
              if is_empty (plan_Digest (intent_Plan intent))
              then Err (errorf "could not prepare immutable operation plan" [])
              else Ok (g, intent)
            end)
  end.

(** [submitActiveGrant] *)
Definition submitActiveGrant (submission : Submission) (adapter : Adapter I P A) (plan : P) (auth : A)
    (core : Request) (decision : PolicyDecide.Decision) : Prog Submitted :=
  prepared ← prepareActiveGrant submission adapter plan auth core decision;
  match prepared with
  | Err e => _ ← cleanup adapter plan; mret (Err e)
  | Ok (g, intent) =>
    submitted ← call (agent AgentStore.SubmitApprovedWithGrantPlan clock new_operation_id submission
                        (intent_Plan intent) (grant_ID g));
    match submitted with
    | Err e => _ ← cleanup adapter plan; mret (Err e)
    | Ok _ => mret submitted
    end
  end.

Definition finishRefused (operation : AgentOperation) (authorized : AuthorizationResult) (e : error)
  : Prog AgentOperation :=
  if errors_Is e ErrDenied || errors_Is e ErrNoMatch then
    _ ← report (rt_RecordPolicyRefusal r)
          (PolicyRefused (op_ID operation) (auth_Decision authorized) "operation_policy_denied");
    fail (op_ID operation) StateDenied "operation_policy_denied"
      (if errors_Is e ErrNoMatch then "No policy rule allows this operation"
       else "Policy denied this operation")
  else fail (op_ID operation) StateFailed "approval_request_failed" "Could not create approval request".

(** [submitPending] without its lock.  The builder is called with the decision of the
    result, once, when the coordinator gets as far as building; the instant it stamps on
    the plan is read just before the call instead of inside it. *)
Definition submitPending_locked (submission : Submission) (adapter : Adapter I P A) (plan : P) (auth : A)
    (core : Request) : Prog (Submitted + AgentOperation * Grant) :=
  submitted ← call (agent AgentStore.Submit clock new_operation_id submission);
  match submitted with
  | Err e => _ ← cleanup adapter plan; mret (inl (Err e))
  | Ok (operation, false) => mret (inl (Ok (operation, false)))
  | Ok (operation, true) =>
    now ← r_now;
    let build := λ decision,
      rt_Prepare r (MkPreparation plan auth core (desc_Name (ad_Descriptor adapter)) (op_ClientID operation)
                      (op_ID operation) (op_Reason operation) decision false None now) in
    authorized ← call (RequestApproval admits begin_tx commit_tx plandigest_Digest clock new_grant_id o
                         (rt_Authorization r) core (Some build));
    let '(authorized, authErr) := authorized in
    let client := op_ClientID operation in
    match authErr with
    | Some e =>
      _ ← abandonApproval (grant_ID (auth_Request authorized)) client;
      _ ← cleanup adapter plan;
      operation ← finishRefused operation authorized e;
      mret (inl (Ok (operation, true)))
    | None =>
      let prepared := match build (auth_Decision authorized) with
                      | Ok intent => intent_Plan intent
                      | Err _ => MkPlan EmptyString EmptyString EmptyString 0
                      end in
      if is_empty (plan_Digest prepared) then
        _ ← cleanup adapter plan;
        operation ← fail (op_ID operation) StateFailed "operation_plan_invalid"
                      "Could not prepare immutable operation plan";
        mret (inl (Ok (operation, true)))
      else
        bound ← call (agent AgentStore.BindPlan clock (op_ID operation) prepared
                        (grant_ID (auth_Request authorized)) false);
        match bound with
        | Err _ =>
          _ ← abandonApproval (grant_ID (auth_Request authorized)) client;
          _ ← cleanup adapter plan;
          operation ← fail (op_ID operation) StateFailed "operation_store_unavailable"
                        "Could not bind operation plan";
          mret (inl (Ok (operation, true)))
        | Ok bound => mret (inr (bound, auth_Request authorized))
        end
    end
  end.

Definition submitPending (submission : Submission) (adapter : Adapter I P A) (plan : P) (auth : A)
    (core : Request) : Prog Submitted :=
  result ← with_lock (authorizationLock (sub_ID submission))
             (submitPending_locked submission adapter plan auth core);
  match result with
  | inl submitted => mret submitted
  | inr (bound, g) => operation ← bindApproval bound g; mret (Ok (operation, true))
  end.

Definition submitWithAvailableGrant (submission : Submission) (adapter : Adapter I P A) (plan : P) (auth : A)
    (core : Request) : Prog Submitted :=
  found ← call (ActiveGrantMode admits begin_tx commit_tx plandigest_Digest clock o
                  (rt_Authorization r) core GrantModeWindow);
  match found with
  | Err e => _ ← cleanup adapter plan; mret (Err e)
  | Ok (decision, true) => submitActiveGrant submission adapter plan auth core decision
  | Ok (_, false) => submitPending submission adapter plan auth core
  end.

Definition submitResolved (client : string) (request : SubmitRequest) (adapter : Adapter I P A) (plan : P)
  : Prog Submitted :=
  id ← call (agent AgentStore.NewID new_operation_id);
  match id with
  | Err e => _ ← cleanup adapter plan; mret (Err e)
  | Ok id =>
    let '(target, arguments) := rt_PlanData r plan in
    let submission := MkSubmission id (rt_Broker r) client (sr_IdempotencyKey request) (sr_Operation request)
                        target arguments (sr_Reason request) (ad_Present adapter plan) EmptyString EmptyString in
    let auth := ad_Authorize adapter plan in
    let core := rt_Project r auth in
    now ← r_now;
    let decision := rt_Decide r core (decision_options now [] false) in
    if directlyAllowed decision adapter
    then submitDirectGrant submission adapter plan auth core decision
    else submitWithAvailableGrant submission adapter plan auth core
  end.

Definition submitNew (client : string) (request : SubmitRequest) (adapter : Adapter I P A) (input : I)
  : Prog Submitted :=
  match ad_ValidateClient adapter with
  | Some validate =>
    match validate input client (sr_IdempotencyKey request) with
    | Some e => mret (Some (Err (operationAPIError 400 "operation_input_invalid" (error_text e))))
    | None => mret None
    end
  | None => mret None
  end ≫= λ refused : option Submitted,
  match refused with
  | Some refused => mret refused
  | None =>
    permit ← Runtime_admit client;
    match permit with
    | Err e => mret (Err e)
    | Ok permit =>
      resolved ← act (ResolveCall (desc_Name (ad_Descriptor adapter)) input);
      submitted ← match resolved with
                  | Err e => mret (Err (MapSubmissionError e))
                  | Ok plan =>
                    submitted ← submitResolved client request adapter (rt_SetClient r plan client);
                    _ ← when (permit && match submitted with Ok (_, created) => created | Err _ => false end)
                          (act (PermitCall true));
                    mret submitted
                  end;
      _ ← when permit (act (PermitCall false));
      mret submitted
    end
  end.

(** [Submit] *)
Definition Runtime_Submit (client : string) (request : SubmitRequest) : Prog Submitted :=
  let request := MkSubmitRequest (trim_space (sr_IdempotencyKey request)) (sr_Operation request)
                   (sr_Target request) (sr_Arguments request) (trim_space (sr_Reason request)) in
  submitted ←
    match Runtime_decode request with
    | Err e => mret (Err e)
    | Ok (adapter, input) =>
      with_lock (SubmissionLock (stripedLock ("submit:" +:+ client +:+ ":" +:+ sr_IdempotencyKey request) 64))
        (existing ← replayed client request input;
         match existing with
         | Err e => mret (Err e)
         | Ok (Some existing) => mret (Ok (existing, false))
         | Ok None => submitNew client request adapter input
         end)
    end;
  _ ← report (rt_Observer r)
        (OperationSubmitted (match submitted with
                             | Err _ => "rejected"
                             | Ok (_, true) => "created"
                             | Ok (_, false) => "replayed"
                             end));
  mret submitted.
End runtime.
