(* ===== verification/RuntimeRuns.v ===== *)
(** * Runs of the operation runtime

    What the programs of OperationRuntime do when they run: the effect of each
    action, processes with many goroutines whose actions interleave, crashes that
    end all of them, and what the rest of the system does in between.

    A configuration keeps, besides the world, the locks that are held, the
    goroutines that run and what happened so far, last event first.  Every
    answer of the provider's service and callbacks is possible.  [Recover] and
    [AdvanceAll] may start at any time, their jobs may be dropped (a canceled
    context) and run in any order: more behaviours than the one loop of [Start]
    has.

    The second half is a discipline for programs, checked along the tree: a
    token tells what the goroutine has done, [permitted] what it may do next. *)

From S2P Require Export OperationRuntime AgentHistory GrantsReachable GrantsDatabase.

Local Open Scope Z_scope.

(** What the provider was asked, and what it was told to record. *)
Inductive RunEvent : Type :=
| Executed (o : AgentOperation) (answer : Outcome * option error)
| Reconciled (o : AgentOperation) (answer : Outcome * option error)
| Reported (report : Report).

Section runs.
Context {R : MapRange} {RJ : RawJSON} {AJ : AnyJSON}.
Context `{JT : JSON Target} `{JA : JSON StringListMap} `{JM : JSON (gmap string string)}
  `{JE : JSON EventRecord} `{JG : JSON Grant} `{JP : JSON Presentation} `{JO : JSON OperationError}.
Context (admits : Database → Statement → result error unit)
  (begin_tx : nat → result error unit) (commit_tx : nat → CommitOutcome)
  (plandigest_Digest : string → string).
Context (clock : nat → Time) (new_grant_id new_operation_id : nat → result error string) (o : Options).

#[local] Hint Extern 0 GrantStorage =>
  exact (sqlite admits begin_tx commit_tx plandigest_Digest) : typeclass_instances.

Context {I P A : Type} (error_text : error → string).
Context (r : RuntimeOptions admits begin_tx commit_tx plandigest_Digest (I := I) (P := P) (A := A)).

Notation Action := (Action I P).
Notation Prog := (Prog I P).
Notation agent f := (f admits begin_tx commit_tx plandigest_Digest) (only parsing).
Notation runtime f := (f admits begin_tx commit_tx plandigest_Digest clock o) (only parsing).

(** ** Actions *)

(** What an action may answer, the world it leaves, and its event. *)
Definition performs {B} (a : Action B) (w : World) (b : B) (w' : World) (event : option RunEvent) : Prop :=
  match a in OperationRuntime.Action _ _ B return B → Prop with
  | StoreCall m => λ b, m w = (b, w') ∧ event = None
  | Claim id => λ b, agent AgentStore.Transition clock id StateExecuting w = (b, w') ∧ event = None
  | ReserveCall grantID requestID operation => λ b,
      ReserveUse clock o grantID requestID operation w = (b, w') ∧ event = None
  | SucceedCall id text => λ b, agent AgentStore.Succeed clock id text w = (b, w') ∧ event = None
  | ExecuteCall operation _ => λ b, w' = w ∧ event = Some (Executed operation b)
  | ReconcileCall operation _ => λ b, w' = w ∧ event = Some (Reconciled operation b)
  | ReportCall what => λ _, w' = w ∧ event = Some (Reported what)
  | ResolveCall _ _ | CleanupCall _ _ | LoadCall _ | StoredPlanCall _ | AdmitCall _ | PermitCall _
  | LockCall _ | UnlockCall _ => λ _, w' = w ∧ event = None
  end b.

(** The locks an action needs free, and what it does to them. *)
Definition lock_free {B} (a : Action B) (held : list RuntimeLock) : Prop :=
  match a with LockCall l => l ∉ held | _ => True end.

Definition locks_after {B} (a : Action B) (held : list RuntimeLock) : list RuntimeLock :=
  match a with
  | LockCall l => l :: held
  | UnlockCall l => list_difference held [l]
  | _ => held
  end.

(** ** Configurations *)

(** A goroutine ends with the jobs it hands to workers. *)
Definition Thread : Type := Prog (list (Prog unit)).

Definition job_thread (p : Prog unit) : Thread := _ ← p; mret [].

Record Config : Type := MkConfig {
  cfg_world : World;
  cfg_held : list RuntimeLock;
  cfg_threads : list Thread;
  cfg_trace : list RunEvent
}.

(** What may be started: requests of clients, and the rounds of the worker. *)
Inductive entry : Thread → Prop :=
| entry_submit (client : string) (request : SubmitRequest) :
    entry (_ ← Runtime_Submit admits begin_tx commit_tx plandigest_Digest clock new_grant_id
                 new_operation_id o error_text r client request; mret [])
| entry_cancel (client id : string) : entry (_ ← runtime Runtime_Cancel r client id; mret [])
| entry_recover : entry (runtime Recover r)
| entry_advance : entry (runtime AdvanceAll r).

(** What happens outside the process: the operations stay as they are, time goes on, and the
    data of the grant store moves as its own operations move it. *)
Definition outside (w w' : World) : Prop :=
  db_operations (w_storage w') = db_operations (w_storage w) ∧ (w_tick w <= w_tick w')%nat
  ∧ leads_to clock new_grant_id w w'.

Inductive run_step : Config → Config → Prop :=
| run_action {B} (a : Action B) (k : B → Thread) (b : B) (before after : list Thread) (w w' : World)
    (held : list RuntimeLock) (trace : list RunEvent) (event : option RunEvent) :
    performs a w b w' event → lock_free a held →
    run_step (MkConfig w held (before ++ Do a k :: after) trace)
             (MkConfig w' (locks_after a held) (before ++ k b :: after) (option_list event ++ trace))
| run_exit (jobs started : list (Prog unit)) (before after : list Thread) (w : World)
    (held : list RuntimeLock) (trace : list RunEvent) :
    started ⊆+ jobs →
    run_step (MkConfig w held (before ++ Done jobs :: after) trace)
             (MkConfig w held (before ++ after ++ (job_thread <$> started)) trace)
| run_start (t : Thread) (w : World) (held : list RuntimeLock) (threads : list Thread) (trace : list RunEvent) :
    entry t → run_step (MkConfig w held threads trace) (MkConfig w held (t :: threads) trace)
| run_crash (w : World) (held : list RuntimeLock) (threads : list Thread) (trace : list RunEvent) :
    run_step (MkConfig w held threads trace) (MkConfig w [] [] trace)
| run_outside (w w' : World) (held : list RuntimeLock) (threads : list Thread) (trace : list RunEvent) :
    outside w w' → run_step (MkConfig w held threads trace) (MkConfig w' held threads trace).

(** A process that just started on a database. *)
Definition booted (w : World) : Config := MkConfig w [] [] [].

(** ** The discipline *)

(** What a goroutine has done: the operation it claimed and has not executed yet, whether
    the authority of that operation is reserved, and the operation whose effect it has
    seen proven. *)
Record Token : Type := MkToken {
  tk_claim : option AgentOperation;
  tk_reserved : bool;
  tk_proven : option string
}.

Definition fresh_token : Token := MkToken None false None.

Definition seen (id : string) (answer : Outcome * option error) (proof : option string) : option string :=
  if proven answer then Some id else proof.

Definition next_token {B} (a : Action B) (b : B) (tk : Token) : Token :=
  match a in OperationRuntime.Action _ _ B return B → Token with
  | Claim _ => λ b,
      match b with
      | Ok operation => MkToken (Some operation) (is_empty (op_ApprovalID operation)) None
      | Err _ => tk
      end
  | ReserveCall grantID requestID _ => λ b,
      match b, tk_claim tk with
      | Ok (_, u, _), Some operation =>
        MkToken (tk_claim tk)
          (tk_reserved tk
           || bool_decide (use_State u = UseReserved ∧ grantID = op_ApprovalID operation
                           ∧ requestID = op_ID operation)) (tk_proven tk)
      | _, _ => tk
      end
  | ExecuteCall operation _ => λ b, MkToken None false (seen (op_ID operation) b (tk_proven tk))
  | ReconcileCall operation _ => λ b,
      MkToken (tk_claim tk) (tk_reserved tk) (seen (op_ID operation) b (tk_proven tk))
  | _ => λ _, tk
  end b.

(** The states a store call may put operations in without a discipline. *)
Definition calm_state (s : State) : Prop := s ≠ StateExecuting ∧ s ≠ StateSucceeded.

(** What makes the data of the grant store safe: a clock that runs, fresh identifiers,
    bounds in place, and tables that read back what was written. *)
Definition sound : Prop :=
  clock_runs clock ∧ ids_fresh new_grant_id ∧ options_ok o
  ∧ GrantStorageLaws (GS := sqlite admits begin_tx commit_tx plandigest_Digest).

(** Store calls that change the operations without making one succeed or execute, and
    that move the grants as the grant store does. *)
Record calm {B} (m : Eff B) : Prop := {
  calm_rows : ∀ w, operations_change admits begin_tx commit_tx plandigest_Digest clock calm_state w (snd (m w));
  calm_safe : sound → safe clock new_grant_id m
}.

Definition permitted {B} (a : Action B) (tk : Token) : Prop :=
  match a with
  | StoreCall m => calm m
  | ExecuteCall operation _ => tk_claim tk = Some operation ∧ tk_reserved tk = true
  | SucceedCall id _ => tk_proven tk = Some id
  | _ => True
  end.

Definition answers {B} (a : Action B) (b : B) : Prop := ∃ w w' event, performs a w b w' event.

Fixpoint follows {X} (tk : Token) (p : Prog X) (Q : X → Token → Prop) : Prop :=
  match p with
  | Done x => Q x tk
  | Do a k => permitted a tk ∧ ∀ b, answers a b → follows (next_token a b tk) (k b) Q
  end.

Lemma follows_mono {X} (p : Prog X) (tk : Token) (Q Q' : X → Token → Prop) :
  (∀ x tk', Q x tk' → Q' x tk') → follows tk p Q → follows tk p Q'.
Proof.
  intros HQ. revert tk. induction p as [x|B a k IH]; intros tk; cbn; [apply HQ|].
  intros [Ha Hk]. split; [done|]. intros b Hb. by apply IH, Hk.
Qed.

Lemma follows_bind {X Y} (p : Prog X) (f : X → Prog Y) (tk : Token) (Q : Y → Token → Prop) :
  follows tk p (λ x tk', follows tk' (f x) Q) → follows tk (p ≫= f) Q.
Proof.
  revert tk. induction p as [x|B a k IH]; intros tk; cbn; [done|].
  intros [Ha Hk]. split; [done|]. intros b Hb. apply IH. by apply Hk.
Qed.

(** Programs that leave any token as it is. *)
Definition still_token {X} (p : Prog X) : Prop := ∀ tk, follows tk p (λ _ tk', tk' = tk).

Lemma still_follows {X} (p : Prog X) (tk : Token) (Q : X → Token → Prop) :
  still_token p → (∀ x, Q x tk) → follows tk p Q.
Proof. intros Hp HQ. eapply follows_mono; [|apply Hp]. cbn. intros x tk' ->. apply HQ. Qed.

Lemma still_token_bind {X Y} (p : Prog X) (f : X → Prog Y) :
  still_token p → (∀ x, still_token (f x)) → still_token (p ≫= f).
Proof. intros Hp Hf tk. apply follows_bind, still_follows; [done|]. intros x. apply Hf. Qed.

Lemma still_token_ret {X} (x : X) : still_token (mret x).
Proof. intros tk. by cbn. Qed.
End runs.
