(* ===== verification/RuntimeFollows.v ===== *)
(** * The runtime follows its discipline

    The store calls of the runtime are calm, and every program of the runtime calls
    the provider to execute an operation only after it claimed that operation and,
    where the operation rests on a grant, reserved a use of it. *)

From S2P Require Export CoordinatorSafety.
From S2P Require Export GrantsPlans RuntimeRuns.

Local Open Scope Z_scope.

Section calm.
Context {R : MapRange} {RJ : RawJSON} {AJ : AnyJSON}.
Context `{JT : JSON Target} `{JA : JSON StringListMap} `{JM : JSON (gmap string string)}
  `{JE : JSON EventRecord} `{JG : JSON Grant} `{JP : JSON Presentation} `{JO : JSON OperationError}.
Context (admits : Database → Statement → result error unit)
  (begin_tx : nat → result error unit) (commit_tx : nat → CommitOutcome)
  (plandigest_Digest : string → string).
Context (clock : nat → Time) (new_grant_id new_operation_id : nat → result error string) (o : Options).

#[local] Hint Extern 0 GrantStorage =>
  exact (sqlite admits begin_tx commit_tx plandigest_Digest) : typeclass_instances.

Notation calm := (calm admits begin_tx commit_tx plandigest_Digest clock new_grant_id o).
Notation sound := (sound admits begin_tx commit_tx plandigest_Digest clock new_grant_id o).
Notation keeps := (keeps admits begin_tx commit_tx plandigest_Digest clock).
Notation agent f := (f admits begin_tx commit_tx plandigest_Digest) (only parsing).
Notation safe := (safe clock new_grant_id).

#[local] Existing Instance leads_to_preorder.

(** ** Building calm calls *)

(** Calls that leave the operations alone. *)
Record gentle {A} (m : Eff A) : Prop := {
  gentle_rows : framed same_operations m;
  gentle_safe : sound → safe m
}.

Lemma gentle_ret {A} (a : A) : gentle (mret a : Eff A).
Proof. split; [apply framed_ret, _|intros _; apply safe_ret]. Qed.

Lemma gentle_bind {A B} (m : Eff A) (f : A → Eff B) :
  gentle m → (∀ a, gentle (f a)) → gentle (m ≫= f).
Proof.
  intros [Hm Sm] Hf. split; [apply framed_bind; [apply _|done|intros a; apply Hf]|].
  intros Hs. apply safe_bind; [by apply Sm|intros a; by apply Hf].
Qed.

Lemma moves_on_change (ok : State → Prop) (w w' : World) :
  moves_on same_operations w w' → operations_change admits begin_tx commit_tx plandigest_Digest clock ok w w'.
Proof. intros (Hops & Ht & _). split; [done|]. left. by apply same_operations_rows. Qed.

Lemma gentle_calm {A} (m : Eff A) : gentle m → calm m.
Proof. intros [Hr Hs]. split; [|done]. intros w. apply moves_on_change, Hr. Qed.

Lemma calm_ret {A} (a : A) : calm (mret a : Eff A).
Proof. apply gentle_calm, gentle_ret. Qed.

Lemma same_grants_load (d d' : Database) :
  grants_part d' = grants_part d → loadRaw d' = loadRaw d.
Proof.
  destruct d, d'. unfold grants_part. cbn. intros [= -> -> -> ->]. reflexivity.
Qed.

(** A call of the agent store. *)
Lemma keeps_leads {A} (ok : State → Prop) (m : Eff A) (w : World) :
  clock_runs clock → AgentHistory.keeps admits begin_tx commit_tx plandigest_Digest clock ok m w →
  leads_to clock new_grant_id w (snd (m w)).
Proof.
  intros Hclock ([Ht _] & Hi & Hg). apply leads_to_same; [exact Hclock|by apply same_grants_load|done|done].
Qed.

Lemma keeps_calm {A} (m : Eff A) : (∀ w, keeps calm_state m w) → calm m.
Proof.
  intros H. split; [intros w; apply H|]. intros [Hclock _] w. by eapply keeps_leads, H.
Qed.

Lemma saves_operations (s : Storage) (d : FileData) (plan : option PlanRecord) :
  same_operations s (snd (saveRaw s d plan)).
Proof. apply sqlite_saveRaw_operations. Qed.

Ltac framed lemma := eapply lemma; first [exact saves_operations|apply _].

Lemma operation_safe (op : Operation) (w : World) :
  sound → leads_to clock new_grant_id w
    (perform clock new_grant_id o (λ _, EmptyString) (λ _, []) (λ _, None) (λ _, EmptyString) op w).
Proof. intros (Hclock & Hids & Ho & HL). by apply (perform_leads (GL := HL)). Qed.

(** ** Calls of the agent store *)

Lemma calm_query {A} (f : Database → A) :
  calm (query admits begin_tx commit_tx plandigest_Digest f).
Proof. apply keeps_calm. intros w. apply still_keeps, changes_query. Qed.

Lemma gentle_now : gentle (clocked (now clock)).
Proof.
  split; [by apply framed_clocked; [apply _|apply ticks_now]|]. intros [Hclock _] w.
  apply leads_to_same; [exact Hclock|done|cbn; lia|done].
Qed.

Lemma calm_now : calm (clocked (now clock)).
Proof. apply gentle_calm, gentle_now. Qed.

Lemma calm_NewID : calm (agent AgentStore.NewID new_operation_id).
Proof. apply keeps_calm. intros w. apply still_keeps, changes_NewID. Qed.

Lemma calm_GetByIdempotency (client key : string) :
  calm (agent AgentStore.GetByIdempotency client key).
Proof. unfold GetByIdempotency. destruct (_ || _); [apply calm_ret|apply calm_query]. Qed.

Lemma calm_update (id : string) (change : AgentOperation → result error AgentOperation) :
  (∀ o o', change o = Ok o' → op_changes o o' ∧ calm_state (op_State o')) →
  calm (agent AgentStore.update clock id change).
Proof. intros H. apply keeps_calm. intros w. by apply keeps_update. Qed.

Lemma calm_Cancel (client id : string) : calm (agent AgentStore.Cancel clock client id).
Proof. apply calm_update. intros o1 o2 H. apply cancel_changes in H as [? ->]. by split. Qed.

Lemma calm_Approve (id : string) : calm (agent AgentStore.Transition clock id StateApproved).
Proof. apply calm_update. intros o1 o2 H. apply transition_changes in H as [? ->]. by split. Qed.

Lemma calm_Fail (id : string) (to : State) (code message : string) :
  calm (agent AgentStore.Fail_ clock id to code message).
Proof.
  unfold Fail_. destruct (validFailureState to) eqn:E; cbn [negb]; [|apply calm_ret].
  destruct (negb _); [apply calm_ret|]. apply calm_update. intros o1 o2 H.
  apply fail_changes in H as [? ->]. split; [done|]. by destruct to.
Qed.

Lemma calm_BindPlan (id : string) (plan : Plan) (approvalID : string) (direct : bool) :
  calm (agent AgentStore.BindPlan clock id plan approvalID direct).
Proof. apply keeps_calm. intros w. by apply keeps_bindplan; [split|intros; split]. Qed.

Lemma calm_submit (input : Submission) (plan : option Plan) (s : State) :
  s = StatePending ∨ s = StateApproved →
  calm (agent AgentStore.submit clock new_operation_id input plan s).
Proof. intros Hs. apply keeps_calm. intros w. apply keeps_submit; [done|]. by destruct Hs as [->| ->]; split. Qed.

Lemma calm_SubmitGrant (input : Submission) (plan : Plan) (approvalID : string) :
  calm (agent AgentStore.SubmitApprovedWithGrantPlan clock new_operation_id input plan approvalID).
Proof.
  unfold SubmitApprovedWithGrantPlan. destruct (is_empty _); [apply calm_ret|]. apply calm_submit. by right.
Qed.

(** ** Calls of the grant store *)

Lemma gentle_Get (id : string) : gentle (Get clock o id).
Proof.
  split; [framed Get_framed|]. intros Hs w. exact (operation_safe (OpGet id) w Hs).
Qed.

Lemma gentle_GetUse (grantID requestID : string) : gentle (GetUse clock o grantID requestID).
Proof.
  split; [framed GetUse_framed|].
  intros Hs w. exact (operation_safe (OpGetUse grantID requestID) w Hs).
Qed.

Lemma gentle_ListForClient (client : string) : gentle (ListForClient clock o client).
Proof.
  split; [framed ListForClient_framed|].
  intros Hs w. exact (operation_safe (OpListForClient client) w Hs).
Qed.

Lemma gentle_ActivePolicyGrants : gentle (ActivePolicyGrants clock o).
Proof.
  split; [framed ActivePolicyGrants_framed|].
  intros Hs w. exact (operation_safe OpActivePolicyGrants w Hs).
Qed.

Lemma gentle_CancelForClient (id client : string) : gentle (CancelForClient clock o id client).
Proof.
  split; [framed closeForClient_framed|].
  intros Hs w. exact (operation_safe (OpCancelForClient id client) w Hs).
Qed.

Lemma gentle_RevokeForClient (id client : string) : gentle (RevokeForClient clock o id client).
Proof.
  split; [framed closeForClient_framed|].
  intros Hs w. exact (operation_safe (OpRevokeForClient id client) w Hs).
Qed.

Lemma gentle_settleUse (grantID requestID : string) (target : UseState) :
  settle_target target → gentle (settleUse clock o grantID requestID target).
Proof.
  intros Ht. split; [framed settleUse_framed|].
  intros Hs w. destruct Ht as [->|[->| ->]].
  - exact (operation_safe (OpCommitUse grantID requestID) w Hs).
  - exact (operation_safe (OpReleaseUse grantID requestID) w Hs).
  - exact (operation_safe (OpRetainUse grantID requestID) w Hs).
Qed.

Lemma gentle_request (req : GrantRequest) (plan : option PlanRecord) :
  gentle (request clock new_grant_id o req plan).
Proof.
  split; [framed request_framed|].
  intros Hs w. exact (operation_safe (OpRequest req plan) w Hs).
Qed.

Lemma calm_Get (id : string) : calm (Get clock o id).
Proof. apply gentle_calm, gentle_Get. Qed.

Lemma calm_GetUse (grantID requestID : string) : calm (GetUse clock o grantID requestID).
Proof. apply gentle_calm, gentle_GetUse. Qed.

Lemma calm_ListForClient (client : string) : calm (ListForClient clock o client).
Proof. apply gentle_calm, gentle_ListForClient. Qed.

Lemma calm_CancelForClient (id client : string) : calm (CancelForClient clock o id client).
Proof. apply gentle_calm, gentle_CancelForClient. Qed.

Lemma calm_RevokeForClient (id client : string) : calm (RevokeForClient clock o id client).
Proof. apply gentle_calm, gentle_RevokeForClient. Qed.

Lemma calm_settleUse (grantID requestID : string) (target : UseState) :
  settle_target target → calm (settleUse clock o grantID requestID target).
Proof. intros H. by apply gentle_calm, gentle_settleUse. Qed.

(** ** Calls of the coordinator *)

(** The functions the provider gives the coordinator leave the operations alone. *)
Record coordinator_calm (c : Coordinator admits begin_tx commit_tx plandigest_Digest) : Prop := {
  cc_active : ∀ request, gentle (co_activeGrants admits begin_tx commit_tx plandigest_Digest c request);
  cc_now : gentle (co_now admits begin_tx commit_tx plandigest_Digest c)
}.

Context (c : Coordinator admits begin_tx commit_tx plandigest_Digest) (Hc : coordinator_calm c).

Lemma gentle_RequestApproval (request : Request) (build : option IntentBuilder) :
  gentle (RequestApproval admits begin_tx commit_tx plandigest_Digest clock new_grant_id o c request build).
Proof.
  unfold RequestApproval. destruct (validateRequest _ _); [|apply gentle_ret].
  apply gentle_bind; [apply Hc|]. intros t. cbn zeta. destruct (negb _); [apply gentle_ret|].
  unfold createApprovalRequest. destruct (buildIntent _ _); [|apply gentle_ret].
  destruct (validateIntent _ _ _ _); [|apply gentle_ret].
  apply gentle_bind; [|intros; apply gentle_ret]. unfold RequestWithPlan.
  destruct (validateImmutableRequestPlan _ _); [apply gentle_request|apply gentle_ret].
Qed.

Lemma gentle_grants_of_mode (mode : GrantMode) (active : list PolicyGrant) :
  gentle (grants_of_mode admits begin_tx commit_tx plandigest_Digest clock o mode active).
Proof.
  induction active as [|g active IH]; cbn [grants_of_mode]; [apply gentle_ret|].
  apply gentle_bind; [apply gentle_Get|]. intros [grant|e]; [|apply gentle_ret].
  apply gentle_bind; [exact IH|]. intros. apply gentle_ret.
Qed.

Lemma gentle_ActiveGrantMode (request : Request) (mode : GrantMode) :
  gentle (ActiveGrantMode admits begin_tx commit_tx plandigest_Digest clock o c request mode).
Proof.
  unfold ActiveGrantMode. destruct (validateRequest _ _); [|apply gentle_ret].
  apply gentle_bind; [apply Hc|]. intros [active|e]; [|apply gentle_ret].
  apply gentle_bind; [apply gentle_grants_of_mode|]. intros [filtered|e]; [|apply gentle_ret].
  apply gentle_bind; [apply Hc|]. intros. apply gentle_ret.
Qed.

Lemma calm_RequestApproval (request : Request) (build : option IntentBuilder) :
  calm (RequestApproval admits begin_tx commit_tx plandigest_Digest clock new_grant_id o c request build).
Proof. apply gentle_calm, gentle_RequestApproval. Qed.

Lemma calm_ActiveGrantMode (request : Request) (mode : GrantMode) :
  calm (ActiveGrantMode admits begin_tx commit_tx plandigest_Digest clock o c request mode).
Proof. apply gentle_calm, gentle_ActiveGrantMode. Qed.
End calm.

(** * The runtime follows its discipline

    Every program of the runtime calls the provider to execute an operation only
    after it claimed that operation and, where the operation rests on a grant,
    reserved a use of it for exactly this operation; and it records a success
    only after the provider proved the effect of that operation. *)

Section follows.
Context {R : MapRange} {RJ : RawJSON} {AJ : AnyJSON}.
Context `{JT : JSON Target} `{JA : JSON StringListMap} `{JM : JSON (gmap string string)}
  `{JE : JSON EventRecord} `{JG : JSON Grant} `{JP : JSON Presentation} `{JO : JSON OperationError}.
Context (admits : Database → Statement → result error unit)
  (begin_tx : nat → result error unit) (commit_tx : nat → CommitOutcome)
  (plandigest_Digest : string → string).
Context (clock : nat → Time) (new_grant_id new_operation_id : nat → result error string) (o : Options).

#[local] Hint Extern 0 GrantStorage =>
  exact (sqlite admits begin_tx commit_tx plandigest_Digest) : typeclass_instances.

Context {I P A : Type} (error_text : error → string).
Context (r : RuntimeOptions admits begin_tx commit_tx plandigest_Digest (I := I) (P := P) (A := A)).
Context (Hcoordinator : coordinator_calm admits begin_tx commit_tx plandigest_Digest clock new_grant_id o
           (rt_Authorization admits begin_tx commit_tx plandigest_Digest r)).

Notation Action := (Action I P).
Notation Prog := (Prog I P).
Notation calm := (calm admits begin_tx commit_tx plandigest_Digest clock new_grant_id o).
Notation follows := (follows admits begin_tx commit_tx plandigest_Digest clock new_grant_id o).
Notation still_token := (still_token admits begin_tx commit_tx plandigest_Digest clock new_grant_id o).
Notation answers := (answers admits begin_tx commit_tx plandigest_Digest clock o).
Notation permitted := (permitted admits begin_tx commit_tx plandigest_Digest clock new_grant_id o).
Notation next_token := (next_token admits begin_tx commit_tx plandigest_Digest).
Notation engine f := (f admits begin_tx commit_tx plandigest_Digest) (only parsing).
Notation timed f := (f admits begin_tx commit_tx plandigest_Digest clock) (only parsing).
Notation runtime f := (f admits begin_tx commit_tx plandigest_Digest clock o) (only parsing).
Notation submitting f :=
  (f admits begin_tx commit_tx plandigest_Digest clock new_grant_id new_operation_id o) (only parsing).

#[local] Hint Resolve calm_query calm_now calm_NewID calm_GetByIdempotency calm_Cancel calm_Approve calm_Fail calm_BindPlan
  calm_submit calm_SubmitGrant calm_Get calm_GetUse calm_ListForClient calm_CancelForClient
  calm_RevokeForClient calm_settleUse calm_RequestApproval calm_ActiveGrantMode calm_ret : calm.

(** ** Single actions *)

Lemma follows_act {B} (a : Action B) (tk : Token) (Q : B → Token → Prop) :
  permitted a tk → (∀ b, answers a b → Q b (next_token a b tk)) → follows tk (act a) Q.
Proof. intros Ha HQ. split; [done|]. intros b Hb. by apply HQ. Qed.

Lemma still_call {B} (m : Eff B) : calm m → still_token (call m : Prog B).
Proof. intros Hm tk. by apply follows_act. Qed.

(** Actions that leave every token alone and need nothing. *)
Definition quiet {B} (a : Action B) : Prop :=
  (∀ tk, permitted a tk) ∧ ∀ b tk, next_token a b tk = tk.

Lemma still_act {B} (a : Action B) : quiet a → still_token (act a).
Proof. intros [Ha Hn] tk. split; [apply Ha|]. intros b _. apply Hn. Qed.

#[local] Hint Extern 2 (RuntimeRuns.calm _ _ _ _ _ _ _ _) => first [apply calm_query|apply calm_submit] : calm.
#[local] Hint Extern 1 (settle_target _) => (unfold settle_target; tauto) : calm.
#[local] Hint Extern 1 (_ = StatePending ∨ _) => tauto : calm.

(** Walk along a program whose actions are quiet or calm. *)
Ltac still_with known :=
  repeat first
    [ apply still_token_ret
    | known
    | apply still_call; solve [eauto with calm]
    | apply still_act; split; intros; exact Logic.I || reflexivity
    | apply still_token_bind; [|intros ?]
    | match goal with |- still_token (match ?x with _ => _ end) => destruct x end
    | match goal with |- still_token (if ?x then _ else _) => destruct x end ].
Tactic Notation "still" := still_with ltac:(fail).
Tactic Notation "still" "with" tactic1(known) := still_with ltac:(known).

Lemma report_still (present : bool) (what : Report) :
  still_token (engine report present what : Prog unit).
Proof. unfold report, when. still. Qed.

Lemma Load_still (operation : AgentOperation) : still_token (engine Load r operation).
Proof. unfold Load. still. Qed.

Lemma cleanup_still (adapter : Adapter I P A) (plan : P) : still_token (engine cleanup adapter plan).
Proof. unfold cleanup, when. still. Qed.

Lemma cleanupStored_still (operation : AgentOperation) : still_token (engine cleanupStored r operation).
Proof. unfold cleanupStored. still with (first [apply Load_still|apply cleanup_still]). Qed.

Lemma fail_still (id : string) (state : State) (code message : string) :
  still_token (timed fail r id state code message).
Proof. unfold fail. still with (apply cleanupStored_still). Qed.

Lemma settleApproval_still (operation : AgentOperation) (reserved : bool) (settlement : approvalSettlement) :
  still_token (runtime settleApproval r operation reserved settlement).
Proof.
  unfold settleApproval. destruct (negb reserved); [apply still_token_ret|].
  apply still_token_bind; [apply still_call; unfold RetainUse, ReleaseUse, CommitUse; destruct settlement; eauto with calm|].
  intros settled. still with (apply fail_still).
Qed.

Lemma bindReservedPlan_still (operation : AgentOperation) (adapter : Adapter I P A) (plan : P)
    (reservation : option UseReservation) :
  still_token (runtime bindReservedPlan r operation adapter plan reservation).
Proof. unfold bindReservedPlan, ReleaseUse. still with (apply fail_still). Qed.

Lemma recordExecutionFailure_still (operation : AgentOperation) (failure : ExecutionFailure) :
  still_token (timed recordExecutionFailure r operation failure).
Proof. unfold recordExecutionFailure. still with (first [apply fail_still|apply report_still]). Qed.

Lemma cancelGrant_still (g : Grant) (client : string) : still_token (runtime cancelGrant g client : Prog _).
Proof. unfold cancelGrant. still. Qed.

Lemma abandonApproval_still (id client : string) : still_token (runtime abandonApproval id client : Prog _).
Proof. unfold abandonApproval. still with (apply cancelGrant_still). Qed.

Lemma cancelApproval_still (operation : AgentOperation) (client : string) :
  still_token (runtime cancelApproval r operation client).
Proof. unfold cancelApproval, approvalID. still with (apply cancelGrant_still). Qed.

Lemma Runtime_Cancel_still (client id : string) : still_token (runtime Runtime_Cancel r client id).
Proof.
  unfold Runtime_Cancel, with_lock, AgentStore.GetOperation.
  still with (first [apply cancelApproval_still|apply cleanupStored_still]).
Qed.

Lemma RecoverApproval_still (operation : AgentOperation) : still_token (runtime RecoverApproval r operation).
Proof. unfold RecoverApproval, r_now. still with (apply fail_still). Qed.

Lemma advancePendingApproval_still (operation : AgentOperation) :
  still_token (runtime advancePendingApproval r operation).
Proof.
  unfold advancePendingApproval, syncApproval. still with (first [apply fail_still|apply RecoverApproval_still]).
Qed.

Lemma bindApproval_still (operation : AgentOperation) (g : Grant) :
  still_token (runtime bindApproval r operation g).
Proof.
  unfold bindApproval, failUnnotified. still with (first [apply fail_still|apply abandonApproval_still]).
Qed.

Lemma retainRecoveredApproval_still (operation : AgentOperation) :
  still_token (runtime retainRecoveredApproval operation : Prog unit).
Proof. unfold retainRecoveredApproval, RetainUse. still. Qed.

Lemma settleRecoveredApproval_still (operation : AgentOperation) :
  still_token (runtime settleRecoveredApproval r operation).
Proof.
  unfold settleRecoveredApproval, settleBoundRecoveredApproval, refuse_recovered, CommitUse.
  still with (apply fail_still).
Qed.

(** ** Submission *)

#[local] Hint Extern 2 (RuntimeRuns.calm _ _ _ _ _ _ _ _) => apply calm_SubmitGrant : calm.

Lemma submitDirectGrant_still (s : Submission) (adapter : Adapter I P A) (plan : P) (auth : A) (core : Request)
    (decision : PolicyDecide.Decision) :
  still_token (submitDirectGrant admits begin_tx commit_tx plandigest_Digest clock new_operation_id r s adapter
                 plan auth core decision).
Proof. unfold submitDirectGrant, r_now. still with (apply cleanup_still). Qed.

Lemma submitActiveGrant_still (s : Submission) (adapter : Adapter I P A) (plan : P) (auth : A) (core : Request)
    (decision : PolicyDecide.Decision) :
  still_token (submitActiveGrant admits begin_tx commit_tx plandigest_Digest clock new_operation_id o r s adapter
                 plan auth core decision).
Proof. unfold submitActiveGrant, prepareActiveGrant, r_now. still with (apply cleanup_still). Qed.

Lemma submitPending_still (s : Submission) (adapter : Adapter I P A) (plan : P) (auth : A) (core : Request) :
  still_token (submitting submitPending r s adapter plan auth core).
Proof.
  unfold submitPending, with_lock, submitPending_locked, finishRefused, AgentStore.Submit, r_now.
  still with (first [apply bindApproval_still|apply cleanup_still|apply abandonApproval_still
                    |apply fail_still|apply report_still]).
Qed.

Lemma submitNew_still (client : string) (request : SubmitRequest) (adapter : Adapter I P A) (input : I) :
  still_token (submitting submitNew error_text r client request adapter input).
Proof.
  unfold submitNew, Runtime_admit, submitResolved, submitWithAvailableGrant, r_now, when.
  still with (first [apply cleanup_still|apply submitDirectGrant_still|apply submitActiveGrant_still
                    |apply submitPending_still]).
Qed.

Lemma Runtime_Submit_still (client : string) (request : SubmitRequest) :
  still_token (submitting Runtime_Submit error_text r client request).
Proof.
  unfold Runtime_Submit, with_lock, replayed.
  still with (first [apply submitNew_still|apply report_still]).
Qed.

(** ** Execution *)

Lemma follows_then {X Y} (p : Prog X) (f : X → Prog Y) (tk : Token) (Q : Y → Token → Prop) :
  still_token p → (∀ x, follows tk (f x) Q) → follows tk (p ≫= f) Q.
Proof. intros Hp Hf. by apply follows_bind, still_follows. Qed.

Lemma still_true {X} (p : Prog X) (tk : Token) : still_token p → follows tk p (λ _ _, True).
Proof. intros Hp. by apply still_follows. Qed.

Lemma Get_ok_id (id : string) (w : World) (g : Grant) :
  fst (Get clock o id w) = Ok g → grant_ID g = id.
Proof.
  intros (d & d1 & d2 & t1 & t2 & c1 & c2 & _ & _ & _ & H)%read_prepared_ok. cbn in H.
  destruct (findGrant _ id) as [[i g']|] eqn:E; [|done]. cbn in H. injection H as <-.
  by apply findGrant_some in E as [_ ?].
Qed.

(** The reservation of the operation of the token. *)
Lemma reserveApproval_follows (operation : AgentOperation) (proof : option string) :
  follows (MkToken (Some operation) (is_empty (op_ApprovalID operation)) proof)
    (runtime reserveApproval r operation)
    (λ answer tk, snd answer = true → tk = MkToken (Some operation) true proof).
Proof.
  unfold reserveApproval. destruct (is_empty (op_ApprovalID operation)) eqn:Ee; [done|].
  assert (∀ id state code message tk,
    follows tk (timed fail r id state code message ≫= λ _, mret (None : option UseReservation, false))
      (λ answer tk, snd answer = true → tk = MkToken (Some operation) true proof)) as Hfail.
  { intros. by apply follows_then; [apply fail_still|]. }
  apply follows_bind, follows_act; [apply calm_Get|]. intros grant (w & w' & event & [Hw _]).
  destruct grant as [g|e]; [|apply Hfail].
  assert (grant_ID g = op_ApprovalID operation) as Hg by (apply (Get_ok_id _ w); by rewrite Hw).
  destruct (rt_ValidateExecution _ _ _ _ r g); [apply Hfail|].
  apply follows_bind, follows_act; [done|]. intros reservation _.
  destruct reservation as [[[gg u] created]|e]; [|apply Hfail].
  case_bool_decide as Hu; [|apply Hfail]. intros _. cbn. by rewrite bool_decide_eq_true_2.
Qed.

Lemma succeed_follows (operation : AgentOperation) (result : string) (reserved : bool) (detail : string)
    (status : Z) (tk : Token) :
  tk_proven tk = Some (op_ID operation) →
  follows tk (runtime succeed r operation result reserved detail status) (λ _ _, True).
Proof.
  intros Hp. unfold succeed. apply follows_then; [apply settleApproval_still|]. intros settled.
  destruct (negb settled); [done|]. apply follows_bind, follows_act; [done|]. intros stored _.
  apply still_true. still with (first [apply fail_still|apply cleanupStored_still|apply report_still]).
Qed.

Lemma reconcileExecution_follows (operation : AgentOperation) (plan : P) (reserved : bool)
    (execution : Outcome) (executionErr : option error) (tk : Token) :
  follows tk (runtime reconcileExecution r operation plan reserved execution executionErr) (λ _ _, True).
Proof.
  unfold reconcileExecution. apply follows_bind, follows_act; [done|]. intros [outcome reconcileErr] _.
  cbn [RuntimeRuns.next_token]. unfold seen. destruct (proven (outcome, reconcileErr)).
  - apply follows_bind. eapply follows_mono; [|by apply succeed_follows]. done.
  - apply still_true. unfold failExecution.
    still with (first [apply settleApproval_still|apply recordExecutionFailure_still]).
Qed.

Lemma executeReserved_follows (operation : AgentOperation) (adapter : Adapter I P A) (plan : P)
    (reserved : bool) (proof : option string) :
  follows (MkToken (Some operation) true proof)
    (runtime executeReserved r operation adapter plan reserved) (λ _ _, True).
Proof.
  unfold executeReserved. apply follows_then; [apply report_still|]. intros _.
  apply follows_bind, follows_act; [done|]. intros [execution executionErr] _.
  cbn [RuntimeRuns.next_token]. unfold seen. apply follows_bind.
  apply follows_mono with (Q := λ _ _, True).
  { intros outcome tk' _. apply still_true. still with (apply report_still). }
  destruct (proven (execution, executionErr)).
  - apply follows_bind. eapply follows_mono; [|by apply succeed_follows]. done.
  - destruct (DefinitiveFailure _ _ _ _ r executionErr).
    + apply still_true. still with (first [apply settleApproval_still|apply recordExecutionFailure_still]).
    + apply reconcileExecution_follows.
Qed.

Lemma Execute_follows (operation : AgentOperation) (proof : option string) :
  follows (MkToken (Some operation) (is_empty (op_ApprovalID operation)) proof)
    (runtime Execute r operation) (λ _ _, True).
Proof.
  unfold Execute. apply follows_then; [apply Load_still|]. intros [[adapter plan]|e].
  - apply follows_bind. eapply follows_mono; [|apply reserveApproval_follows].
    intros [reservation ok] tk Htk. cbn in Htk. destruct ok; [|done]. rewrite Htk by done. cbn [negb].
    apply follows_then; [apply bindReservedPlan_still|]. intros [plan' ok].
    destruct ok; [|done]. apply executeReserved_follows.
  - apply still_true. still with (apply fail_still).
Qed.

(** ** Rounds of the worker *)

(** A program that may start whatever its goroutine did before. *)
Definition tame (p : Prog unit) : Prop := ∀ tk, follows tk p (λ _ _, True).

Lemma Advance_tame (operation : AgentOperation) : tame (runtime Advance r operation).
Proof.
  intros tk. unfold Advance, with_lock. apply follows_bind, follows_act; [done|]. intros [] _. cbn [RuntimeRuns.next_token].
  apply follows_bind. apply follows_mono with (Q := λ _ _, True).
  { intros x tk' _. apply still_true. still. }
  apply follows_then; [still|]. intros [current|e]; [|done].
  apply follows_then; [apply advancePendingApproval_still|]. intros operation'.
  destruct (negb _); [done|]. apply follows_bind, follows_act; [done|]. intros [claimed|e] _; [|done].
  apply Execute_follows.
Qed.

Lemma ReconcileInterrupted_tame (operation : AgentOperation) :
  tame (runtime ReconcileInterrupted r operation).
Proof.
  intros tk. unfold ReconcileInterrupted. apply follows_then; [apply Load_still|].
  intros [[adapter plan]|e]; [|apply still_true; still with (apply fail_still)].
  apply follows_bind, follows_act; [done|]. intros answer _. cbn [RuntimeRuns.next_token]. unfold seen.
  destruct (proven answer).
  - apply follows_then; [apply settleRecoveredApproval_still|]. intros settled.
    destruct (negb settled); [done|]. apply follows_bind, follows_act; [done|]. intros stored _.
    apply still_true. still with (first [apply fail_still|apply cleanup_still|apply report_still]).
  - apply still_true. still with (first [apply retainRecoveredApproval_still|apply fail_still]).
Qed.

(** What starts, starts with a fresh token and hands over tame jobs. *)
Definition disciplined (t : Thread admits begin_tx commit_tx plandigest_Digest (I := I) (P := P)) (tk : Token) : Prop :=
  follows tk t (λ jobs _, Forall tame jobs).

Lemma job_disciplined (p : Prog unit) (tk : Token) :
  tame p → disciplined (job_thread admits begin_tx commit_tx plandigest_Digest p) tk.
Proof. intros Hp. apply follows_bind. eapply follows_mono; [|apply Hp]. intros _ tk' _. by cbn. Qed.

Lemma entry_disciplined (t : Thread admits begin_tx commit_tx plandigest_Digest (I := I) (P := P)) :
  entry admits begin_tx commit_tx plandigest_Digest clock new_grant_id new_operation_id o error_text r t →
  disciplined t fresh_token.
Proof.
  intros [client request|client id| |].
  - apply follows_then; [apply Runtime_Submit_still|]. intros _. by cbn.
  - apply follows_then; [apply Runtime_Cancel_still|]. intros _. by cbn.
  - unfold Recover, AgentStore.ListUnfinished. apply follows_then; [still|]. intros [values|e]; [|by cbn].
    cbn. apply Forall_forall. intros p (operation & -> & _)%list_elem_of_fmap. intros tk. unfold recover_one.
    case_bool_decide; [apply ReconcileInterrupted_tame|apply Advance_tame].
  - unfold AdvanceAll, AgentStore.ListUnfinished. apply follows_then; [still|]. intros [values|e]; [|by cbn].
    cbn. apply Forall_forall. intros p (operation & -> & _)%list_elem_of_fmap. apply Advance_tame.
Qed.
End follows.
