(* ===== verification/RuntimeSafety.v ===== *)
(** * Executions are claimed, unique and proven

    Invariants of the runs of the operation runtime, over every interleaving of
    its goroutines, crashes, lost acknowledgements of the engine and answers of
    the provider. *)

From S2P Require Export RuntimeFollows.

Local Open Scope Z_scope.

(** States of an operation that was claimed. *)
Definition claimed_state (s : State) : Prop := s = StateExecuting ∨ s = StateSucceeded ∨ s = StateFailed.

Lemma claimed_advances (s s' : State) : advances s s' → claimed_state s → claimed_state s'.
Proof. unfold claimed_state. intros [| | | |s0 H|s0 H|s0 H]; set_unfold; naive_solver. Qed.

Lemma claimed_step (now : Time) (r r' : OperationRecord) :
  record_step now r r' → claimed_state (or_State r) → claimed_state (or_State r').
Proof.
  intros H Hc. destruct (step_state _ _ _ H) as [Ha|[E ->]]; [by eapply claimed_advances|by rewrite <- E].
Qed.

Lemma initial_unclaimed (now : Time) (r : OperationRecord) : initial_record now r → ¬ claimed_state (or_State r).
Proof. intros Hi. unfold claimed_state. destruct (initial_state _ _ Hi) as [->| ->]; naive_solver. Qed.

(** The events of an operation. *)
Definition executes (id : string) (event : RunEvent) : Prop :=
  match event with Executed o _ => op_ID o = id | _ => False end.

Definition proves (id : string) (event : RunEvent) : Prop :=
  match event with
  | Executed o answer | Reconciled o answer => op_ID o = id ∧ proven answer = true
  | Reported _ => False
  end.

(** How many executions of an operation a trace has, and how many claims of it tokens hold. *)
Definition execution_of (id : string) (event : RunEvent) : nat :=
  match event with Executed o _ => if decide (op_ID o = id) then 1 else 0 | _ => 0 end.

Definition claim_of (id : string) (tk : Token) : nat :=
  match tk_claim tk with Some o => if decide (op_ID o = id) then 1 else 0 | None => 0 end.

Definition executions (id : string) (trace : list RunEvent) : nat := sum_list_with (execution_of id) trace.
Definition claims (id : string) (tks : list Token) : nat := sum_list_with (claim_of id) tks.

Lemma executions_0 (id : string) (trace : list RunEvent) (event : RunEvent) :
  executions id trace = 0%nat → event ∈ trace → ¬ executes id event.
Proof.
  unfold executions. intros H Hin He. apply list_elem_of_split in Hin as (l1 & l2 & ->).
  rewrite sum_list_with_app in H. cbn in H.
  destruct event; [|done|done]. cbn in H, He. rewrite decide_True in H by done. lia.
Qed.

(** ** What a reservation that is answered left in the store *)

Section reserved.
Context {R : MapRange} {GS : GrantStorage} {GL : GrantStorageLaws}
  (clock : nat → Time) (new_id : nat → result error string) (o : Options).
Context (Hclock : clock_runs clock) (Hids : ids_fresh new_id) (Ho : options_ok o).

Definition use_identity (u : GrantUse) : string * string := (use_GrantID u, use_RequestID u).

Lemma prepareLifecycle_uses (d d1 : FileData) (t t1 : nat) (changed : bool) :
  prepareLifecycle clock o d t = ((d1, changed), t1) →
  use_identity <$> fd_Uses d1 = use_identity <$> fd_Uses d.
Proof.
  unfold prepareLifecycle, expireDue, retainStaleReservations. cbn. intros [= <- _ _]. cbn.
  rewrite <- list_fmap_compose. apply list_fmap_ext. intros i u _. cbn. by destruct (use_is_stale _ _ _ _).
Qed.

(** A use that is read is in the storage it was read from. *)
Lemma GetUse_stored (grantID requestID : string) (w : World) (d : FileData) (g : Grant) (u : GrantUse) :
  fst (GetUse clock o grantID requestID w) = Ok (g, u) → loadRaw (w_storage w) = Ok d →
  ∃ u0, u0 ∈ fd_Uses d ∧ use_identity u0 = (grantID, requestID).
Proof.
  intros (d0 & d1 & d2 & t1 & t2 & c1 & c2 & Hl & Hp & Hr & H)%read_prepared_ok Hd.
  assert (d0 = d) as -> by congruence. apply prepareLifecycle_uses in Hp.
  assert (0 < opts_MaxEvents o) as Hmax by apply Ho.
  pose proof (reconcile_from_post clock o Hmax (grantSnapshots (fd_Grants d)) (fd_Grants d1) d1 t1) as Hc.
  unfold reconcileLifecycle in Hr. unfold clocked_post in Hc. unfold mbind, clocked_bind in Hr.
  destruct (reconcile_from _ _ _ _ _ t1) as [[[gs d3] c3] t3]. injection Hr as <- _ _.
  destruct Hc as (_ & _ & (_ & Hu & _) & _).
  unfold useReservationFromData, findUse in H. cbn in H.
  destruct (findGrant _ _) as [[i g']|]; [|done]. cbn in H. rewrite Hu in H.
  destruct (findUseIndex (fd_Uses d1) requestID) as [[j u1]|] eqn:E; [|done]. cbn in H.
  destruct (String.eqb_spec (use_GrantID u1) grantID) as [<-|]; [|done].
  apply findUseIndex_some in E as [Hin%list_elem_of_lookup_2 <-].
  assert (use_identity u1 ∈ use_identity <$> fd_Uses d) as (u0 & Hu0 & Hin0)%list_elem_of_fmap.
  { rewrite <- Hp. apply list_elem_of_fmap. by exists u1. }
  exists u0. split; [done|]. by rewrite <- Hu0.
Qed.
End reserved.

Section safety.
Context {R : MapRange} {RJ : RawJSON} {AJ : AnyJSON}.
Context `{JT : JSON Target} `{JA : JSON StringListMap} `{JM : JSON (gmap string string)}
  `{JE : JSON EventRecord} `{JG : JSON Grant} `{JP : JSON Presentation} `{JO : JSON OperationError}.
Context (admits : Database → Statement → result error unit)
  (begin_tx : nat → result error unit) (commit_tx : nat → CommitOutcome)
  (plandigest_Digest : string → string).
Context (clock : nat → Time) (new_grant_id new_operation_id : nat → result error string) (o : Options).

#[local] Hint Extern 0 GrantStorage =>
  exact (sqlite admits begin_tx commit_tx plandigest_Digest) : typeclass_instances.

Context {I P A : Type} (error_text : error → string).
Context (r : RuntimeOptions admits begin_tx commit_tx plandigest_Digest (I := I) (P := P) (A := A)).

Notation Action := (Action I P).
Notation engine f := (f admits begin_tx commit_tx plandigest_Digest) (only parsing).
Notation timed f := (f admits begin_tx commit_tx plandigest_Digest clock) (only parsing).
Notation performs := (performs admits begin_tx commit_tx plandigest_Digest clock o).
Notation permitted := (permitted admits begin_tx commit_tx plandigest_Digest clock new_grant_id o).
Notation next_token := (next_token admits begin_tx commit_tx plandigest_Digest).
Notation stored_in w id := (stored (w_storage w) id).

Notation row_changes := (row_changes admits begin_tx commit_tx plandigest_Digest clock).
Notation operations_change := (operations_change admits begin_tx commit_tx plandigest_Digest clock).

(** ** One action *)

(** What an action does to the row of an identifier, and to its claims. *)
Record row_effect (id : string) (w w' : World) (tk tk' : Token) (event : option RunEvent) : Prop := {
  eff_ticks : (w_tick w <= w_tick w')%nat;
  eff_row : row_changes id w w';
  eff_success : ∀ row, stored_in w' id = Some row → or_State row = StateSucceeded →
    stored_in w id = Some row ∨ tk_proven tk = Some id;
  eff_count :
    (claim_of id tk' + executions id (option_list event) <= claim_of id tk)%nat
    ∨ (claim_of id tk' + executions id (option_list event) <= 1)%nat
      ∧ (∃ row, stored_in w id = Some row ∧ or_State row = StateApproved)
      ∧ ∃ row, stored_in w' id = Some row ∧ or_State row = StateExecuting ∧ or_TerminalAt row = None
}.

Lemma lives_effect (ok : State → Prop) (id : string) (w w' : World) (tk tk' : Token) (event : option RunEvent) :
  operations_change ok w w' → ¬ ok StateSucceeded →
  (claim_of id tk' + executions id (option_list event) <= claim_of id tk)%nat →
  row_effect id w w' tk tk' event.
Proof.
  intros Hl Hok Hc. constructor; [apply Hl|by eapply operations_change_row| |by left].
  intros row Hrow Hs. left. eapply operations_change_stay; [exact Hl|done|]. by rewrite Hs.
Qed.

(** The row did not change, nor did a claim appear. *)
Lemma same_row_effect (id : string) (w w' : World) (tk tk' : Token) (event : option RunEvent) :
  (w_tick w <= w_tick w')%nat → stored_in w' id = stored_in w id →
  (claim_of id tk' + executions id (option_list event) <= claim_of id tk)%nat →
  row_effect id w w' tk tk' event.
Proof. intros Ht H Hc. constructor; [done|by left|rewrite H; by left|by left]. Qed.

Lemma update_change (ok : State → Prop) (id : string) (change : AgentOperation → result error AgentOperation)
    (w : World) :
  (∀ o1 o2, change o1 = Ok o2 → op_changes o1 o2 ∧ ok (op_State o2)) →
  operations_change ok w (snd (timed AgentStore.update id change w)).
Proof. intros H. by apply (keeps_update admits begin_tx commit_tx plandigest_Digest clock ok id change w). Qed.

Lemma claim_effect (id id' : string) (w w' : World) (tk : Token) (answer : result error AgentOperation) :
  timed AgentStore.Transition id StateExecuting w = (answer, w') →
  row_effect id' w w' tk (next_token (Claim id : Action _) answer tk) None.
Proof.
  intros Hm.
  assert (operations_change (λ s, s = StateExecuting) w w') as Hl.
  { pose proof (update_change (λ s, s = StateExecuting) id (transition_change StateExecuting) w) as Hk.
    unfold Transition in Hm. rewrite Hm in Hk.
    apply Hk. intros o1 o2 H. by apply transition_changes in H as [? ->]. }
  destruct answer as [operation|e]; cbn [RuntimeRuns.next_token].
  2: { by eapply lives_effect; [exact Hl|done|cbn; lia]. }
  apply transition_ok in Hm as (row & row' & k & Hrow & Hrow' & Hstep & Ha & Hs & <-).
  destruct (decide (id' = op_ID operation)) as [->|Hne].
  - constructor; [apply Hl|by eapply operations_change_row|..].
    + intros row1 H1 H2. rewrite Hrow' in H1. injection H1 as <-. by rewrite Hs in H2.
    + right. split; [cbn; destruct (decide _); lia|]. split.
      * exists row. split; [done|]. by inversion Ha.
      * exists row'. split; [done|]. split; [done|]. by rewrite (step_terminal _ _ _ Hstep), Hs.
  - eapply lives_effect; [exact Hl|done|]. cbn. rewrite decide_False by done. cbn. lia.
Qed.

Lemma succeed_effect (id id' text : string) (w w' : World) (tk : Token) (answer : result error AgentOperation) :
  tk_proven tk = Some id →
  timed AgentStore.Succeed id text w = (answer, w') → row_effect id' w w' tk tk None.
Proof.
  intros Hp. unfold Succeed. destruct (wrap_decode _ _) as [value|e].
  2: { rewrite ret_run. intros [= _ <-]. by apply same_row_effect; [|done|cbn; lia]. }
  intros Hm. pose proof (update_change (λ _, True) id (succeed_change value) w) as Hk. rewrite Hm in Hk.
  cbn [snd] in Hk. specialize (Hk ltac:(intros o1 o2 H; by apply succeed_changes in H as [? _])).
  destruct (decide (id' = id)) as [->|Hne].
  - constructor; [apply Hk|by eapply operations_change_row|intros; by right|left; cbn; lia].
  - apply same_row_effect; [apply Hk| |cbn; lia].
    pose proof (update_only admits begin_tx commit_tx plandigest_Digest clock id id' (succeed_change value) w) as Hu.
    rewrite Hm in Hu. apply Hu; [|done]. intros o1 o2 H. by apply succeed_changes in H as [? _].
Qed.

Lemma ReserveUse_rows (grantID requestID operation : string) (w : World) :
  moves_on same_operations w (snd (ReserveUse clock o grantID requestID operation w)).
Proof. eapply ReserveUse_framed; first [apply saves_operations|apply _]. Qed.

Lemma performs_row {B} (a : Action B) (b : B) (w w' : World) (event : option RunEvent) (tk : Token) (id : string) :
  performs a w b w' event → permitted a tk → row_effect id w w' tk (next_token a b tk) event.
Proof.
  destruct a; cbn [RuntimeRuns.performs RuntimeRuns.permitted].
  all: try (intros [-> ->] _; apply same_row_effect; [done|done|unfold claim_of; cbn; lia]).
  - intros [Hm ->] Hc. eapply lives_effect.
    + pose proof (calm_rows _ _ _ _ _ _ _ _ Hc w) as H. rewrite Hm in H. exact H.
    + by intros [_ ?].
    + cbn. lia.
  - intros [Hm ->] _. by apply claim_effect.
  - intros [Hm ->] _. pose proof (ReserveUse_rows grantID requestID operation w) as H. rewrite Hm in H.
    destruct H as (H & Ht & _). apply same_row_effect; [exact Ht| |].
    + unfold same_operations in H. cbn in H. unfold stored. by rewrite H.
    + cbn. destruct b as [[[g u] created]|e]; [|lia]. destruct (tk_claim tk) eqn:E; [|lia].
      unfold claim_of. cbn. rewrite E. lia.
  - intros [Hm ->] Hp. by eapply succeed_effect.
  - intros [-> ->] [Hc _]. apply same_row_effect; [done|done|].
    unfold claim_of. rewrite Hc. cbn. lia.
Qed.

Lemma next_proven {B} (a : Action B) (b : B) (w w' : World) (event : option RunEvent) (tk : Token) (id : string) :
  performs a w b w' event → tk_proven (next_token a b tk) = Some id →
  tk_proven tk = Some id ∨ ∃ e, e ∈ option_list event ∧ proves id e.
Proof.
  destruct a; cbn [RuntimeRuns.performs RuntimeRuns.next_token]; auto.
  - destruct b; auto. cbn. done.
  - destruct b as [[[g u] created]|e]; [|auto]. destruct (tk_claim tk); auto.
  - intros [_ ->]. cbn. unfold seen. destruct (proven b) eqn:E; [|auto].
    intros [= <-]. right. eexists. split; [by left|]. by cbn.
  - intros [_ ->]. cbn. unfold seen. destruct (proven b) eqn:E; [|auto].
    intros [= <-]. right. eexists. split; [by left|]. by cbn.
Qed.

(** ** Authority *)

Notation sound := (sound admits begin_tx commit_tx plandigest_Digest clock new_grant_id o).
Notation holds := (holds clock new_grant_id).
Notation leads_to := (leads_to clock new_grant_id).

#[local] Existing Instance leads_to_preorder.

(** The store has a use of the grant by the operation. *)
Definition use_stored (w : World) (grantID requestID : string) : Prop :=
  ∃ d u, holds w d ∧ u ∈ fd_Uses d ∧ use_GrantID u = grantID ∧ use_RequestID u = requestID.

Definition authorized (w : World) (operation : AgentOperation) : Prop :=
  op_ApprovalID operation = EmptyString ∨ use_stored w (op_ApprovalID operation) (op_ID operation).

Lemma use_stored_later (w w' : World) (grantID requestID : string) :
  leads_to w w' → use_stored w grantID requestID → use_stored w' grantID requestID.
Proof.
  intros Hl (d & u & Hd & Hu & <- & <-). destruct (Hl d Hd) as (_ & _ & d' & Hd' & Hc).
  destruct (cnt_uses _ _ Hc u Hu) as (u' & Hu' & [Hf _ _]). injection Hf as H1 H2 _ _.
  exists d', u'. by rewrite <- H1, <- H2.
Qed.

Lemma authorized_later (w w' : World) (operation : AgentOperation) :
  leads_to w w' → authorized w operation → authorized w' operation.
Proof. intros Hl [H|H]; [by left|right]. by eapply use_stored_later. Qed.

Lemma performs_leads {B} (a : Action B) (b : B) (w w' : World) (event : option RunEvent) (tk : Token) :
  sound → performs a w b w' event → permitted a tk → leads_to w w'.
Proof.
  intros Hs. destruct a; cbn [RuntimeRuns.performs RuntimeRuns.permitted].
  all: try (intros [-> _] _; reflexivity).
  - intros [Hm _] Hc. pose proof (calm_safe _ _ _ _ _ _ _ _ Hc Hs w) as H. by rewrite Hm in H.
  - intros [Hm _] _. pose proof (keeps_leads admits begin_tx commit_tx plandigest_Digest clock new_grant_id (λ _, True)
      (timed AgentStore.Transition id StateExecuting) w (proj1 Hs)) as Hk. rewrite Hm in Hk.
    apply Hk, keeps_update. intros o1 o2 H. by apply transition_changes in H as [? _].
  - intros [Hm _] _.
    pose proof (operation_safe admits begin_tx commit_tx plandigest_Digest clock new_grant_id o
      (OpReserveUse grantID requestID operation) w Hs) as H. cbn [perform] in H. by rewrite Hm in H.
  - intros [Hm _] _. unfold Succeed in Hm. destruct (wrap_decode _ _) as [value|e].
    2: { rewrite ret_run in Hm. by injection Hm as _ <-. }
    pose proof (keeps_leads admits begin_tx commit_tx plandigest_Digest clock new_grant_id (λ _, True)
      (timed AgentStore.update id (succeed_change value)) w (proj1 Hs)) as Hk. rewrite Hm in Hk.
    apply Hk, keeps_update. intros o1 o2 H. by apply succeed_changes in H as [? _].
Qed.

Lemma reserved_use_stored (grantID requestID operation : string) (w w' : World) (d : FileData)
    (answer : Grant * GrantUse * bool) :
  sound → holds w d → ReserveUse clock o grantID requestID operation w = (Ok answer, w') →
  use_stored w' grantID requestID.
Proof.
  intros (Hclock & Hids & Ho & HL) Hd. unfold ReserveUse.
  destruct (validUseIdentity grantID requestID operation) eqn:Ev; [|done]. cbn [negb].
  assert (safe clock new_grant_id (update clock o (reserveUse clock grantID requestID operation))) as Hup.
  { apply (updateWithPlan_safe (GL := HL)); [done|apply Ho|].
    apply reserveUse_mutates; first [done|apply Ho]. }
  unfold and_then. rewrite bind_run. specialize (Hup w d Hd).
  destruct (update _ _ _ w) as [[created|e] w1]; [|done]. destruct Hup as (_ & _ & d1 & Hd1 & _).
  rewrite bind_run. pose proof (GetUse_safe (GL := HL) clock new_grant_id o Hclock Ho grantID requestID w1) as Hget.
  destruct (GetUse clock o grantID requestID w1) as [[[g u]|e] w2] eqn:Eg; [|done].
  intros [= _ <-]. apply (use_stored_later w1); [exact Hget|].
  assert (fst (GetUse clock o grantID requestID w1) = Ok (g, u)) as Hf by by rewrite Eg.
  destruct (GetUse_stored clock o Ho grantID requestID w1 d1 g u Hf (proj1 Hd1)) as (u0 & Hin & Hid).
  injection Hid as H1 H2. by exists d1, u0.
Qed.

(** The operation of a token with a reservation is authorised. *)
Definition token_authorized (w : World) (tk : Token) : Prop :=
  ∀ operation, tk_claim tk = Some operation → tk_reserved tk = true → authorized w operation.

Lemma next_authorized {B} (a : Action B) (b : B) (w w' : World) (event : option RunEvent) (tk : Token) :
  sound → (∃ d, holds w d) → performs a w b w' event → permitted a tk → token_authorized w tk →
  token_authorized w' (next_token a b tk)
  ∧ ∀ operation answer, Executed operation answer ∈ option_list event → authorized w' operation.
Proof.
  intros Hs [d Hd] Hperf Hper Htk.
  pose proof (performs_leads a b w w' event tk Hs Hperf Hper) as Hl.
  assert (token_authorized w' tk) as Htk'.
  { intros operation H1 H2. eapply authorized_later; [done|by apply Htk]. }
  destruct a; cbn [RuntimeRuns.performs RuntimeRuns.permitted RuntimeRuns.next_token] in *.
  all: try (destruct Hperf as [_ ->]; split; [done|]; intros ? ? Hin; by apply elem_of_nil in Hin).
  - destruct Hperf as [_ ->]. split; [|intros ? ? Hin; by apply elem_of_nil in Hin].
    destruct b as [claimed|e]; [|done]. intros operation. cbn. intros [= <-] He. left. by apply is_empty_spec.
  - destruct Hperf as [Hm ->]. split; [|intros ? ? Hin; by apply elem_of_nil in Hin].
    destruct b as [[[g u] created]|e]; [|done]. destruct (tk_claim tk) as [claimed|] eqn:Ec; [|done].
    intros operation0. cbn. intros [= <-]. rewrite orb_true_iff. intros [Hr|Hr]; [by apply Htk'|].
    apply bool_decide_eq_true in Hr as (_ & Hg & Hi). right. rewrite <- Hg, <- Hi.
    by eapply reserved_use_stored.
  - destruct Hperf as [-> ->]. split; [done|]. intros operation0 answer Hin%list_elem_of_singleton.
    injection Hin as -> _. destruct Hper as [Hc Hr]. by apply Htk.
  - destruct Hperf as [-> ->]. split; [done|]. intros operation0 answer Hin%list_elem_of_singleton. done.
  - destruct Hperf as [-> ->]. split; [done|]. intros operation0 answer Hin%list_elem_of_singleton. done.
Qed.
End safety.
