(* ===== verification/RuntimeInvariant.v ===== *)
(** * The invariant of a running process

    What every configuration of a process satisfies, whatever its goroutines, the
    engine and the provider did, and the theorems it gives: an operation is
    executed at most once in its life, a success is proven, and a grant is
    executed at most as often as it allows. *)

From S2P Require Export RuntimeSafety GrantsHistory.

Local Open Scope Z_scope.

(** Distinct requests with a counted use are at most as many as the counted uses. *)
Lemma executed_uses (d : FileData) (grantID : string) (ids : list string) :
  NoDup ids →
  (∀ id, id ∈ ids → ∃ u, u ∈ fd_Uses d ∧ use_GrantID u = grantID ∧ use_RequestID u = id
     ∧ is_committed (use_State u) || is_open (use_State u) = true) →
  Z.of_nat (length ids) <= uses_counted is_committed grantID (fd_Uses d) + uses_counted is_open grantID (fd_Uses d).
Proof.
  intros Hnd Hids. unfold uses_counted.
  set (lc := filter _ _). set (lo := filter _ (fd_Uses d)).
  assert (ids ⊆ use_RequestID <$> (lc ++ lo)) as Hsub.
  { intros id Hid. destruct (Hids id Hid) as (u & Hu & Hg & <- & Hs). apply list_elem_of_fmap_2.
    apply elem_of_app. unfold lc, lo. rewrite !list_elem_of_filter.
    apply orb_true_iff in Hs as [->| ->]; [left|right]; rewrite bool_decide_eq_true_2 by done; done. }
  apply NoDup_submseteq, submseteq_length in Hsub; [|done]. rewrite length_fmap, length_app in Hsub. lia.
Qed.

Section invariant.
Context {R : MapRange} {RJ : RawJSON} {AJ : AnyJSON}.
Context `{JT : JSON Target} `{JA : JSON StringListMap} `{JM : JSON (gmap string string)}
  `{JE : JSON EventRecord} `{JG : JSON Grant} `{JP : JSON Presentation} `{JO : JSON OperationError}.
Context (admits : Database → Statement → result error unit)
  (begin_tx : nat → result error unit) (commit_tx : nat → CommitOutcome)
  (plandigest_Digest : string → string).
Context (clock : nat → Time) (new_grant_id new_operation_id : nat → result error string) (o : Options).

#[local] Hint Extern 0 GrantStorage =>
  exact (sqlite admits begin_tx commit_tx plandigest_Digest) : typeclass_instances.

Context {I P A : Type} (error_text : error → string).
Context (r : RuntimeOptions admits begin_tx commit_tx plandigest_Digest (I := I) (P := P) (A := A)).

Notation Config := (Config admits begin_tx commit_tx plandigest_Digest (I := I) (P := P)).
Notation run_step :=
  (run_step admits begin_tx commit_tx plandigest_Digest clock new_grant_id new_operation_id o error_text r).
Notation disciplined := (disciplined admits begin_tx commit_tx plandigest_Digest clock new_grant_id o).
Notation sound := (sound admits begin_tx commit_tx plandigest_Digest clock new_grant_id o).
Notation holds := (holds clock new_grant_id).
Notation leads_to := (leads_to clock new_grant_id).
Notation authorized := (authorized admits begin_tx commit_tx plandigest_Digest clock new_grant_id).
Notation token_authorized := (token_authorized admits begin_tx commit_tx plandigest_Digest clock new_grant_id).
Notation row_effect := (row_effect admits begin_tx commit_tx plandigest_Digest clock).
Notation world_of c := (cfg_world admits begin_tx commit_tx plandigest_Digest c).
Notation threads_of c := (cfg_threads admits begin_tx commit_tx plandigest_Digest c).
Notation trace_of c := (cfg_trace admits begin_tx commit_tx plandigest_Digest c).
Notation stored_in w id := (stored (w_storage w) id).
Notation booted := (booted admits begin_tx commit_tx plandigest_Digest).
Notation deletes := (deletes admits begin_tx commit_tx plandigest_Digest clock).
Notation row_changes := (row_changes admits begin_tx commit_tx plandigest_Digest clock).

Context (Hcoordinator : coordinator_calm admits begin_tx commit_tx plandigest_Digest clock new_grant_id o
           (rt_Authorization admits begin_tx commit_tx plandigest_Digest r)).

#[local] Existing Instance leads_to_preorder.

(** ** Rows *)

(** A run in which [n] steps deleted the row of the operation, each after the operation had
    ended in that run and more than thirty days had passed by the clock. *)
Inductive retirements (id : string) (c0 : Config) : nat → Config → Prop :=
| retirements_start : retirements id c0 0 c0
| retirements_step (n : nat) (c c' : Config) :
    retirements id c0 n c → run_step c c' → retirements id c0 n c'
| retirements_delete (n j : nat) (c c' : Config) :
    retirements id c0 n c → run_step c c' → (w_tick (world_of c0) <= j < w_tick (world_of c))%nat →
    deletes id (clock j) (world_of c) (world_of c') → retirements id c0 (S n) c'.

(** The operation was claimed since the start: it is open, or it ended since the start. *)
Definition claimed_since (w0 w : World) (id : string) : Prop :=
  ∃ row, stored_in w id = Some row ∧ claimed_state (or_State row)
    ∧ (or_TerminalAt row = None
       ∨ ∃ j, (w_tick w0 <= j < w_tick w)%nat ∧ or_TerminalAt row = Some (clock j)).

(** How often an operation was claimed and executed, when it was deleted [n] times. *)
Definition row_once (w0 w : World) (tks : list Token) (trace : list RunEvent) (id : string) (n : nat) : Prop :=
  (claims id tks + executions id trace <= n)%nat
  ∨ (claims id tks + executions id trace <= S n)%nat ∧ claimed_since w0 w id.

(** An operation that succeeded did so before the start, or is proven. *)
Definition row_proven (w0 w : World) (trace : list RunEvent) (id : string) : Prop :=
  ∀ row, stored_in w id = Some row → or_State row = StateSucceeded →
    stored_in w0 id = Some row ∨ ∃ event, event ∈ trace ∧ proves id event.

(** A claimed row after one step. *)
Lemma claimed_since_step (w0 w w' : World) (id : string) :
  (w_tick w0 <= w_tick w)%nat → row_changes id w w' → (w_tick w <= w_tick w')%nat → claimed_since w0 w id →
  claimed_since w0 w' id
  ∨ ∃ j, (w_tick w0 <= j < w_tick w)%nat ∧ deletes id (clock j) w w'.
Proof.
  intros Ht0 Hrow Ht (row & Hr & Hcl & Hterm).
  destruct Hrow as [E|(k & Hk & H)].
  - left. exists row. split; [congruence|]. split; [done|].
    destruct Hterm as [?|(j & Hj & ?)]; [by left|right; exists j; split; [lia|done]].
  - rewrite Hr in H. inversion H as [|? r1 Hs E1 E2|? Hret E1 E2|? r1 Hret Hi E1 E2]; subst.
    + left. exists r1. split; [done|]. split; [by eapply claimed_step|].
      rewrite (step_terminal _ _ _ Hs). destruct (decide _); [|by left].
      right. exists k. split; [lia|done].
    + right. destruct Hret as (t & Et & Hd). destruct Hterm as [?|(j & Hj & Ej)]; [congruence|].
      exists j. split; [done|]. exists row, k. assert (t = clock j) as -> by congruence.
      split; [done|]. split; [done|]. split; [lia|]. split; [done|by left].
    + right. destruct Hret as (t & Et & Hd). destruct Hterm as [?|(j & Hj & Ej)]; [congruence|].
      exists j. split; [done|]. exists row, k. assert (t = clock j) as -> by congruence.
      split; [done|]. split; [done|]. split; [lia|]. split; [done|right; by exists r1].
Qed.

(** One action of the goroutine in the middle. *)
Lemma row_once_action (w0 w w' : World) (tks1 tks2 : list Token) (tk tk' : Token) (trace : list RunEvent)
    (event : option RunEvent) (id : string) (n : nat) :
  (w_tick w0 <= w_tick w)%nat → row_effect id w w' tk tk' event →
  row_once w0 w (tks1 ++ tk :: tks2) trace id n →
  row_once w0 w' (tks1 ++ tk' :: tks2) (option_list event ++ trace) id n
  ∨ row_once w0 w' (tks1 ++ tk' :: tks2) (option_list event ++ trace) id (S n)
    ∧ ∃ j, (w_tick w0 <= j < w_tick w)%nat ∧ deletes id (clock j) w w'.
Proof.
  intros Ht0 [Ht Hrow _ Hc] Hn. unfold row_once, claims, executions in *.
  rewrite !sum_list_with_app in *. cbn [sum_list_with] in *.
  destruct Hc as [Hc|(Hc & (row & Hr & Hst) & (row' & Hr' & Hst' & Hopen))].
  - destruct Hn as [Hn|[Hn Hcl]]; [left; left; lia|].
    destruct (claimed_since_step w0 w w' id Ht0 Hrow Ht Hcl) as [Hcl'|Hd]; [left; right|right].
    + split; [lia|done].
    + split; [left; lia|done].
  - destruct Hn as [Hn|[_ (row1 & Hr1 & Hcl & _)]].
    + left. right. split; [lia|]. exists row'. split; [done|]. split; [by left|by left].
    + rewrite Hr in Hr1. injection Hr1 as <-. unfold claimed_state in Hcl. rewrite Hst in Hcl. naive_solver.
Qed.

Lemma row_proven_action (w0 w w' : World) (tk tk' : Token) (trace : list RunEvent)
    (event : option RunEvent) (id : string) :
  row_effect id w w' tk tk' event → (tk_proven tk = Some id → ∃ e, e ∈ trace ∧ proves id e) →
  row_proven w0 w trace id → row_proven w0 w' (option_list event ++ trace) id.
Proof.
  intros [_ _ Hs _] Hp Hw row Hrow Hst. destruct (Hs row Hrow Hst) as [Hrow0|Htk].
  - destruct (Hw row Hrow0 Hst) as [?|(e & He & ?)]; [by left|]. right. exists e. rewrite elem_of_app. auto.
  - right. destruct (Hp Htk) as (e & He & ?). exists e. rewrite elem_of_app. auto.
Qed.

(** ** Configurations *)

(** The clock read two instants more than thirty days apart. *)
Definition month_passed (w0 w : World) : Prop :=
  ∃ j k, (w_tick w0 <= j < k)%nat ∧ (k < w_tick w)%nat ∧ clock j + 30 * 24 * hour < clock k.

Lemma month_passed_later (w0 w w' : World) (n : nat) :
  (w_tick w <= w_tick w')%nat → n = 0%nat ∨ month_passed w0 w → n = 0%nat ∨ month_passed w0 w'.
Proof. intros Ht [?|(j & k & ? & ? & ?)]; [by left|right]. exists j, k. split_and!; try done; lia. Qed.

Record config_ok (w0 : World) (c : Config) (tks : list Token) : Prop := {
  ok_threads : Forall2 disciplined (threads_of c) tks;
  ok_ticks : (w_tick w0 <= w_tick (world_of c))%nat;
  ok_tokens : ∀ tk id, tk ∈ tks → tk_proven tk = Some id → ∃ e, e ∈ trace_of c ∧ proves id e;
  ok_once : ∀ id, ∃ n, retirements id (booted w0) n c ∧ row_once w0 (world_of c) tks (trace_of c) id n
    ∧ (n = 0%nat ∨ month_passed w0 (world_of c));
  ok_proven : ∀ id, row_proven w0 (world_of c) (trace_of c) id
}.

Record authority_ok (w0 : World) (c : Config) (tks : list Token) : Prop := {
  au_leads : leads_to w0 (world_of c);
  au_tokens : ∀ tk, tk ∈ tks → token_authorized (world_of c) tk;
  au_trace : ∀ operation answer, Executed operation answer ∈ trace_of c →
    authorized (world_of c) operation
}.

(** A step that leaves the operations alone and moves goroutines in and out. *)
Lemma config_ok_same (w0 : World) (c c' : Config) (tks tks' : list Token) :
  run_step c c' →
  db_operations (w_storage (world_of c')) = db_operations (w_storage (world_of c)) →
  (w_tick (world_of c) <= w_tick (world_of c'))%nat →
  trace_of c' = trace_of c →
  Forall2 disciplined (threads_of c') tks' →
  (∀ tk, tk ∈ tks' → tk ∈ tks ∨ tk = fresh_token) →
  (∀ id, claims id tks' <= claims id tks)%nat →
  config_ok w0 c tks → config_ok w0 c' tks'.
Proof.
  intros Hstep Hop Ht Htr Hth Htk Hcl [H1 H2 H3 H4 H5].
  assert (∀ id, stored_in (world_of c') id = stored_in (world_of c) id) as Hs.
  { intros id. unfold stored. by rewrite Hop. }
  constructor; rewrite ?Htr; [done|lia|..].
  - intros tk id [Hin| ->]%Htk; [by apply H3|done].
  - intros id. destruct (H4 id) as (n & Hn & Ho & Hm). exists n. split; [by eapply retirements_step|].
    split; [|by eapply month_passed_later].
    specialize (Hcl id). destruct Ho as [Ho|[Ho (row & Hr & Hst & Hterm)]]; [left; lia|right].
    split; [lia|]. exists row. rewrite Hs. split; [done|]. split; [done|].
    destruct Hterm as [?|(j & Hj & ?)]; [by left|right; exists j; split; [lia|done]].
  - intros id row. rewrite Hs. apply H5.
Qed.

Lemma claims_fresh (id : string) (tks : list Token) :
  Forall (λ tk, tk = fresh_token) tks → claims id tks = 0%nat.
Proof. induction 1 as [|tk tks -> _ IH]; [done|exact IH]. Qed.

Lemma authority_ok_same (w0 : World) (c c' : Config) (tks tks' : list Token) :
  leads_to (world_of c) (world_of c') → trace_of c' = trace_of c →
  (∀ tk, tk ∈ tks' → tk ∈ tks ∨ tk = fresh_token) →
  authority_ok w0 c tks → authority_ok w0 c' tks'.
Proof.
  intros Hl Htr Htk [H1 H2 H3]. constructor; rewrite ?Htr.
  - by etrans.
  - intros tk [Hin| ->]%Htk; [|done]. intros operation Hc Hr. eapply authorized_later; [done|by apply (H2 tk)].
  - intros operation answer Hin. eapply authorized_later; [done|by eapply H3].
Qed.

Lemma step_ok (w0 : World) (c c' : Config) (tks : list Token) :
  run_step c c' → config_ok w0 c tks →
  ∃ tks', config_ok w0 c' tks'
    ∧ (sound → (∃ d, holds w0 d) → authority_ok w0 c tks → authority_ok w0 c' tks').
Proof.
  intros Hstep Hok. pose proof Hstep as Hthis.
  destruct Hstep as [B a k b before after w w' held trace event Hperf Hfree
         |jobs started before after w held trace Hjobs|t w held threads trace Hentry
         |w held threads trace|w w' held threads trace (Hops & Hout & Hlead)].
  - destruct Hok as [H1 Htick H2 H3 H4]. cbn in *.
    apply Forall2_app_inv_l in H1 as (tks1 & tks2' & Hb & Hrest & ->).
    apply Forall2_cons_inv_l in Hrest as (tk & tks2 & [Hper Hk] & Ha & ->).
    exists (tks1 ++ next_token admits begin_tx commit_tx plandigest_Digest a b tk :: tks2). split.
    + assert (∀ id, row_effect id w w' tk (next_token admits begin_tx commit_tx plandigest_Digest a b tk) event)
        as Heff by (intros id; by eapply performs_row).
      pose proof (eff_ticks _ _ _ _ _ _ _ _ _ _ _ (Heff EmptyString)) as Hticks.
      constructor; cbn.
      * apply Forall2_app; [done|]. constructor; [|done]. apply Hk. by exists w, w', event.
      * lia.
      * intros tk' id Hin Hp.
        assert (tk' ∈ tks1 ++ tk :: tks2 ∨ tk' = next_token admits begin_tx commit_tx plandigest_Digest a b tk)
          as [Hold| ->] by set_solver.
        -- destruct (H2 tk' id Hold Hp) as (e & He & ?). exists e. rewrite elem_of_app. auto.
        -- destruct (next_proven _ _ _ _ _ _ _ _ _ _ _ _ _ Hperf Hp) as [Hold|(e & He & ?)].
           ++ destruct (H2 tk id ltac:(set_solver) Hold) as (e & He & ?). exists e. rewrite elem_of_app. auto.
           ++ exists e. rewrite elem_of_app. auto.
      * intros id. destruct (H3 id) as (n & Hn & Hone & Hm).
        destruct (row_once_action w0 w w' tks1 tks2 tk _ trace event id n Htick (Heff id) Hone)
          as [Hone'|[Hone' (j & Hj & Hdel)]].
        -- exists n. split; [by eapply retirements_step|]. split; [done|by eapply month_passed_later].
        -- exists (S n). split; [by eapply (retirements_delete _ _ _ j)|]. split; [done|right].
           destruct Hdel as (row & k2 & _ & _ & Hk2 & Hlt & _). exists j, k2. split_and!; try done; lia.
      * intros id. eapply row_proven_action; [exact (Heff id)|apply H2; set_solver|apply H4].
    + intros Hs (d0 & Hd0) [L1 L2 L3]. cbn in *.
      destruct (L1 d0 Hd0) as (_ & _ & d & Hd & _).
      destruct (next_authorized admits begin_tx commit_tx plandigest_Digest clock new_grant_id o a b w w' event tk
        Hs (ex_intro _ d Hd) Hperf Hper (L2 tk ltac:(set_solver))) as [Ht Hev].
      pose proof (performs_leads _ _ _ _ _ _ _ a b w w' event tk Hs Hperf Hper) as Hl. constructor; cbn.
      * by etrans.
      * intros tk' Hin. assert (tk' ∈ tks1 ++ tk :: tks2
          ∨ tk' = next_token admits begin_tx commit_tx plandigest_Digest a b tk) as [Hold| ->] by set_solver.
        -- intros operation Hc Hr. eapply authorized_later; [exact Hl|]. by apply (L2 tk').
        -- exact Ht.
      * intros operation answer [Hin|Hin]%elem_of_app; [by eapply Hev|].
        eapply authorized_later; [exact Hl|by eapply L3].
  - pose proof (ok_threads _ _ _ Hok) as H1. cbn in H1.
    apply Forall2_app_inv_l in H1 as (tks1 & tks2' & Hb & Hrest & ->).
    apply Forall2_cons_inv_l in Hrest as (tk & tks2 & Hdone & Ha & ->). cbn in Hdone.
    set (fresh := (λ _ : Prog I P unit, fresh_token) <$> started).
    assert (Forall (λ tk, tk = fresh_token) fresh) as Hfresh.
    { apply Forall_forall. by intros tk' (p & -> & _)%list_elem_of_fmap. }
    assert (∀ tk', tk' ∈ tks1 ++ tks2 ++ fresh → tk' ∈ tks1 ++ tk :: tks2 ∨ tk' = fresh_token) as Hnew.
    { intros tk'. rewrite !elem_of_app, elem_of_cons. intros [?|[?|Hin]]; [tauto|tauto|right].
      rewrite Forall_forall in Hfresh. by apply Hfresh. }
    exists (tks1 ++ tks2 ++ fresh). split; [|intros _ _ Hau; by refine (authority_ok_same w0 _ _ _ _ _ _ _ Hau); [reflexivity|..]].
    refine (config_ok_same w0 _ _ _ _ Hthis _ _ _ _ _ _ Hok); [done|done|done| |exact Hnew|].
    + cbn. apply Forall2_app; [done|]. apply Forall2_app; [done|].
      apply Forall2_fmap, Forall_Forall2_diag, Forall_forall. intros p Hp. apply job_disciplined.
      rewrite Forall_forall in Hdone. apply Hdone. by eapply elem_of_submseteq.
    + intros id. pose proof (claims_fresh id fresh Hfresh) as H0. unfold claims in *.
      rewrite !sum_list_with_app, H0. cbn [sum_list_with]. lia.
  - exists (fresh_token :: tks). split; [|intros _ _ Hau; refine (authority_ok_same w0 _ _ _ _ _ _ _ Hau); [reflexivity|done|]].
    + refine (config_ok_same w0 _ _ _ _ Hthis _ _ _ _ _ _ Hok); [done|done|done|..].
      * constructor; [by eapply entry_disciplined|apply Hok].
      * intros tk. rewrite elem_of_cons. tauto.
      * done.
    + intros tk. rewrite elem_of_cons. tauto.
  - exists []. split; [|intros _ _ Hau; refine (authority_ok_same w0 _ _ _ _ _ _ _ Hau); [reflexivity|done|]].
    + refine (config_ok_same w0 _ _ _ _ Hthis _ _ _ _ _ _ Hok); [done|done|done|constructor|..].
      * by intros tk Hin%elem_of_nil.
      * intros id. cbn. lia.
    + by intros tk Hin%elem_of_nil.
  - exists tks. split; [|intros _ _ Hau; by refine (authority_ok_same w0 _ _ _ _ _ _ _ Hau); [..|tauto]].
    by refine (config_ok_same w0 _ _ _ _ Hthis _ _ _ _ _ _ Hok); [exact Hops|exact Hout|..|apply Hok|tauto|].
Qed.

(** Every configuration that a process reaches. *)
Lemma run_ok (w0 : World) (c : Config) :
  rtc run_step (booted w0) c →
  ∃ tks, config_ok w0 c tks ∧ (sound → (∃ d, holds w0 d) → authority_ok w0 c tks).
Proof.
  intros H. remember (booted w0) as c0 eqn:E.
  assert (∃ tks, config_ok w0 c0 tks ∧ (sound → (∃ d, holds w0 d) → authority_ok w0 c0 tks)) as H0.
  { exists []. subst. split; constructor; cbn.
    - constructor.
    - done.
    - by intros tk id Hin%elem_of_nil.
    - intros id. exists 0%nat. split; [constructor|]. split; [left; cbn; lia|by left].
    - intros id row Hrow Hs. by left.
    - reflexivity.
    - by intros tk Hin%elem_of_nil.
    - by intros operation answer Hin%elem_of_nil. }
  clear E. revert H0. induction H as [c|c1 c2 c3 Hs _ IH]; [done|].
  intros (tks & Hok & Hau). apply IH.
  destruct (step_ok w0 c1 c2 tks Hs Hok) as (tks' & Hok' & Hau'). exists tks'. auto.
Qed.

(** ** What holds in every run *)

Notation runs w c := (rtc run_step (booted w) c).

(** C4: An operation is executed at most once in its life: over a whole run of a process,
    with any goroutines, crashes, lost commits and answers of the provider, the provider
    is called to execute an operation at most once more than steps of the run deleted it,
    each of them after the operation ended in that run and more than thirty days passed
    by the clock.  So a second execution means that the clock read, within the run, an
    end and an instant more than thirty days later; in a shorter run there is none. *)
Theorem executed_once (w0 : World) (c : Config) (id : string) :
  runs w0 c →
  (∃ n, retirements id (booted w0) n c ∧ (executions id (trace_of c) <= S n)%nat)
  ∧ ((2 <= executions id (trace_of c))%nat →
     ∃ j k, (w_tick w0 <= j < k)%nat ∧ (k < w_tick (world_of c))%nat ∧ clock j + 30 * 24 * hour < clock k).
Proof.
  intros (tks & Hok & _)%run_ok. destruct (ok_once _ _ _ Hok id) as (n & Hn & Hone & Htime).
  assert (executions id (trace_of c) <= S n)%nat as Hle by (destruct Hone as [?|[? _]]; lia).
  split; [by exists n|]. intros H2. destruct Htime as [->|Htime]; [lia|exact Htime].
Qed.

(** C5: An operation that is succeeded has a proof: it was stored as it is, succeeded, when
    the process started, or the provider answered, to this process, its execution or a
    later reconciliation of it with a proven outcome. *)
Theorem success_proven (w0 : World) (c : Config) (id : string) (row : OperationRecord) :
  runs w0 c → stored_in (world_of c) id = Some row → or_State row = StateSucceeded →
  stored_in w0 id = Some row
  ∨ ∃ e, e ∈ trace_of c ∧ proves id e.
Proof. intros (tks & Hok & _)%run_ok Hrow Hs. by apply (ok_proven _ _ _ Hok id). Qed.

(** The operation was executed under the grant, and that use was not released. *)
Definition executed_under (c : Config) (d : FileData) (grantID id : string) : Prop :=
  (∃ operation answer, Executed operation answer ∈ trace_of c
     ∧ op_ID operation = id ∧ op_ApprovalID operation = grantID)
  ∧ ∀ u, u ∈ fd_Uses d → use_RequestID u = id → use_State u ≠ UseReleased.

(** C3: Nothing is executed beyond its authority: an operation that names a grant has a use
    of that grant in the store from before its execution on, and at most as many operations
    as the grant allows are ever executed under it, not counting those whose use was
    released after a definitive failure. *)
Theorem executions_within_budget (w0 : World) (d0 : FileData) (c : Config) :
  sound → holds w0 d0 → runs w0 c →
  ∃ d, fst (load (world_of c)) = Ok d
  ∧ (∀ operation answer, Executed operation answer ∈ trace_of c → op_ApprovalID operation ≠ EmptyString →
       ∃ u, u ∈ fd_Uses d ∧ use_GrantID u = op_ApprovalID operation ∧ use_RequestID u = op_ID operation)
  ∧ ∀ g ids, g ∈ fd_Grants d → grant_ID g ≠ EmptyString → grant_MaxUses g ≠ Unlimited → NoDup ids →
       (∀ id, id ∈ ids → executed_under c d (grant_ID g) id) → Z.of_nat (length ids) <= grant_MaxUses g.
Proof.
  intros Hs Hd0 (tks & _ & Hau)%run_ok.
  destruct (Hau Hs (ex_intro _ d0 Hd0)) as [Hl _ Htr]. destruct (Hl d0 Hd0) as (_ & _ & d & Hd & _).
  assert (∀ operation answer, Executed operation answer ∈ trace_of c → op_ApprovalID operation ≠ EmptyString →
    ∃ u, u ∈ fd_Uses d ∧ use_GrantID u = op_ApprovalID operation ∧ use_RequestID u = op_ID operation) as Huse.
  { intros operation answer Hin Hne. destruct (Htr _ _ Hin) as [?|(d' & u & Hd' & Hu & ? & ?)]; [done|].
    assert (d' = d) as -> by (destruct Hd as [H1 _], Hd' as [H2 _]; congruence). by exists u. }
  exists d. split; [by eapply holds_load|]. split; [exact Huse|].
  intros g ids Hg Hne Hm Hnd Hids.
  destruct (data_ok_budget _ d g (proj1 (proj2 Hd)) Hg) as (_ & _ & Hb & _). specialize (Hb Hm).
  etrans; [|exact Hb]. clear Hb Hm.
  pose proof (executed_uses d (grant_ID g) ids Hnd) as H. apply H.
  intros id Hid. destruct (Hids id Hid) as [(operation & answer & Hin & <- & Hap) Hrel].
  destruct (Huse _ _ Hin ltac:(congruence)) as (u & Hu & Hgu & Hru). exists u.
  split_and!; [done|congruence|done|]. eapply data_ok_use; [apply Hd|done|by apply Hrel].
Qed.
End invariant.
