(* ===== verification/RuntimeExamples.v ===== *)
(** * Runs of a small provider

    A scheduler that runs the goroutines of a process one after the other, one
    process on it, and the theorems of RuntimeInvariant applied to it: an
    operation that policy allows, executed, purged a month later and executed
    again under the same identifier. *)

From S2P Require Export RuntimeInvariant AgentExamples.

Local Open Scope Z_scope.

(** ** A scheduler *)

Section schedule.
Context {R : MapRange} {RJ : RawJSON} {AJ : AnyJSON}.
Context `{JT : JSON Target} `{JA : JSON StringListMap} `{JM : JSON (gmap string string)}
  `{JE : JSON EventRecord} `{JG : JSON Grant} `{JP : JSON Presentation} `{JO : JSON OperationError}.
Context (admits : Database → Statement → result error unit)
  (begin_tx : nat → result error unit) (commit_tx : nat → CommitOutcome)
  (plandigest_Digest : string → string).
Context (clock : nat → Time) (new_grant_id new_operation_id : nat → result error string) (o : Options).

#[local] Hint Extern 0 GrantStorage =>
  exact (sqlite admits begin_tx commit_tx plandigest_Digest) : typeclass_instances.

Context {I P A : Type} (error_text : error → string).
Context (r : RuntimeOptions admits begin_tx commit_tx plandigest_Digest (I := I) (P := P) (A := A)).

(** The answers of a provider that resolves everything to one plan and does what it is asked. *)
Context (plan : P) (done_outcome : Outcome).

Notation Action := (Action I P).
Notation Config := (Config admits begin_tx commit_tx plandigest_Digest (I := I) (P := P)).
Notation MkConfig := (MkConfig admits begin_tx commit_tx plandigest_Digest).
Notation run_step :=
  (run_step admits begin_tx commit_tx plandigest_Digest clock new_grant_id new_operation_id o error_text r).
Notation agent f := (f admits begin_tx commit_tx plandigest_Digest) (only parsing).

Definition answer {B} (a : Action B) (w : World) : B * World * option RunEvent :=
  match a in OperationRuntime.Action _ _ B return B * World * option RunEvent with
  | StoreCall m => (m w, None)
  | Claim id => (agent AgentStore.Transition clock id StateExecuting w, None)
  | ReserveCall grantID requestID operation => (ReserveUse clock o grantID requestID operation w, None)
  | SucceedCall id text => (agent AgentStore.Succeed clock id text w, None)
  | ExecuteCall operation _ => (done_outcome, None, w, Some (Executed operation (done_outcome, None)))
  | ReconcileCall operation _ => (done_outcome, None, w, Some (Reconciled operation (done_outcome, None)))
  | ReportCall what => (tt, w, Some (Reported what))
  | ResolveCall _ _ | LoadCall _ => (Ok plan, w, None)
  | StoredPlanCall _ => (Err ErrNotFound, w, None)
  | AdmitCall _ => (Ok tt, w, None)
  | CleanupCall _ _ | PermitCall _ | LockCall _ | UnlockCall _ => (tt, w, None)
  end.

Lemma answer_performs {B} (a : Action B) (w : World) :
  performs admits begin_tx commit_tx plandigest_Digest clock o a w (fst (fst (answer a w)))
    (snd (fst (answer a w))) (snd (answer a w)).
Proof. destruct a; cbn; split; try done; apply surjective_pairing. Qed.

Definition lock_freeb {B} (a : Action B) (held : list RuntimeLock) : bool :=
  match a with LockCall l => bool_decide (l ∉ held) | _ => true end.

(** One step of the first goroutine; the jobs of one that ends start after the others. *)
Definition schedule (c : Config) : Config :=
  match c with
  | RuntimeRuns.MkConfig _ _ _ _ w held threads trace =>
    match threads with
    | [] => c
    | Done jobs :: after =>
      MkConfig w held (after ++ (job_thread admits begin_tx commit_tx plandigest_Digest <$> jobs)) trace
    | Do a k :: after =>
      if lock_freeb a held then
        MkConfig (snd (fst (answer a w))) (locks_after admits begin_tx commit_tx plandigest_Digest a held)
          (k (fst (fst (answer a w))) :: after) (option_list (snd (answer a w)) ++ trace)
      else c
    end
  end.

Lemma schedule_runs (c : Config) : rtc run_step c (schedule c).
Proof.
  destruct c as [w held [|[jobs|B a k] after] trace]; cbn [schedule]; [apply rtc_refl| |].
  - apply rtc_once. by apply (run_exit _ _ _ _ _ _ _ _ _ _ jobs jobs [] after).
  - destruct (lock_freeb a held) eqn:E; [|apply rtc_refl].
    apply rtc_once. apply (run_action _ _ _ _ _ _ _ _ _ _ a k _ [] after); [apply answer_performs|].
    destruct a; try done. by apply bool_decide_eq_true in E.
Qed.

Lemma schedules_run (n : nat) (c : Config) : rtc run_step c (Nat.iter n schedule c).
Proof. induction n as [|n IH]; cbn; [apply rtc_refl|]. etrans; [exact IH|apply schedule_runs]. Qed.

(** A request or a round arrives. *)
Definition arrives (t : Thread admits begin_tx commit_tx plandigest_Digest) (c : Config) : Config :=
  match c with
  | RuntimeRuns.MkConfig _ _ _ _ w held threads trace => MkConfig w held (t :: threads) trace
  end.

Lemma arrives_runs (t : Thread admits begin_tx commit_tx plandigest_Digest) (c : Config) :
  entry admits begin_tx commit_tx plandigest_Digest clock new_grant_id new_operation_id o error_text r t →
  rtc run_step c (arrives t c).
Proof. destruct c. intros Ht. apply rtc_once. by apply run_start. Qed.

(** Time passes. *)
Definition waits (ticks : nat) (c : Config) : Config :=
  match c with
  | RuntimeRuns.MkConfig _ _ _ _ w held threads trace =>
    MkConfig (MkWorld (w_storage w) (w_tick w + ticks) (w_ids w) (w_signals w)) held threads trace
  end.

Lemma waits_run (Hclock : clock_runs clock) (ticks : nat) (c : Config) : rtc run_step c (waits ticks c).
Proof.
  destruct c as [w held threads trace]. apply rtc_once. apply run_outside. split; [done|]. split; [cbn; lia|].
  apply leads_to_same; cbn; [done|done|lia|lia].
Qed.
End schedule.

(** ** A provider *)

#[local] Instance sample_raw : RawJSON := {| json_object value := Ok value; json_Compact value := Some value |}.
#[local] Instance sample_any : AnyJSON :=
  {| json_any := string; json_decode_any value := Some value; json_quote value := value |}.
#[local] Instance sample_presentations : JSON Presentation := listed_codec [sample_presentation].
#[local] Instance sample_errors : JSON OperationError := listed_codec [].

#[local] Hint Extern 0 GrantStorage =>
  exact (sqlite admit_all begin_all commit_all sample_sha) : typeclass_instances.

Definition merge_descriptor : Descriptor :=
  MkDescriptor "pr.merge" 1 "Merge" "E" ModeExecution None false false None false StatusImplemented
    RiskMedium DefaultEffectRequest "pull_request" 1 60 60 false true None None EmptyString EmptyString
    EmptyString EmptyString None None EmptyString EmptyString.

Definition merge_adapter : Adapter (string * string) (string * string) unit :=
  MkAdapter merge_descriptor (λ target arguments, Ok (target, arguments)) (λ _, tt) (λ _, sample_presentation)
    None None None false.

Definition merge_registry : AdapterRegistry (string * string) (string * string) unit :=
  match NewRegistry (MkRegistryOptions "github" (Some (λ _, Some merge_descriptor)) None) [Some merge_adapter] with
  | Ok registry => registry
  | Err _ => MkAdapterRegistry ∅ [] (λ _, false)
  end.

(** A policy that allows everything by its rule [r1]. *)
Definition allow_all : DecideFunc := λ _ _,
  MkDecision EffectAllow true (ReasonText EmptyString) (CredentialUseOther EmptyString) [] [] ["r1"] [] EmptyString None.

Definition merge_request : Request := MkRequest "alice" "pr.merge" (MkTarget EmptyString ∅) ∅.

Definition merge_intent : GrantIntent :=
  MkGrantIntent GrantModeWindow merge_request planned_request sample_plan.

Section provider.
Context `{JT : JSON Target} `{JA : JSON StringListMap} `{JM : JSON (gmap string string)}
  `{JE : JSON EventRecord} `{JG : JSON Grant}.

Definition merge_coordinator (clock : nat → Time) : Coordinator admit_all begin_all commit_all sample_sha :=
  MkCoordinator admit_all begin_all commit_all sample_sha (MkRegistry ∅ ∅ ∅) allow_all
    (λ _, ActivePolicyGrants clock default_options) (clocked (now clock)).

Definition merge_runtime (clock : nat → Time) : RuntimeOptions admit_all begin_all commit_all sample_sha :=
  MkRuntimeOptions admit_all begin_all commit_all sample_sha "github" false merge_registry
    (merge_coordinator clock) allow_all (λ _ : unit, merge_request) (λ plan _, plan) (λ input, input)
    (λ plan, plan) (λ _, Ok merge_intent) (λ _, sample_digest) (λ _, None) None None None false false true 0
    false false.

Lemma merge_coordinator_calm (clock : nat → Time) :
  coordinator_calm admit_all begin_all commit_all sample_sha clock counting_ids default_options
    (merge_coordinator clock).
Proof.
  exact (Build_coordinator_calm admit_all begin_all commit_all sample_sha clock counting_ids default_options
    (merge_coordinator clock)
    (λ _, gentle_ActivePolicyGrants admit_all begin_all commit_all sample_sha clock counting_ids default_options)
    (gentle_now admit_all begin_all commit_all sample_sha clock counting_ids default_options)).
Qed.
End provider.

Definition merged : Outcome := MkOutcome true "{}" 200.

(** ** An operation that policy allows *)

(** One hour per reading. *)
Definition hourly (n : nat) : Time := (Z.of_nat n + 1) * hour.

Lemma hourly_runs : clock_runs hourly.
Proof. split; unfold hourly, hour, minute, second; intros; lia. Qed.

Definition operation_ids (_ : nat) : result error string := Ok "op_123456".

Definition submits (key : string) : SubmitRequest := MkSubmitRequest key "pr.merge" "{}" "{}" "ship it".

Notation engine f := (f admit_all begin_all commit_all sample_sha) (only parsing).

Notation hourly_runtime := (merge_runtime hourly).
Notation scheduled n c :=
  (Nat.iter n (engine schedule hourly default_options ("{}", "{}") merged) c) (only parsing).
Notation submitting key :=
  (_ ← engine Runtime_Submit hourly counting_ids operation_ids default_options (λ _, EmptyString) hourly_runtime
         "alice" (submits key); mret []) (only parsing).
Notation advancing := (engine AdvanceAll hourly default_options hourly_runtime) (only parsing).

Definition merged_once : Config admit_all begin_all commit_all sample_sha :=
  scheduled 100%nat (engine arrives advancing (scheduled 100%nat (engine arrives (submitting "key-1")
    (engine booted (MkWorld empty_database 0 0 0))))).

Definition states_of (c : Config admit_all begin_all commit_all sample_sha (I := string * string) (P := string * string)) :=
  (λ row, or_State (record_of_row row)) <$>
    rows (db_operations (w_storage (cfg_world admit_all begin_all commit_all sample_sha c))) !! "op_123456".

(** A month later the key is free again, and with it the identifier. *)
Definition merged_twice : Config admit_all begin_all commit_all sample_sha :=
  scheduled 100%nat (engine arrives advancing (scheduled 100%nat (engine arrives (submitting "key-2")
    (engine waits 800%nat merged_once)))).

Notation world_of c := (cfg_world admit_all begin_all commit_all sample_sha c) (only parsing).
Notation trace_of c := (cfg_trace admit_all begin_all commit_all sample_sha c) (only parsing).

Notation hourly_steps := (rtc (run_step admit_all begin_all commit_all sample_sha hourly counting_ids operation_ids
  default_options (λ _, EmptyString) hourly_runtime)) (only parsing).
Notation start := (engine booted (MkWorld empty_database 0 0 0)) (only parsing).

Lemma scheduled_run (n : nat) (c : Config admit_all begin_all commit_all sample_sha) :
  hourly_steps c (scheduled n c).
Proof. apply schedules_run. Qed.

Lemma request_runs (key : string) (c : Config admit_all begin_all commit_all sample_sha) :
  hourly_steps c (scheduled 100%nat (engine arrives advancing (scheduled 100%nat (engine arrives (submitting key) c)))).
Proof.
  etrans; [|apply scheduled_run]. etrans; [|apply arrives_runs, entry_advance].
  etrans; [|apply scheduled_run]. apply arrives_runs, entry_submit.
Qed.

Lemma merged_once_runs : hourly_steps start merged_once.
Proof. apply request_runs. Qed.

Lemma merged_twice_runs : hourly_steps start merged_twice.
Proof.
  etrans; [exact merged_once_runs|]. etrans; [|apply (request_runs "key-2")]. apply waits_run, hourly_runs.
Qed.

Definition is_execution (id : string) (e : RunEvent) : bool :=
  match e with Executed operation _ => String.eqb (op_ID operation) id | _ => false end.

Lemma is_execution_spec (id : string) (e : RunEvent) : is_execution id e = true → executes id e.
Proof. destruct e; [|done|done]. apply String.eqb_eq. Qed.

Example merged_results :
  states_of merged_once = Some StateSucceeded ∧ is_execution "op_123456" <$> trace_of merged_once = [true]
  ∧ states_of merged_twice = Some StateSucceeded
  ∧ is_execution "op_123456" <$> trace_of merged_twice = [true; true].
Proof. vm_compute. repeat split. Qed.

#[local] Opaque merged_once merged_twice.

Notation stored_in c := (stored (w_storage (world_of c)) "op_123456") (only parsing).

Notation hourly_retired := (retirements admit_all begin_all commit_all sample_sha hourly counting_ids operation_ids
  default_options (λ _, EmptyString) hourly_runtime) (only parsing).

Lemma executed_once_witness :
  hourly_steps start merged_twice
  ∧ (∃ n, hourly_retired "op_123456" start n merged_twice
        ∧ (executions "op_123456" (trace_of merged_twice) <= S n)%nat)
  ∧ ((2 <= executions "op_123456" (trace_of merged_twice))%nat →
     ∃ j k, (0 <= j < k)%nat ∧ (k < w_tick (world_of merged_twice))%nat
       ∧ hourly j + 30 * 24 * hour < hourly k).
Proof.
  split; [exact merged_twice_runs|].
  exact (executed_once admit_all begin_all commit_all sample_sha hourly counting_ids operation_ids default_options
    (λ _, EmptyString) hourly_runtime (merge_coordinator_calm hourly) (MkWorld empty_database 0 0 0) merged_twice
    "op_123456" merged_twice_runs).
Defined.

Lemma states_stored (c : Config admit_all begin_all commit_all sample_sha) (s : State) :
  states_of c = Some s → ∃ row, stored_in c = Some row ∧ or_State row = s.
Proof.
  unfold states_of, stored. destruct (rows _ !! _) as [row|]; [|done]. cbn. intros [= <-].
  by exists (record_of_row row).
Qed.

Lemma success_proven_witness :
  ∃ row, hourly_steps start merged_once ∧ stored_in merged_once = Some row ∧ or_State row = StateSucceeded
    ∧ (stored empty_database "op_123456" = Some row
       ∨ ∃ e, e ∈ trace_of merged_once ∧ proves "op_123456" e).
Proof.
  destruct (states_stored merged_once StateSucceeded (proj1 merged_results)) as (row & Hrow & Hs).
  exists row. split; [exact merged_once_runs|]. split; [exact Hrow|]. split; [exact Hs|].
  exact (success_proven admit_all begin_all commit_all sample_sha hourly counting_ids operation_ids
    default_options (λ _, EmptyString) hourly_runtime (merge_coordinator_calm hourly)
    (MkWorld empty_database 0 0 0) merged_once "op_123456" row merged_once_runs Hrow Hs).
Defined.
