(* ===== verification/RuntimeGrants.v ===== *)
(** * A run under a grant

    A grant of one use is requested and approved, an operation is created under
    it, and a process executes the operation and commits the use: the bound on
    executions applied to that run. *)

From S2P Require Export RuntimeExamples.

Local Open Scope Z_scope.

(** ** The grant, in memory, for the codecs *)

(** A clock that stands still. *)
Definition standing (_ : nat) : Time := hour.

Lemma standing_runs : clock_runs standing.
Proof. split; unfold standing, hour, minute, second; intros; lia. Qed.

Definition one_use_request : GrantRequest :=
  MkGrantRequest "alice" "req-1" "pr.merge" (MkTarget "file" ∅) ∅
    {["sample_plan_digest" := sample_digest]} "backup" hour 0 1 true false.

Definition one_use_memory : World (GS := memory) :=
  snd (CommitUse (GS := memory) standing default_options first_id "op_123456"
    (snd (ReserveUse (GS := memory) standing default_options first_id "op_123456" "pr.merge"
      (snd (ApplyOperatorDecision (GS := memory) standing default_options no_digest
        (approve_command "k1" 1 as_requested) None
        (snd (Store_Request (GS := memory) standing counting_ids default_options one_use_request fresh_world))))))).

Definition one_use_data : FileData := w_storage (GS := memory) one_use_memory.

Example one_use_committed :
  (λ g, (grant_Status g, grant_UsedCount g)) <$> fd_Grants one_use_data = [(StatusConsumed, 1)].
Proof. vm_compute. reflexivity. Qed.

#[local] Instance one_target_codec : JSON Target := listed_codec (grant_Target <$> fd_Grants one_use_data).
#[local] Instance one_attrs_codec : JSON StringListMap := listed_codec (grant_Attrs <$> fd_Grants one_use_data).
#[local] Instance one_metadata_codec : JSON (gmap string string) :=
  listed_codec (grant_Metadata <$> fd_Grants one_use_data).
#[local] Instance one_event_codec : JSON EventRecord := listed_codec (fd_Events one_use_data).
#[local] Instance one_grant_codec : JSON Grant :=
  listed_codec ((rec_Result <$> fd_DecisionRecords one_use_data)
                ++ (rec_Previous <$> fd_DecisionRecords one_use_data)).
#[local] Instance sample_raw : RawJSON := {| json_object value := Ok value; json_Compact value := Some value |}.
#[local] Instance sample_any : AnyJSON :=
  {| json_any := string; json_decode_any value := Some value; json_quote value := value |}.
#[local] Instance sample_presentations : JSON Presentation := listed_codec [sample_presentation].
#[local] Instance sample_errors : JSON OperationError := listed_codec [].

Lemma one_use_laws : GrantStorageLaws (GS := sqlite admit_all begin_all commit_all sample_sha).
Proof.
  apply @sqlite_laws; first [apply listed_codec_laws|apply listed_codec_refuses; by vm_compute].
Qed.

(** ** The run *)

#[local] Hint Extern 0 GrantStorage =>
  exact (sqlite admit_all begin_all commit_all sample_sha) : typeclass_instances.

Notation engine f := (f admit_all begin_all commit_all sample_sha) (only parsing).

(** The grant is requested and approved, and an operation is created under it. *)
Definition granted_world : World :=
  snd (ApplyOperatorDecision standing default_options no_digest (approve_command "k1" 1 as_requested) None
    (snd (request standing counting_ids default_options one_use_request (Some sample_plan)
      (MkWorld empty_database 0 0 0)))).

Definition granted_submission : Submission :=
  MkSubmission "op_123456" "github" "alice" "key-1" "pr.merge" "{}" "{}" "ship it" sample_presentation
    EmptyString EmptyString.

Definition created_world : World :=
  snd (engine AgentStore.SubmitApprovedWithGrantPlan standing counting_ids granted_submission sample_plan
    first_id granted_world).

Notation standing_runtime := (merge_runtime standing).

Definition executed_once_under : Config admit_all begin_all commit_all sample_sha :=
  Nat.iter 100 (engine schedule standing default_options ("{}", "{}") merged)
    (engine arrives (engine AdvanceAll standing default_options standing_runtime) (engine booted created_world)).

Definition use_of_run : option (list (UseState * string)) :=
  match loadRaw (w_storage (cfg_world admit_all begin_all commit_all sample_sha executed_once_under)) with
  | Ok d => Some ((λ u, (use_State u, use_RequestID u)) <$> fd_Uses d)
  | Err _ => None
  end.

Example run_results :
  use_of_run = Some [(UseCommitted, "op_123456")]
  ∧ is_execution "op_123456" <$> cfg_trace admit_all begin_all commit_all sample_sha executed_once_under = [true].
Proof. vm_compute. split; reflexivity. Qed.

Notation standing_steps := (rtc (run_step admit_all begin_all commit_all sample_sha standing counting_ids operation_ids
  default_options (λ _, EmptyString) standing_runtime)) (only parsing).

Lemma under_runs : standing_steps (engine booted created_world) executed_once_under.
Proof.
  unfold executed_once_under. etrans; [|apply schedules_run]. apply arrives_runs, entry_advance.
Qed.

Lemma sample_sound : engine sound standing counting_ids default_options.
Proof.
  split; [exact standing_runs|]. split; [exact counting_ids_fresh|].
  split; [exact default_options_ok|exact one_use_laws].
Qed.

Lemma empty_world_holds : holds standing counting_ids (MkWorld empty_database 0 0 0) empty_data.
Proof.
  split; [vm_compute; reflexivity|]. split; [apply empty_data_ok|].
  intros g Hg. by apply not_elem_of_nil in Hg.
Qed.

#[local] Existing Instance leads_to_preorder.

Lemma created_world_leads : leads_to standing counting_ids (MkWorld empty_database 0 0 0) created_world.
Proof.
  pose proof sample_sound as (Hclock & Hids & Ho & HL).
  assert (∀ op w, leads_to standing counting_ids w
    (perform standing counting_ids default_options no_digest (λ _, []) (λ _, None) (λ _, EmptyString) op w)) as Hp.
  { intros op w. by apply (perform_leads (GL := HL)). }
  etrans; [exact (Hp (OpRequest one_use_request (Some sample_plan)) _)|].
  etrans; [exact (Hp (OpApplyOperatorDecision (approve_command "k1" 1 as_requested) None) _)|].
  apply (keeps_leads admit_all begin_all commit_all sample_sha standing counting_ids (λ _, True) _ _ Hclock).
  apply (keeps_submit admit_all begin_all commit_all sample_sha standing counting_ids (λ _, True)); [by right|done].
Qed.

Lemma executions_within_budget_witness :
  ∃ d0 d, engine sound standing counting_ids default_options
    ∧ holds standing counting_ids created_world d0
    ∧ standing_steps (engine booted created_world) executed_once_under
    ∧ fst (load (cfg_world admit_all begin_all commit_all sample_sha executed_once_under)) = Ok d
    ∧ ∀ g ids, g ∈ fd_Grants d → grant_ID g ≠ EmptyString → grant_MaxUses g ≠ Unlimited → NoDup ids →
        (∀ id, id ∈ ids → engine executed_under executed_once_under d (grant_ID g) id) →
        Z.of_nat (length ids) <= grant_MaxUses g.
Proof.
  destruct (created_world_leads empty_data empty_world_holds) as (_ & _ & d0 & Hd0 & _).
  destruct (executions_within_budget admit_all begin_all commit_all sample_sha standing counting_ids operation_ids
    default_options (λ _, EmptyString) standing_runtime (merge_coordinator_calm standing) created_world d0
    executed_once_under sample_sound Hd0 under_runs) as (d & Hd & _ & Hb).
  exists d0, d. split; [exact sample_sound|]. split; [exact Hd0|]. split; [exact under_runs|].
  split; [exact Hd|exact Hb].
Defined.
