(* ===== verification/Transaction.v ===== *)
(** * Host transactions: [deployment/transaction]

    The crash-recovery journal of a deployment ([transaction.go], with
    [AtomicWrite] of [internal/securefile/write.go]): steps are applied in order
    behind a journal, and undone in reverse when one fails, or by [Recover]
    after a crash.

    Every function is a program: a tree of host calls, each answered by the
    host, between which the process may crash (TransactionRuns).  Go function
    values are elements of a type [Fn]; a nil one is [None]. *)

From S2P Require Export Errors GoStrings.
From Stdlib Require Import Ascii.

Local Open Scope Z_scope.

Definition APIVersion : string := "unyolo.io/host-transaction/v1".

(** ** Data *)

Record TransactionStep {Fn : Type} : Type := MkTransactionStep {
  step_ID : string;
  step_Kind : string;
  step_Apply : option Fn;
  step_Rollback : option Fn;
  step_RollbackRunning : option Fn
}.
#[global] Arguments TransactionStep : clear implicits.
#[global] Arguments MkTransactionStep {Fn}.

Record StepRecord : Type := MkStepRecord {
  rec_ID : string;
  rec_Kind : string;
  rec_State : string;
  rec_RollbackHandle : string
}.

Record Journal : Type := MkJournal {
  j_APIVersion : string;
  j_ID : string;
  j_DeploymentDigest : string;
  j_PlanDigest : string;
  j_CandidateBundle : string;
  j_PreviousBundle : string;
  j_Phase : string;
  j_Steps : list StepRecord;
  j_StartedAt : Time
}.

#[export] Instance StepRecord_eq_dec : EqDecision StepRecord.
Proof. solve_decision. Defined.
#[export] Instance Journal_eq_dec : EqDecision Journal.
Proof. solve_decision. Defined.

Definition set_State (state : string) (r : StepRecord) : StepRecord :=
  MkStepRecord (rec_ID r) (rec_Kind r) state (rec_RollbackHandle r).

Definition set_RollbackHandle (handle : string) (r : StepRecord) : StepRecord :=
  MkStepRecord (rec_ID r) (rec_Kind r) (rec_State r) handle.

Definition set_Phase (phase : string) (j : Journal) : Journal :=
  MkJournal (j_APIVersion j) (j_ID j) (j_DeploymentDigest j) (j_PlanDigest j) (j_CandidateBundle j)
    (j_PreviousBundle j) phase (j_Steps j) (j_StartedAt j).

(** [journal.Steps[index].State = state]: the programs index in range only. *)
Definition set_step (index : nat) (f : StepRecord → StepRecord) (j : Journal) : Journal :=
  MkJournal (j_APIVersion j) (j_ID j) (j_DeploymentDigest j) (j_PlanDigest j) (j_CandidateBundle j)
    (j_PreviousBundle j) (j_Phase j) (alter f index (j_Steps j)) (j_StartedAt j).

(** [json.MarshalIndent] and the closed [strictjson.Decode] of a journal. *)
Class JournalJSON : Type := {
  journal_MarshalIndent : Journal → result error string;
  journal_Decode : string → result error Journal
}.

(** ** Host calls *)

(** What undoes a step whose apply did not finish: its own [RollbackRunning], or the
    closure of [Recover] that calls a handler with an empty handle. *)
Inductive RunningUndo {Fn : Type} : Type :=
| StepUndo (f : Fn)
| HandlerUndo (handler : Fn).
#[global] Arguments RunningUndo : clear implicits.

(** The calls that leave the package, with the type of their answers; [None] answers a nil
    error.  The calls of functions of steps and handlers name the step or the record they are
    made for, for the properties only. *)
Inductive HostCall (Fn : Type) : Type → Type :=
| MkdirAllCall : HostCall Fn (option error)
| StatCall : HostCall Fn (result error bool)
    (** [Ok false] is [os.ErrNotExist] *)
| ReadFileCall : HostCall Fn (result error (option string))
    (** [Ok None] is [os.ErrNotExist] *)
| CreateTempCall : HostCall Fn (option error)
| ChmodCall : HostCall Fn (option error)
| WriteTempCall (data : string) : HostCall Fn (option error)
| SyncCall : HostCall Fn (option error)
| CloseCall : HostCall Fn (option error)
| RenameCall : HostCall Fn (option error)
| RemoveTempCall : HostCall Fn unit
| RemoveCall : HostCall Fn (result error bool)
    (** [Ok false] is [os.ErrNotExist] *)
| RandReadCall : HostCall Fn (result error (list Z))
| NowCall : HostCall Fn Time
| ApplyCall (step : TransactionStep Fn) (f : Fn) : HostCall Fn (result error string)
| RollbackCall (record : StepRecord) (f : Fn) : HostCall Fn (option error)
    (** [f(ctx, record.RollbackHandle)] *)
| RollbackRunningCall (record : StepRecord) (undo : RunningUndo Fn) : HostCall Fn (option error)
| FinalizeCall (record : StepRecord) (f : Fn) : HostCall Fn (option error)
    (** [f(ctx, record.RollbackHandle)] *)
| PanicCall : HostCall Fn Empty_set.
    (** A nil function was called, or an index was out of range. *)

#[global] Arguments MkdirAllCall {Fn}.
#[global] Arguments StatCall {Fn}.
#[global] Arguments ReadFileCall {Fn}.
#[global] Arguments CreateTempCall {Fn}.
#[global] Arguments ChmodCall {Fn}.
#[global] Arguments WriteTempCall {Fn} data.
#[global] Arguments SyncCall {Fn}.
#[global] Arguments CloseCall {Fn}.
#[global] Arguments RenameCall {Fn}.
#[global] Arguments RemoveTempCall {Fn}.
#[global] Arguments RemoveCall {Fn}.
#[global] Arguments RandReadCall {Fn}.
#[global] Arguments NowCall {Fn}.
#[global] Arguments ApplyCall {Fn} step f.
#[global] Arguments RollbackCall {Fn} record f.
#[global] Arguments RollbackRunningCall {Fn} record undo.
#[global] Arguments FinalizeCall {Fn} record f.
#[global] Arguments PanicCall {Fn}.

(** ** Programs *)

Inductive HostProg (Fn X : Type) : Type :=
| Finished (x : X)
| Calls {B : Type} (c : HostCall Fn B) (k : B → HostProg Fn X).
#[global] Arguments Finished {Fn X} x.
#[global] Arguments Calls {Fn X B} c k.

Fixpoint host_bind {Fn X Y} (p : HostProg Fn X) (f : X → HostProg Fn Y) : HostProg Fn Y :=
  match p with
  | Finished x => f x
  | Calls c k => Calls c (λ b, host_bind (k b) f)
  end.

#[export] Instance host_ret {Fn} : MRet (HostProg Fn) := λ X, Finished.
#[export] Instance host_mbind {Fn} : MBind (HostProg Fn) := λ X Y f p, host_bind p f.

Definition host {Fn B} (c : HostCall Fn B) : HostProg Fn B := Calls c Finished.

Definition panic {Fn X} : HostProg Fn X := Calls PanicCall (λ none, match none with end).

(** [if err != nil { return err' }; rest] *)
Definition on_error {Fn X} (err : option error) (fail : error → HostProg Fn X) (rest : HostProg Fn X) :
    HostProg Fn X :=
  match err with Some e => fail e | None => rest end.

(** [if err != nil { return errors.New(message) }; return nil] *)
Definition relabel (message : string) (err : option error) : option error :=
  (λ _, ErrorNew message) <$> err.

(** [errors.Join] of any number of errors. *)
Definition errors_Join_all (errs : list (option error)) : option error :=
  match omap id errs with [] => None | joined => Some (ErrorJoin joined) end.

(** ** [internal/securefile] *)

Section programs.
Context {Fn : Type} {JJ : JournalJSON}.

Notation Prog := (HostProg Fn).

Definition WriteAndSync (data noun : string) : Prog (option error) :=
  err ← host (WriteTempCall data);
  on_error err (λ _, _ ← host CloseCall; mret (Some (ErrorNew ("write " +:+ noun)))) (
  err ← host SyncCall;
  on_error err (λ _, _ ← host CloseCall; mret (Some (ErrorNew ("sync " +:+ noun)))) (
  err ← host CloseCall;
  mret (relabel ("close " +:+ noun) err))).

(** [AtomicWrite]: the deferred removal of the temporary file ends every branch. *)
Definition AtomicWrite (data noun : string) : Prog (option error) :=
  err ← host CreateTempCall;
  on_error err (λ _, mret (Some (ErrorNew ("create " +:+ noun)))) (
  err ← (err ← host ChmodCall;
         on_error err (λ _, _ ← host CloseCall; mret (Some (ErrorNew ("secure " +:+ noun)))) (
         err ← WriteAndSync data noun;
         on_error err (λ e, mret (Some e)) (
         err ← host RenameCall;
         mret (relabel ("replace " +:+ noun) err))));
  _ ← host RemoveTempCall;
  mret err).

(** ** The journal file *)

(** What [write] puts in the file. *)
Definition journal_text (j : Journal) : result error string :=
  data ← journal_MarshalIndent j; Ok (data +:+ String "010" EmptyString).

Definition transaction_write (j : Journal) : Prog (option error) :=
  match journal_text j with
  | Err e => mret (Some e)
  | Ok data => AtomicWrite data "host deployment transaction"
  end.

(** What [read] makes of the content of the file. *)
Definition journal_parse (data : string) : result error Journal :=
  match journal_Decode data with
  | Ok j =>
      if String.eqb (j_APIVersion j) APIVersion then Ok j
      else Err (ErrorNew "host deployment transaction is invalid")
  | Err _ => Err (ErrorNew "host deployment transaction is invalid")
  end.

(** [read] and [Pending]; [Ok None] is [Journal{}, false, nil]. *)
Definition transaction_read : Prog (result error (option Journal)) :=
  data ← host ReadFileCall;
  mret (match data with
        | Err e => Err e
        | Ok None => Ok None
        | Ok (Some data) => Some <$> journal_parse data
        end).

Definition Pending : Prog (result error (option Journal)) := transaction_read.

Definition transaction_clear : Prog (option error) :=
  removed ← host RemoveCall;
  mret (match removed with Err e => Some e | Ok _ => None end).

Definition nibble (d : Z) : ascii := ascii_of_nat (Z.to_nat (if d <? 10 then 48 + d else 87 + d)).

(** [hex.EncodeToString] *)
Definition hex_EncodeToString (bytes : list Z) : string :=
  foldr (λ b s, String (nibble (b / 16)) (String (nibble (b mod 16)) s)) EmptyString bytes.

Definition transactionID : Prog (result error string) :=
  value ← host RandReadCall;
  mret (match value with Ok bytes => Ok (hex_EncodeToString bytes) | Err e => Err e end).

(** ** Validation *)

Definition step_invalid (step : TransactionStep Fn) (ids : list string) : bool :=
  is_empty (step_ID step) || is_empty (step_Kind step) || negb (bool_decide (is_Some (step_Apply step)))
  || negb (bool_decide (is_Some (step_Rollback step)))
  || negb (bool_decide (is_Some (step_RollbackRunning step)))
  || bool_decide (step_ID step ∈ ids).

(** The loop of [validateSteps]. *)
Fixpoint validate_each (steps : list (TransactionStep Fn)) (ids : list string) : option error :=
  match steps with
  | [] => None
  | step :: rest =>
      if step_invalid step ids then Some (ErrorNew "host deployment transaction step is invalid or duplicated")
      else validate_each rest (ids ++ [step_ID step])
  end.

Definition validateSteps (steps : list (TransactionStep Fn)) : option error :=
  if (length steps =? 0)%nat || (1024 <? Z.of_nat (length steps))
  then Some (ErrorNew "host deployment transaction step count is invalid")
  else validate_each steps [].

(** ** Rollback *)

Record compensation : Type := MkCompensation {
  comp_complete : option Fn;
  comp_running : option (RunningUndo Fn)
}.

(** [steps[index]] panics out of range, here [None]. *)
Definition stepCompensations (steps : list (TransactionStep Fn)) (index : nat) : option compensation :=
  (λ step, MkCompensation (step_Rollback step) (StepUndo <$> step_RollbackRunning step)) <$> steps !! index.

(** [compensate]: whether the undo succeeded, its error, and the journal it leaves. *)
Definition compensate (j : Journal) (index : nat) (undo : compensation) :
    Prog (bool * option error * Journal) :=
  match j_Steps j !! index with
  | None => panic
  | Some record =>
      err ← (if String.eqb (rec_State record) "running"
             then match comp_running undo with
                  | Some f => host (RollbackRunningCall record f)
                  | None => panic
                  end
             else match comp_complete undo with
                  | Some f => host (RollbackCall record f)
                  | None => panic
                  end);
      match err with
      | Some e => mret (false, Some e, j)
      | None =>
          let j := set_step index (set_State "rolled_back") j in
          err ← transaction_write j;
          mret (true, err, j)
      end
  end.

(** One round over [pending]: the journal, the indexes that failed and the failures. *)
Fixpoint compensate_each (compensations : nat → option compensation) (j : Journal) (pending : list nat)
    (failed : list nat) (failures : list error) : Prog (Journal * list nat * list error) :=
  match pending with
  | [] => mret (j, failed, failures)
  | index :: rest =>
      match compensations index with
      | None => panic
      | Some undo =>
          '(undone, err, j) ← compensate j index undo;
          compensate_each compensations j rest
            (if undone : bool then failed else failed ++ [index]) (failures ++ option_list err)
      end
  end.

(** [for attempt := 0; attempt < 2 && len(pending) > 0; attempt++], with the attempts left. *)
Fixpoint attempts (compensations : nat → option compensation) (remaining : nat) (j : Journal) (pending : list nat)
    (failures : list error) : Prog (Journal * list nat * list error) :=
  match remaining, pending with
  | S remaining, _ :: _ =>
      '(j, failed, failures) ← compensate_each compensations j pending [] [];
      attempts compensations remaining j failed failures
  | _, _ => mret (j, pending, failures)
  end.

Definition undoable (r : StepRecord) : bool :=
  String.eqb (rec_State r) "running" || String.eqb (rec_State r) "complete".

(** The indexes to undo, the newest first. *)
Definition rollback_pending (j : Journal) : list nat :=
  List.filter (λ index, match j_Steps j !! index with Some r => undoable r | None => false end)
    (rev (seq 0 (length (j_Steps j)))).

Definition rollback (j : Journal) (compensations : nat → option compensation) (cause : option error) :
    Prog (option error) :=
  let j := set_Phase "rolling_back" j in
  _ ← transaction_write j;
  '(j, pending, failures) ← attempts compensations 2 j (rollback_pending j) [];
  match pending, failures with
  | [], [] => err ← transaction_clear; mret (errors_Join_all [cause; err])
  | _, _ =>
      _ ← transaction_write (set_Phase "recovery_required" j);
      mret (errors_Join_all (cause :: (Some <$> failures)))
  end.

(** ** Run *)

(** [StepRecord{ID: step.ID, Kind: step.Kind, State: "pending"}] *)
Definition pending_record (step : TransactionStep Fn) : StepRecord :=
  MkStepRecord (step_ID step) (step_Kind step) "pending" EmptyString.

(** The loop of [Run] over the steps from [index], and the commit after it. *)
Fixpoint run_steps (all : list (TransactionStep Fn)) (j : Journal) (index : nat)
    (steps : list (TransactionStep Fn)) : Prog (option error) :=
  match steps with
  | [] => transaction_write (set_Phase "committed" j)
  | step :: rest =>
      let running := set_step index (set_State "running") j in
      err ← transaction_write running;
      on_error err (λ e,
        rollback (set_step index (set_State "pending") running) (stepCompensations all) (Some e)) (
      match step_Apply step with
      | None => panic
      | Some f =>
          applied ← host (ApplyCall step f);
          match applied with
          | Err applyErr =>
              let failing := set_Phase "rolling_back" running in
              err ← transaction_write failing;
              on_error err (λ e, mret (errors_Join_all [Some applyErr; Some e]))
                (rollback failing (stepCompensations all) (Some applyErr))
          | Ok handle =>
              let complete :=
                set_step index (set_RollbackHandle handle) (set_step index (set_State "complete") running) in
              err ← transaction_write complete;
              on_error err (λ e, rollback complete (stepCompensations all) (Some e))
                (run_steps all complete (S index) rest)
          end
      end)
  end.

Definition Run (deploymentDigest planDigest candidate previous : string)
    (steps : list (TransactionStep Fn)) : Prog (option error) :=
  on_error (validateSteps steps) (λ e, mret (Some e)) (
  err ← host MkdirAllCall;
  on_error err (λ e, mret (Some e)) (
  there ← host StatCall;
  match there with
  | Ok true => mret (Some (ErrorNew "unfinished host deployment transaction requires recovery"))
  | Err e => mret (Some e)
  | Ok false =>
      id ← transactionID;
      match id with
      | Err e => mret (Some e)
      | Ok id =>
          now ← host NowCall;
          let j := MkJournal APIVersion id deploymentDigest planDigest candidate previous "applying"
                     (pending_record <$> steps) now in
          err ← transaction_write j;
          on_error err (λ e, mret (Some e)) (run_steps steps j 0 steps)
      end
  end)).

(** ** Finalize *)

(** The loop of [Finalize] over the records from [index]; handlers are a map lookup. *)
Fixpoint finalize_each (handlers : string → option Fn) (j : Journal) (index : nat)
    (records : list StepRecord) : Prog (option error) :=
  match records with
  | [] => transaction_clear
  | record :: rest =>
      if String.eqb (rec_State record) "finalized" then finalize_each handlers j (S index) rest
      else if negb (String.eqb (rec_State record) "complete") then
        mret (Some (ErrorNew "committed host deployment transaction has an invalid step state"))
      else
        match handlers (rec_Kind record) with
        | None => mret (Some (errorf "finalizer for %q is unavailable" [rec_Kind record]))
        | Some handler =>
            err ← host (FinalizeCall record handler);
            on_error err (λ e, mret (Some e)) (
            let j := set_step index (set_State "finalized") j in
            err ← transaction_write j;
            on_error err (λ e, mret (Some e)) (finalize_each handlers j (S index) rest))
        end
  end.

Definition Finalize (handlers : string → option Fn) : Prog (option error) :=
  found ← transaction_read;
  match found with
  | Err e => mret (Some e)
  | Ok None => mret None
  | Ok (Some j) =>
      if negb (String.eqb (j_Phase j) "committed") then mret None
      else finalize_each handlers j 0 (j_Steps j)
  end.

(** ** Recover *)

(** The loop of [Recover]: the compensations by index, or how it ends early. *)
Fixpoint recover_each (handlers : string → option Fn) (j : Journal) (index : nat) (records : list StepRecord)
    (compensations : nat → option compensation) : (nat → option compensation) + Prog (option error) :=
  match records with
  | [] => inl compensations
  | record :: rest =>
      if String.eqb (rec_State record) "running" then
        match handlers ("running:" +:+ rec_Kind record) with
        | None =>
            inr (err ← transaction_write (set_Phase "recovery_required" j);
                 on_error err (λ e, mret (Some e))
                   (mret (Some (errorf "transaction step %q has an uncertain apply outcome; manual recovery is required"
                                  [rec_ID record]))))
        | Some handler =>
            recover_each handlers j (S index) rest
              (λ i, if (i =? index)%nat then Some (MkCompensation None (Some (HandlerUndo handler)))
                    else compensations i)
        end
      else if String.eqb (rec_State record) "complete" then
        match handlers (rec_Kind record) with
        | None =>
            inr (_ ← transaction_write (set_Phase "recovery_required" j);
                 mret (Some (errorf "recovery handler for %q is unavailable" [rec_Kind record])))
        | Some handler =>
            recover_each handlers j (S index) rest
              (λ i, if (i =? index)%nat then Some (MkCompensation (Some handler) None) else compensations i)
        end
      else recover_each handlers j (S index) rest compensations
  end.

(** A map without the key answers the zero [compensation]. *)
Definition no_compensations (index : nat) : option compensation := Some (MkCompensation None None).

Definition Recover (handlers : string → option Fn) : Prog (option error) :=
  found ← transaction_read;
  match found with
  | Err e => mret (Some e)
  | Ok None => mret None
  | Ok (Some j) =>
      if String.eqb (j_Phase j) "committed" then
        mret (Some (ErrorNew "committed host deployment transaction requires finalization"))
      else
        match recover_each handlers j 0 (j_Steps j) no_compensations with
        | inl compensations => rollback j compensations None
        | inr ended => ended
        end
  end.
End programs.
