(* ===== verification/TransactionSafety.v ===== *)
(** * Runs of host transactions, and what they keep

    What the programs of Transaction do when they run: the effect of each host
    call, one process at a time, crashes at any point, also in the middle of a
    step's function, and restarts with [Recover], [Finalize] or another [Run].

    Any call may fail.  A rename or a removal that fails may have taken effect;
    a rename is atomic and survives the crash of the process.  The history keeps
    what was asked of the steps, last event first.

    [wp p Q C h]: running [p] on [h] never panics, calls the finalizers of complete
    steps of a committed journal only, leaves a host with [C] when it
    crashes at any point, and ends, if it does, with [Q]. *)

From S2P Require Export Transaction GoStringFacts.

Local Open Scope Z_scope.

(** What steps and handlers were asked; no answer when the process died meanwhile. *)
Inductive HostEvent : Type :=
| Began (at_time : Time)
    (** [Run] takes the time of a new transaction *)
| Applied (id : string) (answer : option (result error string))
| RolledBack (record : StepRecord) (answer : option (option error))
    (** by [Rollback], [RollbackRunning] or a handler of [Recover] *)
| Finalized (record : StepRecord) (answer : option (option error)).

Record Host : Type := MkHost {
  host_file : option string;
  host_temp : option string;
  host_history : list HostEvent
}.

Definition set_file (file : option string) (h : Host) : Host := MkHost file (host_temp h) (host_history h).
Definition set_temp (temp : option string) (h : Host) : Host := MkHost (host_file h) temp (host_history h).
Definition log (event : HostEvent) (h : Host) : Host :=
  MkHost (host_file h) (host_temp h) (event :: host_history h).

(** The strings JSON keeps as they are: others lose their invalid bytes. *)
Definition record_valid (r : StepRecord) : bool :=
  valid_utf8 (rec_ID r) && valid_utf8 (rec_Kind r) && valid_utf8 (rec_State r)
  && valid_utf8 (rec_RollbackHandle r).

Definition journal_valid (j : Journal) : bool :=
  valid_utf8 (j_APIVersion j) && valid_utf8 (j_ID j) && valid_utf8 (j_DeploymentDigest j)
  && valid_utf8 (j_PlanDigest j) && valid_utf8 (j_CandidateBundle j) && valid_utf8 (j_PreviousBundle j)
  && valid_utf8 (j_Phase j) && forallb record_valid (j_Steps j).

(** What was encoded is decoded. *)
Class JournalLaws `{JournalJSON} : Prop :=
  journal_decode : ∀ (j : Journal) (text : string),
    journal_valid j = true → journal_text j = Ok text → journal_Decode text = Ok j.

Section runs.
Context {Fn : Type} {JJ : JournalJSON}.

(** ** Calls *)

(** What a call may answer, and the host it leaves. *)
Definition performs {B} (c : HostCall Fn B) (h : Host) (b : B) (h' : Host) : Prop :=
  match c in HostCall _ B return B → Prop with
  | MkdirAllCall | ChmodCall | SyncCall | CloseCall => λ _, h' = h
  | StatCall => λ b, h' = h ∧ ∀ there, b = Ok there → there = bool_decide (is_Some (host_file h))
  | ReadFileCall => λ b, h' = h ∧ ∀ content, b = Ok content → content = host_file h
  | CreateTempCall => λ b, ∃ temp, h' = set_temp temp h
  | WriteTempCall data => λ b, ∃ temp, h' = set_temp temp h ∧ (b = None → temp = Some data)
  | RenameCall => λ b,
      (b ≠ None ∧ h' = h) ∨ ∃ data, host_temp h = Some data ∧ h' = MkHost (Some data) None (host_history h)
  | RemoveTempCall => λ _, ∃ temp, h' = set_temp temp h
  | RemoveCall => λ b,
      (b = Ok (bool_decide (is_Some (host_file h))) ∧ h' = set_file None h)
      ∨ ∃ e, b = Err e ∧ (h' = h ∨ h' = set_file None h)
  | RandReadCall => λ b, h' = h ∧ ∀ bytes, b = Ok bytes → length bytes = 16%nat ∧ Forall (λ x, 0 <= x < 256) bytes
  | NowCall => λ now, h' = log (Began now) h
  | ApplyCall step _ => λ b,
      h' = log (Applied (step_ID step) (Some b)) h ∧ ∀ handle, b = Ok handle → valid_utf8 handle = true
  | RollbackCall r _ | RollbackRunningCall r _ => λ b, h' = log (RolledBack r (Some b)) h
  | FinalizeCall r _ => λ b, h' = log (Finalized r (Some b)) h
  | PanicCall => λ _, False
  end b.

(** What a call leaves when the process dies in the middle of it, where that is neither
    the host before the call nor the one after it. *)
Definition interrupted {B} (c : HostCall Fn B) (h h' : Host) : Prop :=
  match c with
  | ApplyCall step _ => h' = log (Applied (step_ID step) None) h
  | RollbackCall r _ | RollbackRunningCall r _ => h' = log (RolledBack r None) h
  | FinalizeCall r _ => h' = log (Finalized r None) h
  | _ => False
  end.

(** A run that ends with [x] on the host [h']. *)
Fixpoint executes {X} (p : HostProg Fn X) (h : Host) (x : X) (h' : Host) : Prop :=
  match p with
  | Finished y => y = x ∧ h' = h
  | Calls c k => ∃ b h1, performs c h b h1 ∧ executes (k b) h1 x h'
  end.

(** ** Processes *)

(** What an administrator starts. *)
Inductive transaction_entry : HostProg Fn (option error) → Prop :=
| entry_run (deploymentDigest planDigest candidate previous : string) (steps : list (TransactionStep Fn)) :
    forallb valid_utf8 [deploymentDigest; planDigest; candidate; previous] = true →
    forallb (λ step, valid_utf8 (step_ID step) && valid_utf8 (step_Kind step)) steps = true →
    transaction_entry (Run deploymentDigest planDigest candidate previous steps)
| entry_finalize (handlers : string → option Fn) : transaction_entry (Finalize handlers)
| entry_recover (handlers : string → option Fn) : transaction_entry (Recover handlers).

(** The host, and the program of the one process, if there is one. *)
Definition HostConfig : Type := Host * option (HostProg Fn (option error)).

Inductive host_step : HostConfig → HostConfig → Prop :=
| host_call {B} (c : HostCall Fn B) (k : B → HostProg Fn (option error)) (h h' : Host) (b : B) :
    performs c h b h' → host_step (h, Some (Calls c k)) (h', Some (k b))
| host_exit (x : option error) (h : Host) : host_step (h, Some (Finished x)) (h, None)
| host_crash (p : HostProg Fn (option error)) (h : Host) : host_step (h, Some p) (h, None)
| host_crash_during {B} (c : HostCall Fn B) (k : B → HostProg Fn (option error)) (h h' : Host) :
    interrupted c h h' → host_step (h, Some (Calls c k)) (h', None)
| host_start (p : HostProg Fn (option error)) (h : Host) :
    transaction_entry p → host_step (h, None) (h, Some p).

(** A host without a journal. *)
Definition fresh_host : HostConfig := (MkHost None None [], None).

(** ** Weakest preconditions with a crash condition *)

(** The journal on disk is committed and has the record as complete. *)
Definition finalizable (r : StepRecord) (h : Host) : Prop :=
  ∃ data j, host_file h = Some data ∧ journal_text j = Ok data ∧ journal_valid j = true
    ∧ j_APIVersion j = APIVersion ∧ j_Phase j = "committed" ∧ r ∈ j_Steps j ∧ rec_State r = "complete".

(** Which calls may be made: no panic, and finalizers of complete steps of a committed
    transaction only. *)
Definition may_call {B} (c : HostCall Fn B) (h : Host) : Prop :=
  match c with PanicCall => False | FinalizeCall r _ => finalizable r h | _ => True end.

Fixpoint wp {X} (p : HostProg Fn X) (Q : X → Host → Prop) (C : Host → Prop) (h : Host) : Prop :=
  C h ∧
  match p with
  | Finished x => Q x h
  | Calls c k =>
      may_call c h
      ∧ (∀ h', interrupted c h h' → C h')
      ∧ ∀ b h', performs c h b h' → wp (k b) Q C h'
  end.

Lemma wp_crash {X} (p : HostProg Fn X) (Q : X → Host → Prop) (C : Host → Prop) (h : Host) :
  wp p Q C h → C h.
Proof. destruct p; intros [H _]; exact H. Qed.

Lemma wp_mono {X} (p : HostProg Fn X) (Q Q' : X → Host → Prop) (C C' : Host → Prop) (h : Host) :
  wp p Q C h → (∀ x h', Q x h' → Q' x h') → (∀ h', C h' → C' h') → wp p Q' C' h.
Proof.
  intros H HQ HC. revert h H. induction p as [x|B c k IH]; intros h [Hc H]; (split; [by apply HC|]).
  - by apply HQ.
  - destruct H as (Hp & Hi & Hk). split; [done|]. split; [naive_solver|]. naive_solver.
Qed.

Lemma wp_bind {X Y} (p : HostProg Fn X) (f : X → HostProg Fn Y) (Q : Y → Host → Prop) (C : Host → Prop) (h : Host) :
  wp p (λ x h', wp (f x) Q C h') C h → wp (p ≫= f) Q C h.
Proof.
  revert h. induction p as [x|B c k IH]; intros h [Hc H]; [exact H|].
  destruct H as (Hp & Hi & Hk). split; [done|]. split; [done|]. split; [done|].
  intros b h' Hb. by apply IH, Hk.
Qed.

(** The usual step of a proof: what the first part guarantees suffices for the rest. *)
Lemma wp_seq {X Y} (p : HostProg Fn X) (f : X → HostProg Fn Y) (P : X → Host → Prop) (D : Host → Prop)
    (Q : Y → Host → Prop) (C : Host → Prop) (h : Host) :
  wp p P D h → (∀ h', D h' → C h') → (∀ x h', P x h' → wp (f x) Q C h') → wp (p ≫= f) Q C h.
Proof. intros H HD HP. apply wp_bind. by eapply wp_mono. Qed.

Lemma wp_done {X} (x : X) (Q : X → Host → Prop) (C : Host → Prop) (h : Host) :
  C h → Q x h → wp (mret x : HostProg Fn X) Q C h.
Proof. done. Qed.

Lemma wp_executes {X} (p : HostProg Fn X) (Q : X → Host → Prop) (C : Host → Prop) (h h' : Host) (x : X) :
  wp p Q C h → executes p h x h' → Q x h'.
Proof.
  revert h. induction p as [y|B c k IH]; intros h [_ H]; simpl; [by intros [-> ->]|].
  intros (b & h1 & Hb & E). destruct H as (_ & _ & H). by eapply IH; [apply H|].
Qed.

Lemma wp_on_error {X} (err : option error) (fail : error → HostProg Fn X) (rest : HostProg Fn X)
    (Q : X → Host → Prop) (C : Host → Prop) (h : Host) :
  (∀ e, err = Some e → wp (fail e) Q C h) → (err = None → wp rest Q C h) → wp (on_error err fail rest) Q C h.
Proof. intros Hf Hr. destruct err; simpl; eauto. Qed.

(** A program that keeps [C] under every start keeps it in every reachable configuration. *)
Lemma reachable_invariant (C : Host → Prop) (h : Host) (c : HostConfig) :
  C h →
  (∀ p h, transaction_entry p → C h → wp p (λ _ _, True) C h) →
  rtc host_step (h, None) c → C c.1 ∧ ∀ p, c.2 = Some p → wp p (λ _ _, True) C c.1.
Proof.
  intros Hh Hstart Hr.
  apply (rtc_ind_r (R := host_step) (λ c, C c.1 ∧ ∀ p, c.2 = Some p → wp p (λ _ _, True) C c.1) (h, None)); [naive_solver| |done].
  intros c1 c2 _ Hs [Hc Hp]. destruct Hs as [B call k h1 h2 b Hb|x h1|p h1|B call k h1 h2 Hi|p h1 He]; simpl in *.
  - destruct (Hp _ eq_refl) as [_ (_ & _ & Hk)]. specialize (Hk _ _ Hb).
    split; [by eapply wp_crash|]. by intros p [= <-].
  - done.
  - done.
  - split; [|done]. destruct (Hp _ eq_refl) as [_ (_ & H & _)]. by apply H.
  - split; [done|]. intros q [= <-]. by apply Hstart.
Qed.

(** ** Runs of a sequence *)

Lemma executes_bind {X Y} (p : HostProg Fn X) (f : X → HostProg Fn Y) (h h' : Host) (y : Y) :
  executes (p ≫= f) h y h' ↔ ∃ x h1, executes p h x h1 ∧ executes (f x) h1 y h'.
Proof.
  revert h. induction p as [x|B c k IH]; intros h; simpl.
  - split; [intros H; by exists x, h|]. by intros (? & ? & [-> ->] & H).
  - split.
    + intros (b & h1 & Hb & H). apply IH in H. naive_solver.
    + intros (x & h2 & (b & h1 & Hb & Hx) & Hf). exists b, h1. split; [done|]. apply IH. eauto.
Qed.
End runs.

(** * What host transactions keep

    The invariant of hosts and journals, the triples of the host calls and of the
    programs that write the journal, and [rollback]. *)

(** ** The history *)

(** The steps whose effects may be there: the apply was begun, and no later undo or
    finalizer succeeded. *)
Definition dirty_after (e : HostEvent) (dirty : gset string) : gset string :=
  match e with
  | Applied id _ => {[id]} ∪ dirty
  | RolledBack r (Some None) | Finalized r (Some None) => dirty ∖ {[rec_ID r]}
  | _ => dirty
  end.

Definition dirty (history : list HostEvent) : gset string := foldr dirty_after ∅ history.

(** The handle the last apply of a step returned. *)
Fixpoint issued (history : list HostEvent) (id : string) : option string :=
  match history with
  | [] => None
  | Applied id' answer :: rest =>
      if String.eqb id' id then match answer with Some (Ok handle) => Some handle | _ => None end
      else issued rest id
  | _ :: rest => issued rest id
  end.

(** The events of the transaction that began last. *)
Fixpoint current (history : list HostEvent) : list HostEvent :=
  match history with
  | [] => []
  | Began _ :: _ => []
  | e :: rest => e :: current rest
  end.

Definition undoes (e : HostEvent) : bool := match e with RolledBack _ _ => true | _ => false end.
Definition finalizes (e : HostEvent) : bool := match e with Finalized _ _ => true | _ => false end.
Definition applies (id : string) (e : HostEvent) : bool :=
  match e with Applied id' _ => String.eqb id' id | _ => false end.

(** No event of the current transaction satisfies [f]. *)
Definition none_yet (f : HostEvent → bool) (history : list HostEvent) : Prop :=
  existsb f (current history) = false.

(** What may happen after [rest]. *)
Definition event_ok (e : HostEvent) (rest : list HostEvent) : Prop :=
  match e with
  | Began _ => dirty rest = ∅
  | Applied id _ => none_yet undoes rest ∧ none_yet finalizes rest ∧ none_yet (applies id) rest
  | RolledBack r _ =>
      none_yet finalizes rest
      ∧ (rec_State r = "running" ∨ rec_State r = "complete" ∧ issued rest (rec_ID r) = Some (rec_RollbackHandle r))
  | Finalized r _ => none_yet undoes rest ∧ issued rest (rec_ID r) = Some (rec_RollbackHandle r)
  end.

Fixpoint history_ok (history : list HostEvent) : Prop :=
  match history with [] => True | e :: rest => event_ok e rest ∧ history_ok rest end.

Lemma history_ok_split (front rest : list HostEvent) (e : HostEvent) :
  history_ok (front ++ e :: rest) → event_ok e rest.
Proof. induction front as [|e' front IH]; [by intros []|]. intros [_ H]. by apply IH. Qed.

(** ** Journals *)

Record journal_inv (history : list HostEvent) (j : Journal) : Prop := {
  inv_api : j_APIVersion j = APIVersion;
  inv_valid : journal_valid j = true;
  inv_ids : NoDup (rec_ID <$> j_Steps j);
  inv_covers : ∀ id, id ∈ dirty history → ∃ r, r ∈ j_Steps j ∧ rec_ID r = id ∧ undoable r = true;
  inv_handles : ∀ r, r ∈ j_Steps j → rec_State r = "complete" →
                  issued history (rec_ID r) = Some (rec_RollbackHandle r);
  inv_phase : if String.eqb (j_Phase j) "committed" then none_yet undoes history
              else none_yet finalizes history
}.

Definition is_committed (j : Journal) : bool := String.eqb (j_Phase j) "committed".

Section safety.
Context {Fn : Type} {JJ : JournalJSON} {JL : JournalLaws}.

(** The journal on disk satisfies [P]; without one there is nothing to undo. *)
Definition on_disk (P : Journal → Prop) (h : Host) : Prop :=
  match host_file h with
  | None => dirty (host_history h) = ∅
  | Some data => ∃ j, journal_text j = Ok data ∧ journal_inv (host_history h) j ∧ P j
  end.

Definition host_state (P : Journal → Prop) (h : Host) : Prop :=
  on_disk P h ∧ history_ok (host_history h).

Abbreviation host_inv := (host_state (λ _, True)).
Abbreviation host_open := (host_state (λ j, is_committed j = false)).

Lemma host_state_weaken (P Q : Journal → Prop) (h : Host) :
  (∀ j, P j → Q j) → host_state P h → host_state Q h.
Proof. unfold host_state, on_disk. destruct (host_file h); naive_solver. Qed.

Lemma host_state_inv (P : Journal → Prop) (h : Host) : host_state P h → host_inv h.
Proof. by apply host_state_weaken. Qed.

Definition holds (j : Journal) (h : Host) : Prop :=
  ∃ data, journal_text j = Ok data ∧ host_file h = Some data.

(** What a journal write may leave. *)
Definition old_or_new (j : Journal) (h h' : Host) : Prop :=
  host_history h' = host_history h ∧ (host_file h' = host_file h ∨ holds j h').

Lemma old_or_new_state (P : Journal → Prop) (j : Journal) (h h' : Host) :
  host_state P h → journal_inv (host_history h) j → P j → old_or_new j h h' → host_state P h'.
Proof.
  intros [Hd Hh] Hj HP [E [Ef|(data & Hd' & Ef)]]; unfold host_state, on_disk in *.
  - by rewrite Ef, E.
  - rewrite Ef, E. naive_solver.
Qed.

(** ** Writes *)

Lemma wp_host {B X} (c : HostCall Fn B) (f : B → HostProg Fn X) (Q : X → Host → Prop) (C : Host → Prop) (h : Host) :
  C h → may_call c h → (∀ h', interrupted c h h' → C h') →
  (∀ b h', performs c h b h' → wp (f b) Q C h') → wp (host c ≫= f) Q C h.
Proof. done. Qed.

(** A call that changes neither the journal nor the history. *)
Definition quiet {B} (c : HostCall Fn B) : bool :=
  match c with
  | MkdirAllCall | StatCall | ReadFileCall | CreateTempCall | ChmodCall | WriteTempCall _ | SyncCall | CloseCall
  | RemoveTempCall | RandReadCall => true
  | _ => false
  end.

Lemma quiet_call {B} (c : HostCall Fn B) (h h' : Host) (b : B) :
  quiet c = true → performs c h b h' → host_history h' = host_history h ∧ host_file h' = host_file h.
Proof. destruct c; simpl; try done; naive_solver. Qed.

Lemma wp_quiet {B X} (c : HostCall Fn B) (f : B → HostProg Fn X) (Q : X → Host → Prop) (C : Host → Prop) (h : Host) :
  quiet c = true → C h →
  (∀ b h', performs c h b h' → host_history h' = host_history h → host_file h' = host_file h → wp (f b) Q C h') →
  wp (host c ≫= f) Q C h.
Proof.
  intros Hq Hc Hf. apply wp_host; [done|by destruct c|by destruct c|].
  intros b h' Hb. destruct (quiet_call _ _ _ _ Hq Hb). by apply Hf.
Qed.

(** The file is the old one or the new one wherever the process dies, and the new one when
    the write is acknowledged. *)
Lemma wp_AtomicWrite (data noun : string) (h : Host) :
  let kept h' := host_history h' = host_history h
                 ∧ (host_file h' = host_file h ∨ host_file h' = Some data) in
  wp (AtomicWrite data noun : HostProg Fn _) (λ err h', kept h' ∧ (err = None → host_file h' = Some data)) kept h.
Proof.
  intros kept. unfold AtomicWrite, WriteAndSync.
  assert (∀ h1 (err : option error), kept h1 → (err = None → host_file h1 = Some data) →
    wp (_ ← host RemoveTempCall; mret err : HostProg Fn _)
      (λ err h', kept h' ∧ (err = None → host_file h' = Some data)) kept h1) as Hend.
  { intros h1 err [H1 H2] He. apply wp_quiet; [done|by split|]. intros [] h2 _ E1 E2.
    apply wp_done; unfold kept; rewrite ?E1, ?E2; auto. }
  assert (∀ h1, host_history h1 = host_history h → host_file h1 = host_file h → kept h1) as Hsame
    by (intros; split; auto).
  apply wp_quiet; [done|by apply Hsame|]. intros [e|] h1 _ H1 F1; cbn [on_error];
    [apply wp_done; [|split; [|done]]; by apply Hsame|].
  apply (wp_seq _ _ (λ err h', kept h' ∧ (err = None → host_file h' = Some data)) kept);
    [|done|by intros err h2 []; apply Hend].
  apply wp_quiet; [done|by apply Hsame|]. intros [e|] h2 _ H2 F2; cbn [on_error].
  { apply wp_quiet; [done|apply Hsame; congruence|]. intros _e h3 _ H3 F3.
    apply wp_done; [|split; [|done]]; apply Hsame; congruence. }
  apply (wp_seq _ _ (λ err h', host_history h' = host_history h ∧ host_file h' = host_file h
                             ∧ (err = None → host_temp h' = Some data)) kept); [|done|].
  - apply wp_quiet; [done|apply Hsame; congruence|]. intros err h3 (temp & Eh3 & Ht) H3 F3.
    destruct err as [e|]; cbn [on_error].
    { apply wp_quiet; [done|apply Hsame; congruence|]. intros _e h4 _ H4 F4.
      apply wp_done; [apply Hsame; congruence|]. repeat split; try congruence. }
    specialize (Ht eq_refl). subst temp.
    apply wp_quiet; [done|apply Hsame; congruence|]. intros err h4 E4 H4 F4. simpl in E4.
    destruct err as [e|]; cbn [on_error].
    { apply wp_quiet; [done|apply Hsame; congruence|]. intros _e h5 _ H5 F5.
      apply wp_done; [apply Hsame; congruence|]. repeat split; try congruence. }
    apply wp_quiet; [done|apply Hsame; congruence|]. intros err h5 E5 H5 F5. simpl in E5.
    apply wp_done; [apply Hsame; congruence|]. subst. repeat split; congruence.
  - intros err h3 (H3 & F3 & T3). apply wp_on_error.
    { intros e ->. apply wp_done; [by apply Hsame|]. split; [by apply Hsame|done]. }
    intros ->. specialize (T3 eq_refl). apply wp_host; [by apply Hsame|done|done|].
    intros err h4 Hr. simpl in Hr.
    assert (kept h4 ∧ (err = None → host_file h4 = Some data)) as [K4 F4].
    { destruct Hr as [[He ->]|(d & Hd & ->)]; [split; [by apply Hsame|done]|].
      rewrite T3 in Hd. injection Hd as <-. split; [split|]; simpl; auto. }
    apply wp_done; [done|]. split; [done|]. by destruct err.
Qed.

Lemma wp_write (j : Journal) (h : Host) :
  wp (transaction_write j : HostProg Fn _) (λ err h', old_or_new j h h' ∧ (err = None → holds j h')) (old_or_new j h) h.
Proof.
  unfold transaction_write. destruct (journal_text j) as [data|e] eqn:Ej.
  - eapply wp_mono; [apply wp_AtomicWrite| |]; simpl; unfold old_or_new, holds; naive_solver.
  - apply wp_done; unfold old_or_new; naive_solver.
Qed.

(** A write of a journal that fits the history, and what follows it. *)
Lemma wp_write_then {X} (P : Journal → Prop) (j : Journal) (f : option error → HostProg Fn X)
    (Q : X → Host → Prop) (h : Host) :
  host_state P h → journal_inv (host_history h) j → P j →
  (∀ err h', host_state P h' → host_history h' = host_history h → (err = None → holds j h') →
     wp (f err) Q host_inv h') →
  wp (transaction_write j ≫= f) Q host_inv h.
Proof.
  intros Hh Hj HP Hf. eapply wp_seq; [apply wp_write| |].
  - intros h' H. by eapply host_state_inv, old_or_new_state.
  - intros err h' [H Hd]. apply Hf; [by eapply old_or_new_state|by destruct H|done].
Qed.

(** ** Events *)

Lemma none_yet_cons (f : HostEvent → bool) (e : HostEvent) (history : list HostEvent) :
  none_yet f history → f e = false → none_yet f (e :: history).
Proof. unfold none_yet. destruct e; simpl; intros H1 H2; rewrite ?H2; done. Qed.

Lemma dirty_undone (r : StepRecord) (answer : option (option error)) (history : list HostEvent) :
  dirty (RolledBack r answer :: history) ⊆ dirty history.
Proof. simpl. destruct answer as [[e|]|]; set_solver. Qed.

Lemma dirty_finalized (r : StepRecord) (answer : option (option error)) (history : list HostEvent) :
  dirty (Finalized r answer :: history) ⊆ dirty history.
Proof. simpl. destruct answer as [[e|]|]; set_solver. Qed.

(** An event that makes no step dirty leaves a journal as fit as it was. *)
Lemma journal_inv_event (e : HostEvent) (history : list HostEvent) (j : Journal) :
  journal_inv history j → dirty (e :: history) ⊆ dirty history → (∀ id, issued (e :: history) id = issued history id) →
  (if is_committed j then undoes e = false else finalizes e = false) → journal_inv (e :: history) j.
Proof.
  intros Hj Hd Hi Hp. destruct Hj as [H1 H2 H3 H4 H5 H6]. split; [done..| | |].
  - intros id Hin. apply H4. set_solver.
  - intros r Hr Hs. rewrite Hi. auto.
  - unfold is_committed in Hp. destruct (String.eqb _ _); by apply none_yet_cons.
Qed.

Lemma journal_inv_undo (r : StepRecord) (answer : option (option error)) (history : list HostEvent) (j : Journal) :
  journal_inv history j → is_committed j = false → journal_inv (RolledBack r answer :: history) j.
Proof. intros Hj Hc. apply journal_inv_event; [done|apply dirty_undone|done|by rewrite Hc]. Qed.

Lemma journal_inv_finalize (r : StepRecord) (answer : option (option error)) (history : list HostEvent) (j : Journal) :
  journal_inv history j → is_committed j = true → journal_inv (Finalized r answer :: history) j.
Proof. intros Hj Hc. apply journal_inv_event; [done|apply dirty_finalized|done|by rewrite Hc]. Qed.

(** An event that every journal [P] accepts. *)
Lemma host_state_log (P : Journal → Prop) (e : HostEvent) (h : Host) :
  host_state P h → event_ok e (host_history h) →
  (host_file h = None → dirty (e :: host_history h) = ∅) →
  (∀ j, holds j h → journal_inv (host_history h) j → P j → journal_inv (e :: host_history h) j) →
  host_state P (log e h).
Proof.
  intros [Hd Hh] He Hn Hj. split; [|by split]. unfold on_disk in *. cbn [log host_file host_history].
  destruct (host_file h) as [data|] eqn:Ef; [|auto].
  destruct Hd as (j & Ht & Hi & HP). exists j. split; [done|]. split; [|done]. apply Hj; [by exists data|done|done].
Qed.

Lemma host_open_undo (r : StepRecord) (answer : option (option error)) (h : Host) :
  host_open h → event_ok (RolledBack r answer) (host_history h) → host_open (log (RolledBack r answer) h).
Proof.
  intros Hh He. apply host_state_log; [done|done| |].
  - intros Ef. destruct Hh as [Hd _]. unfold on_disk in Hd. rewrite Ef in Hd.
    pose proof (dirty_undone r answer (host_history h)). set_solver.
  - intros j _ Hj Hc. by apply journal_inv_undo.
Qed.
End safety.

(** * Rolling back a host transaction

    What a change of one record does to the invariant of a journal, and
    [rollback]: it keeps [host_inv] and ends without error only when nothing is left
    to undo and the journal is gone. *)

Section rollback.
Context {Fn : Type} {JJ : JournalJSON} {JL : JournalLaws}.

Notation Prog := (HostProg Fn).
Abbreviation host_inv := (host_state (λ _, True)).
Abbreviation open j := (is_committed j = false).
Abbreviation host_open := (host_state (λ j, is_committed j = false)).

(** ** Steps of a journal *)

Lemma set_step_Steps (i : nat) (f : StepRecord → StepRecord) (j : Journal) :
  j_Steps (set_step i f j) = alter f i (j_Steps j).
Proof. done. Qed.

Lemma forallb_alter {A} (p : A → bool) (f : A → A) (i : nat) (l : list A) :
  forallb p l = true → (∀ a, p a = true → p (f a) = true) → forallb p (alter f i l) = true.
Proof.
  intros Hl Hf. revert i. induction l as [|a l IH]; intros [|i]; simpl in *; [done..| |]; bool_to_prop;
    apply andb_true_iff; split; auto. by apply IH.
Qed.

Lemma set_step_valid (i : nat) (f : StepRecord → StepRecord) (j : Journal) :
  journal_valid j = true → (∀ r, record_valid r = true → record_valid (f r) = true) →
  journal_valid (set_step i f j) = true.
Proof.
  unfold journal_valid. intros H Hf. bool_to_prop. repeat (apply andb_true_iff; split); try done.
  by apply forallb_alter.
Qed.

Lemma set_State_valid (state : string) (r : StepRecord) :
  valid_utf8 state = true → record_valid r = true → record_valid (set_State state r) = true.
Proof. unfold record_valid. intros Hs H. bool_to_prop. simpl. by repeat (apply andb_true_iff; split). Qed.

Lemma set_RollbackHandle_valid (handle : string) (r : StepRecord) :
  valid_utf8 handle = true → record_valid r = true → record_valid (set_RollbackHandle handle r) = true.
Proof. unfold record_valid. intros Hs H. bool_to_prop. simpl. by repeat (apply andb_true_iff; split). Qed.

Lemma set_Phase_valid (phase : string) (j : Journal) :
  valid_utf8 phase = true → journal_valid j = true → journal_valid (set_Phase phase j) = true.
Proof. unfold journal_valid. intros Hs H. bool_to_prop. simpl. rewrite !andb_true_iff. tauto. Qed.

Lemma alter_ids (i : nat) (f : StepRecord → StepRecord) (l : list StepRecord) :
  (∀ r, rec_ID (f r) = rec_ID r) → rec_ID <$> alter f i l = rec_ID <$> l.
Proof.
  intros Hf. revert i. induction l as [|r l IH]; intros [|i]; simpl; f_equal; auto. apply IH.
Qed.

Lemma set_step_ids (i : nat) (f : StepRecord → StepRecord) (j : Journal) :
  (∀ r, rec_ID (f r) = rec_ID r) → rec_ID <$> j_Steps (set_step i f j) = rec_ID <$> j_Steps j.
Proof. apply alter_ids. Qed.

(** A record of the journal after one step changed. *)
Lemma elem_of_set_step (i : nat) (f : StepRecord → StepRecord) (j : Journal) (r : StepRecord) :
  r ∈ j_Steps (set_step i f j) ↔
  (∃ r0, j_Steps j !! i = Some r0 ∧ r = f r0) ∨ (∃ k, k ≠ i ∧ j_Steps j !! k = Some r).
Proof.
  rewrite set_step_Steps, list_elem_of_lookup. split.
  - intros (k & Hk). destruct (decide (k = i)) as [->|Hne].
    + rewrite list_lookup_alter_eq in Hk. left. destruct (j_Steps j !! i) as [r0|]; [|done]. injection Hk as <-. eauto.
    + rewrite list_lookup_alter_ne in Hk by done. right. eauto.
  - intros [(r0 & H & ->)|(k & Hne & H)].
    + exists i. by rewrite list_lookup_alter_eq, H.
    + exists k. by rewrite list_lookup_alter_ne.
Qed.

Lemma ids_injective (l : list StepRecord) (i k : nat) (r r' : StepRecord) :
  NoDup (rec_ID <$> l) → l !! i = Some r → l !! k = Some r' → rec_ID r = rec_ID r' → i = k.
Proof.
  intros Hn Hi Hk E. eapply NoDup_lookup; [exact Hn| |]; rewrite list_lookup_fmap.
  - by rewrite Hi.
  - by rewrite Hk, E.
Qed.

Lemma journal_inv_phase (history : list HostEvent) (phase : string) (j : Journal) :
  journal_inv history j → valid_utf8 phase = true →
  (if String.eqb phase "committed" then none_yet undoes history else none_yet finalizes history) →
  journal_inv history (set_Phase phase j).
Proof. intros [] Hv Hp. split; try done. by apply set_Phase_valid. Qed.

(** The two changes that make a step count as undoable, and the one that takes back a
    mark: the other records stay as they are. *)
Lemma journal_inv_change (history : list HostEvent) (i : nat) (f : StepRecord → StepRecord) (j : Journal) :
  journal_inv history j → (∀ r, rec_ID (f r) = rec_ID r) →
  (∀ r, record_valid r = true → record_valid (f r) = true) →
  (∀ r, j_Steps j !! i = Some r → undoable (f r) = true ∨ (rec_ID r ∉ dirty history)) →
  (∀ r, j_Steps j !! i = Some r → rec_State (f r) = "complete" →
        issued history (rec_ID r) = Some (rec_RollbackHandle (f r))) →
  journal_inv history (set_step i f j).
Proof.
  intros [H1 H2 H3 H4 H5 H6] Hid Hv Hu Hh. split.
  - done.
  - by apply set_step_valid.
  - by rewrite set_step_ids.
  - intros id Hin. destruct (H4 id Hin) as (r & Hr & <- & Hur). apply list_elem_of_lookup in Hr as (k & Hk).
    destruct (decide (k = i)) as [->|Hne].
    + destruct (Hu r Hk) as [Hf|]; [|done]. exists (f r). split; [|done].
      apply elem_of_set_step. left. eauto.
    + exists r. split; [|done]. apply elem_of_set_step. right. eauto.
  - intros r. rewrite elem_of_set_step. intros [(r0 & Hr & ->)|(k & _ & Hk)] Hs.
    + rewrite Hid. by apply Hh.
    + apply H5; [|done]. by eapply list_elem_of_lookup_2.
  - exact H6.
Qed.

(** A step that was undone need not be covered. *)
Lemma journal_inv_rolled_back (history : list HostEvent) (j : Journal) (i : nat) (r : StepRecord) :
  journal_inv history j → open j → j_Steps j !! i = Some r →
  journal_inv (RolledBack r (Some None) :: history) (set_step i (set_State "rolled_back") j).
Proof.
  intros Hj Hc Hr. apply journal_inv_change; [by apply journal_inv_undo|done| | |done].
  - intros r'. by apply set_State_valid.
  - intros r' Hr'. right. simplify_eq. simpl. set_solver.
Qed.

(** ** Rollback *)

(** A journal in memory that a rollback works on. *)
Definition in_hand (h : Host) (j : Journal) : Prop :=
  journal_inv (host_history h) j ∧ open j.

Lemma in_hand_none_yet (h : Host) (j : Journal) : in_hand h j → none_yet finalizes (host_history h).
Proof. unfold in_hand, is_committed. intros [[_ _ _ _ _ H] Hc]. by rewrite Hc in H. Qed.

(** Undoing a record is possible with what the compensation offers. *)
Definition compensated (r : StepRecord) (undo : compensation) : Prop :=
  if String.eqb (rec_State r) "running" then is_Some (comp_running (Fn := Fn) undo)
  else is_Some (comp_complete undo).

Lemma undoable_states (r : StepRecord) : undoable r = true → rec_State r = "running" ∨ rec_State r = "complete".
Proof. unfold undoable. intros H. apply orb_true_iff in H as [H|H]; apply String.eqb_eq in H; auto. Qed.

Lemma undo_allowed (h : Host) (j : Journal) (i : nat) (r : StepRecord) (answer : option (option error)) :
  in_hand h j → j_Steps j !! i = Some r → undoable r = true → event_ok (RolledBack r answer) (host_history h).
Proof.
  intros Hj Hr Hu. split; [by eapply in_hand_none_yet|]. destruct (undoable_states r Hu) as [|Hs]; [by left|right].
  split; [done|]. destruct Hj as [[_ _ _ _ H _] _]. apply H; [|done]. by eapply list_elem_of_lookup_2.
Qed.

Lemma wp_compensate (h : Host) (j : Journal) (i : nat) (r : StepRecord) (undo : compensation) :
  host_open h → in_hand h j → j_Steps j !! i = Some r → undoable r = true → compensated r undo →
  wp (compensate j i undo)
    (λ '(undone, err, j') h', host_open h' ∧ in_hand h' j' ∧ (undone = false → err ≠ None)
       ∧ j' = (if undone : bool then set_step i (set_State "rolled_back") j else j)) host_inv h.
Proof.
  intros Hh Hj Hr Hu Hc. unfold compensate. rewrite Hr. destruct Hj as [Hj Hopen].
  assert (∀ answer, host_open (log (RolledBack r answer) h)) as Hlog.
  { intros answer. apply host_open_undo; [done|]. by eapply undo_allowed. }
  apply (wp_seq _ _ (λ err h', h' = log (RolledBack r (Some err)) h) host_inv); [|done|].
  - unfold compensated in Hc. destruct (String.eqb (rec_State r) "running"); destruct Hc as [f ->].
    all: apply (wp_host _ (λ b, mret b)); [by eapply host_state_inv|done| |].
    1,3: intros h' ->; eapply host_state_inv, Hlog.
    all: intros b h' Hb; simpl in Hb; subst h'; apply wp_done; [eapply host_state_inv, Hlog|done].
  - intros [e|] h' ->.
    { apply wp_done; [eapply host_state_inv, Hlog|]. split; [apply Hlog|]. split; [|done]. split; [|done].
      by apply journal_inv_undo. }
    assert (in_hand (log (RolledBack r (Some None)) h) (set_step i (set_State "rolled_back") j)) as [Hj' Hopen'].
    { split; [by apply journal_inv_rolled_back|done]. }
    eapply wp_write_then; [apply Hlog|exact Hj'|exact Hopen'|].
    intros err h' Hh' E _. apply wp_done; [by eapply host_state_inv|]. split; [done|]. split; [|done].
    split; [by rewrite E|done].
Qed.

(** The indexes still to undo, each undoable and offered a compensation. *)
Definition offered (compensations : nat → option compensation) (j : Journal) (i : nat) : Prop :=
  ∃ r undo, j_Steps j !! i = Some r ∧ undoable r = true ∧ compensations i = Some undo ∧ compensated r undo.

(** Exactly these are left to undo. *)
Definition left_to_undo (compensations : nat → option compensation) (j : Journal) (indexes : list nat) : Prop :=
  NoDup indexes ∧ Forall (offered compensations j) indexes
  ∧ ∀ i r, j_Steps j !! i = Some r → undoable r = true → i ∈ indexes.

Lemma offered_other (compensations : nat → option compensation) (f : StepRecord → StepRecord) (j : Journal) (i k : nat) :
  i ≠ k → offered compensations j k → offered compensations (set_step i f j) k.
Proof.
  intros Hne (r & undo & Hr & H). exists r, undo. split; [|done].
  by rewrite set_step_Steps, list_lookup_alter_ne.
Qed.

Lemma left_to_undo_done (compensations : nat → option compensation) (j : Journal) (failed rest : list nat) (i : nat) :
  left_to_undo compensations j (failed ++ i :: rest) →
  left_to_undo compensations (set_step i (set_State "rolled_back") j) (failed ++ rest).
Proof.
  intros (Hn & Ho & Ha). rewrite NoDup_app, NoDup_cons in Hn. rewrite Forall_forall in Ho. split; [|split].
  - rewrite NoDup_app. set_solver.
  - rewrite Forall_forall. intros k Hk. apply offered_other; [set_solver|]. apply Ho. set_solver.
  - intros k r Hk Hu. rewrite set_step_Steps in Hk. destruct (decide (k = i)) as [->|Hne].
    + rewrite list_lookup_alter_eq in Hk. destruct (j_Steps j !! i); [|done]. by injection Hk as <-.
    + rewrite list_lookup_alter_ne in Hk by done. specialize (Ha k r Hk Hu). set_solver.
Qed.

(** Every failure to undo comes with an error. *)
Definition explained (failed : list nat) (failures : list error) : Prop := failed ≠ [] → failures ≠ [].

Lemma wp_compensate_each (compensations : nat → option compensation) (pending failed : list nat)
    (failures : list error) (h : Host) (j : Journal) :
  host_open h → in_hand h j → left_to_undo compensations j (failed ++ pending) → explained failed failures →
  wp (compensate_each compensations j pending failed failures)
    (λ '(j', failed', failures') h', host_open h' ∧ in_hand h' j' ∧ left_to_undo compensations j' failed'
       ∧ explained failed' failures') host_inv h.
Proof.
  revert h j failed failures. induction pending as [|i rest IH]; intros h j failed failures Hh Hj Hl He; cbn [compensate_each].
  - rewrite app_nil_r in Hl. apply wp_done; [by eapply host_state_inv|done].
  - assert (offered compensations j i) as (r & undo & Hr & Hu & -> & Hc).
    { destruct Hl as (_ & Ho & _). rewrite Forall_forall in Ho. apply Ho. set_solver. }
    eapply wp_seq; [by eapply wp_compensate|done|].
    intros [[undone err] j'] h' (Hh' & Hj' & Herr & ->). destruct undone.
    + apply IH; [done|done|by apply left_to_undo_done|]. intros Hne. specialize (He Hne). by destruct failures.
    + apply IH; [done|done|by rewrite <- app_assoc|]. intros _. destruct err as [e|]; [|by destruct Herr].
      by destruct failures.
Qed.

Lemma wp_attempts (compensations : nat → option compensation) (n : nat) (pending : list nat)
    (failures : list error) (h : Host) (j : Journal) :
  host_open h → in_hand h j → left_to_undo compensations j pending → (n = 0%nat → explained pending failures) →
  wp (attempts compensations n j pending failures)
    (λ '(j', pending', failures') h', host_open h' ∧ in_hand h' j' ∧ left_to_undo compensations j' pending'
       ∧ explained pending' failures') host_inv h.
Proof.
  revert h j pending failures. induction n as [|n IH]; intros h j pending failures Hh Hj Hl He;
    (destruct pending as [|i pending]; [apply wp_done; [by eapply host_state_inv|by unfold explained]|]);
    [apply wp_done; [by eapply host_state_inv|auto]|].
  eapply (wp_seq _ _ _ host_inv); [apply wp_compensate_each; [done..|by unfold explained]|done|].
  intros [[j' failed] errs] h' (Hh' & Hj' & Hl' & He'). by apply IH.
Qed.

Lemma rollback_pending_left (compensations : nat → option compensation) (j : Journal) :
  (∀ i r, j_Steps j !! i = Some r → undoable r = true → offered compensations j i) →
  left_to_undo compensations j (rollback_pending j).
Proof.
  intros Ho. unfold rollback_pending. split; [|split].
  - apply NoDup_ListNoDup, List.NoDup_filter, NoDup_ListNoDup. apply NoDup_ListNoDup, List.NoDup_rev, NoDup_ListNoDup, NoDup_seq.
  - rewrite Forall_forall. intros i. rewrite list_elem_of_In, List.filter_In. intros [_ Hi].
    destruct (j_Steps j !! i) as [r|] eqn:Hr; [|done]. by eapply Ho.
  - intros i r Hr Hu. rewrite list_elem_of_In, List.filter_In, Hr. split; [|done].
    rewrite <- in_rev, in_seq. apply lookup_lt_Some in Hr. lia.
Qed.

(** Removing the journal when nothing is left to undo. *)
Lemma wp_clear (h : Host) :
  host_inv h → dirty (host_history h) = ∅ →
  wp (transaction_clear : Prog _)
    (λ err h', host_inv h' ∧ host_history h' = host_history h ∧ (err = None → host_file h' = None)) host_inv h.
Proof.
  intros Hh Hd. assert (host_inv (set_file None h)) as Hn by (split; [exact Hd|apply Hh]).
  apply wp_host; [done|done|done|]. intros removed h' [[-> ->]|(e & -> & [-> | ->])]; by apply wp_done.
Qed.

Lemma in_hand_clean (compensations : nat → option compensation) (h : Host) (j : Journal) :
  in_hand h j → left_to_undo compensations j [] → dirty (host_history h) = ∅.
Proof.
  intros [[_ _ _ Hc _ _] _] (_ & _ & Ha). apply elem_of_equiv_empty_L. intros id Hid.
  destruct (Hc id Hid) as (r & Hr & _ & Hu). apply list_elem_of_lookup in Hr as (i & Hi).
  specialize (Ha i r Hi Hu). set_solver.
Qed.

(** [rollback] keeps the invariant, and leaves no journal when it reports no failure. *)
Lemma wp_rollback (h : Host) (j : Journal) (compensations : nat → option compensation) (cause : option error) :
  host_open h → in_hand h j →
  (∀ i r, j_Steps j !! i = Some r → undoable r = true → offered compensations j i) →
  wp (rollback j compensations cause) (λ err h', host_inv h' ∧ (err = None → host_file h' = None)) host_inv h.
Proof.
  intros Hh Hj Ho. unfold rollback.
  assert (∀ h' phase j', in_hand h' j' → valid_utf8 phase = true → String.eqb phase "committed" = false →
            in_hand h' (set_Phase phase j')) as Hphase.
  { intros h' phase j' Hj' Hv Hc. split; [|done]. apply journal_inv_phase; [apply Hj'|done|].
    rewrite Hc. by eapply in_hand_none_yet. }
  destruct (Hphase h "rolling_back" j Hj) as [Hr1 Hr2]; [done|done|].
  eapply wp_write_then; [exact Hh|exact Hr1|exact Hr2|]. intros _ h1 Hh1 E1 _.
  eapply (wp_seq _ _ _ host_inv).
  - apply wp_attempts; [done|split; [by rewrite E1|done]| |done]. by apply rollback_pending_left.
  - done.
  - intros [[j2 pending] failures] h2 (Hh2 & Hj2 & Hl & Hx).
    destruct (Hphase h2 "recovery_required" j2 Hj2) as [Hq1 Hq2]; [done|done|].
    assert (failures ≠ [] → wp (_ ← transaction_write (set_Phase "recovery_required" j2);
                mret (errors_Join_all (cause :: (Some <$> failures))) : Prog _)
              (λ err h', host_inv h' ∧ (err = None → host_file h' = None)) host_inv h2) as Hrest.
    { intros Hne. eapply wp_write_then; [exact Hh2|exact Hq1|exact Hq2|]. intros _ h3 Hh3 E3 _.
      apply wp_done; [by eapply host_state_inv|]. split; [by eapply host_state_inv|].
      destruct failures; [done|]. by destruct cause. }
    destruct pending as [|i pending]; [destruct failures as [|e failures]|]; [|by apply Hrest|by apply Hrest, Hx].
    eapply wp_seq; [apply wp_clear; [by eapply host_state_inv|by eapply in_hand_clean]|done|].
    intros err h3 (Hh3 & _ & Hf). apply wp_done; [done|]. split; [done|]. intros He. apply Hf.
    unfold errors_Join_all in He. destruct err as [e|]; [|done]. by destruct cause.
Qed.
End rollback.
