(* ===== verification/TransactionInvariant.v ===== *)
(** * The invariant of host transactions

    [Run], [Finalize] and [Recover] keep [host_inv] through every failure and
    crash, and what follows for the hosts they leave. *)

From S2P Require Export TransactionSafety.

Local Open Scope Z_scope.

Section invariant.
Context {Fn : Type} {JJ : JournalJSON} {JL : JournalLaws}.

Notation Prog := (HostProg Fn).
Abbreviation host_inv := (host_state (λ _, True)).
Abbreviation open j := (is_committed j = false).
Abbreviation committed j := (is_committed j = true).
Abbreviation host_open := (host_state (λ j, is_committed j = false)).
Abbreviation host_closed := (host_state (λ j, is_committed j = true)).

(** Reading gives the journal on disk. *)
Lemma wp_read_then {X} (f : result error (option Journal) → Prog X) (Q : X → Host → Prop) (h : Host) :
  host_inv h → (∀ e, wp (f (Err e)) Q host_inv h) →
  (host_file h = None → wp (f (Ok None)) Q host_inv h) →
  (∀ j, holds j h → journal_inv (host_history h) j → wp (f (Ok (Some j))) Q host_inv h) →
  wp (transaction_read ≫= f) Q host_inv h.
Proof.
  intros Hh He Hn Hj. apply wp_bind. apply wp_host; [done|done|done|].
  intros content h' [-> Hc]. apply wp_done; [done|].
  destruct content as [[data|]|e]; [|by apply Hn; rewrite <- (Hc _ eq_refl)|done].
  pose proof (Hc _ eq_refl) as Hf. destruct Hh as [Hd _]. unfold on_disk in Hd. rewrite <- Hf in Hd.
  destruct Hd as (j & Ht & Hi & _). unfold journal_parse.
  rewrite (journal_decode j data) by (done || by destruct Hi).
  destruct (inv_api _ _ Hi). rewrite String.eqb_refl. apply Hj; [by exists data|done].
Qed.

(** ** [Finalize] *)

Lemma holds_state (P : Journal → Prop) (j : Journal) (h : Host) :
  host_inv h → holds j h → journal_inv (host_history h) j → P j → host_state P h.
Proof.
  intros [_ Hh] (data & Ht & Hf) Hj HP. split; [|done]. unfold on_disk. rewrite Hf. eauto.
Qed.

Lemma host_closed_finalize (r : StepRecord) (answer : option (option error)) (h : Host) :
  host_closed h → event_ok (Finalized r answer) (host_history h) → host_closed (log (Finalized r answer) h).
Proof.
  intros Hh He. apply host_state_log; [done|done| |].
  - intros Ef. destruct Hh as [Hd _]. unfold on_disk in Hd. rewrite Ef in Hd.
    pose proof (dirty_finalized r answer (host_history h)). set_solver.
  - intros j _ Hj Hc. by apply journal_inv_finalize.
Qed.

(** A journal in memory of a committed transaction, finalized before [index]. *)
Definition finalizing (h : Host) (j : Journal) (index : nat) (records : list StepRecord) : Prop :=
  journal_inv (host_history h) j ∧ committed j ∧ drop index (j_Steps j) = records
  ∧ Forall (λ r, rec_State r = "finalized") (take index (j_Steps j)).

Lemma finalizing_next (h : Host) (j : Journal) (index : nat) (r : StepRecord) (rest : list StepRecord) :
  finalizing h j index (r :: rest) → j_Steps j !! index = Some r ∧ drop (S index) (j_Steps j) = rest.
Proof.
  intros (_ & _ & Hd & _).
  assert (j_Steps j !! index = Some r) as Hr by (rewrite <- (Nat.add_0_r index), <- lookup_drop, Hd; done).
  split; [done|]. apply drop_S in Hr. congruence.
Qed.

Lemma finalizing_skip (h : Host) (j : Journal) (index : nat) (r : StepRecord) (rest : list StepRecord) :
  finalizing h j index (r :: rest) → rec_State r = "finalized" → finalizing h j (S index) rest.
Proof.
  intros Hf Hs. destruct (finalizing_next _ _ _ _ _ Hf) as [Hr Hd]. destruct Hf as (Hj & Hc & _ & Ht).
  split; [done|]. split; [done|]. split; [done|]. rewrite (take_S_r _ _ _ Hr).
  apply Forall_app. split; [done|]. by constructor.
Qed.

Lemma finalizing_step (h : Host) (j : Journal) (index : nat) (r : StepRecord) (rest : list StepRecord) :
  finalizing h j index (r :: rest) →
  finalizing (log (Finalized r (Some None)) h) (set_step index (set_State "finalized") j) (S index) rest.
Proof.
  intros Hf. destruct (finalizing_next _ _ _ _ _ Hf) as [Hr Hd]. destruct Hf as (Hj & Hc & _ & Ht).
  split; [|split; [done|]].
  - apply journal_inv_change; [by apply journal_inv_finalize|done| | |done].
    + intros r'. by apply set_State_valid.
    + intros r' Hr'. right. simplify_eq. simpl. set_solver.
  - rewrite set_step_Steps. split; [by rewrite drop_alter_lt by lia|].
    assert (alter (set_State "finalized") index (j_Steps j) !! index = Some (set_State "finalized" r)) as Ha
      by by rewrite list_lookup_alter_eq, Hr.
    rewrite (take_S_r _ _ _ Ha). apply Forall_app. split; [|by constructor].
    by rewrite take_alter_ge by lia.
Qed.

(** The next finalizer is that of a complete step of the journal on disk. *)
Lemma finalizing_call (h : Host) (j : Journal) (index : nat) (r : StepRecord) (rest : list StepRecord) :
  holds j h → finalizing h j index (r :: rest) → rec_State r = "complete" → finalizable r h.
Proof.
  intros (data & Hd & Hf) Hfin Hs. destruct (finalizing_next _ _ _ _ _ Hfin) as [Hr _].
  destruct Hfin as ([Hapi Hv _ _ _ _] & Hc & _). exists data, j. apply String.eqb_eq in Hc.
  split_and!; try done. by eapply list_elem_of_lookup_2.
Qed.

Lemma wp_finalize_each (handlers : string → option Fn) (records : list StepRecord) (h : Host) (j : Journal) (index : nat) :
  host_closed h → holds j h → finalizing h j index records →
  wp (finalize_each handlers j index records) (λ err h', host_inv h' ∧ (err = None → host_file h' = None)) host_inv h.
Proof.
  revert h j index. induction records as [|r rest IH]; intros h j index Hh Hd0 Hf; cbn [finalize_each].
  - destruct Hf as ([_ _ _ Hc _ _] & _ & Hd & Ht).
    assert (dirty (host_history h) = ∅) as Hclean.
    { apply elem_of_equiv_empty_L. intros id Hid. destruct (Hc id Hid) as (r & Hr & _ & Hu).
      rewrite <- (take_drop index), Hd, app_nil_r in Hr. rewrite Forall_forall in Ht.
      destruct (undoable_states r Hu); rewrite (Ht r Hr) in *; done. }
    eapply wp_mono; [apply wp_clear; [by eapply host_state_inv|done]| |done]. simpl. naive_solver.
  - assert (host_inv h) as Hi by by eapply host_state_inv.
    assert (∀ e : error, wp (mret (Some e) : Prog _) (λ err h', host_inv h' ∧ (err = None → host_file h' = None)) host_inv h)
      as Hstop by (intros e; by apply wp_done).
    destruct (String.eqb_spec (rec_State r) "finalized") as [Hs|_].
    { apply IH; [done|done|]. by eapply finalizing_skip. }
    destruct (String.eqb_spec (rec_State r) "complete") as [Hs|_]; cbn [negb]; [|apply Hstop].
    destruct (handlers (rec_Kind r)) as [f|]; [|apply Hstop].
    assert (∀ answer, host_closed (log (Finalized r answer) h)) as Hlog.
    { intros answer. apply host_closed_finalize; [done|].
      destruct (finalizing_next _ _ _ _ _ Hf) as [Hr _]. destruct Hf as ([_ _ _ _ Hhandles Hp] & Hc & _).
      unfold is_committed in Hc. rewrite Hc in Hp. split; [done|]. apply Hhandles; [|done].
      by eapply list_elem_of_lookup_2. }
    apply wp_host; [done|by eapply finalizing_call| |].
    { intros h' ->. eapply host_state_inv, Hlog. }
    intros err h' Hh'. simpl in Hh'. subst h'. apply wp_on_error; intros; subst.
    { apply wp_done; [eapply host_state_inv, Hlog|]. split; [eapply host_state_inv, Hlog|done]. }
    pose proof (finalizing_step _ _ _ _ _ Hf) as Hf'. destruct Hf' as (Hj' & Hc' & Hd').
    eapply wp_write_then; [apply Hlog|exact Hj'|exact Hc'|].
    intros err h' Hh' E Hd0'. apply wp_on_error; intros; subst.
    { apply wp_done; [by eapply host_state_inv|]. split; [by eapply host_state_inv|done]. }
    apply IH; [done|by apply Hd0'|]. split; [by rewrite E|done].
Qed.

Lemma wp_Finalize (handlers : string → option Fn) (h : Host) :
  host_inv h → wp (Finalize handlers) (λ _ h', host_inv h') host_inv h.
Proof.
  intros Hh. apply wp_read_then; [done| | |]; intros; try by apply wp_done.
  destruct (String.eqb (j_Phase j) "committed") eqn:Hc; cbn [negb]; [|by apply wp_done].
  eapply wp_mono; [apply (wp_finalize_each handlers _ h j 0)| |done].
  - by eapply (holds_state _ j).
  - done.
  - unfold finalizing. by rewrite drop_0, take_0.
  - by intros x h' [].
Qed.

(** ** [Recover] *)

(** The compensations found so far fit the records before [index]. *)
Lemma recover_each_inl (handlers : string → option Fn) (j : Journal) (records : list StepRecord) (index : nat)
    (found compensations : nat → option compensation) :
  recover_each handlers j index records found = inl compensations →
  (∀ i, (i < index)%nat → compensations i = found i)
  ∧ ∀ i r, records !! i = Some r → undoable r = true →
      ∃ undo, compensations (index + i)%nat = Some undo ∧ compensated r undo.
Proof.
  revert index found. induction records as [|r rest IH]; intros index found; cbn [recover_each].
  - intros [= <-]. by split.
  - assert (∀ undo, (undoable r = true → compensated r undo) →
      recover_each handlers j (S index) rest (λ i, if (i =? index)%nat then Some undo else found i)
        = inl compensations →
      (∀ i, (i < index)%nat → compensations i = found i)
      ∧ ∀ i r', (r :: rest) !! i = Some r' → undoable r' = true →
          ∃ undo, compensations (index + i)%nat = Some undo ∧ compensated r' undo) as Hnext.
    { intros undo Hu H. destruct (IH _ _ H) as [H1 H2]. split.
      - intros i Hi. rewrite H1 by lia. destruct (Nat.eqb_spec i index); [lia|done].
      - intros [|i] r'; simpl.
        + intros [= <-] Hur. exists undo. rewrite Nat.add_0_r, H1, Nat.eqb_refl by lia. auto.
        + intros Hi Hur. rewrite <- Nat.add_succ_comm. eauto. }
    unfold compensated, undoable in *.
    destruct (String.eqb (rec_State r) "running") eqn:Er; [|destruct (String.eqb (rec_State r) "complete") eqn:Ec].
    + destruct (handlers _) as [f|]; [|done]. apply Hnext. intros _. by eexists.
    + destruct (handlers _) as [f|]; [|done]. apply Hnext. intros _. by eexists.
    + intros H. destruct (IH _ _ H) as [H1 H2]. split; [intros; apply H1; lia|].
      intros [|i] r'; simpl; [intros [= <-]; by rewrite Er, Ec|]. rewrite <- Nat.add_succ_comm. eauto.
Qed.

(** An early end writes that recovery is required, and reports it. *)
Lemma recover_each_inr (handlers : string → option Fn) (j : Journal) (records : list StepRecord) (index : nat)
    (found : nat → option compensation) (ended : Prog (option error)) (h : Host) :
  recover_each handlers j index records found = inr ended → host_open h → in_hand h j →
  wp ended (λ err h', host_inv h' ∧ err ≠ None) host_inv h.
Proof.
  intros H Hh [Hj Hc].
  assert (journal_inv (host_history h) (set_Phase "recovery_required" j)) as Hj'.
  { apply journal_inv_phase; [done|done|]. by eapply in_hand_none_yet. }
  revert index found H. induction records as [|r rest IH]; intros index found; cbn [recover_each]; [done|].
  destruct (String.eqb (rec_State r) "running"); [|destruct (String.eqb (rec_State r) "complete")]; [| |apply IH];
    (destruct (handlers _) as [f|]; [apply IH|]; intros [= <-]; eapply wp_write_then; [exact Hh|exact Hj'|done|]);
    intros err h' Hh' E _; apply host_state_inv in Hh'; [apply wp_on_error; intros|]; by apply wp_done.
Qed.

Lemma wp_Recover (handlers : string → option Fn) (h : Host) :
  host_inv h → wp (Recover handlers) (λ err h', host_inv h' ∧ (err = None → host_file h' = None)) host_inv h.
Proof.
  intros Hh. apply wp_read_then; [done| | |]; intros; try by apply wp_done.
  destruct (String.eqb (j_Phase j) "committed") eqn:Hc; [by apply wp_done|].
  assert (host_open h) as Ho by by eapply (holds_state _ j).
  destruct (recover_each handlers j 0 (j_Steps j) no_compensations) as [compensations|ended] eqn:Er.
  - apply wp_rollback; [done|done|]. intros i r Hi Hu. destruct (recover_each_inl _ _ _ _ _ _ Er) as [_ H'].
    destruct (H' i r Hi Hu) as (undo & Hundo & Hcomp). by exists r, undo.
  - eapply wp_mono; [by eapply recover_each_inr| |done]. simpl. naive_solver.
Qed.

(** ** [Run] *)

Definition callable (step : TransactionStep Fn) : Prop :=
  is_Some (step_Apply step) ∧ is_Some (step_Rollback step) ∧ is_Some (step_RollbackRunning step).

Lemma validate_each_ok (steps : list (TransactionStep Fn)) (ids : list string) :
  validate_each steps ids = None → NoDup ids → NoDup (ids ++ (step_ID <$> steps)) ∧ Forall callable steps.
Proof.
  revert ids. induction steps as [|step rest IH]; intros ids; simpl; [by rewrite app_nil_r|].
  destruct (step_invalid step ids) eqn:E; [done|]. unfold step_invalid in E. bool_to_prop. intros Hv Hn.
  assert (step_ID step ∉ ids) as Hi by done.
  destruct (IH _ Hv) as [Hall Hc].
  - rewrite NoDup_app. split; [done|]. split; [set_solver|apply NoDup_singleton].
  - rewrite <- app_assoc in Hall. split; [done|]. by constructor.
Qed.

(** A transaction between two steps: [steps] are left, nothing was undone. *)
Record applying (h : Host) (all : list (TransactionStep Fn)) (j : Journal) (index : nat)
    (steps : list (TransactionStep Fn)) : Prop := {
  applying_hand : in_hand h j;
  applying_kept : none_yet undoes (host_history h);
  applying_left : drop index all = steps;
  applying_ids : rec_ID <$> j_Steps j = step_ID <$> all;
  applying_callable : Forall callable all;
  applying_fresh : ∀ step, step ∈ steps → none_yet (applies (step_ID step)) (host_history h);
  applying_pending : ∀ i r, (index ≤ i)%nat → j_Steps j !! i = Some r → rec_State r = "pending"
}.

Lemma steps_offered (all : list (TransactionStep Fn)) (j : Journal) :
  rec_ID <$> j_Steps j = step_ID <$> all → Forall callable all →
  ∀ i r, j_Steps j !! i = Some r → undoable r = true → offered (stepCompensations all) j i.
Proof.
  intros Hids Hc i r Hr Hu. assert (is_Some (all !! i)) as [step Hs].
  { apply lookup_lt_is_Some. apply lookup_lt_Some in Hr. apply (f_equal length) in Hids.
    rewrite !length_fmap in Hids. lia. }
  destruct (Forall_lookup_1 _ _ _ _ Hc Hs) as (_ & H1 & H2). unfold stepCompensations.
  exists r. eexists. split; [done|]. split; [done|]. rewrite Hs. split; [done|]. unfold compensated. simpl.
  destruct (String.eqb _ _); [|done]. by destruct H2 as [? ->].
Qed.

(** The next step, its record, and why the step is not dirty. *)
Lemma applying_next (h : Host) (all : list (TransactionStep Fn)) (j : Journal) (index : nat)
    (step : TransactionStep Fn) (rest : list (TransactionStep Fn)) :
  applying h all j index (step :: rest) →
  ∃ r, j_Steps j !! index = Some r ∧ rec_ID r = step_ID step ∧ drop (S index) all = rest
       ∧ callable step ∧ rec_ID r ∉ dirty (host_history h) ∧ step_ID step ∉ step_ID <$> rest.
Proof.
  intros [[Hj Hc] _ Hd Hids Hcall _ Hp].
  assert (all !! index = Some step) as Hs by (rewrite <- (Nat.add_0_r index), <- lookup_drop, Hd; done).
  assert (∃ r, j_Steps j !! index = Some r ∧ rec_ID r = step_ID step) as (r & Hr & Hid).
  { assert ((rec_ID <$> j_Steps j) !! index = Some (step_ID step)) as H by (rewrite Hids, list_lookup_fmap, Hs; done).
    rewrite list_lookup_fmap in H. destruct (j_Steps j !! index) as [r|]; [|done]. exists r. split; [done|].
    by injection H. }
  exists r. split; [done|]. split; [done|]. split; [apply drop_S in Hs; congruence|].
  split; [by eapply Forall_lookup_1|]. split.
  - intros Hin. destruct (inv_covers _ _ Hj _ Hin) as (r' & Hr' & Hid' & Hu).
    apply list_elem_of_lookup in Hr' as (k & Hk).
    assert (k = index) as -> by (eapply ids_injective; [apply Hj|done|done|done]).
    rewrite Hr in Hk. injection Hk as <-. specialize (Hp index r (Nat.le_refl _) Hr).
    unfold undoable in Hu. by rewrite Hp in Hu.
  - pose proof (inv_ids _ _ Hj) as Hn. rewrite Hids in Hn. rewrite <- (take_drop index all), Hd, fmap_app in Hn.
    rewrite NoDup_app in Hn. destruct Hn as (_ & _ & Hn). by inversion Hn.
Qed.

Lemma set_step_twice (i : nat) (f g : StepRecord → StepRecord) (j : Journal) :
  set_step i g (set_step i f j) = set_step i (g ∘ f) j.
Proof.
  unfold set_step. simpl. f_equal. revert i. induction (j_Steps j) as [|r l IH]; intros [|i]; simpl; try done.
  f_equal. apply IH.
Qed.

(** An applied step is covered by its running record. *)
Lemma journal_inv_applied (history : list HostEvent) (j : Journal) (i : nat) (r : StepRecord)
    (answer : option (result error string)) :
  journal_inv history j → j_Steps j !! i = Some r → rec_State r = "running" →
  journal_inv (Applied (rec_ID r) answer :: history) j.
Proof.
  intros [H1 H2 H3 H4 H5 H6] Hr Hs. split; try done.
  - intros id. simpl. rewrite elem_of_union, elem_of_singleton. intros [->|Hin]; [|by apply H4].
    exists r. split; [by eapply list_elem_of_lookup_2|]. split; [done|]. unfold undoable. by rewrite Hs.
  - intros r' Hr' Hs'. simpl. destruct (String.eqb_spec (rec_ID r) (rec_ID r')) as [E|_]; [|by apply H5].
    apply list_elem_of_lookup in Hr' as (k & Hk). assert (k = i) as -> by (symmetry; by eapply ids_injective).
    rewrite Hr in Hk. injection Hk as <-. by rewrite Hs in Hs'.
Qed.

Lemma holds_inj (j j' : Journal) (h : Host) :
  holds j h → holds j' h → journal_valid j = true → journal_valid j' = true → j = j'.
Proof.
  intros (d & Hd & Hf) (d' & Hd' & Hf') Hv Hv'. rewrite Hf in Hf'. injection Hf' as <-.
  apply journal_decode in Hd, Hd'; [|done..]. congruence.
Qed.

Lemma wp_rollback_inv (h : Host) (all : list (TransactionStep Fn)) (j : Journal) (cause : option error) :
  host_open h → in_hand h j → rec_ID <$> j_Steps j = step_ID <$> all → Forall callable all →
  wp (rollback j (stepCompensations all) cause) (λ _ h', host_inv h') host_inv h.
Proof.
  intros Hh Hj Hids Hc. eapply wp_mono; [apply wp_rollback; [done|done|by apply steps_offered]| |done].
  by intros x h' [].
Qed.

(** The journal in memory is marked running, applied with an error, or complete. *)
Lemma applying_running (h : Host) (all : list (TransactionStep Fn)) (j : Journal) (index : nat)
    (step : TransactionStep Fn) (rest : list (TransactionStep Fn)) :
  applying h all j index (step :: rest) → in_hand h (set_step index (set_State "running") j).
Proof.
  intros [[Hj Hc] _ _ _ _ _ _]. split; [|done]. apply journal_inv_change; [done|done| |by left|done].
  intros r. by apply set_State_valid.
Qed.

Lemma applying_unmarked (h : Host) (all : list (TransactionStep Fn)) (j : Journal) (index : nat)
    (step : TransactionStep Fn) (rest : list (TransactionStep Fn)) :
  applying h all j index (step :: rest) →
  in_hand h (set_step index (set_State "pending") (set_step index (set_State "running") j)).
Proof.
  intros Ha. destruct (applying_next _ _ _ _ _ _ Ha) as (r & Hr & _ & _ & _ & Hclean & _).
  destruct Ha as [[Hj Hc] _ _ _ _ _ _]. split; [|done]. rewrite set_step_twice.
  apply journal_inv_change; [done|done| | |done].
  - intros r' Hv. by apply set_State_valid, set_State_valid.
  - intros r' Hr'. right. by simplify_eq.
Qed.

Lemma applying_applied (h : Host) (all : list (TransactionStep Fn)) (j : Journal) (index : nat)
    (step : TransactionStep Fn) (rest : list (TransactionStep Fn)) (answer : option (result error string)) :
  applying h all j index (step :: rest) → host_open h → holds (set_step index (set_State "running") j) h →
  host_open (log (Applied (step_ID step) answer) h)
  ∧ in_hand (log (Applied (step_ID step) answer) h) (set_step index (set_State "running") j).
Proof.
  intros Ha Hh Hd. pose proof (applying_running _ _ _ _ _ _ Ha) as [Hj' Hc'].
  destruct (applying_next _ _ _ _ _ _ Ha) as (r & Hr & Hid & _).
  destruct Ha as [Hin Hkept _ _ _ Hfresh _].
  assert (journal_inv (Applied (step_ID step) answer :: host_history h) (set_step index (set_State "running") j))
    as Happ.
  { rewrite <- Hid. change (rec_ID r) with (rec_ID (set_State "running" r)).
    eapply (journal_inv_applied _ _ index); [done| |done]. by rewrite set_step_Steps, list_lookup_alter_eq, Hr. }
  split; [|by split]. apply host_state_log; [done| | |].
  - split; [done|]. split; [by eapply in_hand_none_yet|]. apply Hfresh. by left.
  - intros E. destruct Hd as (d & _ & Hd). congruence.
  - intros j' Hd' Hj'' _. assert (j' = set_step index (set_State "running") j) as ->; [|done].
    eapply holds_inj; [done|done|apply Hj''|apply Hj'].
Qed.

Lemma applying_complete (h h' : Host) (all : list (TransactionStep Fn)) (j : Journal) (index : nat)
    (step : TransactionStep Fn) (rest : list (TransactionStep Fn)) (handle : string) :
  applying h all j index (step :: rest) → valid_utf8 handle = true →
  host_history h' = Applied (step_ID step) (Some (Ok handle)) :: host_history h →
  journal_inv (host_history h') (set_step index (set_State "running") j) →
  applying h' all
    (set_step index (set_RollbackHandle handle) (set_step index (set_State "complete")
       (set_step index (set_State "running") j))) (S index) rest.
Proof.
  intros Ha Hv E Hj'. destruct (applying_next _ _ _ _ _ _ Ha) as (r & Hr & Hid & Hrest & Hcall & _ & Hnew).
  destruct Ha as [[Hj Hc] Hkept Hd Hids Hcallable Hfresh Hp]. split; try done.
  - split; [|done]. rewrite (set_step_twice _ (set_State "complete")). apply journal_inv_change; [done|done| | |].
    + intros r' Hr'. by apply set_RollbackHandle_valid, set_State_valid.
    + by left.
    + intros r' Hr' _. rewrite E. rewrite set_step_Steps, list_lookup_alter_eq, Hr in Hr'. injection Hr' as <-.
      simpl. by rewrite Hid, String.eqb_refl.
  - rewrite E. by apply none_yet_cons.
  - by rewrite !set_step_ids.
  - intros step' Hs'. rewrite E. apply none_yet_cons; [apply Hfresh; by right|]. simpl. apply String.eqb_neq.
    intros Heq. apply Hnew. rewrite Heq. by apply list_elem_of_fmap_2.
  - intros i r' Hi. rewrite !set_step_Steps, !list_lookup_alter_ne by lia. apply Hp. lia.
Qed.

Lemma wp_run_steps (all steps : list (TransactionStep Fn)) (h : Host) (j : Journal) (index : nat) :
  host_open h → applying h all j index steps →
  wp (run_steps all j index steps) (λ _ h', host_inv h') host_inv h.
Proof.
  revert h j index. induction steps as [|step rest IH]; intros h j index Hh Ha; cbn [run_steps].
  - destruct Ha as [[Hj Hc] Hkept _ _ _ _ _].
    assert (journal_inv (host_history h) (set_Phase "committed" j)) as Hj' by by apply journal_inv_phase.
    apply host_state_inv in Hh. eapply wp_mono; [apply wp_write| |].
    + intros err h' [Hn _]. by eapply old_or_new_state.
    + intros h' Hn. by eapply old_or_new_state.
  - pose proof (applying_running _ _ _ _ _ _ Ha) as [Hj1 Hc1].
    eapply wp_write_then; [exact Hh|exact Hj1|exact Hc1|]. intros err h1 Hh1 E1 Hd1.
    assert (applying h1 all j index (step :: rest)) as Ha1 by (destruct Ha; split; rewrite ?E1; done || unfold in_hand; by rewrite E1).
    pose proof (applying_ids _ _ _ _ _ Ha1) as Hids. pose proof (applying_callable _ _ _ _ _ Ha1) as Hcall.
    apply wp_on_error.
    { intros e ->. apply wp_rollback_inv; [done|by eapply applying_unmarked|by rewrite !set_step_ids|done]. }
    intros ->. specialize (Hd1 eq_refl).
    destruct (applying_next _ _ _ _ _ _ Ha1) as (_ & _ & _ & _ & [[f Hf] _] & _). rewrite Hf.
    assert (∀ answer, host_open (log (Applied (step_ID step) answer) h1)
      ∧ in_hand (log (Applied (step_ID step) answer) h1) (set_step index (set_State "running") j)) as Happ
      by (intros; by eapply applying_applied).
    apply wp_host; [by eapply host_state_inv|done| |].
    { intros h2 ->. eapply host_state_inv, Happ. }
    intros answer h2 [-> Hv]. destruct (Happ (Some answer)) as [Hh2 [Hj2 Hc2]].
    destruct answer as [handle|applyErr].
    + specialize (Hv handle eq_refl).
      pose proof (applying_complete _ (log (Applied (step_ID step) (Some (Ok handle))) h1) _ _ _ _ _ handle Ha1 Hv eq_refl Hj2) as Ha3.
      destruct (applying_hand _ _ _ _ _ Ha3) as [Hj3 Hc3].
      eapply wp_write_then; [exact Hh2|exact Hj3|exact Hc3|]. intros err h3 Hh3 E3 _.
      assert (applying h3 all (set_step index (set_RollbackHandle handle) (set_step index (set_State "complete")
               (set_step index (set_State "running") j))) (S index) rest) as Ha4
        by (destruct Ha3; split; rewrite ?E3; done || unfold in_hand; by rewrite E3).
      apply wp_on_error.
      * intros e ->. apply wp_rollback_inv; [done|apply Ha4|apply Ha4|done].
      * intros ->. by apply IH.
    + assert (journal_inv (host_history (log (Applied (step_ID step) (Some (Err applyErr))) h1))
                (set_Phase "rolling_back" (set_step index (set_State "running") j))) as Hj3.
      { apply journal_inv_phase; [done|done|]. by eapply in_hand_none_yet. }
      eapply wp_write_then; [exact Hh2|exact Hj3|done|]. intros err h3 Hh3 E3 _. apply wp_on_error; intros; subst.
      * apply wp_done; by eapply host_state_inv.
      * apply wp_rollback_inv; [done|split; [by rewrite E3|done]| |done].
        change (rec_ID <$> j_Steps (set_step index (set_State "running") j) = step_ID <$> all). by rewrite set_step_ids.
Qed.
End invariant.
