(* ===== verification/TransactionTheorems.v ===== *)
(** * Theorems about host transactions

    What an administrator can rely on: the journal on disk is written ahead of every
    effect, a step is never both undone and finalized, an undo gets the handle the
    step returned, what a program that returns nil has done, and when recovery
    succeeds. *)

From S2P Require Export TransactionInvariant.
From Stdlib Require Import Ascii.

Local Open Scope Z_scope.

Section theorems.
Context {Fn : Type} {JJ : JournalJSON} {JL : JournalLaws}.

Notation Prog := (HostProg Fn).
Abbreviation host_inv := (host_state (λ _, True)).
Abbreviation host_open := (host_state (λ j, is_committed j = false)).

(** ** Every start keeps the invariant *)

Lemma nibble_ascii (d : Z) : 0 <= d < 16 → byte_of (nibble d) < 128.
Proof.
  intros Hd. apply Z.ltb_lt. apply (check_below 16 (λ d, byte_of (nibble d) <? 128)); [by vm_compute|lia].
Qed.

Lemma valid_utf8_ascii (c : ascii) (s : string) :
  byte_of c < 128 → valid_utf8 s = true → valid_utf8 (String c s) = true.
Proof. intros Hc Hs. unfold valid_utf8. by rewrite segments_ascii. Qed.

Lemma hex_valid (bytes : list Z) :
  Forall (λ x, 0 <= x < 256) bytes → valid_utf8 (hex_EncodeToString bytes) = true.
Proof.
  induction 1 as [|b bytes Hb _ IH]; [done|]. simpl.
  do 2 (apply valid_utf8_ascii; [apply nibble_ascii; Z.to_euclidean_division_equations; lia|]). done.
Qed.

Lemma pending_none (steps : list (TransactionStep Fn)) (r : StepRecord) :
  r ∈ (pending_record <$> steps) → rec_State r = "pending".
Proof. intros Hr. apply list_elem_of_fmap in Hr as (step & -> & _). done. Qed.

(** The first journal of a transaction. *)
Lemma first_journal_inv (history : list HostEvent) (now : Time) (id deploymentDigest planDigest candidate previous : string)
    (steps : list (TransactionStep Fn)) :
  dirty history = ∅ → valid_utf8 id = true →
  forallb valid_utf8 [deploymentDigest; planDigest; candidate; previous] = true →
  forallb (λ step, valid_utf8 (step_ID step) && valid_utf8 (step_Kind step)) steps = true →
  NoDup (step_ID <$> steps) →
  journal_inv (Began now :: history)
    (MkJournal APIVersion id deploymentDigest planDigest candidate previous "applying" (pending_record <$> steps) now).
Proof.
  intros Hd Hid Hargs Hsteps Hn. simpl in Hargs. bool_to_prop. split; simpl.
  - done.
  - unfold journal_valid. simpl. rewrite !andb_true_iff. repeat split; try done.
    apply forallb_elem_of. intros r Hr. apply list_elem_of_fmap in Hr as (step & -> & Hs).
    rewrite forallb_elem_of in Hsteps. specialize (Hsteps step Hs). bool_to_prop.
    unfold record_valid. simpl. rewrite !andb_true_iff. done.
  - rewrite <- list_fmap_compose. done.
  - rewrite Hd. set_solver.
  - intros r Hr Hs. rewrite (pending_none _ _ Hr) in Hs. done.
  - done.
Qed.

Lemma wp_Run (deploymentDigest planDigest candidate previous : string) (steps : list (TransactionStep Fn)) (h : Host) :
  host_inv h → forallb valid_utf8 [deploymentDigest; planDigest; candidate; previous] = true →
  forallb (λ step, valid_utf8 (step_ID step) && valid_utf8 (step_Kind step)) steps = true →
  wp (Run deploymentDigest planDigest candidate previous steps) (λ _ h', host_inv h') host_inv h.
Proof.
  intros Hh Hargs Hsteps. unfold Run. apply wp_on_error; intros; [by apply wp_done|].
  assert (NoDup (step_ID <$> steps) ∧ Forall callable steps) as [Hn Hc].
  { unfold validateSteps in H. destruct (_ || _); [done|]. by apply (validate_each_ok steps []); [|constructor]. }
  apply wp_host; [done|done|done|]. intros err h1 Eh1. simpl in Eh1. subst h1.
  apply wp_on_error; intros; [by apply wp_done|].
  apply wp_host; [done|done|done|]. intros there h1 [-> Hthere].
  destruct there as [[|]|e]; [by apply wp_done| |by apply wp_done].
  assert (host_file h = None) as Hnone.
  { specialize (Hthere false eq_refl). symmetry in Hthere. apply bool_decide_eq_false in Hthere.
    destruct (host_file h); [|done]. by destruct Hthere. }
  assert (dirty (host_history h) = ∅) as Hd by (destruct Hh as [Hd _]; unfold on_disk in Hd; by rewrite Hnone in Hd).
  apply (wp_seq _ _ (λ id h', h' = h ∧ ∀ s, id = Ok s → valid_utf8 s = true) host_inv); [|done|].
  { apply wp_host; [done|done|done|]. intros value h1 [-> Hv]. apply wp_done; [done|]. split; [done|].
    intros s. destruct value as [bytes|]; [|done]. intros [= <-]. destruct (Hv bytes eq_refl). by apply hex_valid. }
  intros id h1 [-> Hid]. destruct id as [id|e]; [|by apply wp_done]. specialize (Hid id eq_refl).
  assert (∀ now P, host_state P (log (Began now) h)) as Hbegan.
  { intros now P. split; [unfold on_disk; simpl; by rewrite Hnone|]. split; [done|apply Hh]. }
  apply wp_host; [done|done|done|]. intros now h1 ->.
  pose proof (first_journal_inv (host_history h) now id _ _ _ _ steps Hd Hid Hargs Hsteps Hn) as Hj.
  eapply wp_write_then; [by apply (Hbegan now (λ j, is_committed j = false))|exact Hj|done|].
  intros err' h2 Hh2 E2 _. apply wp_on_error; intros; [apply wp_done; by eapply host_state_inv|].
  apply wp_run_steps; [done|]. split; rewrite ?E2; try done.
  - split; [by rewrite E2|done].
  - simpl. by rewrite <- list_fmap_compose.
  - intros i r _ Hi. apply (pending_none steps). by eapply list_elem_of_lookup_2.
Qed.

Lemma entry_safe (p : Prog (option error)) (h : Host) :
  transaction_entry p → host_inv h → wp p (λ _ _, True) host_inv h.
Proof.
  intros Hp Hh. destruct Hp.
  - eapply wp_mono; [by apply wp_Run|done|done].
  - eapply wp_mono; [by apply wp_Finalize|done|done].
  - eapply wp_mono; [by apply wp_Recover|done|done].
Qed.

Lemma reachable_host_inv (c : HostConfig (Fn := Fn)) : rtc host_step fresh_host c → host_inv c.1.
Proof. intros Hr. apply (reachable_invariant host_inv _ c) in Hr; [by destruct Hr|done|exact entry_safe]. Qed.

(** No program calls a nil function or indexes out of range. *)
Lemma reachable_no_panic (h : Host) (k : Empty_set → Prog (option error)) :
  ¬ rtc host_step fresh_host (h, Some (Calls PanicCall k)).
Proof.
  intros Hr. apply (reachable_invariant host_inv) in Hr as [_ Hp]; [|done|exact entry_safe].
  by destruct (Hp _ eq_refl) as (_ & Hpanic & _).
Qed.

(** ** Runs that return nil *)

Lemma executes_write (j : Journal) (h h' : Host) (err : option error) :
  executes (transaction_write j : Prog _) h err h' → old_or_new j h h' ∧ (err = None → holds j h').
Proof. intros H. exact (wp_executes _ _ _ _ _ _ (wp_write j h) H). Qed.

Lemma rollback_reports (j : Journal) (compensations : nat → option (compensation (Fn := Fn))) (e : error) (h h' : Host) :
  ¬ executes (rollback j compensations (Some e)) h None h'.
Proof.
  unfold rollback. intros H. apply executes_bind in H as (_ & h1 & _ & H).
  apply executes_bind in H as ([[j' pending] failures] & h2 & _ & H).
  destruct pending; [destruct failures|]; apply executes_bind in H as (err & h3 & _ & [H _]); done.
Qed.

Definition complete_record (step : TransactionStep Fn) (handle : string) : StepRecord :=
  MkStepRecord (step_ID step) (step_Kind step) "complete" handle.

Definition applied_event (step : TransactionStep Fn) (handle : string) : HostEvent :=
  Applied (step_ID step) (Some (Ok handle)).

Lemma set_step_app (f : StepRecord → StepRecord) (j : Journal) (before after : list StepRecord) (r : StepRecord) :
  j_Steps j = before ++ r :: after → j_Steps (set_step (length before) f j) = before ++ f r :: after.
Proof.
  intros H. rewrite set_step_Steps, H. clear H. induction before as [|r' before IH]; simpl; [done|]. by f_equal.
Qed.

Lemma executes_run_steps (all steps : list (TransactionStep Fn)) (j : Journal) (before : list StepRecord) (h h' : Host) :
  j_Steps j = before ++ (pending_record <$> steps) →
  executes (run_steps all j (length before) steps) h None h' →
  ∃ handles j', length handles = length steps
    ∧ host_history h' = rev (zip_with applied_event steps handles) ++ host_history h
    ∧ holds (set_Phase "committed" j') h'
    ∧ j' = MkJournal (j_APIVersion j) (j_ID j) (j_DeploymentDigest j) (j_PlanDigest j) (j_CandidateBundle j)
             (j_PreviousBundle j) (j_Phase j) (before ++ zip_with complete_record steps handles) (j_StartedAt j).
Proof.
  revert j before h. induction steps as [|step rest IH]; intros j before h Hs; cbn [run_steps].
  - intros H. apply executes_write in H as [[Hh _] Hd]. exists [], j. split; [done|]. split; [done|].
    split; [by apply Hd|]. destruct j. simpl in *. by rewrite Hs.
  - intros H. apply executes_bind in H as (err & h1 & Hw & H). apply executes_write in Hw as [[E1 _] _].
    destruct err as [e|]; cbn [on_error] in H; [by apply rollback_reports in H|].
    destruct (step_Apply step) as [f|]; [|by destruct H as ([] & _)].
    apply executes_bind in H as (answer & h2 & (b & h2' & [-> _] & [-> ->]) & H).
    destruct answer as [handle|e].
    + apply executes_bind in H as (err & h3 & Hw & H). apply executes_write in Hw as [[E3 _] _].
      destruct err as [e|]; cbn [on_error] in H; [by apply rollback_reports in H|].
      rewrite !(set_step_twice (length before)) in H. rewrite fmap_cons in Hs.
      pose proof (set_step_app (set_RollbackHandle handle ∘ set_State "complete" ∘ set_State "running") j before _ _ Hs) as Hs'.
      change ((set_RollbackHandle handle ∘ set_State "complete" ∘ set_State "running") (pending_record step))
        with (complete_record step handle) in Hs'.
      replace (S (length before)) with (length (before ++ [complete_record step handle])) in H
        by (rewrite length_app; simpl; lia).
      apply IH in H as (handles & j' & Hl & Hh & Hd & ->).
      * exists (handle :: handles). eexists. split; [simpl; by rewrite Hl|]. split; [|split; [exact Hd|]].
        -- rewrite Hh, E3. simpl. rewrite E1, <- app_assoc. done.
        -- simpl. by rewrite <- app_assoc.
      * rewrite Hs', <- app_assoc. done.
    + apply executes_bind in H as (err & h3 & _ & H). destruct err as [e'|]; cbn [on_error] in H.
      * by destruct H.
      * by apply rollback_reports in H.
Qed.

(** ** Properties *)

(** C29: write-ahead journaling.  Whatever failed and wherever processes died, every step
    whose effects may still be on the host is named by the journal on disk, which decodes,
    as running or complete, and a complete one with the handle its last apply returned. *)
Theorem transaction_write_ahead (c : HostConfig (Fn := Fn)) (id : string) :
  rtc host_step fresh_host c → id ∈ dirty (host_history c.1) →
  ∃ data j r, host_file c.1 = Some data ∧ journal_parse data = Ok j ∧ r ∈ j_Steps j ∧ rec_ID r = id
    ∧ (rec_State r = "running"
       ∨ rec_State r = "complete" ∧ issued (host_history c.1) id = Some (rec_RollbackHandle r)).
Proof.
  intros Hr Hid. destruct (reachable_host_inv c Hr) as [Hd _]. unfold on_disk in Hd.
  destruct (host_file c.1) as [data|]; [|set_solver]. destruct Hd as (j & Ht & Hi & _).
  destruct (inv_covers _ _ Hi id Hid) as (r & Hin & <- & Hu). exists data, j, r. split; [done|]. split.
  - unfold journal_parse. rewrite (journal_decode j data), (inv_api _ _ Hi) by (done || apply Hi). done.
  - split; [done|]. split; [done|]. destruct (undoable_states r Hu) as [|Hs]; [by left|right].
    split; [done|]. by apply (inv_handles _ _ Hi).
Qed.

(** Every step of a process that is noted was noted by one call, made or interrupted. *)
Lemma finalized_by_call (c c' : HostConfig (Fn := Fn)) (r : StepRecord) (answer : option (option error)) :
  rtc host_step fresh_host c → host_step c c' →
  host_history c'.1 = Finalized r answer :: host_history c.1 → finalizable r c.1.
Proof.
  intros Hr Hs. apply (reachable_invariant host_inv) in Hr as [_ Hp]; [|done|exact entry_safe].
  assert (∀ (h : Host) e, host_history h ≠ e :: host_history h) as Hgrow.
  { intros h e H. apply (f_equal length) in H. cbn in H. lia. }
  destruct Hs as [B call k h h' b Hb|x h|p h|B call k h h' Hi|p h He]; cbn [fst] in *; intros Hh;
    try by destruct (Hgrow _ _ Hh).
  - destruct (Hp _ eq_refl) as [_ (Hc & _)]. destruct (quiet call) eqn:Eq.
    { destruct (quiet_call _ _ _ _ Eq Hb) as [E _]. rewrite E in Hh. by destruct (Hgrow _ _ Hh). }
    destruct call; try done; cbn in Hb.
    + destruct Hb as [[_ ->]|(d & _ & ->)]; by destruct (Hgrow _ _ Hh).
    + destruct Hb as [[_ ->]|(e & _ & [-> | ->])]; by destruct (Hgrow _ _ Hh).
    + by subst h'.
    + destruct Hb as [-> _]. done.
    + by subst h'.
    + by subst h'.
    + subst h'. cbn in Hh. injection Hh as -> _. exact Hc.
  - destruct (Hp _ eq_refl) as [_ (Hc & _)]. destruct call; try done; cbn in Hi; subst h'; try done.
    cbn in Hh. injection Hh as -> _. exact Hc.
Qed.

(** C30: the protocol of transactions, of every step that one of the processes asks for.  A
    transaction begins only when nothing is left of an earlier one; it applies each step at
    most once, and none after an undo or a finalizer began; it undoes nothing after a
    finalizer, and a complete step with the handle that the step's last apply returned; and
    it finalizes only while the journal on disk is committed and has the step as complete,
    nothing was undone, and the finalizer gets the handle of the step's last apply. *)
Theorem transaction_protocol (c c' : HostConfig (Fn := Fn)) (e : HostEvent) :
  rtc host_step fresh_host c → host_step c c' → host_history c'.1 = e :: host_history c.1 →
  match e with
  | Began _ => dirty (host_history c.1) = ∅
  | Applied id _ =>
      none_yet undoes (host_history c.1) ∧ none_yet finalizes (host_history c.1)
      ∧ none_yet (applies id) (host_history c.1)
  | RolledBack r _ =>
      none_yet finalizes (host_history c.1)
      ∧ (rec_State r = "running"
         ∨ rec_State r = "complete" ∧ issued (host_history c.1) (rec_ID r) = Some (rec_RollbackHandle r))
  | Finalized r _ =>
      none_yet undoes (host_history c.1) ∧ issued (host_history c.1) (rec_ID r) = Some (rec_RollbackHandle r)
      ∧ ∃ data j, host_file c.1 = Some data ∧ journal_parse data = Ok j ∧ j_Phase j = "committed"
          ∧ r ∈ j_Steps j ∧ rec_State r = "complete"
  end.
Proof.
  intros Hr Hs Hh. pose proof (rtc_r _ _ _ Hr Hs) as Hr'. destruct (reachable_host_inv c' Hr') as [_ Hok].
  rewrite Hh in Hok. apply (history_ok_split []) in Hok. destruct e as [t|id a|r a|r a]; try exact Hok.
  destruct Hok as [Hu Hi]. split; [done|]. split; [done|].
  destruct (finalized_by_call c c' r a Hr Hs Hh) as (data & j & Hf & Ht & Hv & Ha & Hp & Hin & Hst).
  exists data, j. split; [done|]. split; [|done]. unfold journal_parse.
  by rewrite (journal_decode j data), Ha.
Qed.

(** C31: [Run] returns nil only after every step was applied once, in order, with success, and
    then the journal on disk is the committed one with the handle of each step. *)
Theorem Run_commits (deploymentDigest planDigest candidate previous : string) (steps : list (TransactionStep Fn))
    (h h' : Host) :
  executes (Run deploymentDigest planDigest candidate previous steps) h None h' →
  host_file h = None
  ∧ ∃ handles now id,
      length handles = length steps
      ∧ host_history h' = rev (zip_with applied_event steps handles) ++ Began now :: host_history h
      ∧ holds (MkJournal APIVersion id deploymentDigest planDigest candidate previous "committed"
                 (zip_with complete_record steps handles) now) h'.
Proof.
  unfold Run. intros H. destruct (validateSteps steps); cbn [on_error] in H; [by destruct H|].
  apply executes_bind in H as (err & h1 & (err' & h1' & -> & [-> ->]) & H).
  destruct err; cbn [on_error] in H; [by destruct H|].
  apply executes_bind in H as (there & h1 & (b & h1' & [-> Hthere] & [-> ->]) & H).
  destruct there as [[|]|]; [by destruct H| |by destruct H].
  apply executes_bind in H as (id & h1 & Hid & H). destruct id as [id|]; [|by destruct H].
  assert (h1 = h) as ->.
  { unfold transactionID in Hid. apply executes_bind in Hid as (v & h2 & (b & h3 & [-> _] & [-> ->]) & [_ ->]). done. }
  apply executes_bind in H as (now & h1 & (b & h1' & -> & [-> ->]) & H).
  apply executes_bind in H as (err & h2 & Hw & H). apply executes_write in Hw as [[E2 _] _].
  destruct err; cbn [on_error] in H; [by destruct H|].
  split.
  - specialize (Hthere false eq_refl). symmetry in Hthere. apply bool_decide_eq_false in Hthere.
    destruct (host_file h); [|done]. by destruct Hthere.
  - apply (executes_run_steps steps steps _ []) in H as (handles & j' & Hl & Hh & Hd & ->); [|done].
    exists handles, now, id. split; [done|]. split; [by rewrite Hh, E2|]. exact Hd.
Qed.

(** [Recover] returns nil only when no journal is left and the effects of no step. *)
Theorem Recover_clean (handlers : string → option Fn) (h h' : Host) :
  rtc (host_step (Fn := Fn)) fresh_host (h, None) → executes (Recover handlers) h None h' →
  host_file h' = None ∧ dirty (host_history h') = ∅.
Proof.
  intros Hr He. apply reachable_host_inv in Hr. simpl in Hr.
  destruct (wp_executes _ _ _ _ _ _ (wp_Recover handlers h Hr) He) as [[Hd _] Hf]. specialize (Hf eq_refl).
  split; [done|]. unfold on_disk in Hd. by rewrite Hf in Hd.
Qed.
End theorems.

(** * Recovery succeeds when it can

    A host on which only an undo can fail, as a function: [serve].  [rollback] tries
    each failed undo once more after all the others; [rollback_succeeds] shows what
    that is enough for: undos that depend on others, which do not fail. *)

Section recovery.
Context {Fn : Type} {JJ : JournalJSON} {JL : JournalLaws}.

Notation Prog := (HostProg Fn).
Abbreviation host_inv := (host_state (λ _, True)).
Abbreviation host_open := (host_state (λ j, is_committed j = false)).

(** What an apply, and an undo at some point of the history, answer. *)
Context (now : Time) (apply_answer : string → result error string)
  (undo_answer : list HostEvent → StepRecord → option error).

(** The answer of such a host, and what it becomes. *)
Definition serve {B} (c : HostCall Fn B) (h : Host) : option (B * Host) :=
  match c in HostCall _ B return option (B * Host) with
  | MkdirAllCall | ChmodCall | SyncCall | CloseCall => Some (None, h)
  | StatCall => Some (Ok (bool_decide (is_Some (host_file h))), h)
  | ReadFileCall => Some (Ok (host_file h), h)
  | CreateTempCall => Some (None, set_temp (Some EmptyString) h)
  | WriteTempCall data => Some (None, set_temp (Some data) h)
  | RenameCall =>
      match host_temp h with
      | Some data => Some (None, MkHost (Some data) None (host_history h))
      | None => Some (Some (ErrorExternal "rename"), h)
      end
  | RemoveTempCall => Some (tt, set_temp None h)
  | RemoveCall => Some (Ok (bool_decide (is_Some (host_file h))), set_file None h)
  | RandReadCall => Some (Ok (repeat 0 16), h)
  | NowCall => Some (now, log (Began now) h)
  | ApplyCall step _ =>
      let answer := apply_answer (step_ID step) in
      Some (answer, log (Applied (step_ID step) (Some answer)) h)
  | RollbackCall r _ | RollbackRunningCall r _ =>
      let answer := undo_answer (host_history h) r in Some (answer, log (RolledBack r (Some answer)) h)
  | FinalizeCall r _ => Some (None, log (Finalized r (Some None)) h)
  | PanicCall => None
  end.

(** [None]: the program panicked. *)
Fixpoint serves {X} (p : Prog X) (h : Host) : option (X * Host) :=
  match p with
  | Finished x => Some (x, h)
  | Calls c k => '(b, h') ← serve c h; serves (k b) h'
  end.

Lemma serve_performs {B} (c : HostCall Fn B) (h h' : Host) (b : B) :
  (∀ id handle, apply_answer id = Ok handle → valid_utf8 handle = true) →
  serve c h = Some (b, h') → performs c h b h'.
Proof.
  intros Hv H. destruct c; simpl in *; try (destruct (host_temp h) as [data|] eqn:E); simplify_eq; try naive_solver.
  all: split; [done|]; intros bytes [= <-]; split; [done|]; by repeat constructor.
Qed.

Lemma serves_executes {X} (p : Prog X) (h h' : Host) (x : X) :
  (∀ id handle, apply_answer id = Ok handle → valid_utf8 handle = true) →
  serves p h = Some (x, h') → executes p h x h'.
Proof.
  intros Hv. revert h. induction p as [y|B c k IH]; intros h; simpl; [by intros [= <- <-]|].
  destruct (serve c h) as [[b h1]|] eqn:E; [|done]. simpl. intros H. exists b, h1.
  split; [by apply serve_performs|by apply IH].
Qed.

Lemma serves_bind {X Y} (p : Prog X) (f : X → Prog Y) (h : Host) :
  serves (p ≫= f) h = '(x, h') ← serves p h; serves (f x) h'.
Proof.
  revert h. induction p as [x|B c k IH]; intros h; simpl; [done|].
  destruct (serve c h) as [[b h1]|]; [|done]. simpl. apply IH.
Qed.

Lemma serves_write (j : Journal) (h : Host) (text : string) :
  journal_text j = Ok text →
  serves (transaction_write j : Prog _) h = Some (None, MkHost (Some text) None (host_history h)).
Proof. intros E. unfold transaction_write. by rewrite E. Qed.

(** ** Rollback *)

(** The journal that a rollback starts from: what is left of it can be encoded. *)
Context (j0 : Journal).
Hypothesis encodes : ∀ j, j_StartedAt j = j_StartedAt j0 → journal_valid j = true → is_ok (journal_text j) = true.

Definition same_start (j : Journal) : Prop := j_StartedAt j = j_StartedAt j0.

Lemma encodes_text (j : Journal) :
  same_start j → journal_valid j = true → ∃ text, journal_text j = Ok text.
Proof. intros Hs Hv. specialize (encodes j Hs Hv). destruct (journal_text j); eauto. done. Qed.

(** One undo. *)
Lemma serves_compensate (j : Journal) (i : nat) (r : StepRecord) (undo : compensation) (h : Host) :
  in_hand h j → same_start j → j_Steps j !! i = Some r → undoable r = true → compensated r undo →
  ∃ file temp,
    serves (compensate j i undo) h =
      Some (match undo_answer (host_history h) r with
            | Some e => (false, Some e, j)
            | None => (true, None, set_step i (set_State "rolled_back") j)
            end, MkHost file temp (RolledBack r (Some (undo_answer (host_history h) r)) :: host_history h)).
Proof.
  intros [Hj Hc] Hs Hr Hu Hcomp. unfold compensate. rewrite Hr, serves_bind.
  assert (serves (if String.eqb (rec_State r) "running"
                  then match comp_running undo with Some f => host (RollbackRunningCall r f) | None => panic end
                  else match comp_complete undo with Some f => host (RollbackCall r f) | None => panic end) h
          = Some (undo_answer (host_history h) r, log (RolledBack r (Some (undo_answer (host_history h) r))) h)) as ->.
  { unfold compensated in Hcomp. destruct (String.eqb (rec_State r) "running"); by destruct Hcomp as [f ->]. }
  simpl. destruct (undo_answer (host_history h) r) as [e|] eqn:Ea; [by eexists _, _|].
  pose proof (journal_inv_rolled_back _ _ _ _ Hj Hc Hr) as Hj'.
  destruct (encodes_text (set_step i (set_State "rolled_back") j)) as [text Ht]; [done|apply Hj'|].
  exists (Some text), None. pose proof (serves_bind (transaction_write (set_step i (set_State "rolled_back") j))
    (λ err, mret (true, err, set_step i (set_State "rolled_back") j)) (log (RolledBack r (Some None)) h)) as E.
  rewrite (serves_write _ _ _ Ht) in E. exact E.
Qed.

(** What a round does: undos that cannot fail leave their mark, and a round without
    failures leaves nothing. *)
Record round_result (compensations : nat → option compensation) (j : Journal) (pending failed : list nat)
    (failures : list error) (h : Host) (j' : Journal) (failed' : list nat) (failures' : list error) (h' : Host) : Prop := {
  round_kept : host_history h ⊆ host_history h';
  round_hand : in_hand h' j';
  round_start : same_start j';
  round_left : left_to_undo (Fn := Fn) compensations j' failed';
  round_sub : failed' ⊆ failed ++ pending;
  round_records : ∀ i r, i ∈ failed' → j_Steps j' !! i = Some r → j_Steps j !! i = Some r;
  round_silent : (failed = [] → failures = []) → failed' = [] → failures' = [];
  round_marks : ∀ i r, i ∈ pending → j_Steps j !! i = Some r → (∀ history, undo_answer history r = None) →
                  RolledBack r (Some None) ∈ host_history h';
  round_clean : (∀ i r history, i ∈ pending → j_Steps j !! i = Some r → host_history h ⊆ history →
                   undo_answer history r = None) → failed' = failed ∧ failures' = failures
}.

Lemma serves_round (compensations : nat → option compensation) (pending failed : list nat) (failures : list error)
    (j : Journal) (h : Host) :
  in_hand h j → same_start j → left_to_undo compensations j (failed ++ pending) →
  ∃ j' failed' failures' h',
    serves (compensate_each compensations j pending failed failures) h = Some (j', failed', failures', h')
    ∧ round_result compensations j pending failed failures h j' failed' failures' h'.
Proof.
  revert j h failed failures. induction pending as [|i rest IH]; intros j h failed failures Hj Hs Hl;
    cbn [compensate_each].
  - exists j, failed, failures, h. split; [done|]. rewrite app_nil_r in Hl. split; try done; set_solver.
  - assert (NoDup (failed ++ i :: rest)) as Hn by apply Hl.
    assert (i ∉ failed ∧ i ∉ rest) as [Hi1 Hi2] by (rewrite NoDup_app, NoDup_cons in Hn; set_solver).
    assert (offered compensations j i) as (r & undo & Hr & Hu & -> & Hc).
    { destruct Hl as (_ & Ho & _). rewrite Forall_forall in Ho. apply Ho. set_solver. }
    destruct (serves_compensate j i r undo h Hj Hs Hr Hu Hc) as (file & temp & E).
    rewrite serves_bind, E. simpl. set (h1 := MkHost file temp _). clear E.
    destruct (undo_answer (host_history h) r) as [e|] eqn:Ea; cbn [option_list].
    + destruct (IH j h1 (failed ++ [i]) (failures ++ [e])) as (j' & failed' & failures' & h' & E & Hr').
      { split; [|apply Hj]. apply journal_inv_undo; apply Hj. }
      { done. }
      { by rewrite <- app_assoc. }
      exists j', failed', failures', h'. split; [exact E|]. destruct Hr' as [K1 K2 K3 K4 K5 K6 K7' K7 K8].
      split; try done.
      * simpl in K1. set_solver.
      * rewrite <- app_assoc in K5. done.
      * intros _. apply K7'. by destruct failed.
      * intros k r' Hk Hr'' Hind. apply elem_of_cons in Hk as [->|Hk]; [|by apply (K7 k)].
        rewrite Hr in Hr''. injection Hr'' as <-. by rewrite Hind in Ea.
      * intros Hclean. rewrite (Hclean i r _ (list_elem_of_here _ _) Hr (reflexivity _)) in Ea. done.
    + rewrite app_nil_r.
      destruct (IH (set_step i (set_State "rolled_back") j) h1 failed failures) as (j' & failed' & failures' & h' & E & Hr').
      { split; [|apply Hj]. by apply journal_inv_rolled_back; [apply Hj..|]. }
      { done. }
      { by apply left_to_undo_done. }
      exists j', failed', failures', h'. split; [exact E|]. destruct Hr' as [K1 K2 K3 K4 K5 K6 K7' K7 K8].
      assert (∀ k, k ≠ i → j_Steps (set_step i (set_State "rolled_back") j) !! k = j_Steps j !! k) as Hother.
      { intros k Hk. by rewrite set_step_Steps, list_lookup_alter_ne. }
      split; try done.
      * simpl in K1. set_solver.
      * set_solver.
      * intros k r' Hk Hr'. rewrite <- Hother; [by apply K6|]. set_solver.
      * intros k r' Hk Hr'' Hind. apply elem_of_cons in Hk as [->|Hk].
        -- rewrite Hr in Hr''. injection Hr'' as <-. apply K1. by left.
        -- apply (K7 k); [done| |done]. rewrite Hother; [done|]. by intros ->.
      * intros Hclean. apply K8. intros k r' history Hk Hr'' Hsub. apply (Hclean k); [by right| |].
        -- rewrite <- Hother; [done|]. by intros ->.
        -- simpl in Hsub. set_solver.
Qed.

(** ** Two rounds *)

(** The steps whose undo needs others to be undone first; the others cannot fail. *)
Context (dependent : StepRecord → bool).
Hypothesis independent_succeeds : ∀ r history, dependent r = false → undo_answer history r = None.
Hypothesis dependent_succeeds : ∀ r history,
  (∀ r', r' ∈ j_Steps j0 → undoable r' = true → dependent r' = false → RolledBack r' (Some None) ∈ history) →
  undo_answer history r = None.

Lemma serves_attempts (compensations : nat → option compensation) (pending : list nat) (j : Journal) (h : Host) :
  in_hand h j → same_start j → j_Steps j = j_Steps j0 → left_to_undo compensations j pending →
  ∃ j' h', serves (attempts compensations 2 j pending []) h = Some (j', [], [], h')
           ∧ in_hand h' j' ∧ left_to_undo compensations j' [].
Proof.
  intros Hj Hs Hsteps Hl. cbn [attempts]. destruct pending as [|i pending]; [by exists j, h|].
  destruct (serves_round compensations (i :: pending) [] [] j h Hj Hs Hl) as (j1 & failed & failures & h1 & E1 & R1).
  rewrite serves_bind, E1. simpl. cbn [attempts].
  destruct failed as [|k failed].
  - rewrite (round_silent _ _ _ _ _ _ _ _ _ _ R1 (λ _, eq_refl) eq_refl). exists j1, h1. split; [done|].
    split; apply R1.
  - destruct (serves_round compensations (k :: failed) [] [] j1 h1 (round_hand _ _ _ _ _ _ _ _ _ _ R1)
      (round_start _ _ _ _ _ _ _ _ _ _ R1) (round_left _ _ _ _ _ _ _ _ _ _ R1)) as (j2 & failed2 & failures2 & h2 & E2 & R2).
    destruct (round_clean _ _ _ _ _ _ _ _ _ _ R2) as [-> ->].
    { intros m r history Hm Hr Hsub. apply dependent_succeeds. intros r' Hr' Hu' Hd'. apply Hsub.
      rewrite <- Hsteps in Hr'. apply list_elem_of_lookup in Hr' as (n & Hn).
      apply (round_marks _ _ _ _ _ _ _ _ _ _ R1 n); [|done|by intros; apply independent_succeeds].
      by eapply Hl. }
    rewrite serves_bind, E2. exists j2, h2. split; [done|]. split; apply R2.
Qed.

Lemma serves_rollback (compensations : nat → option compensation) (cause : option error) (h : Host) :
  in_hand h j0 → (∀ i r, j_Steps j0 !! i = Some r → undoable r = true → offered compensations j0 i) →
  ∃ h', serves (rollback j0 compensations cause) h = Some (errors_Join_all [cause; None], h')
        ∧ host_file h' = None ∧ dirty (host_history h') = ∅.
Proof.
  intros Hj Ho. unfold rollback. set (j := set_Phase "rolling_back" j0).
  assert (in_hand h j) as Hj'.
  { split; [|done]. apply journal_inv_phase; [apply Hj|done|by eapply in_hand_none_yet]. }
  destruct (encodes_text j) as [text Ht]; [done|apply Hj'|].
  rewrite serves_bind, (serves_write _ _ _ Ht). cbn [mbind option_bind]. rewrite serves_bind.
  destruct (serves_attempts compensations (rollback_pending j) j (MkHost (Some text) None (host_history h)))
    as (j' & h' & -> & Hj2 & Hl).
  - exact Hj'.
  - done.
  - done.
  - by apply rollback_pending_left.
  - eexists. split; [reflexivity|]. split; [done|]. by eapply in_hand_clean.
Qed.

(** The handler [Recover] looks for. *)
Definition recovery_key (r : StepRecord) : string :=
  if String.eqb (rec_State r) "running" then "running:" +:+ rec_Kind r else rec_Kind r.

Lemma recover_each_total (handlers : string → option Fn) (j : Journal) (records : list StepRecord) (index : nat)
    (found : nat → option compensation) :
  (∀ r, r ∈ records → undoable r = true → is_Some (handlers (recovery_key r))) →
  ∃ compensations, recover_each handlers j index records found = inl compensations.
Proof.
  revert index found. induction records as [|r rest IH]; intros index found Hh; cbn [recover_each]; [eauto|].
  assert (∀ r, r ∈ rest → undoable r = true → is_Some (handlers (recovery_key r))) as Hrest by (intros; apply Hh; set_solver).
  assert (undoable r = true → is_Some (handlers (recovery_key r))) as Hr by (apply Hh; by left).
  unfold recovery_key, undoable in Hr.
  destruct (String.eqb (rec_State r) "running"); [|destruct (String.eqb (rec_State r) "complete")]; [| |by apply IH];
    destruct (Hr eq_refl) as [f ->]; by apply IH.
Qed.

Lemma serves_Recover (handlers : string → option Fn) (h : Host) :
  host_inv h → serves (Pending : Prog _) h = Some (Ok (Some j0), h) → is_committed j0 = false →
  (∀ r, r ∈ j_Steps j0 → undoable r = true → is_Some (handlers (recovery_key r))) →
  ∃ h', serves (Recover handlers) h = Some (None, h') ∧ host_file h' = None ∧ dirty (host_history h') = ∅.
Proof.
  intros Hh Hp Hc Hk.
  assert (journal_inv (host_history h) j0) as Hj.
  { simpl in Hp. destruct Hh as [Hd _]. unfold on_disk in Hd. destruct (host_file h) as [data|]; [|done].
    destruct Hd as (j & Ht & Hi & _). unfold journal_parse in Hp.
    rewrite (journal_decode j data), (inv_api _ _ Hi) in Hp by (done || apply Hi).
    rewrite String.eqb_refl in Hp. simpl in Hp. by injection Hp as <-. }
  unfold Recover. rewrite serves_bind. unfold Pending in Hp. rewrite Hp. cbn [mbind option_bind].
  unfold is_committed in Hc. rewrite Hc.
  destruct (recover_each_total handlers j0 (j_Steps j0) 0 no_compensations Hk) as (compensations & Er). rewrite Er.
  destruct (serves_rollback compensations None h) as (h' & E & H).
  - by split.
  - intros i r Hi Hu. destruct (recover_each_inl _ _ _ _ _ _ Er) as [_ H].
    destruct (H i r Hi Hu) as (undo & Hundo & Hcomp). by exists r, undo.
  - by exists h'.
Qed.

(** C32: [Recover] succeeds where every handler is there, the disk works, and undos fail
    only for want of others that do not fail themselves: the second attempt is enough. *)
Theorem Recover_succeeds (handlers : string → option Fn) (h : Host) :
  rtc (host_step (Fn := Fn)) fresh_host (h, None) → serves (Pending : Prog _) h = Some (Ok (Some j0), h) →
  is_committed j0 = false →
  (∀ r, r ∈ j_Steps j0 → undoable r = true → is_Some (handlers (recovery_key r))) →
  ∃ h', serves (Recover handlers) h = Some (None, h') ∧ host_file h' = None ∧ dirty (host_history h') = ∅.
Proof. intros Hr. apply serves_Recover. by apply reachable_host_inv in Hr. Qed.
End recovery.
