(* ===== verification/TransactionExamples.v ===== *)
(** * A host transaction, run

    Two steps: a configuration, and a runtime that restarts only under the old
    configuration.  One process dies after it applied the second step and before it
    recorded that; [Recover] undoes both.  Another one commits.  The journals are
    encoded as lists of quoted fields. *)

From S2P Require Import TransactionTheorems.
From Stdlib Require Import Ascii.

Local Open Scope Z_scope.

(** ** An encoding *)

(** A field: an x in front of every character, and a dot. *)
Fixpoint quote_field (s : string) : string :=
  match s with
  | EmptyString => "."
  | String c rest => String "x" (String c (quote_field rest))
  end.

Definition quote_fields (fields : list string) : string := foldr (λ f s, quote_field f +:+ s) EmptyString fields.

Fixpoint parse_fields (field : string) (s : string) : list string :=
  match s with
  | String "x" (String c rest) => parse_fields (field +:+ String c EmptyString) rest
  | String "." rest => field :: parse_fields EmptyString rest
  | _ => []
  end.

Fixpoint bits_of (p : positive) : string :=
  match p with xH => EmptyString | xO p => String "0" (bits_of p) | xI p => String "1" (bits_of p) end.

Fixpoint positive_of (s : string) : positive :=
  match s with
  | String "0" s => xO (positive_of s)
  | String "1" s => xI (positive_of s)
  | _ => xH
  end.

Definition time_field (t : Time) : string :=
  match t with Z0 => EmptyString | Zpos p => String "+" (bits_of p) | Zneg p => String "-" (bits_of p) end.

Definition field_time (s : string) : Time :=
  match s with
  | String "+" s => Zpos (positive_of s)
  | String "-" s => Zneg (positive_of s)
  | _ => 0
  end.

Definition record_fields (r : StepRecord) : list string :=
  [rec_ID r; rec_Kind r; rec_State r; rec_RollbackHandle r].

Fixpoint fields_records (fields : list string) : list StepRecord :=
  match fields with
  | id :: kind :: state :: handle :: rest => MkStepRecord id kind state handle :: fields_records rest
  | _ => []
  end.

Definition journal_fields (j : Journal) : list string :=
  [j_APIVersion j; j_ID j; j_DeploymentDigest j; j_PlanDigest j; j_CandidateBundle j; j_PreviousBundle j;
   j_Phase j; time_field (j_StartedAt j)] ++ mjoin (record_fields <$> j_Steps j).

Definition fields_journal (fields : list string) : result error Journal :=
  match fields with
  | api :: id :: deployment :: plan :: candidate :: previous :: phase :: started :: rest =>
      Ok (MkJournal api id deployment plan candidate previous phase (fields_records rest) (field_time started))
  | _ => Err (ErrorExternal "json")
  end.

#[export] Instance field_json : JournalJSON := {|
  journal_MarshalIndent j := Ok (quote_fields (journal_fields j));
  journal_Decode text := fields_journal (parse_fields EmptyString text)
|}.

Lemma app_one (a b : string) (c : ascii) : (a +:+ String c EmptyString) +:+ b = a +:+ String c b.
Proof. induction a as [|x a IH]; [done|]. change (String x ((a +:+ String c EmptyString) +:+ b) = String x (a +:+ String c b)). by rewrite IH. Qed.

Lemma parse_quoted (f field rest : string) :
  parse_fields field (quote_field f +:+ rest) = (field +:+ f) :: parse_fields EmptyString rest.
Proof.
  revert field. induction f as [|c f IH]; intros field.
  - change (field :: parse_fields EmptyString rest = (field +:+ EmptyString) :: parse_fields EmptyString rest).
    f_equal. induction field as [|x field IHf]; [done|]. change (String x field = String x (field +:+ EmptyString)). congruence.
  - change (parse_fields (field +:+ String c EmptyString) (quote_field f +:+ rest) = (field +:+ String c f) :: parse_fields EmptyString rest).
    by rewrite IH, app_one.
Qed.

Lemma parse_quote_fields (fields : list string) (rest : string) :
  parse_fields EmptyString rest = [] → parse_fields EmptyString (quote_fields fields +:+ rest) = fields.
Proof.
  intros Hr. induction fields as [|f fields IH]; [exact Hr|]. simpl.
  change (parse_fields EmptyString ((quote_field f +:+ quote_fields fields) +:+ rest) = f :: fields).
  rewrite app_assoc_string, parse_quoted, IH. done.
Qed.

Lemma positive_of_bits (p : positive) : positive_of (bits_of p) = p.
Proof. induction p; simpl; congruence. Qed.

#[export] Instance field_laws : JournalLaws.
Proof.
  intros j text _ [= <-].
  change (fields_journal (parse_fields EmptyString (quote_fields (journal_fields j) +:+ String "010" EmptyString)) = Ok j).
  rewrite parse_quote_fields by done. destruct j as [a b c d e f g steps t]. simpl.
  f_equal. f_equal.
  - induction steps as [|[] steps IH]; [done|]. simpl. by f_equal.
  - destruct t; simpl; f_equal; apply positive_of_bits.
Qed.

(** ** The runs *)

(** The first [n] calls of a program. *)
Fixpoint advance {Fn X} (now : Time) (apply_answer : string → result error string)
    (undo_answer : list HostEvent → StepRecord → option error) (n : nat) (p : HostProg Fn X) (h : Host) :
    option (HostProg Fn X * Host) :=
  match n, p with
  | O, _ => Some (p, h)
  | S n, Calls c k => '(b, h') ← serve now apply_answer undo_answer c h; advance now apply_answer undo_answer n (k b) h'
  | S _, Finished _ => None
  end.

Section reach.
Context {Fn : Type} (now : Time) (apply_answer : string → result error string)
  (undo_answer : list HostEvent → StepRecord → option error).
Hypothesis valid_handles : ∀ id handle, apply_answer id = Ok handle → valid_utf8 handle = true.

Lemma advance_reaches (n : nat) (p p' : HostProg Fn (option error)) (h h' : Host) :
  advance now apply_answer undo_answer n p h = Some (p', h') → rtc host_step (h, Some p) (h', Some p').
Proof.
  revert p h. induction n as [|n IH]; intros p h; simpl; [intros [= -> ->]; done|].
  destruct p as [x|B c k]; [done|]. destruct (serve _ _ _ c h) as [[b h1]|] eqn:E; [|done]. simpl. intros H.
  eapply rtc_l; [|by apply IH]. eapply host_call. by eapply serve_performs.
Qed.

Lemma serves_reaches (p : HostProg Fn (option error)) (h h' : Host) (x : option error) :
  serves now apply_answer undo_answer p h = Some (x, h') → rtc host_step (h, Some p) (h', None).
Proof.
  revert h. induction p as [y|B c k IH]; intros h; simpl; [intros [= -> ->]; apply rtc_once, host_exit|].
  destruct (serve _ _ _ c h) as [[b h1]|] eqn:E; [|done]. simpl. intros H.
  eapply rtc_l; [|by apply IH]. eapply host_call. by eapply serve_performs.
Qed.
End reach.

Definition sample_step (id kind : string) : TransactionStep string :=
  MkTransactionStep id kind (Some "apply") (Some "rollback") (Some "rollback-running").

Definition sample_steps : list (TransactionStep string) :=
  [sample_step "config" "component:one"; sample_step "runtime" "runtime"].

Definition sample_run : HostProg string (option error) :=
  Run "deployment" "plan" "candidate" "previous" sample_steps.

Definition sample_apply (id : string) : result error string := 
  Ok (if String.eqb id "config" then "handle-config" else "handle-runtime").

(** The runtime restarts under the old configuration only. *)
Definition is_config_undone (e : HostEvent) : bool :=
  match e with RolledBack r (Some None) => String.eqb (rec_ID r) "config" | _ => false end.

Definition sample_undo (history : list HostEvent) (r : StepRecord) : option error :=
  if String.eqb (rec_ID r) "runtime" && negb (existsb is_config_undone history)
  then Some (ErrorExternal "old services need the old configuration") else None.

Definition sample_advance := advance (Fn := string) (X := option error) 7 sample_apply sample_undo.
Definition sample_serves := serves (Fn := string) (X := option error) 7 sample_apply sample_undo.

Definition no_host : Host := MkHost None None [].

(** The process dies between the second apply and its record. *)
Definition crashed_host : Host :=
  match sample_advance 34 sample_run no_host with Some (_, h) => h | None => no_host end.

Definition sample_handlers (key : string) : option string :=
  if String.eqb key "component:one" || String.eqb key "running:runtime" then Some key else None.

Definition recovered_host : Host :=
  match sample_serves (Recover sample_handlers) crashed_host with Some (_, h) => h | None => no_host end.

Definition committed_host : Host :=
  match sample_serves sample_run no_host with Some (_, h) => h | None => no_host end.

Lemma sample_handles (id handle : string) : sample_apply id = Ok handle → valid_utf8 handle = true.
Proof. unfold sample_apply. intros [= <-]. by destruct (String.eqb id "config"). Qed.

Lemma sample_started : rtc (host_step (Fn := string)) fresh_host (no_host, Some sample_run).
Proof. apply rtc_once, host_start. by apply entry_run; vm_compute. Qed.

Lemma crashed_reached : rtc (host_step (Fn := string)) fresh_host (crashed_host, None).
Proof.
  etrans; [exact sample_started|].
  assert (is_Some (sample_advance 34 sample_run no_host)) as [[p h] E] by (vm_compute; eauto).
  assert (crashed_host = h) as -> by (unfold crashed_host; by rewrite E).
  apply (rtc_r _ (h, Some p)); [|apply host_crash]. by apply (advance_reaches _ _ _ sample_handles) in E.
Qed.

(** A run to its end from a reachable host. *)
Lemma sample_served (p : HostProg string (option error)) (h h' : Host) (x : option error) :
  transaction_entry p → rtc (host_step (Fn := string)) fresh_host (h, None) → sample_serves p h = Some (x, h') →
  rtc (host_step (Fn := string)) fresh_host (h', None).
Proof.
  intros Hp Hr E. etrans; [exact Hr|]. eapply rtc_l; [by apply host_start|].
  by eapply serves_reaches; [apply sample_handles|].
Qed.

Lemma crashed_journal :
  ∃ j, serves 7 sample_apply sample_undo (Pending : HostProg string _) crashed_host = Some (Ok (Some j), crashed_host)
    ∧ (rec_State <$> j_Steps j) = ["complete"; "running"].
Proof. eexists. split; [by vm_compute|by vm_compute]. Qed.

Lemma recovers : sample_serves (Recover sample_handlers) crashed_host = Some (None, recovered_host).
Proof. by vm_compute. Qed.

Lemma recovered_reached : rtc (host_step (Fn := string)) fresh_host (recovered_host, None).
Proof. eapply (sample_served (Recover sample_handlers)); [constructor|apply crashed_reached|apply recovers]. Qed.

Lemma commits : sample_serves sample_run no_host = Some (None, committed_host).
Proof. by vm_compute. Qed.

(** ** Witnesses *)

Lemma transaction_write_ahead_witness :
  ∃ data j r, host_file crashed_host = Some data ∧ journal_parse data = Ok j ∧ r ∈ j_Steps j ∧ rec_ID r = "config"
    ∧ (rec_State r = "running"
       ∨ rec_State r = "complete" ∧ issued (host_history crashed_host) "config" = Some (rec_RollbackHandle r)).
Proof.
  apply (transaction_write_ahead (Fn := string) (crashed_host, None) "config"); [apply crashed_reached|].
  by apply (bool_decide_unpack _); vm_compute.
Defined.

(** The committed transaction is finalized: the process is about to call the first finalizer. *)
Lemma finalizer_called :
  ∃ r f k, sample_advance 1 (Finalize sample_handlers) committed_host
           = Some (Calls (FinalizeCall r f) k, committed_host) ∧ rec_ID r = "config".
Proof. eexists _, _, _. split; [vm_compute; reflexivity|reflexivity]. Qed.

Lemma committed_reached : rtc (host_step (Fn := string)) fresh_host (committed_host, None).
Proof. eapply (sample_served sample_run); [by apply entry_run; vm_compute|apply rtc_refl|apply commits]. Qed.

Lemma transaction_protocol_witness :
  ∃ r, rec_ID r = "config" ∧ none_yet undoes (host_history committed_host)
    ∧ issued (host_history committed_host) "config" = Some (rec_RollbackHandle r)
    ∧ ∃ data j, host_file committed_host = Some data ∧ journal_parse data = Ok j ∧ j_Phase j = "committed"
        ∧ r ∈ j_Steps j ∧ rec_State r = "complete".
Proof.
  destruct finalizer_called as (r & f & k & E & Hid). exists r. split; [exact Hid|]. rewrite <- Hid.
  apply (transaction_protocol (Fn := string) (committed_host, Some (Calls (FinalizeCall r f) k))
           (log (Finalized r (Some None)) committed_host, Some (k None)) (Finalized r (Some None))).
  - etrans; [exact committed_reached|]. eapply rtc_l; [apply host_start, entry_finalize|].
    by apply (advance_reaches _ _ _ sample_handles) in E.
  - by apply host_call.
  - reflexivity.
Defined.

Lemma Run_commits_witness :
  host_file no_host = None
  ∧ ∃ handles now id,
      length handles = 2%nat
      ∧ host_history committed_host = rev (zip_with applied_event sample_steps handles) ++ [Began now]
      ∧ holds (MkJournal APIVersion id "deployment" "plan" "candidate" "previous" "committed"
                 (zip_with complete_record sample_steps handles) now) committed_host.
Proof.
  apply (Run_commits "deployment" "plan" "candidate" "previous" sample_steps no_host committed_host).
  apply (serves_executes 7 sample_apply sample_undo); [apply sample_handles|apply commits].
Defined.

Lemma Recover_clean_witness : host_file recovered_host = None ∧ dirty (host_history recovered_host) = ∅.
Proof.
  apply (Recover_clean sample_handlers crashed_host recovered_host); [apply crashed_reached|].
  apply (serves_executes 7 sample_apply sample_undo); [apply sample_handles|apply recovers].
Defined.

Lemma Recover_succeeds_witness :
  ∃ h', sample_serves (Recover sample_handlers) crashed_host = Some (None, h')
        ∧ host_file h' = None ∧ dirty (host_history h') = ∅.
Proof.
  destruct crashed_journal as (j & Hp & Hs). pose proof Hp as Ej. vm_compute in Ej. injection Ej as <-.
  apply (Recover_succeeds 7 sample_apply sample_undo _) with (dependent := λ r, String.eqb (rec_ID r) "runtime") (5 := Hp).
  - done.
  - intros r history Hr. unfold sample_undo. by rewrite Hr.
  - intros r history H. unfold sample_undo. destruct (String.eqb (rec_ID r) "runtime"); [|done].
    assert (existsb is_config_undone history = true) as ->; [|done].
    apply existsb_elem_of. eexists. split; [apply H; [by left|done|done]|done].
  - apply crashed_reached.
  - done.
  - intros r Hr Hu. apply elem_of_cons in Hr as [->|Hr]; [by eexists|]. apply elem_of_cons in Hr as [->|Hr]; [by eexists|].
    by apply elem_of_nil in Hr.
Defined.
