(* ===== verification/HFGit.v ===== *)
(** * Pushes to Hugging Face: [brokers/huggingface/internal/gitproxy]

    The broker's own parser of receive-pack requests ([receive.go]) and its reading of
    upstream's report ([report.go]), over the pkt-lines of [git/protocol].  A loop
    over pkt-lines has the length of its input as fuel, which never runs out:
    [receive_loops_terminate]. *)

From S2P Require Export GitRefusal GitPack.
From Stdlib Require Import Ascii.

Local Open Scope Z_scope.

(** ** [receive.go] *)

Definition zeroSHA : string := "0000000000000000000000000000000000000000".

(** [Command] *)
Record HFCommand : Type := MkHFCommand {
  hc_Old : string;
  hc_New : string;
  hc_Ref : string
}.

#[export] Instance HFCommand_eq_dec : EqDecision HFCommand.
Proof. solve_decision. Defined.

(** [ReceivePackRequest] *)
Record HFReceivePack : Type := MkHFReceivePack {
  hrp_Commands : list HFCommand;
  hrp_Capabilities : gmap string bool;
  hrp_Pack : string
}.

Record RefFailure : Type := MkRefFailure {
  rf_Ref : string;
  rf_Reason : string
}.

(** [isHexPktLineDigit] and [isHexSHAChar] are the same test. *)
Definition isHexPktLineDigit (c : Z) : bool :=
  ((48 <=? c) && (c <=? 57)) || ((97 <=? c) && (c <=? 102)) || ((65 <=? c) && (c <=? 70)).
Definition isHexSHAChar (c : Z) : bool := isHexPktLineDigit c.

Definition validSHA (value : string) : bool :=
  (len value =? 40) && forallb isHexSHAChar (runes value).

Definition IsZeroSHA (value : string) : bool := String.eqb value zeroSHA.

Definition ValidRefName (ref : string) : bool :=
  has_prefix "refs/" ref && negb (contains ".." ref)
  && negb (contains_any (String " " (String "009" (String "013" (String "010" EmptyString)))) ref).

Definition parseCommandLine (line : string) : result error HFCommand :=
  match fields line with
  | [old; new; ref] =>
      refuse (negb (validSHA old) || negb (validSHA new))
        (errorf "receive-pack command %q: invalid object id" [line]) ;;;
      refuse (negb (ValidRefName ref)) (errorf "receive-pack command %q: invalid ref" [line]) ;;;
      Ok (MkHFCommand old new ref)
  | _ => Err (errorf "receive-pack command %q: expected old new ref" [line])
  end.

Definition parseShallowLine (line : string) : result error bool :=
  if negb (has_prefix "shallow " line) then Ok false
  else
    refuse (negb (validSHA (drop_bytes 8 line)))
      (errorf "receive-pack shallow line %q: invalid object id" [line]) ;;;
    Ok true.

(** [splitCommandCapabilities]: the command and the capabilities it adds to. *)
Definition splitCommandCapabilities (line : string) (caps : gmap string bool) : string * gmap string bool :=
  match cut_byte nul line with
  | Some (commandPart, capabilityPart) => (commandPart, set_capabilities (fields capabilityPart) caps)
  | None => (line, caps)
  end.

(** [appendReceiveCommand]: the request and [first] it leaves. *)
Definition appendReceiveCommand (req : HFReceivePack) (line : string) (first : bool) :
    result error (HFReceivePack * bool) :=
  shallow ← parseShallowLine line;
  if shallow : bool then Ok (req, first)
  else
    let '(line, caps) :=
      if first then splitCommandCapabilities line (hrp_Capabilities req) else (line, hrp_Capabilities req) in
    command ← parseCommandLine line;
    Ok (MkHFReceivePack (hrp_Commands req ++ [command]) caps (hrp_Pack req), false).

Definition looksLikePktLine (body : string) (offset : Z) : bool :=
  if len body - offset <? 4 then false
  else forallb isHexPktLineDigit (byte_of <$> String.list_ascii_of_string (String.substring (Z.to_nat offset) 4 body)).

Section receive.
Context {PL : PktLine}.

(** The loop of [skipPushOptions]; [None] when the fuel runs out. *)
Fixpoint skip_options (fuel : nat) (scanner : Scanner) : option (result error Scanner) :=
  match fuel with
  | O => None
  | S fuel =>
    match Next scanner with
    | (Err err, _) =>
        if errors_Is err ErrDone then Some (Err (ErrorNew "receive-pack push-options missing flush"))
        else Some (Err err)
    | (Ok (_, true), scanner) => Some (Ok scanner)
    | (Ok (_, false), scanner) => skip_options fuel scanner
    end
  end.

Definition skipPushOptions (body : string) (scanner : Scanner) (enabled : bool) : option (result error Scanner) :=
  if negb enabled || negb (looksLikePktLine body (Offset scanner)) then Some (Ok scanner)
  else skip_options (S (String.length body)) scanner.

(** The loop of [ParseReceivePack] over [parseReceiveFrame]; [None] when the fuel runs out. *)
Fixpoint receive_loop (fuel : nat) (body : string) (scanner : Scanner) (req : HFReceivePack) (first : bool)
  : option (result error HFReceivePack) :=
  match fuel with
  | O => None
  | S fuel =>
    match Next scanner with
    | (Err err, _) =>
        if errors_Is err ErrDone then Some (Err (ErrorNew "receive-pack command list missing flush"))
        else Some (Err err)
    | (Ok (_, true), scanner) =>
        match skipPushOptions body scanner (default false (hrp_Capabilities req !! "push-options")) with
        | None => None
        | Some (Err err) => Some (Err err)
        | Some (Ok scanner) =>
            Some (Ok (MkHFReceivePack (hrp_Commands req) (hrp_Capabilities req)
                        (drop_bytes (Z.to_nat (Offset scanner)) body)))
        end
    | (Ok (payload, false), scanner) =>
        match appendReceiveCommand req (trim_suffix newline payload) first with
        | Err err => Some (Err err)
        | Ok (req, first) => receive_loop fuel body scanner req first
        end
    end
  end.

Definition receive_pack (body : string) : option (result error HFReceivePack) :=
  receive_loop (S (String.length body)) body (NewScanner body) (MkHFReceivePack [] ∅ EmptyString) true.

(** [ParseReceivePack]; the default is never taken. *)
Definition ParseReceivePack (body : string) : result error HFReceivePack :=
  default (Err (ErrorNew "out of fuel")) (receive_pack body).

(** ** [report.go] *)

Definition refusal_request (req : HFReceivePack) : ReceivePackRequest :=
  MkReceivePackRequest
    ((λ c, MkReceivePackCommand (hc_Old c) (hc_New c) (hc_Ref c) RefUpdateOther) <$> hrp_Commands req)
    (hrp_Capabilities req).

(** [BuildRefusalReport]; the kind of a command plays no part in a report. *)
Definition BuildRefusalReport (req : HFReceivePack) (failures : list RefFailure) : result error string :=
  default (Err (ErrorNew "out of fuel"))
    (BuildReceivePackRefusal "hf-broker" (refusal_request req)
       ((λ f, MkReceivePackFailure (rf_Ref f) (rf_Reason f)) <$> failures)).

Definition cleanReason (reason : string) : string :=
  let reason := replace_line_breaks (trim_space reason) in
  if is_empty reason then "refused" else reason.

(** [receivePackUsesSideBand] of report.go *)
Definition hf_uses_side_band (req : HFReceivePack) : bool :=
  default false (hrp_Capabilities req !! "side-band-64k") || default false (hrp_Capabilities req !! "side-band").

(** The payload is not empty. *)
Definition receivePackSideBandPayload (payload : string) : string * string :=
  match payload with
  | EmptyString => (EmptyString, EmptyString)
  | String band rest =>
      if Ascii.eqb band "001" then (rest, EmptyString)
      else if Ascii.eqb band "003" then (EmptyString, rest)
      else (EmptyString, EmptyString)
  end.

(** The loop of [collectReceivePackSideBand]: the status and the fatal message. *)
Fixpoint side_band_loop (fuel : nat) (scanner : Scanner) (status : string) : option (result error (string * string)) :=
  match fuel with
  | O => None
  | S fuel =>
    match Next scanner with
    | (Err err, _) => if errors_Is err ErrDone then Some (Ok (status, EmptyString)) else Some (Err err)
    | (Ok (payload, flush), scanner) =>
        if flush || is_empty payload then side_band_loop fuel scanner status
        else
          let '(next, fatal) := receivePackSideBandPayload payload in
          if negb (is_empty fatal) then Some (Ok (EmptyString, fatal))
          else side_band_loop fuel scanner (status +:+ next)
    end
  end.

Definition collectReceivePackSideBand (body : string) : result error (string * string) :=
  default (Err (ErrorNew "out of fuel")) (side_band_loop (S (String.length body)) (NewScanner body) EmptyString).

Definition receivePackStatusBody (req : HFReceivePack) (body : string) : result error (string * string) :=
  if negb (hf_uses_side_band req) then Ok (body, EmptyString) else collectReceivePackSideBand body.

Record receivePackStatus : Type := MkReceivePackStatus {
  status_unpackOK : bool;
  status_refs : gmap string bool
}.

(** [consumeLine]: the status and the reason of a refusal. *)
Definition consumeLine (s : receivePackStatus) (line : string) : receivePackStatus * string :=
  let line := trim_space line in
  if is_empty line then (s, EmptyString)
  else if String.eqb line "unpack ok" then (MkReceivePackStatus true (status_refs s), EmptyString)
  else if has_prefix "unpack " line then (s, cleanReason (drop_bytes 7 line))
  else if has_prefix "ok " line then
    (MkReceivePackStatus (status_unpackOK s) (<[trim_space (drop_bytes 3 line) := true]> (status_refs s)), EmptyString)
  else if has_prefix "ng " line then (s, cleanReason (drop_bytes 3 line))
  else (s, EmptyString).

Fixpoint consume (s : receivePackStatus) (lines : list string) : receivePackStatus * string :=
  match lines with
  | [] => (s, EmptyString)
  | line :: lines =>
      let '(s, reason) := consumeLine s line in
      if negb (is_empty reason) then (s, reason) else consume s lines
  end.

(** [receivePackStatus.accepted] *)
Definition status_accepted (s : receivePackStatus) (req : HFReceivePack) : bool * string :=
  if negb (status_unpackOK s) then (false, "upstream receive-pack report missing unpack status")
  else if negb (forallb (λ c, default false (status_refs s !! hc_Ref c)) (hrp_Commands req))
  then (false, "upstream receive-pack report missing ref status")
  else (true, EmptyString).

(** The loop of [parseReceivePackStatus]. *)
Fixpoint status_loop (fuel : nat) (req : HFReceivePack) (scanner : Scanner) (s : receivePackStatus)
  : option (result error (bool * string)) :=
  match fuel with
  | O => None
  | S fuel =>
    match Next scanner with
    | (Err err, _) => if errors_Is err ErrDone then Some (Ok (status_accepted s req)) else Some (Err err)
    | (Ok (_, true), scanner) => status_loop fuel req scanner s
    | (Ok (payload, false), scanner) =>
        let '(s, reason) := consume s (split_byte "010" payload) in
        if negb (is_empty reason) then Some (Ok (false, reason)) else status_loop fuel req scanner s
    end
  end.

Definition parseReceivePackStatus (req : HFReceivePack) (body : string) : result error (bool * string) :=
  default (Err (ErrorNew "out of fuel"))
    (status_loop (S (String.length body)) req (NewScanner body) (MkReceivePackStatus false ∅)).

Definition ReceivePackAccepted (req : HFReceivePack) (body : string) : result error (bool * string) :=
  '(statusBody, fatal) ← receivePackStatusBody req body;
  if negb (is_empty fatal) then Ok (false, cleanReason fatal)
  else parseReceivePackStatus req statusBody.
End receive.

(** ** [packobjects.go] *)

Definition maxInspectedPackBytes : Z := 25 * 1024 * 1024.
Definition maxStoredPackObjectBytes : Z := 16 * 1024 * 1024.
Definition maxParsedPackObjects : Z := 2 ^ 20.
Definition maxInflatedPackBytes : Z := 128 * 1024 * 1024.

(** [GitObject] is the [PackObject] of [git/protocol], field for field. *)
Definition HF_ExtractCommitAndTagObjects {GG : GoGit} (sha1_Sum : string → string)
    (ctx_Err : nat → option error) (pack : string) (readBase : PackBaseReader) : result error (list PackObject) :=
  ExtractCommitAndTagObjects sha1_Sum ctx_Err pack
    (MkPackLimits maxInspectedPackBytes maxParsedPackObjects maxStoredPackObjectBytes maxInflatedPackBytes)
    (Some readBase).

(** ** The loops end *)

Section termination.
Context {PL : PktLine} {L : PktLineLaws PL}.

Lemma skip_options_fuel (fuel : nat) (scanner : Scanner) :
  (String.length (scanner_rest scanner) < fuel)%nat → skip_options fuel scanner ≠ None.
Proof.
  revert scanner. induction fuel as [|fuel IH]; intros scanner Hf; [lia|]. cbn [skip_options].
  destruct (Next scanner) as [[[payload flush]|e] scanner'] eqn:E.
  - apply Next_consumes in E. destruct flush; [done|]. apply IH. lia.
  - by destruct (errors_Is e ErrDone).
Qed.

Lemma receive_loop_fuel (fuel : nat) (body : string) (scanner : Scanner) (req : HFReceivePack) (first : bool) :
  (String.length (scanner_rest scanner) < fuel)%nat → (String.length (scanner_rest scanner) <= String.length body)%nat →
  receive_loop fuel body scanner req first ≠ None.
Proof.
  revert scanner req first. induction fuel as [|fuel IH]; intros scanner req first Hf Hb; [lia|].
  cbn [receive_loop]. destruct (Next scanner) as [[[payload [|]]|e] scanner'] eqn:E.
  - apply Next_consumes in E.
    destruct (skipPushOptions body scanner' _) as [[?|?]|] eqn:Es; [done..|]. unfold skipPushOptions in Es.
    destruct (_ || _); [done|]. apply skip_options_fuel in Es; [done|lia].
  - apply Next_consumes in E. destruct (appendReceiveCommand _ _ _) as [[req' first']|]; [|done]. apply IH; lia.
  - by destruct (errors_Is e ErrDone).
Qed.

Lemma side_band_loop_fuel (fuel : nat) (scanner : Scanner) (status : string) :
  (String.length (scanner_rest scanner) < fuel)%nat → side_band_loop fuel scanner status ≠ None.
Proof.
  revert scanner status. induction fuel as [|fuel IH]; intros scanner status Hf; [lia|]. cbn [side_band_loop].
  destruct (Next scanner) as [[[payload flush]|e] scanner'] eqn:E.
  - apply Next_consumes in E. destruct (flush || is_empty payload); [apply IH; lia|].
    destruct (receivePackSideBandPayload payload) as [next fatal]. destruct (negb (is_empty fatal)); [done|apply IH; lia].
  - by destruct (errors_Is e ErrDone).
Qed.

Lemma status_loop_fuel (fuel : nat) (req : HFReceivePack) (scanner : Scanner) (s : receivePackStatus) :
  (String.length (scanner_rest scanner) < fuel)%nat → status_loop fuel req scanner s ≠ None.
Proof.
  revert scanner s. induction fuel as [|fuel IH]; intros scanner s Hf; [lia|]. cbn [status_loop].
  destruct (Next scanner) as [[[payload [|]]|e] scanner'] eqn:E.
  - apply Next_consumes in E. apply IH. lia.
  - apply Next_consumes in E. destruct (consume s _) as [s' reason]. destruct (negb (is_empty reason)); [done|apply IH; lia].
  - by destruct (errors_Is e ErrDone).
Qed.

Lemma receive_loops_terminate (body : string) (req : HFReceivePack) :
  receive_pack body ≠ None
  ∧ side_band_loop (S (String.length body)) (NewScanner body) EmptyString ≠ None
  ∧ status_loop (S (String.length body)) req (NewScanner body) (MkReceivePackStatus false ∅) ≠ None.
Proof.
  split_and!; [apply receive_loop_fuel|apply side_band_loop_fuel|apply status_loop_fuel]; cbn; lia.
Qed.
End termination.

(** ** What the parser accepts *)

Definition valid_command (c : HFCommand) : Prop :=
  validSHA (hc_Old c) = true ∧ validSHA (hc_New c) = true ∧ ValidRefName (hc_Ref c) = true.

Section accepted.
Context {PL : PktLine}.

Lemma appendReceiveCommand_valid (req req' : HFReceivePack) (line : string) (first first' : bool) :
  Forall valid_command (hrp_Commands req) → appendReceiveCommand req line first = Ok (req', first') →
  Forall valid_command (hrp_Commands req').
Proof.
  intros Hv H. unfold appendReceiveCommand in H. destruct (parseShallowLine line) as [[|]|]; [by simplify_eq/=| |done].
  cbn in H. destruct (if first then _ else _) as [line' caps]. unfold parseCommandLine in H.
  destruct (fields line') as [|old [|new [|ref [|]]]]; try done.
  destruct (negb (validSHA old) || negb (validSHA new)) eqn:Es; [done|]. destruct (negb (ValidRefName ref)) eqn:Er; [done|].
  simplify_eq/=. apply orb_false_elim in Es as [Eo En]. apply Forall_app. split; [done|].
  constructor; [|done]. unfold valid_command. cbn. by destruct (validSHA old), (validSHA new), (ValidRefName ref).
Qed.

Lemma receive_loop_valid (fuel : nat) (body : string) (scanner : Scanner) (r req : HFReceivePack) (first : bool) :
  Forall valid_command (hrp_Commands r) → receive_loop fuel body scanner r first = Some (Ok req) →
  Forall valid_command (hrp_Commands req).
Proof.
  revert scanner r first. induction fuel as [|fuel IH]; intros scanner r first Hv; [done|]. cbn [receive_loop].
  destruct (Next scanner) as [[[payload [|]]|e] scanner'].
  - destruct (skipPushOptions _ _ _) as [[?|?]|]; cbn; [|done..]. intros H. by simplify_eq/=.
  - destruct (appendReceiveCommand _ _ _) as [[r' first']|] eqn:E; [|done]. apply IH.
    by apply (appendReceiveCommand_valid _ _ _ _ _ Hv E).
  - by destruct (errors_Is e ErrDone).
Qed.

Lemma ParseReceivePack_valid (body : string) (req : HFReceivePack) :
  ParseReceivePack body = Ok req → Forall valid_command (hrp_Commands req).
Proof.
  unfold ParseReceivePack, receive_pack. destruct (receive_loop _ _ _ _ _) as [[r|]|] eqn:E; [|done..].
  intros [= <-]. by apply receive_loop_valid in E.
Qed.
End accepted.
