(* ===== verification/HFPolicy.v ===== *)
(** * The Hugging Face policy: [brokers/huggingface/internal/policy/policy.go]

    The rules of the Hugging Face broker, over its catalog of operations
    ([internal/opcatalog]): their data, how a decoded scope file becomes rules,
    and the constraints on attributes.  How the rules are compiled to the policies
    of [authorization/policy] is HFCore.

    The catalog is embedded data: a list of descriptors that passed [Validate].
    Data types carry the prefix HF where the shared policy has a type of the
    same name; string types with named constants are strings. *)

From S2P Require Export PolicyParse Capability GoStringFacts.
From Stdlib Require Import Ascii.

Local Open Scope Z_scope.

(** ** [internal/opcatalog] *)

Definition ExpectedCount : Z := 258.

Definition validateUnimplementedExecutor (d : Descriptor) : result error unit :=
  refuse (negb (is_empty (desc_ExecutorKind d)))
    (errorf "HF operation %q has an executor binding without an implementation" [desc_Name d]).

Definition validateInlineExecutor (d : Descriptor) : result error unit :=
  refuse (bool_decide (is_Some (desc_CredentialOutputKind d)))
    (errorf "HF credential operation %q must use the credential executor" [desc_Name d]).

Definition validateCredentialExecutor (d : Descriptor) : result error unit :=
  refuse (bool_decide (desc_CredentialOutputKind d = None))
    (errorf "HF operation %q has an invalid credential executor" [desc_Name d]).

Definition validateNativeExecutor (d : Descriptor) : result error unit :=
  refuse (negb (AllowsAuthorizationMode d ModeWindow) || HasExecutionDisposition d)
    (errorf "HF operation %q has an invalid native protocol executor" [desc_Name d]).

Definition validateBoundedStreamExecutor (d : Descriptor) : result error unit :=
  refuse (negb (AllowsAuthorizationMode d ModeWindow) || HasExecutionDisposition d || desc_Sealed d
          || bool_decide (is_Some (desc_CredentialOutputKind d)))
    (errorf "HF operation %q has an invalid bounded stream executor" [desc_Name d]).

Definition validateExecutorBinding (d : Descriptor) : result error unit :=
  refuse (bool_decide (desc_Implementation d = StatusProtocol))
    (errorf "HF operation %q has an unresolved protocol placeholder" [desc_Name d]) ;;;
  if negb (bool_decide (desc_Implementation d = StatusImplemented)) then validateUnimplementedExecutor d
  else if String.eqb (desc_ExecutorKind d) "inline" then validateInlineExecutor d
  else if String.eqb (desc_ExecutorKind d) "credential" then validateCredentialExecutor d
  else if String.eqb (desc_ExecutorKind d) "native-protocol" then validateNativeExecutor d
  else if String.eqb (desc_ExecutorKind d) "bounded-stream" then validateBoundedStreamExecutor d
  else Err (errorf "HF operation %q has no valid executor binding" [desc_Name d]).

(** [opcatalog.Validate] *)
Definition opcatalog_Validate (values : list Descriptor) : result error unit :=
  Capability_Validate values (MkValidationOptions "HF" ExpectedCount "hf_" true) ;;;
  for_each validateExecutorBinding values.

(** What [MustAll] returns. *)
Class Catalog : Type := { catalog_values : list Descriptor }.

(** ** Constants *)

Definition DefaultGrantMinutes : Z := 5.
Definition MaxGrantMinutes : Z := 7 * 24 * 60.
Definition MaxRequestTTLMinutes : Z := 60.
Definition MaxGrantUses : Limit := MaxFiniteUses.
Definition DefaultRequestTTL : Z := 5.
Definition MaxRules : Z := 1000.
Definition MaxTargetsPerRule : Z := 50.
Definition MaxOperationsPerRule : Z := 50.
Definition MaxClientsPerRule : Z := 100.
Definition MaxGlobBytes : Z := 256.
Definition MaxRuleIDBytes : Z := 128.
Definition MaxPolicyFileSizeBytes : Z := 2 ^ 20.

Definition OpRepoList : string := "repo.list".
Definition OpGitFetch : string := "git.fetch".
Definition OpBucketObjectWrite : string := "bucket.object.write".
Definition OpBucketObjectDel : string := "bucket.object.delete".

Definition KindRepo : string := "repo".
Definition KindBucket : string := "bucket".
Definition KindInference : string := "inference".

Definition TypeModel : string := "model".
Definition TypeDataset : string := "dataset".
Definition TypeSpace : string := "space".
Definition TypeKernel : string := "kernel".
Definition TypeAny : string := "*".

(** [GrantModeNone] *)
Definition GrantModeNone : GrantMode := GrantModeOther "none".

(** ** Data *)

(** [Target] *)
Record HFTarget : Type := MkHFTarget {
  ht_Kind : string;
  ht_Type : string;
  ht_Owner : string;
  ht_Name : string;
  ht_Refs : list string;
  ht_Paths : list string;
  ht_Visibility : list string;
  ht_Keys : list string;
  ht_SnapshotPrefix : string
}.

(** A Go value of type [any] in request attributes: an [int] or [int64], a [json.Number]
    (which the decoder filled, so it holds a number), a string, or any other with what
    [json.Marshal] makes of it. *)
Inductive AnyValue : Type :=
| AnyInt (z : Z)
| AnyNumber (text : string)
| AnyString (s : string)
| AnyOther (marshaled : result error json).

(** [Request] *)
Record HFRequest : Type := MkHFRequest {
  hfr_Client : string;
  hfr_Operation : string;
  hfr_Target : HFTarget;
  hfr_Attrs : gmap string AnyValue;
  hfr_IgnoreRepoRefs : bool
}.

(** [TargetMatcher]: [targetMatcherJSON] and the flags of the fields that were present. *)
Record HFMatcher : Type := MkHFMatcher {
  hm_target : HFTarget;
  hm_typeSet : bool;
  hm_refsSet : bool;
  hm_pathsSet : bool;
  hm_visibilitySet : bool;
  hm_keysSet : bool;
  hm_snapshotPrefixSet : bool
}.

Record AttrConstraint : Type := MkAttrConstraint {
  ac_Values : list string;
  ac_Number : option Z
}.

(** [Rule] *)
Record HFRule : Type := MkHFRule {
  hf_ID : string;
  hf_Effect : Effect;
  hf_Clients : list string;
  hf_Operations : list string;
  hf_Targets : list HFMatcher;
  hf_Attrs : gmap string AttrConstraint;
  hf_CredentialUses : list CredentialUse;
  hf_GrantPolicy : option GrantPolicy;
  hf_Description : string;
  hf_Generated : bool;
  hf_GrantID : string;
  hf_ExpiresAt : Time;
  hf_UsesLeft : Z;
  hf_Unlimited : bool
}.

(** [rawGrantPolicy] *)
Record HFRawGrantPolicy : Type := MkHFRawGrantPolicy {
  hrgp_Mode : option string;
  hrgp_DefaultMinutes : option Z;
  hrgp_MaxMinutes : option Z;
  hrgp_RequestTTLMinutes : option Z;
  hrgp_DefaultMaxUses : OptionalLimit;
  hrgp_MaxUses : OptionalLimit
}.

(** [rawRule]: attributes are undecoded JSON values. *)
Record HFRawRule : Type := MkHFRawRule {
  hraw_ID : string;
  hraw_Effect : string;
  hraw_Clients : list string;
  hraw_Operations : list string;
  hraw_Targets : list HFMatcher;
  hraw_Attrs : gmap string json;
  hraw_CredentialUses : list CredentialUse;
  hraw_GrantPolicy : option HFRawGrantPolicy;
  hraw_Description : string
}.

(** [operationInfo] *)
Record operationInfo : Type := MkOperationInfo {
  info_mode : GrantMode;
  info_explicitOnly : bool;
  info_targetKind : string
}.

(** ** Decoding a target *)

Definition targetMatcherFields : list string :=
  ["kind"; "type"; "owner"; "name"; "refs"; "paths"; "visibility"; "keys"; "snapshot_prefix"].

(** [json.Unmarshal] into a string and a list field; an absent field is zero. *)
Definition string_field (fields : gmap string json) (name : string) : result error string :=
  match fields !! name with None => Ok EmptyString | Some j => unmarshal_string j end.

Definition list_field (fields : gmap string json) (name : string) : result error (list string) :=
  match fields !! name with
  | None | Some JNull => Ok []
  | Some (JArray items) => collect unmarshal_string items
  | Some _ => Err json_error
  end.

Definition jsonFieldPresent (fields : gmap string json) (name : string) : bool :=
  bool_decide (is_Some (fields !! name)).

Definition targetMatcherFromJSON (decoded : HFTarget) (fields : gmap string json) : HFMatcher :=
  MkHFMatcher decoded (jsonFieldPresent fields "type") (jsonFieldPresent fields "refs")
    (jsonFieldPresent fields "paths") (jsonFieldPresent fields "visibility") (jsonFieldPresent fields "keys")
    (jsonFieldPresent fields "snapshot_prefix").

Section decoding.
Context {R : MapRange}.

Definition rejectUnknownTargetMatcherFields (fields : gmap string json) : result error unit :=
  for_each (λ '(field, _), refuse (negb (bool_decide (field ∈ targetMatcherFields)))
    (errorf "json: unknown field %q" [field])) (map_range fields).

(** [TargetMatcher.UnmarshalJSON] *)
Definition HFMatcher_UnmarshalJSON (data : json) : result error HFMatcher :=
  fields ← unmarshal_members data;
  rejectUnknownTargetMatcherFields fields ;;;
  kind ← string_field fields "kind";
  type ← string_field fields "type";
  owner ← string_field fields "owner";
  name ← string_field fields "name";
  refs ← list_field fields "refs";
  paths ← list_field fields "paths";
  visibility ← list_field fields "visibility";
  keys ← list_field fields "keys";
  snapshot ← string_field fields "snapshot_prefix";
  Ok (targetMatcherFromJSON (MkHFTarget kind type owner name refs paths visibility keys snapshot) fields).
End decoding.

(** ** The operations *)

Section policy.
Context {R : MapRange} {CT : Catalog}.

(** [opcatalog.ByName]: the binary search finds the entry with the name. *)
Definition ByName (name : string) : option Descriptor :=
  find (λ d, String.eqb (desc_Name d) name) catalog_values.

Definition catalogOperations : gmap string operationInfo :=
  list_to_map ((λ d,
    (desc_Name d, MkOperationInfo
       (if bool_decide (desc_DefaultAuthorizationMode d = ModeExecution) then GrantModeExecution else GrantModeWindow)
       (desc_ExplicitOnly d) (desc_TargetKind d))) <$> rev catalog_values).

Definition catalogOperationFamilies : gmap string string :=
  foldl (λ result d,
    if negb (desc_FamilyGlobAllowed d) then result
    else match cut_byte "." (desc_Name d) with
         | Some (family, _) => <[family +:+ ".*" := family +:+ "."]> result
         | None => result
         end) ∅ catalog_values.

(** The package variables. *)
Definition operations : gmap string operationInfo := catalogOperations.
Definition operationFamilyPrefixes : gmap string string := catalogOperationFamilies.

(** [operations[op]]: the zero value for an unknown operation. *)
Definition operation_info (op : string) : operationInfo :=
  default (MkOperationInfo (GrantModeOther EmptyString) false EmptyString) (operations !! op).

Definition refScopedOperations : list string :=
  ["git.push.append"; "git.push.force"; "git.ref.delete"; "git.tag.update"; "repo.branch.create";
   "repo.branch.delete"; "repo.commit.create"; "repo.file.copy"; "repo.file.delete"; "repo.file.upload";
   "repo.tag.create"; "repo.tag.delete"; "space.hot_reload.apply"].

Definition validRepoVisibilities : list string := ["public"; "private"; "*"].

Definition knownAttrs : list string :=
  ["arguments_digest"; "content_digest"; "credential_kind"; "credential_slot"; "destination"; "factory_reboot";
   "flavor"; "gating"; "hardware"; "key"; "max_bytes"; "max_hosts"; "num_hosts"; "path"; "pid"; "pool"; "private";
   "recursive"; "ref_change"; "sdk"; "sleep_time_seconds"; "source"; "source_path"; "source_ref"; "target_digest";
   "visibility"; "warm_up"].

Definition validRefChangeAttrs : list string :=
  ["create"; "fast_forward"; "non_fast_forward"; "delete"; "tag_update"].

(** [sortedMapKeys] *)
Definition sortedMapKeys {V} (values : gmap string V) : list string :=
  CanonicalStringSlice ((map_range values).*1).

(** The list is written in order. *)
Definition KnownAttributeNames : list string := knownAttrs.

Definition operationTargetKind (op : string) : string := info_targetKind (operation_info op).

Definition IsOperation (value : string) : bool := bool_decide (is_Some (operations !! value)).

(** [Operations] *)
Definition HFOperations : list string := sortedMapKeys operations.

Definition knownTargetKind (kind : string) : bool :=
  existsb (λ '(_, info), String.eqb (info_targetKind info) kind) (map_range operations).

(** ** Globs and targets *)

Definition invalidGlobShape (value : string) : bool :=
  is_empty value || negb (String.eqb value (trim_space value)) || (MaxGlobBytes <? len value)
  || contains (String "000" EmptyString) value || has_prefix "/" value || contains "//" value.

Definition containsUnsupportedGlobSyntax (value : string) : bool := contains_any "[]\" value.

Definition malformed_glob (pathName : string) : error := errorf "%s: malformed glob" [pathName].

Definition validateGlobSegments (pathName value : string) : result error unit :=
  for_each (λ segment, refuse (is_empty segment || String.eqb segment "..") (malformed_glob pathName))
    (split_byte "/" value).

Definition validateDoubleStarGlob (pathName value : string) (allowDoubleStar : bool) : result error unit :=
  refuse (contains "**" value && negb allowDoubleStar)
    (errorf "%s: ** is allowed only for path/key globs" [pathName]).

(** [strings.ReplaceAll(value, "**", "*")] *)
Fixpoint single_stars (value : string) : string :=
  match value with
  | String "*" (String "*" rest) => String "*" (single_stars rest)
  | String c rest => String c (single_stars rest)
  | EmptyString => EmptyString
  end.

Definition validatePathGlobSyntax (pathName value : string) : result error unit :=
  refuse (bool_decide (path_match (single_stars value) value = None)) (malformed_glob pathName).

Definition validateGlob (pathName value : string) (allowDoubleStar : bool) : result error unit :=
  refuse (invalidGlobShape value) (malformed_glob pathName) ;;;
  refuse (containsUnsupportedGlobSyntax value) (malformed_glob pathName) ;;;
  validateGlobSegments pathName value ;;;
  validateDoubleStarGlob pathName value allowDoubleStar ;;;
  validatePathGlobSyntax pathName value.

Definition validRepoType (value : string) : bool :=
  bool_decide (value ∈ [TypeModel; TypeDataset; TypeSpace; TypeKernel; TypeAny]).

Definition validateSegmentGlob (pathName value : string) : result error unit :=
  refuse (is_empty value || contains "/" value) (errorf "%s: must be one non-empty segment" [pathName]) ;;;
  validateGlob pathName value false.

Definition validateGlobList (pathName : string) (values : list string) (allowDoubleStar : bool) : result error unit :=
  for_each (λ value, validateGlob pathName value allowDoubleStar) values.

Definition validateOptionalGlobList (pathName : string) (values : list string) (present allowDoubleStar : bool)
    : result error unit :=
  refuse (present && (length values =? 0)%nat) (errorf "%s: must not be empty when set" [pathName]) ;;;
  validateGlobList pathName values allowDoubleStar.

Definition validateOwnerNameGlobs (pathName owner name : string) : result error unit :=
  validateSegmentGlob (pathName +:+ ".owner") owner ;;;
  validateSegmentGlob (pathName +:+ ".name") name.

Definition any_set (m : HFMatcher) : bool :=
  existsb id [hm_typeSet m; hm_refsSet m; hm_pathsSet m; hm_visibilitySet m; hm_keysSet m; hm_snapshotPrefixSet m].

Definition validateGenericTarget (pathName : string) (m : HFMatcher) : result error unit :=
  refuse (any_set m) (errorf "%s: %s targets accept only owner and name" [pathName; ht_Kind (hm_target m)]) ;;;
  validateOwnerNameGlobs pathName (ht_Owner (hm_target m)) (ht_Name (hm_target m)).

Definition validateInferenceTarget (pathName : string) (m : HFMatcher) : result error unit :=
  refuse (any_set m) (errorf "%s: inference targets accept only owner and name" [pathName]) ;;;
  validateOwnerNameGlobs pathName (ht_Owner (hm_target m)) (ht_Name (hm_target m)).

Definition validateNoBucketTargetFields (pathName : string) (m : HFMatcher) : result error unit :=
  refuse (hm_keysSet m || hm_snapshotPrefixSet m)
    (errorf "%s: repo targets must not set bucket-only fields" [pathName]).

Definition validateNoRepoTargetFields (pathName : string) (m : HFMatcher) : result error unit :=
  refuse (hm_typeSet m || hm_refsSet m || hm_pathsSet m || hm_visibilitySet m)
    (errorf "%s: bucket targets must not set repo-only fields" [pathName]).

Definition validateRepoTargetType (pathName repoType : string) : result error unit :=
  refuse (negb (validRepoType repoType))
    (errorf "%s.type: must be model, dataset, space, kernel, or *" [pathName]).

Definition validateBucketTargetType (pathName repoType : string) : result error unit :=
  refuse (negb (is_empty repoType)) (errorf "%s.type: bucket targets must not set type" [pathName]).

Definition validRepoVisibility (value : string) : bool := bool_decide (value ∈ validRepoVisibilities).

Definition validateRepoVisibility (pathName : string) (values : list string) (present : bool) : result error unit :=
  refuse (present && (length values =? 0)%nat) (errorf "%s.visibility: must not be empty when set" [pathName]) ;;;
  for_each (λ visibility, refuse (negb (validRepoVisibility visibility))
    (errorf "%s.visibility: unsupported value %q" [pathName; visibility])) values.

Definition validateSnapshotPrefix (pathName value : string) : result error unit :=
  refuse (negb (is_empty value) && (has_prefix "/" value || contains ".." value))
    (errorf "%s.snapshot_prefix: must be a relative prefix" [pathName]).

Definition validateRepoTarget (pathName : string) (m : HFMatcher) : result error unit :=
  let target := hm_target m in
  validateNoBucketTargetFields pathName m ;;;
  validateRepoTargetType pathName (ht_Type target) ;;;
  validateOwnerNameGlobs pathName (ht_Owner target) (ht_Name target) ;;;
  validateOptionalGlobList (pathName +:+ ".refs") (ht_Refs target) (hm_refsSet m) false ;;;
  validateOptionalGlobList (pathName +:+ ".paths") (ht_Paths target) (hm_pathsSet m) true ;;;
  validateRepoVisibility pathName (ht_Visibility target) (hm_visibilitySet m).

Definition validateBucketTarget (pathName : string) (m : HFMatcher) : result error unit :=
  let target := hm_target m in
  validateNoRepoTargetFields pathName m ;;;
  validateBucketTargetType pathName (ht_Type target) ;;;
  validateOwnerNameGlobs pathName (ht_Owner target) (ht_Name target) ;;;
  validateOptionalGlobList (pathName +:+ ".keys") (ht_Keys target) (hm_keysSet m) true ;;;
  validateSnapshotPrefix pathName (ht_SnapshotPrefix target).

Definition validateTarget (pathName : string) (m : HFMatcher) : result error unit :=
  let kind := ht_Kind (hm_target m) in
  if String.eqb kind KindRepo then validateRepoTarget pathName m
  else if String.eqb kind KindBucket then validateBucketTarget pathName m
  else if String.eqb kind KindInference then validateInferenceTarget pathName m
  else
    refuse (negb (knownTargetKind kind)) (errorf "%s.kind: unknown target kind %q" [pathName; kind]) ;;;
    validateGenericTarget pathName m.

Definition parseTargets (pathName : string) (targets : list HFMatcher) : result error (list HFMatcher) :=
  refuse (length targets =? 0)%nat (errorf "%s: must not be empty" [pathName]) ;;;
  refuse (MaxTargetsPerRule <? Z.of_nat (length targets)) (errorf "%s: count exceeds %d" [pathName]) ;;;
  for_each (validateTarget (pathName +:+ "[%d]")) targets ;;;
  Ok targets.

(** ** Attributes *)

Definition knownAttr (key : string) : bool := bool_decide (key ∈ knownAttrs).

(** The parsers answer [Ok None] where the next one is tried; a JSON null decodes to
    the zero value, so it is the number 0. *)
Definition parseNumberAttr (raw : json) : result error (option AttrConstraint) :=
  match (match raw with JNull => Some 0 | JNumber text => parse_int text | _ => None end) with
  | Some number =>
      refuse (number <? 0) (errorf "numeric value must be non-negative" []) ;;;
      Ok (Some (MkAttrConstraint [] (Some number)))
  | None => Ok None
  end.

Definition parseStringAttr (raw : json) : result error (option AttrConstraint) :=
  match unmarshal_string raw with
  | Ok one =>
      refuse (is_empty one) (errorf "string value must not be empty" []) ;;;
      Ok (Some (MkAttrConstraint [one] None))
  | Err _ => Ok None
  end.

Definition validateStringArrayAttr (values : list string) : result error unit :=
  refuse (length values =? 0)%nat (errorf "array must not be empty" []) ;;;
  for_each (λ value, refuse (is_empty value) (errorf "string value must not be empty" [])) values.

Definition parseStringArrayAttr (raw : json) : result error (option AttrConstraint) :=
  match (match raw with
         | JNull => Some []
         | JArray items => match collect unmarshal_string items with Ok many => Some many | Err _ => None end
         | _ => None
         end) with
  | Some many =>
      validateStringArrayAttr many ;;;
      Ok (Some (MkAttrConstraint many None))
  | None => Ok None
  end.

Definition attrParsers : list (json → result error (option AttrConstraint)) :=
  [parseNumberAttr; parseStringAttr; parseStringArrayAttr].

(** The loop of [parseAttrValue]. *)
Fixpoint first_parsed (parsers : list (json → result error (option AttrConstraint))) (raw : json)
    : result error AttrConstraint :=
  match parsers with
  | [] => Err (errorf "must be string, string array, or non-negative integer" [])
  | parser :: rest =>
      parsed ← parser raw;
      match parsed with Some constraint => Ok constraint | None => first_parsed rest raw end
  end.

Definition parseAttrValue (raw : json) : result error AttrConstraint := first_parsed attrParsers raw.

Definition validateNamedConstraint (constraint : AttrConstraint) (required : string) (allowed : list string)
    (invalid : string) : result error unit :=
  refuse (length (ac_Values constraint) =? 0)%nat (errorf "must be %s" [required]) ;;;
  for_each (λ value,
    refuse (negb (bool_decide (value ∈ allowed)))
      (if has_prefix "must" invalid then ErrorNew invalid else errorf "%s %q" [invalid; value]))
    (ac_Values constraint).

Definition validateMaximumConstraint (constraint : AttrConstraint) : result error unit :=
  refuse (bool_decide (ac_Number constraint = None)) (errorf "must be a non-negative integer" []).

Definition boundedValuesConstraint (constraint : AttrConstraint) : result error unit :=
  refuse (bool_decide (is_Some (ac_Number constraint)) || (length (ac_Values constraint) =? 0)%nat)
    (ErrorNew "must be one or more bounded values").

Definition validateGlobConstraint (constraint : AttrConstraint) (message : string) (valid : string → bool)
    : result error unit :=
  refuse (bool_decide (is_Some (ac_Number constraint)) || (length (ac_Values constraint) =? 0)%nat)
    (ErrorNew message) ;;;
  for_each (λ value,
    refuse (negb (String.eqb value "*") && (negb (valid value) || (MaxGlobBytes <? len value))) (ErrorNew message))
    (ac_Values constraint).

Definition ownerNameConstraint (constraint : AttrConstraint) : result error unit :=
  validateGlobConstraint constraint "must be an OWNER/NAME glob" (contains "/").

Definition sourceConstraint (constraint : AttrConstraint) : result error unit :=
  validateGlobConstraint constraint "must be a TYPE/OWNER/NAME glob" (λ value, count_byte "/" value =? 2).

Definition boolConstraintValues : list string := ["true"; "false"; "*"].

(** [namedConstraint] *)
Definition namedConstraint (required : string) (allowed : list string) (invalid : string)
    (constraint : AttrConstraint) : result error unit :=
  validateNamedConstraint constraint required allowed invalid.

(** The keys whose ceiling is a number. *)
Definition maximum_attrs : list string :=
  ["max_bytes"; "max_hosts"; "num_hosts"; "sleep_time_seconds"; "warm_up"].

(** [buildAttrConstraintValidators], as a function of the key. *)
Definition attrConstraintValidators (key : string) : option (AttrConstraint → result error unit) :=
  if bool_decide (key ∈ maximum_attrs) then Some validateMaximumConstraint
  else if bool_decide (key ∈ ["source_path"; "source_ref"; "hardware"; "key"]) then Some boundedValuesConstraint
  else if String.eqb key "ref_change" then
    Some (namedConstraint "a ref change value" validRefChangeAttrs "unsupported ref change")
  else if String.eqb key "private" || String.eqb key "factory_reboot" then
    Some (namedConstraint "true or false" boolConstraintValues "must be true or false")
  else if String.eqb key "sdk" then
    Some (namedConstraint "a Space SDK" ["docker"; "gradio"; "static"; "*"] "unsupported Space SDK")
  else if String.eqb key "visibility" then
    Some (namedConstraint "a visibility" ["public"; "private"; "protected"; "*"] "unsupported visibility")
  else if String.eqb key "gating" then
    Some (namedConstraint "a gating mode" ["auto"; "manual"; "disabled"; "*"] "unsupported gating mode")
  else if String.eqb key "destination" then Some ownerNameConstraint
  else if String.eqb key "source" then Some sourceConstraint
  else None.

Definition validateAttrConstraint (key : string) (constraint : AttrConstraint) : result error unit :=
  match attrConstraintValidators key with None => Ok tt | Some validator => validator constraint end.

(** One entry of the map, with the path or the name in front of its errors. *)
Definition parse_attr (name key : string) (raw : result error json) : result error AttrConstraint :=
  refuse (negb (knownAttr key)) (errorf "%s: unknown attribute" [name]) ;;;
  raw ← match raw with Ok raw => Ok raw | Err _ => Err (errorf "%s: invalid attribute value" [name]) end;
  parsed ← wrap_error "%s: %w" [name] (parseAttrValue raw);
  wrap_error "%s: %w" [name] (validateAttrConstraint key parsed) ;;;
  Ok parsed.

Definition parseAttrs (pathName : string) (raw : gmap string json) : result error (gmap string AttrConstraint) :=
  entries ← collect (λ '(key, value), parsed ← parse_attr (pathName +:+ "." +:+ key) key (Ok value); Ok (key, parsed))
              (map_range raw);
  Ok (list_to_map entries).

(** [json.Marshal] of an attribute value. *)
Definition marshal_any (value : AnyValue) : result error json :=
  match value with
  | AnyInt z => Ok (JNumber (FormatInt z))
  | AnyNumber text => Ok (JNumber text)
  | AnyString s => Ok (JString s)
  | AnyOther marshaled => marshaled
  end.

Definition AttrConstraintsFromValues (attrs : gmap string AnyValue) : result error (gmap string AttrConstraint) :=
  entries ← collect (λ '(key, value), parsed ← parse_attr key key (marshal_any value); Ok (key, parsed))
              (map_range attrs);
  Ok (list_to_map entries).

(** [int64Value] *)
Definition int64Value (value : AnyValue) : option Z :=
  match value with AnyInt z => Some z | AnyNumber text => parse_int text | _ => None end.

Definition attrConstraintMatchesCore (constraint : AttrConstraint) (actual : AnyValue) : bool :=
  match ac_Number constraint with
  | Some ceiling =>
      match int64Value actual with
      | Some number => MatchAll MatchIntegerMaximum [FormatInt ceiling] [FormatInt number]
      | None => false
      end
  | None =>
      match actual with AnyString value => MatchAll MatchGlob (ac_Values constraint) [value] | _ => false end
  end.

Definition AttrValuesMatch (approved actual : gmap string AnyValue) : bool :=
  match AttrConstraintsFromValues approved with
  | Err _ => false
  | Ok constraints =>
      forallb (λ '(key, constraint),
        match actual !! key with Some value => attrConstraintMatchesCore constraint value | None => false end)
        (map_range constraints)
  end.

(** ** Grant policies *)

Definition maxGrantMinutesForOperations (ops : list string) : Z :=
  foldl (λ maximum op, match ByName op with
                       | Some d => Z.min maximum (Z.quot (desc_ApprovalTTLSeconds d) 60)
                       | None => maximum
                       end) MaxGrantMinutes ops.

Definition maxGrantUsesForOperations (ops : list string) : Limit :=
  foldl (λ maximum op, match ByName op with Some d => Z.min maximum (desc_MaxUses d) | None => maximum end)
    MaxFiniteUses ops.

Definition validateGrantableOperations (pathName : string) (ops : list string) : result error unit :=
  for_each (λ op, refuse (bool_decide (info_mode (operation_info op) = GrantModeNone))
    (errorf "%s.mode: operation %s is not grantable" [pathName; op])) ops.

(** The loop of [defaultGrantMode]. *)
Fixpoint default_mode_from (mode : GrantMode) (ops : list string) : GrantMode :=
  match ops with
  | [] => mode
  | op :: rest =>
      let next := info_mode (operation_info op) in
      if bool_decide (next = GrantModeNone) then default_mode_from mode rest
      else if bool_decide (mode = GrantModeNone) then default_mode_from next rest
      else if bool_decide (mode = next) then default_mode_from mode rest
      else GrantModeWindow
  end.

Definition defaultGrantMode (ops : list string) : GrantMode := default_mode_from GrantModeNone ops.

Definition defaultGrantPolicy (mode : GrantMode) (ops : list string) : GrantPolicy :=
  let maxUses := if bool_decide (mode = GrantModeExecution) then SingleUse else maxGrantUsesForOperations ops in
  MkGrantPolicy mode DefaultGrantMinutes (maxGrantMinutesForOperations ops) DefaultRequestTTL maxUses maxUses.

Definition grant_mode_of (text : string) : GrantMode :=
  if String.eqb text "window" then GrantModeWindow
  else if String.eqb text "execution" then GrantModeExecution
  else GrantModeOther text.

Definition assignGrantMode (policy : GrantPolicy) (mode : option string) : result error GrantPolicy :=
  match mode with
  | None => Ok policy
  | Some text =>
      match grant_mode_of text with
      | GrantModeOther _ => Err (errorf "mode must be window or execution" [])
      | m => Ok (set_gp_Mode m policy)
      end
  end.

(** [assignInt] *)
Definition assignInt (target : Z) (value : option Z) : Z := default target value.

Definition assignGrantPolicyInts (policy : GrantPolicy) (raw : HFRawGrantPolicy) : GrantPolicy :=
  MkGrantPolicy (gp_Mode policy) (assignInt (gp_DefaultMinutes policy) (hrgp_DefaultMinutes raw))
    (assignInt (gp_MaxMinutes policy) (hrgp_MaxMinutes raw))
    (assignInt (gp_RequestTTLMinutes policy) (hrgp_RequestTTLMinutes raw))
    (if optional_Specified (hrgp_DefaultMaxUses raw) then optional_Limit (hrgp_DefaultMaxUses raw)
     else gp_DefaultMaxUses policy)
    (if optional_Specified (hrgp_MaxUses raw) then optional_Limit (hrgp_MaxUses raw) else gp_MaxUses policy).

Definition set_gp_uses (defaultMaxUses maxUses : Limit) (policy : GrantPolicy) : GrantPolicy :=
  MkGrantPolicy (gp_Mode policy) (gp_DefaultMinutes policy) (gp_MaxMinutes policy) (gp_RequestTTLMinutes policy)
    defaultMaxUses maxUses.

Definition defaultGrantMaxUses (policy : GrantPolicy) (raw : HFRawGrantPolicy) (ops : list string) : GrantPolicy :=
  if optional_Specified (hrgp_DefaultMaxUses raw) then policy
  else set_gp_uses (if IsUnlimited (gp_MaxUses policy) then maxGrantUsesForOperations ops else gp_MaxUses policy)
         (gp_MaxUses policy) policy.

(** [grantPolicyBound] and [validateGrantPolicyBounds]: value, minimum, maximum and message. *)
Definition bound_invalid (bound : Z * Z * Z * string) : bool :=
  let '(value, minimum, maximum, _) := bound in (value <? minimum) || (maximum <? value).

Definition validateGrantPolicyBounds (bounds : list (Z * Z * Z * string)) : result error unit :=
  for_each (λ bound, refuse (bound_invalid bound) (errorf (snd bound) [])) bounds.

Definition validateGrantDurationPolicy (policy : GrantPolicy) (ops : list string) : result error unit :=
  let maxMinutes := maxGrantMinutesForOperations ops in
  validateGrantPolicyBounds
    [(gp_DefaultMinutes policy, 1, maxMinutes, "default_minutes must be between 1 and %d"%string);
     (gp_MaxMinutes policy, gp_DefaultMinutes policy, maxMinutes, "max_minutes must be between default_minutes and %d"%string);
     (gp_RequestTTLMinutes policy, 1, MaxRequestTTLMinutes, "request_ttl_minutes must be between 1 and %d"%string)].

Definition executionGrantPolicy (policy : GrantPolicy) : GrantPolicy := set_gp_uses SingleUse SingleUse policy.

Definition validateGrantUsePolicy (policy : GrantPolicy) : result error unit :=
  if IsUnlimited (gp_MaxUses policy) then
    refuse (negb (IsFinite (gp_DefaultMaxUses policy)) || (MaxGrantUses <? gp_DefaultMaxUses policy))
      (errorf "default_max_uses must be between 1 and %d" [])
  else
    validateGrantPolicyBounds
      [(gp_DefaultMaxUses policy, 1, MaxGrantUses, "default_max_uses must be between 1 and %d"%string);
       (gp_MaxUses policy, gp_DefaultMaxUses policy, MaxGrantUses, "max_uses must be between default_max_uses and %d"%string)].

Definition normalizeGrantPolicy (raw : HFRawGrantPolicy) (defaultMode : GrantMode) (ops : list string)
    : result error GrantPolicy :=
  policy ← assignGrantMode (defaultGrantPolicy defaultMode ops) (hrgp_Mode raw);
  let policy := defaultGrantMaxUses (assignGrantPolicyInts policy raw) raw ops in
  validateGrantDurationPolicy policy ops ;;;
  if bool_decide (gp_Mode policy = GrantModeExecution) then Ok (executionGrantPolicy policy)
  else validateGrantUsePolicy policy ;;; Ok policy.

Definition parseGrantPolicy (pathName : string) (effect : Effect) (ops : list string)
    (raw : option HFRawGrantPolicy) : result error (option GrantPolicy) :=
  if negb (bool_decide (effect = EffectRequest)) then
    refuse (bool_decide (is_Some raw)) (errorf "%s: only request rules may set grant_policy" [pathName]) ;;;
    Ok None
  else
    raw ← option_ok raw (errorf "%s: request rules require grant_policy" [pathName]);
    validateGrantableOperations pathName ops ;;;
    policy ← wrap_error "%s: %w" [pathName] (normalizeGrantPolicy raw (defaultGrantMode ops) ops);
    refuse (bool_decide (gp_Mode policy = GrantModeNone))
      (errorf "%s.mode: operation is not grantable" [pathName]) ;;;
    Ok (Some policy).

(** ** Rules *)

Definition validRuleID (id : string) : bool :=
  negb (is_empty id) && (len id <=? MaxRuleIDBytes) && String.eqb (trim_space id) id.

Definition parseRuleID (prefix : string) (raw : HFRawRule) : result error string :=
  refuse (negb (validRuleID (hraw_ID raw))) (errorf "%s.id: must be 1-%d bytes" [prefix]) ;;;
  Ok (hraw_ID raw).

Definition parseEffect (value : string) : result error Effect :=
  if String.eqb value "allow" then Ok EffectAllow
  else if String.eqb value "request" then Ok EffectRequest
  else if String.eqb value "deny" then Ok EffectDeny
  else Err (errorf "must be allow, request, or deny" []).

Definition parseRuleEffect (prefix : string) (raw : HFRawRule) : result error Effect :=
  wrap_error "%s.effect: %w" [prefix] (parseEffect (hraw_Effect raw)).

Definition validateRequiredCount (path : string) (count maxCount : Z) : result error unit :=
  refuse (count =? 0) (errorf "%s: must not be empty" [path]) ;;;
  refuse (maxCount <? count) (errorf "%s: count exceeds %d" [path]).

Definition validClientName (value : string) : bool :=
  negb (is_empty value)
  && negb (contains_any (String " " (String "009" (String "013" (String "010" EmptyString)))) value).

(** The loop of [validateUniqueStrings]. *)
Fixpoint unique_from (path : string) (seen values : list string) (valid : string → bool) : result error unit :=
  match values with
  | [] => Ok tt
  | value :: rest =>
      refuse (negb (valid value)) (errorf "%s: invalid client %q" [path; value]) ;;;
      refuse (bool_decide (value ∈ seen)) (errorf "%s: duplicate client %q" [path; value]) ;;;
      unique_from path (value :: seen) rest valid
  end.

Definition validateUniqueStrings (path : string) (values : list string) (valid : string → bool) : result error unit :=
  unique_from path [] values valid.

Definition parseClients (path : string) (values : list string) : result error (list string) :=
  validateRequiredCount path (Z.of_nat (length values)) MaxClientsPerRule ;;;
  validateUniqueStrings path values validClientName ;;;
  Ok values.

(** [slices.Sort] of the matching names. *)
Definition expandOperationFamily (value : string) : result error (list string) :=
  match operationFamilyPrefixes !! value with
  | None => Err (errorf "invalid operation-family glob %q" [value])
  | Some prefix =>
      Ok (CanonicalStringSlice
            (List.filter (λ op, has_prefix prefix op && negb (info_explicitOnly (operation_info op)))
               (map_range operations).*1))
  end.

Definition expandOperation (value : string) : result error (list string) :=
  if has_suffix ".*" value then expandOperationFamily value
  else
    refuse (negb (IsOperation value)) (errorf "unknown operation %q" [value]) ;;;
    Ok [value].

(** The loops of [parseOperations]. *)
Fixpoint operations_from (pathName : string) (out values : list string) : result error (list string) :=
  match values with
  | [] => Ok out
  | value :: rest =>
      expanded ← wrap_error "%s: %w" [pathName] (expandOperation value);
      operations_from pathName
        (foldl (λ out op, if bool_decide (op ∈ out) then out else out ++ [op]) out expanded) rest
  end.

Definition parseOperations (pathName : string) (values : list string) : result error (list string) :=
  refuse (length values =? 0)%nat (errorf "%s: must not be empty" [pathName]) ;;;
  refuse (MaxOperationsPerRule <? Z.of_nat (length values)) (errorf "%s: count exceeds %d" [pathName]) ;;;
  operations_from pathName [] values.

Definition validateRuleOperationTargets (prefix : string) (ops : list string) (targets : list HFMatcher)
    : result error unit :=
  for_each (λ op,
    for_each (λ m,
      refuse (negb (String.eqb (ht_Kind (hm_target m)) (operationTargetKind op)))
        (errorf "%s.targets[%d]: operation %s requires %s target" [prefix; op; operationTargetKind op])) targets) ops.

(** [parseRuleFields] runs the parsers of [ruleFieldParsers] in order. *)
Definition parseRuleFields (prefix : string) (raw : HFRawRule) : result error HFRule :=
  id ← parseRuleID prefix raw;
  effect ← parseRuleEffect prefix raw;
  clients ← parseClients (prefix +:+ ".clients") (hraw_Clients raw);
  ops ← parseOperations (prefix +:+ ".operations") (hraw_Operations raw);
  targets ← parseTargets (prefix +:+ ".targets") (hraw_Targets raw);
  attrs ← parseAttrs (prefix +:+ ".attrs") (hraw_Attrs raw);
  grantPolicy ← parseGrantPolicy (prefix +:+ ".grant_policy") effect ops (hraw_GrantPolicy raw);
  Ok (MkHFRule id effect clients ops targets attrs (hraw_CredentialUses raw) grantPolicy (hraw_Description raw)
        false EmptyString 0 0 false).

Definition parseRule (raw : HFRawRule) : result error HFRule :=
  let prefix := "scope.json rules[%d]"%string in
  rule ← parseRuleFields prefix raw;
  validateRuleOperationTargets prefix (hf_Operations rule) (hf_Targets rule) ;;;
  Ok rule.

(** The loop of [buildPolicy]. *)
Fixpoint build_rules (ids : list string) (rawRules : list HFRawRule) : result error (list HFRule) :=
  match rawRules with
  | [] => Ok []
  | raw :: rest =>
      rule ← parseRule raw;
      refuse (bool_decide (hf_ID rule ∈ ids)) (errorf "scope.json rules[%d].id: duplicate rule id %q" [hf_ID rule]) ;;;
      rules ← build_rules (hf_ID rule :: ids) rest;
      Ok (rule :: rules)
  end.
End policy.
