(* ===== verification/HFCore.v ===== *)
(** * The Hugging Face policy, compiled: [brokers/huggingface/internal/policy/core.go]

    The registry of the shared policy that the catalog gives, the three shared
    policies a scope file is compiled to (for normal requests, for support requests
    that ignore refs, and for the discovery step of a push), the decisions taken
    with them, and the checks of requests in policy.go. *)

From S2P Require Export HFPolicy.
From Stdlib Require Import Ascii.

Local Open Scope Z_scope.

Inductive coreView : Type := coreViewNormal | coreViewSupport | coreViewDiscovery.

#[export] Instance coreView_eq_dec : EqDecision coreView.
Proof. solve_decision. Defined.

(** [coreRule]: the values of a target map are strings and lists of strings. *)
Record coreRule : Type := MkCoreRule {
  core_ID : string;
  core_Effect : Effect;
  core_Clients : list string;
  core_Operations : list string;
  core_Targets : list (gmap string json);
  core_Attrs : StringListMap;
  core_CredentialUses : list CredentialUse;
  core_GrantPolicy : option GrantPolicy
}.

(** [json.Marshal] of a [coreDocument] and the decoding in [corepolicy.Parse]. *)
Class CoreJSON : Type := {
  core_marshal : list coreRule → result error string;
  core_decode : string → result error (option (list rawRule))
}.

(** [corePolicies] *)
Record corePolicies : Type := MkCorePolicies {
  cp_normal : Policy;
  cp_support : Policy;
  cp_discovery : Policy
}.

(** [Policy] *)
Record HFPolicy : Type := MkHFPolicy {
  hfp_rules : list HFRule;
  hfp_core : corePolicies;
  hfp_coreRuleIDs : gmap string string
}.

(** [Decision] *)
Record HFDecision : Type := MkHFDecision {
  hfd_Effect : Effect;
  hfd_Reason : Reason;
  hfd_CredentialUse : CredentialUse;
  hfd_MatchedDenyRuleIDs : list string;
  hfd_MatchedGrantRuleIDs : list string;
  hfd_MatchedAllowRuleIDs : list string;
  hfd_MatchedRequestRuleIDs : list string;
  hfd_GrantID : string;
  hfd_GrantPolicy : option GrantPolicy
}.

Section core.
Context {R : MapRange} {CT : Catalog} {CJ : CoreJSON}.

(** ** The registry *)

Definition no_match_mode : MatchMode := MatchOther EmptyString.

Definition ownerNameTargetFields : gmap string FieldSpec :=
  {[ "owner" := MkFieldSpec true no_match_mode; "name" := MkFieldSpec true no_match_mode ]}.

Definition grant_mode_of_authorization (mode : AuthorizationMode) : GrantMode :=
  match mode with
  | ModeWindow => GrantModeWindow
  | ModeExecution => GrantModeExecution
  | ModeOther text => grant_mode_of text
  end.

Definition hfAuthorizationModes (values : list AuthorizationMode) : list GrantMode :=
  grant_mode_of_authorization <$> values.

Definition hfAttributeSpecs : gmap string AttrSpec :=
  list_to_map ((λ name,
    (name, if bool_decide (name ∈ maximum_attrs)
           then MkAttrSpec MatchIntegerMaximum MatchIntegerMaximum true
           else MkAttrSpec no_match_mode MatchAnyGlob true)) <$> knownAttrs).

Definition repo_target_spec : TargetSpec := MkTargetSpec
  {[ "type" := MkFieldSpec true no_match_mode; "owner" := MkFieldSpec true no_match_mode;
     "name" := MkFieldSpec true no_match_mode; "refs" := MkFieldSpec false MatchPathGlob;
     "paths" := MkFieldSpec false MatchRecursivePathGlob; "visibility" := MkFieldSpec false MatchAnyGlob ]}.

Definition bucket_target_spec : TargetSpec := MkTargetSpec
  {[ "owner" := MkFieldSpec true no_match_mode; "name" := MkFieldSpec true no_match_mode;
     "keys" := MkFieldSpec false MatchRecursivePathGlob;
     "mutable_keys" := MkFieldSpec false MatchPathOutsidePrefix ]}.

(** The [spec] of one operation in [hfRegistry]. *)
Definition hf_operation_spec (op : string) (info : operationInfo) : OperationSpec :=
  let grantable := negb (bool_decide (info_mode info = GrantModeNone)) in
  let uses := if String.eqb op OpGitFetch then [CredentialUseNone; CredentialUseManaged] else [] in
  match (if grantable then ByName op else None) with
  | Some d =>
      MkOperationSpec [info_targetKind info] KnownAttributeNames uses grantable
        (grant_mode_of_authorization (desc_DefaultAuthorizationMode d))
        (hfAuthorizationModes (default [] (desc_AuthorizationModes d)))
        (Z.quot (desc_ApprovalTTLSeconds d) 60) (desc_MaxUses d) false
  | None =>
      MkOperationSpec [info_targetKind info] KnownAttributeNames uses grantable
        (GrantModeOther EmptyString) [] 0 0 false
  end.

(** The target kinds: the loop adds a kind that is not there yet. *)
Definition hf_targets : gmap string TargetSpec :=
  foldl (λ targets '(_, info),
    match targets !! info_targetKind info with
    | Some _ => targets
    | None => <[info_targetKind info := MkTargetSpec ownerNameTargetFields]> targets
    end)
    {[ KindRepo := repo_target_spec; KindBucket := bucket_target_spec;
       KindInference := MkTargetSpec ownerNameTargetFields ]}
    (map_range operations).

Definition hfRegistry : Registry :=
  MkRegistry (map_imap (λ op info, Some (hf_operation_spec op info)) operations) hf_targets hfAttributeSpecs.

Definition AuthorizationRegistry : Registry := hfRegistry.

(** ** Compiling a rule *)

(** [strings.NewReplacer(`\`, `\\`, `*`, `\*`, `?`, `\?`, `[`, `\[`).Replace] *)
Fixpoint escape_glob (client : string) : string :=
  match client with
  | EmptyString => EmptyString
  | String c rest =>
      if contains (String c EmptyString) "\*?["
      then String "\" (String c (escape_glob rest)) else String c (escape_glob rest)
  end.

Definition coreClientPatterns (clients : list string) : list string :=
  (λ client, if String.eqb client "*" then client else escape_glob client) <$> clients.

Definition coreRuleID (id op : string) : string := id +:+ "@" +:+ op.

Definition operationUsesRefs (op : string) : bool := bool_decide (op ∈ refScopedOperations).

Definition bucketOperationMutatesObjects (op : string) : bool :=
  bool_decide (op ∈ [OpBucketObjectWrite; OpBucketObjectDel; "bucket.batch.apply"; "bucket.sync.apply"]).

Definition nonEmpty (value fallback : string) : string := if is_empty value then fallback else value.

Definition json_strings (values : list string) : json := JArray (JString <$> values).

(** [if len(values) > 0 { out[name] = values }] *)
Definition add_values (name : string) (values : list string) (out : gmap string json) : gmap string json :=
  match values with [] => out | _ => <[name := json_strings values]> out end.

Definition addCoreRepoMatcherRefs (out : gmap string json) (target : HFTarget) (op : string) (view : coreView)
    : gmap string json :=
  if bool_decide (view = coreViewNormal) && operationUsesRefs op then add_values "refs" (ht_Refs target) out else out.

Definition addCoreRepoMatcherMetadata (out : gmap string json) (target : HFTarget) : gmap string json :=
  add_values "visibility" (ht_Visibility target) (add_values "paths" (ht_Paths target) out).

Definition addCoreRepoMatcherFields (out : gmap string json) (target : HFTarget) (op : string) (view : coreView)
    : gmap string json :=
  let out := <["type" := JString (nonEmpty (ht_Type target) "*")]> out in
  let out := addCoreRepoMatcherRefs out target op view in
  if bool_decide (view = coreViewDiscovery) then out else addCoreRepoMatcherMetadata out target.

Definition addCoreBucketMatcherFields (out : gmap string json) (target : HFTarget) (op : string) : gmap string json :=
  let out := add_values "keys" (ht_Keys target) out in
  if bucketOperationMutatesObjects op && negb (is_empty (ht_SnapshotPrefix target))
  then <["mutable_keys" := JString (ht_SnapshotPrefix target)]> out else out.

Definition coreTargetMatcher (target : HFTarget) (op : string) (view : coreView) : gmap string json :=
  let out := {[ "kind" := JString (ht_Kind target); "owner" := JString (ht_Owner target);
                "name" := JString (ht_Name target) ]} in
  if String.eqb (ht_Kind target) KindRepo then addCoreRepoMatcherFields out target op view
  else if String.eqb (ht_Kind target) KindInference then out
  else if String.eqb (ht_Kind target) KindBucket then addCoreBucketMatcherFields out target op
  else out.

Definition no_values (values : list string) : bool := (length values =? 0)%nat.

Definition discoveryTargetEligible (rule : HFRule) (target : HFTarget) : bool :=
  if negb (String.eqb (ht_Kind target) KindRepo) then false
  else if negb (bool_decide (hf_Effect rule = EffectDeny)) then true
  else no_values (ht_Refs target) && no_values (ht_Paths target) && no_values (ht_Visibility target).

(** A target of the rule that takes part in the view. *)
Definition target_in_view (rule : HFRule) (view : coreView) (target : HFTarget) : bool :=
  if bool_decide (view = coreViewSupport) && bool_decide (hf_Effect rule = EffectDeny)
     && negb (no_values (ht_Refs target)) then false
  else if bool_decide (view = coreViewDiscovery) && negb (discoveryTargetEligible rule target) then false
  else true.

Definition coreTargets (rule : HFRule) (op : string) (view : coreView) : list (gmap string json) :=
  (λ target, coreTargetMatcher target op view)
    <$> List.filter (target_in_view rule view) (hm_target <$> hf_Targets rule).

(** The values of a constraint in the shared policy. *)
Definition constraint_values (constraint : AttrConstraint) : list string :=
  match ac_Number constraint with Some number => [FormatInt number] | None => ac_Values constraint end.

Definition coreRuleAttrs (rule : HFRule) (view : coreView) : StringListMap :=
  if bool_decide (view = coreViewDiscovery) then ∅
  else map_imap (λ key constraint,
         if bool_decide (view = coreViewSupport) && negb (bool_decide (hf_Effect rule = EffectDeny))
            && String.eqb key "ref_change" then None
         else Some (constraint_values constraint)) (hf_Attrs rule).

(** [coreGrantPolicy] copies field by field. *)
Definition coreGrantPolicy (value : option GrantPolicy) : option GrantPolicy := value.

Definition coreGrantPolicyForView (value : option GrantPolicy) (op : string) (view : coreView) : option GrantPolicy :=
  if bool_decide (value = None) || bool_decide (view = coreViewNormal) then coreGrantPolicy value
  else
    let mode := info_mode (operation_info op) in
    let '(maxMinutes, maxUses) :=
      match ByName op with
      | Some d => (Z.quot (desc_ApprovalTTLSeconds d) 60, desc_MaxUses d)
      | None => (DefaultGrantMinutes, 1)
      end in
    let maxUses := if bool_decide (mode = GrantModeExecution) then 1 else maxUses in
    Some (MkGrantPolicy mode (Z.min DefaultGrantMinutes maxMinutes) maxMinutes DefaultRequestTTL maxUses maxUses).

Definition coreRuleForOperation (rule : HFRule) (op : string) (view : coreView) : option coreRule :=
  if bool_decide (view = coreViewDiscovery) && negb (String.eqb (operationTargetKind op) KindRepo) then None
  else if bool_decide (view = coreViewDiscovery) && bool_decide (hf_Effect rule = EffectDeny)
          && negb (bool_decide (hf_Attrs rule = ∅)) then None
  else
    match coreTargets rule op view with
    | [] => None
    | targets =>
        Some (MkCoreRule (coreRuleID (hf_ID rule) op) (hf_Effect rule) (coreClientPatterns (hf_Clients rule)) [op]
                targets (coreRuleAttrs rule view) (hf_CredentialUses rule)
                (coreGrantPolicyForView (hf_GrantPolicy rule) op view))
    end.

(** The document of a view: each rule with the rule it comes from. *)
Definition core_rules (rules : list HFRule) (view : coreView) : list (HFRule * coreRule) :=
  r ← rules; op ← hf_Operations r;
  match coreRuleForOperation r op view with Some c => [(r, c)] | None => [] end.

Definition buildCorePolicy (rules : list HFRule) (view : coreView) (ids : gmap string string)
    : result error (Policy * gmap string string) :=
  let document := core_rules rules view in
  let ids := foldl (λ ids '(r, c), <[core_ID c := hf_ID r]> ids) ids document in
  body ← core_marshal document.*2;
  policy ← PolicyParse.Parse core_decode body hfRegistry;
  Ok (policy, ids).

(** [initializeCore] *)
Definition initializeCore (rules : list HFRule) : result error HFPolicy :=
  '(normal, ids) ← wrap_error "build unyolo policy: %w" [] (buildCorePolicy rules coreViewNormal ∅);
  '(support, ids) ← wrap_error "build unyolo support policy: %w" [] (buildCorePolicy rules coreViewSupport ids);
  '(discovery, ids) ← wrap_error "build unyolo discovery policy: %w" [] (buildCorePolicy rules coreViewDiscovery ids);
  Ok (MkHFPolicy rules (MkCorePolicies normal support discovery) ids).

Definition buildPolicy (rawRules : list HFRawRule) : result error HFPolicy :=
  refuse (MaxRules <? Z.of_nat (length rawRules)) (errorf "scope.json rules: count exceeds %d" []) ;;;
  rules ← build_rules [] rawRules;
  initializeCore rules.

(** [Parse]; [decodeStrict] is the strict JSON decoding of the scope file. *)
Definition HF_Parse (decodeStrict : string → result error (list HFRawRule)) (data : string) : result error HFPolicy :=
  refuse (MaxPolicyFileSizeBytes <? len data) (errorf "scope.json: file larger than %d bytes" []) ;;;
  raw ← wrap_error "parse scope file: %w" [] (decodeStrict data);
  buildPolicy raw.

(** ** Requests *)

Definition add_field (name : string) (values : list string) (fields : StringListMap) : StringListMap :=
  match values with [] => fields | _ => <[name := values]> fields end.

Definition addCoreRepoRequestRefs (fields : StringListMap) (target : HFTarget) (op : string) (view : coreView)
    : StringListMap :=
  if bool_decide (view = coreViewNormal) && operationUsesRefs op then add_field "refs" (ht_Refs target) fields
  else fields.

Definition addCoreRepoRequestMetadata (fields : StringListMap) (target : HFTarget) : StringListMap :=
  add_field "visibility" (ht_Visibility target) (add_field "paths" (ht_Paths target) fields).

Definition addCoreRepoRequestFields (fields : StringListMap) (target : HFTarget) (op : string) (view : coreView)
    : StringListMap :=
  let fields := <["type" := [ht_Type target]]> fields in
  let fields := addCoreRepoRequestRefs fields target op view in
  if bool_decide (view = coreViewDiscovery) then fields else addCoreRepoRequestMetadata fields target.

Definition addCoreBucketRequestFields (fields : StringListMap) (target : HFTarget) (op : string) : StringListMap :=
  match ht_Keys target with
  | [] => fields
  | keys =>
      let fields := <["keys" := keys]> fields in
      if bucketOperationMutatesObjects op then <["mutable_keys" := keys]> fields else fields
  end.

Definition coreTargetFromHF (target : HFTarget) (op : string) (view : coreView) : Target :=
  let fields := {[ "owner" := [ht_Owner target]; "name" := [ht_Name target] ]} in
  MkTarget (ht_Kind target)
    (if String.eqb (ht_Kind target) KindRepo then addCoreRepoRequestFields fields target op view
     else if String.eqb (ht_Kind target) KindBucket then addCoreBucketRequestFields fields target op
     else fields).

Definition canonicalCoreAttr (key : string) (value : AnyValue) : string :=
  if bool_decide (key ∈ maximum_attrs) then
    match int64Value value with Some number => FormatInt number | None => "invalid" end
  else if negb (bool_decide (key ∈ knownAttrs)) then EmptyString
  else match value with AnyString text => if is_empty text then "invalid"%string else text | _ => "invalid" end.

Definition coreAttrsFromHF (attrs : gmap string AnyValue) (view : coreView) : StringListMap :=
  map_imap (λ key value,
    if negb (bool_decide (view = coreViewNormal)) && String.eqb key "ref_change" then None
    else
      let canonical := canonicalCoreAttr key value in
      if is_empty canonical then None else Some [canonical]) attrs.

Definition coreRequestFromHF (req : HFRequest) (view : coreView) : Request :=
  MkRequest (hfr_Client req) (hfr_Operation req)
    (coreTargetFromHF (hfr_Target req) (hfr_Operation req) view) (coreAttrsFromHF (hfr_Attrs req) view).

Definition AuthorizationRequest (req : HFRequest) : Request := coreRequestFromHF req coreViewNormal.

Definition validRequestSegment (value : string) : bool :=
  negb (is_empty value) && negb (String.eqb value "..")
  && negb (contains_any (String " " (String "009" (String "013" (String "010" (String "/" (String "000" (String "*"
             (String "?" EmptyString)))))))) value).

Definition validConcreteRepoType (value : string) : bool := validRepoType value && negb (String.eqb value TypeAny).

Definition validateRepoListTarget (target : HFTarget) : result error unit :=
  refuse (negb (validConcreteRepoType (ht_Type target)) || negb (validRequestSegment (ht_Owner target)))
    (ErrorNew "invalid repo list target").

Definition validateOwnerListTarget (target : HFTarget) (kind : string) : result error unit :=
  refuse (negb (validRequestSegment (ht_Owner target))) (errorf "invalid %s list target" [kind]).

(** A list request over every name: the operation, the kind and the name star. *)
Definition wildcard_list (op kind : string) (req : HFRequest) : bool :=
  String.eqb (hfr_Operation req) op && String.eqb (ht_Kind (hfr_Target req)) kind
  && String.eqb (ht_Name (hfr_Target req)) "*".

Definition isWildcardRepoList : HFRequest → bool := wildcard_list OpRepoList KindRepo.
Definition isWildcardBucketList : HFRequest → bool := wildcard_list "bucket.list" KindBucket.
Definition isWildcardJobList : HFRequest → bool := wildcard_list "job.list" "job".

Definition validateNamedRequestTarget (target : HFTarget) (kind : string) : result error unit :=
  refuse (negb (validRequestSegment (ht_Owner target)) || negb (validRequestSegment (ht_Name target)))
    (errorf "invalid %s target" [kind]).

Definition validateRepoRequestTarget (target : HFTarget) : result error unit :=
  refuse (negb (validConcreteRepoType (ht_Type target)) || negb (validRequestSegment (ht_Owner target))
          || negb (validRequestSegment (ht_Name target))) (errorf "invalid repo target" []).

Definition validateRequestTarget (target : HFTarget) : result error unit :=
  if String.eqb (ht_Kind target) KindRepo then validateRepoRequestTarget target
  else if String.eqb (ht_Kind target) KindBucket then validateNamedRequestTarget target "bucket"
  else if String.eqb (ht_Kind target) KindInference then validateNamedRequestTarget target "inference"
  else
    refuse (negb (knownTargetKind (ht_Kind target))) (errorf "invalid target kind" []) ;;;
    validateNamedRequestTarget target (ht_Kind target).

Definition validatePolicyRequestTarget (req : HFRequest) : result error unit :=
  if isWildcardRepoList req then validateRepoListTarget (hfr_Target req)
  else if isWildcardBucketList req then validateOwnerListTarget (hfr_Target req) "bucket"
  else if isWildcardJobList req then validateOwnerListTarget (hfr_Target req) "job"
  else validateRequestTarget (hfr_Target req).

(** The characters no exact value has: the zero byte and the wildcards. *)
Definition wildcard_chars : string := String "000" (String "*" (String "?" EmptyString)).

Definition validateExactTargetConstraints (target : HFTarget) : result error unit :=
  for_each (λ values,
    for_each (λ value,
      refuse (is_empty value || (MaxGlobBytes <? len value) || contains_any wildcard_chars value)
        (ErrorNew "target constraints must be exact bounded values")) values)
    [ht_Refs target; ht_Paths target; ht_Keys target; ht_Visibility target].

Definition validExactGrantConstraint (value : string) : bool :=
  negb (is_empty value) && (len value <=? MaxGlobBytes) && negb (contains_any wildcard_chars value).

Definition validGrantPrefixConstraint (value : string) : bool :=
  has_suffix "/**" value
  && (let prefix := trim_suffix "/**" value in
      negb (is_empty prefix) && (len value <=? MaxGlobBytes) && negb (contains_any wildcard_chars prefix)).

Definition validExactGrantConstraints (groups : list (list string)) : bool :=
  forallb (forallb validExactGrantConstraint) groups.

Definition validGrantPathConstraints (groups : list (list string)) : bool :=
  forallb (forallb (λ value, validExactGrantConstraint value || validGrantPrefixConstraint value)) groups.

Definition validateGrantTargetConstraints (target : HFTarget) : result error unit :=
  refuse (negb (validExactGrantConstraints [ht_Refs target; ht_Visibility target]))
    (ErrorNew "grant refs and visibility constraints must be exact bounded values") ;;;
  refuse (negb (validGrantPathConstraints [ht_Paths target; ht_Keys target]))
    (ErrorNew "grant path and key constraints must be exact values or bounded /** prefixes").

Definition validateScopedRequest (req : HFRequest) (validateConstraints : HFTarget → result error unit)
    : result error unit :=
  info ← option_ok (operations !! hfr_Operation req) (ErrorNew "invalid operation");
  refuse (negb (String.eqb (ht_Kind (hfr_Target req)) (info_targetKind info)))
    (errorf "operation %s requires %s target" [hfr_Operation req; info_targetKind info]) ;;;
  validatePolicyRequestTarget req ;;;
  _ ← AttrConstraintsFromValues (hfr_Attrs req);
  validateConstraints (hfr_Target req) ;;;
  validateRequest hfRegistry (AuthorizationRequest req).

(** [ValidateRequest] *)
Definition HF_ValidateRequest (req : HFRequest) : result error unit :=
  validateScopedRequest req validateExactTargetConstraints.

Definition ValidateGrantRequest (req : HFRequest) : result error unit :=
  validateScopedRequest req validateGrantTargetConstraints.

(** ** Grants *)

Definition coreAttrsFromConstraints (attrs : gmap string AttrConstraint) (view : coreView) : StringListMap :=
  if bool_decide (view = coreViewDiscovery) then ∅
  else map_imap (λ key constraint,
         if bool_decide (view = coreViewSupport) && String.eqb key "ref_change" then None
         else Some (constraint_values constraint)) attrs.

Definition concreteTargetFromMatcher (target : HFTarget) : HFTarget :=
  MkHFTarget (ht_Kind target) (ht_Type target) (ht_Owner target) (ht_Name target) (ht_Refs target)
    (ht_Paths target) (ht_Visibility target) (ht_Keys target) EmptyString.

(** One rule of the loop of [coreGrants]. *)
Definition core_grant (view : coreView) (rule : HFRule) : option PolicyGrant :=
  if negb (hf_Generated rule) || negb (bool_decide (hf_Effect rule = EffectAllow)) then None
  else
    match hf_Operations rule, hf_Targets rule with
    | [op], [m] =>
        Some (MkPolicyGrant (nonEmpty (hf_GrantID rule) (hf_ID rule)) (FirstValue (hf_Clients rule)) op
                (coreTargetFromHF (concreteTargetFromMatcher (hm_target m)) op view)
                (coreAttrsFromConstraints (hf_Attrs rule) view) (hf_ExpiresAt rule) (hf_UsesLeft rule)
                (hf_Unlimited rule))
    | _, _ => None
    end.

Definition coreGrants (rules : list HFRule) (view : coreView) : list PolicyGrant := omap (core_grant view) rules.

Definition AuthorizationGrants (rules : list HFRule) : list PolicyGrant := coreGrants rules coreViewNormal.

Definition GeneratedGrantRule (id client op : string) (target : HFTarget) (expiresAt : Time) (usesLeft : Z) : HFRule :=
  MkHFRule id EffectAllow [client] [op]
    [MkHFMatcher (MkHFTarget (ht_Kind target) (ht_Type target) (ht_Owner target) (ht_Name target) (ht_Refs target)
       (ht_Paths target) (ht_Visibility target) (ht_Keys target) EmptyString) false false false false false false]
    ∅ [] None EmptyString true id expiresAt usesLeft false.

(** ** Decisions *)

Section decide.
Context (clock : Time).

Definition coreForView (p : HFPolicy) (view : coreView) : Policy :=
  match view with
  | coreViewSupport => cp_support (hfp_core p)
  | coreViewDiscovery => cp_discovery (hfp_core p)
  | coreViewNormal => cp_normal (hfp_core p)
  end.

(** The loop of [originalRuleIDs]. *)
Fixpoint original_from (p : HFPolicy) (out values : list string) : list string :=
  match values with
  | [] => out
  | value :: rest =>
      let original := nonEmpty (default EmptyString (hfp_coreRuleIDs p !! value)) value in
      original_from p (if bool_decide (original ∈ out) then out else out ++ [original]) rest
  end.

Definition originalRuleIDs (p : HFPolicy) (values : list string) : list string := original_from p [] values.

(** [grantPolicyFromCore] copies field by field. *)
Definition grantPolicyFromCore (value : option GrantPolicy) : option GrantPolicy := value.

Definition originalGrantPolicy (p : HFPolicy) (ruleIDs : list string) (fallback : option GrantPolicy)
    : option GrantPolicy :=
  match omap (λ '(id, rule), if String.eqb (hf_ID rule) id then hf_GrantPolicy rule else None)
          (id ← ruleIDs; rule ← hfp_rules p; [(id, rule)]) with
  | policy :: _ => Some policy
  | [] => grantPolicyFromCore fallback
  end.

Definition decisionFromCore (p : HFPolicy) (value : PolicyDecide.Decision) : HFDecision :=
  let requestRuleIDs := originalRuleIDs p (decision_MatchedRequestRuleIDs value) in
  MkHFDecision (decision_Effect value) (decision_Reason value) (decision_CredentialUse value)
    (originalRuleIDs p (decision_MatchedDenyRuleIDs value)) (decision_MatchedGrantRuleIDs value)
    (originalRuleIDs p (decision_MatchedAllowRuleIDs value)) requestRuleIDs (decision_GrantID value)
    (originalGrantPolicy p requestRuleIDs (decision_GrantPolicy value)).

Definition hf_refusal (reason : string) (use : CredentialUse) : HFDecision :=
  MkHFDecision EffectDeny (ReasonText reason) use [] [] [] [] EmptyString None.

Definition decideCoreWithCredentialUse (p : HFPolicy) (req : HFRequest) (grants : list HFRule) (now : Time)
    (grantRequest : bool) (view : coreView) (use : CredentialUse) : HFDecision :=
  match operations !! hfr_Operation req with
  | None => hf_refusal "invalid_operation" use
  | Some _ =>
      match validatePolicyRequestTarget req with
      | Err _ => hf_refusal "invalid_target" use
      | Ok _ =>
          decisionFromCore p
            (PolicyDecide.Decide clock (coreForView p view) (coreRequestFromHF req view)
               (MkDecisionOptions grantRequest now (coreGrants grants view) use))
      end
  end.

Definition decideCore (p : HFPolicy) (req : HFRequest) (grants : list HFRule) (now : Time) (grantRequest : bool)
    (view : coreView) : HFDecision :=
  decideCoreWithCredentialUse p req grants now grantRequest view CredentialUseManaged.

Definition request_view (req : HFRequest) : coreView :=
  if hfr_IgnoreRepoRefs req then coreViewSupport else coreViewNormal.

(** [Policy.Decide] *)
Definition HF_Decide (p : HFPolicy) (req : HFRequest) (grants : list HFRule) (now : Time) (grantRequest : bool)
    : HFDecision := decideCore p req grants now grantRequest (request_view req).

Definition DecideAnonymous (p : HFPolicy) (req : HFRequest) (now : Time) : HFDecision :=
  decideCoreWithCredentialUse p req [] now false (request_view req) CredentialUseNone.

Definition DecideReceivePackDiscovery (p : HFPolicy) (req : HFRequest) (grants : list HFRule) (now : Time)
    : HFDecision := decideCore p req grants now false coreViewDiscovery.

Definition DecideAuthorization (p : HFPolicy) (request : Request) (options : DecisionOptions) : PolicyDecide.Decision :=
  PolicyDecide.Decide clock (coreForView p coreViewNormal) request options.

Definition AuthorizationDecision (p : HFPolicy) (decision : PolicyDecide.Decision) : HFDecision := decisionFromCore p decision.
End decide.

(** ** Discovery of operations *)

Definition clientPatternsMatch (patterns : list string) (client : string) : bool :=
  if is_blank client then false else existsb (λ pattern, path_matches pattern client) patterns.

Definition ExposesOperation (p : HFPolicy) (client op : string) : bool :=
  existsb (λ rule,
    (bool_decide (hf_Effect rule = EffectAllow) || bool_decide (hf_Effect rule = EffectRequest))
    && clientPatternsMatch (hf_Clients rule) client && bool_decide (op ∈ hf_Operations rule)) (hfp_rules p).
End core.
