(* ===== verification/HFFacts.v ===== *)
(** * Lemmas for the Hugging Face policy

    An escaped client name is a pattern that only the name itself matches, and
    trimming commutes with escaping; normalized match values have the elements of
    the trimmed values they come from, and no match mode sees more of its patterns
    than their elements; the decimal text of an integer parses to the integer. *)

From S2P Require Export HFCore.
From Stdlib Require Import Ascii.

Local Open Scope Z_scope.

(** ** Escaped names are literal *)

Lemma glob_char_cases (c : ascii) :
  contains (String c EmptyString) "\*?[" = true ↔ c ∈ ["\"; "*"; "?"; "["]%char.
Proof.
  cbn. rewrite !elem_of_cons, elem_of_nil.
  repeat match goal with |- context [Ascii.eqb c ?d] => destruct (Ascii.eqb_spec c d); subst end; naive_solver.
Qed.

(** What is left of a text after a prefix. *)
Fixpoint after_prefix (p s : string) : option string :=
  match p, s with
  | EmptyString, _ => Some s
  | String a p', String b s' => if Ascii.eqb a b then after_prefix p' s' else None
  | _, EmptyString => None
  end.

(** One literal character of a chunk against the subject. *)
Definition literal_step (fuel : nat) (failed : bool) (a : ascii) (t s : string) : option (option string) :=
  match s with
  | EmptyString => match_chunk fuel true t s
  | String b s' => if failed then match_chunk fuel true t s else match_chunk fuel (negb (Ascii.eqb a b)) t s'
  end.

Lemma match_chunk_escaped (fuel : nat) (failed : bool) (a : ascii) (t s : string) :
  match_chunk (S fuel) failed (String "\" (String a t)) s = literal_step fuel failed a t s.
Proof. by destruct failed, s. Qed.

Lemma match_chunk_plain (fuel : nat) (failed : bool) (a : ascii) (t s : string) :
  a ∉ ["\"; "*"; "?"; "["]%char →
  match_chunk (S fuel) failed (String a t) s = literal_step fuel failed a t s.
Proof.
  rewrite !not_elem_of_cons. intros (H1 & _ & H3 & H4 & _).
  transitivity (match (if Ascii.eqb a "\" then t else String a t) with
                | EmptyString => None
                | String d t' =>
                    match s with
                    | String e s' => if (failed || is_empty s)%bool then match_chunk fuel true t' s
                                     else match_chunk fuel (negb (Ascii.eqb d e)) t' s'
                    | EmptyString => match_chunk fuel true t' s
                    end
                end).
  { destruct a as [[] [] [] [] [] [] [] []]; try done. }
  rewrite (proj2 (Ascii.eqb_neq a "\") H1). destruct s; cbn; [done|]. by rewrite orb_false_r.
Qed.

Lemma match_chunk_head (fuel : nat) (failed : bool) (a : ascii) (c s : string) :
  match_chunk (S fuel) failed (escape_glob (String a c)) s = literal_step fuel failed a (escape_glob c) s.
Proof.
  cbn [escape_glob]. destruct (contains (String a EmptyString) "\*?[") eqn:Ea.
  - apply match_chunk_escaped.
  - apply match_chunk_plain. by rewrite <- glob_char_cases, Ea.
Qed.

Lemma match_chunk_failed (fuel : nat) (c s : string) :
  (String.length c < fuel)%nat → match_chunk fuel true (escape_glob c) s = Some None.
Proof.
  revert fuel s. induction c as [|a c IH]; intros [|fuel] s Hf; try (exfalso; lia); [done|].
  rewrite match_chunk_head. cbn [String.length] in Hf. destruct s; cbn; apply IH; lia.
Qed.

Lemma match_chunk_escape (fuel : nat) (c s : string) :
  (String.length c < fuel)%nat → match_chunk fuel false (escape_glob c) s = Some (after_prefix c s).
Proof.
  revert fuel s. induction c as [|a c IH]; intros [|fuel] s Hf; try (exfalso; lia); [done|].
  rewrite match_chunk_head. cbn [String.length] in Hf. destruct s as [|b s]; cbn; [apply match_chunk_failed; lia|].
  destruct (Ascii.eqb a b); [apply IH|apply match_chunk_failed]; lia.
Qed.

Lemma length_escape (c : string) : (String.length c <= String.length (escape_glob c))%nat.
Proof. induction c as [|a c IH]; cbn [escape_glob]; [done|]. destruct (contains _ _); cbn in *; lia. Qed.

Lemma scan_escape (c : string) : scan_chunk (escape_glob c) = (false, escape_glob c, EmptyString).
Proof.
  assert (scan_body false false (escape_glob c) = (escape_glob c, EmptyString)) as Hb.
  { induction c as [|a c IH]; [done|]. cbn [escape_glob].
    destruct (contains (String a EmptyString) "\*?[") eqn:Ea; [by cbn; rewrite IH|].
    assert (a ∉ ["\"; "*"; "?"; "["]%char) as Hn by by rewrite <- glob_char_cases, Ea.
    rewrite !not_elem_of_cons in Hn. destruct Hn as (H1 & H2 & _ & H4 & _).
    cbn [scan_body]. rewrite !(proj2 (Ascii.eqb_neq _ _)) by done.
    cbn -[Ascii.eqb]. rewrite IH. destruct (Ascii.eqb a _); [done|]. by rewrite (proj2 (Ascii.eqb_neq _ _) H2). }
  assert (strip_stars (escape_glob c) = (false, escape_glob c)) as Hs.
  { destruct c as [|a c]; [done|]. cbn [escape_glob].
    destruct (contains (String a EmptyString) "\*?[") eqn:Ea; [done|].
    assert (a ∉ ["\"; "*"; "?"; "["]%char) as Hn by by rewrite <- glob_char_cases, Ea.
    rewrite !not_elem_of_cons in Hn. destruct Hn as (_ & H2 & _).
    destruct a as [[] [] [] [] [] [] [] []]; done. }
  unfold scan_chunk. by rewrite Hs, Hb.
Qed.

Lemma after_prefix_some (p s t : string) : after_prefix p s = Some t ↔ s = p +:+ t.
Proof.
  revert s. induction p as [|a p IH]; intros s; cbn.
  { rewrite app_nil_l_string. naive_solver. }
  destruct s as [|b s]; [done|]. rewrite app_cons.
  destruct (Ascii.eqb_spec a b) as [->|Hne]; [rewrite IH|]; naive_solver.
Qed.

(** The pattern of an escaped text matches the text alone. *)
Lemma path_matches_escape (c x : string) : path_matches (escape_glob c) x = String.eqb c x.
Proof.
  unfold path_matches, path_match. destruct c as [|a c']; [by destruct x|].
  set (c := String a c'). cbn [match_loop].
  assert (∀ n s, match_loop (S n) EmptyString s = Some (is_empty s)) as Hend by done.
  assert (is_empty (escape_glob c) = false ∧ ∃ n, String.length (escape_glob c) = S n) as [-> [n Hn]].
  { pose proof (length_escape c) as Hl. destruct (escape_glob c); cbn in *; [lia|eauto]. }
  rewrite scan_escape. cbv beta iota zeta. unfold match_chunk_at. cbn [andb].
  rewrite match_chunk_escape by (pose proof (length_escape c); lia). cbn [mbind option_bind].
  rewrite Hn. destruct (after_prefix c x) as [t|] eqn:Ep.
  - apply after_prefix_some in Ep as ->. destruct t as [|b t]; cbn [is_empty orb negb].
    + rewrite Hend, app_nil_r_string. by rewrite String.eqb_refl.
    + rewrite (proj2 (String.eqb_neq c (c +:+ String b t))); [done|]. intros H. apply (f_equal String.length) in H.
      rewrite length_app_string in H. cbn in H. lia.
  - rewrite (proj2 (String.eqb_neq c x)); [done|]. intros <-.
    assert (after_prefix c c = Some EmptyString) by (apply after_prefix_some; by rewrite app_nil_r_string).
    congruence.
Qed.

(** ** Trimming commutes with escaping *)

Lemma escape_app (a b : string) : escape_glob (a +:+ b) = escape_glob a +:+ escape_glob b.
Proof.
  induction a as [|c a IH]; [by rewrite app_nil_l_string|]. rewrite app_cons. cbn [escape_glob].
  destruct (contains _ _); by rewrite IH, !app_cons.
Qed.

Definition high_bytes (s : string) : Prop := Forall (λ b, 128 <= byte_of b) (list_of_string s).

Definition starts_ascii (s : string) : Prop :=
  match s with EmptyString => True | String c _ => byte_of c < 128 end.

Lemma high_split (s : string) : ∃ h l, s = h +:+ l ∧ high_bytes h ∧ starts_ascii l.
Proof.
  induction s as [|c s (h & l & -> & Hh & Hl)].
  { exists EmptyString, EmptyString. repeat split. constructor. }
  destruct (decide (byte_of c < 128)) as [Hc|Hc].
  - exists EmptyString, (String c (h +:+ l)). repeat split; [constructor|done].
  - exists (String c h), l. repeat split; [|done]. constructor; [lia|done].
Qed.

Lemma glob_char_ascii (c : ascii) : contains (String c EmptyString) "\*?[" = true → byte_of c < 128.
Proof. rewrite glob_char_cases. intros H. repeat (apply elem_of_cons in H as [->|H]; [done|]). by apply elem_of_nil in H. Qed.

Lemma escape_high (h : string) : high_bytes h → escape_glob h = h.
Proof.
  induction h as [|c h IH]; [done|]. intros [Hc Hh]%Forall_cons. cbn [escape_glob].
  destruct (contains _ _) eqn:E; [apply glob_char_ascii in E; lia|]. by rewrite IH.
Qed.

Lemma starts_ascii_escape (l : string) : starts_ascii l → starts_clean (escape_glob l) ∧ starts_clean l.
Proof.
  destruct l as [|c l]; [done|]. cbn [escape_glob starts_ascii]. intros Hc.
  split; [|by left]. destruct (contains _ _); left; [done|done].
Qed.

Lemma high_runes (h : string) : high_bytes h → Forall (λ g, 128 <= seg_rune g) (segments h).
Proof.
  induction h as [|c h IH] using segment_ind; [constructor|]. intros Hh.
  rewrite segments_cons. constructor.
  - rewrite first_rune. apply Z.nlt_ge. intros H.
    apply Forall_cons in Hh as [Hc _]. cbn in Hc. apply decode_small in H. lia.
  - apply IH. unfold high_bytes in *. rewrite <- (first_after c h), list_of_string_app in Hh.
    by apply Forall_app in Hh as [_ Hh].
Qed.

(** A segment of an escaped text. *)
Definition glob_rune (r : Z) : bool := bool_decide (r ∈ [92; 42; 63; 91]).

Definition backslash_segment : segment := Segment 92 true "\".

Definition escape_segment (g : segment) : list segment :=
  if glob_rune (seg_rune g) then [backslash_segment; g] else [g].

Lemma escape_segments_high (l : list segment) :
  Forall (λ g, 128 <= seg_rune g) l → flat_map escape_segment l = l.
Proof.
  induction l as [|g l IH]; [done|]. intros [Hg Hl]%Forall_cons. cbn.
  unfold escape_segment at 1, glob_rune. rewrite bool_decide_false; [by rewrite IH|].
  rewrite !elem_of_cons, elem_of_nil. lia.
Qed.

Lemma glob_rune_char (c : ascii) :
  byte_of c < 128 → glob_rune (byte_of c) = contains (String c EmptyString) "\*?[".
Proof.
  intros _. apply eq_true_iff_eq. rewrite glob_char_cases. unfold glob_rune. rewrite bool_decide_eq_true.
  rewrite !elem_of_cons, !elem_of_nil.
  split; intros [H|[H|[H|[H|[]]]]]; [left|right; left|right; right; left|right; right; right; left|..];
    try (by apply byte_of_inj); subst; auto.
Qed.

Lemma segments_escape (s : string) : segments (escape_glob s) = flat_map escape_segment (segments s).
Proof.
  remember (String.length s) as n eqn:En. assert (String.length s <= n)%nat as Hn by lia. clear En.
  revert s Hn. induction n as [|n IH]; intros [|c s] Hn; cbn in Hn; try lia; try done.
  destruct (decide (byte_of c < 128)) as [Hc|Hc].
  - rewrite (segments_ascii c s Hc). cbn [escape_glob flat_map].
    unfold escape_segment at 1. cbn [seg_rune]. rewrite (glob_rune_char c Hc).
    destruct (contains _ _) eqn:E.
    + rewrite (segments_ascii "\") by done. rewrite (segments_ascii c) by done. rewrite IH by lia. done.
    + rewrite (segments_ascii c) by done. rewrite IH by lia. done.
  - destruct (high_split s) as (h & l & -> & Hh & Hl).
    assert (high_bytes (String c h)) as Hch by (constructor; [lia|done]).
    destruct (starts_ascii_escape l Hl) as [He Hc'].
    change (String c (h +:+ l)) with (String c h +:+ l).
    rewrite escape_app, (escape_high _ Hch), !segments_app by done.
    rewrite flat_map_app, (escape_segments_high _ (high_runes _ Hch)). f_equal. apply IH.
    rewrite length_app_string in Hn. lia.
Qed.

Lemma drop_spaces_flat (f : segment → list segment) (l : list segment) :
  (∀ g, is_space (seg_rune g) = true → f g = [g]) →
  (∀ g, is_space (seg_rune g) = false → ∃ h t, f g = h :: t ∧ is_space (seg_rune h) = false) →
  drop_spaces (flat_map f l) = flat_map f (drop_spaces l).
Proof.
  intros Hs Hn. induction l as [|g l IH]; [done|]. cbn. destruct (is_space (seg_rune g)) eqn:E.
  - rewrite (Hs g E). cbn. by rewrite E.
  - cbn. destruct (Hn g E) as (h & t & -> & Hh). cbn. by rewrite Hh.
Qed.

Lemma rev_flat_map {A B} (f : A → list B) (l : list A) :
  rev (flat_map f l) = flat_map (λ a, rev (f a)) (rev l).
Proof.
  induction l as [|a l IH]; [done|]. cbn. rewrite rev_app_distr, IH, flat_map_app. cbn. by rewrite app_nil_r.
Qed.

Lemma glob_rune_space (r : Z) : is_space r = true → glob_rune r = false.
Proof.
  intros H. apply not_true_iff_false. intros Hr. apply bool_decide_eq_true in Hr.
  rewrite !elem_of_cons, elem_of_nil in Hr. by destruct Hr as [->|[->|[->|[->|[]]]]].
Qed.

Lemma trim_escape (c : string) : trim_space (escape_glob c) = escape_glob (trim_space c).
Proof.
  destruct (segments_trim c) as [Hm _].
  rewrite <- (concat_segments_of (escape_glob (trim_space c))), segments_escape, Hm.
  unfold trim_space, trimmed_segments. f_equal. rewrite segments_escape.
  assert (∀ g, is_space (seg_rune g) = true → escape_segment g = [g]) as Hs.
  { intros g H. unfold escape_segment. by rewrite glob_rune_space. }
  rewrite (drop_spaces_flat escape_segment).
  2:{ done. }
  2:{ intros g H. unfold escape_segment. destruct (glob_rune _); by eauto. }
  rewrite rev_flat_map, (drop_spaces_flat (λ g, rev (escape_segment g))).
  2:{ intros g H. by rewrite Hs. }
  2:{ intros g H. unfold escape_segment. destruct (glob_rune _); cbn; by eauto. }
  rewrite rev_flat_map. apply flat_map_ext. intros g. by rewrite rev_involutive.
Qed.

(** ** Normalized values *)

Lemma patterns_loop_elem (field : string) (seen values out : list string) :
  patterns_loop field seen values = Ok out →
  ∀ v, v ∈ out ∨ v ∈ seen ↔ v ∈ trim_space <$> values ∨ v ∈ seen.
Proof.
  revert seen out. induction values as [|w values IH]; intros seen out; cbn [patterns_loop].
  { intros [= <-] v. done. }
  rewrite seq_ok. intros [_ H] v. rewrite fmap_cons, elem_of_cons.
  destruct (slices_Contains seen (trim_space w)) eqn:Hs.
  - apply slices_Contains_iff in Hs. rewrite (IH _ _ H v). naive_solver.
  - apply bind_ok_iff in H as (out' & Hout & [= <-]). rewrite elem_of_cons.
    specialize (IH _ _ Hout v). rewrite !elem_of_cons in IH. tauto.
Qed.

Lemma normalizeMatchValues_elem (values out : list string) (field : string) (mode : MatchMode) :
  normalizeMatchValues values field mode = Ok out → ∀ v, v ∈ out ↔ v ∈ trim_space <$> values.
Proof.
  unfold normalizeMatchValues, normalizePatternsWithoutValidation. rewrite bind_ok_iff.
  intros (norm & Hn & H) v. apply seq_ok in Hn as [_ Hn]. apply seq_ok in H as [_ [= ->]].
  pose proof (patterns_loop_elem _ _ _ _ Hn v) as E. rewrite elem_of_nil in E. tauto.
Qed.

(** Two lists with the same elements. *)
Definition same_elements {A} (l l' : list A) : Prop := ∀ a, a ∈ l ↔ a ∈ l'.

Lemma existsb_same {A} (f : A → bool) (l l' : list A) : same_elements l l' → existsb f l = existsb f l'.
Proof. intros H. apply eq_true_iff_eq. rewrite !existsb_elem_of. unfold same_elements in H. by setoid_rewrite H. Qed.

Lemma forallb_same {A} (f : A → bool) (l l' : list A) : same_elements l l' → forallb f l = forallb f l'.
Proof. intros H. apply eq_true_iff_eq. rewrite !forallb_elem_of. unfold same_elements in H. by setoid_rewrite H. Qed.

Lemma compiled_same (l l' : list string) (value : string) :
  same_elements l l' →
  compiledRecursivePathPatternsMatch (compileRecursivePathPatterns l) value
  = compiledRecursivePathPatternsMatch (compileRecursivePathPatterns l') value.
Proof.
  intros H. apply existsb_same. intros e. unfold compileRecursivePathPatterns.
  rewrite !list_elem_of_omap. unfold same_elements in H. by setoid_rewrite H.
Qed.

Lemma recursive_values_same (l l' values : list string) (requireAll : bool) :
  same_elements l l' → recursivePathValuesMatch l values requireAll = recursivePathValuesMatch l' values requireAll.
Proof.
  intros H. unfold recursivePathValuesMatch.
  assert (recursive_values_loop (compileRecursivePathPatterns l) requireAll values
          = recursive_values_loop (compileRecursivePathPatterns l') requireAll values) as ->; [|done].
  induction values as [|v values IH]; [done|]. cbn [recursive_values_loop].
  by rewrite (compiled_same l l' v H), IH.
Qed.

Lemma valuesMatch_same (mode : MatchMode) (l l' : list string) (value : string) :
  same_elements l l' → valuesMatch mode l value = valuesMatch mode l' value.
Proof.
  intros H. unfold valuesMatch. destruct (defaultedMatchMode mode).
  - unfold patternsMatch. by rewrite (existsb_same _ l l').
  - unfold patternsMatch. by rewrite (existsb_same _ l l').
  - unfold pathPatternsMatch. by rewrite (existsb_same _ l l').
  - unfold recursivePathPatternsMatch. by rewrite (compiled_same l l').
  - by apply forallb_same.
  - unfold integerMaximumMatches. destruct (parse_int value); [|done]. by rewrite (existsb_same _ l l').
  - done.
Qed.

Lemma effectValuesMatch_same (effect : Effect) (mode : MatchMode) (l l' values : list string) :
  same_elements l l' → effectValuesMatch effect mode l values = effectValuesMatch effect mode l' values.
Proof.
  intros H.
  assert (anyValueMatches mode l values = anyValueMatches mode l' values) as Hany.
  { unfold anyValueMatches. destruct (defaultedMatchMode mode);
      try (by apply recursive_values_same);
      (induction values as [|v values IH]; [done|]; cbn; by rewrite (valuesMatch_same _ l l'), IH). }
  assert (allValuesMatch mode l values = allValuesMatch mode l' values) as Hall.
  { unfold allValuesMatch. destruct (Nat.eqb _ 0); [done|]. destruct (defaultedMatchMode mode);
      try done; try (by apply recursive_values_same);
      (clear Hany; induction values as [|v values IH]; [done|]; cbn; by rewrite (valuesMatch_same _ l l'), IH). }
  destruct effect; done.
Qed.

(** On one value the effect does not matter. *)
Lemma effectValuesMatch_single (effect : Effect) (mode : MatchMode) (patterns : list string) (value : string) :
  effectValuesMatch effect mode patterns [value] = valuesMatch mode patterns value.
Proof.
  unfold effectValuesMatch, allValuesMatch, anyValueMatches, valuesMatch, recursivePathValuesMatch,
    recursivePathPatternsMatch.
  destruct effect, (defaultedMatchMode mode); cbn; rewrite ?andb_true_r, ?orb_false_r; try done;
    by destruct (validPathValue value && _).
Qed.

(** ** Names of the catalog *)

Definition name_char (c : ascii) : bool := identifier_tail c || Ascii.eqb c ".".

(** A text of identifier characters and dots. *)
Definition plain_name (s : string) : Prop :=
  s ≠ EmptyString ∧ Forall (λ c, name_char c = true) (list_of_string s).

Lemma string_rev_chars (P : ascii → Prop) (s : string) :
  Forall P (list_of_string (string_rev s)) → Forall P (list_of_string s).
Proof.
  induction s as [|c s IH]; [done|]. rewrite string_rev_cons, list_of_string_app, Forall_app. cbn.
  intros [Hs [Hc _]%Forall_cons]. constructor; auto.
Qed.

Lemma split_from_chars (P : ascii → Prop) (c : ascii) (word s : string) :
  P c → Forall (λ part, Forall P (list_of_string part)) (split_from c word s) → Forall P (list_of_string s).
Proof.
  intros Hc. revert word. induction s as [|d s IH]; intros word; cbn; [constructor|].
  destruct (Ascii.eqb_spec c d) as [<-|_].
  - intros [_ Hs]%Forall_cons. constructor; [done|]. by eapply IH.
  - intros H. constructor; [|by eapply IH].
    assert (∀ w t, Forall (λ part, Forall P (list_of_string part)) (split_from c w t) →
                   Forall P (list_of_string w)) as Hw.
    { clear. intros w t. revert w. induction t as [|e t IHt]; intros w; cbn.
      - intros [H _]%Forall_cons. by apply string_rev_chars.
      - destruct (Ascii.eqb c e); [intros [H _]%Forall_cons; by apply string_rev_chars|].
        intros H. apply IHt in H. by apply Forall_cons in H as [_ H]. }
    apply Hw in H. by apply Forall_cons in H as [H _].
Qed.

Lemma matches_word_chars (tail : ascii → bool) (s : string) :
  (∀ c, lower c = true → tail c = true) → matches_word tail s = true →
  s ≠ EmptyString ∧ Forall (λ c, tail c = true) (list_of_string s).
Proof.
  intros Hl. unfold matches_word. destruct s as [|c s]; [done|]. cbn. intros [Hc Hs]%andb_true_iff.
  split; [done|]. constructor; [by apply Hl|]. apply Forall_forall. by apply forallb_elem_of.
Qed.

Lemma lower_identifier (c : ascii) : lower c = true → identifier_tail c = true.
Proof. unfold identifier_tail. by intros ->. Qed.

Lemma targetPattern_plain (s : string) : targetPattern s = true → plain_name s.
Proof.
  intros [Hne H]%matches_word_chars; [|apply lower_identifier]. split; [done|].
  eapply Forall_impl; [exact H|]. cbn. unfold name_char. by intros c ->.
Qed.

Lemma operationPattern_plain (s : string) : operationPattern s = true → plain_name s.
Proof.
  unfold operationPattern. intros [_ H]%andb_true_iff. split; [intros ->; by vm_compute in H|].
  apply (split_from_chars _ "." EmptyString); [done|]. apply Forall_forall. intros part Hp.
  rewrite forallb_elem_of in H. by destruct (targetPattern_plain part (H part Hp)) as [_ Hc].
Qed.

Lemma name_char_spec (c : ascii) : name_char c = true → 32 < byte_of c < 128 ∧ c ∉ ["\"; "*"; "?"; "["; "@"]%char.
Proof.
  unfold name_char, identifier_tail, lower, digit. rewrite !orb_true_iff, !andb_true_iff, !Z.leb_le, bool_decide_eq_true.
  intros H. split.
  - destruct H as [[[H|H]| ->]|H]; [lia|lia|by vm_compute|]. by apply Ascii.eqb_eq in H as ->.
  - intros Hin. repeat (apply elem_of_cons in Hin as [->|Hin]; [vm_compute in H; naive_solver lia|]). by apply elem_of_nil in Hin.
Qed.

Lemma plain_name_word (s : string) : plain_name s → is_word s.
Proof.
  intros [Hne H]. apply ascii_word_word. split; [done|]. eapply Forall_impl; [exact H|].
  intros c Hc. by apply name_char_spec.
Qed.

Lemma drop_spaces_none (l : list segment) : Forall (λ g, is_space (seg_rune g) = false) l → drop_spaces l = l.
Proof. intros [|g l' Hg _]; [done|]. cbn. by rewrite Hg. Qed.

Lemma trim_word (w : string) : is_word w → trim_space w = w.
Proof.
  intros [_ H]. unfold trim_space. rewrite (drop_spaces_none _ H).
  rewrite drop_spaces_none by (apply Forall_rev, H). by rewrite rev_involutive, concat_segments_of.
Qed.

Lemma escape_plain (s : string) : plain_name s → escape_glob s = s.
Proof.
  intros [_ H]. induction s as [|c s IH]; [done|]. apply Forall_cons in H as [Hc Hs]. cbn [escape_glob].
  destruct (contains _ _) eqn:E; [|by rewrite IH]. apply glob_char_cases in E.
  apply name_char_spec in Hc as [_ Hc]. exfalso. apply Hc. set_solver.
Qed.

(** A plain name, as a pattern, matches itself alone. *)
Lemma path_matches_plain (s x : string) : plain_name s → path_matches s x = String.eqb s x.
Proof. intros H. rewrite <- (escape_plain s H) at 1. apply path_matches_escape. Qed.

Lemma blank_word (w : string) : is_word w → is_blank w = false.
Proof. intros H. unfold is_blank. rewrite (trim_word w H). destruct H as [H _]. by destruct w. Qed.
