(* ===== verification/HFCompile.v ===== *)
(** * Compiled rules match what the Hugging Face rules say

    The reference definition of when a rule of the scope file matches a request in
    a view, written on the rule itself, and the proof that the rule of the shared
    policy it is compiled to, marshaled, decoded and normalized, matches the
    request's projection exactly then. *)

From S2P Require Export HFFacts.
From Stdlib Require Import Ascii.

Local Open Scope Z_scope.

(** ** The reference definition *)

(** One constrained field of a target: its mode, the rule's patterns, the request's values. *)
Record field_test : Type := MkFieldTest {
  ft_name : string;
  ft_mode : MatchMode;
  ft_patterns : list string;
  ft_values : list string
}.

(** A constraint that is absent from the rule tests nothing. *)
Definition optional_test (present : bool) (name : string) (mode : MatchMode) (patterns values : list string)
    : list field_test :=
  if present && negb (no_values patterns) then [MkFieldTest name mode patterns values] else [].

Definition repo_tests (view : coreView) (op : string) (m t : HFTarget) : list field_test :=
  MkFieldTest "type" no_match_mode [nonEmpty (ht_Type m) "*"] [ht_Type t]
  :: optional_test (bool_decide (view = coreViewNormal) && operationUsesRefs op) "refs" MatchPathGlob
       (ht_Refs m) (ht_Refs t)
  ++ optional_test (negb (bool_decide (view = coreViewDiscovery))) "paths" MatchRecursivePathGlob
       (ht_Paths m) (ht_Paths t)
  ++ optional_test (negb (bool_decide (view = coreViewDiscovery))) "visibility" MatchAnyGlob
       (ht_Visibility m) (ht_Visibility t).

Definition bucket_tests (op : string) (m t : HFTarget) : list field_test :=
  optional_test true "keys" MatchRecursivePathGlob (ht_Keys m) (ht_Keys t)
  ++ (if bucketOperationMutatesObjects op && negb (is_empty (ht_SnapshotPrefix m))
      then [MkFieldTest "mutable_keys" MatchPathOutsidePrefix [ht_SnapshotPrefix m] (ht_Keys t)] else []).

Definition target_tests (view : coreView) (op : string) (m t : HFTarget) : list field_test :=
  MkFieldTest "owner" no_match_mode [ht_Owner m] [ht_Owner t]
  :: MkFieldTest "name" no_match_mode [ht_Name m] [ht_Name t]
  :: (if String.eqb (ht_Kind m) KindRepo then repo_tests view op m t
      else if String.eqb (ht_Kind m) KindBucket then bucket_tests op m t else []).

Definition test_passes (effect : Effect) (f : field_test) : bool :=
  effectValuesMatch effect (ft_mode f) (trim_space <$> ft_patterns f) (ft_values f).

Definition hf_target_matches (view : coreView) (effect : Effect) (op : string) (m t : HFTarget) : bool :=
  String.eqb (ht_Kind m) (ht_Kind t) && forallb (test_passes effect) (target_tests view op m t).

(** A client is named by its text, or by a star that stands for any segment. *)
Definition client_matches (clients : list string) (client : string) : bool :=
  negb (is_blank client)
  && existsb (λ c, if String.eqb c "*" then path_matches "*" client else String.eqb (trim_space c) client) clients.

Definition use_matches (rule : HFRule) (use : CredentialUse) : bool :=
  match hf_CredentialUses rule with
  | [] => bool_decide (hf_Effect rule = EffectDeny) || bool_decide (defaultedCredentialUse use = CredentialUseManaged)
  | uses => slices_Contains uses (defaultedCredentialUse use)
  end.

Definition attr_mode (key : string) : MatchMode :=
  if bool_decide (key ∈ maximum_attrs) then MatchIntegerMaximum else no_match_mode.

(** A constraint on an attribute takes part in the view. *)
Definition attr_in_view (view : coreView) (effect : Effect) (key : string) : bool :=
  negb (bool_decide (view = coreViewDiscovery))
  && negb (bool_decide (view = coreViewSupport) && negb (bool_decide (effect = EffectDeny))
           && String.eqb key "ref_change").

Definition hf_attr_matches (view : coreView) (attrs : gmap string AnyValue) (key : string)
    (constraint : AttrConstraint) : bool :=
  match coreAttrsFromHF attrs view !! key with
  | Some values =>
      existsb (valuesMatch (attr_mode key) (trim_space <$> constraint_values constraint)) values
  | None => false
  end.

Definition hf_attrs_match (view : coreView) (rule : HFRule) (attrs : gmap string AnyValue) : bool :=
  forallb (λ '(key, constraint),
    negb (attr_in_view view (hf_Effect rule) key) || hf_attr_matches view attrs key constraint)
    (map_to_list (hf_Attrs rule)).

Section reference.
Context {CT : Catalog}.

(** The rule takes part in the view for this operation. *)
Definition rule_in_view (view : coreView) (rule : HFRule) (op : string) : bool :=
  negb (bool_decide (view = coreViewDiscovery)
        && (negb (String.eqb (operationTargetKind op) KindRepo)
            || bool_decide (hf_Effect rule = EffectDeny) && negb (bool_decide (hf_Attrs rule = ∅)))).

Definition hf_op_matches (view : coreView) (rule : HFRule) (op : string) (req : HFRequest) (use : CredentialUse)
    : bool :=
  String.eqb op (hfr_Operation req)
  && rule_in_view view rule op
  && use_matches rule use
  && client_matches (hf_Clients rule) (hfr_Client req)
  && existsb (λ m, hf_target_matches view (hf_Effect rule) op m (hfr_Target req))
       (List.filter (target_in_view rule view) (hm_target <$> hf_Targets rule))
  && hf_attrs_match view rule (hfr_Attrs req).

(** The rule matches the request in the view. *)
Definition hf_matches (view : coreView) (rule : HFRule) (req : HFRequest) (use : CredentialUse) : bool :=
  existsb (λ op, hf_op_matches view rule op req use) (hf_Operations rule).
End reference.

(** ** What the decoder makes of a compiled rule *)

Section decoding.
Context {R : MapRange}.

(** A limit in JSON and back. *)
Definition core_limit (l : Limit) : result error OptionalLimit :=
  match Optional_UnmarshalJSON (MkOptionalLimit 0 false) (Limit_MarshalJSON l) with
  | (o, None) => Ok o
  | (_, Some e) => Err e
  end.

Definition core_raw_policy (gp : GrantPolicy) : result error rawGrantPolicy :=
  defaultMaxUses ← core_limit (gp_DefaultMaxUses gp);
  maxUses ← core_limit (gp_MaxUses gp);
  Ok (MkRawGrantPolicy (gp_Mode gp) (gp_DefaultMinutes gp) (gp_MaxMinutes gp) (gp_RequestTTLMinutes gp)
        defaultMaxUses maxUses).

(** The raw rule that [UnmarshalJSON] makes of the marshaled rule. *)
Definition core_raw (c : coreRule) : result error rawRule :=
  targets ← collect (λ t, TargetMatcher_UnmarshalJSON (JObject (map_to_list t))) (core_Targets c);
  attrs ← collect (λ '(key, values), patterns ← decodePatternList (json_strings values); Ok (key, patterns))
            (map_range (core_Attrs c));
  gp ← match core_GrantPolicy c with
       | None => Ok None
       | Some gp => raw ← core_raw_policy gp; Ok (Some raw)
       end;
  Ok (MkRawRule (core_ID c) (core_Effect c) (core_Clients c) (core_Operations c) targets (list_to_map attrs)
        (core_CredentialUses c) gp EmptyString).

(** [encoding/json] writes a document that the decoder reads back rule by rule. *)
Definition core_json_law {CJ : CoreJSON} : Prop :=
  ∀ doc body raw, core_marshal doc = Ok body → core_decode body = Ok raw →
    ∃ raws, collect core_raw doc = Ok raws ∧ raw = Some raws.
End decoding.

Lemma foldl_insert {A} (l : list (string * A)) (m : gmap string A) :
  NoDup l.*1 → foldl (λ m '(k, v), <[k := v]> m) m l = list_to_map l ∪ m.
Proof.
  revert m. induction l as [|[k v] l IH]; intros m Hnd; cbn; [by rewrite (left_id_L ∅ (∪))|].
  apply NoDup_cons in Hnd as [Hk Hnd]. rewrite IH by done.
  rewrite <- insert_union_l. symmetry. apply insert_union_r. by apply not_elem_of_list_to_map_1.
Qed.

Lemma members_map_to_list (t : gmap string json) : unmarshal_members (JObject (map_to_list t)) = Ok t.
Proof.
  unfold unmarshal_members. rewrite foldl_insert by apply NoDup_fst_map_to_list.
  by rewrite list_to_map_to_list, (right_id_L ∅ (∪)).
Qed.

Section decoding_lemmas.
Context {R : MapRange}.

Lemma matcher_decoded (t : gmap string json) (m : TargetMatcher) :
  TargetMatcher_UnmarshalJSON (JObject (map_to_list t)) = Ok m →
  (∃ k kind, t !! "kind" = Some k ∧ unmarshal_string k = Ok kind ∧ matcher_Kind m = trim_space kind)
  ∧ ∀ name ps, matcher_Fields m !! name = Some ps ↔
      name ≠ "kind" ∧ ∃ v, t !! name = Some v ∧ decodePatternList v = Ok ps.
Proof.
  unfold TargetMatcher_UnmarshalJSON. rewrite members_map_to_list. cbn [mbind result_bind].
  rewrite bind_ok_iff. intros (k & Hk%option_ok_ok & H). apply bind_ok_iff in H as (kind & Hkind%wrap_error_ok & H).
  apply bind_ok_iff in H as (decoded & Hd & [= <-]). cbn. split; [by eauto|]. intros name ps.
  rewrite (collect_entries _ _ _) with (2 := Hd).
  2:{ intros n v n' b Hb. by apply bind_ok_iff in Hb as (? & _ & [= ]). }
  setoid_rewrite lookup_delete_Some. setoid_rewrite bind_ok_iff. setoid_rewrite wrap_error_ok. split.
  - intros (v & [Hne Hv] & ps' & Hps & [= <-]). eauto.
  - intros (Hne & v & Hv & Hps). exists v. split; [split; [congruence|done]|]. eauto.
Qed.

Lemma target_validated (m m' : TargetMatcher) (ops : list string) (r : Registry) :
  PolicyParse.validateTarget m ops r = Ok m' →
  matcher_Kind m' = matcher_Kind m ∧ is_Some (reg_Targets r !! matcher_Kind m)
  ∧ (∀ name norm, matcher_Fields m' !! name = Some norm →
       ∃ ps, matcher_Fields m !! name = Some ps ∧ same_elements norm (trim_space <$> ps))
  ∧ (∀ name, is_Some (matcher_Fields m !! name) → is_Some (matcher_Fields m' !! name)).
Proof.
  unfold PolicyParse.validateTarget. rewrite bind_ok_iff. intros (spec & Hspec%option_ok_ok & H).
  apply bind_ok_iff in H as (m1 & Hf & H). apply seq_ok in H as [_ [= <-]].
  apply seq_ok in Hf as [_ Hf]. unfold validateSupportedTargetFields in Hf.
  apply bind_ok_iff in Hf as (fields & Hc & [= <-]). cbn.
  assert (∀ k (v : list string) k' b,
    (λ '(field, patterns),
      fieldSpec ← option_ok (spec_Fields spec !! field)
        (errorf "target kind %q does not support field %q" [matcher_Kind m; field]);
      normalized ← normalizeMatchValues patterns ("target." +:+ field) (field_Match fieldSpec);
      Ok (field, normalized)) (k, v) = Ok (k', b) → k' = k) as Hkey.
  { intros k v k' b Hb. apply bind_ok_iff in Hb as (? & _ & Hb). by apply bind_ok_iff in Hb as (? & _ & [= ]). }
  split; [done|]. split; [by eauto|]. split.
  - intros name norm. rewrite (collect_entries _ _ _ Hkey Hc). intros (v & Hv & Hb).
    apply bind_ok_iff in Hb as (f & _ & Hb). apply bind_ok_iff in Hb as (n & Hn & [= <-]).
    exists v. split; [done|]. intros a. by apply (normalizeMatchValues_elem _ _ _ _ Hn).
  - intros name. by apply (collect_entries_key _ _ _ _ Hkey Hc).
Qed.

(** The normalized matcher has the fields of the marshaled one, up to the order and
    repetition of patterns. *)
Lemma matcher_compiled (t : gmap string json) (m m' : TargetMatcher) (ops : list string) (r : Registry) :
  TargetMatcher_UnmarshalJSON (JObject (map_to_list t)) = Ok m → PolicyParse.validateTarget m ops r = Ok m' →
  (∀ name norm, matcher_Fields m' !! name = Some norm →
     ∃ v ps, name ≠ "kind" ∧ t !! name = Some v ∧ decodePatternList v = Ok ps
             ∧ same_elements norm (trim_space <$> ps))
  ∧ (∀ name v ps, name ≠ "kind" → t !! name = Some v → decodePatternList v = Ok ps →
     ∃ norm, matcher_Fields m' !! name = Some norm ∧ same_elements norm (trim_space <$> ps)).
Proof.
  intros Hm Hv. destruct (matcher_decoded t m Hm) as [_ Hf]. destruct (target_validated _ _ _ _ Hv) as (_ & _ & Hb & Ha).
  split.
  - intros name norm Hn. destruct (Hb _ _ Hn) as (ps & Hps & Hs). apply Hf in Hps as (? & v & ? & ?). eauto 10.
  - intros name v ps Hne Hv' Hd.
    assert (matcher_Fields m !! name = Some ps) as Hps by (apply Hf; eauto).
    destruct (Ha name) as [norm Hn]; [by eauto|]. exists norm. split; [done|].
    destruct (Hb _ _ Hn) as (ps' & Hps' & Hs). by replace ps with ps' by congruence.
Qed.
End decoding_lemmas.

(** ** The registry *)

Definition kind_spec (kind : string) : TargetSpec :=
  if String.eqb kind KindRepo then repo_target_spec
  else if String.eqb kind KindBucket then bucket_target_spec else MkTargetSpec ownerNameTargetFields.

Section registry.
Context {R : MapRange} {CT : Catalog}.

Lemma hf_targets_spec (kind : string) (spec : TargetSpec) : hf_targets !! kind = Some spec → spec = kind_spec kind.
Proof.
  unfold hf_targets. generalize (map_range operations). intros l.
  set (base := {[ KindRepo := repo_target_spec; KindBucket := bucket_target_spec;
                  KindInference := MkTargetSpec ownerNameTargetFields ]} : gmap string TargetSpec).
  assert (∀ k s, base !! k = Some s → s = kind_spec k) as Hbase.
  { intros k s H. unfold base in H. rewrite !lookup_insert_Some, lookup_singleton_Some in H.
    by destruct H as [[<- <-]|[_ [[<- <-]|[_ [<- <-]]]]]. }
  assert (is_Some (base !! KindRepo) ∧ is_Some (base !! KindBucket)) as Hin by (split; eexists; reflexivity).
  generalize base Hbase Hin. clear base Hbase Hin.
  induction l as [|[op info] l IH]; intros base Hbase Hin; [apply Hbase|]. cbn. apply IH.
  - destruct (base !! info_targetKind info) eqn:E; [done|]. intros k s. rewrite lookup_insert_Some.
    intros [[<- <-]|[_ H]]; [|by apply Hbase]. unfold kind_spec.
    destruct Hin as [[? Hr] [? Hb]].
    rewrite (proj2 (String.eqb_neq _ KindRepo)), (proj2 (String.eqb_neq _ KindBucket)) by congruence. done.
  - destruct (base !! info_targetKind info) eqn:E; [done|]. destruct Hin as [Hr Hb].
    split; apply lookup_insert_is_Some'; by right.
Qed.
End registry.

Lemma attr_spec_mode (key : string) (a : AttrSpec) : hfAttributeSpecs !! key = Some a → attr_Match a = attr_mode key.
Proof.
  intros H. assert (key ∈ knownAttrs) as Hk.
  { apply elem_of_list_to_map_2 in H. apply list_elem_of_fmap in H as (name & E & Hin). by injection E as -> _. }
  assert (Forall (λ key, ∀ a, hfAttributeSpecs !! key = Some a → attr_Match a = attr_mode key) knownAttrs) as Hall.
  { repeat (constructor; [by vm_compute; intros a' [= <-]|]). constructor. }
  rewrite Forall_forall in Hall. by apply Hall.
Qed.

(** ** Targets *)

Lemma add_values_lookup (name : string) (values : list string) (out : gmap string json) (key : string) :
  add_values name values out !! key
  = if String.eqb name key && negb (no_values values) then Some (json_strings values) else out !! key.
Proof.
  unfold add_values, no_values. destruct values as [|v vs]; cbn [length Nat.eqb negb]; [by rewrite andb_false_r|].
  rewrite andb_true_r. destruct (String.eqb_spec name key) as [->|Hne]; [by rewrite lookup_insert_eq|by rewrite lookup_insert_ne].
Qed.

Lemma add_field_lookup (name : string) (values : list string) (fields : StringListMap) (key : string) :
  add_field name values fields !! key
  = if String.eqb name key && negb (no_values values) then Some values else fields !! key.
Proof.
  unfold add_field, no_values. destruct values as [|v vs]; cbn [length Nat.eqb negb]; [by rewrite andb_false_r|].
  rewrite andb_true_r. destruct (String.eqb_spec name key) as [->|Hne]; [by rewrite lookup_insert_eq|by rewrite lookup_insert_ne].
Qed.

Lemma decode_strings (values : list string) :
  negb (no_values values) = true → decodePatternList (json_strings values) = Ok values.
Proof.
  intros H. unfold decodePatternList, json_strings. cbn [unmarshal_string].
  assert (collect unmarshal_string (JString <$> values) = Ok values) as ->.
  { apply collect_ok. clear H. induction values as [|v vs IH]; constructor; done. }
  cbn. by destruct values.
Qed.

(** The matcher as a list of tests and back. *)
Definition test_in_matcher (view : coreView) (op : string) (m t : HFTarget) (f : field_test) : Prop :=
  ft_name f ≠ "kind"
  ∧ (∃ v, coreTargetMatcher m op view !! ft_name f = Some v ∧ decodePatternList v = Ok (ft_patterns f))
  ∧ values_of (target_Fields (coreTargetFromHF t op view)) (ft_name f) = ft_values f
  ∧ field_Match (field_spec (kind_spec (ht_Kind m)) (ft_name f)) = ft_mode f.

Lemma elem_of_optional_test (present : bool) (name : string) (mode : MatchMode) (patterns values : list string)
    (f : field_test) :
  f ∈ optional_test present name mode patterns values ↔
  present = true ∧ negb (no_values patterns) = true ∧ f = MkFieldTest name mode patterns values.
Proof.
  unfold optional_test. destruct present, (negb (no_values patterns)); cbn;
    rewrite ?list_elem_of_singleton, ?elem_of_nil; naive_solver.
Qed.

Lemma values_of_nil (values : list string) :
  default [] (if negb (no_values values) then Some values else None) = values.
Proof. by destruct values. Qed.

Lemma repo_test_in_matcher (view : coreView) (op : string) (m t : HFTarget) (f : field_test) :
  ht_Kind m = KindRepo → ht_Kind t = KindRepo → f ∈ repo_tests view op m t → test_in_matcher view op m t f.
Proof.
  intros Hm Ht. unfold repo_tests. rewrite elem_of_cons, !elem_of_app, !elem_of_optional_test.
  unfold test_in_matcher, coreTargetMatcher, coreTargetFromHF, kind_spec. rewrite Hm, Ht. cbn [String.eqb].
  change (String.eqb KindRepo KindRepo) with true. cbv iota.
  unfold addCoreRepoMatcherFields, addCoreRepoRequestFields, addCoreRepoMatcherRefs, addCoreRepoRequestRefs,
    addCoreRepoMatcherMetadata, addCoreRepoRequestMetadata, values_of.
  intros [->|[(Hp & Hv & ->)|[(Hp & Hv & ->)|(Hp & Hv & ->)]]]; cbn [ft_name ft_patterns ft_values ft_mode].
  - split; [done|]. split; [|split; [|done]].
    + exists (JString (nonEmpty (ht_Type m) "*")). split; [|done].
      destruct (bool_decide (view = coreViewDiscovery)), (bool_decide (view = coreViewNormal) && operationUsesRefs op);
        rewrite ?add_values_lookup; reflexivity.
    + destruct (bool_decide (view = coreViewDiscovery)), (bool_decide (view = coreViewNormal) && operationUsesRefs op);
        cbn [target_Fields]; rewrite ?add_field_lookup; reflexivity.
  - rewrite Hp. split; [done|]. split; [|split; [|done]].
    + exists (json_strings (ht_Refs m)). split; [|by apply decode_strings].
      destruct (bool_decide (view = coreViewDiscovery)); rewrite !add_values_lookup, Hv; reflexivity.
    + destruct (bool_decide (view = coreViewDiscovery)); cbn [target_Fields]; rewrite !add_field_lookup; cbn;
        apply values_of_nil.
  - apply negb_true_iff in Hp. rewrite Hp. cbn [andb].
    split; [done|]. split; [|split; [|done]].
    + exists (json_strings (ht_Paths m)). split; [|by apply decode_strings].
      rewrite !add_values_lookup, Hv. reflexivity.
    + cbn [target_Fields]. rewrite !add_field_lookup. cbn.
      destruct (_ && operationUsesRefs op); rewrite ?add_field_lookup; apply values_of_nil.
  - apply negb_true_iff in Hp. rewrite Hp. cbn [andb].
    split; [done|]. split; [|split; [|done]].
    + exists (json_strings (ht_Visibility m)). split; [|by apply decode_strings].
      rewrite !add_values_lookup, Hv. reflexivity.
    + cbn [target_Fields]. rewrite !add_field_lookup. cbn.
      destruct (_ && operationUsesRefs op); rewrite ?add_field_lookup; apply values_of_nil.
Qed.

Lemma bucket_test_in_matcher (view : coreView) (op : string) (m t : HFTarget) (f : field_test) :
  ht_Kind m = KindBucket → ht_Kind t = KindBucket → f ∈ bucket_tests op m t → test_in_matcher view op m t f.
Proof.
  intros Hm Ht. unfold bucket_tests. rewrite elem_of_app, elem_of_optional_test.
  unfold test_in_matcher, coreTargetMatcher, coreTargetFromHF, kind_spec. rewrite Hm, Ht.
  change (String.eqb KindBucket KindRepo) with false. change (String.eqb KindBucket KindInference) with false.
  change (String.eqb KindBucket KindBucket) with true. cbv iota.
  unfold addCoreBucketMatcherFields, addCoreBucketRequestFields, values_of.
  intros [(_ & Hv & ->)|Hf].
  - cbn [ft_name ft_patterns ft_values ft_mode target_Fields]. split; [done|]. split; [|split; [|done]].
    + exists (json_strings (ht_Keys m)). split; [|by apply decode_strings].
      destruct (bucketOperationMutatesObjects op && _); rewrite ?lookup_insert_ne by done;
        by rewrite add_values_lookup, Hv.
    + destruct (ht_Keys t) as [|k ks]; [done|]. by destruct (bucketOperationMutatesObjects op).
  - destruct (bucketOperationMutatesObjects op && negb (is_empty (ht_SnapshotPrefix m))) eqn:E; [|by apply elem_of_nil in Hf].
    apply list_elem_of_singleton in Hf as ->. apply andb_true_iff in E as [Eo _].
    cbn [ft_name ft_patterns ft_values ft_mode target_Fields]. split; [done|]. split; [|split; [|done]].
    + eexists. by rewrite lookup_insert_eq.
    + rewrite Eo. by destruct (ht_Keys t).
Qed.

Lemma matcher_kind (view : coreView) (op : string) (m : HFTarget) (name : string) :
  name = "kind" ∨ name = "owner" ∨ name = "name" →
  coreTargetMatcher m op view !! name
  = Some (JString (if String.eqb name "kind" then ht_Kind m else if String.eqb name "owner" then ht_Owner m else ht_Name m)).
Proof.
  intros Hname. unfold coreTargetMatcher, addCoreRepoMatcherFields, addCoreRepoMatcherRefs,
    addCoreRepoMatcherMetadata, addCoreBucketMatcherFields.
  destruct Hname as [->|[->| ->]]; repeat case_match;
    rewrite ?add_values_lookup; try done; by rewrite lookup_insert_ne, add_values_lookup by done.
Qed.

Lemma request_owner_name (view : coreView) (op : string) (t : HFTarget) (name : string) :
  name = "owner" ∨ name = "name" →
  target_Fields (coreTargetFromHF t op view) !! name
  = Some [if String.eqb name "owner" then ht_Owner t else ht_Name t].
Proof.
  intros Hname. unfold coreTargetFromHF, addCoreRepoRequestFields, addCoreRepoRequestRefs,
    addCoreRepoRequestMetadata, addCoreBucketRequestFields. cbn [target_Fields].
  destruct Hname as [->| ->]; repeat case_match; by rewrite ?add_field_lookup.
Qed.

Lemma target_test_in_matcher (view : coreView) (op : string) (m t : HFTarget) (f : field_test) :
  ht_Kind m = ht_Kind t → f ∈ target_tests view op m t → test_in_matcher view op m t f.
Proof.
  intros Hk. unfold target_tests. rewrite !elem_of_cons.
  assert (∀ name p v, name = "owner" ∨ name = "name" →
    p = (if String.eqb name "owner" then ht_Owner m else ht_Name m) →
    v = (if String.eqb name "owner" then ht_Owner t else ht_Name t) →
    test_in_matcher view op m t (MkFieldTest name no_match_mode [p] [v])) as Hon.
  { intros name p v Hname -> ->. unfold test_in_matcher, values_of. cbn [ft_name ft_patterns ft_values ft_mode].
    rewrite matcher_kind by tauto. rewrite request_owner_name by done.
    split; [by destruct Hname as [->| ->]|]. split; [|split; [done|]].
    - eexists. split; [done|]. by destruct Hname as [->| ->].
    - unfold kind_spec. destruct (String.eqb (ht_Kind m) KindRepo), (String.eqb (ht_Kind m) KindBucket); by destruct Hname as [->| ->]. }
  intros [->|[->|Hf]]; [apply Hon; auto..|].
  destruct (String.eqb_spec (ht_Kind m) KindRepo) as [E|_]; [apply repo_test_in_matcher; congruence|].
  destruct (String.eqb_spec (ht_Kind m) KindBucket) as [E|_]; [apply bucket_test_in_matcher; congruence|].
  by apply elem_of_nil in Hf.
Qed.

(** Every field of the matcher is tested. *)
Definition base_matcher (m : HFTarget) : gmap string json :=
  {[ "kind" := JString (ht_Kind m); "owner" := JString (ht_Owner m); "name" := JString (ht_Name m) ]}.

Definition tested (tests : list field_test) (name : string) : Prop := ∃ f, f ∈ tests ∧ ft_name f = name.

Lemma tested_app (l l' : list field_test) (name : string) : tested l name ∨ tested l' name → tested (l ++ l') name.
Proof. unfold tested. setoid_rewrite elem_of_app. naive_solver. Qed.

Lemma tested_optional (present : bool) (name : string) (mode : MatchMode) (patterns values : list string) :
  present = true → negb (no_values patterns) = true → tested (optional_test present name mode patterns values) name.
Proof. intros Hp Hv. eexists. by rewrite elem_of_optional_test. Qed.

(** A list field is tested, or the look-up passes it by. *)
Lemma tested_values (name key : string) (values values' : list string) (mode : MatchMode)
    (out : gmap string json) (v : json) (present : bool) :
  add_values key values out !! name = Some v → present = true →
  tested (optional_test present key mode values values') name ∨ out !! name = Some v.
Proof.
  intros H Hp. rewrite add_values_lookup in H. destruct (String.eqb_spec key name) as [<-|_]; [|by right].
  cbn [andb] in H. destruct (negb (no_values values)) eqn:E; [|by right]. left. by apply tested_optional.
Qed.

Lemma repo_fields_tested (view : coreView) (op : string) (m t : HFTarget) (name : string) (v : json) :
  addCoreRepoMatcherFields (base_matcher m) m op view !! name = Some v →
  tested (repo_tests view op m t) name ∨ base_matcher m !! name = Some v.
Proof.
  unfold addCoreRepoMatcherFields, addCoreRepoMatcherMetadata, repo_tests. cbv zeta. intros H.
  assert (addCoreRepoMatcherRefs (<["type" := JString (nonEmpty (ht_Type m) "*")]> (base_matcher m)) m op view !! name = Some v →
          name = "type" ∨ tested (optional_test (bool_decide (view = coreViewNormal) && operationUsesRefs op) "refs"
            MatchPathGlob (ht_Refs m) (ht_Refs t)) name ∨ base_matcher m !! name = Some v) as Hrefs.
  { intros Hl. destruct (decide (name = "type")) as [->|Hne]; [by left|right]. unfold addCoreRepoMatcherRefs in Hl.
    destruct (bool_decide (view = coreViewNormal) && operationUsesRefs op) eqn:Eb.
    - apply (tested_values _ _ _ (ht_Refs t) MatchPathGlob _ _ true) in Hl as [Hl|Hl]; [by left| |done].
      right. by rewrite lookup_insert_ne in Hl.
    - right. by rewrite lookup_insert_ne in Hl. }
  assert (∀ tests, name = "type" ∨ tested tests name ∨ base_matcher m !! name = Some v →
          tested (MkFieldTest "type" no_match_mode [nonEmpty (ht_Type m) "*"] [ht_Type t] :: tests) name
          ∨ base_matcher m !! name = Some v) as Hcons.
  { intros tests [->|[(f & Hf & <-)|Hb]]; [left; eexists; split; [left|]; done| |by right].
    left. exists f. split; [by right|done]. }
  apply Hcons. destruct (bool_decide (view = coreViewDiscovery)); cbn [negb] in *.
  - apply Hrefs in H as [H|[H|H]]; [by left|right; left; by apply tested_app; left|by right; right].
  - apply (tested_values _ _ _ (ht_Visibility t) MatchAnyGlob _ _ true) in H as [H|H]; [| |done].
    { right; left. apply tested_app; right. by apply tested_app; right. }
    apply (tested_values _ _ _ (ht_Paths t) MatchRecursivePathGlob _ _ true) in H as [H|H]; [| |done].
    { right; left. apply tested_app; right. by apply tested_app; left. }
    apply Hrefs in H as [H|[H|H]]; [by left|right; left; by apply tested_app; left|by right; right].
Qed.

Lemma bucket_fields_tested (op : string) (m t : HFTarget) (name : string) (v : json) :
  addCoreBucketMatcherFields (base_matcher m) m op !! name = Some v →
  tested (bucket_tests op m t) name ∨ base_matcher m !! name = Some v.
Proof.
  unfold addCoreBucketMatcherFields, bucket_tests. intros H.
  assert (add_values "keys" (ht_Keys m) (base_matcher m) !! name = Some v →
          tested (optional_test true "keys" MatchRecursivePathGlob (ht_Keys m) (ht_Keys t)) name
          ∨ base_matcher m !! name = Some v) as Hkeys by (intros Hl; by eapply tested_values).
  destruct (bucketOperationMutatesObjects op && negb (is_empty (ht_SnapshotPrefix m))).
  - destruct (decide (name = "mutable_keys")) as [->|Hne].
    { left. apply tested_app. right. eexists. by split; [left|]. }
    rewrite lookup_insert_ne in H by done. apply Hkeys in H as [H|H]; [left; apply tested_app; by left|by right].
  - apply Hkeys in H as [H|H]; [left; apply tested_app; by left|by right].
Qed.

Lemma matcher_in_tests (view : coreView) (op : string) (m t : HFTarget) (name : string) (v : json) :
  coreTargetMatcher m op view !! name = Some v → name ≠ "kind" → tested (target_tests view op m t) name.
Proof.
  intros Hv Hne. unfold target_tests.
  destruct (decide (name = "owner")) as [->|Ho]; [by eexists; split; [left|]|].
  destruct (decide (name = "name")) as [->|Hn]; [by eexists; split; [right; left|]|].
  assert (base_matcher m !! name = None) as Hbase.
  { unfold base_matcher. by rewrite !lookup_insert_ne, lookup_singleton_ne by congruence. }
  assert (∀ tests, tested tests name ∨ base_matcher m !! name = Some v →
    tested (MkFieldTest "owner" no_match_mode [ht_Owner m] [ht_Owner t]
            :: MkFieldTest "name" no_match_mode [ht_Name m] [ht_Name t] :: tests) name) as Hrest.
  { intros tests [(f & Hf & <-)|H]; [|congruence]. exists f. split; [by do 2 right|done]. }
  apply Hrest. revert Hv. unfold coreTargetMatcher. fold (base_matcher m).
  destruct (String.eqb (ht_Kind m) KindRepo); [apply repo_fields_tested|].
  destruct (String.eqb_spec (ht_Kind m) KindInference) as [E|_]; [by right|].
  destruct (String.eqb (ht_Kind m) KindBucket); [apply bucket_fields_tested|by right].
Qed.

Section compiled.
Context {R : MapRange} {CT : Catalog}.

Lemma target_spec_kind (kind : string) :
  is_Some (reg_Targets hfRegistry !! kind) → target_spec hfRegistry kind = kind_spec kind.
Proof. intros [s Hs]. unfold target_spec. rewrite Hs. by apply hf_targets_spec. Qed.

(** A compiled target matches when each of its tests passes. *)
Lemma compiled_target (view : coreView) (op : string) (m t : HFTarget) (m1 m2 : TargetMatcher) (ops : list string)
    (effect : Effect) :
  TargetMatcher_UnmarshalJSON (JObject (map_to_list (coreTargetMatcher m op view))) = Ok m1 →
  PolicyParse.validateTarget m1 ops hfRegistry = Ok m2 → trim_space (ht_Kind m) = ht_Kind m →
  String.eqb (matcher_Kind m2) (ht_Kind t)
  && targetFieldsMatch (target_spec hfRegistry (ht_Kind t)) effect (matcher_Fields m2)
       (target_Fields (coreTargetFromHF t op view))
  = hf_target_matches view effect op m t.
Proof.
  intros Hm1 Hm2 Htrim. destruct (matcher_compiled _ _ _ _ _ Hm1 Hm2) as [Hback Hforth].
  destruct (matcher_decoded _ _ Hm1) as [(k & kind & Hk & Hkind & E1) _].
  destruct (target_validated _ _ _ _ Hm2) as (E2 & Hspec & _).
  rewrite (matcher_kind view op m "kind") in Hk by auto. injection Hk as <-. injection Hkind as <-.
  rewrite E1, Htrim in E2, Hspec. unfold hf_target_matches. rewrite E2.
  destruct (String.eqb_spec (ht_Kind m) (ht_Kind t)) as [Hkt|_]; [|done]. cbn [andb].
  rewrite <- Hkt, (target_spec_kind _ Hspec).
  apply eq_true_iff_eq. unfold targetFieldsMatch. rewrite forallb_map_range, forallb_elem_of.
  assert (∀ f norm, f ∈ target_tests view op m t → same_elements norm (trim_space <$> ft_patterns f) →
    effectValuesMatch effect (field_Match (field_spec (kind_spec (ht_Kind m)) (ft_name f))) norm
      (values_of (target_Fields (coreTargetFromHF t op view)) (ft_name f)) = test_passes effect f) as Htest.
  { intros f norm Hf Hs. destruct (target_test_in_matcher view op m t f Hkt Hf) as (_ & _ & Hv & Hmode).
    rewrite Hv, Hmode. by apply effectValuesMatch_same. }
  split; intros H.
  - intros f Hf. destruct (target_test_in_matcher view op m t f Hkt Hf) as (Hne & (v & Hv & Hd) & _).
    destruct (Hforth _ _ _ Hne Hv Hd) as (norm & Hn & Hs).
    rewrite <- (Htest f norm Hf Hs). by apply H.
  - intros name norm Hn. destruct (Hback _ _ Hn) as (v & ps & Hne & Hv & Hd & Hs).
    destruct (matcher_in_tests view op m t name v Hv Hne) as (f & Hf & <-).
    destruct (target_test_in_matcher view op m t f Hkt Hf) as (_ & (v' & Hv' & Hd') & _).
    assert (ps = ft_patterns f) as -> by congruence. rewrite (Htest f norm Hf Hs). by apply H.
Qed.

Lemma compiled_client (clients out : list string) (client : string) :
  normalizePatterns (coreClientPatterns clients) "clients" = Ok out →
  patternsMatch out client = client_matches clients client.
Proof.
  intros Hn. unfold patternsMatch, client_matches. destruct (is_blank client); [done|]. cbn [negb andb].
  rewrite (existsb_same _ out (trim_space <$> coreClientPatterns clients)).
  2:{ intros v. by apply (normalizeMatchValues_elem _ _ _ _ Hn). }
  clear Hn. unfold coreClientPatterns. induction clients as [|c clients IH]; [done|].
  rewrite !fmap_cons. cbn [existsb]. rewrite IH. f_equal. destruct (String.eqb_spec c "*") as [->|_]; [done|].
  by rewrite trim_escape, path_matches_escape.
Qed.

Lemma compiled_uses (rule : HFRule) (ops : list string) (out : list CredentialUse) (core : Rule) (use : CredentialUse) :
  normalizeCredentialUses (hf_Effect rule) (hf_CredentialUses rule) ops hfRegistry = Ok out →
  rule_Effect core = hf_Effect rule → rule_CredentialUses core = out →
  ruleCredentialUseMatches core use = use_matches rule use.
Proof.
  intros Hn He Hu. unfold ruleCredentialUseMatches, use_matches. rewrite Hu, He.
  unfold normalizeCredentialUses in Hn. case_bool_decide as Hd.
  - apply seq_ok in Hn as [Hl [= <-]]. apply refuse_ok, negb_false_iff, Nat.eqb_eq in Hl.
    by apply length_zero_iff_nil in Hl as ->.
  - destruct (hf_CredentialUses rule) as [|u us]; cbn [length Nat.eqb] in Hn.
    + injection Hn as <-. cbn. rewrite orb_false_r.
      destruct (defaultedCredentialUse use); repeat case_bool_decide; done.
    + apply seq_ok in Hn as [_ [= <-]].
      assert (∀ x, x ∈ sort_uses (u :: us) ↔ x ∈ u :: us) as Hs by (intros x; by rewrite sort_uses_perm).
      destruct (sort_uses (u :: us)) as [|a l] eqn:E.
      { exfalso. assert (u ∈ ([] : list CredentialUse)) as Hin by (apply Hs; left). by apply elem_of_nil in Hin. }
      change (insert_use u (sort_uses us)) with (sort_uses (u :: us)). rewrite E.
      apply eq_true_iff_eq. rewrite !slices_Contains_iff. apply Hs.
Qed.

Lemma coreRuleAttrs_lookup (rule : HFRule) (view : coreView) (key : string) (values : list string) :
  coreRuleAttrs rule view !! key = Some values ↔
  attr_in_view view (hf_Effect rule) key = true
  ∧ ∃ c, hf_Attrs rule !! key = Some c ∧ values = constraint_values c.
Proof.
  unfold coreRuleAttrs, attr_in_view. destruct (bool_decide (view = coreViewDiscovery)); cbn [negb andb].
  { rewrite lookup_empty. naive_solver. }
  rewrite map_lookup_imap. destruct (hf_Attrs rule !! key) as [c|]; cbn; [|naive_solver].
  destruct (_ && _ && _); cbn; naive_solver.
Qed.

Lemma coreAttrsFromHF_single (attrs : gmap string AnyValue) (view : coreView) (key : string) (values : list string) :
  coreAttrsFromHF attrs view !! key = Some values → ∃ v, values = [v].
Proof.
  unfold coreAttrsFromHF. rewrite map_lookup_imap. destruct (attrs !! key); cbn; [|done].
  destruct (_ && _); [done|]. destruct (is_empty _); [done|]. intros [= <-]. by eexists.
Qed.

Lemma decode_strings_inv (values ps : list string) : decodePatternList (json_strings values) = Ok ps → ps = values.
Proof.
  intros H. destruct (negb (no_values values)) eqn:E; [rewrite decode_strings in H by done; congruence|].
  by destruct values.
Qed.

Lemma normalizeAttrs_elem (raw attrs : StringListMap) (ops : list string) :
  normalizeAttrs raw ops hfRegistry = Ok attrs →
  (∀ name norm, attrs !! name = Some norm →
     (∃ vs, raw !! name = Some vs ∧ same_elements norm (trim_space <$> vs))
     ∧ attr_Match (attr_spec hfRegistry name) = attr_mode name
     ∧ ∀ op, op ∈ ops → name ∈ op_Attrs (operation_spec hfRegistry op))
  ∧ (∀ name, is_Some (raw !! name) → is_Some (attrs !! name)).
Proof.
  unfold normalizeAttrs. rewrite bind_ok_iff. intros (kvs & Hc & [= <-]).
  match type of Hc with collect ?f _ = _ => assert (∀ k (v : list string) k' b, f (k, v) = Ok (k', b) → k' = k) as Hkey end.
  { intros k v k' b Hb. apply bind_ok_iff in Hb as (? & _ & Hb).
    destruct (attrUnsupportedOperation k ops hfRegistry); [done|]. by apply bind_ok_iff in Hb as (? & _ & [= ]). }
  split; [|intros name; by apply (collect_entries_key _ _ _ _ Hkey Hc)].
  intros name norm Hn. apply (collect_entries _ _ _ Hkey Hc) in Hn as (vs & Hvs & Hb).
  apply bind_ok_iff in Hb as (a & Ha%option_ok_ok & Hb).
  destruct (attrUnsupportedOperation name ops hfRegistry) eqn:Hu; [done|].
  apply bind_ok_iff in Hb as (n & Hn & [= <-]). split; [|split].
  - exists vs. split; [done|]. intros v. by apply (normalizeMatchValues_elem _ _ _ _ Hn).
  - unfold attr_spec. rewrite Ha. by apply attr_spec_mode.
  - by apply attrUnsupportedOperation_none.
Qed.

Lemma compiled_attrs (rule : HFRule) (view : coreView) (kvs : list (string * list string)) (attrs : StringListMap)
    (op : string) (values : gmap string AnyValue) :
  collect (λ '(key, values), patterns ← decodePatternList (json_strings values); Ok (key, patterns))
    (map_range (coreRuleAttrs rule view)) = Ok kvs →
  normalizeAttrs (list_to_map kvs) [op] hfRegistry = Ok attrs →
  attrsMatch hfRegistry (hf_Effect rule) attrs op (coreAttrsFromHF values view)
  = hf_attrs_match view rule values.
Proof.
  intros Hk Hn. destruct (normalizeAttrs_elem _ _ _ Hn) as [Hback Hforth].
  match type of Hk with collect ?f _ = _ => assert (∀ k (v : list string) k' b, f (k, v) = Ok (k', b) → k' = k) as Hkey end.
  { intros k v k' b Hb. by apply bind_ok_iff in Hb as (? & _ & [= ]). }
  assert (∀ name norm, attrs !! name = Some norm →
    ∃ c, hf_Attrs rule !! name = Some c ∧ attr_in_view view (hf_Effect rule) name = true
      ∧ (if negb (attrRelevantToOperation hfRegistry name op) then true
         else match coreAttrsFromHF values view !! name with
              | Some values => effectValuesMatch (hf_Effect rule) (attr_Match (attr_spec hfRegistry name)) norm values
              | None => false end)
        = hf_attr_matches view values name c) as Hone.
  { intros name norm Hnorm. destruct (Hback _ _ Hnorm) as ((vs & Hvs & Hs) & Hmode & Hrel).
    apply (collect_entries _ _ _ Hkey Hk) in Hvs as (vs' & Hvs & Hb).
    apply bind_ok_iff in Hb as (ps & Hps%decode_strings_inv & [= <-]). subst ps.
    apply coreRuleAttrs_lookup in Hvs as (Hview & c & Hc & ->). exists c. split; [done|]. split; [done|].
    unfold attrRelevantToOperation. rewrite (proj2 (slices_Contains_iff _ _)) by (apply Hrel; left). cbn [negb].
    unfold hf_attr_matches. destruct (coreAttrsFromHF values view !! name) as [ws|] eqn:Ew; [|done].
    apply coreAttrsFromHF_single in Ew as [w ->]. rewrite effectValuesMatch_single, Hmode. cbn. rewrite orb_false_r.
    by apply valuesMatch_same. }
  apply eq_true_iff_eq. unfold attrsMatch, hf_attrs_match. rewrite forallb_map_range, forallb_elem_of. split; intros H.
  - intros [name c] Hin%elem_of_map_to_list. destruct (attr_in_view view (hf_Effect rule) name) eqn:Hview; [|done]. cbn.
    assert (is_Some (attrs !! name)) as [norm Hnorm].
    { apply Hforth, (collect_entries_key _ _ _ _ Hkey Hk). exists (constraint_values c).
      apply coreRuleAttrs_lookup. eauto. }
    destruct (Hone _ _ Hnorm) as (c' & Hc' & _ & E). assert (c' = c) as -> by congruence.
    rewrite <- E. by apply H.
  - intros name norm Hnorm. destruct (Hone _ _ Hnorm) as (c & Hc & Hview & ->).
    specialize (H (name, c)). cbn in H. rewrite Hview in H. apply H. by apply elem_of_map_to_list.
Qed.
End compiled.

(** ** Numeric ceilings *)

Lemma format_digits_digits (fuel : nat) (z : Z) (acc : string) :
  0 <= z → Forall (λ c, 48 <= byte_of c <= 57) (list_of_string acc) →
  Forall (λ c, 48 <= byte_of c <= 57) (list_of_string (format_digits fuel z acc)).
Proof.
  revert z acc. induction fuel as [|fuel IH]; intros z acc Hz Hacc; [done|]. cbn [format_digits].
  assert (Forall (λ c, 48 <= byte_of c <= 57)
    (list_of_string (String (ascii_of_nat (Z.to_nat (48 + z mod 10))) acc))) as Hd.
  { constructor; [|done]. pose proof (digit_byte (z mod 10) ltac:(apply Z.mod_pos_bound; lia)) as H.
    unfold digit_value in H. destruct (_ && _) eqn:E in H; [|done]. apply andb_true_iff in E as [E1 E2].
    apply Z.leb_le in E1, E2. done. }
  destruct (z <? 10); [done|]. apply IH; [by apply Z.div_pos|done].
Qed.

Lemma trim_FormatInt (z : Z) : 0 <= z → trim_space (FormatInt z) = FormatInt z.
Proof.
  intros Hz. apply trim_word, ascii_word_word. unfold FormatInt. rewrite (proj2 (Z.ltb_ge z 0) Hz). split.
  - destruct (format_digits_parse (S (Z.to_nat (Z.log2 z))) z EmptyString) as (c & t & -> & _); [lia| |done].
    split; [done|by apply format_digits_enough].
  - eapply Forall_impl; [by apply format_digits_digits|]. cbn. lia.
Qed.

Lemma integer_maximum_FormatInt (ceiling number : Z) :
  0 <= ceiling < 2 ^ 63 → - 2 ^ 63 <= number < 2 ^ 63 →
  valuesMatch MatchIntegerMaximum [FormatInt ceiling] (FormatInt number) = (0 <=? number) && (number <=? ceiling).
Proof.
  intros Hc Hn. unfold valuesMatch. cbn [defaultedMatchMode]. unfold integerMaximumMatches.
  rewrite (parse_FormatInt number Hn). cbn [existsb]. rewrite (parse_FormatInt ceiling) by lia.
  rewrite orb_false_r. destruct (Z.ltb_spec number 0), (Z.leb_spec 0 number); try lia; done.
Qed.

(** A numeric ceiling is compared as a number: for the attributes that carry one, a
    rule matches a request, and an approved value covers an actual one, exactly when the
    request's 64-bit integer is between zero and the ceiling, however the integers are
    written on the way (decimal texts, trimmed and parsed again). *)
Theorem ceilings_are_numeric (attrs : gmap string AnyValue) (key : string) (value : AnyValue) (ceiling number : Z) :
  key ∈ maximum_attrs → attrs !! key = Some value → int64Value value = Some number →
  0 <= ceiling < 2 ^ 63 → - 2 ^ 63 <= number < 2 ^ 63 →
  hf_attr_matches coreViewNormal attrs key (MkAttrConstraint [] (Some ceiling))
    = (0 <=? number) && (number <=? ceiling)
  ∧ attrConstraintMatchesCore (MkAttrConstraint [] (Some ceiling)) value = (0 <=? number) && (number <=? ceiling).
Proof.
  intros Hkey Hv Hn Hc Hr. pose proof (integer_maximum_FormatInt ceiling number Hc Hr) as E. split.
  - unfold hf_attr_matches, coreAttrsFromHF. rewrite map_lookup_imap, Hv. cbn [mbind option_bind negb andb].
    assert (canonicalCoreAttr key value = FormatInt number) as ->.
    { unfold canonicalCoreAttr. by rewrite bool_decide_true, Hn by done. }
    change (bool_decide (coreViewNormal = coreViewNormal)) with true. cbn [negb andb].
    assert (is_empty (FormatInt number) = false) as ->.
    { pose proof (parse_FormatInt number Hr) as Hp. by destruct (FormatInt number). }
    cbn [existsb]. rewrite orb_false_r. unfold attr_mode, constraint_values. rewrite bool_decide_true by done.
    cbn [ac_Number fmap list_fmap]. by rewrite trim_FormatInt by lia.
  - unfold attrConstraintMatchesCore. cbn [ac_Number]. rewrite Hn. unfold MatchAll, allValuesMatch.
    cbn [length Nat.eqb defaultedMatchMode forallb]. by rewrite andb_true_r.
Qed.
