(* ===== verification/HFRules.v ===== *)
(** * Rules of a parsed scope file and their compiled forms

    What parsing guarantees of a rule, and, from it, that each compiled rule keeps
    the identifier and effect of its rule and matches the projected requests that
    the reference definition of HFCompile says. *)

From S2P Require Export HFCompile.
From Stdlib Require Import Ascii.

Local Open Scope Z_scope.

Lemma existsb_Forall2 {A B} (f : A → bool) (g : B → bool) (l : list A) (l' : list B) :
  Forall2 (λ a b, f a = g b) l l' → existsb f l = existsb g l'.
Proof. induction 1 as [|a b l l' H _ IH]; [done|]. cbn. by rewrite H, IH. Qed.

Section rules.
Context {R : MapRange} {CT : Catalog}.

(** ** The catalog *)

Definition hf_options : ValidationOptions := MkValidationOptions "HF" ExpectedCount "hf_" true.

(** Every descriptor of the catalog passes the checks of [capability.Validate]. *)
Definition valid_catalog : Prop := Forall (λ d, validateDescriptor d hf_options = Ok tt) catalog_values.

Lemma catalog_loop_valid (c c' : catalogIndex) (values : list Descriptor) :
  catalog_loop c values hf_options = Ok c' → Forall (λ d, validateDescriptor d hf_options = Ok tt) values.
Proof.
  revert c. induction values as [|d values IH]; intros c; cbn [catalog_loop]; [constructor|].
  rewrite bind_ok_iff. intros (c1 & Hd & H). constructor; [|by eapply IH].
  unfold catalog_add in Hd. by destruct (validateDescriptor d hf_options) as [[]|].
Qed.

(** The embedded catalog, which passed [opcatalog.Validate], is valid. *)
Lemma Validate_valid_catalog : opcatalog_Validate catalog_values = Ok tt → valid_catalog.
Proof.
  unfold opcatalog_Validate. rewrite seq_ok. intros [H _]. unfold Capability_Validate in H.
  apply seq_ok in H as [_ H]. apply seq_ok in H as [_ H]. apply bind_ok_iff in H as (c & H & _).
  by eapply catalog_loop_valid.
Qed.

Lemma operations_plain (op : string) (info : operationInfo) :
  valid_catalog → operations !! op = Some info → plain_name op ∧ plain_name (info_targetKind info).
Proof.
  intros Hc H. apply elem_of_list_to_map_2 in H. apply list_elem_of_fmap in H as (d & E & Hd).
  injection E as -> ->. apply list_elem_of_In, in_rev, list_elem_of_In in Hd.
  unfold valid_catalog in Hc. rewrite Forall_forall in Hc. specialize (Hc d Hd). unfold validateDescriptor in Hc.
  apply seq_ok in Hc as [Hi _]. apply refuse_ok, negb_false_iff in Hi. unfold validIdentity in Hi.
  apply andb_true_iff in Hi as [Hi Ht]. apply andb_true_iff in Hi as [Hn _].
  split; [by apply operationPattern_plain|by apply targetPattern_plain].
Qed.

(** ** Parsed rules *)

Record wf_rule (rule : HFRule) : Prop := {
  wfr_id : hf_ID rule ≠ EmptyString ∧ trim_space (hf_ID rule) = hf_ID rule;
  wfr_nodup : NoDup (hf_Operations rule);
  wfr_ops : ∀ op, op ∈ hf_Operations rule → is_Some (operations !! op);
  wfr_kinds : ∀ op m, op ∈ hf_Operations rule → m ∈ hf_Targets rule →
    ht_Kind (hm_target m) = operationTargetKind op;
  wfr_targets : hf_Targets rule ≠ [];
  wfr_policy : hf_Effect rule = EffectRequest → is_Some (hf_GrantPolicy rule);
  wfr_effect : hf_Effect rule = EffectAllow ∨ hf_Effect rule = EffectRequest ∨ hf_Effect rule = EffectDeny
}.

Lemma elem_of_map_range_fst {A} (m : gmap string A) (k : string) : k ∈ (map_range m).*1 ↔ is_Some (m !! k).
Proof.
  rewrite list_elem_of_fmap. split.
  - intros ([k' v] & -> & H%elem_of_map_range). by eexists.
  - intros [v H]. exists (k, v). split; [done|]. by apply elem_of_map_range.
Qed.

Lemma elem_of_Canonical (values : list string) (v : string) : v ∈ CanonicalStringSlice values ↔ v ∈ values.
Proof.
  unfold CanonicalStringSlice. induction values as [|w values IH]; [done|]. cbn.
  assert (∀ l, v ∈ insert_sorted w l ↔ v = w ∨ v ∈ l) as Hi.
  { intros l. induction l as [|x l IHl]; cbn; [by rewrite list_elem_of_singleton, elem_of_nil; naive_solver|].
    destruct (string_compare w x) eqn:E; rewrite ?elem_of_cons, ?IHl; [|naive_solver..].
    apply string_compare_eq in E as ->. naive_solver. }
  by rewrite Hi, elem_of_cons, IH.
Qed.

Lemma expandOperation_known (value : string) (ops : list string) :
  expandOperation value = Ok ops → ∀ op, op ∈ ops → is_Some (operations !! op).
Proof.
  unfold expandOperation, expandOperationFamily. destruct (has_suffix ".*" value).
  - destruct (operationFamilyPrefixes !! value) as [prefix|]; [|done]. intros [= <-] op.
    rewrite elem_of_Canonical, list_elem_of_In, filter_In. intros [Hin _].
    by apply elem_of_map_range_fst, list_elem_of_In.
  - rewrite seq_ok, refuse_ok, negb_false_iff. unfold IsOperation. rewrite bool_decide_eq_true.
    intros [H [= <-]] op ->%list_elem_of_singleton. done.
Qed.

Lemma add_once_ok (out expanded : list string) :
  NoDup out → (∀ op, op ∈ out → is_Some (operations !! op)) → (∀ op, op ∈ expanded → is_Some (operations !! op)) →
  let out' := foldl (λ out op, if bool_decide (op ∈ out) then out else out ++ [op]) out expanded in
  NoDup out' ∧ ∀ op, op ∈ out' → is_Some (operations !! op).
Proof.
  revert out. induction expanded as [|x expanded IH]; intros out Hnd Ho He; [done|]. cbn. apply IH.
  - case_bool_decide; [done|]. apply NoDup_app. split; [done|]. split; [|by apply NoDup_singleton].
    intros y Hy ->%list_elem_of_singleton. done.
  - case_bool_decide; [done|]. intros y [Hy| ->%list_elem_of_singleton]%elem_of_app; [by apply Ho|]. apply He. left.
  - intros y Hy. apply He. by right.
Qed.

Lemma operations_from_ok (path : string) (out values ops : list string) :
  NoDup out → (∀ op, op ∈ out → is_Some (operations !! op)) → operations_from path out values = Ok ops →
  NoDup ops ∧ ∀ op, op ∈ ops → is_Some (operations !! op).
Proof.
  revert out. induction values as [|v values IH]; intros out Hnd Ho; cbn [operations_from].
  { by intros [= <-]. }
  rewrite bind_ok_iff. intros (expanded & He%wrap_error_ok & H).
  destruct (add_once_ok out expanded Hnd Ho (expandOperation_known _ _ He)) as [Hnd' Ho'].
  by apply (IH _ Hnd' Ho').
Qed.

Lemma parseGrantPolicy_request (path : string) (effect : Effect) (ops : list string)
    (raw : option HFRawGrantPolicy) (gp : option GrantPolicy) :
  parseGrantPolicy path effect ops raw = Ok gp → effect = EffectRequest → is_Some gp.
Proof.
  unfold parseGrantPolicy. intros H ->. rewrite bool_decide_true in H by done. cbn [negb] in H.
  apply bind_ok_iff in H as (r & _ & H). apply seq_ok in H as [_ H]. apply bind_ok_iff in H as (p & _ & H).
  apply seq_ok in H as [_ [= <-]]. by eexists.
Qed.

Lemma parseRule_wf (raw : HFRawRule) (rule : HFRule) : parseRule raw = Ok rule → wf_rule rule.
Proof.
  unfold parseRule. rewrite bind_ok_iff. intros (r & Hf & H). apply seq_ok in H as [Hk [= ->]].
  unfold parseRuleFields in Hf. apply bind_ok_iff in Hf as (id & Hid & Hf).
  apply bind_ok_iff in Hf as (effect & He & Hf). apply bind_ok_iff in Hf as (clients & _ & Hf).
  apply bind_ok_iff in Hf as (ops & Ho & Hf). apply bind_ok_iff in Hf as (targets & Ht & Hf).
  apply bind_ok_iff in Hf as (attrs & _ & Hf). apply bind_ok_iff in Hf as (gp & Hg & [= <-]).
  unfold parseRuleID in Hid. apply seq_ok in Hid as [Hid [= <-]]. apply refuse_ok, negb_false_iff in Hid.
  unfold validRuleID in Hid. apply andb_true_iff in Hid as [Hid Htrim]. apply andb_true_iff in Hid as [Hne _].
  unfold parseOperations in Ho. apply seq_ok in Ho as [_ Ho]. apply seq_ok in Ho as [_ Ho].
  apply operations_from_ok in Ho as [Hnd Hknown]; [|constructor|by intros op Hop%elem_of_nil].
  unfold parseTargets in Ht. apply seq_ok in Ht as [Hlen Ht]. apply refuse_ok, Nat.eqb_neq in Hlen.
  apply seq_ok in Ht as [_ Ht]. apply seq_ok in Ht as [_ [= <-]].
  constructor; cbn in *; try done.
  - split; [by destruct (hraw_ID raw)|by apply String.eqb_eq].
  - intros op m Hop Hm. unfold validateRuleOperationTargets in Hk.
    rewrite for_each_ok, Forall_forall in Hk. specialize (Hk op Hop). cbn in Hk.
    rewrite for_each_ok, Forall_forall in Hk. specialize (Hk m Hm).
    apply refuse_ok, negb_false_iff, String.eqb_eq in Hk. done.
  - intros E. by rewrite E in Hlen.
  - by apply (parseGrantPolicy_request _ _ _ _ _ Hg).
  - apply wrap_error_ok in He. unfold parseEffect in He. repeat case_match; naive_solver.
Qed.

Lemma build_rules_wf (ids : list string) (raws : list HFRawRule) (rules : list HFRule) :
  build_rules ids raws = Ok rules →
  Forall wf_rule rules ∧ NoDup (hf_ID <$> rules) ∧ ∀ rule, rule ∈ rules → hf_ID rule ∉ ids.
Proof.
  revert ids rules. induction raws as [|raw raws IH]; intros ids rules; cbn [build_rules].
  { intros [= <-]. split; [constructor|]. split; [constructor|]. by intros r Hr%elem_of_nil. }
  rewrite bind_ok_iff. intros (rule & Hr%parseRule_wf & H). apply seq_ok in H as [Hd H].
  apply refuse_ok, bool_decide_eq_false in Hd. apply bind_ok_iff in H as (rest & Hrest & [= <-]).
  apply IH in Hrest as (Hw & Hn & Hi). split; [by constructor|]. split.
  - cbn. constructor; [|done]. intros (r & E & Hin)%list_elem_of_fmap. apply (Hi r Hin). rewrite <- E. left.
  - intros r [->|Hin]%elem_of_cons; [done|]. intros Hx. apply (Hi r Hin). by right.
Qed.

(** ** Identifiers of compiled rules *)

Lemma trim_coreRuleID (id op : string) :
  id ≠ EmptyString → trim_space id = id → plain_name op → trim_space (coreRuleID id op) = coreRuleID id op.
Proof.
  intros Hne Hid Hop. unfold coreRuleID, trim_space.
  destruct (segments_trim id) as [Hs Hd]. rewrite Hid in Hs. rewrite <- Hs in Hd.
  destruct (plain_name_word op Hop) as [_ Hw].
  rewrite segments_app by (left; by vm_compute). change ("@" +:+ op) with (String "@" op).
  rewrite segments_ascii by by vm_compute.
  set (at_segment := Segment (byte_of "@") true "@").
  assert (drop_spaces (segments id ++ at_segment :: segments op) = segments id ++ at_segment :: segments op) as ->.
  { destruct (segments id) as [|g l] eqn:E; [destruct id; [done|by rewrite segments_cons in E]|].
    cbn in Hd |- *. destruct (is_space (seg_rune g)); [|done]. apply (f_equal length) in Hd.
    destruct (drop_spaces_split l) as (k & Ek & _). apply (f_equal length) in Ek. rewrite length_app in Ek. cbn in Hd. lia. }
  assert (drop_spaces (rev (segments id ++ at_segment :: segments op))
          = rev (segments id ++ at_segment :: segments op)) as ->.
  { rewrite rev_app_distr. cbn [rev]. rewrite <- app_assoc. destruct (rev (segments op)) as [|g l] eqn:E; [done|].
    assert (Forall (λ g, is_space (seg_rune g) = false) (g :: l)) as Hg by (rewrite <- E; by apply Forall_rev).
    apply Forall_cons in Hg as [Hg _]. cbn. by rewrite Hg. }
  rewrite rev_involutive. pose proof (concat_segments_of (id +:+ String "@" op)) as H.
  rewrite segments_app, (segments_ascii "@" op) in H; [exact H|by vm_compute|left; by vm_compute].
Qed.

Lemma coreRuleID_inj (id id' op op' : string) :
  plain_name op → plain_name op' → coreRuleID id op = coreRuleID id' op' → id = id' ∧ op = op'.
Proof.
  assert (∀ o, plain_name o → "@"%char ∉ list_of_string (string_rev o)) as Hat.
  { intros o [_ Ho] Hin.
    assert (Forall (λ c, name_char c = true) (list_of_string (string_rev o))) as Hr.
    { apply string_rev_chars. by rewrite string_rev_involutive. }
    rewrite Forall_forall in Hr. specialize (Hr _ Hin). by vm_compute in Hr. }
  assert (∀ i o, string_rev (coreRuleID i o) = string_rev o +:+ String "@" (string_rev i)) as Hrev.
  { intros i o. unfold coreRuleID. rewrite !string_rev_app. by rewrite app_assoc_string. }
  intros Ho Ho' E. apply (f_equal (λ s, cut_byte "@" (string_rev s))) in E. rewrite !Hrev in E.
  rewrite !cut_byte_app in E by auto. injection E as Eo Ei.
  split; [rewrite <- (string_rev_involutive id), Ei|rewrite <- (string_rev_involutive op), Eo];
    apply string_rev_involutive.
Qed.

(** ** One compiled rule *)

Definition targets_in_view (view : coreView) (rule : HFRule) : list HFTarget :=
  List.filter (target_in_view rule view) (hm_target <$> hf_Targets rule).

(** What a compiled rule keeps of its rule. *)
Record compiled_as (view : coreView) (rule : HFRule) (op : string) (core : Rule) : Prop := {
  ca_id : rule_ID core = coreRuleID (hf_ID rule) op;
  ca_effect : rule_Effect core = hf_Effect rule;
  ca_matches : ∀ req use,
    ruleMatches hfRegistry core (coreRequestFromHF req view) use = hf_op_matches view rule op req use
}.

Lemma compiled_targets (view : coreView) (op : string) (ts : list HFTarget) (raws cores : list TargetMatcher)
    (effect : Effect) (t : HFTarget) :
  Forall (λ m, trim_space (ht_Kind m) = ht_Kind m) ts →
  collect (λ t, TargetMatcher_UnmarshalJSON (JObject (map_to_list t))) ((λ m, coreTargetMatcher m op view) <$> ts)
    = Ok raws →
  normalizeTargets raws [op] hfRegistry = Ok cores →
  targetsMatch hfRegistry effect cores (coreTargetFromHF t op view)
  = existsb (λ m, hf_target_matches view effect op m t) ts.
Proof.
  intros Hk Hr Hn. unfold normalizeTargets in Hn. apply seq_ok in Hn as [_ Hn].
  apply collect_ok in Hr. rewrite Forall2_fmap_l in Hr. apply collect_ok in Hn.
  unfold targetsMatch. cbn [target_Kind coreTargetFromHF]. symmetry. apply existsb_Forall2.
  revert raws cores Hr Hn. induction Hk as [|m ts Hm _ IH]; intros raws cores Hr Hn.
  - inversion Hr; subst. inversion Hn; subst. constructor.
  - inversion Hr as [|? m1 ? raws' H1 Hr']; subst. inversion Hn as [|? m2 ? cores' H2 Hn']; subst.
    constructor; [|by eapply IH]. symmetry. by eapply compiled_target.
Qed.

(** A plain operation name is normalized to itself, and matches itself alone. *)
Lemma operation_normalized (op : string) (ops : list string) :
  plain_name op → normalizeOperations [op] hfRegistry = Ok ops → ops = [op].
Proof.
  intros Hplain Hops. unfold normalizeOperations in Hops. apply bind_ok_iff in Hops as (o & Ho & Hops).
  apply seq_ok in Hops as [_ [= <-]].
  unfold normalizePatterns, normalizeMatchValues, normalizePatternsWithoutValidation in Ho.
  cbn [patterns_loop length Nat.eqb] in Ho.
  rewrite (trim_word op (plain_name_word op Hplain)) in Ho. destruct Hplain as [Hne _].
  destruct op; [done|]. cbn in Ho. by apply seq_ok in Ho as [_ [= <-]].
Qed.

Lemma operation_matches (op x : string) : plain_name op → patternsMatch [op] x = String.eqb op x.
Proof.
  intros Hplain. unfold patternsMatch. cbn [existsb]. rewrite orb_false_r, (path_matches_plain op _ Hplain).
  destruct (String.eqb_spec op x) as [<-|_]; [|by destruct (is_blank _)].
  by rewrite (blank_word op (plain_name_word op Hplain)).
Qed.

Lemma targets_in_view_kind (view : coreView) (rule : HFRule) (op : string) :
  valid_catalog → wf_rule rule → op ∈ hf_Operations rule →
  Forall (λ m, trim_space (ht_Kind m) = ht_Kind m) (targets_in_view view rule).
Proof.
  intros Hcat Hwf Hop. destruct (wfr_ops rule Hwf op Hop) as [info Hinfo].
  destruct (operations_plain op info Hcat Hinfo) as [_ Hkind].
  apply Forall_forall. intros m Hm. apply list_elem_of_In, filter_In in Hm as [Hm _].
  apply list_elem_of_In, list_elem_of_fmap in Hm as (hm & -> & Hm).
  rewrite (wfr_kinds rule Hwf op hm Hop Hm). unfold operationTargetKind, operation_info. rewrite Hinfo.
  by apply trim_word, plain_name_word.
Qed.

Lemma compiled_rule (view : coreView) (rule : HFRule) (op : string) (c : coreRule) (raw : rawRule) (core : Rule) :
  valid_catalog → wf_rule rule → op ∈ hf_Operations rule → coreRuleForOperation rule op view = Some c →
  core_raw c = Ok raw → normalizeRule raw hfRegistry = Ok core → compiled_as view rule op core.
Proof.
  intros Hcat Hwf Hop Hc Hraw Hn. destruct (wfr_ops rule Hwf op Hop) as [info Hinfo].
  destruct (operations_plain op info Hcat Hinfo) as [Hplain _].
  unfold coreRuleForOperation in Hc. fold (targets_in_view view rule) in Hc.
  destruct (bool_decide (view = coreViewDiscovery) && negb (String.eqb (operationTargetKind op) KindRepo)) eqn:E1; [done|].
  destruct (bool_decide (view = coreViewDiscovery) && bool_decide (hf_Effect rule = EffectDeny)
            && negb (bool_decide (hf_Attrs rule = ∅))) eqn:E2; [done|].
  destruct (coreTargets rule op view) as [|t0 ts0] eqn:Et; [done|]. injection Hc as <-. rewrite <- Et in Hraw. clear t0 ts0 Et.
  unfold core_raw in Hraw. cbn [core_Targets core_Attrs core_GrantPolicy core_ID core_Effect core_Clients core_Operations
    core_CredentialUses] in Hraw.
  apply bind_ok_iff in Hraw as (targets & Htargets & Hraw). apply bind_ok_iff in Hraw as (kvs & Hkvs & Hraw).
  apply bind_ok_iff in Hraw as (gp & _ & [= <-]).
  unfold normalizeRule in Hn. cbn [raw_ID raw_Effect] in Hn. apply bind_ok_iff in Hn as (id & Hid & Hn).
  apply seq_ok in Hn as [_ Hn]. unfold normalizeRuleBody in Hn.
  cbn [raw_Clients raw_Operations raw_Targets raw_Attrs raw_CredentialUses raw_GrantPolicy raw_Effect raw_Description] in Hn.
  apply bind_ok_iff in Hn as (clients & Hclients & Hn). apply bind_ok_iff in Hn as (ops & Hops & Hn).
  apply bind_ok_iff in Hn as (cores & Hcores & Hn). apply bind_ok_iff in Hn as (attrs & Hattrs & Hn).
  apply bind_ok_iff in Hn as (uses & Huses & Hn). apply bind_ok_iff in Hn as (gp' & _ & [= <-]).
  apply (operation_normalized op ops Hplain) in Hops as ->.
  destruct (wfr_id rule Hwf) as [Hne Htrim].
  constructor; cbn [rule_ID rule_Effect]; [|done|].
  - unfold normalizeRuleID in Hid. rewrite (trim_coreRuleID _ _ Hne Htrim Hplain) in Hid.
    by apply seq_ok in Hid as [_ [= <-]].
  - intros req use. unfold ruleMatches, hf_op_matches, rule_in_view. cbn [rule_Effect rule_Clients rule_Operations rule_Targets rule_Attrs].
    cbn [coreRequestFromHF request_Client request_Operation request_Target request_Attrs].
    rewrite (operation_matches op _ Hplain).
    destruct (String.eqb_spec op (hfr_Operation req)) as [<-|_]; [|by rewrite andb_false_r].
    rewrite (compiled_client _ _ _ Hclients), (compiled_attrs _ _ _ _ _ _ Hkvs Hattrs).
    rewrite (compiled_uses rule [op] uses _ use Huses) by done.
    fold (targets_in_view view rule). rewrite (compiled_targets view op (targets_in_view view rule) targets cores _ _).
    + assert (negb (bool_decide (view = coreViewDiscovery) && (negb (String.eqb (operationTargetKind op) KindRepo)
        || bool_decide (hf_Effect rule = EffectDeny) && negb (bool_decide (hf_Attrs rule = ∅)))) = true) as ->.
      { destruct (bool_decide (view = coreViewDiscovery)); [|done]. cbn [andb] in *. by rewrite E1, E2. }
      by rewrite !andb_true_r, !andb_true_l.
    + by eapply targets_in_view_kind.
    + done.
    + done.
Qed.
End rules.
