(* ===== verification/HFDecide.v ===== *)
(** * Decisions of the Hugging Face policy

    A reference decision, taken on the rules of the scope file themselves, and the
    proof that the decision taken by compiling the rules to the shared policy, in
    each of its views, is that decision. *)

From S2P Require Export HFRules.

Local Open Scope Z_scope.

(** ** The reference decision *)

Section reference.
Context {R : MapRange} {CT : Catalog}.

(** The rules of one effect that match, in the order of the file. *)
Definition matching_rules (rules : list HFRule) (view : coreView) (effect : Effect) (req : HFRequest)
    (use : CredentialUse) : list HFRule :=
  List.filter (λ r, bool_decide (hf_Effect r = effect) && hf_matches view r req use) rules.

Definition reference_static (rules : list HFRule) (view : coreView) (req : HFRequest) (grantRequest : bool)
    (use : CredentialUse) : HFDecision :=
  match matching_rules rules view EffectAllow req use with
  | (_ :: _) as allowed =>
      MkHFDecision EffectAllow (ReasonText "policy_allowed") use [] [] (hf_ID <$> allowed) [] EmptyString None
  | [] =>
      match matching_rules rules view EffectRequest req use with
      | [] => MkHFDecision EffectNoMatch (ReasonText "no_matching_rule") use [] [] [] [] EmptyString None
      | (first :: _) as requestable =>
          if grantRequest
          then MkHFDecision EffectRequest (ReasonText "requestable") use [] [] [] (hf_ID <$> requestable)
                 EmptyString (hf_GrantPolicy first)
          else MkHFDecision EffectDeny (ReasonText "approval_required") use [] [] [] (hf_ID <$> requestable)
                 EmptyString (hf_GrantPolicy first)
      end
  end.

(** The active grant that is used, if the credential is managed. *)
Definition usable_hf_grant (clock : Time) (view : coreView) (req : HFRequest) (grants : list HFRule) (now : Time)
    (use : CredentialUse) : option PolicyGrant :=
  if negb (bool_decide (use = CredentialUseManaged)) then None
  else first_grant hfRegistry (coreRequestFromHF req view) (if time_is_zero now then clock else now)
         (coreGrants grants view).

Definition reference_valid (clock : Time) (rules : list HFRule) (view : coreView) (req : HFRequest)
    (grants : list HFRule) (now : Time) (grantRequest : bool) (use : CredentialUse) : HFDecision :=
  match matching_rules rules view EffectDeny req use with
  | (_ :: _) as denied =>
      MkHFDecision EffectDeny (ReasonText "policy_denied") use (hf_ID <$> denied) [] [] [] EmptyString None
  | [] =>
      match usable_hf_grant clock view req grants now use with
      | Some g => MkHFDecision EffectAllow (ReasonText "grant_allowed") use [] [pg_ID g] [] [] (pg_ID g) None
      | None => reference_static rules view req grantRequest use
      end
  end.

Definition reference_decision (clock : Time) (rules : list HFRule) (view : coreView) (req : HFRequest)
    (grants : list HFRule) (now : Time) (grantRequest : bool) (use : CredentialUse) : HFDecision :=
  let use' := defaultedCredentialUse use in
  let unclassified e := MkHFDecision EffectNoMatch (ReasonError e) use' [] [] [] [] EmptyString None in
  match operations !! hfr_Operation req with
  | None => hf_refusal "invalid_operation" use
  | Some _ =>
      match validatePolicyRequestTarget req with
      | Err _ => hf_refusal "invalid_target" use
      | Ok _ =>
          match validateRequest hfRegistry (coreRequestFromHF req view) with
          | Err e => unclassified e
          | Ok _ =>
              match validateRequestCredentialUse hfRegistry (hfr_Operation req) use' with
              | Err e => unclassified e
              | Ok _ => reference_valid clock rules view req grants now grantRequest use'
              end
          end
      end
  end.
End reference.

(** ** The compiled policies *)

Definition rule_ops (rules : list HFRule) : list (HFRule * string) :=
  r ← rules; op ← hf_Operations r; [(r, op)].

Section compiled.
Context {R : MapRange} {CT : Catalog}.

Definition compile_op (view : coreView) (ro : HFRule * string) : option (HFRule * coreRule) :=
  (λ c, (ro.1, c)) <$> coreRuleForOperation ro.1 ro.2 view.

Lemma core_rules_ops (rules : list HFRule) (view : coreView) :
  core_rules rules view = omap (compile_op view) (rule_ops rules).
Proof.
  unfold core_rules, rule_ops. induction rules as [|r rules IH]; [done|]. rewrite !bind_cons, omap_app, IH. f_equal.
  induction (hf_Operations r) as [|op ops IHo]; [done|]. rewrite !bind_cons, IHo. cbn.
  unfold compile_op at 2. cbn. by destruct (coreRuleForOperation r op view).
Qed.

Lemma not_compiled (view : coreView) (rule : HFRule) (op : string) (req : HFRequest) (use : CredentialUse) :
  coreRuleForOperation rule op view = None → hf_op_matches view rule op req use = false.
Proof.
  unfold coreRuleForOperation, hf_op_matches, rule_in_view, coreTargets.
  destruct (bool_decide (view = coreViewDiscovery)); cbn [andb];
    [destruct (negb (String.eqb (operationTargetKind op) KindRepo)); cbn [andb orb];
      [by rewrite !andb_false_r, ?andb_false_l|
       destruct (bool_decide (hf_Effect rule = EffectDeny) && negb (bool_decide (hf_Attrs rule = ∅))); cbn [negb];
         [by rewrite !andb_false_r, ?andb_false_l|]]|];
    (destruct (List.filter _ _) as [|m ms]; [|done]); intros _; cbn; by rewrite !andb_false_r, ?andb_false_l.
Qed.

(** The rule of each compiled entry and the entry's form in the shared policy. *)
Definition compiled_entries (view : coreView) (ros : list (HFRule * string)) (cores : list Rule) : Prop :=
  Forall2 (λ rc core, ∃ op, coreRuleForOperation rc.1 op view = Some rc.2 ∧ core_Operations rc.2 = [op]
                            ∧ compiled_as view rc.1 op core)
    (omap (compile_op view) ros) cores.

Definition entry_matches (view : coreView) (effect : Effect) (req : HFRequest) (use : CredentialUse)
    (ro : HFRule * string) : bool :=
  bool_decide (hf_Effect ro.1 = effect) && hf_op_matches view ro.1 ro.2 req use.

Lemma compiled_operation (rule : HFRule) (op : string) (view : coreView) (c : coreRule) :
  coreRuleForOperation rule op view = Some c → core_Operations c = [op] ∧ core_ID c = coreRuleID (hf_ID rule) op.
Proof.
  unfold coreRuleForOperation. intros H. destruct (_ && _); [done|]. destruct (_ && _ && _); [done|].
  destruct (coreTargets rule op view); [done|]. by injection H as <-.
Qed.

(** The shared policy finds the entries that match. *)
Lemma matching_entries (view : coreView) (ros : list (HFRule * string)) (cores : list Rule) (effect : Effect)
    (req : HFRequest) (use : CredentialUse) :
  compiled_entries view ros cores →
  matchingRuleIDs (MkPolicy hfRegistry cores) (coreRequestFromHF req view) effect use
  = (λ ro, coreRuleID (hf_ID ro.1) ro.2) <$> List.filter (entry_matches view effect req use) ros.
Proof.
  unfold matchingRuleIDs, compiled_entries. cbn [policy_registry policy_rules].
  revert cores. induction ros as [|[r op] ros IH]; intros cores H.
  { by inversion H. }
  cbn [omap list_omap compile_op fst snd] in H. unfold compile_op in H at 1. cbn [fst snd] in H.
  cbn [List.filter]. unfold entry_matches at 1. cbn [fst snd].
  destruct (coreRuleForOperation r op view) as [c|] eqn:Ec; cbn [fmap option_fmap option_map] in H.
  - inversion H as [|? core ? cores' (op' & Ec' & Eo & [Hid He Hm]) Hrest]; subst. cbn [fst snd] in *.
    apply compiled_operation in Ec as [Eo' _]. assert (op' = op) as -> by congruence.
    specialize (IH _ Hrest). rewrite filter_cons, He, Hm.
    destruct (bool_decide (hf_Effect r = effect)); cbn [andb].
    + destruct (hf_op_matches view r op req use); [rewrite decide_True by done|rewrite decide_False by done].
      * rewrite !fmap_cons, IH. cbn [fst snd]. by rewrite Hid.
      * exact IH.
    + rewrite decide_False by done. exact IH.
  - rewrite (not_compiled _ _ _ _ _ Ec), andb_false_r. by apply IH.
Qed.

(** An entry that matches is the only one of its rule. *)
Lemma entries_of_rule (view : coreView) (effect : Effect) (r : HFRule) (req : HFRequest) (use : CredentialUse) :
  NoDup (hf_Operations r) →
  List.filter (entry_matches view effect req use) ((λ op, (r, op)) <$> hf_Operations r)
  = if bool_decide (hf_Effect r = effect) && hf_matches view r req use then [(r, hfr_Operation req)] else [].
Proof.
  intros Hnd. unfold hf_matches, entry_matches. cbn [fst snd].
  destruct (bool_decide (hf_Effect r = effect)) eqn:Ee.
  2:{ cbn [andb]. generalize (hf_Operations r). clear Hnd. intros ops.
      induction ops as [|op ops IH]; [done|]. cbn [fmap list_fmap List.filter fst snd]. rewrite Ee. exact IH. }
  cbn [andb]. induction Hnd as [|op ops Hop Hnd IH]; [done|]. cbn [fmap list_fmap List.filter existsb fst snd].
  rewrite Ee. cbn [andb]. destruct (hf_op_matches view r op req use) eqn:Em; cbn [orb]; [|exact IH].
  assert (op = hfr_Operation req) as ->.
  { unfold hf_op_matches in Em. destruct (String.eqb_spec op (hfr_Operation req)); done. }
  rewrite IH. assert (existsb (λ op, hf_op_matches view r op req use) ops = false) as ->; [|done].
  apply not_true_iff_false. rewrite existsb_elem_of. intros (op & Hin & Hm).
  unfold hf_op_matches in Hm. destruct (String.eqb_spec op (hfr_Operation req)) as [->|]; [by apply Hop|done].
Qed.

Lemma matching_entries_rules (view : coreView) (effect : Effect) (rules : list HFRule) (req : HFRequest)
    (use : CredentialUse) :
  Forall wf_rule rules →
  List.filter (entry_matches view effect req use) (rule_ops rules)
  = (λ r, (r, hfr_Operation req)) <$> matching_rules rules view effect req use.
Proof.
  unfold rule_ops, matching_rules. induction 1 as [|r rules Hr _ IH]; [done|].
  rewrite bind_cons, List.filter_app, IH. cbn [List.filter].
  assert ((hf_Operations r ≫= λ op, [(r, op)]) = (λ op, (r, op)) <$> hf_Operations r) as ->.
  { generalize (hf_Operations r). intros ops. induction ops as [|op ops IHo]; [done|].
    rewrite bind_cons, fmap_cons, IHo. done. }
  rewrite (entries_of_rule view effect r req use (wfr_nodup r Hr)).
  by destruct (bool_decide (hf_Effect r = effect) && hf_matches view r req use).
Qed.
End compiled.

(** ** What building a policy establishes *)

Lemma rules_loop_Forall2 {R : MapRange} (ids : list string) (raws : list rawRule) (r : Registry) (rules : list Rule) :
  rules_loop ids raws r = Ok rules → Forall2 (λ raw rule, normalizeRule raw r = Ok rule) raws rules.
Proof.
  revert ids rules. induction raws as [|raw raws IH]; intros ids rules; cbn [rules_loop].
  { intros [= <-]. constructor. }
  rewrite bind_ok_iff. intros (rule & Hr%wrap_error_ok & H). apply seq_ok in H as [_ H].
  apply bind_ok_iff in H as (rest & Hrest & [= <-]). constructor; [done|by eapply IH].
Qed.

Section built.
Context {R : MapRange} {CT : Catalog} {CJ : CoreJSON}.

(** A name of the identifier map is the identifier of a rule, and the rule's name is its value. *)
Definition ids_sound (ids : gmap string string) : Prop :=
  ∀ key v, ids !! key = Some v → ∃ op, plain_name op ∧ key = coreRuleID v op.

Lemma rule_op_plain (rules : list HFRule) (r : HFRule) (op : string) :
  valid_catalog → Forall wf_rule rules → (r, op) ∈ rule_ops rules → plain_name op ∧ wf_rule r.
Proof.
  intros Hcat Hwf Hin. unfold rule_ops in Hin. apply list_elem_of_bind in Hin as (r' & Hin & Hr).
  apply list_elem_of_bind in Hin as (op' & Hin & Hop). apply list_elem_of_singleton in Hin as [= <- <-].
  rewrite Forall_forall in Hwf. specialize (Hwf _ Hr). split; [|done].
  destruct (wfr_ops _ Hwf _ Hop) as [info Hi]. by apply (operations_plain _ _ Hcat Hi).
Qed.

Lemma ids_after (doc : list (HFRule * coreRule)) (ids : gmap string string) :
  ids_sound ids → (∀ r c, (r, c) ∈ doc → ∃ op, plain_name op ∧ core_ID c = coreRuleID (hf_ID r) op) →
  let ids' := foldl (λ ids '(r, c), <[core_ID c := hf_ID r]> ids) ids doc in
  ids_sound ids' ∧ (∀ key, is_Some (ids !! key) → is_Some (ids' !! key))
  ∧ ∀ r c, (r, c) ∈ doc → is_Some (ids' !! core_ID c).
Proof.
  revert ids. induction doc as [|[r c] doc IH]; intros ids Hs Hd.
  { split; [done|]. split; [done|]. by intros r c Hin%elem_of_nil. }
  cbn. destruct (IH (<[core_ID c := hf_ID r]> ids)) as (H1 & H2 & H3).
  - intros key v. rewrite lookup_insert_Some. intros [[<- <-]|[_ H]]; [|by apply Hs].
    destruct (Hd r c) as (op & Hp & E); [left|]. by exists op.
  - intros r' c' Hin. apply Hd. by right.
  - split; [done|]. split.
    + intros key Hk. apply H2. apply lookup_insert_is_Some'. by right.
    + intros r' c' [[= -> ->]|Hin]%elem_of_cons; [|by apply (H3 r' c')]. apply H2. apply lookup_insert_is_Some'. by left.
Qed.

(** What one view's policy is. *)
Lemma buildCorePolicy_ok (rules : list HFRule) (view : coreView) (ids ids' : gmap string string) (p : Policy) :
  core_json_law → valid_catalog → Forall wf_rule rules → ids_sound ids →
  buildCorePolicy rules view ids = Ok (p, ids') →
  (∃ cores, p = MkPolicy (cloneRegistry hfRegistry) (cloneRules cores)
            ∧ compiled_entries view (rule_ops rules) cores)
  ∧ ids_sound ids' ∧ (∀ key, is_Some (ids !! key) → is_Some (ids' !! key))
  ∧ ∀ r op c, (r, op) ∈ rule_ops rules → coreRuleForOperation r op view = Some c →
      is_Some (ids' !! coreRuleID (hf_ID r) op).
Proof.
  intros Hlaw Hcat Hwf Hs H. unfold buildCorePolicy in H. cbv zeta in H. rewrite core_rules_ops in H.
  set (doc := omap (compile_op view) (rule_ops rules)) in *.
  apply bind_ok_iff in H as (body & Hbody & H). apply bind_ok_iff in H as (p' & Hp & H).
  assert (∀ r c, (r, c) ∈ doc → ∃ op, (r, op) ∈ rule_ops rules ∧ coreRuleForOperation r op view = Some c) as Hdoc.
  { intros r c Hin. apply list_elem_of_omap in Hin as ([r' op] & Hin & Hc). unfold compile_op in Hc. cbn in Hc.
    destruct (coreRuleForOperation r' op view) eqn:E; [|done]. injection Hc as <- <-. eauto. }
  destruct (ids_after doc ids Hs) as (Hs' & Hkeep & Hin).
  { intros r c Hrc. destruct (Hdoc r c Hrc) as (op & Hro & Hc). exists op.
    destruct (rule_op_plain _ _ _ Hcat Hwf Hro) as [Hp' _]. split; [done|]. by destruct (compiled_operation _ _ _ _ Hc). }
  injection H as <- <-. split; [|split; [done|split; [done|]]].
  - unfold PolicyParse.Parse in Hp. apply seq_ok in Hp as [_ Hp]. apply bind_ok_iff in Hp as (raw & Hraw%wrap_error_ok & Hp).
    destruct (Hlaw _ _ _ Hbody Hraw) as (raws & Hraws & ->). cbn [option_ok mbind result_bind] in Hp.
    apply bind_ok_iff in Hp as (cores & Hcores & [= <-]). exists cores. split; [done|].
    unfold normalizeRules in Hcores. apply bind_ok_iff in Hcores as (cores' & Hl & Hcores).
    apply seq_ok in Hcores as [_ [= ->]]. apply rules_loop_Forall2 in Hl. apply collect_ok in Hraws.
    unfold compiled_entries. fold doc. clear Hbody Hraw Hin Hkeep Hs'.
    revert raws cores Hraws Hl. induction doc as [|[r c] doc IH]; intros raws cores Hraws Hl.
    { inversion Hraws; subst. inversion Hl; subst. constructor. }
    cbn in Hraws. inversion Hraws as [|? raw ? raws' H1 Hraws']; subst. inversion Hl as [|? core ? cores'' H2 Hl']; subst.
    constructor.
    + destruct (Hdoc r c) as (op & Hro & Hc); [left|]. exists op. cbn. split; [done|].
      split; [by destruct (compiled_operation _ _ _ _ Hc)|]. destruct (rule_op_plain _ _ _ Hcat Hwf Hro) as [_ Hr].
      eapply compiled_rule; try done. unfold rule_ops in Hro. apply list_elem_of_bind in Hro as (r' & Hro & _).
      apply list_elem_of_bind in Hro as (op' & Hro & Hop). by apply list_elem_of_singleton in Hro as [= <- <-].
    + eapply IH; [|done|done]. intros r' c' Hrc. apply Hdoc. by right.
  - intros r op c Hro Hc. destruct (compiled_operation _ _ _ _ Hc) as [_ <-]. apply (Hin r c).
    unfold doc. apply list_elem_of_omap. exists (r, op). split; [done|]. unfold compile_op. cbn. by rewrite Hc.
Qed.

(** A policy that was built from parsed rules. *)
Record built_policy (p : HFPolicy) : Prop := {
  bp_rules : Forall wf_rule (hfp_rules p);
  bp_nodup : NoDup (hf_ID <$> hfp_rules p);
  bp_cores : ∀ view, ∃ cores, coreForView p view = MkPolicy (cloneRegistry hfRegistry) (cloneRules cores)
                              ∧ compiled_entries view (rule_ops (hfp_rules p)) cores;
  bp_ids : ∀ view r op c, (r, op) ∈ rule_ops (hfp_rules p) → coreRuleForOperation r op view = Some c →
    hfp_coreRuleIDs p !! coreRuleID (hf_ID r) op = Some (hf_ID r)
}.

Lemma initializeCore_built (rules : list HFRule) (p : HFPolicy) :
  core_json_law → valid_catalog → Forall wf_rule rules → NoDup (hf_ID <$> rules) →
  initializeCore rules = Ok p → built_policy p ∧ hfp_rules p = rules.
Proof.
  intros Hlaw Hcat Hwf Hnd H. unfold initializeCore in H.
  apply bind_ok_iff in H as ([normal ids1] & H1%wrap_error_ok & H).
  apply bind_ok_iff in H as ([support ids2] & H2%wrap_error_ok & H).
  apply bind_ok_iff in H as ([discovery ids3] & H3%wrap_error_ok & [= <-]).
  apply buildCorePolicy_ok in H1 as (Hc1 & Hs1 & _ & Hi1); [|done..].
  apply buildCorePolicy_ok in H2 as (Hc2 & Hs2 & Hk2 & Hi2); [|done..].
  apply buildCorePolicy_ok in H3 as (Hc3 & Hs3 & Hk3 & Hi3); [|done..].
  split; [|done]. constructor; cbn [hfp_rules hfp_coreRuleIDs]; [done|done| |].
  - intros []; cbn; done.
  - intros view r op c Hro Hc. destruct (rule_op_plain _ _ _ Hcat Hwf Hro) as [Hp _].
    assert (is_Some (ids3 !! coreRuleID (hf_ID r) op)) as [v Hv].
    { destruct view; [apply Hk3, Hk2, (Hi1 r op c)|apply Hk3, (Hi2 r op c)|apply (Hi3 r op c)]; done. }
    destruct (Hs3 _ _ Hv) as (op' & Hp' & E). by destruct (coreRuleID_inj _ _ _ _ Hp Hp' E) as [<- _].
Qed.

Lemma HF_Parse_built (decodeStrict : string → result error (list HFRawRule)) (data : string) (p : HFPolicy) :
  core_json_law → valid_catalog → HF_Parse decodeStrict data = Ok p → built_policy p.
Proof.
  intros Hlaw Hcat H. unfold HF_Parse, buildPolicy in H. apply seq_ok in H as [_ H].
  apply bind_ok_iff in H as (raws & _ & H). apply seq_ok in H as [_ H].
  apply bind_ok_iff in H as (rules & Hb & H). destruct (build_rules_wf _ _ _ Hb) as (Hw & Hn & _).
  by destruct (initializeCore_built rules p Hlaw Hcat Hw Hn H).
Qed.

(** ** From entries back to rules *)

Lemma original_from_ids (p : HFPolicy) (out values originals : list string) :
  Forall2 (λ value original, nonEmpty (default EmptyString (hfp_coreRuleIDs p !! value)) value = original)
    values originals →
  NoDup (out ++ originals) → original_from p out values = out ++ originals.
Proof.
  intros H. revert out. induction H as [|value original values originals Ho H IH]; intros out Hnd.
  { by rewrite app_nil_r. }
  cbn [original_from]. rewrite Ho. apply NoDup_app in Hnd as Hnd'. destruct Hnd' as (_ & Hdis & _).
  rewrite bool_decide_false by (intros Hin; apply (Hdis _ Hin); left).
  rewrite IH by (by rewrite <- app_assoc). by rewrite <- app_assoc.
Qed.

Lemma NoDup_ids_filter (f : HFRule → bool) (rules : list HFRule) :
  NoDup (hf_ID <$> rules) → NoDup (hf_ID <$> List.filter f rules).
Proof.
  intros H. induction rules as [|r rules IH]; [constructor|]. apply NoDup_cons in H as [Hr Hn]. cbn.
  destruct (f r); [|by apply IH]. rewrite fmap_cons. constructor; [|by apply IH].
  intros (r' & E & Hin)%list_elem_of_fmap. apply list_elem_of_In, filter_In in Hin as [Hin _].
  apply Hr. rewrite E. apply list_elem_of_fmap_2. by apply list_elem_of_In.
Qed.

(** The identifiers a decision reports are those of the matching rules of the file. *)
Lemma reported_ids (p : HFPolicy) (view : coreView) (effect : Effect) (req : HFRequest) (use : CredentialUse) :
  built_policy p →
  originalRuleIDs p (matchingRuleIDs (coreForView p view) (coreRequestFromHF req view) effect use)
  = hf_ID <$> matching_rules (hfp_rules p) view effect req use
  ∧ matchingRuleIDs (coreForView p view) (coreRequestFromHF req view) effect use
    = (λ r, coreRuleID (hf_ID r) (hfr_Operation req)) <$> matching_rules (hfp_rules p) view effect req use.
Proof.
  intros Hp. destruct (bp_cores p Hp view) as (cores & Hcore & Hent).
  assert (matchingRuleIDs (coreForView p view) (coreRequestFromHF req view) effect use
    = (λ r, coreRuleID (hf_ID r) (hfr_Operation req)) <$> matching_rules (hfp_rules p) view effect req use) as E.
  { rewrite Hcore, matchingRuleIDs_clone, (matching_entries _ _ _ _ _ _ Hent).
    rewrite (matching_entries_rules _ _ _ _ _ (bp_rules p Hp)). by rewrite <- list_fmap_compose. }
  split; [|done]. rewrite E. unfold originalRuleIDs.
  rewrite (original_from_ids p [] _ (hf_ID <$> matching_rules (hfp_rules p) view effect req use)); [done| |].
  - apply Forall2_fmap. apply Forall_Forall2_diag, Forall_forall. intros r Hr.
    unfold matching_rules in Hr. apply list_elem_of_In, filter_In in Hr as [Hr Hm].
    apply andb_true_iff in Hm as [_ Hm]. unfold hf_matches in Hm. apply existsb_elem_of in Hm as (op & Hop & Hm).
    assert (op = hfr_Operation req) as ->.
    { unfold hf_op_matches in Hm. destruct (String.eqb_spec op (hfr_Operation req)); done. }
    assert ((r, hfr_Operation req) ∈ rule_ops (hfp_rules p)) as Hro.
    { unfold rule_ops. apply list_elem_of_bind. exists r. split; [|by apply list_elem_of_In].
      apply list_elem_of_bind. exists (hfr_Operation req). split; [by left|done]. }
    destruct (coreRuleForOperation r (hfr_Operation req) view) as [c|] eqn:Ec.
    + rewrite (bp_ids p Hp view r _ c Hro Ec). cbn.
      pose proof (bp_rules p Hp) as Hw. rewrite Forall_forall in Hw.
      destruct (wfr_id r (Hw r (proj2 (list_elem_of_In _ _) Hr))) as [Hne _]. unfold nonEmpty. by destruct (hf_ID r).
    + by rewrite (not_compiled _ _ _ _ _ Ec) in Hm.
  - apply NoDup_ids_filter, (bp_nodup p Hp).
Qed.
End built.

(** ** The decisions are the reference decision *)

Section decisions.
Context {R : MapRange} {CT : Catalog} {CJ : CoreJSON}.

Lemma request_policy (p : HFPolicy) (ids : list string) (rules : list HFRule) (first : HFRule)
    (fallback : option GrantPolicy) :
  built_policy p → first ∈ hfp_rules p → hf_Effect first = EffectRequest →
  originalGrantPolicy p (hf_ID first :: ids) fallback = hf_GrantPolicy first.
Proof.
  intros Hp Hin He. unfold originalGrantPolicy. rewrite bind_cons, omap_app.
  pose proof (bp_rules p Hp) as Hw. rewrite Forall_forall in Hw.
  destruct (wfr_policy first (Hw first Hin) He) as [gp Hgp].
  assert (omap (λ '(id, rule), if String.eqb (hf_ID rule) id then hf_GrantPolicy rule else None)
            (rule ← hfp_rules p; [(hf_ID first, rule)]) = [gp]) as ->; [|by rewrite Hgp].
  pose proof (bp_nodup p Hp) as Hnd. clear Hw. revert Hin Hnd. generalize (hfp_rules p). intros l.
  induction l as [|r l IH]; [by intros H%elem_of_nil|]. rewrite bind_cons, omap_app.
  intros Hin Hnd. rewrite fmap_cons in Hnd. apply NoDup_cons in Hnd as [Hr Hnd]. apply elem_of_cons in Hin as [->|Hin].
  - cbn. rewrite String.eqb_refl, Hgp. cbn. f_equal. clear IH Hnd.
    induction l as [|r' l IH]; [done|]. rewrite fmap_cons, not_elem_of_cons in Hr. destruct Hr as [Hne Hr].
    rewrite bind_cons, omap_app, (IH Hr). cbn. by rewrite (proj2 (String.eqb_neq _ _)) by congruence.
  - rewrite (IH Hin Hnd). cbn. rewrite (proj2 (String.eqb_neq (hf_ID r) (hf_ID first))); [done|].
    intros E. apply Hr. rewrite E. by apply list_elem_of_fmap_2.
Qed.

Lemma matching_rules_elem (rules : list HFRule) (view : coreView) (effect : Effect) (req : HFRequest)
    (use : CredentialUse) (r : HFRule) :
  r ∈ matching_rules rules view effect req use ↔
  r ∈ rules ∧ hf_Effect r = effect ∧ hf_matches view r req use = true.
Proof.
  unfold matching_rules. rewrite list_elem_of_In, filter_In, andb_true_iff, bool_decide_eq_true.
  by rewrite list_elem_of_In.
Qed.

Lemma static_reference (p : HFPolicy) (req : HFRequest) (grantRequest : bool) (view : coreView) (use : CredentialUse) :
  built_policy p →
  decisionFromCore p (staticRuleDecision (coreForView p view) (coreRequestFromHF req view) grantRequest use)
  = reference_static (hfp_rules p) view req grantRequest use.
Proof.
  intros Hp. unfold staticRuleDecision, reference_static.
  destruct (reported_ids p view EffectAllow req use Hp) as [Ha1 Ha2].
  destruct (reported_ids p view EffectRequest req use Hp) as [Hr1 Hr2].
  destruct (matching_rules (hfp_rules p) view EffectAllow req use) as [|a al] eqn:Ea.
  - rewrite Ha2. cbn [fmap list_fmap].
    destruct (matching_rules (hfp_rules p) view EffectRequest req use) as [|q ql] eqn:Eq; [by rewrite Hr2|].
    assert (q ∈ hfp_rules p ∧ hf_Effect q = EffectRequest) as [Hq He].
    { assert (q ∈ matching_rules (hfp_rules p) view EffectRequest req use) as Hin by (rewrite Eq; left).
      by apply matching_rules_elem in Hin as (? & ? & _). }
    rewrite Hr2 in Hr1 |- *. cbn [fmap list_fmap]. rewrite fmap_cons in Hr1.
    unfold decisionFromCore. destruct grantRequest; cbn -[originalRuleIDs originalGrantPolicy fmap];
      cbn [fmap list_fmap] in Hr1; rewrite Hr1, (request_policy p _ (q :: ql) q) by done; done.
  - rewrite Ha2 in Ha1 |- *. cbn [fmap list_fmap] in Ha1 |- *. unfold decisionFromCore.
    cbn -[originalRuleIDs originalGrantPolicy fmap]. by rewrite Ha1.
Qed.

Lemma valid_reference (clock : Time) (p : HFPolicy) (req : HFRequest) (grants : list HFRule) (now : Time)
    (grantRequest : bool) (view : coreView) (use : CredentialUse) :
  built_policy p →
  decisionFromCore p (decideValidRequest clock (coreForView p view) (coreRequestFromHF req view)
    (MkDecisionOptions grantRequest now (coreGrants grants view) use) (defaultedCredentialUse use))
  = reference_valid clock (hfp_rules p) view req grants now grantRequest (defaultedCredentialUse use).
Proof.
  intros Hp. unfold decideValidRequest, reference_valid.
  destruct (reported_ids p view EffectDeny req (defaultedCredentialUse use) Hp) as [Hd1 Hd2].
  destruct (matching_rules (hfp_rules p) view EffectDeny req (defaultedCredentialUse use)) as [|d dl] eqn:Ed.
  - rewrite Hd2. cbn [fmap list_fmap].
    assert (managedGrantDecision clock (coreForView p view) (coreRequestFromHF req view)
      (MkDecisionOptions grantRequest now (coreGrants grants view) use) (defaultedCredentialUse use)
      = (λ g, MkDecision EffectAllow true (ReasonText "grant_allowed") (defaultedCredentialUse use) [] [pg_ID g] [] []
                (pg_ID g) None) <$> usable_hf_grant clock view req grants now (defaultedCredentialUse use)) as ->.
    { unfold managedGrantDecision, usable_hf_grant. destruct (negb _); [done|].
      unfold firstMatchingGrant, decision_instant. cbn [opts_Now opts_ActiveGrants].
      destruct (bp_cores p Hp view) as (cores & -> & _). cbn [policy_registry]. rewrite first_grant_clone.
      by destruct (first_grant _ _ _ _). }
    destruct (usable_hf_grant _ _ _ _ _ _) as [g|]; [done|]. cbn [fmap option_fmap option_map opts_ForGrantRequest].
    by apply static_reference.
  - rewrite Hd2 in Hd1 |- *. cbn [fmap list_fmap] in Hd1 |- *. unfold decisionFromCore.
    cbn -[originalRuleIDs originalGrantPolicy fmap]. by rewrite Hd1.
Qed.

Lemma decide_reference (clock : Time) (p : HFPolicy) (req : HFRequest) (grants : list HFRule) (now : Time)
    (grantRequest : bool) (view : coreView) (use : CredentialUse) :
  built_policy p →
  decideCoreWithCredentialUse clock p req grants now grantRequest view use
  = reference_decision clock (hfp_rules p) view req grants now grantRequest use.
Proof.
  intros Hp. unfold decideCoreWithCredentialUse, reference_decision.
  destruct (operations !! hfr_Operation req); [|done]. destruct (validatePolicyRequestTarget req); [|done].
  unfold Decide. rewrite normalizeRequest_id. cbn [opts_CredentialUse].
  destruct (bp_cores p Hp view) as (cores & Hcore & _).
  assert (policy_registry (coreForView p view) = cloneRegistry hfRegistry) as -> by by rewrite Hcore.
  rewrite validateRequest_clone, validateRequestCredentialUse_clone.
  destruct (validateRequest hfRegistry _) as [[]|e]; [|done]. cbn [coreRequestFromHF request_Operation].
  destruct (validateRequestCredentialUse _ _ _) as [[]|e]; [|done].
  by apply valid_reference.
Qed.

(** C24: The compiled policies decide what the scope file says.  For a policy that [Parse]
    accepted, each decision (a normal one, one that ignores refs, an anonymous one and the
    discovery step of a push) equals the reference decision on the rules of the file: the
    first case that holds of a matching deny rule, a usable grant, an allow rule and a
    request rule, where a client is named literally and the identifiers reported are those
    of exactly the matching rules of the file, in its order. *)
Theorem HF_decisions_reference (decodeStrict : string → result error (list HFRawRule)) (data : string) (p : HFPolicy)
    (clock : Time) (req : HFRequest) (grants : list HFRule) (now : Time) (grantRequest : bool) :
  core_json_law → valid_catalog → HF_Parse decodeStrict data = Ok p →
  HF_Decide clock p req grants now grantRequest
    = reference_decision clock (hfp_rules p) (request_view req) req grants now grantRequest CredentialUseManaged
  ∧ DecideAnonymous clock p req now
    = reference_decision clock (hfp_rules p) (request_view req) req [] now false CredentialUseNone
  ∧ DecideReceivePackDiscovery clock p req grants now
    = reference_decision clock (hfp_rules p) coreViewDiscovery req grants now false CredentialUseManaged.
Proof.
  intros Hlaw Hcat Hparse. pose proof (HF_Parse_built _ _ _ Hlaw Hcat Hparse) as Hp.
  split; [|split]; by apply decide_reference.
Qed.
End decisions.

(** * The discovery step of a push

    Before a push the client asks which refs exist, and the broker has to decide on
    that request without knowing what will be pushed.  The discovery view answers
    it: it never refuses a client whose push the normal view would allow, so the
    decision that matters stays the one taken per ref. *)

(** The request of the discovery step: the push without its refs and attributes. *)
Definition discovery_request (req : HFRequest) : HFRequest :=
  MkHFRequest (hfr_Client req) (hfr_Operation req)
    (MkHFTarget (ht_Kind (hfr_Target req)) (ht_Type (hfr_Target req)) (ht_Owner (hfr_Target req))
       (ht_Name (hfr_Target req)) [] [] [] [] EmptyString) ∅ false.

Lemma repo_target_tests (view : coreView) (op : string) (m t : HFTarget) :
  ht_Kind m = KindRepo →
  target_tests view op m t
  = MkFieldTest "owner" no_match_mode [ht_Owner m] [ht_Owner t]
    :: MkFieldTest "name" no_match_mode [ht_Name m] [ht_Name t] :: repo_tests view op m t.
Proof. intros H. unfold target_tests. by rewrite H. Qed.

Lemma no_values_nil (values : list string) : no_values values = true → values = [].
Proof. by destruct values. Qed.

Section discovery.
Context {R : MapRange} {CT : Catalog}.

(** What a discovery target tests, the target tests in the normal view. *)
Lemma discovery_target (effect : Effect) (op : string) (m : HFTarget) (req : HFRequest) :
  ht_Kind m = KindRepo →
  hf_target_matches coreViewNormal effect op m (hfr_Target req) = true →
  hf_target_matches coreViewDiscovery effect op m (hfr_Target (discovery_request req)) = true.
Proof.
  intros Hk. unfold hf_target_matches. rewrite !(repo_target_tests _ _ m _ Hk), !andb_true_iff, !forallb_elem_of.
  intros [Hkind H]. split; [done|]. intros f Hf. apply (H f). unfold repo_tests in *. cbn in Hf.
  rewrite !elem_of_cons, elem_of_nil in Hf. rewrite !elem_of_cons. cbn [hfr_Target discovery_request ht_Owner ht_Name ht_Type] in Hf.
  naive_solver.
Qed.

Lemma deny_target (op : string) (m : HFTarget) (req : HFRequest) :
  ht_Kind m = KindRepo → ht_Refs m = [] → ht_Paths m = [] → ht_Visibility m = [] →
  hf_target_matches coreViewDiscovery EffectDeny op m (hfr_Target (discovery_request req)) = true →
  hf_target_matches coreViewNormal EffectDeny op m (hfr_Target req) = true.
Proof.
  intros Hk Hr Hp Hv. unfold hf_target_matches. rewrite !(repo_target_tests _ _ m _ Hk), !andb_true_iff, !forallb_elem_of.
  intros [Hkind H]. split; [done|]. intros f Hf. apply (H f). unfold repo_tests, optional_test in *.
  rewrite Hr, Hp, Hv in *. cbn in Hf |- *. rewrite !andb_false_r in Hf. cbn in Hf. done.
Qed.

(** A deny rule of the discovery view denies every push. *)
Lemma discovery_denies (rule : HFRule) (req : HFRequest) (use : CredentialUse) :
  hf_Effect rule = EffectDeny →
  hf_matches coreViewDiscovery rule (discovery_request req) use = true → hf_matches coreViewNormal rule req use = true.
Proof.
  intros He. unfold hf_matches. rewrite !existsb_elem_of. intros (op & Hop & H). exists op. split; [done|].
  unfold hf_op_matches, rule_in_view in *. rewrite !andb_true_iff, !existsb_elem_of in *. rewrite He in *.
  destruct H as [[[[[Ho Hv] Hu] Hc] (m & Hm & Ht)] _]. cbn in Hv.
  apply negb_true_iff, orb_false_iff in Hv as [Hkind Hattrs]. apply negb_false_iff, bool_decide_eq_true in Hattrs.
  split; [split; [split; [split; [split; [done|done]|done]|done]|]|].
  - rewrite list_elem_of_In, filter_In in Hm. destruct Hm as [Hm Hin]. exists m.
    unfold target_in_view, discoveryTargetEligible in Hin. rewrite He in Hin. cbn in Hin.
    destruct (String.eqb_spec (ht_Kind m) KindRepo) as [Hk|]; [|done]. cbn in Hin.
    destruct (no_values (ht_Refs m)) eqn:E1; [|done]. destruct (no_values (ht_Paths m)) eqn:E2; [|done].
    destruct (no_values (ht_Visibility m)) eqn:E3; [|done].
    split; [|by apply (deny_target op m req); auto using no_values_nil].
    rewrite list_elem_of_In, filter_In. split; [done|]. by unfold target_in_view.
  - unfold hf_attrs_match. by rewrite Hattrs, map_to_list_empty.
Qed.

(** A rule that allows a push, or makes it requestable, does so in the discovery view. *)
Lemma discovery_admits_rule (rule : HFRule) (req : HFRequest) (use : CredentialUse) :
  wf_rule rule → operationTargetKind (hfr_Operation req) = KindRepo → hf_Effect rule ≠ EffectDeny →
  hf_matches coreViewNormal rule req use = true → hf_matches coreViewDiscovery rule (discovery_request req) use = true.
Proof.
  intros Hwf Hk He. unfold hf_matches. rewrite !existsb_elem_of. intros (op & Hop & H). exists op. split; [done|].
  unfold hf_op_matches, rule_in_view in *. rewrite !andb_true_iff, !existsb_elem_of in *.
  destruct H as [[[[[Ho Hv] Hu] Hc] (m & Hm & Ht)] _]. apply String.eqb_eq in Ho as ->.
  rewrite list_elem_of_In, filter_In in Hm. destruct Hm as [Hm _].
  assert (ht_Kind m = KindRepo) as Hmk.
  { apply list_elem_of_In, list_elem_of_fmap in Hm as (hm & -> & Hm). by rewrite (wfr_kinds rule Hwf _ hm Hop Hm). }
  split; [split; [split; [split; [split; [by apply String.eqb_eq|]|done]|done]|]|].
  - cbn [discovery_request hfr_Operation]. rewrite Hk, (bool_decide_false (hf_Effect rule = EffectDeny)) by done. done.
  - exists m. split; [|by apply discovery_target].
    rewrite list_elem_of_In, filter_In. split; [done|]. unfold target_in_view, discoveryTargetEligible.
    by rewrite Hmk, (bool_decide_false (hf_Effect rule = EffectDeny)) by done.
  - unfold hf_attrs_match. apply forallb_elem_of. by intros [key c] _.
Qed.

(** ** Requests and grants in the discovery view *)

Definition discovery_fields (t : HFTarget) : StringListMap :=
  <["type" := [ht_Type t]]> {[ "owner" := [ht_Owner t]; "name" := [ht_Name t] ]}.

Lemma discovery_fields_of (t : HFTarget) (op : string) :
  ht_Kind t = KindRepo → target_Fields (coreTargetFromHF t op coreViewDiscovery) = discovery_fields t.
Proof. intros H. unfold coreTargetFromHF. rewrite H. done. Qed.

Lemma discovery_fields_elem (t : HFTarget) (name : string) (values : list string) :
  discovery_fields t !! name = Some values →
  (name = "type" ∧ values = [ht_Type t]) ∨ (name = "owner" ∧ values = [ht_Owner t]) ∨ (name = "name" ∧ values = [ht_Name t]).
Proof. unfold discovery_fields. rewrite !lookup_insert_Some, lookup_singleton_Some. naive_solver. Qed.

(** The normal view has the fields of the discovery view. *)
Lemma normal_fields (t : HFTarget) (op name : string) (values : list string) :
  ht_Kind t = KindRepo → discovery_fields t !! name = Some values →
  target_Fields (coreTargetFromHF t op coreViewNormal) !! name = Some values.
Proof.
  intros Hk Hn. unfold coreTargetFromHF, addCoreRepoRequestFields, addCoreRepoRequestRefs, addCoreRepoRequestMetadata.
  rewrite Hk. cbn [target_Fields]. change (String.eqb KindRepo KindRepo) with true. cbv iota zeta.
  change (bool_decide (coreViewNormal = coreViewDiscovery)) with false. cbv iota.
  rewrite !add_field_lookup.
  apply discovery_fields_elem in Hn as [[-> ->]|[[-> ->]|[-> ->]]]; cbn;
    destruct (_ && operationUsesRefs op); rewrite ?add_field_lookup; reflexivity.
Qed.

Lemma repo_target_known : is_Some (reg_Targets hfRegistry !! KindRepo) → target_spec hfRegistry KindRepo = repo_target_spec.
Proof. intros H. by rewrite (target_spec_kind _ H). Qed.

Lemma required_field (t : HFTarget) (name : string) (f : FieldSpec) :
  spec_Fields repo_target_spec !! name = Some f → field_Required f = true →
  values_of (discovery_fields t) name ≠ [].
Proof.
  unfold repo_target_spec. cbn [spec_Fields]. rewrite !lookup_insert_Some, lookup_singleton_Some.
  intros H Hr. unfold values_of, discovery_fields.
  destruct H as [[<- <-]|[_ [[<- <-]|[_ [[<- <-]|[_ [[<- <-]|[_ [[<- <-]|[_ [<- <-]]]]]]]]]]]; done.
Qed.

(** A push that the registry classifies has a discovery request that it classifies. *)
Lemma discovery_classified (req : HFRequest) :
  ht_Kind (hfr_Target req) = KindRepo →
  classified hfRegistry (coreRequestFromHF req coreViewNormal) →
  classified hfRegistry (coreRequestFromHF (discovery_request req) coreViewDiscovery).
Proof.
  intros Hk [Hop Hkind Ht Hreq Hf Ha]. cbn [coreRequestFromHF request_Operation request_Target request_Attrs target_Kind coreTargetFromHF] in *.
  constructor; cbn [coreRequestFromHF request_Operation request_Target request_Attrs discovery_request hfr_Operation hfr_Target].
  - done.
  - done.
  - done.
  - intros name f. cbn [target_Kind coreTargetFromHF ht_Kind].
    rewrite Hk in Ht |- *. rewrite (repo_target_known Ht). rewrite discovery_fields_of by done. by apply required_field.
  - intros name values. rewrite discovery_fields_of by done. intros Hv. apply (Hf name values).
    by apply normal_fields.
  - intros name values Hv. unfold coreAttrsFromHF in Hv. cbn in Hv. by rewrite map_lookup_imap, lookup_empty in Hv.
Qed.

(** A grant that covers the push covers its discovery. *)
Lemma discovery_grant (rule : HFRule) (g : PolicyGrant) (req : HFRequest) (now : Time) :
  ht_Kind (hfr_Target req) = KindRepo → is_Some (reg_Targets hfRegistry !! KindRepo) →
  core_grant coreViewNormal rule = Some g → usable_grant hfRegistry (coreRequestFromHF req coreViewNormal) now g →
  ∃ g', core_grant coreViewDiscovery rule = Some g'
        ∧ usable_grant hfRegistry (coreRequestFromHF (discovery_request req) coreViewDiscovery) now g'.
Proof.
  intros Hk Hrepo Hg (Hexp & Hnow & Hm). unfold core_grant in *.
  destruct (negb (hf_Generated rule) || _); [done|].
  destruct (hf_Operations rule) as [|op [|]]; try done. destruct (hf_Targets rule) as [|m [|]]; try done.
  injection Hg as <-. cbn [pg_ExpiresAt] in Hexp, Hnow. eexists. split; [done|]. split; [done|]. split; [done|].
  unfold grantMatches in Hm |- *. cbn [pg_Client pg_Operation pg_Target pg_Attrs pg_Unlimited pg_UsesLeft coreRequestFromHF
    request_Client request_Operation request_Target request_Attrs] in Hm |- *.
  rewrite !andb_true_iff in Hm |- *. destruct Hm as [[[[Hc Ho] Ht] _] Hu].
  split; [split; [split; [split; [done|done]|]|]|done].
  - unfold grantTargetMatches in Ht |- *. cbn [target_Kind coreTargetFromHF discovery_request hfr_Target ht_Kind] in Ht |- *.
    set (t := concreteTargetFromMatcher (hm_target m)) in *.
    destruct (String.eqb_spec (ht_Kind t) (ht_Kind (hfr_Target req))) as [Ekt|]; [|done]. cbn [negb] in Ht |- *.
    rewrite Hk in Ekt, Ht |- *. destruct Hrepo as [spec Hspec]. rewrite Hspec in Ht |- *.
    pose proof (hf_targets_spec _ _ Hspec) as ->. change (kind_spec KindRepo) with repo_target_spec in *.
    rewrite discovery_fields_of by done. rewrite andb_true_iff in Ht |- *. destruct Ht as [_ Ht]. split.
    + unfold requiredGrantTargetFieldsPresent. apply forallb_map_range. intros name f Hf.
      apply negb_true_iff, andb_false_iff. destruct (field_Required f) eqn:Er; [right|by left].
      apply Nat.eqb_neq. intros E. apply (required_field t name f Hf Er). by apply length_zero_iff_nil.
    + rewrite forallb_map_range in Ht |- *. intros name values Hv.
      specialize (Ht name values (normal_fields t op name values Ekt Hv)). cbn beta iota in Ht |- *.
      destruct (spec_Fields repo_target_spec !! name) as [f|]; [|done].
      rewrite discovery_fields_of by done.
      assert (∃ vs, discovery_fields (hfr_Target req) !! name = Some vs) as [vs Hvs].
      { apply discovery_fields_elem in Hv as [[-> _]|[[-> _]|[-> _]]]; eexists; reflexivity. }
      unfold values_of in Ht |- *. rewrite (normal_fields _ _ _ _ Hk Hvs) in Ht. cbn in Ht.
      match goal with |- context [discovery_fields ?t0] => change (discovery_fields t0) with (discovery_fields (hfr_Target req)) end.
      by rewrite Hvs.
  - unfold coreAttrsFromConstraints, coreAttrsFromHF. cbn [bool_decide discovery_request hfr_Attrs].
    change (bool_decide (coreViewDiscovery = coreViewDiscovery)) with true. cbv iota.
    unfold grantAttrsMatch, unconstrainedGrantAttrsAllowed. rewrite map_size_empty, map_range_empty. cbn [forallb].
    destruct (size _ <? 0)%nat eqn:E; [by apply Nat.ltb_lt in E; lia|]. cbn.
    apply forallb_map_range. intros name values Hv. by rewrite map_lookup_imap, lookup_empty in Hv.
Qed.

(** ** The discovery decision *)

Lemma discovery_matching (rules : list HFRule) (req : HFRequest) (use : CredentialUse) :
  Forall wf_rule rules → operationTargetKind (hfr_Operation req) = KindRepo →
  (matching_rules rules coreViewNormal EffectDeny req use = [] →
   matching_rules rules coreViewDiscovery EffectDeny (discovery_request req) use = [])
  ∧ (∀ effect, effect ≠ EffectDeny → matching_rules rules coreViewNormal effect req use ≠ [] →
     matching_rules rules coreViewDiscovery effect (discovery_request req) use ≠ []).
Proof.
  intros Hwf Hk. split.
  - intros Hn. destruct (matching_rules rules coreViewDiscovery EffectDeny _ use) as [|r l] eqn:E; [done|].
    assert (r ∈ r :: l) as Hin by left. rewrite <- E in Hin. apply matching_rules_elem in Hin as (Hin & He & Hm).
    apply discovery_denies in Hm; [|done].
    assert (r ∈ matching_rules rules coreViewNormal EffectDeny req use) as Hr by by apply matching_rules_elem.
    rewrite Hn in Hr. by apply elem_of_nil in Hr.
  - intros effect Hne Hn Hd. destruct (matching_rules rules coreViewNormal effect req use) as [|r l] eqn:E; [done|].
    assert (r ∈ r :: l) as Hin by left. rewrite <- E in Hin. apply matching_rules_elem in Hin as (Hin & He & Hm).
    rewrite Forall_forall in Hwf. apply discovery_admits_rule in Hm; [|by apply Hwf|done|congruence].
    assert (r ∈ matching_rules rules coreViewDiscovery effect (discovery_request req) use) as Hr by by apply matching_rules_elem.
    rewrite Hd in Hr. by apply elem_of_nil in Hr.
Qed.

Lemma discovery_usable (clock : Time) (req : HFRequest) (grants : list HFRule) (now : Time) (use : CredentialUse) :
  ht_Kind (hfr_Target req) = KindRepo → is_Some (reg_Targets hfRegistry !! KindRepo) →
  is_Some (usable_hf_grant clock coreViewNormal req grants now use) →
  is_Some (usable_hf_grant clock coreViewDiscovery (discovery_request req) grants now use).
Proof.
  intros Hk Hrepo. unfold usable_hf_grant. destruct (negb _); [done|]. intros [g Hg].
  apply first_grant_some in Hg as [Hin Hu]. unfold coreGrants in Hin.
  apply list_elem_of_omap in Hin as (rule & Hin & Hrule).
  destruct (discovery_grant rule g req _ Hk Hrepo Hrule Hu) as (g' & Hg' & Hu').
  destruct (first_grant hfRegistry _ _ _) eqn:E; [by eexists|].
  rewrite first_grant_none in E. exfalso. apply (E g'); [|exact Hu'].
  unfold coreGrants. apply list_elem_of_omap. by exists rule.
Qed.

Lemma discovery_valid (clock : Time) (rules : list HFRule) (req : HFRequest) (grants : list HFRule) (now : Time)
    (use : CredentialUse) (d d' : HFDecision) :
  Forall wf_rule rules → operationTargetKind (hfr_Operation req) = KindRepo →
  ht_Kind (hfr_Target req) = KindRepo → is_Some (reg_Targets hfRegistry !! KindRepo) →
  d = reference_valid clock rules coreViewNormal req grants now false use →
  d' = reference_valid clock rules coreViewDiscovery (discovery_request req) grants now false use →
  (hfd_Effect d = EffectAllow → hfd_Effect d' = EffectAllow)
  ∧ (hfd_Reason d = ReasonText "approval_required" →
     hfd_Effect d' = EffectAllow ∨ hfd_Reason d' = ReasonText "approval_required").
Proof.
  intros Hwf Hop Hk Hrepo -> ->. destruct (discovery_matching rules req use Hwf Hop) as [Hdeny Hother].
  pose proof (discovery_usable clock req grants now use Hk Hrepo) as Hgrant. unfold reference_valid.
  destruct (matching_rules rules coreViewNormal EffectDeny req use); [|done]. rewrite (Hdeny eq_refl).
  destruct (usable_hf_grant clock coreViewDiscovery _ grants now use) as [g'|]; [by split; [|left]|].
  destruct (usable_hf_grant clock coreViewNormal req grants now use) as [g|].
  { by destruct (Hgrant (ex_intro _ g eq_refl)). }
  pose proof (Hother EffectAllow ltac:(done)) as Ha. pose proof (Hother EffectRequest ltac:(done)) as Hr.
  unfold reference_static.
  destruct (matching_rules rules coreViewDiscovery EffectAllow _ use); [|by split; [|left]].
  destruct (matching_rules rules coreViewNormal EffectAllow req use); [|by destruct Ha].
  destruct (matching_rules rules coreViewNormal EffectRequest req use); [done|].
  destruct (matching_rules rules coreViewDiscovery EffectRequest _ use); [by destruct Hr|].
  split; [done|by right].
Qed.

Context {CJ : CoreJSON}.

(** The discovery step of a push never stands in the way of one that is permitted:
    when the decision on a push (with its refs, paths, visibility and attributes) allows
    it, the discovery decision on the same repository allows too; and when the push needs
    an approval, the discovery decision allows or says that an approval is required. *)
Theorem discovery_admits_pushes (decodeStrict : string → result error (list HFRawRule)) (data : string)
    (p : HFPolicy) (clock : Time) (req : HFRequest) (grants : list HFRule) (now : Time) :
  core_json_law → valid_catalog → HF_Parse decodeStrict data = Ok p →
  operationTargetKind (hfr_Operation req) = KindRepo → hfr_IgnoreRepoRefs req = false →
  let push := HF_Decide clock p req grants now false in
  let discovery := DecideReceivePackDiscovery clock p (discovery_request req) grants now in
  (hfd_Effect push = EffectAllow → hfd_Effect discovery = EffectAllow)
  ∧ (hfd_Reason push = ReasonText "approval_required" →
     hfd_Effect discovery = EffectAllow ∨ hfd_Reason discovery = ReasonText "approval_required").
Proof.
  intros Hlaw Hcat Hparse Hop Hrefs push discovery.
  pose proof (HF_Parse_built _ _ _ Hlaw Hcat Hparse) as Hp. subst push discovery.
  unfold HF_Decide, DecideReceivePackDiscovery, decideCore, request_view. rewrite Hrefs.
  rewrite !decide_reference by done. unfold reference_decision. cbv zeta.
  change (hfr_Operation (discovery_request req)) with (hfr_Operation req).
  destruct (operations !! hfr_Operation req) as [info|] eqn:Hinfo; [|done].
  change (validatePolicyRequestTarget (discovery_request req)) with (validatePolicyRequestTarget req).
  destruct (validatePolicyRequestTarget req); [|done].
  destruct (validateRequest hfRegistry (coreRequestFromHF req coreViewNormal)) as [[]|e] eqn:Ev; [|done].
  apply validateRequest_classified in Ev.
  assert (ht_Kind (hfr_Target req) = KindRepo) as Hk.
  { pose proof (classified_kind _ _ Ev) as Hkind. cbn in Hkind. unfold operation_spec in Hkind. cbn in Hkind.
    rewrite map_lookup_imap, Hinfo in Hkind. cbn in Hkind.
    assert (op_TargetKinds (hf_operation_spec (hfr_Operation req) info) = [info_targetKind info]) as E.
    { unfold hf_operation_spec. by destruct (if negb _ then _ else _). }
    rewrite E in Hkind. apply list_elem_of_singleton in Hkind. rewrite Hkind.
    unfold operationTargetKind, operation_info in Hop. by rewrite Hinfo in Hop. }
  assert (is_Some (reg_Targets hfRegistry !! KindRepo)) as Hrepo.
  { pose proof (classified_target _ _ Ev) as H. cbn [coreRequestFromHF request_Target target_Kind coreTargetFromHF] in H.
    by rewrite Hk in H. }
  pose proof (discovery_classified req Hk Ev) as Ed. apply validateRequest_classified in Ed. rewrite Ed.
  destruct (validateRequestCredentialUse _ _ _) as [[]|e]; [|done].
  by apply (discovery_valid clock (hfp_rules p) req grants now (defaultedCredentialUse CredentialUseManaged)); [apply (bp_rules p Hp)|..].
Qed.
End discovery.
