(* ===== verification/HFGrant.v ===== *)
(** * Hugging Face grants: [brokers/huggingface/internal/hfgrant]

    How the Hugging Face broker writes its requests as grants of the shared store and
    reads grants back: [hfgrant.go], and the rules that active grants add to a
    decision (authorization.go, repo_api.go and grant_targets.go of [httpapi]).

    [json.Marshal] of an attribute and the strict decoding of one (with
    [UseNumber]) are the class [AttrJSON]. *)

From S2P Require Export HFCore GrantsLifecycle.
From Stdlib Require Import Ascii.

Local Open Scope Z_scope.

Class AttrJSON : Type := {
  attr_marshal : AnyValue → result error string;
  attr_decode : string → result error AnyValue
}.

(** ** Constants *)

Definition Minute : Duration := 60 * 1000000000.

Definition HF_DefaultDuration : Duration := 5 * Minute.
Definition HF_MaxDuration : Duration := 7 * 24 * 60 * Minute.

Definition ModeWindowText : string := "window".
Definition ModeExecutionText : string := "execution".

Definition OpGitPushAppend : string := "git.push.append".
Definition OpGitPushForce : string := "git.push.force".
Definition OpGitRefDelete : string := "git.ref.delete".
Definition OpGitTagUpdate : string := "git.tag.update".

(** [Input] *)
Record HFInput : Type := MkHFInput {
  in_Client : string;
  in_ClientRequestID : string;
  in_Operation : string;
  in_Mode : string;
  in_Target : string;
  in_Ref : string;
  in_PolicyTarget : option HFTarget;
  in_Attrs : gmap string AnyValue;
  in_Reason : string;
  in_RequestedDuration : Duration;
  in_PendingTimeout : Duration;
  in_MaxUses : Z;
  in_MaxUsesSpecified : bool
}.

Section hfgrant.
Context {R : MapRange} {CT : Catalog} {AJ : AttrJSON}.

(** ** Requests *)

Definition validInputIdentity (input : HFInput) : bool :=
  negb (is_empty (in_Client input)) && IsOperation (in_Operation input)
  && (bool_decide (is_Some (in_PolicyTarget input)) || negb (is_empty (in_Target input))).

Definition whitespace : string := String " " (String "009" (String "013" (String "010" EmptyString))).

Definition normalizeIdentity (input : HFInput) : result error (string * string) :=
  refuse (negb (validInputIdentity input)) (ErrorNew "client, operation, and target are required") ;;;
  let clientRequestID := trim_space (in_ClientRequestID input) in
  refuse (is_empty clientRequestID || (128 <? len clientRequestID) || contains_any whitespace clientRequestID)
    (ErrorNew "client_request_id must be 1-128 non-whitespace bytes") ;;;
  let reason := trim_space (in_Reason input) in
  refuse (is_empty reason) (ErrorNew "grant reason is required") ;;;
  refuse (2000 <? len reason) (ErrorNew "grant reason is longer than 2000 bytes") ;;;
  Ok (clientRequestID, reason).

(** [if len(values) > 0 { fields[name] = values }] *)
Definition copyTargetField (fields : StringListMap) (name : string) (values : list string) : StringListMap :=
  match values with [] => fields | _ => <[name := values]> fields end.

Definition canonicalTargetFields (input : HFInput) : result error StringListMap :=
  match in_PolicyTarget input with
  | None =>
      let fields := {[ "name" := [in_Target input] ]} in
      Ok (if is_empty (in_Ref input) then fields else <["refs" := [in_Ref input]]> fields)
  | Some target =>
      ValidateGrantRequest (MkHFRequest EmptyString (in_Operation input) target (in_Attrs input) false) ;;;
      let fields := {[ "kind" := [ht_Kind target]; "owner" := [ht_Owner target]; "name" := [ht_Name target] ]} in
      let fields := if is_empty (ht_Type target) then fields else <["type" := [ht_Type target]]> fields in
      let fields := copyTargetField fields "refs" (ht_Refs target) in
      let fields := copyTargetField fields "paths" (ht_Paths target) in
      let fields := copyTargetField fields "keys" (ht_Keys target) in
      Ok (copyTargetField fields "visibility" (ht_Visibility target))
  end.

Definition normalizeMode (mode : string) : result error string :=
  if is_empty mode then Ok ModeWindowText
  else
    refuse (negb (String.eqb mode ModeWindowText) && negb (String.eqb mode ModeExecutionText))
      (ErrorNew "grant mode is invalid") ;;;
    Ok mode.

Definition normalizeDuration (duration : Duration) : result error Duration :=
  if duration <=? 0 then Ok HF_DefaultDuration
  else
    refuse (HF_MaxDuration <? duration) (errorf "grant duration exceeds %d minutes" []) ;;;
    refuse (negb (Z.rem duration Minute =? 0))
      (ErrorNew "grant duration must be a positive whole number of minutes") ;;;
    Ok duration.

Definition normalizeMaxUses (maxUses : Z) (specified : bool) (mode : string) : result error Limit :=
  refuse (maxUses <? 0) (ErrorNew "grant max uses must be positive") ;;;
  if (maxUses =? 0) && negb specified then
    Ok (if String.eqb mode ModeExecutionText then SingleUse else MaxFiniteUses)
  else
    refuse (MaxFiniteUses <? maxUses) (errorf "grant max uses exceeds %d" []) ;;;
    Ok maxUses.

(** [normalizeGrant] *)
Definition hf_normalizeGrant (input : HFInput) : result error (string * Duration * Limit) :=
  mode ← normalizeMode (in_Mode input);
  duration ← normalizeDuration (in_RequestedDuration input);
  maxUses ← normalizeMaxUses (in_MaxUses input) (in_MaxUsesSpecified input) mode;
  refuse (String.eqb mode ModeExecutionText && negb (maxUses =? 1))
    (ErrorNew "execution approvals must have exactly one use") ;;;
  Ok (mode, duration, maxUses).

Definition encodeAttrs (attrs : gmap string AnyValue) : result error StringListMap :=
  entries ← collect (λ '(key, value),
              data ← wrap_error "grant attr %q is invalid: %w" [key] (attr_marshal value); Ok (key, [data]))
              (map_range attrs);
  Ok (list_to_map entries).

Definition CanonicalRequest (input : HFInput) : result error GrantRequest :=
  '(clientRequestID, reason) ← normalizeIdentity input;
  '(mode, duration, maxUses) ← hf_normalizeGrant input;
  attrs ← encodeAttrs (in_Attrs input);
  fields ← canonicalTargetFields input;
  Ok (MkGrantRequest (in_Client input) clientRequestID (in_Operation input) (MkTarget "hf" fields) attrs
        {[ MetadataMode := mode ]} reason duration (in_PendingTimeout input) maxUses true
        (negb (in_MaxUsesSpecified input))).

(** ** Reading grants *)

(** [normalizeAttrNumber]: a number that fits becomes an [int64]. *)
Definition normalizeAttrNumber (value : AnyValue) : AnyValue :=
  match value with
  | AnyNumber _ => match int64Value value with Some z => AnyInt z | None => value end
  | _ => value
  end.

Definition decodeAttr (key : string) (values : list string) : result error AnyValue :=
  match values with
  | [text] =>
      value ← wrap_error "decode stored grant attr %q: %w" [key] (attr_decode text);
      Ok (normalizeAttrNumber value)
  | _ => Err (errorf "stored grant attr %q is invalid" [key])
  end.

(** [hfgrant.Attrs] *)
Definition grant_attrs (grant : Grant) : result error (gmap string AnyValue) :=
  entries ← collect (λ '(key, values), value ← decodeAttr key values; Ok (key, value)) (map_range (grant_Attrs grant));
  Ok (list_to_map entries).

(** [FirstValue(fields[name])] *)
Definition first_field (grant : Grant) (name : string) : string :=
  FirstValue (default [] (target_Fields (grant_Target grant) !! name)).

(** [hfgrant.Target] *)
Definition grant_target (grant : Grant) : string :=
  let kind := first_field grant "kind" in
  if is_empty kind then first_field grant "name"
  else
    (if String.eqb kind KindRepo then first_field grant "type" else kind)
      +:+ "/" +:+ first_field grant "owner" +:+ "/" +:+ first_field grant "name".

(** [hfgrant.Ref] *)
Definition grant_ref (grant : Grant) : string := first_field grant "refs".

(** [hfgrant.Mode] *)
Definition grant_mode (grant : Grant) : string := default EmptyString (grant_Metadata grant !! MetadataMode).

Definition field_values (grant : Grant) (name : string) : list string :=
  default [] (target_Fields (grant_Target grant) !! name).

Definition zero_target : HFTarget :=
  MkHFTarget EmptyString EmptyString EmptyString EmptyString [] [] [] [] EmptyString.

Definition legacyPolicyTarget (grant : Grant) : result error HFTarget :=
  match split_byte "/" (grant_target grant) with
  | [type; owner; name] =>
      Ok (MkHFTarget KindRepo type owner name (field_values grant "refs") [] [] [] EmptyString)
  | _ => Err (ErrorNew "stored grant target is invalid")
  end.

(** [hfgrant.PolicyTarget] *)
Definition PolicyTarget (grant : Grant) : result error HFTarget :=
  let kind := first_field grant "kind" in
  if is_empty kind then legacyPolicyTarget grant
  else
    let target := MkHFTarget kind (first_field grant "type") (first_field grant "owner") (first_field grant "name")
                    (field_values grant "refs") (field_values grant "paths") (field_values grant "visibility")
                    (field_values grant "keys") EmptyString in
    wrap_error "stored grant target is invalid: %w" []
      (ValidateGrantRequest (MkHFRequest EmptyString (grant_Operation grant) target ∅ false)) ;;;
    Ok target.

Definition usableGrant (grant : Grant) (operation target ref : string) : bool :=
  bool_decide (grant_Status grant = StatusActive) && String.eqb (grant_Operation grant) operation
  && String.eqb (grant_target grant) target && String.eqb (grant_ref grant) ref
  && Allows (grant_MaxUses grant) (grant_UsedCount grant) (grant_ReservedCount grant).

(** ** The rules of active grants *)

Definition grantIsActive (grant : Grant) : bool := bool_decide (grant_Status grant = StatusActive).

Definition hasGrantUses (grant : Grant) : bool :=
  Allows (grant_MaxUses grant) (grant_UsedCount grant) (grant_ReservedCount grant).

Definition grantUsesRemaining (grant : Grant) : Z :=
  if negb (grantIsActive grant) then 0
  else
    let '(remaining, finite) := Remaining (grant_MaxUses grant) (grant_UsedCount grant) (grant_ReservedCount grant) in
    if finite : bool then remaining else 0.

Definition runtimeWindowGrant (grant : Grant) : bool := String.eqb (grant_mode grant) ModeWindowText.

Definition targetFromGrant (grant : Grant) : HFTarget :=
  match PolicyTarget grant with Ok target => target | Err _ => zero_target end.

Definition grantEligibleForRule (grant : Grant) : bool :=
  grantIsActive grant && runtimeWindowGrant grant && hasGrantUses grant.

Definition grantAttrConstraints (grant : Grant) : result error (gmap string AttrConstraint) :=
  attrs ← grant_attrs grant;
  AttrConstraintsFromValues attrs.

Definition set_grant_fields (unlimited : bool) (attrs : gmap string AttrConstraint) (rule : HFRule) : HFRule :=
  MkHFRule (hf_ID rule) (hf_Effect rule) (hf_Clients rule) (hf_Operations rule) (hf_Targets rule) attrs
    (hf_CredentialUses rule) (hf_GrantPolicy rule) (hf_Description rule) (hf_Generated rule) (hf_GrantID rule)
    (hf_ExpiresAt rule) (hf_UsesLeft rule) unlimited.

Definition grantRule (grant : Grant) : option HFRule :=
  let target := targetFromGrant grant in
  if is_empty (ht_Kind target) then None
  else
    match grantAttrConstraints grant with
    | Err _ => None
    | Ok constraints =>
        Some (set_grant_fields (IsUnlimited (grant_MaxUses grant)) constraints
                (GeneratedGrantRule (grant_ID grant) (grant_Client grant) (grant_Operation grant) target
                   (grant_ExpiresAt grant) (grantUsesRemaining grant)))
    end.

Definition activeGrantRule (grant : Grant) : option HFRule :=
  if negb (grantEligibleForRule grant) then None else grantRule grant.

(** ** Targets *)

(** [route], without the tail that the dispatch read. *)
Record Route : Type := MkRoute {
  rt_repoType : string;
  rt_owner : string;
  rt_name : string
}.

Definition grantRepoType (value : string) : option string :=
  if bool_decide (value ∈ [TypeModel; TypeDataset; TypeSpace]) then Some value else None.

Definition invalidGrantTargetSegment (value : string) : bool :=
  is_empty value
  || contains_any (whitespace +:+ "/" +:+ String "000" "*?") value.

Definition parseGrantTarget (target : string) : option Route :=
  match split_byte "/" target with
  | [type; owner; name] =>
      if contains ".." target then None
      else
        match grantRepoType type with
        | Some repoType =>
            if invalidGrantTargetSegment owner || invalidGrantTargetSegment name then None
            else Some (MkRoute repoType owner name)
        | None => None
        end
  | _ => None
  end.

Definition targetName (rt : Route) : string := rt_repoType rt +:+ "/" +:+ rt_owner rt +:+ "/" +:+ rt_name rt.

Definition routeTarget (rt : Route) (refs : list string) : HFTarget :=
  MkHFTarget KindRepo (rt_repoType rt) (rt_owner rt) (rt_name rt) refs [] [] [] EmptyString.
End hfgrant.
