(* ===== verification/HFPush.v ===== *)
(** * Push enforcement: [brokers/huggingface/internal/httpapi/receive_pack.go]

    What the Hugging Face broker does with a push ([git-receive-pack]): the discovery
    decision, the preflight of the commands, the classification against the mirror
    ([gitproxy/enforce.go]), the decision on every ref, the approval of what needs
    one, the reservation of grant uses, the forwarding to Hugging Face and the
    settlement of the uses.

    Every function is a program: a tree of calls to what is outside the handler (the
    mirror and its lock, the grant store, the clock, upstream, the response and the
    audit log), each answered by any value of its type: other requests, operators and
    the storage may do anything in between.  A function that returns values and an
    error returns them as the code does.  [Error_text] is the method [Error]. *)

From S2P Require Export HFGit HFGrant.
From Stdlib Require Import Ascii.

Local Open Scope Z_scope.

(** ** Programs *)

(** An audit event, with the fields that pushes set. *)
Record PushAudit : Type := MkPushAudit {
  audit_Client : string;
  audit_Operation : string;
  audit_Target : string;
  audit_Decision : string;
  audit_Reason : string;
  audit_UpstreamStatus : Z;
  audit_GrantIDs : list string;
  audit_PlanDigest : string
}.

Inductive PushCall : Type → Type :=
| MirrorLock : PushCall unit
| MirrorUnlock : PushCall unit
| MirrorEnsure : PushCall (option error)
| MirrorCurrentRef (ref : string) : PushCall (result error (option string))
| MirrorReadObjects : PushCall (string → string * string * bool * option error)
    (** [ReadObject], for the hashes that one extraction asks for. *)
| MirrorStoreObject (objectType data : string) : PushCall (result error string)
| MirrorIsAncestor (old new : string) : PushCall (result error bool)
| MirrorAdvanceRef (ref new : string) : PushCall (option error)
| MirrorDeleteRef (ref : string) : PushCall (option error)
| ContextErr : PushCall (nat → option error)
| ReadBody : PushCall (result error (string * bool))
| UtcNow : PushCall Time
| StoreListForClient (client : string) : PushCall (result error (list Grant))
| StoreGet (id : string) : PushCall (result error Grant)
| StoreRequest (request : GrantRequest) : PushCall (result error Grant)
    (** [hfgrant.Request] with the canonical request: its plan, and [RequestWithPlan]. *)
| StoreWaitForDecision (id : string) : PushCall (result error Grant)
| StoreReserveUse (grantID requestID operation : string) : PushCall (result error (Grant * GrantUse * bool))
| StoreSettleUse (target : UseState) (grantID requestID : string) : PushCall (option error)
    (** [CommitUse], [ReleaseUse] or [RetainUse], by the state it settles to. *)
| ValidateExecution (grant : Grant) : PushCall (option error)
    (** [hfplan.Validator.ValidateExecution] *)
| NewForwardRequest : PushCall (option error)
| ForwardPush (body : string) : PushCall (result error (Z * string))
    (** [httpClient.Do] and the reading of the report: the status and the report. *)
| WritePlain (status : Z) (message : string) : PushCall unit
| WriteReport (report : string) : PushCall unit
| WriteUpstream (status : Z) (report : string) : PushCall unit
| RecordAudit (event : PushAudit) : PushCall unit.

Inductive PushProg (X : Type) : Type :=
| PushDone (x : X)
| PushAsk {B : Type} (c : PushCall B) (k : B → PushProg X).
#[global] Arguments PushDone {X} x.
#[global] Arguments PushAsk {X B} c k.

Fixpoint push_bind {X Y} (p : PushProg X) (f : X → PushProg Y) : PushProg Y :=
  match p with
  | PushDone x => f x
  | PushAsk c k => PushAsk c (λ b, push_bind (k b) f)
  end.

#[export] Instance push_mret : MRet PushProg := λ X, PushDone.
#[export] Instance push_mbind : MBind PushProg := λ X Y f p, push_bind p f.

Definition ask {B} (c : PushCall B) : PushProg B := PushAsk c PushDone.

(** [x, err := p; if err != nil { return err }] *)
Definition push_try {A B} (f : A → PushProg (result error B)) (p : PushProg (result error A)) :
    PushProg (result error B) :=
  push_bind p (λ r, match r with Ok a => f a | Err e => PushDone (Err e) end).

Declare Scope push_scope.
Delimit Scope push_scope with push.
Notation "x '←?' y ; z" := (push_try (λ x : _, z) y)
  (at level 20, y at level 100, z at level 200, only parsing) : push_scope.
Notation "' x '←?' y ; z" := (push_try (λ x : _, z) y)
  (at level 20, x pattern, y at level 100, z at level 200, only parsing) : push_scope.
Local Open Scope push_scope.

(** ** Data *)

(** [RefUpdateKind] of gitproxy *)
Inductive HFRefUpdateKind : Type :=
| HFUpdateAppend
| HFUpdateHistoryRewrite
| HFUpdateRefDelete
| HFUpdateTagUpdate.

#[export] Instance HFRefUpdateKind_eq_dec : EqDecision HFRefUpdateKind.
Proof. solve_decision. Defined.

Record ClassifiedCommand : Type := MkClassifiedCommand {
  class_Command : HFCommand;
  class_Kind : HFRefUpdateKind
}.

#[export] Instance ClassifiedCommand_eq_dec : EqDecision ClassifiedCommand.
Proof. solve_decision. Defined.

Record pushPolicyCandidate : Type := MkPushPolicyCandidate {
  cand_operation : string;
  cand_refChange : string
}.

Record requestableHFPush : Type := MkRequestableHFPush {
  rp_Class : ClassifiedCommand;
  rp_Operation : string;
  rp_Attrs : gmap string AnyValue;
  rp_Decision : HFDecision
}.

Record grantUse : Type := MkGrantUseOf {
  gu_grant : Grant;
  gu_ref : string
}.

(** What [evaluateClassifiedPush] finds of one ref: refused with a failure, to be
    approved, or allowed (the zero [requestableHFPush], which is not appended). *)
Inductive PushVerdict : Type :=
| PushRefused (failure : RefFailure)
| PushRequestable (item : requestableHFPush)
| PushAllowed.

(** The fields of [Server] that pushes read. *)
Record HFServer : Type := MkHFServer {
  srv_policy : HFPolicy;
  srv_operatorConfigured : bool
}.

Definition errGrantStoreUnavailable : error := ErrorNew "grant store unavailable".
Definition errAmbiguousHFPush : error := ErrorNew "an earlier Git push has an ambiguous upstream result".

(** ** [gitproxy/enforce.go] *)

Definition isTagRef (ref : string) : bool := has_prefix "refs/tags/" ref.
Definition isReplaceRef (ref : string) : bool := has_prefix "refs/replace/" ref.

Definition unsupportedStaticFailures (commands : list HFCommand) : list RefFailure :=
  (λ c, MkRefFailure (hc_Ref c) "replace refs refused") <$> List.filter (λ c, isReplaceRef (hc_Ref c)) commands.

Definition clientOldStale (old : string) (current : option string) : bool :=
  if IsZeroSHA old then bool_decide (is_Some current)
  else match current with None => true | Some current => negb (EqualFold current old) end.

Fixpoint checkClientOldValues (commands : list HFCommand) : PushProg (result error (list RefFailure)) :=
  match commands with
  | [] => mret (Ok [])
  | command :: commands =>
      current ←? ask (MirrorCurrentRef (hc_Ref command));
      failures ←? checkClientOldValues commands;
      mret (Ok (if clientOldStale (hc_Old command) current
                then MkRefFailure (hc_Ref command) "client ref is stale" :: failures else failures))
  end.

Definition needsAncestryObjects (commands : list HFCommand) : bool :=
  existsb (λ c, negb (IsZeroSHA (hc_Old c)) && negb (IsZeroSHA (hc_New c)) && negb (isTagRef (hc_Ref c))) commands.

Definition failureForAll (commands : list HFCommand) (reason : string) : list RefFailure :=
  (λ c, MkRefFailure (hc_Ref c) reason) <$> commands.

Definition classifyDeletedCommand (command : HFCommand) : HFRefUpdateKind :=
  if isTagRef (hc_Ref command) then HFUpdateTagUpdate else HFUpdateRefDelete.

Definition updatingExistingTag (command : HFCommand) : bool :=
  isTagRef (hc_Ref command) && negb (IsZeroSHA (hc_Old command)).

Definition createsRefOrTag (command : HFCommand) : bool :=
  IsZeroSHA (hc_Old command) || isTagRef (hc_Ref command).

Definition classifyBranchUpdate (command : HFCommand) : PushProg (result error HFRefUpdateKind) :=
  ok ←? ask (MirrorIsAncestor (hc_Old command) (hc_New command));
  mret (Ok (if ok : bool then HFUpdateAppend else HFUpdateHistoryRewrite)).

(** [classifyCommand]; the failure it returns is always empty. *)
Definition classifyCommand (command : HFCommand) : PushProg (result error HFRefUpdateKind) :=
  if IsZeroSHA (hc_New command) then mret (Ok (classifyDeletedCommand command))
  else if updatingExistingTag command then mret (Ok HFUpdateTagUpdate)
  else if createsRefOrTag command then mret (Ok HFUpdateAppend)
  else classifyBranchUpdate command.

Fixpoint classifyCommands (commands : list HFCommand) : PushProg (result error (list ClassifiedCommand)) :=
  match commands with
  | [] => mret (Ok [])
  | command :: commands =>
      kind ←? classifyCommand command;
      classes ←? classifyCommands commands;
      mret (Ok (MkClassifiedCommand command kind :: classes))
  end.

Section enforce.
Context {GG : GoGit} (sha1_Sum : string → string).

(** [extractIncomingObjects], with the answers of the mirror and of the context. *)
Definition base_reader (read : string → string * string * bool * option error) : PackBaseReader :=
  λ sha, let '(objectType, data, found, err) := read sha in
         match err with
         | Some e => (MkPackObject EmptyString EmptyString EmptyString, found, Some e)
         | None => if found : bool then (MkPackObject objectType data sha, true, None)
                   else (MkPackObject EmptyString EmptyString EmptyString, false, None)
         end.

Definition storeOneObject (object : PackObject) : PushProg (result error unit) :=
  sha ←? ask (MirrorStoreObject (obj_Type object) (obj_Data object));
  mret (refuse (negb (EqualFold sha (obj_Hash object)))
          (errorf "stored object sha mismatch: expected %s got %s" [obj_Hash object; sha])).

Fixpoint storeExtractedObjects (objects : list PackObject) : PushProg (result error unit) :=
  match objects with
  | [] => mret (Ok tt)
  | object :: objects => _ ←? storeOneObject object; storeExtractedObjects objects
  end.

Definition storeIncomingObjects (pack : string) : PushProg (result error unit) :=
  ctx ← ask ContextErr;
  read ← ask MirrorReadObjects;
  match HF_ExtractCommitAndTagObjects sha1_Sum ctx pack (base_reader read) with
  | Err e => mret (Err e)
  | Ok objects => storeExtractedObjects objects
  end.

(** [storeObjectsForAncestry]: failures together with the error. *)
Definition storeObjectsForAncestry (req : HFReceivePack) : PushProg (list RefFailure * option error) :=
  if negb (needsAncestryObjects (hrp_Commands req)) then mret ([], None)
  else
    stored ← storeIncomingObjects (hrp_Pack req);
    mret (match stored with
          | Err e => (failureForAll (hrp_Commands req) "could not inspect incoming pack", Some e)
          | Ok _ => ([], None)
          end).

Definition preparePushClassification (req : HFReceivePack) : PushProg (list RefFailure * option error) :=
  checked ← checkClientOldValues (hrp_Commands req);
  match checked with
  | Err e => mret ([], Some e)
  | Ok ((_ :: _) as failures) => mret (failures, None)
  | Ok [] => storeObjectsForAncestry req
  end.

Definition ClassifyPush (req : HFReceivePack) : PushProg (list ClassifiedCommand * list RefFailure * option error) :=
  match unsupportedStaticFailures (hrp_Commands req) with
  | (_ :: _) as failures => mret ([], failures, None)
  | [] =>
      ensured ← ask MirrorEnsure;
      match ensured with
      | Some e => mret ([], [], Some e)
      | None =>
          '(failures, err) ← preparePushClassification req;
          match failures, err with
          | [], None =>
              classified ← classifyCommands (hrp_Commands req);
              mret (match classified with Err e => ([], [], Some e) | Ok classes => (classes, [], None) end)
          | _, _ => mret ([], failures, err)
          end
      end
  end.

(** [AdvanceAccepted] *)
Fixpoint AdvanceAccepted (commands : list HFCommand) : PushProg (option error) :=
  match commands with
  | [] => mret None
  | command :: commands =>
      err ← (if IsZeroSHA (hc_New command) then ask (MirrorDeleteRef (hc_Ref command))
             else ask (MirrorAdvanceRef (hc_Ref command) (hc_New command)));
      match err with Some e => mret (Some e) | None => AdvanceAccepted commands end
  end.
End enforce.

(** ** Operations and attributes *)

Definition operationForRefUpdate (kind : HFRefUpdateKind) : string :=
  match kind with
  | HFUpdateHistoryRewrite => OpGitPushForce
  | HFUpdateRefDelete => OpGitRefDelete
  | HFUpdateTagUpdate => OpGitTagUpdate
  | HFUpdateAppend => OpGitPushAppend
  end.

Definition refChangeForClass (class : ClassifiedCommand) : string :=
  match class_Kind class with
  | HFUpdateAppend => if IsZeroSHA (hc_Old (class_Command class)) then "create" else "fast_forward"
  | HFUpdateHistoryRewrite => "non_fast_forward"
  | HFUpdateRefDelete => "delete"
  | HFUpdateTagUpdate => "tag_update"
  end.

Definition addMaxBytesAttr (attrs : gmap string AnyValue) (size : Z) : gmap string AnyValue :=
  if 0 <=? size then <["max_bytes" := AnyInt size]> attrs else attrs.

Definition pushAttrsForChange (refChange : string) (packSize : Z) : gmap string AnyValue :=
  addMaxBytesAttr {[ "ref_change" := AnyString refChange ]} packSize.

Definition pushAttrs (class : ClassifiedCommand) (packSize : Z) : gmap string AnyValue :=
  pushAttrsForChange (refChangeForClass class) packSize.

Definition reason_is (decision : HFDecision) (text : string) : bool :=
  match hfd_Reason decision with ReasonText t => String.eqb t text | ReasonError _ => false end.

Definition policyDenyRefusesGrant (decision : HFDecision) : bool :=
  bool_decide (hfd_Effect decision = EffectDeny) && reason_is decision "policy_denied".

Definition refFailuresForClasses (classes : list ClassifiedCommand) (reason : string) : list RefFailure :=
  (λ class, MkRefFailure (hc_Ref (class_Command class)) reason) <$> classes.

Definition pushAuditOperation (classes : list ClassifiedCommand) : string :=
  match operationForRefUpdate ∘ class_Kind <$> classes with
  | [] => OpGitPushAppend
  | operation :: rest => if forallb (String.eqb operation) rest then operation else "git.push"
  end.

Definition grantAuditOperation (used : list grantUse) : string :=
  match grant_Operation ∘ gu_grant <$> used with
  | [] => EmptyString
  | operation :: rest => if forallb (String.eqb operation) rest then operation else "git.push"
  end.

(** ** The preflight *)

Definition branchUpdatePushCandidates : list pushPolicyCandidate :=
  [MkPushPolicyCandidate OpGitPushAppend "fast_forward"; MkPushPolicyCandidate OpGitPushForce "non_fast_forward"].

Definition deletePushCandidates (ref : string) : list pushPolicyCandidate :=
  if isTagRef ref then [MkPushPolicyCandidate OpGitTagUpdate "tag_update"]
  else [MkPushPolicyCandidate OpGitRefDelete "delete"].

Definition preflightPushCandidates (command : HFCommand) : list pushPolicyCandidate :=
  if isReplaceRef (hc_Ref command) then []
  else if IsZeroSHA (hc_New command) then deletePushCandidates (hc_Ref command)
  else if updatingExistingTag command then [MkPushPolicyCandidate OpGitTagUpdate "tag_update"]
  else if createsRefOrTag command then [MkPushPolicyCandidate OpGitPushAppend "create"]
  else branchUpdatePushCandidates.

Definition preflightAuditOperation (candidates : list pushPolicyCandidate) : string :=
  match cand_operation <$> candidates with
  | [] => OpGitPushAppend
  | operation :: rest => if forallb (String.eqb operation) rest then operation else "git.push"
  end.

Section server.
Context {R : MapRange} {PL : PktLine} {GG : GoGit} {CT : Catalog} {CJ : CoreJSON} {AJ : AttrJSON}.
Context (sha1_Sum : string → string).
Context (plandigest_Digest : string → string).
Context (use_digest : string → string).
(** [base64.RawURLEncoding.EncodeToString] of the SHA-256 digest. *)
Context (marshal_transaction : string → list string → string → result error string).
(** [json.Marshal] of the body digest, the rule identifiers and the target. *)
Context (Error_text : error → string).
Context (clock : Time).
(** What [time.Now] would answer, asked by [Decide] when it is given no time. *)
Context (srv : HFServer).

(** ** Decisions *)

(** [fmt.Errorf("%w: %w", errGrantStoreUnavailable, err)] *)
Definition unavailable (err : error) : error := Errorf "%w: %w" [] [errGrantStoreUnavailable; err].

Definition activeGrantRules (client : string) : PushProg (result error (list HFRule)) :=
  values ← ask (StoreListForClient client);
  mret (match values with Err e => Err (unavailable e) | Ok values => Ok (omap (M:=list) activeGrantRule values) end).

(** The request about a repository that [decideRepo] and the discovery build. *)
Definition repo_request (client operation : string) (rt : Route) (refs : list string) (attrs : gmap string AnyValue) :
    HFRequest := MkHFRequest client operation (routeTarget rt refs) attrs false.

Definition decideRepo (client operation : string) (rt : Route) (refs : list string) (attrs : gmap string AnyValue)
    (grantRequest : bool) : PushProg (result error HFDecision) :=
  activeGrants ←? activeGrantRules client;
  now ← ask UtcNow;
  mret (Ok (HF_Decide clock (srv_policy srv) (repo_request client operation rt refs attrs) activeGrants now grantRequest)).

Definition receivePackDiscoveryOperations : list string :=
  [OpGitPushAppend; OpGitPushForce; OpGitRefDelete; OpGitTagUpdate].

Definition receivePackDiscoveryPermitted (decision : HFDecision) : bool :=
  bool_decide (hfd_Effect decision = EffectAllow).

Definition reason_empty (decision : HFDecision) : bool := reason_is decision EmptyString.

Definition receivePackDiscoveryFallback (current next : HFDecision) : HFDecision :=
  if reason_empty current then next
  else if reason_is next "approval_required" then next
  else if reason_is current "approval_required" then current
  else if reason_is current "no_matching_rule" then next
  else current.

Definition zero_decision : HFDecision :=
  MkHFDecision (EffectOther EmptyString) (ReasonText EmptyString) CredentialUseManaged [] [] [] [] EmptyString None.

(** The loop of [decideReceivePackDiscovery] over the operations. *)
Fixpoint discover (decide : string → HFDecision) (operations : list string) (fallback : HFDecision) : HFDecision :=
  match operations with
  | [] =>
      if reason_empty fallback
      then MkHFDecision EffectNoMatch (ReasonText "no_matching_rule") CredentialUseManaged [] [] [] [] EmptyString None
      else fallback
  | operation :: operations =>
      let decision := decide operation in
      if receivePackDiscoveryPermitted decision then decision
      else discover decide operations (receivePackDiscoveryFallback fallback decision)
  end.

Definition decideReceivePackDiscovery (client : string) (rt : Route) : PushProg (result error HFDecision) :=
  now ← ask UtcNow;
  activeGrants ←? activeGrantRules client;
  mret (Ok (discover (λ operation,
    DecideReceivePackDiscovery clock (srv_policy srv) (repo_request client operation rt [] ∅) activeGrants now)
    receivePackDiscoveryOperations zero_decision)).

(** The reason as a string. *)
Definition reason_text (decision : HFDecision) : string :=
  match hfd_Reason decision with ReasonText t => t | ReasonError e => Error_text e end.

Definition pushFailureReason (decision : HFDecision) : string :=
  if reason_is decision "approval_required" then "approval required"
  else if reason_is decision "policy_denied" then "policy denied"
  else if reason_is decision "no_matching_rule" then "no matching policy rule"
  else reason_text decision.

Definition refFailureForDecision (ref : string) (decision : HFDecision) : RefFailure :=
  MkRefFailure ref (pushFailureReason decision).

(** ** The preflight *)

(** [pushCandidateMayInspect]: whether it may, and the reason. *)
Definition pushCandidateMayInspect (client : string) (rt : Route) (ref : string) (candidate : pushPolicyCandidate)
    (packSize : Z) : PushProg (result error (bool * string)) :=
  decision ←? decideRepo client (cand_operation candidate) rt [ref]
                (pushAttrsForChange (cand_refChange candidate) packSize) false;
  mret (Ok (
    if policyDenyRefusesGrant decision then (false, pushFailureReason decision)
    else if bool_decide (hfd_Effect decision = EffectAllow) || reason_is decision "approval_required"
    then (true, EmptyString)
    else (false, pushFailureReason decision))).

(** The loop of [commandMayInspect]: [None] when a candidate may inspect. *)
Fixpoint candidates_may_inspect (client : string) (rt : Route) (ref : string) (candidates : list pushPolicyCandidate)
    (packSize : Z) (reason : string) : PushProg (result error (option string)) :=
  match candidates with
  | [] => mret (Ok (Some reason))
  | candidate :: candidates =>
      '(ok, candidateReason) ←? pushCandidateMayInspect client rt ref candidate packSize;
      if ok : bool then mret (Ok None)
      else candidates_may_inspect client rt ref candidates packSize
             (if is_empty candidateReason then reason else candidateReason)
  end.

(** [commandMayInspect]: [None], or the operation and the reason of a refusal; an error
    comes with its operation. *)
Definition commandMayInspect (client : string) (rt : Route) (command : HFCommand) (packSize : Z) :
    PushProg (option (string * (error + string))) :=
  match preflightPushCandidates command with
  | [] => mret None
  | candidates =>
      let operation := preflightAuditOperation candidates in
      inspected ← candidates_may_inspect client rt (hc_Ref command) candidates packSize "no matching policy rule";
      mret (match inspected with
            | Err e => Some (operation, inl e)
            | Ok (Some reason) => Some (operation, inr reason)
            | Ok None => None
            end)
  end.

(** [receivePackMayInspect] *)
Fixpoint receivePackMayInspect (client : string) (rt : Route) (commands : list HFCommand) (packSize : Z) :
    PushProg (option (string * (error + string))) :=
  match commands with
  | [] => mret None
  | command :: commands =>
      refused ← commandMayInspect client rt command packSize;
      match refused with
      | Some refusal => mret (Some refusal)
      | None => receivePackMayInspect client rt commands packSize
      end
  end.

(** ** Deciding on the refs *)

(** [MatchActiveFunc] with the matcher of [matchActiveGrant], which asks the plan
    validator about one grant after the other. *)
Fixpoint match_grants (values : list Grant) (operation target ref : string) (attrs : gmap string AnyValue) :
    PushProg (option Grant) :=
  match values with
  | [] => mret None
  | grant :: values =>
      if negb (usableGrant grant operation target ref) then match_grants values operation target ref attrs
      else
        match grant_attrs grant with
        | Err _ => match_grants values operation target ref attrs
        | Ok approved =>
            invalid ← ask (ValidateExecution grant);
            match invalid with
            | Some _ => match_grants values operation target ref attrs
            | None =>
                if runtimeWindowGrant grant && AttrValuesMatch approved attrs then mret (Some grant)
                else match_grants values operation target ref attrs
            end
        end
  end.

Definition matchActiveGrant (client operation target ref : string) (attrs : gmap string AnyValue) :
    PushProg (result error (option Grant)) :=
  values ←? ask (StoreListForClient client);
  grant ← match_grants values operation target ref attrs;
  mret (Ok grant).

(** [useActiveGrant]: whether a grant matched, and the grants used. *)
Definition useActiveGrant (client operation target ref : string) (attrs : gmap string AnyValue)
    (used : gmap string grantUse) : PushProg (result error (bool * gmap string grantUse)) :=
  matched ← matchActiveGrant client operation target ref attrs;
  mret (match matched with
        | Err e => Err (unavailable e)
        | Ok None => Ok (false, used)
        | Ok (Some grant) => Ok (true, <[grant_ID grant := MkGrantUseOf grant ref]> used)
        end).

(** [evaluateGrantAllowedHFPush]; [useGrantAllowedDecision] finds the reason it checks again. *)
Definition evaluateGrantAllowedHFPush (class : ClassifiedCommand) (client operation target : string)
    (attrs : gmap string AnyValue) (used : gmap string grantUse) :
    PushProg (result error (PushVerdict * gmap string grantUse)) :=
  '(matched, used) ←? useActiveGrant client operation target (hc_Ref (class_Command class)) attrs used;
  mret (if matched : bool then Ok (PushAllowed, used) else Err (ErrorNew "authorized grant is unavailable")).

Definition evaluateRequestableHFPush (decision : HFDecision) (class : ClassifiedCommand) (client : string) (rt : Route)
    (operation : string) (attrs : gmap string AnyValue) : PushProg (result error PushVerdict) :=
  requestDecision ←? decideRepo client operation rt [hc_Ref (class_Command class)] attrs true;
  mret (Ok (
    if negb (bool_decide (hfd_Effect requestDecision = EffectRequest)) || bool_decide (hfd_GrantPolicy requestDecision = None)
    then PushRefused (refFailureForDecision (hc_Ref (class_Command class)) decision)
    else PushRequestable (MkRequestableHFPush class operation attrs requestDecision))).

Definition evaluateClassifiedPush (class : ClassifiedCommand) (client : string) (rt : Route) (target : string)
    (packSize : Z) (used : gmap string grantUse) : PushProg (result error (PushVerdict * gmap string grantUse)) :=
  let operation := operationForRefUpdate (class_Kind class) in
  let attrs := pushAttrs class packSize in
  decision ←? decideRepo client operation rt [hc_Ref (class_Command class)] attrs false;
  if bool_decide (hfd_Effect decision = EffectAllow) && negb (reason_is decision "grant_allowed")
  then mret (Ok (PushAllowed, used))
  else if reason_is decision "grant_allowed" then evaluateGrantAllowedHFPush class client operation target attrs used
  else
    verdict ←? evaluateRequestableHFPush decision class client rt operation attrs;
    mret (Ok (verdict, used)).

(** The loop of [evaluateHFPushClasses]: the refs to approve and the grants used, or a refusal. *)
Fixpoint evaluate_from (all classes : list ClassifiedCommand) (client : string) (rt : Route) (target : string)
    (packSize : Z) (used : gmap string grantUse) (requestable : list requestableHFPush) :
    PushProg (result error (list requestableHFPush * list RefFailure * gmap string grantUse)) :=
  match classes with
  | [] => mret (Ok (requestable, [], used))
  | class :: classes =>
      '(verdict, used) ←? evaluateClassifiedPush class client rt target packSize used;
      match verdict with
      | PushRefused failure => mret (Ok ([], refFailuresForClasses all (rf_Reason failure), used))
      | PushRequestable item => evaluate_from all classes client rt target packSize used (requestable ++ [item])
      | PushAllowed => evaluate_from all classes client rt target packSize used requestable
      end
  end.

Definition evaluateHFPushClasses (classes : list ClassifiedCommand) (client : string) (rt : Route) (target : string)
    (packSize : Z) (used : gmap string grantUse) :
    PushProg (result error (list requestableHFPush * list RefFailure * gmap string grantUse)) :=
  evaluate_from classes classes client rt target packSize used [].

(** ** Approving a push *)

(** [hfPushItemBounds]: the duration and the pending timeout. *)
Definition hfPushItemBounds (item : requestableHFPush) : result error (Duration * Duration) :=
  let incompatible := ErrorNew "git push approval policy is incompatible with one-use transactions" in
  match hfd_GrantPolicy (rp_Decision item) with
  | None => Err incompatible
  | Some bounds =>
      refuse (negb (bool_decide (gp_Mode bounds = GrantModeWindow)) || (gp_MaxUses bounds <? 1)) incompatible ;;;
      Ok (gp_DefaultMinutes bounds * Minute, gp_RequestTTLMinutes bounds * Minute)
  end.

Definition smaller_bound (current candidate : Duration) : Duration :=
  if (current =? 0) || (candidate <? current) then candidate else current.

Fixpoint approval_bounds_from (items : list requestableHFPush) (duration pending : Duration) :
    result error (Duration * Duration) :=
  match items with
  | [] => Ok (duration, pending)
  | item :: items =>
      '(candidateDuration, candidatePending) ← hfPushItemBounds item;
      approval_bounds_from items (smaller_bound duration candidateDuration) (smaller_bound pending candidatePending)
  end.

Definition hfPushApprovalBounds (items : list requestableHFPush) : result error (Duration * Duration) :=
  approval_bounds_from items 0 0.

(** [slices.Compact] *)
Fixpoint compact (values : list string) : list string :=
  match values with
  | value :: ((next :: _) as rest) => if String.eqb value next then compact rest else value :: compact rest
  | _ => values
  end.

Definition receivePackRequestRuleIDs (items : list requestableHFPush) : list string :=
  compact (merge_sort String.le (item ← items; hfd_MatchedRequestRuleIDs (rp_Decision item))).

Definition operation_risk (operation : string) : Z :=
  if String.eqb operation OpGitPushAppend then 1
  else if String.eqb operation OpGitTagUpdate then 2
  else if String.eqb operation OpGitPushForce then 3
  else if String.eqb operation OpGitRefDelete then 4 else 0.

(** [highestRiskHFOperation]; the items are not empty. *)
Definition highestRiskHFOperation (items : list requestableHFPush) : string :=
  match rp_Operation <$> items with
  | [] => EmptyString
  | first :: rest =>
      foldl (λ selected operation, if operation_risk selected <? operation_risk operation then operation else selected)
        first rest
  end.

(** [strconv.Atoi]; [int] has 64 bits. *)
Definition hfTransactionGeneration (base requestID : string) : Z * bool :=
  if String.eqb requestID base then (1, true)
  else if negb (has_prefix (base +:+ "-") requestID) then (0, false)
  else
    match parse_int (drop_bytes (String.length (base +:+ "-")) requestID) with
    | Some generation => (generation, 2 <=? generation)
    | None => (0, false)
    end.

Definition newerHFTransactionGrant (candidate : Grant) (candidateGeneration : Z) (valid : bool) (latest : Grant)
    (latestGeneration : Z) : bool :=
  if negb valid || (candidateGeneration <? latestGeneration) then false
  else (latestGeneration <? candidateGeneration) || time_before (grant_CreatedAt latest) (grant_CreatedAt candidate).

Definition latestHFTransactionGrant (base : string) (items : list Grant) : Grant * Z :=
  foldl (λ '(latest, generation) item,
    let '(candidate, ok) := hfTransactionGeneration base (grant_ClientRequestID item) in
    if newerHFTransactionGrant item candidate ok latest generation then (item, candidate) else (latest, generation))
    (zero_Grant, 0) items.

Definition nextGeneratedApprovalRequestID (base : string) (items : list Grant) : string :=
  let '(latest, generation) := latestHFTransactionGrant base items in
  if generation =? 0 then base
  else if bool_decide (grant_Status latest = StatusPending) || bool_decide (grant_Status latest = StatusActive)
  then grant_ClientRequestID latest
  else base +:+ "-" +:+ FormatInt (generation + 1).

Definition hfPushTransactionRequestID (client target bodyDigest : string) (ruleIDs : list string) :
    PushProg (result error string) :=
  match marshal_transaction bodyDigest ruleIDs target with
  | Err e => mret (Err e)
  | Ok encoded =>
      let base := "git-transaction-" +:+ String.substring 0 48 (plandigest_Digest encoded) in
      items ←? ask (StoreListForClient client);
      mret (Ok (nextGeneratedApprovalRequestID base items))
  end.

(** One entry of [commands]: [json.Marshal] sorts the keys. *)
Definition command_json (class : ClassifiedCommand) : json :=
  let command := class_Command class in
  JObject [("new", JString (hc_New command)); ("old", JString (hc_Old command));
           ("operation", JString (operationForRefUpdate (class_Kind class))); ("ref", JString (hc_Ref command))].

Definition transaction_attrs (classes : list ClassifiedCommand) (packSize : Z) (bodyDigest : string) :
    gmap string AnyValue :=
  {[ "plan_digest" := AnyString bodyDigest; "commands" := AnyOther (Ok (JArray (command_json <$> classes)));
     "max_bytes" := AnyInt packSize ]}.

Definition hfPushGrantInput (classes : list ClassifiedCommand) (items : list requestableHFPush) (client target : string)
    (packSize : Z) (bodyDigest : string) : PushProg (result error HFInput) :=
  match hfPushApprovalBounds items with
  | Err e => mret (Err e)
  | Ok (duration, pending) =>
      requestID ←? hfPushTransactionRequestID client target bodyDigest (receivePackRequestRuleIDs items);
      mret (Ok (MkHFInput client requestID (highestRiskHFOperation items) ModeWindowText target EmptyString None
        (transaction_attrs classes packSize bodyDigest) "Git push transaction requires approval" duration pending 1 true))
  end.

(** [hfgrant.Request] *)
Definition hfgrant_Request (input : HFInput) : PushProg (result error Grant) :=
  match CanonicalRequest input with
  | Err e => mret (Err e)
  | Ok request => ask (StoreRequest request)
  end.

(** The loop of [requestHFTransactionGrant], by the attempts left. *)
Fixpoint request_attempts (attempts : nat) (input : HFInput) : PushProg (result error Grant) :=
  match attempts with
  | O => mret (Err ErrIdempotencyConflict)
  | S attempts =>
      requested ← hfgrant_Request input;
      match requested with
      | Err e => if errors_Is e ErrIdempotencyConflict then request_attempts attempts input else mret (Err e)
      | Ok grant => mret (Ok grant)
      end
  end.

Definition requestHFTransactionGrant (input : HFInput) : PushProg (result error Grant) := request_attempts 3 input.

Definition retainedHFPushMatches (grant : Grant) (target : string) (refs : list string) : bool :=
  if negb (grant_ReservationRetained grant) || negb (String.eqb (grant_target grant) target) then false
  else is_empty (grant_ref grant) || bool_decide (grant_ref grant ∈ refs).

Definition retainedGrantBlocksHFPush (client target : string) (classes : list ClassifiedCommand) :
    PushProg (result error bool) :=
  items ←? ask (StoreListForClient client);
  mret (Ok (existsb (λ grant, retainedHFPushMatches grant target (hc_Ref ∘ class_Command <$> classes)) items)).

Definition ensureNoRetainedHFPush (client target : string) (classes : list ClassifiedCommand) :
    PushProg (result error unit) :=
  blocked ←? retainedGrantBlocksHFPush client target classes;
  mret (refuse blocked errAmbiguousHFPush).

(** The [pause] of [WithPausableLock]: work without the lock of the mirror. *)
Definition pause {X} (work : PushProg X) : PushProg X :=
  _ ← ask MirrorUnlock;
  x ← work;
  _ ← ask MirrorLock;
  mret x.

Definition waitForHFPushDecision (grantID : string) : PushProg (result error Grant) :=
  pause (ask (StoreWaitForDecision grantID)).

(** [requestAndWaitForHFPush], and whether the lock was released. *)
Definition requestAndWaitForHFPush (classes : list ClassifiedCommand) (items : list requestableHFPush)
    (client target : string) (packSize : Z) (bodyDigest : string) : PushProg (result error Grant * bool) :=
  requested ← (_ ←? ensureNoRetainedHFPush client target classes;
               input ←? hfPushGrantInput classes items client target packSize bodyDigest;
               requestHFTransactionGrant input);
  match requested with
  | Err e => mret (Err e, false)
  | Ok grant =>
      decided ← waitForHFPushDecision (grant_ID grant);
      mret (decided, true)
  end.

Definition hfPushApprovalError (classes : list ClassifiedCommand) (err : error) : list RefFailure * option error :=
  if errors_Is err errAmbiguousHFPush then (refFailuresForClasses classes (Error_text err), None)
  else ([], Some err).

Fixpoint revalidateHFPushRequests_from (items : list requestableHFPush) (client : string) (rt : Route) :
    PushProg (result error unit) :=
  match items with
  | [] => mret (Ok tt)
  | item :: items =>
      decision ←? decideRepo client (rp_Operation item) rt [hc_Ref (class_Command (rp_Class item))] (rp_Attrs item) true;
      if negb (bool_decide (hfd_Effect decision = EffectRequest)) || bool_decide (hfd_GrantPolicy decision = None)
      then mret (Err (ErrorNew (pushFailureReason decision)))
      else revalidateHFPushRequests_from items client rt
  end.

Definition revalidateHFPushRequests (items : list requestableHFPush) (client : string) (rt : Route) :
    PushProg (result error unit) :=
  if negb (srv_operatorConfigured srv) then mret (Err (ErrorNew "approval channel is not configured"))
  else revalidateHFPushRequests_from items client rt.

Definition completeHFPushApproval (classes : list ClassifiedCommand) (items : list requestableHFPush) (client : string)
    (rt : Route) (grant : Grant) (used : gmap string grantUse) : PushProg (list RefFailure * gmap string grantUse) :=
  if negb (grantIsActive grant) then
    mret (refFailuresForClasses classes ("approval " +:+ status_text (grant_Status grant) +:+ " (" +:+ grant_ID grant +:+ ")"), used)
  else
    revalidated ← revalidateHFPushRequests items client rt;
    mret (match revalidated with
          | Err e => (refFailuresForClasses classes (Error_text e), used)
          | Ok _ => ([], <[grant_ID grant := MkGrantUseOf grant EmptyString]> used)
          end).

(** [refusePolicyDeniedPush]: the failures and the error, the grants used, and whether the
    lock was released. *)
Definition refusePolicyDeniedPush (classes : list ClassifiedCommand) (client target : string) (packSize : Z)
    (bodyDigest : string) (used : gmap string grantUse) :
    PushProg (list RefFailure * option error * gmap string grantUse * bool) :=
  match parseGrantTarget target with
  | None => mret (refFailuresForClasses classes "invalid target", None, used, false)
  | Some rt =>
      evaluated ← evaluateHFPushClasses classes client rt target packSize used;
      match evaluated with
      | Err e => mret ([], Some e, used, false)
      | Ok (_, (_ :: _) as failures, used) => mret (failures, None, used, false)
      | Ok ([], [], used) => mret ([], None, used, false)
      | Ok ((_ :: _) as requestable, [], used) =>
          if negb (srv_operatorConfigured srv)
          then mret (refFailuresForClasses classes "approval channel is not configured", None, used, false)
          else
            '(approved, released) ← requestAndWaitForHFPush classes requestable client target packSize bodyDigest;
            match approved with
            | Err e => mret (hfPushApprovalError classes e, used, released)
            | Ok grant =>
                '(failures, used) ← completeHFPushApproval classes requestable client rt grant used;
                mret (failures, None, used, released)
            end
      end
  end.

(** ** Grant uses *)

(** [grants.DeriveUseRequestID] *)
Definition DeriveUseRequestID (grantID requestIdentity : string) : result error string :=
  refuse (is_empty grantID || is_empty requestIdentity) ErrUseIdentityConflict ;;;
  Ok ("use_" +:+ use_digest (grantID +:+ String "000" requestIdentity)).

(** [settleGrantUses] with the method that settles to [target]. *)
Fixpoint settleGrantUses (reserved : list (Grant * GrantUse)) (target : UseState) : PushProg unit :=
  match reserved with
  | [] => mret tt
  | (grant, use) :: reserved =>
      _ ← ask (StoreSettleUse target (grant_ID grant) (use_RequestID use));
      settleGrantUses reserved target
  end.

Fixpoint retainGrantUseReservations (reserved : list (Grant * GrantUse)) : PushProg (option error) :=
  match reserved with
  | [] => mret None
  | (grant, use) :: reserved =>
      err ← ask (StoreSettleUse UseRetained (grant_ID grant) (use_RequestID use));
      match err with
      | Some e => mret (Some (Errorf "retain grant reservation: %w" [] [e]))
      | None => retainGrantUseReservations reserved
      end
  end.

(** The end of [reserveGrantUses] on an error: what was reserved is released. *)
Definition release_reserved {X} (reserved : list (Grant * GrantUse)) (err : error) : PushProg (result error X) :=
  _ ← settleGrantUses reserved UseReleased;
  mret (Err err).

(** The loop of [reserveGrantUses]. *)
Fixpoint reserve_from (uses : list grantUse) (requestIdentity : string) (reserved : list (Grant * GrantUse)) :
    PushProg (result error (list (Grant * GrantUse))) :=
  match uses with
  | [] => mret (Ok reserved)
  | use :: uses =>
      invalid ← ask (ValidateExecution (gu_grant use));
      match invalid with
      | Some e => release_reserved reserved e
      | None =>
          match DeriveUseRequestID (grant_ID (gu_grant use)) requestIdentity with
          | Err e => release_reserved reserved e
          | Ok requestID =>
              reservation ← ask (StoreReserveUse (grant_ID (gu_grant use)) requestID (grant_Operation (gu_grant use)));
              match reservation with
              | Err e => release_reserved reserved (ErrorJoin [e; ErrUseSettled])
              | Ok (grant, stored, acquired) =>
                  if negb acquired || negb (bool_decide (use_State stored = UseReserved))
                  then release_reserved reserved (ErrorJoin [ErrUseSettled])
                  else reserve_from uses requestIdentity (reserved ++ [(grant, stored)])
              end
          end
      end
  end.

Definition reserveGrantUses (uses : list grantUse) (requestIdentity : string) :
    PushProg (result error (list (Grant * GrantUse))) := reserve_from uses requestIdentity [].

(** ** Forwarding *)

Definition record (client operation target decision reason : string) (upstreamStatus : Z) : PushProg unit :=
  ask (RecordAudit (MkPushAudit client operation target decision reason upstreamStatus [] EmptyString)).

(** [hfplan.MetadataDigest] *)
Definition MetadataDigest : string := "hf_plan_digest".

Definition recordGrantUsed (client operation target : string) (upstreamStatus : Z) (grantIDs : list string) :
    PushProg unit :=
  planDigest ← (match grantIDs with
                | [] => mret EmptyString
                | id :: _ =>
                    found ← ask (StoreGet id);
                    mret (match found with
                          | Ok grant => default EmptyString (grant_Metadata grant !! MetadataDigest)
                          | Err _ => EmptyString
                          end)
                end);
  ask (RecordAudit (MkPushAudit client operation target "grant-used" "operator grant used" upstreamStatus grantIDs planDigest)).

Definition httpReceivePackRejectionDefinitive (statusCode : Z) : bool :=
  bool_decide (statusCode ∈ [401; 403; 404; 405; 413; 415]).

(** [receivePackAccepted]: accepted, the reason, and whether the rejection is definitive. *)
Definition receivePackAccepted (push : HFReceivePack) (statusCode : Z) (body : string) : bool * string * bool :=
  if (statusCode <? 200) || (300 <=? statusCode)
  then (false, "upstream returned HTTP " +:+ FormatInt statusCode, httpReceivePackRejectionDefinitive statusCode)
  else
    match ReceivePackAccepted push body with
    | Err _ => (false, "could not parse upstream receive-pack report"%string, false)
    | Ok (accepted, reason) => (accepted, reason, false)
    end.

(** [forwardReceivePack]: the status, whether upstream accepted, the reason and whether the
    rejection is definitive; or the error. *)
Definition forwardReceivePack (push : HFReceivePack) (body : string) :
    PushProg (result error (Z * bool * string * bool)) :=
  invalid ← ask NewForwardRequest;
  match invalid with
  | Some e => mret (Err e)
  | None =>
      '(statusCode, report) ←? ask (ForwardPush body);
      let '(accepted, reason, definitiveReject) := receivePackAccepted push statusCode report in
      _ ← ask (WriteUpstream statusCode report);
      mret (Ok (statusCode, accepted, reason, definitiveReject))
  end.

Definition handleRejectedReservedPush (client target operation reason : string) (statusCode : Z)
    (definitiveReject : bool) (reservedGrants : list (Grant * GrantUse)) : PushProg (option error) :=
  err ← (if definitiveReject then _ ← settleGrantUses reservedGrants UseReleased; mret None
         else retainGrantUseReservations reservedGrants);
  _ ← record client operation target "refused" reason statusCode;
  mret err.

(** [grantUseIDs] *)
Definition grantUseIDs (used : list grantUse) : list string := merge_sort String.le (grant_ID ∘ gu_grant <$> used).

Definition acceptReservedPush (req : HFReceivePack) (client target : string) (statusCode : Z) (usedGrants : list grantUse)
    (reservedGrants : list (Grant * GrantUse)) (classes : list ClassifiedCommand) : PushProg unit :=
  _ ← AdvanceAccepted (hrp_Commands req);
  _ ← settleGrantUses reservedGrants UseCommitted;
  match usedGrants with
  | _ :: _ => recordGrantUsed client (grantAuditOperation usedGrants) target statusCode (grantUseIDs usedGrants)
  | [] => record client (pushAuditOperation classes) target "allowed" EmptyString statusCode
  end.

(** [forwardReservedPush]: the status and the error. *)
Definition forwardReservedPush (req : HFReceivePack) (body client target : string) (usedGrants : list grantUse)
    (reservedGrants : list (Grant * GrantUse)) (classes : list ClassifiedCommand) : PushProg (Z * option error) :=
  forwarded ← forwardReceivePack req body;
  match forwarded with
  | Err e =>
      retainErr ← retainGrantUseReservations reservedGrants;
      mret (0, Some (match retainErr with Some r => Errorf "%w; %w" [] [e; r] | None => e end))
  | Ok (statusCode, false, reason, definitiveReject) =>
      err ← handleRejectedReservedPush client target (pushAuditOperation classes) reason statusCode definitiveReject
              reservedGrants;
      mret (statusCode, err)
  | Ok (statusCode, true, _, _) =>
      _ ← acceptReservedPush req client target statusCode usedGrants reservedGrants classes;
      mret (statusCode, None)
  end.

(** ** The push *)

Definition revalidateClassifiedHFPush (req : HFReceivePack) (expected : list ClassifiedCommand) :
    PushProg (list RefFailure * option error) :=
  '(current, failures, err) ← ClassifyPush sha1_Sum req;
  mret (match err with
        | Some e => ([], Some e)
        | None =>
            match failures with
            | [] => if bool_decide (expected = current) then ([], None)
                    else (refFailuresForClasses expected "repository changed while approval was pending", None)
            | _ => (refFailuresForClasses expected "repository changed while approval was pending", None)
            end
        end).

(** [writeHFPushRefusal]; the failures are not empty. *)
Definition writeHFPushRefusal (req : HFReceivePack) (classes : list ClassifiedCommand) (failures : list RefFailure)
    (client target : string) : PushProg (option error) :=
  match BuildRefusalReport req failures with
  | Err e => mret (Some e)
  | Ok report =>
      _ ← ask (WriteReport report);
      _ ← record client (pushAuditOperation classes) target "refused"
            (match failures with f :: _ => rf_Reason f | [] => EmptyString end) 0;
      mret None
  end.

(** [refuseInvalidPush]: [inl] the error of a push that was refused (the response is
    written when there is none), or [inr] the grants used and the classes. *)
Definition refuseInvalidPush (req : HFReceivePack) (body client target : string) :
    PushProg (option error + list grantUse * list ClassifiedCommand) :=
  '(classes, failures, err) ← ClassifyPush sha1_Sum req;
  '(failures, err, used, released) ← (
    match failures, err with
    | [], None =>
        refusePolicyDeniedPush classes client target (len (hrp_Pack req)) (plandigest_Digest body) ∅
    | _, _ => mret (failures, err, ∅, false)
    end);
  '(failures, err) ← (
    match failures, err, released with
    | [], None, true => revalidateClassifiedHFPush req classes
    | _, _, _ => mret (failures, err)
    end);
  match failures, err with
  | _ :: _, _ =>
      err ← writeHFPushRefusal req classes failures client target;
      mret (inl err)
  | [], Some e => mret (inl (Some e))
  | [], None => mret (inr ((map_range used).*2, classes))
  end.

(** The identity under which a push reserves uses. *)
Definition request_identity (client target body : string) : string :=
  plandigest_Digest (client +:+ String "000" (target +:+ String "000" (plandigest_Digest body))).

Definition processLockedPush (req : HFReceivePack) (body client target : string) : PushProg (Z * option error) :=
  checked ← refuseInvalidPush req body client target;
  match checked with
  | inl err => mret (0, err)
  | inr (usedGrants, classes) =>
      reserved ← reserveGrantUses usedGrants (request_identity client target body);
      match reserved with
      | Err e => mret (0, Some e)
      | Ok reservedGrants => forwardReservedPush req body client target usedGrants reservedGrants classes
      end
  end.

Definition withLockedPush (req : HFReceivePack) (body client target : string) : PushProg (Z * option error) :=
  _ ← ask MirrorLock;
  outcome ← processLockedPush req body client target;
  _ ← ask MirrorUnlock;
  mret outcome.

Definition receivePackErrorResponse (err : error) : Z * string :=
  if errors_Is err errGrantStoreUnavailable then (500, "hf-broker: could not inspect grants" +:+ newline)
  else (403, "hf-broker: push refused" +:+ newline).

Definition handleReceivePackError (client target : string) (upstreamStatus : Z) (err : error) : PushProg unit :=
  _ ← (if upstreamStatus =? 0 then let '(status, message) := receivePackErrorResponse err in ask (WritePlain status message)
       else mret tt);
  record client OpGitPushAppend target "refused" ("push enforcement failed: " +:+ Error_text err) upstreamStatus.

(** A refusal before the push is processed. *)
Definition refuse_push (status : Z) (message client operation target reason : string) : PushProg unit :=
  _ ← ask (WritePlain status ("hf-broker: " +:+ message +:+ newline));
  record client operation target "refused" reason 0.

(** [readReceivePack]: the request and its body, when it is not refused. *)
Definition readReceivePack (client target : string) : PushProg (option (HFReceivePack * string)) :=
  body ← ask ReadBody;
  match body with
  | Err _ => _ ← refuse_push 400 "could not read push" client OpGitPushAppend target "could not read push"; mret None
  | Ok (_, true) =>
      _ ← refuse_push 413 "push pack exceeds configured limit" client OpGitPushAppend target
            "push pack exceeds configured limit";
      mret None
  | Ok (body, false) =>
      match ParseReceivePack body with
      | Err _ => _ ← refuse_push 400 "could not parse push" client OpGitPushAppend target "could not parse push"; mret None
      | Ok req =>
          match hrp_Commands req with
          | [] => _ ← refuse_push 400 "empty push" client OpGitPushAppend target "empty receive-pack command list"; mret None
          | _ => mret (Some (req, body))
          end
      end
  end.

(** [receivePackMayRead]: [None], or the status and the reason of a refusal. *)
Definition receivePackMayRead (client : string) (rt : Route) : PushProg (option (Z * string)) :=
  decision ← decideReceivePackDiscovery client rt;
  mret (match decision with
        | Err _ => Some (500, "could not inspect grants"%string)
        | Ok decision =>
            if receivePackDiscoveryPermitted decision then None else Some (403, pushFailureReason decision)
        end).

Definition handleReceivePack (client : string) (rt : Route) (target : string) : PushProg unit :=
  refused ← receivePackMayRead client rt;
  match refused with
  | Some (status, reason) => refuse_push status reason client "git.push" target reason
  | None =>
      read ← readReceivePack client target;
      match read with
      | None => mret tt
      | Some (req, body) =>
          inspected ← receivePackMayInspect client rt (hrp_Commands req) (len (hrp_Pack req));
          match inspected with
          | Some (operation, inl _) =>
              refuse_push 500 "could not inspect grants" client operation target "could not inspect grants"
          | Some (operation, inr reason) => refuse_push 403 reason client operation target reason
          | None =>
              '(upstreamStatus, lockErr) ← withLockedPush req body client target;
              match lockErr with
              | Some err => handleReceivePackError client target upstreamStatus err
              | None => mret tt
              end
          end
      end
  end.
End server.
