(* ===== verification/HFPushRuns.v ===== *)
(** * Runs of pushes, and what they show

    The steps of a program of HFPush, with the history of its calls and their answers,
    newest first.  Two ways to reason about all of them: [push_wp] for programs whose
    calls are permitted only after certain others, and [along] for programs that make
    only harmless calls, with what their own calls show.

    Then what each part of the enforcement shows when it does not refuse: the
    classification of the refs, the decision on each, the approval of the push. *)

From S2P Require Export HFPush GoStringFacts.
From Stdlib Require Import Ascii.

Local Open Scope Z_scope.

(** ** Steps *)

Inductive PushEvent : Type :=
| Asked {B : Type} (c : PushCall B) (answer : B).

Definition PushHistory : Type := list PushEvent.

Inductive push_step {X} : PushProg X * PushHistory → PushProg X * PushHistory → Prop :=
| push_answer {B} (c : PushCall B) (k : B → PushProg X) (a : B) (h : PushHistory) :
    push_step (PushAsk c k, h) (k a, Asked c a :: h).

Lemma push_step_inv {X} (s s' : PushProg X * PushHistory) :
  push_step s s' →
  match s.1 with PushDone _ => False | PushAsk c k => ∃ a, s' = (k a, Asked c a :: s.2) end.
Proof. intros []. by exists a. Qed.

(** A program makes as many calls as it is deep: no run goes on for ever. *)
Lemma push_step_sn {X} (p : PushProg X) (h : PushHistory) : sn push_step (p, h).
Proof.
  revert h. induction p as [x|B c k IH]; intros h; constructor; intros s Hs; apply push_step_inv in Hs; [done|].
  destruct Hs as [a ->]. apply IH.
Qed.

(** ** Weakest preconditions *)

Section wp.
Context (permitted : ∀ B, PushCall B → PushHistory → Prop).

Fixpoint push_wp {X} (p : PushProg X) (Q : X → PushHistory → Prop) (h : PushHistory) : Prop :=
  match p with
  | PushDone x => Q x h
  | PushAsk c k => permitted _ c h ∧ ∀ a, push_wp (k a) Q (Asked c a :: h)
  end.

Lemma push_wp_mono {X} (p : PushProg X) (Q Q' : X → PushHistory → Prop) (h : PushHistory) :
  (∀ x h, Q x h → Q' x h) → push_wp p Q h → push_wp p Q' h.
Proof.
  intros HQ. revert h. induction p as [x|B c k IH]; intros h; simpl; [apply HQ|].
  intros [Hc Hk]. split; [done|]. intros a. apply IH, Hk.
Qed.

Lemma push_wp_ret {X} (x : X) (Q : X → PushHistory → Prop) (h : PushHistory) : Q x h → push_wp (mret x) Q h.
Proof. done. Qed.

Lemma push_wp_bind {X Y} (p : PushProg X) (f : X → PushProg Y) (Q : Y → PushHistory → Prop) (h : PushHistory) :
  push_wp p (λ x, push_wp (f x) Q) h → push_wp (p ≫= f) Q h.
Proof.
  revert h. induction p as [x|B c k IH]; intros h; simpl; [done|].
  intros [Hc Hk]. split; [done|]. intros a. apply IH, Hk.
Qed.

Lemma push_wp_try {A B} (p : PushProg (result error A)) (f : A → PushProg (result error B))
    (Q : result error B → PushHistory → Prop) (h : PushHistory) :
  push_wp p (λ r h, match r with Ok a => push_wp (f a) Q h | Err e => Q (Err e) h end) h →
  push_wp (push_try f p) Q h.
Proof.
  intros H. apply (push_wp_bind p). revert H. apply push_wp_mono. by intros [a|e] h'.
Qed.

Lemma push_wp_step {X} (s s' : PushProg X * PushHistory) (Q : X → PushHistory → Prop) :
  push_wp s.1 Q s.2 → push_step s s' → push_wp s'.1 Q s'.2.
Proof. intros Hp Hs. destruct Hs as [B c k a h]. simpl in *. apply Hp. Qed.

Lemma push_wp_steps {X} (s s' : PushProg X * PushHistory) (Q : X → PushHistory → Prop) :
  push_wp s.1 Q s.2 → rtc push_step s s' → push_wp s'.1 Q s'.2.
Proof. intros Hp Hr. induction Hr as [|s t s' Hs _ IH]; [done|]. by apply IH, (push_wp_step s). Qed.
End wp.

(** ** Programs that make only some calls *)

Section along.
Context (calls : ∀ B, PushCall B → bool).

(** Every call is one of [calls], and a run that ends shows [post] of its events. *)
Fixpoint along {X} (p : PushProg X) (post : X → PushHistory → Prop) : Prop :=
  match p with
  | PushDone x => post x []
  | PushAsk c k => calls _ c = true ∧ ∀ a, along (k a) (λ x ev, post x (ev ++ [Asked c a]))
  end.

Lemma along_mono {X} (p : PushProg X) (post post' : X → PushHistory → Prop) :
  (∀ x ev, post x ev → post' x ev) → along p post → along p post'.
Proof.
  revert post post'. induction p as [x|B c k IH]; intros post post' H; simpl; [apply H|].
  intros [Hc Hk]. split; [done|]. intros a. apply (IH a _ _ (λ x ev, H x _)), Hk.
Qed.

Lemma along_ret {X} (x : X) (post : X → PushHistory → Prop) : post x [] → along (mret x) post.
Proof. done. Qed.

Lemma along_ask {B} (c : PushCall B) (post : B → PushHistory → Prop) :
  calls _ c = true → (∀ a, post a [Asked c a]) → along (ask c) post.
Proof. intros Hc H. split; [done|]. intros a. apply H. Qed.

(** What was shown by the events before. *)
Lemma along_bind {X Y} (p : PushProg X) (f : X → PushProg Y) (mid : X → PushHistory → Prop)
    (post : Y → PushHistory → Prop) :
  along p mid → (∀ x ev, mid x ev → along (f x) (λ y ev', post y (ev' ++ ev))) → along (p ≫= f) post.
Proof.
  revert mid post. induction p as [x|B c k IH]; intros mid post; simpl.
  - intros Hm Hf. apply (along_mono _ (λ y ev', post y (ev' ++ []))); [|by apply Hf].
    intros y ev. by rewrite app_nil_r.
  - intros [Hc Hk] Hf. split; [done|]. intros a. apply (IH a _ _ (Hk a)). intros x ev Hm.
    apply (along_mono _ (λ y ev', post y (ev' ++ ev ++ [Asked c a]))); [|by apply Hf].
    intros y ev'. by rewrite app_assoc.
Qed.

Lemma along_try {A B} (p : PushProg (result error A)) (f : A → PushProg (result error B))
    (mid : result error A → PushHistory → Prop) (post : result error B → PushHistory → Prop) :
  along p mid → (∀ e ev, mid (Err e) ev → post (Err e) ev) →
  (∀ a ev, mid (Ok a) ev → along (f a) (λ y ev', post y (ev' ++ ev))) → along (push_try f p) post.
Proof. intros Hp He Ha. apply (along_bind p _ mid); [done|]. intros [a|e] ev Hm; [by apply Ha|by apply He]. Qed.

Lemma along_wp {X} (permitted : ∀ B, PushCall B → PushHistory → Prop) (p : PushProg X)
    (post : X → PushHistory → Prop) (Q : X → PushHistory → Prop) (h : PushHistory) :
  (∀ B (c : PushCall B) h, calls _ c = true → permitted _ c h) →
  along p post →
  (∀ x ev, Forall (λ e, match e with @Asked B c _ => calls B c = true end) ev → post x ev → Q x (ev ++ h)) →
  push_wp permitted p Q h.
Proof.
  intros Hperm. revert post Q h. induction p as [x|B c k IH]; intros post Q h; simpl.
  - intros Hp HQ. by apply (HQ x []).
  - intros [Hc Hk] HQ. split; [by apply Hperm|]. intros a. apply (IH a _ _ _ (Hk a)). intros x ev Hev Hp.
    specialize (HQ x (ev ++ [Asked c a])). rewrite <- app_assoc in HQ. apply HQ; [|done].
    apply Forall_app. split; [done|]. by constructor.
Qed.
End along.

Lemma along_weaken {X} (calls calls' : ∀ B, PushCall B → bool) (p : PushProg X) (post : X → PushHistory → Prop) :
  (∀ B c, calls B c = true → calls' B c = true) → along calls p post → along calls' p post.
Proof.
  intros H. revert post. induction p as [x|B c k IH]; intros post; simpl; [done|].
  intros [Hc Hk]. split; [by apply H|]. intros a. by apply IH.
Qed.

(** The events a program made, all of them of [calls], are part of what it shows. *)
Lemma along_events {X} (calls : ∀ B, PushCall B → bool) (p : PushProg X) (post : X → PushHistory → Prop) :
  along calls p post →
  along calls p (λ x ev, post x ev ∧ Forall (λ e, match e with @Asked B c _ => calls B c = true end) ev).
Proof.
  revert post. induction p as [x|B c k IH]; intros post; simpl; [by split|].
  intros [Hc Hk]. split; [done|]. intros a. eapply along_mono; [|apply (IH a _ (Hk a))]. simpl. intros x ev [Hp Hev]. split; [done|].
  apply Forall_app. split; [done|]. by constructor.
Qed.

(** ** Calls *)

(** Calls that neither read the body, wait for an operator, touch the lock and the uses
    nor reach upstream. *)
Definition quiet_call (B : Type) (c : PushCall B) : bool :=
  match c with
  | MirrorLock | MirrorUnlock | StoreReserveUse _ _ _ | StoreSettleUse _ _ _ | ForwardPush _
  | ReadBody | StoreWaitForDecision _ => false
  | _ => true
  end.

(** The same without the mirror. *)
Definition asking_call (B : Type) (c : PushCall B) : bool :=
  match c with
  | MirrorEnsure | MirrorCurrentRef _ | MirrorReadObjects | MirrorStoreObject _ _ | MirrorIsAncestor _ _
  | MirrorAdvanceRef _ _ | MirrorDeleteRef _ => false
  | c => quiet_call _ c
  end.

(** Calls that neither touch the uses nor reach upstream. *)
Definition tame_call (B : Type) (c : PushCall B) : bool :=
  match c with
  | StoreReserveUse _ _ _ | StoreSettleUse _ _ _ | ForwardPush _ => false
  | _ => true
  end.

Definition is_lock (e : PushEvent) : bool :=
  match e with @Asked B c _ => match c with MirrorLock => true | _ => false end end.

Definition event_of (calls : ∀ B, PushCall B → bool) (e : PushEvent) : Prop :=
  match e with @Asked B c _ => calls B c = true end.

(** The events since the lock of the mirror was last taken. *)
Fixpoint since_lock (h : PushHistory) : PushHistory :=
  match h with
  | [] => []
  | e :: h => if is_lock e then [] else e :: since_lock h
  end.

Lemma since_lock_quiet (ev h : PushHistory) :
  Forall (event_of quiet_call) ev → since_lock (ev ++ h) = ev ++ since_lock h.
Proof.
  induction 1 as [|[B c a] ev He _ IH]; [done|]. destruct c; simpl in *; try done; by rewrite IH.
Qed.

Lemma since_lock_unlocked (ev h : PushHistory) :
  Forall (λ e, is_lock e = false) ev → since_lock (ev ++ h) = ev ++ since_lock h.
Proof. induction 1 as [|e ev He _ IH]; [done|]. simpl. by rewrite He, IH. Qed.

Lemma since_lock_all (ev : PushHistory) : Forall (λ e, is_lock e = false) ev → since_lock ev = ev.
Proof. intros H. pose proof (since_lock_unlocked ev [] H) as E. by rewrite !app_nil_r in E. Qed.

Lemma since_lock_prefix (ev h : PushHistory) : ∃ tail, since_lock (ev ++ h) = since_lock ev ++ tail.
Proof.
  induction ev as [|e ev [tail IH]]; [by exists (since_lock h)|]. simpl.
  destruct (is_lock e); [by exists []|]. exists tail. by rewrite IH.
Qed.

Lemma since_lock_sub (h : PushHistory) : ∃ tail, h = since_lock h ++ tail.
Proof.
  induction h as [|e h [tail IH]]; [by exists []|]. simpl. destruct (is_lock e); [by exists (e :: h)|].
  exists tail. by rewrite IH at 1.
Qed.

Lemma quiet_tame B (c : PushCall B) : quiet_call B c = true → tame_call B c = true.
Proof. by destruct c. Qed.

Lemma asking_quiet B (c : PushCall B) : asking_call B c = true → quiet_call B c = true.
Proof. by destruct c. Qed.

Lemma quiet_events_tame (ev : PushHistory) : Forall (event_of quiet_call) ev → Forall (event_of tame_call) ev.
Proof. intros H. eapply Forall_impl; [done|]. intros [B c a]. apply quiet_tame. Qed.

(** ** Automation

    [quietly] goes through a program whose calls are quiet. *)

Notation quietly := (along quiet_call).
Notation asks := (along asking_call).

(** What a function that succeeds shows. *)
Definition on_ok {A} (post : A → PushHistory → Prop) (r : result error A) (ev : PushHistory) : Prop :=
  match r with Ok a => post a ev | Err _ => True end.

Lemma along_ok {A B} (calls : ∀ B, PushCall B → bool) (p : PushProg (result error A))
    (f : A → PushProg (result error B)) (mid : A → PushHistory → Prop) (post : B → PushHistory → Prop) :
  along calls p (on_ok mid) →
  (∀ a ev, mid a ev → along calls (f a) (λ r ev', on_ok post r (ev' ++ ev))) →
  along calls (push_try f p) (on_ok post).
Proof. intros Hp Hf. by apply (along_try calls p f (on_ok mid)). Qed.

(** The same for a program that shows more of its failures. *)
Lemma along_ok_any {A B} (calls : ∀ B, PushCall B → bool) (p : PushProg (result error A))
    (f : A → PushProg (result error B)) (mid : A → PushHistory → Prop) (post : B → PushHistory → Prop)
    (h : PushHistory) :
  along calls p (on_ok mid) →
  (∀ a ev, mid a ev → along calls (f a) (λ r ev', on_ok post r (ev' ++ ev ++ h))) →
  along calls (push_try f p) (λ r ev, on_ok post r (ev ++ h)).
Proof.
  intros Hp Hf. apply (along_try calls p f (on_ok mid)); [done..|]. intros a ev Ha.
  eapply along_mono; [|by apply Hf]. intros r ev' H. by rewrite <- app_assoc.
Qed.

(** ** Targets *)

Lemma split_from_app (c : ascii) (word s r : string) :
  split_from c word (s +:+ String c r) = split_from c word s ++ split_byte c r.
Proof.
  revert word. induction s as [|d s IH]; intros word.
  - rewrite app_nil_l_string. cbn [split_from]. by rewrite Ascii.eqb_refl.
  - rewrite app_cons. cbn [split_from]. destruct (Ascii.eqb c d); [by rewrite IH|by apply IH].
Qed.

Lemma split_from_nonempty (c : ascii) (word s : string) : split_from c word s ≠ [].
Proof. revert word. induction s as [|d s IH]; intros word; cbn; [done|]. by destruct (Ascii.eqb c d). Qed.

Lemma split_from_single (c : ascii) (word s w : string) : split_from c word s = [w] → w = string_rev word +:+ s.
Proof.
  revert word. induction s as [|d s IH]; intros word; cbn.
  - intros [= <-]. by rewrite app_nil_r_string.
  - destruct (Ascii.eqb c d).
    + intros [= _ H]. by apply split_from_nonempty in H.
    + intros ->%IH. by rewrite string_rev_cons, app_assoc_string, app_cons, app_nil_l_string.
Qed.

Lemma app_three {A} (l1 l2 l3 : list A) (x y z : A) :
  l1 ≠ [] → l2 ≠ [] → l3 ≠ [] → l1 ++ l2 ++ l3 = [x; y; z] → l1 = [x] ∧ l2 = [y] ∧ l3 = [z].
Proof.
  destruct l1 as [|a [|? [|? l1]]], l2 as [|b [|? l2]], l3 as [|c [|? l3]]; intros; simplify_eq/=;
    try (by destruct l1); try (by destruct l2); done.
Qed.

(** The name of a target is read as that target, if it is. *)
Lemma parseGrantTarget_name (rt rt' : Route) : parseGrantTarget (targetName rt) = Some rt' → rt' = rt.
Proof.
  destruct rt as [type owner name]. unfold parseGrantTarget, targetName. simpl. unfold split_byte at 1.
  change ("/" +:+ owner +:+ "/" +:+ name) with (String "/" (owner +:+ String "/" name)).
  rewrite split_from_app. unfold split_byte. rewrite split_from_app. unfold split_byte.
  destruct (_ ++ _) as [|t [|o [|n [|]]]] eqn:E; try done.
  apply app_three in E as (Ht%split_from_single & Ho%split_from_single & Hn%split_from_single);
    [|apply split_from_nonempty..]. cbn in Ht, Ho, Hn. subst t o n.
  destruct (contains _ _); [done|]. unfold grantRepoType.
  destruct (bool_decide _); [|done]. destruct (_ || _); [done|]. by intros [= <-].
Qed.

Section facts.
Context {R : MapRange} {PL : PktLine} {GG : GoGit} {CT : Catalog} {CJ : CoreJSON} {AJ : AttrJSON}.
Context (sha1_Sum plandigest_Digest use_digest : string → string).
Context (marshal_transaction : string → list string → string → result error string).
Context (Error_text : error → string) (clock : Time) (srv : HFServer).

(** ** What a history shows *)

(** A decision was taken with the grants just listed, at the time just read. *)
Definition decided (h : PushHistory) (req : HFRequest) (grantRequest : bool) (d : HFDecision) : Prop :=
  ∃ front rest values now,
    h = front ++ Asked UtcNow now :: Asked (StoreListForClient (hfr_Client req)) (Ok values) :: rest
    ∧ d = HF_Decide clock (srv_policy srv) req (omap (M:=list) activeGrantRule values) now grantRequest.

Lemma decided_app (a h b : PushHistory) (req : HFRequest) (grantRequest : bool) (d : HFDecision) :
  decided h req grantRequest d → decided (a ++ h ++ b) req grantRequest d.
Proof.
  intros (front & rest & values & now & -> & Hd). exists (a ++ front), (rest ++ b), values, now.
  split; [|done]. by rewrite <- !app_assoc.
Qed.

(** A request for a grant was stored, and this is the decision on it. *)
Definition waited (ev : PushHistory) (input : HFInput) (g : Grant) : Prop :=
  ∃ request pending,
    CanonicalRequest input = Ok request
    ∧ Asked (StoreRequest request) (Ok pending) ∈ ev
    ∧ Asked (StoreWaitForDecision (grant_ID pending)) (Ok g) ∈ ev.

Section push.
Context (client : string) (rt : Route) (target : string) (packSize : Z) (bodyDigest : string).

(** The request the policy is asked about one ref. *)
Definition ref_request (class : ClassifiedCommand) : HFRequest :=
  repo_request client (operationForRefUpdate (class_Kind class)) rt [hc_Ref (class_Command class)]
    (pushAttrs class packSize).

(** A rule of the policy allows the update of the ref. *)
Definition allowed_by_rule (h : PushHistory) (class : ClassifiedCommand) : Prop :=
  ∃ d, decided h (ref_request class) false d ∧ hfd_Effect d = EffectAllow ∧ reason_is d "grant_allowed" = false.

(** The policy allows it by a grant, and this listed grant is an active one for exactly
    this operation, repository and ref, whose plan is valid and which covers the update. *)
Definition allowed_by_grant (h : PushHistory) (class : ClassifiedCommand) (id : string) : Prop :=
  ∃ d g values approved,
    decided h (ref_request class) false d ∧ reason_is d "grant_allowed" = true
    ∧ Asked (StoreListForClient client) (Ok values) ∈ h ∧ g ∈ values ∧ grant_ID g = id
    ∧ usableGrant g (operationForRefUpdate (class_Kind class)) target (hc_Ref (class_Command class)) = true
    ∧ runtimeWindowGrant g = true ∧ grant_attrs g = Ok approved
    ∧ AttrValuesMatch approved (pushAttrs class packSize) = true
    ∧ Asked (ValidateExecution g) None ∈ h.

(** The policy asks for an approval of the update. *)
Definition needs_approval (h : PushHistory) (class : ClassifiedCommand) : Prop :=
  (∃ d, decided h (ref_request class) false d ∧ hfd_Effect d ≠ EffectAllow ∧ reason_is d "grant_allowed" = false)
  ∧ ∃ d, decided h (ref_request class) true d ∧ hfd_Effect d = EffectRequest ∧ hfd_GrantPolicy d ≠ None.

(** The input of a request to approve the whole push. *)
Definition push_input (classes : list ClassifiedCommand) (input : HFInput) : Prop :=
  in_Client input = client ∧ in_Target input = target
  ∧ in_Attrs input = transaction_attrs classes packSize bodyDigest ∧ in_MaxUses input = 1.

(** An operator approved the whole push (its commands and the digest of its body) for
    one use, and the policy asks for an approval still, now that the lock is taken again. *)
Definition approved_push (h : PushHistory) (classes : list ClassifiedCommand) (class : ClassifiedCommand)
    (id : string) : Prop :=
  needs_approval h class
  ∧ (∃ input g, push_input classes input ∧ waited h input g ∧ grant_Status g = StatusActive ∧ grant_ID g = id)
  ∧ ∃ d, decided (since_lock h) (ref_request class) true d ∧ hfd_Effect d = EffectRequest.

(** One of the three, with a use of the grant to be reserved. *)
Definition authorized (h : PushHistory) (classes : list ClassifiedCommand) (grants : string → Prop)
    (class : ClassifiedCommand) : Prop :=
  allowed_by_rule h class
  ∨ (∃ id, allowed_by_grant h class id ∧ grants id)
  ∨ (∃ id, approved_push h classes class id ∧ grants id).

Lemma allowed_by_rule_app (a h b : PushHistory) (class : ClassifiedCommand) :
  allowed_by_rule h class → allowed_by_rule (a ++ h ++ b) class.
Proof. intros (d & Hd & H). exists d. split; [by apply decided_app|done]. Qed.

Lemma allowed_by_grant_app (a h b : PushHistory) (class : ClassifiedCommand) (id : string) :
  allowed_by_grant h class id → allowed_by_grant (a ++ h ++ b) class id.
Proof.
  intros (d & g & values & approved & Hd & H1 & H2 & H3 & H4 & H5 & H6 & H7 & H8 & H9).
  exists d, g, values, approved. split; [by apply decided_app|]. split_and!; try done; set_solver.
Qed.

Lemma needs_approval_app (a h b : PushHistory) (class : ClassifiedCommand) :
  needs_approval h class → needs_approval (a ++ h ++ b) class.
Proof.
  intros [(d & Hd & H) (d' & Hd' & H')].
  split; [exists d|exists d']; (split; [by apply decided_app|done]).
Qed.

(** Events that come after without the lock, or before, take nothing away. *)
Lemma authorized_app (a h b : PushHistory) (classes : list ClassifiedCommand) (grants grants' : string → Prop)
    (class : ClassifiedCommand) :
  Forall (λ e, is_lock e = false) a → (∀ id, grants id → grants' id) →
  authorized h classes grants class → authorized (a ++ h ++ b) classes grants' class.
Proof.
  intros Ha Hg [H|[(id & H & Hid)|(id & (H1 & H2 & d & Hd & H3) & Hid)]].
  - left. by apply allowed_by_rule_app.
  - right; left. exists id. split; [by apply allowed_by_grant_app|by apply Hg].
  - right; right. exists id. split; [|by apply Hg]. split; [by apply needs_approval_app|]. split.
    + destruct H2 as (input & g & Hi & (request & pending & ? & ? & ?) & H2). exists input, g. split; [done|].
      split; [|done]. exists request, pending. split_and!; [done|set_solver..].
    + exists d. split; [|done]. rewrite since_lock_unlocked by done.
      destruct (since_lock_prefix h b) as [tail ->]. by apply decided_app.
Qed.
End push.

(** ** Classification *)

Definition is_branch_update (c : HFCommand) : bool :=
  negb (IsZeroSHA (hc_New c)) && negb (updatingExistingTag c) && negb (createsRefOrTag c).

(** The kind of a command, given whether the old commit is an ancestor of the new one. *)
Definition command_kind (c : HFCommand) (ancestor : bool) : HFRefUpdateKind :=
  if IsZeroSHA (hc_New c) then classifyDeletedCommand c
  else if updatingExistingTag c then HFUpdateTagUpdate
  else if createsRefOrTag c then HFUpdateAppend
  else if ancestor then HFUpdateAppend else HFUpdateHistoryRewrite.

(** The kind agrees with the mirror's answer about the ancestry. *)
Definition kind_shown (h : PushHistory) (command : HFCommand) (kind : HFRefUpdateKind) : Prop :=
  ∃ ancestor, kind = command_kind command ancestor
    ∧ (is_branch_update command = true →
       Asked (MirrorIsAncestor (hc_Old command) (hc_New command)) (Ok ancestor) ∈ h).

Lemma kind_shown_app (a h b : PushHistory) (command : HFCommand) (kind : HFRefUpdateKind) :
  kind_shown h command kind → kind_shown (a ++ h ++ b) command kind.
Proof. intros (ancestor & H1 & H2). exists ancestor. split; [done|]. intros Hb. specialize (H2 Hb). set_solver. Qed.

(** The mirror's ref is what the client says, and the kind is what the mirror says. *)
Definition classified (h : PushHistory) (class : ClassifiedCommand) : Prop :=
  (∃ current, Asked (MirrorCurrentRef (hc_Ref (class_Command class))) (Ok current) ∈ h
     ∧ clientOldStale (hc_Old (class_Command class)) current = false)
  ∧ kind_shown h (class_Command class) (class_Kind class).

Lemma classified_app (a h b : PushHistory) (class : ClassifiedCommand) :
  classified h class → classified (a ++ h ++ b) class.
Proof.
  intros [(current & H1 & H2) H3]. split; [exists current; set_solver|by apply kind_shown_app].
Qed.

Lemma classifyCommand_quiet (c : HFCommand) : quietly (classifyCommand c) (on_ok (λ kind ev, kind_shown ev c kind)).
Proof.
  unfold classifyCommand, kind_shown, command_kind, is_branch_update, classifyBranchUpdate.
  destruct (IsZeroSHA (hc_New c)); [by exists true|].
  destruct (updatingExistingTag c); [by exists true|].
  destruct (createsRefOrTag c); [by exists true|].
  split; [done|]. intros [[|]|e]; [exists true|exists false|done]; (split; [done|set_solver]).
Qed.

Lemma classifyCommands_quiet (commands : list HFCommand) :
  quietly (classifyCommands commands) (on_ok (λ classes ev,
    class_Command <$> classes = commands
    ∧ Forall (λ class, kind_shown ev (class_Command class) (class_Kind class)) classes)).
Proof.
  induction commands as [|c commands IH]; cbn [classifyCommands]; [done|].
  eapply along_ok; [apply classifyCommand_quiet|]. intros kind ev Hk.
  eapply along_ok_any; [apply IH|]. intros rest ev' (Hc & Hf). simpl. split; [by f_equal|].
  constructor; simpl.
  - pose proof (kind_shown_app ev' ev [] _ _ Hk) as H. by rewrite app_nil_r in H.
  - eapply Forall_impl; [done|]. intros class. apply (kind_shown_app []).
Qed.

(** What [checkClientOldValues] finds. *)
Definition current_shown (h : PushHistory) (command : HFCommand) : Prop :=
  ∃ current, Asked (MirrorCurrentRef (hc_Ref command)) (Ok current) ∈ h
    ∧ clientOldStale (hc_Old command) current = false.

Lemma checkClientOldValues_quiet (commands : list HFCommand) :
  quietly (checkClientOldValues commands) (on_ok (λ failures ev, failures = [] → Forall (current_shown ev) commands)).
Proof.
  induction commands as [|c commands IH]; cbn [checkClientOldValues]; [intros _; by constructor|].
  eapply (along_ok _ _ _ (λ current ev, Asked (MirrorCurrentRef (hc_Ref c)) (Ok current) ∈ ev)).
  { apply along_ask; [done|]. intros [current|e]; simpl; [by left|done]. }
  intros current ev Hin. eapply along_ok_any; [apply IH|]. intros failures ev' Hf. simpl. intros H.
  destruct (clientOldStale (hc_Old c) current) eqn:Es; [done|]. specialize (Hf H). constructor.
  - exists current. split; [set_solver|done].
  - eapply Forall_impl; [done|]. intros command (cur & Hin' & Hs). exists cur. split; [set_solver|done].
Qed.

Lemma storeExtractedObjects_quiet (objects : list PackObject) : quietly (storeExtractedObjects objects) (on_ok (λ _ _, True)).
Proof.
  induction objects as [|o objects IH]; cbn [storeExtractedObjects]; [done|].
  eapply (along_ok _ _ _ (λ _ _, True)); [|intros; eapply along_mono; [|apply IH]; by intros [|]].
  eapply (along_ok _ _ _ (λ _ _, True)); [by apply along_ask; [|intros [|]]|]. intros sha ev _. simpl.
  by destruct (refuse _ _).
Qed.

Lemma storeIncomingObjects_quiet (pack : string) : quietly (storeIncomingObjects sha1_Sum pack) (on_ok (λ _ _, True)).
Proof.
  split; [done|]. intros ctx. split; [done|]. intros read.
  simpl. case_match; [|done]. eapply along_mono; [|apply storeExtractedObjects_quiet].
  by intros [|].
Qed.

Lemma storeObjectsForAncestry_quiet (req : HFReceivePack) : quietly (storeObjectsForAncestry sha1_Sum req) (λ _ _, True).
Proof.
  unfold storeObjectsForAncestry. destruct (negb _); [done|].
  eapply along_bind; [apply storeIncomingObjects_quiet|]. by intros [|].
Qed.

Lemma preparePushClassification_quiet (req : HFReceivePack) :
  quietly (preparePushClassification sha1_Sum req) (λ '(failures, err) ev,
    failures = [] → err = None → Forall (current_shown ev) (hrp_Commands req)).
Proof.
  eapply along_bind; [apply checkClientOldValues_quiet|]. intros [[|f failures]|e] ev Hc; [|done..].
  eapply along_mono; [|apply storeObjectsForAncestry_quiet]. intros [failures err] ev' _ _ _.
  eapply Forall_impl; [by apply Hc|]. intros command (current & Hin & Hs). exists current. split; [set_solver|done].
Qed.

(** A push that is classified has the mirror fetched, its refs as the client says, no
    replace ref, and the kinds that the mirror says. *)
Definition push_classified (ev : PushHistory) (commands : list HFCommand) (classes : list ClassifiedCommand) : Prop :=
  class_Command <$> classes = commands
  ∧ Asked MirrorEnsure None ∈ ev
  ∧ Forall (classified ev) classes
  ∧ Forall (λ c, isReplaceRef (hc_Ref c) = false) commands.

Lemma push_classified_app (a h b : PushHistory) (commands : list HFCommand) (classes : list ClassifiedCommand) :
  push_classified h commands classes → push_classified (a ++ h ++ b) commands classes.
Proof.
  intros (H1 & H2 & H3 & H4). split_and!; [done|set_solver| |done].
  eapply Forall_impl; [done|]. intros class. apply classified_app.
Qed.

Lemma unsupported_none (commands : list HFCommand) :
  unsupportedStaticFailures commands = [] → Forall (λ c, isReplaceRef (hc_Ref c) = false) commands.
Proof.
  unfold unsupportedStaticFailures. induction commands as [|c commands IH]; [done|]. simpl.
  destruct (isReplaceRef (hc_Ref c)) eqn:E; [done|]. intros H. constructor; [done|by apply IH].
Qed.

Lemma ClassifyPush_quiet (req : HFReceivePack) :
  quietly (ClassifyPush sha1_Sum req) (λ '(classes, failures, err) ev,
    failures = [] → err = None → push_classified ev (hrp_Commands req) classes).
Proof.
  unfold ClassifyPush. destruct (unsupportedStaticFailures _) as [|f l] eqn:Eu; [|done].
  apply (along_bind _ _ _ (λ a ev, Asked MirrorEnsure a ∈ ev)); [apply along_ask; [done|]; set_solver|].
  intros [e|] ev Hens; [done|].
  eapply along_bind; [apply preparePushClassification_quiet|]. intros [[|f failures] [e|]] ev' Hp; [done| |done..].
  specialize (Hp eq_refl eq_refl).
  eapply along_bind; [apply classifyCommands_quiet|]. intros [classes|e] ev'' Hk; [|done]. destruct Hk as [Hc Hf].
  simpl. intros _ _. split_and!; [done|set_solver| |by apply unsupported_none].
  rewrite <- Hc in Hp. apply (Forall_fmap class_Command) in Hp. apply Forall_forall. intros class Hin.
  rewrite Forall_forall in Hp. rewrite Forall_forall in Hf. destruct (Hp class Hin) as (current & H1 & H2).
  split; [exists current; split; [set_solver|done]|].
  rewrite <- app_assoc. by apply (kind_shown_app [] ev''), Hf.
Qed.

(** ** Decisions *)

Lemma activeGrantRules_asks (client : string) :
  asks (activeGrantRules client) (on_ok (λ rules ev, ∃ values,
    ev = [Asked (StoreListForClient client) (Ok values)] ∧ rules = omap (M:=list) activeGrantRule values)).
Proof. split; [done|]. intros [values|e]; [by exists values|done]. Qed.

Lemma decideRepo_asks (client operation : string) (rt : Route) (refs : list string) (attrs : gmap string AnyValue)
    (grantRequest : bool) :
  asks (decideRepo clock srv client operation rt refs attrs grantRequest)
    (on_ok (λ d ev, decided ev (repo_request client operation rt refs attrs) grantRequest d)).
Proof.
  eapply along_ok; [apply activeGrantRules_asks|]. intros rules ev (values & -> & ->).
  split; [done|]. intros now. simpl. by exists [], [], values, now.
Qed.

Lemma decideRepo_quiet (client operation : string) (rt : Route) (refs : list string) (attrs : gmap string AnyValue)
    (grantRequest : bool) :
  quietly (decideRepo clock srv client operation rt refs attrs grantRequest)
    (on_ok (λ d ev, decided ev (repo_request client operation rt refs attrs) grantRequest d)).
Proof. apply (along_weaken asking_call); [apply asking_quiet|apply decideRepo_asks]. Qed.

Lemma match_grants_quiet (values : list Grant) (operation target ref : string) (attrs : gmap string AnyValue) :
  quietly (match_grants values operation target ref attrs) (λ matched ev, ∀ g, matched = Some g →
    g ∈ values ∧ usableGrant g operation target ref = true ∧ runtimeWindowGrant g = true
    ∧ (∃ approved, grant_attrs g = Ok approved ∧ AttrValuesMatch approved attrs = true)
    ∧ Asked (ValidateExecution g) None ∈ ev).
Proof.
  induction values as [|v values IH]; cbn [match_grants]; [done|].
  assert (Hrest : ∀ ev, quietly (match_grants values operation target ref attrs) (λ matched ev', ∀ g, matched = Some g →
    g ∈ v :: values ∧ usableGrant g operation target ref = true ∧ runtimeWindowGrant g = true
    ∧ (∃ approved, grant_attrs g = Ok approved ∧ AttrValuesMatch approved attrs = true)
    ∧ Asked (ValidateExecution g) None ∈ ev' ++ ev)).
  { intros ev. eapply along_mono; [|apply IH]. intros matched ev' H g Hg.
    destruct (H g Hg) as (H1 & H2 & H3 & H4 & H5). split_and!; [by right|done..|set_solver]. }
  destruct (usableGrant v operation target ref) eqn:Eu; simpl;
    [|eapply along_mono; [|apply (Hrest [])]; intros matched ev; cbv beta; by rewrite app_nil_r].
  destruct (grant_attrs v) as [approved|e] eqn:Ea;
    [|eapply along_mono; [|apply (Hrest [])]; intros matched ev; cbv beta; by rewrite app_nil_r].
  split; [done|]. intros [e|]; [apply Hrest|].
  destruct (runtimeWindowGrant v) eqn:Ew; [|apply Hrest].
  destruct (AttrValuesMatch approved attrs) eqn:Em; [|apply Hrest].
  intros g [= <-]. split_and!; [by left|done|done|by exists approved|by left].
Qed.

(** The grants used are kept by their identifiers. *)
Definition keyed (used : gmap string grantUse) : Prop :=
  map_Forall (λ id use, grant_ID (gu_grant use) = id) used.

Lemma useActiveGrant_quiet (client operation target ref : string) (attrs : gmap string AnyValue)
    (used : gmap string grantUse) :
  keyed used →
  quietly (useActiveGrant client operation target ref attrs used) (on_ok (λ '(matched, used') ev,
    keyed used' ∧ dom used ⊆ dom used' ∧ (matched = true → ∃ g values,
      grant_ID g ∈ dom used'
      ∧ Asked (StoreListForClient client) (Ok values) ∈ ev ∧ g ∈ values
      ∧ usableGrant g operation target ref = true ∧ runtimeWindowGrant g = true
      ∧ (∃ approved, grant_attrs g = Ok approved ∧ AttrValuesMatch approved attrs = true)
      ∧ Asked (ValidateExecution g) None ∈ ev))).
Proof.
  intros Hk.
  eapply (along_bind _ _ _ (on_ok (λ matched ev, ∀ g, matched = Some g → ∃ values,
    Asked (StoreListForClient client) (Ok values) ∈ ev ∧ g ∈ values
    ∧ usableGrant g operation target ref = true ∧ runtimeWindowGrant g = true
    ∧ (∃ approved, grant_attrs g = Ok approved ∧ AttrValuesMatch approved attrs = true)
    ∧ Asked (ValidateExecution g) None ∈ ev))).
  - eapply (along_ok _ _ _ (λ values ev, Asked (StoreListForClient client) (Ok values) ∈ ev)).
    { apply along_ask; [done|]. intros [values|e]; simpl; [by left|done]. }
    intros values ev Hin. eapply along_bind; [apply match_grants_quiet|]. intros matched ev' Hm. simpl.
    intros g Hg. destruct (Hm g Hg) as (H1 & H2 & H3 & H4 & H5). exists values. split_and!; try done; set_solver.
  - intros [[g|]|e] ev Hm; simpl; [|by split_and!|done].
    split_and!.
    + by apply map_Forall_insert_2.
    + set_solver.
    + intros _. destruct (Hm g eq_refl) as (values & H). exists g, values. split; [set_solver|done].
Qed.

Section evaluated.
Context (client : string) (rt : Route) (target : string) (packSize : Z).

(** What is to be approved for one ref. *)
Definition item_for (class : ClassifiedCommand) (item : requestableHFPush) : Prop :=
  rp_Class item = class ∧ rp_Operation item = operationForRefUpdate (class_Kind class)
  ∧ rp_Attrs item = pushAttrs class packSize.

(** One ref is allowed, or to be approved as one of the items. *)
Definition evaluated (ev : PushHistory) (used : gmap string grantUse) (items : list requestableHFPush)
    (class : ClassifiedCommand) : Prop :=
  allowed_by_rule client rt packSize ev class
  ∨ (∃ id, allowed_by_grant client rt target packSize ev class id ∧ id ∈ dom used)
  ∨ (∃ item, item ∈ items ∧ item_for class item) ∧ needs_approval client rt packSize ev class.

Lemma evaluated_app (a ev b : PushHistory) (used used' : gmap string grantUse) (items items' : list requestableHFPush)
    (class : ClassifiedCommand) :
  dom used ⊆ dom used' → items ⊆ items' → evaluated ev used items class → evaluated (a ++ ev ++ b) used' items' class.
Proof.
  intros Hu Hi [H|[(id & H & Hid)|[(item & Hin & Hf) H]]].
  - left. by apply allowed_by_rule_app.
  - right; left. exists id. split; [by apply allowed_by_grant_app|by apply Hu].
  - right; right. split; [exists item; split; [by apply Hi|done]|by apply needs_approval_app].
Qed.

Lemma evaluateClassifiedPush_quiet (class : ClassifiedCommand) (used : gmap string grantUse) :
  keyed used →
  quietly (evaluateClassifiedPush Error_text clock srv class client rt target packSize used) (on_ok (λ '(verdict, used') ev,
    keyed used' ∧ dom used ⊆ dom used' ∧ match verdict with
    | PushAllowed => evaluated ev used' [] class
    | PushRequestable item => evaluated ev used' [item] class
    | PushRefused _ => True
    end)).
Proof.
  intros Hk. eapply along_ok; [apply decideRepo_quiet|]. intros d ev Hd.
  destruct (bool_decide (hfd_Effect d = EffectAllow) && negb (reason_is d "grant_allowed")) eqn:Ea.
  { apply andb_true_iff in Ea as [Ha%bool_decide_eq_true Hr%negb_true_iff]. simpl. split_and!; [done..|].
    left. by exists d. }
  destruct (reason_is d "grant_allowed") eqn:Er.
  - eapply along_ok_any; [by apply useActiveGrant_quiet|]. intros [[|] used'] ev' (Hk' & Hu & Hg); [|done].
    destruct (Hg eq_refl) as (g & values & Hid & Hl & Hin & Hus & Hw & (approved & Hap & Hm) & Hv).
    simpl. split_and!; [done..|]. right; left. exists (grant_ID g). split; [|done].
    exists d, g, values, approved. split_and!; try done; [|set_solver..].
    pose proof (decided_app ev' ev [] _ _ _ Hd) as H. by rewrite app_nil_r in H.
  - rewrite andb_true_r in Ea. apply bool_decide_eq_false in Ea.
    eapply (along_ok_any _ _ _ (λ verdict ev', match verdict with
      | PushAllowed => False
      | PushRequestable item => item_for class item ∧ ∃ d', decided ev' (ref_request client rt packSize class) true d'
          ∧ hfd_Effect d' = EffectRequest ∧ hfd_GrantPolicy d' ≠ None
      | PushRefused _ => True end)).
    + eapply along_ok; [apply decideRepo_quiet|]. intros d' ev' Hd'. simpl.
      destruct (bool_decide_reflect (hfd_Effect d' = EffectRequest)) as [He|]; [|done].
      destruct (bool_decide_reflect (hfd_GrantPolicy d' = None)) as [|Hg]; [done|]. simpl. split; [done|]. by exists d'.
    + intros [f|item|] ev' Hv; simpl; [done| |done]. destruct Hv as (Hi & d' & Hd' & H'). split_and!; [done..|].
      right; right. split; [exists item; split; [by left|done]|]. split.
      * exists d. split; [|done]. pose proof (decided_app ev' ev [] _ _ _ Hd) as H. by rewrite app_nil_r in H.
      * exists d'. split; [by apply (decided_app [])|done].
Qed.

Lemma evaluate_from_quiet (all classes : list ClassifiedCommand) (used : gmap string grantUse)
    (requestable : list requestableHFPush) :
  (classes ≠ [] → all ≠ []) → keyed used →
  quietly (evaluate_from Error_text clock srv all classes client rt target packSize used requestable)
    (on_ok (λ '(items, failures, used') ev, failures = [] →
      keyed used' ∧ dom used ⊆ dom used' ∧ requestable ⊆ items ∧ Forall (evaluated ev used' items) classes)).
Proof.
  revert used requestable. induction classes as [|class classes IH]; intros used requestable Hall Hk; cbn [evaluate_from].
  { intros _. by split_and!; [done..|constructor]. }
  eapply along_ok; [by apply evaluateClassifiedPush_quiet|]. intros [verdict used'] ev (Hk' & Hu & Hv).
  assert (Hrest : ∀ requestable' own, requestable ⊆ requestable' → own ⊆ requestable' → evaluated ev used' own class →
    quietly (evaluate_from Error_text clock srv all classes client rt target packSize used' requestable')
      (λ r ev', on_ok (λ '(items, failures, used'') ev, failures = [] →
        keyed used'' ∧ dom used ⊆ dom used'' ∧ requestable ⊆ items ∧ Forall (evaluated ev used'' items) (class :: classes))
        r (ev' ++ ev))).
  { intros requestable' own Hr Ho He. eapply along_mono; [|apply IH; [|done]; by intros _; apply Hall].
    intros [[[items [|f failures]] used'']|e] ev' H; [|done..]. destruct (H eq_refl) as (H1 & H2 & H3 & H4).
    intros _. split_and!; [done|by etrans|by etrans|]. constructor.
    - pose proof (evaluated_app ev' ev [] used' used'' own items class H2) as Hc. rewrite app_nil_r in Hc.
      apply Hc; [by etrans|done].
    - eapply Forall_impl; [done|]. intros c. by apply (evaluated_app []). }
  destruct verdict as [f|item|].
  - simpl. unfold refFailuresForClasses. intros H%fmap_nil_inv. by destruct Hall.
  - apply (Hrest _ [item]); [set_solver..|done].
  - apply (Hrest _ []); [set_solver..|done].
Qed.

Lemma revalidateHFPushRequests_quiet (items : list requestableHFPush) :
  quietly (revalidateHFPushRequests Error_text clock srv items client rt) (on_ok (λ _ ev,
    ∀ item class, item ∈ items → item_for class item →
      ∃ d, decided ev (ref_request client rt packSize class) true d ∧ hfd_Effect d = EffectRequest)).
Proof.
  unfold revalidateHFPushRequests. destruct (negb (srv_operatorConfigured srv)); [done|].
  induction items as [|item items IH]; cbn [revalidateHFPushRequests_from]; [intros item class H; by apply elem_of_nil in H|].
  eapply along_ok; [apply decideRepo_quiet|]. intros d ev Hd.
  destruct (bool_decide_reflect (hfd_Effect d = EffectRequest)) as [He|]; [|done].
  destruct (bool_decide_reflect (hfd_GrantPolicy d = None)) as [|_]; [done|]. simpl.
  eapply along_mono; [|apply IH]. intros [[]|e] ev' H; [|done]. intros item' class Hin Hf.
  apply elem_of_cons in Hin as [->|Hin].
  - exists d. split; [|done]. pose proof (decided_app ev' ev [] _ _ _ Hd) as Hd'. rewrite app_nil_r in Hd'.
    destruct Hf as (<- & H2 & H3). unfold ref_request. by rewrite <- H2, <- H3.
  - destruct (H item' class Hin Hf) as (d' & Hd' & He'). exists d'. split; [by apply (decided_app [])|done].
Qed.
End evaluated.

(** ** Approval *)

Lemma request_attempts_quiet (attempts : nat) (input : HFInput) :
  quietly (request_attempts attempts input) (on_ok (λ g ev, ∃ request,
    CanonicalRequest input = Ok request ∧ Asked (StoreRequest request) (Ok g) ∈ ev)).
Proof.
  induction attempts as [|attempts IH]; cbn [request_attempts]; [done|].
  eapply (along_bind _ _ _ (on_ok (λ g ev, ∃ request,
    CanonicalRequest input = Ok request ∧ Asked (StoreRequest request) (Ok g) ∈ ev))).
  - unfold hfgrant_Request. destruct (CanonicalRequest input) as [request|e]; [|done].
    apply along_ask; [done|]. intros [g|e]; [|done]. exists request. split; [done|by left].
  - intros [g|e] ev Hg; [done|]. destruct (errors_Is e ErrIdempotencyConflict); [|done].
    eapply along_mono; [|apply IH]. intros [g|e'] ev' H; [|done]. destruct H as (request & H1 & H2).
    exists request. split; [done|set_solver].
Qed.

Section approval.
Context (client : string) (rt : Route) (target : string) (packSize : Z) (bodyDigest : string).

Lemma hfPushGrantInput_quiet (classes : list ClassifiedCommand) (items : list requestableHFPush) :
  quietly (hfPushGrantInput plandigest_Digest marshal_transaction classes items client target packSize bodyDigest)
    (on_ok (λ input _, push_input client target packSize bodyDigest classes input)).
Proof.
  unfold hfPushGrantInput. destruct (hfPushApprovalBounds items) as [[duration pending]|e]; [|done].
  eapply (along_ok _ _ _ (λ _ _, True)); [|intros requestID ev _; by split_and!].
  unfold hfPushTransactionRequestID. destruct (marshal_transaction _ _ _) as [encoded|e]; [|done].
  eapply (along_ok _ _ _ (λ _ _, True)); [|done]. apply along_ask; [done|]. by intros [|].
Qed.

Lemma ensureNoRetainedHFPush_quiet (classes : list ClassifiedCommand) :
  quietly (ensureNoRetainedHFPush client target classes) (on_ok (λ _ _, True)).
Proof.
  eapply (along_ok _ _ _ (λ _ _, True)).
  - eapply (along_ok _ _ _ (λ _ _, True)); [|done]. apply along_ask; [done|]. by intros [|].
  - intros blocked ev _. simpl. by destruct (refuse _ _).
Qed.

(** No event of these takes the lock. *)
Definition unlocked (ev : PushHistory) : Prop := Forall (λ e, is_lock e = false) ev.

Lemma unlocked_nil : unlocked [].
Proof. by apply Forall_nil. Qed.

Lemma quiet_unlocked (ev : PushHistory) : Forall (event_of quiet_call) ev → unlocked ev.
Proof. intros H. eapply Forall_impl; [done|]. intros [B c a]. by destruct c. Qed.

Lemma quietly_tame {X} (p : PushProg X) (post : X → PushHistory → Prop) :
  quietly p post → along tame_call p (λ x ev, post x ev ∧ unlocked ev).
Proof.
  intros Hp. apply (along_weaken quiet_call); [apply quiet_tame|].
  eapply along_mono; [|by apply along_events]. intros x ev [H1 H2]. split; [done|by apply quiet_unlocked].
Qed.

Lemma requestAndWaitForHFPush_tame (classes : list ClassifiedCommand) (items : list requestableHFPush) :
  along tame_call (requestAndWaitForHFPush plandigest_Digest marshal_transaction classes items client target packSize bodyDigest)
    (λ '(approved, released) ev,
       (released = false → unlocked ev ∧ ∃ e, approved = Err e)
       ∧ (released = true → since_lock ev = [])
       ∧ ∀ g, approved = Ok g → ∃ input, push_input client target packSize bodyDigest classes input ∧ waited ev input g).
Proof.
  apply (along_bind _ _ _ (λ r ev, on_ok (λ g ev, ∃ input request, push_input client target packSize bodyDigest classes input
    ∧ CanonicalRequest input = Ok request ∧ Asked (StoreRequest request) (Ok g) ∈ ev) r ev ∧ unlocked ev)).
  - apply quietly_tame. eapply (along_ok _ _ _ (λ _ _, True)); [apply ensureNoRetainedHFPush_quiet|]. intros _ ev _.
    eapply along_ok_any; [apply hfPushGrantInput_quiet|]. intros input ev' Hi.
    eapply along_mono; [|apply request_attempts_quiet]. intros r ev'' H.
    destruct r as [g|e]; [|done]. destruct H as (request & H1 & H2). exists input, request. split_and!; [done..|set_solver].
  - intros [pending|e] ev [H Hu]; simpl.
    + destruct H as (input & request & Hi & Hr & Hin). split; [done|]. intros []. split; [done|]. intros approved.
      split; [done|]. intros []. split_and!; [done|done|]. intros g ->. exists input. split; [done|].
      exists request, pending. split_and!; [done|set_solver|set_solver].
    + split_and!; [|done|done]. intros _. split; [done|by exists e].
Qed.

(** What is shown of a push whose refs are all allowed or approved. *)
Definition push_authorized (ev : PushHistory) (classes : list ClassifiedCommand) (grants : string → Prop) : Prop :=
  Forall (authorized client rt target packSize bodyDigest ev classes grants) classes.

Lemma push_authorized_app (a ev b : PushHistory) (classes : list ClassifiedCommand) (grants grants' : string → Prop) :
  unlocked a → (∀ id, grants id → grants' id) → push_authorized ev classes grants →
  push_authorized (a ++ ev ++ b) classes grants'.
Proof. intros Ha Hg H. eapply Forall_impl; [done|]. intros class. by apply authorized_app. Qed.

(** With nothing to approve, the refs are allowed. *)
Lemma evaluated_authorized (ev : PushHistory) (classes : list ClassifiedCommand) (used : gmap string grantUse) :
  Forall (evaluated client rt target packSize ev used []) classes →
  push_authorized ev classes (λ id, id ∈ dom used).
Proof.
  intros H. eapply Forall_impl; [done|]. intros class [H1|[H1|[(item & Hin & _) _]]]; [by left|by right; left|].
  by apply elem_of_nil in Hin.
Qed.

(** With an approval of the items, and the items checked again since the lock was taken. *)
Lemma approved_authorized (ev : PushHistory) (classes : list ClassifiedCommand) (used : gmap string grantUse)
    (items : list requestableHFPush) (input : HFInput) (g : Grant) :
  Forall (evaluated client rt target packSize ev used items) classes →
  push_input client target packSize bodyDigest classes input → waited ev input g → grantIsActive g = true →
  (∀ item class, item ∈ items → item_for packSize class item →
     ∃ d, decided (since_lock ev) (ref_request client rt packSize class) true d ∧ hfd_Effect d = EffectRequest) →
  push_authorized ev classes (λ id, id ∈ dom (<[grant_ID g := MkGrantUseOf g EmptyString]> used)).
Proof.
  intros He Hi Hw Hg%bool_decide_eq_true Hr. eapply Forall_impl; [done|].
  intros class [H1|[(id & H1 & Hid)|[(item & Hin & Hf) H1]]].
  - by left.
  - right; left. exists id. split; [done|set_solver].
  - right; right. exists (grant_ID g). split; [|set_solver]. split; [done|]. split; [by exists input, g|].
    by apply (Hr item).
Qed.
End approval.

(** ** The verdict on a push *)

Section verdict.
Context (client target : string) (packSize : Z) (bodyDigest : string).

Lemma refFailures_nonempty (classes : list ClassifiedCommand) (reason : string) :
  classes ≠ [] → refFailuresForClasses classes reason ≠ [].
Proof. by destruct classes. Qed.

Lemma completeHFPushApproval_quiet (classes : list ClassifiedCommand) (items : list requestableHFPush) (rt : Route)
    (g : Grant) (used : gmap string grantUse) :
  classes ≠ [] → keyed used →
  quietly (completeHFPushApproval Error_text clock srv classes items client rt g used) (λ '(failures, used') ev,
    failures = [] → grantIsActive g = true ∧ used' = <[grant_ID g := MkGrantUseOf g EmptyString]> used ∧ keyed used'
      ∧ ∀ item class, item ∈ items → item_for packSize class item →
          ∃ d, decided ev (ref_request client rt packSize class) true d ∧ hfd_Effect d = EffectRequest).
Proof.
  intros Hc Hk. unfold completeHFPushApproval. destruct (grantIsActive g); simpl; [|by intros ?%refFailures_nonempty].
  eapply along_bind; [apply (revalidateHFPushRequests_quiet client rt packSize)|]. intros [[]|e] ev H; simpl.
  - intros _. split_and!; [done|done|by apply map_Forall_insert_2|done].
  - by intros ?%refFailures_nonempty.
Qed.

Lemma refusePolicyDeniedPush_tame (classes : list ClassifiedCommand) (used : gmap string grantUse) :
  classes ≠ [] → keyed used →
  along tame_call
    (refusePolicyDeniedPush plandigest_Digest marshal_transaction Error_text clock srv classes client target packSize
       bodyDigest used)
    (λ '(failures, err, used', released) ev,
       (released = false → unlocked ev)
       ∧ (failures = [] → err = None → ∃ rt, parseGrantTarget target = Some rt ∧ keyed used'
            ∧ push_authorized client rt target packSize bodyDigest ev classes (λ id, id ∈ dom used'))).
Proof.
  intros Hc Hk. unfold refusePolicyDeniedPush. destruct (parseGrantTarget target) as [rt|].
  2:{ split; [intros _; constructor|]. by intros ?%refFailures_nonempty. }
  eapply along_bind; [apply quietly_tame; by apply (evaluate_from_quiet client rt target packSize)|].
  intros [[[items [|f failures]] used']|e] ev [H Hu]; [|by destruct items|by simpl].
  destruct (H eq_refl) as (Hk' & _ & _ & Hev). destruct items as [|item items].
  { split; [done|]. intros _ _. exists rt. split_and!; [done..|by apply evaluated_authorized]. }
  destruct (negb (srv_operatorConfigured srv)); [split; [done|]; by intros ?%refFailures_nonempty|].
  eapply along_bind; [apply requestAndWaitForHFPush_tame|]. intros [[g|e] released] ev' (Hr1 & Hr2 & Hg).
  2:{ unfold hfPushApprovalError. destruct (errors_Is e errAmbiguousHFPush); simpl.
      - split; [|by intros ?%refFailures_nonempty]. intros Hr. apply Forall_app. split; [by apply Hr1|done].
      - split; [|done]. intros Hr. apply Forall_app. split; [by apply Hr1|done]. }
  destruct released; [|by destruct (Hr1 eq_refl) as [_ [e ?]]].
  destruct (Hg g eq_refl) as (input & Hi & request & pending & Hcan & Hst & Hwait).
  eapply along_bind; [apply quietly_tame; by apply completeHFPushApproval_quiet|].
  intros [failures used''] ev'' [Hcomp Hu'']. simpl. split; [done|]. intros -> _.
  destruct (Hcomp eq_refl) as (Ha & -> & Hk'' & Hre). exists rt. split_and!; [done..|].
  eapply approved_authorized; [|by apply Hi| |done|].
  - eapply Forall_impl; [done|]. intros class He.
    pose proof (evaluated_app client rt target packSize (ev'' ++ ev') ev [] _ _ _ _ class (reflexivity _) (reflexivity _) He)
      as He'. by rewrite app_nil_r in He'.
  - exists request, pending. split_and!; [done|set_solver|set_solver].
  - intros item' class Hin Hf. destruct (Hre item' class Hin Hf) as (d & Hd & Hd'). exists d. split; [|done].
    rewrite <- app_assoc, since_lock_unlocked by done. by apply (decided_app []).
Qed.

Lemma revalidateClassifiedHFPush_quiet (req : HFReceivePack) (expected : list ClassifiedCommand) :
  expected ≠ [] →
  quietly (revalidateClassifiedHFPush sha1_Sum req expected) (λ '(failures, err) ev,
    failures = [] → err = None → push_classified ev (hrp_Commands req) expected).
Proof.
  intros Hne. eapply along_bind; [apply ClassifyPush_quiet|]. intros [[current failures] [e|]] ev H; simpl; [done|].
  destruct failures as [|f failures]; [|by intros ?%refFailures_nonempty].
  destruct (bool_decide_reflect (expected = current)) as [->|_]; [|by intros ?%refFailures_nonempty].
  intros _ _. by apply H.
Qed.

Lemma writeHFPushRefusal_quiet (req : HFReceivePack) (classes : list ClassifiedCommand) (failures : list RefFailure) :
  quietly (writeHFPushRefusal req classes failures client target) (λ _ _, True).
Proof. unfold writeHFPushRefusal. by destruct (BuildRefusalReport req failures). Qed.

(** The identifiers of grants used. *)
Definition used_ids (uses : list grantUse) (id : string) : Prop := id ∈ grant_ID ∘ gu_grant <$> uses.

Lemma used_ids_range (used : gmap string grantUse) (id : string) :
  keyed used → id ∈ dom used → used_ids (map_range used).*2 id.
Proof.
  intros Hk Hid. apply elem_of_dom in Hid as [gu Hgu]. apply list_elem_of_fmap. exists gu. split; [symmetry; by apply Hk|].
  apply list_elem_of_fmap. exists (id, gu). split; [done|]. rewrite map_range_perm. by apply elem_of_map_to_list.
Qed.

(** The state of a push that is not refused, at the last lock. *)
Definition push_admitted (ev : PushHistory) (commands : list HFCommand) (classes : list ClassifiedCommand)
    (grants : string → Prop) : Prop :=
  push_classified (since_lock ev) commands classes
  ∧ ∃ rt, parseGrantTarget target = Some rt
      ∧ push_authorized client rt target packSize bodyDigest ev classes grants.

Lemma push_admitted_app (a ev b : PushHistory) (commands : list HFCommand) (classes : list ClassifiedCommand)
    (grants grants' : string → Prop) :
  unlocked a → (∀ id, grants id → grants' id) → push_admitted ev commands classes grants →
  push_admitted (a ++ ev ++ b) commands classes grants'.
Proof.
  intros Ha Hg [Hc (rt & Hrt & H)]. split.
  - rewrite since_lock_unlocked by done. destruct (since_lock_prefix ev b) as [tail ->]. by apply push_classified_app.
  - exists rt. split; [done|]. by apply (push_authorized_app _ _ _ _ _ _ _ _ _ grants).
Qed.
End verdict.

Lemma refuseInvalidPush_tame (req : HFReceivePack) (body client target : string) :
  hrp_Commands req ≠ [] →
  along tame_call
    (refuseInvalidPush sha1_Sum plandigest_Digest marshal_transaction Error_text clock srv req body client target)
    (λ r ev, match r with
             | inl _ => True
             | inr (uses, classes) =>
                 push_admitted client target (len (hrp_Pack req)) (plandigest_Digest body) ev (hrp_Commands req) classes
                   (used_ids uses)
             end).
Proof.
  intros Hne. unfold refuseInvalidPush.
  eapply along_bind; [apply quietly_tame, ClassifyPush_quiet|]. intros [[classes failures] err] ev [Hcl Hu].
  apply (along_bind _ _ _ (λ '(failures, err, used, released) ev',
    (released = false → unlocked (ev' ++ ev))
    ∧ (failures = [] → err = None → push_classified ev (hrp_Commands req) classes ∧ ∃ rt, parseGrantTarget target = Some rt
         ∧ keyed used ∧ push_authorized client rt target (len (hrp_Pack req)) (plandigest_Digest body) (ev' ++ ev) classes
             (λ id, id ∈ dom used)))).
  { destruct failures as [|f failures]; [|by destruct err]. destruct err as [e|]; [done|].
    specialize (Hcl eq_refl eq_refl). pose proof Hcl as (Hm & _). assert (classes ≠ []) as Hcn by by (intros ->; by destruct Hne).
    eapply along_mono; [|by apply refusePolicyDeniedPush_tame; [|apply map_Forall_empty]].
    intros [[[failures err] used] released] ev' [Hr H]. split.
    - intros Hrel. apply Forall_app. split; [by apply Hr|done].
    - intros Hf He. destruct (H Hf He) as (rt & Hrt & Hk & Ha). split; [done|]. exists rt. split_and!; [done..|].
      eapply (push_authorized_app _ _ _ _ _ []); [apply unlocked_nil| |by apply Ha]. by intros id. }
  clear Hcl. intros [[[failures' err'] used] released] ev' [Hr H].
  apply (along_bind _ _ _ (λ '(failures, err) ev'', failures = [] → err = None →
    keyed used ∧ push_admitted client target (len (hrp_Pack req)) (plandigest_Digest body) (ev'' ++ ev' ++ ev)
      (hrp_Commands req) classes (λ id, id ∈ dom used))).
  { destruct failures' as [|f failures']; [|destruct err', released; by intros ?]. destruct err' as [e|]; [destruct released; by intros ?|].
    destruct (H eq_refl eq_refl) as (Hcl & rt & Hrt & Hk & Ha). destruct released.
    - destruct Hcl as (Hm & _). assert (classes ≠ []) as Hcn by (intros ->; by destruct Hne).
      eapply along_mono; [|by apply quietly_tame, revalidateClassifiedHFPush_quiet].
      intros [failures'' err''] ev'' [Hre Hu''] Hf He. split; [done|]. split.
      + rewrite since_lock_unlocked by done. by apply (push_classified_app []), Hre.
      + exists rt. split; [done|]. pose proof (push_authorized_app client rt target (len (hrp_Pack req)) (plandigest_Digest body)
          ev'' (ev' ++ ev) [] classes _ _ Hu'' (λ _ H, H) Ha) as Ha'. by rewrite app_nil_r in Ha'.
    - intros _ _. split; [done|]. simpl. split; [|by exists rt].
      rewrite since_lock_all by by apply Hr. apply (push_classified_app ev' ev []) in Hcl. rewrite app_nil_r in Hcl. exact Hcl. }
  intros [[|f failures''] err''] ev'' Ha.
  2:{ eapply along_bind; [apply quietly_tame, writeHFPushRefusal_quiet|]. by intros x ev4 _. }
  destruct err'' as [e|]; [done|]. destruct (Ha eq_refl eq_refl) as [Hk Had]. simpl.
  eapply (push_admitted_app _ _ _ _ []) in Had; [|apply unlocked_nil|by intros id; apply (used_ids_range used)].
  rewrite app_nil_r in Had. by rewrite <- app_assoc.
Qed.
End facts.
