(* ===== verification/HFPushSafety.v ===== *)
(** * What the enforcement of pushes guarantees

    A push reaches Hugging Face only after each of its refs was classified under the
    mirror's lock and authorized, by a rule, by a grant or by an approval of this very
    push, with a use reserved for every grant it rests on; and how the uses are
    settled after it. *)

From S2P Require Export HFPushRuns.
From Stdlib Require Import Ascii.

Local Open Scope Z_scope.

(** A push whose approval policy has no limit of uses is never put to an operator. *)
Lemma unlimited_push_not_requested (items : list requestableHFPush) (item : requestableHFPush) (bounds : GrantPolicy) :
  item ∈ items → hfd_GrantPolicy (rp_Decision item) = Some bounds → gp_MaxUses bounds = Unlimited →
  is_ok (hfPushApprovalBounds items) = false.
Proof.
  intros Hin Hd Hu. unfold hfPushApprovalBounds. generalize 0 at 1 as duration. generalize 0 as pending.
  induction items as [|other items IH]; intros pending duration; [by apply elem_of_nil in Hin|].
  apply elem_of_cons in Hin as [<-|Hin]; simpl.
  - unfold hfPushItemBounds. rewrite Hd, Hu, orb_true_r. done.
  - by destruct (hfPushItemBounds other) as [[d p]|e]; [apply IH|].
Qed.

(** ** Upstream's report

    When the answer of upstream to a push accepts it, from the protocol: the frames of the
    report, what they carry on the status channel, and the lines of the status. *)

Section report.
Context {PL : PktLine}.

(** The payloads that a body is made of, without the flush packets, to its end. *)
Inductive packets : Scanner → list string → Prop :=
| packets_end scanner scanner' err :
    Next scanner = (Err err, scanner') → errors_Is err ErrDone = true → packets scanner []
| packets_flush scanner scanner' payload payloads :
    Next scanner = (Ok (payload, true), scanner') → packets scanner' payloads → packets scanner payloads
| packets_data scanner scanner' payload payloads :
    Next scanner = (Ok (payload, false), scanner') → packets scanner' payloads → packets scanner (payload :: payloads).

(** The status channel of a frame, and whether the frame is a message on the error channel. *)
Definition status_channel (frame : string) : string :=
  match frame with String band rest => if Ascii.eqb band "001" then rest else EmptyString | EmptyString => EmptyString end.
Definition on_error_channel (frame : string) : bool :=
  match frame with String band rest => Ascii.eqb band "003" && negb (is_empty rest) | EmptyString => false end.

Definition channel_text (frames : list string) : string :=
  foldr (λ frame text, status_channel frame +:+ text) EmptyString frames.

Definition side_band_negotiated (req : HFReceivePack) : Prop :=
  hrp_Capabilities req !! "side-band-64k" = Some true ∨ hrp_Capabilities req !! "side-band" = Some true.

(** The text of the report status. *)
Definition report_text (req : HFReceivePack) (report text : string) : Prop :=
  (¬ side_band_negotiated req ∧ text = report)
  ∨ side_band_negotiated req ∧ ∃ frames, packets (NewScanner report) frames
      ∧ (∀ frame, frame ∈ frames → on_error_channel frame = false)
      ∧ text = channel_text frames.

Definition status_lines (payloads : list string) : list string :=
  payload ← payloads; trim_space <$> split_byte "010" payload.

(** A line that reports a failure. *)
Definition refusing_line (line : string) : Prop :=
  has_prefix "ng " line = true ∨ has_prefix "unpack " line = true ∧ line ≠ "unpack ok"%string.

(** A line that reports that a ref was updated. *)
Definition ok_line (ref line : string) : Prop :=
  has_prefix "ok " line = true ∧ trim_space (drop_bytes 3 line) = ref.

(** Upstream accepted every ref of the push. *)
Definition upstream_accepts (req : HFReceivePack) (status : Z) (report : string) : Prop :=
  200 <= status < 300 ∧ ∃ text payloads, report_text req report text ∧ packets (NewScanner text) payloads
    ∧ (∀ line, line ∈ status_lines payloads → ¬ refusing_line line)
    ∧ "unpack ok"%string ∈ status_lines payloads
    ∧ ∀ c, c ∈ hrp_Commands req → ∃ line, line ∈ status_lines payloads ∧ ok_line (hc_Ref c) line.

(** *** The lines *)

Lemma cleanReason_nonempty (reason : string) : cleanReason reason ≠ EmptyString.
Proof. unfold cleanReason. by destruct (replace_line_breaks (trim_space reason)). Qed.

(** The state after lines none of which refuses. *)
Definition knows (s : receivePackStatus) (lines : list string) (s' : receivePackStatus) : Prop :=
  (status_unpackOK s' = true ↔ status_unpackOK s = true ∨ "unpack ok"%string ∈ lines)
  ∧ ∀ ref, status_refs s' !! ref = Some true ↔ status_refs s !! ref = Some true ∨ ∃ line, line ∈ lines ∧ ok_line ref line.

Lemma knows_nil (s : receivePackStatus) : knows s [] s.
Proof. split; [set_solver|]. intros ref. set_solver. Qed.

Lemma knows_app (s s1 s2 : receivePackStatus) (l1 l2 : list string) :
  knows s l1 s1 → knows s1 l2 s2 → knows s (l1 ++ l2) s2.
Proof.
  intros [U1 R1] [U2 R2]. split; [rewrite U2, U1, elem_of_app; tauto|]. intros ref. rewrite R2, R1.
  setoid_rewrite elem_of_app. naive_solver.
Qed.

(** A line either refuses, with a reason, or is learned. *)
Lemma consumeLine_learns (s : receivePackStatus) (line : string) :
  let '(s', reason) := consumeLine s line in
  (refusing_line (trim_space line) ∧ reason ≠ EmptyString)
  ∨ (¬ refusing_line (trim_space line) ∧ reason = EmptyString ∧ knows s [trim_space line] s').
Proof.
  unfold consumeLine. generalize (trim_space line) as l. clear line. intros l.
  assert (∀ l, is_empty l = true → l = EmptyString) as Hempty by by intros [].
  assert (∀ s s' : receivePackStatus, status_unpackOK s' = status_unpackOK s → l ≠ "unpack ok"%string →
            (∀ ref, status_refs s' !! ref = Some true ↔ status_refs s !! ref = Some true ∨ ok_line ref l) →
            knows s [l] s') as Hknows.
  { intros s1 s2 Hu Hl Hr. split; [rewrite Hu, list_elem_of_singleton; naive_solver|]. intros ref. rewrite Hr.
    setoid_rewrite list_elem_of_singleton. naive_solver. }
  destruct (is_empty l) eqn:El.
  { apply Hempty in El as ->. right. split; [by intros [[=]|[[=] _]]|]. split; [done|]. apply Hknows; [done..|].
    intros ref. split; [by left|]. by intros [?|[[=] _]]. }
  destruct (String.eqb_spec l "unpack ok") as [->|Hok].
  { right. split; [by intros [[=]|[_ ?]]|]. split; [done|]. split; [cbn; set_solver|]. cbn. intros ref.
    setoid_rewrite list_elem_of_singleton. split; [by left|]. intros [?|(? & -> & [=] & _)]; done. }
  destruct (has_prefix "unpack " l) eqn:Eu; [left; split; [by right|apply cleanReason_nonempty]|].
  destruct (has_prefix "ok " l) eqn:Eo.
  { right. split.
    - intros [Hng|[? _]]; [|congruence]. apply has_prefix_spec in Eo as [t ->]. done.
    - split; [done|]. apply Hknows; [done..|]. cbn [status_refs]. intros ref. unfold ok_line. rewrite Eo.
      destruct (decide (trim_space (drop_bytes 3 l) = ref)) as [<-|Hne].
      + rewrite lookup_insert_eq. naive_solver.
      + rewrite lookup_insert_ne by done. naive_solver. }
  destruct (has_prefix "ng " l) eqn:En; [left; split; [by left|apply cleanReason_nonempty]|].
  right. split; [by intros [?|[? _]]; congruence|]. split; [done|]. apply Hknows; [done..|].
  intros ref. unfold ok_line. rewrite Eo. naive_solver.
Qed.

Lemma consume_learns (s : receivePackStatus) (lines : list string) :
  let '(s', reason) := consume s lines in
  ((∃ line, line ∈ trim_space <$> lines ∧ refusing_line line) ∧ reason ≠ EmptyString)
  ∨ ((∀ line, line ∈ trim_space <$> lines → ¬ refusing_line line) ∧ reason = EmptyString
     ∧ knows s (trim_space <$> lines) s').
Proof.
  revert s. induction lines as [|line lines IH]; intros s; cbn [consume].
  { right. split; [by intros l ?%elem_of_nil|]. split; [done|apply knows_nil]. }
  pose proof (consumeLine_learns s line) as Hl. destruct (consumeLine s line) as [s1 reason].
  destruct Hl as [[Hr Hne]|(Hr & -> & Hk)].
  { destruct reason; [done|]. left. split; [|done]. exists (trim_space line). split; [by left|done]. }
  cbn [negb is_empty]. specialize (IH s1). destruct (consume s1 lines) as [s2 reason].
  destruct IH as [[(l & Hl & Hrl) Hne]|(Hnone & -> & Hk')].
  - left. split; [|done]. exists l. split; [by right|done].
  - right. split; [by intros l [->|Hl]%elem_of_cons; [|apply Hnone]|]. split; [done|].
    exact (knows_app _ _ _ [_] _ Hk Hk').
Qed.

(** *** The frames *)

Definition accepted_after (req : HFReceivePack) (s : receivePackStatus) (payloads : list string) : Prop :=
  (∀ line, line ∈ status_lines payloads → ¬ refusing_line line)
  ∧ (status_unpackOK s = true ∨ "unpack ok"%string ∈ status_lines payloads)
  ∧ ∀ c, c ∈ hrp_Commands req →
      status_refs s !! hc_Ref c = Some true ∨ ∃ line, line ∈ status_lines payloads ∧ ok_line (hc_Ref c) line.

Lemma status_accepted_after (req : HFReceivePack) (s : receivePackStatus) :
  fst (status_accepted s req) = true ↔ accepted_after req s [].
Proof.
  unfold status_accepted, accepted_after. cbn [status_lines mbind list_bind].
  destruct (status_unpackOK s); cbn [negb]; [|split; [done|intros (_ & [?|?%elem_of_nil] & _); done]].
  assert (∀ c, default false (status_refs s !! hc_Ref c) = true ↔ status_refs s !! hc_Ref c = Some true) as Hd.
  { intros c. by destruct (status_refs s !! hc_Ref c) as [[]|]. }
  destruct (forallb _ (hrp_Commands req)) eqn:E; cbn [negb fst].
  - rewrite forallb_elem_of in E. split; [|done]. intros _. split; [by intros l ?%elem_of_nil|]. split; [by left|].
    intros c Hc. left. by apply Hd, E.
  - split; [done|]. intros (_ & _ & Hc). apply not_true_iff_false in E. destruct E. apply forallb_elem_of.
    intros c Hin. apply Hd. by destruct (Hc c Hin) as [?|(l & ?%elem_of_nil & _)].
Qed.

Lemma accepted_after_cons (req : HFReceivePack) (s s' : receivePackStatus) (payload : string) (payloads : list string) :
  (∀ line, line ∈ trim_space <$> split_byte "010" payload → ¬ refusing_line line) →
  knows s (trim_space <$> split_byte "010" payload) s' →
  accepted_after req s' payloads ↔ accepted_after req s (payload :: payloads).
Proof.
  intros Hnone [Hu Hr]. unfold accepted_after, status_lines. cbn [mbind list_bind].
  setoid_rewrite elem_of_app. rewrite Hu. setoid_rewrite Hr. split; intros (H1 & H2 & H3); split_and!.
  - intros line [Hl|Hl]; [by apply Hnone|by apply H1].
  - tauto.
  - intros c Hc. destruct (H3 c Hc) as [[?|(l & ? & ?)]|(l & ? & ?)]; naive_solver.
  - intros line Hl. apply H1. by right.
  - tauto.
  - intros c Hc. destruct (H3 c Hc) as [?|(l & [?|?] & ?)]; naive_solver.
Qed.

(** The loop over the status, when its fuel is enough. *)
Lemma status_loop_accepts (fuel : nat) (req : HFReceivePack) (scanner : Scanner) (s : receivePackStatus) :
  status_loop fuel req scanner s ≠ None →
  (∃ reason, status_loop fuel req scanner s = Some (Ok (true, reason)))
  ↔ ∃ payloads, packets scanner payloads ∧ accepted_after req s payloads.
Proof.
  revert scanner s. induction fuel as [|fuel IH]; intros scanner s Hf; [done|]. cbn [status_loop] in Hf |- *.
  destruct (Next scanner) as [[[payload [|]]|e] scanner'] eqn:En.
  - rewrite IH by done. split; intros (payloads & Hp & Ha); exists payloads; (split; [|done]).
    + by eapply packets_flush.
    + inversion Hp; congruence.
  - pose proof (consume_learns s (split_byte "010" payload)) as Hc. destruct (consume s _) as [s' reason].
    destruct Hc as [[(line & Hl & Hr) Hne]|(Hnone & -> & Hk)].
    + destruct reason; [done|]. cbn [negb is_empty]. split; [by intros [? [=]]|]. intros (payloads & Hp & Ha & _).
      exfalso. inversion Hp as [? ? ? Hn|? ? ? ? Hn|? ? payload' payloads' Hn]; [congruence..|]. subst.
      rewrite En in Hn. injection Hn as <- _. apply (Ha line); [|done]. apply elem_of_app. by left.
    + cbn [negb is_empty] in Hf |- *. rewrite IH by done. split; intros (payloads & Hp & Ha).
      * exists (payload :: payloads). split; [by eapply packets_data|].
        exact (proj1 (accepted_after_cons req s s' payload payloads Hnone Hk) Ha).
      * inversion Hp as [? ? ? Hn|? ? ? ? Hn|? ? payload' payloads' Hn Hp']; [congruence..|]. subst.
        rewrite En in Hn. injection Hn as <- ->. exists payloads'. split; [done|].
        exact (proj2 (accepted_after_cons req s s' payload payloads' Hnone Hk) Ha).
  - destruct (errors_Is e ErrDone) eqn:Ee.
    + split.
      * intros [reason [= Ha]]. exists []. split; [by eapply packets_end|]. apply status_accepted_after. by rewrite Ha.
      * intros (payloads & Hp & Ha). inversion Hp; subst; [|congruence..]. apply status_accepted_after in Ha.
        destruct (status_accepted s req) as [a r]. cbn in Ha. subst a. by exists r.
    + split; [by intros [? [=]]|]. intros (payloads & Hp & _). inversion Hp; congruence.
Qed.

(** The loop over the frames of a side band, when its fuel is enough. *)
Lemma side_band_loop_collects (fuel : nat) (scanner : Scanner) (status text : string) :
  side_band_loop fuel scanner status ≠ None →
  side_band_loop fuel scanner status = Some (Ok (text, EmptyString))
  ↔ ∃ frames, packets scanner frames ∧ (∀ frame, frame ∈ frames → on_error_channel frame = false)
      ∧ text = status +:+ channel_text frames.
Proof.
  revert scanner status. induction fuel as [|fuel IH]; intros scanner status Hf; [done|].
  cbn [side_band_loop] in Hf |- *. destruct (Next scanner) as [[[payload flush]|e] scanner'] eqn:En.
  - assert (∀ frames, packets scanner frames ↔
      if flush : bool then packets scanner' frames else ∃ rest, frames = payload :: rest ∧ packets scanner' rest) as Hp.
    { intros frames. destruct flush; split.
      - intros Hp. inversion Hp; congruence.
      - by apply packets_flush with payload.
      - intros Hp. inversion Hp as [? ? ? Hn|? ? ? ? Hn|? ? p l Hn Hl]; [congruence..|]. rewrite En in Hn.
        injection Hn as <- ->. by exists l.
      - intros (rest & -> & Hr). by eapply packets_data. }
    setoid_rewrite Hp. clear Hp. destruct flush; cbn [orb] in Hf |- *; [by rewrite IH|].
    destruct payload as [|band rest]; cbn [is_empty] in Hf |- *.
    { rewrite IH by done. split.
      - intros (frames & H1 & H2 & ->). exists (EmptyString :: frames).
        split; [by exists frames|]. split; [|done]. by intros f [->|?]%elem_of_cons; [|apply H2].
      - intros (? & (frames & -> & H1) & H2 & ->). exists frames. split; [done|]. split; [|done].
        intros f Hf'. apply H2. by right. }
    cbn [receivePackSideBandPayload] in Hf |- *. destruct (Ascii.eqb_spec band "001") as [->|H1].
    { cbn [is_empty negb] in Hf |- *. rewrite IH by done. split.
      - intros (frames & Hp & Hn & ->). exists (String "001" rest :: frames). split; [by exists frames|]. split.
        + by intros f [->|?]%elem_of_cons; [|apply Hn].
        + unfold channel_text. cbn [foldr status_channel]. by rewrite Ascii.eqb_refl, app_assoc_string.
      - intros (? & (frames & -> & Hp) & Hn & ->). exists frames. split; [done|]. split; [intros f Hf'; apply Hn; by right|].
        unfold channel_text. cbn [foldr status_channel]. by rewrite Ascii.eqb_refl, app_assoc_string. }
    apply Ascii.eqb_neq in H1.
    assert (∀ frames, channel_text (String band rest :: frames) = channel_text frames) as Hchannel.
    { intros frames. unfold channel_text. cbn [foldr status_channel]. rewrite H1. apply app_nil_l_string. }
    destruct (Ascii.eqb band "003") eqn:H3.
    + destruct (is_empty rest) eqn:Er; cbn [negb] in Hf |- *.
      * rewrite app_nil_r_string in Hf |- *. rewrite IH by done. split.
        -- intros (frames & Hp & Hn & ->). exists (String band rest :: frames). rewrite Hchannel.
           split; [by exists frames|]. split; [|done]. intros f [->|?]%elem_of_cons; [|by apply Hn].
           cbn [on_error_channel]. by rewrite Er, andb_false_r.
        -- intros (? & (frames & -> & Hp) & Hn & ->). rewrite Hchannel. exists frames. split; [done|]. split; [|done].
           intros f Hf'. apply Hn. by right.
      * split; [intros [= _ ->]; done|]. intros (? & (frames & -> & Hp) & Hn & _).
        specialize (Hn _ (list_elem_of_here _ _)). cbn [on_error_channel] in Hn. by rewrite H3, Er in Hn.
    + cbn [is_empty negb] in Hf |- *. rewrite app_nil_r_string in Hf |- *. rewrite IH by done. split.
      * intros (frames & Hp & Hn & ->). exists (String band rest :: frames). rewrite Hchannel.
        split; [by exists frames|]. split; [|done]. intros f [->|?]%elem_of_cons; [|by apply Hn].
        cbn [on_error_channel]. by rewrite H3.
      * intros (? & (frames & -> & Hp) & Hn & ->). rewrite Hchannel. exists frames. split; [done|]. split; [|done].
        intros f Hf'. apply Hn. by right.
  - destruct (errors_Is e ErrDone) eqn:Ee.
    + split.
      * intros [= <-]. exists []. split; [by eapply packets_end|]. split; [by intros f ?%elem_of_nil|].
        by rewrite app_nil_r_string.
      * intros (frames & Hp & _ & ->). inversion Hp; [|congruence..]. by rewrite app_nil_r_string.
    + split; [by intros [=]|]. intros (frames & Hp & _). inversion Hp; congruence.
Qed.

(** *** The verdict *)

Lemma accepted_after_none (req : HFReceivePack) (payloads : list string) :
  accepted_after req (MkReceivePackStatus false ∅) payloads ↔
  (∀ line, line ∈ status_lines payloads → ¬ refusing_line line)
  ∧ "unpack ok"%string ∈ status_lines payloads
  ∧ ∀ c, c ∈ hrp_Commands req → ∃ line, line ∈ status_lines payloads ∧ ok_line (hc_Ref c) line.
Proof.
  unfold accepted_after. cbn [status_unpackOK status_refs].
  split; intros (H1 & H2 & H3); (split; [done|]); split.
  - by destruct H2.
  - intros c Hc. destruct (H3 c Hc) as [He|He]; [by rewrite lookup_empty in He|exact He].
  - by right.
  - intros c Hc. right. by apply H3.
Qed.

Lemma hf_uses_side_band_negotiated (req : HFReceivePack) :
  hf_uses_side_band req = true ↔ side_band_negotiated req.
Proof.
  unfold hf_uses_side_band, side_band_negotiated. rewrite orb_true_iff.
  assert (∀ o : option bool, default false o = true ↔ o = Some true) as Hd by (by intros [[]|]).
  by rewrite !Hd.
Qed.

Context {L : PktLineLaws PL}.

Lemma parseReceivePackStatus_accepts (req : HFReceivePack) (text : string) :
  (∃ reason, parseReceivePackStatus req text = Ok (true, reason))
  ↔ ∃ payloads, packets (NewScanner text) payloads
      ∧ accepted_after req (MkReceivePackStatus false ∅) payloads.
Proof.
  destruct (receive_loops_terminate text req) as (_ & _ & Hf). rewrite <- status_loop_accepts by exact Hf.
  unfold parseReceivePackStatus. destruct (status_loop _ _ _ _) as [r|]; [|done]. cbn [default from_option id].
  split; intros [reason H]; exists reason; [by rewrite H|by injection H as ->].
Qed.

Lemma receivePackStatusBody_text (req : HFReceivePack) (report text : string) :
  receivePackStatusBody req report = Ok (text, EmptyString) ↔ report_text req report text.
Proof.
  unfold receivePackStatusBody, report_text. destruct (hf_uses_side_band req) eqn:E; cbn [negb].
  - apply hf_uses_side_band_negotiated in E. destruct (receive_loops_terminate report req) as (_ & Hf & _).
    unfold collectReceivePackSideBand.
    assert (side_band_loop (S (String.length report)) (NewScanner report) EmptyString = Some (Ok (text, EmptyString))
      ↔ default (Err (ErrorNew "out of fuel"))
          (side_band_loop (S (String.length report)) (NewScanner report) EmptyString) = Ok (text, EmptyString)) as <-.
    { destruct (side_band_loop _ _ _) as [r|]; [|done]. cbn. split; [by intros [= ->]|by intros ->]. }
    rewrite side_band_loop_collects by exact Hf. setoid_rewrite app_nil_l_string.
    split; [by right|]. by intros [[? _]|[_ ?]].
  - assert (¬ side_band_negotiated req) as Hn by (rewrite <- hf_uses_side_band_negotiated; congruence).
    split; [intros [= ->]; by left|]. by intros [[_ ->]|[? _]].
Qed.

(** How the broker reads an answer: accepted exactly when upstream accepts every ref. *)
Lemma receivePackAccepted_accepts (req : HFReceivePack) (status : Z) (report reason : string)
    (accepted definitive : bool) :
  receivePackAccepted req status report = (accepted, reason, definitive) →
  (accepted = true ↔ upstream_accepts req status report)
  ∧ (definitive = true ↔ status ∈ [401; 403; 404; 405; 413; 415]).
Proof.
  unfold receivePackAccepted, upstream_accepts, httpReceivePackRejectionDefinitive.
  destruct ((status <? 200) || (300 <=? status)) eqn:Es.
  - intros [= <- _ <-]. split; [|by rewrite bool_decide_eq_true].
    split; [done|]. intros [Hs _]. apply orb_true_iff in Es as [Es|Es]; bool_to_prop; lia.
  - apply orb_false_iff in Es as [Es1 Es2]. apply Z.ltb_ge in Es1. apply Z.leb_gt in Es2. intros H.
    assert (definitive = false) as -> by (by destruct (ReceivePackAccepted req report) as [[]|]; injection H).
    split; [|split; [done|]; set_unfold; lia]. transitivity (∃ r, ReceivePackAccepted req report = Ok (true, r)).
    { destruct (ReceivePackAccepted req report) as [[a r]|]; injection H as <- _; [|by split; [|intros [? [=]]]].
      split; [intros ->; by exists r|]. by intros [? [= -> _]]. }
    setoid_rewrite <- accepted_after_none. unfold ReceivePackAccepted.
    setoid_rewrite <- receivePackStatusBody_text.
    destruct (receivePackStatusBody req report) as [[text fatal]|e]; cbn [mbind result_bind].
    2: { split; [by intros [? [=]]|]. by intros (_ & ? & ? & [=] & _). }
    destruct (is_empty fatal) eqn:Ef; cbn [negb].
    + assert (fatal = EmptyString) as -> by by destruct fatal. rewrite parseReceivePackStatus_accepts.
      split; [intros (payloads & Hp & Ha); split; [lia|]; by exists text, payloads|].
      intros (_ & ? & payloads & [= <-] & Hp & Ha). by exists payloads.
    + split; [by intros [? [=]]|]. intros (_ & ? & ? & [= _ ->] & _). done.
Qed.
End report.

Section safety.
Context {R : MapRange} {PL : PktLine} {GG : GoGit} {CT : Catalog} {CJ : CoreJSON} {AJ : AttrJSON}.
Context (sha1_Sum plandigest_Digest use_digest : string → string).
Context (marshal_transaction : string → list string → string → result error string).
Context (Error_text : error → string) (clock : Time) (srv : HFServer).

(** ** Forwarding and settling *)

Definition is_forward (e : PushEvent) : bool :=
  match e with @Asked B c _ => match c with ForwardPush _ => true | _ => false end end.

Definition is_settlement (e : PushEvent) : bool :=
  match e with @Asked B c _ => match c with StoreSettleUse _ _ _ => true | _ => false end end.

Definition is_reservation (e : PushEvent) : bool :=
  match e with @Asked B c _ => match c with StoreReserveUse _ _ _ => true | _ => false end end.

Definition none_of (kind : PushEvent → bool) (h : PushHistory) : Prop := Forall (λ e, kind e = false) h.

Lemma quiet_none (ev : PushHistory) :
  Forall (event_of quiet_call) ev → none_of is_forward ev ∧ none_of is_settlement ev ∧ none_of is_reservation ev.
Proof. intros H. split_and!; (eapply Forall_impl; [exact H|]; intros [B c a]; by destruct c). Qed.

Lemma tame_none (ev : PushHistory) :
  Forall (event_of tame_call) ev → none_of is_forward ev ∧ none_of is_settlement ev ∧ none_of is_reservation ev.
Proof. intros H. split_and!; (eapply Forall_impl; [exact H|]; intros [B c a]; by destruct c). Qed.

(** A use that this push reserved. *)
Definition acquired (h : PushHistory) (grant : Grant) (use : GrantUse) : Prop :=
  ∃ grantID requestID operation,
    Asked (StoreReserveUse grantID requestID operation) (Ok (grant, use, true)) ∈ h ∧ use_State use = UseReserved.

(** What the store answered to a reservation. *)
Definition reservation_of (e : PushEvent) : option (Grant * GrantUse * bool) :=
  match e with
  | @Asked B c a =>
      match c in PushCall B return B → option (Grant * GrantUse * bool) with
      | StoreReserveUse _ _ _ => λ a, match a with Ok reservation => Some reservation | Err _ => None end
      | _ => λ _, None
      end a
  end.

Lemma acquired_cons (e : PushEvent) (h : PushHistory) (grant : Grant) (use : GrantUse) :
  acquired (e :: h) grant use ↔
    (reservation_of e = Some (grant, use, true) ∧ use_State use = UseReserved) ∨ acquired h grant use.
Proof.
  split.
  - intros (g & r & o & [<-|Hin]%elem_of_cons & Hs); [by left|right; by exists g, r, o].
  - intros [[He Hs]|(g & r & o & Hin & Hs)]; [|exists g, r, o; split; [by right|done]].
    destruct e as [B [] a]; try done. destruct a as [x|]; [|done]. destruct x as [[]]. injection He as -> -> ->.
    exists grantID, requestID, operation. split; [by left|done].
Qed.

Lemma reservation_acquired (h : PushHistory) (i : nat) (grant : Grant) (use : GrantUse) :
  reservation_of <$> nth_error h i = Some (Some (grant, use, true)) → use_State use = UseReserved → acquired h grant use.
Proof.
  revert i. induction h as [|e h IH]; intros [|i] Hi Hs; try done.
  - injection Hi as Hi. apply acquired_cons. by left.
  - apply acquired_cons. right. by apply (IH i).
Qed.

(** The same of a grant, under the identity of the push. *)
Definition reserved_for (identity : string) (h : PushHistory) (grantID : string) : Prop :=
  ∃ requestID operation grant use,
    DeriveUseRequestID use_digest grantID identity = Ok requestID
    ∧ Asked (StoreReserveUse grantID requestID operation) (Ok (grant, use, true)) ∈ h ∧ use_State use = UseReserved.

(** Upstream answered a body, and this is how its answer is read. *)
Definition upstream_verdict (h : PushHistory) (accepted definitive : bool) : Prop :=
  ∃ body req status report reason,
    Asked (ForwardPush body) (Ok (status, report)) ∈ h ∧ ParseReceivePack body = Ok req
    ∧ receivePackAccepted req status report = (accepted, reason, definitive).

(** Why a use may be settled so. *)
Definition settlement_reason (h : PushHistory) (target : UseState) : Prop :=
  match target with
  | UseReleased =>
      none_of is_forward h
      ∨ ∃ body status report, Asked (ForwardPush body) (Ok (status, report)) ∈ h ∧ status ∈ [401; 403; 404; 405; 413; 415]
  | UseCommitted => ∃ definitive, upstream_verdict h true definitive
  | UseRetained =>
      (∃ e, Asked NewForwardRequest (Some e) ∈ h) ∨ (∃ body e, Asked (ForwardPush body) (Err e) ∈ h)
      ∨ upstream_verdict h false false
  | _ => False
  end.

(** What the store answered when it was asked to settle a use: nothing when it did, or the
    failure that leaves the use reserved. *)
Definition settle_answer (h : PushHistory) (target : UseState) (grant : Grant) (use : GrantUse)
    (answer : option error) : Prop :=
  Asked (StoreSettleUse target (grant_ID grant) (use_RequestID use)) answer ∈ h.

(** What became of a use that was reserved: the store settled it; or the store failed to
    and the use is still reserved; or it was to be retained, and the store had failed to
    retain another use of the push. *)
Definition settlement_outcome (h : PushHistory) (target : UseState) (grant : Grant) (use : GrantUse) : Prop :=
  settle_answer h target grant use None
  ∨ (∃ e, settle_answer h target grant use (Some e))
  ∨ target = UseRetained
    ∧ ∃ other otherUse e, acquired h other otherUse ∧ settle_answer h UseRetained other otherUse (Some e).

(** Nothing was reserved or settled, or there is one verdict on the push, and every use
    that it reserved was settled by it. *)
Definition all_settled (h : PushHistory) : Prop :=
  (none_of is_settlement h ∧ ∀ grant use, ¬ acquired h grant use)
  ∨ ∃ target, settlement_reason h target
      ∧ (∀ t grantID requestID answer, Asked (StoreSettleUse t grantID requestID) answer ∈ h → t = target)
      ∧ ∀ grant use, acquired h grant use → settlement_outcome h target grant use.

Section enforcement.
Context (client : string) (rt : Route).

(** A body may be forwarded once, when its push is classified and each of its refs is
    authorized, with the uses it rests on reserved and not settled. *)
Definition may_forward (body : string) (h : PushHistory) : Prop :=
  none_of is_forward h ∧ none_of is_settlement h
  ∧ ∃ req classes,
      Asked ReadBody (Ok (body, false)) ∈ h
      ∧ ParseReceivePack body = Ok req
      ∧ push_classified (since_lock h) (hrp_Commands req) classes
      ∧ Forall (authorized clock srv client rt (targetName rt) (len (hrp_Pack req)) (plandigest_Digest body) h classes
                  (reserved_for (request_identity plandigest_Digest client (targetName rt) body) h)) classes.

Definition may_settle (target : UseState) (grantID requestID : string) (h : PushHistory) : Prop :=
  (∃ grant use, acquired h grant use ∧ grantID = grant_ID grant ∧ requestID = use_RequestID use)
  ∧ settlement_reason h target.

Definition push_permitted (B : Type) (c : PushCall B) (h : PushHistory) : Prop :=
  match c with
  | ForwardPush body => may_forward body h
  | StoreSettleUse target grantID requestID => may_settle target grantID requestID h
  | _ => True
  end.

Lemma tame_wp {X} (p : PushProg X) (post : X → PushHistory → Prop) (Q : X → PushHistory → Prop) (h : PushHistory) :
  along tame_call p post → (∀ x ev, Forall (event_of tame_call) ev → post x ev → Q x (ev ++ h)) →
  push_wp push_permitted p Q h.
Proof. apply along_wp. intros B c h'. by destruct c. Qed.

Lemma quiet_wp {X} (p : PushProg X) (post : X → PushHistory → Prop) (Q : X → PushHistory → Prop) (h : PushHistory) :
  quietly p post → (∀ x ev, Forall (event_of quiet_call) ev → post x ev → Q x (ev ++ h)) →
  push_wp push_permitted p Q h.
Proof. apply along_wp. intros B c h'. by destruct c. Qed.

Lemma asks_wp {X} (p : PushProg X) (post : X → PushHistory → Prop) (Q : X → PushHistory → Prop) (h : PushHistory) :
  asks p post → (∀ x ev, Forall (event_of quiet_call) ev → post x ev → Q x (ev ++ h)) →
  push_wp push_permitted p Q h.
Proof. intros Hp. apply quiet_wp. revert Hp. apply along_weaken, asking_quiet. Qed.

Lemma acquired_late (ev h : PushHistory) (grant : Grant) (use : GrantUse) :
  none_of is_reservation ev → acquired (ev ++ h) grant use → acquired h grant use.
Proof.
  intros Hev (grantID & requestID & operation & [Hin|Hin]%elem_of_app & Hs); [|by exists grantID, requestID, operation].
  unfold none_of in Hev. rewrite Forall_forall in Hev. by apply Hev in Hin.
Qed.

Lemma settlement_reason_app (target : UseState) (ev h : PushHistory) :
  none_of is_forward ev → settlement_reason h target → settlement_reason (ev ++ h) target.
Proof.
  intros Hev. destruct target; simpl; try done.
  - intros (d & body & req & status & report & reason & Hin & H). exists d, body, req, status, report, reason. set_solver.
  - intros [H|(body & status & report & Hin & H)].
    + left. by apply Forall_app.
    + right. exists body, status, report. set_solver.
  - intros [(e & Hin)|[(body & e & Hin)|(body & req & status & report & reason & Hin & H)]].
    + left. exists e. set_solver.
    + right; left. exists body, e. set_solver.
    + right; right. exists body, req, status, report, reason. set_solver.
Qed.

Lemma acquired_app (ev h : PushHistory) (grant : Grant) (use : GrantUse) :
  acquired h grant use → acquired (ev ++ h) grant use.
Proof. intros (g & r & o & Hin & Hs). exists g, r, o. set_solver. Qed.

Lemma settlement_outcome_app (ev h : PushHistory) (target : UseState) (grant : Grant) (use : GrantUse) :
  settlement_outcome h target grant use → settlement_outcome (ev ++ h) target grant use.
Proof.
  unfold settlement_outcome, settle_answer. setoid_rewrite elem_of_app.
  intros [?|[(e & ?)|(? & other & u & e & Ha & ?)]]; [naive_solver..|]. right; right. split; [done|].
  exists other, u, e. split; [by apply acquired_app|by right].
Qed.

Lemma not_settlement (ev : PushHistory) (t : UseState) (grantID requestID : string) (answer : option error) :
  none_of is_settlement ev → ¬ Asked (StoreSettleUse t grantID requestID) answer ∈ ev.
Proof. unfold none_of. rewrite Forall_forall. by intros H Hin%H. Qed.

(** Events of other kinds leave everything settled. *)
Lemma all_settled_late (ev h : PushHistory) :
  none_of is_forward ev ∧ none_of is_settlement ev ∧ none_of is_reservation ev → all_settled h → all_settled (ev ++ h).
Proof.
  intros (Hf & Hs & Hr) [[Hn Ha]|(target & Hreason & Hone & Hall)].
  - left. split; [by apply Forall_app|]. intros grant use Hacq. by apply acquired_late, Ha in Hacq.
  - right. exists target. split; [by apply settlement_reason_app|]. split.
    + intros t g r a [?%not_settlement|Hin]%elem_of_app; [done..|]. by apply (Hone t g r a).
    + intros grant use Hacq. apply acquired_late in Hacq; [|done]. by apply settlement_outcome_app, Hall.
Qed.

(** The uses of a list that were reserved are the list's. *)
Definition holds (h : PushHistory) (reserved : list (Grant * GrantUse)) : Prop :=
  ∀ grant use, acquired h grant use ↔ (grant, use) ∈ reserved.

Lemma holds_late (ev h : PushHistory) (reserved : list (Grant * GrantUse)) :
  none_of is_reservation ev → holds h reserved → holds (ev ++ h) reserved.
Proof.
  intros Hev H grant use. rewrite <- (H grant use). split; [by apply acquired_late|].
  intros (g & r & o & Hin & Hs). exists g, r, o. set_solver.
Qed.

(** *** Settlement *)

(** What a settlement adds to the history. *)
Definition settlements (target : UseState) (ev : PushHistory) : Prop :=
  Forall (λ e, ∃ grantID requestID answer, e = Asked (StoreSettleUse target grantID requestID) answer) ev.

Lemma settlements_none (target : UseState) (ev : PushHistory) :
  settlements target ev → none_of is_forward ev ∧ none_of is_reservation ev
  ∧ ∀ t g r a, Asked (StoreSettleUse t g r) a ∈ ev → t = target.
Proof.
  intros H. split_and!; [eapply Forall_impl; [exact H|]; by intros e (g & r & a & ->)..|].
  intros t g r a Hin. unfold settlements in H. rewrite Forall_forall in H.
  destruct (H _ Hin) as (g' & r' & a' & He). by injection He.
Qed.

Lemma settleGrantUses_wp (reserved : list (Grant * GrantUse)) (target : UseState) (Q : unit → PushHistory → Prop)
    (h : PushHistory) :
  (∀ grant use, (grant, use) ∈ reserved → acquired h grant use) → settlement_reason h target →
  (∀ ev, settlements target ev →
     (∀ grant use, (grant, use) ∈ reserved → ∃ answer, settle_answer ev target grant use answer) → Q tt (ev ++ h)) →
  push_wp push_permitted (settleGrantUses reserved target) Q h.
Proof.
  revert h. induction reserved as [|[grant use] reserved IH]; intros h Ha Hr HQ; cbn [settleGrantUses].
  { apply (HQ []); [by apply Forall_nil|]. by intros g u ?%elem_of_nil. }
  split; [split; [|done]; exists grant, use; split; [apply Ha; by left|done]|]. intros answer.
  set (e := Asked (StoreSettleUse target (grant_ID grant) (use_RequestID use)) answer).
  apply IH.
  - intros g u Hin. destruct (Ha g u) as (i & r & o & Hin' & Hs); [by right|]. exists i, r, o. split; [by right|done].
  - by apply (settlement_reason_app target [e]); [apply Forall_singleton|].
  - intros ev Hev Hs. specialize (HQ (ev ++ [e])). rewrite <- app_assoc in HQ. apply HQ.
    + apply Forall_app. split; [done|]. apply Forall_singleton. by exists (grant_ID grant), (use_RequestID use), answer.
    + intros g u [[= -> ->]|Hin]%elem_of_cons.
      * exists answer. apply elem_of_app. right. by left.
      * destruct (Hs g u Hin) as (a & Hin'). exists a. apply elem_of_app. by left.
Qed.

Lemma retainGrantUseReservations_wp (reserved : list (Grant * GrantUse)) (Q : option error → PushHistory → Prop)
    (h : PushHistory) :
  (∀ grant use, (grant, use) ∈ reserved → acquired h grant use) → settlement_reason h UseRetained →
  (∀ err ev, settlements UseRetained ev →
     (∀ grant use, (grant, use) ∈ reserved → settle_answer ev UseRetained grant use None)
     ∨ (∃ grant use e, (grant, use) ∈ reserved ∧ settle_answer ev UseRetained grant use (Some e)) →
     Q err (ev ++ h)) →
  push_wp push_permitted (retainGrantUseReservations reserved) Q h.
Proof.
  revert h. induction reserved as [|[grant use] reserved IH]; intros h Ha Hr HQ; cbn [retainGrantUseReservations].
  { apply (HQ None []); [by apply Forall_nil|]. left. by intros g u ?%elem_of_nil. }
  split; [split; [|done]; exists grant, use; split; [apply Ha; by left|done]|]. intros answer.
  set (e := Asked (StoreSettleUse UseRetained (grant_ID grant) (use_RequestID use)) answer).
  assert (He : settlements UseRetained [e]) by
    (apply Forall_singleton; by exists (grant_ID grant), (use_RequestID use), answer).
  destruct answer as [err|].
  { apply (HQ (Some _) [e]); [done|]. right. exists grant, use, err. split; by left. }
  apply IH.
  - intros g u Hin. destruct (Ha g u) as (i & r & o & Hin' & Hs); [by right|]. exists i, r, o. split; [by right|done].
  - by apply (settlement_reason_app UseRetained [e]); [apply Forall_singleton|].
  - intros err ev Hev Hs. specialize (HQ err (ev ++ [e])). rewrite <- app_assoc in HQ. apply HQ; [by apply Forall_app|].
    destruct Hs as [Hs|(g & u & x & Hin & Hx)].
    + left. intros g u [[= -> ->]|Hin]%elem_of_cons; apply elem_of_app; [right; by left|left; by apply Hs].
    + right. exists g, u, x. split; [by right|]. apply elem_of_app. by left.
Qed.

(** *** Reservation *)

Lemma holds_nil (h : PushHistory) : none_of is_reservation h → holds h [].
Proof.
  intros Hn grant use. split; [|by intros ?%elem_of_nil]. intros (g & r & o & Hin & _).
  unfold none_of in Hn. rewrite Forall_forall in Hn. by apply Hn in Hin.
Qed.

Lemma holds_cons_none (e : PushEvent) (h : PushHistory) (reserved : list (Grant * GrantUse)) :
  (∀ grant use, reservation_of e = Some (grant, use, true) → use_State use ≠ UseReserved) →
  holds h reserved → holds (e :: h) reserved.
Proof.
  intros He H grant use. rewrite acquired_cons, (H grant use). split; [|by right]. intros [[H1 H2]|H1]; [|done].
  by apply He in H1.
Qed.

Lemma holds_cons_acquired (e : PushEvent) (h : PushHistory) (reserved : list (Grant * GrantUse)) (grant : Grant)
    (use : GrantUse) :
  reservation_of e = Some (grant, use, true) → use_State use = UseReserved →
  holds h reserved → holds (e :: h) (reserved ++ [(grant, use)]).
Proof.
  intros He Hu H g u. rewrite acquired_cons, (H g u), elem_of_app, list_elem_of_singleton. split.
  - intros [[H1 _]|H1]; [right|by left]. rewrite He in H1. by injection H1 as -> ->.
  - intros [H1|[= -> ->]]; [by right|by left].
Qed.

(** What settling the uses of a push leaves, when nothing was settled before. *)
Lemma holds_settled (h ev : PushHistory) (reserved : list (Grant * GrantUse)) (target : UseState) :
  holds h reserved → none_of is_settlement h → settlement_reason h target → settlements target ev →
  (∀ grant use, (grant, use) ∈ reserved → ∃ answer, settle_answer ev target grant use answer)
  ∨ target = UseRetained
    ∧ (∃ grant use e, (grant, use) ∈ reserved ∧ settle_answer ev UseRetained grant use (Some e)) →
  all_settled (ev ++ h).
Proof.
  intros Hh Hn Hreason Hev Hs. destruct (settlements_none _ _ Hev) as (Hf & Hr & Hone). right. exists target.
  split; [by apply settlement_reason_app|]. split.
  - intros t g r a [Hin|?%not_settlement]%elem_of_app; [by apply (Hone t g r a)|done..].
  - intros grant use Ha. apply acquired_late in Ha; [|done]. unfold settlement_outcome, settle_answer.
    setoid_rewrite elem_of_app. apply Hh in Ha. destruct Hs as [Hs|(-> & g & u & e & Hin & He)].
    + destruct (Hs grant use Ha) as ([e|] & Hin); [right; left; exists e; by left|by left; left].
    + right; right. split; [done|]. exists g, u, e. split; [by apply acquired_app, Hh|by left].
Qed.

Lemma release_reserved_wp {X} (reserved : list (Grant * GrantUse)) (err : error)
    (Q : result error X → PushHistory → Prop) (h : PushHistory) :
  holds h reserved → none_of is_forward h → none_of is_settlement h → (∀ h', all_settled h' → Q (Err err) h') →
  push_wp push_permitted (release_reserved reserved err) Q h.
Proof.
  intros Hh Hf Hn HQ. apply push_wp_bind. apply settleGrantUses_wp.
  - intros grant use Hin. by apply Hh.
  - by left.
  - intros ev Hev Hs. apply HQ. apply (holds_settled h ev reserved UseReleased); [done|done|by left|done|by left].
Qed.

Lemma reserve_from_wp (uses : list grantUse) (identity : string) (reserved : list (Grant * GrantUse))
    (Q : result error (list (Grant * GrantUse)) → PushHistory → Prop) (h : PushHistory) :
  holds h reserved → none_of is_forward h → none_of is_settlement h →
  (∀ err h', all_settled h' → Q (Err err) h') →
  (∀ reserved' ev, unlocked ev → none_of is_forward (ev ++ h) → none_of is_settlement (ev ++ h) →
     holds (ev ++ h) reserved' → (∀ id, used_ids uses id → reserved_for identity (ev ++ h) id) →
     Q (Ok reserved') (ev ++ h)) →
  push_wp push_permitted (reserve_from use_digest uses identity reserved) Q h.
Proof.
  revert reserved h. induction uses as [|use uses IH]; intros reserved h Hh Hf Hs He Hok; cbn [reserve_from].
  { apply (Hok reserved []); [by apply Forall_nil|done..|]. by intros id ?%elem_of_nil. }
  split; [exact I|]. intros [e|].
  { apply release_reserved_wp; [by apply holds_cons_none|by apply Forall_cons..|by intros; apply He]. }
  destruct (DeriveUseRequestID use_digest (grant_ID (gu_grant use)) identity) as [requestID|e] eqn:Ed.
  2:{ apply release_reserved_wp; [by apply holds_cons_none|by apply Forall_cons..|by intros; apply He]. }
  split; [exact I|]. set (v := Asked (ValidateExecution _) _).
  set (c := StoreReserveUse _ _ _). intros answer.
  assert (Hf' : none_of is_forward (Asked c answer :: v :: h)) by by repeat (apply Forall_cons; split).
  assert (Hs' : none_of is_settlement (Asked c answer :: v :: h)) by by repeat (apply Forall_cons; split).
  destruct answer as [[[grant stored] took]|e].
  2:{ apply release_reserved_wp; [|done..|by intros; apply He]. by apply holds_cons_none, holds_cons_none. }
  destruct took; simpl.
  2:{ apply release_reserved_wp; [|done..|by intros; apply He]. by apply holds_cons_none, holds_cons_none. }
  destruct (bool_decide_reflect (use_State stored = UseReserved)) as [Hu|Hu]; simpl.
  2:{ apply release_reserved_wp; [|done..|by intros; apply He]. apply holds_cons_none; [by intros ? ? [= -> ->]|].
      by apply holds_cons_none. }
  apply IH; [|done..|].
  { apply holds_cons_acquired; [done..|]. by apply holds_cons_none. }
  intros reserved' ev Hev Hf'' Hs'' Hh'' Hid.
  specialize (Hok reserved' (ev ++ [Asked c (Ok (grant, stored, true)); v])). rewrite <- app_assoc in Hok. apply Hok; try done.
  - apply Forall_app. split; [done|]. by repeat (apply Forall_cons; split).
  - intros id Hin. apply elem_of_cons in Hin as [->|Hin]; [|by apply Hid].
    exists requestID, (grant_Operation (gu_grant use)), grant, stored. split_and!; [done|set_solver|done].
Qed.

(** *** Forwarding *)

Lemma receivePackAccepted_definitive (req : HFReceivePack) (status : Z) (report reason : string) (accepted : bool) :
  receivePackAccepted req status report = (accepted, reason, true) → status ∈ [401; 403; 404; 405; 413; 415].
Proof.
  unfold receivePackAccepted. destruct ((status <? 200) || (300 <=? status)).
  - intros [= _ _ H]. by apply bool_decide_eq_true in H.
  - by destruct (ReceivePackAccepted req report) as [[] |].
Qed.

Lemma AdvanceAccepted_quiet (commands : list HFCommand) : quietly (AdvanceAccepted commands) (λ _ _, True).
Proof.
  induction commands as [|c commands IH]; cbn [AdvanceAccepted]; [done|].
  eapply (along_bind _ _ _ (λ _ _, True)); [by destruct (IsZeroSHA (hc_New c))|]. by intros [e|] ev _.
Qed.

Lemma accepted_audit_quiet (used : list grantUse) (classes : list ClassifiedCommand) (target : string) (status : Z) :
  quietly (match used with
           | _ :: _ => recordGrantUsed client (grantAuditOperation used) target status (grantUseIDs used)
           | [] => record client (pushAuditOperation classes) target "allowed" EmptyString status
           end) (λ _ _, True).
Proof.
  destruct used as [|use used]; [done|]. unfold recordGrantUsed.
  eapply (along_bind _ _ _ (λ _ _, True)); [by destruct (grantUseIDs _)|done].
Qed.

(** A program of quiet calls keeps what the history has settled. *)
Lemma quiet_settled {X} (p : PushProg X) (Q : X → PushHistory → Prop) (h : PushHistory) :
  quietly p (λ _ _, True) → all_settled h → (∀ x h', all_settled h' → Q x h') → push_wp push_permitted p Q h.
Proof.
  intros Hp Hs HQ. apply (quiet_wp _ _ _ _ Hp). intros x ev Hev _. apply HQ, all_settled_late; [|done].
  by apply quiet_none.
Qed.

Lemma retained_wp (reserved : list (Grant * GrantUse)) (Q : option error → PushHistory → Prop) (h : PushHistory) :
  holds h reserved → none_of is_settlement h → settlement_reason h UseRetained → (∀ err h', all_settled h' → Q err h') →
  push_wp push_permitted (retainGrantUseReservations reserved) Q h.
Proof.
  intros Hh Hn Hr HQ. apply retainGrantUseReservations_wp; [by intros; apply Hh|done|].
  intros err ev Hev Hs. apply HQ. apply (holds_settled h ev reserved UseRetained); [done..|].
  destruct Hs as [Hs|Hs]; [left|by right]. intros grant use Hin. exists None. by apply Hs.
Qed.

Lemma settled_wp (reserved : list (Grant * GrantUse)) (target : UseState) (Q : unit → PushHistory → Prop) (h : PushHistory) :
  holds h reserved → none_of is_settlement h → settlement_reason h target → (∀ h', all_settled h' → Q tt h') →
  push_wp push_permitted (settleGrantUses reserved target) Q h.
Proof.
  intros Hh Hn Hr HQ. apply settleGrantUses_wp; [by intros; apply Hh|done|].
  intros ev Hev Hs. apply HQ. apply (holds_settled h ev reserved target); [done..|by left].
Qed.

Lemma forwardReservedPush_wp (req : HFReceivePack) (body target : string) (used : list grantUse)
    (reserved : list (Grant * GrantUse)) (classes : list ClassifiedCommand) (Q : Z * option error → PushHistory → Prop)
    (h : PushHistory) :
  (∀ e, is_forward e = false → is_settlement e = false → is_lock e = false → may_forward body (e :: h)) →
  ParseReceivePack body = Ok req → holds h reserved → none_of is_settlement h → (∀ x h', all_settled h' → Q x h') →
  push_wp push_permitted (forwardReservedPush req body client target used reserved classes) Q h.
Proof.
  intros Hm Hp Hh Hns HQ. apply push_wp_bind. split; [exact I|]. set (n := NewForwardRequest). intros [e|].
  { apply push_wp_ret, push_wp_bind, retained_wp; [by apply holds_cons_none|by apply Forall_cons| |by intros; apply HQ]. left. exists e. by left. }
  split; [by apply Hm|]. set (f := ForwardPush body). intros [[status report]|e].
  2:{ apply push_wp_ret, push_wp_bind, retained_wp; [by repeat apply holds_cons_none|by repeat (apply Forall_cons; split)| |by intros; apply HQ].
      right; left. exists body, e. by left. }
  simpl. destruct (receivePackAccepted req status report) as [[accepted reason] definitive] eqn:Ea.
  split; [exact I|]. intros []. simpl.
  set (h' := Asked (WriteUpstream status report) tt :: Asked f (Ok (status, report)) :: Asked n None :: h).
  assert (Hh' : holds h' reserved) by by repeat apply holds_cons_none.
  assert (Hin : Asked f (Ok (status, report)) ∈ h') by set_solver.
  assert (Hns' : none_of is_settlement h') by by repeat (apply Forall_cons; split).
  destruct accepted.
  - apply push_wp_bind, push_wp_bind, (quiet_wp _ _ _ _ (AdvanceAccepted_quiet _)). intros x ev Hev _.
    apply push_wp_bind, settled_wp.
    + apply holds_late; [by apply quiet_none|done].
    + apply Forall_app. split; [by apply quiet_none|done].
    + exists definitive, body, req, status, report, reason. split_and!; [set_solver|done..].
    + intros h'' Hs. apply quiet_settled; [apply accepted_audit_quiet|done|by intros; apply HQ].
  - apply push_wp_bind, push_wp_bind. destruct definitive.
    + apply push_wp_bind, settled_wp; [done|done| |].
      * right. exists body, status, report. split; [done|]. by eapply receivePackAccepted_definitive.
      * intros h'' Hs. apply push_wp_bind, quiet_settled; [done|done|]. intros; by apply HQ.
    + apply retained_wp; [done|done| |].
      * right; right. by exists body, req, status, report, reason.
      * intros err h'' Hs. apply push_wp_bind, quiet_settled; [done|done|]. intros; by apply HQ.
Qed.

(** *** The push *)

Lemma push_admitted_may_forward (req : HFReceivePack) (body : string) (classes : list ClassifiedCommand)
    (grants : string → Prop) (e : PushEvent) (late ev h : PushHistory) :
  let identity := request_identity plandigest_Digest client (targetName rt) body in
  let h' := e :: late ++ ev ++ h in
  push_admitted clock srv client (targetName rt) (len (hrp_Pack req)) (plandigest_Digest body) ev (hrp_Commands req) classes grants →
  (∀ id, grants id → reserved_for identity (late ++ ev ++ h) id) → unlocked (e :: late) →
  none_of is_forward h' → none_of is_settlement h' →
  Asked ReadBody (Ok (body, false)) ∈ h → ParseReceivePack body = Ok req → may_forward body h'.
Proof.
  intros identity h' Had Hg Hu Hf Hs Hin Hp.
  eapply (push_admitted_app sha1_Sum plandigest_Digest use_digest marshal_transaction _ _ _ _ _ _ (e :: late) ev h _ _ _ (reserved_for identity h')) in Had as [Hc (rt' & Hrt & Ha)]; [|done|].
  - apply parseGrantTarget_name in Hrt as ->. split; [done|]. split; [done|]. exists req, classes.
    split_and!; [set_solver|done|exact Hc|exact Ha].
  - intros id Hid%Hg. destruct Hid as (r & o & g & u & H1 & H2 & H3). exists r, o, g, u. split_and!; [done|by right|done].
Qed.

Lemma processLockedPush_wp (req : HFReceivePack) (body : string) (Q : Z * option error → PushHistory → Prop)
    (h : PushHistory) :
  Forall (event_of tame_call) h → hrp_Commands req ≠ [] →
  Asked ReadBody (Ok (body, false)) ∈ h → ParseReceivePack body = Ok req → (∀ x h', all_settled h' → Q x h') →
  push_wp push_permitted
    (processLockedPush sha1_Sum plandigest_Digest use_digest marshal_transaction Error_text clock srv req body client
       (targetName rt)) Q h.
Proof.
  intros Ht Hne Hin Hp HQ. apply push_wp_bind, (tame_wp _ _ _ _ (refuseInvalidPush_tame sha1_Sum plandigest_Digest use_digest marshal_transaction Error_text
    clock srv req body client (targetName rt) Hne)).
  intros r ev Hev Had. assert (Ht' : Forall (event_of tame_call) (ev ++ h)) by by apply Forall_app.
  destruct (tame_none _ Ht') as (Hf & Hs & Hr). destruct r as [err|[uses classes]].
  { apply HQ. left. split; [done|]. intros grant use Ha. by apply (holds_nil _ Hr), elem_of_nil in Ha. }
  apply push_wp_bind, (reserve_from_wp _ _ _ _ _ (holds_nil _ Hr) Hf Hs); [by intros; apply HQ|].
  intros reserved late Hu Hf' Hs' Hh' Hid. apply forwardReservedPush_wp; [|done..].
  intros e He1 He2 He3.
  apply (push_admitted_may_forward req body classes (used_ids uses) e late ev h); [done..| | | |done|done];
    by apply Forall_cons.
Qed.

Lemma candidates_may_inspect_asks (ref : string) (candidates : list pushPolicyCandidate) (packSize : Z) (reason : string) :
  asks (candidates_may_inspect Error_text clock srv client rt ref candidates packSize reason) (λ _ _, True).
Proof.
  revert reason. induction candidates as [|c candidates IH]; intros reason; cbn [candidates_may_inspect]; [done|].
  eapply (along_bind _ _ _ (λ _ _, True)).
  - eapply along_bind; [apply decideRepo_asks|]. by intros [d|e] ev _.
  - intros [[[|] r]|e] ev _; [done| |done]. eapply along_mono; [|apply IH]. done.
Qed.

Lemma receivePackMayInspect_asks (commands : list HFCommand) (packSize : Z) :
  asks (receivePackMayInspect Error_text clock srv client rt commands packSize) (λ _ _, True).
Proof.
  induction commands as [|c commands IH]; cbn [receivePackMayInspect]; [done|].
  eapply (along_bind _ _ _ (λ _ _, True)).
  - unfold commandMayInspect. destruct (preflightPushCandidates c) as [|x l]; [done|].
    eapply along_bind; [apply candidates_may_inspect_asks|]. by intros r ev _.
  - intros [r|] ev _; [done|]. eapply along_mono; [|apply IH]. done.
Qed.

Lemma readReceivePack_tame (target : string) :
  along tame_call (readReceivePack client target) (λ read ev, ∀ req body, read = Some (req, body) →
    Asked ReadBody (Ok (body, false)) ∈ ev ∧ ParseReceivePack body = Ok req ∧ hrp_Commands req ≠ []).
Proof.
  split; [done|]. intros [[body [|]]|e]; simpl.
  - by repeat (split; [done|]; intros []).
  - destruct (ParseReceivePack body) as [req|e] eqn:Ep; [|by repeat (split; [done|]; intros [])].
    destruct (hrp_Commands req) as [|c l] eqn:Ec; [by repeat (split; [done|]; intros [])|].
    intros req' body' [= <- <-]. split_and!; [by left|done|by rewrite Ec].
  - by repeat (split; [done|]; intros []).
Qed.

Lemma receivePackMayRead_asks : asks (receivePackMayRead Error_text clock srv client rt) (λ _ _, True).
Proof.
  eapply (along_bind _ _ _ (λ _ _, True)); [|by intros [d|e] ev _].
  apply (along_bind _ (ask UtcNow) _ (λ _ _, True)); [done|]. intros now ev _.
  eapply along_bind; [apply activeGrantRules_asks|]. by intros [rules|e] ev' _.
Qed.

Lemma tame_settled (h : PushHistory) : Forall (event_of tame_call) h → all_settled h.
Proof.
  intros Ht. destruct (tame_none h Ht) as (_ & Hs & Hr). left. split; [done|]. intros grant use Ha.
  by apply (holds_nil h Hr), elem_of_nil in Ha.
Qed.

(** Every call of the handler is permitted, and at its end the uses are settled. *)
Lemma handleReceivePack_wp :
  push_wp push_permitted
    (handleReceivePack sha1_Sum plandigest_Digest use_digest marshal_transaction Error_text clock srv client rt
       (targetName rt)) (λ _ h, all_settled h) [].
Proof.
  apply push_wp_bind, (asks_wp _ _ _ _ receivePackMayRead_asks). intros [[status reason]|] ev1 Hev1 _.
  { apply (quiet_settled _ _ _); [done| |done]. rewrite app_nil_r. by apply tame_settled, quiet_events_tame. }
  apply push_wp_bind, (tame_wp _ _ _ _ (readReceivePack_tame _)). intros read ev2 Hev2 Hread.
  assert (Ht2 : Forall (event_of tame_call) (ev2 ++ ev1 ++ [])) by
    (apply Forall_app; split; [done|]; rewrite app_nil_r; by apply quiet_events_tame).
  destruct read as [[req body]|]; [|by apply tame_settled].
  destruct (Hread req body eq_refl) as (Hin & Hp & Hne).
  apply push_wp_bind, (asks_wp _ _ _ _ (receivePackMayInspect_asks _ _)). intros refused ev3 Hev3 _.
  assert (Ht3 : Forall (event_of tame_call) (ev3 ++ ev2 ++ ev1 ++ [])) by
    (apply Forall_app; split; [by apply quiet_events_tame|done]).
  destruct refused as [[operation [e|reason]]|]; [by apply quiet_settled; [|apply tame_settled|]..|].
  apply push_wp_bind, push_wp_bind. split; [exact I|]. intros [].
  apply push_wp_ret, push_wp_bind, processLockedPush_wp; [by apply Forall_cons|done|set_solver|done|].
  intros [status err] h Hs. apply push_wp_bind. split; [exact I|]. intros []. apply push_wp_ret, push_wp_ret.
  assert (Hs' : all_settled (Asked MirrorUnlock tt :: h)) by by apply (all_settled_late [_]); [split_and!; apply Forall_singleton|].
  destruct err as [err|]; [|done]. apply quiet_settled; [|done|done].
  eapply (along_bind _ _ _ (λ _ _, True)); [|done]. destruct (status =? 0); [|done].
  by destruct (receivePackErrorResponse err).
Qed.
End enforcement.

(** ** The lock *)

(** Whether the lock of the mirror is held. *)
Fixpoint held (h : PushHistory) : bool :=
  match h with
  | [] => false
  | @Asked B c _ :: h => match c with MirrorLock => true | MirrorUnlock => false | _ => held h end
  end.

(** The mirror, the uses and upstream only with the lock; the body and the wait for an
    operator without. *)
Definition lock_permitted (B : Type) (c : PushCall B) (h : PushHistory) : Prop :=
  match c with
  | MirrorEnsure | MirrorCurrentRef _ | MirrorReadObjects | MirrorStoreObject _ _ | MirrorIsAncestor _ _
  | MirrorAdvanceRef _ _ | MirrorDeleteRef _ | StoreReserveUse _ _ _ | StoreSettleUse _ _ _ | ForwardPush _
  | MirrorUnlock => held h = true
  | MirrorLock | ReadBody | StoreWaitForDecision _ => held h = false
  | _ => True
  end.

(** What the handler does with the lock. *)
Definition inside_call (B : Type) (c : PushCall B) : bool :=
  match c with MirrorLock | MirrorUnlock | ReadBody | StoreWaitForDecision _ => false | _ => true end.

Lemma quiet_inside B (c : PushCall B) : quiet_call B c = true → inside_call B c = true.
Proof. by destruct c. Qed.

(** What it does without. *)
Definition outside_call (B : Type) (c : PushCall B) : bool :=
  match c with ReadBody => true | c => asking_call _ c end.

Lemma asking_outside B (c : PushCall B) : asking_call B c = true → outside_call B c = true.
Proof. by destruct c. Qed.

(** A program that is started with the lock taken, or free, and leaves it so. *)
Definition keeps {X} (taken : bool) (p : PushProg X) : Prop :=
  ∀ (Q : X → PushHistory → Prop) h,
    held h = taken → (∀ x h', held h' = taken → Q x h') → push_wp lock_permitted p Q h.

(** The calls of these keep the lock as it is, with what the program shows of its result. *)
Lemma along_lock {X} (calls : ∀ B, PushCall B → bool) (taken : bool) (post : X → Prop) (p : PushProg X)
    (Q : X → PushHistory → Prop) (h : PushHistory) :
  (∀ B c h, calls B c = true → held h = taken → lock_permitted B c h ∧ ∀ a, held (Asked c a :: h) = taken) →
  along calls p (λ x _, post x) → held h = taken → (∀ x h', post x → held h' = taken → Q x h') →
  push_wp lock_permitted p Q h.
Proof.
  intros Hcalls. revert h. induction p as [x|B c k IH]; intros h Hp Hh HQ; [by apply HQ|]. destruct Hp as [Hc Hk].
  destruct (Hcalls B c h Hc Hh) as [Hperm Hheld]. split; [done|]. intros a. by apply (IH a); [apply Hk|apply Hheld|].
Qed.

Lemma inside_post {X} (post : X → Prop) (p : PushProg X) (Q : X → PushHistory → Prop) (h : PushHistory) :
  along inside_call p (λ x _, post x) → held h = true → (∀ x h', post x → held h' = true → Q x h') →
  push_wp lock_permitted p Q h.
Proof. apply along_lock. intros B c h' Hc Hh. by destruct c. Qed.

Lemma outside_post {X} (post : X → Prop) (p : PushProg X) (Q : X → PushHistory → Prop) (h : PushHistory) :
  along outside_call p (λ x _, post x) → held h = false → (∀ x h', post x → held h' = false → Q x h') →
  push_wp lock_permitted p Q h.
Proof. apply along_lock. intros B c h' Hc Hh. by destruct c. Qed.

Lemma inside_keeps {X} (p : PushProg X) (post : X → PushHistory → Prop) : along inside_call p post → keeps true p.
Proof.
  intros Hp Q h Hh HQ. apply (inside_post (λ _, True)); [by eapply along_mono|done|]. intros x h' _. apply HQ.
Qed.

Lemma outside_keeps {X} (p : PushProg X) (post : X → PushHistory → Prop) : along outside_call p post → keeps false p.
Proof.
  intros Hp Q h Hh HQ. apply (outside_post (λ _, True)); [by eapply along_mono|done|]. intros x h' _. apply HQ.
Qed.

Lemma quiet_keeps {X} (p : PushProg X) (post : X → PushHistory → Prop) : quietly p post → keeps true p.
Proof. intros Hp. apply (inside_keeps p post). revert Hp. apply along_weaken, quiet_inside. Qed.

Lemma asks_keeps {X} (p : PushProg X) (post : X → PushHistory → Prop) : asks p post → keeps false p.
Proof. intros Hp. apply (outside_keeps p post). revert Hp. apply along_weaken, asking_outside. Qed.

Lemma bind_keeps {X Y} (taken : bool) (p : PushProg X) (f : X → PushProg Y) :
  keeps taken p → (∀ x, keeps taken (f x)) → keeps taken (p ≫= f).
Proof. intros Hp Hf Q h Hh HQ. apply push_wp_bind, Hp; [done|]. intros x h' Hh'. by apply Hf. Qed.

Lemma ret_keeps {X} (taken : bool) (x : X) : keeps taken (mret x).
Proof. intros Q h Hh HQ. by apply HQ. Qed.

(** *** With the lock *)

Lemma settleGrantUses_inside (reserved : list (Grant * GrantUse)) (target : UseState) :
  along inside_call (settleGrantUses reserved target) (λ _ _, True).
Proof. induction reserved as [|[grant use] reserved IH]; [done|]. split; [done|]. intros answer. by eapply along_mono. Qed.

Lemma retainGrantUseReservations_inside (reserved : list (Grant * GrantUse)) :
  along inside_call (retainGrantUseReservations reserved) (λ _ _, True).
Proof.
  induction reserved as [|[grant use] reserved IH]; [done|]. split; [done|]. intros [e|]; [done|]. by eapply along_mono.
Qed.

Lemma reserve_from_inside (uses : list grantUse) (identity : string) (reserved : list (Grant * GrantUse)) :
  along inside_call (reserve_from use_digest uses identity reserved) (λ _ _, True).
Proof.
  assert (Hr : ∀ X reserved e, along inside_call (@release_reserved X reserved e) (λ _ _, True)).
  { intros X rs e. eapply along_bind; [apply settleGrantUses_inside|done]. }
  revert reserved. induction uses as [|use uses IH]; intros reserved; cbn [reserve_from]; [done|].
  split; [done|]. intros [e|]; [apply Hr|].
  destruct (DeriveUseRequestID _ _ _) as [requestID|e]; [|apply Hr]. split; [done|].
  intros [[[grant stored] took]|e]; [|apply Hr]. simpl. case_match; [apply Hr|apply IH].
Qed.

Lemma forwardReservedPush_keeps (req : HFReceivePack) (body client target : string) (used : list grantUse)
    (reserved : list (Grant * GrantUse)) (classes : list ClassifiedCommand) :
  keeps true (forwardReservedPush req body client target used reserved classes).
Proof.
  apply bind_keeps.
  { apply (inside_keeps _ (λ _ _, True)). split; [done|]. intros [e|]; [done|]. split; [done|].
    intros [[status report]|e]; [|done]. simpl. by destruct (receivePackAccepted _ _ _) as [[accepted reason] definitive]. }
  assert (Hret := λ rs, inside_keeps _ _ (retainGrantUseReservations_inside rs)).
  assert (Hset := λ rs target, inside_keeps _ _ (settleGrantUses_inside rs target)).
  intros [[[[status [|]] reason] definitive]|e].
  - repeat (apply bind_keeps; [|intros _]); [by eapply quiet_keeps, AdvanceAccepted_quiet|apply Hset| |apply ret_keeps].
    by eapply quiet_keeps, accepted_audit_quiet.
  - apply bind_keeps; [|intros; apply ret_keeps]. apply bind_keeps.
    + destruct definitive; [apply bind_keeps; [apply Hset|intros; apply ret_keeps]|apply Hret].
    + intros err. apply bind_keeps; [by apply (quiet_keeps _ (λ _ _, True))|intros; apply ret_keeps].
  - apply bind_keeps; [apply Hret|intros; apply ret_keeps].
Qed.

(** The wait for an operator is made without the lock. *)
Lemma waitForHFPushDecision_keeps (grantID : string) : keeps true (waitForHFPushDecision grantID).
Proof.
  intros Q h Hh HQ. split; [exact Hh|]. intros []. split; [done|]. intros answer. split; [done|]. intros [].
  by apply HQ.
Qed.

Lemma requestAndWaitForHFPush_keeps (classes : list ClassifiedCommand) (items : list requestableHFPush)
    (client target : string) (packSize : Z) (bodyDigest : string) :
  keeps true (requestAndWaitForHFPush plandigest_Digest marshal_transaction classes items client target packSize bodyDigest).
Proof.
  apply bind_keeps.
  - apply (quiet_keeps _ (on_ok (λ _ _, True))).
    eapply (along_ok _ _ _ (λ _ _, True)); [apply ensureNoRetainedHFPush_quiet|]. intros _ ev _.
    eapply along_ok_any; [apply hfPushGrantInput_quiet|]. intros input ev' _.
    eapply along_mono; [|apply (request_attempts_quiet sha1_Sum plandigest_Digest use_digest marshal_transaction Error_text)].
    by intros [|].
  - intros [grant|e]; [|apply ret_keeps]. apply bind_keeps; [apply waitForHFPushDecision_keeps|intros; apply ret_keeps].
Qed.

Lemma refusePolicyDeniedPush_keeps (classes : list ClassifiedCommand) (client target : string) (packSize : Z)
    (bodyDigest : string) (used : gmap string grantUse) :
  classes ≠ [] → keyed used →
  keeps true (refusePolicyDeniedPush plandigest_Digest marshal_transaction Error_text clock srv classes client target packSize
    bodyDigest used).
Proof.
  intros Hc Hk. unfold refusePolicyDeniedPush. destruct (parseGrantTarget target) as [rt|]; [|apply ret_keeps].
  apply bind_keeps; [by eapply quiet_keeps; apply (evaluate_from_quiet sha1_Sum plandigest_Digest use_digest
    marshal_transaction Error_text clock srv client rt target packSize)|].
  intros [[[items [|f failures]] used']|e]; [|by destruct items; apply ret_keeps|apply ret_keeps].
  destruct items as [|item items]; [apply ret_keeps|]. destruct (negb (srv_operatorConfigured srv)); [apply ret_keeps|].
  apply bind_keeps; [apply requestAndWaitForHFPush_keeps|]. intros [[grant|e] released]; [|apply ret_keeps].
  apply bind_keeps; [|by intros [failures used'']; apply ret_keeps]. apply (quiet_keeps _ (λ _ _, True)).
  unfold completeHFPushApproval. destruct (negb (grantIsActive grant)); [done|].
  eapply along_bind; [apply (revalidateHFPushRequests_quiet Error_text clock srv client rt packSize)|]. by intros [[]|e'].
Qed.

Lemma refuseInvalidPush_keeps (req : HFReceivePack) (body client target : string) :
  hrp_Commands req ≠ [] →
  keeps true (refuseInvalidPush sha1_Sum plandigest_Digest marshal_transaction Error_text clock srv req body client target).
Proof.
  intros Hne Q h Hh HQ. apply push_wp_bind.
  apply (inside_post (λ '(classes, failures, err), failures = [] → err = None → classes ≠ [])); [|done|].
  { eapply along_weaken; [apply quiet_inside|]. eapply along_mono; [|apply ClassifyPush_quiet].
    intros [[classes failures] err] ev H Hf He ->. destruct (H Hf He) as (Hc & _). by destruct Hne. }
  intros [[classes failures] err] h1 Hcl Hh1. revert Q h1 Hh1 HQ.
  apply bind_keeps.
  { destruct failures as [|f failures]; [|by destruct err; apply ret_keeps]. destruct err as [e|]; [apply ret_keeps|].
    apply refusePolicyDeniedPush_keeps; [by apply Hcl|apply map_Forall_empty]. }
  intros [[[failures' err'] used] released]. apply bind_keeps.
  { destruct failures' as [|f failures']; [|by destruct err', released; apply ret_keeps].
    destruct err' as [e|]; [by destruct released; apply ret_keeps|]. destruct released; [|apply ret_keeps].
    apply (quiet_keeps _ (λ _ _, True)). eapply along_bind; [apply ClassifyPush_quiet|]. by intros [[current failures''] err''] ev _. }
  intros [[|f failures''] err'']; [destruct err''; apply ret_keeps|].
  apply bind_keeps; [eapply quiet_keeps, writeHFPushRefusal_quiet|intros; apply ret_keeps].
Qed.

(** *** The handler *)

Lemma readReceivePack_outside (client target : string) :
  along outside_call (readReceivePack client target) (λ read _, ∀ req body, read = Some (req, body) → hrp_Commands req ≠ []).
Proof.
  split; [done|]. intros [[body [|]]|e]; simpl; try by repeat (split; [done|]; intros []).
  destruct (ParseReceivePack body) as [req|e]; [|by repeat (split; [done|]; intros [])].
  destruct (hrp_Commands req) as [|c l] eqn:Ec; [by repeat (split; [done|]; intros [])|].
  intros req' body' [= <- <-]. by rewrite Ec.
Qed.

Lemma withLockedPush_keeps (req : HFReceivePack) (body client target : string) :
  hrp_Commands req ≠ [] →
  keeps false (withLockedPush sha1_Sum plandigest_Digest use_digest marshal_transaction Error_text clock srv req body client
    target).
Proof.
  intros Hne Q h Hh HQ. apply push_wp_bind. split; [exact Hh|]. intros []. apply push_wp_ret, push_wp_bind.
  assert (Hp : keeps true (processLockedPush sha1_Sum plandigest_Digest use_digest marshal_transaction Error_text clock srv
    req body client target)).
  { apply bind_keeps; [by apply refuseInvalidPush_keeps|]. intros [err|[used classes]]; [apply ret_keeps|].
    apply bind_keeps; [eapply inside_keeps, reserve_from_inside|].
    intros [reserved|e]; [apply forwardReservedPush_keeps|apply ret_keeps]. }
  apply Hp; [done|]. intros outcome h' Hh'. apply push_wp_bind. split; [exact Hh'|]. intros []. by apply HQ.
Qed.

Lemma handleReceivePack_keeps (client : string) (rt : Route) (target : string) :
  keeps false
    (handleReceivePack sha1_Sum plandigest_Digest use_digest marshal_transaction Error_text clock srv client rt target).
Proof.
  apply bind_keeps; [eapply asks_keeps, receivePackMayRead_asks|].
  intros [[status reason]|]; [by apply (asks_keeps _ (λ _ _, True))|]. intros Q h Hh HQ.
  apply push_wp_bind, (outside_post _ _ _ _ (readReceivePack_outside client target)); [done|].
  intros [[req body]|] h1 Hread Hh1; [|by apply HQ]. specialize (Hread req body eq_refl). revert Q h1 Hh1 HQ.
  apply bind_keeps; [eapply asks_keeps, receivePackMayInspect_asks|].
  intros [[operation [e|reason]]|]; [by apply (asks_keeps _ (λ _ _, True))..|].
  apply bind_keeps; [by apply withLockedPush_keeps|]. intros [status [err|]]; [|apply ret_keeps].
  apply (asks_keeps _ (λ _ _, True)). eapply (along_bind _ _ _ (λ _ _, True)); [|done].
  destruct (status =? 0); [|done]. by destruct (receivePackErrorResponse err).
Qed.

(** ** The guarantees *)

Notation handler client rt :=
  (handleReceivePack sha1_Sum plandigest_Digest use_digest marshal_transaction Error_text clock srv client rt
     (targetName rt)).

Lemma handler_runs (client : string) (rt : Route) (s : PushProg unit * PushHistory) :
  rtc push_step (handler client rt, []) s →
  push_wp (push_permitted client rt) s.1 (λ _ h, all_settled h) s.2.
Proof. exact (push_wp_steps _ (_, _) s _ (handleReceivePack_wp client rt)). Qed.

(** C25: Whatever the mirror, the store, upstream and the clock answer, a push reaches Hugging
    Face at most once, and then its body was read whole and parsed, the mirror holds each
    ref as the client says since the lock was last taken, no ref is a replace ref, the
    kind of each update is what the mirror says, and each ref is authorized for
    the operation of its kind: by a rule, by an active listed grant for exactly
    this repository, ref and update whose plan is valid, or by an approval of this push
    (its commands and body digest, for one use) that the policy asks for still since the
    lock was taken; each grant it rests on has a use reserved for this push, none settled. *)
Theorem pushes_forwarded_authorized (client : string) (rt : Route) (body : string)
    (k : result error (Z * string) → PushProg unit) (h : PushHistory) :
  rtc push_step (handler client rt, []) (PushAsk (ForwardPush body) k, h) → may_forward client rt body h.
Proof. by intros [Hm _]%handler_runs. Qed.

(** Why the uses of a push may be settled so, by what was sent and answered. *)
Definition protocol_reason (h : PushHistory) (target : UseState) : Prop :=
  match target with
  | UseReleased =>
      none_of is_forward h
      ∨ ∃ body status report, Asked (ForwardPush body) (Ok (status, report)) ∈ h ∧ status ∈ [401; 403; 404; 405; 413; 415]
  | UseCommitted => ∃ body req status report,
      Asked (ForwardPush body) (Ok (status, report)) ∈ h ∧ ParseReceivePack body = Ok req
      ∧ upstream_accepts req status report
  | UseRetained =>
      (∃ e, Asked NewForwardRequest (Some e) ∈ h) ∨ (∃ body e, Asked (ForwardPush body) (Err e) ∈ h)
      ∨ ∃ body req status report,
          Asked (ForwardPush body) (Ok (status, report)) ∈ h ∧ ParseReceivePack body = Ok req
          ∧ status ∉ [401; 403; 404; 405; 413; 415] ∧ ¬ upstream_accepts req status report
  | _ => False
  end.

Lemma settlement_reason_protocol {L : PktLineLaws PL} (h : PushHistory) (target : UseState) :
  settlement_reason h target → protocol_reason h target.
Proof.
  destruct target; simpl; try done.
  - intros (d & body & req & status & report & reason & Hin & Hp & [Ha _]%receivePackAccepted_accepts).
    exists body, req, status, report. split_and!; [done|done|by apply Ha].
  - intros [?|[?|(body & req & status & report & reason & Hin & Hp & [Ha Hd]%receivePackAccepted_accepts)]];
      [by left|by right; left|right; right]. exists body, req, status, report.
    split_and!; [done|done|by rewrite <- Hd|by rewrite <- Ha].
Qed.

(** C26: A push settles only uses that the store told it to have reserved: it releases one only
    when nothing was sent upstream or upstream answered with a status that is definitive;
    commits one only when upstream answered with a success status and a report that reads, to
    its end, "unpack ok", a line "ok" for every ref of the push and no line of a failure, on
    the status channel if the push negotiated one and without a message on the error
    channel; and retains one only when sending failed or the answer was neither of these. *)
Theorem push_uses_settled_rightly {L : PktLineLaws PL} (client : string) (rt : Route) (target : UseState)
    (grantID requestID : string) (k : option error → PushProg unit) (h : PushHistory) :
  rtc push_step (handler client rt, []) (PushAsk (StoreSettleUse target grantID requestID) k, h) →
  (∃ grant use, acquired h grant use ∧ grantID = grant_ID grant ∧ requestID = use_RequestID use)
  ∧ protocol_reason h target.
Proof. intros [[Ha Hr] _]%handler_runs. split; [exact Ha|by apply settlement_reason_protocol]. Qed.

(** C28: When the handling of a push ends, either it reserved nothing and settled nothing, or
    there is one verdict, which upstream's answer justifies, and it asked for no other
    settlement.  Then each use that the push reserved was settled by that verdict; or the
    store, asked to, answered with a failure, and the use stays reserved; or the verdict is
    that the uses are retained and the store had failed to retain one of them, where the
    push stops. *)
Theorem push_uses_all_settled {L : PktLineLaws PL} (client : string) (rt : Route) (u : unit) (h : PushHistory) :
  rtc push_step (handler client rt, []) (PushDone u, h) →
  (none_of is_settlement h ∧ ∀ grant use, ¬ acquired h grant use)
  ∨ ∃ target, protocol_reason h target
      ∧ (∀ t grantID requestID answer, Asked (StoreSettleUse t grantID requestID) answer ∈ h → t = target)
      ∧ ∀ grant use, acquired h grant use →
          settle_answer h target grant use None
          ∨ (∃ e, settle_answer h target grant use (Some e))
          ∨ target = UseRetained
            ∧ ∃ other otherUse e, acquired h other otherUse ∧ settle_answer h UseRetained other otherUse (Some e).
Proof.
  intros [Hn|(target & Hr & Hone & Hall)]%handler_runs; [by left|right]. exists target.
  split; [by apply settlement_reason_protocol|]. split; [exact Hone|exact Hall].
Qed.

(** C27: The mirror is read and written, the uses are reserved and settled and the push is
    forwarded only with the mirror's lock held; the body is read and an operator
    waited for only with the lock free; the lock is never taken twice or freed when it is
    free, and it is free when the handling of the push ends. *)
Theorem push_lock_discipline (client : string) (rt : Route) (p : PushProg unit) (h : PushHistory) :
  rtc push_step (handler client rt, []) (p, h) →
  match p with PushDone _ => held h = false | PushAsk c _ => lock_permitted _ c h end.
Proof.
  intros H. apply (push_wp_steps lock_permitted (_, _) (_, _) (λ _ h, held h = false)) in H.
  - destruct p; [exact H|apply H].
  - by apply handleReceivePack_keeps.
Qed.
End safety.
