(* ===== verification/HFExamples.v ===== *)
(** * A scope file of the Hugging Face broker, decided, and pushes under it

    Two operations of the catalog, a scope file with a rule of each effect, the
    codec of its compiled documents, and the theorems applied to it; then a push that
    a rule allows and one that a grant allows, run to their ends. *)

From S2P Require Export HFDecide HFPushSafety.
From S2P Require Import GitPackFacts.
From Stdlib Require Import Ascii.

Local Open Scope Z_scope.

#[local] Existing Instance canonical_range.

(** ** A codec for the documents of one scope file *)

#[export] Instance OptionalLimit_eq_dec : EqDecision OptionalLimit.
Proof. solve_decision. Defined.
#[export] Instance rawGrantPolicy_eq_dec : EqDecision rawGrantPolicy.
Proof. solve_decision. Defined.
#[export] Instance TargetMatcher_eq_dec : EqDecision TargetMatcher.
Proof. solve_decision. Defined.
#[export] Instance rawRule_eq_dec : EqDecision rawRule.
Proof. solve_decision. Defined.

(** A document is written as the name of its decoded rules in a list of documents. *)
Definition listed_codec (known : list (string * list rawRule)) : CoreJSON := {|
  core_marshal doc :=
    raws ← collect core_raw doc;
    match find (λ '(_, rules), bool_decide (rules = raws)) known with
    | Some (name, _) => Ok name
    | None => Err json_error
    end;
  core_decode body :=
    match find (λ '(name, _), String.eqb name body) known with
    | Some (_, rules) => Ok (Some rules)
    | None => Err json_error
    end
|}.

Lemma listed_codec_law (known : list (string * list rawRule)) :
  NoDup known.*1 → core_json_law (CJ := listed_codec known).
Proof.
  intros Hnd doc body raw Hm Hd. cbn in Hm, Hd. apply bind_ok_iff in Hm as (raws & Hraws & Hm).
  exists raws. split; [done|].
  destruct (find _ known) as [[name rules]|] eqn:Ef in Hm; [|done]. injection Hm as ->.
  apply find_some in Ef as [Hin E]. apply bool_decide_eq_true in E as ->.
  destruct (find _ known) as [[name' rules']|] eqn:Ef in Hd; [|done]. injection Hd as <-.
  apply find_some in Ef as [Hin' E]. apply String.eqb_eq in E as ->. f_equal.
  apply list_elem_of_In in Hin, Hin'.
  apply (elem_of_list_to_map known _ _ Hnd) in Hin, Hin'. congruence.
Qed.

(** ** The catalog *)

Definition push_descriptor (name disposition : string) (explicit : bool) (tool command : string) : Descriptor :=
  MkDescriptor name 1 EmptyString disposition ModeWindow (Some [ModeWindow; ModeExecution]) explicit false None false
    StatusImplemented RiskHigh DefaultEffectRequest "repo" 1000000 600 604800 (negb explicit) true (Some tool)
    (Some command) EmptyString EmptyString EmptyString EmptyString None None "native-protocol" EmptyString.

#[local] Instance sample_catalog : Catalog := {|
  catalog_values :=
    [push_descriptor "git.push.append" "W" false "hf_git_push_append" "git push append";
     push_descriptor "git.push.force" "W/X" true "hf_git_push_force" "git push force"]
|}.

Lemma sample_catalog_valid : valid_catalog.
Proof. repeat (constructor; [by vm_compute|]). constructor. Qed.

(** ** The scope file *)

Definition repo_matcher (owner name : string) (refs : list string) : HFMatcher :=
  MkHFMatcher (MkHFTarget "repo" "model" owner name refs [] [] [] EmptyString) true (negb (no_values refs))
    false false false false.

Definition sample_raws : list HFRawRule := [
  MkHFRawRule "main is protected" "deny" ["*"] ["git.push.append"; "git.push.force"]
    [repo_matcher "acme" "*" ["refs/heads/main"]] ∅ [] None EmptyString;
  MkHFRawRule "agents append" "allow" ["agent[1]"] ["git.*"] [repo_matcher "acme" "*" ["refs/heads/agent/*"]] ∅ [] None EmptyString;
  MkHFRawRule "force needs approval" "request" ["agent[1]"] ["git.push.force"] [repo_matcher "acme" "*" []] ∅ []
    (Some (MkHFRawGrantPolicy None None (Some 30) None (MkOptionalLimit 0 false) (MkOptionalLimit 5 true))) EmptyString;
  MkHFRawRule "releases need approval" "request" ["agent[1]"] ["git.push.append"]
    [repo_matcher "acme" "*" ["refs/heads/release/*"]] ∅ []
    (Some (MkHFRawGrantPolicy None None (Some 30) None (MkOptionalLimit 0 false) (MkOptionalLimit 5 true))) EmptyString ].

(** The documents of the rules of a file. *)
Definition documents_of (raws : list HFRawRule) : list (string * list rawRule) :=
  let rules := match build_rules [] raws with Ok rules => rules | Err _ => [] end in
  omap (λ '(name, view), match collect core_raw (core_rules rules view).*2 with
                         | Ok raws => Some (name, raws)
                         | Err _ => None
                         end)
    [("normal"%string, coreViewNormal); ("support"%string, coreViewSupport); ("discovery"%string, coreViewDiscovery)].

Definition policy_of (raws : list HFRawRule) : HFPolicy :=
  match HF_Parse (CJ := listed_codec (documents_of raws)) (λ _, Ok raws) EmptyString with
  | Ok p => p
  | Err _ => MkHFPolicy [] (MkCorePolicies (MkPolicy hfRegistry []) (MkPolicy hfRegistry []) (MkPolicy hfRegistry [])) ∅
  end.

#[local] Instance sample_codec : CoreJSON := listed_codec (documents_of sample_raws).

Definition sample_decode (_ : string) : result error (list HFRawRule) := Ok sample_raws.

Definition sample_policy : HFPolicy := policy_of sample_raws.

(** ** Requests *)

Definition push_request (client op : string) (refs : list string) : HFRequest :=
  MkHFRequest client op (MkHFTarget "repo" "model" "acme" "site" refs [] [] [] EmptyString) ∅ false.

Definition append_push : HFRequest := push_request "agent[1]" "git.push.append" ["refs/heads/agent/fix"].
Definition force_push : HFRequest := push_request "agent[1]" "git.push.force" ["refs/heads/topic"].

Lemma sample_law : core_json_law.
Proof. apply listed_codec_law. apply (bool_decide_unpack _). by vm_compute. Qed.

Lemma sample_parsed : HF_Parse sample_decode EmptyString = Ok sample_policy.
Proof.
  assert (is_ok (HF_Parse sample_decode EmptyString) = true) as H by by vm_compute.
  unfold sample_policy, policy_of. change (λ _, Ok sample_raws) with sample_decode.
  by destruct (HF_Parse sample_decode EmptyString).
Qed.

(** An append to a topic branch is allowed, to the main branch denied, and a forced one
    needs an approval; another client has no rule. *)
Example sample_outcomes :
  hfd_Reason (HF_Decide 7 sample_policy append_push [] 5 false) = ReasonText "policy_allowed"
  ∧ hfd_Reason (HF_Decide 7 sample_policy (push_request "agent[1]" "git.push.append" ["refs/heads/agent/fix"; "refs/heads/main"]) [] 5 false)
    = ReasonText "policy_denied"
  ∧ hfd_Reason (HF_Decide 7 sample_policy force_push [] 5 false) = ReasonText "approval_required"
  ∧ hfd_Reason (HF_Decide 7 sample_policy (push_request "agent1" "git.push.append" ["refs/heads/agent/fix"]) [] 5 false)
    = ReasonText "no_matching_rule".
Proof. by vm_compute. Qed.

Lemma HF_decisions_reference_witness :
  core_json_law ∧ valid_catalog ∧ HF_Parse sample_decode EmptyString = Ok sample_policy
  ∧ HF_Decide 7 sample_policy append_push [] 5 false
    = reference_decision 7 (hfp_rules sample_policy) (request_view append_push) append_push [] 5 false CredentialUseManaged.
Proof.
  split; [apply sample_law|]. split; [apply sample_catalog_valid|]. split; [apply sample_parsed|].
  exact (proj1 (HF_decisions_reference sample_decode EmptyString sample_policy 7 append_push [] 5 false
           sample_law sample_catalog_valid sample_parsed)).
Defined.

Lemma discovery_admits_pushes_witness :
  hfd_Effect (HF_Decide 7 sample_policy append_push [] 5 false) = EffectAllow
  ∧ hfd_Effect (DecideReceivePackDiscovery 7 sample_policy (discovery_request append_push) [] 5) = EffectAllow.
Proof.
  split; [by vm_compute|].
  apply (discovery_admits_pushes sample_decode EmptyString sample_policy 7 append_push [] 5
           sample_law sample_catalog_valid sample_parsed); by vm_compute.
Defined.

(** [ExposesOperation] reads the clients of a rule as patterns, and the decisions read them
    as names: the rule for the client [agent[1]] allows its push, yet the operation is not
    exposed to it, and it is exposed to a client [agent1] that no rule names. *)
Theorem exposes_other_clients :
  hfd_Effect (HF_Decide 7 sample_policy append_push [] 5 false) = EffectAllow
  ∧ ExposesOperation sample_policy "agent[1]" "git.push.append" = false
  ∧ ExposesOperation sample_policy "agent1" "git.push.append" = true.
Proof. by vm_compute. Qed.

Definition upload_attrs : gmap string AnyValue := {[ "max_bytes" := AnyNumber "0500" ]}.

Lemma ceilings_are_numeric_witness :
  int64Value (AnyNumber "0500") = Some 500
  ∧ hf_attr_matches coreViewNormal upload_attrs "max_bytes" (MkAttrConstraint [] (Some 1000)) = true.
Proof.
  split; [by vm_compute|].
  rewrite (proj1 (ceilings_are_numeric upload_attrs "max_bytes" (AnyNumber "0500") 1000 500
    ltac:(set_solver) eq_refl ltac:(by vm_compute) ltac:(lia) ltac:(lia))). by vm_compute.
Defined.

(** ** Pushes *)

(** A run whose calls are answered by a function. *)
Fixpoint push_run {X} (answer : ∀ B, PushCall B → B) (n : nat) (s : PushProg X * PushHistory) :
    PushProg X * PushHistory :=
  match n, s with
  | S n, (PushAsk c k, h) => push_run answer n (k (answer _ c), Asked c (answer _ c) :: h)
  | _, _ => s
  end.

Lemma push_run_steps {X} (answer : ∀ B, PushCall B → B) (n : nat) (s : PushProg X * PushHistory) :
  rtc push_step s (push_run answer n s).
Proof.
  revert s. induction n as [|n IH]; intros [[x|B c k] h]; cbn [push_run]; [done..|].
  eapply rtc_l; [apply (push_answer c k (answer _ c) h)|apply IH].
Qed.

Definition zero_sha : string := "0000000000000000000000000000000000000000".
Definition new_sha : string := "1111111111111111111111111111111111111111".

Definition line (payload : string) : string :=
  match pktline_Encode (PktLine := framing) payload with Ok line => line | Err _ => EmptyString end.

(** A push that creates one branch, and upstream's report of it. *)
Definition create_body (ref : string) : string :=
  line (zero_sha +:+ " " +:+ new_sha +:+ " " +:+ ref +:+ String nul "report-status") +:+ FlushPkt (PktLine := framing).

Definition accepted_report (ref : string) : string :=
  line ("unpack ok" +:+ newline) +:+ line ("ok " +:+ ref +:+ newline) +:+ FlushPkt (PktLine := framing).

#[local] Instance plain_attrs : AttrJSON := {|
  attr_marshal value := match value with AnyString text => Ok text | _ => Err json_error end;
  attr_decode text := Ok (AnyString text)
|}.

(** An active grant for creating one branch. *)
Definition branch_grant (ref : string) : Grant :=
  MkGrant "grant-1" "agent[1]" "r1" "git.push.append"
    (MkTarget "hf" {[ "kind" := ["repo"]; "type" := ["model"]; "owner" := ["acme"]; "name" := ["site"]; "refs" := [ref] ]})
    {[ "ref_change" := ["create"] ]} {[ MetadataMode := ModeWindowText ]} "a release" StatusActive 2 1 50 100 60 60 50 2
    "operator" EmptyString no_code EmptyString 0 0 0 0 0 0 false 0 1 1 false no_status.

Definition reserved_use : GrantUse := MkGrantUse "grant-1" "use-1" "git.push.append" UseReserved 1 5 5 0.

(** A mirror without the branch, a store with these grants, and an upstream that accepts. *)
Definition push_answers (ref : string) (grants : list Grant) (B : Type) (c : PushCall B) : B :=
  match c with
  | MirrorLock | MirrorUnlock => tt
  | MirrorEnsure => None
  | MirrorCurrentRef _ => Ok None
  | MirrorReadObjects => λ _, (EmptyString, EmptyString, false, None)
  | MirrorStoreObject _ _ => Ok EmptyString
  | MirrorIsAncestor _ _ => Ok true
  | MirrorAdvanceRef _ _ | MirrorDeleteRef _ => None
  | ContextErr => λ _, None
  | ReadBody => Ok (create_body ref, false)
  | UtcNow => 5
  | StoreListForClient _ => Ok grants
  | StoreGet _ | StoreRequest _ | StoreWaitForDecision _ => Ok (branch_grant ref)
  | StoreReserveUse _ _ _ => Ok (branch_grant ref, reserved_use, true)
  | StoreSettleUse _ _ _ => None
  | ValidateExecution _ => None
  | NewForwardRequest => None
  | ForwardPush _ => Ok (200, accepted_report ref)
  | WritePlain _ _ | WriteReport _ | WriteUpstream _ _ | RecordAudit _ => tt
  end.

#[local] Existing Instances framing sample_git.

Definition site : Route := MkRoute "model" "acme" "site".

Definition handler_under (policy : HFPolicy) : PushProg unit :=
  handleReceivePack id (λ _, "digest"%string) id (λ _ _ _, Ok EmptyString) (λ _, EmptyString) 7
    (MkHFServer policy true) "agent[1]" site (targetName site).

Definition sample_handler : PushProg unit := handler_under sample_policy.

(** The next call of a program, where it forwards or settles. *)
Definition next_forward {X} (p : PushProg X) : option string :=
  match p with PushAsk c _ => match c with ForwardPush body => Some body | _ => None end | _ => None end.
Definition next_settlement {X} (p : PushProg X) : option (UseState * string * string) :=
  match p with
  | PushAsk c _ => match c with StoreSettleUse target g r => Some (target, g, r) | _ => None end
  | _ => None
  end.
Definition is_done {X} (p : PushProg X) : bool := match p with PushDone _ => true | _ => false end.

Lemma next_forward_ask {X} (p : PushProg X) (body : string) :
  next_forward p = Some body → ∃ k, p = PushAsk (ForwardPush body) k.
Proof. destruct p as [|B [] k]; intros [= ->]. by exists k. Qed.

Lemma next_settlement_ask {X} (p : PushProg X) (target : UseState) (g r : string) :
  next_settlement p = Some (target, g, r) → ∃ k, p = PushAsk (StoreSettleUse target g r) k.
Proof. destruct p as [|B [] k]; intros [= -> -> ->]. by exists k. Qed.

Lemma is_done_done {X} (p : PushProg X) : is_done p = true → ∃ x, p = PushDone x.
Proof. destruct p as [x|]; [by exists x|done]. Qed.

(** A push to a branch that a rule allows goes through. *)
Example agent_push_forwarded :
  is_done (push_run (push_answers "refs/heads/agent/fix" []) 16 (sample_handler, [])).1 = true.
Proof. by vm_compute. Qed.

(** The plain responses of a run. *)
Definition plain_responses (h : PushHistory) : list (Z * string) :=
  omap (M:=list) (λ '(@Asked B c a), match c with WritePlain status message => Some (status, message) | _ => None end) h.

(** Under a file whose rules only ask for approvals, a push that one of them names is
    answered 403 before its body is read: nothing is asked of an operator. *)
Example request_only_push_refused :
  let s := push_run (push_answers "refs/heads/release/1" []) 22 (handler_under (policy_of (drop 2 sample_raws)), []) in
  is_done s.1 = true ∧ plain_responses s.2 = [(403, ("hf-broker: approval required" +:+ newline)%string)].
Proof. by vm_compute. Qed.

(** A push to a branch that a grant allows, after some answers. *)
Definition release_run (n : nat) : PushProg unit * PushHistory :=
  push_run (push_answers "refs/heads/release/1" [branch_grant "refs/heads/release/1"]) n (sample_handler, []).

Lemma release_run_reached (n : nat) : rtc push_step (sample_handler, []) ((release_run n).1, (release_run n).2).
Proof. rewrite <- surjective_pairing. apply push_run_steps. Qed.

Lemma pushes_forwarded_authorized_witness :
  next_forward (release_run 15).1 = Some (create_body "refs/heads/release/1")
  ∧ may_forward (λ _, "digest"%string) id 7 (MkHFServer sample_policy true) "agent[1]" site
      (create_body "refs/heads/release/1") (release_run 15).2.
Proof.
  assert (next_forward (release_run 15).1 = Some (create_body "refs/heads/release/1")) as H by by vm_compute.
  split; [exact H|]. apply next_forward_ask in H as [k Hk]. pose proof (release_run_reached 15) as Hr. rewrite Hk in Hr.
  exact (pushes_forwarded_authorized _ _ _ _ _ _ _ _ _ _ k _ Hr).
Defined.

Lemma push_uses_settled_rightly_witness :
  next_settlement (release_run 18).1 = Some (UseCommitted, "grant-1"%string, "use-1"%string)
  ∧ (∃ grant use, acquired (release_run 18).2 grant use ∧ grant_ID grant = "grant-1"%string)
  ∧ ∃ body req status report, Asked (ForwardPush body) (Ok (status, report)) ∈ (release_run 18).2
      ∧ ParseReceivePack body = Ok req ∧ upstream_accepts req status report.
Proof.
  assert (next_settlement (release_run 18).1 = Some (UseCommitted, "grant-1"%string, "use-1"%string)) as H by by vm_compute.
  split; [exact H|]. apply next_settlement_ask in H as [k Hk]. pose proof (release_run_reached 18) as Hr. rewrite Hk in Hr.
  destruct (push_uses_settled_rightly (L := framing_laws) _ _ _ _ _ _ _ _ _ _ _ _ k _ Hr)
    as ((grant & use & Ha & Hg & _) & Hreason).
  split; [exists grant, use; split; [exact Ha|symmetry; exact Hg]|exact Hreason].
Defined.

Lemma push_uses_all_settled_witness :
  is_done (release_run 22).1 = true
  ∧ acquired (release_run 22).2 (branch_grant "refs/heads/release/1") reserved_use
  ∧ ∃ target, protocol_reason (release_run 22).2 target
      ∧ settlement_outcome (release_run 22).2 target (branch_grant "refs/heads/release/1") reserved_use.
Proof.
  assert (is_done (release_run 22).1 = true) as H by by vm_compute. split; [exact H|].
  assert (reservation_of <$> nth_error (release_run 22).2 8
          = Some (Some (branch_grant "refs/heads/release/1", reserved_use, true))) as Ha by by vm_compute.
  pose proof (reservation_acquired _ 8 _ _ Ha eq_refl) as Hacq. split; [exact Hacq|].
  apply is_done_done in H as [u Hu]. pose proof (release_run_reached 22) as Hr. rewrite Hu in Hr.
  destruct (push_uses_all_settled (L := framing_laws) id (λ _, "digest"%string) id (λ _ _ _, Ok EmptyString)
    (λ _, EmptyString) 7 (MkHFServer sample_policy true) "agent[1]" site u (release_run 22).2 Hr)
    as [[_ Hnone]|(target & Hreason & _ & Hall)].
  - destruct (Hnone _ _ Hacq).
  - exists target. split; [exact Hreason|]. exact (Hall _ _ Hacq).
Defined.

Lemma push_lock_discipline_witness :
  next_forward (release_run 15).1 = Some (create_body "refs/heads/release/1") ∧ held (release_run 15).2 = true.
Proof.
  assert (next_forward (release_run 15).1 = Some (create_body "refs/heads/release/1")) as H by by vm_compute.
  split; [exact H|]. apply next_forward_ask in H as [k Hk]. pose proof (release_run_reached 15) as Hr. rewrite Hk in Hr.
  exact (push_lock_discipline _ _ _ _ _ _ _ _ _ _ _ Hr).
Defined.
