(* ===== verification/StrictJSON.v ===== *)
(** * Strict JSON: [internal/strictjson]

    The structural check the program makes before it decodes any document, and
    the closed decoding built on it.

    The tokens of [json.Decoder] are encoding/json's, and the class [JSONTokens]
    answers them: a list and how it ends.  [Decoder.More] and [Decoder.Token] are
    functions of what is left of it. *)

From S2P Require Export Errors GoStrings.
From Stdlib Require Import Ascii.

Local Open Scope Z_scope.

(** ** Tokens *)

Inductive Token : Type :=
| TokenDelim (d : ascii)
| TokenString (s : string)
| TokenOther (text : string).
    (** A number, a boolean or null. *)

#[export] Instance Token_eq_dec : EqDecision Token.
Proof. solve_decision. Defined.

(** [io.EOF], or a syntax error, where [More] sees another element when the next
    byte does not close anything. *)
Inductive StreamEnd : Type :=
| EndEOF
| EndSyntax (more : bool).

Class JSONTokens : Type := {
  json_tokens : string → list Token * StreamEnd
}.

Abbreviation Tokens := (list Token * StreamEnd)%type (only parsing).

(** [Decoder.Token] *)
Definition next_token (d : Tokens) : result error (Token * Tokens) :=
  match d with
  | (t :: rest, e) => Ok (t, (rest, e))
  | ([], EndEOF) => Err (ErrorNew "EOF")
  | ([], EndSyntax _) => Err (ErrorExternal "encoding/json")
  end.

Definition closes (t : Token) : bool :=
  match t with TokenDelim c => Ascii.eqb c "]" || Ascii.eqb c "}" | _ => false end.

(** [Decoder.More] *)
Definition more_tokens (d : Tokens) : bool :=
  match d with
  | (t :: _, _) => negb (closes t)
  | ([], EndEOF) => false
  | ([], EndSyntax more) => more
  end.

(** ** The check *)

(** [consumeValue], [consumeObject] and [consumeArray], with fuel for every call and
    every round; the last two start inside the brackets. *)
Fixpoint consumeValue (fuel : nat) (path : string) (d : Tokens) : result error Tokens :=
  match fuel with
  | O => Err (ErrorNew "out of fuel")
  | S fuel' =>
      '(token, d) ← next_token d;
      match token with
      | TokenDelim c =>
          if Ascii.eqb c "{" then consumeObject fuel' path [] d
          else if Ascii.eqb c "[" then consumeArray fuel' path 0 d
          else Err (errorf "unexpected JSON delimiter %q" [String c EmptyString])
      | _ => Ok d
      end
  end
with consumeObject (fuel : nat) (path : string) (seen : list string) (d : Tokens) : result error Tokens :=
  match fuel with
  | O => Err (ErrorNew "out of fuel")
  | S fuel' =>
      if more_tokens d then
        '(token, d) ← next_token d;
        match token with
        | TokenString key =>
            if bool_decide (key ∈ seen) then Err (errorf "duplicate JSON key %q at %s" [key; path])
            else d ← consumeValue fuel' (path +:+ "." +:+ key) d;
                 consumeObject fuel' path (key :: seen) d
        | _ => Err (ErrorNew "JSON object key is not a string")
        end
      else '(_, d) ← next_token d; Ok d
  end
with consumeArray (fuel : nat) (path : string) (index : Z) (d : Tokens) : result error Tokens :=
  match fuel with
  | O => Err (ErrorNew "out of fuel")
  | S fuel' =>
      if more_tokens d then
        d ← consumeValue fuel' (path +:+ "[" +:+ FormatInt index +:+ "]") d;
        consumeArray fuel' path (index + 1) d
      else '(_, d) ← next_token d; Ok d
  end.

(** Every call takes a token or ends, so twice the tokens and two are enough. *)
Definition enough_fuel (tokens : list Token) : nat := 2 * length tokens + 2.

(** [Decoder.Token] guarantees that the delimiters it returns are properly nested and matched. *)
Fixpoint nested (open : list ascii) (tokens : list Token) : bool :=
  match tokens with
  | [] => true
  | TokenDelim c :: rest =>
      if Ascii.eqb c "{" || Ascii.eqb c "[" then nested (c :: open) rest
      else match open with
           | "{"%char :: open => Ascii.eqb c "}" && nested open rest
           | "["%char :: open => Ascii.eqb c "]" && nested open rest
           | _ => false
           end
  | _ :: rest => nested open rest
  end.

Class JSONTokensLaws (JT : JSONTokens) : Prop :=
  json_nested (data : string) : nested [] (json_tokens data).1 = true.

Section reject.
Context {JT : JSONTokens}.

Definition RejectDuplicateKeys (data : string) : result error unit :=
  d ← consumeValue (enough_fuel (json_tokens data).1) "$" (json_tokens data);
  match next_token d with
  | Ok _ => Err (ErrorNew "trailing JSON content")
  | Err e => refuse (negb (errors_Is e (ErrorNew "EOF"))) e
  end.

(** [Decode], over what the decoder makes of the first value of a text, whether unknown fields are refused, and of
    what follows it. *)
Definition strict_Decode {A} (decode_value : bool → string → result error A) (decode_next : bool → string → result error unit)
    (data : string) (closed : bool) : result error A :=
  RejectDuplicateKeys data ;;;
  value ← decode_value closed data;
  match decode_next closed data with
  | Ok _ => Err (ErrorNew "trailing JSON content")
  | Err e => refuse (negb (errors_Is e (ErrorNew "EOF"))) e ;;; Ok value
  end.
End reject.

(** ** Values *)

(** A JSON value; the entries of an object are in the order of the text. *)
Inductive value_tree : Type :=
| VLeaf (t : Token)
| VObject (entries : list (string * value_tree))
| VArray (items : list value_tree).

Fixpoint tree_tokens (v : value_tree) : list Token :=
  match v with
  | VLeaf t => [t]
  | VObject entries =>
      TokenDelim "{" :: flat_map (λ '(k, w), TokenString k :: tree_tokens w) entries ++ [TokenDelim "}"]
  | VArray items => TokenDelim "[" :: flat_map tree_tokens items ++ [TokenDelim "]"]
  end.

(** No object has two entries with one key, and leaves are not brackets. *)
Inductive unique_keys : value_tree → Prop :=
| unique_leaf (t : Token) : (∀ c, t ≠ TokenDelim c) → unique_keys (VLeaf t)
| unique_object (entries : list (string * value_tree)) :
    NoDup entries.*1 → Forall unique_keys entries.*2 → unique_keys (VObject entries)
| unique_array (items : list value_tree) : Forall unique_keys items → unique_keys (VArray items).

(** ** The check accepts the values without duplicate keys *)

Section value_tree_induction.
Variable P : value_tree → Prop.
Hypothesis Hleaf : ∀ t, P (VLeaf t).
Hypothesis Hobject : ∀ entries, Forall P entries.*2 → P (VObject entries).
Hypothesis Harray : ∀ items, Forall P items → P (VArray items).

Fixpoint value_tree_induction (v : value_tree) : P v :=
  match v with
  | VLeaf t => Hleaf t
  | VObject entries =>
      Hobject entries
        ((fix go (l : list (string * value_tree)) : Forall P l.*2 :=
            match l with
            | [] => Forall_nil_2 P
            | (k, w) :: rest => Forall_cons_2 P w rest.*2 (value_tree_induction w) (go rest)
            end) entries)
  | VArray items =>
      Harray items
        ((fix go (l : list value_tree) : Forall P l :=
            match l with
            | [] => Forall_nil_2 P
            | w :: rest => Forall_cons_2 P w rest (value_tree_induction w) (go rest)
            end) items)
  end.
End value_tree_induction.

Lemma tree_tokens_head (v : value_tree) :
  unique_keys v → ∃ t rest, tree_tokens v = t :: rest ∧ closes t = false.
Proof.
  intros [t Ht|entries _ _|items _]; eexists _, _; (split; [reflexivity|]); [|done|done].
  destruct t as [d|s|s]; [by destruct (Ht d)|done|done].
Qed.

Lemma more_tokens_tree (v : value_tree) (rest : list Token) (e : StreamEnd) :
  unique_keys v → more_tokens (tree_tokens v ++ rest, e) = true.
Proof. intros Hv. destruct (tree_tokens_head v Hv) as (t & u & -> & Ht). cbn. by rewrite Ht. Qed.

Abbreviation entry_tokens := (flat_map (λ '(k, w), TokenString k :: tree_tokens w)).

(** The object loop accepts entries with new keys, when its values are accepted. *)
Lemma consumeObject_accepts (entries : list (string * value_tree)) (rest : list Token) (e : StreamEnd) :
  Forall (λ v, ∀ fuel path rest, (2 * length (tree_tokens v) <= fuel)%nat →
            consumeValue fuel path (tree_tokens v ++ rest, e) = Ok (rest, e)) entries.*2 →
  ∀ fuel path seen,
    (2 * length (entry_tokens entries) + 1 <= fuel)%nat →
    NoDup entries.*1 → (∀ k, k ∈ entries.*1 → k ∉ seen) →
    consumeObject fuel path seen (entry_tokens entries ++ TokenDelim "}" :: rest, e) = Ok (rest, e).
Proof.
  induction entries as [|[k v] entries IH]; intros Hv [|fuel] path seen Hf Hn Hs; try (cbn in Hf; lia); [done|].
  csimpl in *. apply Forall_cons in Hv as [Hv Hvs]. apply NoDup_cons in Hn as [Hk Hn].
  change (flat_map _ (_ :: entries)) with (TokenString k :: tree_tokens v ++ entry_tokens entries) in *.
  cbn [flat_map app consumeObject more_tokens closes negb next_token mbind result_bind].
  rewrite length_app in Hf.
  rewrite bool_decide_eq_false_2 by (apply Hs; by left). rewrite <- app_assoc, Hv by lia. cbn.
  apply IH; [done|lia|done|]. intros j Hj. rewrite elem_of_cons. intros [->|Hin]; [done|].
  revert Hin. apply Hs. by right.
Qed.

Lemma consumeArray_accepts (items : list value_tree) (rest : list Token) (e : StreamEnd) :
  Forall unique_keys items →
  Forall (λ v, ∀ fuel path rest, (2 * length (tree_tokens v) <= fuel)%nat →
            consumeValue fuel path (tree_tokens v ++ rest, e) = Ok (rest, e)) items →
  ∀ fuel path index,
    (2 * length (flat_map tree_tokens items) + 1 <= fuel)%nat →
    consumeArray fuel path index (flat_map tree_tokens items ++ TokenDelim "]" :: rest, e) = Ok (rest, e).
Proof.
  induction items as [|v items IH]; intros Hu Hv [|fuel] path index Hf; try (cbn in Hf; lia); [done|].
  apply Forall_cons in Hv as [Hv Hvs]. apply Forall_cons in Hu as [Hu Hus].
  destruct (tree_tokens_head v Hu) as (t & u & Ht & _).
  cbn [flat_map consumeArray] in *. rewrite length_app in Hf.
  assert (0 < length (tree_tokens v))%nat by (rewrite Ht; cbn; lia).
  rewrite <- app_assoc, more_tokens_tree, Hv by (done || lia). cbn. apply IH; [done|done|lia].
Qed.

Lemma consumeValue_accepts (v : value_tree) (e : StreamEnd) :
  unique_keys v → ∀ fuel path rest, (2 * length (tree_tokens v) <= fuel)%nat →
  consumeValue fuel path (tree_tokens v ++ rest, e) = Ok (rest, e).
Proof.
  revert v. apply (value_tree_induction (λ v, unique_keys v → ∀ fuel path rest,
    (2 * length (tree_tokens v) <= fuel)%nat → consumeValue fuel path (tree_tokens v ++ rest, e) = Ok (rest, e))).
  - intros t Hu [|fuel] path rest Hf; [cbn in Hf; lia|]. inversion Hu as [? Ht| |]; subst.
    destruct t as [d|s|s]; [by destruct (Ht d)|done|done].
  - intros entries IH Hu [|fuel] path rest Hf; [cbn in Hf; lia|]. inversion Hu as [|? Hn Hv|]; subst.
    cbn [tree_tokens length app consumeValue next_token mbind result_bind] in *. rewrite length_app in Hf. cbn in Hf.
    cbn. rewrite <- app_assoc. apply consumeObject_accepts; [|lia|done|by intros k _ Hk%not_elem_of_nil].
    apply Forall_forall. intros v Hin. rewrite Forall_forall in IH, Hv. by apply IH, Hv.
  - intros items IH Hu [|fuel] path rest Hf; [cbn in Hf; lia|]. inversion Hu as [| |? Hv]; subst.
    cbn [tree_tokens length app consumeValue next_token mbind result_bind] in *. rewrite length_app in Hf. cbn in Hf.
    cbn. rewrite <- app_assoc. apply consumeArray_accepts; [done| |lia].
    apply Forall_forall. intros v Hin. rewrite Forall_forall in IH, Hv. by apply IH, Hv.
Qed.

(** What each call has read when it succeeds, in a properly nested stream. *)
Lemma consume_reads (fuel : nat) :
  (∀ path open l e d, nested open l = true → consumeValue fuel path (l, e) = Ok d →
     ∃ v, unique_keys v ∧ l = tree_tokens v ++ d.1 ∧ d.2 = e ∧ nested open d.1 = true)
  ∧ (∀ path seen open l e d, nested ("{"%char :: open) l = true → consumeObject fuel path seen (l, e) = Ok d →
       ∃ entries, NoDup entries.*1 ∧ (∀ k, k ∈ entries.*1 → k ∉ seen) ∧ Forall unique_keys entries.*2
         ∧ l = entry_tokens entries ++ TokenDelim "}" :: d.1 ∧ d.2 = e ∧ nested open d.1 = true)
  ∧ (∀ path index open l e d, nested ("["%char :: open) l = true → consumeArray fuel path index (l, e) = Ok d →
       ∃ items, Forall unique_keys items
         ∧ l = flat_map tree_tokens items ++ TokenDelim "]" :: d.1 ∧ d.2 = e ∧ nested open d.1 = true).
Proof.
  induction fuel as [|fuel (IHv & IHo & IHa)]; [done|]. split; [|split].
  - intros path open [|t l] e d Hn; cbn [consumeValue next_token]; [by destruct e|].
    cbn [mbind result_bind]. destruct t as [c|s|s].
    + cbn [nested] in Hn. destruct (Ascii.eqb_spec c "{") as [->|Hb].
      { intros H. destruct (IHo _ _ _ _ _ _ Hn H) as (entries & Hd & _ & Hu & -> & He & Hr).
        exists (VObject entries). split; [by constructor|]. cbn. by rewrite <- app_assoc. }
      destruct (Ascii.eqb_spec c "[") as [->|Hb']; [|done].
      intros H. destruct (IHa _ _ _ _ _ _ Hn H) as (items & Hu & -> & He & Hr).
      exists (VArray items). split; [by constructor|]. cbn. by rewrite <- app_assoc.
    + intros [= <-]. exists (VLeaf (TokenString s)). by split; [constructor|].
    + intros [= <-]. exists (VLeaf (TokenOther s)). by split; [constructor|].
  - intros path seen open l e d Hn. cbn [consumeObject]. destruct l as [|t l].
    { destruct e as [|[]]; done. }
    cbn [more_tokens next_token mbind result_bind]. destruct (closes t) eqn:Et; cbn [negb].
    { intros [= <-]. destruct t as [c|s|s]; [|done|done]. cbn [closes] in Et. exists []. cbn in *.
      destruct (Ascii.eqb_spec c "{") as [->|_]; [done|]. destruct (Ascii.eqb_spec c "[") as [->|_]; [done|].
      cbn in Hn. apply andb_true_iff in Hn as [->%Ascii.eqb_eq Hn].
      split; [constructor|]. by split; [intros k Hk%not_elem_of_nil|]. }
    destruct t as [c|k|s]; [done| |done]. case_bool_decide as Hk; [done|]. cbn [nested] in Hn.
    destruct (consumeValue _ _ _) as [[l1 e1]|] eqn:E1; [|done]. cbn [mbind result_bind]. intros E2.
    destruct (IHv _ _ _ _ _ Hn E1) as (v & Hv & -> & He1 & Hn1). cbn in He1, Hn1. subst e1.
    destruct (IHo _ _ _ _ _ _ Hn1 E2) as (entries & Hd & Hs & Hu & E3 & He & Hr). cbn [fst] in E3. subst l1.
    exists ((k, v) :: entries). cbn. split.
    { constructor; [|done]. intros Hin. apply (Hs k Hin). by left. }
    split; [|split; [by constructor|by rewrite <- app_assoc]].
    intros j [->|Hj]%elem_of_cons; [done|]. intros Hin. apply (Hs j Hj). by right.
  - intros path index open l e d Hn. cbn [consumeArray]. destruct (more_tokens (l, e)) eqn:Em.
    + destruct (consumeValue _ _ _) as [[l1 e1]|] eqn:E1; [|done]. cbn [mbind result_bind]. intros E2.
      destruct (IHv _ _ _ _ _ Hn E1) as (v & Hv & -> & He1 & Hn1). cbn in He1, Hn1. subst e1.
      destruct (IHa _ _ _ _ _ _ Hn1 E2) as (items & Hu & E3 & He & Hr). cbn [fst] in E3. subst l1.
      exists (v :: items). cbn. split; [by constructor|]. by rewrite <- app_assoc.
    + destruct l as [|t l]; [destruct e as [|[]]; done|]. cbn [next_token mbind result_bind]. intros [= <-].
      cbn in Em. apply negb_false_iff in Em. destruct t as [c|s|s]; [|done|done]. exists []. cbn in *.
      destruct (Ascii.eqb_spec c "{") as [->|_]; [done|]. destruct (Ascii.eqb_spec c "[") as [->|_]; [done|].
      cbn in Hn. apply andb_true_iff in Hn as [->%Ascii.eqb_eq Hn]. done.
Qed.

(** C11: [strictjson.RejectDuplicateKeys] accepts exactly the texts whose tokens are those of one
    JSON value, with nothing after it, in which no object has two entries with one key.  The fuel
    of the model is enough for every text. *)
Theorem RejectDuplicateKeys_exact {JT : JSONTokens} `{!JSONTokensLaws JT} (data : string) :
  RejectDuplicateKeys data = Ok tt ↔ ∃ v, json_tokens data = (tree_tokens v, EndEOF) ∧ unique_keys v.
Proof.
  unfold RejectDuplicateKeys. split.
  - intros H. destruct (json_tokens data) as [l e] eqn:E. pose proof (json_nested data) as Hn. rewrite E in Hn.
    cbn [fst] in *. destruct (consumeValue _ _ _) as [[rest e']|] eqn:Ec; [|done]. cbn [mbind result_bind] in H.
    destruct (proj1 (consume_reads _) _ _ _ _ _ Hn Ec) as (v & Hv & El & He & _). exists v.
    cbn [fst snd] in *. subst e'. destruct rest as [|t rest]; [|done]. rewrite El, app_nil_r. split; [|done].
    cbn in H. by destruct e.
  - intros (v & -> & Hv). cbn [fst]. rewrite <- (app_nil_r (tree_tokens v)) at 2.
    rewrite consumeValue_accepts by (done || unfold enough_fuel; lia). done.
Qed.
