(* ===== verification/SudoCatalog.v ===== *)
(** * The sudo catalog: [brokers/sudo/internal/catalog]

    The root-owned allowlist of commands ([catalog.go]): the normalization of a
    catalog file, the resolution of a command with the arguments of a request, and
    the check of a resolved command against the current catalog; with the
    functions of [path/filepath] they use.

    The file system is the class [Host], which answers [Lstat], [Stat],
    [EvalSymlinks] and the other questions of the sudo broker as they stand while
    one function runs.  What [encoding/json] reads and writes is the class
    [CatalogJSON]; [sha256_hex] is the hexadecimal SHA-256. *)

From S2P Require Export StrictJSON GoStringFacts.
From Stdlib Require Import Ascii.

Local Open Scope Z_scope.

(** ** [path/filepath] on Unix *)

Definition Separator : ascii := "/"%char.

Definition IsAbs (path : string) : bool := has_prefix "/" path.

(** The elements that [Clean] keeps, the last one first: [out] holds those before. *)
Fixpoint clean_elements (rooted : bool) (out : list string) (elements : list string) : list string :=
  match elements with
  | [] => out
  | e :: rest =>
      if is_empty e || String.eqb e "." then clean_elements rooted out rest
      else if String.eqb e ".." then
        match out with
        | top :: below =>
            if String.eqb top ".." then clean_elements rooted (e :: out) rest
            else clean_elements rooted below rest
        | [] => if rooted then clean_elements rooted [] rest else clean_elements rooted [e] rest
        end
      else clean_elements rooted (e :: out) rest
  end.

(** The elements of [Clean path]. *)
Definition path_elements (path : string) : list string :=
  rev (clean_elements (IsAbs path) [] (split_byte Separator path)).

Definition Clean (path : string) : string :=
  let body := join "/" (path_elements path) in
  if IsAbs path then "/" +:+ body else if is_empty body then "." else body.

(** The text up to the last separator, and the text after it. *)
Fixpoint until_last_separator (path : string) : string :=
  match path with
  | EmptyString => EmptyString
  | String c t =>
      if contains "/" t then String c (until_last_separator t)
      else if Ascii.eqb c Separator then "/" else EmptyString
  end.

Fixpoint after_last_separator (path : string) : string :=
  match path with
  | EmptyString => EmptyString
  | String c t => if contains "/" path then after_last_separator t else path
  end.

Fixpoint trim_separators (path : string) : string :=
  match path with
  | EmptyString => EmptyString
  | String c t =>
      let t := trim_separators t in
      if is_empty t && Ascii.eqb c Separator then EmptyString else String c t
  end.

Definition Dir (path : string) : string := Clean (until_last_separator path).

Definition Base (path : string) : string :=
  if is_empty path then "."
  else
    let last := after_last_separator (trim_separators path) in
    if is_empty last then "/" else last.

(** [filepath.Join]: leading empty elements are left out. *)
Fixpoint filepath_Join (elements : list string) : string :=
  match elements with
  | [] => EmptyString
  | e :: rest => if is_empty e then filepath_Join rest else Clean (join "/" elements)
  end.

(** What is left of two lists after their common prefix. *)
Fixpoint drop_common (l l' : list string) : list string * list string :=
  match l, l' with
  | a :: t, b :: t' => if String.eqb a b then drop_common t t' else (l, l')
  | _, _ => (l, l')
  end.

(** [filepath.Rel] *)
Definition Rel (basepath targpath : string) : result error string :=
  let base := Clean basepath in
  let targ := Clean targpath in
  if String.eqb targ base then Ok "."
  else if negb (Bool.eqb (IsAbs base) (IsAbs targ)) then
    Err (errorf "Rel: can't make %s relative to %s" [targpath; basepath])
  else
    let '(up, down) :=
      drop_common (path_elements basepath) (if String.eqb targ "." then ["."] else path_elements targpath) in
    if bool_decide (head up = Some "..") && bool_decide (down ≠ [])
    then Err (errorf "Rel: can't make %s relative to %s" [targpath; basepath])
    else Ok (join "/" (map (λ _, "..") up ++ down)).

(** ** The host *)

(** [os.FileMode]: the type bits, and the permission bits of its low nine bits. *)
Definition ModeDir : Z := Z.shiftl 1 31.
Definition ModeSymlink : Z := Z.shiftl 1 27.
Definition ModeSocket : Z := Z.shiftl 1 24.
(** Directory, link, named pipe, socket, device, character device and irregular. *)
Definition ModeType : Z :=
  fold_right Z.lor 0 [ModeDir; ModeSymlink; Z.shiftl 1 25; ModeSocket; Z.shiftl 1 26; Z.shiftl 1 21; Z.shiftl 1 19].
Definition ModePerm : Z := 511.

(** [os.FileInfo]: its mode, and the owner in [Sys], where that is a [Stat_t]. *)
Record FileInfo : Type := MkFileInfo { fi_Mode : Z; fi_Uid : option Z }.

Definition IsDir (info : FileInfo) : bool := negb (Z.land (fi_Mode info) ModeDir =? 0).
Definition IsRegular (info : FileInfo) : bool := Z.land (fi_Mode info) ModeType =? 0.
Definition IsSymlink (info : FileInfo) : bool := negb (Z.land (fi_Mode info) ModeSymlink =? 0).
Definition Perm (info : FileInfo) : Z := Z.land (fi_Mode info) ModePerm.

(** [user.User], with [GroupIds]. *)
Record Account : Type := MkAccount {
  acc_Uid : string;
  acc_Gid : string;
  acc_Username : string;
  acc_GroupIds : result error (list string)
}.

(** [Lgetxattr] answers a size, or [None] when there is no such attribute or they are
    not supported ([ENODATA], [ENOTSUP]). *)
Class Host : Type := {
  Lstat : string → result error FileInfo;
  Stat : string → result error FileInfo;
  EvalSymlinks : string → result error string;
  Lgetxattr : string → string → result error (option Z);
  user_Lookup : string → result error Account
}.

(** [EvalSymlinks] of an absolute path answers an absolute path. *)
Class HostLaws (H : Host) : Prop :=
  EvalSymlinks_abs (path resolved : string) :
    IsAbs path = true → EvalSymlinks path = Ok resolved → IsAbs resolved = true.

(** ** Data *)

(** [Argument]; the bounds are [*int64], and a nil slice is the empty list. *)
Record Argument : Type := MkArgument {
  arg_Literal : option string;
  arg_Slot : string;
  arg_Type : string;
  arg_Minimum : option Z;
  arg_Maximum : option Z;
  arg_Values : list string;
  arg_Roots : list string;
  arg_MustExist : bool;
  arg_FileType : string
}.

Record Command : Type := MkCommand {
  sc_ID : string;
  sc_Executable : string;
  sc_Arguments : list Argument;
  sc_TargetUsers : list string;
  sc_WorkingDirectory : string;
  sc_TimeoutSeconds : Z;
  sc_MaxOutputBytes : Z;
  sc_Environment : gmap string string;
  sc_Description : string;
  sc_Risk : string
}.

Record rawCommand : Type := MkRawCommand {
  raw_ID : string;
  raw_Executable : string;
  raw_Arguments : option (list Argument);
  raw_TargetUsers : option (list string);
  raw_WorkingDirectory : string;
  raw_TimeoutSeconds : Z;
  raw_MaxOutputBytes : option Z;
  raw_Environment : gmap string string;
  raw_Description : string;
  raw_Risk : string
}.

Record document : Type := MkDocument { doc_Version : Z; doc_Commands : option (list rawCommand) }.

(** [Snapshot]: a pointer may be nil, here [None] of an option. *)
Record Snapshot : Type := MkSnapshot { ss_commands : gmap string Command; ss_digest : string }.

Record Resolved : Type := MkResolved {
  sr_CommandID : string;
  sr_TargetUser : string;
  sr_Executable : string;
  sr_Arguments : list string;
  sr_WorkingDirectory : string;
  sr_Environment : gmap string string;
  sr_TimeoutSeconds : Z;
  sr_MaxOutputBytes : Z;
  sr_SlotValues : gmap string string;
  sr_CatalogDigest : string
}.

#[export] Instance Argument_eq_dec : EqDecision Argument.
Proof. solve_decision. Defined.
#[export] Instance Command_eq_dec : EqDecision Command.
Proof. solve_decision. Defined.

(** [document_Decode] reads the first value of a text, rejecting unknown fields, and
    tells whether nothing follows it. *)
Class CatalogJSON : Type := {
  document_Decode : string → result error (document * bool);
  commands_Marshal : list Command → result error string;
  string_Unmarshal : string → result error string;
  string_Marshal : string → string
}.

Definition catalog_Version : Z := 1.
Definition maxCommands : Z := 1024.
Definition maxArguments : Z := 64.
Definition maxTargetUsers : Z := 16.
Definition maxTimeoutSeconds : Z := 3600.
Definition maxOutputBytes : Z := Z.shiftl 1 20.
Definition maxStringBytes : Z := 4096.
Definition defaultCommandRisk : string := "high".

(** ** Patterns *)

Definition upper_letter (c : ascii) : bool := let b := byte_of c in (65 <=? b) && (b <=? 90).
Definition lower_letter (c : ascii) : bool := let b := byte_of c in (97 <=? b) && (b <=? 122).
Definition decimal_digit (c : ascii) : bool := let b := byte_of c in (48 <=? b) && (b <=? 57).

(** [^headtail{0,most}$] *)
Definition matches_class (head tail : ascii → bool) (most : nat) (s : string) : bool :=
  match list_of_string s with
  | [] => false
  | c :: rest => head c && (length rest <=? most)%nat && forallb tail rest
  end.

(** [^[a-z0-9][a-z0-9-]{0,63}$] *)
Definition idPattern : string → bool :=
  matches_class (λ c, lower_letter c || decimal_digit c)
    (λ c, lower_letter c || decimal_digit c || Ascii.eqb c "-") 63.
(** [^[a-z][a-z0-9_]{0,63}$] *)
Definition slotPattern : string → bool :=
  matches_class lower_letter (λ c, lower_letter c || decimal_digit c || Ascii.eqb c "_") 63.
(** [^[A-Za-z_][A-Za-z0-9_.-]{0,63}$] *)
Definition userPattern : string → bool :=
  matches_class (λ c, upper_letter c || lower_letter c || Ascii.eqb c "_")
    (λ c, upper_letter c || lower_letter c || decimal_digit c || bool_decide (c ∈ ["_"; "."; "-"]%char)) 63.
(** [^[A-Z_][A-Z0-9_]{0,127}$] *)
Definition envPattern : string → bool :=
  matches_class (λ c, upper_letter c || Ascii.eqb c "_")
    (λ c, upper_letter c || decimal_digit c || Ascii.eqb c "_") 127.

(** ** Sorting *)

Fixpoint insert_by {A} (before : A → A → bool) (a : A) (l : list A) : list A :=
  match l with
  | [] => [a]
  | b :: rest => if before b a then b :: insert_by before a rest else a :: l
  end.

(** A sort by a strict order; the elements the program sorts are distinct. *)
Definition sort_by {A} (before : A → A → bool) (l : list A) : list A := foldr (insert_by before) [] l.

Definition sort_Strings : list string → list string := sort_by string_ltb.

(** A loop that refuses an element for which [bad] holds given the elements before it. *)
Fixpoint refuse_each {A E} (bad : list A → A → bool) (e : A → E) (seen l : list A) : result E unit :=
  match l with
  | [] => Ok tt
  | a :: rest => refuse (bad seen a) (e a) ;;; refuse_each bad e (seen ++ [a]) rest
  end.

(** ** Validation *)

Definition has_control (value : string) : bool := existsb is_control (runes value).

Definition validateValue (value label : string) : result error unit :=
  refuse (is_empty value || (maxStringBytes <? len value) || has_control value)
    (errorf "%s must be a bounded non-empty string without control characters" [label]).

Definition validateDisplayText (value : string) (maximum : Z) (label : string) : result error unit :=
  refuse ((maximum <? len value) || has_control value)
    (errorf "%s is too long or contains control characters" [label]).

Definition shellEquivalent (base : string) : bool :=
  bool_decide (base ∈ ["ash"; "bash"; "busybox"; "csh"; "dash"; "env"; "fish"; "hush"; "ksh"; "pwsh"; "sh";
                       "su"; "sudo"; "tcsh"; "zsh"]).

Definition validExecutableInfo (info : FileInfo) : bool :=
  negb (IsSymlink info) && IsRegular info && negb (Z.land (Perm info) 73 =? 0).

Definition unsafeEnvironmentName (value : string) : bool :=
  bool_decide (value ∈ ["PATH"; "IFS"; "ENV"; "BASH_ENV"; "ZDOTDIR"])
  || has_prefix "LD_" value || has_prefix "DYLD_" value.

Definition normalizeRisk (value : string) : result error string :=
  if is_empty value then Ok defaultCommandRisk
  else if bool_decide (value ∈ ["low"; "medium"; "high"]) then Ok value
  else Err (ErrorNew "risk must be low, medium, or high").

Definition normalizeUsers (values : list string) : result error (list string) :=
  refuse_each (λ seen value, negb (userPattern value) || bool_decide (value ∈ seen))
    (λ _, ErrorNew "target_users must contain unique non-numeric Unix user names") [] values ;;;
  Ok (sort_Strings values).

Definition literalHasSlotFields (a : Argument) : bool :=
  negb (is_empty (arg_Slot a)) || negb (is_empty (arg_Type a)) || bool_decide (is_Some (arg_Minimum a))
  || bool_decide (is_Some (arg_Maximum a)) || bool_decide (arg_Values a ≠ []) || bool_decide (arg_Roots a ≠ [])
  || arg_MustExist a || negb (is_empty (arg_FileType a)).

Definition validateIntegerSlot (a : Argument) : result error unit :=
  let valid :=
    match arg_Minimum a, arg_Maximum a with
    | Some low, Some high =>
        (low <=? high) && bool_decide (arg_Values a = []) && bool_decide (arg_Roots a = [])
        && negb (arg_MustExist a) && is_empty (arg_FileType a)
    | _, _ => false
    end in
  refuse (negb valid) (ErrorNew "integer slot requires only a valid minimum and maximum").

Definition invalidEnumSlotShape (a : Argument) : bool :=
  bool_decide (is_Some (arg_Minimum a)) || bool_decide (is_Some (arg_Maximum a))
  || bool_decide (arg_Values a = []) || (256 <? Z.of_nat (length (arg_Values a)))
  || bool_decide (arg_Roots a ≠ []) || arg_MustExist a || negb (is_empty (arg_FileType a)).

Definition validateEnumValues (values : list string) : result error unit :=
  refuse_each (λ seen value, negb (is_ok (validateValue value "enum value")) || bool_decide (value ∈ seen))
    (λ _, ErrorNew "enum values must be unique, bounded, non-empty strings") [] values.

Definition validateEnumSlot (a : Argument) : result error unit :=
  refuse (invalidEnumSlotShape a) (ErrorNew "enum slot requires only bounded values") ;;;
  validateEnumValues (arg_Values a).

Definition invalidPathSlotShape (a : Argument) : bool :=
  bool_decide (is_Some (arg_Minimum a)) || bool_decide (is_Some (arg_Maximum a))
  || bool_decide (arg_Values a ≠ []) || bool_decide (arg_Roots a = []) || (16 <? Z.of_nat (length (arg_Roots a)))
  || (negb (String.eqb (arg_FileType a) "regular") && negb (String.eqb (arg_FileType a) "directory")).

Definition at_index {A} (format : string) (r : result error A) : result error A :=
  match r with Ok a => Ok a | Err e => Err (Errorf format [] [e]) end.

Section catalog.
Context {R : MapRange} {H : Host} {JT : JSONTokens} {CJ : CatalogJSON}.
Context (sha256_hex : string → string).

Definition validateExecutable (value : string) : result error string :=
  refuse (negb (IsAbs value) || negb (String.eqb (Clean value) value))
    (ErrorNew "executable must be absolute and normalized") ;;;
  refuse (shellEquivalent (Base value)) (ErrorNew "executable must not be a shell or generic launcher") ;;;
  match Lstat value with
  | Err e => Err (Errorf "stat executable: %w" [] [e])
  | Ok info =>
      refuse (negb (validExecutableInfo info))
        (ErrorNew "executable must be a non-symlink executable regular file") ;;;
      Ok value
  end.

Definition validateDirectory (value : string) : result error string :=
  refuse (negb (IsAbs value) || negb (String.eqb (Clean value) value))
    (ErrorNew "working directory must be absolute and normalized") ;;;
  refuse (match Lstat value with Ok info => negb (IsDir info) || IsSymlink info | Err _ => true end)
    (ErrorNew "working directory must be an existing non-symlink directory") ;;;
  Ok value.

Definition validatePathSlot (a : Argument) : result error unit :=
  refuse (invalidPathSlotShape a)
    (ErrorNew "path_beneath slot requires roots and a regular or directory file_type") ;;;
  for_each (λ root, match validateDirectory root with
                    | Ok _ => Ok tt
                    | Err e => Err (Errorf "invalid path root: %w" [] [e])
                    end) (arg_Roots a).

Definition validateSlot (a : Argument) : result error unit :=
  if String.eqb (arg_Type a) "integer" then validateIntegerSlot a
  else if String.eqb (arg_Type a) "enum" then validateEnumSlot a
  else if String.eqb (arg_Type a) "path_beneath" then validatePathSlot a
  else Err (ErrorNew "slot type must be integer, enum, or path_beneath").

Definition validateLiteralArgument (a : Argument) (literal : string) : result error unit :=
  refuse (literalHasSlotFields a) (ErrorNew "literal argument contains slot fields") ;;;
  validateValue literal "literal".

(** The slots after the argument, and the error. *)
Definition validateArgument (a : Argument) (slots : list string) : result error (list string) :=
  match arg_Literal a with
  | Some literal =>
      at_index "arguments[%d]: %w" (validateLiteralArgument a literal) ;;; Ok slots
  | None =>
      refuse (negb (slotPattern (arg_Slot a)) || bool_decide (arg_Slot a ∈ slots))
        (errorf "arguments[%d]: slot is invalid or duplicated" []) ;;;
      at_index "arguments[%d]: %w" (validateSlot a) ;;; Ok (arg_Slot a :: slots)
  end.

(** [validateArguments], with the slots seen so far. *)
Fixpoint validateArguments (arguments : list Argument) (slots : list string) : result error unit :=
  match arguments with
  | [] => Ok tt
  | a :: rest => slots ← validateArgument a slots; validateArguments rest slots
  end.

Definition validateEnvironment (environment : gmap string string) : result error unit :=
  for_each (λ '(key, value),
      refuse (negb (envPattern key) || unsafeEnvironmentName key) (errorf "environment name %q is unsafe" [key]) ;;;
      validateValue value "environment value") (map_range environment).

(** ** Normalization *)

Definition normalizeCommandExecution (raw : rawCommand) : result error (string * list Argument) :=
  executable ← validateExecutable (raw_Executable raw);
  let missing := errorf "arguments is required and may contain at most %d entries" [] in
  match raw_Arguments raw with
  | None => Err missing
  | Some arguments =>
      refuse (maxArguments <? Z.of_nat (length arguments)) missing ;;;
      validateArguments arguments [] ;;;
      Ok (executable, arguments)
  end.

Definition normalizeCommandIdentity (raw : rawCommand) : result error (list string * string) :=
  let users := default [] (raw_TargetUsers raw) in
  refuse (bool_decide (users = []) || (maxTargetUsers <? Z.of_nat (length users)))
    (errorf "target_users must contain 1-%d users" []) ;;;
  targetUsers ← normalizeUsers users;
  workingDirectory ← validateDirectory (raw_WorkingDirectory raw);
  Ok (targetUsers, workingDirectory).

(** The risk, and [*raw.MaxOutputBytes], which it has checked. *)
Definition normalizeCommandMetadata (raw : rawCommand) : result error (string * Z) :=
  refuse ((raw_TimeoutSeconds raw <? 1) || (maxTimeoutSeconds <? raw_TimeoutSeconds raw))
    (errorf "timeout_seconds must be between 1 and %d" []) ;;;
  let outside := errorf "max_output_bytes must be between 0 and %d" [] in
  match raw_MaxOutputBytes raw with
  | None => Err outside
  | Some bytes =>
      refuse ((bytes <? 0) || (maxOutputBytes <? bytes)) outside ;;;
      validateEnvironment (raw_Environment raw) ;;;
      validateDisplayText (raw_Description raw) 256 "description" ;;;
      risk ← normalizeRisk (raw_Risk raw);
      Ok (risk, bytes)
  end.

Definition normalizeCommand (raw : rawCommand) : result error Command :=
  refuse (negb (idPattern (raw_ID raw)))
    (ErrorNew "id must be 1-64 lowercase alphanumeric/hyphen characters") ;;;
  '(executable, arguments) ← normalizeCommandExecution raw;
  '(targetUsers, workingDirectory) ← normalizeCommandIdentity raw;
  '(risk, bytes) ← normalizeCommandMetadata raw;
  Ok (MkCommand (raw_ID raw) executable arguments targetUsers workingDirectory (raw_TimeoutSeconds raw) bytes
        (raw_Environment raw) (raw_Description raw) risk).

Fixpoint normalize_each (raw : list rawCommand) (seen : list string) : result error (list Command) :=
  match raw with
  | [] => Ok []
  | value :: rest =>
      command ← at_index "commands[%d]: %w" (normalizeCommand value);
      refuse (bool_decide (sc_ID command ∈ seen))
        (errorf "commands[%d]: duplicate command id %q" [sc_ID command]) ;;;
      commands ← normalize_each rest (sc_ID command :: seen);
      Ok (command :: commands)
  end.

Definition normalizeCommands (raw : list rawCommand) : result error (list Command) :=
  commands ← normalize_each raw [];
  Ok (sort_by (λ l r, string_ltb (sc_ID l) (sc_ID r)) commands).

Definition commandsDigest (commands : list Command) : result error string :=
  encoded ← commands_Marshal commands; Ok (sha256_hex encoded).

(** The commands of a document whose header is valid. *)
Definition validateDocumentHeader (raw : document) : result error (list rawCommand) :=
  refuse (negb (doc_Version raw =? catalog_Version)) (errorf "sudo catalog version must be %d" []) ;;;
  let commands := default [] (doc_Commands raw) in
  refuse (bool_decide (commands = []) || (maxCommands <? Z.of_nat (length commands)))
    (errorf "sudo catalog must contain 1-%d commands" []) ;;;
  Ok commands.

Definition parseDocument (data : string) : result error (list rawCommand) :=
  at_index "parse sudo catalog: %w" (RejectDuplicateKeys data) ;;;
  '(raw, ended) ← at_index "parse sudo catalog: %w" (document_Decode data);
  refuse (negb ended) (ErrorNew "parse sudo catalog: trailing JSON content") ;;;
  validateDocumentHeader raw.

Definition catalog_Parse (data : string) : result error Snapshot :=
  raw ← parseDocument data;
  commands ← normalizeCommands raw;
  digest ← commandsDigest commands;
  Ok (MkSnapshot (list_to_map ((λ c, (sc_ID c, c)) <$> commands)) digest).

(** ** Snapshots *)

Definition Snapshot_Digest (s : option Snapshot) : string :=
  match s with None => EmptyString | Some s => ss_digest s end.

(** [Snapshot.Command]: the second result of the source is whether it is there. *)
Definition Snapshot_Command (s : option Snapshot) (id : string) : option Command :=
  s ← s; ss_commands s !! id.

Definition SlotNames (s : option Snapshot) : list string :=
  match s with
  | None => []
  | Some s =>
      sort_Strings (remove_dups (List.filter (λ slot, negb (is_empty slot))
        (arg_Slot <$> flat_map (λ '(_, c), sc_Arguments c) (map_range (ss_commands s)))))
  end.

(** ** Resolution *)

Definition pathBeneath (root value : string) : bool :=
  match Rel root value with
  | Ok relative => negb (String.eqb relative "..") && negb (has_prefix "../" relative)
  | Err _ => false
  end.

(** The loop of [resolveMissingPath], with the names left out so far, the last one first:
    [filepath.Dir] shortens the path. *)
Fixpoint resolve_missing (fuel : nat) (current : string) (tail : list string) : result error string :=
  match fuel with
  | O => Err (ErrorNew "out of fuel")
  | S fuel' =>
      match Lstat current with
      | Ok _ =>
          match EvalSymlinks current with
          | Err _ => Err (ErrorNew "path cannot be resolved safely")
          | Ok resolved => Ok (foldl (λ resolved name, filepath_Join [resolved; name]) resolved tail)
          end
      | Err _ =>
          let parent := Dir current in
          if String.eqb parent current then Err (ErrorNew "path cannot be resolved safely")
          else resolve_missing fuel' parent (Base current :: tail)
      end
  end.

Definition resolveMissingPath (value : string) : result error string :=
  resolve_missing (S (String.length value)) value [].

Definition resolveCatalogPath (value : string) (mustExist : bool) : result error string :=
  match EvalSymlinks value with
  | Ok resolved => Ok resolved
  | Err _ =>
      refuse mustExist (ErrorNew "path must exist") ;;;
      resolveMissingPath value
  end.

Definition insideAnyRoot (roots : list string) (resolved : string) : bool :=
  existsb (λ root, match EvalSymlinks root with
                   | Ok resolvedRoot => pathBeneath resolvedRoot resolved
                   | Err _ => false
                   end) roots.

Definition validateExistingPathType (info : FileInfo) (fileType : string) : result error unit :=
  refuse (String.eqb fileType "regular" && negb (IsRegular info)) (ErrorNew "path is not a regular file") ;;;
  refuse (String.eqb fileType "directory" && negb (IsDir info)) (ErrorNew "path is not a directory").

Definition validateResolvedPathType (resolved fileType : string) (mustExist : bool) : result error string :=
  match Stat resolved with
  | Ok info => validateExistingPathType info fileType ;;; Ok resolved
  | Err _ => refuse mustExist (ErrorNew "path must exist") ;;; Ok resolved
  end.

Definition resolvePath (spec : Argument) (value : string) : result error string :=
  refuse (negb (IsAbs value) || negb (String.eqb (Clean value) value))
    (ErrorNew "path must be absolute and normalized") ;;;
  resolved ← resolveCatalogPath value (arg_MustExist spec);
  refuse (negb (insideAnyRoot (arg_Roots spec) resolved)) (ErrorNew "path escapes declared roots") ;;;
  validateResolvedPathType resolved (arg_FileType spec) (arg_MustExist spec).

Definition resolvePathArgument (spec : Argument) (raw : string) : result error string :=
  match string_Unmarshal raw with
  | Err _ => Err (ErrorNew "must be a path string")
  | Ok value => resolvePath spec value
  end.

Definition resolveEnumArgument (spec : Argument) (raw : string) : result error string :=
  let refusal := ErrorNew "must be one of the declared enum values" in
  match string_Unmarshal raw with
  | Err _ => Err refusal
  | Ok value => refuse (negb (bool_decide (value ∈ arg_Values spec))) refusal ;;; Ok value
  end.

(** [*spec.Minimum] panics when it is nil; the catalog's validation excludes that, and the
    model refuses. *)
Definition resolveIntegerArgument (spec : Argument) (raw : string) : result error string :=
  let refusal := errorf "must be an integer between %d and %d" [] in
  match parse_int raw, arg_Minimum spec, arg_Maximum spec with
  | Some value, Some low, Some high =>
      refuse ((value <? low) || (high <? value)) refusal ;;; Ok (FormatInt value)
  | _, _, _ => Err refusal
  end.

Definition resolveArgument (spec : Argument) (raw : string) : result error string :=
  match RejectDuplicateKeys raw with
  | Err _ => Err (ErrorNew "invalid JSON value")
  | Ok _ =>
      if String.eqb (arg_Type spec) "integer" then resolveIntegerArgument spec raw
      else if String.eqb (arg_Type spec) "enum" then resolveEnumArgument spec raw
      else if String.eqb (arg_Type spec) "path_beneath" then resolvePathArgument spec raw
      else Err (ErrorNew "unsupported argument type")
  end.

(** The value, and its slot where it is not a literal. *)
Definition resolveCommandArgument (spec : Argument) (inputs : gmap string string)
    : result error (string * string) :=
  match arg_Literal spec with
  | Some literal => Ok (literal, EmptyString)
  | None =>
      match inputs !! arg_Slot spec with
      | None => Err (errorf "argument %q is required" [arg_Slot spec])
      | Some raw =>
          match resolveArgument spec raw with
          | Ok value => Ok (value, arg_Slot spec)
          | Err e => Err (Errorf "argument %q: %w" [arg_Slot spec] [e])
          end
      end
  end.

Definition rejectUnexpectedInputs (inputs : gmap string string) (declared : list string) : result error unit :=
  for_each (λ '(key, _),
      refuse (negb (bool_decide (key ∈ declared))) (errorf "argument %q is not declared by command" [key]))
    (map_range inputs).

(** The loop of [Resolve] over the arguments: [argv], [values] and [seen]. *)
Fixpoint resolve_each (specs : list Argument) (inputs : gmap string string) (argv : list string)
    (values : gmap string string) (seen : list string) : result error (list string * gmap string string * list string) :=
  match specs with
  | [] => Ok (argv, values, seen)
  | spec :: rest =>
      '(value, slot) ← resolveCommandArgument spec inputs;
      let '(values, seen) := if is_empty slot then (values, seen) else (<[slot := value]> values, slot :: seen) in
      resolve_each rest inputs (argv ++ [value]) values seen
  end.

Definition Resolve (s : option Snapshot) (commandID targetUser : string) (inputs : gmap string string)
    : result error Resolved :=
  match Snapshot_Command s commandID with
  | None => Err (ErrorNew "unknown command id")
  | Some command =>
      refuse (negb (bool_decide (targetUser ∈ sc_TargetUsers command)))
        (ErrorNew "target user is not allowed for command") ;;;
      '(argv, values, seen) ← resolve_each (sc_Arguments command) inputs [sc_Executable command] ∅ [];
      rejectUnexpectedInputs inputs seen ;;;
      Ok (MkResolved (sc_ID command) targetUser (sc_Executable command) argv (sc_WorkingDirectory command)
            (sc_Environment command) (sc_TimeoutSeconds command) (sc_MaxOutputBytes command) values
            (Snapshot_Digest s))
  end.

Definition resolvedInputValue (a : Argument) (value : string) : string :=
  if String.eqb (arg_Type a) "integer" then value else string_Marshal value.

(** The loop of [resolvedInputs]. *)
Fixpoint resolved_inputs (specs : list Argument) (slotValues inputs : gmap string string)
    : result error (gmap string string) :=
  match specs with
  | [] => Ok inputs
  | a :: rest =>
      if is_empty (arg_Slot a) then resolved_inputs rest slotValues inputs
      else
        match slotValues !! arg_Slot a with
        | None => Err (ErrorNew "resolved command is missing a slot value")
        | Some value => resolved_inputs rest slotValues (<[arg_Slot a := resolvedInputValue a value]> inputs)
        end
  end.

Definition resolvedInputs (command : Command) (resolved : Resolved) : result error (gmap string string) :=
  resolved_inputs (sc_Arguments command) (sr_SlotValues resolved) ∅.

Definition sameResolvedCommand (left right : Resolved) : bool :=
  String.eqb (sr_Executable left) (sr_Executable right)
  && bool_decide (sr_Arguments left = sr_Arguments right)
  && String.eqb (sr_WorkingDirectory left) (sr_WorkingDirectory right)
  && bool_decide (sr_Environment left = sr_Environment right)
  && (sr_TimeoutSeconds left =? sr_TimeoutSeconds right)
  && (sr_MaxOutputBytes left =? sr_MaxOutputBytes right)
  && bool_decide (sr_SlotValues left = sr_SlotValues right).

Definition ValidateResolved (s : option Snapshot) (resolved : Resolved) : result error unit :=
  refuse (match s with None => true | Some s => negb (String.eqb (sr_CatalogDigest resolved) (ss_digest s)) end)
    (ErrorNew "resolved command catalog digest does not match") ;;;
  match Snapshot_Command s (sr_CommandID resolved) with
  | None => Err (ErrorNew "resolved command no longer exists")
  | Some command =>
      inputs ← resolvedInputs command resolved;
      again ← Resolve s (sr_CommandID resolved) (sr_TargetUser resolved) inputs;
      refuse (negb (sameResolvedCommand again resolved))
        (ErrorNew "resolved command does not match the current catalog")
  end.
End catalog.

Example clean_dots : Clean "/a/./b/../c//d/" = "/a/c/d" ∧ Clean "../x/.." = ".." ∧ Clean "/.." = "/".
Proof. done. Qed.
Example rel_up : Rel "/a/b" "/a/c/d" = Ok "../c/d" ∧ Rel "a" "." = Ok "../." ∧ Rel "/a" "/a/b/c" = Ok "b/c" ∧ Rel "/" "/x" = Ok "x".
Proof. done. Qed.
Example dir_base : Dir "/a/b" = "/a" ∧ Base "/a/b//" = "b" ∧ Dir "/a" = "/" ∧ Base "/" = "/".
Proof. done. Qed.

(** ** Paths and their elements *)

Definition no_separator (e : string) : Prop := Separator ∉ list_of_string e.

Lemma no_separator_rev (e : string) : no_separator e → no_separator (string_rev e).
Proof.
  unfold no_separator. induction e as [|c e IH]; [done|]. cbn [list_of_string]. rewrite not_elem_of_cons. intros [Hc He].
  rewrite string_rev_cons, list_of_string_app, not_elem_of_app. split; [by apply IH|]. cbn. set_solver.
Qed.

Lemma split_no_separator (word s : string) :
  no_separator word → Forall no_separator (split_from Separator word s).
Proof.
  revert word. induction s as [|c s IH]; intros word Hw; cbn [split_from].
  - constructor; [by apply no_separator_rev|constructor].
  - destruct (Ascii.eqb_spec Separator c) as [_|Hc].
    + constructor; [by apply no_separator_rev|]. by apply IH, not_elem_of_nil.
    + apply IH. unfold no_separator in *. cbn. by rewrite not_elem_of_cons.
Qed.

Lemma split_from_word (word e rest : string) :
  no_separator e →
  split_from Separator word (e +:+ String Separator rest)
  = (string_rev word +:+ e) :: split_from Separator EmptyString rest.
Proof.
  revert word. induction e as [|c e IH]; intros word He.
  - cbn [split_from String.append]. by rewrite app_nil_r_string.
  - unfold no_separator in He. cbn in He. rewrite not_elem_of_cons in He. destruct He as [Hc He].
    rewrite app_cons. cbn [split_from]. rewrite (proj2 (Ascii.eqb_neq _ _) Hc), IH by done.
    by rewrite string_rev_cons, app_assoc_string.
Qed.

Lemma split_last (word e : string) : no_separator e → split_from Separator word e = [string_rev word +:+ e].
Proof.
  revert word. induction e as [|c e IH]; intros word He; [cbn; by rewrite app_nil_r_string|].
  unfold no_separator in He. cbn in He. rewrite not_elem_of_cons in He. destruct He as [Hc He].
  cbn [split_from]. rewrite (proj2 (Ascii.eqb_neq _ _) Hc), IH by done. by rewrite string_rev_cons, app_assoc_string.
Qed.

(** [strings.Split] gives back elements without separators that were joined. *)
Lemma split_join (l : list string) :
  l ≠ [] → Forall no_separator l → split_byte Separator (join "/" l) = l.
Proof.
  unfold split_byte. induction l as [|e l IH]; intros Hne Hl; [done|]. apply Forall_cons in Hl as [He Hl].
  destruct l as [|e' l]; cbn [join]; [by apply split_last|].
  change ("/" +:+ ?x) with (String Separator x). rewrite split_from_word by done. f_equal. by apply IH.
Qed.

(** Clean elements: not empty, without separators. *)
Definition plain_element (e : string) : Prop := e ≠ EmptyString ∧ no_separator e.

Lemma clean_elements_plain (rooted : bool) (out elements : list string) :
  Forall plain_element out → Forall no_separator elements → Forall plain_element (clean_elements rooted out elements).
Proof.
  revert out. induction elements as [|e elements IH]; intros out Ho He; cbn [clean_elements]; [done|].
  apply Forall_cons in He as [He Hes]. destruct (_ || _) eqn:E1; [by apply IH|]. apply orb_false_iff in E1 as [E1 _].
  assert (plain_element e) as Hp.
  { split; [|done]. intros ->. done. }
  destruct (String.eqb _ ".."); [|by apply IH; [constructor|]].
  destruct out as [|top below].
  - destruct rooted; apply IH; auto.
  - destruct (String.eqb _ _); apply IH; auto. by apply Forall_cons in Ho as [_ Ho].
Qed.

Lemma path_elements_plain (path : string) : Forall plain_element (path_elements path).
Proof.
  unfold path_elements. apply Forall_rev. apply clean_elements_plain; [constructor|].
  apply split_no_separator. by apply not_elem_of_nil.
Qed.

Lemma join_inj (l l' : list string) :
  Forall plain_element l → Forall plain_element l' → join "/" l = join "/" l' → l = l'.
Proof.
  intros Hl Hl' E.
  assert (∀ m, Forall plain_element m → m ≠ [] → join "/" m ≠ EmptyString) as Hne.
  { intros [|e m] Hm Hn; [done|]. apply Forall_cons in Hm as [[He _] _]. destruct m; [done|].
    cbn. by destruct e. }
  assert (∀ m, Forall plain_element m → Forall no_separator m) as Hs.
  { intros m Hm. eapply Forall_impl; [exact Hm|]. by intros e []. }
  destruct (decide (l = [])) as [->|Hn], (decide (l' = [])) as [->|Hn']; [done| | |].
  - by destruct (Hne l' Hl' Hn').
  - by destruct (Hne l Hl Hn).
  - rewrite <- (split_join l), <- (split_join l') by auto. by rewrite E.
Qed.

Lemma Clean_abs (path : string) : IsAbs path = true → Clean path = "/" +:+ join "/" (path_elements path).
Proof. unfold Clean. by intros ->. Qed.

Lemma drop_common_exhausted (l l' down : list string) : drop_common l l' = ([], down) → l' = l ++ down.
Proof.
  revert l'. induction l as [|a l IH]; intros [|b l']; cbn; try (by intros [= <-]).
  destruct (String.eqb_spec a b) as [->|_]; [|done]. intros H. by rewrite (IH _ H).
Qed.

(** What lies beneath a root, lies beneath it element by element. *)
Lemma pathBeneath_prefix (root value : string) :
  IsAbs root = true → IsAbs value = true → pathBeneath root value = true →
  path_elements root `prefix_of` path_elements value.
Proof.
  intros Hr Hv. unfold pathBeneath, Rel. rewrite (Clean_abs root Hr), (Clean_abs value Hv).
  destruct (String.eqb_spec ("/" +:+ join "/" (path_elements value)) ("/" +:+ join "/" (path_elements root))) as [E|_].
  { intros _. injection E as E. apply join_inj in E; [by rewrite E|apply path_elements_plain..]. }
  cbn [IsAbs has_prefix String.append Bool.eqb negb andb Ascii.eqb].
  replace (String.eqb _ ".") with false by (symmetry; by apply String.eqb_neq).
  destruct (drop_common _ _) as [[|up ups] down] eqn:Ed; [by apply drop_common_exhausted in Ed as ->; eexists|].
  destruct (_ && _); [done|]. cbn [map app]. intros H. exfalso.
  by destruct (map (λ _, "..") ups ++ down).
Qed.

(** ** The directory of a clean path *)

(** An element that [Clean] keeps in a rooted path. *)
Definition normal_element (e : string) : Prop := plain_element e ∧ e ≠ "." ∧ e ≠ "..".

Lemma clean_elements_normal (out elements : list string) :
  Forall normal_element out → Forall no_separator elements → Forall normal_element (clean_elements true out elements).
Proof.
  revert out. induction elements as [|e elements IH]; intros out Ho He; cbn [clean_elements]; [done|].
  apply Forall_cons in He as [He Hes]. destruct (_ || _) eqn:E1; [by apply IH|].
  apply orb_false_iff in E1 as [E0 E1]. apply String.eqb_neq in E1.
  destruct (String.eqb_spec e "..") as [->|E2].
  - destruct out as [|top below]; [by apply IH|]. apply Forall_cons in Ho as [Ht Ho].
    rewrite (proj2 (String.eqb_neq _ _)) by apply Ht. by apply IH.
  - apply IH; [|done]. constructor; [|done]. repeat split; try done. by intros ->.
Qed.

Lemma path_elements_normal (path : string) : IsAbs path = true → Forall normal_element (path_elements path).
Proof.
  intros Ha. unfold path_elements. rewrite Ha. apply Forall_rev, clean_elements_normal; [constructor|].
  apply split_no_separator. by apply not_elem_of_nil.
Qed.

Lemma clean_elements_id (out l : list string) :
  Forall normal_element l → clean_elements true out l = rev l ++ out.
Proof.
  revert out. induction l as [|e l IH]; intros out Hl; [done|]. apply Forall_cons in Hl as [((He & _) & E1 & E2) Hl].
  cbn [clean_elements rev]. apply String.eqb_neq in E1, E2. rewrite E1, E2.
  replace (is_empty e) with false by (by destruct e). cbn [orb]. rewrite IH by done. by rewrite <- app_assoc.
Qed.

(** The path with the elements. *)
Definition rooted_path (l : list string) : string := "/" +:+ join "/" l.

Lemma split_rooted (l : list string) :
  l ≠ [] → Forall no_separator l → split_byte Separator (rooted_path l) = EmptyString :: l.
Proof.
  intros Hn Hl. unfold rooted_path. change ("/" +:+ ?x) with (EmptyString +:+ String Separator x).
  unfold split_byte. rewrite split_from_word by (by apply not_elem_of_nil). f_equal. by apply split_join.
Qed.

Lemma normal_separator (l : list string) : Forall normal_element l → Forall no_separator l.
Proof. intros Hl. eapply Forall_impl; [exact Hl|]. by intros e [[_ H] _]. Qed.

Lemma Clean_rooted (l : list string) : Forall normal_element l → Clean (rooted_path l) = rooted_path l.
Proof.
  intros Hl. rewrite Clean_abs by done. unfold path_elements. destruct (decide (l = [])) as [->|Hn]; [done|].
  rewrite split_rooted by auto using normal_separator. cbn [IsAbs rooted_path has_prefix clean_elements is_empty orb].
  change (has_prefix EmptyString _) with true. unfold IsAbs, rooted_path. cbn [has_prefix String.append Ascii.eqb andb Bool.eqb].
  rewrite clean_elements_id, app_nil_r by done. by rewrite rev_involutive.
Qed.

Lemma contains_separator (s : string) : no_separator s → contains "/" s = false.
Proof.
  unfold no_separator. induction s as [|c s IH]; [done|]. cbn [list_of_string]. rewrite not_elem_of_cons. intros [Hc Hs].
  cbn [contains has_prefix]. rewrite IH, orb_false_r, andb_true_r by done. by apply Ascii.eqb_neq.
Qed.

Lemma contains_separator_app (s e : string) : contains "/" (s +:+ String Separator e) = true.
Proof.
  induction s as [|c s IH]; [done|]. rewrite app_cons. cbn [contains]. by rewrite IH, orb_true_r.
Qed.

Lemma until_last_app (s e : string) :
  no_separator e → until_last_separator (s +:+ String Separator e) = s +:+ "/".
Proof.
  intros He. induction s as [|c s IH].
  - rewrite app_nil_l_string. cbn [until_last_separator]. by rewrite contains_separator.
  - rewrite app_cons. cbn [until_last_separator]. by rewrite contains_separator_app, IH.
Qed.

Lemma join_last (l : list string) (e : string) :
  l ≠ [] → join "/" (l ++ [e]) = join "/" l +:+ String Separator e.
Proof.
  induction l as [|a l IH]; intros Hn; [done|]. destruct l as [|b l]; [done|].
  change (join "/" ((a :: b :: l) ++ [e])) with (a +:+ "/" +:+ join "/" ((b :: l) ++ [e])).
  rewrite IH by done. change (join "/" (a :: b :: l)) with (a +:+ "/" +:+ join "/" (b :: l)).
  by rewrite !app_assoc_string.
Qed.

Lemma split_trailing (word s : string) :
  split_from Separator word (s +:+ "/") = split_from Separator word s ++ [EmptyString].
Proof.
  revert word. induction s as [|c s IH]; intros word; [done|]. rewrite app_cons. cbn [split_from].
  destruct (Ascii.eqb _ _); by rewrite IH.
Qed.

Lemma clean_elements_trailing (rooted : bool) (out elements : list string) :
  clean_elements rooted out (elements ++ [EmptyString]) = clean_elements rooted out elements.
Proof.
  revert out. induction elements as [|e elements IH]; intros out; [done|]. cbn [app clean_elements].
  destruct (_ || _); [done|]. destruct (String.eqb _ ".."); [|done]. destruct out; [by destruct rooted|].
  by destruct (String.eqb _ _).
Qed.

Lemma Clean_trailing (path : string) : IsAbs path = true → Clean (path +:+ "/") = Clean path.
Proof.
  intros Ha. assert (IsAbs (path +:+ "/") = true) as Ha' by (by destruct path).
  rewrite !Clean_abs by done. unfold path_elements, split_byte. by rewrite Ha, Ha', split_trailing, clean_elements_trailing.
Qed.

(** [Dir] drops the last element. *)
Lemma Dir_rooted (l : list string) (e : string) :
  Forall normal_element (l ++ [e]) → Dir (rooted_path (l ++ [e])) = rooted_path l.
Proof.
  intros H. apply Forall_app in H as [Hl He]. apply Forall_cons in He as [[[_ He] _] _].
  unfold Dir. destruct (decide (l = [])) as [->|Hn].
  - change (rooted_path ([] ++ [e])) with (EmptyString +:+ String Separator e). by rewrite until_last_app.
  - assert (rooted_path (l ++ [e]) = rooted_path l +:+ String Separator e) as ->.
    { unfold rooted_path. by rewrite join_last, app_assoc_string. }
    rewrite until_last_app by done. rewrite Clean_trailing by done. by apply Clean_rooted.
Qed.

Lemma trim_separators_word (s e : string) :
  e ≠ EmptyString → no_separator e → trim_separators (s +:+ e) = s +:+ e.
Proof.
  intros Hne He. assert (trim_separators e = e) as E.
  { clear Hne. unfold no_separator in He. induction e as [|c e IH]; [done|]. cbn in He.
    rewrite not_elem_of_cons in He. destruct He as [Hc He]. cbn [trim_separators]. rewrite IH by done.
    rewrite (proj2 (Ascii.eqb_neq c Separator)) by congruence. by rewrite andb_false_r. }
  induction s as [|c s IH]; [by rewrite app_nil_l_string|]. rewrite app_cons. cbn [trim_separators]. rewrite IH.
  replace (is_empty (s +:+ e)) with false; [done|]. destruct e as [|d e]; [done|].
  pose proof (app_not_empty s e d) as Hn. by destruct (s +:+ String d e).
Qed.

Lemma after_last_app (s e : string) : no_separator e → after_last_separator (s +:+ String Separator e) = e.
Proof.
  intros He. induction s as [|c s IH].
  - rewrite app_nil_l_string. cbn [after_last_separator contains has_prefix Ascii.eqb Bool.eqb andb orb].
    change (if Ascii.eqb "/" Separator && true || contains "/" e then after_last_separator e else String Separator e)
      with (after_last_separator e).
    destruct e as [|d e]; [done|]. cbn [after_last_separator]. by rewrite (contains_separator (String d e)).
  - rewrite app_cons. cbn [after_last_separator]. rewrite <- app_cons, contains_separator_app. exact IH.
Qed.

(** [Base] is the last element. *)
Lemma Base_rooted (l : list string) (e : string) :
  Forall normal_element (l ++ [e]) → Base (rooted_path (l ++ [e])) = e.
Proof.
  intros H. apply Forall_app in H as [_ H]. apply Forall_cons in H as [[[Hne He] _] _].
  assert (∃ s, rooted_path (l ++ [e]) = s +:+ String Separator e) as [s ->].
  { unfold rooted_path. destruct (decide (l = [])) as [->|Hn]; [by exists EmptyString|].
    rewrite join_last by done. exists ("/" +:+ join "/" l). by rewrite app_assoc_string. }
  unfold Base. replace (is_empty (s +:+ String Separator e)) with false
    by (pose proof (app_not_empty s e Separator); by destruct (s +:+ String Separator e)).
  assert (trim_separators (s +:+ String Separator e) = s +:+ String Separator e) as ->.
  { replace (s +:+ String Separator e) with ((s +:+ "/") +:+ e) by (by rewrite app_assoc_string).
    by apply trim_separators_word. }
  rewrite after_last_app by done. destruct e; [congruence|done].
Qed.

Lemma rooted_path_inj (l l' : list string) :
  Forall normal_element l → Forall normal_element l' → rooted_path l = rooted_path l' → l = l'.
Proof.
  intros Hl Hl' E. injection E as E. apply join_inj in E; [done| |].
  - eapply Forall_impl; [exact Hl|]. by intros e [].
  - eapply Forall_impl; [exact Hl'|]. by intros e [].
Qed.

(** The fuel of [resolveMissingPath] is enough: the nearest ancestor that is there is resolved, and the
    names that are missing are put back. *)
Lemma resolve_missing_spec {H : Host} (fuel : nat) (l missing : list string) :
  Forall normal_element l → (length l < fuel)%nat →
  resolve_missing fuel (rooted_path l) missing = Err (ErrorNew "path cannot be resolved safely")
  ∨ ∃ there gone resolved,
      l = there ++ gone ∧ is_ok (Lstat (rooted_path there)) = true
      ∧ (∀ m, m ≠ [] → m `prefix_of` gone → is_ok (Lstat (rooted_path (there ++ m))) = false)
      ∧ EvalSymlinks (rooted_path there) = Ok resolved
      ∧ resolve_missing fuel (rooted_path l) missing
        = Ok (foldl (λ resolved name, filepath_Join [resolved; name]) resolved (gone ++ missing)).
Proof.
  revert l missing. induction fuel as [|fuel IH]; intros l missing Hl Hf; [lia|]. cbn [resolve_missing].
  destruct (Lstat (rooted_path l)) as [info|e] eqn:El.
  - destruct (EvalSymlinks (rooted_path l)) as [resolved|e] eqn:Er; [|by left]. right.
    exists l, [], resolved. rewrite app_nil_r, El. split; [done|]. split; [done|]. split; [|done].
    intros m Hm [k Hk]. symmetry in Hk. by apply app_nil in Hk as [-> _].
  - destruct (decide (l = [])) as [->|Hn]; [by left|]. destruct (exists_last Hn) as (front & e' & ->).
    rewrite Dir_rooted, Base_rooted by done. pose proof Hl as Hl'. apply Forall_app in Hl' as [Hf' _].
    destruct (String.eqb_spec (rooted_path front) (rooted_path (front ++ [e']))) as [E|_]; [by left|].
    rewrite length_app in Hf. cbn in Hf.
    destruct (IH front (e' :: missing) Hf' ltac:(lia)) as [->|(there & gone & resolved & -> & Hok & Hno & Hev & ->)];
      [by left|]. right. exists there, (gone ++ [e']), resolved. rewrite <- !app_assoc in *.
    split; [done|]. split; [done|]. split; [|done].
    intros m Hm [k Hk]. destruct (decide (k = [])) as [->|Hk'].
    + rewrite app_nil_r in Hk. subst m. by rewrite El.
    + destruct (exists_last Hk') as (k' & y & ->). rewrite app_assoc in Hk. apply app_inj_tail in Hk as [-> _].
      apply Hno; [done|]. by exists k'.
Qed.

(** ** What a parsed catalog satisfies *)

(** An argument that [validateArgument] accepts, on whatever host it was checked. *)
Definition slot_ok (a : Argument) : Prop :=
  match arg_Type a with
  | "integer" => ∃ low high, arg_Minimum a = Some low ∧ arg_Maximum a = Some high ∧ low <= high
  | "enum" => arg_Values a ≠ [] ∧ NoDup (arg_Values a)
              ∧ Forall (λ v, is_ok (validateValue v "enum value") = true) (arg_Values a)
  | "path_beneath" => arg_Roots a ≠ [] ∧ Forall (λ root, IsAbs root = true ∧ Clean root = root) (arg_Roots a)
                      ∧ arg_FileType a ∈ ["regular"; "directory"]
  | _ => False
  end.

Definition argument_ok (a : Argument) : Prop :=
  match arg_Literal a with
  | Some literal => literalHasSlotFields a = false ∧ is_ok (validateValue literal "literal") = true
  | None => slotPattern (arg_Slot a) = true ∧ slot_ok a
  end.

(** The slots of the arguments that are not literals. *)
Definition slots_of (arguments : list Argument) : list string :=
  omap (λ a, match arg_Literal a with Some _ => None | None => Some (arg_Slot a) end) arguments.

Record command_ok (c : Command) : Prop := {
  ok_id : idPattern (sc_ID c) = true;
  ok_executable : IsAbs (sc_Executable c) = true ∧ Clean (sc_Executable c) = sc_Executable c
                  ∧ shellEquivalent (Base (sc_Executable c)) = false;
  ok_arguments : Z.of_nat (length (sc_Arguments c)) <= maxArguments ∧ Forall argument_ok (sc_Arguments c)
                 ∧ NoDup (slots_of (sc_Arguments c));
  ok_users : sc_TargetUsers c ≠ [] ∧ Z.of_nat (length (sc_TargetUsers c)) <= maxTargetUsers
             ∧ NoDup (sc_TargetUsers c) ∧ Forall (λ u, userPattern u = true) (sc_TargetUsers c);
  ok_directory : IsAbs (sc_WorkingDirectory c) = true ∧ Clean (sc_WorkingDirectory c) = sc_WorkingDirectory c;
  ok_timeout : 1 <= sc_TimeoutSeconds c <= maxTimeoutSeconds;
  ok_output : 0 <= sc_MaxOutputBytes c <= maxOutputBytes;
  ok_environment : ∀ key value, sc_Environment c !! key = Some value →
    envPattern key = true ∧ unsafeEnvironmentName key = false
    ∧ is_ok (validateValue value "environment value") = true;
  ok_risk : sc_Risk c ∈ ["low"; "medium"; "high"]
}.

Lemma refuse_each_ok {A E} (bad : list A → A → bool) (e : A → E) (seen l : list A) :
  refuse_each bad e seen l = Ok tt →
  ∀ front a rest, l = front ++ a :: rest → bad (seen ++ front) a = false.
Proof.
  revert seen. induction l as [|b l IH]; intros seen H front a rest El; [by destruct front|].
  cbn [refuse_each] in H. apply seq_ok in H as [Hb H]. apply refuse_ok in Hb.
  destruct front as [|f front]; injection El as -> ->; [by rewrite app_nil_r|].
  replace (seen ++ f :: front) with ((seen ++ [f]) ++ front) by (by rewrite <- app_assoc).
  by eapply IH.
Qed.

Lemma sort_by_perm {A} (before : A → A → bool) (l : list A) : sort_by before l ≡ₚ l.
Proof.
  unfold sort_by. induction l as [|a l IH]; [done|]. cbn [foldr]. rewrite <- IH at 2. generalize (foldr (insert_by before) [] l).
  intros m. induction m as [|b m IHm]; [done|]. cbn [insert_by]. destruct (before b a); [|done].
  rewrite IHm. apply Permutation_swap.
Qed.

(** Elements none of which is bad or occurs before. *)
Lemma refuse_each_unique {A E} `{EqDecision A} (bad : A → bool) (e : A → E) (l : list A) :
  refuse_each (λ seen a, bad a || bool_decide (a ∈ seen)) e [] l = Ok tt →
  NoDup l ∧ Forall (λ a, bad a = false) l.
Proof.
  intros H. pose proof (refuse_each_ok _ _ _ _ H) as Hl. clear H. split.
  - apply NoDup_alt. intros i j a Hi Hj. revert Hi Hj.
    assert (∀ i j, (i < j)%nat → l !! i = Some a → l !! j = Some a → False) as Hlt.
    { intros i' j' Hij Hi Hj. specialize (Hl (take j' l) a (drop (S j') l) (eq_sym (take_drop_middle _ _ _ Hj))).
      apply orb_false_iff in Hl as [_ Hl]. apply bool_decide_eq_false in Hl. apply Hl. cbn.
      apply list_elem_of_lookup. exists i'. by rewrite lookup_take_lt by lia. }
    intros Hi Hj. destruct (lt_eq_lt_dec i j) as [[Hlt'|]|Hlt']; [by destruct (Hlt i j)|done|by destruct (Hlt j i)].
  - apply Forall_forall. intros a Ha. apply list_elem_of_split in Ha as (l1 & l2 & ->).
    specialize (Hl l1 a l2 eq_refl). by apply orb_false_iff in Hl as [Hl _].
Qed.

Section parsed.
Context {R : MapRange} {H : Host} {JT : JSONTokens} {CJ : CatalogJSON} (sha256_hex : string → string).

Lemma validateDirectory_ok (value result : string) :
  validateDirectory value = Ok result → result = value ∧ IsAbs value = true ∧ Clean value = value.
Proof.
  unfold validateDirectory. rewrite seq_ok, refuse_ok, seq_ok. intros (Hv & _ & [= <-]).
  apply orb_false_iff in Hv as [Ha Hc]. rewrite negb_false_iff in Ha, Hc. by apply String.eqb_eq in Hc.
Qed.

Lemma validateExecutable_ok (value result : string) :
  validateExecutable value = Ok result →
  result = value ∧ IsAbs value = true ∧ Clean value = value ∧ shellEquivalent (Base value) = false.
Proof.
  unfold validateExecutable. rewrite seq_ok, refuse_ok, seq_ok, refuse_ok. intros (Hv & Hs & Hr).
  destruct (Lstat value); [|done]. apply seq_ok in Hr as [_ [= <-]].
  apply orb_false_iff in Hv as [Ha Hc]. rewrite negb_false_iff in Ha, Hc. by apply String.eqb_eq in Hc.
Qed.

Lemma validateSlot_ok (a : Argument) : validateSlot a = Ok tt → slot_ok a.
Proof.
  unfold validateSlot, slot_ok. destruct (String.eqb_spec (arg_Type a) "integer") as [->|_].
  { unfold validateIntegerSlot. rewrite refuse_ok, negb_false_iff.
    destruct (arg_Minimum a) as [low|]; [|done]. destruct (arg_Maximum a) as [high|]; [|done].
    intros Hv. bool_to_prop. by exists low, high. }
  destruct (String.eqb_spec (arg_Type a) "enum") as [->|_].
  { unfold validateEnumSlot, validateEnumValues. rewrite seq_ok, refuse_ok. intros [Hs Hv].
    unfold invalidEnumSlotShape in Hs. bool_to_prop. apply refuse_each_unique in Hv as [Hn Hv].
    split; [done|]. split; [done|]. eapply Forall_impl; [exact Hv|]. intros v. by rewrite negb_false_iff. }
  destruct (String.eqb_spec (arg_Type a) "path_beneath") as [->|_]; [|done].
  unfold validatePathSlot. rewrite seq_ok, refuse_ok, for_each_ok. intros [Hs Hv].
  unfold invalidPathSlotShape in Hs. apply orb_false_iff in Hs as [Hs Ht]. bool_to_prop. split; [done|]. split.
  - eapply Forall_impl; [exact Hv|]. intros root Hr. cbn in Hr. destruct (validateDirectory root) as [r|] eqn:E; [|done].
    by apply validateDirectory_ok in E as (_ & ? & ?).
  - apply andb_false_iff in Ht as [Ht|Ht]; rewrite negb_false_iff in Ht; apply String.eqb_eq in Ht as ->; set_solver.
Qed.

Lemma validateArguments_ok (arguments : list Argument) (slots : list string) :
  validateArguments arguments slots = Ok tt →
  Forall argument_ok arguments ∧ NoDup (slots_of arguments) ∧ (∀ s, s ∈ slots_of arguments → s ∉ slots).
Proof.
  revert slots. induction arguments as [|a arguments IH]; intros slots; cbn [validateArguments].
  { intros _. split; [constructor|]. split; [constructor|]. by intros s Hs%not_elem_of_nil. }
  rewrite bind_ok_iff. intros (slots' & Ha & Hr). apply IH in Hr as (Hok & Hn & Hd). unfold validateArgument in Ha.
  unfold slots_of in *. cbn [omap list_omap]. unfold argument_ok at 1.
  destruct (arg_Literal a) as [literal|] eqn:El.
  - unfold at_index in Ha. destruct (validateLiteralArgument a literal) as [[]|] eqn:Ev; [|done].
    injection Ha as <-. unfold validateLiteralArgument in Ev. apply seq_ok in Ev as [Hs Hv].
    apply refuse_ok in Hs. split; [|done]. constructor; [|done]. by rewrite El, Hv.
  - rewrite seq_ok, refuse_ok in Ha. destruct Ha as [Hp Ha]. unfold at_index in Ha.
    destruct (validateSlot a) as [[]|] eqn:Ev; [|done]. injection Ha as <-.
    apply orb_false_iff in Hp as [Hp Hi]. rewrite negb_false_iff in Hp. apply bool_decide_eq_false in Hi. split.
    { constructor; [|done]. rewrite El. split; [done|]. by apply validateSlot_ok. }
    split.
    + constructor; [|done]. intros Hin. apply (Hd _ Hin). by left.
    + intros s [->|Hs]%elem_of_cons; [done|]. intros Hin. apply (Hd _ Hs). by right.
Qed.

Lemma validateEnvironment_ok (environment : gmap string string) :
  validateEnvironment environment = Ok tt →
  ∀ key value, environment !! key = Some value →
    envPattern key = true ∧ unsafeEnvironmentName key = false
    ∧ is_ok (validateValue value "environment value") = true.
Proof.
  unfold validateEnvironment. rewrite for_each_map_range. intros Hv key value Hk. specialize (Hv key value Hk).
  cbn in Hv. apply seq_ok in Hv as [Hn Hv]. apply refuse_ok, orb_false_iff in Hn as [Hp Hu].
  rewrite negb_false_iff in Hp. by rewrite Hv.
Qed.

Lemma normalizeCommand_ok (raw : rawCommand) (c : Command) : normalizeCommand raw = Ok c → command_ok c.
Proof.
  unfold normalizeCommand. rewrite seq_ok, refuse_ok, negb_false_iff. intros [Hid Hc].
  apply bind_ok_iff in Hc as ([executable arguments] & He & Hc).
  apply bind_ok_iff in Hc as ([users directory] & Hu & Hc). apply bind_ok_iff in Hc as ([risk bytes] & Hm & [= <-]).
  unfold normalizeCommandExecution in He. apply bind_ok_iff in He as (exe & Hx & He).
  destruct (raw_Arguments raw) as [args|]; [|done]. apply seq_ok in He as [Hl He]. apply seq_ok in He as [Ha [= <- <-]].
  apply validateExecutable_ok in Hx as (-> & Hx). apply validateArguments_ok in Ha as (Ha & Hn & _).
  apply refuse_ok, Z.ltb_ge in Hl.
  unfold normalizeCommandIdentity in Hu. apply seq_ok in Hu as [Hlu Hu]. apply refuse_ok in Hlu. bool_to_prop.
  apply bind_ok_iff in Hu as (sorted & Hs & Hu). apply bind_ok_iff in Hu as (wd & Hd & [= <- <-]).
  apply validateDirectory_ok in Hd as (-> & Hd). unfold normalizeUsers in Hs. apply seq_ok in Hs as [Hs [= <-]].
  apply refuse_each_unique in Hs as [Hnu Hpu].
  unfold normalizeCommandMetadata in Hm. apply seq_ok in Hm as [Ht Hm]. apply refuse_ok in Ht. bool_to_prop.
  destruct (raw_MaxOutputBytes raw) as [b|]; [|done]. apply seq_ok in Hm as [Hb Hm]. apply refuse_ok in Hb. bool_to_prop.
  apply seq_ok in Hm as [Hv Hm]. apply seq_ok in Hm as [_ Hm]. apply bind_ok_iff in Hm as (r & Hr & [= <- <-]).
  assert (sort_Strings (default [] (raw_TargetUsers raw)) ≡ₚ default [] (raw_TargetUsers raw)) as Hp by apply sort_by_perm.
  constructor; cbn [sc_ID sc_Executable sc_Arguments sc_TargetUsers sc_WorkingDirectory sc_TimeoutSeconds
                    sc_MaxOutputBytes sc_Environment sc_Risk]; try done.
  - split; [|rewrite Hp; split; [done|split; [done|]]].
    + intros E. rewrite E in Hp. by apply Permutation_nil in Hp.
    + eapply Forall_impl; [exact Hpu|]. intros u. by rewrite negb_false_iff.
  - by apply validateEnvironment_ok.
  - unfold normalizeRisk in Hr. destruct (is_empty _); [by injection Hr as <-; set_solver|].
    case_bool_decide; [by injection Hr as <-|done].
Qed.

Lemma normalize_each_ok (raw : list rawCommand) (seen : list string) (commands : list Command) :
  normalize_each raw seen = Ok commands →
  Forall command_ok commands ∧ NoDup (sc_ID <$> commands) ∧ (∀ id, id ∈ sc_ID <$> commands → id ∉ seen)
  ∧ length commands = length raw.
Proof.
  revert seen commands. induction raw as [|r raw IH]; intros seen commands; cbn [normalize_each].
  { intros [= <-]. split; [constructor|]. split; [constructor|]. split; [|done]. by intros id Hid%not_elem_of_nil. }
  rewrite bind_ok_iff. intros (c & Hc & Hr). unfold at_index in Hc. destruct (normalizeCommand r) as [c'|] eqn:En; [|done].
  injection Hc as <-. apply seq_ok in Hr as [Hs Hr]. apply refuse_ok, bool_decide_eq_false in Hs.
  apply bind_ok_iff in Hr as (rest & Hr & [= <-]). apply IH in Hr as (Hok & Hn & Hd & Hl). csimpl.
  split; [constructor; [by eapply normalizeCommand_ok|done]|]. split.
  { constructor; [|done]. intros Hin. apply (Hd _ Hin). by left. }
  split; [|by rewrite Hl]. intros id [->|Hid]%elem_of_cons; [done|]. intros Hin. apply (Hd _ Hid). by right.
Qed.

(** Every snapshot that [catalog.Parse] returns, on whatever host, holds between one and 1024
    commands, each under its own id and well formed: an absolute clean executable that is no shell, at
    most 64 arguments that are bounded literals or slots with distinct names and a closed type, distinct
    target users, bounds on time and output, and a safe environment. *)
Theorem parsed_catalog_ok (data : string) (s : Snapshot) :
  catalog_Parse sha256_hex data = Ok s →
  (1 <= size (ss_commands s) <= Z.to_nat maxCommands)%nat
  ∧ ∀ id c, ss_commands s !! id = Some c → sc_ID c = id ∧ command_ok c.
Proof.
  unfold catalog_Parse. intros Hp. apply bind_ok_iff in Hp as (raw & Hr & Hp).
  apply bind_ok_iff in Hp as (commands & Hc & Hp). apply bind_ok_iff in Hp as (digest & _ & [= <-]).
  unfold normalizeCommands in Hc. apply bind_ok_iff in Hc as (cs & Hc & [= <-]).
  apply normalize_each_ok in Hc as (Hok & Hn & _ & Hl). set (sorted := sort_by _ cs) in *.
  assert (sorted ≡ₚ cs) as Hs by apply sort_by_perm. rewrite <- Hs in Hok, Hn.
  assert (((λ c, (sc_ID c, c)) <$> sorted).*1 = sc_ID <$> sorted) as Hk by (by rewrite <- list_fmap_compose).
  cbn [ss_commands]. split.
  - rewrite map_size_list_to_map, length_fmap by (by rewrite Hk). rewrite (Permutation_length Hs), Hl.
    unfold parseDocument in Hr. apply seq_ok in Hr as [_ Hr]. apply bind_ok_iff in Hr as ([doc ended] & _ & Hr).
    apply seq_ok in Hr as [_ Hr]. unfold validateDocumentHeader in Hr. apply seq_ok in Hr as [_ Hr].
    apply seq_ok in Hr as [Hb [= <-]]. apply refuse_ok in Hb. bool_to_prop.
    unfold maxCommands in *. destruct (default [] _); [done|]. cbn in *. lia.
  - intros id c Hc. apply elem_of_list_to_map_2, list_elem_of_fmap in Hc as (c' & [= -> ->] & Hin). split; [done|].
    by apply (Forall_forall command_ok sorted).
Qed.
End parsed.
