(* ===== verification/SudoPlan.v ===== *)
(** * Sudo plans: [brokers/sudo/internal/plan], [hostcheck] and [sudopolicy]

    The immutable plan of one execution ([plan.go]): its validation, its canonical
    form, the checks of the frontend when a grant is activated or used, and the
    check of the privileged helper before it runs a plan; the trusted chains of
    directories ([hostcheck.go], [acl_linux.go]).

    The canonical text is encoding/json's, the class [PlanJSON]. *)

From S2P Require Export SudoCatalog StateTables GrantsDecisions PolicyDecide.
From Stdlib Require Import Ascii.

Local Open Scope Z_scope.

(** ** [sudopolicy] *)

Definition OperationExecCommand : string := "exec.command".
Definition TargetUser : string := "user".
Definition TargetName : string := "name".
Definition AttrCommandID : string := "command_id".
Definition ArgumentPrefix : string := "argument.".

Section sudopolicy.
Context {R : MapRange}.

(** The attributes of [Registry]. *)
Definition sudo_attrs (snapshot : option Snapshot) : gmap string AttrSpec :=
  foldl (λ attrs slot, <[ArgumentPrefix +:+ slot := zero_AttrSpec]> attrs) {[AttrCommandID := zero_AttrSpec]}
    (SlotNames snapshot).

(** [sudopolicy.Registry] *)
Definition sudo_Registry (snapshot : option Snapshot) : Registry :=
  let attrs := sudo_attrs snapshot in
  MkRegistry
    {[OperationExecCommand :=
        MkOperationSpec [TargetUser] (sort_Strings (map_range attrs).*1) [] true GrantModeWindow
          [GrantModeWindow; GrantModeExecution] (24 * 60) MaxFiniteUses false]}
    {[TargetUser := MkTargetSpec {[TargetName := MkFieldSpec true (MatchOther EmptyString)]}]}
    attrs.

(** [sudopolicy.Request] *)
Definition sudo_Request (client : string) (resolved : Resolved) : Request :=
  MkRequest client OperationExecCommand
    (MkTarget TargetUser {[TargetName := [sr_TargetUser resolved]]})
    (foldl (λ attrs '(name, value), <[ArgumentPrefix +:+ name := [value]]> attrs)
       {[AttrCommandID := [sr_CommandID resolved]]} (map_range (sr_SlotValues resolved))).
End sudopolicy.

(** ** Data *)

Definition SchemaV1 : string := "sudo-broker.io/plan/v1".
Definition MetadataSchema : string := "sudo_plan_schema".
Definition MetadataDigest : string := "sudo_plan_digest".

(** [plan.Plan] *)
Record SudoPlan : Type := MkSudoPlan {
  sp_Schema : string;
  sp_RequestID : string;
  sp_ClientID : string;
  sp_Operation : string;
  sp_AuthorizationMode : string;
  sp_CommandID : string;
  sp_TargetUser : string;
  sp_TargetUID : Z;
  sp_TargetGID : Z;
  sp_SupplementaryGIDs : list Z;
  sp_Executable : string;
  sp_Arguments : list string;
  sp_WorkingDirectory : string;
  sp_Environment : list string;
  sp_TimeoutSeconds : Z;
  sp_MaxOutputBytes : Z;
  sp_SlotValues : gmap string string;
  sp_CatalogDigest : string;
  sp_RequestedDurationSeconds : Z;
  sp_RequestedMaxUses : Limit;
  sp_RequestedMaxUsesDefaulted : bool;
  sp_CreatedAt : Time
}.

Record Identity : Type := MkIdentity {
  id_Name : string;
  id_UID : Z;
  id_GID : Z;
  id_SupplementaryGIDs : list Z
}.

#[export] Instance SudoPlan_eq_dec : EqDecision SudoPlan.
Proof. solve_decision. Defined.
#[export] Instance Identity_eq_dec : EqDecision Identity.
Proof. solve_decision. Defined.

(** [IdentityResolver] *)
Definition IdentityResolver : Type := string → result error Identity.

(** [plan_DecodeNext] reads the first value of a text, rejecting unknown fields, and
    tells whether nothing follows it. *)
Class PlanJSON : Type := {
  plan_Marshal : SudoPlan → result error string;
  plan_DecodeNext : string → result error (SudoPlan * bool)
}.

(** ** Identities *)

Definition max_uint32 : Z := 2 ^ 32 - 1.

(** [parseID]: [strconv.ParseUint(value, 10, 32)] *)
Definition parseID (value : string) : option Z :=
  if is_empty value then None
  else n ← parse_digits 0 value; if n <=? max_uint32 then Some n else None.

(** The loop of [supplementaryGroups]. *)
Fixpoint supplementary_groups (groups : list string) (primary : Z) (found : list Z) : result error (list Z) :=
  match groups with
  | [] => Ok found
  | value :: rest =>
      match parseID value with
      | None => Err (ErrorNew "target supplementary group is invalid")
      | Some group =>
          supplementary_groups rest primary
            (if (group =? primary) || bool_decide (group ∈ found) then found else found ++ [group])
      end
  end.

Definition supplementaryGroups (account : Account) (primary : Z) : result error (list Z) :=
  match acc_GroupIds account with
  | Err _ => Err (ErrorNew "target supplementary groups cannot be resolved")
  | Ok groups => supplementary_groups groups primary []
  end.

Definition sort_ids : list Z → list Z := sort_by Z.ltb.

Definition SystemIdentityResolver_Lookup {H : Host} : IdentityResolver := λ name,
  match user_Lookup name with
  | Err _ => Err (ErrorNew "target user does not exist")
  | Ok account =>
      uid ← option_ok (parseID (acc_Uid account)) (ErrorNew "target user uid is invalid");
      gid ← option_ok (parseID (acc_Gid account)) (ErrorNew "target user gid is invalid");
      supplementary ← supplementaryGroups account gid;
      Ok (MkIdentity (acc_Username account) uid gid (sort_ids supplementary))
  end.

(** ** Validation *)

Definition boundedIdentifier (value : string) : bool :=
  (1 <=? len value) && (len value <=? 128) && String.eqb (trim_space value) value && negb (has_control value).

Definition boundedPlainValue (value : string) (maximum : Z) : bool :=
  (len value <=? maximum) && negb (contains (String "000" EmptyString) value) && negb (has_control value).

Definition absoluteClean (value : string) : bool :=
  IsAbs value && String.eqb (Clean value) value && boundedPlainValue value 4096.

(** [slices.IsSorted] *)
Fixpoint is_sorted {A} (before : A → A → bool) (l : list A) : bool :=
  match l with
  | a :: (b :: _) as rest => negb (before b a) && is_sorted before rest
  | _ => true
  end.

Fixpoint hasDuplicateIDs (values : list Z) : bool :=
  match values with
  | a :: (b :: _) as rest => (a =? b) || hasDuplicateIDs rest
  | _ => false
  end.

Definition validSupplementaryGroups (values : list Z) : bool :=
  is_sorted Z.ltb values && negb (hasDuplicateIDs values).

Definition validAuthorizationMode (value : string) : bool :=
  String.eqb value "window" || String.eqb value "execution".

Definition validAuthorizationUses (mode : string) (uses : Limit) : bool :=
  if String.eqb mode "execution" then uses =? SingleUse
  else String.eqb mode "window" && (0 <=? uses) && (uses <=? MaxFiniteUses).

Definition validPlanRequestIdentity (p : SudoPlan) : bool :=
  String.eqb (sp_Schema p) SchemaV1 && boundedIdentifier (sp_RequestID p) && boundedIdentifier (sp_ClientID p)
  && String.eqb (sp_Operation p) OperationExecCommand && validAuthorizationMode (sp_AuthorizationMode p).

Definition validPlanCommandIdentity (p : SudoPlan) : bool :=
  boundedIdentifier (sp_CommandID p) && boundedIdentifier (sp_TargetUser p).

Definition validPlanIdentity (p : SudoPlan) : bool :=
  validPlanRequestIdentity p && validPlanCommandIdentity p && absoluteClean (sp_Executable p)
  && absoluteClean (sp_WorkingDirectory p).

Definition maxPlanSeconds : Z := 7 * 24 * 3600.

Definition validPlanLimits (p : SudoPlan) : bool :=
  (0 <? sp_TimeoutSeconds p) && (sp_TimeoutSeconds p <=? 3600) && (sp_MaxOutputBytes p <=? Z.shiftl 1 20)
  && negb (is_empty (sp_CatalogDigest p)) && (0 <? sp_RequestedDurationSeconds p)
  && (sp_RequestedDurationSeconds p <=? maxPlanSeconds)
  && validAuthorizationUses (sp_AuthorizationMode p) (sp_RequestedMaxUses p)
  && negb (time_is_zero (sp_CreatedAt p)).

Definition validatePlanHeader (p : SudoPlan) : result error unit :=
  refuse (negb (validPlanIdentity p) || negb (validPlanLimits p)) (ErrorNew "sudo plan is invalid").

Definition validPlanCollectionLimits (p : SudoPlan) : bool :=
  plandigest_Valid (sp_CatalogDigest p) && (Z.of_nat (length (sp_Arguments p)) <=? 64)
  && (Z.of_nat (length (sp_Environment p)) <=? 128) && (Z.of_nat (size (sp_SlotValues p)) <=? 64)
  && (Z.of_nat (length (sp_SupplementaryGIDs p)) <=? 256).

Definition validPlanArguments (values : list string) : bool := forallb (λ v, boundedPlainValue v 4096) values.

Definition validatePlanCollections (p : SudoPlan) : result error unit :=
  refuse (negb (validPlanCollectionLimits p)) (ErrorNew "sudo plan is invalid") ;;;
  refuse (negb (validSupplementaryGroups (sp_SupplementaryGIDs p)))
    (ErrorNew "sudo plan supplementary groups are invalid") ;;;
  refuse (negb (validPlanArguments (sp_Arguments p))) (ErrorNew "sudo plan argument is invalid").

Definition validEnvironmentEntry (key value : string) (seen : bool) : bool :=
  negb (is_empty key) && negb seen && boundedPlainValue value 4096 && negb (has_prefix "LD_" key)
  && negb (has_prefix "DYLD_" key).

Definition validEnvironmentKeyCharacter (r : Z) : bool :=
  ((65 <=? r) && (r <=? 90)) || ((48 <=? r) && (r <=? 57)) || (r =? 95).

(** The loop of [validatePlanEnvironment], with the keys seen so far. *)
Fixpoint validate_environment (values seen : list string) : result error unit :=
  match values with
  | [] => Ok tt
  | value :: rest =>
      let invalid := ErrorNew "sudo plan environment is invalid" in
      match cut_byte "=" value with
      | None => Err invalid
      | Some (key, item) =>
          refuse (negb (validEnvironmentEntry key item (bool_decide (key ∈ seen)))) invalid ;;;
          refuse (negb (forallb validEnvironmentKeyCharacter (runes key))) invalid ;;;
          validate_environment rest (key :: seen)
      end
  end.

Definition validatePlanEnvironment (values : list string) : result error unit :=
  refuse (negb (is_sorted string_ltb values)) (ErrorNew "sudo plan environment is not canonical") ;;;
  validate_environment values [].

Section plan.
Context {R : MapRange} {H : Host} {JT : JSONTokens} {CJ : CatalogJSON} {PJ : PlanJSON}.
Context (plandigest_Digest : string → string).

Definition validPlanSlots (values : gmap string string) : bool :=
  forallb (λ '(key, value), boundedIdentifier key && boundedPlainValue value 4096) (map_range values).

(** [validate] *)
Definition plan_validate (p : SudoPlan) : result error unit :=
  validatePlanHeader p ;;;
  validatePlanCollections p ;;;
  validatePlanEnvironment (sp_Environment p) ;;;
  refuse (negb (validPlanSlots (sp_SlotValues p))) (ErrorNew "sudo plan slot value is invalid").

(** [encode] and [decode] *)
Definition EncodeCanonical (p : SudoPlan) : result error string :=
  plan_validate p ;;; plan_Marshal p.

Definition DecodeCanonical (data : string) : result error SudoPlan :=
  RejectDuplicateKeys data ;;;
  '(p, ended) ← plan_DecodeNext data;
  refuse (negb ended) (ErrorNew "decode sudo plan: trailing data") ;;;
  plan_validate p ;;;
  Ok p.

(** ** Building a plan *)

Definition environment_entries (environment : gmap string string) : list string :=
  (λ '(key, value), key +:+ "=" +:+ value) <$> map_range environment.

(** [boundEnvironment], also built by [validateCatalogBinding]. *)
Definition boundEnvironment (values : gmap string string) : list string :=
  sort_Strings (environment_entries (values ∪ {["LANG" := "C"; "LC_ALL" := "C"]})).

Definition validBuildRequestIdentity (req : GrantRequest) : bool :=
  String.eqb (req_Operation req) OperationExecCommand && negb (is_empty (req_Client req))
  && negb (is_empty (req_ClientRequestID req)) && (0 <? req_Duration req).

Definition metadata_mode (metadata : gmap string string) : string := default EmptyString (metadata !! MetadataMode).

Definition validBuildRequest (req : GrantRequest) (resolved : Resolved) (identity : Identity) : bool :=
  validBuildRequestIdentity req && validAuthorizationUses (metadata_mode (req_Metadata req)) (req_MaxUses req)
  && String.eqb (id_Name identity) (sr_TargetUser resolved).

(** [FirstValue(values[name])] *)
Definition first_of (values : StringListMap) (name : string) : string := FirstValue (default [] (values !! name)).

Definition buildRequestMatchesResolved (req : GrantRequest) (resolved : Resolved) : bool :=
  String.eqb (target_Kind (req_Target req)) TargetUser
  && String.eqb (first_of (target_Fields (req_Target req)) TargetName) (sr_TargetUser resolved)
  && String.eqb (first_of (req_Attrs req) AttrCommandID) (sr_CommandID resolved).

(** Whether every slot is an attribute of the request or grant, with its value. *)
Definition slots_match (slots : gmap string string) (attrs : StringListMap) : bool :=
  forallb (λ '(slot, value), String.eqb (first_of attrs (ArgumentPrefix +:+ slot)) value) (map_range slots).

(** [int64(duration.Seconds())]: the rounding of [float64] does not reach the next second
    below 2^24 seconds, and [validate] refuses more than seven days. *)
Definition whole_seconds (d : Duration) : Z := Z.quot d second.

(** [uint32(value)] *)
Definition to_uint32 (z : Z) : Z := z mod 2 ^ 32.

Definition plan_Build (req : GrantRequest) (resolved : Resolved) (identity : Identity) (now : Time)
    : result error SudoPlan :=
  refuse (negb (validBuildRequest req resolved identity)) (ErrorNew "sudo plan input is invalid") ;;;
  refuse (negb (buildRequestMatchesResolved req resolved))
    (ErrorNew "sudo plan request does not match resolved command") ;;;
  refuse (negb (slots_match (sr_SlotValues resolved) (req_Attrs req)))
    (ErrorNew "sudo plan slot values do not match request") ;;;
  match sr_Arguments resolved with
  | argv0 :: arguments =>
      refuse (negb (String.eqb argv0 (sr_Executable resolved))) (ErrorNew "sudo resolved argv is invalid") ;;;
      Ok (MkSudoPlan SchemaV1 (req_ClientRequestID req) (req_Client req) (req_Operation req)
            (metadata_mode (req_Metadata req)) (sr_CommandID resolved) (sr_TargetUser resolved) (id_UID identity)
            (id_GID identity) (sort_ids (id_SupplementaryGIDs identity)) (sr_Executable resolved) arguments
            (sr_WorkingDirectory resolved) (boundEnvironment (sr_Environment resolved))
            (to_uint32 (sr_TimeoutSeconds resolved)) (to_uint32 (sr_MaxOutputBytes resolved)) (sr_SlotValues resolved) (sr_CatalogDigest resolved)
            (whole_seconds (req_Duration req)) (req_MaxUses req) (req_MaxUsesDefaulted req) now)
  | [] => Err (ErrorNew "sudo resolved argv is invalid")
  end.

(** [Store.PrepareBind]: the request with its metadata, and the immutable plan. *)
Definition PrepareBind (req : GrantRequest) (p : SudoPlan) : result error (gmap string string * Plan) :=
  encoded ← EncodeCanonical p;
  let digest := plandigest_Digest encoded in
  Ok (<[MetadataDigest := digest]> (<[MetadataSchema := SchemaV1]> (req_Metadata req)),
      MkPlan digest SchemaV1 encoded (sp_CreatedAt p)).

(** ** The check against the catalog and the host *)

(** [environmentMap]; a nil map is the empty one. *)
Fixpoint environment_map (values : list string) (out : gmap string string) : gmap string string :=
  match values with
  | [] => out
  | value :: rest =>
      match cut_byte "=" value with
      | Some (key, item) =>
          if is_empty key || negb (is_empty (default EmptyString (out !! key))) then ∅
          else environment_map rest (<[key := item]> out)
      | None => ∅
      end
  end.

Definition environmentMap (values : list string) : gmap string string := environment_map values ∅.

Definition resolvedFromPlan (p : SudoPlan) : Resolved :=
  MkResolved (sp_CommandID p) (sp_TargetUser p) (sp_Executable p) (sp_Executable p :: sp_Arguments p)
    (sp_WorkingDirectory p) (environmentMap (sp_Environment p)) (sp_TimeoutSeconds p) (sp_MaxOutputBytes p)
    (sp_SlotValues p) (sp_CatalogDigest p).

Definition set_Environment (environment : gmap string string) (r : Resolved) : Resolved :=
  MkResolved (sr_CommandID r) (sr_TargetUser r) (sr_Executable r) (sr_Arguments r) (sr_WorkingDirectory r)
    environment (sr_TimeoutSeconds r) (sr_MaxOutputBytes r) (sr_SlotValues r) (sr_CatalogDigest r).

Definition validateCatalogBinding (p : SudoPlan) (snapshot : option Snapshot) : result error unit :=
  match Snapshot_Command snapshot (sp_CommandID p) with
  | None => Err (ErrorNew "sudo command no longer exists")
  | Some command =>
      refuse (negb (bool_decide (boundEnvironment (sc_Environment command) = sp_Environment p)))
        (ErrorNew "sudo plan environment no longer matches the catalog") ;;;
      ValidateResolved snapshot (set_Environment (sc_Environment command) (resolvedFromPlan p))
  end.

Definition identityMatchesPlan (identity : Identity) (p : SudoPlan) : bool :=
  String.eqb (id_Name identity) (sp_TargetUser p) && (id_UID identity =? sp_TargetUID p)
  && (id_GID identity =? sp_TargetGID p)
  && bool_decide (id_SupplementaryGIDs identity = sp_SupplementaryGIDs p).

Definition validatePlanIdentity (resolver : IdentityResolver) (p : SudoPlan) (message : string) : result error unit :=
  match resolver (sp_TargetUser p) with
  | Ok identity => refuse (negb (identityMatchesPlan identity p)) (ErrorNew message)
  | Err _ => Err (ErrorNew message)
  end.

Definition validateHelperIdentity (identities : IdentityResolver) (p : SudoPlan) : result error unit :=
  validatePlanIdentity identities p "sudo target identity does not match the execution plan".

Definition validateCurrentIdentity (identities : IdentityResolver) (p : SudoPlan) : result error unit :=
  validatePlanIdentity identities p "sudo target identity changed after request".

Definition ValidateForHelper (p : SudoPlan) (snapshot : option Snapshot) (identities : option IdentityResolver)
    : result error unit :=
  plan_validate p ;;;
  match snapshot, identities with
  | Some _, Some identities =>
      validateCatalogBinding p snapshot ;;;
      validateHelperIdentity identities p
  | _, _ => Err (ErrorNew "sudo helper validation dependencies are unavailable")
  end.

(** ** Grants and their plans *)

(** [Store.Get]; the store is the plans table of a database. *)
Definition PlanStore_Get (digest : string) (d : Database) : result error SudoPlan :=
  stored ← Database_Plan plandigest_Digest digest d;
  refuse (negb (String.eqb (plan_SchemaName stored) SchemaV1)) (ErrorNew "sudo plan schema is unsupported") ;;;
  DecodeCanonical (plan_Canonical stored).

Definition PlanStore_Canonical (digest : string) (d : Database) : result error string :=
  stored ← Database_Plan plandigest_Digest digest d;
  refuse (negb (String.eqb (plan_SchemaName stored) SchemaV1)
          || negb (String.eqb (plandigest_Digest (plan_Canonical stored)) digest))
    (ErrorNew "sudo plan content is invalid") ;;;
  Ok (plan_Canonical stored).

Definition requestedGrantBounds (g : Grant) : Duration * Limit :=
  (if grant_RequestedDuration g <=? 0 then grant_Duration g else grant_RequestedDuration g,
   if grant_RequestedMaxUses g <? 0 then grant_MaxUses g else grant_RequestedMaxUses g).

Definition requestedGrantMaxUses (g : Grant) : Limit := (requestedGrantBounds g).2.

Definition planMatchesGrantScope (p : SudoPlan) (g : Grant) : bool :=
  String.eqb (sp_ClientID p) (grant_Client g) && String.eqb (sp_Operation p) (grant_Operation g)
  && String.eqb (sp_Operation p) OperationExecCommand
  && String.eqb (sp_TargetUser p) (first_of (target_Fields (grant_Target g)) TargetName)
  && String.eqb (sp_CommandID p) (first_of (grant_Attrs g) AttrCommandID).

Definition planMatchesGrantIdentity (p : SudoPlan) (g : Grant) : bool :=
  String.eqb (sp_RequestID p) (grant_ClientRequestID g) && planMatchesGrantScope p g.

Definition planMatchesGrantShape (p : SudoPlan) (g : Grant) : bool :=
  String.eqb (target_Kind (grant_Target g)) TargetUser && (size (target_Fields (grant_Target g)) =? 1)%nat
  && (size (grant_Attrs g) =? size (sp_SlotValues p) + 1)%nat.

Definition planMatchesGrant (p : SudoPlan) (g : Grant) (duration : Duration) (maxUses : Limit) : bool :=
  planMatchesGrantIdentity p g && planMatchesGrantShape p g
  && (sp_RequestedDurationSeconds p =? whole_seconds duration) && (sp_RequestedMaxUses p =? maxUses)
  && Bool.eqb (sp_RequestedMaxUsesDefaulted p) (grant_RequestedMaxUsesDefaulted g)
  && String.eqb (sp_AuthorizationMode p) (metadata_mode (grant_Metadata g)).

Definition grantSlotsMatch (p : SudoPlan) (g : Grant) : bool := slots_match (sp_SlotValues p) (grant_Attrs g).

Definition validateLoadedGrantPlan (p : SudoPlan) (g : Grant) (duration : Duration) (maxUses : Limit)
    : result error unit :=
  refuse (negb (planMatchesGrant p g duration maxUses)) (ErrorNew "sudo grant does not match its immutable plan") ;;;
  refuse (negb (grantSlotsMatch p g)) (ErrorNew "sudo grant slot values do not match its plan").

Definition constraintsWithinGrant (c : ApprovalConstraints) (duration : Duration) (maximum : Limit) : bool :=
  (ac_Duration c <=? duration)
  && ((negb (ac_MaxUsesSpecified c) && negb (IsFinite (ac_MaxUses c)))
      || IsUnlimited maximum || (IsFinite (ac_MaxUses c) && (ac_MaxUses c <=? maximum))).

(** ** The validator of the frontend, with the catalog, the identities and the plans it has *)

Context (snapshot : option Snapshot) (identities : option IdentityResolver) (plans : option Database)
  (helper_Ready : option (option error)).

(** [validateGrantPlanInputs], with the dependencies it has checked. *)
Definition validateGrantPlanInputs (g : Grant) : result error (IdentityResolver * Database) :=
  match plans, snapshot, identities with
  | Some plans, Some _, Some identities =>
      refuse (negb (String.eqb (default EmptyString (grant_Metadata g !! MetadataSchema)) SchemaV1))
        (ErrorNew "sudo grant plan schema is missing or unsupported") ;;;
      Ok (identities, plans)
  | _, _, _ => Err (ErrorNew "sudo plan validator is unavailable")
  end.

Definition grant_digest (g : Grant) : string := default EmptyString (grant_Metadata g !! MetadataDigest).

Definition loadGrantPlan (g : Grant) : result error (SudoPlan * Duration * IdentityResolver) :=
  '(identities, plans) ← validateGrantPlanInputs g;
  p ← PlanStore_Get (grant_digest g) plans;
  let '(duration, maxUses) := requestedGrantBounds g in
  validateLoadedGrantPlan p g duration maxUses ;;;
  Ok (p, duration, identities).

(** The error of [validateCurrentIdentity], replaced by the same text. *)
Definition identity_unchanged (identities : IdentityResolver) (p : SudoPlan) : result error unit :=
  match validateCurrentIdentity identities p with
  | Ok _ => Ok tt
  | Err _ => Err (ErrorNew "sudo target identity changed after request")
  end.

Definition validateGrant (g : Grant) (constraints : ApprovalConstraints) : result error unit :=
  '(p, requestedDuration, identities) ← loadGrantPlan g;
  validateCatalogBinding p snapshot ;;;
  identity_unchanged identities p ;;;
  refuse (negb (constraintsWithinGrant constraints requestedDuration (requestedGrantMaxUses g))) ErrConstraintExceeded.

Definition helper_ready : result error unit :=
  match helper_Ready with
  | None => Err (ErrorNew "sudo privileged helper is unavailable")
  | Some (Some e) => Err e
  | Some None => Ok tt
  end.

Definition ValidateActivation (g : Grant) (constraints : ApprovalConstraints) : result error unit :=
  validateGrant g constraints ;;; helper_ready.

Definition ValidateGrant (g : Grant) : result error SudoPlan :=
  validateGrant g (MkApprovalConstraints 0 0 false) ;;;
  match plans with
  | Some plans => PlanStore_Get (grant_digest g) plans
  | None => Err (ErrorNew "sudo plan store is unavailable")
  end.

Definition ValidateExecution (g : Grant) : result error SudoPlan :=
  p ← ValidateGrant g; helper_ready ;;; Ok p.

Definition validateExecutionInvocationPlan (p : SudoPlan) (g : Grant) (digest requestID : string) : result error unit :=
  let '(duration, maxUses) := requestedGrantBounds g in
  refuse (negb (String.eqb digest (grant_digest g)) || negb (String.eqb requestID (grant_ClientRequestID g))
          || negb (is_ok (validateLoadedGrantPlan p g duration maxUses)))
    (ErrorNew "sudo execution grant does not match its immutable plan").

Definition planMatchesWindowBounds (p : SudoPlan) (g : Grant) : bool :=
  (sp_RequestedDurationSeconds p =? whole_seconds (grant_Duration g)) && (sp_RequestedMaxUses p =? grant_MaxUses g)
  && Bool.eqb (sp_RequestedMaxUsesDefaulted p) (grant_RequestedMaxUsesDefaulted g)
  && String.eqb (sp_AuthorizationMode p) "window".

Definition validateWindowInvocationPlan (p : SudoPlan) (g : Grant) (requestID : string) : result error unit :=
  refuse (negb (String.eqb (sp_RequestID p) requestID) || negb (planMatchesGrantScope p g)
          || negb (planMatchesGrantShape p g) || negb (grantSlotsMatch p g) || negb (planMatchesWindowBounds p g))
    (ErrorNew "sudo window grant does not cover the immutable plan").

Definition validateInvocationGrantPlan (p : SudoPlan) (g : Grant) (digest requestID : string) : result error unit :=
  let mode := metadata_mode (grant_Metadata g) in
  if String.eqb mode "execution" then validateExecutionInvocationPlan p g digest requestID
  else if String.eqb mode "window" then validateWindowInvocationPlan p g requestID
  else Err (ErrorNew "sudo grant mode is invalid").

Definition ValidateInvocation (digest : string) (g : Grant) (requestID : string) : result error SudoPlan :=
  '(identities, plans) ← validateGrantPlanInputs g;
  p ← PlanStore_Get digest plans;
  validateInvocationGrantPlan p g digest requestID ;;;
  validateCatalogBinding p snapshot ;;;
  identity_unchanged identities p ;;;
  Ok p.
End plan.

(** ** Trusted chains: [hostcheck] *)

Section hostcheck.
Context {H : Host}.

Definition trustedRootOwner (uid : Z) : bool := uid =? 0.

Definition validateRootOwner (path : string) (info : FileInfo) : result error unit :=
  match fi_Uid info with
  | None => Err (ErrorNew "file owner is unavailable")
  | Some uid => refuse (negb (trustedRootOwner uid)) (errorf "%s is not root-owned" [path])
  end.

(** [validatePathACL]: one attribute after the other. *)
Definition validatePathACL (path : string) (directory : bool) : result error unit :=
  for_each (λ name,
      match Lgetxattr path name with
      | Err e => Err (Errorf "inspect %s: %w" [name] [e])
      | Ok None => Ok tt
      | Ok (Some size) => refuse (0 <? size) (ErrorNew "extended POSIX ACL is present")
      end)
    ("system.posix_acl_access" :: if directory then ["system.posix_acl_default"] else []).

Definition validateTrustedPermissions (path : string) (info : FileInfo) : result error unit :=
  refuse (negb (Z.land (Perm info) 18 =? 0)) (errorf "%s is group- or world-writable" [path]) ;;;
  match validatePathACL path (IsDir info) with
  | Err e => Err (Errorf "%s ACL is unsafe: %w" [path] [e])
  | Ok _ => Ok tt
  end.

Definition validateTrustedComponentOwnership (path : string) (info : FileInfo) : result error unit :=
  refuse (IsSymlink info) (errorf "%s is a symlink" [path]) ;;;
  validateRootOwner path info ;;;
  validateTrustedPermissions path info.

Definition validateTrustedComponentKind (path : string) (info : FileInfo) (finalFile last : bool) : result error unit :=
  if negb last || negb finalFile then refuse (negb (IsDir info)) (errorf "%s is not a directory" [path])
  else refuse (negb (IsRegular info)) (errorf "%s is not a regular file" [path]).

Definition validateTrustedComponent (path : string) (info : FileInfo) (finalFile last : bool) : result error unit :=
  validateTrustedComponentOwnership path info ;;;
  validateTrustedComponentKind path info finalFile last.

(** The loop of [validateTrustedChain] over the components left. *)
Fixpoint trusted_chain (current : string) (components : list string) (finalFile : bool) : result error unit :=
  match components with
  | [] => Ok tt
  | component :: rest =>
      let current := filepath_Join [current; component] in
      match Lstat current with
      | Err e => Err (Errorf "lstat %s: %w" [current] [e])
      | Ok info =>
          validateTrustedComponent current info finalFile (bool_decide (rest = [])) ;;;
          trusted_chain current rest finalFile
      end
  end.

(** The uids of the broker and of the target do not influence the answer. *)
Definition validateTrustedChain (path : string) (finalFile : bool) (brokerUID targetUID : Z) : result error unit :=
  refuse (negb (IsAbs path) || negb (String.eqb (Clean path) path))
    (ErrorNew "path must be absolute and normalized") ;;;
  trusted_chain "/" (if String.eqb path "/" then [] else split_byte Separator (drop_bytes 1 path)) finalFile.

Definition hostcheck_ValidateExecution (p : SudoPlan) (brokerUID : Z) : result error unit :=
  match validateTrustedChain (sp_Executable p) true brokerUID (sp_TargetUID p) with
  | Err e => Err (Errorf "executable path is unsafe: %w" [] [e])
  | Ok _ =>
      match validateTrustedChain (sp_WorkingDirectory p) false brokerUID (sp_TargetUID p) with
      | Err e => Err (Errorf "working directory is unsafe: %w" [] [e])
      | Ok _ => Ok tt
      end
  end.

Definition ValidateRootFile (path : string) : result error unit :=
  validateTrustedChain path true max_uint32 max_uint32 ;;;
  refuse (match Lstat path with Ok info => negb (IsRegular info) | Err _ => true end)
    (ErrorNew "path must be a regular file").

Definition ValidateRootDirectory (path : string) : result error unit :=
  validateTrustedChain path false max_uint32 max_uint32.

Definition validateStaleSocketInfo (info : FileInfo) (brokerUID : Z) : result error unit :=
  refuse (IsSymlink info || (Z.land (fi_Mode info) ModeSocket =? 0))
    (ErrorNew "existing helper socket path is not a Unix socket") ;;;
  match fi_Uid info with
  | None => Err (ErrorNew "file owner is unavailable")
  | Some uid =>
      refuse (negb (uid =? 0) && negb (uid =? brokerUID)) (ErrorNew "existing helper socket has an unexpected owner")
  end.

Definition ValidateStaleSocket (path : string) (brokerUID : Z) : result error unit :=
  ValidateRootDirectory (Dir path) ;;;
  match Lstat path with
  | Err e => refuse (negb (errors_Is e (ErrorNew "file does not exist"))) e
  | Ok info => validateStaleSocketInfo info brokerUID
  end.
End hostcheck.

(** ** What a resolved command may be *)

Section resolution.
Context {R : MapRange} {H : Host} {HL : HostLaws H} {JT : JSONTokens} {CJ : CatalogJSON} {PJ : PlanJSON}.

(** The arguments an entry of the catalog admits. *)
Inductive argument_allowed (spec : Argument) (value : string) : Prop :=
| allowed_literal : arg_Literal spec = Some value → argument_allowed spec value
| allowed_integer (low high z : Z) :
    arg_Literal spec = None → arg_Type spec = "integer" →
    arg_Minimum spec = Some low → arg_Maximum spec = Some high → low <= z <= high → value = FormatInt z →
    argument_allowed spec value
| allowed_enum :
    arg_Literal spec = None → arg_Type spec = "enum" → value ∈ arg_Values spec → argument_allowed spec value
| allowed_path (root resolved : string) :
    arg_Literal spec = None → arg_Type spec = "path_beneath" →
    root ∈ arg_Roots spec → EvalSymlinks root = Ok resolved →
    IsAbs value = true → path_elements resolved `prefix_of` path_elements value →
    (arg_MustExist spec = true → is_ok (Stat value) = true) →
    (∀ info, Stat value = Ok info → is_ok (validateExistingPathType info (arg_FileType spec)) = true) →
    argument_allowed spec value.

Lemma Clean_is_abs (path : string) : IsAbs path = true → IsAbs (Clean path) = true.
Proof. intros Ha. by rewrite Clean_abs. Qed.

Lemma resolve_missing_abs (fuel : nat) (l missing : list string) (value : string) :
  Forall normal_element l → (length l < fuel)%nat →
  resolve_missing fuel (rooted_path l) missing = Ok value → IsAbs value = true.
Proof.
  intros Hl Hf E. destruct (resolve_missing_spec fuel l missing Hl Hf) as [E'|(there & gone & resolved & _ & _ & _ & He & E')];
    rewrite E' in E; [done|]. injection E as <-. apply EvalSymlinks_abs in He; [|done]. clear E'. revert resolved He.
  induction (gone ++ missing) as [|name names IH]; intros resolved Hr; [done|]. cbn [foldl]. apply IH.
  cbn [filepath_Join]. destruct resolved as [|c t]; [done|]. cbn [is_empty join]. apply Clean_is_abs.
  by rewrite app_cons.
Qed.

(** Plain elements, joined, are no shorter than they are many. *)
Lemma length_join_plain (l : list string) : Forall plain_element l → (length l <= String.length (join "/" l))%nat.
Proof.
  induction l as [|e l IH]; intros Hl; [cbn; lia|]. apply Forall_cons in Hl as [[He _] Hl]. specialize (IH Hl).
  assert (0 < String.length e)%nat by (destruct e; [congruence|cbn; lia]).
  destruct l as [|e' l]; [cbn [join length]; lia|].
  change (join "/" (e :: e' :: l)) with (e +:+ "/" +:+ join "/" (e' :: l)).
  rewrite !length_app_string. cbn [length] in *. lia.
Qed.

Lemma resolvePath_allowed (spec : Argument) (value resolved : string) :
  arg_Literal spec = None → arg_Type spec = "path_beneath" → Forall (λ root, IsAbs root = true) (arg_Roots spec) →
  resolvePath spec value = Ok resolved → argument_allowed spec resolved.
Proof.
  intros Hlit Ht Hroots. unfold resolvePath. rewrite seq_ok, refuse_ok. intros [Hv Hr].
  apply orb_false_iff in Hv as [Ha Hc]. rewrite negb_false_iff in Ha, Hc. apply String.eqb_eq in Hc.
  apply bind_ok_iff in Hr as (r & He & Hr). apply seq_ok in Hr as [Hi Hr]. apply refuse_ok, negb_false_iff in Hi.
  assert (IsAbs r = true) as Hra.
  { unfold resolveCatalogPath in He. destruct (EvalSymlinks value) as [r'|] eqn:Ev.
    - injection He as <-. by eapply EvalSymlinks_abs.
    - apply seq_ok in He as [_ He]. unfold resolveMissingPath in He.
      pose proof (path_elements_normal value Ha) as Hn. rewrite Clean_abs in Hc by done. fold (rooted_path (path_elements value)) in Hc.
      rewrite <- Hc in He at 2. eapply resolve_missing_abs; [exact Hn| |exact He].
      pose proof (length_join_plain (path_elements value) (path_elements_plain value)).
      assert (String.length value = S (String.length (join "/" (path_elements value)))) by (by rewrite <- Hc at 1).
      lia. }
  unfold insideAnyRoot in Hi. apply existsb_elem_of in Hi as (root & Hin & Hb).
  destruct (EvalSymlinks root) as [rr|] eqn:Er; [|done]. rewrite Forall_forall in Hroots.
  assert (r = resolved ∧ (arg_MustExist spec = true → is_ok (Stat resolved) = true)
          ∧ ∀ info, Stat resolved = Ok info → is_ok (validateExistingPathType info (arg_FileType spec)) = true)
    as (-> & Hm & Hs).
  { unfold validateResolvedPathType in Hr. destruct (Stat r) as [info|] eqn:Es.
    - apply seq_ok in Hr as [Hx [= <-]]. split; [done|]. rewrite Es. split; [done|]. intros i [= <-]. by rewrite Hx.
    - apply seq_ok in Hr as [Hx [= <-]]. apply refuse_ok in Hx. split; [done|]. rewrite Es, Hx. by split. }
  apply (allowed_path spec resolved root rr); try done. apply pathBeneath_prefix; [|done|done].
  eapply EvalSymlinks_abs; [|exact Er]. by apply Hroots.
Qed.

(** The roots of a path argument are absolute. *)
Definition roots_abs (spec : Argument) : Prop :=
  arg_Literal spec = None → arg_Type spec = "path_beneath" → Forall (λ root, IsAbs root = true) (arg_Roots spec).

Lemma argument_ok_roots (spec : Argument) : argument_ok spec → roots_abs spec.
Proof.
  unfold argument_ok, roots_abs, slot_ok. intros Hok Hl Ht. rewrite Hl, Ht in Hok. destruct Hok as (_ & _ & Hr & _).
  eapply Forall_impl; [exact Hr|]. by intros root [].
Qed.

Lemma resolveCommandArgument_allowed (spec : Argument) (inputs : gmap string string) (value slot : string) :
  roots_abs spec → resolveCommandArgument spec inputs = Ok (value, slot) → argument_allowed spec value.
Proof.
  intros Hroots. unfold resolveCommandArgument. destruct (arg_Literal spec) as [literal|] eqn:El.
  { intros [= -> _]. by apply allowed_literal. }
  destruct (inputs !! arg_Slot spec) as [raw|]; [|done]. destruct (resolveArgument spec raw) as [v|] eqn:Er; [|done].
  intros [= <- _]. unfold resolveArgument in Er. destruct (RejectDuplicateKeys raw); [|done].
  destruct (String.eqb_spec (arg_Type spec) "integer") as [Ht|_].
  { unfold resolveIntegerArgument in Er. destruct (parse_int raw) as [z|]; [|done].
    destruct (arg_Minimum spec) as [low|] eqn:Emin; [|done]. destruct (arg_Maximum spec) as [high|] eqn:Emax; [|done].
    apply seq_ok in Er as [Hb [= <-]]. apply refuse_ok in Hb. bool_to_prop.
    by apply (allowed_integer spec _ low high z). }
  destruct (String.eqb_spec (arg_Type spec) "enum") as [Ht|_].
  { unfold resolveEnumArgument in Er. destruct (string_Unmarshal raw) as [w|]; [|done].
    apply seq_ok in Er as [Hb [= <-]]. apply refuse_ok, negb_false_iff, bool_decide_eq_true in Hb.
    by apply allowed_enum. }
  destruct (String.eqb_spec (arg_Type spec) "path_beneath") as [Ht|_]; [|done].
  unfold resolvePathArgument in Er. destruct (string_Unmarshal raw) as [w|]; [|done].
  by apply (resolvePath_allowed spec w v), Er; [|done|apply Hroots].
Qed.

Lemma resolve_each_allowed (specs : list Argument) (inputs : gmap string string) (argv argv' : list string)
    (values values' : gmap string string) (seen seen' : list string) :
  Forall roots_abs specs → resolve_each specs inputs argv values seen = Ok (argv', values', seen') →
  ∃ new, argv' = argv ++ new ∧ Forall2 argument_allowed specs new.
Proof.
  revert argv values seen. induction specs as [|spec specs IH]; intros argv values seen Hs; cbn [resolve_each].
  { intros [= <- _ _]. exists []. by rewrite app_nil_r. }
  apply Forall_cons in Hs as [Hs Hss]. intros E. apply bind_ok_iff in E as ([value slot] & Ha & E).
  apply resolveCommandArgument_allowed in Ha; [|done].
  assert (∃ v s, resolve_each specs inputs (argv ++ [value]) v s = Ok (argv', values', seen')) as (v & s' & E')
    by (destruct (is_empty slot); eauto).
  apply IH in E' as (new & -> & Hn); [|done]. exists (value :: new). rewrite <- app_assoc. split; [done|by constructor].
Qed.

(** What a plan that the helper accepts is: an entry of the catalog, with arguments the entry admits,
    for an account of the host as it is now. *)
Record plan_authorized (s : Snapshot) (identities : IdentityResolver) (p : SudoPlan) (c : Command) : Prop := {
  pa_command : ss_commands s !! sp_CommandID p = Some c;
  pa_catalog : sp_CatalogDigest p = ss_digest s;
  pa_user : sp_TargetUser p ∈ sc_TargetUsers c;
  pa_executable : sp_Executable p = sc_Executable c;
  pa_arguments : Forall2 argument_allowed (sc_Arguments c) (sp_Arguments p);
  pa_directory : sp_WorkingDirectory p = sc_WorkingDirectory c;
  pa_environment : sp_Environment p = boundEnvironment (sc_Environment c);
  pa_timeout : sp_TimeoutSeconds p = sc_TimeoutSeconds c;
  pa_output : sp_MaxOutputBytes p = sc_MaxOutputBytes c;
  pa_identity : identities (sp_TargetUser p)
    = Ok (MkIdentity (sp_TargetUser p) (sp_TargetUID p) (sp_TargetGID p) (sp_SupplementaryGIDs p))
}.

Lemma validateCatalogBinding_authorized (p : SudoPlan) (s : Snapshot) :
  (∀ id c, ss_commands s !! id = Some c → Forall roots_abs (sc_Arguments c)) →
  validateCatalogBinding p (Some s) = Ok tt →
  ∃ c, ss_commands s !! sp_CommandID p = Some c ∧ sp_CatalogDigest p = ss_digest s
    ∧ sp_TargetUser p ∈ sc_TargetUsers c ∧ sp_Executable p = sc_Executable c
    ∧ Forall2 argument_allowed (sc_Arguments c) (sp_Arguments p) ∧ sp_WorkingDirectory p = sc_WorkingDirectory c
    ∧ sp_Environment p = boundEnvironment (sc_Environment c) ∧ sp_TimeoutSeconds p = sc_TimeoutSeconds c
    ∧ sp_MaxOutputBytes p = sc_MaxOutputBytes c.
Proof.
  intros Hs. unfold validateCatalogBinding. destruct (Snapshot_Command _ _) as [c|] eqn:Ec; [|done].
  cbn in Ec. rewrite seq_ok, refuse_ok, negb_false_iff, bool_decide_eq_true. intros [He Hv].
  unfold ValidateResolved in Hv. apply seq_ok in Hv as [Hd Hv]. apply refuse_ok, negb_false_iff, String.eqb_eq in Hd.
  cbn [Snapshot_Command mbind option_bind sr_CommandID set_Environment resolvedFromPlan] in Hv. rewrite Ec in Hv.
  apply bind_ok_iff in Hv as (inputs & _ & Hv). apply bind_ok_iff in Hv as (again & Ha & Hv).
  apply refuse_ok, negb_false_iff in Hv. unfold sameResolvedCommand in Hv. cbn in Hv.
  unfold Resolve in Ha. cbn [Snapshot_Command mbind option_bind] in Ha. rewrite Ec in Ha.
  apply seq_ok in Ha as [Hu Ha]. apply refuse_ok, negb_false_iff, bool_decide_eq_true in Hu. cbn in Hu.
  apply bind_ok_iff in Ha as ([[argv values] seen] & Hr & Ha). apply seq_ok in Ha as [_ [= <-]]. cbn in Hv.
  apply resolve_each_allowed in Hr as (new & -> & Hn); [|by eapply Hs].
  repeat (apply andb_true_iff in Hv as [Hv ?]). bool_to_prop. apply String.eqb_eq in Hv.
  match goal with Hx : String.eqb _ _ = true |- _ => apply String.eqb_eq in Hx end.
  match goal with Hx : [_] ++ new = _ |- _ => injection Hx as _ -> end.
  exists c. repeat split; try done; by symmetry.
Qed.

(** C10: a plan that [ValidateForHelper] accepts is an entry of the catalog it was checked against: the
    entry's executable, working directory, environment and limits, a target user the entry allows with the
    uid, gid and groups the host has for it now, and one argument for each of the entry's, which is the
    literal, an integer within its bounds, a declared value, or a path beneath a declared root as both
    resolve now.  The catalog is any that [catalog.Parse] returned. *)
Theorem accepted_plan_authorized {H0 : Host} (sha256_hex : string → string) (data : string) (s : Snapshot)
    (identities : IdentityResolver) (p : SudoPlan) :
  catalog_Parse (H := H0) sha256_hex data = Ok s →
  ValidateForHelper (H := H) p (Some s) (Some identities) = Ok tt →
  ∃ c, command_ok c ∧ plan_authorized s identities p c.
Proof.
  intros Hp Hv. apply parsed_catalog_ok in Hp as [_ Hp]. unfold ValidateForHelper in Hv.
  apply seq_ok in Hv as [_ Hv]. apply seq_ok in Hv as [Hb Hi].
  apply validateCatalogBinding_authorized in Hb as (c & Hc & H1 & H2 & H3 & H4 & H5 & H6 & H7 & H8).
  - exists c. split; [by eapply Hp|]. constructor; try done.
    unfold validateHelperIdentity, validatePlanIdentity in Hi. destruct (identities _) as [[name uid gid groups]|]; [|done].
    apply refuse_ok, negb_false_iff in Hi. unfold identityMatchesPlan in Hi. cbn in Hi. bool_to_prop.
    match goal with Hx : String.eqb _ _ = true |- _ => apply String.eqb_eq in Hx end. by subst.
  - intros id c Hc. apply Hp in Hc as [_ Hc]. eapply Forall_impl; [by apply ok_arguments|]. by apply argument_ok_roots.
Qed.
End resolution.

(** ** What a trusted chain is *)

Section trusted.
Context {H : Host}.

(** Owned by root, writable by nobody else, no link, and of the expected kind. *)
Definition trusted_component (path : string) (file : bool) : Prop :=
  ∃ info, Lstat path = Ok info ∧ IsSymlink info = false ∧ fi_Uid info = Some 0 ∧ Z.land (Perm info) 18 = 0
    ∧ (if file then IsRegular info = true else IsDir info = true)
    ∧ ∀ name size, name = "system.posix_acl_access" ∨ (IsDir info = true ∧ name = "system.posix_acl_default") →
        Lgetxattr path name = Ok (Some size) → size <= 0.

Lemma validateTrustedComponent_ok (path : string) (info : FileInfo) (finalFile last : bool) :
  Lstat path = Ok info → validateTrustedComponent path info finalFile last = Ok tt →
  trusted_component path (finalFile && last).
Proof.
  intros Hl. unfold validateTrustedComponent, validateTrustedComponentOwnership. rewrite !seq_ok, refuse_ok.
  intros ((Hs & Ho & Hp) & Hk). exists info. split; [done|]. split; [done|].
  unfold validateRootOwner, trustedRootOwner in Ho. destruct (fi_Uid info) as [uid|]; [|done].
  apply refuse_ok, negb_false_iff, Z.eqb_eq in Ho as ->. split; [done|].
  unfold validateTrustedPermissions in Hp. apply seq_ok in Hp as [Hw Ha]. apply refuse_ok, negb_false_iff, Z.eqb_eq in Hw.
  split; [done|]. split.
  { unfold validateTrustedComponentKind in Hk. destruct last, finalFile; cbn in *; apply refuse_ok, negb_false_iff in Hk; done. }
  destruct (validatePathACL path (IsDir info)) as [[]|] eqn:Eacl; [|done]. unfold validatePathACL in Eacl.
  rewrite for_each_ok, Forall_forall in Eacl. intros name size Hname Hsize.
  specialize (Eacl name). rewrite Hsize in Eacl. apply Z.ltb_ge, refuse_ok with (e := ErrorNew "extended POSIX ACL is present").
  apply Eacl. destruct Hname as [->|[-> ->]]; set_solver.
Qed.

Lemma Join_rooted (l : list string) (e : string) :
  Forall normal_element (l ++ [e]) → filepath_Join [rooted_path l; e] = rooted_path (l ++ [e]).
Proof.
  intros Hn. cbn [filepath_Join]. change (is_empty (rooted_path l)) with false. cbv iota.
  change (join "/" [rooted_path l; e]) with (rooted_path l +:+ String Separator e).
  destruct (decide (l = [])) as [->|Hl].
  - rewrite Clean_abs by done. unfold path_elements.
    change (rooted_path [] +:+ String Separator e) with (EmptyString +:+ String Separator (EmptyString +:+ String Separator e)).
    change (IsAbs _) with true. unfold split_byte.
    apply Forall_cons in Hn as [[[Hne He] [Hd Hdd]] _].
    rewrite !split_from_word, split_last by (done || by apply not_elem_of_nil).
    change (clean_elements true [] _) with (clean_elements true [] [e]).
    by rewrite (clean_elements_id [] [e]) by (repeat constructor; done).
  - assert (rooted_path l +:+ String Separator e = rooted_path (l ++ [e])) as ->.
    { unfold rooted_path. by rewrite join_last, app_assoc_string. }
    by apply Clean_rooted.
Qed.

Lemma trusted_chain_ok (l components : list string) (finalFile : bool) :
  Forall normal_element (l ++ components) → trusted_chain (rooted_path l) components finalFile = Ok tt →
  ∀ m, m ≠ [] → m `prefix_of` components →
    trusted_component (rooted_path (l ++ m)) (finalFile && bool_decide (m = components)).
Proof.
  revert l. induction components as [|c components IH]; intros l Hn Hc m Hm [k Hk].
  { symmetry in Hk. by apply app_nil in Hk as [-> _]. }
  destruct m as [|c' m]; [done|]. injection Hk as <- Hk. cbn [trusted_chain] in Hc.
  rewrite (cons_middle c l components), app_assoc in Hn. pose proof Hn as Hn'. apply Forall_app in Hn' as [Hl _].
  rewrite Join_rooted in Hc by done. destruct (Lstat _) as [info|] eqn:El in Hc; [|done].
  apply seq_ok in Hc as [Hv Hc]. destruct (decide (m = [])) as [->|Hm'].
  - apply validateTrustedComponent_ok in Hv; [|done].
    replace (bool_decide ([c] = c :: components)) with (bool_decide (components = [])); [done|].
    repeat case_bool_decide; congruence.
  - specialize (IH (l ++ [c]) Hn Hc m Hm' (ex_intro _ k Hk)). rewrite <- app_assoc in IH. cbn in IH.
    replace (bool_decide (c :: m = c :: components)) with (bool_decide (m = components)); [done|].
    repeat case_bool_decide; congruence.
Qed.

(** Every directory above a trusted path, and the path itself, are trusted. *)
Lemma validateTrustedChain_ok (path : string) (finalFile : bool) (brokerUID targetUID : Z) :
  validateTrustedChain path finalFile brokerUID targetUID = Ok tt →
  IsAbs path = true ∧ Clean path = path
  ∧ ∀ l, l ≠ [] → l `prefix_of` path_elements path →
      trusted_component (rooted_path l) (finalFile && bool_decide (l = path_elements path)).
Proof.
  unfold validateTrustedChain. rewrite seq_ok, refuse_ok. intros [Hv Hc].
  apply orb_false_iff in Hv as [Ha Hcl]. rewrite negb_false_iff in Ha, Hcl. apply String.eqb_eq in Hcl.
  split; [done|]. split; [done|]. pose proof (path_elements_normal path Ha) as Hn.
  rewrite Clean_abs in Hcl by done. fold (rooted_path (path_elements path)) in Hcl.
  assert ((if String.eqb path "/" then [] else split_byte Separator (drop_bytes 1 path)) = path_elements path) as E.
  { destruct (String.eqb_spec path "/") as [->|Hne]; [done|]. rewrite <- Hcl at 1.
    change (drop_bytes 1 (rooted_path (path_elements path))) with (drop_bytes 0 (join "/" (path_elements path))).
    replace (drop_bytes 0 (join "/" (path_elements path))) with (join "/" (path_elements path)) by (by destruct (join _ _)).
    apply split_join; [|by apply normal_separator].
    intros E. rewrite E in Hcl. by rewrite <- Hcl in Hne. }
  rewrite E in Hc. intros l Hl Hp. by apply (trusted_chain_ok [] (path_elements path) finalFile Hn Hc l Hl Hp).
Qed.
End trusted.
