(* ===== verification/SudoExecutor.v ===== *)
(** * The privileged helper: [brokers/sudo/internal/executor*] and [privexec]

    The wire protocol between the unprivileged frontend and the root helper
    ([executorprotocol/protocol.go]); the durable state of executions
    ([executorserver/state.go]); the handling of a connection
    ([executorserver/server.go]); the runner and its child
    ([privexec/runner.go], [child_linux.go], [descriptor_unix.go],
    [limits_unix.go]); the frontend's side ([executorclient/client.go] and the
    adapter of [operations/operations.go]).

    What makes calls is a program: a tree of calls, each answered by the host.  The
    functions of the state file run under its mutex, each as one call.  The texts of
    encoding/json are the class [ExecutorJSON]. *)

From S2P Require Export SudoPlan.
From Stdlib Require Import Ascii.

Local Open Scope Z_scope.

(** ** Programs *)

Inductive Program (Call : Type → Type) (X : Type) : Type :=
| Return (x : X)
| Ask {B : Type} (c : Call B) (k : B → Program Call X).
#[global] Arguments Return {Call X} x.
#[global] Arguments Ask {Call X B} c k.

Fixpoint program_bind {Call X Y} (p : Program Call X) (f : X → Program Call Y) : Program Call Y :=
  match p with
  | Return x => f x
  | Ask c k => Ask c (λ b, program_bind (k b) f)
  end.

#[export] Instance program_ret {Call} : MRet (Program Call) := λ X, Return.
#[export] Instance program_mbind {Call} : MBind (Program Call) := λ X Y f p, program_bind p f.

Definition call {Call : Type → Type} {B} (c : Call B) : Program Call B := Ask c Return.

(** [if err != nil { return fail(err) }; rest] *)
Definition unless_error {Call X} (err : option error) (fail : error → Program Call X) (rest : Program Call X) :
    Program Call X :=
  match err with Some e => fail e | None => rest end.

(** ** The protocol *)

Definition protocol_Version : Z := 1.
Definition MaxFrameSize : Z := Z.shiftl 2 20.

Definition TypePing : string := "ping".
Definition TypeExecute : string := "execute".
Definition StatusReady : string := "ready".
Definition StatusCompleted : string := "completed".
Definition StatusRejected : string := "rejected".
Definition StatusAmbiguous : string := "ambiguous".

(** [executorprotocol.Request] *)
Record ExecRequest : Type := MkExecRequest {
  xr_Version : Z;
  xr_Type : string;
  xr_ExecutionID : string;
  xr_Plan : string;
  xr_PlanDigest : string;
  xr_GrantID : string;
  xr_ReservationID : string;
  xr_ExpiresAt : Time
}.

(** [executorprotocol.Outcome]; nil and empty output are the empty text. *)
Record ExecOutcome : Type := MkExecOutcome {
  xo_Started : bool;
  xo_ExitCode : Z;
  xo_Signal : string;
  xo_TimedOut : bool;
  xo_Truncated : bool;
  xo_Duration : Duration;
  xo_Stdout : string;
  xo_Stderr : string
}.

(** [executorprotocol.Response] *)
Record ExecResponse : Type := MkExecResponse {
  xs_Version : Z;
  xs_Status : string;
  xs_ExecutionID : string;
  xs_Outcome : option ExecOutcome;
  xs_ErrorCode : string
}.

(** [executionRecord] *)
Record executionRecord : Type := MkExecutionRecord {
  ex_ID : string;
  ex_PlanDigest : string;
  ex_GrantID : string;
  ex_ReservationID : string;
  ex_Status : string;
  ex_ClaimedAt : Time;
  ex_StartedAt : Time;
  ex_CompletedAt : Time;
  ex_Outcome : option ExecOutcome
}.

(** [executionFile] *)
Record executionFile : Type := MkExecutionFile { xf_Version : Z; xf_Executions : list executionRecord }.

#[export] Instance ExecRequest_eq_dec : EqDecision ExecRequest.
Proof. solve_decision. Defined.
#[export] Instance ExecOutcome_eq_dec : EqDecision ExecOutcome.
Proof. solve_decision. Defined.
#[export] Instance ExecResponse_eq_dec : EqDecision ExecResponse.
Proof. solve_decision. Defined.
#[export] Instance executionRecord_eq_dec : EqDecision executionRecord.
Proof. solve_decision. Defined.
#[export] Instance executionFile_eq_dec : EqDecision executionFile.
Proof. solve_decision. Defined.

(** The decoders read the first value of a text, rejecting unknown fields, and tell
    whether nothing follows it. *)
Class ExecutorJSON : Type := {
  request_Marshal : ExecRequest → result error string;
  request_DecodeNext : string → result error (ExecRequest * bool);
  response_Marshal : ExecResponse → result error string;
  response_DecodeNext : string → result error (ExecResponse * bool);
  state_MarshalIndent : executionFile → result error string;
  state_DecodeNext : string → result error (executionFile * bool)
}.

Definition zero_outcome : ExecOutcome := MkExecOutcome false 0 EmptyString false false 0 EmptyString EmptyString.

Definition Ping : ExecRequest :=
  MkExecRequest protocol_Version TypePing EmptyString EmptyString EmptyString EmptyString EmptyString 0.

Definition NewReady : ExecResponse := MkExecResponse protocol_Version StatusReady EmptyString None EmptyString.
Definition NewRejected (code : string) : ExecResponse :=
  MkExecResponse protocol_Version StatusRejected EmptyString None code.
Definition NewAmbiguous (executionID code : string) : ExecResponse :=
  MkExecResponse protocol_Version StatusAmbiguous executionID None code.
Definition NewCompleted (executionID : string) (outcome : ExecOutcome) : ExecResponse :=
  MkExecResponse protocol_Version StatusCompleted executionID (Some outcome) EmptyString.

(** *** Validation *)

Definition boundedID (value : string) : bool :=
  (1 <=? len value) && (len value <=? 128) && String.eqb (trim_space value) value
  && negb (contains_any (String " " (String "009" (String "013" (String "010" EmptyString)))) value).

Definition safeCodeCharacter (r : Z) : bool :=
  ((97 <=? r) && (r <=? 122)) || ((48 <=? r) && (r <=? 57)) || (r =? 95).

Definition safeCode (value : string) : bool :=
  (1 <=? len value) && (len value <=? 64) && forallb safeCodeCharacter (runes value).

Definition validOutcome (o : ExecOutcome) : bool :=
  (0 <=? xo_Duration o) && (len (xo_Stdout o) + len (xo_Stderr o) <=? MaxFrameSize) && (len (xo_Signal o) <=? 64)
  && negb (has_control (xo_Signal o)).

Definition validatePingRequest (r : ExecRequest) : result error unit :=
  refuse (negb (is_empty (xr_ExecutionID r)) || negb (is_empty (xr_Plan r)) || negb (is_empty (xr_PlanDigest r))
          || negb (is_empty (xr_GrantID r)) || negb (is_empty (xr_ReservationID r))
          || negb (time_is_zero (xr_ExpiresAt r)))
    (ErrorNew "executor ping contains execution fields").

Definition validateExecuteRequest (r : ExecRequest) : result error unit :=
  refuse (negb (boundedID (xr_ExecutionID r)) || is_empty (xr_Plan r) || is_empty (xr_PlanDigest r)
          || negb (boundedID (xr_GrantID r)) || negb (boundedID (xr_ReservationID r))
          || time_is_zero (xr_ExpiresAt r))
    (ErrorNew "executor request is incomplete").

Definition validateRequest (r : ExecRequest) : result error unit :=
  refuse (negb (xr_Version r =? protocol_Version)) (ErrorNew "executor protocol version is unsupported") ;;;
  if String.eqb (xr_Type r) TypePing then validatePingRequest r
  else if String.eqb (xr_Type r) TypeExecute then validateExecuteRequest r
  else Err (ErrorNew "executor request type is unsupported").

Definition validateReadyResponse (r : ExecResponse) : result error unit :=
  refuse (negb (is_empty (xs_ExecutionID r)) || bool_decide (is_Some (xs_Outcome r)) || negb (is_empty (xs_ErrorCode r)))
    (ErrorNew "executor ready response contains result fields").

Definition validateCompletedResponse (r : ExecResponse) : result error unit :=
  refuse (negb (boundedID (xs_ExecutionID r)) || negb (is_empty (xs_ErrorCode r))
          || match xs_Outcome r with None => true | Some o => negb (validOutcome o) end)
    (ErrorNew "executor completed response is invalid").

Definition validateErrorResponse (r : ExecResponse) : result error unit :=
  refuse (String.eqb (xs_Status r) StatusAmbiguous && negb (boundedID (xs_ExecutionID r)))
    (ErrorNew "executor ambiguous response is invalid") ;;;
  refuse (bool_decide (is_Some (xs_Outcome r)) || negb (safeCode (xs_ErrorCode r)))
    (ErrorNew "executor error response is invalid").

Definition validateResponse (r : ExecResponse) : result error unit :=
  refuse (negb (xs_Version r =? protocol_Version)) (ErrorNew "executor protocol version is unsupported") ;;;
  if String.eqb (xs_Status r) StatusReady then validateReadyResponse r
  else if String.eqb (xs_Status r) StatusCompleted then validateCompletedResponse r
  else if String.eqb (xs_Status r) StatusRejected || String.eqb (xs_Status r) StatusAmbiguous
  then validateErrorResponse r
  else Err (ErrorNew "executor response status is unsupported").

(** *** Frames *)

Definition byte (z : Z) : ascii := ascii_of_nat (Z.to_nat (z mod 256)).

(** [binary.BigEndian.PutUint32] *)
Definition PutUint32 (z : Z) : string :=
  String (byte (Z.shiftr z 24)) (String (byte (Z.shiftr z 16)) (String (byte (Z.shiftr z 8)) (String (byte z) EmptyString))).

(** [io.ReadFull] of four bytes and [binary.BigEndian.Uint32]: the number and what follows. *)
Definition Uint32 (s : string) : option (Z * string) :=
  match s with
  | String a (String b (String c (String d rest))) =>
      Some (Z.lor (Z.lor (Z.shiftl (byte_of a) 24) (Z.shiftl (byte_of b) 16))
              (Z.lor (Z.shiftl (byte_of c) 8) (byte_of d)), rest)
  | _ => None
  end.

(** The bytes [writeFrame] writes, from what [json.Marshal] answered. *)
Definition writeFrame (marshaled : result error string) : result error string :=
  data ← marshaled;
  refuse (is_empty data || (MaxFrameSize <? len data)) (ErrorNew "executor protocol frame is too large") ;;;
  Ok (PutUint32 (len data) +:+ data).

Definition readFrameSize (s : string) : result error (Z * string) :=
  match Uint32 s with
  | None => Err (ErrorNew "unexpected EOF")
  | Some (size, rest) =>
      refuse ((size =? 0) || (MaxFrameSize <? size)) (ErrorNew "executor protocol frame size is invalid") ;;;
      Ok (size, rest)
  end.

(** [io.ReadFull] of [size] bytes. *)
Definition readFrameData (s : string) (size : Z) : result error string :=
  refuse (len s <? size) (ErrorNew "unexpected EOF") ;;;
  Ok (String.substring 0 (Z.to_nat size) s).

Section protocol.
Context {JT : JSONTokens} {XJ : ExecutorJSON}.

Definition decodeFrameData {A} (decode : string → result error (A * bool)) (data : string) : result error A :=
  RejectDuplicateKeys data ;;;
  '(value, ended) ← decode data;
  refuse (negb ended) (ErrorNew "executor protocol frame contains trailing JSON") ;;;
  Ok value.

(** [readFrame], from the bytes the connection yields until it ends or times out. *)
Definition readFrame {A} (decode : string → result error (A * bool)) (s : string) : result error A :=
  '(size, rest) ← readFrameSize s;
  data ← readFrameData rest size;
  decodeFrameData decode data.

Definition WriteRequest (r : ExecRequest) : result error string :=
  validateRequest r ;;; writeFrame (request_Marshal r).

Definition ReadRequest (s : string) : result error ExecRequest :=
  r ← readFrame request_DecodeNext s; validateRequest r ;;; Ok r.

Definition WriteResponse (r : ExecResponse) : result error string :=
  validateResponse r ;;; writeFrame (response_Marshal r).

Definition ReadResponse (s : string) : result error ExecResponse :=
  r ← readFrame response_DecodeNext s; validateResponse r ;;; Ok r.

(** ** The state of executions *)

Definition executionClaimed : string := "claimed".
Definition executionStarted : string := "started".
Definition executionComplete : string := "complete".
Definition maxStateBytes : Z := Z.shiftl 16 20.
Definition maxStateRecords : Z := 100000.
Definition completedRetention : Duration := 30 * 24 * hour.

Definition errExecutionConflict : error := ErrorNew "execution id already binds another plan".

Definition boundedStateID (value : string) : bool :=
  (1 <=? len value) && (len value <=? 128) && String.eqb (trim_space value) value && negb (has_control value).

Definition validateExecutionBinding (r : executionRecord) : result error unit :=
  refuse (negb (boundedStateID (ex_ID r)) || negb (plandigest_Valid (ex_PlanDigest r))
          || negb (boundedStateID (ex_GrantID r)) || negb (boundedStateID (ex_ReservationID r))
          || time_is_zero (ex_ClaimedAt r))
    (ErrorNew "execution binding is invalid").

Definition validateClaimedExecution (r : executionRecord) : result error unit :=
  refuse (negb (time_is_zero (ex_StartedAt r)) || negb (time_is_zero (ex_CompletedAt r))
          || bool_decide (is_Some (ex_Outcome r)))
    (ErrorNew "claimed execution fields are invalid").

Definition validateStartedExecution (r : executionRecord) : result error unit :=
  refuse (time_before (ex_StartedAt r) (ex_ClaimedAt r) || time_is_zero (ex_StartedAt r)
          || negb (time_is_zero (ex_CompletedAt r)) || bool_decide (is_Some (ex_Outcome r)))
    (ErrorNew "started execution fields are invalid").

Definition invalidCompletedExecutionTimes (r : executionRecord) : bool :=
  time_before (ex_CompletedAt r) (ex_ClaimedAt r) || time_is_zero (ex_CompletedAt r)
  || time_is_zero (ex_StartedAt r) || time_before (ex_StartedAt r) (ex_ClaimedAt r)
  || time_before (ex_CompletedAt r) (ex_StartedAt r).

(** The response is written to [io.Discard]. *)
Definition validateCompletedExecution (r : executionRecord) : result error unit :=
  match ex_Outcome r with
  | Some outcome =>
      refuse (invalidCompletedExecutionTimes r) (ErrorNew "completed execution fields are invalid") ;;;
      _ ← WriteResponse (NewCompleted (ex_ID r) outcome); Ok tt
  | None => Err (ErrorNew "completed execution fields are invalid")
  end.

Definition validateExecutionRecord (r : executionRecord) : result error unit :=
  validateExecutionBinding r ;;;
  if String.eqb (ex_Status r) executionClaimed then validateClaimedExecution r
  else if String.eqb (ex_Status r) executionStarted then validateStartedExecution r
  else if String.eqb (ex_Status r) executionComplete then validateCompletedExecution r
  else Err (ErrorNew "execution status is invalid").

Definition validateExecutionFile (data : executionFile) : result error unit :=
  refuse (maxStateRecords <? Z.of_nat (length (xf_Executions data)))
    (ErrorNew "helper execution state contains too many records") ;;;
  refuse_each (λ seen r, bool_decide (ex_ID r ∈ ex_ID <$> seen) || negb (is_ok (validateExecutionRecord r)))
    (λ _, errorf "helper execution state record %d is invalid" []) [] (xf_Executions data).

(** What the host answers to one call of the state: whether the file can be read, the
    readings of the clock, and what becomes of a write.  A rename that fails, or whose
    directory cannot be synchronized, may have replaced the file. *)
Inductive WriteOutcome : Type :=
| WriteDone
| WriteFailed (e : error)
| WriteUnsure (e : error).

Record StateInstant : Type := MkStateInstant {
  si_read : option error;
  si_now : Time;
  si_later : Time;
  si_write : WriteOutcome
}.

(** [readExecutionStateFile]; [None] is [missing]. *)
Definition readExecutionStateFile (i : StateInstant) (disk : option string) : result error (option string) :=
  match si_read i, disk with
  | Some e, _ => Err e
  | None, None => Ok None
  | None, Some data =>
      refuse (is_empty data || (maxStateBytes <? len data)) (ErrorNew "helper execution state size is invalid") ;;;
      Ok (Some data)
  end.

Definition decodeExecutionState (data : string) : result error executionFile :=
  at_index "decode helper execution state: %w" (RejectDuplicateKeys data) ;;;
  '(file, ended) ← at_index "decode helper execution state: %w" (state_DecodeNext data);
  refuse (negb ended) (ErrorNew "decode helper execution state: trailing data") ;;;
  refuse (negb (xf_Version file =? 1)) (ErrorNew "helper execution state version is unsupported") ;;;
  Ok file.

(** [load] *)
Definition state_load (i : StateInstant) (disk : option string) : result error executionFile :=
  data ← readExecutionStateFile i disk;
  match data with
  | None => Ok (MkExecutionFile 1 [])
  | Some data => file ← decodeExecutionState data; validateExecutionFile file ;;; Ok file
  end.

(** [save]: its error, and the file it leaves. *)
Definition state_save (i : StateInstant) (data : executionFile) (disk : option string)
    : result error unit * option string :=
  let encoded :=
    refuse (maxStateRecords <? Z.of_nat (length (xf_Executions data)))
      (ErrorNew "helper execution state contains too many records") ;;;
    encoded ← state_MarshalIndent (MkExecutionFile 1 (xf_Executions data));
    refuse (maxStateBytes <? len encoded) (ErrorNew "helper execution state exceeds its size limit") ;;;
    Ok (encoded +:+ String "010" EmptyString) in
  match encoded with
  | Err e => (Err e, disk)
  | Ok text =>
      match si_write i with
      | WriteDone => (Ok tt, Some text)
      | WriteFailed e => (Err e, disk)
      | WriteUnsure e => (Err e, Some text)
      end
  end.

Definition sameExecutionBinding (r : executionRecord) (digest grantID reservationID : string) : bool :=
  String.eqb (ex_PlanDigest r) digest && String.eqb (ex_GrantID r) grantID
  && String.eqb (ex_ReservationID r) reservationID.

Definition find_execution (id : string) (records : list executionRecord) : option executionRecord :=
  List.find (λ r, String.eqb (ex_ID r) id) records.

(** The loop over the records that [lookup] and [claim] share: the record with the id, if any. *)
Definition bound_execution (id digest grantID reservationID : string) (records : list executionRecord)
    : result error (option executionRecord) :=
  match find_execution id records with
  | None => Ok None
  | Some r =>
      if sameExecutionBinding r digest grantID reservationID then Ok (Some r) else Err errExecutionConflict
  end.

(** [executionState.lookup]; the second result of the source is whether it was found. *)
Definition state_lookup (i : StateInstant) (id digest grantID reservationID : string) (disk : option string)
    : result error (option executionRecord) :=
  data ← state_load i disk;
  bound_execution id digest grantID reservationID (xf_Executions data).

Definition prunable (cutoff : Time) (r : executionRecord) : bool :=
  String.eqb (ex_Status r) executionComplete && time_before (ex_CompletedAt r) cutoff.

Definition pruneCompleted (records : list executionRecord) (cutoff : Time) : list executionRecord :=
  List.filter (λ r, negb (prunable cutoff r)) records.

(** [executionState.claim]: the record, and whether it was claimed by this call. *)
Definition state_claim (i : StateInstant) (id digest grantID reservationID : string) (disk : option string)
    : result error (executionRecord * bool) * option string :=
  match state_load i disk with
  | Err e => (Err e, disk)
  | Ok data =>
      let records := pruneCompleted (xf_Executions data) (si_now i - completedRetention) in
      match bound_execution id digest grantID reservationID records with
      | Err e => (Err e, disk)
      | Ok (Some r) => (Ok (r, false), disk)
      | Ok None =>
          if maxStateRecords <=? Z.of_nat (length records) then
            (Err (ErrorNew "helper execution state capacity is exhausted"), disk)
          else
            let r := MkExecutionRecord id digest grantID reservationID executionClaimed (si_later i) 0 0 None in
            let '(saved, disk) := state_save i (MkExecutionFile (xf_Version data) (records ++ [r])) disk in
            (_ ← saved; Ok (r, true), disk)
      end
  end.

(** The record with the id, replaced where it is first found. *)
Fixpoint mutate_execution (id : string) (mutate : executionRecord → result error executionRecord)
    (records : list executionRecord) : result error (list executionRecord) :=
  match records with
  | [] => Err (ErrorNew "execution does not exist")
  | r :: rest =>
      if String.eqb (ex_ID r) id then r ← mutate r; Ok (r :: rest)
      else rest ← mutate_execution id mutate rest; Ok (r :: rest)
  end.

(** [executionState.update] *)
Definition state_update (i : StateInstant) (id : string) (mutate : executionRecord → result error executionRecord)
    (disk : option string) : result error unit * option string :=
  match (data ← state_load i disk;
         records ← mutate_execution id mutate (xf_Executions data);
         Ok (MkExecutionFile (xf_Version data) records)) with
  | Err e => (Err e, disk)
  | Ok data => state_save i data disk
  end.

Definition start_record (now : Time) (r : executionRecord) : result error executionRecord :=
  refuse (negb (String.eqb (ex_Status r) executionClaimed)) (ErrorNew "execution is not claimable") ;;;
  Ok (MkExecutionRecord (ex_ID r) (ex_PlanDigest r) (ex_GrantID r) (ex_ReservationID r) executionStarted
        (ex_ClaimedAt r) now (ex_CompletedAt r) (ex_Outcome r)).

Definition complete_record (now : Time) (outcome : ExecOutcome) (r : executionRecord) : result error executionRecord :=
  refuse (negb (String.eqb (ex_Status r) executionStarted)) (ErrorNew "execution cannot be completed") ;;;
  Ok (MkExecutionRecord (ex_ID r) (ex_PlanDigest r) (ex_GrantID r) (ex_ReservationID r) executionComplete
        (ex_ClaimedAt r) (ex_StartedAt r) now (Some outcome)).

Definition markStarted (i : StateInstant) (id : string) : option string → result error unit * option string :=
  state_update i id (start_record (si_now i)).

Definition state_complete (i : StateInstant) (id : string) (outcome : ExecOutcome)
    : option string → result error unit * option string :=
  state_update i id (complete_record (si_now i) outcome).
End protocol.

(** ** The output budget *)

(** [outputBudget]: [kill] is set or not; a call of it is counted in [ob_kills]. *)
Record outputBudget : Type := MkOutputBudget {
  ob_remaining : Z;
  ob_truncated : bool;
  ob_kill : bool;
  ob_killed : bool;
  ob_kills : nat
}.

Definition newOutputBudget (limit : Z) : outputBudget := MkOutputBudget limit false false false 0.

(** What happens to a budget, in the order of its mutex. *)
Inductive BudgetStep : Type :=
| BudgetWrite (to_stderr : bool) (value : string)
| BudgetSetKill.

(** The two buffers and the budget. *)
Record CapturedOutput : Type := MkCapturedOutput {
  co_budget : outputBudget;
  co_stdout : string;
  co_stderr : string
}.

(** [writer] and [setKill] *)
Definition budget_step (o : CapturedOutput) (step : BudgetStep) : CapturedOutput :=
  let b := co_budget o in
  match step with
  | BudgetWrite to_stderr value =>
      let keep := Z.min (len value) (ob_remaining b) in
      let kept := if 0 <? keep then String.substring 0 (Z.to_nat keep) value else EmptyString in
      let remaining := if 0 <? keep then ob_remaining b - keep else ob_remaining b in
      let over := keep <? len value in
      let kills := over && negb (ob_killed b) && ob_kill b in
      MkCapturedOutput
        (MkOutputBudget remaining (ob_truncated b || over) (ob_kill b) (ob_killed b || kills)
           (if kills then S (ob_kills b) else ob_kills b))
        (if to_stderr then co_stdout o else co_stdout o +:+ kept)
        (if to_stderr then co_stderr o +:+ kept else co_stderr o)
  | BudgetSetKill =>
      let kills := ob_truncated b && negb (ob_killed b) in
      MkCapturedOutput
        (MkOutputBudget (ob_remaining b) (ob_truncated b) true (ob_killed b || kills)
           (if kills then S (ob_kills b) else ob_kills b))
        (co_stdout o) (co_stderr o)
  end.

Definition capture (limit : Z) (steps : list BudgetStep) : CapturedOutput :=
  foldl budget_step (MkCapturedOutput (newOutputBudget limit) EmptyString EmptyString) steps.

(** ** The calls of a connection *)

(** How a child ended: [Wait], the exit code and the signal of an [exec.ExitError], and what
    was written meanwhile. *)
Record ChildResult : Type := MkChildResult {
  ch_wait : option error;
  ch_exit_error : bool;
  ch_signal : string;
  ch_exit_code : Z;
  ch_timed_out : bool;
  ch_duration : Duration;
  ch_steps : list BudgetStep
}.

(** [StartChildCall] names the execution for the properties only. *)
Inductive HelperCall : Type → Type :=
| PeerUIDCall : HelperCall (result error Z)
| ReceiveCall : HelperCall string
    (** What the connection yields until it ends or times out. *)
| HelperNowCall : HelperCall Time
| InspectHostCall : HelperCall Host
| LookupCall (id digest grantID reservationID : string) : HelperCall (result error (option executionRecord))
| ClaimCall (id digest grantID reservationID : string) : HelperCall (result error (executionRecord * bool))
| MarkStartedCall (id : string) : HelperCall (result error unit)
| CompleteCall (id : string) (outcome : ExecOutcome) : HelperCall (result error unit)
| PrepareChildCall : HelperCall (option error)
    (** [os.Pipe] and the opening of the null device. *)
| StartChildCall (id : string) (canonical : string) (deadline : Time) : HelperCall (option error)
| WaitChildCall : HelperCall ChildResult
| SendCall (frame : string) : HelperCall unit.

Section helper.
Context {R : MapRange} {JT : JSONTokens} {CJ : CatalogJSON} {PJ : PlanJSON} {XJ : ExecutorJSON}.
Context (plandigest_Digest : string → string).

Notation Prog := (Program HelperCall).

(** ** The runner *)

(** [validatedCanonicalPlan]; the runner of the helper has a path. *)
Definition validatedCanonicalPlan (host : Host) (p : SudoPlan) (brokerUID : Z) : result error string :=
  hostcheck_ValidateExecution (H := host) p brokerUID ;;; EncodeCanonical p.

(** [runnerOutcome] and [finishChildOutcome] *)
Definition childOutcome (p : SudoPlan) (c : ChildResult) : ExecOutcome * option error :=
  let captured := capture (sp_MaxOutputBytes p) (ch_steps c) in
  (MkExecOutcome true (ch_exit_code c) (if ch_exit_error c then ch_signal c else EmptyString) (ch_timed_out c)
     (ob_truncated (co_budget captured)) (ch_duration c) (co_stdout captured) (co_stderr captured),
   if ch_exit_error c then None else ch_wait c).

(** [Runner.Run] *)
Definition Runner_Run (id : string) (p : SudoPlan) (brokerUID : Z) (deadline : Time)
    : Prog (ExecOutcome * option error) :=
  host ← call InspectHostCall;
  match validatedCanonicalPlan host p brokerUID with
  | Err e => mret (zero_outcome, Some e)
  | Ok canonical =>
      err ← call PrepareChildCall;
      unless_error err (λ e, mret (zero_outcome, Some e)) (
      err ← call (StartChildCall id canonical deadline);
      unless_error err (λ e, mret (zero_outcome, Some e)) (
      ended ← call WaitChildCall;
      mret (childOutcome p ended)))
  end.

(** ** The server *)

(** [Server], without the state, the clock, the peer credentials and the runner, which the
    calls stand for.  The identities are those of the host. *)
Record HelperServer : Type := MkHelperServer {
  hs_catalog : Snapshot;
  hs_expectedPeerUID : Z;
  hs_brokerUID : Z;
  hs_maxConnections : Z
}.

Definition defaultMaxConnections : Z := 32.

Definition serverRequestTimeout (value : Duration) : Duration := if 0 <? value then value else 10 * second.

Definition serverMaxConnections (value : Z) : result error Z :=
  let value := if value <=? 0 then defaultMaxConnections else value in
  refuse (1024 <? value) (ErrorNew "too large") ;;; Ok value.

Context (s : HelperServer).

Definition knownPeer (uid expected : Z) : bool := (uid =? expected) || (uid =? 0).
Definition peerMayExecute (uid expected : Z) : bool := uid =? expected.

(** The rejection; the empty text is none. *)
Definition validateRequestEnvelope (r : ExecRequest) (now : Time) : string :=
  if negb (time_after (xr_ExpiresAt r) now) then "request_expired"
  else if negb (String.eqb (plandigest_Digest (xr_Plan r)) (xr_PlanDigest r)) then "plan_digest_mismatch"
  else EmptyString.

(** [a.Sub(b)] saturates at the bounds of a duration. *)
Definition time_sub (a b : Time) : Duration := Z.max (- 2 ^ 63) (Z.min max_int64 (a - b)).

(** The two validations read the host one after the other. *)
Definition validateExecutableRequest (r : ExecRequest) (p : SudoPlan) (now : Time) : Prog string :=
  if sp_RequestedDurationSeconds p * second <? time_sub (xr_ExpiresAt r) now then mret "invalid_expiry"
  else
    host ← call InspectHostCall;
    if negb (is_ok (ValidateForHelper (H := host) p (Some (hs_catalog s))
                      (Some (SystemIdentityResolver_Lookup (H := host)))))
    then mret "plan_drift"
    else
      host ← call InspectHostCall;
      mret (if is_ok (hostcheck_ValidateExecution (H := host) p (hs_brokerUID s)) then EmptyString
            else "unsafe_host_path").

(** [executionStateResult] *)
Definition executionStateResult {A} (answer : result error A) : A + string :=
  match answer with
  | Ok a => inl a
  | Err e => inr (if errors_Is e errExecutionConflict then "execution_id_conflict" else "state_unavailable")
  end.

Definition executionReplayResponse (executionID : string) (r : executionRecord) : ExecResponse :=
  match ex_Outcome r with
  | Some outcome =>
      if String.eqb (ex_Status r) executionComplete then NewCompleted executionID outcome
      else NewAmbiguous executionID "execution_incomplete"
  | None => NewAmbiguous executionID "execution_incomplete"
  end.

Definition commandDeadline (requestDeadline : Time) (timeoutSeconds : Z) (now : Time) : Time :=
  let deadline := now + timeoutSeconds * second in
  if time_before deadline requestDeadline then deadline else requestDeadline.

Definition runClaimedExecution (r : ExecRequest) (p : SudoPlan) (now : Time) : Prog ExecOutcome :=
  '(outcome, runErr) ← Runner_Run (xr_ExecutionID r) p (hs_brokerUID s)
                          (commandDeadline (xr_ExpiresAt r) (sp_TimeoutSeconds p) now);
  mret (if bool_decide (is_Some runErr) && negb (xo_Started outcome) then zero_outcome else outcome).

Definition executeFresh (r : ExecRequest) (p : SudoPlan) (now : Time) : Prog ExecResponse :=
  claimed ← call (ClaimCall (xr_ExecutionID r) (xr_PlanDigest r) (xr_GrantID r) (xr_ReservationID r));
  match executionStateResult claimed with
  | inr rejection => mret (NewRejected rejection)
  | inl (record, false) => mret (executionReplayResponse (xr_ExecutionID r) record)
  | inl (_, true) =>
      started ← call (MarkStartedCall (xr_ExecutionID r));
      match started with
      | Err _ => mret (NewAmbiguous (xr_ExecutionID r) "state_unavailable")
      | Ok _ =>
          outcome ← runClaimedExecution r p now;
          completed ← call (CompleteCall (xr_ExecutionID r) outcome);
          match completed with
          | Err _ => mret (NewAmbiguous (xr_ExecutionID r) "result_unavailable")
          | Ok _ => mret (NewCompleted (xr_ExecutionID r) outcome)
          end
      end
  end.

Definition server_execute (r : ExecRequest) : Prog ExecResponse :=
  now ← call HelperNowCall;
  let rejection := validateRequestEnvelope r now in
  if negb (is_empty rejection) then mret (NewRejected rejection)
  else
    match DecodeCanonical (xr_Plan r) with
    | Err _ => mret (NewRejected "invalid_plan")
    | Ok p =>
        existing ← call (LookupCall (xr_ExecutionID r) (xr_PlanDigest r) (xr_GrantID r) (xr_ReservationID r));
        match executionStateResult existing with
        | inr rejection => mret (NewRejected rejection)
        | inl (Some record) => mret (executionReplayResponse (xr_ExecutionID r) record)
        | inl None =>
            rejection ← validateExecutableRequest r p now;
            if negb (is_empty rejection) then mret (NewRejected rejection) else executeFresh r p now
        end
    end.

Definition Server_Handle : Prog ExecResponse :=
  peer ← call PeerUIDCall;
  match peer with
  | Err _ => mret (NewRejected "peer_not_authorized")
  | Ok uid =>
      if negb (knownPeer uid (hs_expectedPeerUID s)) then mret (NewRejected "peer_not_authorized")
      else
        bytes ← call ReceiveCall;
        match ReadRequest bytes with
        | Err _ => mret (NewRejected "invalid_request")
        | Ok r =>
            if String.eqb (xr_Type r) TypePing then mret NewReady
            else if negb (peerMayExecute uid (hs_expectedPeerUID s)) then mret (NewRejected "peer_not_authorized")
            else server_execute r
        end
  end.

(** [handleConnection]: a response that is not valid is not sent. *)
Definition handleConnection : Prog unit :=
  response ← Server_Handle;
  match WriteResponse response with
  | Ok frame => call (SendCall frame)
  | Err _ => mret tt
  end.

(** ** The frontend: [executorclient] and [operations] *)

(** [CallError] *)
Record CallError : Type := MkCallError { ce_Dispatched : bool; ce_cause : error }.

(** The error of [Client.Execute]: an [*CallError] or another one. *)
Inductive ClientError : Type :=
| CallFailed (e : CallError)
| OtherFailed (e : error).

Definition WasDispatched (e : ClientError) : bool := match e with CallFailed e => ce_Dispatched e | _ => false end.

Definition exchangeTimeout (configured minimum : Duration) : Duration :=
  let configured := if configured <=? 0 then 10 * second else configured in
  if configured <? minimum then minimum else configured.

Definition mismatchedExecutionID (r : ExecRequest) (response : ExecResponse) : bool :=
  String.eqb (xr_Type r) TypeExecute && negb (is_empty (xs_ExecutionID response))
  && negb (String.eqb (xs_ExecutionID response) (xr_ExecutionID r)).

(** [Client.exchange]: whether the connection was made, whether the frame was written, and
    the bytes that come back. *)
Definition exchange (r : ExecRequest) (dialed : bool) (written : option error) (received : string)
    : ExecResponse + ClientError :=
  if negb dialed then inr (CallFailed (MkCallError false (ErrorNew "sudo helper is unavailable")))
  else
    match WriteRequest r, written with
    | Err e, _ | _, Some e => inr (CallFailed (MkCallError true e))
    | Ok _, None =>
        match ReadResponse received with
        | Err e => inr (CallFailed (MkCallError true e))
        | Ok response =>
            if mismatchedExecutionID r response
            then inr (CallFailed (MkCallError true (ErrorNew "sudo helper returned a mismatched execution id")))
            else inl response
        end
    end.

(** The request of [Client.Execute]. *)
Definition execute_request (executionID : string) (p : SudoPlan) (grantID reservationID : string) (expiresAt : Time)
    : result error ExecRequest :=
  canonical ← EncodeCanonical p;
  Ok (MkExecRequest protocol_Version TypeExecute executionID canonical (plandigest_Digest canonical) grantID
        reservationID expiresAt).

Definition Client_Execute (executionID : string) (p : SudoPlan) (grantID reservationID : string) (expiresAt : Time)
    (dialed : bool) (written : option error) (received : string) : ExecResponse + ClientError :=
  match execute_request executionID p grantID reservationID expiresAt with
  | Err e => inr (OtherFailed e)
  | Ok r => exchange r dialed written received
  end.

(** What the adapter makes of an exchange: [Proven] with the response, a definitive failure
    (nothing was executed, the use of the grant is released), or a possibly partial one. *)
Inductive AdapterVerdict : Type :=
| VerdictProven (response : ExecResponse)
| VerdictRejected (code : string)
| VerdictUnavailable (e : ClientError)
| VerdictUnknown.

Definition completedStarted (response : ExecResponse) : bool :=
  String.eqb (xs_Status response) StatusCompleted
  && match xs_Outcome response with Some o => xo_Started o | None => false end.

Definition definitiveHelperRejection (response : ExecResponse) : bool :=
  String.eqb (xs_Status response) StatusRejected
  || (String.eqb (xs_Status response) StatusCompleted && bool_decide (is_Some (xs_Outcome response))).

Definition outcomeFromHelperResponse (response : ExecResponse) : AdapterVerdict :=
  if completedStarted response then VerdictProven response
  else if definitiveHelperRejection response then VerdictRejected (xs_ErrorCode response)
  else VerdictUnknown.

Definition helperDispatchFailure (e : ClientError) : AdapterVerdict :=
  if WasDispatched e then VerdictUnknown else VerdictUnavailable e.

(** [commandAdapter.Execute], after [validateExecutionAuthority]. *)
Definition adapter_verdict (answer : ExecResponse + ClientError) : AdapterVerdict :=
  match answer with
  | inl response => outcomeFromHelperResponse response
  | inr e => helperDispatchFailure e
  end.

(** [ExecutionFailure(...).ReleaseApproval] *)
Definition releases_approval (v : AdapterVerdict) : bool :=
  match v with VerdictRejected _ | VerdictUnavailable _ => true | VerdictProven _ | VerdictUnknown => false end.
End helper.

(** ** The child: the last privilege transition on Linux *)

Inductive ChildCall : Type → Type :=
| GeteuidCall : ChildCall Z
| ReadPlanCall (fd : Z) : ChildCall (result error string)
    (** [io.ReadAll] of at most [maxChildPlanBytes + 1] bytes *)
| ChildHostCall : ChildCall Host
| SetrlimitCall (resource : string) (value : Z) : ChildCall (option error)
| Openat2Call (path : string) (flags resolve : Z) : ChildCall (result error Z)
| FstatCall (fd : Z) : ChildCall (result error (Z * Z))
    (** The owner and the mode *)
| FchdirCall (fd : Z) : ChildCall (option error)
| SetgroupsCall (groups : list Z) : ChildCall (option error)
| SetgidCall (gid : Z) : ChildCall (option error)
| SetuidCall (uid : Z) : ChildCall (option error)
| ExecveatCall (fd : Z) (argv environment : list string) : ChildCall error
    (** It does not return when it succeeds. *)
| CloseFdCall (fd : Z) : ChildCall unit.

Definition maxChildPlanBytes : Z := Z.shiftl 2 20.

Definition O_CLOEXEC : Z := Z.shiftl 1 19.
Definition O_DIRECTORY : Z := Z.shiftl 1 16.
Definition O_PATH : Z := Z.shiftl 1 21.
(** [RESOLVE_NO_MAGICLINKS | RESOLVE_NO_SYMLINKS] *)
Definition resolve_trusted : Z := Z.lor 2 4.
Definition S_IFMT : Z := Z.shiftl 15 12.
Definition S_IFREG : Z := Z.shiftl 8 12.

(** [internalExecFlagIndex] and [internalPlanDescriptor]: [None] is not handled. *)
Fixpoint internalPlanDescriptor (args : list string) : option (result error Z) :=
  match args with
  | [] => None
  | arg :: rest =>
      if String.eqb arg "--internal-exec" then
        Some (match rest with
              | [text] =>
                  match parse_int text with
                  | Some fd =>
                      refuse ((fd <? 3) || (64 <? fd)) (ErrorNew "invalid internal plan descriptor") ;;; Ok fd
                  | None => Err (ErrorNew "invalid internal plan descriptor")
                  end
              | _ => Err (ErrorNew "invalid internal execution arguments")
              end)
      else internalPlanDescriptor rest
  end.

Section child.
Context {R : MapRange} {JT : JSONTokens} {PJ : PlanJSON}.

Notation Prog := (Program ChildCall).


(** [applyResourceLimits] *)
Fixpoint applyResourceLimits (limits : list (string * Z)) : Prog (option error) :=
  match limits with
  | [] => mret None
  | (resource, value) :: rest =>
      err ← call (SetrlimitCall resource value);
      unless_error err (λ _, mret (Some (ErrorNew "apply process resource limit"))) (applyResourceLimits rest)
  end.

Definition preIdentityLimits (p : SudoPlan) : list (string * Z) :=
  [("RLIMIT_CORE", 0); ("RLIMIT_NOFILE", 64); ("RLIMIT_FSIZE", sp_MaxOutputBytes p);
   ("RLIMIT_CPU", to_uint32 (sp_TimeoutSeconds p + 1))].

Definition postIdentityLimits : list (string * Z) := [("RLIMIT_NPROC", 64)].

Definition openTrustedPath (path : string) (flags : Z) : Prog (result error Z) :=
  call (Openat2Call path flags resolve_trusted).

Definition openTrustedDirectory (path : string) : Prog (result error Z) :=
  opened ← openTrustedPath path (Z.lor O_DIRECTORY O_CLOEXEC);
  mret (match opened with Ok fd => Ok fd | Err _ => Err (ErrorNew "open trusted working directory") end).

(** [validateExecutableDescriptor] with [inspectExecutableDescriptor] *)
Definition validateExecutableDescriptor (fd : Z) : Prog (option error) :=
  stat ← call (FstatCall fd);
  mret (match stat with
        | Err _ => Some (ErrorNew "inspect executable descriptor")
        | Ok (uid, mode) =>
            if negb (uid =? 0) || negb (Z.land mode S_IFMT =? S_IFREG) || negb (Z.land mode 18 =? 0)
               || (Z.land mode 73 =? 0)
            then Some (ErrorNew "executable descriptor is not trusted") else None
        end).

Definition openTrustedExecutable (path : string) : Prog (result error Z) :=
  opened ← openTrustedPath path (Z.lor O_PATH O_CLOEXEC);
  match opened with
  | Err _ => mret (Err (ErrorNew "open trusted executable"))
  | Ok fd =>
      err ← validateExecutableDescriptor fd;
      unless_error err (λ e, _ ← call (CloseFdCall fd); mret (Err e)) (mret (Ok fd))
  end.

(** [openChildExecHandles] *)
Definition openChildExecHandles (p : SudoPlan) : Prog (result error (Z * Z)) :=
  directory ← openTrustedDirectory (sp_WorkingDirectory p);
  match directory with
  | Err e => mret (Err e)
  | Ok workingDirectory =>
      opened ← openTrustedExecutable (sp_Executable p);
      match opened with
      | Err e => _ ← call (CloseFdCall workingDirectory); mret (Err e)
      | Ok executable => mret (Ok (workingDirectory, executable))
      end
  end.

Definition dropIdentity (p : SudoPlan) : Prog (option error) :=
  err ← call (SetgroupsCall (sp_SupplementaryGIDs p));
  unless_error err (λ _, mret (Some (ErrorNew "drop supplementary groups"))) (
  err ← call (SetgidCall (sp_TargetGID p));
  unless_error err (λ _, mret (Some (ErrorNew "drop target gid"))) (
  err ← call (SetuidCall (sp_TargetUID p));
  mret (match err with Some _ => Some (ErrorNew "drop target uid") | None => None end))).

Definition enterChildExecutionContext (workingDirectory : Z) (p : SudoPlan) : Prog (option error) :=
  err ← call (FchdirCall workingDirectory);
  unless_error err (λ _, mret (Some (ErrorNew "enter working directory"))) (
  err ← dropIdentity p;
  unless_error err (λ e, mret (Some e)) (applyResourceLimits postIdentityLimits)).

(** [syscall.SlicePtrFromStrings] refuses a NUL byte. *)
Definition has_nul (value : string) : bool := contains (String "000" EmptyString) value.

Definition execveat (fd : Z) (argv environment : list string) : Prog (option error) :=
  if existsb has_nul argv || existsb has_nul environment then mret (Some (ErrorNew "invalid argument"))
  else e ← call (ExecveatCall fd argv environment); mret (Some e).

(** [childExecHandles.exec] and the deferred closing of the handles. *)
Definition handles_exec (workingDirectory executable : Z) (p : SudoPlan) : Prog (option error) :=
  err ← enterChildExecutionContext workingDirectory p;
  err ← unless_error err (λ e, mret (Some e))
          (execveat executable (sp_Executable p :: sp_Arguments p) (sp_Environment p));
  _ ← call (CloseFdCall workingDirectory);
  _ ← call (CloseFdCall executable);
  mret err.

Definition executePlan (p : SudoPlan) : Prog (option error) :=
  err ← applyResourceLimits (preIdentityLimits p);
  unless_error err (λ e, mret (Some e)) (
  handles ← openChildExecHandles p;
  match handles with
  | Err e => mret (Some e)
  | Ok (workingDirectory, executable) => handles_exec workingDirectory executable p
  end).

Definition readInternalPlan (fd : Z) : Prog (result error SudoPlan) :=
  data ← call (ReadPlanCall fd);
  mret (match data with
        | Ok data =>
            if is_empty data || (maxChildPlanBytes <? len data) then Err (ErrorNew "internal execution plan is invalid")
            else match DecodeCanonical data with
                 | Ok p => Ok p
                 | Err _ => Err (ErrorNew "internal execution plan is invalid")
                 end
        | Err _ => Err (ErrorNew "internal execution plan is invalid")
        end).

Definition runInternalPlanDescriptor (fd : Z) : Prog (option error) :=
  euid ← call GeteuidCall;
  if negb (euid =? 0) then mret (Some (ErrorNew "internal execution requires root"))
  else
    read ← readInternalPlan fd;
    match read with
    | Err e => mret (Some e)
    | Ok p =>
        host ← call ChildHostCall;
        match hostcheck_ValidateExecution (H := host) p max_uint32 with
        | Err e => mret (Some e)
        | Ok _ => executePlan p
        end
    end.

(** Whether the arguments were handled, and the error. *)
Definition RunInternalChild (args : list string) : Prog (bool * option error) :=
  match internalPlanDescriptor args with
  | None => mret (false, None)
  | Some (Err e) => mret (true, Some e)
  | Some (Ok fd) => err ← runInternalPlanDescriptor fd; mret (true, err)
  end.
End child.
