(* ===== verification/SudoSafety.v ===== *)
(** * What the privileged helper guarantees

    Runs of the helper of SudoExecutor: many connections at once, whose calls
    interleave, crashes and restarts, a state file whose writes may fail or be in
    doubt, and a clock that may be set in either direction.  Then the theorems about
    them: what a child that is started rests on, that an execution is not repeated,
    what the answers to the frontend mean; and the child's last steps, the output
    budget and the frames of the protocol. *)

From S2P Require Export SudoExecutor.
From Stdlib Require Import Ascii.

Local Open Scope Z_scope.

(** ** The output budget *)

(** What is written to one stream, and how much to both. *)
Fixpoint written_to (stderr : bool) (steps : list BudgetStep) : string :=
  match steps with
  | [] => EmptyString
  | BudgetWrite to_stderr value :: rest =>
      if Bool.eqb to_stderr stderr then value +:+ written_to stderr rest else written_to stderr rest
  | BudgetSetKill :: rest => written_to stderr rest
  end.

Fixpoint written_total (steps : list BudgetStep) : Z :=
  match steps with
  | [] => 0
  | BudgetWrite _ value :: rest => len value + written_total rest
  | BudgetSetKill :: rest => written_total rest
  end.

Definition kill_set (steps : list BudgetStep) : bool :=
  existsb (λ step, match step with BudgetSetKill => true | _ => false end) steps.

Lemma len_take (n : nat) (s : string) : (n <= String.length s)%nat → len (String.substring 0 n s) = Z.of_nat n.
Proof. intros Hn. unfold len. by rewrite length_substring. Qed.

Lemma written_to_snoc (stderr : bool) (steps : list BudgetStep) (step : BudgetStep) :
  written_to stderr (steps ++ [step]) = written_to stderr steps +:+ written_to stderr [step].
Proof.
  induction steps as [|[to_stderr value|] steps IH]; cbn [app written_to]; [done| |done].
  destruct (Bool.eqb _ _); [|done]. by rewrite IH, app_assoc_string.
Qed.

Lemma written_total_snoc (steps : list BudgetStep) (step : BudgetStep) :
  written_total (steps ++ [step]) = written_total steps + written_total [step].
Proof. induction steps as [|[to_stderr value|] steps IH]; cbn [app written_total] in *; lia. Qed.

(** What the budget keeps, after the steps. *)
Record budget_ok (limit : Z) (steps : list BudgetStep) (o : CapturedOutput) : Prop := {
  bo_remaining : ob_remaining (co_budget o) = Z.max 0 (limit - written_total steps);
  bo_kept : len (co_stdout o) + len (co_stderr o) = limit - ob_remaining (co_budget o);
  bo_truncated : ob_truncated (co_budget o) = (limit <? written_total steps);
  bo_kill : ob_kill (co_budget o) = kill_set steps;
  bo_killed : ob_killed (co_budget o) = ob_truncated (co_budget o) && ob_kill (co_budget o);
  bo_kills : ob_kills (co_budget o) = if ob_killed (co_budget o) then 1%nat else 0%nat;
  bo_stdout : ∃ lost, written_to false steps = co_stdout o +:+ lost
                      ∧ (ob_truncated (co_budget o) = false → lost = EmptyString);
  bo_stderr : ∃ lost, written_to true steps = co_stderr o +:+ lost
                      ∧ (ob_truncated (co_budget o) = false → lost = EmptyString)
}.

Lemma written_total_nonneg (steps : list BudgetStep) : 0 <= written_total steps.
Proof. induction steps as [|[to_stderr value|] steps IH]; cbn [written_total]; [lia| |lia]. pose proof (len_nonneg value). lia. Qed.

(** What one write keeps of its value. *)
Lemma kept_part (value : string) (remaining : Z) :
  0 <= remaining →
  ∃ kept lost, value = kept +:+ lost ∧ len kept = Z.min (len value) remaining
    ∧ (if 0 <? Z.min (len value) remaining then String.substring 0 (Z.to_nat (Z.min (len value) remaining)) value
       else EmptyString) = kept
    ∧ (len value <= remaining → lost = EmptyString).
Proof.
  intros Hr. pose proof (len_nonneg value) as Hv. set (keep := Z.min (len value) remaining).
  exists (String.substring 0 (Z.to_nat keep) value), (drop_bytes (Z.to_nat keep) value).
  assert (Z.to_nat keep <= String.length value)%nat as Hk by (unfold len in *; lia).
  split; [by rewrite substring_drop|]. split; [rewrite len_take by done; lia|]. split.
  - destruct (Z.ltb_spec 0 keep) as [_|Hz]; [done|]. replace (Z.to_nat keep) with 0%nat by lia. by destruct value.
  - intros Hle. pose proof (length_drop_bytes value (Z.to_nat keep)) as Hl. unfold len in *.
    destruct (drop_bytes _ _); [done|]. cbn in Hl. lia.
Qed.

(** One stream after a write to either: what is captured of it is still its beginning, and all of it unless
    something was lost. *)
Lemma stream_write (steps : list BudgetStep) (to_stderr stderr truncated over : bool) (value kept lost captured : string) :
  value = kept +:+ lost → (truncated = true → kept = EmptyString) → (over = false → lost = EmptyString) →
  (∃ rest, written_to stderr steps = captured +:+ rest ∧ (truncated = false → rest = EmptyString)) →
  ∃ rest, written_to stderr (steps ++ [BudgetWrite to_stderr value])
    = (if Bool.eqb to_stderr stderr then captured +:+ kept else captured) +:+ rest
    ∧ (truncated || over = false → rest = EmptyString).
Proof.
  intros Ev Hk Hl (rest & Er & Hr). rewrite written_to_snoc, Er. cbn [written_to]. destruct (Bool.eqb to_stderr stderr).
  - destruct truncated.
    + exists (rest +:+ value +:+ EmptyString). rewrite (Hk eq_refl), !app_nil_r_string, app_assoc_string. by split.
    + rewrite (Hr eq_refl), !app_nil_r_string. exists lost. rewrite Ev, app_assoc_string. by split.
  - exists rest. rewrite app_nil_r_string. split; [done|]. intros Hz%orb_false_iff. by apply Hr, Hz.
Qed.

(** The output is truncated when a write is larger than what remains. *)
Lemma truncated_write (limit total size remaining : Z) :
  0 <= limit → 0 <= total → 0 <= size → remaining = Z.max 0 (limit - total) →
  (limit <? total) || (Z.min size remaining <? size) = (limit <? total + size).
Proof.
  intros. subst remaining. destruct (Z.ltb_spec limit total); cbn [orb]; [symmetry; apply Z.ltb_lt; lia|].
  destruct (Z.ltb_spec (Z.min size (Z.max 0 (limit - total))) size); symmetry; [apply Z.ltb_lt|apply Z.ltb_ge]; lia.
Qed.

Lemma budget_write_ok (limit : Z) (steps : list BudgetStep) (o : CapturedOutput) (to_stderr : bool) (value : string) :
  0 <= limit → budget_ok limit steps o →
  budget_ok limit (steps ++ [BudgetWrite to_stderr value]) (budget_step o (BudgetWrite to_stderr value)).
Proof.
  intros Hlimit [Hrem Hkept Htr Hkill Hkilled Hkills Hout Herr]. pose proof (written_total_nonneg steps) as Ht.
  pose proof (len_nonneg value) as Hv.
  destruct (kept_part value (ob_remaining (co_budget o)) ltac:(lia)) as (kept & lost & Ev & Hk & Ek & Hl).
  unfold budget_step. rewrite Ek. set (over := Z.min (len value) (ob_remaining (co_budget o)) <? len value).
  assert (ob_truncated (co_budget o) = true → kept = EmptyString) as Hempty.
  { rewrite Htr, Z.ltb_lt. intros Hz. assert (len kept = 0) as H0 by lia. by destruct kept. }
  assert (over = false → lost = EmptyString) as Hlost by (unfold over; rewrite Z.ltb_ge; intros Hz; apply Hl; lia).
  assert (kill_set (steps ++ [BudgetWrite to_stderr value]) = kill_set steps) as Hks.
  { unfold kill_set. rewrite existsb_app. apply orb_false_r. }
  pose proof (stream_write steps to_stderr false _ over value kept lost _ Ev Hempty Hlost Hout) as Hout'.
  pose proof (stream_write steps to_stderr true _ over value kept lost _ Ev Hempty Hlost Herr) as Herr'.
  constructor; cbn [co_budget ob_remaining ob_truncated ob_kill ob_killed ob_kills co_stdout co_stderr].
  - rewrite written_total_snoc. cbn [written_total]. destruct (Z.ltb_spec 0 (Z.min (len value) (ob_remaining (co_budget o)))); lia.
  - destruct to_stderr; rewrite ?len_app, Hk; destruct (Z.ltb_spec 0 (Z.min (len value) (ob_remaining (co_budget o)))); lia.
  - rewrite Htr, written_total_snoc. cbn [written_total]. rewrite Z.add_0_r. by apply truncated_write.
  - by rewrite Hks.
  - rewrite Hkilled. generalize (ob_truncated (co_budget o)), (ob_kill (co_budget o)), over. by intros [] [] [].
  - rewrite Hkills, Hkilled. generalize (ob_truncated (co_budget o)), (ob_kill (co_budget o)), over. by intros [] [] [].
  - by destruct to_stderr.
  - by destruct to_stderr.
Qed.

Lemma budget_kill_ok (limit : Z) (steps : list BudgetStep) (o : CapturedOutput) :
  budget_ok limit steps o → budget_ok limit (steps ++ [BudgetSetKill]) (budget_step o BudgetSetKill).
Proof.
  intros [Hrem Hkept Htr Hkill Hkilled Hkills Hout Herr].
  assert (kill_set (steps ++ [BudgetSetKill]) = true) as Hks by (unfold kill_set; rewrite existsb_app; apply orb_true_r).
  constructor; cbn [budget_step co_budget ob_remaining ob_truncated ob_kill ob_killed ob_kills co_stdout co_stderr];
    rewrite ?written_total_snoc, ?written_to_snoc; cbn [written_total written_to]; rewrite ?Z.add_0_r, ?app_nil_r_string;
    [done|done|done|done| | |done|done].
  - rewrite Hkilled. by destruct (ob_truncated _), (ob_kill _).
  - rewrite Hkills, Hkilled. by destruct (ob_truncated _), (ob_kill _).
Qed.

Lemma budget_step_ok (limit : Z) (steps : list BudgetStep) (o : CapturedOutput) (step : BudgetStep) :
  0 <= limit → budget_ok limit steps o → budget_ok limit (steps ++ [step]) (budget_step o step).
Proof. destruct step; [apply budget_write_ok|intros _; apply budget_kill_ok]. Qed.

(** C35: the output budget, in every order of the writes of the two streams and of the kill function being
    set: the captured bytes are the first ones of each stream, together as many as the limit allows and
    never more; the output is marked truncated exactly when more was written; and the process group is
    killed once if it was, and the kill function was set, and never otherwise. *)
Theorem captured_output_exact (limit : Z) (steps : list BudgetStep) :
  0 <= limit →
  let o := capture limit steps in
  len (co_stdout o) + len (co_stderr o) = Z.min limit (written_total steps)
  ∧ (∃ lost, written_to false steps = co_stdout o +:+ lost)
  ∧ (∃ lost, written_to true steps = co_stderr o +:+ lost)
  ∧ ob_truncated (co_budget o) = (limit <? written_total steps)
  ∧ ob_kills (co_budget o) = if (limit <? written_total steps) && kill_set steps then 1%nat else 0%nat.
Proof.
  intros Hl o. assert (budget_ok limit steps o) as [Hrem Hkept Htr Hkill Hkilled Hkills (lo & Elo & _) (le & Ele & _)].
  { unfold o, capture. induction steps as [|step steps IH] using rev_ind.
    - constructor; cbn; [lia|unfold len; cbn; lia| |done|done|done|by exists EmptyString|by exists EmptyString].
      symmetry. apply Z.ltb_ge. lia.
    - rewrite foldl_app. by apply budget_step_ok. }
  split; [rewrite Hkept, Hrem; lia|]. split; [by exists lo|]. split; [by exists le|]. split; [done|].
  by rewrite Hkills, Hkilled, Hkill, Htr.
Qed.

(** ** Frames *)

Lemma byte_of_byte (z : Z) : byte_of (byte z) = z mod 256.
Proof.
  unfold byte, byte_of. pose proof (Z.mod_pos_bound z 256 ltac:(lia)).
  unfold ascii_of_nat. rewrite N_ascii_embedding; [rewrite nat_N_Z; lia|].
  apply N2Z.inj_lt. rewrite nat_N_Z. change (Z.of_N 256) with 256. lia.
Qed.

(** The four bytes of a number. *)
Lemma four_bytes (z : Z) :
  0 <= z < 2 ^ 32 →
  z = (z / 2 ^ 24) mod 256 * 2 ^ 24 + ((z / 2 ^ 16) mod 256 * 2 ^ 16 + ((z / 2 ^ 8) mod 256 * 2 ^ 8 + z mod 256)).
Proof.
  intros Hz. change (2 ^ 32) with 4294967296 in Hz. change (2 ^ 24) with 16777216. change (2 ^ 16) with 65536.
  change (2 ^ 8) with 256.
  assert (z / 65536 = z / 256 / 256) as -> by (by rewrite Z.div_div by lia).
  assert (z / 16777216 = z / 256 / 256 / 256) as -> by (by rewrite !Z.div_div by lia).
  pose proof (Z.div_mod z 256 ltac:(lia)) as H0. pose proof (Z.div_mod (z / 256) 256 ltac:(lia)) as H1.
  pose proof (Z.div_mod (z / 256 / 256) 256 ltac:(lia)) as H2.
  assert (z / 256 / 256 / 256 mod 256 = z / 256 / 256 / 256) as ->; [|lia].
  apply Z.mod_small. rewrite !Z.div_div by lia. split; [apply Z.div_pos; lia|apply Z.div_lt_upper_bound; lia].
Qed.

Lemma Uint32_PutUint32 (z : Z) (rest : string) :
  0 <= z < 2 ^ 32 → Uint32 (PutUint32 z +:+ rest) = Some (z, rest).
Proof.
  intros Hz. unfold PutUint32. rewrite !app_cons, app_nil_l_string. unfold Uint32. do 2 f_equal.
  rewrite !byte_of_byte, !shiftr_div, <- Z.lor_assoc by lia. rewrite (four_bytes z Hz) at 5.
  pose proof (Z.mod_pos_bound (z / 2 ^ 24) 256 ltac:(lia)). pose proof (Z.mod_pos_bound (z / 2 ^ 16) 256 ltac:(lia)).
  pose proof (Z.mod_pos_bound (z / 2 ^ 8) 256 ltac:(lia)). pose proof (Z.mod_pos_bound z 256 ltac:(lia)).
  revert H H0 H1 H2.
  generalize ((z / 2 ^ 24) mod 256), ((z / 2 ^ 16) mod 256), ((z / 2 ^ 8) mod 256), (z mod 256). intros a b c d Ha Hb Hc Hd.
  rewrite (lor_shiftl_add c d 8) by lia. rewrite (lor_shiftl_add b _ 16) by lia. by rewrite (lor_shiftl_add a _ 24) by lia.
Qed.

Lemma substring_all (s : string) : String.substring 0 (String.length s) s = s.
Proof. induction s as [|c s IH]; [done|]. cbn. by rewrite IH. Qed.

(** What [writeFrame] writes, [readFrame] takes off the connection again, whatever follows it: exactly
    the marshaled text is handed to the decoder. *)
Theorem frame_read_back {JT : JSONTokens} {A} (decode : string → result error (A * bool)) (data frame rest : string) :
  writeFrame (Ok data) = Ok frame → readFrame decode (frame +:+ rest) = decodeFrameData decode data.
Proof.
  unfold writeFrame. rewrite bind_ok_iff. intros (d & [= <-] & H). apply seq_ok in H as [Hs [= <-]].
  apply refuse_ok, orb_false_iff in Hs as [He Hl]. apply Z.ltb_ge in Hl.
  assert (MaxFrameSize < 2 ^ 32) by done. pose proof (len_nonneg data).
  unfold readFrame, readFrameSize. rewrite app_assoc_string, Uint32_PutUint32 by lia.
  assert (0 < len data) by (destruct data; [done|unfold len; cbn; lia]).
  rewrite (proj2 (Z.eqb_neq _ _)), (proj2 (Z.ltb_ge MaxFrameSize _)) by lia. cbn [orb refuse mbind result_bind].
  unfold readFrameData. rewrite len_app, (proj2 (Z.ltb_ge _ _)) by (pose proof (len_nonneg rest); lia).
  cbn [refuse mbind result_bind]. f_equal. unfold len. rewrite Nat2Z.id, substring_app by done.
  by rewrite substring_all.
Qed.

(** ** What a program has done when it makes a call *)

Section discipline.
Context {Call : Type → Type} {Event : Type}.
Context (event_of : ∀ B, Call B → B → Event) (answers : ∀ B, Call B → B → Prop)
  (permitted : ∀ B, Call B → list Event → Prop).

Notation Prog := (Program Call).

(** Every call the program makes is permitted after the events of the earlier ones, the last first, and the
    result satisfies [Q]. *)
Fixpoint obeys {X} (p : Prog X) (Q : X → list Event → Prop) (h : list Event) : Prop :=
  match p with
  | Return x => Q x h
  | Ask c k => permitted _ c h ∧ ∀ b, answers _ c b → obeys (k b) Q (event_of _ c b :: h)
  end.

Lemma obeys_bind {X Y} (p : Prog X) (f : X → Prog Y) (Q : Y → list Event → Prop) (h : list Event) :
  obeys p (λ x, obeys (f x) Q) h → obeys (p ≫= f) Q h.
Proof.
  revert h. induction p as [x|B c k IH]; intros h; [done|]. intros [Hc Hk]. split; [done|]. intros b Hb. by apply IH, Hk.
Qed.

Lemma obeys_mono {X} (p : Prog X) (Q Q' : X → list Event → Prop) (h : list Event) :
  (∀ x h, Q x h → Q' x h) → obeys p Q h → obeys p Q' h.
Proof.
  intros HQ. revert h. induction p as [x|B c k IH]; intros h; [apply HQ|]. intros [Hc Hk]. split; [done|]. intros b Hb. by apply IH, Hk.
Qed.

Lemma obeys_call {B Y} (c : Call B) (f : B → Prog Y) (Q : Y → list Event → Prop) (h : list Event) :
  permitted _ c h → (∀ b, answers _ c b → obeys (f b) Q (event_of _ c b :: h)) → obeys (call c ≫= f) Q h.
Proof. by split. Qed.

Lemma obeys_last {B} (c : Call B) (Q : B → list Event → Prop) (h : list Event) :
  permitted _ c h → (∀ b, answers _ c b → Q b (event_of _ c b :: h)) → obeys (call c) Q h.
Proof. by split. Qed.

Lemma obeys_ret {X} (x : X) (Q : X → list Event → Prop) (h : list Event) : Q x h → obeys (mret x) Q h.
Proof. done. Qed.
End discipline.

#[global] Arguments obeys_mono {Call Event event_of answers permitted X} p Q Q' h _ _.

(** ** The child *)

(** A call of the child with its answer. *)
Inductive ChildEvent : Type :=
| GotEuid (euid : Z)
| GotPlan (fd : Z) (answer : result error string)
| SawHost (host : Host)
| Limited (resource : string) (value : Z) (answer : option error)
| Opened (path : string) (flags resolve : Z) (answer : result error Z)
| Described (fd : Z) (answer : result error (Z * Z))
| ChangedDirectory (fd : Z) (answer : option error)
| SetGroups (groups : list Z) (answer : option error)
| SetGid (gid : Z) (answer : option error)
| SetUid (uid : Z) (answer : option error)
| Executed (fd : Z) (argv environment : list string) (answer : error)
| ClosedFd (fd : Z).

Definition child_event_of {B} (c : ChildCall B) : B → ChildEvent :=
  match c in ChildCall B return B → ChildEvent with
  | GeteuidCall => GotEuid
  | ReadPlanCall fd => GotPlan fd
  | ChildHostCall => SawHost
  | SetrlimitCall resource value => Limited resource value
  | Openat2Call path flags resolve => Opened path flags resolve
  | FstatCall fd => Described fd
  | FchdirCall fd => ChangedDirectory fd
  | SetgroupsCall groups => SetGroups groups
  | SetgidCall gid => SetGid gid
  | SetuidCall uid => SetUid uid
  | ExecveatCall fd argv environment => Executed fd argv environment
  | CloseFdCall fd => λ _, ClosedFd fd
  end.

(** What a child has done at some point, the last call first. *)
Fixpoint child_did {X} (p : Program ChildCall X) (h : list ChildEvent) (h' : list ChildEvent) : Prop :=
  h' = h ∨ match p with Return _ => False | Ask c k => ∃ b, child_did (k b) (child_event_of c b :: h) h' end.

Section child_identity.
Context {R : MapRange} {JT : JSONTokens} {PJ : PlanJSON} (args : list string).

(** The limits the child sets before it opens anything, the last first. *)
Definition limited (p : SudoPlan) : list ChildEvent :=
  [Limited "RLIMIT_CPU" (to_uint32 (sp_TimeoutSeconds p + 1)) None; Limited "RLIMIT_FSIZE" (sp_MaxOutputBytes p) None;
   Limited "RLIMIT_NOFILE" 64 None; Limited "RLIMIT_CORE" 0 None].

(** The plan was read and checked by root. *)
Record child_checked (p : SudoPlan) (h : list ChildEvent) : Prop := {
  cc_events : ∃ plan_fd data host, h = [SawHost host; GotPlan plan_fd (Ok data); GotEuid 0]
    ∧ internalPlanDescriptor args = Some (Ok plan_fd) ∧ len data <= maxChildPlanBytes ∧ DecodeCanonical data = Ok p
    ∧ hostcheck_ValidateExecution (H := host) p max_uint32 = Ok tt
}.

(** The directory and the executable were opened, and the executable found trusted. *)
Definition child_opened (p : SudoPlan) (directory executable : Z) (h : list ChildEvent) : Prop :=
  ∃ mode before,
    h = [Described executable (Ok (0, mode));
         Opened (sp_Executable p) (Z.lor O_PATH O_CLOEXEC) resolve_trusted (Ok executable);
         Opened (sp_WorkingDirectory p) (Z.lor O_DIRECTORY O_CLOEXEC) resolve_trusted (Ok directory)]
        ++ limited p ++ before
    ∧ child_checked p before
    ∧ Z.land mode S_IFMT = S_IFREG ∧ Z.land mode 18 = 0 ∧ Z.land mode 73 ≠ 0.

(** The directory was entered, the identity dropped, and the processes limited. *)
Definition child_entered (p : SudoPlan) (directory executable : Z) (h : list ChildEvent) : Prop :=
  ∃ before,
    h = [Limited "RLIMIT_NPROC" 64 None; SetUid (sp_TargetUID p) None; SetGid (sp_TargetGID p) None;
         SetGroups (sp_SupplementaryGIDs p) None; ChangedDirectory directory None] ++ before
    ∧ child_opened p directory executable before.

Definition child_permitted (B : Type) (c : ChildCall B) (h : list ChildEvent) : Prop :=
  match c with
  | ExecveatCall fd argv environment =>
      ∃ p directory, child_entered p directory fd h ∧ argv = sp_Executable p :: sp_Arguments p
        ∧ environment = sp_Environment p
  | _ => True
  end.

Notation ordered := (obeys (@child_event_of) (λ _ _ _, True) child_permitted).

(** After an error nothing is executed any more. *)
Lemma applyResourceLimits_ordered (limits : list (string * Z)) (Q : option error → list ChildEvent → Prop) (h : list ChildEvent) :
  (∀ e h', Q (Some e) h') → Q None (rev ((λ '(resource, value), Limited resource value None) <$> limits) ++ h) →
  ordered (applyResourceLimits limits) Q h.
Proof.
  intros He. revert h. induction limits as [|[resource value] limits IH]; intros h Hq; [done|]. cbn [applyResourceLimits].
  apply obeys_call; [done|]. intros [e|] _; cbn [child_event_of unless_error]; [apply obeys_ret, He|]. apply IH.
  cbn [fmap list_fmap rev] in Hq. by rewrite <- app_assoc in Hq.
Qed.

Lemma handles_exec_ordered (p : SudoPlan) (directory executable : Z) (h : list ChildEvent) :
  child_opened p directory executable h → ordered (handles_exec directory executable p) (λ _ _, True) h.
Proof.
  intros Ho. unfold handles_exec, enterChildExecutionContext, dropIdentity.
  apply obeys_bind, obeys_call; [done|]. intros [e|] _; cbn [child_event_of unless_error]; [by repeat (apply obeys_ret || split)|].
  apply obeys_bind, obeys_call; [done|]. intros [e|] _; cbn [child_event_of unless_error]; [by repeat (apply obeys_ret || split)|].
  apply obeys_call; [done|]. intros [e|] _; cbn [child_event_of unless_error]; [by repeat (apply obeys_ret || split)|].
  apply obeys_call; [done|]. intros [e|] _; cbn [child_event_of unless_error]; [by repeat (apply obeys_ret || split)|].
  apply obeys_ret. cbn [unless_error]. apply applyResourceLimits_ordered; [by repeat split|]. cbn [unless_error].
  apply obeys_bind. unfold execveat. destruct (_ || _); [by repeat split|]. apply obeys_call; [|by repeat split].
  exists p, directory. split; [|done]. by exists h.
Qed.

Lemma openChildExecHandles_ordered (p : SudoPlan) (h : list ChildEvent) :
  child_checked p h →
  ordered (openChildExecHandles p)
    (λ handles h, ∀ directory executable, handles = Ok (directory, executable) → child_opened p directory executable h)
    (limited p ++ h).
Proof.
  intros Hc. unfold openChildExecHandles, openTrustedDirectory, openTrustedExecutable, openTrustedPath, validateExecutableDescriptor.
  apply obeys_bind, obeys_call; [done|]. intros [directory|e] _; cbn [child_event_of]; apply obeys_ret; [|by apply obeys_ret].
  apply obeys_bind, obeys_call; [done|]. intros [executable|e] _; cbn [child_event_of]; [|by apply obeys_ret, obeys_call].
  apply obeys_bind, obeys_call; [done|]. intros [[uid mode]|e] _; cbn [child_event_of]; apply obeys_ret.
  - destruct (_ || _) eqn:Eb; cbn [unless_error]; [by repeat split|]. apply obeys_ret, obeys_ret.
    intros ? ? [= <- <-]. bool_to_prop. subst. by exists mode, h.
  - by repeat split.
Qed.

Lemma RunInternalChild_ordered : ordered (RunInternalChild args) (λ _ _, True) [].
Proof.
  unfold RunInternalChild. destruct (internalPlanDescriptor args) as [[fd|e]|] eqn:Ed; [|done|done].
  apply obeys_bind. unfold runInternalPlanDescriptor. apply obeys_call; [done|]. intros euid _. cbn [child_event_of].
  destruct (Z.eqb_spec euid 0) as [->|_]; [|done]. cbn [negb]. unfold readInternalPlan.
  apply obeys_bind, obeys_call; [done|]. intros data _. apply obeys_ret. cbn [child_event_of].
  destruct data as [data|e]; [|done]. destruct (is_empty data || (maxChildPlanBytes <? len data)) eqn:Es; [done|].
  destruct (DecodeCanonical data) as [p|e] eqn:Ep; [|done]. apply obeys_call; [done|]. intros host _. cbn [child_event_of].
  destruct (hostcheck_ValidateExecution (H := host) p max_uint32) as [[]|e] eqn:Eh; [|done].
  assert (child_checked p [SawHost host; GotPlan fd (Ok data); GotEuid 0]) as Hc.
  { constructor. exists fd, data, host. bool_to_prop. done. }
  unfold executePlan. apply obeys_bind, applyResourceLimits_ordered; [done|]. cbn [unless_error].
  apply obeys_bind. eapply obeys_mono; [|by apply openChildExecHandles_ordered].
  intros [[directory executable]|e] h Ho; [|done].
  eapply obeys_mono; [|by apply handles_exec_ordered, Ho]. done.
Qed.

Lemma ordered_did {X} (prog : Program ChildCall X) (Q : X → list ChildEvent → Prop) (fd : Z)
    (argv environment : list string) (answer : error) (h h' : list ChildEvent) :
  ordered prog Q h → child_did prog h (Executed fd argv environment answer :: h') →
  Executed fd argv environment answer :: h' = h ∨ child_permitted _ (ExecveatCall fd argv environment) h'.
Proof.
  revert h. induction prog as [x|B c k IH]; intros h Ho; [by intros [?|[]]; left|].
  intros [?|[b Hd]]; [by left|]. destruct Ho as [Hc Hk]. right.
  destruct (IH b _ (Hk b I) Hd) as [E|?]; [|done]. destruct c; try discriminate E. by injection E as -> -> -> _ ->.
Qed.

(** C9: the program of a plan is only executed by a child that is root; that has read a plan of
    at most two mebibytes which decodes and is valid, and has found its paths trusted; and that has then, in
    this order and each with success, set the limits of the process, opened the working directory and the
    executable without following any link, found the open executable to be a regular file of root that only
    root can write, entered the open directory, set exactly the groups, the group and the user of the plan,
    and limited the processes.  What is executed is the open file, with the arguments and the environment of
    the plan.  The calls are listed with the last first. *)
Theorem child_drops_identity (fd : Z) (argv environment : list string) (answer : error) (h : list ChildEvent) :
  child_did (RunInternalChild args) [] (Executed fd argv environment answer :: h) →
  ∃ plan_fd data p host directory mode,
    h = [Limited "RLIMIT_NPROC" 64 None;
         SetUid (sp_TargetUID p) None; SetGid (sp_TargetGID p) None; SetGroups (sp_SupplementaryGIDs p) None;
         ChangedDirectory directory None;
         Described fd (Ok (0, mode));
         Opened (sp_Executable p) (Z.lor O_PATH O_CLOEXEC) resolve_trusted (Ok fd);
         Opened (sp_WorkingDirectory p) (Z.lor O_DIRECTORY O_CLOEXEC) resolve_trusted (Ok directory);
         Limited "RLIMIT_CPU" (to_uint32 (sp_TimeoutSeconds p + 1)) None; Limited "RLIMIT_FSIZE" (sp_MaxOutputBytes p) None;
         Limited "RLIMIT_NOFILE" 64 None; Limited "RLIMIT_CORE" 0 None;
         SawHost host; GotPlan plan_fd (Ok data); GotEuid 0]
    ∧ internalPlanDescriptor args = Some (Ok plan_fd)
    ∧ len data <= maxChildPlanBytes ∧ DecodeCanonical data = Ok p
    ∧ hostcheck_ValidateExecution (H := host) p max_uint32 = Ok tt
    ∧ Z.land mode S_IFMT = S_IFREG ∧ Z.land mode 18 = 0 ∧ Z.land mode 73 ≠ 0
    ∧ argv = sp_Executable p :: sp_Arguments p ∧ environment = sp_Environment p.
Proof.
  intros Hd. destruct (ordered_did _ _ _ _ _ _ _ _ RunInternalChild_ordered Hd)
    as [E|(p & directory & (before & -> & mode & before' & -> & Hc & Hm) & -> & ->)]; [done|].
  destruct Hc as [(plan_fd & data & host & -> & H1 & H2 & H3 & H4)]. destruct Hm as (H5 & H6 & H7).
  exists plan_fd, data, p, host, directory, mode. by repeat split.
Qed.
End child_identity.

(** ** Runs *)

(** A call with its answer. *)
Inductive HelperEvent : Type :=
| SawPeer (answer : result error Z)
| Received (bytes : string)
| ReadClock (now : Time)
| Inspected (host : Host)
| LookedUp (id digest grantID reservationID : string) (answer : result error (option executionRecord))
| Claimed (id digest grantID reservationID : string) (answer : result error (executionRecord * bool))
| MarkedStarted (id : string) (answer : result error unit)
| Completed (id : string) (outcome : ExecOutcome) (answer : result error unit)
| PreparedChild (answer : option error)
| StartedChild (id canonical : string) (deadline : Time) (answer : option error)
| ChildEnded (ended : ChildResult)
| SentFrame (frame : string).

Definition event_of {B} (c : HelperCall B) : B → HelperEvent :=
  match c in HelperCall B return B → HelperEvent with
  | PeerUIDCall => SawPeer
  | ReceiveCall => Received
  | HelperNowCall => ReadClock
  | InspectHostCall => Inspected
  | LookupCall id digest grantID reservationID => LookedUp id digest grantID reservationID
  | ClaimCall id digest grantID reservationID => Claimed id digest grantID reservationID
  | MarkStartedCall id => MarkedStarted id
  | CompleteCall id outcome => Completed id outcome
  | PrepareChildCall => PreparedChild
  | StartChildCall id canonical deadline => StartedChild id canonical deadline
  | WaitChildCall => ChildEnded
  | SendCall frame => λ _, SentFrame frame
  end.

(** The strings JSON keeps as they are. *)
Definition outcome_valid (o : ExecOutcome) : bool := valid_utf8 (xo_Signal o).

Definition execution_valid (r : executionRecord) : bool :=
  valid_utf8 (ex_ID r) && valid_utf8 (ex_PlanDigest r) && valid_utf8 (ex_GrantID r) && valid_utf8 (ex_ReservationID r)
  && valid_utf8 (ex_Status r) && match ex_Outcome r with Some o => outcome_valid o | None => true end.

Definition response_valid (r : ExecResponse) : bool :=
  valid_utf8 (xs_Status r) && valid_utf8 (xs_ExecutionID r) && valid_utf8 (xs_ErrorCode r)
  && match xs_Outcome r with Some o => outcome_valid o | None => true end.

Definition request_valid (r : ExecRequest) : bool :=
  valid_utf8 (xr_ExecutionID r) && valid_utf8 (xr_PlanDigest r) && valid_utf8 (xr_GrantID r)
  && valid_utf8 (xr_ReservationID r).

Definition newline : string := String "010" EmptyString.

(** What was encoded is decoded, whole; what is decoded is UTF-8. *)
Class ExecutorLaws (JT : JSONTokens) (XJ : ExecutorJSON) : Prop := {
  state_read_back (f : executionFile) (text : string) :
    forallb execution_valid (xf_Executions f) = true → state_MarshalIndent f = Ok text →
    RejectDuplicateKeys (text +:+ newline) = Ok tt ∧ state_DecodeNext (text +:+ newline) = Ok (f, true);
  response_read_back (r : ExecResponse) (text : string) :
    response_valid r = true → response_Marshal r = Ok text →
    RejectDuplicateKeys text = Ok tt ∧ response_DecodeNext text = Ok (r, true);
  request_decoded (text : string) (r : ExecRequest) (ended : bool) :
    request_DecodeNext text = Ok (r, ended) → request_valid r = true
}.

(** The answers that need no state: the host keeps its laws, signals have names in UTF-8. *)
Definition answers {B} (c : HelperCall B) : B → Prop :=
  match c in HelperCall B return B → Prop with
  | InspectHostCall => HostLaws
  | WaitChildCall => λ ended, valid_utf8 (ch_signal ended) = true
  | _ => λ _, True
  end.

Section runs.
Context {R : MapRange} {JT : JSONTokens} {CJ : CatalogJSON} {PJ : PlanJSON} {XJ : ExecutorJSON}.
Context (plandigest_Digest : string → string) (s : HelperServer).

Notation Prog := (Program HelperCall).
Abbreviation handler := (handleConnection plandigest_Digest s).

(** What a call may answer, the state file it leaves, and the readings of the clock it took, the last first. *)
Definition helper_performs {B} (c : HelperCall B) (disk : option string) (b : B) (disk' : option string)
    (readings : list Time) : Prop :=
  answers c b ∧
  match c in HelperCall B return B → Prop with
  | HelperNowCall => λ now, disk' = disk ∧ readings = [now]
  | LookupCall id digest grantID reservationID => λ b,
      ∃ i, b = state_lookup i id digest grantID reservationID disk ∧ disk' = disk ∧ readings = []
  | ClaimCall id digest grantID reservationID => λ b,
      ∃ i, (b, disk') = state_claim i id digest grantID reservationID disk ∧ readings = [si_later i; si_now i]
  | MarkStartedCall id => λ b, ∃ i, (b, disk') = markStarted i id disk ∧ readings = [si_now i]
  | CompleteCall id outcome => λ b, ∃ i, (b, disk') = state_complete i id outcome disk ∧ readings = [si_now i]
  | _ => λ _, disk' = disk ∧ readings = []
  end b.

(** An event of a connection with its readings, or the end of the process. *)
Inductive HelperEntry : Type :=
| Entry (connection : nat) (event : HelperEvent) (readings : list Time)
| HelperDied.

Record HelperState : Type := MkHelperState {
  h_disk : option string;
  h_connections : list (nat * Prog unit);
  h_next : nat;
  h_log : list HelperEntry
}.

(** A connection that is accepted while too many are open is refused without being handled ([Serve]). *)
Inductive helper_step : HelperState → HelperState → Prop :=
| helper_accepts (disk : option string) (connections : list (nat * Prog unit)) (next : nat) (log : list HelperEntry) :
    Z.of_nat (length connections) < hs_maxConnections s →
    helper_step (MkHelperState disk connections next log)
      (MkHelperState disk ((next, handler) :: connections) (S next) log)
| helper_calls {B} (c : HelperCall B) (k : B → Prog unit) (b : B) (t next : nat) (disk disk' : option string)
    (front back : list (nat * Prog unit)) (log : list HelperEntry) (readings : list Time) :
    helper_performs c disk b disk' readings →
    helper_step (MkHelperState disk (front ++ (t, Ask c k) :: back) next log)
      (MkHelperState disk' (front ++ (t, k b) :: back) next (Entry t (event_of c b) readings :: log))
| helper_closes (x : unit) (t next : nat) (disk : option string) (front back : list (nat * Prog unit))
    (log : list HelperEntry) :
    helper_step (MkHelperState disk (front ++ (t, Return x) :: back) next log)
      (MkHelperState disk (front ++ back) next log)
| helper_dies (disk : option string) (connections : list (nat * Prog unit)) (next : nat) (log : list HelperEntry) :
    helper_step (MkHelperState disk connections next log) (MkHelperState disk [] next (HelperDied :: log)).

(** A helper that has never run. *)
Definition fresh_helper : HelperState := MkHelperState None [] 0 [].

(** The events of one connection, the last first. *)
Definition events_of (t : nat) (log : list HelperEntry) : list HelperEvent :=
  omap (λ e, match e with Entry u event _ => if (u =? t)%nat then Some event else None | HelperDied => None end) log.

(** ** What a connection has done when it makes a call *)

(** The request that is about to be claimed: who sent it, what it holds, and the checks it passed. *)
Record checked (r : ExecRequest) (p : SudoPlan) (now : Time) (h : list HelperEvent) : Prop := {
  ck_events : ∃ bytes host host',
    h = [Inspected host'; Inspected host;
         LookedUp (xr_ExecutionID r) (xr_PlanDigest r) (xr_GrantID r) (xr_ReservationID r) (Ok None);
         ReadClock now; Received bytes; SawPeer (Ok (hs_expectedPeerUID s))]
    ∧ ReadRequest bytes = Ok r
    ∧ HostLaws host
    ∧ ValidateForHelper (H := host) p (Some (hs_catalog s)) (Some (SystemIdentityResolver_Lookup (H := host))) = Ok tt
    ∧ hostcheck_ValidateExecution (H := host') p (hs_brokerUID s) = Ok tt;
  ck_type : xr_Type r = TypeExecute;
  ck_plan : DecodeCanonical (xr_Plan r) = Ok p;
  ck_digest : plandigest_Digest (xr_Plan r) = xr_PlanDigest r;
  ck_expiry : now < xr_ExpiresAt r;
  ck_duration : xr_ExpiresAt r - now <= sp_RequestedDurationSeconds p * second
}.

Definition claim_event (r : ExecRequest) (record : executionRecord) : HelperEvent :=
  Claimed (xr_ExecutionID r) (xr_PlanDigest r) (xr_GrantID r) (xr_ReservationID r) (Ok (record, true)).

Definition holds_claim (r : ExecRequest) (p : SudoPlan) (now : Time) (h : list HelperEvent) : Prop :=
  ∃ record before, h = claim_event r record :: before ∧ checked r p now before.

Definition marked (r : ExecRequest) (p : SudoPlan) (now : Time) (h : list HelperEvent) : Prop :=
  ∃ before, h = MarkedStarted (xr_ExecutionID r) (Ok tt) :: before ∧ holds_claim r p now before.

Definition launching (r : ExecRequest) (p : SudoPlan) (now : Time) (canonical : string) (h : list HelperEvent) : Prop :=
  ∃ host before, h = PreparedChild None :: Inspected host :: before ∧ marked r p now before
    ∧ hostcheck_ValidateExecution (H := host) p (hs_brokerUID s) = Ok tt ∧ EncodeCanonical p = Ok canonical.

Definition run_deadline (r : ExecRequest) (p : SudoPlan) (now : Time) : Time :=
  commandDeadline (xr_ExpiresAt r) (sp_TimeoutSeconds p) now.

(** The run has ended with [outcome]: no child was started, or one was and has ended. *)
Inductive ran (r : ExecRequest) (p : SudoPlan) (now : Time) (outcome : ExecOutcome) (h : list HelperEvent) : Prop :=
| ran_unsafe (host : Host) (before : list HelperEvent) :
    h = Inspected host :: before → marked r p now before → outcome = zero_outcome → ran r p now outcome h
| ran_unprepared (e : error) (host : Host) (before : list HelperEvent) :
    h = PreparedChild (Some e) :: Inspected host :: before → marked r p now before → outcome = zero_outcome →
    ran r p now outcome h
| ran_unstarted (e : error) (canonical : string) (before : list HelperEvent) :
    h = StartedChild (xr_ExecutionID r) canonical (run_deadline r p now) (Some e) :: before →
    launching r p now canonical before → outcome = zero_outcome → ran r p now outcome h
| ran_child (ended : ChildResult) (canonical : string) (before : list HelperEvent) :
    h = ChildEnded ended :: StartedChild (xr_ExecutionID r) canonical (run_deadline r p now) None :: before →
    launching r p now canonical before → valid_utf8 (ch_signal ended) = true →
    outcome = (childOutcome p ended).1 → ran r p now outcome h.

(** What a response rests on. *)
Inductive response_rests (response : ExecResponse) (h : list HelperEvent) : Prop :=
| rests_rejected (code : string) :
    response = NewRejected code →
    (∀ id canonical deadline answer, StartedChild id canonical deadline answer ∉ h) → response_rests response h
| rests_ready : response = NewReady → response_rests response h
| rests_ambiguous (bytes : string) (r : ExecRequest) (code : string) :
    ReadRequest bytes = Ok r → response = NewAmbiguous (xr_ExecutionID r) code → response_rests response h
| rests_own (r : ExecRequest) (p : SudoPlan) (now : Time) (outcome : ExecOutcome) (before : list HelperEvent) :
    response = NewCompleted (xr_ExecutionID r) outcome →
    h = Completed (xr_ExecutionID r) outcome (Ok tt) :: before → ran r p now outcome before →
    response_rests response h
| rests_replay (bytes : string) (r : ExecRequest) (record : executionRecord) (outcome : ExecOutcome)
    (event : HelperEvent) (before : list HelperEvent) :
    ReadRequest bytes = Ok r → response = NewCompleted (xr_ExecutionID r) outcome →
    ex_Status record = executionComplete → ex_Outcome record = Some outcome →
    h = event :: before →
    event = LookedUp (xr_ExecutionID r) (xr_PlanDigest r) (xr_GrantID r) (xr_ReservationID r) (Ok (Some record))
    ∨ event = Claimed (xr_ExecutionID r) (xr_PlanDigest r) (xr_GrantID r) (xr_ReservationID r) (Ok (record, false)) →
    (∀ id canonical deadline answer, StartedChild id canonical deadline answer ∉ h) →
    response_rests response h.

(** When a connection makes a call, given what it has done. *)
Definition call_permitted {B} (c : HelperCall B) (h : list HelperEvent) : Prop :=
  match c with
  | ClaimCall id digest grantID reservationID =>
      ∃ r p now, checked r p now h ∧ id = xr_ExecutionID r ∧ digest = xr_PlanDigest r ∧ grantID = xr_GrantID r
        ∧ reservationID = xr_ReservationID r
  | MarkStartedCall id => ∃ r p now, holds_claim r p now h ∧ id = xr_ExecutionID r
  | StartChildCall id canonical deadline =>
      ∃ r p now, launching r p now canonical h ∧ id = xr_ExecutionID r ∧ deadline = run_deadline r p now
  | CompleteCall id outcome => ∃ r p now, ran r p now outcome h ∧ id = xr_ExecutionID r
  | SendCall frame => ∃ response, WriteResponse response = Ok frame ∧ response_rests response h
  | _ => True
  end.

(** Every call the program makes is permitted. *)
Definition permitted_call (B : Type) (c : HelperCall B) (h : list HelperEvent) : Prop := call_permitted c h.

Notation disciplined := (obeys (@event_of) (@answers) permitted_call).

(** ** Every connection keeps the discipline *)

Lemma DecodeCanonical_valid (data : string) (p : SudoPlan) :
  DecodeCanonical data = Ok p → plan_validate p = Ok tt.
Proof.
  unfold DecodeCanonical. rewrite seq_ok. intros [_ H]. apply bind_ok_iff in H as ([q ended] & _ & H).
  apply seq_ok in H as [_ H]. by apply seq_ok in H as [H [= <-]].
Qed.

Lemma plan_validate_limits (p : SudoPlan) :
  plan_validate p = Ok tt →
  0 < sp_TimeoutSeconds p <= 3600 ∧ sp_MaxOutputBytes p <= Z.shiftl 1 20 ∧ 0 < sp_RequestedDurationSeconds p <= maxPlanSeconds.
Proof.
  unfold plan_validate. rewrite seq_ok. intros [H _]. unfold validatePlanHeader in H. apply refuse_ok, orb_false_iff in H as [_ H].
  apply negb_false_iff in H. unfold validPlanLimits in H. bool_to_prop. lia.
Qed.

Lemma Runner_Run_disciplined (r : ExecRequest) (p : SudoPlan) (now : Time) (h : list HelperEvent) :
  marked r p now h →
  disciplined (runClaimedExecution s r p now) (λ outcome h', ran r p now outcome h') h.
Proof.
  intros Hm. unfold runClaimedExecution. apply obeys_bind. unfold Runner_Run.
  apply obeys_call; [done|]. intros host _. cbn [event_of].
  destruct (validatedCanonicalPlan host p (hs_brokerUID s)) as [canonical|e] eqn:Ev.
  2: { apply obeys_ret, obeys_ret. by eapply ran_unsafe. }
  unfold validatedCanonicalPlan in Ev. apply seq_ok in Ev as [Hh He].
  apply obeys_call; [done|].
  intros [e|] _; [apply obeys_ret, obeys_ret; by eapply ran_unprepared|]. cbn [event_of unless_error].
  assert (launching r p now canonical (PreparedChild None :: Inspected host :: h)) as Hl by (by exists host, h).
  apply obeys_call; [by exists r, p, now|].
  intros [e|] _; [apply obeys_ret, obeys_ret; by eapply ran_unstarted|]. cbn [event_of unless_error].
  apply obeys_call; [done|]. intros ended Hended. apply obeys_ret. cbn [event_of].
  destruct (childOutcome p ended) as [outcome err] eqn:Eo. apply obeys_ret. eapply ran_child; [done|done|done|].
  unfold childOutcome in *. injection Eo as <- <-. cbn. by rewrite andb_false_r.
Qed.

Ltac no_start :=
  let Hin := fresh in intros ? ? ? ? Hin; repeat (apply elem_of_cons in Hin as [Hin|Hin]; [discriminate Hin|]);
  by apply not_elem_of_nil in Hin.

Lemma checked_no_start (r : ExecRequest) (p : SudoPlan) (now : Time) (h : list HelperEvent) (id canonical : string)
    (deadline : Time) (answer : option error) :
  checked r p now h → StartedChild id canonical deadline answer ∉ h.
Proof. intros [(bytes & host & host' & -> & _) _ _ _ _]. revert id canonical deadline answer. no_start. Qed.

(** A rejection or a replay after harmless events. *)
Lemma rejected_rests (code : string) (h : list HelperEvent) :
  (∀ id canonical deadline answer, StartedChild id canonical deadline answer ∉ h) → response_rests (NewRejected code) h.
Proof. by eapply rests_rejected. Qed.

Lemma replay_rests (bytes : string) (r : ExecRequest) (record : executionRecord) (event : HelperEvent)
    (before : list HelperEvent) :
  ReadRequest bytes = Ok r →
  event = LookedUp (xr_ExecutionID r) (xr_PlanDigest r) (xr_GrantID r) (xr_ReservationID r) (Ok (Some record))
  ∨ event = Claimed (xr_ExecutionID r) (xr_PlanDigest r) (xr_GrantID r) (xr_ReservationID r) (Ok (record, false)) →
  (∀ id canonical deadline answer, StartedChild id canonical deadline answer ∉ event :: before) →
  response_rests (executionReplayResponse (xr_ExecutionID r) record) (event :: before).
Proof.
  intros Hb He Hn. unfold executionReplayResponse.
  destruct (ex_Outcome record) as [outcome|] eqn:Eo; [|by eapply rests_ambiguous].
  destruct (String.eqb_spec (ex_Status record) executionComplete) as [Es|_]; [|by eapply rests_ambiguous].
  by eapply rests_replay.
Qed.

Lemma executeFresh_disciplined (r : ExecRequest) (p : SudoPlan) (now : Time) (h : list HelperEvent) :
  checked r p now h → disciplined (executeFresh s r p now) response_rests h.
Proof.
  intros Hc. pose proof (ck_events _ _ _ _ Hc) as (bytes & _ & _ & _ & Hb & _). unfold executeFresh. apply obeys_call; [by exists r, p, now|]. intros claimed _.
  assert (∀ answer id canonical deadline started, StartedChild id canonical deadline started
            ∉ event_of (ClaimCall (xr_ExecutionID r) (xr_PlanDigest r) (xr_GrantID r) (xr_ReservationID r)) answer :: h) as Hn.
  { intros answer id canonical deadline started Hin. apply elem_of_cons in Hin as [Hin|Hin]; [done|].
    by eapply checked_no_start. }
  destruct claimed as [[record []]|e]; cbn [executionStateResult].
  - cbn [event_of]. fold (claim_event r record).
    assert (holds_claim r p now (claim_event r record :: h)) as Hh by (by exists record, h).
    apply obeys_call; [by exists r, p, now|].
    intros [[]|e] _; [|by eapply obeys_ret, rests_ambiguous]. cbn [event_of].
    apply obeys_bind. eapply obeys_mono; [|apply Runner_Run_disciplined; by eexists].
    intros outcome h' Hr. apply obeys_call; [by exists r, p, now|].
    intros [[]|e] _; [|by eapply obeys_ret, rests_ambiguous]. apply obeys_ret. by eapply rests_own.
  - eapply obeys_ret, replay_rests; [done|by right|]. apply Hn.
  - apply obeys_ret, rejected_rests, Hn.
Qed.

Lemma server_execute_disciplined (r : ExecRequest) (bytes : string) :
  xr_Type r ≠ TypePing → ReadRequest bytes = Ok r →
  disciplined (server_execute plandigest_Digest s r) response_rests
    [Received bytes; SawPeer (Ok (hs_expectedPeerUID s))].
Proof.
  intros Ht Hr. unfold server_execute. apply obeys_call; [done|]. intros now _. cbn [event_of].
  unfold validateRequestEnvelope. destruct (negb (time_after (xr_ExpiresAt r) now)) eqn:Ee; [by apply obeys_ret, rejected_rests; no_start|].
  destruct (negb (String.eqb (plandigest_Digest (xr_Plan r)) (xr_PlanDigest r))) eqn:Ed; [by apply obeys_ret, rejected_rests; no_start|].
  cbn [is_empty negb]. apply negb_false_iff in Ee, Ed. apply String.eqb_eq in Ed. unfold time_after in Ee. apply Z.ltb_lt in Ee.
  destruct (DecodeCanonical (xr_Plan r)) as [p|e] eqn:Ep; [|by apply obeys_ret, rejected_rests; no_start].
  apply obeys_call; [done|]. intros existing _. cbn [event_of].
  destruct existing as [[record|]|e]; cbn [executionStateResult].
  - eapply obeys_ret, replay_rests; [done|by left|]. no_start.
  - apply obeys_bind. unfold validateExecutableRequest.
    destruct (Z.ltb_spec (sp_RequestedDurationSeconds p * second) (time_sub (xr_ExpiresAt r) now)) as [_|Hd];
      [by apply obeys_ret, obeys_ret, rejected_rests; no_start|].
    apply obeys_call; [done|]. intros host Hhost. cbn [event_of].
    destruct (ValidateForHelper (H := host) p _ _) as [[]|e] eqn:Ev; cbn [is_ok negb]; [|by apply obeys_ret, obeys_ret, rejected_rests; no_start].
    apply obeys_call; [done|]. intros host' _. apply obeys_ret. cbn [event_of].
    destruct (hostcheck_ValidateExecution (H := host') p (hs_brokerUID s)) as [[]|e] eqn:Eh; cbn [is_ok is_empty negb];
      [|by apply obeys_ret, rejected_rests; no_start].
    apply executeFresh_disciplined. constructor; try done.
    + by exists bytes, host, host'.
    + unfold ReadRequest in Hr. apply bind_ok_iff in Hr as (r' & _ & Hr). apply seq_ok in Hr as [Hr [= ->]].
      unfold validateRequest in Hr. apply seq_ok in Hr as [_ Hr].
      destruct (String.eqb_spec (xr_Type r) TypePing) as [E|_]; [done|].
      by destruct (String.eqb_spec (xr_Type r) TypeExecute) as [E|_].
    + apply DecodeCanonical_valid, plan_validate_limits in Ep as (_ & _ & Hl). unfold time_sub, maxPlanSeconds, second, max_int64 in *. lia.
  - apply obeys_ret, rejected_rests. no_start.
Qed.

Lemma handler_disciplined : disciplined handler (λ _ _, True) [].
Proof.
  unfold handleConnection. apply obeys_bind.
  eapply (obeys_mono _ response_rests).
  { intros response h Hr. destruct (WriteResponse response) as [frame|] eqn:Ew; [|done].
    apply obeys_last; [by exists response|done]. }
  unfold Server_Handle. apply obeys_call; [done|]. intros [uid|e] _; cbn [event_of];
    [|by apply obeys_ret, rejected_rests; no_start].
  destruct (knownPeer uid (hs_expectedPeerUID s)); cbn [negb]; [|by apply obeys_ret, rejected_rests; no_start].
  apply obeys_call; [done|]. intros bytes _. cbn [event_of].
  destruct (ReadRequest bytes) as [r|e] eqn:Er; [|by apply obeys_ret, rejected_rests; no_start].
  destruct (String.eqb_spec (xr_Type r) TypePing) as [|Ht]; [by apply obeys_ret, rests_ready|].
  unfold peerMayExecute. destruct (Z.eqb_spec uid (hs_expectedPeerUID s)) as [->|_]; cbn [negb]; [|by apply obeys_ret, rejected_rests; no_start].
  by apply server_execute_disciplined.
Qed.
End runs.
