(* ===== verification/SudoInvariant.v ===== *)
(** * What every run of the privileged helper keeps

    The state file as the records it holds, and the invariant of the runs of
    SudoSafety: what each connection has done, and that a record of an execution
    stays in the file from its claim until thirty days after its completion. *)

From S2P Require Export SudoSafety.

Local Open Scope Z_scope.

(** ** The state file, as the records it holds *)

Section file.
Context {JT : JSONTokens} {XJ : ExecutorJSON} {XL : ExecutorLaws JT XJ}.

(** The file was written by [save] with these records, or does not exist yet. *)
Definition stored (disk : option string) (records : list executionRecord) : Prop :=
  forallb execution_valid records = true ∧ NoDup (ex_ID <$> records)
  ∧ match disk with
    | None => records = []
    | Some data => ∃ text, data = text +:+ newline ∧ state_MarshalIndent (MkExecutionFile 1 records) = Ok text
    end.

Lemma load_file (i : StateInstant) (disk : option string) (records : list executionRecord) (f : executionFile) :
  stored disk records → state_load i disk = Ok f → f = MkExecutionFile 1 records.
Proof.
  intros (Hv & _ & Hd). unfold state_load, readExecutionStateFile. destruct (si_read i); [done|].
  destruct disk as [data|]; [|by intros [= <-]; subst]. destruct Hd as (text & -> & Hm).
  destruct (refuse _ _) as [[]|]; [|done]. cbn [mbind result_bind].
  destruct (state_read_back (MkExecutionFile 1 records) text Hv Hm) as [Hr Hd]. unfold decodeExecutionState. rewrite Hr, Hd. cbn.
  destruct (validateExecutionFile _) as [[]|]; [|done]. by intros [= <-].
Qed.

Lemma save_stored (i : StateInstant) (version : Z) (records : list executionRecord) (disk disk' : option string)
    (answer : result error unit) :
  forallb execution_valid records = true → NoDup (ex_ID <$> records) →
  state_save i (MkExecutionFile version records) disk = (answer, disk') →
  (disk' = disk ∧ answer ≠ Ok tt) ∨ stored disk' records.
Proof.
  intros Hv Hn. unfold state_save. cbn [xf_Executions].
  destruct (refuse _ _ ;;; _) as [text|e] eqn:E; [|by intros [= <- <-]; left].
  apply seq_ok in E as [_ E]. apply bind_ok_iff in E as (encoded & He & E). apply seq_ok in E as [_ [= <-]].
  assert (stored (Some (encoded +:+ newline)) records) as Hs by (split; [done|split; [done|by exists encoded]]).
  destruct (si_write i) as [|e|e]; intros [= <- <-]; [by right|by left|by right].
Qed.

Definition new_execution (i : StateInstant) (id digest grantID reservationID : string) : executionRecord :=
  MkExecutionRecord id digest grantID reservationID executionClaimed (si_later i) 0 0 None.

(** What was left after a claim by the reading [now]. *)
Definition pruned_at (now : Time) (records : list executionRecord) : list executionRecord :=
  pruneCompleted records (now - completedRetention).

Lemma elem_of_pruned (now : Time) (records : list executionRecord) (r : executionRecord) :
  r ∈ pruned_at now records ↔ r ∈ records ∧ prunable (now - completedRetention) r = false.
Proof.
  unfold pruned_at, pruneCompleted. rewrite !list_elem_of_In, filter_In, negb_true_iff. done.
Qed.

Lemma pruned_sublist (now : Time) (records : list executionRecord) : pruned_at now records `sublist_of` records.
Proof.
  unfold pruned_at, pruneCompleted. induction records as [|r records IH]; [constructor|]. cbn [List.filter].
  destruct (negb _); by constructor.
Qed.

Lemma find_execution_none (id : string) (records : list executionRecord) :
  find_execution id records = None → id ∉ ex_ID <$> records.
Proof.
  unfold find_execution. intros Hf Hin. apply list_elem_of_fmap in Hin as (r & -> & Hr). apply list_elem_of_In in Hr.
  pose proof (List.find_none _ _ Hf r Hr) as E. cbn in E. by rewrite String.eqb_refl in E.
Qed.

Lemma find_execution_some (id : string) (records : list executionRecord) (r : executionRecord) :
  find_execution id records = Some r → r ∈ records ∧ ex_ID r = id.
Proof.
  unfold find_execution. intros Hf. apply List.find_some in Hf as [Hin E]. by rewrite list_elem_of_In, <- String.eqb_eq.
Qed.

Lemma bound_execution_ok (id digest grantID reservationID : string) (records : list executionRecord)
    (answer : option executionRecord) :
  bound_execution id digest grantID reservationID records = Ok answer →
  match answer with
  | None => id ∉ ex_ID <$> records
  | Some r => r ∈ records ∧ ex_ID r = id ∧ ex_PlanDigest r = digest ∧ ex_GrantID r = grantID
              ∧ ex_ReservationID r = reservationID
  end.
Proof.
  unfold bound_execution. destruct (find_execution id records) as [r|] eqn:Ef.
  - apply find_execution_some in Ef as [Hr Hid]. destruct (sameExecutionBinding _ _ _ _) eqn:Eb; [|done]. intros [= <-].
    unfold sameExecutionBinding in Eb. apply andb_true_iff in Eb as [Eb Eb3]. apply andb_true_iff in Eb as [Eb1 Eb2]. by rewrite String.eqb_eq in Eb1, Eb2, Eb3.
  - intros [= <-]. by apply find_execution_none.
Qed.

Lemma forallb_pruned (now : Time) (records : list executionRecord) :
  forallb execution_valid records = true → forallb execution_valid (pruned_at now records) = true.
Proof. rewrite !forallb_elem_of. intros H r Hr. apply elem_of_pruned in Hr as [Hr _]. by apply H. Qed.

(** A claim: nothing, or the retained records and a new one, which the caller is told of unless the
    write was in doubt. *)
Lemma claim_stored (i : StateInstant) (id digest grantID reservationID : string) (disk disk' : option string)
    (records : list executionRecord) (answer : result error (executionRecord * bool)) :
  stored disk records → forallb valid_utf8 [id; digest; grantID; reservationID] = true →
  state_claim i id digest grantID reservationID disk = (answer, disk') →
  (disk' = disk ∧ (∀ r, answer ≠ Ok (r, true))
   ∧ (∀ r, answer = Ok (r, false) → r ∈ records ∧ ex_ID r = id ∧ ex_PlanDigest r = digest ∧ ex_GrantID r = grantID
                                      ∧ ex_ReservationID r = reservationID))
  ∨ (let r := new_execution i id digest grantID reservationID in
     id ∉ ex_ID <$> pruned_at (si_now i) records
     ∧ stored disk' (pruned_at (si_now i) records ++ [r]) ∧ (answer = Ok (r, true) ∨ ∃ e, answer = Err e)).
Proof.
  intros Hs Hv. unfold state_claim. destruct (state_load i disk) as [f|e] eqn:El; [|by intros [= <- <-]; left].
  apply (load_file i disk records) in El as ->; [|done]. cbn [xf_Executions xf_Version]. fold (pruned_at (si_now i) records).
  destruct (bound_execution _ _ _ _ _) as [[r|]|e] eqn:Eb; [| |by intros [= <- <-]; left].
  { apply bound_execution_ok in Eb as (Hr & Hb). apply elem_of_pruned in Hr as [Hr _].
    intros [= <- <-]. left. split; [done|]. split; [done|]. intros r' [= <-]. done. }
  apply bound_execution_ok in Eb. destruct (_ <=? _); [by intros [= <- <-]; left|].
  destruct (state_save _ _ _) as [saved disk1] eqn:Es. destruct Hs as (Hval & Hn & Hd).
  apply save_stored in Es.
  - destruct Es as [[-> Ha]|Hs].
    + destruct saved as [[]|e]; [done|]. intros [= <- <-]. by left.
    + intros [= <- <-]. right. split; [done|]. split; [done|]. destruct saved as [[]|e]; [by left|right; by exists e].
  - rewrite forallb_app, forallb_pruned by done. cbn [forallb andb] in *. bool_to_prop.
    unfold execution_valid, new_execution. cbn [ex_ID ex_PlanDigest ex_GrantID ex_ReservationID ex_Status ex_Outcome].
    assert (valid_utf8 executionClaimed = true) by (by vm_compute).
    repeat match goal with Hx : valid_utf8 _ = true |- _ => rewrite Hx; clear Hx end. done.
  - rewrite fmap_app. apply NoDup_app. split; [|split; [|apply NoDup_singleton]].
    + by eapply sublist_NoDup, fmap_sublist, pruned_sublist.
    + intros x Hx. cbn. rewrite list_elem_of_singleton. by intros ->.
Qed.

Lemma mutate_execution_ok (id : string) (mutate : executionRecord → result error executionRecord)
    (records records' : list executionRecord) :
  mutate_execution id mutate records = Ok records' →
  ∃ front r r' back, records = front ++ r :: back ∧ ex_ID r = id ∧ mutate r = Ok r' ∧ records' = front ++ r' :: back.
Proof.
  revert records'. induction records as [|r records IH]; intros records'; cbn [mutate_execution]; [done|].
  destruct (String.eqb_spec (ex_ID r) id) as [<-|Hne].
  - rewrite bind_ok_iff. intros (r' & Hr & [= <-]). by exists [], r, r', records.
  - rewrite bind_ok_iff. intros (rest & Hr & [= <-]). apply IH in Hr as (front & r0 & r' & back & -> & Hid & Hm & ->).
    by exists (r :: front), r0, r', back.
Qed.

(** An update: nothing, or one record replaced. *)
Lemma update_stored (i : StateInstant) (id : string) (mutate : executionRecord → result error executionRecord)
    (disk disk' : option string) (records : list executionRecord) (answer : result error unit) :
  (∀ r r', mutate r = Ok r' → ex_ID r' = ex_ID r ∧ (execution_valid r = true → execution_valid r' = true)) →
  stored disk records → state_update i id mutate disk = (answer, disk') →
  (disk' = disk ∧ answer ≠ Ok tt)
  ∨ ∃ front r r' back, records = front ++ r :: back ∧ ex_ID r = id ∧ mutate r = Ok r'
      ∧ stored disk' (front ++ r' :: back).
Proof.
  intros Hm Hs. unfold state_update. destruct (_ ≫= _) as [f|e] eqn:E; [|by intros [= <- <-]; left].
  apply bind_ok_iff in E as (f0 & El & E). apply (load_file i disk records) in El as ->; [|done].
  cbn [xf_Executions xf_Version] in E. apply bind_ok_iff in E as (records' & Eu & [= <-]).
  apply mutate_execution_ok in Eu as (front & r & r' & back & -> & Hid & Hr & ->).
  destruct Hs as (Hval & Hn & _). destruct (Hm _ _ Hr) as [Hid' Hv'].
  intros Es. apply save_stored in Es.
  - destruct Es as [?|Hs']; [by left|right]. by exists front, r, r', back.
  - rewrite forallb_app in *. cbn [forallb] in *. bool_to_prop. by rewrite !andb_true_iff, Hv' by done.
  - rewrite fmap_app in *. cbn in *. by rewrite Hid'.
Qed.

Lemma start_record_ok (now : Time) (r r' : executionRecord) :
  start_record now r = Ok r' →
  ex_Status r = executionClaimed
  ∧ r' = MkExecutionRecord (ex_ID r) (ex_PlanDigest r) (ex_GrantID r) (ex_ReservationID r) executionStarted
           (ex_ClaimedAt r) now (ex_CompletedAt r) (ex_Outcome r).
Proof.
  unfold start_record. rewrite seq_ok, refuse_ok, negb_false_iff, String.eqb_eq. by intros [-> [= <-]].
Qed.

Lemma complete_record_ok (now : Time) (outcome : ExecOutcome) (r r' : executionRecord) :
  complete_record now outcome r = Ok r' →
  ex_Status r = executionStarted
  ∧ r' = MkExecutionRecord (ex_ID r) (ex_PlanDigest r) (ex_GrantID r) (ex_ReservationID r) executionComplete
           (ex_ClaimedAt r) (ex_StartedAt r) now (Some outcome).
Proof.
  unfold complete_record. rewrite seq_ok, refuse_ok, negb_false_iff, String.eqb_eq. by intros [-> [= <-]].
Qed.
End file.

(** ** Events of the log *)

Section log.
Context {R : MapRange} {JT : JSONTokens} {CJ : CatalogJSON} {PJ : PlanJSON} {XJ : ExecutorJSON}.
Context (plandigest_Digest : string → string) (s : HelperServer).

Notation step := (helper_step plandigest_Digest s).
Notation disciplined := (obeys (@event_of) (@answers) (permitted_call plandigest_Digest s)).
Notation marked := (marked plandigest_Digest s).
Notation launching := (launching plandigest_Digest s).
Notation ran := (ran plandigest_Digest s).

Lemma events_of_cons (t u : nat) (event : HelperEvent) (readings : list Time) (log : list HelperEntry) :
  events_of t (Entry u event readings :: log)
  = if (u =? t)%nat then event :: events_of t log else events_of t log.
Proof. unfold events_of. cbn. by destruct (u =? t)%nat. Qed.

Lemma events_of_same (t : nat) (event : HelperEvent) (readings : list Time) (log : list HelperEntry) :
  events_of t (Entry t event readings :: log) = event :: events_of t log.
Proof. by rewrite events_of_cons, Nat.eqb_refl. Qed.

Lemma events_of_other (t u : nat) (event : HelperEvent) (readings : list Time) (log : list HelperEntry) :
  u ≠ t → events_of t (Entry u event readings :: log) = events_of t log.
Proof. intros H. by rewrite events_of_cons, (proj2 (Nat.eqb_neq u t)). Qed.

Lemma events_of_app (t : nat) (newer older : list HelperEntry) :
  events_of t (newer ++ older) = events_of t newer ++ events_of t older.
Proof. apply omap_app. Qed.

Lemma elem_of_events (t : nat) (event : HelperEvent) (log : list HelperEntry) :
  event ∈ events_of t log ↔ ∃ readings, Entry t event readings ∈ log.
Proof.
  unfold events_of. rewrite list_elem_of_omap. split.
  - intros ([u event' readings|] & Hin & H); [|done]. destruct (Nat.eqb_spec u t) as [->|]; [|done].
    injection H as ->. by exists readings.
  - intros [readings Hin]. exists (Entry t event readings). by rewrite Nat.eqb_refl.
Qed.

(** Events are those of calls that were permitted. *)
Definition permitted_event (event : HelperEvent) (h : list HelperEvent) : Prop :=
  ∃ B (c : HelperCall B) (b : B), event = event_of c b ∧ answers c b ∧ call_permitted plandigest_Digest s c h.

Fixpoint lawful (log : list HelperEntry) : Prop :=
  match log with
  | [] => True
  | HelperDied :: log => lawful log
  | Entry t event _ :: log => permitted_event event (events_of t log) ∧ lawful log
  end.

Lemma lawful_split (newer older : list HelperEntry) (t : nat) (event : HelperEvent) (readings : list Time) :
  lawful (newer ++ Entry t event readings :: older) → permitted_event event (events_of t older).
Proof. induction newer as [|[u event' readings'|] newer IH]; cbn; [by intros [H _]|intros [_ H]; by apply IH|done]. Qed.

(** ** Connections *)

Record connected (σ : HelperState) : Prop := {
  cn_lawful : lawful (h_log σ);
  cn_fresh (t : nat) : (h_next σ <= t)%nat → events_of t (h_log σ) = [];
  cn_ids : NoDup (h_connections σ).*1;
  cn_below (t : nat) : t ∈ (h_connections σ).*1 → (t < h_next σ)%nat;
  cn_disciplined (t : nat) (p : Program HelperCall unit) :
    (t, p) ∈ h_connections σ → disciplined p (λ _ _, True) (events_of t (h_log σ))
}.

Lemma connected_step (σ σ' : HelperState) : connected σ → step σ σ' → connected σ'.
Proof.
  intros [Hl Hf Hi Hb Hd] Hstep. destruct Hstep as
    [disk connections next log _|B c k b t next disk disk' front back log readings Hp|x t next disk front back log
    |disk connections next log]; cbn [h_log h_next h_connections] in *.
  - constructor; cbn [h_log h_next h_connections fmap list_fmap fst] in *; [done| | | |].
    + intros t Ht. apply Hf. lia.
    + constructor; [|done]. intros Hin. apply Hb in Hin. lia.
    + intros t [->|Hin]%elem_of_cons; [lia|]. apply Hb in Hin. lia.
    + intros t p [[= -> ->]|Hin]%elem_of_cons; [|by apply Hd].
      rewrite Hf by lia. apply handler_disciplined.
  - assert ((t, Ask c k) ∈ front ++ (t, Ask c k) :: back) as Hin by (apply elem_of_app; right; by left).
    pose proof (Hd _ _ Hin) as [Hc Hk]. destruct Hp as [Ha Hp].
    assert (t < next)%nat as Ht by (apply Hb, list_elem_of_fmap; by exists (t, Ask c k)).
    rewrite fmap_app in Hi, Hb. cbn [fmap list_fmap fst] in Hi, Hb.
    constructor; cbn [h_log h_next h_connections]; rewrite ?fmap_app; cbn [fmap list_fmap fst]; [|  |done|done|].
    + split; [by exists B, c, b|done].
    + intros u Hu. rewrite events_of_other by lia. by apply Hf.
    + intros u p Hu. destruct (decide (u = t)) as [->|Hne].
      * assert (p = k b) as ->.
        { apply elem_of_app in Hu as [Hu|[[= ->]|Hu]%elem_of_cons]; [|done|];
            apply NoDup_app in Hi as (_ & H1 & H2%NoDup_cons); destruct H2 as [H2 _]; exfalso.
          - apply (H1 t); [apply list_elem_of_fmap; by exists (t, p)|by left].
          - apply H2, list_elem_of_fmap. by exists (t, p). }
        rewrite events_of_same. by apply Hk.
      * rewrite events_of_other by done. apply Hd. rewrite elem_of_app, elem_of_cons in Hu |- *.
        destruct Hu as [Hu|[[= -> _]|Hu]]; [by left|done|by right; right].
  - rewrite fmap_app in Hi, Hb. cbn [fmap list_fmap fst] in Hi, Hb.
    constructor; cbn [h_log h_next h_connections]; rewrite ?fmap_app; [done|done| | |].
    + apply NoDup_app in Hi as (H1 & H2 & H3%NoDup_cons). apply NoDup_app. split; [done|]. split; [|by destruct H3].
      intros u Hu Hin. apply (H2 u Hu). by right.
    + intros u Hu. apply Hb. apply elem_of_app in Hu as [Hu|Hu]; apply elem_of_app; [by left|by right; right].
    + intros u p Hu. apply Hd. apply elem_of_app in Hu as [Hu|Hu]; apply elem_of_app; [by left|by right; right].
  - constructor; cbn [h_log h_next h_connections]; [done|done|constructor|by intros t Ht%not_elem_of_nil|].
    by intros t p Ht%not_elem_of_nil.
Qed.

Lemma connected_reachable (σ : HelperState) : rtc step fresh_helper σ → connected σ.
Proof.
  apply (rtc_ind_r (λ σ, connected σ)).
  - constructor; cbn; [done|done|constructor|by intros t Ht%not_elem_of_nil|by intros t p Ht%not_elem_of_nil].
  - intros σ1 σ2 _ Hs IH. by eapply connected_step.
Qed.

(** ** What a connection has done *)

Lemma permitted_claim (id digest grantID reservationID : string) (answer : result error (executionRecord * bool))
    (h : list HelperEvent) :
  permitted_event (Claimed id digest grantID reservationID answer) h →
  ∃ r p now, checked plandigest_Digest s r p now h ∧ id = xr_ExecutionID r ∧ digest = xr_PlanDigest r
    ∧ grantID = xr_GrantID r ∧ reservationID = xr_ReservationID r.
Proof. intros (B & c & b & E & _ & Hc). destruct c; try discriminate E. by injection E as <- <- <- <- _. Qed.

Lemma permitted_mark (id : string) (answer : result error unit) (h : list HelperEvent) :
  permitted_event (MarkedStarted id answer) h →
  ∃ r p now, holds_claim plandigest_Digest s r p now h ∧ id = xr_ExecutionID r.
Proof. intros (B & c & b & E & _ & Hc). destruct c; try discriminate E. by injection E as <- _. Qed.

Lemma permitted_start (id canonical : string) (deadline : Time) (answer : option error) (h : list HelperEvent) :
  permitted_event (StartedChild id canonical deadline answer) h →
  ∃ r p now, launching r p now canonical h ∧ id = xr_ExecutionID r ∧ deadline = run_deadline r p now.
Proof. intros (B & c & b & E & _ & Hc). destruct c; try discriminate E. by injection E as <- <- <- _. Qed.

Lemma permitted_complete (id : string) (outcome : ExecOutcome) (answer : result error unit) (h : list HelperEvent) :
  permitted_event (Completed id outcome answer) h →
  ∃ r p now, ran r p now outcome h ∧ id = xr_ExecutionID r.
Proof. intros (B & c & b & E & _ & Hc). destruct c; try discriminate E. by injection E as <- <- _. Qed.

Lemma permitted_send (frame : string) (h : list HelperEvent) :
  permitted_event (SentFrame frame) h →
  ∃ response, WriteResponse response = Ok frame ∧ response_rests plandigest_Digest s response h.
Proof. intros (B & c & b & E & _ & Hc). destruct c; try discriminate E. by injection E as <-. Qed.

(** Before its claim a connection has only looked, after it it has not completed. *)
Definition looking (event : HelperEvent) : Prop :=
  match event with
  | SawPeer _ | Received _ | ReadClock _ | Inspected _ | LookedUp _ _ _ _ _ => True
  | _ => False
  end.

Definition working (event : HelperEvent) : Prop :=
  match event with
  | MarkedStarted _ _ | Inspected _ | PreparedChild _ | StartedChild _ _ _ _ | ChildEnded _ => True
  | _ => False
  end.

Definition claiming (r : ExecRequest) (p : SudoPlan) (now : Time) (h : list HelperEvent) : Prop :=
  ∃ after record before, h = after ++ claim_event r record :: before ∧ Forall working after
    ∧ checked plandigest_Digest s r p now before.

Lemma checked_looking (r : ExecRequest) (p : SudoPlan) (now : Time) (h : list HelperEvent) :
  checked plandigest_Digest s r p now h → Forall looking h.
Proof. intros [(bytes & host & host' & -> & _) _ _ _ _]. by repeat constructor. Qed.

Lemma claiming_cons (r : ExecRequest) (p : SudoPlan) (now : Time) (event : HelperEvent) (h : list HelperEvent) :
  working event → claiming r p now h → claiming r p now (event :: h).
Proof.
  intros He (after & record & before & -> & Ha & Hc). exists (event :: after), record, before.
  split; [done|]. by split; [constructor|].
Qed.

Lemma holds_claim_claiming (r : ExecRequest) (p : SudoPlan) (now : Time) (h : list HelperEvent) :
  holds_claim plandigest_Digest s r p now h → claiming r p now h.
Proof. intros (record & before & -> & Hc). by exists [], record, before. Qed.

Lemma marked_claiming (r : ExecRequest) (p : SudoPlan) (now : Time) (h : list HelperEvent) :
  marked r p now h → claiming r p now h.
Proof. intros (before & -> & Hc). by apply claiming_cons, holds_claim_claiming. Qed.

Lemma launching_claiming (r : ExecRequest) (p : SudoPlan) (now : Time) (canonical : string) (h : list HelperEvent) :
  launching r p now canonical h → claiming r p now h.
Proof. intros (host & before & -> & Hm & _). by apply claiming_cons, claiming_cons, marked_claiming. Qed.

Lemma ran_claiming (r : ExecRequest) (p : SudoPlan) (now : Time) (outcome : ExecOutcome) (h : list HelperEvent) :
  ran r p now outcome h → claiming r p now h.
Proof.
  intros [host before -> Hm _|e host before -> Hm _|e canonical before -> Hl _|ended canonical before -> Hl _ _].
  - by apply claiming_cons, marked_claiming.
  - by apply claiming_cons, claiming_cons, marked_claiming.
  - by eapply claiming_cons, launching_claiming.
  - by eapply claiming_cons, claiming_cons, launching_claiming.
Qed.

Lemma claiming_claim (r : ExecRequest) (p : SudoPlan) (now : Time) (h : list HelperEvent) :
  claiming r p now h → ∃ record, claim_event r record ∈ h.
Proof. intros (after & record & before & -> & _). exists record. apply elem_of_app. right. by left. Qed.

Lemma claiming_only (r : ExecRequest) (p : SudoPlan) (now : Time) (h : list HelperEvent) (id digest grantID reservationID : string)
    (record : executionRecord) :
  claiming r p now h → Claimed id digest grantID reservationID (Ok (record, true)) ∈ h →
  id = xr_ExecutionID r ∧ digest = xr_PlanDigest r ∧ grantID = xr_GrantID r ∧ reservationID = xr_ReservationID r.
Proof.
  intros (after & record' & before & -> & Ha & Hc) [Hin|[E|Hin]%elem_of_cons]%elem_of_app.
  - rewrite Forall_forall in Ha. by apply Ha in Hin.
  - by injection E as <- <- <- <- _.
  - apply checked_looking in Hc. rewrite Forall_forall in Hc. by apply Hc in Hin.
Qed.

Lemma claiming_open (r : ExecRequest) (p : SudoPlan) (now : Time) (h : list HelperEvent) (id : string)
    (outcome : ExecOutcome) (answer : result error unit) :
  claiming r p now h → Completed id outcome answer ∉ h.
Proof.
  intros (after & record' & before & -> & Ha & Hc) [Hin|[E|Hin]%elem_of_cons]%elem_of_app; [|done|].
  - rewrite Forall_forall in Ha. by apply Ha in Hin.
  - apply checked_looking in Hc. rewrite Forall_forall in Hc. by apply Hc in Hin.
Qed.

(** A child has not been started before. *)
Lemma marked_no_start (r : ExecRequest) (p : SudoPlan) (now : Time) (h : list HelperEvent) (id canonical : string)
    (deadline : Time) (answer : option error) :
  marked r p now h → StartedChild id canonical deadline answer ∉ h.
Proof.
  intros (before & -> & record & before' & -> & Hc) [E|[E|Hin]%elem_of_cons]%elem_of_cons; [done|done|].
  apply checked_looking in Hc. rewrite Forall_forall in Hc. by apply Hc in Hin.
Qed.

Lemma launching_no_start (r : ExecRequest) (p : SudoPlan) (now : Time) (text : string) (h : list HelperEvent)
    (id canonical : string) (deadline : Time) (answer : option error) :
  launching r p now text h → StartedChild id canonical deadline answer ∉ h.
Proof.
  intros (host & before & -> & Hm & _) [E|[E|Hin]%elem_of_cons]%elem_of_cons; [done|done|].
  by eapply marked_no_start.
Qed.

(** When the run has not started a child, none was started. *)
Lemma ran_no_start (r : ExecRequest) (p : SudoPlan) (now : Time) (outcome : ExecOutcome) (h : list HelperEvent)
    (id canonical : string) (deadline : Time) :
  ran r p now outcome h → xo_Started outcome = false → StartedChild id canonical deadline None ∉ h.
Proof.
  intros [host before -> Hm _|e host before -> Hm _|e text before -> Hl _|ended text before -> Hl _ ->] Hs Hin.
  - apply elem_of_cons in Hin as [E|Hin]; [done|]. by eapply marked_no_start.
  - apply elem_of_cons in Hin as [E|[E|Hin]%elem_of_cons]; [done|done|]. by eapply marked_no_start.
  - apply elem_of_cons in Hin as [E|Hin]; [done|]. by eapply launching_no_start.
  - done.
Qed.

(** The request was decoded, so what it names is UTF-8. *)
Lemma request_read_valid {XL : ExecutorLaws JT XJ} (bytes : string) (r : ExecRequest) : ReadRequest bytes = Ok r → request_valid r = true.
Proof.
  intros Hr. unfold ReadRequest, readFrame in Hr.
  apply bind_ok_iff in Hr as (r' & Hr & H'). apply seq_ok in H' as [_ [= ->]].
  apply bind_ok_iff in Hr as ([size rest] & _ & Hr). apply bind_ok_iff in Hr as (data & _ & Hr).
  unfold decodeFrameData in Hr. apply seq_ok in Hr as [_ Hr]. apply bind_ok_iff in Hr as ([r'' ended] & Hr & H').
  apply seq_ok in H' as [_ [= ->]]. by eapply request_decoded.
Qed.

Lemma checked_valid {XL : ExecutorLaws JT XJ} (r : ExecRequest) (p : SudoPlan) (now : Time) (h : list HelperEvent) :
  checked plandigest_Digest s r p now h → request_valid r = true.
Proof. intros [(bytes & host & host' & _ & Hr & _) _ _ _ _]. by eapply request_read_valid. Qed.

Lemma ran_valid (r : ExecRequest) (p : SudoPlan) (now : Time) (outcome : ExecOutcome) (h : list HelperEvent) :
  ran r p now outcome h → outcome_valid outcome = true.
Proof.
  intros [host before -> _ ->|e host before -> _ ->|e text before -> _ ->|ended text before -> _ Hs ->]; [done..|].
  unfold outcome_valid, childOutcome. cbn [fst xo_Signal]. by destruct (ch_exit_error ended).
Qed.

(** ** Tenure of an execution *)

(** The connection was told that it has claimed the execution. *)
Definition claimed_by (t : nat) (id digest grantID reservationID : string) (log : list HelperEntry) : Prop :=
  ∃ record, Claimed id digest grantID reservationID (Ok (record, true)) ∈ events_of t log.

(** A completion by the connection, and a claim, with the reading they took. *)
Definition completes (t : nat) (id : string) (completed : Time) (entry : HelperEntry) : Prop :=
  ∃ outcome answer, entry = Entry t (Completed id outcome answer) [completed].

Definition claims (now : Time) (entry : HelperEntry) : Prop :=
  ∃ t id digest grantID reservationID answer later,
    entry = Entry t (Claimed id digest grantID reservationID answer) [later; now].

(** The record has been completed and, more than thirty days later by the clock, dropped by a claim. *)
Definition past (t : nat) (id : string) (log : list HelperEntry) : Prop :=
  ∃ claim completion completed now, [claim; completion] `sublist_of` log ∧ completes t id completed completion
    ∧ claims now claim ∧ completed < now - completedRetention.

(** The record of an execution the connection has claimed. *)
Record holds (t : nat) (id digest grantID reservationID : string) (log : list HelperEntry) (r : executionRecord) : Prop := {
  hd_id : ex_ID r = id;
  hd_digest : ex_PlanDigest r = digest;
  hd_grant : ex_GrantID r = grantID;
  hd_reservation : ex_ReservationID r = reservationID;
  hd_complete : ex_Status r = executionComplete → ∃ entry, entry ∈ log ∧ completes t id (ex_CompletedAt r) entry;
  hd_started : MarkedStarted id (Ok tt) ∈ events_of t log →
    (∀ outcome answer, Completed id outcome answer ∉ events_of t log) → ex_Status r = executionStarted
}.

(** The outcome of a complete record is what the connection that claimed it has completed it with. *)
Definition recorded (log : list HelperEntry) (r : executionRecord) : Prop :=
  ex_Status r = executionComplete →
  ∃ t outcome answer, ex_Outcome r = Some outcome
    ∧ claimed_by t (ex_ID r) (ex_PlanDigest r) (ex_GrantID r) (ex_ReservationID r) log
    ∧ Entry t (Completed (ex_ID r) outcome answer) [ex_CompletedAt r] ∈ log.

Record kept (log : list HelperEntry) (records : list executionRecord) : Prop := {
  kp_tenure (t : nat) (id digest grantID reservationID : string) :
    claimed_by t id digest grantID reservationID log →
    past t id log
    ∨ ((∃ r, r ∈ records ∧ holds t id digest grantID reservationID log r)
       ∧ ∀ u digest' grantID' reservationID', claimed_by u id digest' grantID' reservationID' log → u = t ∨ past u id log);
  kp_recorded (r : executionRecord) : r ∈ records → recorded log r
}.

Lemma claimed_by_cons (t u : nat) (id digest grantID reservationID : string) (event : HelperEvent) (readings : list Time)
    (log : list HelperEntry) :
  claimed_by t id digest grantID reservationID (Entry u event readings :: log)
  ↔ claimed_by t id digest grantID reservationID log
    ∨ u = t ∧ ∃ record, event = Claimed id digest grantID reservationID (Ok (record, true)).
Proof.
  unfold claimed_by. rewrite events_of_cons. destruct (Nat.eqb_spec u t) as [->|Hne].
  - setoid_rewrite elem_of_cons. split.
    + intros (record & [<-|Hin]); [right; split; [done|by exists record]|left; by exists record].
    + intros [(record & Hin)|(_ & record & ->)]; exists record; [by right|by left].
  - split; [by left|]. by intros [?|[? _]].
Qed.

Lemma claimed_by_died (t : nat) (id digest grantID reservationID : string) (log : list HelperEntry) :
  claimed_by t id digest grantID reservationID (HelperDied :: log) ↔ claimed_by t id digest grantID reservationID log.
Proof. done. Qed.

Lemma past_cons (t : nat) (id : string) (entry : HelperEntry) (log : list HelperEntry) :
  past t id log → past t id (entry :: log).
Proof.
  intros (claim & completion & completed & now & Hs & H). exists claim, completion, completed, now.
  split; [by apply sublist_cons|done].
Qed.

Lemma past_completed (t : nat) (id : string) (log : list HelperEntry) :
  past t id log → ∃ outcome answer, Completed id outcome answer ∈ events_of t log.
Proof.
  intros (claim & completion & completed & now & Hs & (outcome & answer & ->) & _). exists outcome, answer.
  apply elem_of_events. exists [completed]. eapply elem_of_submseteq; [|by apply sublist_submseteq].
  right. by left.
Qed.

Lemma completes_cons (t : nat) (id : string) (completed : Time) (entry : HelperEntry) (log : list HelperEntry) :
  (∃ e, e ∈ log ∧ completes t id completed e) → ∃ e, e ∈ entry :: log ∧ completes t id completed e.
Proof. intros (e & He & H). exists e. by split; [right|]. Qed.

(** An event that neither claims nor starts anything changes nothing for a record it leaves. *)
Lemma holds_cons (t : nat) (id digest grantID reservationID : string) (entry : HelperEntry) (log : list HelperEntry)
    (r : executionRecord) :
  (∀ u readings, entry = Entry u (MarkedStarted id (Ok tt)) readings → u ≠ t) →
  holds t id digest grantID reservationID log r → holds t id digest grantID reservationID (entry :: log) r.
Proof.
  intros He [H1 H2 H3 H4 Hc Hs]. constructor; [done..| |].
  - intros Hr. by apply completes_cons, Hc.
  - destruct entry as [u event readings|]; [|done]. rewrite events_of_cons. destruct (Nat.eqb_spec u t) as [->|Hne]; [|done].
    intros [<-|Hin]%elem_of_cons Ho; [by destruct (He t readings eq_refl)|]. apply Hs; [done|].
    intros outcome answer Hx. apply (Ho outcome answer). by right.
Qed.

Lemma recorded_cons (entry : HelperEntry) (log : list HelperEntry) (r : executionRecord) :
  recorded log r → recorded (entry :: log) r.
Proof.
  intros H Hr. destruct (H Hr) as (t & outcome & answer & Ho & Hc & Hin). exists t, outcome, answer.
  split; [done|]. split; [|by right]. destruct entry as [u event readings|]; [|done]. apply claimed_by_cons. by left.
Qed.

Lemma kept_quiet (entry : HelperEntry) (log : list HelperEntry) (records : list executionRecord) :
  (∀ t id readings, entry ≠ Entry t (MarkedStarted id (Ok tt)) readings) →
  (∀ t id digest grantID reservationID r readings,
     entry ≠ Entry t (Claimed id digest grantID reservationID (Ok (r, true))) readings) →
  kept log records → kept (entry :: log) records.
Proof.
  intros Hm Hc [Ht Hr].
  assert (∀ u i d g v, claimed_by u i d g v (entry :: log) → claimed_by u i d g v log) as Hback.
  { intros u i d g v H. destruct entry as [w event readings|]; [|done].
    apply claimed_by_cons in H as [H|[-> [r ->]]]; [done|]. by destruct (Hc u i d g v r readings). }
  constructor; [|intros r Hin; by apply recorded_cons, Hr].
  intros t id digest grantID reservationID Hcl%Hback. destruct (Ht _ _ _ _ _ Hcl) as [Hp|[(r & Hin & Hh) Ho]].
  - left. by apply past_cons.
  - right. split; [|intros u d g v Hu%Hback; destruct (Ho _ _ _ _ Hu); [by left|right; by apply past_cons]].
    exists r. split; [done|]. apply holds_cons; [|done]. intros u readings ->. by destruct (Hm u id readings).
Qed.

Lemma elem_of_two (a b : HelperEntry) (log : list HelperEntry) : b ∈ log → [a; b] `sublist_of` a :: log.
Proof. intros H. by apply sublist_skip, singleton_sublist_l. Qed.

(** A claim that found no record, and wrote one. *)
Lemma kept_claim (t : nat) (i : StateInstant) (id digest grantID reservationID : string)
    (answer : result error (executionRecord * bool)) (log : list HelperEntry) (records : list executionRecord) :
  kept log records →
  Forall looking (events_of t log) →
  id ∉ ex_ID <$> pruned_at (si_now i) records →
  answer = Ok (new_execution i id digest grantID reservationID, true) ∨ (∃ e, answer = Err e) →
  kept (Entry t (Claimed id digest grantID reservationID answer) [si_later i; si_now i] :: log)
    (pruned_at (si_now i) records ++ [new_execution i id digest grantID reservationID]).
Proof.
  intros [Ht Hr] Hno Hid Ha. set (entry := Entry t _ _).
  (* a claim from before is past, or its record is retained *)
  assert (∀ u j d g v, claimed_by u j d g v log →
    past u j (entry :: log)
    ∨ j ≠ id ∧ (∃ r, r ∈ pruned_at (si_now i) records ∧ holds u j d g v (entry :: log) r)
      ∧ ∀ w d' g' v', claimed_by w j d' g' v' log → w = u ∨ past w j (entry :: log)) as Hold.
  { intros u j d g v Hu. destruct (Ht _ _ _ _ _ Hu) as [Hp|[(r & Hin & Hh) Ho]]; [left; by apply past_cons|].
    destruct (prunable (si_now i - completedRetention) r) eqn:Ep.
    - left. apply andb_true_iff in Ep as [Es%String.eqb_eq Eb%Z.ltb_lt].
      destruct (hd_complete _ _ _ _ _ _ _ Hh Es) as (completion & Hcin & Hc).
      exists entry, completion, (ex_CompletedAt r), (si_now i). split; [by apply elem_of_two|]. split; [done|].
      split; [|done]. by exists t, id, digest, grantID, reservationID, answer, (si_later i).
    - right. assert (r ∈ pruned_at (si_now i) records) as Hpr by (by apply elem_of_pruned).
      split; [|split].
      + intros ->. apply Hid, list_elem_of_fmap. exists r. split; [by rewrite (hd_id _ _ _ _ _ _ _ Hh)|done].
      + exists r. split; [done|]. by apply holds_cons.
      + intros w d' g' v' Hw. destruct (Ho _ _ _ _ Hw); [by left|right; by apply past_cons]. }
  constructor.
  - intros u j d g v [Hu|[<- [record E]]]%claimed_by_cons.
    + destruct (Hold _ _ _ _ _ Hu) as [Hp|(Hne & (r & Hin & Hh) & Ho)]; [by left|right]. split.
      * exists r. split; [|done]. apply elem_of_app. by left.
      * intros w d' g' v' [Hw|[-> [record E]]]%claimed_by_cons; [by eapply Ho|]. by injection E as <- _.
    + injection E as <- <- <- <- E. right. split.
      * exists (new_execution i id digest grantID reservationID). split; [apply elem_of_app; right; by left|].
        constructor; [done..|]. unfold entry. rewrite events_of_same. intros [Hin|Hin]%elem_of_cons; [done|].
        rewrite Forall_forall in Hno. by apply Hno in Hin.
      * intros w d' g' v' [Hw|[-> _]]%claimed_by_cons; [|by left]. right.
        destruct (Hold _ _ _ _ _ Hw) as [Hp|(Hne & _)]; [done|done].
  - intros r [Hin|[->|[]%not_elem_of_nil]%elem_of_cons]%elem_of_app; [|done].
    apply elem_of_pruned in Hin as [Hin _]. by apply recorded_cons, Hr.
Qed.

Lemma NoDup_ID (records : list executionRecord) (a b : executionRecord) :
  NoDup (ex_ID <$> records) → a ∈ records → b ∈ records → ex_ID a = ex_ID b → a = b.
Proof.
  intros Hn (k & Ha)%list_elem_of_lookup (l & Hb)%list_elem_of_lookup E.
  assert (k = l) as ->; [|congruence].
  eapply NoDup_lookup; [exact Hn|by rewrite list_lookup_fmap, Ha|by rewrite list_lookup_fmap, Hb; cbn; rewrite E].
Qed.

(** An open connection replaces its own record. *)
Lemma kept_replaced (t : nat) (id : string) (event : HelperEvent) (readings : list Time) (log : list HelperEntry)
    (front back : list executionRecord) (r r' : executionRecord) :
  kept log (front ++ r :: back) → NoDup (ex_ID <$> front ++ r :: back) → ex_ID r = id →
  (∃ d g v, claimed_by t id d g v log) → (∀ o a, Completed id o a ∉ events_of t log) →
  (∀ j d g v c, event ≠ Claimed j d g v (Ok (c, true))) → (∀ j, event = MarkedStarted j (Ok tt) → j = id) →
  (∀ d g v, holds t id d g v log r → holds t id d g v (Entry t event readings :: log) r') →
  (∀ d g v, claimed_by t id d g v log → holds t id d g v log r → recorded (Entry t event readings :: log) r') →
  kept (Entry t event readings :: log) (front ++ r' :: back).
Proof.
  intros [Ht Hr] Hn Hid (d0 & g0 & v0 & Hc0) Hopen Hnc Hnm Hh' Hr'.
  assert (∀ u j d g v, claimed_by u j d g v (Entry t event readings :: log) → claimed_by u j d g v log) as Hback.
  { intros u j d g v [H|[<- [c ->]]]%claimed_by_cons; [done|]. by destruct (Hnc j d g v c). }
  assert (r ∈ front ++ r :: back) as Hin by (apply elem_of_app; right; by left).
  assert (∀ d g v, claimed_by t id d g v log → holds t id d g v log r ∧
     ∀ u d' g' v', claimed_by u id d' g' v' log → u = t ∨ past u id log) as Hown.
  { intros d g v Hc. destruct (Ht _ _ _ _ _ Hc) as [Hp|[(q & Hq & Hh) Ho]].
    - apply past_completed in Hp as (o & a & Hp). by destruct (Hopen o a).
    - split; [|done]. assert (q = r) as <-; [|done]. eapply NoDup_ID; [exact Hn|done|done|].
      by rewrite (hd_id _ _ _ _ _ _ _ Hh). }
  destruct (Hown _ _ _ Hc0) as [Hh0 Ho0]. constructor.
  - intros u j d g v Hu%Hback. destruct (decide (j = id)) as [->|Hne].
    + destruct (Ho0 _ _ _ _ Hu) as [->|Hp]; [|left; by apply past_cons]. right. split.
      * exists r'. split; [apply elem_of_app; right; by left|]. by apply Hh', Hown.
      * intros w d' g' v' Hw%Hback. destruct (Ho0 _ _ _ _ Hw); [by left|right; by apply past_cons].
    + destruct (Ht _ _ _ _ _ Hu) as [Hp|[(q & Hq & Hh) Ho]]; [left; by apply past_cons|]. right. split.
      * exists q. split.
        -- apply elem_of_app in Hq as [Hq|[->|Hq]%elem_of_cons]; apply elem_of_app; [by left| |by right; right].
           destruct Hne. by rewrite <- (hd_id _ _ _ _ _ _ _ Hh).
        -- apply holds_cons; [|done]. intros w rd [= <- -> _]. by destruct Hne; apply Hnm.
      * intros w d' g' v' Hw%Hback. destruct (Ho _ _ _ _ Hw); [by left|right; by apply past_cons].
  - intros q [Hq|[->|Hq]%elem_of_cons]%elem_of_app.
    + apply recorded_cons, Hr, elem_of_app. by left.
    + by eapply Hr'.
    + apply recorded_cons, Hr, elem_of_app. by right; right.
Qed.

Context {XL : ExecutorLaws JT XJ}.

Lemma start_valid (now : Time) (r r' : executionRecord) :
  start_record now r = Ok r' → ex_ID r' = ex_ID r ∧ (execution_valid r = true → execution_valid r' = true).
Proof.
  intros [_ ->]%start_record_ok. split; [done|]. unfold execution_valid.
  cbn [ex_ID ex_PlanDigest ex_GrantID ex_ReservationID ex_Status ex_Outcome].
  assert (valid_utf8 executionStarted = true) as -> by (by vm_compute). intros H. bool_to_prop. by rewrite !andb_true_iff.
Qed.

Lemma complete_valid (now : Time) (outcome : ExecOutcome) (r r' : executionRecord) :
  outcome_valid outcome = true →
  complete_record now outcome r = Ok r' → ex_ID r' = ex_ID r ∧ (execution_valid r = true → execution_valid r' = true).
Proof.
  intros Ho [_ ->]%complete_record_ok. split; [done|]. unfold execution_valid.
  cbn [ex_ID ex_PlanDigest ex_GrantID ex_ReservationID ex_Status ex_Outcome].
  assert (valid_utf8 executionComplete = true) as -> by (by vm_compute). intros H. bool_to_prop. by rewrite !andb_true_iff.
Qed.

Lemma claiming_claimed_by (r : ExecRequest) (p : SudoPlan) (now : Time) (t : nat) (log : list HelperEntry) :
  claiming r p now (events_of t log) →
  claimed_by t (xr_ExecutionID r) (xr_PlanDigest r) (xr_GrantID r) (xr_ReservationID r) log.
Proof. intros [record H]%claiming_claim. by exists record. Qed.

(** The start of an execution. *)
Lemma kept_start (i : StateInstant) (t : nat) (id : string) (answer : result error unit) (disk disk' : option string)
    (log : list HelperEntry) (records : list executionRecord) :
  permitted_event (MarkedStarted id answer) (events_of t log) → stored disk records → kept log records →
  markStarted i id disk = (answer, disk') →
  ∃ records', stored disk' records' ∧ kept (Entry t (MarkedStarted id answer) [si_now i] :: log) records'.
Proof.
  intros (r & p & now & Hc & ->)%permitted_mark Hs Hk Hm. apply holds_claim_claiming in Hc.
  apply update_stored with (records := records) in Hm; [|apply start_valid|done].
  destruct Hm as [[-> Ha]|(front & q & q' & back & -> & Hid & Hq & Hs')].
  { exists records. split; [done|]. apply kept_quiet; [|done|done]. intros u j rd [= _ _ ->]. done. }
  exists (front ++ q' :: back). split; [done|]. destruct Hs as (_ & Hn & _).
  apply start_record_ok in Hq as [Hst ->]. eapply kept_replaced; [done|done|done| | |done| | |].
  - eexists _, _, _. by eapply claiming_claimed_by.
  - intros o a. by eapply claiming_open.
  - by intros j [= -> _].
  - intros d g v [H1 H2 H3 H4 H5 _]. by constructor.
  - intros d g v _ _ Hx. done.
Qed.

(** The end of an execution. *)
Lemma kept_complete (i : StateInstant) (t : nat) (id : string) (outcome : ExecOutcome) (answer : result error unit)
    (disk disk' : option string) (log : list HelperEntry) (records : list executionRecord) :
  permitted_event (Completed id outcome answer) (events_of t log) → stored disk records → kept log records →
  state_complete i id outcome disk = (answer, disk') →
  ∃ records', stored disk' records' ∧ kept (Entry t (Completed id outcome answer) [si_now i] :: log) records'.
Proof.
  intros (r & p & now & Hc & ->)%permitted_complete Hs Hk Hm. pose proof (ran_valid _ _ _ _ _ Hc) as Hv.
  apply ran_claiming in Hc.
  apply update_stored with (records := records) in Hm; [|by intros q q'; apply complete_valid|done].
  destruct Hm as [[-> Ha]|(front & q & q' & back & -> & Hid & Hq & Hs')].
  { exists records. split; [done|]. by apply kept_quiet. }
  exists (front ++ q' :: back). split; [done|]. destruct Hs as (_ & Hn & _).
  apply complete_record_ok in Hq as [Hst ->]. eapply kept_replaced; [done|done|done| | |done|done| |].
  - eexists _, _, _. by eapply claiming_claimed_by.
  - intros o a. by eapply claiming_open.
  - intros d g v [H1 H2 H3 H4 H5 _]. constructor; [done..| |].
    + intros _. eexists. split; [by left|]. by exists outcome, answer.
    + rewrite events_of_same. intros _ Ho. destruct (Ho outcome answer). by left.
  - intros d g v Hcl [H1 H2 H3 H4 H5 _] _. exists t, outcome, answer. split; [done|]. cbn. split.
    + apply claimed_by_cons. left. by rewrite H1, H2, H3, H4.
    + rewrite H1. by left.
Qed.

(** The claim of an execution. *)
Lemma kept_claimed (i : StateInstant) (t : nat) (id digest grantID reservationID : string)
    (answer : result error (executionRecord * bool)) (disk disk' : option string)
    (log : list HelperEntry) (records : list executionRecord) :
  permitted_event (Claimed id digest grantID reservationID answer) (events_of t log) → stored disk records →
  kept log records → state_claim i id digest grantID reservationID disk = (answer, disk') →
  ∃ records', stored disk' records'
    ∧ kept (Entry t (Claimed id digest grantID reservationID answer) [si_later i; si_now i] :: log) records'.
Proof.
  intros (r & p & now & Hc & -> & -> & -> & ->)%permitted_claim Hs Hk Hm. pose proof (checked_valid _ _ _ _ Hc) as Hv.
  apply claim_stored with (records := records) in Hm; [|done|].
  2: { unfold request_valid in Hv. bool_to_prop. cbn [forallb]. by rewrite !andb_true_iff. }
  destruct Hm as [(-> & Ha & _)|(Hid & Hs' & Ha)].
  - exists records. split; [done|]. apply kept_quiet; [done| |done]. intros u j d g v q rd [= _ _ _ _ _ -> _]. by destruct (Ha q).
  - eexists. split; [exact Hs'|]. apply kept_claim; [done| |done|done]. by eapply checked_looking.
Qed.

(** ** The invariant *)

Definition file_kept (σ : HelperState) : Prop := ∃ records, stored (h_disk σ) records ∧ kept (h_log σ) records.

Lemma file_kept_step (σ σ' : HelperState) : connected σ → connected σ' → file_kept σ → step σ σ' → file_kept σ'.
Proof.
  intros Hcon Hcon' (records & Hs & Hk) Hstep. destruct Hstep as
    [disk connections next log _|B c k b t next disk disk' front back log readings Hp|x t next disk front back log
    |disk connections next log]; cbn [h_log h_disk] in *.
  - exists records. by split.
  - pose proof (cn_lawful _ Hcon') as [Hl _]. unfold file_kept. cbn [h_disk h_log].
    destruct Hp as [_ Hp]. destruct c; cbn [event_of] in *;
      try (destruct Hp as [-> ->]; exists records; split; [done|by apply kept_quiet]).
    + destruct Hp as (i & -> & -> & ->). exists records. split; [done|by apply kept_quiet].
    + destruct Hp as (i & E & ->). by eapply kept_claimed.
    + destruct Hp as (i & E & ->). by eapply kept_start.
    + destruct Hp as (i & E & ->). by eapply kept_complete.
  - exists records. by split.
  - exists records. split; [done|]. by apply kept_quiet.
Qed.

Lemma file_kept_reachable (σ : HelperState) : rtc step fresh_helper σ → file_kept σ.
Proof.
  intros Hr. cut (connected σ ∧ file_kept σ); [by intros [_ ?]|]. revert σ Hr.
  apply (rtc_ind_r (λ σ, connected σ ∧ file_kept σ)).
  - split; [by apply connected_reachable|]. exists []. split; [by repeat split; constructor|]. constructor.
    + intros t id d g v [record H]. by apply not_elem_of_nil in H.
    + by intros r Hr%not_elem_of_nil.
  - intros σ1 σ2 _ Hs [IH1 IH2]. assert (connected σ2) by (by eapply connected_step). split; [done|].
    exact (file_kept_step _ _ IH1 H IH2 Hs).
Qed.

(** ** An execution is not repeated *)

Lemma log_step (σ σ' : HelperState) :
  step σ σ' →
  h_log σ' = h_log σ ∨ h_log σ' = HelperDied :: h_log σ
  ∨ ∃ t event readings, h_log σ' = Entry t event readings :: h_log σ.
Proof. intros Hstep. destruct Hstep; [by left|right; right; by eexists _, _, _|by left|by right; left]. Qed.

(** A start by a connection, and one that is made now. *)
Lemma start_after_start (σ : HelperState) (t u : nat) (id c1 c2 : string) (d1 d2 : Time) (readings : list Time) :
  connected σ → file_kept σ → permitted_event (StartedChild id c2 d2 None) (events_of u (h_log σ)) →
  Entry t (StartedChild id c1 d1 None) readings ∈ h_log σ →
  ∃ completion completed claim now,
    [claim; completion; Entry t (StartedChild id c1 d1 None) readings] `sublist_of` h_log σ
    ∧ completes t id completed completion ∧ claims now claim ∧ completed < now - completedRetention.
Proof.
  intros Hcon (records & _ & Hk) (r2 & p2 & now2 & Hl2 & E2 & _)%permitted_start H1.
  pose proof (cn_lawful _ Hcon) as Hlaw. destruct σ as [disk connections next log]. cbn [h_log] in *.
  assert (t ≠ u) as Htu.
  { intros ->. eapply launching_no_start, elem_of_events; [exact Hl2|by exists readings]. }
  (* the first connection has claimed the execution *)
  pose proof H1 as (newer & older & ->)%list_elem_of_split.
  pose proof (lawful_split _ _ _ _ _ Hlaw) as (r1 & p1 & now1 & Hl1 & E1 & _)%permitted_start.
  apply launching_claiming in Hl1 as Hcl1. apply claiming_claimed_by in Hcl1 as Hc1.
  apply launching_claiming in Hl2 as Hcl2. pose proof (claiming_claimed_by _ _ _ _ _ Hcl2) as Hc2.
  assert (claimed_by t id (xr_PlanDigest r1) (xr_GrantID r1) (xr_ReservationID r1)
            (newer ++ Entry t (StartedChild id c1 d1 None) readings :: older)) as Hc1'.
  { destruct Hc1 as [record Hc1]. exists record. rewrite <- E1 in Hc1. rewrite events_of_app, events_of_same.
    apply elem_of_app. right. by right. }
  rewrite <- E2 in Hc2.
  (* so it is past *)
  destruct (kp_tenure _ _ Hk _ _ _ _ _ Hc2) as [Hp|[_ Ho]].
  { apply past_completed in Hp as (o & a & Hp). by destruct (claiming_open _ _ _ _ _ _ _ Hcl2 Hp). }
  destruct (Ho _ _ _ _ Hc1') as [->|(claim & completion & completed & now & Hs & Hcomp & Hclm & Hlt)]; [done|].
  (* and it completed after it started *)
  exists completion, completed, claim, now. split; [|done].
  apply sublist_app_r in Hs as (k1 & k2 & Ek & Hs1 & Hs2).
  assert (completion ∈ newer) as Hin.
  { destruct Hcomp as (o & a & ->).
    assert (Entry t (Completed id o a) [completed] ∈ newer ++ Entry t (StartedChild id c1 d1 None) readings :: older) as Hin.
    { eapply elem_of_submseteq; [|apply sublist_submseteq, (sublist_app k1 newer k2); [done|done]].
      rewrite <- Ek. right. by left. }
    apply elem_of_app in Hin as [Hin|[E|Hin]%elem_of_cons]; [done|done|].
    destruct (claiming_open _ _ _ _ id o a Hcl1). apply elem_of_events. by eexists. }
  assert (k2 = [] ∨ completion ∈ k2) as [->|Hin2].
  { destruct k1 as [|x [|y k1]]; cbn in Ek; simplify_eq; [right; right; by left|right; by left|left].
    match goal with Hx : [] = _ |- _ => symmetry in Hx; by apply app_nil in Hx as [_ ->] end. }
  - rewrite app_nil_r in Ek. subst k1.
    change [claim; completion; Entry t (StartedChild id c1 d1 None) readings]
      with ([claim; completion] ++ [Entry t (StartedChild id c1 d1 None) readings]).
    apply sublist_app; [done|]. apply sublist_skip, sublist_nil_l.
  - exfalso. assert (completion ∈ Entry t (StartedChild id c1 d1 None) readings :: older) as Hold.
    { eapply elem_of_submseteq; [exact Hin2|by apply sublist_submseteq]. }
    destruct Hcomp as (o & a & ->). apply elem_of_cons in Hold as [E|Hold]; [done|].
    destruct (claiming_open _ _ _ _ id o a Hcl1). apply elem_of_events. by eexists.
Qed.

(** C6: two children of one execution id are never both started, over any number of connections,
    crashes, failed or doubtful writes of the state file, and settings of the clock, unless the first
    start was followed by the completion of its execution and then, before the second start, by a claim
    that read the clock more than thirty days after the reading of the completion.  The log has the
    newest entry first. *)
Theorem execution_at_most_once (σ : HelperState) (t u : nat) (id c1 c2 : string) (d1 d2 : Time)
    (readings1 readings2 : list Time) :
  rtc step fresh_helper σ →
  [Entry u (StartedChild id c2 d2 None) readings2; Entry t (StartedChild id c1 d1 None) readings1]
    `sublist_of` h_log σ →
  ∃ completion completed claim now,
    [Entry u (StartedChild id c2 d2 None) readings2; claim; completion; Entry t (StartedChild id c1 d1 None) readings1]
      `sublist_of` h_log σ
    ∧ completes t id completed completion ∧ claims now claim ∧ completed < now - completedRetention.
Proof.
  intros Hr. revert σ Hr. refine (rtc_ind_r _ _ _ _); [by intros Hs%sublist_nil_r|].
  intros σ σ' Hr Hstep IH Hs. apply connected_reachable in Hr as Hcon. apply file_kept_reachable in Hr as Hf.
  assert (∀ entry, h_log σ' = entry :: h_log σ → [Entry u (StartedChild id c2 d2 None) readings2; Entry t (StartedChild id c1 d1 None) readings1] `sublist_of` h_log σ →
    ∃ completion completed claim now,
    [Entry u (StartedChild id c2 d2 None) readings2; claim; completion; Entry t (StartedChild id c1 d1 None) readings1]
      `sublist_of` h_log σ'
    ∧ completes t id completed completion ∧ claims now claim ∧ completed < now - completedRetention) as Hold.
  { intros entry -> (completion & completed & claim & now & H & H')%IH. exists completion, completed, claim, now.
    split; [by apply sublist_cons|done]. }
  destruct (log_step _ _ Hstep) as [E|[E|(w & event & readings & E)]].
  - rewrite E in *. by apply IH.
  - rewrite E in Hs. apply (Hold _ E). by apply sublist_cons_r in Hs as [Hs|(k & [= <- _] & _)].
  - rewrite E in Hs. apply sublist_cons_r in Hs as [Hs|(k & [= <- <- <- <-] & Hk)]; [by apply (Hold _ E)|].
    apply connected_step in Hstep as Hcon'; [|done]. pose proof (cn_lawful _ Hcon') as Hlaw. rewrite E in Hlaw.
    destruct Hlaw as [Hp _]. apply singleton_sublist_l in Hk.
    destruct (start_after_start _ _ _ _ _ _ _ _ _ Hcon Hf Hp Hk) as (completion & completed & claim & now & H & H').
    exists completion, completed, claim, now. rewrite E. split; [by apply sublist_skip|done].
Qed.

(** ** What a child that is started rests on *)

(** C7: a child is only started for a request that the expected peer has sent on the same connection, which
    was decoded, is not expired and carries the digest of its plan; after the plan was checked against the
    catalog and the accounts of the host, its paths were found trusted twice, and the state file was written
    with a record of this execution, bound to the digest, the grant and the reservation of the request and
    marked started.  The child gets the canonical plan and a deadline that neither exceeds the expiry of the
    request nor the timeout of the plan. *)
Theorem child_starts_authorized (σ σ' : HelperState) (t : nat) (id canonical : string) (deadline : Time)
    (answer : option error) (readings : list Time) :
  rtc step fresh_helper σ → step σ σ' →
  h_log σ' = Entry t (StartedChild id canonical deadline answer) readings :: h_log σ →
  ∃ r p now bytes host host' host'' claimed,
    events_of t (h_log σ)
    = [PreparedChild None; Inspected host''; MarkedStarted id (Ok tt);
       Claimed id (xr_PlanDigest r) (xr_GrantID r) (xr_ReservationID r) (Ok (claimed, true));
       Inspected host'; Inspected host; LookedUp id (xr_PlanDigest r) (xr_GrantID r) (xr_ReservationID r) (Ok None);
       ReadClock now; Received bytes; SawPeer (Ok (hs_expectedPeerUID s))]
    ∧ (ReadRequest bytes = Ok r ∧ xr_Type r = TypeExecute ∧ xr_ExecutionID r = id
       ∧ plandigest_Digest (xr_Plan r) = xr_PlanDigest r
       ∧ DecodeCanonical (xr_Plan r) = Ok p ∧ EncodeCanonical p = Ok canonical)
    ∧ (now < deadline ∧ deadline <= xr_ExpiresAt r ∧ deadline <= now + sp_TimeoutSeconds p * second
       ∧ xr_ExpiresAt r - now <= sp_RequestedDurationSeconds p * second)
    ∧ (ValidateForHelper (H := host) p (Some (hs_catalog s)) (Some (SystemIdentityResolver_Lookup (H := host))) = Ok tt
       ∧ hostcheck_ValidateExecution (H := host') p (hs_brokerUID s) = Ok tt
       ∧ hostcheck_ValidateExecution (H := host'') p (hs_brokerUID s) = Ok tt)
    ∧ ∃ records record, stored (h_disk σ) records ∧ record ∈ records ∧ ex_ID record = id
        ∧ ex_PlanDigest record = xr_PlanDigest r ∧ ex_GrantID record = xr_GrantID r
        ∧ ex_ReservationID record = xr_ReservationID r ∧ ex_Status record = executionStarted.
Proof.
  intros Hr Hstep E. apply connected_reachable in Hr as Hcon. apply file_kept_reachable in Hr as (records & Hs & Hk).
  apply connected_step in Hstep as Hcon'; [|done]. pose proof (cn_lawful _ Hcon') as Hlaw. rewrite E in Hlaw.
  destruct Hlaw as [(r & p & now & Hl & -> & ->)%permitted_start _].
  pose proof (launching_claiming _ _ _ _ _ Hl) as Hcl. pose proof (claiming_claimed_by _ _ _ _ _ Hcl) as Hc.
  destruct Hl as (host'' & before & Eh & (before' & -> & claimed & before'' & -> & Hck) & Hh'' & Hcanon).
  destruct Hck as [(bytes & host & host' & -> & Hreq & _ & Hv & Hh') Ht Hp Hd He Hdur].
  exists r, p, now, bytes, host, host', host'', claimed. split; [exact Eh|].
  split; [done|]. split; [|split; [done|]].
  - apply DecodeCanonical_valid, plan_validate_limits in Hp as (Hlim & _). unfold run_deadline, commandDeadline, time_before, second.
    unfold second in Hdur. destruct (Z.ltb_spec (now + sp_TimeoutSeconds p * 1000000000) (xr_ExpiresAt r)); lia.
  - destruct (kp_tenure _ _ Hk _ _ _ _ _ Hc) as [Hpast|[(record & Hin & Hh) _]].
    + apply past_completed in Hpast as (o & a & Hx). by destruct (claiming_open _ _ _ _ _ _ _ Hcl Hx).
    + exists records, record. destruct Hh as [H1 H2 H3 H4 _ H5]. do 6 (split; [done|]). apply H5.
      * rewrite Eh. by do 2 right; left.
      * intros o a Hx. by destruct (claiming_open _ _ _ _ _ _ _ Hcl Hx).
Qed.

(** ** What the answers mean *)

(** The connection asked for an execution with this binding, and was told of the record. *)
Definition told (event : HelperEvent) (id digest grantID reservationID : string) (record : executionRecord) : Prop :=
  event = LookedUp id digest grantID reservationID (Ok (Some record))
  ∨ event = Claimed id digest grantID reservationID (Ok (record, false)).

Definition bound_to (record : executionRecord) (id digest grantID reservationID : string) : Prop :=
  ex_ID record = id ∧ ex_PlanDigest record = digest ∧ ex_GrantID record = grantID ∧ ex_ReservationID record = reservationID.

Definition told_recorded (log : list HelperEntry) : Prop :=
  ∀ t event readings id digest grantID reservationID record, Entry t event readings ∈ log →
    told event id digest grantID reservationID record →
    recorded log record ∧ execution_valid record = true ∧ bound_to record id digest grantID reservationID.

Lemma stored_valid (disk : option string) (records : list executionRecord) (r : executionRecord) :
  stored disk records → r ∈ records → execution_valid r = true.
Proof. intros (Hv & _) Hin. rewrite forallb_elem_of in Hv. by apply Hv. Qed.

Lemma lookup_stored (i : StateInstant) (id digest grantID reservationID : string) (disk : option string)
    (records : list executionRecord) (r : executionRecord) :
  stored disk records → state_lookup i id digest grantID reservationID disk = Ok (Some r) →
  r ∈ records ∧ bound_to r id digest grantID reservationID.
Proof.
  intros Hs. unfold state_lookup. intros (f & ->%(load_file i disk records) & Hb)%bind_ok_iff; [|done].
  by apply bound_execution_ok in Hb.
Qed.

Lemma told_recorded_step (σ σ' : HelperState) :
  connected σ → file_kept σ → step σ σ' → told_recorded (h_log σ) → told_recorded (h_log σ').
Proof.
  intros Hcon (records & Hs & Hk) Hstep IH. apply connected_step in Hstep as Hcon'; [|done].
  assert (∀ entry, (∀ t event readings id d g v record, entry = Entry t event readings → told event id d g v record →
            record ∈ records ∧ bound_to record id d g v) → told_recorded (entry :: h_log σ)) as Hcons.
  { intros entry He t event readings id d g v record [<-|Hin]%elem_of_cons Ht.
    - destruct (He _ _ _ _ _ _ _ _ eq_refl Ht) as [Hin Hb].
      split; [by apply recorded_cons, (kp_recorded _ _ Hk)|]. split; [by eapply stored_valid|done].
    - destruct (IH _ _ _ _ _ _ _ _ Hin Ht). by split; [apply recorded_cons|]. }
  destruct Hstep as [disk connections next log _|B c k b t next disk disk' front back log readings Hp
    |x t next disk front back log|disk connections next log]; cbn [h_log h_disk] in *; [done| |done|by apply Hcons].
  apply Hcons. intros u event rd id d g v record [= <- <- <-] Ht. destruct Hp as [_ Hp].
  pose proof (cn_lawful _ Hcon') as [Hlaw _].
  destruct c; cbn [event_of] in *; destruct Ht as [Ht|Ht]; try discriminate Ht; simplify_eq; destruct Hp as (i & E & _);
    [by eapply lookup_stored|].
  symmetry in E. apply permitted_claim in Hlaw as (r & p & now & Hc & -> & -> & -> & ->).
  pose proof (checked_valid _ _ _ _ Hc) as Hv. apply claim_stored with (records := records) in E; [|done|].
  2: { unfold request_valid in Hv. bool_to_prop. cbn [forallb]. by rewrite !andb_true_iff. }
  destruct E as [(_ & _ & Ha)|(_ & _ & [[= _ ?]|[e ?]])]; [by apply Ha|done].
Qed.

Lemma told_recorded_reachable (σ : HelperState) : rtc step fresh_helper σ → told_recorded (h_log σ).
Proof.
  intros Hr. revert σ Hr. refine (rtc_ind_r _ _ _ _).
  - by intros t event readings id d g v record Hin%not_elem_of_nil.
  - intros σ σ' Hr Hstep IH. eapply told_recorded_step; [by apply connected_reachable|by apply file_kept_reachable|done|done].
Qed.

(** Every earlier log was reached too. *)
Lemma reached_earlier (σ : HelperState) (newer older : list HelperEntry) :
  rtc step fresh_helper σ → h_log σ = newer ++ older → ∃ σ', rtc step fresh_helper σ' ∧ h_log σ' = older.
Proof.
  intros Hr. revert σ Hr newer older.
  refine (rtc_ind_r (λ σ, ∀ newer older, h_log σ = newer ++ older → ∃ σ', rtc step fresh_helper σ' ∧ h_log σ' = older) _ _ _).
  - intros newer older E. symmetry in E. apply app_nil in E as [_ ->]. by exists fresh_helper.
  - intros σ σ' Hr Hstep IH newer older E.
    assert (rtc step fresh_helper σ') as Hr' by (by eapply rtc_r).
    destruct newer as [|entry newer]; [by exists σ'|].
    destruct (log_step _ _ Hstep) as [E'|[E'|(t & event & readings & E')]]; rewrite E' in E; [by eapply IH| |].
    + injection E as _ E. by eapply IH.
    + injection E as _ E. by eapply IH.
Qed.

(** A connection starts no child once it has completed. *)
Lemma starts_before_completion (newer older : list HelperEntry) (t : nat) (id id' canonical : string)
    (outcome : ExecOutcome) (answer : result error unit) (answer' : option error) (deadline : Time) (readings : list Time) :
  lawful (newer ++ Entry t (Completed id outcome answer) readings :: older) →
  StartedChild id' canonical deadline answer' ∈ events_of t (newer ++ Entry t (Completed id outcome answer) readings :: older) →
  StartedChild id' canonical deadline answer' ∈ events_of t older.
Proof.
  intros Hl. rewrite events_of_app, events_of_same. intros [Hin|[E|Hin]%elem_of_cons]%elem_of_app; [|done|done]. exfalso.
  apply elem_of_events in Hin as [rd (n1 & n2 & ->)%list_elem_of_split]. rewrite <- app_assoc in Hl. cbn [app] in Hl.
  apply lawful_split, permitted_start in Hl as (r & p & now & Hl & _). apply launching_claiming in Hl.
  apply (claiming_open _ _ _ _ id outcome answer Hl). rewrite events_of_app, events_of_same. apply elem_of_app. right. by left.
Qed.

(** What an outcome says of the connection that has reported it. *)
Definition accounts_for (u : nat) (id : string) (outcome : ExecOutcome) (log : list HelperEntry) : Prop :=
  if xo_Started outcome then
    ∃ p canonical deadline ended, EncodeCanonical p = Ok canonical
      ∧ StartedChild id canonical deadline None ∈ events_of u log ∧ ChildEnded ended ∈ events_of u log
      ∧ outcome = (childOutcome p ended).1
  else ∀ id canonical deadline, StartedChild id canonical deadline None ∉ events_of u log.

Lemma completion_accounts (log : list HelperEntry) (u : nat) (id : string) (outcome : ExecOutcome)
    (answer : result error unit) (readings : list Time) :
  lawful log → Entry u (Completed id outcome answer) readings ∈ log → accounts_for u id outcome log.
Proof.
  intros Hlaw (newer & older & ->)%list_elem_of_split.
  pose proof (lawful_split _ _ _ _ _ Hlaw) as (r & p & now & Hran & ->)%permitted_complete.
  unfold accounts_for. destruct (xo_Started outcome) eqn:Es.
  - destruct Hran as [host before _ _ ->|e host before _ _ ->|e text before _ _ ->|ended canonical before E Hl _ ->];
      [done..|].
    destruct Hl as (host & before' & _ & _ & _ & Hcanon).
    exists p, canonical, (run_deadline r p now), ended. split; [done|].
    rewrite events_of_app, events_of_same, E, !elem_of_app. split; [right; do 2 right; by left|].
    split; [right; right; by left|done].
  - intros id' canonical deadline Hin. eapply starts_before_completion in Hin; [|done].
    by eapply ran_no_start.
Qed.

(** *** The answer the frontend reads *)

Lemma safeCode_valid (code : string) : safeCode code = true → valid_utf8 code = true.
Proof.
  unfold safeCode, valid_utf8, runes, segments. intros [_ H]%andb_true_iff. revert H. generalize 0%nat.
  induction code as [|c code IH]; intros skip; [done|]. cbn [segments_from]. destruct skip as [|skip]; [|apply IH].
  destruct (decode_rune (String c code)) as [r n]. cbn [fmap list_fmap forallb seg_rune seg_valid].
  intros [Hc Hrest]%andb_true_iff. apply andb_true_iff. split; [|by apply (IH (n - 1)%nat)].
  destruct (Z.eqb_spec r rune_error) as [->|_]; [done|]. done.
Qed.

Lemma response_read (response : ExecResponse) (frame rest : string) :
  response_valid response = true → WriteResponse response = Ok frame → ReadResponse (frame +:+ rest) = Ok response.
Proof.
  intros Hv. unfold WriteResponse, ReadResponse. rewrite seq_ok. intros [Hr Hw].
  destruct (response_Marshal response) as [text|e] eqn:Em; [|done].
  rewrite (frame_read_back _ _ _ _ Hw). destruct (response_read_back _ _ Hv Em) as [Hj Hd].
  unfold decodeFrameData. rewrite Hj, Hd. cbn. by rewrite Hr.
Qed.

Lemma ran_request (r : ExecRequest) (p : SudoPlan) (now : Time) (outcome : ExecOutcome) (h : list HelperEvent) :
  ran r p now outcome h → request_valid r = true.
Proof. intros (after & record & before & _ & _ & Hc)%ran_claiming. by eapply checked_valid. Qed.

Lemma completed_valid (id : string) (outcome : ExecOutcome) :
  valid_utf8 id = true → outcome_valid outcome = true → response_valid (NewCompleted id outcome) = true.
Proof. intros Hi Ho. unfold response_valid. cbn [xs_Status xs_ExecutionID xs_ErrorCode xs_Outcome NewCompleted]. rewrite Hi, Ho. by vm_compute. Qed.

Lemma request_valid_id (r : ExecRequest) : request_valid r = true → valid_utf8 (xr_ExecutionID r) = true.
Proof. unfold request_valid. intros H. by bool_to_prop. Qed.

(** C8: what the frontend reads of an answer that was sent.  When it takes the answer for a definitive
    rejection, and gives the use of the grant back, the connection has started no child.  When the answer
    has an outcome, a connection has completed this execution with it, and either started a child, which
    has ended, with its exit code, signal and captured output, or started none; it is the connection
    that answers, or one that has claimed the execution with the same plan digest, grant and
    reservation, and then the one that answers has started none. *)
Theorem answers_truthful (σ : HelperState) (newer older : list HelperEntry) (t : nat) (frame rest : string)
    (readings : list Time) (response : ExecResponse) :
  rtc step fresh_helper σ → h_log σ = newer ++ Entry t (SentFrame frame) readings :: older →
  ReadResponse (frame +:+ rest) = Ok response →
  (releases_approval (adapter_verdict (inl response)) = true →
     ∀ id canonical deadline, StartedChild id canonical deadline None ∉ events_of t older)
  ∧ (∀ outcome, xs_Outcome response = Some outcome →
       ∃ u answer readings, Entry u (Completed (xs_ExecutionID response) outcome answer) readings ∈ older
         ∧ accounts_for u (xs_ExecutionID response) outcome older
         ∧ (u = t
            ∨ (∀ id canonical deadline, StartedChild id canonical deadline None ∉ events_of t older)
              ∧ ∃ event digest grantID reservationID record, event ∈ events_of t older
                  ∧ told event (xs_ExecutionID response) digest grantID reservationID record
                  ∧ claimed_by u (xs_ExecutionID response) digest grantID reservationID older)).
Proof.
  intros Hr E Hread. pose proof (connected_reachable _ Hr) as Hcon. pose proof (cn_lawful _ Hcon) as Hlaw. rewrite E in Hlaw.
  destruct (reached_earlier σ (newer ++ [Entry t (SentFrame frame) readings]) older Hr) as (σ0 & Hr0 & E0).
  { by rewrite <- app_assoc. }
  pose proof (cn_lawful _ (connected_reachable _ Hr0)) as Hlaw0. pose proof (told_recorded_reachable _ Hr0) as Htold.
  rewrite E0 in Hlaw0, Htold.
  apply lawful_split, permitted_send in Hlaw as (response' & Hw & Hrests).
  assert (WriteResponse response' = Ok frame) as Hw' by done. unfold WriteResponse in Hw'. apply seq_ok in Hw' as [Hval _].
  assert (response_valid response' = true → response = response') as Hsame.
  { intros Hv. rewrite (response_read _ _ _ Hv Hw) in Hread. by injection Hread. }
  destruct Hrests as [code -> Hn| ->|bytes r code Hreq ->|r p now outcome before -> Eh Hran
    |bytes r record outcome event before Hreq -> Es Eo Eh Ht Hn].
  - rewrite Hsame; [split; [intros _ id c d; apply Hn|done]|].
    unfold validateResponse, validateErrorResponse in Hval. apply seq_ok in Hval as [_ Hval]. cbn -[safeCode boundedID] in Hval.
    apply refuse_ok in Hval. bool_to_prop. unfold response_valid. cbn [xs_Status xs_ExecutionID xs_ErrorCode xs_Outcome NewRejected].
    rewrite (safeCode_valid code Hval). by vm_compute.
  - rewrite Hsame by (by vm_compute). by split.
  - rewrite Hsame; [by split|]. apply request_read_valid, request_valid_id in Hreq.
    unfold validateResponse, validateErrorResponse in Hval. apply seq_ok in Hval as [_ Hval]. cbn -[safeCode boundedID] in Hval.
    apply seq_ok in Hval as [_ Hval]. apply refuse_ok in Hval. bool_to_prop. unfold response_valid. cbn [xs_Status xs_ExecutionID xs_ErrorCode xs_Outcome NewAmbiguous].
    rewrite (safeCode_valid code), Hreq by done. by vm_compute.
  - rewrite Hsame by (apply completed_valid; [by eapply request_valid_id, ran_request|by eapply ran_valid]).
    assert (Completed (xr_ExecutionID r) outcome (Ok tt) ∈ events_of t older) as [rd Hin]%elem_of_events by (rewrite Eh; by left).
    pose proof (completion_accounts _ _ _ _ _ _ Hlaw0 Hin) as Hacc. split.
    + unfold adapter_verdict, outcomeFromHelperResponse, completedStarted. cbn. destruct (xo_Started outcome) eqn:Est; [done|].
      intros _. unfold accounts_for in Hacc. by rewrite Est in Hacc.
    + intros outcome' [= <-]. exists t, (Ok tt), rd. split; [done|]. split; [done|by left].
  - assert (event ∈ events_of t older) as Hev by (rewrite Eh; by left).
    apply elem_of_events in Hev as Hin. destruct Hin as [rd Hin].
    destruct (Htold _ _ _ _ _ _ _ _ Hin Ht) as (Hrec & Hv & Hb). unfold bound_to in Hb. destruct Hb as (H1 & H2 & H3 & H4).
    destruct (Hrec Es) as (u & outcome' & answer & Eo' & Hcl & Hcomp). rewrite Eo in Eo'. injection Eo' as <-.
    rewrite H1, H2, H3, H4 in Hcl. rewrite H1 in Hcomp.
    rewrite Hsame.
    2: { unfold execution_valid in Hv. rewrite Eo, H1 in Hv. bool_to_prop. by apply completed_valid. }
    pose proof (completion_accounts _ _ _ _ _ _ Hlaw0 Hcomp) as Hacc. split; [intros _ id c d; apply Hn|].
    intros outcome' [= <-]. exists u, answer, [ex_CompletedAt record]. split; [done|]. split; [done|]. right.
    split; [intros id c d; apply Hn|]. exists event, (xr_PlanDigest r), (xr_GrantID r), (xr_ReservationID r), record.
    by split.
Qed.
End log.
