(* ===== verification/SudoExamples.v ===== *)
(** * A helper at work

    A catalog of one command, a host on which it is trusted, a codec for the documents
    of the helper that keeps what it encodes, runs of the helper and of its child, and
    the theorems of the sudo broker applied to them; then the sessions in which the state
    file departs from its intent. *)

From S2P Require Export SudoInvariant.
From Stdlib Require Import Ascii.

Local Open Scope Z_scope.

#[local] Existing Instance canonical_range.

(** ** A codec *)

(** Values as lists of words, which can be read back. *)
Class Words (A : Type) : Type := {
  put : A → list string;
  get : list string → option (A * list string);
  get_put (a : A) (rest : list string) : get (put a ++ rest) = Some (a, rest)
}.

#[local] Instance string_words : Words string.
Proof. by refine {| put s := [s]; get words := match words with s :: rest => Some (s, rest) | [] => None end |}. Defined.

(** A value that another one stands for. *)
Definition words_via {A B} (W : Words B) (f : A → B) (g : B → A) (Hgf : ∀ a, g (f a) = a) : Words A.
Proof.
  refine {| put a := put (f a); get words := '(b, rest) ← get words; Some (g b, rest) |}.
  intros a rest. rewrite get_put. cbn. by rewrite Hgf.
Defined.

Fixpoint bits (p : positive) : string :=
  match p with xH => EmptyString | xO p => String "0" (bits p) | xI p => String "1" (bits p) end.

Fixpoint of_bits (s : string) : positive :=
  match s with
  | EmptyString => xH
  | String c s => if Ascii.eqb c "0" then xO (of_bits s) else xI (of_bits s)
  end.

Lemma of_bits_bits (p : positive) : of_bits (bits p) = p.
Proof. induction p as [p IH|p IH|]; cbn; by rewrite ?IH. Qed.

(** A number, a truth value: a word. *)
Definition countable_words {A} `{Countable A} (default : A) : Words A.
Proof.
  refine (words_via string_words (λ a, bits (encode a)) (λ s, from_option id default (decode (of_bits s))) _).
  intros a. by rewrite of_bits_bits, decode_encode.
Defined.

#[local] Instance Z_words : Words Z := countable_words 0.
#[local] Instance bool_words : Words bool := countable_words false.
#[local] Instance nat_words : Words nat := countable_words 0%nat.

#[local] Instance pair_words {A B} (WA : Words A) (WB : Words B) : Words (A * B).
Proof.
  refine {| put ab := put ab.1 ++ put ab.2;
            get words := '(a, rest) ← get words; '(b, rest) ← get rest; Some ((a, b), rest) |}.
  intros [a b] rest. rewrite <- app_assoc, get_put. cbn. by rewrite get_put.
Defined.

Fixpoint get_many {A} {W : Words A} (n : nat) (words : list string) : option (list A * list string) :=
  match n with
  | O => Some ([], words)
  | S n => '(a, rest) ← get words; '(l, rest) ← get_many n rest; Some (a :: l, rest)
  end.

#[local] Instance list_words {A} (W : Words A) : Words (list A).
Proof.
  refine {| put l := put (length l) ++ flat_map put l; get words := '(n, rest) ← get words; get_many n rest |}.
  intros l rest. rewrite <- app_assoc, get_put. cbn [mbind option_bind].
  induction l as [|a l IH]; [done|]. cbn [length flat_map get_many].
  rewrite <- app_assoc, get_put. cbn [mbind option_bind]. by rewrite IH.
Defined.

#[local] Instance option_words {A} (W : Words A) : Words (option A).
Proof.
  refine (words_via (list_words W) option_list head _). by intros [a|].
Defined.

#[local] Instance map_words : Words (gmap string string).
Proof.
  refine (words_via (list_words (pair_words string_words string_words)) map_to_list list_to_map _).
  intros m. apply list_to_map_to_list.
Defined.

(** The text of words: every byte after a dot, every word before a bar. *)
Fixpoint escape (s : string) : string :=
  match s with EmptyString => "|" | String c s => String "." (String c (escape s)) end.

Fixpoint text_of (words : list string) : string :=
  match words with [] => EmptyString | word :: words => escape word +:+ text_of words end.

Fixpoint words_from (word s : string) : list string :=
  match s with
  | String d s =>
      if Ascii.eqb d "|" then string_rev word :: words_from EmptyString s
      else match s with
           | String c s => if Ascii.eqb d "." then words_from (String c word) s else []
           | EmptyString => []
           end
  | EmptyString => []
  end.

Lemma words_from_escape (word s rest : string) :
  words_from word (escape s +:+ rest) = (string_rev word +:+ s) :: words_from EmptyString rest.
Proof.
  revert word. induction s as [|c s IH]; intros word; cbn [escape].
  - rewrite app_cons, app_nil_l_string. cbn. by rewrite app_nil_r_string.
  - rewrite !app_cons. cbn [words_from]. change (Ascii.eqb "." "|") with false. change (Ascii.eqb "." ".") with true.
    cbv iota. rewrite IH, string_rev_cons. by rewrite app_assoc_string.
Qed.

Lemma words_from_text (words : list string) (rest : string) :
  words_from EmptyString (text_of words +:+ rest) = words ++ words_from EmptyString rest.
Proof.
  induction words as [|word words IH]; [done|]. cbn [text_of]. by rewrite app_assoc_string, words_from_escape, IH.
Qed.

Definition written {A} {W : Words A} (a : A) : result error string := Ok (text_of (put a)).

Definition read_back {A} {W : Words A} (text : string) : result error (A * bool) :=
  match get (words_from EmptyString text) with
  | Some (a, rest) => Ok (a, bool_decide (rest = []))
  | None => Err (ErrorExternal "encoding/json")
  end.

Lemma read_back_written {A} {W : Words A} (a : A) (text rest : string) :
  written a = Ok text → words_from EmptyString rest = [] → read_back (text +:+ rest) = Ok (a, true).
Proof.
  intros [= <-] Hr. unfold read_back. by rewrite words_from_text, Hr, get_put.
Qed.

(** ** The documents of the helper *)

#[local] Instance outcome_words : Words ExecOutcome.
Proof.
  refine (words_via _
    (λ o, (xo_Started o, xo_ExitCode o, xo_Signal o, xo_TimedOut o, xo_Truncated o, xo_Duration o, xo_Stdout o, xo_Stderr o))
    (λ '(a, b, c, d, e, f, g, h), MkExecOutcome a b c d e f g h) _). by intros [].
Defined.

#[local] Instance record_words : Words executionRecord.
Proof.
  refine (words_via _
    (λ r, (ex_ID r, ex_PlanDigest r, ex_GrantID r, ex_ReservationID r, ex_Status r, ex_ClaimedAt r, ex_StartedAt r,
           ex_CompletedAt r, ex_Outcome r))
    (λ '(a, b, c, d, e, f, g, h, i), MkExecutionRecord a b c d e f g h i) _). by intros [].
Defined.

#[local] Instance file_words : Words executionFile.
Proof.
  refine (words_via _ (λ f, (xf_Version f, xf_Executions f)) (λ '(a, b), MkExecutionFile a b) _). by intros [].
Defined.

#[local] Instance response_words : Words ExecResponse.
Proof.
  refine (words_via _
    (λ r, (xs_Version r, xs_Status r, xs_ExecutionID r, xs_Outcome r, xs_ErrorCode r))
    (λ '(a, b, c, d, e), MkExecResponse a b c d e) _). by intros [].
Defined.

#[local] Instance request_words : Words ExecRequest.
Proof.
  refine (words_via _
    (λ r, (xr_Version r, xr_Type r, xr_ExecutionID r, xr_Plan r, xr_PlanDigest r, xr_GrantID r, xr_ReservationID r,
           xr_ExpiresAt r))
    (λ '(a, b, c, d, e, f, g, h), MkExecRequest a b c d e f g h) _). by intros [].
Defined.

#[local] Instance plan_words : Words SudoPlan.
Proof.
  refine (words_via _
    (λ p, (sp_Schema p, sp_RequestID p, sp_ClientID p, sp_Operation p, sp_AuthorizationMode p, sp_CommandID p,
           sp_TargetUser p, sp_TargetUID p, sp_TargetGID p, sp_SupplementaryGIDs p, sp_Executable p, sp_Arguments p,
           sp_WorkingDirectory p, sp_Environment p, sp_TimeoutSeconds p, sp_MaxOutputBytes p, sp_SlotValues p,
           sp_CatalogDigest p, sp_RequestedDurationSeconds p, sp_RequestedMaxUses p, sp_RequestedMaxUsesDefaulted p,
           sp_CreatedAt p))
    (λ '(a, b, c, d, e, f, g, h, i, j, k, l, m, n, o, p, q, r, s, t, u, v),
       MkSudoPlan a b c d e f g h i j k l m n o p q r s t u v) _). by intros [].
Defined.

(** Two texts have the tokens of an object, the others are one token. *)
Definition object_tokens (keys : list string) : list Token :=
  TokenDelim "{" :: flat_map (λ key, [TokenString key; TokenOther "1"]) keys ++ [TokenDelim "}"].

#[local] Instance sample_tokens : JSONTokens := {|
  json_tokens data :=
    (if String.eqb data "a and b" then object_tokens ["a"; "b"]
     else if String.eqb data "a twice" then object_tokens ["a"; "a"]
     else [TokenOther data], EndEOF)
|}.

#[local] Instance sample_tokens_laws : JSONTokensLaws sample_tokens.
Proof. intros data. cbn. by repeat destruct (String.eqb _ _). Qed.

#[local] Instance sample_plans : PlanJSON := {| plan_Marshal := written; plan_DecodeNext := read_back |}.

#[local] Instance sample_json : ExecutorJSON := {|
  request_Marshal := written;
  request_DecodeNext text :=
    '(r, ended) ← read_back text;
    if request_valid r then Ok (r, ended) else Err (ErrorExternal "encoding/json");
  response_Marshal := written;
  response_DecodeNext := read_back;
  state_MarshalIndent := written;
  state_DecodeNext := read_back
|}.

(** No written text is one of the two texts with the tokens of an object. *)
Lemma written_single {A} {W : Words A} (a : A) (text rest : string) :
  written a = Ok text → put a ≠ [] → RejectDuplicateKeys (text +:+ rest) = Ok tt.
Proof.
  intros [= <-] Hp. assert (∃ tail, text_of (put a) +:+ rest = String "." tail ∨ text_of (put a) +:+ rest = String "|" tail) as (tail & Ht).
  { destruct (put a) as [|word words]; [done|]. cbn [text_of]. destruct word as [|c word]; cbn [escape]; rewrite !app_cons; eauto. }
  unfold RejectDuplicateKeys. cbn [json_tokens sample_tokens].
  destruct Ht as [-> | ->]; done.
Qed.

#[local] Instance sample_json_laws : ExecutorLaws sample_tokens sample_json.
Proof.
  constructor.
  - intros f text _ Hm. split; [by apply (written_single _ _ _ Hm)|]. exact (read_back_written _ _ newline Hm eq_refl).
  - intros r text _ Hm. rewrite <- (app_nil_r_string text). split; [by apply (written_single _ _ _ Hm)|]. exact (read_back_written _ _ EmptyString Hm eq_refl).
  - intros text r ended Hd. cbn in Hd. apply bind_ok_iff in Hd as ([r' ended'] & _ & Hd).
    destruct (request_valid r') eqn:E; [|done]. by injection Hd as <- _.
Qed.

(** ** A host and a catalog *)

Definition root_file : FileInfo := MkFileInfo 493 (Some 0).
Definition root_directory : FileInfo := MkFileInfo (Z.lor ModeDir 493) (Some 0).

Definition sample_file (path : string) : result error FileInfo :=
  if bool_decide (path ∈ ["/"; "/usr"; "/usr/bin"; "/srv"; "/srv/app"; "/srv/app/live"]) then Ok root_directory
  else if String.eqb path "/usr/bin/restart" then Ok root_file
  else Err (ErrorNew "it does not exist").

Definition sample_host : Host := {|
  Lstat := sample_file;
  Stat := sample_file;
  EvalSymlinks path := _ ← sample_file path; Ok path;
  Lgetxattr _ _ := Ok None;
  user_Lookup name :=
    if String.eqb name "deploy" then Ok (MkAccount "1001" "1001" "deploy" (Ok ["1001"; "1002"])) else Err (ErrorNew "it does not exist")
|}.

Lemma sample_host_laws : HostLaws sample_host.
Proof. intros path resolved Ha. cbn. destruct (sample_file path); [|done]. by intros [= <-]. Qed.

#[local] Existing Instance sample_host.
#[local] Existing Instance sample_host_laws.

Definition some_digest : string := "0000000000000000000000000000000000000000000000000000000000000000".

(** A literal, a number and a path. *)
Definition sample_document : document := MkDocument 1 (Some [
  MkRawCommand "app-restart" "/usr/bin/restart"
    (Some [MkArgument (Some "--now") EmptyString EmptyString None None [] [] false EmptyString;
           MkArgument None "count" "integer" (Some 1) (Some 5) [] [] false EmptyString;
           MkArgument None "directory" "path_beneath" None None [] ["/srv/app"] true "directory"])
    (Some ["deploy"]) "/srv/app" 30 (Some 4096) ∅ "Restart the application" EmptyString]).

#[local] Instance sample_catalog_json : CatalogJSON := {|
  document_Decode _ := Ok (sample_document, true);
  commands_Marshal _ := Ok EmptyString;
  string_Unmarshal text := Ok text;
  string_Marshal text := text
|}.

Definition sample_snapshot : Snapshot :=
  match catalog_Parse (λ _, some_digest) "the catalog" with Ok s => s | Err _ => MkSnapshot ∅ EmptyString end.

Definition start_of_time : Time := 1000 * hour.

Definition sample_plan : SudoPlan :=
  MkSudoPlan SchemaV1 "request-1" "agent" OperationExecCommand "execution" "app-restart" "deploy" 1001 1001 [1002]
    "/usr/bin/restart" ["--now"; "3"; "/srv/app/live"] "/srv/app" ["LANG=C"; "LC_ALL=C"] 30 4096
    {["count" := "3"; "directory" := "/srv/app/live"]} some_digest 3600 1 false start_of_time.

Lemma sample_catalog_parses : catalog_Parse (λ _, some_digest) "the catalog" = Ok sample_snapshot.
Proof. by vm_compute. Qed.

Lemma sample_plan_accepted :
  ValidateForHelper sample_plan (Some sample_snapshot) (Some SystemIdentityResolver_Lookup) = Ok tt.
Proof. by vm_compute. Qed.

Lemma accepted_plan_authorized_witness :
  ∃ c, command_ok c ∧ plan_authorized sample_snapshot SystemIdentityResolver_Lookup sample_plan c.
Proof.
  apply (accepted_plan_authorized (H0 := sample_host) (λ _, some_digest) "the catalog" sample_snapshot);
    [apply sample_catalog_parses|apply sample_plan_accepted].
Defined.

Lemma RejectDuplicateKeys_exact_witness :
  JSONTokensLaws sample_tokens
  ∧ (RejectDuplicateKeys "a and b" = Ok tt ↔ ∃ v, json_tokens "a and b" = (tree_tokens v, EndEOF) ∧ unique_keys v).
Proof. split; [apply sample_tokens_laws|]. apply RejectDuplicateKeys_exact. Defined.

Example duplicate_keys_refused :
  RejectDuplicateKeys "a and b" = Ok tt
  ∧ RejectDuplicateKeys "a twice" = Err (errorf "duplicate JSON key %q at %s" ["a"; "$"]).
Proof. by vm_compute. Qed.

Lemma captured_output_exact_witness :
  0 <= 4 ∧ len (co_stdout (capture 4 [BudgetWrite false "abc"; BudgetWrite true "xyz"; BudgetSetKill])) + 1 = 4
  ∧ ob_kills (co_budget (capture 4 [BudgetWrite false "abc"; BudgetWrite true "xyz"; BudgetSetKill])) = 1%nat.
Proof.
  assert (0 <= 4) as H by lia.
  pose proof (captured_output_exact 4 [BudgetWrite false "abc"; BudgetWrite true "xyz"; BudgetSetKill] H) as (_ & _ & _ & _ & Hk).
  split; [done|]. split; [by vm_compute|exact Hk].
Defined.

(** ** Runs of the helper, one connection after the other *)

Definition sample_server : HelperServer := MkHelperServer sample_snapshot 900 900 4.

Notation sample_step := (helper_step (λ _, some_digest) sample_server).
Abbreviation sample_handler := (handleConnection (λ _, some_digest) sample_server).

(** What the host answers to a connection: what it receives, the clock, what becomes of the writes of the claim,
    the start and the completion, and how the child ends. *)
Record Script : Type := MkScript {
  sc_received : string;
  sc_now : Time;
  sc_claims : StateInstant;
  sc_starts : StateInstant;
  sc_completes : StateInstant;
  sc_starts_child : option error;
  sc_ended : ChildResult
}.

Definition scripted (o : Script) {B} (c : HelperCall B) (disk : option string) : B * option string * list Time :=
  match c in HelperCall B return B * option string * list Time with
  | PeerUIDCall => (Ok 900, disk, [])
  | ReceiveCall => (sc_received o, disk, [])
  | HelperNowCall => (sc_now o, disk, [sc_now o])
  | InspectHostCall => (sample_host, disk, [])
  | LookupCall id digest grantID reservationID => (state_lookup (sc_claims o) id digest grantID reservationID disk, disk, [])
  | ClaimCall id digest grantID reservationID =>
      (state_claim (sc_claims o) id digest grantID reservationID disk, [si_later (sc_claims o); si_now (sc_claims o)])
  | MarkStartedCall id => (markStarted (sc_starts o) id disk, [si_now (sc_starts o)])
  | CompleteCall id outcome => (state_complete (sc_completes o) id outcome disk, [si_now (sc_completes o)])
  | PrepareChildCall => (None, disk, [])
  | StartChildCall _ _ _ => (sc_starts_child o, disk, [])
  | WaitChildCall => (sc_ended o, disk, [])
  | SendCall _ => (tt, disk, [])
  end.

Lemma scripted_performs (o : Script) {B} (c : HelperCall B) (disk : option string) :
  valid_utf8 (ch_signal (sc_ended o)) = true →
  helper_performs c disk (scripted o c disk).1.1 (scripted o c disk).1.2 (scripted o c disk).2.
Proof.
  intros Hs. destruct c; unfold helper_performs; cbn [scripted fst snd answers]; (split; [done || apply sample_host_laws|]);
    try done; eexists; (split; [reflexivity || by rewrite <- surjective_pairing|done]).
Qed.

(** Whether a run stops before a call. *)
Definition starts_child {B} (c : HelperCall B) : bool := match c with StartChildCall _ _ _ => true | _ => false end.

(** The program until it ends, or until it starts a child. *)
Fixpoint run_script (o : Script) (stop : bool) (t : nat) (p : Program HelperCall unit) (disk : option string)
    (log : list HelperEntry) : Program HelperCall unit * option string * list HelperEntry :=
  match p with
  | Return _ => (p, disk, log)
  | Ask c k =>
      if stop && starts_child c then (p, disk, log)
      else
        let '(b, disk', readings) := scripted o c disk in
        run_script o stop t (k b) disk' (Entry t (event_of c b) readings :: log)
  end.

Lemma run_script_steps (o : Script) (stop : bool) (t next : nat) (p : Program HelperCall unit) (disk : option string)
    (log : list HelperEntry) :
  valid_utf8 (ch_signal (sc_ended o)) = true →
  rtc sample_step (MkHelperState disk [(t, p)] next log)
    (MkHelperState (run_script o stop t p disk log).1.2 [(t, (run_script o stop t p disk log).1.1)] next
       (run_script o stop t p disk log).2).
Proof.
  intros Hs. revert disk log. induction p as [x|B c k IH]; intros disk log; [apply rtc_refl|]. cbn [run_script].
  destruct (stop && starts_child c); [apply rtc_refl|].
  pose proof (scripted_performs o c disk Hs) as Hp. destruct (scripted o c disk) as [[b disk'] readings].
  eapply rtc_l; [|apply IH].
  apply (helper_calls _ _ c k b t next disk disk' [] []). exact Hp.
Qed.

(** Connections that are served to their end. *)
Fixpoint serve (scripts : list Script) (t : nat) (disk : option string) (log : list HelperEntry)
    : option string * list HelperEntry :=
  match scripts with
  | [] => (disk, log)
  | o :: scripts =>
      let '(_, disk', log') := run_script o false t sample_handler disk log in serve scripts (S t) disk' log'
  end.

Lemma serve_step (o : Script) (stop : bool) (t : nat) (disk : option string) (log : list HelperEntry) :
  valid_utf8 (ch_signal (sc_ended o)) = true →
  rtc sample_step (MkHelperState disk [] t log)
    (MkHelperState (run_script o stop t sample_handler disk log).1.2
       [(t, (run_script o stop t sample_handler disk log).1.1)] (S t) (run_script o stop t sample_handler disk log).2).
Proof.
  intros Hs. eapply rtc_l; [by apply (helper_accepts _ _ disk [])|]. by apply run_script_steps.
Qed.

Lemma run_script_ends (o : Script) (t : nat) (p : Program HelperCall unit) (disk : option string) (log : list HelperEntry) :
  (run_script o false t p disk log).1.1 = Return tt.
Proof.
  revert disk log. induction p as [[]|B c k IH]; intros disk log; [done|]. cbn [run_script andb].
  destruct (scripted o c disk) as [[b disk'] readings]. apply IH.
Qed.

Lemma serve_steps (scripts : list Script) (t : nat) (disk : option string) (log : list HelperEntry) :
  forallb (λ o, valid_utf8 (ch_signal (sc_ended o))) scripts = true →
  ∃ next, rtc sample_step (MkHelperState disk [] t log)
    (MkHelperState (serve scripts t disk log).1 [] next (serve scripts t disk log).2).
Proof.
  revert t disk log. induction scripts as [|o scripts IH]; intros t disk log; [by exists t|]. cbn [forallb serve].
  intros [Ho Hs]%andb_true_iff. pose proof (serve_step o false t disk log Ho) as H1.
  pose proof (run_script_ends o t sample_handler disk log) as He.
  destruct (run_script o false t sample_handler disk log) as [[p disk'] log'] eqn:E. cbn [fst snd] in *. subst p.
  destruct (IH (S t) disk' log' Hs) as [next Hn]. exists next.
  etrans; [exact H1|]. eapply rtc_l; [|exact Hn].
  apply (helper_closes _ _ tt t (S t) disk' [] []).
Qed.

(** A request for the plan, sent when the clock reads [now]. *)
Definition sample_request (id : string) (now : Time) : ExecRequest :=
  MkExecRequest protocol_Version TypeExecute id (text_of (put sample_plan)) some_digest "grant-1" "grant-1:r1"
    (now + 1800 * second).

Definition instant (now : Time) : StateInstant := MkStateInstant None now now WriteDone.

Definition frame_of (r : ExecRequest) : string := match WriteRequest r with Ok frame => frame | Err _ => EmptyString end.

Definition sample_ended : ChildResult :=
  MkChildResult None false EmptyString 0 false second [BudgetSetKill; BudgetWrite false "restarted"].

(** The request is served by the clock that reads [now]. *)
Definition sample_script (id : string) (now : Time) : Script :=
  MkScript (frame_of (sample_request id now)) now (instant now) (instant now) (instant (now + second)) None sample_ended.

(** The same execution twice, thirty-one days apart: only a claim drops the old record. *)
Definition month_later : Time := start_of_time + 31 * 24 * hour.
Definition twice : list Script := 
  [sample_script "execution-1" start_of_time; sample_script "execution-2" month_later; sample_script "execution-1" month_later].
Definition twice_log : list HelperEntry := (serve twice 0 None []).2.

Definition start_entry (e : HelperEntry) : bool :=
  match e with Entry _ (StartedChild id _ _ None) _ => String.eqb id "execution-1" | _ => false end.

Lemma filter_sublist {A} (f : A → bool) (l : list A) : List.filter f l `sublist_of` l.
Proof. induction l as [|a l IH]; [done|]. cbn. destruct (f a); by constructor. Qed.

Definition sample_start (t : nat) (now : Time) : HelperEntry :=
  Entry t (StartedChild "execution-1" (text_of (put sample_plan)) (now + 30 * second) None) [].

Lemma twice_starts : List.filter start_entry twice_log = [sample_start 2 month_later; sample_start 0 start_of_time].
Proof. by vm_compute. Qed.

Lemma execution_at_most_once_witness :
  ∃ completion completed claim now,
    [sample_start 2 month_later; claim; completion; sample_start 0 start_of_time] `sublist_of` twice_log
    ∧ completes 0 "execution-1" completed completion ∧ claims now claim ∧ completed < now - completedRetention.
Proof.
  destruct (serve_steps twice 0 None []) as [next Hr]; [by vm_compute|].
  apply (execution_at_most_once (λ _, some_digest) sample_server
           (MkHelperState (serve twice 0 None []).1 [] next twice_log) 0 2 "execution-1" _ _ _ _ [] [] Hr).
  unfold h_log. pose proof (filter_sublist start_entry twice_log) as Hs. by rewrite twice_starts in Hs.
Defined.

(** A day later the outcome is replayed instead. *)
Example replayed_within_retention :
  length (List.filter start_entry (serve [sample_script "execution-1" start_of_time;
            sample_script "execution-1" (start_of_time + 24 * hour)] 0 None []).2) = 1%nat.
Proof. by vm_compute. Qed.

(** One more call. *)
Definition one_step (o : Script) (t : nat) (p : Program HelperCall unit) (disk : option string) (log : list HelperEntry)
    : Program HelperCall unit * option string * list HelperEntry :=
  match p with
  | Return _ => (p, disk, log)
  | Ask c k => let '(b, disk', readings) := scripted o c disk in (k b, disk', Entry t (event_of c b) readings :: log)
  end.

Definition asks (p : Program HelperCall unit) : bool := match p with Ask _ _ => true | Return _ => false end.

Lemma one_step_step (o : Script) (t next : nat) (p : Program HelperCall unit) (disk : option string) (log : list HelperEntry) :
  valid_utf8 (ch_signal (sc_ended o)) = true → asks p = true →
  sample_step (MkHelperState disk [(t, p)] next log)
    (MkHelperState (one_step o t p disk log).1.2 [(t, (one_step o t p disk log).1.1)] next (one_step o t p disk log).2).
Proof.
  intros Hs. destruct p as [x|B c k]; [done|]. intros _. cbn [one_step]. pose proof (scripted_performs o c disk Hs) as Hp.
  destruct (scripted o c disk) as [[b disk'] readings]. by apply (helper_calls _ _ c k b t next disk disk' [] []).
Qed.

Definition before_start : Program HelperCall unit * option string * list HelperEntry :=
  run_script (sample_script "execution-1" start_of_time) true 0 sample_handler None [].

Lemma child_starts_authorized_witness :
  ∃ r p (host : Host) record, xr_ExecutionID r = "execution-1" ∧ DecodeCanonical (xr_Plan r) = Ok p
    ∧ hostcheck_ValidateExecution (H := host) p (hs_brokerUID sample_server) = Ok tt
    ∧ ex_ID record = "execution-1" ∧ ex_Status record = executionStarted.
Proof.
  set (o := sample_script "execution-1" start_of_time).
  assert (valid_utf8 (ch_signal (sc_ended o)) = true) as Ho by (by vm_compute).
  assert (asks before_start.1.1 = true) as Ha by (by vm_compute).
  pose proof (serve_step o true 0 None [] Ho) as Hr.
  pose proof (one_step_step o 0 1 before_start.1.1 before_start.1.2 before_start.2 Ho Ha) as Hs.
  assert ((one_step o 0 before_start.1.1 before_start.1.2 before_start.2).2
          = sample_start 0 start_of_time :: before_start.2) as E by (by vm_compute).
  destruct (child_starts_authorized (λ _, some_digest) sample_server _ _ 0 "execution-1" (text_of (put sample_plan))
              (start_of_time + 30 * second) None [] Hr Hs E)
    as (r & p & now & bytes & host & host' & host'' & claimed & _ & (_ & _ & Hid & _ & Hp & _) & _ & (_ & _ & Hh)
        & records & record & _ & _ & H1 & _ & _ & _ & H2).
  exists r, p, host'', record. exact (conj Hid (conj Hp (conj Hh (conj H1 H2)))).
Defined.

(** ** An answer *)

Definition once_log : list HelperEntry := (serve [sample_script "execution-1" start_of_time] 0 None []).2.

Definition sample_response : ExecResponse :=
  NewCompleted "execution-1" (childOutcome sample_plan sample_ended).1.

Definition sample_frame : string :=
  match WriteResponse sample_response with Ok frame => frame | Err _ => EmptyString end.

Lemma answers_truthful_witness :
  ∃ u answer readings, Entry u (Completed "execution-1" (childOutcome sample_plan sample_ended).1 answer) readings ∈ tail once_log.
Proof.
  destruct (serve_steps [sample_script "execution-1" start_of_time] 0 None []) as [next Hr]; [by vm_compute|].
  assert (h_log (MkHelperState (serve [sample_script "execution-1" start_of_time] 0 None []).1 [] next once_log)
          = [] ++ Entry 0 (SentFrame sample_frame) [] :: tail once_log) as E by (by vm_compute).
  assert (ReadResponse (sample_frame +:+ EmptyString) = Ok sample_response) as Hread by (by vm_compute).
  destruct (answers_truthful (λ _, some_digest) sample_server _ [] (tail once_log) 0 sample_frame EmptyString [] sample_response
              Hr E Hread) as [_ H].
  destruct (H _ eq_refl) as (u & answer & readings & Hin & _). by exists u, answer, readings.
Defined.

(** ** The child *)

(** What the host answers to the child. *)
Definition child_answer {B} (c : ChildCall B) : B :=
  match c in ChildCall B return B with
  | GeteuidCall => 0
  | ReadPlanCall _ => Ok (text_of (put sample_plan))
  | ChildHostCall => sample_host
  | SetrlimitCall _ _ => None
  | Openat2Call path _ _ => Ok (len path)
  | FstatCall _ => Ok (0, Z.lor S_IFREG 493)
  | FchdirCall _ | SetgroupsCall _ | SetgidCall _ | SetuidCall _ => None
  | ExecveatCall _ _ _ => ErrorNew "it has not returned"
  | CloseFdCall _ => tt
  end.

Fixpoint child_run {X} (p : Program ChildCall X) (h : list ChildEvent) : list ChildEvent :=
  match p with
  | Return _ => h
  | Ask c k =>
      match child_event_of c (child_answer c) with
      | Executed _ _ _ _ as event => event :: h
      | event => child_run (k (child_answer c)) (event :: h)
      end
  end.

Lemma child_run_did {X} (p : Program ChildCall X) (h : list ChildEvent) : child_did p h (child_run p h).
Proof.
  revert h. induction p as [x|B c k IH]; intros h; [by left|]. right. exists (child_answer c). cbn [child_run].
  pose proof (IH (child_answer c) (child_event_of c (child_answer c) :: h)) as Hd.
  destruct (child_event_of c (child_answer c)); try exact Hd. destruct (k (child_answer c)); by left.
Qed.

Definition child_events : list ChildEvent := child_run (RunInternalChild ["helper"; "--internal-exec"; "3"]) [].

Lemma child_drops_identity_witness :
  ∃ p, sp_TargetUID p = 1001 ∧ "/usr/bin/restart" :: sp_Arguments sample_plan = sp_Executable p :: sp_Arguments p
    ∧ SetUid (sp_TargetUID p) None ∈ child_events.
Proof.
  assert (child_events = Executed 16 (sp_Executable sample_plan :: sp_Arguments sample_plan) (sp_Environment sample_plan)
            (ErrorNew "it has not returned") :: tail child_events) as E by (by vm_compute).
  pose proof (child_run_did (RunInternalChild ["helper"; "--internal-exec"; "3"]) []) as Hd.
  fold child_events in Hd. rewrite E in Hd.
  destruct (child_drops_identity ["helper"; "--internal-exec"; "3"] 16 _ _ _ _ Hd)
    as (plan_fd & data & p & host & directory & mode & Eh & _ & _ & Hp & _ & _ & _ & _ & Ha & _).
  exists p. rewrite E, Eh. split; [|split; [exact Ha|]]; [|right; right; by left].
  assert (SetUid (sp_TargetUID p) None = SetUid 1001 None) as Eu; [|by injection Eu].
  assert (tail child_events !! 1%nat = Some (SetUid 1001 None)) as El by (by vm_compute).
  rewrite Eh in El. by injection El as ->.
Defined.

(** ** Where the state file departs from its intent *)

(** A file that [load] refuses, whenever it is read and whatever the clock reads. *)
Definition locked (disk : option string) : Prop :=
  ∀ i, is_ok (state_load i disk) = false.

Lemma locked_intro (disk : option string) :
  is_ok (state_load (instant 0) disk) = false → locked disk.
Proof.
  intros H i. unfold state_load, readExecutionStateFile in *. cbn [si_read instant] in H. by destruct (si_read i).
Qed.

(** A locked file answers every lookup with an error and is not written any more. *)
Lemma locked_stays (disk : option string) :
  locked disk →
  ∀ i id digest grantID reservationID outcome,
    is_ok (state_lookup i id digest grantID reservationID disk) = false
    ∧ (state_claim i id digest grantID reservationID disk).2 = disk
    ∧ (markStarted i id disk).2 = disk ∧ (state_complete i id outcome disk).2 = disk.
Proof.
  intros H i id digest grantID reservationID outcome. specialize (H i).
  unfold state_lookup, state_claim, markStarted, state_complete, state_update.
  by destruct (state_load i disk).
Qed.

(** An execution id with a control character is a valid id of the protocol ([boundedID]) and not one of the
    file ([boundedStateID]): the claim writes a file that is refused from then on, and the child of the
    request is not even started. *)
Definition control_id : string := "execution" +:+ String "127" "1".

Example control_character_locks_state :
  boundedID control_id = true
  ∧ locked (serve [sample_script control_id start_of_time] 0 None []).1
  ∧ List.filter start_entry (serve [sample_script control_id start_of_time; sample_script "execution-1" month_later] 0 None []).2 = [].
Proof. split; [by vm_compute|]. split; [apply locked_intro; by vm_compute|by vm_compute]. Qed.

(** When the clock is set back a second between the start and the completion of an execution, the completion is
    written with a time before that of the start, and the file is refused from then on. *)
Definition stepping_back : Script :=
  MkScript (frame_of (sample_request "execution-1" start_of_time)) start_of_time (instant start_of_time)
    (instant start_of_time) (instant (start_of_time - second)) None sample_ended.

Example clock_correction_locks_state :
  locked (serve [stepping_back] 0 None []).1
  ∧ List.filter start_entry (serve [stepping_back; sample_script "execution-1" month_later] 0 None []).2
    = [sample_start 0 start_of_time].
Proof. split; [apply locked_intro; by vm_compute|by vm_compute]. Qed.

(** The size of the state is checked before the newline is appended: a state of exactly the limit is
    written, and refused from then on. *)
Lemma full_state_locks (i : StateInstant) (f : executionFile) (text : string) (disk : option string) :
  Z.of_nat (length (xf_Executions f)) <= maxStateRecords → si_write i = WriteDone →
  state_MarshalIndent (MkExecutionFile 1 (xf_Executions f)) = Ok text → len text = maxStateBytes →
  ∃ disk', state_save i f disk = (Ok tt, disk') ∧ locked disk'.
Proof.
  intros Hn Hw Hm Hl. exists (Some (text +:+ newline)). unfold state_save. rewrite Hm, Hw, (proj2 (Z.ltb_ge _ _) Hn).
  cbn [refuse mbind result_bind]. rewrite Hl, Z.ltb_irrefl. split; [done|]. intros j. unfold state_load, readExecutionStateFile.
  destruct (si_read j); [done|]. rewrite len_app, Hl. change (len newline) with 1.
  rewrite (proj2 (Z.ltb_lt maxStateBytes _)) by lia. by rewrite orb_true_r.
Qed.

(** The deadline of a connection does not depend on the command: the frontend waits for the answer to the plan
    for thirty-five seconds, the helper can only write it during the first ten. *)
Example reply_deadline_ignores_command :
  serverRequestTimeout 0 = 10 * second
  ∧ exchangeTimeout 0 (sp_TimeoutSeconds sample_plan * second + 5 * second) = 35 * second.
Proof. by vm_compute. Qed.
